(* ===== verification/_CoqProject ===== *)
-Q . S2P
Prelude.v
Models.v
Usage.v
Pricing.v
Balancer.v
Resilience.v
Admission.v
ApiKeys.v
Coordination.v
DurableBridge.v
QuotaKeys.v
Stores.v
LoadBalancer.v
LoadBalancerFacts.v
LoadBalancerSamples.v
Json.v
Sse.v
ToolCalls.v
Requests.v
RequestFacts.v
ChatResponses.v
ChatFacts.v
ProxyEvents.v
WsRequests.v
WsRelay.v
WsFacts.v
BridgeRelay.v
BridgeRelayFacts.v
HttpStream.v
HttpStreamFacts.v
RequestLogs.v
Ownership.v
OwnershipFacts.v
RequestPolicy.v
PolicyFacts.v
Affinity.v
AffinityFacts.v
Forwarding.v
ForwardingFacts.v
Prepare.v
PrepareFacts.v
AccountAuth.v
AccountAuthFacts.v
UsageRefresh.v
UsageRefreshFacts.v
Images.v
ImagesFacts.v
