(* ===== verification/Prelude.v ===== *)
(** * codex-lb: verification development

    codex-lb is a load balancer for ChatGPT accounts: a FastAPI proxy that
    accepts OpenAI-style requests, authenticates them with API keys that carry
    usage limits, picks one of many upstream accounts, forwards the request
    and records what it cost.  Several instances may share one database.

    ** Parts of the program and the files that model them

    - [Prelude] (this file): results and their [let?] notation, Python numbers,
      strings, ordering, [min]/[max] with a key, dictionaries, table updates,
      the list and sum lemmas all files share, the [pybool] and [pystr]
      rewrite databases and the tactics [pyb], [case_if], [case_if_in].
    - [Models]: enumerations and table rows of [src/app/db/models.py].
    - [Usage]: [PlanTypes] (core/plan_types.py), [UsageCore]
      (core/usage/__init__.py), [Quota] (core/usage/quota.py), [Depletion]
      (core/usage/depletion.py); [UsageFacts] shows the capacity-weighted mean
      of a window, the re-mapping of weekly rows and the status table of the
      quota rules.
    - [Pricing]: [Pricing] (core/usage/pricing.py) and [UsageLogs]
      (core/usage/logs.py); [PricingFacts] shows which models the default
      tables price, the order of the service tiers and the consistency of the
      cost summary.
    - [Balancer]: [Retry] (core/utils/retry.py), [Rendezvous]
      (core/balancer/rendezvous_hash.py), [Logic] (core/balancer/logic.py);
      [BalancerFacts] shows that a selected account is allowed to serve,
      which one is selected, when none is and with what message, what a
      selection changes, that the failure handlers block an account, and the
      health-tier transitions.
    - [Resilience]: [CircuitBreaker], [RetryBudget], [Degradation]
      (core/resilience) and [UpstreamBreaker], the breaker protocol of
      core/clients/proxy.py; [BreakerFacts] is an invariant over every
      interleaving of calls plus the opening and recovery behaviour;
      [RetryBudgetFacts] refines the budget to a sliding-window policy.
    - [Admission]: [Semaphore] (asyncio.Semaphore of the standard library),
      [Overload], [Bulkhead], [Backpressure] (core/resilience),
      [WorkAdmission] (modules/proxy/work_admission.py); permits are
      conserved and lanes are isolated.
    - [ApiKeys]: [LimitWindows], [Repository], [Service] (modules/api_keys);
      [ApiKeyFacts] is the ledger: at every reachable state each counter is
      the sum of the charges of its window, reservations never exceed a limit,
      settlement charges the exact cost, and the maintenance jobs terminate.
    - [Coordination]: [RateLimiter] (core/rate_limiter/db_rate_limiter.py) and
      [Leader] (core/scheduling/leader_election.py); no window exceeds its
      attempts, and the lease of the scheduler is exclusive.
    - [DurableBridge]: [Repo] (modules/proxy/durable_bridge_repository.py) and
      [Coordinator] (modules/proxy/durable_bridge_coordinator.py);
      [BridgeFacts] shows the table invariant, epoch fencing, what a claim
      does on every branch and under races, tenant isolation of lookups and
      that the purge terminates.
    - [QuotaKeys]: [QuotaKeys] (modules/usage/additional_quota_keys.py and
      modules/proxy/additional_model_limits.py) and [ModelRegistry]
      (core/openai/model_registry.py); what a registry file must satisfy to
      load, and that a refresh keeps the plan and model indexes inverse.
    - [Stores]: the tables the load balancer reads and writes: [UsageRepo],
      [AdditionalUsageRepo] (modules/usage/repository.py), [AccountsRepo]
      (modules/accounts/repository.py), [StickyRepo], [StickyService]
      (sticky sessions) and [SelectionCache] (modules/proxy/account_cache.py);
      [StoreFacts] shows that the two SQL dialects agree, what an import
      changes, how long a mapping lives and that the cache is never stale.
    - [LoadBalancer]: modules/proxy/load_balancer.py, every method;
      [LoadBalancerFacts] shows that a selection is admissible and ends within
      its attempts under any interference, the sticky policy, that write-backs
      lose no update, that reported accounts are skipped and that the runtime
      memory is well typed; [LoadBalancerSamples] holds its concrete runs.
    - [Json]: JSON values, [json.dumps] and [json.loads] of the standard
      library with their round trip, member order and sorted keys.
    - [Sse]: [Sse] (core/utils/sse.py) and [OpenAIModels]
      (core/openai/models.py, parsing.py); events written are read back.
    - [ToolCalls]: modules/proxy/tool_call_dedupe.py; a withheld call is a
      repetition, the rewriting of parallel calls and the clean-up of replayed
      input remove repetitions only.
    - [Requests]: [JsonOps], [StrictSchema] (core/openai/strict_schema.py),
      [MessageCoercion] (message_coercion.py) and [ResponsesRequests]
      (requests.py); [RequestFacts] shows which schemas pass, what chat
      messages become and that the payload sent upstream is canonical.
    - [ChatResponses]: core/openai/chat_responses.py; [ChatFacts] shows that a
      streamed and a collected completion agree, that a stream ends once and
      that the events of one call share a slot.
    - [ProxyEvents]: [ProxyErrors] (core/errors.py and the error functions of
      modules/proxy/helpers.py) and [ProxyEvents], what the functions of
      modules/proxy/service.py read in an upstream event.
    - [WsRequests], [WsRelay]: the client websocket of
      modules/proxy/service.py: the requests in flight, the request an event
      belongs to, replays, settlement, timeouts and the reader loop
      ([relay_step]).  [WsFacts] is about every run of a connection
      ([relay_run]): no request is lost or answered twice, an event reaches the
      request it is for, a replay is safe, waiting respects the budgets.
    - [BridgeRelay]: the HTTP requests that share an upstream websocket, same
      file; [BridgeRelayFacts] shows the same conservation while all clients
      are there, and the request that is lost when one has left.
    - [HttpStream]: streaming to an HTTP client, same file: one upstream
      exchange ([_stream_once]) and the selections, refreshes, retries and
      failovers around it ([_stream_with_retry]) as a history of acts;
      [HttpStreamFacts] shows that a visible response is never started again,
      how many exchanges there are, that a continued response stays with its
      owner and that a reservation is closed once, and two failures that are
      handled twice or not at all.
    - [RequestLogs]: modules/request_logs: the log table ([RequestLogsRepo]) and
      the dashboard's view of it ([RequestLogsService]); the status filter
      agrees with the statuses shown, buckets add up, pages tile the listing.
    - [Ownership]: [Owners], the account that served a response, in memory and
      in the log (modules/proxy/service.py), and [Ring], the instances that
      share the bridge sessions (modules/proxy/ring_membership.py and the ring
      functions of service.py); [OwnershipFacts] shows that a continued
      response goes back to its account, that owners are kept and stay in
      their scope, that the instances agree on owners and endpoints.
    - [RequestPolicy]: [ChatRequests] (core/openai/chat_requests.py) and
      [RequestPolicy] (modules/proxy/request_policy.py); [PolicyFacts] shows
      what an API key enforces, which tools and messages pass, and four ways
      around the checks.
    - [Affinity]: what a request is tied to (modules/proxy/service.py): routing
      keys, keys of bridge sessions, the conversation states of websocket
      sessions, and [FilePins], the accounts uploaded files belong to;
      [AffinityFacts] shows which pin decides, that conversations are not
      shared across keys and sessions and how long they are kept, and that an
      owner computes the key of the instance a request came from.
    - [Forwarding]: modules/proxy/http_bridge_forwarding.py; [ForwardingFacts]
      shows that a forwarded request arrives as it was sent, what its signature
      vouches for and what it does not, and that the relay keeps the events.
    - [Prepare]: what is sent for a message of a client websocket
      (modules/proxy/service.py): [Trim] and [Slim], what is left out of the
      input, and [Prepare], the handler with its reservation;
      [PrepareFacts] shows that a conversation sent again is continued from the
      last response and only then, that texts fit, that slimming keeps what is
      recent, that interrupted calls are answered and what becomes of the
      reservation, and four places where the code departs from its word.
    - [AccountAuth]: [Tokens] (core/auth/refresh.py), [RefreshFlights] and
      [Auth] (modules/accounts/auth_manager.py); [AccountAuthFacts] shows that
      a refresh token is used by one flight at a time, that permanent failures
      are remembered, that a rotated token is kept, and the attached account
      that is deactivated all the same.
    - [UsageRefresh]: [UsageClient] (core/usage/models.py and
      core/clients/usage.py) and [UsageUpdater] (modules/usage/updater.py and
      the pass of core/usage/refresh_scheduler.py); [UsageRefreshFacts] shows
      that an account is refreshed by one task at a time, that merged limits
      keep the highest usage, that the stored limits mirror the answer, that a
      recovery loses no update, that a refused account is left alone, and how
      two crossed names lose a row.
    - [Images]: the images endpoints: [ImageParams] (core/openai/images.py),
      [Base64] (data URLs), [Images] (modules/proxy/images_service.py) and
      [ImageRoutes] (the routes of modules/proxy/api.py), with the upstream as
      the lines it yields and how it ends, and the client leaving at any point;
      [ImagesFacts] shows which parameters are accepted and for which model a
      request is sent, that uploads are read back, the shape of a streamed
      answer and that it agrees with a collected one, that the reservation is
      closed once, and the late event that costs the client its images.

    ** How the parts interact

    A request passes [Admission.Bulkhead] and [Admission.Backpressure], then
    [ApiKeys.Service.enforce_limits_for_request] reserves usage (priced by
    [Pricing]); [Requests] and [RequestPolicy] turn the client's payload into
    the one sent upstream and [ToolCalls] cleans its replayed input; on a
    websocket [Prepare] composes these, with the routing key of [Affinity];
    [LoadBalancer.lb_select_account] loads accounts, usage and quotas from
    [Stores] through the selection cache, brings them to states with
    [Usage.Quota], restricts them by [QuotaKeys] and picks one with
    [Balancer.Logic.select_account], pinned by a sticky session; the upstream
    client guards the call with
    [Resilience.UpstreamBreaker] under the permits of
    [Admission.WorkAdmission]; the outcome feeds the failure handlers of
    [Balancer.Logic] through the load balancer and settles the reservation.
    The events that come back pass [Sse] and [ToolCalls], and
    [ChatResponses] when the client speaks the chat format; on a websocket
    [WsRelay] and [BridgeRelay] hand them to the requests in flight, under the
    [Admission.Semaphore] that lets one request wait for its response at a
    time.  [HttpStream] drives a streamed request through selection, refresh
    and failover, bound by [Ownership.Owners] to the account that served the
    response it continues.  [DurableBridge] and [Ownership.Ring] decide
    which instance owns a long-lived session, to which [Forwarding] sends the
    request, [Coordination] which instance
    runs the background jobs and how often a login may be tried.  One of these
    jobs is [UsageRefresh], which fills the usage tables of [Stores] that the
    load balancer reads, with tokens renewed by [AccountAuth].

    ** Conventions

    - A Python [float] is an exact rational ([Q]): rounding, NaN and infinity
      are outside the model.  An [int] is [Z].  A [str] is a Standard Library
      [string] of ASCII characters; in [Json] and the files on top of it a
      character above 127 is the bytes of its UTF-8 form, a [float] is a
      decimal as it is written, and infinity and NaN are values.
    - A naive UTC [datetime] is [Z] microseconds; [Models.datetime] keeps the
      optional offset where the code looks at it.
    - Exceptions are the [Err] side of [res]; a method that mutates state
      before it raises returns the state together with the error.
    - A dict whose order or duplicates matter is an association list
      ([dict]); a table is the list of its rows.
    - The clock, random draws, fresh ids and SHA-256 are arguments.  A method
      that takes an [asyncio.Lock], or a transaction, is one atomic
      transformer; where the code releases the lock or reads before it writes
      the model splits there ([Resilience.UpstreamBreaker],
      [DurableBridge.Repo.claim_session], [DurableBridge.Repo.commit_row]).

    ** Fuel

    Loops that are not structural take fuel and return [None] without it:
    [ApiKeys.Repository.release_stale_loop] and [reset_expired_loop] and
    [DurableBridge.Repo.purge_loop] get one unit per row of the table plus
    one, and their termination theorems show that this is always enough, since
    every pass removes at least one of the rows it looks for.
    [ApiKeys.LimitWindows.advance_loop] gets the number of window lengths
    between the two times plus one, and [advance_limit_reset_spec] shows the
    result is the first grid point in the future.
    [Stores.AccountsRepo.next_available_loop] gets one unit per row plus one,
    [LoadBalancer.select_loop] the four attempts the code allows
    ([lb_selection_total]), the JSON reader two units per character
    ([Json.read_fuel], enough by the round trip), and
    [Requests.StrictSchema.find_from] the depth of the schema
    ([find_from_spec]).  [Forwarding.drain] gets one unit per byte of the
    buffer, as every turn takes at least the separator off it
    ([events_relayed]).

    ** Not modelled

    The HTTP routes, request and response schemas, the parts of the proxy
    service (modules/proxy/service.py) that are not named above (opening
    upstream connections, creating and finding bridge sessions, compaction and
    files), the OAuth login flows and the decoding of id tokens, the dashboard,
    metrics, logging, migrations and the front end: mostly I/O and glue around
    the parts above.  In the relays, sending to a client and reconnecting are outcomes
    given as arguments, and what other components are told is a list of
    effects; a connection that cannot be opened is not modelled.  The database
    is modelled at the level of the statements the repositories issue, not of
    isolation levels; the foreign key from sessions to accounts is left out. *)

From Stdlib Require Export QArith Qround Lqa Ascii.
From stdpp Require Export base gmap strings pretty numbers list.
From coqutil Require Export Datatypes.RecordSetters.
Export DoubleBraceUpdate.
#[global] Arguments constant {E} newValue _ /.

#[global] Open Scope string_scope.
#[global] Open Scope list_scope.
#[global] Open Scope bool_scope.

(** ** Results of code that raises

    A Python function that may raise returns [res E A]: [Ok] is a normal
    return, [Err] the exception. *)

Inductive res (E A : Type) : Type :=
| Ok (a : A)
| Err (e : E).
Arguments Ok {E A} a.
Arguments Err {E A} e.

Definition res_bind {E A B} (x : res E A) (f : A → res E B) : res E B :=
  match x with
  | Ok a => f a
  | Err e => Err e
  end.

Declare Scope py_scope.
Delimit Scope py_scope with py.
#[global] Open Scope py_scope.

Notation "'let?' x := c1 'in' c2" := (res_bind c1 (fun x => c2))
  (at level 10, x name, c1 at level 100, c2 at level 200) : py_scope.

Definition is_ok {E A} (r : res E A) : bool :=
  match r with Ok _ => true | Err _ => false end.

Lemma res_bind_ok {E A B} (x : res E A) (f : A → res E B) b :
  res_bind x f = Ok b ↔ ∃ a, x = Ok a ∧ f a = Ok b.
Proof.
  split.
  - destruct x as [a|e]; simpl; [by exists a | done].
  - by intros (a & -> & ?).
Qed.

(** ** Numbers

    Python integers are [Z].  Python floats are read as exact rationals [Q]:
    rounding, infinities and NaN are outside the model.  Comparisons are
    boolean functions so that every definition evaluates. *)

Definition qle (x y : Q) : bool := Qle_bool x y.
Definition qlt (x y : Q) : bool := negb (Qle_bool y x).
Definition qeq (x y : Q) : bool := Qeq_bool x y.

Lemma qle_true x y : qle x y = true ↔ (x <= y)%Q.
Proof. apply Qle_bool_iff. Qed.
Lemma qle_false x y : qle x y = false ↔ (y < x)%Q.
Proof.
  unfold qle. rewrite <- not_true_iff_false, Qle_bool_iff. split.
  - apply Qnot_le_lt.
  - apply Qlt_not_le.
Qed.
Lemma qlt_true x y : qlt x y = true ↔ (x < y)%Q.
Proof. unfold qlt. rewrite negb_true_iff. apply qle_false. Qed.
Lemma qlt_false x y : qlt x y = false ↔ (y <= x)%Q.
Proof. unfold qlt. rewrite negb_false_iff. apply qle_true. Qed.
Lemma qeq_true x y : qeq x y = true ↔ (x == y)%Q.
Proof. apply Qeq_bool_iff. Qed.
Lemma qeq_false x y : qeq x y = false ↔ ¬ (x == y)%Q.
Proof. unfold qeq. by rewrite <- not_true_iff_false, Qeq_bool_iff. Qed.

#[global] Instance qle_proper : Proper (Qeq ==> Qeq ==> eq) qle.
Proof. intros x x' Hx y y' Hy. unfold qle. by rewrite Hx, Hy. Qed.
#[global] Instance qlt_proper : Proper (Qeq ==> Qeq ==> eq) qlt.
Proof. intros x x' Hx y y' Hy. unfold qlt. by rewrite Hx, Hy. Qed.
#[global] Instance qeq_proper : Proper (Qeq ==> Qeq ==> eq) qeq.
Proof. intros x x' Hx y y' Hy. unfold qeq. by rewrite Hx, Hy. Qed.

Create HintDb pylib discriminated.
Create Rewrite HintDb pybool.
Create Rewrite HintDb pystr.
#[export] Hint Rewrite qle_true qle_false qlt_true qlt_false qeq_true qeq_false
  andb_true_iff andb_false_iff orb_true_iff orb_false_iff negb_true_iff negb_false_iff
  Z.ltb_lt Z.ltb_ge Z.leb_le Z.leb_gt Z.eqb_eq Z.eqb_neq : pybool.

(** Turns the boolean tests of the code into propositions. *)
Ltac pyb := autorewrite with pybool in *.
(** Case analysis on the tests of the goal, innermost conditions first. *)
Ltac case_if :=
  match goal with
  | |- context [if ?b then _ else _] =>
      lazymatch b with
      | context [if _ then _ else _] => fail
      | _ => let H := fresh "Hb" in destruct b eqn:H
      end
  end.
(** Destructs the boolean scrutinee of a hypothesis. *)
Ltac case_if_in H :=
  match type of H with
  | context [if ?b then _ else _] =>
      lazymatch b with
      | context [if _ then _ else _] => fail
      | _ => let E := fresh "Hb" in destruct b eqn:E
      end
  end.

(** [max(a, b)] and [min(a, b)]: the first argument wins ties. *)
Definition qmax (a b : Q) : Q := if qlt a b then b else a.
Definition qmin (a b : Q) : Q := if qlt b a then b else a.

Lemma qmax_spec a b : (a <= qmax a b ∧ b <= qmax a b)%Q ∧ (qmax a b = a ∨ qmax a b = b).
Proof. unfold qmax. destruct (qlt a b) eqn:E; pyb; split; auto; split; lra. Qed.
Lemma qmin_spec a b : (qmin a b <= a ∧ qmin a b <= b)%Q ∧ (qmin a b = a ∨ qmin a b = b).
Proof. unfold qmin. destruct (qlt b a) eqn:E; pyb; split; auto; split; lra. Qed.

(** [int(x)] truncates toward zero. *)
Definition py_int (x : Q) : Z := Z.quot (Qnum x) (Zpos (Qden x)).

(** [round(x)] and ["{x:.0f}"]: to the nearest integer, ties to even. *)
Definition py_round (x : Q) : Z :=
  let f := Qfloor x in
  let r := (x - inject_Z f)%Q in
  if qlt r (1 # 2) then f
  else if qlt (1 # 2) r then (f + 1)%Z
  else if Z.even f then f else (f + 1)%Z.

(** [round(x, n)]: half to even at [n] decimal digits. *)
Definition py_round_digits (x : Q) (n : nat) : Q :=
  let scale := inject_Z (10 ^ Z.of_nat n) in
  (inject_Z (py_round (x * scale)) / scale)%Q.

Lemma py_int_floor (x : Q) : (0 <= x)%Q → py_int x = Qfloor x.
Proof.
  destruct x as [n d]. unfold py_int, Qfloor, Qle. simpl. intros H.
  apply Z.quot_div_nonneg; lia.
Qed.

Lemma py_int_nonneg (x : Q) : (0 <= x)%Q → (0 <= py_int x)%Z.
Proof.
  intros H. rewrite py_int_floor by done.
  change 0%Z with (Qfloor 0). by apply Qfloor_resp_le.
Qed.

Lemma py_int_inject (z : Z) : py_int (inject_Z z) = z.
Proof. unfold py_int. simpl. apply Z.quot_1_r. Qed.

Lemma py_round_bounds x : (inject_Z (py_round x) - (1#2) <= x <= inject_Z (py_round x) + (1#2))%Q.
Proof.
  unfold py_round. pose proof (Qfloor_le x) as H1. pose proof (Qlt_floor x) as H2.
  rewrite inject_Z_plus in H2. change (inject_Z 1) with 1%Q in H2.
  repeat case_if; pyb; rewrite ?inject_Z_plus; change (inject_Z 1) with 1%Q; split; lra.
Qed.

Lemma py_round_inject z : py_round (inject_Z z) = z.
Proof.
  unfold py_round. rewrite Qfloor_Z.
  destruct (qlt (inject_Z z - inject_Z z) (1#2)) eqn:E; [done|]. pyb. lra.
Qed.

(** ** Truth values

    [if x] on an optional number is false for [None] and for zero, and
    [x or d] is [d] in exactly those cases. *)

Definition truthy_q (o : option Q) : bool :=
  match o with Some x => negb (qeq x 0) | None => false end.
Definition truthy_z (o : option Z) : bool :=
  match o with Some x => negb (x =? 0)%Z | None => false end.
Definition truthy_s (o : option string) : bool :=
  match o with Some s => negb (String.eqb s "") | None => false end.
Definition or_q (o : option Q) (d : Q) : Q :=
  match o with Some x => if qeq x 0 then d else x | None => d end.
Definition or_z (o : option Z) (d : Z) : Z :=
  match o with Some x => if (x =? 0)%Z then d else x | None => d end.
Definition or_s (o : option string) (d : string) : string :=
  match o with Some x => if String.eqb x "" then d else x | None => d end.
(** [x or None] for a string. *)
Definition none_if_empty (s : string) : option string :=
  if String.eqb s "" then None else Some s.

(** ** Orders

    Python's [<] on numbers, strings and tuples (lexicographic), as one
    comparison function per type, with the laws the selection proofs use. *)

Class PyOrd (K : Type) := pycmp : K → K → comparison.

Class PyOrdLaws (K : Type) `{PyOrd K} := {
  pycmp_refl : ∀ x, pycmp x x = Eq;
  pycmp_antisym : ∀ x y, pycmp y x = CompOpp (pycmp x y);
  pycmp_eq_l : ∀ x y z, pycmp x y = Eq → pycmp x z = pycmp y z;
  pycmp_lt_trans : ∀ x y z, pycmp x y = Lt → pycmp y z = Lt → pycmp x z = Lt;
}.

Definition pylt {K} `{PyOrd K} (x y : K) : bool :=
  match pycmp x y with Lt => true | _ => false end.

#[global] Instance PyOrd_Q : PyOrd Q := Qcompare.
#[global] Instance PyOrd_Z : PyOrd Z := Z.compare.
#[global] Instance PyOrd_string : PyOrd string := String.compare.
#[global] Instance PyOrd_prod {A B} `{PyOrd A, PyOrd B} : PyOrd (A * B) :=
  fun x y => match pycmp (fst x) (fst y) with
             | Eq => pycmp (snd x) (snd y)
             | c => c
             end.

#[global] Instance PyOrdLaws_Q : PyOrdLaws Q.
Proof.
  split; unfold pycmp, PyOrd_Q; intros *.
  - by apply Qeq_alt.
  - symmetry. apply Qcompare_antisym.
  - intros H%Qeq_alt. by rewrite H.
  - intros H1%Qlt_alt H2%Qlt_alt. apply Qlt_alt. by eapply Qlt_trans.
Qed.

#[global] Instance PyOrdLaws_Z : PyOrdLaws Z.
Proof.
  split; unfold pycmp, PyOrd_Z; intros *.
  - apply Z.compare_refl.
  - apply Z.compare_antisym.
  - intros ->%Z.compare_eq_iff. done.
  - rewrite !Z.compare_lt_iff. lia.
Qed.

Lemma ascii_compare_lt a b : Ascii.compare a b = Lt ↔ (Ascii.N_of_ascii a < Ascii.N_of_ascii b)%N.
Proof. unfold Ascii.compare. apply N.compare_lt_iff. Qed.

Lemma ascii_compare_eq a b : Ascii.compare a b = Eq ↔ a = b.
Proof.
  unfold Ascii.compare. rewrite N.compare_eq_iff. split; [|by intros ->].
  intros H%(f_equal Ascii.ascii_of_N). by rewrite !Ascii.ascii_N_embedding in H.
Qed.

Lemma string_compare_trans x y z :
  String.compare x y = Lt → String.compare y z = Lt → String.compare x z = Lt.
Proof.
  revert y z. induction x as [|a x IH]; intros [|b y] [|c z]; simpl; try done.
  destruct (Ascii.compare a b) eqn:E1; try done;
    destruct (Ascii.compare b c) eqn:E2; try done; intros H1 H2.
  - apply ascii_compare_eq in E1 as ->, E2 as ->.
    replace (Ascii.compare c c) with Eq by (symmetry; by apply ascii_compare_eq). eauto.
  - apply ascii_compare_eq in E1 as ->. by rewrite E2.
  - apply ascii_compare_eq in E2 as ->. by rewrite E1.
  - assert (Ascii.compare a c = Lt) as ->; [|done].
    rewrite ascii_compare_lt in *. lia.
Qed.

#[global] Instance PyOrdLaws_string : PyOrdLaws string.
Proof.
  split; unfold pycmp, PyOrd_string; intros *.
  - induction x as [|a x IH]; simpl; [done|].
    replace (Ascii.compare a a) with Eq; [done|]. symmetry. by apply ascii_compare_eq.
  - symmetry. rewrite String.compare_antisym. by destruct (String.compare y x).
  - intros ->%String.compare_eq_iff. done.
  - apply string_compare_trans.
Qed.

#[global] Instance PyOrdLaws_prod {A B} `{PyOrdLaws A, PyOrdLaws B} : PyOrdLaws (A * B).
Proof.
  split; unfold pycmp, PyOrd_prod; intros *.
  - by rewrite !pycmp_refl.
  - rewrite (pycmp_antisym (fst x) (fst y)).
    destruct (pycmp (fst x) (fst y)); simpl; try done. apply pycmp_antisym.
  - destruct (pycmp (fst x) (fst y)) eqn:E; try done. intros E2.
    rewrite (pycmp_eq_l _ _ (fst z) E). destruct (pycmp (fst y) (fst z)); try done.
    by apply pycmp_eq_l.
  - destruct (pycmp (fst x) (fst y)) eqn:E1; try done; intros HL1;
    destruct (pycmp (fst y) (fst z)) eqn:E2; try done; intros HL2.
    + rewrite (pycmp_eq_l _ _ (fst z) E1), E2. by eapply pycmp_lt_trans.
    + by rewrite (pycmp_eq_l _ _ (fst z) E1), E2.
    + assert (pycmp (fst z) (fst y) = Eq) as E3 by (rewrite pycmp_antisym, E2; done).
      rewrite (pycmp_antisym (fst z) (fst x)), (pycmp_eq_l _ _ (fst x) E3).
      rewrite (pycmp_antisym (fst x) (fst y)), E1. done.
    + by rewrite (pycmp_lt_trans _ _ _ E1 E2).
Qed.

Section PyOrdFacts.
Context {K : Type} `{PyOrdLaws K}.

Lemma pylt_irrefl (x : K) : pylt x x = false.
Proof. unfold pylt. by rewrite pycmp_refl. Qed.

Lemma pylt_asym (x y : K) : pylt x y = true → pylt y x = false.
Proof. unfold pylt. rewrite (pycmp_antisym x y). by destruct (pycmp x y). Qed.

Lemma pylt_trans (x y z : K) : pylt x y = true → pylt y z = true → pylt x z = true.
Proof.
  unfold pylt. destruct (pycmp x y) eqn:E1; try done.
  destruct (pycmp y z) eqn:E2; try done. by rewrite (pycmp_lt_trans _ _ _ E1 E2).
Qed.

(** [not (y < x)] is transitive: the order is total up to equivalence. *)
Lemma pylt_le_trans (x y z : K) : pylt y x = false → pylt z y = false → pylt z x = false.
Proof.
  intros HA HB. destruct (pylt z x) eqn:E; [|done]. exfalso. revert HA HB E. unfold pylt.
  destruct (pycmp y x) eqn:E1; try done; destruct (pycmp z y) eqn:E2; try done;
  destruct (pycmp z x) eqn:E3; try done; intros _ _ _.
  - rewrite (pycmp_eq_l _ _ x E2), E1 in E3. done.
  - assert (pycmp x y = Eq) as E4 by (rewrite pycmp_antisym, E1; done).
    assert (pycmp x z = Gt) as E5 by (rewrite pycmp_antisym, E3; done).
    rewrite (pycmp_eq_l _ _ z E4), pycmp_antisym, E2 in E5. done.
  - rewrite (pycmp_eq_l _ _ x E2), E1 in E3. done.
  - assert (pycmp y z = Lt) as E4 by (rewrite pycmp_antisym, E2; done).
    rewrite (pycmp_lt_trans _ _ _ E4 E3) in E1. done.
Qed.

Lemma pylt_lt_le_trans (x y z : K) : pylt x y = true → pylt z y = false → pylt x z = true.
Proof.
  intros HA HB. destruct (pylt x z) eqn:E; [done|].
  by rewrite (pylt_le_trans y z x HB E) in HA.
Qed.
End PyOrdFacts.

(** ** [min(seq, key=f)] and [max(seq, key=f)]

    The first extremal element; [None] stands for the [ValueError] of an
    empty sequence. *)

Section MinMax.
Context {A K : Type} `{PyOrd K} (key : A → K).

Fixpoint min_from (best : A) (l : list A) : A :=
  match l with
  | [] => best
  | x :: l' => if pylt (key x) (key best) then min_from x l' else min_from best l'
  end.
Fixpoint max_from (best : A) (l : list A) : A :=
  match l with
  | [] => best
  | x :: l' => if pylt (key best) (key x) then max_from x l' else max_from best l'
  end.
Definition min_by (l : list A) : option A :=
  match l with [] => None | x :: l' => Some (min_from x l') end.
Definition max_by (l : list A) : option A :=
  match l with [] => None | x :: l' => Some (max_from x l') end.

Lemma min_by_is_Some l : l ≠ [] → is_Some (min_by l).
Proof. destruct l; [done|]. simpl. eauto. Qed.
Lemma max_by_is_Some l : l ≠ [] → is_Some (max_by l).
Proof. destruct l; [done|]. simpl. eauto. Qed.


Lemma min_from_in b l : min_from b l ∈ b :: l.
Proof.
  revert b. induction l as [|x l IH]; intros b; simpl; [set_solver|].
  case_if; [specialize (IH x) | specialize (IH b)]; set_solver.
Qed.
Lemma max_from_in b l : max_from b l ∈ b :: l.
Proof.
  revert b. induction l as [|x l IH]; intros b; simpl; [set_solver|].
  case_if; [specialize (IH x) | specialize (IH b)]; set_solver.
Qed.

Lemma min_by_elem l m : min_by l = Some m → m ∈ l.
Proof. destruct l as [|x l]; [done|]. simpl. intros [= <-]. apply min_from_in. Qed.
Lemma max_by_elem l m : max_by l = Some m → m ∈ l.
Proof. destruct l as [|x l]; [done|]. simpl. intros [= <-]. apply max_from_in. Qed.

Context `{!PyOrdLaws K}.

Lemma min_from_le b l : pylt (key b) (key (min_from b l)) = false.
Proof.
  revert b. induction l as [|x l IH]; intros b; simpl; [apply pylt_irrefl|].
  case_if; [|apply IH]. eapply pylt_le_trans; [apply IH|]. by apply pylt_asym.
Qed.

Lemma min_from_min b l y : y ∈ b :: l → pylt (key y) (key (min_from b l)) = false.
Proof.
  revert b. induction l as [|x l IH]; intros b; simpl.
  - intros ->%list_elem_of_singleton. apply pylt_irrefl.
  - intros [->|[->|Hy]%elem_of_cons]%elem_of_cons; case_if.
    + eapply pylt_le_trans; [apply min_from_le|]. by apply pylt_asym.
    + apply min_from_le.
    + apply min_from_le.
    + eapply pylt_le_trans; [apply min_from_le|]. done.
    + apply IH. by right.
    + apply IH. by right.
Qed.

Lemma min_by_min l m y : min_by l = Some m → y ∈ l → pylt (key y) (key m) = false.
Proof. destruct l as [|x l]; [done|]. simpl. intros [= <-]. apply min_from_min. Qed.

Lemma max_from_ge b l : pylt (key (max_from b l)) (key b) = false.
Proof.
  revert b. induction l as [|x l IH]; intros b; simpl; [apply pylt_irrefl|].
  case_if; [|apply IH]. eapply pylt_le_trans; [|apply IH]. by apply pylt_asym.
Qed.

Lemma max_from_max b l y : y ∈ b :: l → pylt (key (max_from b l)) (key y) = false.
Proof.
  revert b. induction l as [|x l IH]; intros b; simpl.
  - intros ->%list_elem_of_singleton. apply pylt_irrefl.
  - intros [->|[->|Hy]%elem_of_cons]%elem_of_cons; case_if.
    + eapply pylt_le_trans; [|apply max_from_ge]. by apply pylt_asym.
    + apply max_from_ge.
    + apply max_from_ge.
    + eapply pylt_le_trans; [|apply max_from_ge]. done.
    + apply IH. by right.
    + apply IH. by right.
Qed.

Lemma max_by_max l m y : max_by l = Some m → y ∈ l → pylt (key m) (key y) = false.
Proof. destruct l as [|x l]; [done|]. simpl. intros [= <-]. apply max_from_max. Qed.
End MinMax.

(** ** Strings

    Python text is [string], one [ascii] per character: code points above
    127 are outside the model, so [lower] and the whitespace class are the
    ASCII ones (Python counts 9-13, 28-31 and 32 as whitespace). *)

Definition lower_ascii (c : ascii) : ascii :=
  let n := Ascii.nat_of_ascii c in
  if Nat.leb 65 n && Nat.leb n 90 then Ascii.ascii_of_nat (n + 32) else c.

Fixpoint py_lower (s : string) : string :=
  match s with
  | EmptyString => EmptyString
  | String c s' => String (lower_ascii c) (py_lower s')
  end.

Definition is_space (c : ascii) : bool :=
  let n := Ascii.nat_of_ascii c in
  (Nat.leb 9 n && Nat.leb n 13) || (Nat.leb 28 n && Nat.leb n 32).

Fixpoint lstrip (s : string) : string :=
  match s with
  | EmptyString => EmptyString
  | String c s' => if is_space c then lstrip s' else s
  end.

Fixpoint rstrip (s : string) : string :=
  match s with
  | EmptyString => EmptyString
  | String c s' =>
      match rstrip s' with
      | EmptyString => if is_space c then EmptyString else String c EmptyString
      | t => String c t
      end
  end.

Definition py_strip (s : string) : string := rstrip (lstrip s).

Definition startswith (p s : string) : bool := String.prefix p s.

(** [s.endswith(p)]. *)
Fixpoint endswith (p s : string) : bool :=
  String.eqb s p ||
  match s with EmptyString => false | String _ s' => endswith p s' end.

(** [p in s] for strings. *)
Fixpoint contains (p s : string) : bool :=
  String.prefix p s ||
  match s with EmptyString => false | String _ s' => contains p s' end.

(** [x in collection] for lists of strings. *)
Definition mem (x : string) (l : list string) : bool := existsb (String.eqb x) l.

Lemma mem_spec x l : mem x l = true ↔ x ∈ l.
Proof.
  unfold mem. rewrite existsb_exists, list_elem_of_In. split.
  - intros (y & Hy & ->%String.eqb_eq). done.
  - intros Hx. exists x. by rewrite String.eqb_refl.
Qed.

Lemma mem_false x l : mem x l = false ↔ x ∉ l.
Proof. rewrite <- mem_spec. by destruct (mem x l). Qed.

Lemma lower_ascii_idem c : lower_ascii (lower_ascii c) = lower_ascii c.
Proof. by destruct c as [[] [] [] [] [] [] [] []]. Qed.

Lemma is_space_lower c : is_space (lower_ascii c) = is_space c.
Proof. by destruct c as [[] [] [] [] [] [] [] []]. Qed.

Lemma py_lower_idem s : py_lower (py_lower s) = py_lower s.
Proof. induction s as [|c s IH]; simpl; [done|]. by rewrite lower_ascii_idem, IH. Qed.

Lemma py_lower_empty s : py_lower s = "" ↔ s = "".
Proof. by destruct s. Qed.

Lemma lstrip_lower s : lstrip (py_lower s) = py_lower (lstrip s).
Proof. induction s as [|c s IH]; simpl; [done|]. rewrite is_space_lower. by case_if. Qed.

Lemma rstrip_lower s : rstrip (py_lower s) = py_lower (rstrip s).
Proof.
  induction s as [|c s IH]; simpl; [done|]. rewrite IH, is_space_lower.
  destruct (rstrip s); simpl; [|done]. by case_if.
Qed.

Lemma strip_lower s : py_strip (py_lower s) = py_lower (py_strip s).
Proof. unfold py_strip. by rewrite lstrip_lower, rstrip_lower. Qed.

Lemma rstrip_idem s : rstrip (rstrip s) = rstrip s.
Proof.
  induction s as [|c s IH]; simpl; [done|].
  destruct (rstrip s) as [|d t] eqn:E.
  - case_if; simpl; [done|]. by rewrite Hb.
  - cbn [rstrip]. cbn [rstrip] in IH. by rewrite IH.
Qed.

(** A string that does not begin with whitespace keeps that under [rstrip]. *)
Lemma lstrip_rstrip_id s : lstrip s = s → lstrip (rstrip s) = rstrip s.
Proof.
  destruct s as [|c s]; [done|]. cbn [lstrip]. case_if.
  - intros H. exfalso. assert (String.length (lstrip s) = S (String.length s)) as HL
      by (rewrite H; done).
    assert (∀ t, String.length (lstrip t) <= String.length t)%nat as Hle.
    { induction t as [|d t IH]; simpl; [lia|]. case_if; simpl; lia. }
    specialize (Hle s). lia.
  - intros _. cbn [rstrip]. destruct (rstrip s); cbn [lstrip]; rewrite ?Hb; cbn [lstrip]; rewrite ?Hb; done.
Qed.

Lemma lstrip_idem s : lstrip (lstrip s) = lstrip s.
Proof. induction s as [|c s IH]; simpl; [done|]. case_if; simpl; [done|]. by rewrite Hb. Qed.

Lemma py_strip_idem s : py_strip (py_strip s) = py_strip s.
Proof.
  unfold py_strip. rewrite lstrip_rstrip_id by apply lstrip_idem. apply rstrip_idem.
Qed.

#[export] Hint Rewrite py_lower_idem py_strip_idem strip_lower : pystr.

(** ** Dictionaries

    A Python dict whose iteration order matters is a list of pairs in
    insertion order with distinct keys: assignment replaces the value in
    place or appends. *)

Definition dict (V : Type) := list (string * V).

Fixpoint dict_get {V} (d : dict V) (k : string) : option V :=
  match d with
  | [] => None
  | (k', v) :: d' => if String.eqb k k' then Some v else dict_get d' k
  end.

Fixpoint dict_set {V} (d : dict V) (k : string) (v : V) : dict V :=
  match d with
  | [] => [(k, v)]
  | (k', v') :: d' => if String.eqb k k' then (k', v) :: d' else (k', v') :: dict_set d' k v
  end.

(** [{key(x): x for x in l}]. *)
Definition dict_of {V} (key : V → string) (l : list V) : dict V :=
  fold_left (fun d x => dict_set d (key x) x) l [].

Lemma dict_get_set {V} (d : dict V) k v k' :
  dict_get (dict_set d k v) k' = if String.eqb k' k then Some v else dict_get d k'.
Proof.
  induction d as [|[k1 v1] d IH]; simpl; [done|].
  destruct (String.eqb_spec k k1) as [->|Hk]; simpl.
  - by destruct (String.eqb k' k1).
  - rewrite IH. destruct (String.eqb_spec k' k1) as [->|]; [|done].
    destruct (String.eqb_spec k1 k); congruence.
Qed.

Lemma dict_get_Some_in {V} (d : dict V) k v : dict_get d k = Some v → (k, v) ∈ d.
Proof.
  induction d as [|[k1 v1] d IH]; simpl; [done|].
  destruct (String.eqb_spec k k1) as [->|]; [intros [= ->]; by left|]. intros ?. right. auto.
Qed.

Lemma dict_set_keys {V} (d : dict V) k v k' : k' ∈ (dict_set d k v).*1 ↔ k' = k ∨ k' ∈ d.*1.
Proof.
  induction d as [|[k1 v1] d IH]; simpl; [set_solver|].
  destruct (String.eqb_spec k k1) as [->|]; simpl; set_solver.
Qed.

Lemma dict_set_NoDup {V} (d : dict V) k v : NoDup d.*1 → NoDup (dict_set d k v).*1.
Proof.
  induction d as [|[k1 v1] d IH]; simpl; [intros; apply NoDup_singleton|].
  rewrite NoDup_cons. intros [Hk1 Hd].
  destruct (String.eqb_spec k k1) as [->|]; simpl; apply NoDup_cons; [done|].
  split; [|auto]. rewrite dict_set_keys. naive_solver.
Qed.

Lemma dict_set_in {V} (d : dict V) k v p : p ∈ dict_set d k v → p = (k, v) ∨ p ∈ d.
Proof.
  induction d as [|[k1 v1] d IH]; simpl; [set_solver|].
  destruct (String.eqb_spec k k1) as [->|]; simpl; set_solver.
Qed.

Lemma dict_get_in {V} (d : dict V) k v : NoDup d.*1 → (k, v) ∈ d → dict_get d k = Some v.
Proof.
  induction d as [|[k1 v1] d IH]; simpl; [set_solver|].
  rewrite NoDup_cons. intros [Hk1 Hd] [[= -> ->]|Hin]%elem_of_cons.
  - by rewrite String.eqb_refl.
  - destruct (String.eqb_spec k k1) as [->|]; [|auto].
    destruct Hk1. apply list_elem_of_fmap. by exists (k1, v).
Qed.

Lemma dict_of_NoDup {V} (key : V → string) l : NoDup (dict_of key l).*1.
Proof.
  unfold dict_of. assert (∀ d, NoDup d.*1 → NoDup
    (fold_left (fun d x => dict_set d (key x) x) l d).*1) as H; [|apply H; constructor].
  induction l as [|x l IH]; intros d Hd; simpl; [done|]. apply IH. by apply dict_set_NoDup.
Qed.

Lemma dict_of_in {V} (key : V → string) l k v : (k, v) ∈ dict_of key l → v ∈ l ∧ k = key v.
Proof.
  unfold dict_of. assert (∀ d, (k, v) ∈ fold_left (fun d x => dict_set d (key x) x) l d →
    (v ∈ l ∧ k = key v) ∨ (k, v) ∈ d) as H.
  { induction l as [|x l IH]; intros d; simpl; [by right|].
    intros [[? ?]|[[= -> ->]|?]%dict_set_in]%IH; [left; split; [by right|done]| |by right].
    left. split; [by left|done]. }
  intros [?|?]%H; set_solver.
Qed.

Lemma dict_of_keys {V} (key : V → string) l k : k ∈ (dict_of key l).*1 ↔ ∃ v, v ∈ l ∧ key v = k.
Proof.
  unfold dict_of. assert (∀ d, k ∈ (fold_left (fun d x => dict_set d (key x) x) l d).*1 ↔
    (∃ v, v ∈ l ∧ key v = k) ∨ k ∈ d.*1) as H.
  { induction l as [|x l IH]; intros d; simpl; [set_solver|].
    rewrite IH, dict_set_keys. set_solver. }
  rewrite H. set_solver.
Qed.

(** ** Sums *)

Definition qsum (l : list Q) : Q := fold_left Qplus l 0%Q.

Lemma fold_left_Qplus_acc l a : (fold_left Qplus l a == a + fold_left Qplus l 0)%Q.
Proof.
  revert a. induction l as [|x l IH]; intros a; simpl; [lra|].
  rewrite IH, (IH (0 + x)%Q). lra.
Qed.

Lemma qsum_cons x l : (qsum (x :: l) == x + qsum l)%Q.
Proof. unfold qsum. simpl. rewrite fold_left_Qplus_acc. lra. Qed.

Lemma qsum_app l1 l2 : (qsum (l1 ++ l2) == qsum l1 + qsum l2)%Q.
Proof.
  induction l1 as [|x l IH]; [symmetry; apply Qplus_0_l|].
  change ((x :: l) ++ l2) with (x :: (l ++ l2)). rewrite !qsum_cons, IH. lra.
Qed.

Lemma qsum_nonneg l : (∀ x, x ∈ l → 0 <= x)%Q → (0 <= qsum l)%Q.
Proof.
  induction l as [|x l IH]; intros H; [cbn; lra|]. rewrite qsum_cons.
  assert (0 <= x)%Q by (apply H; by left). assert (0 <= qsum l)%Q; [|lra].
  apply IH. intros y Hy. apply H. by right.
Qed.

Lemma qsum_perm l1 l2 : l1 ≡ₚ l2 → (qsum l1 == qsum l2)%Q.
Proof.
  induction 1 as [|x l l' _ IH|x y l|l1 l2 l3 _ IH1 _ IH2]; [done| | |by rewrite IH1];
    rewrite !qsum_cons; [by rewrite IH|lra].
Qed.

Definition zsum (l : list Z) : Z := fold_right Z.add 0%Z l.

Lemma zsum_app l1 l2 : zsum (l1 ++ l2) = (zsum l1 + zsum l2)%Z.
Proof. induction l1 as [|x l1 IH]; simpl; [done|]. rewrite IH. lia. Qed.

Lemma zsum_nonneg l : (∀ x, x ∈ l → 0 <= x)%Z → (0 <= zsum l)%Z.
Proof.
  induction l as [|x l IH]; intros H; simpl; [lia|].
  assert (0 <= x)%Z by (apply H; by left). assert (0 <= zsum l)%Z; [|lia].
  apply IH. intros y Hy. apply H. by right.
Qed.

Lemma zsum_map_nonneg {A} (f : A → Z) l : (∀ x, x ∈ l → 0 <= f x)%Z → (0 <= zsum (map f l))%Z.
Proof.
  intros H. apply zsum_nonneg. intros y Hy.
  apply list_elem_of_In, in_map_iff in Hy as (x & <- & Hx). apply H. by apply list_elem_of_In.
Qed.

(** One summand is at most the sum of nonnegative ones. *)
Lemma zsum_map_ge {A} (f : A → Z) l x :
  (∀ y, y ∈ l → 0 <= f y)%Z → x ∈ l → (f x <= zsum (map f l))%Z.
Proof.
  induction l as [|y l IH]; intros Hp; [set_solver|]. intros [->|Hx]%elem_of_cons; simpl.
  - assert (0 <= zsum (map f l))%Z; [|lia]. apply zsum_map_nonneg. intros; apply Hp; by right.
  - assert (0 <= f y)%Z by (apply Hp; by left).
    specialize (IH ltac:(intros; apply Hp; by right) Hx). lia.
Qed.

Lemma zsum_map_ext {A} (f g : A → Z) l : (∀ x, x ∈ l → f x = g x) → zsum (map f l) = zsum (map g l).
Proof. intros H. f_equal. apply map_ext_in. intros x Hx. apply H. by apply list_elem_of_In. Qed.

(** Changing the summand of one member, among members with distinct keys. *)
Lemma zsum_map_change {A K} (key : A → K) (f g : A → Z) l x :
  NoDup (map key l) → x ∈ l → (∀ y, y ∈ l → key y ≠ key x → g y = f y) →
  zsum (map g l) = (zsum (map f l) + (g x - f x))%Z.
Proof.
  induction l as [|y l IH]; intros Hnd Hx Hg; [set_solver|]. cbn [map] in *.
  apply NoDup_cons in Hnd as [Hy Hnd]. cbn [zsum fold_right]. fold (zsum (map g l)) (zsum (map f l)).
  assert (∀ z, z ∈ l → key z ∈ map key l) as Hin.
  { intros z Hz. apply list_elem_of_In, in_map. by apply list_elem_of_In. }
  apply elem_of_cons in Hx as [->|Hx].
  - assert (zsum (map g l) = zsum (map f l)) as ->; [|lia]. apply zsum_map_ext. intros z Hz. apply Hg; [by right|].
    intros Heq. apply Hy. rewrite <- Heq. auto.
  - rewrite (IH Hnd Hx) by (intros; apply Hg; [by right|done]).
    rewrite (Hg y); [lia|by left|]. intros Heq. apply Hy. rewrite Heq. auto.
Qed.

(** ** Lists with distinct keys *)

Lemma NoDup_map_eq {A K} (key : A → K) l x y :
  NoDup (map key l) → x ∈ l → y ∈ l → key x = key y → x = y.
Proof.
  induction l as [|z l IH]; intros Hnd Hx Hy Heq; [set_solver|].
  cbn [map] in Hnd. apply NoDup_cons in Hnd as [Hz Hnd].
  assert (∀ w, w ∈ l → key w ∈ map key l) as Hin.
  { intros w Hw. apply list_elem_of_In, in_map. by apply list_elem_of_In. }
  apply elem_of_cons in Hx as [->|Hx]; apply elem_of_cons in Hy as [->|Hy]; [done|..|by apply IH].
  - destruct Hz. rewrite Heq. auto.
  - destruct Hz. rewrite <- Heq. auto.
Qed.

Lemma elem_of_map {A B} (f : A → B) l y : y ∈ map f l ↔ ∃ x, y = f x ∧ x ∈ l.
Proof.
  rewrite list_elem_of_In, in_map_iff. split.
  - intros (x & <- & Hx). exists x. by rewrite list_elem_of_In.
  - intros (x & -> & Hx). exists x. by rewrite <- list_elem_of_In.
Qed.

Lemma elem_of_filter_bool {A} (P : A → bool) l x : x ∈ List.filter P l ↔ x ∈ l ∧ P x = true.
Proof. by rewrite !list_elem_of_In, filter_In. Qed.

Lemma map_map_id {A B} (f : A → B) (g : A → A) l : (∀ x, f (g x) = f x) → map f (map g l) = map f l.
Proof. intros H. rewrite map_map. by apply map_ext. Qed.

(** A fold of row-wise updates is a row-wise fold. *)
Lemma fold_left_map {A B} (f : B → A → A) (its : list B) (rows : list A) :
  fold_left (λ rows it, map (f it) rows) its rows = map (λ r, fold_left (λ r it, f it r) its r) rows.
Proof.
  revert rows. induction its as [|it its IH]; intros rows; simpl; [by rewrite map_id|].
  rewrite IH, map_map. done.
Qed.

(** Flipping a predicate on one member, among members with distinct keys. *)
Lemma filter_length_change {A K} (key : A → K) (P : A → bool) (h : A → A) l x :
  NoDup (map key l) → x ∈ l → P x = true → P (h x) = false →
  (∀ y, y ∈ l → key y ≠ key x → P (h y) = P y) →
  length (List.filter P l) = S (length (List.filter P (map h l))).
Proof.
  intros Hnd Hx HP Hh Hother. set (ind := λ b : bool, if b then 1%Z else 0%Z).
  assert (∀ l, Z.of_nat (length (List.filter P l)) = zsum (map (λ y, ind (P y)) l)) as Hlen.
  { clear. induction l as [|y l IH]; [done|]. cbn [List.filter map zsum fold_right].
    fold (zsum (map (λ y, ind (P y)) l)). rewrite <- IH. destruct (P y); simpl; lia. }
  pose proof (zsum_map_change key (λ y, ind (P y)) (λ y, ind (P (h y))) l x Hnd Hx) as Hz.
  cbv beta in Hz. rewrite HP, Hh in Hz. apply Nat2Z.inj. rewrite Nat2Z.inj_succ, !Hlen, map_map, Hz; [simpl; lia|].
  intros y Hy Hk. by rewrite Hother.
Qed.

Lemma NoDup_map_take {A K} (key : A → K) n l : NoDup (map key l) → NoDup (map key (take n l)).
Proof. rewrite <- (take_drop n l) at 1. rewrite map_app, NoDup_app. by intros [? _]. Qed.

Lemma filter_le_length {A} (P : A → bool) l : (length (List.filter P l) <= length l)%nat.
Proof. induction l as [|x l IH]; simpl; [lia|]. case_if; simpl; lia. Qed.

Lemma filter_filter_length {A} (P Q : A → bool) l :
  (length (List.filter P (List.filter Q l)) <= length (List.filter P l))%nat.
Proof. induction l as [|x l IH]; simpl; [lia|]. destruct (Q x); simpl; destruct (P x); simpl; lia. Qed.

Lemma filter_length_le {A} (P Q : A → bool) l :
  (∀ x, x ∈ l → P x = true → Q x = true) → (length (List.filter P l) <= length (List.filter Q l))%nat.
Proof.
  induction l as [|x l IH]; intros H; simpl; [lia|]. specialize (IH ltac:(intros; apply H; [by right|done])).
  destruct (P x) eqn:E; [rewrite (H x ltac:(by left) E)|destruct (Q x)]; simpl; lia.
Qed.

Lemma filter_filter_and {A} (P Q : A → bool) l :
  (∀ x, x ∈ l → P x = true → Q x = true) → List.filter P (List.filter Q l) = List.filter P l.
Proof.
  induction l as [|x l IH]; intros H; simpl; [done|]. specialize (IH ltac:(intros; apply H; [by right|done])).
  destruct (Q x) eqn:EQ; simpl; [by rewrite IH|]. destruct (P x) eqn:EP; [|done].
  by rewrite (H x ltac:(by left) EP) in EQ.
Qed.

Lemma filter_conj {A} (P Q : A → bool) l : List.filter P (List.filter Q l) = List.filter (λ x, P x && Q x) l.
Proof.
  induction l as [|x l IH]; simpl; [done|]. destruct (Q x); simpl; rewrite IH; by destruct (P x).
Qed.

Lemma filter_swap {A} (P Q : A → bool) l : List.filter P (List.filter Q l) = List.filter Q (List.filter P l).
Proof.
  induction l as [|x l IH]; simpl; [done|].
  destruct (P x) eqn:EP, (Q x) eqn:EQ; simpl; rewrite ?EP, ?EQ, IH; done.
Qed.

Lemma filter_none_all {A} (P : A → bool) l : List.filter P l = [] → List.filter (λ x, negb (P x)) l = l.
Proof. induction l as [|x l IH]; simpl; [done|]. destruct (P x); simpl; [done|]. intros H. by rewrite IH. Qed.

Lemma filter_split_length {A} (P : A → bool) l :
  length l = (length (List.filter P l) + length (List.filter (λ x, negb (P x)) l))%nat.
Proof. induction l as [|x l IH]; simpl; [done|]. destruct (P x); simpl; lia. Qed.

(** Distinct keys survive a filter and a key-preserving map. *)
Lemma NoDup_map_filter {A K} (key : A → K) (P : A → bool) l :
  NoDup (map key l) → NoDup (map key (List.filter P l)).
Proof.
  induction l as [|x l IH]; simpl; [done|]. intros [Hx Hl]%NoDup_cons. destruct (P x); [|by apply IH].
  simpl. apply NoDup_cons. split; [|by apply IH]. intros (y & Heq & Hy%elem_of_filter_bool)%elem_of_map.
  apply Hx, elem_of_map. exists y. by destruct Hy.
Qed.

Lemma find_Some_elem {A} (P : A → bool) l x : List.find P l = Some x → x ∈ l ∧ P x = true.
Proof. intros [H1 H2]%find_some. by rewrite list_elem_of_In. Qed.

Lemma find_None_elem {A} (P : A → bool) l x : List.find P l = None → x ∈ l → P x = false.
Proof. intros H Hx%list_elem_of_In. by eapply find_none in H. Qed.

(** ** Table updates

    [UPDATE ... WHERE p SET f]: the rows and whether any was updated. *)
Definition update_where {A} (p : A → bool) (f : A → A) (rows : list A) : list A :=
  map (λ r, if p r then f r else r) rows.
Definition delete_where {A} (p : A → bool) (rows : list A) : list A := List.filter (λ r, negb (p r)) rows.
Definition any_where {A} (p : A → bool) (rows : list A) : bool := existsb p rows.

Lemma update_where_keys {A K} (key : A → K) (p : A → bool) f (rows : list A) :
  (∀ r, key (f r) = key r) → map key (update_where p f rows) = map key rows.
Proof. intros Hf. unfold update_where. apply map_map_id. intros r. by destruct (p r). Qed.

(** ** Ordering of rows

    [ORDER BY] and [sorted]: a stable insertion sort under a comparison that
    is built from keys with [asc], [desc] and [then_by]. *)

Section OrderBy.
Context {A : Type}.

Definition asc {K} `{PyOrd K} (key : A → K) (x y : A) : comparison := pycmp (key x) (key y).
Definition desc {K} `{PyOrd K} (key : A → K) (x y : A) : comparison := pycmp (key y) (key x).
Definition then_by (c1 c2 : A → A → comparison) (x y : A) : comparison :=
  match c1 x y with Eq => c2 x y | c => c end.

Definition at_most (cmp : A → A → comparison) (x y : A) : bool :=
  match cmp x y with Gt => false | _ => true end.

Fixpoint insert_ordered (cmp : A → A → comparison) (x : A) (l : list A) : list A :=
  match l with
  | [] => [x]
  | y :: l' => if at_most cmp x y then x :: l else y :: insert_ordered cmp x l'
  end.

Definition order_by (cmp : A → A → comparison) (l : list A) : list A := foldr (insert_ordered cmp) [] l.

Lemma insert_ordered_perm cmp x l : insert_ordered cmp x l ≡ₚ x :: l.
Proof. induction l as [|y l IH]; simpl; [done|]. case_if; [done|]. rewrite IH. constructor. Qed.

Lemma order_by_perm cmp l : order_by cmp l ≡ₚ l.
Proof. induction l as [|x l IH]; simpl; [done|]. by rewrite insert_ordered_perm, IH. Qed.

Lemma order_by_elem cmp l x : x ∈ order_by cmp l ↔ x ∈ l.
Proof. by rewrite (order_by_perm cmp l). Qed.

Lemma order_by_length cmp l : length (order_by cmp l) = length l.
Proof. apply Permutation_length, order_by_perm. Qed.

End OrderBy.

(** Rows of a table read in pages: [OFFSET] and [LIMIT]. *)
Definition page {A} (offset limit : Z) (rows : list A) : list A :=
  take (Z.to_nat limit) (drop (Z.to_nat offset) rows).

(** The newest row per key: [row_number() OVER (PARTITION BY key ORDER BY rank
    DESC) = 1]. *)
Section Latest.
Context {A K R : Type} `{Countable K} `{PyOrdLaws R} (key : A → K) (rank : A → R).

Definition keep_latest (m : gmap K A) (r : A) : gmap K A :=
  match m !! key r with
  | Some r' => if pylt (rank r') (rank r) then <[key r := r]> m else m
  | None => <[key r := r]> m
  end.

Definition latest_per (rows : list A) : gmap K A := fold_left keep_latest rows ∅.

Lemma keep_latest_lookup rows (m : gmap K A) k :
  fold_left keep_latest rows m !! k =
  match m !! k with
  | Some b => Some (max_from rank b (List.filter (λ r, bool_decide (key r = k)) rows))
  | None => max_by rank (List.filter (λ r, bool_decide (key r = k)) rows)
  end.
Proof.
  revert m. induction rows as [|r rows IH]; intros m; simpl; [by destruct (m !! k)|].
  rewrite IH. unfold keep_latest. destruct (decide (key r = k)) as [<-|Hne].
  - rewrite bool_decide_true by done. destruct (m !! key r) as [b|] eqn:E.
    + simpl. destruct (pylt (rank b) (rank r)); [by rewrite lookup_insert_eq|by rewrite E].
    + by rewrite lookup_insert_eq.
  - rewrite bool_decide_false by done.
    destruct (m !! key r); [destruct (pylt _ _)|]; by rewrite ?lookup_insert_ne by done.
Qed.

Lemma latest_per_lookup rows k :
  latest_per rows !! k = max_by rank (List.filter (λ r, bool_decide (key r = k)) rows).
Proof. unfold latest_per. by rewrite keep_latest_lookup, lookup_empty. Qed.

Lemma latest_per_Some rows k r :
  latest_per rows !! k = Some r →
  r ∈ rows ∧ key r = k ∧ ∀ r', r' ∈ rows → key r' = k → pylt (rank r) (rank r') = false.
Proof.
  rewrite latest_per_lookup. intros Hm. pose proof (max_by_elem _ _ _ Hm) as [Hr Hk%bool_decide_eq_true]%elem_of_filter_bool.
  split_and!; [done..|]. intros r' Hr' Hk'. apply (max_by_max _ _ _ _ Hm), elem_of_filter_bool.
  split; [done|by apply bool_decide_eq_true].
Qed.

Lemma latest_per_None rows k : latest_per rows !! k = None → ∀ r, r ∈ rows → key r ≠ k.
Proof.
  rewrite latest_per_lookup. intros Hm r Hr Hk.
  destruct (List.filter (λ r, bool_decide (key r = k)) rows) eqn:E; [|done].
  assert (r ∈ List.filter (λ r, bool_decide (key r = k)) rows) as Hin.
  { apply elem_of_filter_bool. split; [done|by apply bool_decide_eq_true]. }
  rewrite E in Hin. set_solver.
Qed.

End Latest.
