(* ===== verification/Models.v ===== *)
(** Persistent data of the program: the enumerations and table rows of
    [src/app/db/models.py] that the modelled components read and write, and
    the timestamps they carry. *)

From S2P Require Import Prelude.

(** ** Timestamps

    A [datetime] is a wall clock reading in microseconds with an optional UTC
    offset ([None] is a naive value).  Columns of naive UTC datetimes are
    plain [Z] microseconds; [timedelta(seconds=n)] is [seconds n]. *)

Record datetime := { wall_us : Z; utc_offset_us : option Z }.

Definition seconds (n : Z) : Z := (n * 1000000)%Z.

(** [to_utc_naive] / [_normalize_recorded_at]: an aware value is converted to
    UTC and its zone dropped; a naive one is returned as it is. *)
Definition to_utc_naive (value : datetime) : datetime :=
  match utc_offset_us value with
  | None => value
  | Some off => {| wall_us := wall_us value - off; utc_offset_us := None |}
  end.

(** ** Enumerations *)

Inductive AccountStatus := ACTIVE | RATE_LIMITED | QUOTA_EXCEEDED | PAUSED | DEACTIVATED.
Inductive StickySessionKind := CODEX_SESSION | STICKY_THREAD | PROMPT_CACHE.
Inductive LimitType := TOTAL_TOKENS | INPUT_TOKENS | OUTPUT_TOKENS | COST_USD | CREDITS.
Inductive LimitWindow := DAILY | WEEKLY | MONTHLY | FIVE_HOURS | SEVEN_DAYS.
Inductive HttpBridgeSessionState := BRIDGE_ACTIVE | BRIDGE_DRAINING | BRIDGE_CLOSED.

#[global] Instance AccountStatus_eq : EqDecision AccountStatus.
Proof. solve_decision. Defined.
#[global] Instance StickySessionKind_eq : EqDecision StickySessionKind.
Proof. solve_decision. Defined.
#[global] Instance LimitType_eq : EqDecision LimitType.
Proof. solve_decision. Defined.
#[global] Instance LimitWindow_eq : EqDecision LimitWindow.
Proof. solve_decision. Defined.
#[global] Instance HttpBridgeSessionState_eq : EqDecision HttpBridgeSessionState.
Proof. solve_decision. Defined.

#[global] Instance StickySessionKind_countable : Countable StickySessionKind.
Proof.
  refine (inj_countable'
    (fun k => match k with CODEX_SESSION => 0%nat | STICKY_THREAD => 1%nat | PROMPT_CACHE => 2%nat end)
    (fun n => match n with 0%nat => CODEX_SESSION | 1%nat => STICKY_THREAD | _ => PROMPT_CACHE end) _).
  by intros [].
Defined.

Definition limit_type_value (t : LimitType) : string :=
  match t with
  | TOTAL_TOKENS => "total_tokens" | INPUT_TOKENS => "input_tokens"
  | OUTPUT_TOKENS => "output_tokens" | COST_USD => "cost_usd" | CREDITS => "credits"
  end.

Definition limit_window_value (w : LimitWindow) : string :=
  match w with
  | DAILY => "daily" | WEEKLY => "weekly" | MONTHLY => "monthly"
  | FIVE_HOURS => "5h" | SEVEN_DAYS => "7d"
  end.

(** [LimitType(s)] and [LimitWindow(s)]: [None] is the [ValueError]. *)
Definition limit_type_of (s : string) : option LimitType :=
  if String.eqb s "total_tokens" then Some TOTAL_TOKENS
  else if String.eqb s "input_tokens" then Some INPUT_TOKENS
  else if String.eqb s "output_tokens" then Some OUTPUT_TOKENS
  else if String.eqb s "cost_usd" then Some COST_USD
  else if String.eqb s "credits" then Some CREDITS
  else None.

Definition limit_window_of (s : string) : option LimitWindow :=
  if String.eqb s "daily" then Some DAILY
  else if String.eqb s "weekly" then Some WEEKLY
  else if String.eqb s "monthly" then Some MONTHLY
  else if String.eqb s "5h" then Some FIVE_HOURS
  else if String.eqb s "7d" then Some SEVEN_DAYS
  else None.

Lemma limit_type_of_value t : limit_type_of (limit_type_value t) = Some t.
Proof. by destruct t. Qed.
Lemma limit_window_of_value w : limit_window_of (limit_window_value w) = Some w.
Proof. by destruct w. Qed.

(** ** Rows *)

Record Account := {
  acc_id : string;
  chatgpt_account_id : option string;
  email : string;
  acc_plan_type : string;
  access_token_encrypted : string;
  refresh_token_encrypted : string;
  id_token_encrypted : string;
  last_refresh : Z;
  acc_created_at : Z;
  acc_status : AccountStatus;
  acc_deactivation_reason : option string;
  acc_reset_at : option Z;
  acc_blocked_at : option Z;
}.

Record UsageHistory := {
  uh_id : Z;
  uh_account_id : string;
  uh_recorded_at : datetime;
  uh_window : option string;
  uh_used_percent : Q;
  uh_input_tokens : option Z;
  uh_output_tokens : option Z;
  uh_reset_at : option Z;
  uh_window_minutes : option Z;
  credits_has : option bool;
  credits_unlimited : option bool;
  credits_balance : option Q;
}.

Record AdditionalUsageHistory := {
  ah_id : Z;
  ah_account_id : string;
  quota_key : string;
  limit_name : string;
  metered_feature : string;
  ah_window : string;
  ah_used_percent : Q;
  ah_reset_at : option Z;
  ah_window_minutes : option Z;
  ah_recorded_at : datetime;
}.

Record RequestLog := {
  rl_id : Z;
  rl_account_id : option string;
  rl_api_key_id : option string;
  rl_session_id : option string;
  rl_request_id : string;
  rl_requested_at : Z;
  rl_deleted_at : option Z;
  rl_model : string;
  rl_plan_type : option string;
  rl_transport : option string;
  rl_service_tier : option string;
  rl_requested_service_tier : option string;
  rl_actual_service_tier : option string;
  rl_input_tokens : option Z;
  rl_output_tokens : option Z;
  rl_cached_input_tokens : option Z;
  rl_reasoning_tokens : option Z;
  rl_cost_usd : option Q;
  rl_reasoning_effort : option string;
  rl_latency_ms : option Z;
  rl_latency_first_token_ms : option Z;
  rl_status : string;
  rl_error_code : option string;
  rl_error_message : option string;
}.

Record StickySession := {
  sticky_key : string;
  sticky_kind : StickySessionKind;
  sticky_account_id : string;
  sticky_created_at : Z;
  sticky_updated_at : Z;
}.
