(* ===== verification/Usage.v ===== *)
(** Plan types, usage windows, quota application and depletion estimates:
    [src/app/core/plan_types.py], [src/app/core/usage/__init__.py],
    [src/app/core/usage/types.py], [src/app/core/usage/quota.py] and
    [src/app/core/usage/depletion.py]. *)

From S2P Require Import Prelude Models.

(** ** Plan types *)
Module PlanTypes.

Definition ACCOUNT_PLAN_TYPES : list string :=
  ["free"; "plus"; "pro"; "prolite"; "team"; "business"; "enterprise"; "edu"].

Definition RATE_LIMIT_PLAN_TYPES : list string :=
  ACCOUNT_PLAN_TYPES ++ ["guest"; "go"; "free_workspace"; "education"; "quorum"; "k12"].

Definition ACCOUNT_PLAN_EQUIVALENTS : dict (list string) := [("prolite", ["pro"])].

Definition _clean_plan_type (value : option string) : option string :=
  match value with
  | None => None
  | Some v => none_if_empty (py_strip v)
  end.

Definition normalize_account_plan_type (value : option string) : option string :=
  match _clean_plan_type value with
  | None => None
  | Some cleaned =>
      let normalized := py_lower cleaned in
      if mem normalized ACCOUNT_PLAN_TYPES then Some normalized else None
  end.

Definition canonicalize_account_plan_type (value : option string) : option string :=
  match _clean_plan_type value with
  | None => None
  | Some cleaned =>
      let normalized := py_lower cleaned in
      if mem normalized ACCOUNT_PLAN_TYPES then Some normalized else Some cleaned
  end.

Definition coerce_account_plan_type (value : option string) (default : string) : string :=
  match _clean_plan_type value with
  | None => default
  | Some cleaned =>
      match canonicalize_account_plan_type (Some cleaned) with
      | Some canonical => canonical
      | None => default
      end
  end.

Definition normalize_rate_limit_plan_type (value : option string) : option string :=
  match _clean_plan_type value with
  | None => None
  | Some cleaned =>
      let normalized := py_lower cleaned in
      if mem normalized RATE_LIMIT_PLAN_TYPES then Some normalized else None
  end.

Definition account_plan_matches_allowed (value : option string) (allowed_plans : list string) : bool :=
  match _clean_plan_type value with
  | None => false
  | Some cleaned =>
      let normalized_allowed := map py_lower allowed_plans in
      let normalized := normalize_account_plan_type (Some cleaned) in
      let candidate := or_s normalized (py_lower cleaned) in
      if mem candidate normalized_allowed then true
      else match normalized with
           | None => false
           | Some n =>
               existsb (fun p => mem p normalized_allowed)
                 (default [] (dict_get ACCOUNT_PLAN_EQUIVALENTS n))
           end
  end.

End PlanTypes.

(** ** Usage windows *)
Module UsageCore.
Import PlanTypes.

Record UsageWindowRow := {
  row_account_id : string;
  row_used_percent : option Q;
  row_reset_at : option Z;
  row_window_minutes : option Z;
  row_recorded_at : option datetime;
}.

Record UsageWindowSummary := {
  sum_used_percent : option Q;
  sum_capacity_credits : Q;
  sum_used_credits : Q;
  sum_reset_at : option Z;
  sum_window_minutes : option Z;
}.

Record UsageWindowSnapshot := {
  snap_used_percent : Q;
  snap_capacity_credits : Q;
  snap_used_credits : Q;
  snap_reset_at : option Z;
  snap_window_minutes : option Z;
}.

Definition PLAN_CAPACITY_CREDITS_PRIMARY : dict Q :=
  [("free", 0.0); ("plus", 225.0); ("business", 225.0); ("team", 225.0); ("edu", 225.0);
   ("pro", 1500.0); ("prolite", 1125.0); ("enterprise", 1500.0)]%Q.

Definition PLAN_CAPACITY_CREDITS_SECONDARY : dict Q :=
  [("free", 1134.0); ("plus", 7560.0); ("business", 7560.0); ("team", 7560.0); ("edu", 7560.0);
   ("pro", 50400.0); ("prolite", 37800.0); ("enterprise", 50400.0)]%Q.

Definition DEFAULT_WINDOW_MINUTES_PRIMARY : Z := 300.
Definition DEFAULT_WINDOW_MINUTES_SECONDARY : Z := 10080.

Definition _normalize_window_key (window : option string) : string :=
  let normalized := py_lower (or_s window "") in
  if mem normalized ["primary"; "5h"] then "primary"
  else if mem normalized ["secondary"; "7d"] then "secondary"
  else normalized.

Definition used_credits_from_percent (used_percent capacity_credits : option Q) : option Q :=
  match used_percent, capacity_credits with
  | Some u, Some c => Some ((c * u) / 100)%Q
  | _, _ => None
  end.

Definition remaining_percent_from_used (used_percent : option Q) : option Q :=
  match used_percent with
  | None => None
  | Some u => Some (qmax 0 (100 - u))
  end.

Definition remaining_credits_from_used (used_credits capacity_credits : option Q) : option Q :=
  match used_credits, capacity_credits with
  | Some u, Some c => Some (qmax 0 (c - u))
  | _, _ => None
  end.

Definition remaining_credits_from_percent (used_percent capacity_credits : option Q) : option Q :=
  let used_credits := used_credits_from_percent used_percent capacity_credits in
  remaining_credits_from_used used_credits capacity_credits.

Definition normalize_usage_window (summary : UsageWindowSummary) : UsageWindowSnapshot :=
  {| snap_used_percent := or_q (sum_used_percent summary) 0;
     snap_capacity_credits := sum_capacity_credits summary;
     snap_used_credits := sum_used_credits summary;
     snap_reset_at := sum_reset_at summary;
     snap_window_minutes := sum_window_minutes summary |}.

Definition capacity_for_plan (plan_type : option string) (window : string) : option Q :=
  match normalize_account_plan_type plan_type with
  | None => None
  | Some normalized =>
      let window_key := _normalize_window_key (Some window) in
      if String.eqb window_key "primary" then dict_get PLAN_CAPACITY_CREDITS_PRIMARY normalized
      else if String.eqb window_key "secondary" then dict_get PLAN_CAPACITY_CREDITS_SECONDARY normalized
      else None
  end.

Definition default_window_minutes (window : string) : option Z :=
  let window_key := _normalize_window_key (Some window) in
  if String.eqb window_key "primary" then Some DEFAULT_WINDOW_MINUTES_PRIMARY
  else if String.eqb window_key "secondary" then Some DEFAULT_WINDOW_MINUTES_SECONDARY
  else None.

(** [min] of a non-empty collection of integers. *)
Definition min_z (l : list Z) : option Z := min_by id l.

Definition _resolve_window_minutes (window : string) (values : gset Z) : option Z :=
  match elements values with
  | [] => default_window_minutes window
  | [v] => Some v
  | vs =>
      match default_window_minutes window with
      | Some d => Some d
      | None => min_z vs
      end
  end.

Definition positive_minutes (row : UsageWindowRow) : gset Z :=
  match row_window_minutes row with
  | Some m => if (0 <? m)%Z then {[m]} else ∅
  | None => ∅
  end.

Definition resolve_window_minutes (window : string) (rows : list UsageWindowRow) : option Z :=
  _resolve_window_minutes window (fold_left (fun s row => s ∪ positive_minutes row) rows ∅).

(** Accumulators of the loop of [summarize_usage_window]. *)
Record summary_acc := {
  total_capacity : Q;
  total_used : Q;
  reset_candidates : list Z;
  window_minutes_values : gset Z;
}.

Definition summarize_step (account_map : gmap string Account) (window : string)
    (acc : summary_acc) (row : UsageWindowRow) : summary_acc :=
  let acc := match row_reset_at row with
             | Some r => acc {{ reset_candidates := reset_candidates acc ++ [r] }}
             | None => acc
             end in
  let acc := acc {{ window_minutes_values := window_minutes_values acc ∪ positive_minutes row }} in
  let capacity := capacity_for_plan (acc_plan_type <$> account_map !! row_account_id row) window in
  match row_used_percent row, capacity with
  | Some u, Some c =>
      acc {{ total_capacity := (total_capacity acc + c)%Q;
             total_used := (total_used acc + (c * u) / 100)%Q }}
  | _, _ => acc
  end.

Definition summarize_usage_window (usage_rows : list UsageWindowRow)
    (account_map : gmap string Account) (window : string) : UsageWindowSummary :=
  let acc := fold_left (summarize_step account_map window) usage_rows
               {| total_capacity := 0; total_used := 0;
                  reset_candidates := []; window_minutes_values := ∅ |} in
  let window_minutes := _resolve_window_minutes window (window_minutes_values acc) in
  let overall := if qlt 0 (total_capacity acc)
                 then Some ((total_used acc / total_capacity acc) * 100)%Q else None in
  {| sum_used_percent := overall;
     sum_capacity_credits := total_capacity acc;
     sum_used_credits := total_used acc;
     sum_reset_at := min_z (reset_candidates acc);
     sum_window_minutes := window_minutes |}.

Definition is_weekly_window_minutes (window_minutes : option Z) : bool :=
  match window_minutes with
  | None => false
  | Some m =>
      match default_window_minutes "secondary" with
      | None => false
      | Some d => (m =? d)%Z
      end
  end.

Definition _normalize_recorded_at (value : option datetime) : option datetime :=
  match value with
  | None => None
  | Some v =>
      match utc_offset_us v with
      | None => Some v
      | Some off => Some {| wall_us := wall_us v - off; utc_offset_us := None |}
      end
  end.

Definition _should_prefer_primary_row (primary_row secondary_row : UsageWindowRow) : bool :=
  let by_reset :=
    match row_reset_at primary_row, row_reset_at secondary_row with
    | Some p, Some s => if negb (p =? s)%Z then (s <? p)%Z else true
    | Some _, None => true
    | None, Some _ => false
    | None, None => true
    end in
  match _normalize_recorded_at (row_recorded_at primary_row),
        _normalize_recorded_at (row_recorded_at secondary_row) with
  | Some p, Some s =>
      if negb (wall_us p =? wall_us s)%Z then (wall_us s <? wall_us p)%Z else by_reset
  | Some _, None => true
  | None, Some _ => false
  | None, None => by_reset
  end.

Definition should_use_weekly_primary (primary_row : UsageWindowRow)
    (secondary_row : option UsageWindowRow) : bool :=
  if negb (is_weekly_window_minutes (row_window_minutes primary_row)) then false
  else match secondary_row with
       | None => true
       | Some s => _should_prefer_primary_row primary_row s
       end.

Definition normalize_step (acc : list UsageWindowRow * dict UsageWindowRow)
    (entry : string * UsageWindowRow) : list UsageWindowRow * dict UsageWindowRow :=
  let (normalized_primary, secondary_by_account) := acc in
  let (account_id, primary_row) := entry in
  if is_weekly_window_minutes (row_window_minutes primary_row) then
    let secondary_row := dict_get secondary_by_account account_id in
    if should_use_weekly_primary primary_row secondary_row
    then (normalized_primary, dict_set secondary_by_account account_id primary_row)
    else (normalized_primary, secondary_by_account)
  else (normalized_primary ++ [primary_row], secondary_by_account).

Definition normalize_weekly_only_rows (primary_rows secondary_rows : list UsageWindowRow)
    : list UsageWindowRow * list UsageWindowRow :=
  let primary_by_account := dict_of row_account_id primary_rows in
  let secondary_by_account := dict_of row_account_id secondary_rows in
  let (normalized_primary, normalized_secondary) :=
    fold_left normalize_step primary_by_account ([], secondary_by_account) in
  (normalized_primary, normalized_secondary.*2).

End UsageCore.

(** ** Quota application *)
Module Quota.
Import UsageCore.

(** [t] is the reading of [time.time()]. *)
Definition _fallback_primary_reset (t : Q) (primary_window_minutes : option Z) : option Q :=
  let window_minutes :=
    if truthy_z primary_window_minutes then primary_window_minutes
    else default_window_minutes "primary" in
  match window_minutes with
  | Some m => if (m =? 0)%Z then None else Some (t + inject_Z m * 60)%Q
  | None => None
  end.

Definition reset_in_future (runtime_reset : option Q) (t : Q) : bool :=
  match runtime_reset with
  | Some r => negb (qeq r 0) && qlt t r
  | None => false
  end.

(** The status, used percentage and reset time an account has under its
    latest usage rows.  The three readings of [time.time()] on the way are
    [t1] (quota guard), [t2] (fallback reset) and [t3] (rate-limit guard). *)
Definition apply_usage_quota (t1 t2 t3 : Q) (status : AccountStatus)
    (primary_used : option Q) (primary_reset primary_window_minutes : option Z)
    (runtime_reset : option Q) (secondary_used : option Q) (secondary_reset : option Z)
    : AccountStatus * option Q * option Q :=
  let used_percent := primary_used in
  let reset_at := runtime_reset in
  let primary_part (status : AccountStatus) (reset_at : option Q) :=
    match primary_used with
    | Some p =>
        if qle 100 p then
          (RATE_LIMITED, Some 100%Q,
           match primary_reset with
           | Some r => Some (inject_Z r)
           | None =>
               match _fallback_primary_reset t2 primary_window_minutes with
               | Some f => if qeq f 0 then reset_at else Some f
               | None => reset_at
               end
           end)
        else if bool_decide (status = RATE_LIMITED) then
          if reset_in_future runtime_reset t3
          then (status, used_percent, runtime_reset)
          else (ACTIVE, used_percent, None)
        else (status, used_percent, reset_at)
    | None => (status, used_percent, reset_at)
    end in
  if bool_decide (status = DEACTIVATED ∨ status = PAUSED) then (status, used_percent, reset_at)
  else match secondary_used with
       | Some s =>
           if qle 100 s then
             (QUOTA_EXCEEDED, Some 100%Q,
              match secondary_reset with Some r => Some (inject_Z r) | None => reset_at end)
           else if bool_decide (status = QUOTA_EXCEEDED) then
             if reset_in_future runtime_reset t1
             then primary_part status runtime_reset
             else primary_part ACTIVE None
           else primary_part status reset_at
       | None =>
           match secondary_reset with
           | Some r =>
               if bool_decide (status = QUOTA_EXCEEDED)
               then primary_part status (Some (inject_Z r))
               else primary_part status reset_at
           | None => primary_part status reset_at
           end
       end.

End Quota.

(** ** Depletion estimates *)
Module Depletion.

Definition RISK_WARNING : Q := 0.60.
Definition RISK_DANGER : Q := 0.80.
Definition RISK_CRITICAL : Q := 0.95.
Definition DEFAULT_ALPHA : Q := 0.4.

Record EWMAState := {
  rate : option Q;
  last_used_percent : Q;
  last_timestamp : Q;
  last_reset_at : option Z;
}.

Definition ewma_update (state : option EWMAState) (used_percent timestamp alpha : Q)
    (reset_at : option Z) : EWMAState :=
  let fresh (r : option Q) :=
    {| rate := r; last_used_percent := used_percent;
       last_timestamp := timestamp; last_reset_at := reset_at |} in
  match state with
  | None => fresh None
  | Some st =>
      let dt := (timestamp - last_timestamp st)%Q in
      if qeq dt 0 then st
      else
        let window_changed :=
          match reset_at, last_reset_at st with
          | Some r, Some l => negb (r =? l)%Z
          | _, _ => false
          end in
        let drop := (last_used_percent st - used_percent)%Q in
        if qlt 0 drop || window_changed then fresh None
        else
          let delta_percent := (used_percent - last_used_percent st)%Q in
          let raw_rate := qmax (delta_percent / dt)%Q 0 in
          fresh (Some (match rate st with
                       | None => raw_rate
                       | Some r => (alpha * raw_rate + (1 - alpha) * r)%Q
                       end))
  end.

Definition compute_burn_rate (current_rate remaining_percent seconds_until_reset : Q) : Q :=
  if qeq current_rate 0 || qeq seconds_until_reset 0 then 0%Q
  else
    let sustainable_rate := (remaining_percent / seconds_until_reset)%Q in
    if qeq sustainable_rate 0 then 0%Q
    else (current_rate / sustainable_rate)%Q.

Definition compute_depletion_risk (used_percent rate_per_second seconds_until_reset : Q) : Q :=
  let effective_rate := qmax 0 rate_per_second in
  let projected := (used_percent + effective_rate * seconds_until_reset)%Q in
  qmin (projected / 100)%Q 1.

Definition compute_safe_usage_percent (seconds_elapsed total_window_seconds : Q) : Q :=
  if qeq total_window_seconds 0 then 0%Q
  else
    let progress := (seconds_elapsed / total_window_seconds)%Q in
    let clamped_progress := qmin (qmax progress 0) 1 in
    (clamped_progress * 100)%Q.

Inductive risk_level := safe | warning | danger | critical.

Definition classify_risk (risk : Q) : risk_level :=
  if qle RISK_CRITICAL risk then critical
  else if qle RISK_DANGER risk then danger
  else if qle RISK_WARNING risk then warning
  else safe.

Definition aggregate_risks (risks : list Q) : Q :=
  match max_by id risks with Some r => r | None => 0%Q end.

End Depletion.

(** ** Properties of plan types and usage windows *)
Module UsageFacts.
Import PlanTypes UsageCore Quota Depletion.

Lemma clean_plan_type_spec value c :
  _clean_plan_type value = Some c → c ≠ "" ∧ py_strip c = c.
Proof.
  destruct value as [v|]; [|done]. unfold _clean_plan_type, none_if_empty.
  destruct (String.eqb_spec (py_strip v) ""); [done|]. intros [= <-].
  split; [done|]. apply py_strip_idem.
Qed.

Lemma clean_plan_type_clean c : c ≠ "" → py_strip c = c → _clean_plan_type (Some c) = Some c.
Proof.
  intros Hne Hc. unfold _clean_plan_type, none_if_empty. rewrite Hc.
  by destruct (String.eqb_spec c "").
Qed.

Lemma canonicalize_idem value c :
  canonicalize_account_plan_type value = Some c →
  canonicalize_account_plan_type (Some c) = Some c.
Proof.
  unfold canonicalize_account_plan_type.
  destruct (_clean_plan_type value) as [k|] eqn:E; [|done].
  apply clean_plan_type_spec in E as [Hne Hk].
  destruct (mem (py_lower k) ACCOUNT_PLAN_TYPES) eqn:Em; intros [= <-].
  - rewrite clean_plan_type_clean.
    + by rewrite py_lower_idem, Em.
    + by rewrite py_lower_empty.
    + by rewrite strip_lower, Hk.
  - rewrite clean_plan_type_clean by done. by rewrite Em.
Qed.

Lemma capacity_for_plan_nonneg plan w c : capacity_for_plan plan w = Some c → (0 <= c)%Q.
Proof.
  unfold capacity_for_plan. destruct (normalize_account_plan_type plan); [|done].
  assert (∀ d : dict Q, forallb (fun p => qle 0 p.2) d = true → ∀ k c, dict_get d k = Some c → (0 <= c)%Q) as Hd.
  { intros d Hall k q Hq%dict_get_Some_in. apply list_elem_of_In in Hq.
    rewrite forallb_forall in Hall. apply Hall in Hq. by pyb. }
  repeat case_if; [apply Hd; by vm_compute | apply Hd; by vm_compute | done].
Qed.

(** What one row adds to the totals of [summarize_usage_window]. *)
Definition contribution (account_map : gmap string Account) (window : string)
    (row : UsageWindowRow) : Q * Q :=
  match row_used_percent row,
        capacity_for_plan (acc_plan_type <$> account_map !! row_account_id row) window with
  | Some u, Some c => (c, (c * u) / 100)%Q
  | _, _ => (0, 0)%Q
  end.

Lemma summarize_step_totals amap w acc row :
  (total_capacity (summarize_step amap w acc row) == total_capacity acc + (contribution amap w row).1)%Q ∧
  (total_used (summarize_step amap w acc row) == total_used acc + (contribution amap w row).2)%Q.
Proof.
  unfold summarize_step, contribution.
  destruct acc, (row_reset_at row), (row_used_percent row),
    (capacity_for_plan (acc_plan_type <$> amap !! row_account_id row) w);
    simpl; split; first [reflexivity | lra].
Qed.

Lemma summarize_fold_bounds amap w lo hi rows acc :
  (∀ r u, r ∈ rows → row_used_percent r = Some u → (lo <= u <= hi)%Q) →
  (0 <= total_capacity acc)%Q →
  (lo * total_capacity acc <= 100 * total_used acc <= hi * total_capacity acc)%Q →
  let acc' := fold_left (summarize_step amap w) rows acc in
  (0 <= total_capacity acc')%Q ∧
  (lo * total_capacity acc' <= 100 * total_used acc' <= hi * total_capacity acc')%Q.
Proof.
  revert acc. induction rows as [|r rows IH]; intros acc Hr Hc Hb; simpl; [done|].
  destruct (summarize_step_totals amap w acc r) as [E1 E2].
  assert (∀ u c, row_used_percent r = Some u →
    capacity_for_plan (acc_plan_type <$> amap !! row_account_id r) w = Some c →
    (0 <= c)%Q ∧ (lo * c <= c * u <= hi * c)%Q) as Hrow.
  { intros u c Hu Hcap%capacity_for_plan_nonneg.
    destruct (Hr r u ltac:(by left) Hu). split; [done|]. split; nra. }
  unfold contribution in E1, E2. apply IH.
  - intros r' u' Hin. apply Hr. by right.
  - rewrite E1. destruct (row_used_percent r) as [u|]; simpl; [|lra].
    destruct (capacity_for_plan _ _) as [c|] eqn:Hcap; simpl; [|lra].
    destruct (Hrow u c eq_refl eq_refl). lra.
  - rewrite E1, E2. destruct (row_used_percent r) as [u|]; simpl; [|lra].
    destruct (capacity_for_plan _ _) as [c|] eqn:Hcap; simpl; [|lra].
    destruct (Hrow u c eq_refl eq_refl) as [? [? ?]].
    assert ((c * u) / 100 == (c * u) * (1 # 100))%Q as -> by (field; done). lra.
Qed.

(** Summarising a window gives the capacity-weighted mean of the rows: it lies
    between the lowest and highest used percentage, and is absent exactly when
    no row contributes capacity. *)
Theorem summarize_usage_window_mean rows amap w lo hi
    (Hrows : ∀ r u, r ∈ rows → row_used_percent r = Some u → (lo <= u <= hi)%Q) :
  let s := summarize_usage_window rows amap w in
  (0 <= sum_capacity_credits s)%Q ∧
  (sum_used_percent s = None ↔ sum_capacity_credits s == 0)%Q ∧
  (∀ p, sum_used_percent s = Some p →
        (lo <= p <= hi)%Q ∧ (p * sum_capacity_credits s == 100 * sum_used_credits s)%Q).
Proof.
  unfold summarize_usage_window. cbv zeta.
  set (acc0 := {| total_capacity := 0%Q; total_used := 0%Q; reset_candidates := [];
                  window_minutes_values := ∅ |}).
  destruct (summarize_fold_bounds amap w lo hi rows acc0 Hrows) as [Hc Hb];
    [simpl; lra | simpl; lra |].
  set (acc := fold_left _ _ _) in *. clearbody acc.
  simpl. split; [done|]. destruct (qlt 0 (total_capacity acc)) eqn:E; pyb.
  - split; [split; [done|lra]|]. intros p [= <-].
    assert (¬ total_capacity acc == 0)%Q by lra. split; [|by field].
    assert (total_used acc / total_capacity acc * 100 ==
      (100 * total_used acc) / total_capacity acc)%Q as -> by (field; done).
    split; [apply Qle_shift_div_l | apply Qle_shift_div_r]; lra.
  - split; [|done]. split; [intros _; lra|done].
Qed.

(** *** Weekly-only rows *)

Abbreviation weekly r := (is_weekly_window_minutes (row_window_minutes r)).

Lemma normalize_fold_primary L np sd :
  (fold_left normalize_step L (np, sd)).1 = np ++ filter (λ r, weekly r = false) L.*2.
Proof.
  revert np sd. induction L as [|[k r] L IH]; intros np sd; simpl; [by rewrite app_nil_r|].
  rewrite filter_cons. destruct (weekly r) eqn:E; simpl; [by case_if|].
  by rewrite IH, <- app_assoc.
Qed.

Lemma normalize_fold_secondary (P : string → UsageWindowRow → Prop) L np (sd : dict UsageWindowRow) :
  NoDup sd.*1 → (∀ k r, (k, r) ∈ sd → P k r) → (∀ k r, (k, r) ∈ L → weekly r = true → P k r) →
  let sd' := (fold_left normalize_step L (np, sd)).2 in
  NoDup sd'.*1 ∧ (∀ k r, (k, r) ∈ sd' → P k r) ∧
  (∀ k, k ∈ sd.*1 → k ∈ sd'.*1) ∧ (∀ k r, (k, r) ∈ L → weekly r = true → k ∈ sd'.*1).
Proof.
  revert np sd. induction L as [|[k0 r0] L IH]; intros np sd Hnd HP HL; [by set_solver|].
  assert (∀ k r, (k, r) ∈ L → weekly r = true → P k r) as HL' by (intros; apply HL; [by right|done]).
  simpl. destruct (weekly r0) eqn:E0.
  - unfold should_use_weekly_primary. rewrite E0. simpl.
    assert (P k0 r0) as HP0 by (apply HL; [by left|done]).
    destruct (match dict_get sd k0 with None => true | Some s0 => _ end) eqn:Eb.
    + destruct (IH np (dict_set sd k0 r0)) as (H1 & H2 & H3 & H4); auto using dict_set_NoDup.
      { intros k r [[= -> ->]|?]%dict_set_in; auto. }
      split_and!; auto.
      * intros k Hk. apply H3. rewrite dict_set_keys. by right.
      * intros k r [[= -> ->]|?]%elem_of_cons ?; [|eauto]. apply H3, dict_set_keys. by left.
    + destruct (IH np sd) as (H1 & H2 & H3 & H4); auto. split_and!; auto.
      intros k r [[= -> ->]|?]%elem_of_cons ?; [|eauto]. apply H3.
      destruct (dict_get sd k0) as [s0|] eqn:Eg; [|done].
      apply dict_get_Some_in in Eg. apply list_elem_of_fmap. by exists (k0, s0).
  - destruct (IH (np ++ [r0]) sd) as (H1 & H2 & H3 & H4); auto. split_and!; auto.
    intros k r [[= -> ->]|?]%elem_of_cons ?; [congruence|eauto].
Qed.

Lemma fmap_snd_ids {V} (key : V → string) (d : dict V) :
  (∀ k v, (k, v) ∈ d → k = key v) → key <$> d.*2 = d.*1.
Proof.
  intros Hd. rewrite <- list_fmap_compose. apply list_fmap_ext. intros i [k v] Hi.
  simpl. symmetry. apply Hd. eapply list_elem_of_lookup_2, Hi.
Qed.

(** Re-mapping weekly-only rows leaves no weekly row in the primary slot,
    takes every secondary row from the inputs, keeps one row per account in
    each slot and loses no account. *)
Theorem normalize_weekly_only_rows_spec primary_rows secondary_rows :
  let '(np, ns) := normalize_weekly_only_rows primary_rows secondary_rows in
  (∀ r, r ∈ np → r ∈ primary_rows ∧ weekly r = false) ∧
  (∀ r, r ∈ ns → r ∈ secondary_rows ∨ (r ∈ primary_rows ∧ weekly r = true)) ∧
  NoDup (row_account_id <$> np) ∧ NoDup (row_account_id <$> ns) ∧
  (∀ r, r ∈ primary_rows ∨ r ∈ secondary_rows →
        ∃ r', (r' ∈ np ∨ r' ∈ ns) ∧ row_account_id r' = row_account_id r).
Proof.
  unfold normalize_weekly_only_rows.
  set (L := dict_of row_account_id primary_rows). set (sd := dict_of row_account_id secondary_rows).
  pose proof (normalize_fold_primary L [] sd) as Hp.
  destruct (normalize_fold_secondary
    (λ k r, k = row_account_id r ∧ (r ∈ secondary_rows ∨ (r ∈ primary_rows ∧ weekly r = true)))
    L [] sd) as (Hnd & HP & Hk1 & Hk2).
  { apply dict_of_NoDup. }
  { intros k r [? ->]%dict_of_in. auto. }
  { intros k r [? ->]%dict_of_in ?. auto. }
  revert Hp Hnd HP Hk1 Hk2. destruct (fold_left normalize_step L ([], sd)) as [np sd'].
  simpl. intros -> Hnd HP Hk1 Hk2.
  assert (row_account_id <$> L.*2 = L.*1) as HL.
  { apply fmap_snd_ids. by intros k v [? ->]%dict_of_in. }
  assert (row_account_id <$> sd'.*2 = sd'.*1) as Hsd.
  { apply fmap_snd_ids. by intros k v [-> ?]%HP. }
  assert (∀ k, k ∈ sd'.*1 → ∃ r', r' ∈ sd'.*2 ∧ row_account_id r' = k) as Hback.
  { intros k. rewrite <- Hsd. intros (r' & -> & ?)%list_elem_of_fmap. eauto. }
  split_and!.
  - intros r [? Hr]%list_elem_of_filter. split; [|done].
    apply list_elem_of_fmap in Hr as ([k r'] & -> & Hr). by apply dict_of_in in Hr as [? _].
  - intros r ([k r'] & -> & Hr)%list_elem_of_fmap. by apply HP in Hr as [_ ?].
  - assert (NoDup (row_account_id <$> L.*2)) as HndL by (rewrite HL; apply dict_of_NoDup).
    eapply sublist_NoDup; [exact HndL|]. apply fmap_sublist, sublist_filter.
  - by rewrite Hsd.
  - intros r [Hr|Hr].
    + assert (row_account_id r ∈ L.*1) as ([k r'] & Hkr & Hin)%list_elem_of_fmap
        by (apply dict_of_keys; eauto). simpl in Hkr.
      destruct (weekly r') eqn:Ew.
      * destruct (Hback k) as (r2 & ? & ?); [by eapply Hk2|]. exists r2. split; [auto|congruence].
      * exists r'. pose proof (dict_of_in _ _ _ _ Hin) as [_ Hk]. split; [|congruence].
        left. apply list_elem_of_filter. split; [done|]. apply list_elem_of_fmap. by exists (k, r').
    + destruct (Hback (row_account_id r)) as (r2 & ? & ?); [|exists r2; auto].
      apply Hk1, dict_of_keys. eauto.
Qed.

(** *** Quota application *)

Definition exhausted (used : option Q) : bool :=
  match used with Some u => qle 100 u | None => false end.

(** The decision table [apply_usage_quota] implements, by the status the
    account had: a hard block is kept, fresh exhaustion blocks (weekly before
    five-hour), and an old block is lifted only by fresh data of its own window
    once its reset time is no longer in the future. *)
Definition quota_status (t1 t3 : Q) (status : AccountStatus) (primary_used runtime_reset
    secondary_used : option Q) : AccountStatus :=
  match status with
  | DEACTIVATED | PAUSED => status
  | _ =>
      if exhausted secondary_used then QUOTA_EXCEEDED
      else if exhausted primary_used then RATE_LIMITED
      else match status with
           | QUOTA_EXCEEDED =>
               if bool_decide (is_Some secondary_used) && negb (reset_in_future runtime_reset t1)
               then ACTIVE else QUOTA_EXCEEDED
           | RATE_LIMITED =>
               if bool_decide (is_Some primary_used) && negb (reset_in_future runtime_reset t3)
               then ACTIVE else RATE_LIMITED
           | _ => status
           end
  end.

(** The status computed from usage rows is the one of the decision table; the
    reported usage is clamped to 100 exactly when a window is exhausted; and an
    account that recovers has no reset time left. *)
Theorem apply_usage_quota_spec t1 t2 t3 status pu pr pm rr su sr :
  let '(status', used', reset') := apply_usage_quota t1 t2 t3 status pu pr pm rr su sr in
  status' = quota_status t1 t3 status pu rr su ∧
  used' = (if bool_decide (status = DEACTIVATED ∨ status = PAUSED) then pu
           else if exhausted su || exhausted pu then Some 100%Q else pu) ∧
  (status' = ACTIVE → status ≠ ACTIVE → reset' = None).
Proof.
  unfold apply_usage_quota, quota_status, exhausted.
  destruct status, su as [s|], pu as [p|], sr as [r|], pr; simpl;
    repeat (first [case_bool_decide | case_if | destruct (_fallback_primary_reset _ _)];
            simpl in *; simplify_eq);
    split_and!; try done; try (naive_solver congruence); try (intros; congruence).
Qed.

(** *** Depletion *)

Lemma ewma_rate_nonneg st used ts alpha reset r :
  (0 <= alpha <= 1)%Q →
  (∀ s q, st = Some s → rate s = Some q → (0 <= q)%Q) →
  rate (ewma_update st used ts alpha reset) = Some r → (0 <= r)%Q.
Proof.
  intros Ha Hst. unfold ewma_update. destruct st as [s|]; [|done].
  destruct (qeq _ 0); [by apply Hst|].
  destruct (_ || _); [done|]. simpl. intros [= <-].
  match goal with |- context [qmax ?a 0] => destruct (qmax_spec a 0) as [[_ Hm] _];
    generalize dependent (qmax a 0) end.
  intros m Hm. destruct (rate s) as [q|] eqn:E; [|done].
  assert (0 <= q)%Q by (by eapply Hst). nra.
Qed.

(** A run of observations from an empty history. *)
Definition observe_all (alpha : Q) (obs : list (Q * Q * option Z)) (st : option EWMAState)
    : option EWMAState :=
  fold_left (λ st '(used, ts, reset), Some (ewma_update st used ts alpha reset)) obs st.

(** Feeding any series of usage observations (with any smoothing factor in
    [0,1]) leaves a rate that is absent or non-negative, so that the depletion
    risk derived from it never falls when the horizon grows. *)
Theorem ewma_history_rate_nonneg alpha obs st r
    (Halpha : (0 <= alpha <= 1)%Q)
    (Hrun : observe_all alpha obs None = Some st) (Hrate : rate st = Some r) :
  (0 <= r)%Q ∧
  (∀ used s1 s2, (s1 <= s2)%Q →
     compute_depletion_risk used r s1 <= compute_depletion_risk used r s2 ∧
     compute_depletion_risk used r s2 <= 1)%Q.
Proof.
  assert (∀ st0, (∀ s q, st0 = Some s → rate s = Some q → (0 <= q)%Q) →
    ∀ s q, observe_all alpha obs st0 = Some s → rate s = Some q → (0 <= q)%Q) as Hinv.
  { clear Hrun. induction obs as [|[[u ts] rs] obs IH]; intros st0 H0; simpl; [done|].
    apply IH. intros s q [= <-]. by apply ewma_rate_nonneg. }
  assert (0 <= r)%Q as Hr by (eapply (Hinv None); eauto; done).
  split; [done|]. intros used s1 s2 Hs. unfold compute_depletion_risk.
  destruct (qmax_spec 0 r) as [[Hm _] _]. generalize dependent (qmax 0 r). intros m Hm.
  set (a := ((used + m * s1) / 100)%Q). set (b := ((used + m * s2) / 100)%Q).
  assert (a <= b)%Q as Hab.
  { unfold a, b. apply Qmult_le_r; [done|]. nra. }
  destruct (qmin_spec a 1) as [[Ha1 Ha2] _], (qmin_spec b 1) as [[Hb1 Hb2] Hb3].
  split; [|done]. destruct Hb3 as [-> | ->]; lra.
Qed.

Lemma ewma_history_rate_nonneg_witness : (0 <= 10 # 60)%Q.
Proof.
  apply (ewma_history_rate_nonneg (1 # 2) [(10, 0, None); (20, 60, None)]%Q
    {| rate := Some (10 # 60)%Q; last_used_percent := 20; last_timestamp := 60; last_reset_at := None |} (10 # 60)%Q);
    [split; by vm_compute|by vm_compute|reflexivity].
Defined.

Definition ex_account (id plan : string) : Account :=
  {| acc_id := id; chatgpt_account_id := None; email := ""; acc_plan_type := plan; access_token_encrypted := "";
     refresh_token_encrypted := ""; id_token_encrypted := ""; last_refresh := 0; acc_created_at := 0;
     acc_status := ACTIVE; acc_deactivation_reason := None; acc_reset_at := None; acc_blocked_at := None |}.
Definition ex_row (id : string) (used : Q) : UsageWindowRow :=
  {| row_account_id := id; row_used_percent := Some used; row_reset_at := None; row_window_minutes := None;
     row_recorded_at := None |}.
Definition ex_rows : list UsageWindowRow := [ex_row "a" 20; ex_row "b" 60].
Definition ex_accounts : gmap string Account := <["a" := ex_account "a" "plus"]> (<["b" := ex_account "b" "pro"]> ∅).

Lemma summarize_usage_window_mean_witness :
  ∃ p, sum_used_percent (summarize_usage_window ex_rows ex_accounts "primary") = Some p ∧ (20 <= p <= 60)%Q.
Proof.
  eexists. split; [vm_compute; reflexivity|].
  apply (summarize_usage_window_mean ex_rows ex_accounts "primary" 20 60); [|vm_compute; reflexivity].
  intros r u [->|[->|H]%elem_of_cons]%elem_of_cons; simpl; [intros [= <-]; split; by vm_compute..|by apply elem_of_nil in H].
Defined.

End UsageFacts.
