(* ===== verification/Pricing.v ===== *)
(** Model prices and request costs: [src/app/core/usage/pricing.py] and
    [src/app/core/usage/logs.py]. *)

From S2P Require Import Prelude Models.
From stdpp Require Import sorting.

Module Pricing.

Record ModelPrice := {
  input_per_1m : Q;
  output_per_1m : Q;
  cached_input_per_1m : option Q;
  priority_multiplier : option Q;
  priority_input_per_1m : option Q;
  priority_output_per_1m : option Q;
  priority_cached_input_per_1m : option Q;
  flex_input_per_1m : option Q;
  flex_output_per_1m : option Q;
  flex_cached_input_per_1m : option Q;
  long_context_threshold_tokens : option Q;
  long_context_input_per_1m : option Q;
  long_context_output_per_1m : option Q;
  long_context_cached_input_per_1m : option Q;
}.

(** [ModelPrice(input_per_1m=i, output_per_1m=o)] with every default [None]. *)
Definition base_price (i o : Q) : ModelPrice :=
  {| input_per_1m := i; output_per_1m := o; cached_input_per_1m := None;
     priority_multiplier := None; priority_input_per_1m := None;
     priority_output_per_1m := None; priority_cached_input_per_1m := None;
     flex_input_per_1m := None; flex_output_per_1m := None; flex_cached_input_per_1m := None;
     long_context_threshold_tokens := None; long_context_input_per_1m := None;
     long_context_output_per_1m := None; long_context_cached_input_per_1m := None |}.

Record UsageTokens := {
  input_tokens : Q;
  output_tokens : Q;
  cached_input_tokens : Q;
}.

Record ResponseUsageDetails := { cached_tokens : option Z; reasoning_tokens : option Z }.

Record ResponseUsage := {
  ru_input_tokens : option Z;
  ru_output_tokens : option Z;
  ru_total_tokens : option Z;
  input_tokens_details : option ResponseUsageDetails;
  output_tokens_details : option ResponseUsageDetails;
}.

Record CostItem := { item_model : string; item_usage : UsageTokens; item_service_tier : option string }.

(** The [usage] argument: [UsageTokens | ResponseUsage | None]. *)
Inductive usage_arg :=
| Tokens (u : UsageTokens)
| Response (u : ResponseUsage)
| NoUsage.

Definition _as_number (value : option Z) : option Q := inject_Z <$> value.

Definition _normalize_usage (usage : usage_arg) : option UsageTokens :=
  match usage with
  | Tokens u => Some u
  | NoUsage => None
  | Response u =>
      let input := _as_number (ru_input_tokens u) in
      let output :=
        match _as_number (ru_output_tokens u), output_tokens_details u with
        | None, Some d => _as_number (reasoning_tokens d)
        | o, _ => o
        end in
      match input, output with
      | Some i, Some o =>
          let cached := match input_tokens_details u with
                        | Some d => or_q (_as_number (cached_tokens d)) 0
                        | None => 0%Q
                        end in
          let cached := qmax 0 (qmin cached i) in
          Some {| input_tokens := i; output_tokens := o; cached_input_tokens := cached |}
      | _, _ => None
      end
  end.

Definition DEFAULT_PRICING_MODELS : dict ModelPrice :=
  [
   ("gpt-5.5", (base_price 5.0 30.0) {{
      cached_input_per_1m := Some (0.5);
      priority_input_per_1m := Some (12.5);
      priority_output_per_1m := Some (75.0);
      priority_cached_input_per_1m := Some (1.25);
      flex_input_per_1m := Some (2.5);
      flex_output_per_1m := Some (15.0);
      flex_cached_input_per_1m := Some (0.25) }});
   ("gpt-5.5-pro", (base_price 30.0 180.0) {{
      flex_input_per_1m := Some (15.0);
      flex_output_per_1m := Some (90.0) }});
   ("gpt-5.4", (base_price 2.5 15.0) {{
      cached_input_per_1m := Some (0.25);
      priority_input_per_1m := Some (5.0);
      priority_output_per_1m := Some (30.0);
      priority_cached_input_per_1m := Some (0.5);
      flex_input_per_1m := Some (1.25);
      flex_output_per_1m := Some (7.5);
      flex_cached_input_per_1m := Some (0.125);
      long_context_threshold_tokens := Some (272000);
      long_context_input_per_1m := Some (5.0);
      long_context_output_per_1m := Some (22.5);
      long_context_cached_input_per_1m := Some (0.5) }});
   ("gpt-5.4-mini", (base_price 0.75 4.5) {{
      cached_input_per_1m := Some (0.075);
      flex_input_per_1m := Some (0.375);
      flex_output_per_1m := Some (2.25);
      flex_cached_input_per_1m := Some (0.0375) }});
   ("gpt-5.4-nano", (base_price 0.20 1.25) {{
      cached_input_per_1m := Some (0.02);
      flex_input_per_1m := Some (0.10);
      flex_output_per_1m := Some (0.625);
      flex_cached_input_per_1m := Some (0.01) }});
   ("gpt-5.4-pro", (base_price 30.0 180.0) {{
      flex_input_per_1m := Some (15.0);
      flex_output_per_1m := Some (90.0);
      long_context_threshold_tokens := Some (272000);
      long_context_input_per_1m := Some (60.0);
      long_context_output_per_1m := Some (270.0) }});
   ("gpt-5.3-codex", (base_price 1.75 14.0) {{
      cached_input_per_1m := Some (0.175);
      priority_input_per_1m := Some (3.5);
      priority_output_per_1m := Some (28.0);
      priority_cached_input_per_1m := Some (0.35) }});
   ("gpt-5.3", (base_price 1.75 14.0) {{
      cached_input_per_1m := Some (0.175) }});
   ("gpt-5.3-chat-latest", (base_price 1.75 14.0) {{
      cached_input_per_1m := Some (0.175) }});
   ("gpt-5.2", (base_price 1.75 14.0) {{
      cached_input_per_1m := Some (0.175);
      priority_multiplier := Some (2.0);
      flex_input_per_1m := Some (0.875);
      flex_output_per_1m := Some (7.0);
      flex_cached_input_per_1m := Some (0.0875) }});
   ("gpt-5.2-chat-latest", (base_price 1.75 14.0) {{
      cached_input_per_1m := Some (0.175) }});
   ("gpt-5.1", (base_price 1.25 10.0) {{
      cached_input_per_1m := Some (0.125);
      priority_multiplier := Some (2.0);
      flex_input_per_1m := Some (0.625);
      flex_output_per_1m := Some (5.0);
      flex_cached_input_per_1m := Some (0.0625) }});
   ("gpt-5.1-chat-latest", (base_price 1.25 10.0) {{
      cached_input_per_1m := Some (0.125) }});
   ("gpt-5", (base_price 1.25 10.0) {{
      cached_input_per_1m := Some (0.125);
      priority_multiplier := Some (2.0);
      flex_input_per_1m := Some (0.625);
      flex_output_per_1m := Some (5.0);
      flex_cached_input_per_1m := Some (0.0625) }});
   ("gpt-5-chat-latest", (base_price 1.25 10.0) {{
      cached_input_per_1m := Some (0.125) }});
   ("gpt-5.2-codex", (base_price 1.75 14.0) {{
      cached_input_per_1m := Some (0.175);
      priority_input_per_1m := Some (3.5);
      priority_output_per_1m := Some (28.0);
      priority_cached_input_per_1m := Some (0.35) }});
   ("gpt-5.1-codex-max", (base_price 1.25 10.0) {{
      cached_input_per_1m := Some (0.125);
      priority_input_per_1m := Some (2.5);
      priority_output_per_1m := Some (20.0);
      priority_cached_input_per_1m := Some (0.25) }});
   ("gpt-5.1-codex-mini", (base_price 0.25 2.0) {{
      cached_input_per_1m := Some (0.025) }});
   ("gpt-5.1-codex", (base_price 1.25 10.0) {{
      cached_input_per_1m := Some (0.125);
      priority_input_per_1m := Some (2.5);
      priority_output_per_1m := Some (20.0);
      priority_cached_input_per_1m := Some (0.25) }});
   ("gpt-5-codex", (base_price 1.25 10.0) {{
      cached_input_per_1m := Some (0.125);
      priority_input_per_1m := Some (2.5);
      priority_output_per_1m := Some (20.0);
      priority_cached_input_per_1m := Some (0.25) }});
   ("gpt-image-2", (base_price 5.0 30.0) {{
      cached_input_per_1m := Some (2.0) }});
   ("gpt-image-1.5", (base_price 5.0 30.0) {{
      cached_input_per_1m := Some (2.0) }});
   ("gpt-image-1", (base_price 5.0 30.0) {{
      cached_input_per_1m := Some (2.0) }});
   ("gpt-image-1-mini", (base_price 5.0 30.0) {{
      cached_input_per_1m := Some (2.0) }})
  ]%Q.

Definition DEFAULT_MODEL_ALIASES : dict string :=
  [
   ("gpt-5.5-pro*", "gpt-5.5-pro");
   ("gpt-5.5*", "gpt-5.5");
   ("gpt-5.4-pro*", "gpt-5.4-pro");
   ("gpt-5.4-mini*", "gpt-5.4-mini");
   ("gpt-5.4-nano*", "gpt-5.4-nano");
   ("gpt-5.4*", "gpt-5.4");
   ("gpt-5.3-codex*", "gpt-5.3-codex");
   ("gpt-5.3-chat-latest*", "gpt-5.3-chat-latest");
   ("gpt-5.2-codex*", "gpt-5.2-codex");
   ("gpt-5.2-chat-latest*", "gpt-5.2-chat-latest");
   ("gpt-5.3*", "gpt-5.3");
   ("gpt-5.1-chat-latest*", "gpt-5.1-chat-latest");
   ("gpt-5.2*", "gpt-5.2");
   ("gpt-5-chat-latest*", "gpt-5-chat-latest");
   ("gpt-5.1*", "gpt-5.1");
   ("gpt-5*", "gpt-5");
   ("gpt-5.1-codex-max*", "gpt-5.1-codex-max");
   ("gpt-5.1-codex-mini*", "gpt-5.1-codex-mini");
   ("gpt-5.1-codex*", "gpt-5.1-codex");
   ("gpt-5-codex*", "gpt-5-codex");
   ("gpt-image-2*", "gpt-image-2");
   ("gpt-image-1.5*", "gpt-image-1.5");
   ("gpt-image-1-mini*", "gpt-image-1-mini");
   ("gpt-image-1*", "gpt-image-1")
  ].

(** [fnmatchcase] on patterns made of literals, [*] and [?]. *)
Fixpoint fnmatchcase_from (p s : string) {struct p} : bool :=
  match p with
  | EmptyString => match s with EmptyString => true | _ => false end
  | String c p' =>
      if Ascii.eqb c "*" then
        (fix star (s : string) : bool :=
           fnmatchcase_from p' s ||
           match s with EmptyString => false | String _ s' => star s' end) s
      else match s with
           | EmptyString => false
           | String d s' => (Ascii.eqb c "?" || Ascii.eqb c d) && fnmatchcase_from p' s'
           end
  end.
Definition fnmatchcase (name pat : string) : bool := fnmatchcase_from pat name.

Definition resolve_model_alias (model : string) (aliases : dict string) : option string :=
  if String.eqb model "" then None
  else
    let normalized := py_lower model in
    let matched := map (λ '(pattern, target), (Z.of_nat (String.length pattern), target))
                     (List.filter (λ '(pattern, _), fnmatchcase normalized (py_lower pattern)) aliases) in
    snd <$> max_by fst matched.

Fixpoint find_price (pricing : dict ModelPrice) (normalized : string) : option (string * ModelPrice) :=
  match pricing with
  | [] => None
  | (key, value) :: rest =>
      if String.eqb (py_lower key) normalized then Some (key, value) else find_price rest normalized
  end.

(** A missing or empty mapping falls back to the default table. *)
Definition get_pricing_for_model (model : string) (pricing : dict ModelPrice) (aliases : dict string)
    : option (string * ModelPrice) :=
  if String.eqb model "" then None
  else
    let pricing := match pricing with [] => DEFAULT_PRICING_MODELS | _ => pricing end in
    let aliases := match aliases with [] => DEFAULT_MODEL_ALIASES | _ => aliases end in
    let normalized := py_lower model in
    match find_price pricing normalized with
    | Some kv => Some kv
    | None =>
        match resolve_model_alias normalized aliases with
        | None => None
        | Some alias =>
            if String.eqb alias "" then None
            else find_price pricing (py_lower alias)
        end
    end.

Definition _normalize_service_tier (service_tier : option string) : option string :=
  match service_tier with
  | None => None
  | Some t => none_if_empty (py_lower (py_strip t))
  end.

Definition _uses_priority_tier (service_tier : option string) : bool :=
  match _normalize_service_tier service_tier with
  | None => false
  | Some t => mem t ["priority"; "fast"]
  end.

Definition _uses_flex_tier (service_tier : option string) : bool :=
  match _normalize_service_tier service_tier with
  | None => false
  | Some t => String.eqb t "flex"
  end.

Definition is_long_context (usage : UsageTokens) (price : ModelPrice) : bool :=
  match long_context_threshold_tokens price, long_context_input_per_1m price,
        long_context_output_per_1m price with
  | Some threshold, Some _, Some _ => qlt threshold (input_tokens usage)
  | _, _, _ => false
  end.

(** The (input, cached input, output) rates per million tokens, given whether
    the request is a long-context one. *)
Definition effective_rates_at (long : bool) (price : ModelPrice) (service_tier : option string)
    : Q * Q * Q :=
  let input_rate := input_per_1m price in
  let cached_rate := default input_rate (cached_input_per_1m price) in
  let output_rate := output_per_1m price in
  let standard :=
    if long then
      let input_rate := default input_rate (long_context_input_per_1m price) in
      let cached_rate := default input_rate (long_context_cached_input_per_1m price) in
      let output_rate := default output_rate (long_context_output_per_1m price) in
      (input_rate, cached_rate, output_rate)
    else (input_rate, cached_rate, output_rate) in
  let flex_or_standard :=
    match flex_input_per_1m price, flex_output_per_1m price with
    | Some flex_in, Some flex_out =>
        if _uses_flex_tier service_tier then
          let cached_rate := default flex_in (flex_cached_input_per_1m price) in
          if long then (flex_in * 2, cached_rate * 2, flex_out * 1.5)%Q
          else (flex_in, cached_rate, flex_out)
        else standard
    | _, _ => standard
    end in
  if _uses_priority_tier service_tier then
    match priority_input_per_1m price, priority_output_per_1m price with
    | Some pri_in, Some pri_out =>
        (pri_in, default pri_in (priority_cached_input_per_1m price), pri_out)
    | _, _ =>
        match priority_multiplier price with
        | Some m => (input_rate * m, cached_rate * m, output_rate * m)%Q
        | None => flex_or_standard
        end
    end
  else flex_or_standard.

Definition _effective_rates (usage : UsageTokens) (price : ModelPrice) (service_tier : option string)
    : Q * Q * Q :=
  effective_rates_at (is_long_context usage price) price service_tier.

Definition calculate_cost_from_usage (usage : usage_arg) (price : ModelPrice)
    (service_tier : option string) : option Q :=
  match _normalize_usage usage with
  | None => None
  | Some normalized =>
      let billable_input := (input_tokens normalized - cached_input_tokens normalized)%Q in
      let '(input_rate, cached_rate, output_rate) := _effective_rates normalized price service_tier in
      Some ((billable_input / 1000000) * input_rate
            + (cached_input_tokens normalized / 1000000) * cached_rate
            + (output_tokens normalized / 1000000) * output_rate)%Q
  end.

Record UsageCostByModel := { cbm_model : string; cbm_usd : Q }.
Record UsageCostSummary := { currency : string; total_usd_7d : Q; by_model : list UsageCostByModel }.

(** One iteration of the loop of [calculate_costs] on (totals, total_usd). *)
Definition cost_step (pricing : dict ModelPrice) (aliases : dict string)
    (acc : dict Q * Q) (item : CostItem) : dict Q * Q :=
  let (totals, total_usd) := acc in
  match get_pricing_for_model (item_model item) pricing aliases with
  | None => acc
  | Some (canonical, price) =>
      match calculate_cost_from_usage (Tokens (item_usage item)) price (item_service_tier item) with
      | None => acc
      | Some cost =>
          (dict_set totals canonical (default 0 (dict_get totals canonical) + cost)%Q,
           (total_usd + cost)%Q)
      end
  end.

Definition key_le (p q : string * Q) : Prop := pylt q.1 p.1 = false.
#[global] Instance key_le_dec : RelDecision key_le.
Proof. intros p q. unfold key_le. apply _. Defined.

Definition calculate_costs (items : list CostItem) (pricing : dict ModelPrice) (aliases : dict string)
    : UsageCostSummary :=
  let (totals, total_usd) := fold_left (cost_step pricing aliases) items ([], 0%Q) in
  {| currency := "USD";
     total_usd_7d := py_round_digits total_usd 6;
     by_model := map (λ '(model, value), {| cbm_model := model; cbm_usd := py_round_digits value 6 |})
                   (merge_sort key_le totals) |}.

End Pricing.

(** ** Costs of request logs *)
Module UsageLogs.
Import Pricing.

Record RequestLogLike := {
  log_model : option string;
  log_service_tier : option string;
  log_input_tokens : option Z;
  log_output_tokens : option Z;
  log_cached_input_tokens : option Z;
  log_reasoning_tokens : option Z;
  log_cost_usd : option Q;
}.

Definition cached_input_tokens_from_log (log : RequestLogLike) : option Z :=
  match log_cached_input_tokens log with
  | None => None
  | Some c =>
      let c := Z.max 0 c in
      match log_input_tokens log with
      | Some i => Some (Z.min c i)
      | None => Some c
      end
  end.

Definition usage_tokens_from_log (log : RequestLogLike) : option UsageTokens :=
  match log_input_tokens log with
  | None => None
  | Some i =>
      let output := match log_output_tokens log with
                    | Some o => Some o
                    | None => log_reasoning_tokens log
                    end in
      match output with
      | None => None
      | Some o =>
          let cached := or_z (cached_input_tokens_from_log log) 0 in
          Some {| input_tokens := inject_Z i; output_tokens := inject_Z o;
                  cached_input_tokens := inject_Z cached |}
      end
  end.

Definition calculated_cost_from_log (log : RequestLogLike) (precision : option nat) : option Q :=
  match log_model log with
  | None => None
  | Some model =>
      if String.eqb model "" then None
      else match usage_tokens_from_log log with
           | None => None
           | Some usage =>
               match get_pricing_for_model model [] [] with
               | None => None
               | Some (_, price) =>
                   match calculate_cost_from_usage (Tokens usage) price (log_service_tier log) with
                   | None => None
                   | Some cost =>
                       match precision with
                       | None => Some cost
                       | Some n => Some (py_round_digits cost n)
                       end
                   end
               end
           end
  end.

Definition cost_from_log (log : RequestLogLike) (precision : option nat) : option Q :=
  match log_cost_usd log with
  | None => None
  | Some cost =>
      match precision with
      | None => Some cost
      | Some n => Some (py_round_digits cost n)
      end
  end.

Definition total_tokens_from_log (log : RequestLogLike) : option Z :=
  let input := log_input_tokens log in
  let output := match log_output_tokens log with
                | None => log_reasoning_tokens log
                | o => o
                end in
  match input, output with
  | None, None => None
  | _, _ => Some (or_z input 0 + or_z output 0)%Z
  end.

End UsageLogs.

(** ** Properties of prices and costs *)
Module PricingFacts.
Import Pricing.

Lemma find_price_spec pricing n :
  match find_price pricing n with
  | Some (k, v) => (k, v) ∈ pricing ∧ py_lower k = n
  | None => ∀ k v, (k, v) ∈ pricing → py_lower k ≠ n
  end.
Proof.
  induction pricing as [|[k v] pricing IH]; simpl; [set_solver|].
  destruct (String.eqb_spec (py_lower k) n) as [<-|Hn]; [split; [by left|done]|].
  destruct (find_price pricing n) as [[k' v']|].
  - destruct IH. split; [by right|done].
  - intros k' v' [[= -> ->]|?]%elem_of_cons; eauto.
Qed.

Definition pattern_matches (model : string) (entry : string * string) : bool :=
  fnmatchcase (py_lower model) (py_lower entry.1).

Lemma resolve_model_alias_spec model aliases :
  model ≠ "" →
  match resolve_model_alias model aliases with
  | Some target =>
      ∃ pattern, (pattern, target) ∈ aliases ∧ pattern_matches model (pattern, target) = true ∧
        (∀ e, e ∈ aliases → pattern_matches model e = true →
              (String.length e.1 <= String.length pattern)%nat)
  | None => ∀ e, e ∈ aliases → pattern_matches model e = false
  end.
Proof.
  intros Hm. unfold resolve_model_alias.
  destruct (String.eqb_spec model ""); [done|].
  set (len := λ '(p, t), (Z.of_nat (String.length p), t : string)).
  set (ms := List.filter _ aliases).
  assert (∀ e, e ∈ ms ↔ e ∈ aliases ∧ pattern_matches model e = true) as Hms.
  { intros [p t]. unfold ms. rewrite !list_elem_of_In, filter_In. done. }
  clearbody ms. destruct (max_by fst (map len ms)) as [[plen t]|] eqn:E; simpl.
  - pose proof (max_by_elem _ _ _ E) as Hin.
    apply list_elem_of_In, in_map_iff in Hin as ([p t'] & Hpt & Hin%list_elem_of_In).
    unfold len in Hpt. simplify_eq. exists p. apply Hms in Hin as [? ?]. split_and!; [done..|].
    intros e He Hme. assert (len e ∈ map len ms) as Hle.
    { apply list_elem_of_In, in_map, list_elem_of_In, Hms. done. }
    pose proof (max_by_max _ _ _ _ E Hle) as Hmax. destruct e as [p' t'].
    simpl in *. unfold pylt, pycmp, PyOrd_Z in Hmax.
    destruct (Z.compare_spec (Z.of_nat (String.length p)) (Z.of_nat (String.length p'))); try lia; done.
  - intros e He. destruct (pattern_matches model e) eqn:Em; [|done].
    assert (e ∈ ms) as Hin by (by apply Hms). destruct ms; [set_solver|done].
Qed.

(** Every target of the default aliases has a price of its own. *)
Lemma default_targets_priced :
  forallb (λ e, negb (String.eqb e.2 "") &&
                match find_price DEFAULT_PRICING_MODELS (py_lower e.2) with
                | Some (k, _) => String.eqb k e.2 | None => false end)
    DEFAULT_MODEL_ALIASES = true.
Proof. by vm_compute. Qed.

Lemma default_target_price e :
  e ∈ DEFAULT_MODEL_ALIASES →
  e.2 ≠ "" ∧ ∃ price, find_price DEFAULT_PRICING_MODELS (py_lower e.2) = Some (e.2, price).
Proof.
  intros He. pose proof default_targets_priced as H. rewrite forallb_forall in H.
  apply list_elem_of_In, H in He. apply andb_prop in He as [H1%negb_true_iff H2].
  split; [by apply String.eqb_neq|].
  destruct (find_price _ _) as [[k v]|]; [|done]. apply String.eqb_eq in H2 as ->. eauto.
Qed.

(** Which models the default tables price, and how: exactly the models whose
    name is a table key up to case, or that match an alias pattern; an alias
    resolves through the longest matching pattern to an entry that has a
    price. *)
Theorem default_pricing_total model :
  match get_pricing_for_model model [] [] with
  | Some (key, price) =>
      (key, price) ∈ DEFAULT_PRICING_MODELS ∧
      (py_lower key = py_lower model ∨
       ∃ pattern, (pattern, key) ∈ DEFAULT_MODEL_ALIASES ∧
         pattern_matches (py_lower model) (pattern, key) = true ∧
         ∀ e, e ∈ DEFAULT_MODEL_ALIASES → pattern_matches (py_lower model) e = true →
              (String.length e.1 <= String.length pattern)%nat)
  | None =>
      model = "" ∨
      ((∀ k v, (k, v) ∈ DEFAULT_PRICING_MODELS → py_lower k ≠ py_lower model) ∧
       ∀ e, e ∈ DEFAULT_MODEL_ALIASES → pattern_matches (py_lower model) e = false)
  end.
Proof.
  unfold get_pricing_for_model. destruct (String.eqb_spec model ""); [by left|].
  pose proof (find_price_spec DEFAULT_PRICING_MODELS (py_lower model)) as Hf.
  destruct (find_price DEFAULT_PRICING_MODELS (py_lower model)) as [[k v]|].
  { destruct Hf. split; [done|by left]. }
  pose proof (resolve_model_alias_spec (py_lower model) DEFAULT_MODEL_ALIASES) as Hr.
  destruct (resolve_model_alias _ _) as [t|].
  - destruct Hr as (pat & Hin & Hm & Hmax); [by rewrite py_lower_empty|].
    destruct (default_target_price _ Hin) as [Hne [price Hp]]. cbn [snd] in *.
    destruct (String.eqb_spec t ""); [done|]. rewrite Hp.
    pose proof (find_price_spec DEFAULT_PRICING_MODELS (py_lower t)) as Hs.
    rewrite Hp in Hs. split; [apply Hs|]. right. eauto.
  - right. split; [done|]. apply Hr. by rewrite py_lower_empty.
Qed.

Lemma default_pricing_in model key price :
  get_pricing_for_model model [] [] = Some (key, price) → (key, price) ∈ DEFAULT_PRICING_MODELS.
Proof.
  unfold get_pricing_for_model. case_if; [done|].
  assert (∀ n, find_price DEFAULT_PRICING_MODELS n = Some (key, price) →
    (key, price) ∈ DEFAULT_PRICING_MODELS) as Hf.
  { intros n Hn. pose proof (find_price_spec DEFAULT_PRICING_MODELS n) as Hs.
    rewrite Hn in Hs. apply Hs. }
  destruct (find_price DEFAULT_PRICING_MODELS (py_lower model)) eqn:E;
    [intros [= ->]; eauto|].
  destruct (resolve_model_alias _ _); [|done]. case_if; [done|]. apply Hf.
Qed.

(** *** Tiers *)

Definition rates_le (a b : Q * Q * Q) : Prop :=
  let '(i1, c1, o1) := a in let '(i2, c2, o2) := b in (i1 <= i2 ∧ c1 <= c2 ∧ o1 <= o2)%Q.
Definition rates_leb (a b : Q * Q * Q) : bool :=
  let '(i1, c1, o1) := a in let '(i2, c2, o2) := b in qle i1 i2 && qle c1 c2 && qle o1 o2.

Lemma rates_leb_spec a b : rates_leb a b = true → rates_le a b.
Proof. destruct a as [[??]?], b as [[??]?]. unfold rates_leb, rates_le. intros H. pyb. tauto. Qed.

Definition tiers_ordered (long : bool) (price : ModelPrice) : bool :=
  rates_leb (0, 0, 0)%Q (effective_rates_at long price (Some "flex")) &&
  rates_leb (effective_rates_at long price (Some "flex")) (effective_rates_at long price None) &&
  rates_leb (effective_rates_at long price None) (effective_rates_at long price (Some "priority")).

(** Only a price with long-context rates is ever read at long context. *)
Definition long_priced (price : ModelPrice) : bool :=
  match long_context_threshold_tokens price, long_context_input_per_1m price,
        long_context_output_per_1m price with
  | Some _, Some _, Some _ => true
  | _, _, _ => false
  end.

Lemma is_long_priced u price : is_long_context u price = true → long_priced price = true.
Proof.
  unfold is_long_context, long_priced.
  by destruct (long_context_threshold_tokens price), (long_context_input_per_1m price),
    (long_context_output_per_1m price); rewrite ?andb_false_r.
Qed.

Lemma default_tiers_ordered :
  forallb (λ e, (negb (long_priced e.2) || tiers_ordered true e.2) && tiers_ordered false e.2) DEFAULT_PRICING_MODELS = true.
Proof. by vm_compute. Qed.

Lemma default_tiers key price u :
  (key, price) ∈ DEFAULT_PRICING_MODELS →
  let long := is_long_context u price in
  rates_le (0, 0, 0)%Q (effective_rates_at long price (Some "flex")) ∧
  rates_le (effective_rates_at long price (Some "flex")) (effective_rates_at long price None) ∧
  rates_le (effective_rates_at long price None) (effective_rates_at long price (Some "priority")).
Proof.
  intros Hin. pose proof default_tiers_ordered as H. rewrite forallb_forall in H.
  apply list_elem_of_In, H in Hin. cbn [snd] in Hin. apply andb_prop in Hin as [Ht Hf].
  assert (tiers_ordered (is_long_context u price) price = true) as Ho.
  { destruct (is_long_context u price) eqn:E; [|done]. by rewrite (is_long_priced _ _ E) in Ht. }
  unfold tiers_ordered in Ho. rewrite !andb_true_iff in Ho.
  destruct_and!; auto using rates_leb_spec.
Qed.

Lemma cost_mono (b c o i1 c1 o1 i2 c2 o2 : Q) :
  (0 <= b)%Q → (0 <= c)%Q → (0 <= o)%Q → rates_le (i1, c1, o1) (i2, c2, o2) →
  ((b / 1000000) * i1 + (c / 1000000) * c1 + (o / 1000000) * o1 <=
   (b / 1000000) * i2 + (c / 1000000) * c2 + (o / 1000000) * o2)%Q.
Proof.
  intros Hb Hc Ho (Hi & Hcc & Hoo).
  assert (∀ x r1 r2, (0 <= x)%Q → (r1 <= r2)%Q → (x / 1000000 * r1 <= x / 1000000 * r2)%Q) as Hm.
  { intros x r1 r2 Hx Hr. assert (0 <= x / 1000000)%Q by (apply Qle_shift_div_l; lra). nra. }
  pose proof (Hm b i1 i2 Hb Hi). pose proof (Hm c c1 c2 Hc Hcc). pose proof (Hm o o1 o2 Ho Hoo). lra.
Qed.

(** The rates depend on the service tier only through the tier it names. *)
Lemma effective_rates_tier long price tier :
  effective_rates_at long price tier =
  effective_rates_at long price
    (if _uses_priority_tier tier then Some "priority" else if _uses_flex_tier tier then Some "flex" else None).
Proof.
  assert (_uses_priority_tier tier = true → _uses_flex_tier tier = false) as Hx.
  { unfold _uses_priority_tier, _uses_flex_tier. destruct (_normalize_service_tier tier) as [t|]; [|done].
    unfold mem. simpl. rewrite orb_false_r, orb_true_iff. by intros [->%String.eqb_eq| ->%String.eqb_eq]. }
  unfold effective_rates_at.
  destruct (_uses_priority_tier tier) eqn:E; [rewrite (Hx eq_refl); reflexivity|].
  destruct (_uses_flex_tier tier); reflexivity.
Qed.

Lemma default_rates_nonneg key price u tier :
  (key, price) ∈ DEFAULT_PRICING_MODELS →
  rates_le (0, 0, 0)%Q (effective_rates_at (is_long_context u price) price tier).
Proof.
  intros Hin. rewrite effective_rates_tier.
  destruct (default_tiers key price u Hin) as (H0 & H1 & H2).
  assert (∀ a b c, rates_le a b → rates_le b c → rates_le a c) as Htr.
  { intros [[??]?] [[??]?] [[??]?] (? & ? & ?) (? & ? & ?). unfold rates_le. split_and!; lra. }
  repeat case_if; eauto.
Qed.

(** The cost of a well-formed usage on the default table is nonnegative. *)
Lemma default_cost_nonneg model key price u tier cost :
  get_pricing_for_model model [] [] = Some (key, price) →
  (0 <= cached_input_tokens u <= input_tokens u)%Q → (0 <= output_tokens u)%Q →
  calculate_cost_from_usage (Tokens u) price tier = Some cost → (0 <= cost)%Q.
Proof.
  intros Hprice Hc Ho Hcost. pose proof (default_pricing_in _ _ _ Hprice) as Hin.
  pose proof (default_rates_nonneg key price u tier Hin) as H0.
  unfold calculate_cost_from_usage, _effective_rates in Hcost. simpl in Hcost.
  destruct (effective_rates_at _ _ _) as [[ri rc] ro]. injection Hcost as <-.
  assert (0 <= input_tokens u - cached_input_tokens u)%Q as Hb by lra. destruct Hc as [Hc _].
  pose proof (cost_mono _ _ _ _ _ _ _ _ _ Hb Hc Ho H0) as C0.
  eapply Qle_trans; [|exact C0]. rewrite !Qmult_0_r. lra.
Qed.

(** A request on any model of the default table costs a non-negative amount,
    at most the standard price on the flex tier and at least the standard
    price on the priority tier, whatever its context length. *)
Theorem default_tier_costs model key price u flex std pri
    (Hprice : get_pricing_for_model model [] [] = Some (key, price))
    (Hcached : (0 <= cached_input_tokens u <= input_tokens u)%Q)
    (Hout : (0 <= output_tokens u)%Q)
    (Hflex : calculate_cost_from_usage (Tokens u) price (Some "flex") = Some flex)
    (Hstd : calculate_cost_from_usage (Tokens u) price None = Some std)
    (Hpri : calculate_cost_from_usage (Tokens u) price (Some "priority") = Some pri) :
  (0 <= flex <= std)%Q ∧ (std <= pri)%Q.
Proof.
  pose proof (default_pricing_in model key price Hprice) as Hin.
  destruct (default_tiers key price u Hin) as (H0 & H1 & H2).
  unfold calculate_cost_from_usage, _effective_rates in *. simpl in *.
  destruct (effective_rates_at _ _ (Some "flex")) as [[fi fc] fo].
  destruct (effective_rates_at _ _ None) as [[si sc] so].
  destruct (effective_rates_at _ _ (Some "priority")) as [[pi pc] po]. simplify_eq.
  assert (0 <= input_tokens u - cached_input_tokens u)%Q as Hb by lra.
  destruct Hcached as [Hc _].
  pose proof (cost_mono _ _ _ _ _ _ _ _ _ Hb Hc Hout H0) as C0.
  pose proof (cost_mono _ _ _ _ _ _ _ _ _ Hb Hc Hout H1) as C1.
  pose proof (cost_mono _ _ _ _ _ _ _ _ _ Hb Hc Hout H2) as C2.
  split; [split|]; [|done|done]. eapply Qle_trans; [|exact C0].
  rewrite !Qmult_0_r. lra.
Qed.

(** One million fresh input and output tokens of gpt-5.4. *)
Definition ex_tokens : UsageTokens :=
  {| input_tokens := 1000000; output_tokens := 1000000; cached_input_tokens := 0 |}.

Lemma default_tier_costs_witness :
  ∃ flex std pri, ((flex == 13.75)%Q ∧ (std == 27.5)%Q ∧ (pri == 35)%Q) ∧ ((0 <= flex <= std)%Q ∧ (std <= pri)%Q).
Proof.
  do 3 eexists. apply and_comm. split.
  - eapply (default_tier_costs "gpt-5.4" _ _ ex_tokens);
      [vm_compute; reflexivity|split; by vm_compute|by vm_compute|vm_compute; reflexivity..].
  - split_and!; reflexivity.
Defined.

(** *** Cost summaries *)

Lemma dict_set_add_sum (d : dict Q) k c :
  (qsum (dict_set d k (default 0 (dict_get d k) + c)%Q).*2 == qsum d.*2 + c)%Q.
Proof.
  induction d as [|[k1 v1] d IH]; [unfold qsum; simpl; lra|].
  cbn [dict_set dict_get].
  destruct (String.eqb_spec k k1) as [->|]; rewrite !fmap_cons, !qsum_cons; cbn [snd];
    [simpl; lra|]. rewrite IH. lra.
Qed.

(** The running totals of [calculate_costs]: one entry per canonical model
    and their sum is the overall total. *)
Definition totals_inv (acc : dict Q * Q) : Prop := NoDup acc.1.*1 ∧ (qsum acc.1.*2 == acc.2)%Q.

Lemma cost_step_inv pricing aliases acc item :
  totals_inv acc → totals_inv (cost_step pricing aliases acc item).
Proof.
  destruct acc as [totals total]. intros [Hnd Hsum]. unfold cost_step.
  destruct (get_pricing_for_model _ _ _) as [[key price]|]; [|done].
  destruct (calculate_cost_from_usage _ _ _) as [cost|]; [|done].
  split; cbn [fst snd] in *; [by apply dict_set_NoDup|].
  rewrite dict_set_add_sum, Hsum. done.
Qed.

Lemma cost_loop_inv pricing aliases items acc :
  totals_inv acc → totals_inv (fold_left (cost_step pricing aliases) items acc).
Proof. revert acc. induction items; simpl; auto using cost_step_inv. Qed.

Lemma round6_bounds x : (py_round_digits x 6 - (1 # 2000000) <= x <= py_round_digits x 6 + (1 # 2000000))%Q.
Proof.
  unfold py_round_digits. change (inject_Z (10 ^ Z.of_nat 6)) with 1000000%Q.
  pose proof (py_round_bounds (x * 1000000)) as [H1 H2].
  set (r := inject_Z (py_round (x * 1000000))) in *.
  assert (r / 1000000 == r * (1 # 1000000))%Q as -> by reflexivity. split; lra.
Qed.

Lemma rounded_sum_bounds (l : list Q) :
  let err := (inject_Z (Z.of_nat (length l)) * (1 # 2000000))%Q in
  (qsum (map (λ v, py_round_digits v 6) l) - err <= qsum l <=
   qsum (map (λ v, py_round_digits v 6) l) + err)%Q.
Proof.
  induction l as [|x l IH]; [vm_compute; split; discriminate|].
  cbn [map]. change (length (x :: l)) with (S (length l)).
  rewrite !qsum_cons, Nat2Z.inj_succ. unfold Z.succ. rewrite inject_Z_plus.
  change (inject_Z 1) with 1%Q. pose proof (round6_bounds x). cbv zeta in IH. split; lra.
Qed.

#[global] Instance key_le_total : Total key_le.
Proof.
  intros [p x] [q y]. unfold key_le. simpl. destruct (pylt q p) eqn:E; [|by left].
  right. by apply pylt_asym.
Qed.
#[global] Instance key_le_trans : Transitive key_le.
Proof. intros [p x] [q y] [r z]. unfold key_le. simpl. apply pylt_le_trans. Qed.

Definition model_le (a b : UsageCostByModel) : Prop := pylt (cbm_model b) (cbm_model a) = false.

(** The seven-day cost summary lists each canonical model once, in name
    order, and the listed amounts add up to the reported total within half a
    micro-dollar for the total and for every model listed. *)
Theorem calculate_costs_consistent items pricing aliases :
  let s := calculate_costs items pricing aliases in
  let n := Z.of_nat (length (by_model s)) in
  let listed := qsum (map cbm_usd (by_model s)) in
  NoDup (map cbm_model (by_model s)) ∧
  Sorted model_le (by_model s) ∧
  (listed - inject_Z (n + 1) * (1 # 2000000) <= total_usd_7d s <=
   listed + inject_Z (n + 1) * (1 # 2000000))%Q.
Proof.
  unfold calculate_costs.
  assert (totals_inv (fold_left (cost_step pricing aliases) items ([], 0%Q))) as [Hnd Hsum].
  { apply cost_loop_inv. split; [constructor|done]. }
  destruct (fold_left _ _ _) as [totals total]. cbn [fst snd] in *. cbv zeta. cbn [by_model total_usd_7d].
  pose proof (merge_sort_Permutation key_le totals) as Hperm.
  set (ms := merge_sort key_le totals) in *. rewrite map_map.
  assert (map (λ x : string * Q, cbm_model (let '(m, v) := x in
    {| cbm_model := m; cbm_usd := py_round_digits v 6 |})) ms = ms.*1) as ->.
  { apply map_ext. by intros []. }
  split; [by rewrite Hperm|]. split.
  - assert (Sorted key_le ms) as Hs by apply Sorted_merge_sort, _.
    clear -Hs. induction Hs as [|[k v] l Hs IH Hhd]; simpl; constructor; [done|].
    destruct Hhd as [|[k' v'] l]; constructor. done.
  - rewrite map_map, length_map.
    assert (map (λ x : string * Q, cbm_usd (let '(m, v) := x in
      {| cbm_model := m; cbm_usd := py_round_digits v 6 |})) ms =
      map (λ v, py_round_digits v 6) ms.*2) as ->.
    { clear. generalize ms. intros l. induction l as [|[m v] l IH]; simpl; [done|by f_equal]. }
    pose proof (rounded_sum_bounds ms.*2) as Hb. cbv zeta in Hb. rewrite length_fmap in Hb.
    assert (qsum ms.*2 == total)%Q as Ht.
    { rewrite <- Hsum. apply qsum_perm. by rewrite Hperm. }
    rewrite inject_Z_plus. change (inject_Z 1) with 1%Q. pose proof (round6_bounds total). split; lra.
Qed.

End PricingFacts.
