(* ===== verification/Balancer.v ===== *)
(** Account selection: [src/app/core/balancer/logic.py],
    [src/app/core/balancer/rendezvous_hash.py] and
    [src/app/core/utils/retry.py].

    The [AccountState] objects are shared with the caller and mutated in
    place, so [select_account] takes the list of their values and returns the
    list of their new values; a member of a pool is the position of an object
    in that list together with its value.  Clock readings and random draws are
    arguments. *)

From S2P Require Import Prelude Models Usage.
Import Usage.UsageCore.

(** ** Retry delays *)
Module Retry.

Definition is_digit (c : ascii) : bool :=
  let n := Ascii.nat_of_ascii c in Nat.leb 48 n && Nat.leb n 57.
Definition digit_val (c : ascii) : Z := Z.of_nat (Ascii.nat_of_ascii c - 48).

(** [\d+] greedily: value so far, number of digits, rest of the text. *)
Fixpoint take_digits (s : string) (acc : Z) (count : nat) : Z * nat * string :=
  match s with
  | String c s' => if is_digit c then take_digits s' (acc * 10 + digit_val c)%Z (S count)
                   else (acc, count, s)
  | EmptyString => (acc, count, s)
  end.

(** A literal prefix, ignoring case: the rest of the text. *)
Fixpoint match_ci (p s : string) : option string :=
  match p, s with
  | EmptyString, _ => Some s
  | String c p', String d s' =>
      if Ascii.eqb (lower_ascii c) (lower_ascii d) then match_ci p' s' else None
  | _, _ => None
  end.

(** [(\d+(?:\.\d+)?)]: the decimal number at the head of the text. *)
Definition match_number (s : string) : option (Q * string) :=
  let '(whole, n, rest) := take_digits s 0 0 in
  if Nat.eqb n 0 then None
  else match rest with
       | String "." rest' =>
           let '(frac, k, rest'') := take_digits rest' 0 0 in
           if Nat.eqb k 0 then Some (inject_Z whole, rest)
           else Some ((inject_Z whole + inject_Z frac / inject_Z (10 ^ Z.of_nat k))%Q, rest'')
       | _ => Some (inject_Z whole, rest)
       end.

(** [_RETRY_PATTERN] at the head of the text.  No alternative of the pattern
    needs backtracking: the separators and the digits are disjoint classes,
    and the unit [s] matches before [seconds?] is tried. *)
Definition match_retry_at (s : string) : option Q :=
  match match_ci "try again in" s with
  | None => None
  | Some rest =>
      match match_number (lstrip rest) with
      | None => None
      | Some (value, rest) =>
          let rest := lstrip rest in
          match match_ci "s" rest, match_ci "ms" rest with
          | Some _, _ => Some value
          | None, Some _ => Some (value / 1000)%Q
          | None, None => None
          end
      end
  end.

(** [_RETRY_PATTERN.search]: the leftmost match. *)
Fixpoint parse_retry_after (message : string) : option Q :=
  match match_retry_at message with
  | Some v => Some v
  | None => match message with
            | EmptyString => None
            | String _ m => parse_retry_after m
            end
  end.

(** [jitter] is the draw of [random.uniform(0.9, 1.1)]. *)
Definition backoff_seconds (jitter : Q) (attempt : Z) : Q :=
  let attempt := if (attempt <? 1)%Z then 1%Z else attempt in
  let exponent := inject_Z (2 ^ (attempt - 1)) in
  let base_ms := (200 * exponent)%Q in
  ((base_ms * jitter) / 1000)%Q.

End Retry.

(** ** Rendezvous hashing *)
Module Rendezvous.
Section Rendezvous.
(** [sha256] is a parameter; digests compare as byte strings. *)
Context (sha256 : string → string).

Definition _score (key node : string) : string := sha256 (key ++ ":" ++ node)%string.

Definition select_node (key : string) (nodes : list string) : option string :=
  match nodes with
  | [] => None
  | [node] => Some node
  | _ => max_by (_score key) nodes
  end.
End Rendezvous.
End Rendezvous.

(** ** Balancer logic *)
Module Logic.
Import Retry.

Definition PERMANENT_FAILURE_CODES : dict string :=
  [("refresh_token_expired", "Refresh token expired - re-login required");
   ("refresh_token_reused", "Refresh token was reused - re-login required");
   ("refresh_token_invalidated", "Refresh token was revoked - re-login required");
   ("token_expired", "Authentication token expired - re-login required");
   ("account_deactivated", "Account has been deactivated");
   ("account_suspended", "Account has been suspended");
   ("account_deleted", "Account has been deleted")].

Definition SECONDS_PER_DAY : Z := 60 * 60 * 24.
Definition UNKNOWN_RESET_BUCKET_DAYS : Z := 10000.
Definition UNKNOWN_PLAN_FALLBACK : string := "free".
Definition CAPACITY_PLAN_ALIASES : dict string :=
  [("education", "edu"); ("k12", "edu"); ("guest", "free"); ("go", "free");
   ("free_workspace", "free"); ("quorum", "free"); ("unknown", "free")].

Inductive RoutingStrategy := usage_weighted | round_robin | capacity_weighted.

Definition HEALTH_TIER_HEALTHY : Z := 0.
Definition HEALTH_TIER_DRAINING : Z := 1.
Definition HEALTH_TIER_PROBING : Z := 2.

Record AccountState := {
  account_id : string;
  status : AccountStatus;
  used_percent : option Q;
  reset_at : option Q;
  blocked_at : option Q;
  cooldown_until : option Q;
  secondary_used_percent : option Q;
  secondary_reset_at : option Z;
  last_error_at : option Q;
  last_selected_at : option Q;
  error_count : Z;
  deactivation_reason : option string;
  plan_type : option string;
  capacity_credits : option Q;
  health_tier : Z;
}.

(** *** Sort keys *)

Definition primary_used (state : AccountState) : Q := default 0%Q (used_percent state).
Definition secondary_used (state : AccountState) : Q :=
  default (primary_used state) (secondary_used_percent state).
Definition last_selected (state : AccountState) : Q := or_q (last_selected_at state) 0.

Definition _usage_sort_key (state : AccountState) : Q * (Q * (Q * string)) :=
  (secondary_used state, (primary_used state, (last_selected state, account_id state))).

Definition _primary_usage_sort_key (state : AccountState) : Q * (Q * (Q * string)) :=
  (primary_used state, (secondary_used state, (last_selected state, account_id state))).

Definition _reset_bucket_days (state : AccountState) (current : Q) : Z :=
  match secondary_reset_at state with
  | None => UNKNOWN_RESET_BUCKET_DAYS
  | Some r => Z.max 0 (Qfloor ((inject_Z r - current) / inject_Z SECONDS_PER_DAY))
  end.

Definition _reset_first_sort_key (current : Q) (state : AccountState) : Z * (Q * (Q * (Q * string))) :=
  (_reset_bucket_days state current, _usage_sort_key state).

Definition _round_robin_sort_key (state : AccountState) : Q * string :=
  (last_selected state, account_id state).

Definition _fallback_secondary_capacity_credits (plan_type : option string) : Q :=
  let normalized := py_lower (py_strip (or_s plan_type "")) in
  let resolved_plan :=
    match dict_get CAPACITY_PLAN_ALIASES normalized with
    | Some p => p
    | None => or_s (Some normalized) UNKNOWN_PLAN_FALLBACK
    end in
  match dict_get PLAN_CAPACITY_CREDITS_SECONDARY resolved_plan with
  | Some c => c
  | None => default 0%Q (dict_get PLAN_CAPACITY_CREDITS_SECONDARY UNKNOWN_PLAN_FALLBACK)
  end.

Definition _remaining_secondary_credits (state : AccountState) : Q :=
  let remaining (capacity : Q) :=
    let used_pct :=
      match secondary_used_percent state with
      | Some p => p
      | None => default 0%Q (used_percent state)
      end in
    qmax 0 (capacity * (1 - qmin used_pct 100 / 100))%Q in
  match capacity_credits state with
  | None => remaining (_fallback_secondary_capacity_credits (plan_type state))
  | Some capacity => if qle capacity 0 then 0%Q else remaining capacity
  end.

Definition _capacity_probe_sort_key (state : AccountState) : Q * (Q * (Q * (Q * string))) :=
  ((- _remaining_secondary_credits state)%Q, _usage_sort_key state).

(** *** Pools *)

Definition member := (nat * AccountState)%type.
Definition obj (m : member) : AccountState := snd m.

Definition _prefer_earlier_reset_candidates (available : list member) (current : Q) : list member :=
  match min_by (λ m, _reset_bucket_days (obj m) current) available with
  | None => []
  | Some e =>
      List.filter (λ m, (_reset_bucket_days (obj m) current =? _reset_bucket_days (obj e) current)%Z)
        available
  end.

(** [random.choices(pool, weights)]: the first member whose cumulative weight
    exceeds [x = u * total], the last one if none does. *)
Fixpoint choose_weighted (pool : list member) (acc x : Q) : option member :=
  match pool with
  | [] => None
  | [m] => Some m
  | m :: rest =>
      let acc := (acc + _remaining_secondary_credits (obj m))%Q in
      if qlt x acc then Some m else choose_weighted rest acc x
  end.

(** [u] is the draw of [random.random()]. *)
Definition _select_capacity_weighted (u : Q) (available : list member) : option member :=
  let total := qsum (map (λ m, _remaining_secondary_credits (obj m)) available) in
  if qle total 0 then min_by (λ m, _usage_sort_key (obj m)) available
  else choose_weighted available 0 (u * total).

(** [healthy or probing or draining or available]. *)
Definition tier_members (tier : Z) (available : list member) : list member :=
  List.filter (λ m, (health_tier (obj m) =? tier)%Z) available.
Definition effective_pool (available : list member) : list member :=
  match tier_members HEALTH_TIER_HEALTHY available with
  | [] =>
      match tier_members HEALTH_TIER_PROBING available with
      | [] =>
          match tier_members HEALTH_TIER_DRAINING available with
          | [] => available
          | draining => draining
          end
      | probing => probing
      end
  | healthy => healthy
  end.

Record SelectOpts := {
  prefer_earlier_reset : bool;
  routing_strategy : RoutingStrategy;
  allow_backoff_fallback : bool;
  deterministic_probe : bool;
  primary_first_usage_weighted : bool;
}.

(** Lines 252-272: the strategy's choice.  [None] is the [ValueError] of
    [min] on an empty pool. *)
Definition choose (o : SelectOpts) (u current : Q) (available : list member) : option member :=
  let pool := effective_pool available in
  match routing_strategy o with
  | round_robin => min_by (λ m, _round_robin_sort_key (obj m)) pool
  | capacity_weighted =>
      let candidate_pool :=
        if prefer_earlier_reset o then _prefer_earlier_reset_candidates pool current else pool in
      if deterministic_probe o then min_by (λ m, _capacity_probe_sort_key (obj m)) candidate_pool
      else _select_capacity_weighted u candidate_pool
  | usage_weighted =>
      if primary_first_usage_weighted o then min_by (λ m, _primary_usage_sort_key (obj m)) pool
      else if prefer_earlier_reset o then min_by (λ m, _reset_first_sort_key current (obj m)) pool
      else min_by (λ m, _usage_sort_key (obj m)) pool
  end.

(** *** The selection loop *)

Inductive verdict := Skipped | InErrorBackoff | Available.
#[global] Instance verdict_eq : EqDecision verdict.
Proof. solve_decision. Defined.

Definition reached (deadline : option Q) (current : Q) : bool :=
  truthy_q deadline && qle (default 0%Q deadline) current.

Definition error_backoff (error_count : Z) : Z := Z.min 300 (30 * 2 ^ (error_count - 3)).

(** The body of the loop from the cooldown check on (lines 176-195). *)
Definition classify_open (current : Q) (s : AccountState) : AccountState * verdict :=
  let s := if reached (cooldown_until s) current
           then s {{ cooldown_until := None; last_error_at := None; error_count := 0%Z }}
           else s in
  if truthy_q (cooldown_until s) && qlt current (default 0%Q (cooldown_until s)) then (s, Skipped)
  else if (3 <=? error_count s)%Z then
    if truthy_q (last_error_at s)
       && qlt (current - default 0%Q (last_error_at s))%Q (inject_Z (error_backoff (error_count s)))
    then (s, InErrorBackoff)
    else (s {{ error_count := 0%Z; last_error_at := None }}, Available)
  else (s, Available).

(** The body of the loop (lines 157-195): the new value of the object and the
    list it is appended to. *)
Definition classify (current : Q) (s : AccountState) : AccountState * verdict :=
  match status s with
  | DEACTIVATED | PAUSED => (s, Skipped)
  | RATE_LIMITED =>
      if reached (reset_at s) current
      then classify_open current (s {{ status := ACTIVE; error_count := 0%Z; reset_at := None }})
      else (s, Skipped)
  | QUOTA_EXCEEDED =>
      if reached (reset_at s) current
      then classify_open current (s {{ status := ACTIVE; used_percent := Some 0%Q; reset_at := None }})
      else (s, Skipped)
  | ACTIVE => classify_open current s
  end.

Fixpoint classify_all (current : Q) (i : nat) (states : list AccountState) : list (member * verdict) :=
  match states with
  | [] => []
  | s :: rest =>
      let (s', v) := classify current s in ((i, s'), v) :: classify_all current (S i) rest
  end.

Definition with_verdict (v : verdict) (l : list (member * verdict)) : list member :=
  map fst (List.filter (λ e, bool_decide (snd e = v)) l).

(** *** No candidate *)

Definition SELECTOR_RETRY_HINT_MAX_SECONDS : Z := 300.

Definition _format_retry_hint (wait_seconds : Q) : string :=
  let capped := qmin (qmax 0 wait_seconds) (inject_Z SELECTOR_RETRY_HINT_MAX_SECONDS) in
  ("Rate limit exceeded. Try again in " ++ pretty (py_round capped) ++ "s")%string.

Definition has_status (st : AccountStatus) (states : list AccountState) : bool :=
  existsb (λ s, bool_decide (status s = st)) states.

(** [[x for x in deadlines if x]]. *)
Definition truthy_values (l : list (option Q)) : list Q :=
  omap (λ o, if truthy_q o then o else None) l.

(** Lines 216-236: the error message. *)
Definition no_account_message (current : Q) (states : list AccountState) : string :=
  let deactivated := has_status DEACTIVATED states in
  let paused := has_status PAUSED states in
  let rate_limited := has_status RATE_LIMITED states in
  let quota_exceeded := has_status QUOTA_EXCEEDED states in
  if paused && deactivated && negb rate_limited && negb quota_exceeded
  then "All accounts are paused or require re-authentication"
  else if paused && negb rate_limited && negb quota_exceeded then "All accounts are paused"
  else if deactivated && negb rate_limited && negb quota_exceeded
  then "All accounts require re-authentication"
  else
    let reset_candidates :=
      truthy_values (map reset_at
        (List.filter (λ s, bool_decide (status s = QUOTA_EXCEEDED)) states)) in
    match min_by (λ x : Q, x) reset_candidates with
    | Some first => _format_retry_hint (qmax 0 (first - inject_Z (py_int current)))
    | None =>
        let cooldowns :=
          List.filter (λ x, qlt current x) (truthy_values (map cooldown_until states)) in
        match min_by (λ x : Q, x) cooldowns with
        | Some first => _format_retry_hint (qmax 0 (first - current))
        | None => "No available accounts"
        end
    end.

Definition _backoff_expires_at (s : AccountState) : Q :=
  (or_q (last_error_at s) 0 + inject_Z (error_backoff (error_count s)))%Q.

Definition hard_blocked (s : AccountState) : bool :=
  match status s with
  | PAUSED | DEACTIVATED | RATE_LIMITED | QUOTA_EXCEEDED => true
  | ACTIVE => false
  end.

(** The two outcomes: the object selected, or the error message. *)
Inductive SelectionResult := Selected (m : member) | Unavailable (error_message : string).

Inductive SelectError := ValueError.

Definition select_account (o : SelectOpts) (now : option Q) (clock u : Q) (states : list AccountState)
    : list AccountState * res SelectError SelectionResult :=
  let current := or_q now clock in
  let classified := classify_all current 0 states in
  let all_states := map (λ e, obj (fst e)) classified in
  let available := with_verdict Available classified in
  let in_error_backoff := with_verdict InErrorBackoff classified in
  let hard_blocked_exists := existsb hard_blocked all_states in
  let pick (available : list member) :=
    match choose o u current available with
    | Some m => Ok (Selected m)
    | None => Err ValueError
    end in
  (all_states,
   match available with
   | [] =>
       if allow_backoff_fallback o
          && (Nat.ltb 1 (length in_error_backoff)
              || (negb (Nat.eqb (length in_error_backoff) 0) && hard_blocked_exists))
       then match min_by (λ m, _backoff_expires_at (obj m)) in_error_backoff with
            | Some m => pick [m]
            | None => Err ValueError
            end
       else Ok (Unavailable (no_account_message current all_states))
   | _ => pick available
   end).

(** *** Upstream errors *)

Record UpstreamError := {
  message : option string;
  resets_at : option Q;
  resets_in_seconds : option Q;
}.

(** [clock] is the [time.time()] read when only a relative reset is given. *)
Definition _extract_reset_at (clock : Q) (error : UpstreamError) : option Z :=
  match resets_at error with
  | Some r => Some (py_int r)
  | None =>
      match resets_in_seconds error with
      | Some d => Some (py_int (clock + d)%Q)
      | None => None
      end
  end.

(** [t1] to [t4] are the successive [time.time()] readings. *)
Definition handle_rate_limit (t1 t2 t3 t4 jitter : Q) (error : UpstreamError) (s : AccountState)
    : AccountState :=
  let s := s {{ status := RATE_LIMITED; error_count := (error_count s + 1)%Z;
                last_error_at := Some t1; blocked_at := Some t2 }} in
  let s := match _extract_reset_at t3 error with
           | Some r => s {{ reset_at := Some (inject_Z r) }}
           | None => s
           end in
  let delay := match message error with
               | Some m => if String.eqb m "" then None else parse_retry_after m
               | None => None
               end in
  let delay := match delay with Some d => d | None => backoff_seconds jitter (error_count s) end in
  s {{ cooldown_until := Some (t4 + delay)%Q }}.

Definition QUOTA_EXCEEDED_COOLDOWN_SECONDS : Q := 120.

Definition handle_quota_exceeded (t1 t2 t3 t4 : Q) (error : UpstreamError) (s : AccountState)
    : AccountState :=
  let s := s {{ status := QUOTA_EXCEEDED; used_percent := Some 100%Q; blocked_at := Some t1;
                cooldown_until := Some (t2 + QUOTA_EXCEEDED_COOLDOWN_SECONDS)%Q }} in
  match _extract_reset_at t3 error with
  | Some r => s {{ reset_at := Some (inject_Z r) }}
  | None => s {{ reset_at := Some (inject_Z (py_int (t4 + 3600)%Q)) }}
  end.

Definition handle_permanent_failure (error_code : string) (s : AccountState) : AccountState :=
  let reason := match dict_get PERMANENT_FAILURE_CODES error_code with
                | Some r => r
                | None => ("Authentication failed: " ++ error_code)%string
                end in
  s {{ status := DEACTIVATED; deactivation_reason := Some reason; blocked_at := None }}.

Inductive FailureClass := rate_limit | quota | retryable_transient | non_retryable.
Inductive FailoverAction := failover_next | surface.

Definition failover_decision (failure_class : FailureClass) (downstream_visible : bool)
    (candidates_remaining : Z) : FailoverAction :=
  if downstream_visible then surface
  else if (candidates_remaining <=? 0)%Z then surface
  else match failure_class with
       | rate_limit | quota | retryable_transient => failover_next
       | non_retryable => surface
       end.

(** *** Health tiers *)

Record DrainConfig := {
  drain_primary_threshold_pct : Q;
  drain_secondary_threshold_pct : Q;
  drain_error_window_seconds : Q;
  drain_error_count_threshold : Z;
  probe_quiet_seconds : Q;
  probe_success_streak_required : Z;
}.

Definition default_drain_config : DrainConfig :=
  {| drain_primary_threshold_pct := 85; drain_secondary_threshold_pct := 90;
     drain_error_window_seconds := 60; drain_error_count_threshold := 2;
     probe_quiet_seconds := 60; probe_success_streak_required := 3 |}.

Definition should_drain (c : DrainConfig) (current : Q) (s : AccountState) : bool :=
  match used_percent s with Some p => qle (drain_primary_threshold_pct c) p | None => false end
  || match secondary_used_percent s with
     | Some p => qle (drain_secondary_threshold_pct c) p | None => false end
  || ((drain_error_count_threshold c <=? error_count s)%Z
      && match last_error_at s with
         | Some t => qlt (current - t) (drain_error_window_seconds c) | None => false end).

Definition evaluate_health_tier (c : DrainConfig) (now : option Q) (clock : Q)
    (drain_entered_at : option Q) (probe_success_streak : Z) (s : AccountState) : Z :=
  let current := or_q now clock in
  if hard_blocked s then health_tier s
  else
    let drain := should_drain c current s in
    if (health_tier s =? HEALTH_TIER_HEALTHY)%Z
    then if drain then HEALTH_TIER_DRAINING else HEALTH_TIER_HEALTHY
    else if (health_tier s =? HEALTH_TIER_DRAINING)%Z
    then if drain then HEALTH_TIER_DRAINING
         else match drain_entered_at with
              | Some t => if qle (probe_quiet_seconds c) (current - t)
                          then HEALTH_TIER_PROBING else HEALTH_TIER_DRAINING
              | None => HEALTH_TIER_DRAINING
              end
    else if (health_tier s =? HEALTH_TIER_PROBING)%Z
    then if drain then HEALTH_TIER_DRAINING
         else if (probe_success_streak_required c <=? probe_success_streak)%Z
              then HEALTH_TIER_HEALTHY else HEALTH_TIER_PROBING
    else HEALTH_TIER_HEALTHY.

End Logic.

(** ** Selection facts *)
Module BalancerFacts.
Import Retry Logic.

(** *** The loop *)

(** A deadline that is set and lies in the future. *)
Definition pending (deadline : option Q) (current : Q) : Prop :=
  ∃ d, deadline = Some d ∧ ¬ (d == 0)%Q ∧ (current < d)%Q.
(** A deadline that is set and has passed. *)
Definition passed (deadline : option Q) (current : Q) : Prop :=
  ∃ d, deadline = Some d ∧ ¬ (d == 0)%Q ∧ (d <= current)%Q.

Lemma reached_true d current : reached d current = true ↔ passed d current.
Proof.
  unfold reached, passed. destruct d as [d|]; simpl; [|split; [done|by intros (? & ? & _)]].
  split.
  - intros H. pyb. destruct H. eauto.
  - intros (d' & [= <-] & ? & ?). pyb. auto.
Qed.

Lemma pending_true d current :
  truthy_q d && qlt current (default 0%Q d) = true ↔ pending d current.
Proof.
  unfold pending. destruct d as [d|]; simpl; [|split; [done|by intros (? & ? & _)]].
  split.
  - intros H. pyb. destruct H. eauto.
  - intros (d' & [= <-] & ? & ?). pyb. auto.
Qed.

Lemma pending_not_passed d current : pending d current → ¬ passed d current.
Proof. intros (x & -> & _ & ?) (y & [= <-] & _ & ?). lra. Qed.

(** An account that may be open for routing: active, or blocked until a
    recorded time that has passed. *)
Definition openable (current : Q) (s : AccountState) : Prop :=
  match status s with
  | ACTIVE => True
  | RATE_LIMITED | QUOTA_EXCEEDED => passed (reset_at s) current
  | PAUSED | DEACTIVATED => False
  end.

(** Still inside its error backoff. *)
Definition backing_off (current : Q) (s : AccountState) : Prop :=
  (3 <= error_count s)%Z ∧ ∃ e, last_error_at s = Some e ∧ ¬ (e == 0)%Q ∧
    (current < e + inject_Z (error_backoff (error_count s)))%Q.

Definition verdict_spec (current : Q) (s s' : AccountState) (v : verdict) : Prop :=
  match v with
  | Available => openable current s ∧ status s' = ACTIVE ∧ ¬ pending (cooldown_until s') current ∧
                 (error_count s' < 3)%Z
  | InErrorBackoff => openable current s ∧ status s' = ACTIVE ∧ ¬ pending (cooldown_until s') current ∧
                      backing_off current s'
  | Skipped => (s' = s ∧ hard_blocked s' = true ∧ ¬ openable current s) ∨
               (openable current s ∧ status s' = ACTIVE ∧ pending (cooldown_until s') current)
  end.

Lemma classify_open_spec current s s' v :
  status s = ACTIVE → classify_open current s = (s', v) → verdict_spec current s s' v.
Proof.
  intros Hs. unfold classify_open.
  set (s1 := if reached _ _ then _ else _).
  assert (status s1 = ACTIVE) as H1 by (unfold s1; by case_if).
  assert (openable current s) as Ho by (unfold openable; by rewrite Hs).
  clearbody s1. case_if.
  { intros [= <- <-]. right. split; [done|]. split; [done|]. by apply pending_true. }
  assert (¬ pending (cooldown_until s1) current) as Hp by (rewrite <- pending_true; congruence).
  destruct (3 <=? error_count s1)%Z eqn:E3; pyb.
  - case_if; intros [= <- <-]; simpl; [|split_and!; simpl; (done || lia)].
    pyb. destruct Hb0 as [Ht Hlt]. destruct (last_error_at s1) as [e|] eqn:Ee; [|done].
    simpl in *. split_and!; try done. split; [lia|]. exists e.
    split; [done|]. apply negb_true_iff, qeq_false in Ht. split; [done|]. lra.
  - intros [= <- <-]. split_and!; [done..|lia].
Qed.

Lemma classify_spec current s s' v : classify current s = (s', v) → verdict_spec current s s' v.
Proof.
  assert (∀ s1, status s1 = ACTIVE → openable current s → classify_open current s1 = (s', v) →
    verdict_spec current s s' v) as Hopen.
  { intros s1 H1 Ho H. apply classify_open_spec in H; [|done].
    assert (openable current s1) by (unfold openable; by rewrite H1).
    unfold verdict_spec in *. destruct v; tauto. }
  unfold classify. destruct (status s) eqn:Es.
  - apply Hopen; [done|]. unfold openable. by rewrite Es.
  - case_if.
    + apply Hopen; [done|]. unfold openable. rewrite Es. by apply reached_true.
    + intros [= <- <-]. left. unfold hard_blocked, openable. rewrite Es.
      rewrite <- reached_true. by rewrite Hb.
  - case_if.
    + apply Hopen; [done|]. unfold openable. rewrite Es. by apply reached_true.
    + intros [= <- <-]. left. unfold hard_blocked, openable. rewrite Es.
      rewrite <- reached_true. by rewrite Hb.
  - intros [= <- <-]. left. unfold hard_blocked, openable. rewrite Es. tauto.
  - intros [= <- <-]. left. unfold hard_blocked, openable. rewrite Es. tauto.
Qed.

Lemma classify_all_elem current k states i s' v :
  ((i, s'), v) ∈ classify_all current k states ↔
  ∃ j s, i = (k + j)%nat ∧ states !! j = Some s ∧ classify current s = (s', v).
Proof.
  revert k. induction states as [|s states IH]; intros k; simpl.
  { split; [set_solver|]. intros (j & s & _ & H & _). by destruct j. }
  destruct (classify current s) as [s1 v1] eqn:E. rewrite elem_of_cons, IH. split.
  - intros [[= -> -> ->]|(j & s2 & -> & ? & ?)].
    + exists 0%nat, s. by rewrite Nat.add_0_r.
    + exists (S j), s2. split; [lia|done].
  - intros ([|j] & s2 & -> & Hl & Hc); simpl in Hl.
    + left. rewrite Nat.add_0_r. congruence.
    + right. exists j, s2. split; [lia|done].
Qed.

Lemma classify_all_values current k states :
  map (λ e, obj (fst e)) (classify_all current k states) = map (λ s, fst (classify current s)) states.
Proof.
  revert k. induction states as [|s states IH]; intros k; simpl; [done|].
  destruct (classify current s) as [s1 v1]; simpl. by f_equal.
Qed.

Lemma with_verdict_elem current states v i s' :
  (i, s') ∈ with_verdict v (classify_all current 0 states) ↔
  ∃ s, states !! i = Some s ∧ classify current s = (s', v).
Proof.
  unfold with_verdict. rewrite list_elem_of_In, in_map_iff. split.
  - intros ([m v'] & Hm & [Hin Hv]%filter_In). simpl in *. subst m.
    apply bool_decide_eq_true in Hv as ->.
    apply list_elem_of_In, classify_all_elem in Hin as (j & s & -> & ? & ?). eauto.
  - intros (s & Hl & Hc). exists ((i, s'), v). split; [done|]. apply filter_In.
    split; [|by apply bool_decide_eq_true]. apply list_elem_of_In, classify_all_elem. exists i, s. auto.
Qed.

(** *** Pools *)

Lemma tier_members_elem t l m : m ∈ tier_members t l ↔ m ∈ l ∧ health_tier (obj m) = t.
Proof. unfold tier_members. rewrite !list_elem_of_In, filter_In, Z.eqb_eq. done. Qed.

Lemma effective_pool_sub l m : m ∈ effective_pool l → m ∈ l.
Proof.
  unfold effective_pool.
  destruct (tier_members HEALTH_TIER_HEALTHY l) eqn:E1;
    [destruct (tier_members HEALTH_TIER_PROBING l) eqn:E2;
      [destruct (tier_members HEALTH_TIER_DRAINING l) eqn:E3; [done|]|]|];
    [rewrite <- E3|rewrite <- E2|rewrite <- E1]; rewrite tier_members_elem; tauto.
Qed.

Lemma effective_pool_nonempty l : l ≠ [] → effective_pool l ≠ [].
Proof. unfold effective_pool. repeat (case_match; try done). Qed.

(** Healthy accounts come first, then probing ones, then draining ones. *)
Definition tier_rank (t : Z) : Z :=
  if (t =? HEALTH_TIER_HEALTHY)%Z then 0
  else if (t =? HEALTH_TIER_PROBING)%Z then 1
  else if (t =? HEALTH_TIER_DRAINING)%Z then 2 else 3.

Lemma tier_rank_cases m l t r : m ∈ tier_members t l → tier_rank t = r → tier_rank (health_tier (obj m)) = r.
Proof. rewrite tier_members_elem. by intros [_ ->]. Qed.

Lemma effective_pool_rank l m m' :
  m ∈ effective_pool l → m' ∈ l →
  (tier_rank (health_tier (obj m)) <= tier_rank (health_tier (obj m')))%Z.
Proof.
  intros Hm Hm'.
  assert (∀ t, tier_members t l = [] → health_tier (obj m') ≠ t) as Hempty.
  { intros t Ht Heq. assert (m' ∈ tier_members t l) as H by (by apply tier_members_elem).
    rewrite Ht in H. set_solver. }
  unfold effective_pool in Hm.
  destruct (tier_members HEALTH_TIER_HEALTHY l) eqn:E1.
  2: { rewrite <- E1 in Hm. rewrite (tier_rank_cases _ _ _ 0 Hm) by done.
       unfold tier_rank. repeat case_if; lia. }
  apply Hempty in E1. destruct (tier_members HEALTH_TIER_PROBING l) eqn:E2.
  2: { rewrite <- E2 in Hm. rewrite (tier_rank_cases _ _ _ 1 Hm) by done.
       unfold tier_rank. repeat case_if; pyb; try lia; done. }
  apply Hempty in E2. destruct (tier_members HEALTH_TIER_DRAINING l) eqn:E3.
  2: { rewrite <- E3 in Hm. rewrite (tier_rank_cases _ _ _ 2 Hm) by done.
       unfold tier_rank. repeat case_if; pyb; try lia; done. }
  apply Hempty in E3. assert (tier_rank (health_tier (obj m')) = 3%Z) as ->.
  { unfold tier_rank. repeat case_if; pyb; done. }
  unfold tier_rank. repeat case_if; lia.
Qed.

Lemma prefer_earlier_elem l current m :
  m ∈ _prefer_earlier_reset_candidates l current →
  m ∈ l ∧ ∀ m', m' ∈ l → (_reset_bucket_days (obj m) current <= _reset_bucket_days (obj m') current)%Z.
Proof.
  unfold _prefer_earlier_reset_candidates. destruct (min_by _ l) as [e|] eqn:E; [|set_solver].
  rewrite !list_elem_of_In, filter_In, Z.eqb_eq. intros [Hin Heq]. split; [done|]. intros m' Hm'.
  pose proof (min_by_min _ _ _ m' E Hm') as H. unfold pylt, pycmp, PyOrd_Z in H. rewrite Heq.
  destruct (Z.compare_spec (_reset_bucket_days (obj m') current) (_reset_bucket_days (obj e) current)); lia || done.
Qed.

Lemma prefer_earlier_nonempty l current : l ≠ [] → _prefer_earlier_reset_candidates l current ≠ [].
Proof.
  intros Hl. unfold _prefer_earlier_reset_candidates.
  destruct (min_by_is_Some (λ m, _reset_bucket_days (obj m) current) l Hl) as [e He].
  rewrite He. pose proof (min_by_elem _ _ _ He) as Hin. intros Hf.
  assert (e ∈ []) as H; [|set_solver]. rewrite <- Hf, list_elem_of_In, filter_In, Z.eqb_refl.
  by rewrite <- list_elem_of_In.
Qed.

Lemma choose_weighted_elem l acc x m : choose_weighted l acc x = Some m → m ∈ l.
Proof.
  revert acc. induction l as [|m1 l IH]; intros acc; [done|]. cbn [choose_weighted].
  destruct l as [|m2 l]; [intros [= ->]; by left|].
  case_if; [intros [= ->]; by left|]. intros H. right. by eapply IH.
Qed.

Lemma choose_weighted_is_Some l acc x : l ≠ [] → is_Some (choose_weighted l acc x).
Proof.
  revert acc. induction l as [|m1 l IH]; intros acc Hl; [done|]. cbn [choose_weighted].
  destruct l as [|m2 l]; [eauto|]. case_if; [eauto|]. by apply IH.
Qed.

Lemma choose_elem o u current l m : choose o u current l = Some m → m ∈ effective_pool l.
Proof.
  unfold choose, _select_capacity_weighted.
  destruct (routing_strategy o); repeat case_if;
    try apply min_by_elem; try apply choose_weighted_elem;
    intros H; first [apply min_by_elem in H | apply choose_weighted_elem in H];
    by apply prefer_earlier_elem in H as [? _].
Qed.

Lemma choose_is_Some o u current l : l ≠ [] → is_Some (choose o u current l).
Proof.
  intros Hl. apply effective_pool_nonempty in Hl. unfold choose, _select_capacity_weighted.
  pose proof (prefer_earlier_nonempty (effective_pool l) current Hl) as Hp.
  destruct (routing_strategy o); repeat case_if;
    first [by apply min_by_is_Some | by apply choose_weighted_is_Some].
Qed.

(** *** Results of selection *)

(** The outcomes of [select_account] by the verdicts of the loop. *)
Lemma select_account_unfold o now clock u states states' r :
  select_account o now clock u states = (states', r) →
  let current := or_q now clock in
  let classified := classify_all current 0 states in
  let available := with_verdict Available classified in
  let backoff := with_verdict InErrorBackoff classified in
  states' = map (λ s, fst (classify current s)) states ∧
  ((∃ m, r = Ok (Selected m) ∧ available ≠ [] ∧ choose o u current available = Some m) ∨
   (∃ m, r = Ok (Selected m) ∧ available = [] ∧ allow_backoff_fallback o = true ∧
         min_by (λ m, _backoff_expires_at (obj m)) backoff = Some m) ∨
   (∃ msg, r = Ok (Unavailable msg) ∧ available = [] ∧
           msg = no_account_message current states' ∧
           (allow_backoff_fallback o = false ∨ backoff = [] ∨
            ((length backoff <= 1)%nat ∧ existsb hard_blocked states' = false)))).
Proof.
  intros H. cbv zeta. unfold select_account in H. rewrite classify_all_values in H.
  set (current := or_q now clock) in *. set (cl := classify_all current 0 states) in *.
  injection H as <- <-. split; [done|].
  destruct (with_verdict Available cl) as [|a av] eqn:Ea.
  - case_if; pyb.
    + destruct Hb as [Hallow Hn]. right. left.
      destruct (with_verdict InErrorBackoff cl) as [|m bo] eqn:Eb; [by destruct Hn as [?|[? ?]]|].
      destruct (min_by_is_Some (λ m, _backoff_expires_at (obj m)) (m :: bo)) as [x Hx]; [done|].
      rewrite Hx. destruct (choose_is_Some o u current [x]) as [y Hy]; [done|]. rewrite Hy.
      apply choose_elem, effective_pool_sub, list_elem_of_singleton in Hy as ->. eauto.
    + right. right. eexists. split_and!; [done..|].
      destruct Hb as [Hallow|[Hn1 Hn2]]; [by left|]. right.
      destruct (with_verdict InErrorBackoff cl) as [|m bo]; [by left|]. right.
      apply Nat.ltb_ge in Hn1. split; [done|]. destruct Hn2 as [Hn2|Hn2]; [done|].
      rewrite Hn2. done.
  - left. destruct (choose_is_Some o u current (a :: av)) as [m Hm]; [done|].
    rewrite Hm. exists m. done.
Qed.

Lemma states_lookup current states i s :
  states !! i = Some s → map (λ s, fst (classify current s)) states !! i = Some (fst (classify current s)).
Proof.
  revert i. induction states as [|t states IH]; intros [|i]; simpl; try done; [by intros [= ->]|apply IH].
Qed.

(** The state before the loop that keeps an account in error backoff: the
    recovery from a rate limit and a cooldown that has passed both forget the
    errors. *)
Definition held_back (current : Q) (s : AccountState) : Prop :=
  status s ≠ RATE_LIMITED ∧ ¬ passed (cooldown_until s) current ∧ backing_off current s.

(** An account that a request may be given apart from its error backoff. *)
Definition servable (current : Q) (s : AccountState) : Prop :=
  openable current s ∧ ¬ pending (cooldown_until s) current.

Lemma backing_off_dec current s :
  (3 <=? error_count s)%Z = true →
  truthy_q (last_error_at s)
    && qlt (current - default 0%Q (last_error_at s))%Q (inject_Z (error_backoff (error_count s))) = true ↔
  backing_off current s.
Proof.
  intros H3. pyb. unfold backing_off. destruct (last_error_at s) as [e|]; simpl.
  - split.
    + intros H. pyb. destruct H as [H1 H2]. split; [lia|]. exists e. split_and!; [done..|lra].
    + intros (_ & e' & [= <-] & H1 & H2). pyb. split; [done|lra].
  - split; [by intros [[=] _]|]. by intros (_ & ? & ? & _).
Qed.

(** The verdict of the loop by the state it found. *)
Definition verdict_before (current : Q) (s s' : AccountState) (v : verdict) : Prop :=
  match v with
  | Available => servable current s ∧ ¬ held_back current s
  | InErrorBackoff => servable current s ∧ held_back current s ∧ _backoff_expires_at s' = _backoff_expires_at s
  | Skipped => ¬ servable current s
  end.

Lemma classify_open_before current s s' v :
  classify_open current s = (s', v) →
  match v with
  | Available => ¬ pending (cooldown_until s) current ∧
                 (passed (cooldown_until s) current ∨ ¬ backing_off current s)
  | InErrorBackoff => s' = s ∧ ¬ pending (cooldown_until s) current ∧
                      ¬ passed (cooldown_until s) current ∧ backing_off current s
  | Skipped => pending (cooldown_until s) current
  end.
Proof.
  unfold classify_open. destruct (reached (cooldown_until s) current) eqn:Er.
  - apply reached_true in Er. simpl. intros [= <- <-]. split; [|by left].
    intros Hp. by destruct (pending_not_passed _ _ Hp).
  - assert (¬ passed (cooldown_until s) current) by (rewrite <- reached_true; congruence).
    case_if; [intros [= <- <-]; by apply pending_true|].
    assert (¬ pending (cooldown_until s) current) by (rewrite <- pending_true; congruence).
    destruct (3 <=? error_count s)%Z eqn:E3.
    + case_if; intros Heq; injection Heq as Hs <-; [rewrite <- Hs|].
      * split_and!; [done..|]. by apply backing_off_dec.
      * split; [done|]. right. rewrite <- backing_off_dec by done. congruence.
    + intros [= <- <-]. split; [done|]. right. intros [H3 _]. pyb. lia.
Qed.

Lemma classify_before current s s' v : classify current s = (s', v) → verdict_before current s s' v.
Proof.
  unfold classify. destruct (status s) eqn:Es.
  4,5: intros [= <- <-]; unfold verdict_before, servable, openable; rewrite Es; tauto.
  2,3: destruct (reached (reset_at s) current) eqn:Er;
    [apply reached_true in Er
    |intros [= <- <-]; unfold verdict_before, servable, openable; rewrite Es, <- reached_true, Er; by intros [? _]].
  all: intros H; apply classify_open_before in H; simpl in H;
    unfold verdict_before, servable, openable, held_back; rewrite Es.
  - destruct v; [tauto| |tauto]. destruct H as (-> & H). split_and!; tauto || done.
  - destruct v; [tauto| |split; [tauto|]; by intros [? _]].
    destruct H as (_ & _ & _ & H3 & _). simpl in H3. lia.
  - destruct v; [tauto| |]; unfold backing_off in *; simpl in *.
    + destruct H as (-> & H). split_and!; tauto || done.
    + tauto.
Qed.

(** C14. The account selected could serve when the call began: it was not
    paused or deactivated, its rate-limit or quota reset had passed if it was
    blocked until one, and no cooldown of it was pending.  Nor was it held
    back by its errors, unless the fallback is allowed, every other account
    that could serve was held back too, and its own backoff ends first. *)
Theorem select_account_sound o now clock u states states' i s'
    (Hsel : select_account o now clock u states = (states', Ok (Selected (i, s')))) :
  let current := or_q now clock in
  ∃ s, states !! i = Some s ∧ states' !! i = Some s' ∧ status s' = ACTIVE ∧
    openable current s ∧ ¬ pending (cooldown_until s) current ∧
    ((¬ held_back current s ∧ (error_count s' < 3)%Z) ∨
     (allow_backoff_fallback o = true ∧ held_back current s ∧
      ∀ j t, states !! j = Some t → openable current t → ¬ pending (cooldown_until t) current →
        held_back current t ∧ (_backoff_expires_at s <= _backoff_expires_at t)%Q)).
Proof.
  apply select_account_unfold in Hsel as [-> Hr]. cbv zeta in *. set (current := or_q now clock) in *.
  destruct Hr as [(m & [= <-] & _ & Hm)|[(m & [= <-] & Hav & Hallow & Hm)|(msg & [=] & _)]].
  - apply choose_elem, effective_pool_sub, with_verdict_elem in Hm as (s & Hs & Hc).
    exists s. pose proof (states_lookup current _ _ _ Hs) as Hs'. rewrite Hc in Hs'.
    pose proof (classify_before _ _ _ _ Hc) as [[? ?] ?].
    apply classify_spec in Hc as (? & ? & ? & ?). split_and!; auto.
  - pose proof (min_by_elem _ _ _ Hm) as Hin. apply with_verdict_elem in Hin as (s & Hs & Hc).
    exists s. pose proof (states_lookup current _ _ _ Hs) as Hs'. rewrite Hc in Hs'.
    pose proof (classify_before _ _ _ _ Hc) as ([? ?] & ? & Hexp).
    apply classify_spec in Hc as (? & ? & ? & ?). split_and!; try done. right. split_and!; try done.
    intros j t Ht Ho Hp. destruct (classify current t) as [t' v] eqn:Et.
    assert ((j, t') ∈ with_verdict v (classify_all current 0 states)) as Hj
      by (apply with_verdict_elem; eauto).
    pose proof (classify_before _ _ _ _ Et) as Hb. destruct v.
    + by destruct Hb.
    + destruct Hb as (_ & ? & Hexp'). split; [done|]. rewrite <- Hexp, <- Hexp'.
      pose proof (min_by_min _ _ _ _ Hm Hj) as Hle. unfold pylt, pycmp, PyOrd_Q in Hle. simpl in Hle.
      destruct (Qcompare_spec (_backoff_expires_at t') (_backoff_expires_at s')); lra || done.
    + rewrite Hav in Hj. set_solver.
Qed.

(** Selection never raises, and it reports an error only when no account
    passes the checks: if some account is available one is selected, and an
    error means that the backoff fallback was disallowed, had no account to
    offer, or had a single one and no account was blocked for another
    reason. *)
Theorem select_account_total o now clock u states :
  let current := or_q now clock in
  match select_account o now clock u states with
  | (_, Err _) => False
  | (_, Ok (Selected _)) => ∃ s, s ∈ states ∧ snd (classify current s) ≠ Skipped
  | (states', Ok (Unavailable msg)) =>
      msg = no_account_message current states' ∧
      (∀ s, s ∈ states → snd (classify current s) ≠ Available) ∧
      (allow_backoff_fallback o = false ∨
       (∀ s, s ∈ states → snd (classify current s) = Skipped) ∨
       ∀ s, s ∈ states' → hard_blocked s = false)
  end.
Proof.
  cbv zeta. destruct (select_account o now clock u states) as [states' r] eqn:E.
  apply select_account_unfold in E as [-> Hr]. cbv zeta in *. set (current := or_q now clock) in *.
  assert (∀ v s, s ∈ states → snd (classify current s) = v →
    with_verdict v (classify_all current 0 states) ≠ []) as Hv.
  { intros v s [i Hi]%list_elem_of_lookup Hs Hnil. destruct (classify current s) as [s' v'] eqn:Ec.
    simpl in Hs. subst v'. assert ((i, s') ∈ with_verdict v (classify_all current 0 states)) as H
      by (apply with_verdict_elem; eauto). rewrite Hnil in H. set_solver. }
  destruct Hr as [([i s'] & -> & _ & Hm)|[([i s'] & -> & _ & _ & Hm)|(msg & -> & Hav & -> & Hwhy)]].
  - apply choose_elem, effective_pool_sub, with_verdict_elem in Hm as (s & Hs & Hc).
    exists s. split; [by eapply list_elem_of_lookup_2|]. by rewrite Hc.
  - apply min_by_elem, with_verdict_elem in Hm as (s & Hs & Hc).
    exists s. split; [by eapply list_elem_of_lookup_2|]. by rewrite Hc.
  - split; [done|]. split; [intros s Hs Ha; by apply (Hv _ _ Hs Ha)|].
    destruct Hwhy as [?|[Hb|[_ Hb]]]; [by left|right; left|right; right].
    + intros s Hs. destruct (snd (classify current s)) eqn:Es; [done|by destruct (Hv _ _ Hs Es)..].
    + intros s Hs. apply not_true_iff_false. intros Ht. apply not_true_iff_false in Hb. apply Hb.
      apply existsb_exists. exists s. by rewrite <- list_elem_of_In.
Qed.

(** *** Ranking *)

Lemma remaining_nonneg s : (0 <= _remaining_secondary_credits s)%Q.
Proof.
  unfold _remaining_secondary_credits. destruct (capacity_credits s); [case_if; [lra|]|]; apply qmax_spec.
Qed.

Definition weight (m : member) : Q := _remaining_secondary_credits (obj m).

Lemma weights_sum_nonneg l : (0 <= qsum (map weight l))%Q.
Proof.
  apply qsum_nonneg. intros x Hx. apply list_elem_of_In, in_map_iff in Hx as (m & <- & _).
  apply remaining_nonneg.
Qed.

(** A draw below the total weight lands on a member of positive weight. *)
Lemma choose_weighted_positive l acc x m :
  (acc <= x)%Q → (x < acc + qsum (map weight l))%Q →
  choose_weighted l acc x = Some m → (0 < weight m)%Q.
Proof.
  revert acc. induction l as [|m1 l IH]; intros acc Hacc Hx; [done|]. cbn [choose_weighted].
  cbn [map] in Hx. rewrite qsum_cons in Hx.
  destruct l as [|m2 l]; [intros [= <-]; cbn in Hx; lra|].
  case_if; pyb; [intros [= <-]; unfold weight; lra|].
  apply IH; unfold weight in *; lra.
Qed.

(** What the strategy guarantees about its choice [m] among the candidates
    [pool]. *)
Definition strategy_best (o : SelectOpts) (current : Q) (pool : list member) (m : member) : Prop :=
  let least {K} `{PyOrd K} (key : AccountState → K) :=
    ∀ m', m' ∈ pool → pylt (key (obj m')) (key (obj m)) = false in
  match routing_strategy o with
  | round_robin => least _round_robin_sort_key
  | usage_weighted =>
      if primary_first_usage_weighted o then least _primary_usage_sort_key
      else if prefer_earlier_reset o then least (_reset_first_sort_key current)
      else least _usage_sort_key
  | capacity_weighted =>
      (prefer_earlier_reset o = true → ∀ m', m' ∈ pool →
        (_reset_bucket_days (obj m) current <= _reset_bucket_days (obj m') current)%Z) ∧
      ∀ m', m' ∈ pool →
        (prefer_earlier_reset o = true →
          _reset_bucket_days (obj m') current = _reset_bucket_days (obj m) current) →
        if deterministic_probe o then (weight m' <= weight m)%Q
        else (0 < weight m')%Q → (0 < weight m)%Q
  end.

Lemma capacity_choice_pool o current pool :
  let cands := if prefer_earlier_reset o then _prefer_earlier_reset_candidates pool current else pool in
  (∀ m, m ∈ cands → m ∈ pool ∧ (prefer_earlier_reset o = true → ∀ m', m' ∈ pool →
    (_reset_bucket_days (obj m) current <= _reset_bucket_days (obj m') current)%Z)) ∧
  (∀ m m', m ∈ cands → m' ∈ pool →
    (prefer_earlier_reset o = true → _reset_bucket_days (obj m') current = _reset_bucket_days (obj m) current) →
    m' ∈ cands).
Proof.
  cbv zeta. destruct (prefer_earlier_reset o); [|split; [done|by intros]].
  split; [intros m Hm; apply prefer_earlier_elem in Hm as [? ?]; auto|].
  unfold _prefer_earlier_reset_candidates. destruct (min_by _ pool) as [e|]; [|set_solver].
  intros m m'. rewrite !list_elem_of_In, !filter_In, !Z.eqb_eq. intros [? <-] ? Heq. auto.
Qed.

Lemma select_weighted_positive u cands m m' :
  (0 <= u)%Q → (u < 1)%Q → _select_capacity_weighted u cands = Some m → m' ∈ cands →
  (0 < weight m')%Q → (0 < weight m)%Q.
Proof.
  intros Hu0 Hu1. unfold _select_capacity_weighted. fold weight.
  change (λ m : member, _remaining_secondary_credits (obj m)) with weight.
  intros H Hin Hw. assert (0 < qsum (map weight cands))%Q as Hpos.
  { apply elem_of_Permutation in Hin as [k Hp].
    assert (qsum (map weight cands) == qsum (map weight (m' :: k)))%Q as ->.
    { apply qsum_perm. by rewrite Hp. }
    cbn [map]. rewrite qsum_cons. pose proof (weights_sum_nonneg k). lra. }
  case_if_in H; pyb; [lra|]. eapply choose_weighted_positive; [| |exact H]; nra.
Qed.

Lemma choose_best o u current l m :
  (0 <= u)%Q → (u < 1)%Q → choose o u current l = Some m →
  strategy_best o current (effective_pool l) m.
Proof.
  intros Hu0 Hu1. unfold choose, strategy_best.
  destruct (routing_strategy o); [repeat case_if; intros H m' Hm'; exact (min_by_min _ _ _ _ H Hm')| |].
  { intros H m' Hm'; exact (min_by_min _ _ _ _ H Hm'). }
  destruct (capacity_choice_pool o current (effective_pool l)) as [Hin Hcl].
  set (cands := if prefer_earlier_reset o then _ else _) in *. intros H.
  assert (m ∈ cands) as Hm.
  { case_if_in H; [exact (min_by_elem _ _ _ H)|]. unfold _select_capacity_weighted in H.
    case_if_in H; [exact (min_by_elem _ _ _ H)|by eapply choose_weighted_elem]. }
  split; [by apply Hin|]. intros m' Hm' Hb. specialize (Hcl m m' Hm Hm' Hb).
  case_if_in H.
  - apply (min_by_min _ _ _ m') in H; [|done]. unfold pylt, pycmp, PyOrd_prod in H. simpl in H.
    unfold weight, pycmp, PyOrd_Q in *.
    destruct (Qcompare_spec (- _remaining_secondary_credits (obj m')) (- _remaining_secondary_credits (obj m)));
      lra || done.
  - by eapply select_weighted_positive.
Qed.

(** C15. Among fully available accounts the one selected has the best health tier
    (healthy, then probing, then draining), and within that tier it is the
    best by the routing strategy: the least sort key for round robin, usage
    weighting and the capacity probe, and for the random capacity weighting
    an account of the earliest reset bucket (when preferred) that has credits
    left whenever any candidate has. *)
Theorem select_account_ranked o now clock u states states' i s'
    (Hu : (0 <= u ∧ u < 1)%Q)
    (Hsel : select_account o now clock u states = (states', Ok (Selected (i, s'))))
    (Hav : ∃ s, s ∈ states ∧ snd (classify (or_q now clock) s) = Available) :
  let current := or_q now clock in
  let available := with_verdict Available (classify_all current 0 states) in
  (∀ m, m ∈ available → (tier_rank (health_tier s') <= tier_rank (health_tier (obj m)))%Z) ∧
  strategy_best o current (effective_pool available) (i, s').
Proof.
  destruct Hu as [Hu0 Hu1]. apply select_account_unfold in Hsel as [_ Hr]. cbv zeta in *.
  set (current := or_q now clock) in *. destruct Hav as (s & Hs & Hv).
  assert (with_verdict Available (classify_all current 0 states) ≠ []) as Hne.
  { apply list_elem_of_lookup in Hs as [j Hj]. destruct (classify current s) as [t v] eqn:Ec.
    simpl in Hv. subst v. intros Hnil.
    assert ((j, t) ∈ with_verdict Available (classify_all current 0 states)) as H
      by (apply with_verdict_elem; eauto). rewrite Hnil in H. set_solver. }
  destruct Hr as [(m & [= <-] & _ & Hm)|[(m & _ & Hnil & _)|(msg & [=] & _)]]; [|done].
  split; [|by eapply choose_best].
  intros m Hm'. apply choose_elem in Hm. exact (effective_pool_rank _ _ _ Hm Hm').
Qed.

(** *** Effects on the shared states *)

Definition recovered (current : Q) (s s' : AccountState) : Prop :=
  match status s with
  | RATE_LIMITED | QUOTA_EXCEEDED =>
      (passed (reset_at s) current ∧ status s' = ACTIVE ∧ reset_at s' = None) ∨
      (¬ passed (reset_at s) current ∧ s' = s)
  | PAUSED | DEACTIVATED => s' = s
  | ACTIVE => status s' = ACTIVE ∧ reset_at s' = reset_at s
  end.

Lemma classify_open_frame current s s' v :
  classify_open current s = (s', v) →
  s' = s {{ cooldown_until := cooldown_until s'; last_error_at := last_error_at s'; error_count := error_count s' }} ∧
  (cooldown_until s' = cooldown_until s ∨ (passed (cooldown_until s) current ∧ cooldown_until s' = None)) ∧
  ((error_count s' = error_count s ∧ last_error_at s' = last_error_at s) ∨
   (error_count s' = 0%Z ∧ last_error_at s' = None)).
Proof.
  unfold classify_open. destruct (reached (cooldown_until s) current) eqn:Er.
  - apply reached_true in Er. simpl. intros [= <- <-]. destruct s; simpl in *. auto.
  - repeat case_if; intros [= <- <-]; destruct s; simpl in *; auto.
Qed.

(** What one pass of the loop does to an account. *)
Lemma classify_frame current s s' :
  fst (classify current s) = s' →
  s' = s {{ status := status s'; used_percent := used_percent s'; reset_at := reset_at s';
            cooldown_until := cooldown_until s'; last_error_at := last_error_at s';
            error_count := error_count s' }} ∧
  recovered current s s' ∧
  (used_percent s' = used_percent s ∨
   (status s = QUOTA_EXCEEDED ∧ status s' = ACTIVE ∧ used_percent s' = Some 0%Q)) ∧
  (cooldown_until s' = cooldown_until s ∨ (passed (cooldown_until s) current ∧ cooldown_until s' = None)) ∧
  (error_count s' = error_count s ∨ error_count s' = 0%Z).
Proof.
  intros <-. unfold classify, recovered.
  pose proof (reached_true (reset_at s) current) as Hr.
  destruct (status s) eqn:Es; [|destruct (reached (reset_at s) current)..| |].
  all: try solve [destruct s; simpl in *; subst; split_and!;
    first [done | by left | right; split; [by rewrite <- Hr|done]]].
  all: match goal with |- context [classify_open ?c ?x] =>
         destruct (classify_open c x) as [s1 v] eqn:Ec end.
  all: apply classify_open_frame in Ec as (Hf & Hc & He); destruct s, s1; simpl in *;
    injection Hf; intros; subst.
  all: clear -Hr Hc He; split_and!; tauto || auto.
Qed.

(** Selection changes an account only by recovering it: identity, plan,
    capacity, health tier, block and usage timestamps stay; a blocked account
    becomes active exactly when its recorded reset time has passed (its reset
    time is then cleared, and its primary usage only after a quota block);
    a cooldown is dropped only once it has passed, and error counts only ever
    return to zero. *)
Theorem select_account_frame o now clock u states states' r i s s'
    (Hrun : select_account o now clock u states = (states', r))
    (Hs : states !! i = Some s) (Hs' : states' !! i = Some s') :
  let current := or_q now clock in
  s' = s {{ status := status s'; used_percent := used_percent s'; reset_at := reset_at s';
            cooldown_until := cooldown_until s'; last_error_at := last_error_at s';
            error_count := error_count s' }} ∧
  recovered current s s' ∧
  (used_percent s' = used_percent s ∨
   (status s = QUOTA_EXCEEDED ∧ status s' = ACTIVE ∧ used_percent s' = Some 0%Q)) ∧
  (cooldown_until s' = cooldown_until s ∨ (passed (cooldown_until s) current ∧ cooldown_until s' = None)) ∧
  (error_count s' = error_count s ∨ error_count s' = 0%Z).
Proof.
  apply select_account_unfold in Hrun as [-> _]. cbv zeta.
  rewrite (states_lookup _ _ _ _ Hs) in Hs'. injection Hs' as Hs'. by apply classify_frame.
Qed.

(** A pending cooldown keeps an account out of every pool. *)
Lemma classify_pending current s :
  pending (cooldown_until s) current → snd (classify current s) = Skipped.
Proof.
  intros Hp. assert (∀ s1, cooldown_until s1 = cooldown_until s → snd (classify_open current s1) = Skipped) as Ho.
  { intros s1 H1. unfold classify_open. rewrite <- H1 in Hp. destruct (reached _ _) eqn:Er.
    - apply reached_true in Er. by destruct (pending_not_passed _ _ Hp).
    - apply pending_true in Hp. by rewrite Hp. }
  unfold classify. destruct (status s); try done; repeat case_if; auto.
Qed.

(** A selected object is the value the loop left at its position, and the loop
    did not skip it. *)
Lemma selected_verdict o now clock u states states' i s' :
  select_account o now clock u states = (states', Ok (Selected (i, s'))) →
  ∃ s v, states !! i = Some s ∧ classify (or_q now clock) s = (s', v) ∧ v ≠ Skipped.
Proof.
  intros H. apply select_account_unfold in H as [_ Hr]. cbv zeta in *.
  destruct Hr as [(m & [= <-] & _ & Hm)|[(m & [= <-] & _ & _ & Hm)|(msg & [=] & _)]].
  - apply choose_elem, effective_pool_sub, with_verdict_elem in Hm as (s & ? & ?). eauto 10.
  - apply min_by_elem, with_verdict_elem in Hm as (s & ? & ?). eauto 10.
Qed.

Lemma selected_classified o now clock u states states' i s' :
  select_account o now clock u states = (states', Ok (Selected (i, s'))) →
  ∃ s, states !! i = Some s ∧ openable (or_q now clock) s ∧ ¬ pending (cooldown_until s) (or_q now clock).
Proof.
  intros (s & v & Hs & Hc & Hv)%selected_verdict. exists s. split; [done|]. split.
  - apply classify_spec in Hc. destruct v; [done|..]; apply Hc.
  - intros Hp%classify_pending. by rewrite Hc in Hp.
Qed.

(** *** Retry delays *)

Lemma take_digits_nonneg s acc n :
  (0 <= acc)%Z → (0 <= (take_digits s acc n).1.1)%Z.
Proof.
  revert acc n. induction s as [|c s IH]; intros acc n H; simpl; [done|].
  case_if; [|done]. apply IH. unfold digit_val. lia.
Qed.

Lemma match_number_nonneg s v rest : match_number s = Some (v, rest) → (0 <= v)%Q.
Proof.
  unfold match_number.
  pose proof (take_digits_nonneg s 0 0 ltac:(done)) as Hw.
  destruct (take_digits s 0 0) as [[w n] r]. simpl in Hw.
  assert (0 <= inject_Z w)%Q as Hq by (by rewrite Zle_Qle in Hw).
  destruct (Nat.eqb n 0); [done|].
  assert (∀ r', Some (inject_Z w, r') = Some (v, rest) → (0 <= v)%Q) as Hwhole by (by intros r' [= <- _]).
  destruct r as [|c r']; [apply Hwhole|].
  pose proof (take_digits_nonneg r' 0 0 ltac:(done)) as Hf.
  destruct (Ascii.ascii_dec c ".") as [->|Hc].
  - destruct (take_digits r' 0 0) as [[f k] r'']. simpl in Hf.
    destruct (Nat.eqb k 0); [apply Hwhole|]. intros [= <- _].
    assert (0 <= inject_Z f / inject_Z (10 ^ Z.of_nat k))%Q; [|lra].
    apply Qle_shift_div_l; [|rewrite Qmult_0_l; by rewrite Zle_Qle in Hf].
    change 0%Q with (inject_Z 0). rewrite <- Zlt_Qlt. lia.
  - destruct c as [[] [] [] [] [] [] [] []]; try apply Hwhole. by destruct Hc.
Qed.

Lemma parse_retry_after_nonneg m v : parse_retry_after m = Some v → (0 <= v)%Q.
Proof.
  assert (∀ s v, match_retry_at s = Some v → (0 <= v)%Q) as Hm.
  { intros s w. unfold match_retry_at. destruct (match_ci _ s); [|done].
    destruct (match_number _) as [[x r]|] eqn:En; [|done]. apply match_number_nonneg in En.
    destruct (match_ci "s" _); [by intros [= <-]|]. destruct (match_ci "ms" _); [|done].
    intros [= <-]. apply Qle_shift_div_l; lra. }
  induction m as [|c m IH]; cbn [parse_retry_after]; destruct (match_retry_at _) eqn:E;
    first [by intros [= <-]; eapply Hm | done | apply IH].
Qed.

Lemma backoff_nonneg jitter attempt : (0 <= jitter)%Q → (0 <= backoff_seconds jitter attempt)%Q.
Proof.
  intros Hj. unfold backoff_seconds.
  set (e := inject_Z (2 ^ _)). assert (0 <= e)%Q.
  { unfold e. change 0%Q with (inject_Z 0). rewrite <- Zle_Qle. case_if; lia. }
  apply Qle_shift_div_l; [lra|]. rewrite Qmult_0_l. apply Qmult_le_0_compat; [lra|done].
Qed.

(** An account selected after a failure has sat out what the failure handler
    imposed: after a rate limit, the upstream's retry delay or the backoff;
    after a quota error, both the two-minute cooldown and the recorded reset
    time (an hour ahead when upstream names none); after a permanent failure
    it is never selected. *)
Theorem failure_handlers_block o now clock u states states' i s' st
    (Hsel : select_account o now clock u states = (states', Ok (Selected (i, s'))))
    (Hst : states !! i = Some st) :
  let current := or_q now clock in
  (∀ t1 t2 t3 t4 jitter e s, (0 < t4)%Q → (0 <= jitter)%Q → st = handle_rate_limit t1 t2 t3 t4 jitter e s →
    ∃ c, cooldown_until st = Some c ∧ (t4 <= c)%Q ∧ (c <= current)%Q) ∧
  (∀ t1 t2 t3 t4 e s, (0 < t2)%Q → st = handle_quota_exceeded t1 t2 t3 t4 e s →
    (t2 + 120 <= current)%Q ∧ ∃ r, reset_at st = Some r ∧ (r <= current)%Q ∧
    (resets_at e = None → resets_in_seconds e = None → r = inject_Z (py_int (t4 + 3600)%Q))) ∧
  (∀ code s, st ≠ handle_permanent_failure code s).
Proof.
  apply selected_classified in Hsel as (st' & Hst' & Ho & Hp). cbv zeta. set (current := or_q now clock) in *.
  rewrite Hst in Hst'. injection Hst' as <-.
  assert (∀ c, cooldown_until st = Some c → (0 < c)%Q → (c <= current)%Q) as Hcool.
  { intros c Hc Hpos. apply Qnot_lt_le. intros Hlt. apply Hp. exists c. split; [done|]. split; [lra|done]. }
  split_and!.
  - intros t1 t2 t3 t4 jitter e s Ht Hj Heq. unfold handle_rate_limit in Heq.
    set (s1 := match _extract_reset_at t3 e with Some _ => _ | None => _ end) in Heq.
    set (d := match match message e with _ => _ end with Some _ => _ | None => _ end) in Heq.
    assert (0 <= d)%Q as Hd.
    { unfold d. destruct (message e) as [m|]; [|by apply backoff_nonneg].
      destruct (String.eqb m ""); [by apply backoff_nonneg|].
      destruct (parse_retry_after m) eqn:E; [by eapply parse_retry_after_nonneg|by apply backoff_nonneg]. }
    exists (t4 + d)%Q. assert (cooldown_until st = Some (t4 + d)%Q) as Hc by (by rewrite Heq).
    split_and!; [done|lra|]. apply Hcool; [done|lra].
  - intros t1 t2 t3 t4 e s Ht Heq. unfold handle_quota_exceeded, _extract_reset_at in Heq.
    assert (cooldown_until st = Some (t2 + 120)%Q) as Hc.
    { rewrite Heq. by destruct (resets_at e), (resets_in_seconds e). }
    split; [apply Hcool; [done|lra]|].
    assert (status st = QUOTA_EXCEEDED) as Hq by (rewrite Heq; by destruct (resets_at e), (resets_in_seconds e)).
    unfold openable in Ho. rewrite Hq in Ho. destruct Ho as (r & Hr & _ & Hle).
    exists r. split_and!; [done..|]. intros H1 H2. rewrite Heq, H1, H2 in Hr. simpl in Hr. by injection Hr as <-.
  - intros code s ->. exact Ho.
Qed.

(** *** Error messages *)

Definition hint (n : Z) : string := ("Rate limit exceeded. Try again in " ++ pretty n ++ "s")%string.

Lemma hints_parse :
  forallb (λ n, match parse_retry_after (hint (Z.of_nat n)) with
                | Some v => qeq v (inject_Z (Z.of_nat n)) | None => false end)
    (seq 0 301) = true.
Proof. by vm_compute. Qed.

Lemma hint_parses n : (0 <= n <= 300)%Z → ∃ v, parse_retry_after (hint n) = Some v ∧ (v == inject_Z n)%Q.
Proof.
  intros Hn. pose proof hints_parse as H. rewrite forallb_forall in H.
  specialize (H (Z.to_nat n)). rewrite Z2Nat.id in H by lia.
  assert (In (Z.to_nat n) (seq 0 301)) as Hin by (apply in_seq; lia). apply H in Hin.
  destruct (parse_retry_after _) as [v|]; [|done]. apply qeq_true in Hin. eauto.
Qed.

Lemma py_round_range x a b :
  (inject_Z a <= x)%Q → (x <= inject_Z b)%Q → (a <= py_round x <= b)%Z.
Proof.
  intros Ha Hb. pose proof (py_round_bounds x) as [H1 H2].
  assert (inject_Z a < inject_Z (py_round x + 1))%Q as Hlo.
  { rewrite inject_Z_plus. change (inject_Z 1) with 1%Q. lra. }
  assert (inject_Z (py_round x) < inject_Z (b + 1))%Q as Hhi.
  { rewrite inject_Z_plus. change (inject_Z 1) with 1%Q. lra. }
  rewrite <- Zlt_Qlt in Hlo, Hhi. lia.
Qed.

Lemma format_retry_hint_spec w : ∃ n, (0 <= n <= 300)%Z ∧ _format_retry_hint w = hint n.
Proof.
  unfold _format_retry_hint. eexists. split; [|done].
  destruct (qmax_spec 0 w) as [[H0 _] _].
  destruct (qmin_spec (qmax 0 w) (inject_Z SELECTOR_RETRY_HINT_MAX_SECONDS)) as [[_ H2] H3].
  apply py_round_range; [|exact H2]. change (inject_Z 0) with 0%Q.
  destruct H3 as [->| ->]; [exact H0|]. by vm_compute.
Qed.

(** The message of a failed selection is one of the four fixed ones, or a
    retry hint of at most 300 seconds that the retry parser of the program
    reads back as that number of seconds. *)
Theorem no_account_message_spec current states :
  let msg := no_account_message current states in
  msg ∈ ["All accounts are paused or require re-authentication"; "All accounts are paused";
         "All accounts require re-authentication"; "No available accounts"] ∨
  ∃ n v, (0 <= n <= 300)%Z ∧ msg = hint n ∧ parse_retry_after msg = Some v ∧ (v == inject_Z n)%Q.
Proof.
  cbv zeta. assert (∀ w, ∃ n v, (0 <= n <= 300)%Z ∧ _format_retry_hint w = hint n ∧
    parse_retry_after (_format_retry_hint w) = Some v ∧ (v == inject_Z n)%Q) as Hh.
  { intros w. destruct (format_retry_hint_spec w) as (n & Hn & ->).
    destruct (hint_parses n Hn) as (v & ? & ?). eauto 10. }
  unfold no_account_message. repeat (case_if; [left; set_solver|]).
  destruct (min_by _ _); [by right|]. destruct (min_by _ _); [by right|]. left. set_solver.
Qed.

(** *** Health tiers *)

(** The transitions of an account's health tier.  Blocked accounts keep their
    tier; an account under pressure drains at once; leaving draining takes a
    quiet period and leads to probing only, and leaving probing for healthy
    takes the required streak of successes. *)
Inductive tier_step (c : DrainConfig) (current : Q) (entered : option Q) (streak : Z) (s : AccountState)
    : Z → Prop :=
| tier_blocked : hard_blocked s = true → tier_step c current entered streak s (health_tier s)
| tier_drain : hard_blocked s = false → should_drain c current s = true → (0 <= health_tier s <= 2)%Z →
    tier_step c current entered streak s HEALTH_TIER_DRAINING
| tier_stay_healthy : hard_blocked s = false → should_drain c current s = false →
    health_tier s = HEALTH_TIER_HEALTHY → tier_step c current entered streak s HEALTH_TIER_HEALTHY
| tier_probe t : hard_blocked s = false → should_drain c current s = false →
    health_tier s = HEALTH_TIER_DRAINING → entered = Some t → (probe_quiet_seconds c <= current - t)%Q →
    tier_step c current entered streak s HEALTH_TIER_PROBING
| tier_keep_draining : hard_blocked s = false → health_tier s = HEALTH_TIER_DRAINING →
    (∀ t, entered = Some t → (current - t < probe_quiet_seconds c)%Q) →
    tier_step c current entered streak s HEALTH_TIER_DRAINING
| tier_restore : hard_blocked s = false → should_drain c current s = false →
    health_tier s = HEALTH_TIER_PROBING → (probe_success_streak_required c <= streak)%Z →
    tier_step c current entered streak s HEALTH_TIER_HEALTHY
| tier_keep_probing : hard_blocked s = false → should_drain c current s = false →
    health_tier s = HEALTH_TIER_PROBING → (streak < probe_success_streak_required c)%Z →
    tier_step c current entered streak s HEALTH_TIER_PROBING
| tier_unknown : hard_blocked s = false → ¬ (0 <= health_tier s <= 2)%Z →
    tier_step c current entered streak s HEALTH_TIER_HEALTHY.

(** [evaluate_health_tier] takes exactly the transitions of [tier_step]: it
    is total and deterministic, and in particular a draining account never
    becomes healthy without probing first. *)
Theorem evaluate_health_tier_step c now clock entered streak s tier :
  evaluate_health_tier c now clock entered streak s = tier ↔
  tier_step c (or_q now clock) entered streak s tier.
Proof.
  unfold evaluate_health_tier. set (current := or_q now clock). split.
  - intros <-. destruct (hard_blocked s) eqn:Eb; [by constructor|].
    destruct (should_drain c current s) eqn:Ed.
    + repeat case_if; pyb; try (by apply tier_drain; unfold HEALTH_TIER_HEALTHY, HEALTH_TIER_DRAINING,
        HEALTH_TIER_PROBING in *; try done; lia).
      apply tier_unknown; unfold HEALTH_TIER_HEALTHY, HEALTH_TIER_DRAINING, HEALTH_TIER_PROBING in *; [done|lia].
    + destruct (Z.eqb_spec (health_tier s) HEALTH_TIER_HEALTHY); [by apply tier_stay_healthy|].
      destruct (Z.eqb_spec (health_tier s) HEALTH_TIER_DRAINING).
      { destruct entered as [t|]; [case_if; pyb|].
        - by eapply tier_probe.
        - apply tier_keep_draining; [done..|]. by intros t' [= <-].
        - by apply tier_keep_draining. }
      destruct (Z.eqb_spec (health_tier s) HEALTH_TIER_PROBING).
      { case_if; pyb; [by apply tier_restore|by apply tier_keep_probing]. }
      apply tier_unknown; unfold HEALTH_TIER_HEALTHY, HEALTH_TIER_DRAINING, HEALTH_TIER_PROBING in *; [done|lia].
  - unfold HEALTH_TIER_HEALTHY, HEALTH_TIER_DRAINING, HEALTH_TIER_PROBING in *.
    destruct 1 as [Hb|Hb Hd Ht|Hb Hd Ht|t Hb Hd Ht He Hq|Hb Ht Hq|Hb Hd Ht Hs|Hb Hd Ht Hs|Hb Ht];
      rewrite Hb; try done; rewrite ?Hd.
    + repeat case_if; pyb; try done; lia.
    + by rewrite Ht.
    + rewrite Ht, He. simpl. apply qle_true in Hq. by rewrite Hq.
    + rewrite Ht. simpl. case_if; [done|]. destruct entered as [t|]; [|done].
      specialize (Hq t eq_refl). apply qle_false in Hq. by rewrite Hq.
    + rewrite Ht. simpl. apply Z.leb_le in Hs. by rewrite Hs.
    + rewrite Ht. simpl. apply Z.leb_gt in Hs. by rewrite Hs.
    + destruct (Z.eqb_spec (health_tier s) 0), (Z.eqb_spec (health_tier s) 1),
        (Z.eqb_spec (health_tier s) 2); lia || done.
Qed.

(** *** Rendezvous hashing *)
Import Rendezvous.

Section MaxFirst.
Context {A K : Type} `{PyOrdLaws K} (key : A → K).

(** [max(l, key)] is the first member of greatest key. *)
Definition first_max (l : list A) (m : A) : Prop :=
  ∃ l1 l2, l = l1 ++ m :: l2 ∧ (∀ x, x ∈ l1 → pylt (key x) (key m) = true) ∧
           (∀ x, x ∈ l2 → pylt (key m) (key x) = false).

Lemma max_from_first b l : first_max (b :: l) (max_from key b l).
Proof.
  revert b. induction l as [|x l IH]; intros b; cbn [max_from].
  { exists [], []. split_and!; [done|set_solver..]. }
  case_if.
  - destruct (IH x) as (l1 & l2 & Heq & H1 & H2). exists (b :: l1), l2. rewrite Heq.
    split_and!; [done| |done]. intros y [->|Hy]%elem_of_cons; [|by apply H1].
    destruct l1 as [|z l1]; simpl in Heq; injection Heq as Hz Hl.
    + by rewrite <- Hz.
    + subst z. eapply pylt_trans; [exact Hb|]. apply H1. by left.
  - destruct (IH b) as (l1 & l2 & Heq & H1 & H2).
    destruct l1 as [|z l1]; simpl in Heq; injection Heq as Hz Hl.
    + exists [], (x :: l2). rewrite <- Hz in *. split_and!; [by rewrite Hl|set_solver|].
      intros y [->|Hy]%elem_of_cons; auto.
    + subst z. exists (b :: x :: l1), l2. split_and!; [simpl; by rewrite <- Hl| |done].
      assert (pylt (key b) (key (max_from key b l)) = true) as Hbm by (apply H1; by left).
      intros y [->|[->|Hy]%elem_of_cons]%elem_of_cons; [done| |apply H1; by right].
      destruct (pylt (key x) (key (max_from key b l))) eqn:E; [done|].
      rewrite (pylt_lt_le_trans _ _ _ Hbm E) in Hb. done.
Qed.

Lemma max_by_first l m : max_by key l = Some m → first_max l m.
Proof. destruct l as [|b l]; [done|]. intros [= <-]. apply max_from_first. Qed.

Lemma first_max_unique l m m' : first_max l m → first_max l m' → m = m'.
Proof.
  intros (l1 & l2 & -> & H1 & H2) (k1 & k2 & Heq & G1 & G2). revert k1 G1 Heq.
  induction l1 as [|x l1 IH]; intros [|y k1] G1 Heq; simpl in Heq; injection Heq as Hx Hl; [done|..].
  - subst y. assert (pylt (key m) (key m') = true) as Hlt by (apply G1; by left).
    rewrite (H2 m') in Hlt; [done|]. rewrite Hl. set_solver.
  - subst x. assert (pylt (key m') (key m) = true) as Hlt by (apply H1; by left).
    rewrite (G2 m) in Hlt; [done|]. rewrite <- Hl. set_solver.
  - apply (IH ltac:(intros; apply H1; by right) k1); [intros; apply G1; by right|done].
Qed.

Lemma max_by_filter (P : A → bool) l m :
  max_by key l = Some m → P m = true → max_by key (List.filter P l) = Some m.
Proof.
  intros (l1 & l2 & -> & H1 & H2)%max_by_first HP.
  assert (first_max (List.filter P (l1 ++ m :: l2)) m) as Hf.
  { exists (List.filter P l1), (List.filter P l2). rewrite List.filter_app. cbn [List.filter]. rewrite HP.
    split_and!; [done|intros x Hx; apply H1|intros x Hx; apply H2];
      apply list_elem_of_In, filter_In in Hx as [? _]; by apply list_elem_of_In. }
  destruct (max_by key (List.filter P (l1 ++ m :: l2))) as [m'|] eqn:E.
  - by rewrite (first_max_unique _ _ _ (max_by_first _ _ E) Hf).
  - destruct Hf as (k1 & k2 & Heq & _). rewrite Heq in E. by destruct k1.
Qed.
End MaxFirst.

Lemma select_node_max sha256 key nodes : select_node sha256 key nodes = max_by (_score sha256 key) nodes.
Proof. by destruct nodes as [|x [|y nodes]]. Qed.

(** Rendezvous hashing disturbs no other key: when a key is owned by some
    node and other nodes leave the ring, the key keeps its owner, whatever
    the hash function; so a membership change remaps only the keys of the
    nodes that left (or, read backwards, moves keys only to nodes that
    joined). *)
Theorem select_node_stable sha256 key nodes node (leaving : string → bool)
    (Howner : select_node sha256 key nodes = Some node)
    (Hstays : leaving node = false) :
  select_node sha256 key (List.filter (λ n, negb (leaving n)) nodes) = Some node.
Proof.
  rewrite select_node_max in *. apply max_by_filter; [done|]. by rewrite Hstays.
Qed.

(** *** Concrete runs *)

Definition ex_account (name : string) (st : AccountStatus) (used reset : option Q) : AccountState :=
  {| account_id := name; status := st; used_percent := used; reset_at := reset; blocked_at := None;
     cooldown_until := None; secondary_used_percent := None; secondary_reset_at := None;
     last_error_at := None; last_selected_at := None; error_count := 0; deactivation_reason := None;
     plan_type := Some "plus"; capacity_credits := None; health_tier := 0 |}.

Definition ex_opts : SelectOpts :=
  {| prefer_earlier_reset := false; routing_strategy := usage_weighted; allow_backoff_fallback := true;
     deterministic_probe := false; primary_first_usage_weighted := false |}.

(** An account in use, a rate-limited one whose reset has passed, a paused one
    and one that was just rate limited. *)
Definition ex_error : UpstreamError :=
  {| message := Some "Please try again in 1.5s."; resets_at := Some 90%Q; resets_in_seconds := None |}.
Definition ex_states : list AccountState :=
  [ex_account "a" ACTIVE (Some 40%Q) None;
   handle_rate_limit 80 80 80 80 1 ex_error (ex_account "b" ACTIVE (Some 20%Q) None);
   ex_account "c" PAUSED None None].
Definition ex_run := select_account ex_opts (Some 100%Q) 0 0 ex_states.
Definition ex_after : AccountState := fst (classify 100 (nth 1 ex_states (ex_account "" PAUSED None None))).

Lemma select_account_sound_witness :
  ∃ s, ex_states !! 1%nat = Some s ∧ status ex_after = ACTIVE ∧ openable 100 s ∧
    ¬ pending (cooldown_until s) 100.
Proof.
  destruct (select_account_sound ex_opts (Some 100%Q) 0 0 ex_states (fst ex_run) 1 ex_after)
    as (s & H1 & _ & H2 & H3 & H4 & _); [by vm_compute|].
  exists s. split_and!; [exact H1|exact H2|exact H3|exact H4].
Defined.

Lemma select_account_ranked_witness :
  strategy_best ex_opts 100 (effective_pool (with_verdict Available (classify_all 100 0 ex_states)))
    (1%nat, ex_after).
Proof.
  apply (select_account_ranked ex_opts (Some 100%Q) 0 0 ex_states (fst ex_run) 1 ex_after).
  - split; by vm_compute.
  - by vm_compute.
  - exists (ex_account "a" ACTIVE (Some 40%Q) None). split; [by left|by vm_compute].
Defined.

Lemma select_account_frame_witness :
  recovered 100 (nth 1 ex_states (ex_account "" PAUSED None None)) ex_after.
Proof.
  apply (select_account_frame ex_opts (Some 100%Q) 0 0 ex_states (fst ex_run) (snd ex_run) 1); by vm_compute.
Defined.

Lemma failure_handlers_block_witness :
  ∃ c, cooldown_until (nth 1 ex_states (ex_account "" PAUSED None None)) = Some c ∧ (80 <= c)%Q ∧ (c <= 100)%Q.
Proof.
  destruct (failure_handlers_block ex_opts (Some 100%Q) 0 0 ex_states (fst ex_run) 1 ex_after
    (nth 1 ex_states (ex_account "" PAUSED None None))) as [H _]; [by vm_compute..|].
  apply (H 80 80 80 80 1 ex_error (ex_account "b" ACTIVE (Some 20%Q) None))%Q; by vm_compute.
Defined.

Lemma select_node_stable_witness :
  select_node (λ s, s) "k" (List.filter (λ n, negb (String.eqb n "b")) ["a"; "b"; "c"]) = Some "c".
Proof.
  apply (select_node_stable (λ s, s) "k" ["a"; "b"; "c"] "c" (λ n, String.eqb n "b")); by vm_compute.
Defined.

End BalancerFacts.
