(* ===== verification/Resilience.v ===== *)
(** Resilience primitives: [src/app/core/resilience/circuit_breaker.py],
    [retry_budget.py] and [degradation.py], and the way the upstream client
    [src/app/core/clients/proxy.py] drives the per-account circuit breakers.

    Every method that takes the object's lock is one atomic state transformer;
    [time.monotonic()] readings are arguments. *)

From Stdlib Require Import Sorted.
From S2P Require Import Prelude.

(** ** Circuit breaker *)
Module CircuitBreaker.

Inductive CircuitState := CLOSED | OPEN | HALF_OPEN.
#[global] Instance CircuitState_eq : EqDecision CircuitState.
Proof. solve_decision. Defined.

Inductive BreakerError := OpenError | ProbeInFlightError.

Record CircuitBreaker := {
  _state : CircuitState;
  _failure_count : Z;
  _success_count : Z;
  _last_failure_time : option Q;
  _half_open_probe_in_flight : bool;
  failure_threshold : Z;
  recovery_timeout_seconds : Z;
  success_threshold : Z;
}.

Definition new (failure recovery success : Z) : CircuitBreaker :=
  {| _state := CLOSED; _failure_count := 0; _success_count := 0; _last_failure_time := None;
     _half_open_probe_in_flight := false; failure_threshold := failure;
     recovery_timeout_seconds := recovery; success_threshold := success |}.

(** The [state] property, read at time [t]. *)
Definition state (t : Q) (cb : CircuitBreaker) : CircuitState :=
  match _state cb, _last_failure_time cb with
  | OPEN, Some f => if qle (inject_Z (recovery_timeout_seconds cb)) (t - f) then HALF_OPEN else OPEN
  | s, _ => s
  end.

(** The result is whether the call is a half-open probe. *)
Definition pre_call_check (t : Q) (cb : CircuitBreaker) : CircuitBreaker * res BreakerError bool :=
  match state t cb with
  | OPEN => (cb, Err OpenError)
  | HALF_OPEN =>
      if _half_open_probe_in_flight cb then (cb, Err ProbeInFlightError)
      else (cb {{ _half_open_probe_in_flight := true }}, Ok true)
  | CLOSED => (cb, Ok false)
  end.

Definition release_half_open_probe (cb : CircuitBreaker) : CircuitBreaker :=
  cb {{ _half_open_probe_in_flight := false }}.

(** [t1] and [t2] are the two readings of [self.state]. *)
Definition _record_success (t1 t2 : Q) (cb : CircuitBreaker) : CircuitBreaker :=
  match state t1 cb with
  | HALF_OPEN =>
      let cb := cb {{ _success_count := (_success_count cb + 1)%Z }} in
      if (success_threshold cb <=? _success_count cb)%Z
      then cb {{ _state := CLOSED; _failure_count := 0%Z; _success_count := 0%Z }}
      else cb
  | _ =>
      match state t2 cb with
      | CLOSED => if (0 <? _failure_count cb)%Z then cb {{ _failure_count := 0%Z }} else cb
      | _ => cb
      end
  end.

(** The exceptions [_is_server_error] tells apart: an aiohttp response error
    with its status, a timeout, and any other exception with its optional
    [status_code] attribute. *)
Inductive exc :=
| ClientResponseError (status : Z)
| TimeoutExc
| OtherExc (status_code : option Z).

Definition _is_server_error (e : exc) : bool :=
  match e with
  | ClientResponseError status => (500 <=? status)%Z
  | TimeoutExc => true
  | OtherExc (Some status_code) => (500 <=? status_code)%Z
  | OtherExc None => true
  end.

Definition _record_failure (t : Q) (e : exc) (cb : CircuitBreaker) : CircuitBreaker :=
  if negb (_is_server_error e) then cb
  else
    let cb := cb {{ _failure_count := (_failure_count cb + 1)%Z; _last_failure_time := Some t;
                    _success_count := 0%Z }} in
    if (failure_threshold cb <=? _failure_count cb)%Z then cb {{ _state := OPEN }} else cb.

(** How an awaited request ends: a result, an exception, or cancellation
    (a [BaseException], which the [except Exception] clauses do not see). *)
Inductive outcome := Returned | Raised (e : exc) | Cancelled.

(** What [call] records when the request ends (lines 75-81). *)
Definition record (t1 t2 : Q) (o : outcome) (cb : CircuitBreaker) : CircuitBreaker :=
  match o with
  | Returned => _record_success t1 t2 cb
  | Raised e => _record_failure t1 e cb
  | Cancelled => cb
  end.

(** [call], with no other call interleaved: [t0] at entry, [t1] and [t2] when
    the request ends.  [Ok o] is the request's own outcome. *)
Definition call (t0 t1 t2 : Q) (o : outcome) (cb : CircuitBreaker) : CircuitBreaker * res BreakerError outcome :=
  match pre_call_check t0 cb with
  | (cb, Err e) => (cb, Err e)
  | (cb, Ok is_probe) =>
      let cb := record t1 t2 o cb in
      (if is_probe then release_half_open_probe cb else cb, Ok o)
  end.

(** *** The module's registry of breakers *)

Record Settings := {
  circuit_breaker_enabled : bool;
  circuit_breaker_failure_threshold : Z;
  circuit_breaker_recovery_timeout_seconds : Z;
}.

Record registry := {
  _circuit_breaker : option CircuitBreaker;
  _account_circuit_breakers : dict CircuitBreaker;
}.

Definition breaker_of (settings : Settings) : CircuitBreaker :=
  new (circuit_breaker_failure_threshold settings) (circuit_breaker_recovery_timeout_seconds settings) 2.

(** The boolean result says whether the (shared) breaker is handed out. *)
Definition get_circuit_breaker (settings : option Settings) (g : registry) : registry * option CircuitBreaker :=
  match settings with
  | None => (g, _circuit_breaker g)
  | Some s =>
      let g := match circuit_breaker_enabled s, _circuit_breaker g with
               | true, None => g {{ _circuit_breaker := Some (breaker_of s) }}
               | _, _ => g
               end in
      (g, if circuit_breaker_enabled s then _circuit_breaker g else None)
  end.

Definition get_circuit_breaker_for_account (account_id : string) (settings : Settings) (g : registry)
    : registry * option CircuitBreaker :=
  if negb (circuit_breaker_enabled settings) then (g, None)
  else match dict_get (_account_circuit_breakers g) account_id with
       | Some breaker => (g, Some breaker)
       | None =>
           let breaker := breaker_of settings in
           (g {{ _account_circuit_breakers := dict_set (_account_circuit_breakers g) account_id breaker }},
            Some breaker)
       end.

(** [clock] gives the reading taken for each account's breaker. *)
Definition are_all_account_circuit_breakers_open (clock : string → Q) (g : registry) : bool :=
  match _account_circuit_breakers g with
  | [] => false
  | l => forallb (λ e, bool_decide (state (clock (fst e)) (snd e) = OPEN)) l
  end.

End CircuitBreaker.

(** ** Breakers in the upstream client

    [src/app/core/clients/proxy.py]: what each upstream exchange does to the
    account's breaker, given how the network side ends. *)
Module UpstreamBreaker.
Import CircuitBreaker.

(** How the body of [_service_circuit_breaker_context] ends: with a response
    whose status is [status], an exception after the response headers arrived
    ([Some status]) or before, or cancellation. *)
Inductive context_outcome :=
| ContextDone (status : Z)
| ContextRaised (resp_status : option Z) (e : exc)
| ContextCancelled.

Definition context_record (t1 t2 : Q) (o : context_outcome) (cb : CircuitBreaker) : CircuitBreaker :=
  match o with
  | ContextDone status =>
      if (500 <=? status)%Z then _record_failure t1 (OtherExc None) cb else _record_success t1 t2 cb
  | ContextRaised resp_status e =>
      match resp_status with
      | Some status =>
          if (status <? 500)%Z && negb (_is_server_error e)
          then _record_success t1 t2 cb else _record_failure t1 e cb
      | None => _record_failure t1 e cb
      end
  | ContextCancelled => cb
  end.

Definition _service_circuit_breaker_context (t0 t1 t2 : Q) (o : context_outcome) (cb : CircuitBreaker)
    : CircuitBreaker * res BreakerError context_outcome :=
  match pre_call_check t0 cb with
  | (cb, Err e) => (cb, Err e)
  | (cb, Ok is_probe) =>
      let cb := context_record t1 t2 o cb in
      (if is_probe then release_half_open_probe cb else cb, Ok o)
  end.

(** How the websocket handshake of [_open_upstream_websocket] ends: the
    request raises or is cancelled, or a response of some status arrives and
    the header checks and set-up raise ([Some]) or pass ([None]; a status
    other than 101 always raises). *)
Inductive ws_outcome :=
| WsRequestRaised (e : exc)
| WsRequestCancelled
| WsResponse (status : Z) (setup : option exc).

Definition ws_connected (o : ws_outcome) : bool :=
  match o with WsResponse status None => (status =? 101)%Z | _ => false end.

(** Breaker records of the handshake (lines 1163-1228). *)
Definition ws_record (t1 t2 : Q) (o : ws_outcome) (cb : CircuitBreaker) : CircuitBreaker :=
  match o with
  | WsRequestRaised e => _record_failure t1 e cb
  | WsRequestCancelled => cb
  | WsResponse status setup =>
      if (500 <=? status)%Z then _record_failure t1 (OtherExc None) cb
      else if negb (status =? 101)%Z then _record_success t1 t2 cb
      else match setup with Some e => _record_failure t1 e cb | None => cb end
  end.

(** The result is whether the websocket is open and whether it holds the
    half-open probe. *)
Record ws_result := { ws_open : bool; ws_holds_probe : bool }.

Definition _open_upstream_websocket (hold_half_open_probe : bool) (t0 t1 t2 : Q) (o : ws_outcome)
    (cb : CircuitBreaker) : CircuitBreaker * res BreakerError ws_result :=
  match pre_call_check t0 cb with
  | (cb, Err e) => (cb, Err e)
  | (cb, Ok is_probe) =>
      let cb := ws_record t1 t2 o cb in
      let bound := ws_connected o && hold_half_open_probe && is_probe in
      let cb := if is_probe && negb hold_half_open_probe then release_half_open_probe cb else cb in
      (cb, Ok {| ws_open := ws_connected o; ws_holds_probe := bound |})
  end.

(** [_release_bound_half_open_probe]: a no-op unless the websocket holds the
    probe. *)
Definition _release_bound_half_open_probe (ws : ws_result) (cb : CircuitBreaker) : CircuitBreaker * ws_result :=
  if negb (ws_holds_probe ws) then (cb, ws)
  else (release_half_open_probe cb, ws {{ ws_holds_probe := false }}).

(** How the stream over an open websocket ends: a terminal event was seen, or
    it ended or raised without one, or it was cancelled. *)
Inductive stream_outcome := StreamTerminal | StreamRaised (e : exc) | StreamCancelled.

(** [_stream_responses_via_websocket] on the breaker (lines 1330-1427):
    handshake, one lifecycle record, release of the bound probe.  An
    exception of the handshake leaves before the [try]. *)
Definition websocket_exchange (t0 t1 t2 t3 t4 : Q) (o : ws_outcome) (s : stream_outcome) (cb : CircuitBreaker)
    : CircuitBreaker * res BreakerError ws_result :=
  match _open_upstream_websocket true t0 t1 t2 o cb with
  | (cb, Err e) => (cb, Err e)
  | (cb, Ok ws) =>
      if negb (ws_open ws) then (cb, Ok ws)
      else
        let cb := match s with
                  | StreamTerminal => _record_success t3 t4 cb
                  | StreamRaised e => _record_failure t3 e cb
                  | StreamCancelled => cb
                  end in
        let (cb, ws) := _release_bound_half_open_probe ws cb in (cb, Ok ws)
  end.

End UpstreamBreaker.

(** ** Retry budget *)
Module RetryBudget.

Record RetryBudget := {
  max_retries : Z;
  window_seconds : Z;
  _retry_timestamps : list Q;
}.

Definition new (max window : Z) : RetryBudget :=
  {| max_retries := max; window_seconds := window; _retry_timestamps := [] |}.

(** The [while] loop: pops timestamps older than the cutoff off the left. *)
Fixpoint pop_expired (cutoff : Q) (ts : list Q) : list Q :=
  match ts with
  | t :: rest => if qlt t cutoff then pop_expired cutoff rest else ts
  | [] => []
  end.

Definition cutoff_at (now : Q) (b : RetryBudget) : Q := (now - inject_Z (window_seconds b))%Q.

Definition try_acquire (now : Q) (b : RetryBudget) : RetryBudget * bool :=
  let b := b {{ _retry_timestamps := pop_expired (cutoff_at now b) (_retry_timestamps b) }} in
  if (max_retries b <=? Z.of_nat (length (_retry_timestamps b)))%Z then (b, false)
  else (b {{ _retry_timestamps := _retry_timestamps b ++ [now] }}, true).

Definition remaining (now : Q) (b : RetryBudget) : Z :=
  let recent := List.filter (λ t, qle (cutoff_at now b) t) (_retry_timestamps b) in
  Z.max 0 (max_retries b - Z.of_nat (length recent)).

End RetryBudget.

(** ** Degradation flag *)
Module Degradation.

Inductive DegradationLevel := NORMAL | DEGRADED | CRITICAL.
Record DegradationManager := { _level : DegradationLevel; _reason : option string }.

Definition new : DegradationManager := {| _level := NORMAL; _reason := None |}.
Definition set_degraded (reason : option string) (_ : DegradationManager) : DegradationManager :=
  {| _level := DEGRADED; _reason := reason |}.
Definition set_normal (_ : DegradationManager) : DegradationManager :=
  {| _level := NORMAL; _reason := None |}.
Definition is_degraded (m : DegradationManager) : bool :=
  match _level m with NORMAL => false | _ => true end.
Definition get_status (m : DegradationManager) : string * option string :=
  (match _level m with NORMAL => "normal" | DEGRADED => "degraded" | CRITICAL => "critical" end, _reason m).

End Degradation.

(** ** Concurrent calls through a breaker *)
Module BreakerFacts.
Import CircuitBreaker UpstreamBreaker.

(** The breaker together with the calls in progress: ordinary calls and
    probes awaiting their request, and probes that have recorded their
    outcome and are about to release the probe slot. *)
Record system := {
  cb : CircuitBreaker;
  ordinary : nat;
  probes : nat;
  releasing : nat;
}.

(** One lock-protected section of some call. *)
Inductive step : system → system → Prop :=
| step_reject t s cb' e :
    pre_call_check t (cb s) = (cb', Err e) → step s (s {{ cb := cb' }})
| step_enter t s cb' :
    pre_call_check t (cb s) = (cb', Ok false) → step s (s {{ cb := cb'; ordinary := S (ordinary s) }})
| step_probe t s cb' :
    pre_call_check t (cb s) = (cb', Ok true) → step s (s {{ cb := cb'; probes := S (probes s) }})
| step_end_ordinary t1 t2 o s n :
    ordinary s = S n → step s (s {{ cb := record t1 t2 o (cb s); ordinary := n }})
| step_end_probe t1 t2 o s n :
    probes s = S n →
    step s (s {{ cb := record t1 t2 o (cb s); probes := n; releasing := S (releasing s) }})
| step_release s n :
    releasing s = S n → step s (s {{ cb := release_half_open_probe (cb s); releasing := n }}).

Inductive reachable (f r k : Z) : system → Prop :=
| reach_init : reachable f r k {| cb := new f r k; ordinary := 0; probes := 0; releasing := 0 |}
| reach_step s s' : reachable f r k s → step s s' → reachable f r k s'.

(** The stored state is consistent with the counters. *)
Definition breaker_wf (f r k : Z) (b : CircuitBreaker) : Prop :=
  failure_threshold b = f ∧ recovery_timeout_seconds b = r ∧ success_threshold b = k ∧
  (0 <= _success_count b < k)%Z ∧
  match _state b with
  | CLOSED => (0 <= _failure_count b < f)%Z ∧ _success_count b = 0%Z
  | OPEN => (f <= _failure_count b)%Z ∧ is_Some (_last_failure_time b)
  | HALF_OPEN => False
  end.

Definition system_inv (f r k : Z) (s : system) : Prop :=
  breaker_wf f r k (cb s) ∧
  (probes s + releasing s = if _half_open_probe_in_flight (cb s) then 1 else 0)%nat.

Lemma state_half_open t b : state t b = HALF_OPEN → _state b = HALF_OPEN ∨ _state b = OPEN.
Proof. unfold state. destruct (_state b); auto. Qed.

Lemma state_closed t b : state t b = CLOSED ↔ _state b = CLOSED.
Proof. unfold state. destruct (_state b); try done. destruct (_last_failure_time b); [|done]. by case_if. Qed.

Lemma record_success_wf f r k t1 t2 b :
  (1 <= f)%Z → (1 <= k)%Z → breaker_wf f r k b → breaker_wf f r k (_record_success t1 t2 b).
Proof.
  intros Hf Hk (H1 & H2 & H3 & Hs & Hst). unfold _record_success.
  destruct (state t1 b) eqn:E; try (apply state_closed in E).
  - rewrite E in Hst. destruct Hst as [Hfc Hsc].
    assert (state t2 b = CLOSED) as -> by (by apply state_closed).
    destruct b; simpl in *; subst. case_if; unfold breaker_wf; simpl; split_and!; done || lia.
  - destruct (state t2 b) eqn:E2; [case_if|..]; try done. exfalso.
    apply state_closed in E2. assert (state t1 b = CLOSED) by (by apply state_closed). congruence.
  - apply state_half_open in E as [E|E]; rewrite E in Hst; [done|]. destruct Hst as [Hfc Hl].
    destruct b; simpl in *; subst. case_if; pyb; unfold breaker_wf; simpl; split_and!; done || lia.
Qed.

Lemma record_failure_wf f r k t e b :
  (1 <= f)%Z → (1 <= k)%Z → breaker_wf f r k b → breaker_wf f r k (_record_failure t e b).
Proof.
  intros Hf Hk (H1 & H2 & H3 & Hs & Hst). unfold _record_failure. case_if; [done|].
  destruct b; simpl in *; subst. case_if; pyb; unfold breaker_wf; simpl; split_and!; try done; try lia.
  destruct _state0; try done; simpl; [lia|]. destruct Hst. split; [lia|eauto].
Qed.

Lemma record_wf f r k t1 t2 o b :
  (1 <= f)%Z → (1 <= k)%Z → breaker_wf f r k b → breaker_wf f r k (record t1 t2 o b).
Proof. intros. destruct o; simpl; auto using record_success_wf, record_failure_wf. Qed.

Lemma record_flag t1 t2 o b :
  _half_open_probe_in_flight (record t1 t2 o b) = _half_open_probe_in_flight b.
Proof.
  destruct o as [|e|]; simpl; [| |done].
  - unfold _record_success. destruct (state t1 b), (state t2 b), b; simpl; try case_if; done.
  - unfold _record_failure. destruct b; simpl. repeat case_if; done.
Qed.

Lemma pre_call_check_spec t b :
  match pre_call_check t b with
  | (b', Ok false) => b' = b ∧ state t b = CLOSED
  | (b', Ok true) => b' = b {{ _half_open_probe_in_flight := true }} ∧ state t b = HALF_OPEN ∧
                     _half_open_probe_in_flight b = false
  | (b', Err OpenError) => b' = b ∧ state t b = OPEN
  | (b', Err ProbeInFlightError) => b' = b ∧ state t b = HALF_OPEN ∧ _half_open_probe_in_flight b = true
  end.
Proof. unfold pre_call_check. destruct (state t b) eqn:E; try done. destruct (_half_open_probe_in_flight b) eqn:F; done. Qed.

Lemma step_inv f r k s s' :
  (1 <= f)%Z → (1 <= k)%Z → system_inv f r k s → step s s' → system_inv f r k s'.
Proof.
  intros Hf Hk [Hwf Hp] Hstep.
  destruct Hstep as [t s cb' e Hc|t s cb' Hc|t s cb' Hc|t1 t2 o s n Hn|t1 t2 o s n Hn|s n Hn];
    try (pose proof (pre_call_check_spec t (cb s)) as Hspec; rewrite Hc in Hspec).
  - assert (cb' = cb s) as -> by (destruct e; tauto). by destruct s.
  - destruct Hspec as [-> _]. done.
  - destruct Hspec as (-> & _ & Hflag). rewrite Hflag in Hp. destruct s as [[] ???]. split; [exact Hwf|].
    simpl in *. lia.
  - destruct s; simpl in *. split; simpl; [by apply record_wf|]. by rewrite record_flag.
  - destruct s as [b ???]; simpl in *. split; simpl; [by apply record_wf|]. rewrite record_flag.
    destruct (_half_open_probe_in_flight b); lia.
  - destruct s as [[] ???]. split; [exact Hwf|]. simpl in *. case_match; lia.
Qed.

(** C21. In every interleaving of calls, at most one half-open probe is in flight
    and the probe flag says exactly whether one is; a closed breaker has seen
    fewer than the threshold of consecutive server errors, an open one at
    least that many together with the time of the last. *)
Theorem breaker_invariant f r k s
    (Hf : (1 <= f)%Z) (Hk : (1 <= k)%Z) (Hreach : reachable f r k s) : system_inv f r k s.
Proof.
  induction Hreach; [|by eapply step_inv]. split; [|done]. unfold breaker_wf. simpl. split_and!; try done; lia.
Qed.

(** *** Opening *)

(** A run of server errors, each at its own time. *)
Fixpoint fail_run (fails : list (Q * exc)) (b : CircuitBreaker) : CircuitBreaker :=
  match fails with
  | [] => b
  | (t, e) :: rest => fail_run rest (_record_failure t e b)
  end.

Lemma fail_run_app l1 l2 b : fail_run (l1 ++ l2) b = fail_run l2 (fail_run l1 b).
Proof. revert b. induction l1 as [|[t e] l1 IH]; intros b; simpl; [done|]. apply IH. Qed.

Definition server_errors (l : list (Q * exc)) : list (Q * exc) := List.filter (λ p, _is_server_error (snd p)) l.

Lemma fail_run_skip l b : fail_run l b = fail_run (server_errors l) b.
Proof.
  revert b. induction l as [|[t e] l IH]; intros b; simpl; [done|].
  destruct (_is_server_error e) eqn:E; simpl; rewrite <- IH; [done|]. unfold _record_failure. by rewrite E.
Qed.

Lemma record_failure_fields t e b :
  _is_server_error e = true →
  failure_threshold (_record_failure t e b) = failure_threshold b ∧
  _failure_count (_record_failure t e b) = (_failure_count b + 1)%Z ∧
  _state (_record_failure t e b) =
    if (failure_threshold b <=? _failure_count b + 1)%Z then OPEN else _state b.
Proof. intros He. unfold _record_failure. rewrite He. destruct b; simpl. by case_if. Qed.

Lemma fail_run_closed l b :
  _state b = CLOSED → (∀ p, p ∈ l → _is_server_error (snd p) = true) →
  (_failure_count b + Z.of_nat (length l) < failure_threshold b)%Z →
  _state (fail_run l b) = CLOSED ∧ _failure_count (fail_run l b) = (_failure_count b + Z.of_nat (length l))%Z ∧
  failure_threshold (fail_run l b) = failure_threshold b.
Proof.
  revert b. induction l as [|[t e] l IH]; intros b Hs Hl Hn; [simpl; split_and!; [done|lia|done]|].
  cbn [fail_run]. change (length ((t, e) :: l)) with (S (length l)) in *.
  destruct (record_failure_fields t e b) as (H1 & H2 & H3); [apply (Hl (t, e)); by left|].
  destruct (Z.leb_spec (failure_threshold b) (_failure_count b + 1)); [lia|].
  destruct (IH (_record_failure t e b)) as (G1 & G2 & G3);
    [congruence|intros; apply Hl; by right|lia|]. split_and!; [done|lia|congruence].
Qed.

(** From a freshly closed breaker, a run of failed calls opens it exactly
    when the run holds at least [failure_threshold] server errors; errors
    that are not the server's never count. *)
Theorem breaker_opens_at_threshold f r k (fails : list (Q * exc)) :
  (1 <= f)%Z →
  _state (fail_run fails (new f r k)) =
    if (f <=? Z.of_nat (length (server_errors fails)))%Z then OPEN else CLOSED.
Proof.
  intros Hf. rewrite fail_run_skip.
  assert (∀ p, p ∈ server_errors fails → _is_server_error (snd p) = true) as Hall.
  { intros p Hp. apply list_elem_of_In, filter_In in Hp as [_ ?]. done. }
  generalize dependent (server_errors fails). intros l Hall.
  induction l as [|[t e] l IH] using rev_ind; [simpl; case_if; pyb; [lia|done]|].
  rewrite fail_run_app, length_app. simpl.
  destruct (record_failure_fields t e (fail_run l (new f r k))) as (_ & _ & ->);
    [apply (Hall (t, e)); set_solver|].
  specialize (IH ltac:(intros; apply Hall; set_solver)).
  destruct (f <=? Z.of_nat (length l))%Z eqn:E; pyb.
  - rewrite IH. repeat case_if; pyb; done || lia.
  - destruct (fail_run_closed l (new f r k)) as (H1 & H2 & H3); [done|intros; apply Hall; set_solver|simpl; lia|].
    simpl in H2, H3. rewrite H1, H2, H3. repeat case_if; pyb; done || lia.
Qed.

(** *** Recovery *)

(** Successful calls one after another; the calls' clock readings. *)
Fixpoint success_run (calls : list (Q * Q * Q)) (b : CircuitBreaker) : CircuitBreaker :=
  match calls with
  | [] => b
  | (t0, t1, t2) :: rest => success_run rest (fst (call t0 t1 t2 Returned b))
  end.

Definition after (time : Q) (c : Q * Q * Q) : Prop :=
  let '(t0, t1, t2) := c in (time <= t0 ∧ time <= t1 ∧ time <= t2)%Q.

Lemma state_recovered t b f :
  _state b = OPEN → _last_failure_time b = Some f →
  (f + inject_Z (recovery_timeout_seconds b) <= t)%Q → state t b = HALF_OPEN.
Proof. intros H1 H2 H3. unfold state. rewrite H1, H2. case_if; [done|]. pyb. lra. Qed.

(** A probe that succeeds brings the breaker one success closer to closing. *)
Lemma probe_success t0 t1 t2 b f :
  _state b = OPEN → _last_failure_time b = Some f → _half_open_probe_in_flight b = false →
  after (f + inject_Z (recovery_timeout_seconds b))%Q (t0, t1, t2) →
  fst (call t0 t1 t2 Returned b) =
    if (success_threshold b <=? _success_count b + 1)%Z
    then b {{ _state := CLOSED; _failure_count := 0%Z; _success_count := 0%Z }}
    else b {{ _success_count := (_success_count b + 1)%Z }}.
Proof.
  intros Hs Hl Hp (H0 & H1 & H2). unfold call, pre_call_check.
  rewrite (state_recovered t0 b f Hs Hl H0), Hp. simpl. unfold _record_success.
  destruct b; simpl in *; subst. unfold state at 1. simpl.
  case_if; [|pyb; lra]. unfold release_half_open_probe. case_if; done.
Qed.

(** A breaker that is open with no probe in flight lets calls through once
    the recovery timeout has passed, and closes after [success_threshold]
    consecutive successes. *)
Theorem breaker_recovers b f calls
    (Hs : _state b = OPEN) (Hl : _last_failure_time b = Some f)
    (Hp : _half_open_probe_in_flight b = false) (Hc : _success_count b = 0%Z)
    (Hk : (1 <= success_threshold b)%Z)
    (Hn : Z.of_nat (length calls) = success_threshold b)
    (Ht : ∀ c, c ∈ calls → after (f + inject_Z (recovery_timeout_seconds b))%Q c) :
  _state (success_run calls b) = CLOSED ∧ _failure_count (success_run calls b) = 0%Z.
Proof.
  assert (∀ calls b, _state b = OPEN → _last_failure_time b = Some f → _half_open_probe_in_flight b = false →
    calls ≠ [] → (_success_count b + Z.of_nat (length calls) = success_threshold b)%Z →
    (∀ c, c ∈ calls → after (f + inject_Z (recovery_timeout_seconds b))%Q c) →
    _state (success_run calls b) = CLOSED ∧ _failure_count (success_run calls b) = 0%Z) as Hrun.
  { clear. intros calls. induction calls as [|[[t0 t1] t2] calls IH]; intros b Hs Hl Hp Hne Hn Ht; [done|].
    cbn [success_run]. change (length ((t0, t1, t2) :: calls)) with (S (length calls)) in Hn.
    rewrite (probe_success t0 t1 t2 b f Hs Hl Hp) by (apply Ht; by left).
    destruct b; simpl in *; subst. destruct calls as [|c calls].
    - simpl in *. case_if; [done|pyb; lia].
    - cbn [length] in *. case_if; pyb; [lia|]. apply IH; simpl; try done; [lia|]. intros c' Hc'. apply Ht. by right. }
  apply Hrun; try done; [|lia]. intros ->. simpl in Hn. lia.
Qed.

(** *** Held probes *)

Lemma ws_record_flag t1 t2 o b :
  _half_open_probe_in_flight (ws_record t1 t2 o b) = _half_open_probe_in_flight b.
Proof.
  pose proof (record_flag t1 t2 Returned b) as Hs. pose proof (λ e, record_flag t1 t2 (Raised e) b) as Hf.
  simpl in Hs, Hf. destruct o as [e| |st setup]; simpl; [done..|].
  repeat case_if; try done. by destruct setup.
Qed.

(** The breaker can leave its open state only through a recorded success. *)
Lemma ws_record_open t1 t2 o b :
  _state b = OPEN → ws_connected o = false → (∀ st e, o = WsResponse st e → (500 <=? st)%Z || (st =? 101)%Z = true) →
  _state (ws_record t1 t2 o b) = OPEN.
Proof.
  assert (∀ e, _state b = OPEN → _state (_record_failure t1 e b) = OPEN) as Hf.
  { intros e Hb. unfold _record_failure. destruct b; simpl in *. repeat case_if; done. }
  intros Hb Hc Hst. destruct o as [e| |st setup]; simpl; auto.
  specialize (Hst st setup eq_refl). destruct (500 <=? st)%Z; [auto|].
  destruct (st =? 101)%Z; [|done]. destruct setup; simpl; auto.
Qed.

Lemma probe_held_refuses t b :
  _state b = OPEN → _half_open_probe_in_flight b = true → is_ok (snd (pre_call_check t b)) = false.
Proof.
  intros Hs Hp. unfold pre_call_check, state. rewrite Hs, Hp.
  destruct (_last_failure_time b); [|done]. by case_if.
Qed.

(** A websocket exchange that is the half-open probe and whose handshake
    fails (the connection raises, or upstream answers 5xx or an invalid
    upgrade) leaves the probe flag set although it is over and holds nothing:
    every later call through the account's breaker is refused, at any time.
    The same handshake without [hold_half_open_probe] clears the flag. *)
Theorem held_probe_leaks t0 t1 t2 t3 t4 o s b
    (Hopen : _state b = OPEN) (Hprobe : state t0 b = HALF_OPEN)
    (Hfree : _half_open_probe_in_flight b = false)
    (Hfail : ws_connected o = false)
    (Hstatus : ∀ st e, o = WsResponse st e → (500 <=? st)%Z || (st =? 101)%Z = true) :
  (∃ b' ws, websocket_exchange t0 t1 t2 t3 t4 o s b = (b', Ok ws) ∧
    ws_open ws = false ∧ ws_holds_probe ws = false ∧
    ∀ t, is_ok (snd (pre_call_check t b')) = false) ∧
  _half_open_probe_in_flight (fst (_open_upstream_websocket false t0 t1 t2 o b)) = false.
Proof.
  unfold websocket_exchange, _open_upstream_websocket.
  assert (pre_call_check t0 b = (b {{ _half_open_probe_in_flight := true }}, Ok true)) as Hpre.
  { unfold pre_call_check. by rewrite Hprobe, Hfree. }
  rewrite Hpre, Hfail. simpl. split; [|done].
  eexists _, _. split; [done|]. split_and!; [done..|]. intros t. apply probe_held_refuses.
  - apply ws_record_open; [by destruct b|done..].
  - rewrite ws_record_flag. by destruct b.
Qed.

(** An exchange that is not affected: with [call] and
    [_service_circuit_breaker_context] the flag is always as it was before,
    whatever the outcome, and a websocket that opens gives the probe back
    when its stream ends. *)
Theorem probe_returned t0 t1 t2 t3 t4 b :
  (∀ o, _half_open_probe_in_flight (fst (call t0 t1 t2 o b)) = _half_open_probe_in_flight b) ∧
  (∀ o, _half_open_probe_in_flight (fst (_service_circuit_breaker_context t0 t1 t2 o b)) =
        _half_open_probe_in_flight b) ∧
  (∀ s, _half_open_probe_in_flight (fst (websocket_exchange t0 t1 t2 t3 t4 (WsResponse 101 None) s b)) =
        _half_open_probe_in_flight b).
Proof.
  unfold call, _service_circuit_breaker_context, websocket_exchange, _open_upstream_websocket.
  pose proof (pre_call_check_spec t0 b) as H.
  destruct (pre_call_check t0 b) as [b' [[]|[]]].
  - destruct H as (-> & _ & ->). split_and!; intros; by destruct b.
  - destruct H as [-> _]. split_and!; intros.
    + apply record_flag.
    + pose proof (record_flag t1 t2 Returned b) as Hs. pose proof (λ e, record_flag t1 t2 (Raised e) b) as Hf.
      simpl in Hs, Hf. destruct o as [st|[st|] e|]; simpl; try case_if; done.
    + pose proof (record_flag t3 t4 Returned b) as Hs. pose proof (λ e, record_flag t3 t4 (Raised e) b) as Hf.
      simpl in Hs, Hf. destruct s; simpl; done.
  - destruct H as [-> _]. done.
  - destruct H as [-> _]. done.
Qed.

(** *** Concrete breakers *)

Definition ex_open : CircuitBreaker := fail_run [(1%Q, TimeoutExc); (2%Q, ClientResponseError 503)] (new 2 60 2).

Lemma breaker_invariant_witness :
  system_inv 2 60 2 {| cb := new 2 60 2; ordinary := 1; probes := 0; releasing := 0 |}.
Proof.
  apply breaker_invariant; [lia|lia|].
  eapply reach_step; [apply reach_init|].
  apply (step_enter 0 {| cb := new 2 60 2; ordinary := 0; probes := 0; releasing := 0 |} (new 2 60 2)).
  by vm_compute.
Defined.

Lemma breaker_opens_witness :
  _state (fail_run [(1%Q, TimeoutExc); (2%Q, ClientResponseError 404); (3%Q, OtherExc None)] (new 2 60 2)) = OPEN.
Proof. rewrite (breaker_opens_at_threshold 2 60 2); [by vm_compute|lia]. Defined.

Lemma breaker_recovers_witness :
  _state (success_run [(62, 63, 63); (64, 65, 65)]%Q ex_open) = CLOSED.
Proof.
  apply (breaker_recovers ex_open 2 [(62, 63, 63); (64, 65, 65)]%Q); try (by vm_compute).
  intros c [->|[->|H]%elem_of_cons]%elem_of_cons; [unfold after; vm_compute; split_and!; done..|].
  by apply elem_of_nil in H.
Defined.

Lemma held_probe_leaks_witness :
  ∃ b', ∀ t, is_ok (snd (pre_call_check t b')) = false.
Proof.
  destruct (held_probe_leaks 62 63 63 0 0 (WsRequestRaised TimeoutExc) StreamTerminal ex_open)
    as [(b' & ws & _ & _ & _ & H) _]; [by vm_compute..|done|]. exists b'. exact H.
Defined.

End BreakerFacts.

(** ** Retry budget facts *)
Module RetryBudgetFacts.
Import RetryBudget.

(** The retries granted along a sequence of requests. *)
Fixpoint grants (b : RetryBudget) (nows : list Q) : list Q :=
  match nows with
  | [] => []
  | now :: rest =>
      let (b', ok) := try_acquire now b in
      if ok then now :: grants b' rest else grants b' rest
  end.

(** The sliding-window policy: a retry is granted when fewer than [max]
    retries were granted in the last [window] seconds. *)
Definition recent (window : Z) (now : Q) (history : list Q) : list Q :=
  List.filter (λ t, qle (now - inject_Z window) t) history.

Fixpoint policy (max window : Z) (history nows : list Q) : list Q :=
  match nows with
  | [] => []
  | now :: rest =>
      if (Z.of_nat (length (recent window now history)) <? max)%Z
      then now :: policy max window (history ++ [now]) rest
      else policy max window history rest
  end.

Definition sorted_times := StronglySorted Qle.

Lemma pop_expired_filter cutoff ts :
  sorted_times ts → pop_expired cutoff ts = List.filter (λ t, qle cutoff t) ts.
Proof.
  induction 1 as [|t ts Hs IH Hall]; [done|]. cbn [pop_expired List.filter]. unfold qlt.
  fold (qle cutoff t). destruct (qle cutoff t) eqn:E; simpl; [|done].
  f_equal. apply qle_true in E. clear -Hall E. induction Hall as [|x l Hx _ IH]; [done|].
  cbn [List.filter]. assert (qle cutoff x = true) as -> by (apply qle_true; lra). by f_equal.
Qed.

(** The deque is the history without a prefix that expired before [now]. *)
Definition tracks (b : RetryBudget) (history : list Q) (now : Q) : Prop :=
  sorted_times (_retry_timestamps b) ∧ (∀ t, t ∈ _retry_timestamps b → (t <= now)%Q) ∧
  ∃ expired, history = expired ++ _retry_timestamps b ∧ ∀ t, t ∈ expired → (t < cutoff_at now b)%Q.

Lemma filter_none {A} (P : A → bool) l : (∀ x, x ∈ l → P x = false) → List.filter P l = [].
Proof.
  induction l as [|x l IH]; intros H; [done|]. cbn [List.filter].
  rewrite (H x) by (by left). apply IH. intros; apply H; by right.
Qed.

Lemma sorted_filter (P : Q → bool) l : sorted_times l → sorted_times (List.filter P l).
Proof.
  induction 1 as [|x l Hs IH Hall]; [constructor|]. cbn [List.filter]. case_if; [|done].
  constructor; [done|]. rewrite Forall_forall in *. intros y Hy. apply Hall.
  apply list_elem_of_In, filter_In in Hy as [? _]. by apply list_elem_of_In.
Qed.

Lemma sorted_snoc l x : sorted_times l → (∀ t, t ∈ l → (t <= x)%Q) → sorted_times (l ++ [x]).
Proof.
  induction 1 as [|y l Hs IH Hall]; intros Hx; simpl; [repeat constructor|].
  constructor; [apply IH; intros; apply Hx; by right|]. rewrite Forall_forall in *.
  intros z [Hz| ->%list_elem_of_singleton]%elem_of_app; [by apply Hall|]. apply Hx. by left.
Qed.

Lemma tracks_window b history prev now :
  (prev <= now)%Q → tracks b history prev →
  pop_expired (cutoff_at now b) (_retry_timestamps b) = recent (window_seconds b) now history ∧
  tracks (b {{ _retry_timestamps := pop_expired (cutoff_at now b) (_retry_timestamps b) }}) history now.
Proof.
  intros Hle (Hs & Hb & expired & -> & Hexp). rewrite pop_expired_filter by done.
  assert (∀ t, t ∈ expired → (t < cutoff_at now b)%Q) as Hexp'.
  { intros t Ht. specialize (Hexp t Ht). unfold cutoff_at in *. lra. }
  split.
  - unfold recent. rewrite List.filter_app, (filter_none _ expired); [done|].
    intros t Ht. apply qle_false. by apply Hexp'.
  - destruct b as [m w ts]. unfold tracks, cutoff_at in *. simpl in *.
    assert (∀ t, t ∈ List.filter (λ t, qle (now - inject_Z w) t) ts → t ∈ ts) as Hsub.
    { intros t Ht. apply list_elem_of_In, filter_In in Ht as [? _]. by apply list_elem_of_In. }
    split_and!; [by apply sorted_filter|intros t Ht; specialize (Hb t (Hsub t Ht)); lra|].
    exists (expired ++ List.filter (λ t, negb (qle (now - inject_Z w) t)) ts). split.
    + rewrite <- app_assoc. f_equal. clear -Hs. induction Hs as [|x l Hs IH Hall]; [done|].
      cbn [List.filter]. destruct (qle (now - inject_Z w) x) eqn:E; simpl; [|by f_equal].
      rewrite filter_none; simpl.
      * f_equal. etrans; [exact IH|]. rewrite filter_none; [done|].
        intros y Hy. apply negb_false_iff, qle_true. rewrite Forall_forall in Hall.
        specialize (Hall y Hy). apply qle_true in E. lra.
      * intros y Hy. apply negb_false_iff, qle_true. rewrite Forall_forall in Hall.
        specialize (Hall y Hy). apply qle_true in E. lra.
    + intros t [Ht|Ht]%elem_of_app; [by apply Hexp'|].
      apply list_elem_of_In, filter_In in Ht as [_ Ht]. apply negb_true_iff, qle_false in Ht. done.
Qed.

Lemma grants_policy b history prev nows :
  tracks b history prev → sorted_times nows → (∀ t, t ∈ nows → (prev <= t)%Q) →
  grants b nows = policy (max_retries b) (window_seconds b) history nows.
Proof.
  intros Htr Hs. revert b history prev Htr. induction Hs as [|now nows Hs IH Hall]; intros b history prev Htr Hp; [done|].
  assert (prev <= now)%Q as Hpn by (apply Hp; by left).
  destruct (tracks_window b history prev now Hpn Htr) as [Hw Htr']. rewrite Forall_forall in Hall.
  cbn [grants policy]. unfold try_acquire.
  destruct b as [m w ts]. cbn [_retry_timestamps max_retries window_seconds] in *. simpl in Htr' |- *.
  rewrite Hw in *. destruct (Z.ltb_spec (Z.of_nat (length (recent w now history))) m) as [Hlt|Hge].
  - assert ((m <=? Z.of_nat (length (recent w now history)))%Z = false) as -> by lia.
    f_equal. apply (IH {| max_retries := m; window_seconds := w;
      _retry_timestamps := recent w now history ++ [now] |} (history ++ [now]) now); [|done].
    destruct Htr' as (H1 & H2 & expired & Heq & H3). simpl in *. split_and!; simpl.
    + by apply sorted_snoc.
    + intros t [Ht| ->%list_elem_of_singleton]%elem_of_app; [by apply H2|lra].
    + exists expired. split; [|done]. rewrite app_assoc. f_equal. exact Heq.
  - assert ((m <=? Z.of_nat (length (recent w now history)))%Z = true) as -> by lia.
    exact (IH _ _ now Htr' Hall).
Qed.

(** The deque implements the sliding-window policy: on any nondecreasing
    sequence of requests a fresh budget grants exactly the retries the policy
    grants from the full history. *)
Theorem retry_budget_refines max window nows (Hs : sorted_times nows) :
  grants (new max window) nows = policy max window [] nows.
Proof.
  destruct nows as [|t0 nows]; [done|].
  apply (grants_policy (new max window) [] t0); [|done|].
  - split_and!; simpl; [constructor|set_solver|]. exists []. split; [done|set_solver].
  - apply StronglySorted_inv in Hs as [_ Hall]. rewrite Forall_forall in Hall.
    intros t [->|Ht]%elem_of_cons; [apply Qle_refl|by apply Hall].
Qed.

(** Grants inside the window that ends at [t]. *)
Definition in_window (window : Z) (t : Q) (l : list Q) : list Q :=
  List.filter (λ x, qle (t - inject_Z window) x && qle x t) l.

Definition window_bounded (max window : Z) (l : list Q) : Prop :=
  ∀ t, t ∈ l → (Z.of_nat (length (in_window window t l)) <= max)%Z.

Lemma policy_bounded max window history nows :
  sorted_times nows → (∀ x t, x ∈ history → t ∈ nows → (x <= t)%Q) →
  window_bounded max window history → window_bounded max window (history ++ policy max window history nows).
Proof.
  intros Hs. revert history. induction Hs as [|now nows Hs IH Hall]; intros history Hle Hb; cbn [policy].
  { by rewrite app_nil_r. }
  rewrite Forall_forall in Hall. case_if; [|apply IH; [intros; apply Hle; [done|by right]|done]].
  replace (history ++ now :: policy max window (history ++ [now]) nows)
    with ((history ++ [now]) ++ policy max window (history ++ [now]) nows) by (by rewrite <- app_assoc).
  apply IH.
  { intros x t [Hx| ->%list_elem_of_singleton]%elem_of_app Ht; [apply Hle; [done|by right]|by apply Hall]. }
  pyb. intros t Ht. unfold in_window. rewrite List.filter_app, length_app. cbn [List.filter].
  destruct (qle (t - inject_Z window) now && qle now t) eqn:E.
  - apply andb_prop in E as [_ E%qle_true].
    assert (t == now)%Q as Heq.
    { apply elem_of_app in Ht as [Ht| ->%list_elem_of_singleton]; [|done].
      assert (t <= now)%Q by (apply Hle; [done|by left]). lra. }
    assert (length (List.filter (λ x, qle (t - inject_Z window) x && qle x t) history) <=
            length (recent window now history))%nat as Hlen.
    { clear -Heq. unfold recent. induction history as [|x l IH]; [done|]. cbn [List.filter].
      rewrite Heq. destruct (qle (now - inject_Z window) x); simpl; [|exact IH].
      case_if; simpl; lia. }
    simpl. lia.
  - simpl. rewrite Nat.add_0_r. apply elem_of_app in Ht as [Ht| ->%list_elem_of_singleton]; [by apply Hb|].
    rewrite andb_false_iff, !qle_false in E.
    etrans; [|apply Z.lt_le_incl, Hb0]. apply inj_le. unfold recent. clear.
    induction history as [|x l IH]; [done|]. cbn [List.filter].
    destruct (qle (now - inject_Z window) x); simpl; [|exact IH]. case_if; simpl; lia.
Qed.

(** No window of [window_seconds] ending at a granted retry ever contains
    more than [max_retries] granted retries. *)
Theorem retry_budget_bounded max window nows (Hs : sorted_times nows) :
  window_bounded max window (grants (new max window) nows).
Proof.
  destruct nows as [|t0 nows]; [intros t Ht; by apply elem_of_nil in Ht|].
  rewrite (grants_policy (new max window) [] t0).
  - change (window_bounded max window ([] ++ policy max window [] (t0 :: nows))).
    apply policy_bounded; [done|set_solver|intros t Ht; by apply elem_of_nil in Ht].
  - split_and!; simpl; [constructor|set_solver|]. exists []. split; [done|set_solver].
  - done.
  - apply StronglySorted_inv in Hs as [_ Hall]. rewrite Forall_forall in Hall.
    intros t [->|Ht]%elem_of_cons; [apply Qle_refl|by apply Hall].
Qed.

Definition ex_times : list Q := [1; 2; 3; 63]%Q.

Lemma ex_times_sorted : sorted_times ex_times.
Proof. repeat (constructor; [|repeat constructor; by vm_compute]). constructor. Qed.

Lemma retry_budget_refines_witness :
  grants (new 2 60) ex_times = policy 2 60 [] ex_times ∧ grants (new 2 60) ex_times = [1; 2; 63]%Q.
Proof. split; [apply (retry_budget_refines 2 60 ex_times ex_times_sorted)|by vm_compute]. Defined.

Lemma retry_budget_bounded_witness : window_bounded 2 60 (grants (new 2 60) ex_times).
Proof. apply (retry_budget_bounded 2 60 ex_times ex_times_sorted). Defined.

End RetryBudgetFacts.
