(* ===== verification/Admission.v ===== *)
(** Admission control: [src/app/core/errors.py],
    [src/app/core/resilience/overload.py], [bulkhead.py], [backpressure.py]
    and [src/app/modules/proxy/work_admission.py].

    [asyncio.Semaphore] is modelled from the standard library: a counter and a
    FIFO queue of waiting futures.  A JSON payload is kept as the value that
    [json.dumps] prints. *)

From S2P Require Import Prelude.

(** ** [asyncio.Semaphore] *)
Module Semaphore.

(** The queue [_waiters] of the code in two parts: [_waiters] here holds the
    futures that are still pending; [woken] those whose result was set and
    whose task has not resumed yet. *)
Record Semaphore := { _value : Z; _waiters : list nat; woken : list nat }.

Definition new (value : Z) : Semaphore := {| _value := value; _waiters := []; woken := [] |}.

(** No permit is free, or some task of the queue has not gone on yet. *)
Definition locked (s : Semaphore) : bool :=
  (_value s =? 0)%Z || match _waiters s ++ woken s with [] => false | _ => true end.

Definition _wake_up_next (s : Semaphore) : Semaphore :=
  match _waiters s with
  | [] => s
  | fut :: rest => {| _value := (_value s - 1)%Z; _waiters := rest; woken := woken s ++ [fut] |}
  end.

(** The loop at the end of a parked [acquire]: waiters that came in behind a
    woken task are woken as long as permits are free. *)
Fixpoint wake_free (value : Z) (waiters woken : list nat) : Semaphore :=
  match waiters with
  | fut :: rest =>
      if (0 <? value)%Z then wake_free (value - 1) rest (woken ++ [fut])
      else {| _value := value; _waiters := waiters; woken := woken |}
  | [] => {| _value := value; _waiters := []; woken := woken |}
  end.

(** [acquire] up to its first suspension: [true] when it returns at once,
    [false] when it parks on the fresh future [fut]. *)
Definition acquire (fut : nat) (s : Semaphore) : Semaphore * bool :=
  if locked s then (s {{ _waiters := _waiters s ++ [fut] }}, false)
  else (s {{ _value := (_value s - 1)%Z }}, true).

(** The task of [fut] resumes with the permit. *)
Definition resume (fut : nat) (s : Semaphore) : Semaphore :=
  wake_free (_value s) (_waiters s) (List.filter (λ f, negb (Nat.eqb f fut)) (woken s)).

(** The task of [fut] is cancelled while parked: it leaves the queue, and a
    woken one gives its permit back. *)
Definition cancel (fut : nat) (s : Semaphore) : Semaphore :=
  if existsb (Nat.eqb fut) (woken s)
  then wake_free (_value s + 1) (_waiters s) (List.filter (λ f, negb (Nat.eqb f fut)) (woken s))
  else wake_free (_value s) (List.filter (λ f, negb (Nat.eqb f fut)) (_waiters s)) (woken s).

Definition release (s : Semaphore) : Semaphore :=
  _wake_up_next (s {{ _value := (_value s + 1)%Z }}).

(** What the loop keeps: the permits, free or on their way; the futures of
    the queue; and it leaves no permit free beside a pending future. *)
Lemma wake_free_spec value waiters wk :
  let s := wake_free value waiters wk in
  (_value s + Z.of_nat (length (woken s)) = value + Z.of_nat (length wk))%Z ∧
  ((0 <= value)%Z → (0 <= _value s)%Z) ∧ (_waiters s ≠ [] → (_value s <= 0)%Z) ∧
  _waiters s ++ woken s ≡ₚ waiters ++ wk.
Proof.
  revert value wk. induction waiters as [|fut rest IH]; intros value wk; simpl; [done|].
  destruct (0 <? value)%Z eqn:E; simpl; pyb; [|done].
  destruct (IH (value - 1)%Z (wk ++ [fut])) as (H1 & H2 & H3 & H4). rewrite length_app in H1. simpl in H1.
  split_and!; [lia|lia|done|]. rewrite H4. solve_Permutation.
Qed.

End Semaphore.

(** ** Local overload responses *)
Module Overload.

Record OpenAIErrorDetail := { err_message : string; err_type : string; err_code : string }.

Definition openai_error (code message error_type : string) : OpenAIErrorDetail :=
  {| err_message := message; err_type := error_type; err_code := code |}.

Definition LOCAL_OVERLOAD_CODE : string := "proxy_overloaded".
Definition LOCAL_OVERLOAD_RETRY_AFTER_SECONDS : string := "5".

Definition local_overload_error (message : string) : OpenAIErrorDetail :=
  openai_error LOCAL_OVERLOAD_CODE message "rate_limit_error".
Definition local_unavailable_error (message : string) : OpenAIErrorDetail :=
  openai_error "proxy_unavailable" message "server_error".
Definition is_local_overload_error_code (code : option string) : bool :=
  match code with Some c => String.eqb c LOCAL_OVERLOAD_CODE | None => false end.

Definition merge_retry_after_headers (headers : option (dict string)) (retry_after : string) : dict string :=
  let merged := default [] headers in
  match dict_get merged "Retry-After" with
  | Some _ => merged
  | None => dict_set merged "Retry-After" retry_after
  end.

Definition is_proxy_path (path : string) : bool :=
  startswith "/v1/" path || startswith "/backend-api/" path.

(** The payload of a rejection and the ASGI messages that carry it. *)
Inductive payload := ErrorEnvelope (error : OpenAIErrorDetail) | Detail (message : string).
Inductive asgi_message :=
| ResponseStart (type : string) (status : Z) (headers : list (string * string))
| ResponseBody (type : string) (body : payload).

Definition encoded_headers (headers : option (dict string)) : list (string * string) :=
  ("content-type", "application/json") :: map (λ '(k, v), (py_lower k, v)) (default [] headers).

Definition send_json_http_response (status_code : Z) (p : payload) (headers : option (dict string))
    : list asgi_message :=
  [ResponseStart "http.response.start" status_code (encoded_headers headers);
   ResponseBody "http.response.body" p].

(** [event] is the type of the event received, [None] when [receive] raises. *)
Definition deny_websocket_with_http_response (event : option string) (status_code : Z) (p : payload)
    (headers : option (dict string)) : list asgi_message :=
  match event with
  | Some "websocket.connect" =>
      [ResponseStart "websocket.http.response.start" status_code (encoded_headers headers);
       ResponseBody "websocket.http.response.body" p]
  | _ => []
  end.

(** The rejection both middlewares send. *)
Definition reject (scope_type path : string) (event : option string) (status_code : Z)
    (error : string → OpenAIErrorDetail) (message : string) : list asgi_message :=
  let p := if is_proxy_path path then ErrorEnvelope (error message) else Detail message in
  let headers := Some (merge_retry_after_headers None LOCAL_OVERLOAD_RETRY_AFTER_SECONDS) in
  if String.eqb scope_type "websocket"
  then deny_websocket_with_http_response event status_code p headers
  else send_json_http_response status_code p headers.

End Overload.

(** ** Bulkhead *)
Module Bulkhead.
Import Overload.

Record BulkheadSemaphore := {
  _proxy_http : option Semaphore.Semaphore;
  _proxy_websocket : option Semaphore.Semaphore;
  _proxy_compact : option Semaphore.Semaphore;
  _dashboard : option Semaphore.Semaphore;
  _background : option Semaphore.Semaphore;
}.

Definition lane_semaphore (limit : Z) : option Semaphore.Semaphore :=
  if (0 <? limit)%Z then Some (Semaphore.new limit) else None.

Definition resolved_compact_limit (proxy_compact_limit : option Z) (resolved_proxy_http_limit : Z) : Z :=
  match proxy_compact_limit with
  | None => if (resolved_proxy_http_limit <=? 0)%Z then 0%Z else Z.min resolved_proxy_http_limit 16
  | Some limit => limit
  end.

Definition new (proxy_limit : option Z) (dashboard_limit background_limit : Z)
    (proxy_http_limit proxy_websocket_limit proxy_compact_limit : option Z) : BulkheadSemaphore :=
  let resolved_proxy_limit := default 200%Z proxy_limit in
  let http := default resolved_proxy_limit proxy_http_limit in
  {| _proxy_http := lane_semaphore http;
     _proxy_websocket := lane_semaphore (default resolved_proxy_limit proxy_websocket_limit);
     _proxy_compact := lane_semaphore (resolved_compact_limit proxy_compact_limit http);
     _dashboard := lane_semaphore dashboard_limit;
     _background := lane_semaphore background_limit |}.

Definition _is_compact_path (path : string) : bool := endswith "/responses/compact" path.

Inductive Lane := proxy_websocket | proxy_compact | proxy_http | dashboard.
#[global] Instance Lane_eq : EqDecision Lane.
Proof. solve_decision. Defined.

Definition lane_name (l : Lane) : string :=
  match l with
  | proxy_websocket => "proxy_websocket" | proxy_compact => "proxy_compact"
  | proxy_http => "proxy_http" | dashboard => "dashboard"
  end.

Definition lane_of (scope_type path : string) : Lane :=
  if String.eqb scope_type "websocket" && is_proxy_path path then proxy_websocket
  else if String.eqb scope_type "http" && _is_compact_path path then proxy_compact
  else if String.eqb scope_type "http" && is_proxy_path path then proxy_http
  else dashboard.

Definition semaphore_of (l : Lane) (b : BulkheadSemaphore) : option Semaphore.Semaphore :=
  match l with
  | proxy_websocket => _proxy_websocket b | proxy_compact => _proxy_compact b
  | proxy_http => _proxy_http b | dashboard => _dashboard b
  end.

Definition get_semaphore (scope_type path : string) (b : BulkheadSemaphore)
    : Lane * option Semaphore.Semaphore :=
  let l := lane_of scope_type path in (l, semaphore_of l b).

Definition set_semaphore (l : Lane) (s : Semaphore.Semaphore) (b : BulkheadSemaphore) : BulkheadSemaphore :=
  match l with
  | proxy_websocket => b {{ _proxy_websocket := Some s }}
  | proxy_compact => b {{ _proxy_compact := Some s }}
  | proxy_http => b {{ _proxy_http := Some s }}
  | dashboard => b {{ _dashboard := Some s }}
  end.

(** What [BulkheadMiddleware.__call__] does with a request before the
    application runs: hand it on without a permit, reject it, or run it
    holding a permit of a lane. *)
Inductive decision :=
| PassThrough
| Rejected (messages : list asgi_message)
| Granted (l : Lane).

(** The entry of [__call__] (lines 69-146).  The semaphore is not locked when
    [acquire] is reached, so the permit is taken without suspending. *)
Definition enter (scope_type path : string) (event : option string) (memory_pressure : bool)
    (b : BulkheadSemaphore) : BulkheadSemaphore * decision :=
  if negb (mem scope_type ["http"; "websocket"]) then (b, PassThrough)
  else if startswith "/health" path then (b, PassThrough)
  else if memory_pressure then
    (b, Rejected (reject scope_type path event 503 local_unavailable_error
                    "codex-lb is temporarily unavailable due to local memory pressure"))
  else
    let (lane, sem) := get_semaphore scope_type path b in
    match sem with
    | None => (b, PassThrough)
    | Some sem =>
        if Semaphore.locked sem then
          (b, Rejected (reject scope_type path event 429 local_overload_error
                ("codex-lb is temporarily overloaded in the " ++ lane_name lane ++ " lane")%string))
        else (set_semaphore lane (fst (Semaphore.acquire 0 sem)) b, Granted lane)
    end.

(** The [finally] clause: the application is done, whatever the outcome. *)
Definition leave (l : Lane) (b : BulkheadSemaphore) : BulkheadSemaphore :=
  match semaphore_of l b with
  | Some sem => set_semaphore l (Semaphore.release sem) b
  | None => b
  end.

End Bulkhead.

(** ** Backpressure *)
Module Backpressure.
Import Overload.

Inductive decision := PassThrough | Rejected (messages : list asgi_message) | Granted.

Definition enter (scope_type path : string) (event : option string) (s : Semaphore.Semaphore)
    : Semaphore.Semaphore * decision :=
  if negb (mem scope_type ["http"; "websocket"]) then (s, PassThrough)
  else if startswith "/health" path then (s, PassThrough)
  else if Semaphore.locked s then
    (s, Rejected (reject scope_type path event 429 local_overload_error
                    "codex-lb is temporarily overloaded by local backpressure"))
  else (fst (Semaphore.acquire 0 s), Granted).

Definition leave (s : Semaphore.Semaphore) : Semaphore.Semaphore := Semaphore.release s.

End Backpressure.

(** ** Work admission *)
Module WorkAdmission.
Import Overload.

(** [AdmissionLease]: whether it carries a semaphore and whether it was
    released. *)
Record AdmissionLease := { _semaphore : bool; _released : bool }.

(** [release] (also [__exit__] and [__del__]): the semaphore is released the
    first time only. *)
Definition release (lease : AdmissionLease) (s : Semaphore.Semaphore) : AdmissionLease * Semaphore.Semaphore :=
  if _released lease || negb (_semaphore lease) then (lease, s)
  else (lease {{ _released := true }}, Semaphore.release s).

Inductive Stage := token_refresh | upstream_websocket_connect | response_create | compact_response_create.

Definition stage_name (s : Stage) : string :=
  match s with
  | token_refresh => "token_refresh" | upstream_websocket_connect => "upstream_websocket_connect"
  | response_create => "response_create" | compact_response_create => "compact_response_create"
  end.

Record WorkAdmissionController := {
  _token_refresh : option Semaphore.Semaphore;
  _websocket_connect : option Semaphore.Semaphore;
  _response_create : option Semaphore.Semaphore;
  _compact_response_create : option Semaphore.Semaphore;
}.

Definition _make_gate (limit : Z) : option Semaphore.Semaphore :=
  if (limit <=? 0)%Z then None else Some (Semaphore.new limit).

Definition new (token_refresh_limit websocket_connect_limit response_create_limit
    compact_response_create_limit : Z) : WorkAdmissionController :=
  {| _token_refresh := _make_gate token_refresh_limit;
     _websocket_connect := _make_gate websocket_connect_limit;
     _response_create := _make_gate response_create_limit;
     _compact_response_create := _make_gate compact_response_create_limit |}.

Definition gate_of (st : Stage) (c : WorkAdmissionController) : option Semaphore.Semaphore :=
  match st with
  | token_refresh => _token_refresh c | upstream_websocket_connect => _websocket_connect c
  | response_create => _response_create c | compact_response_create => _compact_response_create c
  end.

(** [acquire_response_create]'s choice of stage. *)
Definition response_create_stage (compact : bool) : Stage :=
  if compact then compact_response_create else response_create.

(** One gate with its tasks: leases handed out (by index), tasks parked on
    the semaphore are its waiters, woken tasks its [woken] futures. *)
Record gate := { sem : Semaphore.Semaphore; leases : list AdmissionLease }.

(** What a task of [_acquire] does next, as one step of the gate. *)
Inductive event :=
| Acquire (fut : nat)          (* [_acquire] is called; [fut] is its future *)
| Resume (fut : nat)           (* its future was set: the lease is returned *)
| Timeout (fut : nat)          (* [wait_for] times out: the 429 is raised *)
| Release (i : nat).           (* [release], [__exit__] or [__del__] on lease [i] *)

Definition lease_taken : AdmissionLease := {| _semaphore := true; _released := false |}.

(** The 429 of a timed-out [_acquire]. *)
Definition timeout_error (st : Stage) : Z * OpenAIErrorDetail :=
  (429%Z, local_overload_error ("codex-lb is temporarily overloaded during " ++ stage_name st)%string).

Definition step (e : event) (g : gate) : gate :=
  match e with
  | Acquire fut =>
      let (s, now) := Semaphore.acquire fut (sem g) in
      {| sem := s; leases := if now then leases g ++ [lease_taken] else leases g |}
  | Resume fut =>
      if existsb (Nat.eqb fut) (Semaphore.woken (sem g))
      then {| sem := Semaphore.resume fut (sem g); leases := leases g ++ [lease_taken] |}
      else g
  | Timeout fut => g {{ sem := Semaphore.cancel fut (sem g) }}
  | Release i =>
      match leases g !! i with
      | Some lease =>
          let (lease', s) := release lease (sem g) in
          {| sem := s; leases := <[i := lease']> (leases g) |}
      | None => g
      end
  end.

End WorkAdmission.

(** ** Bulkhead facts *)
Module BulkheadFacts.
Import Overload Bulkhead.

Record limits := { lim_proxy : option Z; lim_dashboard : Z; lim_background : Z; lim_http : option Z;
                   lim_websocket : option Z; lim_compact : option Z }.

Definition make (c : limits) : BulkheadSemaphore :=
  new (lim_proxy c) (lim_dashboard c) (lim_background c) (lim_http c) (lim_websocket c) (lim_compact c).

Definition lane_limit (c : limits) (l : Lane) : Z :=
  let proxy := default 200%Z (lim_proxy c) in
  match l with
  | proxy_http => default proxy (lim_http c)
  | proxy_websocket => default proxy (lim_websocket c)
  | proxy_compact => resolved_compact_limit (lim_compact c) (default proxy (lim_http c))
  | dashboard => lim_dashboard c
  end.

(** The middleware and the requests whose application is running in a lane. *)
Inductive reachable (c : limits) : BulkheadSemaphore → list Lane → Prop :=
| reach_init : reachable c (make c) []
| reach_enter b running scope_type path event pressure b' d :
    reachable c b running → enter scope_type path event pressure b = (b', d) →
    reachable c b' (match d with Granted l => l :: running | _ => running end)
| reach_leave b l running1 running2 :
    reachable c b (running1 ++ l :: running2) → reachable c (leave l b) (running1 ++ running2).

Definition in_lane (l : Lane) (running : list Lane) : Z :=
  Z.of_nat (length (List.filter (λ l', bool_decide (l' = l)) running)).

(** A lane's semaphore counts the free places of the lane. *)
Definition lane_ok (c : limits) (b : BulkheadSemaphore) (running : list Lane) (l : Lane) : Prop :=
  if (0 <? lane_limit c l)%Z then
    ∃ v, semaphore_of l b = Some {| Semaphore._value := v; Semaphore._waiters := []; Semaphore.woken := [] |} ∧
         (v + in_lane l running = lane_limit c l)%Z ∧ (0 <= v)%Z
  else semaphore_of l b = None ∧ in_lane l running = 0%Z.

Lemma semaphore_of_set l l' s b :
  semaphore_of l (set_semaphore l' s b) = if bool_decide (l' = l) then Some s else semaphore_of l b.
Proof. by destruct l, l', b. Qed.

Lemma in_lane_cons l l' running :
  in_lane l (l' :: running) = (in_lane l running + if bool_decide (l' = l) then 1 else 0)%Z.
Proof. unfold in_lane. cbn [List.filter]. case_if; cbn [length]; lia. Qed.

Lemma in_lane_mid l l' r1 r2 :
  in_lane l (r1 ++ l' :: r2) = (in_lane l (r1 ++ r2) + if bool_decide (l' = l) then 1 else 0)%Z.
Proof.
  unfold in_lane. rewrite !List.filter_app, !length_app. cbn [List.filter]. case_if; cbn [length]; lia.
Qed.

Lemma reachable_lane_ok c b running : reachable c b running → ∀ l, lane_ok c b running l.
Proof.
  induction 1 as [|b running scope_type path event pressure b' d Hr IH He|b l0 r1 r2 Hr IH]; intros l.
  - unfold lane_ok. case_if; destruct l; unfold make, new, lane_semaphore; simpl in *; rewrite Hb;
      try done; eexists; split; try done; unfold in_lane; simpl; pyb; lia.
  - unfold enter, get_semaphore in He.
    repeat (case_if_in He; [by injection He as <- <-|]).
    destruct (semaphore_of (lane_of scope_type path) b) as [s|] eqn:Es; [|by injection He as <- <-].
    destruct (Semaphore.locked s) eqn:El; injection He as <- <-; [done|].
    set (l0 := lane_of scope_type path) in *. specialize (IH l) as IHl. specialize (IH l0).
    unfold lane_ok in *. rewrite semaphore_of_set, in_lane_cons.
    destruct (decide (l0 = l)) as [Heq|Hne].
    + subst l. rewrite !bool_decide_eq_true_2 by done. case_if; [|by rewrite Es in IH; destruct IH].
      destruct IH as (v & Hs & Hv & Hpos). rewrite Es in Hs. injection Hs as ->.
      unfold Semaphore.acquire. rewrite El. simpl.
      exists (v - 1)%Z. unfold Semaphore.locked in El. simpl in El. pyb. split_and!; try done; lia.
    + rewrite !bool_decide_eq_false_2 by done. by rewrite Z.add_0_r.
  - specialize (IH l) as IHl. specialize (IH l0). unfold lane_ok, leave in *.
    rewrite !in_lane_mid in *. destruct (decide (l0 = l)) as [Heq|Hne].
    + subst l. rewrite !bool_decide_eq_true_2 in * by done. case_if.
      * destruct IH as (v & Hs & Hv & Hpos). rewrite Hs. exists (v + 1)%Z. rewrite semaphore_of_set.
        rewrite bool_decide_eq_true_2 by done. simpl. split_and!; try done; lia.
      * destruct IH as [_ IH]. unfold in_lane in IH. lia.
    + rewrite (bool_decide_eq_false_2 (l0 = l)) in * by done. rewrite Z.add_0_r in *.
      destruct (semaphore_of l0 b); [|done]. rewrite semaphore_of_set, bool_decide_eq_false_2 by done. done.
Qed.

(** In every interleaving of arrivals and completions no lane runs more
    requests than its limit; a request to a limited lane is admitted exactly
    when its own lane has a free place, and rejected with 429 otherwise,
    whatever the load of the other lanes; health checks and unlimited lanes
    always pass; memory pressure rejects with 503. *)
Theorem bulkhead_isolation c b running scope_type path event pressure
    (Hreach : reachable c b running) (Hscope : mem scope_type ["http"; "websocket"] = true) :
  let l := lane_of scope_type path in
  (∀ l', (0 < lane_limit c l')%Z → (in_lane l' running <= lane_limit c l')%Z) ∧
  match snd (enter scope_type path event pressure b) with
  | PassThrough => startswith "/health" path = true ∨ (pressure = false ∧ (lane_limit c l <= 0)%Z)
  | Granted l' => l' = l ∧ pressure = false ∧ (in_lane l running < lane_limit c l)%Z
  | Rejected msgs =>
      (pressure = true ∧ msgs = reject scope_type path event 503 local_unavailable_error
          "codex-lb is temporarily unavailable due to local memory pressure") ∨
      (pressure = false ∧ in_lane l running = lane_limit c l ∧
       msgs = reject scope_type path event 429 local_overload_error
          ("codex-lb is temporarily overloaded in the " ++ lane_name l ++ " lane")%string)
  end.
Proof.
  cbv zeta. pose proof (reachable_lane_ok c b running Hreach) as Hok. split.
  { intros l' Hl. specialize (Hok l'). unfold lane_ok in Hok.
    assert ((0 <? lane_limit c l')%Z = true) as Hp by (by apply Z.ltb_lt). rewrite Hp in Hok.
    destruct Hok as (v & _ & ? & ?). lia. }
  unfold enter, get_semaphore. rewrite Hscope. simpl. case_if; [by left|].
  destruct pressure; [by left|]. specialize (Hok (lane_of scope_type path)). unfold lane_ok in Hok.
  case_if_in Hok; pyb.
  - destruct Hok as (v & -> & Hv & Hpos). unfold Semaphore.locked. simpl.
    destruct (Z.eqb_spec v 0); simpl; [right; split_and!; try done; lia|split_and!; try done; lia].
  - destruct Hok as [-> _]. simpl. right. split; [done|lia].
Qed.

Definition ex_limits : limits :=
  {| lim_proxy := None; lim_dashboard := 1; lim_background := 10; lim_http := Some 2%Z;
     lim_websocket := None; lim_compact := None |}.

Lemma bulkhead_isolation_witness :
  snd (enter "http" "/v1/responses" None false (make ex_limits)) = Granted proxy_http.
Proof.
  destruct (bulkhead_isolation ex_limits (make ex_limits) [] "http" "/v1/responses" None false) as [_ H];
    [apply reach_init|by vm_compute|]. by vm_compute.
Defined.

End BulkheadFacts.

(** ** Work admission facts *)
Module WorkAdmissionFacts.
Import WorkAdmission.

Definition outstanding (l : list AdmissionLease) : Z :=
  Z.of_nat (length (List.filter (λ x, _semaphore x && negb (_released x)) l)).

(** Permits are either free, on their way to a woken task, or held by an
    unreleased lease; tasks park only while no permit is free or a task
    woken before them has still to go on; and a future is parked or woken at
    most once. *)
Definition gate_inv (limit : Z) (g : gate) : Prop :=
  let s := sem g in
  (Semaphore._value s + Z.of_nat (length (Semaphore.woken s)) + outstanding (leases g) = limit)%Z ∧
  (0 <= Semaphore._value s)%Z ∧
  (Semaphore._waiters s ≠ [] → Semaphore.woken s = [] → Semaphore._value s = 0%Z) ∧
  NoDup (Semaphore._waiters s ++ Semaphore.woken s).

Definition parked (g : gate) : list nat := Semaphore._waiters (sem g) ++ Semaphore.woken (sem g).

Lemma outstanding_app l1 l2 : outstanding (l1 ++ l2) = (outstanding l1 + outstanding l2)%Z.
Proof. unfold outstanding. rewrite List.filter_app, length_app. lia. Qed.

Lemma outstanding_release l i lease :
  l !! i = Some lease → _released lease = false → _semaphore lease = true →
  outstanding (<[i := lease {{ _released := true }}]> l) = (outstanding l - 1)%Z.
Proof.
  intros Hi Hr Hs. rewrite <- (take_drop_middle l i lease Hi) at 2.
  rewrite insert_take_drop by (by eapply lookup_lt_Some). rewrite !outstanding_app.
  change (lease :: drop (S i) l) with ([lease] ++ drop (S i) l).
  change (lease {{ _released := true }} :: drop (S i) l) with ([lease {{ _released := true }}] ++ drop (S i) l).
  rewrite !outstanding_app. destruct lease; simpl in *; subst. unfold outstanding. simpl. lia.
Qed.

Definition remove_fut (fut : nat) (l : list nat) : list nat := List.filter (λ f, negb (Nat.eqb f fut)) l.

Lemma remove_fut_elem fut l x : x ∈ remove_fut fut l ↔ x ∈ l ∧ x ≠ fut.
Proof.
  unfold remove_fut. rewrite !list_elem_of_In, filter_In, negb_true_iff, Nat.eqb_neq. done.
Qed.

Lemma remove_fut_NoDup fut l : NoDup l → NoDup (remove_fut fut l).
Proof. rewrite !NoDup_ListNoDup. apply List.NoDup_filter. Qed.

Lemma remove_fut_length fut l : NoDup l → fut ∈ l → length l = S (length (remove_fut fut l)).
Proof.
  induction l as [|x l IH]; [set_solver|]. rewrite NoDup_cons. intros [Hx Hnd] Hin.
  unfold remove_fut. cbn [List.filter]. destruct (Nat.eqb_spec x fut) as [->|Hne]; simpl.
  - f_equal. fold (remove_fut fut l). clear -Hx. induction l as [|y l IH]; [done|].
    unfold remove_fut. cbn [List.filter]. destruct (Nat.eqb_spec y fut) as [->|]; [set_solver|].
    simpl. f_equal. apply IH. set_solver.
  - f_equal. apply IH; [done|]. set_solver.
Qed.

Lemma existsb_fut fut l : existsb (Nat.eqb fut) l = true ↔ fut ∈ l.
Proof.
  rewrite existsb_exists, list_elem_of_In. split.
  - intros (x & Hx & ->%Nat.eqb_eq). done.
  - intros H. exists fut. by rewrite Nat.eqb_refl.
Qed.

(** A permit given back goes to the first waiter, if any. *)
Lemma wake_inv limit v ws wk ls :
  (v + 1 + Z.of_nat (length wk) + outstanding ls = limit)%Z → (0 <= v)%Z → NoDup (ws ++ wk) →
  gate_inv limit {| sem := Semaphore._wake_up_next
    {| Semaphore._value := (v + 1)%Z; Semaphore._waiters := ws; Semaphore.woken := wk |}; leases := ls |}.
Proof.
  intros Hsum Hv Hnd. unfold gate_inv, Semaphore._wake_up_next. simpl.
  destruct ws as [|w ws]; simpl in *; [split_and!; try done; lia|].
  rewrite length_app. simpl. split_and!; [lia|lia|by intros _ [_ ?]%app_eq_nil|].
  rewrite app_assoc. apply NoDup_cons in Hnd as [Hnw Hnd]. apply NoDup_app. split; [done|].
  split; [|apply NoDup_singleton]. intros x Hx ->%list_elem_of_singleton. done.
Qed.

(** A task that leaves the queue wakes as many waiters as there are permits. *)
Lemma wake_free_inv limit v ws wk ls :
  (v + Z.of_nat (length wk) + outstanding ls = limit)%Z → (0 <= v)%Z → NoDup (ws ++ wk) →
  gate_inv limit {| sem := Semaphore.wake_free v ws wk; leases := ls |}.
Proof.
  intros Hsum Hv Hnd. destruct (Semaphore.wake_free_spec v ws wk) as (H1 & H2 & H3 & H4).
  unfold gate_inv. simpl. split_and!; [lia|auto| |by rewrite H4].
  intros Hw _. specialize (H2 Hv). specialize (H3 Hw). lia.
Qed.

Lemma remove_right ws wk fut : NoDup (ws ++ wk) → NoDup (ws ++ remove_fut fut wk).
Proof.
  intros (H1 & H2 & H3)%NoDup_app. apply NoDup_app. split_and!; [done| |by apply remove_fut_NoDup].
  intros x Hx [Hx' _]%remove_fut_elem. by apply (H2 x).
Qed.
Lemma remove_left ws wk fut : NoDup (ws ++ wk) → NoDup (remove_fut fut ws ++ wk).
Proof.
  intros (H1 & H2 & H3)%NoDup_app. apply NoDup_app. split_and!; [by apply remove_fut_NoDup| |done].
  intros x [Hx _]%remove_fut_elem. by apply H2.
Qed.

Lemma gate_step_inv limit g e :
  gate_inv limit g → (∀ fut, e = Acquire fut → fut ∉ parked g) → gate_inv limit (step e g).
Proof.
  destruct g as [[v ws wk] ls]. unfold parked. intros (Hsum & Hv & Hw & Hnd) Hfresh. simpl in *.
  destruct e as [fut|fut|fut|i]; simpl.
  - specialize (Hfresh fut eq_refl). unfold Semaphore.acquire.
    destruct (Semaphore.locked _) eqn:El; unfold Semaphore.locked in El; simpl in *.
    + unfold gate_inv. simpl. split_and!; try done.
      * intros _ ->. rewrite app_nil_r in El. destruct ws; [pyb; naive_solver|by apply Hw].
      * rewrite <- app_assoc. apply NoDup_app. apply NoDup_app in Hnd as (H1 & H2 & H3).
        split_and!; [done|set_solver|]. simpl. apply NoDup_cons. split; [set_solver|done].
    + destruct (ws ++ wk) as [|w l] eqn:E; [|by rewrite orb_true_r in El]. apply app_eq_nil in E as [-> ->].
      unfold gate_inv. simpl. rewrite outstanding_app. pyb.
      split_and!; try done; [unfold outstanding at 2; simpl in *|]; lia.
  - destruct (existsb _ wk) eqn:E; [|done]. apply existsb_fut in E.
    pose proof (remove_fut_length fut wk (proj2 (proj2 (proj1 (NoDup_app _ _) Hnd))) E) as Hlen.
    apply wake_free_inv; [|done|by apply remove_right].
    rewrite outstanding_app. unfold outstanding at 2. simpl. unfold remove_fut in Hlen. lia.
  - unfold Semaphore.cancel. destruct (existsb _ _) eqn:E; simpl in *.
    + apply existsb_fut in E. pose proof (remove_fut_length fut wk (proj2 (proj2 (proj1 (NoDup_app _ _) Hnd))) E) as Hlen.
      apply wake_free_inv; [unfold remove_fut in Hlen; lia|lia|by apply remove_right].
    + apply wake_free_inv; [done|done|by apply remove_left].
  - destruct (ls !! i) as [lease|] eqn:Ei; [|done]. unfold release.
    destruct (_released lease) eqn:Er; simpl; [by rewrite list_insert_id|].
    destruct (_semaphore lease) eqn:Es; simpl; [|by rewrite list_insert_id].
    pose proof (outstanding_release ls i lease Ei Er Es) as Ho. apply wake_inv; try done.
    destruct lease; simpl in *. lia.
Qed.

Definition new_gate (limit : Z) : gate := {| sem := Semaphore.new limit; leases := [] |}.

Definition run (events : list event) (g : gate) : gate := fold_left (λ g e, step e g) events g.

Definition acquired (events : list event) : list nat :=
  omap (λ e, match e with Acquire fut => Some fut | _ => None end) events.

Lemma parked_step e g x : x ∈ parked (step e g) → x ∈ parked g ∨ e = Acquire x.
Proof.
  assert (∀ v ws wk ls x, x ∈ parked {| sem := Semaphore.wake_free v ws wk; leases := ls |} → x ∈ ws ++ wk) as Hfree.
  { intros v ws wk l y. destruct (Semaphore.wake_free_spec v ws wk) as (_ & _ & _ & Hp). unfold parked. simpl.
    by rewrite Hp. }
  destruct g as [[v ws wk] ls]. destruct e as [fut|fut|fut|i]; simpl.
  - unfold Semaphore.acquire, parked. destruct (Semaphore.locked _); simpl; set_solver.
  - destruct (existsb _ _); [|by left]. intros H%Hfree. left. revert H. unfold parked. simpl. fold (remove_fut fut wk).
    rewrite !elem_of_app, remove_fut_elem. tauto.
  - unfold Semaphore.cancel. simpl. intros H. left. revert H. unfold parked at 2. simpl.
    destruct (existsb _ _); intros H%Hfree; revert H;
      [fold (remove_fut fut wk)|fold (remove_fut fut ws)]; rewrite !elem_of_app, remove_fut_elem; tauto.
  - destruct (ls !! i) as [lease|]; [|by left]. unfold release. destruct (_ || _); simpl; [by left|].
    unfold parked, Semaphore.release, Semaphore._wake_up_next. simpl. destruct ws; simpl; set_solver.
Qed.

(** C22. In every sequence of acquisitions, wake-ups, timeouts and releases
    (a lease may be released any number of times, and dropped) the permits of
    a gate are conserved: free permits, permits on their way to a woken task
    and unreleased leases add up to the limit, so at most [limit] leases are
    ever outstanding, and a task waits only while no permit is free or a task
    woken before it has still to go on. *)
Theorem admission_conserves_permits limit events
    (Hlimit : (0 < limit)%Z) (Hfresh : NoDup (acquired events)) :
  gate_inv limit (run events (new_gate limit)) ∧
  (outstanding (leases (run events (new_gate limit))) <= limit)%Z.
Proof.
  assert (∀ events g, gate_inv limit g → NoDup (acquired events) → (∀ x, x ∈ acquired events → x ∉ parked g) →
    gate_inv limit (run events g)) as Hrun.
  { clear. induction events as [|e events IH]; intros g Hg Hnd Hf; [done|]. unfold run. cbn [fold_left].
    change (gate_inv limit (run events (step e g))). apply IH.
    - apply gate_step_inv; [done|]. intros fut ->. apply Hf. by left.
    - destruct e; simpl in Hnd; [by apply NoDup_cons in Hnd as [_ ?]|done..].
    - intros x Hx Hp. apply parked_step in Hp as [Hp| ->].
      + apply (Hf x); [destruct e; simpl; set_solver|done].
      + simpl in Hnd. apply NoDup_cons in Hnd as [Hn _]. done. }
  assert (gate_inv limit (run events (new_gate limit))) as Hinv.
  { apply Hrun; [|done|simpl; set_solver]. unfold gate_inv. simpl. split_and!; try done; [|lia|constructor].
    unfold outstanding. simpl. lia. }
  split; [done|]. destruct Hinv as (Hsum & Hv & _). lia.
Qed.

Lemma admission_conserves_permits_witness :
  (outstanding (leases (run [Acquire 1; Acquire 2; Release 0; Release 0; Resume 2; Acquire 3; Timeout 3]
    (new_gate 1))) <= 1)%Z.
Proof.
  apply (admission_conserves_permits 1
    [Acquire 1; Acquire 2; Release 0; Release 0; Resume 2; Acquire 3; Timeout 3]); [lia|].
  simpl. repeat (apply NoDup_cons; split; [set_solver|]). apply NoDup_nil_2.
Defined.

End WorkAdmissionFacts.
