(* ===== verification/ApiKeys.v ===== *)
(** API keys: limit windows ([src/app/modules/api_keys/limit_windows.py]), the
    tables and statements of [repository.py], and the usage reservations,
    limit enforcement and limit rows of [service.py].

    A table is the list of its rows; an [UPDATE] maps over the rows its
    [WHERE] clause selects.  Each service operation is one transaction and one
    state transformer; a raised exception returns the state the rollback
    leaves.  On an SQLite file the code makes it so with a writer lock;
    [sqlite_writer_section] does nothing on other databases, where only the
    conditions of the single statements protect the counters: interleavings
    of the statements of two transactions are not modelled.  Timestamps are
    microseconds. *)

From stdpp Require Import sorting.
From S2P Require Import Prelude Models Pricing.
Import Pricing.Pricing.

(** ** Limit windows *)
Module LimitWindows.

Definition hours (n : Z) : Z := seconds (n * 3600).
Definition days (n : Z) : Z := seconds (n * 86400).

Definition limit_window_delta (window : LimitWindow) : Z :=
  match window with
  | FIVE_HOURS => hours 5
  | SEVEN_DAYS => days 7
  | DAILY => days 1
  | WEEKLY => days 7
  | MONTHLY => days 30
  end.

Definition next_limit_reset (now : Z) (window : LimitWindow) : Z :=
  match window with
  | FIVE_HOURS => (now + hours 5)%Z
  | SEVEN_DAYS => (now + days 7)%Z
  | DAILY => (now + days 1)%Z
  | WEEKLY => (now + days 7)%Z
  | MONTHLY => (now + days 30)%Z
  end.

(** The [while] loop; out of fuel it stops where it is. *)
Fixpoint advance_loop (fuel : nat) (next_reset now delta : Z) : Z :=
  if (next_reset <=? now)%Z then
    match fuel with
    | O => next_reset
    | S fuel => advance_loop fuel (next_reset + delta)%Z now delta
    end
  else next_reset.

Definition advance_limit_reset (reset_at now : Z) (window : LimitWindow) : Z :=
  let delta := limit_window_delta window in
  advance_loop (Z.to_nat ((now - reset_at) / delta + 1)) reset_at now delta.

End LimitWindows.

(** ** Tables and repository *)
Module Repository.
Import LimitWindows.

Record ApiKey := {
  key_id : string;
  is_active : bool;
  expires_at : option Z;
  last_used_at : option Z;
}.

Record ApiKeyLimit := {
  limit_id : Z;
  api_key_id : string;
  limit_type : LimitType;
  limit_window : LimitWindow;
  max_value : Z;
  current_value : Z;
  model_filter : option string;
  reset_at : Z;
}.

Record ReservationItem := {
  item_limit_id : Z;
  item_limit_type : LimitType;
  reserved_delta : Z;
  expected_reset_at : Z;
  actual_delta : option Z;
}.

Inductive ReservationStatus := Reserved | Settling | Finalized | Failed | Released.
#[global] Instance ReservationStatus_eq : EqDecision ReservationStatus.
Proof. solve_decision. Defined.

Record Reservation := {
  reservation_id : string;
  res_key_id : string;
  res_model : string;
  res_status : ReservationStatus;
  items : list ReservationItem;
  res_input_tokens : option Z;
  res_output_tokens : option Z;
  res_cached_input_tokens : option Z;
  res_cost_microdollars : option Z;
  updated_at : Z;
}.

Record DB := {
  keys : list ApiKey;
  limits : list ApiKeyLimit;
  reservations : list Reservation;
}.

Definition get_by_id (k : string) (db : DB) : option ApiKey :=
  List.find (λ r, String.eqb (key_id r) k) (keys db).

Definition get_limits_by_key (k : string) (db : DB) : list ApiKeyLimit :=
  List.filter (λ l, String.eqb (api_key_id l) k) (limits db).

Definition update_last_used (k : string) (now : Z) (db : DB) : DB :=
  db {{ keys := update_where (λ r, String.eqb (key_id r) k) (λ r, r {{ last_used_at := Some now }}) (keys db) }}.

Definition _compute_increment (t : LimitType) (input_tokens output_tokens cost_microdollars : Z) : Z :=
  match t with
  | TOTAL_TOKENS => (input_tokens + output_tokens)%Z
  | INPUT_TOKENS => input_tokens
  | OUTPUT_TOKENS => output_tokens
  | COST_USD => cost_microdollars
  | CREDITS => 0%Z
  end.

Definition increment_limit (l : ApiKeyLimit) (model : string) (input_tokens output_tokens cost : Z) (db : DB) : DB :=
  if match model_filter l with Some m => negb (String.eqb m model) | None => false end then db
  else
    let increment := _compute_increment (limit_type l) input_tokens output_tokens cost in
    if (0 <? increment)%Z
    then db {{ limits := update_where (λ r, (limit_id r =? limit_id l)%Z)
                           (λ r, r {{ current_value := (current_value r + increment)%Z }}) (limits db) }}
    else db.

Definition increment_limit_usage (k model : string) (input_tokens output_tokens cost now : Z) (db : DB) : DB :=
  let db := fold_left (λ db l, increment_limit l model input_tokens output_tokens cost db)
              (get_limits_by_key k db) db in
  update_last_used k now db.

(** Rows whose window is still the one the caller saw. *)
Definition in_window (id expected : Z) (l : ApiKeyLimit) : bool :=
  (limit_id l =? id)%Z && (reset_at l =? expected)%Z.

Definition reset_limit (id expected new_reset_at : Z) (db : DB) : DB * bool :=
  (db {{ limits := update_where (in_window id expected)
                     (λ l, l {{ current_value := 0%Z; reset_at := new_reset_at }}) (limits db) }},
   any_where (in_window id expected) (limits db)).

Definition can_reserve (id expected delta : Z) (l : ApiKeyLimit) : bool :=
  in_window id expected l && (current_value l + delta <=? max_value l)%Z.

Definition try_reserve_usage (id delta expected : Z) (db : DB) : DB * bool :=
  if (delta <=? 0)%Z then (db, true)
  else (db {{ limits := update_where (can_reserve id expected delta)
                          (λ l, l {{ current_value := (current_value l + delta)%Z }}) (limits db) }},
        any_where (can_reserve id expected delta) (limits db)).

Definition can_adjust (id expected delta : Z) (l : ApiKeyLimit) : bool :=
  in_window id expected l && (if (delta <? 0)%Z then (- delta <=? current_value l)%Z else true).

Definition adjust_reserved_usage (id delta expected : Z) (db : DB) : DB :=
  db {{ limits := update_where (can_adjust id expected delta)
                    (λ l, l {{ current_value := (current_value l + delta)%Z }}) (limits db) }}.

(** [now] is the [func.now()] of the [updated_at] column. *)
Definition create_usage_reservation (id k model : string) (its : list ReservationItem) (now : Z) (db : DB) : DB :=
  db {{ reservations := reservations db ++
          [{| reservation_id := id; res_key_id := k; res_model := model; res_status := Reserved;
              items := its; res_input_tokens := None; res_output_tokens := None;
              res_cached_input_tokens := None; res_cost_microdollars := None; updated_at := now |}] }}.

Definition get_usage_reservation (id : string) (db : DB) : option Reservation :=
  List.find (λ r, String.eqb (reservation_id r) id) (reservations db).

Definition has_status (id : string) (st : ReservationStatus) (r : Reservation) : bool :=
  String.eqb (reservation_id r) id && bool_decide (res_status r = st).

Definition transition_usage_reservation_status (id : string) (expected new : ReservationStatus) (now : Z) (db : DB)
    : DB * bool :=
  (db {{ reservations := update_where (has_status id expected)
                           (λ r, r {{ res_status := new; updated_at := now }}) (reservations db) }},
   any_where (has_status id expected) (reservations db)).

(** [INSERT ... ON CONFLICT (reservation_id, limit_id) DO UPDATE SET
    actual_delta]. *)
Definition upsert_item (it : ReservationItem) (actual : Z) (its : list ReservationItem) : list ReservationItem :=
  if existsb (λ i, (item_limit_id i =? item_limit_id it)%Z) its
  then update_where (λ i, (item_limit_id i =? item_limit_id it)%Z) (λ i, i {{ actual_delta := Some actual }}) its
  else its ++ [it {{ actual_delta := Some actual }}].

Definition upsert_reservation_item_actual (id : string) (it : ReservationItem) (actual : Z) (db : DB) : DB :=
  db {{ reservations := update_where (λ r, String.eqb (reservation_id r) id)
                          (λ r, r {{ items := upsert_item it actual (items r) }}) (reservations db) }}.

Definition settle_usage_reservation (id : string) (st : ReservationStatus)
    (input output cached cost : option Z) (now : Z) (db : DB) : DB :=
  db {{ reservations := update_where (λ r, String.eqb (reservation_id r) id)
          (λ r, r {{ res_status := st; res_input_tokens := input; res_output_tokens := output;
                     res_cached_input_tokens := cached; res_cost_microdollars := cost; updated_at := now }})
          (reservations db) }}.

Definition touch_usage_reservation (id : string) (now : Z) (db : DB) : DB * bool :=
  (db {{ reservations := update_where (has_status id Reserved) (λ r, r {{ updated_at := now }}) (reservations db) }},
   any_where (has_status id Reserved) (reservations db)).

(** *** Batch jobs *)

Definition EXPIRED_LIMIT_RESET_BATCH_SIZE : nat := 500.

Definition expired_before (now : Z) (l : ApiKeyLimit) : bool := (reset_at l <? now)%Z.

(** [ORDER BY reset_at, id]. *)
Definition reset_order (a b : ApiKeyLimit) : Prop :=
  pylt (reset_at b, limit_id b) (reset_at a, limit_id a) = false.
#[global] Instance reset_order_dec : RelDecision reset_order.
Proof. intros a b. unfold reset_order. apply _. Defined.

Definition reset_expired_row (now : Z) (acc : DB * Z) (l : ApiKeyLimit) : DB * Z :=
  let (db, count) := acc in
  let (db, updated) := reset_limit (limit_id l) (reset_at l)
                         (advance_limit_reset (reset_at l) now (limit_window l)) db in
  (db, if updated then (count + 1)%Z else count).

(** The [while True] loop of [reset_expired_limits]; [None] when the fuel
    runs out before a batch comes back empty. *)
Fixpoint reset_expired_loop (fuel : nat) (now : Z) (db : DB) (count : Z) : option (DB * Z) :=
  let batch := take EXPIRED_LIMIT_RESET_BATCH_SIZE
                 (merge_sort reset_order (List.filter (expired_before now) (limits db))) in
  match batch, fuel with
  | [], _ => Some (db, count)
  | _, O => None
  | _, S fuel =>
      let (db, count) := fold_left (reset_expired_row now) batch (db, count) in
      reset_expired_loop fuel now db count
  end.

Definition reset_expired_limits (now : Z) (db : DB) : option (DB * Z) :=
  reset_expired_loop (S (length (limits db))) now db 0.

Definition stale (cutoff : Z) (r : Reservation) : bool :=
  bool_decide (res_status r = Reserved) && (updated_at r <? cutoff)%Z.

Definition updated_order (a b : Reservation) : Prop := pylt (updated_at b) (updated_at a) = false.
#[global] Instance updated_order_dec : RelDecision updated_order.
Proof. intros a b. unfold updated_order. apply _. Defined.

Definition release_item (id : string) (db : DB) (it : ReservationItem) : DB :=
  let db := adjust_reserved_usage (item_limit_id it) (- reserved_delta it)%Z (expected_reset_at it) db in
  upsert_reservation_item_actual id it 0 db.

(** One reservation of a batch: claim it, give its reservations back. *)
Definition release_stale_row (now cutoff : Z) (acc : DB * Z) (r : Reservation) : DB * Z :=
  let (db, count) := acc in
  let p := λ r', String.eqb (reservation_id r') (reservation_id r) && stale cutoff r' in
  let claimed := any_where p (reservations db) in
  let db := db {{ reservations := update_where p
      (λ r', r' {{ res_status := Released; res_input_tokens := None; res_output_tokens := None;
                   res_cached_input_tokens := None; res_cost_microdollars := None; updated_at := now }})
      (reservations db) }} in
  if negb claimed then (db, count)
  else (fold_left (release_item (reservation_id r)) (items r) db, (count + 1)%Z).

Fixpoint release_stale_loop (fuel : nat) (now cutoff : Z) (batch_size : nat) (db : DB) (count : Z)
    : option (DB * Z) :=
  let batch := take batch_size (merge_sort updated_order (List.filter (stale cutoff) (reservations db))) in
  match batch, fuel with
  | [], _ => Some (db, count)
  | _, O => None
  | _, S fuel =>
      let (db, count) := fold_left (release_stale_row now cutoff) batch (db, count) in
      release_stale_loop fuel now cutoff batch_size db count
  end.

Definition release_stale_usage_reservations (now cutoff : Z) (batch_size : nat) (db : DB) : option (DB * Z) :=
  release_stale_loop (S (length (reservations db))) now cutoff batch_size db 0.

(** *** Limit rows of a key *)

Definition limit_key := (LimitType * LimitWindow * option string)%type.
Definition _limit_key (l : ApiKeyLimit) : limit_key := (limit_type l, limit_window l, model_filter l).

(** [{_limit_key(l): l for l in existing}.get(key)]: the last row of the key. *)
Definition find_limit (key : limit_key) (existing : list ApiKeyLimit) : option ApiKeyLimit :=
  List.find (λ l, bool_decide (_limit_key l = key)) (rev existing).

(** One incoming row; [fresh] numbers the rows that are inserted. *)
Definition upsert_limit (k : string) (existing : list ApiKeyLimit) (acc : DB * Z) (incoming : ApiKeyLimit)
    : DB * Z :=
  let (db, fresh) := acc in
  match find_limit (_limit_key incoming) existing with
  | None => (db {{ limits := limits db ++ [incoming {{ api_key_id := k; limit_id := fresh }}] }}, (fresh + 1)%Z)
  | Some matched =>
      (db {{ limits := update_where (λ l, (limit_id l =? limit_id matched)%Z)
               (λ l, l {{ max_value := max_value incoming; current_value := current_value incoming;
                          reset_at := reset_at incoming }}) (limits db) }}, fresh)
  end.

(** Existing rows whose key is not among the incoming ones are deleted. *)
Definition obsolete (existing incoming : list ApiKeyLimit) (l : ApiKeyLimit) : bool :=
  existsb (λ old, (limit_id old =? limit_id l)%Z
             && negb (existsb (λ i, bool_decide (_limit_key i = _limit_key old)) incoming)) existing.

Definition upsert_limits (k : string) (fresh : Z) (incoming : list ApiKeyLimit) (db : DB) : DB :=
  let existing := get_limits_by_key k db in
  let (db', _) := fold_left (upsert_limit k existing) incoming (db, fresh) in
  db' {{ limits := List.filter (λ l, negb (obsolete existing incoming l)) (limits db') }}.

End Repository.

(** ** Service *)
Module Service.
Import LimitWindows Repository.

Definition API_KEY_USAGE_RESERVATION_MAX_TOKEN_BUDGET : Z := 8192.
Definition API_KEY_USAGE_RESERVATION_DEFAULT_INPUT_TOKENS : Z := API_KEY_USAGE_RESERVATION_MAX_TOKEN_BUDGET.
Definition API_KEY_USAGE_RESERVATION_DEFAULT_OUTPUT_TOKENS : Z := 2048.
Definition UNKNOWN_MODEL_MICRODOLLARS : Z := 2000000.
Definition UNKNOWN_MODEL_BASE_TOKENS : Z := API_KEY_USAGE_RESERVATION_MAX_TOKEN_BUDGET * 2.

Inductive ApiKeyError :=
| ApiKeyInvalidError (message : string)
| ApiKeyRateLimitExceededError (message : string) (reset_at : Z)
| ServiceValueError (message : string).

(** *** Costs and budgets *)

Definition _calculate_cost_microdollars (model : string) (input_tokens output_tokens cached_input_tokens : Z)
    (service_tier : option string) : Z :=
  match get_pricing_for_model model [] [] with
  | None => 0%Z
  | Some (_, price) =>
      let usage := {| input_tokens := inject_Z input_tokens; output_tokens := inject_Z output_tokens;
                      cached_input_tokens := inject_Z cached_input_tokens |} in
      match calculate_cost_from_usage (Tokens usage) price service_tier with
      | None => 0%Z
      | Some cost_usd => py_int (cost_usd * 1000000)%Q
      end
  end.

Definition _unknown_model_reserve_cost_budget_microdollars (input_tokens output_tokens : Z) : Z :=
  let token_budget := (Z.max 0 input_tokens + Z.max 0 output_tokens)%Z in
  if (token_budget <=? 0)%Z then 0%Z
  else Qceiling (inject_Z (UNKNOWN_MODEL_MICRODOLLARS * token_budget) / inject_Z UNKNOWN_MODEL_BASE_TOKENS)%Q.

Definition _reserve_cost_budget_microdollars (model service_tier : option string)
    (input_tokens output_tokens : Z) : Z :=
  match none_if_empty (default "" model) with
  | None => _unknown_model_reserve_cost_budget_microdollars input_tokens output_tokens
  | Some m =>
      let cost := _calculate_cost_microdollars m input_tokens output_tokens 0 service_tier in
      if (0 <? cost)%Z then cost
      else _unknown_model_reserve_cost_budget_microdollars input_tokens output_tokens
  end.

Record ApiKeyRequestUsageBudget := { budget_input_tokens : option Z; budget_output_tokens : option Z }.

Definition _normalize_reservation_token_budget (value : option Z) (dflt : Z) : Z :=
  match value with
  | None => dflt
  | Some v => Z.max 0 (Z.min v API_KEY_USAGE_RESERVATION_MAX_TOKEN_BUDGET)
  end.

Definition _normalize_request_usage_budget (budget : option ApiKeyRequestUsageBudget) : ApiKeyRequestUsageBudget :=
  match budget with
  | None =>
      {| budget_input_tokens := Some API_KEY_USAGE_RESERVATION_DEFAULT_INPUT_TOKENS;
         budget_output_tokens := Some API_KEY_USAGE_RESERVATION_DEFAULT_OUTPUT_TOKENS |}
  | Some b =>
      {| budget_input_tokens := Some (_normalize_reservation_token_budget (budget_input_tokens b)
                                        API_KEY_USAGE_RESERVATION_DEFAULT_INPUT_TOKENS);
         budget_output_tokens := Some (_normalize_reservation_token_budget (budget_output_tokens b)
                                         API_KEY_USAGE_RESERVATION_DEFAULT_OUTPUT_TOKENS) |}
  end.

Definition _reserve_budget_for_limit_type (t : LimitType) (request_model request_service_tier : option string)
    (budget : ApiKeyRequestUsageBudget) : Z :=
  let input := or_z (budget_input_tokens budget) 0 in
  let output := or_z (budget_output_tokens budget) 0 in
  match t with
  | TOTAL_TOKENS => (input + output)%Z
  | INPUT_TOKENS => input
  | OUTPUT_TOKENS => output
  | COST_USD => _reserve_cost_budget_microdollars request_model request_service_tier input output
  | CREDITS => 0%Z
  end.

Definition _limit_applies_for_request (l : ApiKeyLimit) (request_model : option string) : bool :=
  match model_filter l, request_model with
  | None, _ => true
  | Some _, None => false
  | Some f, Some m => String.eqb f m
  end.

Definition _reserve_delta_for_limit (l : ApiKeyLimit) (request_model request_service_tier : option string)
    (budget : ApiKeyRequestUsageBudget) : Z :=
  let remaining := (max_value l - current_value l)%Z in
  if (remaining <=? 0)%Z then 0%Z
  else Z.min remaining
         (_reserve_budget_for_limit_type (limit_type l) request_model request_service_tier budget).

Definition _compute_increment_for_limit_type (t : LimitType) (input_tokens output_tokens cost : Z) : Z :=
  match t with
  | TOTAL_TOKENS => (input_tokens + output_tokens)%Z
  | INPUT_TOKENS => input_tokens
  | OUTPUT_TOKENS => output_tokens
  | COST_USD => cost
  | CREDITS => 0%Z
  end.

(** *** Enforcement *)

Definition _ensure_valid_api_key_row (row : option ApiKey) : res ApiKeyError ApiKey :=
  match row with
  | Some r => if is_active r then Ok r else Err (ApiKeyInvalidError "Invalid API key")
  | None => Err (ApiKeyInvalidError "Invalid API key")
  end.

Definition expired_at (now : Z) (row : ApiKey) : bool :=
  match expires_at row with Some e => (e <? now)%Z | None => false end.

Definition _lazy_reset_limit (now : Z) (acc : DB * bool) (l : ApiKeyLimit) : DB * bool :=
  let (db, performed) := acc in
  if (now <=? reset_at l)%Z then (db, performed)
  else (fst (reset_limit (limit_id l) (reset_at l)
               (advance_limit_reset (reset_at l) now (limit_window l)) db), true).

Definition _lazy_reset_expired_limits (ls : list ApiKeyLimit) (now : Z) (db : DB) : DB * bool :=
  fold_left (_lazy_reset_limit now) ls (db, false).

Definition _rate_limit_exceeded_error (l : ApiKeyLimit) : ApiKeyError :=
  ApiKeyRateLimitExceededError
    ("API key " ++ limit_type_value (limit_type l) ++ " " ++ limit_window_value (limit_window l) ++ " limit exceeded"
     ++ match model_filter l with
        | Some m => if String.eqb m "" then "" else " for model " ++ m
        | None => ""
        end)%string
    (reset_at l).

Record Request := {
  request_model : option string;
  request_service_tier : option string;
  request_usage_budget : option ApiKeyRequestUsageBudget;
}.

(** One limit of the enforcement loop: the state and the items so far. *)
Definition reserve_limit (rq : Request) (budget : ApiKeyRequestUsageBudget)
    (acc : DB * list ReservationItem) (l : ApiKeyLimit) : res ApiKeyError (DB * list ReservationItem) :=
  let (db, its) := acc in
  if negb (_limit_applies_for_request l (request_model rq)) then Ok (db, its)
  else if (max_value l <=? current_value l)%Z then Err (_rate_limit_exceeded_error l)
  else
    let reserve_delta := _reserve_delta_for_limit l (request_model rq) (request_service_tier rq) budget in
    let item := {| item_limit_id := limit_id l; item_limit_type := limit_type l;
                   reserved_delta := reserve_delta; expected_reset_at := reset_at l; actual_delta := None |} in
    if (0 <? reserve_delta)%Z then
      match try_reserve_usage (limit_id l) reserve_delta (reset_at l) db with
      | (_, false) => Err (_rate_limit_exceeded_error l)
      | (db, true) => Ok (db, its ++ [item])
      end
    else Ok (db, its ++ [item]).

Fixpoint reserve_limits (rq : Request) (budget : ApiKeyRequestUsageBudget) (ls : list ApiKeyLimit)
    (acc : DB * list ReservationItem) : res ApiKeyError (DB * list ReservationItem) :=
  match ls with
  | [] => Ok acc
  | l :: rest =>
      match reserve_limit rq budget acc l with
      | Ok acc => reserve_limits rq budget rest acc
      | Err e => Err e
      end
  end.

(** [_enforce_limits_for_request_once]; [fresh] is the new reservation id.
    The lazy resets are committed before the reservations are tried, so they
    survive the rollback. *)
Definition _enforce_limits_for_request_once (k : string) (rq : Request) (fresh : string) (now : Z) (db : DB)
    : DB * res ApiKeyError string :=
  match _ensure_valid_api_key_row (get_by_id k db) with
  | Err e => (db, Err e)
  | Ok row =>
      if expired_at now row then (db, Err (ApiKeyInvalidError "API key has expired"))
      else
        let (db, limits_reset) := _lazy_reset_expired_limits (get_limits_by_key k db) now db in
        match (if limits_reset then _ensure_valid_api_key_row (get_by_id k db) else Ok row) with
        | Err e => (db, Err e)
        | Ok refreshed =>
            if expired_at now refreshed then (db, Err (ApiKeyInvalidError "API key has expired"))
            else
              let budget := _normalize_request_usage_budget (request_usage_budget rq) in
              match reserve_limits rq budget (get_limits_by_key k db) (db, []) with
              | Err e => (db, Err e)
              | Ok (db', its) =>
                  (create_usage_reservation fresh k (default "" (request_model rq)) its now db', Ok fresh)
              end
        end
  end.

(** *** Retries on a locked database *)

Definition _SQLITE_BUSY_RETRY_ATTEMPTS : nat := 4.

Definition _is_sqlite_database_locked (message : string) : bool :=
  let message := py_lower message in
  contains "database is locked" message || contains "database table is locked" message
  || contains "database schema is locked" message.

(** How an attempt fails: the message of the [OperationalError] and what the
    attempt had committed before it (the rest is rolled back). *)
Record fault := { fault_message : string; committed : DB → DB }.

(** The retry loop around the service operations from attempt [attempt] on:
    [faults n] is how attempt [n] fails, if it does, [delays] the sleeps so
    far in tenths of a second.  [None] is the unreachable end of the loop. *)
Fixpoint retry_loop {A} (tries attempt : nat) (faults : nat → option fault) (run : DB → DB * A) (db : DB)
    (delays : list Z) : option (DB * res string A * list Z) :=
  match tries with
  | O => None
  | S tries =>
      match faults attempt with
      | None => let (db, r) := run db in Some (db, Ok r, delays)
      | Some f =>
          let db := committed f db in
          if negb (_is_sqlite_database_locked (fault_message f))
             || Nat.eqb attempt (_SQLITE_BUSY_RETRY_ATTEMPTS - 1)
          then Some (db, Err (fault_message f), delays)
          else retry_loop tries (S attempt) faults run db (delays ++ [2 ^ Z.of_nat attempt]%Z)
      end
  end.

Definition with_busy_retry {A} (faults : nat → option fault) (run : DB → DB * A) (db : DB)
    : option (DB * res string A * list Z) :=
  retry_loop _SQLITE_BUSY_RETRY_ATTEMPTS 0 faults run db [].

Definition enforce_limits_for_request (faults : nat → option fault) (k : string) (rq : Request)
    (fresh : string) (now : Z) (db : DB) : option (DB * res string (res ApiKeyError string) * list Z) :=
  with_busy_retry faults (_enforce_limits_for_request_once k rq fresh now) db.

(** *** Settlement *)

Definition settle_item (id : string) (input output cost : Z) (db : DB) (it : ReservationItem) : DB :=
  let actual := _compute_increment_for_limit_type (item_limit_type it) input output cost in
  let delta := (actual - reserved_delta it)%Z in
  let db := if negb (delta =? 0)%Z
            then adjust_reserved_usage (item_limit_id it) delta (expected_reset_at it) db else db in
  upsert_reservation_item_actual id it actual db.

Definition _settle_usage_reservation (id model : string) (input output cached : option Z)
    (service_tier : option string) (st : ReservationStatus) (now : Z) (db : DB) : DB :=
  match get_usage_reservation id db with
  | None => db
  | Some r =>
      if negb (bool_decide (res_status r = Reserved)) then db
      else
        let (db1, claimed) := transition_usage_reservation_status id Reserved Settling now db in
        if negb claimed then db
        else
          let i := or_z input 0 in
          let o := or_z output 0 in
          let cost := _calculate_cost_microdollars model i o (or_z cached 0) service_tier in
          let db := fold_left (settle_item id i o cost) (items r) db1 in
          let db := settle_usage_reservation id st input output cached (Some cost) now db in
          update_last_used (res_key_id r) now db
  end.

Definition finalize_usage_reservation (id model : string) (input output cached : Z)
    (service_tier : option string) (now : Z) (db : DB) : DB :=
  _settle_usage_reservation id model (Some input) (Some output) (Some cached) service_tier Finalized now db.

Definition fail_usage_reservation (id model : string) (input output cached : option Z)
    (service_tier : option string) (now : Z) (db : DB) : DB :=
  _settle_usage_reservation id model input output cached service_tier Failed now db.

Definition release_usage_reservation (id : string) (now : Z) (db : DB) : DB :=
  match get_usage_reservation id db with
  | None => db
  | Some r =>
      if negb (bool_decide (res_status r = Reserved)) then db
      else
        let (db1, claimed) := transition_usage_reservation_status id Reserved Released now db in
        if negb claimed then db
        else
          let db := fold_left (release_item id) (items r) db1 in
          settle_usage_reservation id Released None None None None now db
  end.

Definition record_usage (k model : string) (input output cached : Z) (service_tier : option string)
    (now : Z) (db : DB) : DB :=
  let cost := _calculate_cost_microdollars model input output cached service_tier in
  increment_limit_usage k model input output cost now db.

(** *** Limit rules *)

Record LimitRuleInput := {
  in_limit_type : string;
  in_limit_window : string;
  in_max_value : Z;
  in_model_filter : option string;
}.

Definition _limit_input_to_row (li : LimitRuleInput) (k : string) (now : Z) (current : Z) (reset : option Z)
    : res ApiKeyError ApiKeyLimit :=
  match limit_window_of (in_limit_window li) with
  | None => Err (ServiceValueError "not a valid LimitWindow")
  | Some window =>
      if String.eqb (in_limit_type li) (limit_type_value CREDITS)
         && match in_model_filter li with Some _ => true | None => false end
      then Err (ServiceValueError "credits limits do not support model_filter")
      else match limit_type_of (in_limit_type li) with
           | None => Err (ServiceValueError "not a valid LimitType")
           | Some t =>
               Ok {| limit_id := 0; api_key_id := k; limit_type := t; limit_window := window;
                     max_value := in_max_value li; current_value := current;
                     model_filter := in_model_filter li;
                     reset_at := match reset with Some r => r | None => next_limit_reset now window end |}
           end
  end.

Definition limit_identity := (string * string * option string)%type.
Definition _limit_identity_from_input (li : LimitRuleInput) : limit_identity :=
  (in_limit_type li, in_limit_window li, in_model_filter li).
Definition _limit_identity_from_row (l : ApiKeyLimit) : limit_identity :=
  (limit_type_value (limit_type l), limit_window_value (limit_window l), model_filter l).

(** The last existing row of an identity, as in the dict comprehension. *)
Definition existing_by_key (existing : list ApiKeyLimit) (id : limit_identity) : option ApiKeyLimit :=
  List.find (λ l, bool_decide (_limit_identity_from_row l = id)) (rev existing).

Definition update_row (k : string) (now : Z) (existing : list ApiKeyLimit) (reset_usage : bool)
    (li : LimitRuleInput) : res ApiKeyError ApiKeyLimit :=
  match existing_by_key existing (_limit_identity_from_input li) with
  | Some matched =>
      if reset_usage then _limit_input_to_row li k now 0 None
      else _limit_input_to_row li k now (current_value matched) (Some (reset_at matched))
  | None => _limit_input_to_row li k now 0 None
  end.

Fixpoint map_res {A B} (f : A → res ApiKeyError B) (l : list A) : res ApiKeyError (list B) :=
  match l with
  | [] => Ok []
  | x :: rest => let? y := f x in let? ys := map_res f rest in Ok (y :: ys)
  end.

Definition _build_limit_rows_for_update (k : string) (now : Z) (submitted : list LimitRuleInput)
    (existing : list ApiKeyLimit) (reset_usage : bool) : res ApiKeyError (list ApiKeyLimit) :=
  let keys := map _limit_identity_from_input submitted in
  if negb (Nat.eqb (length (remove_dups keys)) (length submitted))
  then Err (ServiceValueError "Duplicate limit rules are not allowed")
  else map_res (update_row k now existing reset_usage) submitted.

Definition _build_reset_limit_rows (k : string) (now : Z) (existing : list ApiKeyLimit) : list ApiKeyLimit :=
  map (λ l, l {{ limit_id := 0%Z; api_key_id := k; current_value := 0%Z;
                 reset_at := next_limit_reset now (limit_window l) }}) existing.

End Service.

(** ** Facts *)
Module ApiKeyFacts.
Import LimitWindows Repository Service.

(** *** Windows *)

Lemma limit_window_delta_pos w : (0 < limit_window_delta w)%Z.
Proof. by destruct w. Qed.

Lemma next_limit_reset_delta now w : next_limit_reset now w = (now + limit_window_delta w)%Z.
Proof. by destruct w. Qed.

Lemma advance_loop_spec fuel next now delta :
  (0 < delta)%Z → (now < next + delta * Z.of_nat fuel)%Z →
  ∃ n, (0 <= n)%Z ∧ advance_loop fuel next now delta = (next + delta * n)%Z ∧
       (now < next + delta * n)%Z ∧ (0 < n → next + delta * (n - 1) <= now)%Z.
Proof.
  intros Hd. revert next. induction fuel as [|fuel IH]; intros next Hf; cbn [advance_loop].
  - exists 0%Z. case_if; pyb; split_and!; lia.
  - case_if; pyb; [|exists 0%Z; split_and!; lia].
    destruct (IH (next + delta)%Z) as (n & Hn & -> & Hgt & Hle); [lia|].
    exists (n + 1)%Z. split_and!; [lia|lia|lia|]. intros _. destruct (Z.eq_dec n 0%Z) as [->|]; [lia|].
    specialize (Hle ltac:(lia)). lia.
Qed.

Lemma advance_facts reset now w :
  let delta := limit_window_delta w in
  let next := advance_limit_reset reset now w in
  (now < next)%Z ∧ (∃ n, 0 <= n ∧ next = reset + delta * n)%Z ∧
  (reset <= now → next <= now + delta)%Z ∧ (now < reset → next = reset)%Z ∧
  (reset <= now → reset < next)%Z.
Proof.
  cbv zeta. unfold advance_limit_reset. pose proof (limit_window_delta_pos w) as Hd.
  set (delta := limit_window_delta w) in *.
  destruct (advance_loop_spec (Z.to_nat ((now - reset) / delta + 1)) reset now delta Hd)
    as (n & Hn & -> & Hgt & Hle).
  - destruct (Z.le_gt_cases 0 ((now - reset) / delta + 1)).
    + rewrite Z2Nat.id by lia. pose proof (Z.mod_pos_bound (now - reset) delta Hd).
      pose proof (Z.div_mod (now - reset) delta ltac:(lia)). lia.
    + replace (Z.to_nat ((now - reset) / delta + 1)) with 0%nat by lia. simpl.
      pose proof (Z.mod_pos_bound (now - reset) delta Hd).
      pose proof (Z.div_mod (now - reset) delta ltac:(lia)). nia.
  - split_and!; [done|eauto| | |lia].
    + intros Hr. destruct (Z.eq_dec n 0%Z) as [->|]; [lia|]. specialize (Hle ltac:(lia)). lia.
    + intros Hr. destruct (Z.eq_dec n 0%Z) as [->|]; [lia|]. specialize (Hle ltac:(lia)). nia.
Qed.

(** [advance_limit_reset] always terminates after the reset time: it returns
    the first time after [now] on the grid of the old reset time and the
    window's length, and the old reset time itself when that lies ahead. *)
Theorem advance_limit_reset_spec reset now w :
  let delta := limit_window_delta w in
  let next := advance_limit_reset reset now w in
  (now < next)%Z ∧ (∃ n, 0 <= n ∧ next = reset + delta * n)%Z ∧
  (reset <= now → next <= now + delta)%Z ∧ (now < reset → next = reset)%Z ∧
  (reset <= now → reset < next)%Z.
Proof. apply advance_facts. Qed.

Lemma advance_gt reset now w : (now < advance_limit_reset reset now w)%Z.
Proof. by destruct (advance_facts reset now w). Qed.

Lemma advance_gt_reset reset now w : (reset <= now)%Z → (reset < advance_limit_reset reset now w)%Z.
Proof. destruct (advance_facts reset now w) as (_ & _ & _ & _ & H). exact H. Qed.

(** *** Costs *)

(** Settled costs are nonnegative when the token counts are consistent. *)
Lemma cost_microdollars_nonneg model i o c tier :
  (0 <= c <= i)%Z → (0 <= o)%Z → (0 <= _calculate_cost_microdollars model i o c tier)%Z.
Proof.
  intros Hc Ho. unfold _calculate_cost_microdollars.
  destruct (get_pricing_for_model model [] []) as [[key price]|] eqn:Ep; [|lia].
  destruct (calculate_cost_from_usage _ _ _) as [cost|] eqn:Ec; [|lia].
  apply py_int_nonneg. eapply PricingFacts.default_cost_nonneg in Ec; [nra|exact Ep|..]; simpl.
  - rewrite !Zle_Qle in Hc. exact Hc.
  - rewrite Zle_Qle in Ho. exact Ho.
Qed.

(** The cost computation accepts more cached than input tokens and then
    charges a negative amount. *)
Theorem inconsistent_usage_negative_cost :
  (_calculate_cost_microdollars "gpt-5" 0 0 1000000 None < 0)%Z.
Proof. by vm_compute. Qed.

Lemma increment_nonneg t i o cost :
  (0 <= i)%Z → (0 <= o)%Z → (0 <= cost)%Z → (0 <= _compute_increment_for_limit_type t i o cost)%Z.
Proof. destruct t; simpl; lia. Qed.

Lemma unknown_model_budget_nonneg i o : (0 <= _unknown_model_reserve_cost_budget_microdollars i o)%Z.
Proof.
  unfold _unknown_model_reserve_cost_budget_microdollars. case_if; [lia|]. pyb.
  apply (Z.le_trans _ (Qceiling 0)); [done|]. apply Qceiling_resp_le.
  apply Qle_shift_div_l; [by vm_compute|]. rewrite Qmult_0_l. change 0%Q with (inject_Z 0).
  rewrite <- Zle_Qle. unfold UNKNOWN_MODEL_MICRODOLLARS. lia.
Qed.

Lemma normalized_budget_range b :
  let n := _normalize_request_usage_budget b in
  (0 <= or_z (budget_input_tokens n) 0 <= API_KEY_USAGE_RESERVATION_MAX_TOKEN_BUDGET)%Z ∧
  (0 <= or_z (budget_output_tokens n) 0 <= API_KEY_USAGE_RESERVATION_MAX_TOKEN_BUDGET)%Z.
Proof.
  assert (∀ v d, (0 <= d <= 8192)%Z → (0 <= or_z (Some (_normalize_reservation_token_budget v d)) 0 <= 8192)%Z) as H.
  { intros v d Hd. unfold or_z, _normalize_reservation_token_budget, API_KEY_USAGE_RESERVATION_MAX_TOKEN_BUDGET.
    destruct v; case_if; lia. }
  unfold _normalize_request_usage_budget. destruct b as [b|]; [|by vm_compute].
  split; apply H; by vm_compute.
Qed.

Lemma reserve_budget_nonneg t m tier b :
  (0 <= _reserve_budget_for_limit_type t m tier (_normalize_request_usage_budget b))%Z.
Proof.
  destruct (normalized_budget_range b) as [[Hi _] [Ho _]]. unfold _reserve_budget_for_limit_type.
  destruct t; try lia. unfold _reserve_cost_budget_microdollars.
  destruct (none_if_empty _); [case_if; pyb; [lia|]|]; apply unknown_model_budget_nonneg.
Qed.

Lemma reserve_delta_range l m tier b :
  let d := _reserve_delta_for_limit l m tier (_normalize_request_usage_budget b) in
  (0 <= d)%Z ∧ (current_value l < max_value l → current_value l + d <= max_value l)%Z.
Proof.
  unfold _reserve_delta_for_limit. pose proof (reserve_budget_nonneg (limit_type l) m tier b).
  case_if; pyb; lia.
Qed.

(** *** The ledger

    What a reservation item charges to a limit: its actual usage once
    settled, its reserved amount until then, and nothing when the limit's
    window has moved on. *)

Definition item_charge (l : ApiKeyLimit) (it : ReservationItem) : Z :=
  if in_window (item_limit_id it) (expected_reset_at it) l
  then default (reserved_delta it) (actual_delta it) else 0%Z.

Definition items_charge (l : ApiKeyLimit) (its : list ReservationItem) : Z := zsum (map (item_charge l) its).
Definition charges (l : ApiKeyLimit) (rs : list Reservation) : Z := zsum (map (λ r, items_charge l (items r)) rs).

Definition item_wf (it : ReservationItem) : Prop :=
  (0 <= reserved_delta it)%Z ∧ (0 <= default (reserved_delta it) (actual_delta it))%Z.

Definition reservation_wf (r : Reservation) : Prop :=
  NoDup (map item_limit_id (items r)) ∧ (∀ it, it ∈ items r → item_wf it) ∧
  (res_status r = Reserved → ∀ it, it ∈ items r → actual_delta it = None).

(** Usage recorded outside reservations, by limit and by the end of the
    window it was recorded in. *)
Definition recorded := Z → Z → Z.

(** The books balance: every limit's current value is what its reservations
    charge in the current window plus what was recorded directly. *)
Record ledger (db : DB) (direct : recorded) : Prop := {
  ledger_limits : NoDup (map limit_id (limits db));
  ledger_reservations : NoDup (map reservation_id (reservations db));
  ledger_wf : ∀ r, r ∈ reservations db → reservation_wf r;
  ledger_expected : ∀ l r it, l ∈ limits db → r ∈ reservations db → it ∈ items r →
    item_limit_id it = limit_id l → (expected_reset_at it <= reset_at l)%Z;
  ledger_direct : ∀ l, l ∈ limits db → (0 <= direct (limit_id l) (reset_at l))%Z;
  ledger_future : ∀ l w, l ∈ limits db → (reset_at l < w)%Z → direct (limit_id l) w = 0%Z;
  ledger_balance : ∀ l, l ∈ limits db →
    current_value l = (charges l (reservations db) + direct (limit_id l) (reset_at l))%Z;
}.

Lemma item_charge_nonneg l it : item_wf it → (0 <= item_charge l it)%Z.
Proof. intros [_ H]. unfold item_charge. case_if; [done|lia]. Qed.

Lemma items_charge_nonneg l r : reservation_wf r → (0 <= items_charge l (items r))%Z.
Proof. intros (_ & H & _). apply zsum_map_nonneg. intros; apply item_charge_nonneg; auto. Qed.

Lemma item_charge_same l l' it :
  limit_id l' = limit_id l → reset_at l' = reset_at l → item_charge l' it = item_charge l it.
Proof. intros H1 H2. unfold item_charge, in_window. by rewrite H1, H2. Qed.

Lemma items_charge_same l l' its :
  limit_id l' = limit_id l → reset_at l' = reset_at l → items_charge l' its = items_charge l its.
Proof. intros. apply zsum_map_ext. intros. by apply item_charge_same. Qed.

Lemma charges_same l l' rs :
  limit_id l' = limit_id l → reset_at l' = reset_at l → charges l' rs = charges l rs.
Proof. intros. apply zsum_map_ext. intros. by apply items_charge_same. Qed.

Lemma charges_app l rs1 rs2 : charges l (rs1 ++ rs2) = (charges l rs1 + charges l rs2)%Z.
Proof. unfold charges. by rewrite map_app, zsum_app. Qed.

(** The amount an open item reserved is part of the balance of its limit. *)
Lemma ledger_covers db direct l r it :
  ledger db direct → l ∈ limits db → r ∈ reservations db → it ∈ items r →
  (item_charge l it <= current_value l)%Z.
Proof.
  intros HL Hl Hr Hit. rewrite (ledger_balance _ _ HL l Hl).
  pose proof (ledger_direct _ _ HL l Hl) as Hd.
  assert (item_charge l it <= items_charge l (items r))%Z as H1.
  { apply (zsum_map_ge (item_charge l)); [|done]. intros y Hy. apply item_charge_nonneg.
    by apply (ledger_wf _ _ HL r Hr). }
  assert (items_charge l (items r) <= charges l (reservations db))%Z as H2.
  { apply (zsum_map_ge (λ r, items_charge l (items r))); [|done]. intros y Hy. apply items_charge_nonneg.
    by apply (ledger_wf _ _ HL). }
  lia.
Qed.

(** *** Settling a reservation

    Settling and releasing are instances of one operation: every item gets an
    actual amount [act], its limit is adjusted by the difference, and the
    reservation leaves the open state. *)

Definition set_actual (act : ReservationItem → Z) (it : ReservationItem) : ReservationItem :=
  it {{ actual_delta := Some (act it) }}.

(** The adjustment of one row by the items of a reservation. *)
Definition adjust_row (act : ReservationItem → Z) (it : ReservationItem) (l : ApiKeyLimit) : ApiKeyLimit :=
  if can_adjust (item_limit_id it) (expected_reset_at it) (act it - reserved_delta it) l
  then l {{ current_value := (current_value l + (act it - reserved_delta it))%Z }} else l.

Definition adjust_rows (act : ReservationItem → Z) (its : list ReservationItem) (l : ApiKeyLimit) : ApiKeyLimit :=
  fold_left (λ l it, adjust_row act it l) its l.

Definition diff (act : ReservationItem → Z) (l : ApiKeyLimit) (it : ReservationItem) : Z :=
  if in_window (item_limit_id it) (expected_reset_at it) l then (act it - reserved_delta it)%Z else 0%Z.

Lemma adjust_row_keys act it l :
  limit_id (adjust_row act it l) = limit_id l ∧ reset_at (adjust_row act it l) = reset_at l ∧
  max_value (adjust_row act it l) = max_value l.
Proof. unfold adjust_row. destruct l. simpl. by case_if. Qed.

Lemma adjust_rows_keys act its l :
  limit_id (adjust_rows act its l) = limit_id l ∧ reset_at (adjust_rows act its l) = reset_at l ∧
  max_value (adjust_rows act its l) = max_value l.
Proof.
  revert l. induction its as [|it its IH]; intros l; [done|]. unfold adjust_rows. cbn [fold_left].
  destruct (adjust_row_keys act it l) as (<- & <- & <-). apply IH.
Qed.

Lemma adjust_rows_none act its l :
  (∀ it, it ∈ its → item_limit_id it ≠ limit_id l) → adjust_rows act its l = l ∧ zsum (map (diff act l) its) = 0%Z.
Proof.
  induction its as [|it its IH]; intros H; [done|]. destruct IH as [IH1 IH2]; [intros; apply H; by right|].
  assert (in_window (item_limit_id it) (expected_reset_at it) l = false) as Hw.
  { unfold in_window. assert (item_limit_id it ≠ limit_id l) by (apply H; by left).
    destruct (Z.eqb_spec (limit_id l) (item_limit_id it)); [congruence|done]. }
  unfold adjust_rows. cbn [fold_left map zsum fold_right].
  fold (zsum (map (diff act l) its)). unfold adjust_row at 2, can_adjust. rewrite Hw. simpl.
  split; [exact IH1|]. unfold diff at 1. rewrite Hw, IH2. done.
Qed.

(** Each row moves by exactly the difference of the item that charges it. *)
Lemma adjust_rows_current act its l :
  NoDup (map item_limit_id its) → (∀ it, it ∈ its → (0 <= act it)%Z) →
  (∀ it, it ∈ its → in_window (item_limit_id it) (expected_reset_at it) l = true →
     (reserved_delta it <= current_value l)%Z) →
  current_value (adjust_rows act its l) = (current_value l + zsum (map (diff act l) its))%Z.
Proof.
  intros Hnd Hact Hcov. induction its as [|it its IH]; [simpl; lia|].
  cbn [map] in Hnd. apply NoDup_cons in Hnd as [Hit Hnd].
  unfold adjust_rows. cbn [fold_left map zsum fold_right]. fold (zsum (map (diff act l) its)).
  change (current_value (adjust_rows act its (adjust_row act it l)) =
    (current_value l + (diff act l it + zsum (map (diff act l) its)))%Z).
  unfold diff at 1. destruct (in_window (item_limit_id it) (expected_reset_at it) l) eqn:Ew.
  - assert (limit_id l = item_limit_id it) as Hid by (unfold in_window in Ew; pyb; tauto).
    assert (∀ it', it' ∈ its → item_limit_id it' ≠ limit_id l) as Hother.
    { intros it' Hin Heq. apply Hit. apply elem_of_map. exists it'. split; [congruence|done]. }
    assert (can_adjust (item_limit_id it) (expected_reset_at it) (act it - reserved_delta it) l = true) as Hc.
    { unfold can_adjust. rewrite Ew. simpl. case_if; [|done]. pyb.
      specialize (Hcov it ltac:(by left) Ew). specialize (Hact it ltac:(by left)). lia. }
    destruct (adjust_rows_none act its (adjust_row act it l)) as [-> _].
    { intros it' Hin. destruct (adjust_row_keys act it l) as (-> & _). auto. }
    destruct (adjust_rows_none act its l Hother) as [_ ->].
    unfold adjust_row. rewrite Hc. destruct l; simpl. lia.
  - assert (adjust_row act it l = l) as ->.
    { unfold adjust_row, can_adjust. by rewrite Ew. }
    rewrite IH; [lia|done|intros; apply Hact; by right|intros; apply Hcov; [by right|done]].
Qed.

(** Settled items charge their actual amount. *)
Lemma settled_charge act l its :
  (∀ it, it ∈ its → actual_delta it = None) →
  items_charge l (map (set_actual act) its) = (items_charge l its + zsum (map (diff act l) its))%Z.
Proof.
  induction its as [|it its IH]; intros H; [done|]. unfold items_charge in *. cbn [map zsum fold_right].
  fold (zsum (map (item_charge l) (map (set_actual act) its))) (zsum (map (item_charge l) its))
    (zsum (map (diff act l) its)).
  rewrite IH by (intros; apply H; by right).
  assert (item_charge l (set_actual act it) = item_charge l it + diff act l it)%Z as ->; [|lia].
  assert (actual_delta it = None) as Hn by (apply H; by left).
  unfold item_charge, diff, set_actual. rewrite Hn. destruct it. simpl. case_if; lia.
Qed.

(** A function on reservation rows that settles [r] and keeps the others. *)
Definition settles (act : ReservationItem → Z) (r : Reservation) (h : Reservation → Reservation) : Prop :=
  (∀ r', reservation_id (h r') = reservation_id r') ∧
  (∀ r', reservation_id r' ≠ reservation_id r → h r' = r') ∧
  items (h r) = map (set_actual act) (items r) ∧ res_status (h r) ≠ Reserved.

Lemma set_actual_fields act it :
  item_limit_id (set_actual act it) = item_limit_id it ∧ reserved_delta (set_actual act it) = reserved_delta it ∧
  expected_reset_at (set_actual act it) = expected_reset_at it ∧ actual_delta (set_actual act it) = Some (act it).
Proof. by destruct it. Qed.

Lemma settles_wf act r h :
  (∀ it, it ∈ items r → (0 <= act it)%Z) → settles act r h → reservation_wf r → reservation_wf (h r).
Proof.
  intros Hact (_ & _ & Hit & Hst) (Hnd & Hwf & _). split_and!.
  - rewrite Hit, map_map_id; [done|]. by intros [].
  - intros it. rewrite Hit. intros (it0 & -> & Hin)%elem_of_map.
    destruct (set_actual_fields act it0) as (_ & Hr & _ & Ha). destruct (Hwf _ Hin).
    unfold item_wf. rewrite Hr, Ha. split; [done|]. simpl. auto.
  - intros Hr. congruence.
Qed.

Lemma settle_preserves_ledger db direct act r h :
  ledger db direct → r ∈ reservations db → res_status r = Reserved →
  (∀ it, it ∈ items r → (0 <= act it)%Z) → settles act r h →
  ledger {| keys := keys db; limits := map (adjust_rows act (items r)) (limits db);
            reservations := map h (reservations db) |} direct.
Proof.
  intros HL Hr Hopen Hact Hh. pose proof Hh as (Hid & Hother & Hit & Hst).
  pose proof (ledger_wf _ _ HL r Hr) as Hwf. destruct (Hwf) as (Hnd & Hiwf & Hnone).
  assert (∀ r', r' ∈ reservations db → h r' = r' ∨ r' = r) as Hcase.
  { intros r' Hr'. destruct (String.eqb_spec (reservation_id r') (reservation_id r)) as [Heq|Hne];
      [right|left; by apply Hother]. by apply (NoDup_map_eq _ _ _ _ (ledger_reservations _ _ HL) Hr' Hr). }
  constructor; simpl.
  - rewrite map_map_id; [by apply HL|]. intros l. apply adjust_rows_keys.
  - rewrite map_map_id; [by apply HL|done].
  - intros r' (r0 & -> & Hr0)%elem_of_map. destruct (Hcase r0 Hr0) as [->|Heq]; [by apply HL|].
    rewrite Heq. by apply (settles_wf act).
  - intros l r' it (l0 & -> & Hl0)%elem_of_map (r0 & -> & Hr0)%elem_of_map Hin.
    destruct (adjust_rows_keys act (items r) l0) as (-> & -> & _). intros Heq.
    destruct (Hcase r0 Hr0) as [Hsame|Hrr]; [rewrite Hsame in Hin; by apply (ledger_expected _ _ HL l0 r0 it)|].
    rewrite Hrr, Hit in Hin. apply elem_of_map in Hin as (it0 & -> & Hin).
    destruct (set_actual_fields act it0) as (Hi & _ & He & _). rewrite He. rewrite Hi in Heq.
    by apply (ledger_expected _ _ HL l0 r it0).
  - intros l (l0 & -> & Hl0)%elem_of_map. destruct (adjust_rows_keys act (items r) l0) as (-> & -> & _).
    by apply (ledger_direct _ _ HL).
  - intros l w (l0 & -> & Hl0)%elem_of_map. destruct (adjust_rows_keys act (items r) l0) as (-> & -> & _).
    by apply (ledger_future _ _ HL).
  - intros l (l0 & -> & Hl0)%elem_of_map. destruct (adjust_rows_keys act (items r) l0) as (Hk1 & Hk2 & _).
    rewrite Hk1, Hk2, (charges_same l0) by done.
    rewrite adjust_rows_current; [|done|done|].
    2: { intros it Hin Hw. assert (item_charge l0 it = reserved_delta it) as <-.
         { unfold item_charge. by rewrite Hw, Hnone. } by eapply ledger_covers. }
    rewrite (ledger_balance _ _ HL l0 Hl0). unfold charges. rewrite map_map.
    rewrite (zsum_map_change reservation_id (λ r, items_charge l0 (items r))
               (λ r, items_charge l0 (items (h r))) _ r (ledger_reservations _ _ HL) Hr).
    + rewrite Hit, settled_charge by auto. lia.
    + intros r' _ Hne. by rewrite Hother.
Qed.

(** *** The loops over a reservation's items *)

Definition close_item (act : ReservationItem → Z) (id : string) (db : DB) (it : ReservationItem) : DB :=
  upsert_reservation_item_actual id it (act it)
    (adjust_reserved_usage (item_limit_id it) (act it - reserved_delta it) (expected_reset_at it) db).

Definition upsert_all (act : ReservationItem → Z) (id : string) (its : list ReservationItem) (r : Reservation)
    : Reservation :=
  if String.eqb (reservation_id r) id
  then r {{ items := fold_left (λ xs it, upsert_item it (act it) xs) its (items r) }} else r.

Lemma DB_eta db : {| keys := keys db; limits := limits db; reservations := reservations db |} = db.
Proof. by destruct db. Qed.

Lemma upsert_all_cons act id it its r :
  upsert_all act id its (if String.eqb (reservation_id r) id
    then r {{ items := upsert_item it (act it) (items r) }} else r) = upsert_all act id (it :: its) r.
Proof.
  unfold upsert_all. destruct (String.eqb (reservation_id r) id) eqn:E; [|by rewrite E].
  destruct r; simpl in *. by rewrite E.
Qed.

Lemma fold_close act id its db :
  fold_left (close_item act id) its db =
  {| keys := keys db; limits := map (adjust_rows act its) (limits db);
     reservations := map (upsert_all act id its) (reservations db) |}.
Proof.
  revert db. induction its as [|it its IH]; intros db; cbn [fold_left].
  - assert (map (adjust_rows act []) (limits db) = limits db) as -> by apply map_id.
    assert (map (upsert_all act id []) (reservations db) = reservations db) as ->; [|by rewrite DB_eta].
    rewrite <- (map_id (reservations db)) at 2. apply map_ext. intros r. unfold upsert_all. destruct r; by case_if.
  - rewrite IH. destruct db as [ks ls rs]. unfold close_item, upsert_reservation_item_actual, adjust_reserved_usage.
    simpl. unfold update_where. rewrite !map_map. f_equal. apply map_ext. intros r. apply upsert_all_cons.
Qed.

Lemma upsert_item_update it a its :
  it ∈ its → upsert_item it a its =
  update_where (λ i, (item_limit_id i =? item_limit_id it)%Z) (λ i, i {{ actual_delta := Some a }}) its.
Proof.
  intros H. unfold upsert_item. assert (existsb (λ i, (item_limit_id i =? item_limit_id it)%Z) its = true) as ->; [|done].
  apply existsb_exists. exists it. rewrite <- list_elem_of_In, Z.eqb_refl. done.
Qed.

(** Writing the actual amount of every item of a reservation. *)
Lemma upsert_items_all act its :
  NoDup (map item_limit_id its) →
  fold_left (λ xs it, upsert_item it (act it) xs) its its = map (set_actual act) its.
Proof.
  intros Hnd. assert (∀ done todo, its = done ++ todo →
    fold_left (λ xs it, upsert_item it (act it) xs) todo (map (set_actual act) done ++ todo) =
    map (set_actual act) its) as H; [|by apply (H [] its)].
  intros done todo. revert done. induction todo as [|it todo IH]; intros done ->; cbn [fold_left].
  { by rewrite !app_nil_r. }
  rewrite upsert_item_update by (apply elem_of_app; right; by left).
  rewrite map_app in Hnd. apply NoDup_app in Hnd as (_ & Hdisj & Hnd2).
  cbn [map] in Hnd2. apply NoDup_cons in Hnd2 as [Hit _].
  assert (update_where (λ i, (item_limit_id i =? item_limit_id it)%Z) (λ i, i {{ actual_delta := Some (act it) }})
    (map (set_actual act) done ++ it :: todo) = map (set_actual act) (done ++ [it]) ++ todo) as ->.
  { unfold update_where. rewrite !map_app, <- app_assoc. cbn [map app]. rewrite Z.eqb_refl.
    assert (∀ xs : list ReservationItem, (∀ i, i ∈ xs → item_limit_id i ≠ item_limit_id it) →
      map (λ r, if (item_limit_id r =? item_limit_id it)%Z then r {{ actual_delta := Some (act it) }} else r) xs = xs) as Hid.
    { intros xs Hxs. rewrite <- (map_id xs) at 2. apply map_ext_in. intros i Hi.
      apply list_elem_of_In, Hxs in Hi. by destruct (Z.eqb_spec (item_limit_id i) (item_limit_id it)). }
    f_equal.
    - apply Hid. intros i (i0 & -> & Hi)%elem_of_map. destruct (set_actual_fields act i0) as (-> & _).
      intros Heq. apply (Hdisj (item_limit_id i0)); [apply elem_of_map; eauto|]. rewrite Heq. by left.
    - f_equal. apply Hid. intros i Hi Heq. apply Hit. rewrite <- Heq. apply elem_of_map. eauto. }
  rewrite IH by (by rewrite <- app_assoc). done.
Qed.

Definition settle_act (i o cost : Z) (it : ReservationItem) : Z :=
  _compute_increment_for_limit_type (item_limit_type it) i o cost.

Lemma adjust_zero id expected db : adjust_reserved_usage id 0 expected db = db.
Proof.
  unfold adjust_reserved_usage, update_where. destruct db as [ks ls rs]; simpl. f_equal.
  rewrite <- (map_id ls) at 2. apply map_ext. intros l. case_if; [|done]. destruct l; simpl. by rewrite Z.add_0_r.
Qed.

Lemma settle_item_close id i o cost db it :
  settle_item id i o cost db it = close_item (settle_act i o cost) id db it.
Proof.
  unfold settle_item, close_item, settle_act. case_if; [done|]. apply negb_false_iff, Z.eqb_eq in Hb.
  by rewrite Hb, adjust_zero.
Qed.

Lemma release_item_close id db it : release_item id db it = close_item (λ _, 0%Z) id db it.
Proof. done. Qed.

Lemma fold_left_ext {A B} (f g : A → B → A) l a : (∀ x y, f x y = g x y) → fold_left f l a = fold_left g l a.
Proof. intros H. revert a. induction l as [|y l IH]; intros a; simpl; [done|]. by rewrite H, IH. Qed.

(** *** Operations on one reservation *)

Lemma get_usage_reservation_spec id db r :
  get_usage_reservation id db = Some r → r ∈ reservations db ∧ reservation_id r = id.
Proof.
  intros H. apply find_some in H as [Hin Heq]. split; [by apply list_elem_of_In|]. by apply String.eqb_eq.
Qed.

Lemma claimed_spec id r db :
  get_usage_reservation id db = Some r → res_status r = Reserved →
  any_where (has_status id Reserved) (reservations db) = true.
Proof.
  intros [Hin Hid]%get_usage_reservation_spec Hst. apply existsb_exists. exists r.
  split; [by apply list_elem_of_In|]. unfold has_status. rewrite Hid, String.eqb_refl. simpl.
  by apply bool_decide_eq_true.
Qed.

(** The reservation row after claiming it, writing its items and [final]. *)
Definition closed_row (act : ReservationItem → Z) (id : string) (its : list ReservationItem)
    (claim final : Reservation → Reservation) (r' : Reservation) : Reservation :=
  let r1 := if has_status id Reserved r' then claim r' else r' in
  let r2 := upsert_all act id its r1 in
  if String.eqb (reservation_id r2) id then final r2 else r2.

Lemma closed_row_settles act id r claim final :
  reservation_id r = id → res_status r = Reserved → NoDup (map item_limit_id (items r)) →
  (∀ x, reservation_id (claim x) = reservation_id x ∧ items (claim x) = items x) →
  (∀ x, reservation_id (final x) = reservation_id x ∧ items (final x) = items x ∧ res_status (final x) ≠ Reserved) →
  settles act r (closed_row act id (items r) claim final).
Proof.
  intros Hid Hst Hnd Hclaim Hfinal.
  assert (∀ x, reservation_id (upsert_all act id (items r) x) = reservation_id x) as Hu.
  { intros x. unfold upsert_all. case_if; [|done]. by destruct x. }
  assert (∀ x, reservation_id (if has_status id Reserved x then claim x else x) = reservation_id x) as Hc.
  { intros x. case_if; [|done]. apply Hclaim. }
  unfold closed_row. split_and!.
  - intros x. cbv zeta. match goal with |- reservation_id (if ?b then _ else _) = _ => destruct b end;
      [rewrite (proj1 (Hfinal _))|]; by rewrite Hu, Hc.
  - intros x Hne. assert (String.eqb (reservation_id x) id = false) as He by (apply String.eqb_neq; congruence).
    unfold has_status. rewrite He. simpl. unfold upsert_all. rewrite He. by rewrite He.
  - assert (has_status id Reserved r = true) as ->.
    { unfold has_status. rewrite Hid, String.eqb_refl. simpl. by apply bool_decide_eq_true. }
    rewrite Hu, (proj1 (Hclaim r)), Hid, String.eqb_refl, (proj1 (proj2 (Hfinal _))).
    unfold upsert_all. rewrite (proj1 (Hclaim r)), Hid, String.eqb_refl.
    pose proof (proj2 (Hclaim r)) as Hi. destruct (claim r); simpl in *. rewrite Hi. by apply upsert_items_all.
  - assert (has_status id Reserved r = true) as ->.
    { unfold has_status. rewrite Hid, String.eqb_refl. simpl. by apply bool_decide_eq_true. }
    rewrite Hu, (proj1 (Hclaim r)), Hid, String.eqb_refl. apply Hfinal.
Qed.

(** What settling an open reservation does to the tables. *)
Lemma settle_unfold id model input output cached tier st now db r :
  get_usage_reservation id db = Some r → res_status r = Reserved →
  let i := or_z input 0 in let o := or_z output 0 in
  let cost := _calculate_cost_microdollars model i o (or_z cached 0) tier in
  let act := settle_act i o cost in
  ∃ ks, _settle_usage_reservation id model input output cached tier st now db =
  {| keys := ks; limits := map (adjust_rows act (items r)) (limits db);
     reservations := map (closed_row act id (items r)
       (λ r, r {{ res_status := Settling; updated_at := now }})
       (λ r, r {{ res_status := st; res_input_tokens := input; res_output_tokens := output;
                  res_cached_input_tokens := cached; res_cost_microdollars := Some cost; updated_at := now }}))
       (reservations db) |}.
Proof.
  intros Hget Hst. cbv zeta. unfold _settle_usage_reservation. rewrite Hget, Hst.
  rewrite bool_decide_eq_true_2 by done. simpl.
  unfold transition_usage_reservation_status. rewrite (claimed_spec _ _ _ Hget Hst). simpl.
  rewrite (fold_left_ext _ _ _ _ (settle_item_close id _ _ _)), fold_close.
  unfold update_last_used, settle_usage_reservation. destruct db as [ks ls rs]. simpl.
  eexists. f_equal. unfold update_where, closed_row. rewrite !map_map. done.
Qed.

Lemma release_unfold id now db r :
  get_usage_reservation id db = Some r → res_status r = Reserved →
  release_usage_reservation id now db =
  {| keys := keys db; limits := map (adjust_rows (λ _, 0%Z) (items r)) (limits db);
     reservations := map (closed_row (λ _, 0%Z) id (items r)
       (λ r, r {{ res_status := Released; updated_at := now }})
       (λ r, r {{ res_status := Released; res_input_tokens := None; res_output_tokens := None;
                  res_cached_input_tokens := None; res_cost_microdollars := None; updated_at := now }}))
       (reservations db) |}.
Proof.
  intros Hget Hst. unfold release_usage_reservation. rewrite Hget, Hst.
  rewrite bool_decide_eq_true_2 by done. simpl.
  unfold transition_usage_reservation_status. rewrite (claimed_spec _ _ _ Hget Hst). simpl.
  rewrite (fold_left_ext _ _ _ _ (release_item_close id)), fold_close.
  unfold settle_usage_reservation. destruct db as [ks ls rs]. simpl.
  f_equal. unfold update_where, closed_row. rewrite !map_map. done.
Qed.

Lemma ledger_keys ks db direct :
  ledger db direct → ledger {| keys := ks; limits := limits db; reservations := reservations db |} direct.
Proof. intros []. by constructor. Qed.

Lemma settle_ledger id model input output cached tier st now db direct :
  (0 <= or_z cached 0 <= or_z input 0)%Z → (0 <= or_z output 0)%Z → st ≠ Reserved →
  ledger db direct → ledger (_settle_usage_reservation id model input output cached tier st now db) direct.
Proof.
  intros Hc Ho Hst HL. destruct (get_usage_reservation id db) as [r|] eqn:Hget.
  2: { unfold _settle_usage_reservation. by rewrite Hget. }
  destruct (decide (res_status r = Reserved)) as [Hopen|Hclosed].
  2: { unfold _settle_usage_reservation. rewrite Hget, bool_decide_eq_false_2 by done. done. }
  destruct (settle_unfold id model input output cached tier st now db r Hget Hopen) as [ks ->].
  destruct (get_usage_reservation_spec _ _ _ Hget) as [Hin Hid].
  apply (ledger_keys ks {| keys := keys db; limits := _; reservations := _ |}).
  apply settle_preserves_ledger; try done.
  - intros it _. apply increment_nonneg; [lia|lia|]. by apply cost_microdollars_nonneg.
  - apply closed_row_settles; try done; [apply (ledger_wf _ _ HL r Hin)|..]; intros []; done.
Qed.

Lemma release_ledger id now db direct :
  ledger db direct → ledger (release_usage_reservation id now db) direct.
Proof.
  intros HL. destruct (get_usage_reservation id db) as [r|] eqn:Hget.
  2: { unfold release_usage_reservation. by rewrite Hget. }
  destruct (decide (res_status r = Reserved)) as [Hopen|Hclosed].
  2: { unfold release_usage_reservation. rewrite Hget, bool_decide_eq_false_2 by done. done. }
  rewrite (release_unfold id now db r Hget Hopen).
  destruct (get_usage_reservation_spec _ _ _ Hget) as [Hin Hid].
  apply settle_preserves_ledger; try done.
  apply closed_row_settles; try done; [apply (ledger_wf _ _ HL r Hin)|..]; intros []; done.
Qed.

(** *** Reserving *)

Definition charge_row (its : list ReservationItem) (l : ApiKeyLimit) : ApiKeyLimit :=
  l {{ current_value := (current_value l + items_charge l its)%Z }}.

Lemma charge_row_keys its l :
  limit_id (charge_row its l) = limit_id l ∧ reset_at (charge_row its l) = reset_at l ∧
  max_value (charge_row its l) = max_value l ∧ model_filter (charge_row its l) = model_filter l.
Proof. by destruct l. Qed.

Lemma charge_row_app its1 its2 l : charge_row its2 (charge_row its1 l) = charge_row (its1 ++ its2) l.
Proof.
  assert (items_charge (charge_row its1 l) its2 = items_charge l its2) as H.
  { apply items_charge_same; apply (charge_row_keys its1 l). }
  unfold charge_row in *. rewrite H. unfold items_charge. rewrite map_app, zsum_app.
  destruct l; simpl. f_equal. lia.
Qed.

Lemma charge_row_nil l : charge_row [] l = l.
Proof. destruct l. unfold charge_row. simpl. by rewrite Z.add_0_r. Qed.

(** The item a limit contributes to a reservation. *)
Definition reserved_item (rq : Request) (b : option ApiKeyRequestUsageBudget) (s : ApiKeyLimit) : ReservationItem :=
  {| item_limit_id := limit_id s; item_limit_type := limit_type s;
     reserved_delta := _reserve_delta_for_limit s (request_model rq) (request_service_tier rq)
                         (_normalize_request_usage_budget b);
     expected_reset_at := reset_at s; actual_delta := None |}.

Lemma items_charge_single l it :
  items_charge l [it] = item_charge l it.
Proof. unfold items_charge. simpl. lia. Qed.

Lemma in_window_self l : in_window (limit_id l) (reset_at l) l = true.
Proof. unfold in_window. by rewrite !Z.eqb_refl. Qed.

Lemma in_window_id i e l : in_window i e l = true → limit_id l = i ∧ reset_at l = e.
Proof. unfold in_window. intros H. pyb. done. Qed.

(** A limit that applies has room, and its row takes up what it reserves. *)
Lemma reserve_limit_ok rq b db its s db' its' :
  NoDup (map limit_id (limits db)) → s ∈ limits db →
  reserve_limit rq (_normalize_request_usage_budget b) (db, its) s = Ok (db', its') →
  if _limit_applies_for_request s (request_model rq) then
    its' = its ++ [reserved_item rq b s] ∧ (current_value s < max_value s)%Z ∧
    db' = {| keys := keys db; limits := map (charge_row [reserved_item rq b s]) (limits db);
             reservations := reservations db |}
  else db' = db ∧ its' = its.
Proof.
  intros Hnd Hs. unfold reserve_limit. destruct (_limit_applies_for_request _ _); simpl; [|by intros [= <- <-]].
  case_if; [done|]. pyb. fold (reserved_item rq b s).
  set (d := _reserve_delta_for_limit s (request_model rq) (request_service_tier rq) (_normalize_request_usage_budget b)).
  destruct (reserve_delta_range s (request_model rq) (request_service_tier rq) b) as [Hd Hroom]. fold d in Hd, Hroom.
  assert (∀ l, l ∈ limits db → in_window (limit_id s) (reset_at s) l = true → l = s) as Huniq.
  { intros l Hl [Hi _]%in_window_id. by apply (NoDup_map_eq _ _ _ _ Hnd Hl Hs). }
  assert (∀ l, l ∈ limits db → charge_row [reserved_item rq b s] l =
    if can_reserve (limit_id s) (reset_at s) d l then l {{ current_value := (current_value l + d)%Z }} else l) as Hrow.
  { intros l Hl. unfold charge_row. rewrite items_charge_single. unfold item_charge, can_reserve. simpl. fold d.
    destruct (in_window (limit_id s) (reset_at s) l) eqn:Ew; simpl.
    - rewrite (Huniq l Hl Ew). specialize (Hroom Hb). apply Z.leb_le in Hroom. by rewrite Hroom.
    - destruct l; simpl. by rewrite Z.add_0_r. }
  assert (map (charge_row [reserved_item rq b s]) (limits db) =
    update_where (can_reserve (limit_id s) (reset_at s) d) (λ l, l {{ current_value := (current_value l + d)%Z }})
      (limits db)) as Hmap.
  { apply map_ext_in. intros l Hl. apply Hrow. by apply list_elem_of_In. }
  case_if; pyb.
  - unfold try_reserve_usage. assert ((d <=? 0)%Z = false) as -> by lia.
    destruct (any_where _ _); [|done]. intros [= <- <-]. split_and!; [done|done|]. rewrite Hmap.
    by destruct db.
  - intros [= <- <-]. split_and!; [done|done|]. rewrite <- (DB_eta db) at 1. f_equal.
    rewrite <- (map_id (limits db)) at 1. apply map_ext_in. intros l _. unfold charge_row.
    rewrite items_charge_single. unfold item_charge. simpl. fold d. replace d with 0%Z by lia.
    destruct l; simpl. case_if; by rewrite Z.add_0_r.
Qed.

Definition applying (rq : Request) (ls : list ApiKeyLimit) : list ApiKeyLimit :=
  List.filter (λ s, _limit_applies_for_request s (request_model rq)) ls.

Lemma charge_other its l :
  (∀ it, it ∈ its → item_limit_id it ≠ limit_id l) → charge_row its l = l.
Proof.
  intros H. unfold charge_row. assert (items_charge l its = 0%Z) as ->; [|by destruct l; simpl; rewrite Z.add_0_r].
  unfold items_charge. induction its as [|it its IH]; [done|]. simpl.
  rewrite IH by (intros; apply H; by right). unfold item_charge, in_window.
  assert (item_limit_id it ≠ limit_id l) by (apply H; by left).
  destruct (Z.eqb_spec (limit_id l) (item_limit_id it)); [congruence|done].
Qed.

Lemma reserve_limits_ok rq b ls db its db' its' :
  NoDup (map limit_id (limits db)) → NoDup (map limit_id ls) → (∀ s, s ∈ ls → s ∈ limits db) →
  reserve_limits rq (_normalize_request_usage_budget b) ls (db, its) = Ok (db', its') →
  let new := map (reserved_item rq b) (applying rq ls) in
  its' = its ++ new ∧ (∀ s, s ∈ applying rq ls → (current_value s < max_value s)%Z) ∧
  db' = {| keys := keys db; limits := map (charge_row new) (limits db); reservations := reservations db |}.
Proof.
  revert db its. induction ls as [|s ls IH]; intros db its Hnd Hls Hin; cbv zeta.
  { intros [= <- <-]. rewrite app_nil_r. split_and!; [done|set_solver|]. rewrite <- (DB_eta db) at 1. f_equal.
    rewrite <- (map_id (limits db)) at 1. apply map_ext. intros l. by rewrite charge_row_nil. }
  cbn [reserve_limits]. destruct (reserve_limit _ _ _ s) as [[db1 its1]|] eqn:E1; [|done].
  cbn [map] in Hls. apply NoDup_cons in Hls as [Hs Hls].
  apply (reserve_limit_ok rq b db its s) in E1; [|done|apply Hin; by left].
  unfold applying. cbn [List.filter]. fold (applying rq ls).
  destruct (_limit_applies_for_request s (request_model rq)) eqn:Ea; simpl.
  - destruct E1 as (-> & Hroom & ->). intros H. apply IH in H; simpl.
    + destruct H as (-> & Hroom' & ->). simpl. rewrite <- app_assoc. split_and!; [done| |].
      * intros s' [->|Hs']%elem_of_cons; [done|auto].
      * f_equal. rewrite map_map. apply map_ext. intros l. by rewrite charge_row_app.
    + rewrite map_map_id; [done|]. intros l. apply charge_row_keys.
    + done.
    + intros s' Hs'. apply elem_of_map. exists s'. split; [|apply Hin; by right].
      symmetry. apply charge_other. intros it ->%list_elem_of_singleton. simpl. intros Heq.
      apply Hs. rewrite Heq. apply elem_of_map. eauto.
  - destruct E1 as [-> ->]. intros H. apply IH in H; [done|done|done|]. intros; apply Hin; by right.
Qed.

(** *** Window resets *)

Definition reset_row (id expected new : Z) (l : ApiKeyLimit) : ApiKeyLimit :=
  if in_window id expected l then l {{ current_value := 0%Z; reset_at := new }} else l.

Lemma reset_limit_rows id expected new db :
  fst (reset_limit id expected new db) =
  {| keys := keys db; limits := map (reset_row id expected new) (limits db); reservations := reservations db |}.
Proof. by destruct db. Qed.

Lemma reset_row_id id expected new l : limit_id (reset_row id expected new l) = limit_id l.
Proof. unfold reset_row. destruct l; simpl. by case_if. Qed.

Lemma reset_row_cases id expected new l :
  (in_window id expected l = false ∧ reset_row id expected new l = l) ∨
  (limit_id l = id ∧ reset_at l = expected ∧ reset_at (reset_row id expected new l) = new ∧
   current_value (reset_row id expected new l) = 0%Z).
Proof.
  unfold reset_row. destruct (in_window id expected l) eqn:E; [right|by left].
  apply in_window_id in E as [? ?]. split_and!; try done; by destruct l.
Qed.

(** A reset opens a window nothing is charged to yet. *)
Lemma reset_ledger id expected new db direct :
  (expected < new)%Z → ledger db direct → ledger (fst (reset_limit id expected new db)) direct.
Proof.
  intros Hnew HL. rewrite reset_limit_rows.
  assert (∀ l, (reset_at l <= reset_at (reset_row id expected new l))%Z) as Hmono.
  { intros l. destruct (reset_row_cases id expected new l) as [[_ ->]|(_ & -> & -> & _)]; lia. }
  constructor; simpl.
  - rewrite map_map_id; [by apply HL|]. apply reset_row_id.
  - by apply HL.
  - by apply HL.
  - intros l r it (l0 & -> & Hl0)%elem_of_map Hr Hit Heq. rewrite reset_row_id in Heq.
    pose proof (ledger_expected _ _ HL l0 r it Hl0 Hr Hit Heq). specialize (Hmono l0). lia.
  - intros l (l0 & -> & Hl0)%elem_of_map. rewrite reset_row_id.
    destruct (reset_row_cases id expected new l0) as [[_ ->]|(_ & He & -> & _)]; [by apply HL|].
    rewrite (ledger_future _ _ HL l0) by (done || lia). lia.
  - intros l w (l0 & -> & Hl0)%elem_of_map Hw. rewrite reset_row_id. apply (ledger_future _ _ HL l0); [done|].
    specialize (Hmono l0). lia.
  - intros l (l0 & -> & Hl0)%elem_of_map. rewrite reset_row_id.
    destruct (reset_row_cases id expected new l0) as [[_ ->]|(_ & He & Hr & ->)]; [by apply HL|].
    rewrite Hr, (ledger_future _ _ HL l0) by (done || lia).
    assert (charges (reset_row id expected new l0) (reservations db) = 0%Z) as ->; [|done].
    unfold charges. rewrite (zsum_map_ext _ (λ _, 0%Z)).
    { clear. induction (reservations db); simpl; lia. }
    intros r Hin. unfold items_charge. rewrite (zsum_map_ext _ (λ _, 0%Z)).
    { clear. induction (items r); simpl; lia. }
    intros it Hit. unfold item_charge. destruct (in_window _ _ _) eqn:E; [|done].
    apply in_window_id in E as [E1 E2]. rewrite reset_row_id in E1.
    pose proof (ledger_expected _ _ HL l0 r it Hl0 Hin Hit ltac:(congruence)). lia.
Qed.

Lemma lazy_reset_ledger ls now db direct performed :
  ledger db direct → ledger (fst (fold_left (_lazy_reset_limit now) ls (db, performed))) direct.
Proof.
  revert db performed. induction ls as [|l ls IH]; intros db performed HL; [done|]. cbn [fold_left].
  unfold _lazy_reset_limit at 2. case_if; [by apply IH|]. pyb. apply IH, reset_ledger; [|done].
  apply advance_gt_reset. lia.
Qed.

(** *** Enforcement *)

Lemma lazy_reset_ids ls now db :
  NoDup (map limit_id (limits db)) → NoDup (map limit_id (limits (fst (_lazy_reset_expired_limits ls now db)))).
Proof.
  unfold _lazy_reset_expired_limits. generalize false as p. revert db.
  induction ls as [|l ls IH]; intros db p Hnd; [done|].
  cbn [fold_left]. unfold _lazy_reset_limit at 2. case_if; apply IH; [done|].
  rewrite reset_limit_rows. simpl. rewrite map_map_id; [done|]. apply reset_row_id.
Qed.

Definition reserve_state (rq : Request) (ls : list ApiKeyLimit) (fresh k : string) (now : Z) (db : DB) : DB :=
  let new := map (reserved_item rq (request_usage_budget rq)) (applying rq ls) in
  create_usage_reservation fresh k (default "" (request_model rq)) new now
    {| keys := keys db; limits := map (charge_row new) (limits db); reservations := reservations db |}.

(** Enforcement either reserves for every limit that applies, or fails with
    nothing reserved (the windows that had expired stay reset). *)
Lemma enforce_cases k rq fresh now db db' r :
  NoDup (map limit_id (limits db)) →
  _enforce_limits_for_request_once k rq fresh now db = (db', r) →
  let db0 := fst (_lazy_reset_expired_limits (get_limits_by_key k db) now db) in
  match r with
  | Err _ => db' = db ∨ db' = db0
  | Ok id => id = fresh ∧ db' = reserve_state rq (get_limits_by_key k db0) fresh k now db0 ∧
      ∀ s, s ∈ applying rq (get_limits_by_key k db0) → (current_value s < max_value s)%Z
  end.
Proof.
  intros Hnd H. cbv zeta. unfold _enforce_limits_for_request_once in H.
  destruct (_ensure_valid_api_key_row (get_by_id k db)) as [row|e]; [|injection H as <- <-; by left].
  destruct (expired_at now row); [injection H as <- <-; by left|].
  pose proof (lazy_reset_ids (get_limits_by_key k db) now db Hnd) as Hnd0.
  destruct (_lazy_reset_expired_limits _ now db) as [db0 performed]. simpl in *.
  destruct (if performed then _ else _) as [refreshed|e]; [|injection H as <- <-; by right].
  destruct (expired_at now refreshed); [injection H as <- <-; by right|].
  destruct (reserve_limits _ _ _ _) as [[db1 its]|e] eqn:E; injection H as <- <-; [|by right].
  apply reserve_limits_ok in E as (-> & Hroom & ->); [done|done|by apply NoDup_map_filter|].
  intros s Hs. by apply elem_of_filter_bool in Hs as [? _].
Qed.

Lemma reserve_ledger rq ls fresh k now db direct :
  NoDup (map limit_id ls) → (∀ s, s ∈ ls → s ∈ limits db) →
  (∀ r, r ∈ reservations db → reservation_id r ≠ fresh) →
  ledger db direct → ledger (reserve_state rq ls fresh k now db) direct.
Proof.
  intros Hnd Hin Hfresh HL. unfold reserve_state, create_usage_reservation. simpl.
  set (new := map (reserved_item rq (request_usage_budget rq)) (applying rq ls)).
  set (row := {| reservation_id := fresh |}).
  assert (∀ it, it ∈ new → actual_delta it = None ∧ (0 <= reserved_delta it)%Z ∧
    ∃ s, s ∈ limits db ∧ item_limit_id it = limit_id s ∧ expected_reset_at it = reset_at s) as Hnew.
  { intros it (s & -> & Hs)%elem_of_map. apply elem_of_filter_bool in Hs as [Hs _].
    split; [done|]. split; [apply reserve_delta_range|]. exists s. auto. }
  assert (reservation_wf row) as Hrow.
  { split_and!.
    - unfold row, new. simpl. rewrite map_map. simpl. by apply NoDup_map_filter.
    - intros it Hit. destruct (Hnew it Hit) as (Ha & Hr & _). unfold item_wf. rewrite Ha. done.
    - intros _ it Hit. by destruct (Hnew it Hit). }
  constructor; simpl.
  - rewrite map_map_id; [by apply HL|]. intros l. apply charge_row_keys.
  - rewrite map_app. apply NoDup_app. split_and!; [by apply HL| |apply NoDup_singleton].
    intros x (r & Hx & Hr)%elem_of_map Heq%list_elem_of_singleton. apply (Hfresh r Hr). by rewrite <- Hx.
  - intros r [Hr| ->%list_elem_of_singleton]%elem_of_app; [by apply HL|done].
  - intros l r it (l0 & -> & Hl0)%elem_of_map Hr Hit. destruct (charge_row_keys new l0) as (-> & -> & _).
    intros Heq. apply elem_of_app in Hr as [Hr| ->%list_elem_of_singleton]; [by apply (ledger_expected _ _ HL l0 r)|].
    destruct (Hnew it Hit) as (_ & _ & s & Hs & Hi & ->).
    rewrite (NoDup_map_eq _ _ s l0 (ledger_limits _ _ HL) Hs Hl0) by congruence. lia.
  - intros l (l0 & -> & Hl0)%elem_of_map. destruct (charge_row_keys new l0) as (-> & -> & _). by apply HL.
  - intros l w (l0 & -> & Hl0)%elem_of_map. destruct (charge_row_keys new l0) as (-> & -> & _). by apply HL.
  - intros l (l0 & -> & Hl0)%elem_of_map. destruct (charge_row_keys new l0) as (Hk1 & Hk2 & _).
    rewrite Hk1, Hk2, (charges_same l0), charges_app by done.
    pose proof (ledger_balance _ _ HL l0 Hl0) as Hb.
    assert (charges l0 [row] = items_charge l0 new) as -> by (unfold charges; simpl; lia).
    assert (current_value (charge_row new l0) = current_value l0 + items_charge l0 new)%Z as -> by (by destruct l0).
    lia.
Qed.

Lemma lazy_reset_reservations ls now db p :
  reservations (fst (fold_left (_lazy_reset_limit now) ls (db, p))) = reservations db.
Proof.
  revert db p. induction ls as [|l ls IH]; intros db p; [done|]. cbn [fold_left].
  unfold _lazy_reset_limit at 2. case_if; [apply IH|]. rewrite IH. by destruct db.
Qed.

Lemma enforce_ledger k rq fresh now db direct :
  (∀ r, r ∈ reservations db → reservation_id r ≠ fresh) → ledger db direct →
  ledger (fst (_enforce_limits_for_request_once k rq fresh now db)) direct.
Proof.
  intros Hfresh HL. destruct (_enforce_limits_for_request_once k rq fresh now db) as [db' r] eqn:E. simpl.
  apply enforce_cases in E; [|by apply HL]. cbv zeta in E.
  pose proof (lazy_reset_ledger (get_limits_by_key k db) now db direct false HL) as HL0.
  fold (_lazy_reset_expired_limits (get_limits_by_key k db) now db) in HL0.
  destruct r as [id|e]; [|by destruct E as [->| ->]]. destruct E as (_ & -> & _).
  apply reserve_ledger; [|..|done].
  - apply NoDup_map_filter, HL0.
  - intros s Hs. by apply elem_of_filter_bool in Hs as [? _].
  - unfold _lazy_reset_expired_limits. by rewrite lazy_reset_reservations.
Qed.

(** *** Recorded usage *)

Definition record_amount (l : ApiKeyLimit) (model : string) (i o cost : Z) : Z :=
  if match model_filter l with Some m => negb (String.eqb m model) | None => false end then 0%Z
  else Z.max 0 (_compute_increment (limit_type l) i o cost).

Definition bump (model : string) (i o cost : Z) (direct : recorded) (l : ApiKeyLimit) : recorded :=
  λ id w, (direct id w + if (id =? limit_id l)%Z && (w =? reset_at l)%Z
                         then record_amount l model i o cost else 0)%Z.

Lemma record_amount_nonneg l model i o cost : (0 <= record_amount l model i o cost)%Z.
Proof. unfold record_amount. case_if; lia. Qed.

Lemma increment_limit_rows l model i o cost db :
  increment_limit l model i o cost db =
  {| keys := keys db;
     limits := map (λ r, if (limit_id r =? limit_id l)%Z
                         then r {{ current_value := (current_value r + record_amount l model i o cost)%Z }} else r) (limits db);
     reservations := reservations db |}.
Proof.
  assert (∀ ls, map (λ r, if (limit_id r =? limit_id l)%Z
    then r {{ current_value := (current_value r + 0)%Z }} else r) ls = ls) as Hid.
  { intros ls. rewrite <- (map_id ls) at 2. apply map_ext. intros []; simpl. rewrite Z.add_0_r. by case_if. }
  unfold increment_limit, record_amount.
  set (skip := match model_filter l with Some m => negb (String.eqb m model) | None => false end). destruct skip.
  { by rewrite Hid, DB_eta. }
  case_if; pyb.
  - rewrite Z.max_r by lia. by destruct db.
  - rewrite Z.max_l by lia. by rewrite Hid, DB_eta.
Qed.

Lemma increment_ledger l model i o cost db direct :
  (∀ r, r ∈ limits db → limit_id r = limit_id l → reset_at r = reset_at l) →
  ledger db direct → ledger (increment_limit l model i o cost db) (bump model i o cost direct l).
Proof.
  intros Hreset HL. rewrite increment_limit_rows. pose proof (record_amount_nonneg l model i o cost) as Hpos.
  set (a := record_amount l model i o cost) in *.
  set (h := λ r, if (limit_id r =? limit_id l)%Z then r {{ current_value := (current_value r + a)%Z }} else r).
  assert (∀ r, limit_id (h r) = limit_id r ∧ reset_at (h r) = reset_at r) as Hh.
  { intros r. unfold h. destruct r; simpl. by case_if. }
  constructor; simpl.
  - rewrite map_map_id; [by apply HL|]. intros; apply Hh.
  - by apply HL.
  - by apply HL.
  - intros x r it (l0 & -> & Hl0)%elem_of_map Hr Hit. destruct (Hh l0) as [-> ->]. intros Hi. by apply (ledger_expected _ _ HL l0 r it).
  - intros x (l0 & -> & Hl0)%elem_of_map. destruct (Hh l0) as [-> ->]. unfold bump. fold a.
    pose proof (ledger_direct _ _ HL l0 Hl0). case_if; lia.
  - intros x w (l0 & -> & Hl0)%elem_of_map. destruct (Hh l0) as [-> ->]. intros Hw. unfold bump. fold a.
    rewrite (ledger_future _ _ HL l0 w Hl0 Hw). case_if; [|done]. pyb. destruct Hb as [Hi ->].
    specialize (Hreset l0 Hl0 Hi). lia.
  - intros x (l0 & -> & Hl0)%elem_of_map. destruct (Hh l0) as [E1 E2]. rewrite E1, E2, (charges_same l0) by done.
    pose proof (ledger_balance _ _ HL l0 Hl0) as Hb. unfold bump. fold a. unfold h.
    destruct (Z.eqb_spec (limit_id l0) (limit_id l)) as [Hi|Hne]; simpl; [|lia].
    rewrite (Hreset l0 Hl0 Hi), Z.eqb_refl in *. destruct l0; simpl in *. lia.
Qed.

Lemma record_fold_ledger model i o cost ls db direct :
  (∀ l r, l ∈ ls → r ∈ limits db → limit_id r = limit_id l → reset_at r = reset_at l) →
  ledger db direct →
  ledger (fold_left (λ db l, increment_limit l model i o cost db) ls db) (fold_left (bump model i o cost) ls direct).
Proof.
  revert db direct. induction ls as [|l ls IH]; intros db direct Hreset HL; [done|]. cbn [fold_left].
  apply IH; [|apply increment_ledger; [intros; apply Hreset; [by left|done|done]|done]].
  intros l' r Hl' Hr. rewrite increment_limit_rows in Hr. simpl in Hr. apply elem_of_map in Hr as (r0 & -> & Hr0).
  intros Hi. rewrite <- (Hreset l' r0); [by destruct r0; simpl; case_if|by right|done|].
  rewrite <- Hi. destruct r0; simpl. by case_if.
Qed.

Lemma record_ledger k model i o cached tier now db direct :
  ledger db direct →
  let cost := _calculate_cost_microdollars model i o cached tier in
  ledger (record_usage k model i o cached tier now db) (fold_left (bump model i o cost) (get_limits_by_key k db) direct).
Proof.
  intros HL. cbv zeta. unfold record_usage, increment_limit_usage, update_last_used.
  set (cost := _calculate_cost_microdollars model i o cached tier).
  pose proof (record_fold_ledger model i o cost (get_limits_by_key k db) db direct) as H.
  destruct (fold_left _ _ db) as [ks ls rs]. simpl. apply (ledger_keys _ {| keys := ks; limits := ls; reservations := rs |}).
  apply H; [|done]. intros l r Hl Hr Hi. apply elem_of_filter_bool in Hl as [Hl _].
  by rewrite (NoDup_map_eq _ _ r l (ledger_limits _ _ HL) Hr Hl Hi).
Qed.

Lemma touch_ledger id now db direct :
  ledger db direct → ledger (fst (touch_usage_reservation id now db)) direct.
Proof.
  intros HL. set (h := λ r, if has_status id Reserved r then r {{ updated_at := now }} else r).
  assert (fst (touch_usage_reservation id now db) =
    {| keys := keys db; limits := limits db; reservations := map h (reservations db) |}) as -> by (by destruct db).
  assert (∀ r, reservation_id (h r) = reservation_id r ∧ items (h r) = items r ∧ res_status (h r) = res_status r) as Hh.
  { intros r. unfold h. case_if; [by destruct r|done]. }
  assert (∀ l, charges l (map h (reservations db)) = charges l (reservations db)) as Hc.
  { intros l. unfold charges. rewrite map_map. apply zsum_map_ext. intros r _. by rewrite (proj1 (proj2 (Hh r))). }
  clearbody h. destruct db as [ks ls rs]. simpl in *. destruct HL as [H1 H2 H3 H4 H5 H6 H7]. simpl in *.
  constructor; simpl; try done.
  - rewrite map_map_id; [done|]. intros; apply Hh.
  - intros r (r0 & -> & Hr0)%elem_of_map. destruct (H3 r0 Hr0) as (G1 & G2 & G3).
    destruct (Hh r0) as (_ & E2 & E3). unfold reservation_wf. by rewrite E2, E3.
  - intros l r it Hl (r0 & -> & Hr0)%elem_of_map. intros Hit. rewrite (proj1 (proj2 (Hh r0))) in Hit. by apply (H4 l r0).
  - intros l Hl. rewrite Hc. auto.
Qed.

(** *** Stale reservations *)

Definition stale_claim (now : Z) (r : Reservation) : Reservation :=
  r {{ res_status := Released; res_input_tokens := None; res_output_tokens := None;
       res_cached_input_tokens := None; res_cost_microdollars := None; updated_at := now }}.

Definition stale_row (now cutoff : Z) (r r' : Reservation) : Reservation :=
  upsert_all (λ _, 0%Z) (reservation_id r) (items r)
    (if String.eqb (reservation_id r') (reservation_id r) && stale cutoff r' then stale_claim now r' else r').

Lemma release_stale_row_eq now cutoff db count r :
  r ∈ reservations db → stale cutoff r = true →
  release_stale_row now cutoff (db, count) r =
  ({| keys := keys db; limits := map (adjust_rows (λ _, 0%Z) (items r)) (limits db);
      reservations := map (stale_row now cutoff r) (reservations db) |}, (count + 1)%Z).
Proof.
  intros Hr Hst. unfold release_stale_row.
  assert (any_where (λ r', String.eqb (reservation_id r') (reservation_id r) && stale cutoff r') (reservations db) = true) as ->.
  { apply existsb_exists. exists r. rewrite <- list_elem_of_In, String.eqb_refl. done. }
  simpl. f_equal. rewrite (fold_left_ext _ _ _ _ (release_item_close _)), fold_close.
  destruct db as [ks ls rs]. simpl. f_equal. unfold update_where. by rewrite map_map.
Qed.

Lemma stale_row_settles now cutoff r :
  stale cutoff r = true → NoDup (map item_limit_id (items r)) →
  settles (λ _, 0%Z) r (stale_row now cutoff r).
Proof.
  intros Hst Hnd.
  assert (∀ x, reservation_id (upsert_all (λ _, 0%Z) (reservation_id r) (items r) x) = reservation_id x) as Hu.
  { intros x. unfold upsert_all. case_if; [|done]. by destruct x. }
  unfold stale_row. split_and!.
  - intros x. rewrite Hu. case_if; [|done]. by destruct x.
  - intros x Hne. assert (String.eqb (reservation_id x) (reservation_id r) = false) as He by (by apply String.eqb_neq).
    rewrite He. simpl. unfold upsert_all. by rewrite He.
  - rewrite Hst, String.eqb_refl. simpl. unfold upsert_all.
    assert (reservation_id (stale_claim now r) = reservation_id r) as -> by (by destruct r).
    rewrite String.eqb_refl. destruct r; simpl in *. by apply (upsert_items_all (λ _, 0%Z)).
  - rewrite Hst, String.eqb_refl. simpl. unfold upsert_all.
    assert (reservation_id (stale_claim now r) = reservation_id r) as -> by (by destruct r).
    rewrite String.eqb_refl. by destruct r.
Qed.

Lemma stale_reserved cutoff r : stale cutoff r = true → res_status r = Reserved.
Proof. unfold stale. rewrite andb_true_iff, bool_decide_eq_true. tauto. Qed.

Lemma not_reserved_not_stale cutoff r : res_status r ≠ Reserved → stale cutoff r = false.
Proof. intros H. unfold stale. by rewrite bool_decide_eq_false_2. Qed.

(** A batch releases each of its rows and leaves the other rows alone. *)
Lemma stale_batch now cutoff batch db count direct :
  ledger db direct → NoDup (map reservation_id batch) →
  (∀ r, r ∈ batch → r ∈ reservations db ∧ stale cutoff r = true) →
  let '(db', count') := fold_left (release_stale_row now cutoff) batch (db, count) in
  ledger db' direct ∧ count' = (count + Z.of_nat (length batch))%Z ∧
  length (List.filter (stale cutoff) (reservations db)) =
    (length batch + length (List.filter (stale cutoff) (reservations db')))%nat ∧
  length (reservations db') = length (reservations db).
Proof.
  revert db count. induction batch as [|r batch IH]; intros db count HL Hnd Hin.
  { simpl. split_and!; [done|lia|done|done]. }
  cbn [fold_left map] in *. apply NoDup_cons in Hnd as [Hr Hnd].
  destruct (Hin r ltac:(by left)) as [Hrdb Hst]. rewrite release_stale_row_eq by done.
  destruct (ledger_wf _ _ HL r Hrdb) as (Hitems & _).
  pose proof (stale_row_settles now cutoff r Hst Hitems) as Hset. pose proof Hset as (Hid & Hother & _ & Hclosed).
  set (db1 := {| keys := keys db |}).
  assert (ledger db1 direct) as HL1.
  { apply settle_preserves_ledger; try done. by apply stale_reserved in Hst. }
  specialize (IH db1 (count + 1)%Z HL1 Hnd). destruct (fold_left _ batch _) as [db' count'].
  destruct IH as (G1 & G2 & G3 & G4).
  { intros r' Hr'. destruct (Hin r' ltac:(by right)) as [Hr'db Hst']. split; [|done]. simpl. apply elem_of_map.
    exists r'. split; [|done]. symmetry. apply Hother. intros Heq. apply Hr. rewrite <- Heq. apply elem_of_map. eauto. }
  assert (length (List.filter (stale cutoff) (reservations db)) =
          S (length (List.filter (stale cutoff) (reservations db1)))) as Hone.
  { apply (filter_length_change reservation_id _ _ _ r); [by apply HL|done|done|by apply not_reserved_not_stale|].
    intros y Hy Hne. by rewrite Hother. }
  simpl in G4. rewrite length_map in G4. cbn [length]. split_and!; [done|lia|lia|done].
Qed.

Lemma stale_batch_rows cutoff n db direct :
  ledger db direct →
  let batch := take n (merge_sort updated_order (List.filter (stale cutoff) (reservations db))) in
  NoDup (map reservation_id batch) ∧ (∀ r, r ∈ batch → r ∈ reservations db ∧ stale cutoff r = true).
Proof.
  intros HL. cbv zeta. pose proof (merge_sort_Permutation updated_order (List.filter (stale cutoff) (reservations db))) as Hp.
  set (l := merge_sort _ _) in *. split.
  - apply NoDup_map_take. rewrite Hp. apply NoDup_map_filter, HL.
  - intros r Hr. apply elem_of_filter_bool. rewrite <- Hp. 
    rewrite <- (take_drop n l). apply elem_of_app. by left.
Qed.

Lemma stale_loop_spec fuel now cutoff n db count direct :
  (0 < n)%nat → (length (List.filter (stale cutoff) (reservations db)) <= fuel)%nat → ledger db direct →
  ∃ db', release_stale_loop fuel now cutoff n db count =
      Some (db', (count + Z.of_nat (length (List.filter (stale cutoff) (reservations db))))%Z) ∧
    ledger db' direct ∧ List.filter (stale cutoff) (reservations db') = [].
Proof.
  intros Hn. revert db count. induction fuel as [|fuel IH]; intros db count Hfuel HL;
    cbn [release_stale_loop];
    destruct (stale_batch_rows cutoff n db direct HL) as [Hnd Hin]; cbv zeta in Hnd, Hin;
    pose proof (merge_sort_Permutation updated_order (List.filter (stale cutoff) (reservations db))) as Hp;
    apply Permutation_length in Hp; set (l := merge_sort _ _) in *.
  - assert (l = []) as -> by (destruct l; [done|simpl in *; lia]). rewrite take_nil. exists db.
    assert (List.filter (stale cutoff) (reservations db) = []) as -> by (by apply nil_length_inv; lia).
    split_and!; try done. do 2 f_equal. simpl. lia.
  - destruct (take n l) as [|r batch] eqn:Eb.
    + assert (l = []) as Hl by (destruct l; [done|by destruct n; [lia|]]).
      exists db. assert (List.filter (stale cutoff) (reservations db) = []) as ->.
      { apply nil_length_inv. by rewrite <- Hp, Hl. }
      split_and!; try done. do 2 f_equal. simpl. lia.
    + pose proof (stale_batch now cutoff (r :: batch) db count direct HL Hnd Hin) as Hb.
      destruct (fold_left _ (r :: batch) (db, count)) as [db1 count1]. destruct Hb as (HL1 & -> & Hlen & _).
      destruct (IH db1 (count + Z.of_nat (length (r :: batch)))%Z) as (db' & -> & HL' & Hnone);
        [simpl in Hlen; lia|done|].
      exists db'. split_and!; [|done|done]. do 2 f_equal. lia.
Qed.

(** The stale-reservation job always terminates, releases every reservation
    that was stale, returns their number, and keeps the books balanced. *)
Theorem release_stale_terminates now cutoff n db direct
    (Hn : (0 < n)%nat) (HL : ledger db direct) :
  ∃ db', release_stale_usage_reservations now cutoff n db =
      Some (db', Z.of_nat (length (List.filter (stale cutoff) (reservations db)))) ∧
    ledger db' direct ∧ (∀ r, r ∈ reservations db' → stale cutoff r = false).
Proof.
  unfold release_stale_usage_reservations.
  destruct (stale_loop_spec (S (length (reservations db))) now cutoff n db 0 direct Hn) as (db' & -> & HL' & Hnone).
  - pose proof (filter_le_length (stale cutoff) (reservations db)). lia.
  - done.
  - exists db'. split_and!; [done|done|]. intros r Hr. destruct (stale cutoff r) eqn:E; [|done].
    assert (r ∈ List.filter (stale cutoff) (reservations db')) as H by (by apply elem_of_filter_bool).
    rewrite Hnone in H. by apply elem_of_nil in H.
Qed.

(** *** Expired windows *)

Lemma expired_batch now batch db count direct :
  ledger db direct → NoDup (map limit_id batch) →
  (∀ l, l ∈ batch → l ∈ limits db ∧ expired_before now l = true) →
  let '(db', count') := fold_left (reset_expired_row now) batch (db, count) in
  ledger db' direct ∧ count' = (count + Z.of_nat (length batch))%Z ∧
  length (List.filter (expired_before now) (limits db)) =
    (length batch + length (List.filter (expired_before now) (limits db')))%nat.
Proof.
  revert db count. induction batch as [|l batch IH]; intros db count HL Hnd Hin.
  { simpl. split_and!; [done|lia|done]. }
  cbn [fold_left map] in *. apply NoDup_cons in Hnd as [Hl Hnd].
  destruct (Hin l ltac:(by left)) as [Hldb Hexp]. unfold expired_before in Hexp. apply Z.ltb_lt in Hexp.
  set (new := advance_limit_reset (reset_at l) now (limit_window l)).
  assert (now < new)%Z as Hnew by apply advance_gt.
  unfold reset_expired_row at 2. fold new.
  assert (reset_limit (limit_id l) (reset_at l) new db =
    (fst (reset_limit (limit_id l) (reset_at l) new db), true)) as ->.
  { unfold reset_limit. simpl. f_equal. apply existsb_exists. exists l.
    rewrite <- list_elem_of_In. split; [done|]. apply in_window_self. }
  pose proof (reset_ledger (limit_id l) (reset_at l) new db direct ltac:(lia) HL) as HL1.
  rewrite reset_limit_rows in *. set (db1 := {| keys := keys db |}) in *.
  assert (∀ x, limit_id x ≠ limit_id l → reset_row (limit_id l) (reset_at l) new x = x) as Hother.
  { intros x Hx. destruct (reset_row_cases (limit_id l) (reset_at l) new x) as [[_ ?]|[? _]]; done. }
  specialize (IH db1 (count + 1)%Z HL1 Hnd). destruct (fold_left _ batch _) as [db' count'].
  destruct IH as (G1 & G2 & G3).
  { intros x Hx. destruct (Hin x ltac:(by right)) as [Hxdb Hxe]. split; [|done]. simpl. apply elem_of_map.
    exists x. split; [|done]. symmetry. apply Hother. intros Heq. apply Hl. rewrite <- Heq. apply elem_of_map. eauto. }
  assert (length (List.filter (expired_before now) (limits db)) =
          S (length (List.filter (expired_before now) (limits db1)))) as Hone.
  { apply (filter_length_change limit_id _ _ _ l); [by apply HL|done|by apply Z.ltb_lt| |].
    - destruct (reset_row_cases (limit_id l) (reset_at l) new l) as [[Hw _]|(_ & _ & Hr & _)].
      + by rewrite in_window_self in Hw.
      + unfold expired_before. rewrite Hr. apply Z.ltb_ge. lia.
    - intros y Hy Hne. by rewrite Hother. }
  cbn [length]. split_and!; [done|lia|lia].
Qed.

Lemma reset_expired_facts now db direct (HL : ledger db direct) :
  ∃ db', reset_expired_limits now db =
      Some (db', Z.of_nat (length (List.filter (expired_before now) (limits db)))) ∧
    ledger db' direct ∧ (∀ l, l ∈ limits db' → (now <= reset_at l)%Z).
Proof.
  assert (∀ fuel db count, (length (List.filter (expired_before now) (limits db)) <= fuel)%nat → ledger db direct →
    ∃ db', reset_expired_loop fuel now db count =
      Some (db', (count + Z.of_nat (length (List.filter (expired_before now) (limits db))))%Z) ∧
    ledger db' direct ∧ List.filter (expired_before now) (limits db') = []) as Hloop.
  { clear. induction fuel as [|fuel IH]; intros db count Hfuel HL; cbn [reset_expired_loop];
      pose proof (merge_sort_Permutation reset_order (List.filter (expired_before now) (limits db))) as Hp;
      pose proof (Permutation_length Hp) as Hpl; set (l := merge_sort _ _) in *.
    - assert (l = []) as -> by (destruct l; [done|simpl in *; lia]). rewrite take_nil. exists db.
      assert (List.filter (expired_before now) (limits db) = []) as -> by (by apply nil_length_inv; lia).
      split_and!; try done. do 2 f_equal. simpl. lia.
    - destruct (take EXPIRED_LIMIT_RESET_BATCH_SIZE l) as [|r batch] eqn:Eb.
      + assert (l = []) as Hl by (by destruct l).
        exists db. assert (List.filter (expired_before now) (limits db) = []) as ->.
        { apply nil_length_inv. by rewrite <- Hpl, Hl. }
        split_and!; try done. do 2 f_equal. simpl. lia.
      + assert (∀ x, x ∈ r :: batch → x ∈ l) as Hsub.
        { intros x Hx. rewrite <- (take_drop EXPIRED_LIMIT_RESET_BATCH_SIZE l), Eb. apply elem_of_app. by left. }
        pose proof (expired_batch now (r :: batch) db count direct HL) as Hb.
        destruct (fold_left _ (r :: batch) (db, count)) as [db1 count1]. destruct Hb as (HL1 & -> & Hlen).
        * rewrite <- Eb. apply NoDup_map_take. rewrite Hp. apply NoDup_map_filter, HL.
        * intros x Hx. apply elem_of_filter_bool. rewrite <- Hp. auto.
        * destruct (IH db1 (count + Z.of_nat (length (r :: batch)))%Z) as (db' & -> & HL' & Hnone);
            [simpl in Hlen; lia|done|].
          exists db'. split_and!; [|done|done]. do 2 f_equal. lia. }
  unfold reset_expired_limits.
  destruct (Hloop (S (length (limits db))) db 0%Z) as (db' & -> & HL' & Hnone); [|done|].
  - pose proof (filter_le_length (expired_before now) (limits db)). lia.
  - exists db'. split_and!; [done|done|]. intros l Hl. destruct (expired_before now l) eqn:E.
    + assert (l ∈ List.filter (expired_before now) (limits db')) as H by (by apply elem_of_filter_bool).
      rewrite Hnone in H. by apply elem_of_nil in H.
    + unfold expired_before in E. pyb. done.
Qed.

(** The job that resets expired windows always terminates with no window
    left expired, counts the windows it reset, and keeps the books. *)
Theorem reset_expired_terminates now db direct (HL : ledger db direct) :
  ∃ db', reset_expired_limits now db =
      Some (db', Z.of_nat (length (List.filter (expired_before now) (limits db)))) ∧
    ledger db' direct ∧ (∀ l, l ∈ limits db' → (now <= reset_at l)%Z).
Proof. by apply reset_expired_facts. Qed.

(** *** The system *)

(** The operations on usage limits, in any order, with consistent token
    counts (cached input is part of the input). *)
Inductive step : DB * recorded → DB * recorded → Prop :=
| step_validate k now db d :
    step (db, d) (fst (_lazy_reset_expired_limits (get_limits_by_key k db) now db), d)
| step_enforce k rq fresh now db d :
    (∀ r, r ∈ reservations db → reservation_id r ≠ fresh) →
    step (db, d) (fst (_enforce_limits_for_request_once k rq fresh now db), d)
| step_finalize id model i o c tier now db d :
    (0 <= c <= i)%Z → (0 <= o)%Z →
    step (db, d) (finalize_usage_reservation id model i o c tier now db, d)
| step_fail id model i o c tier now db d :
    (0 <= or_z c 0 <= or_z i 0)%Z → (0 <= or_z o 0)%Z →
    step (db, d) (fail_usage_reservation id model i o c tier now db, d)
| step_release id now db d : step (db, d) (release_usage_reservation id now db, d)
| step_touch id now db d : step (db, d) (fst (touch_usage_reservation id now db), d)
| step_stale now cutoff n db d db' count :
    (0 < n)%nat → release_stale_usage_reservations now cutoff n db = Some (db', count) → step (db, d) (db', d)
| step_reset now db d db' count :
    reset_expired_limits now db = Some (db', count) → step (db, d) (db', d)
| step_record k model i o c tier now db d :
    step (db, d) (record_usage k model i o c tier now db,
      fold_left (bump model i o (_calculate_cost_microdollars model i o c tier)) (get_limits_by_key k db) d).

(** A database before the first reservation. *)
Definition initial (db : DB) (d : recorded) : Prop :=
  reservations db = [] ∧ NoDup (map limit_id (limits db)) ∧
  ∀ l, l ∈ limits db → (0 <= current_value l)%Z ∧
    ∀ w, d (limit_id l) w = if (w =? reset_at l)%Z then current_value l else 0%Z.

Inductive reachable : DB * recorded → Prop :=
| reach_initial db d : initial db d → reachable (db, d)
| reach_step s s' : reachable s → step s s' → reachable s'.

Lemma initial_ledger db d : initial db d → ledger db d.
Proof.
  intros (Hr & Hnd & Hl). constructor; rewrite ?Hr; try done; try (by intros; set_solver).
  - constructor.
  - intros l Hin. destruct (Hl l Hin) as [? Hd]. rewrite Hd. case_if; lia.
  - intros l w Hin Hw. destruct (Hl l Hin) as [_ ->]. case_if; [pyb; lia|done].
  - intros l Hin. destruct (Hl l Hin) as [_ ->]. rewrite Z.eqb_refl. unfold charges. simpl. lia.
Qed.

Lemma or_z_some z : or_z (Some z) 0 = z.
Proof. unfold or_z. case_if; pyb; done. Qed.

Lemma stale_some now cutoff n db d db' count :
  (0 < n)%nat → ledger db d → release_stale_usage_reservations now cutoff n db = Some (db', count) → ledger db' d.
Proof.
  intros Hn HL H. unfold release_stale_usage_reservations in H.
  destruct (stale_loop_spec (S (length (reservations db))) now cutoff n db 0 d Hn) as (db'' & Heq & HL' & _);
    [pose proof (filter_le_length (stale cutoff) (reservations db)); lia|done|]. congruence.
Qed.

Lemma step_ledger s s' : step s s' → ledger (fst s) (snd s) → ledger (fst s') (snd s').
Proof.
  destruct 1; simpl; intros HL.
  - by apply lazy_reset_ledger.
  - by apply enforce_ledger.
  - unfold finalize_usage_reservation. apply settle_ledger; rewrite ?or_z_some; done.
  - by apply settle_ledger.
  - by apply release_ledger.
  - by apply touch_ledger.
  - by eapply stale_some.
  - destruct (reset_expired_facts now db d HL) as (db'' & Heq & HL' & _). congruence.
  - by apply record_ledger.
Qed.

(** C1. The books balance in every reachable state: whatever the order of
    enforcement, settlement, release, stale clean-up, window resets and
    recorded usage, from a database without reservations on, as long as
    reservation ids are fresh and every settled usage is consistent (no count
    is negative and at most the input is cached, which the code does not
    check), the current value of every limit is exactly the open
    reservations plus the settled usage of its current window plus the usage
    recorded directly in it; so the guard that protects a refund never fires,
    and the counter is never below what is still reserved. *)
Theorem books_balance db d (Hreach : reachable (db, d)) :
  ∀ l, l ∈ limits db →
    current_value l = (charges l (reservations db) + d (limit_id l) (reset_at l))%Z ∧
    (0 <= current_value l)%Z ∧
    ∀ r it, r ∈ reservations db → res_status r = Reserved → it ∈ items r →
      in_window (item_limit_id it) (expected_reset_at it) l = true →
      (reserved_delta it <= current_value l)%Z.
Proof.
  assert (ledger db d) as HL.
  { remember (db, d) as s eqn:Es. change (ledger (fst (db, d)) (snd (db, d))). rewrite <- Es. clear Es.
    induction Hreach as [db0 d0 H|s s' _ IH Hs]; [by apply initial_ledger|by eapply step_ledger]. }
  intros l Hl. split_and!.
  - by apply HL.
  - rewrite (ledger_balance _ _ HL l Hl). pose proof (ledger_direct _ _ HL l Hl).
    assert (0 <= charges l (reservations db))%Z; [|lia].
    apply zsum_map_nonneg. intros r Hr. apply items_charge_nonneg. by apply HL.
  - intros r it Hr Hst Hit Hw. pose proof (ledger_covers db d l r it HL Hl Hr Hit) as H.
    destruct (ledger_wf _ _ HL r Hr) as (_ & _ & Hnone). unfold item_charge in H.
    rewrite Hw, (Hnone Hst it Hit) in H. exact H.
Qed.

(** C2. An admitted request has reserved on every limit of its key that applies
    to its model: each of those limits was below its maximum and is at most at
    it afterwards; all other limits are untouched.  A rejected request
    reserves nothing at all. *)
Theorem enforce_within_limits k rq fresh now db db' r
    (Hnd : NoDup (map limit_id (limits db)))
    (Hrun : _enforce_limits_for_request_once k rq fresh now db = (db', r)) :
  let db0 := fst (_lazy_reset_expired_limits (get_limits_by_key k db) now db) in
  match r with
  | Err _ => db' = db ∨ db' = db0
  | Ok id =>
      id = fresh ∧
      ∀ l, l ∈ limits db0 → ∃ l', l' ∈ limits db' ∧ limit_id l' = limit_id l ∧ max_value l' = max_value l ∧
        if String.eqb (api_key_id l) k && _limit_applies_for_request l (request_model rq)
        then (current_value l < max_value l)%Z ∧ (current_value l <= current_value l' <= max_value l)%Z
        else l' = l
  end.
Proof.
  assert (NoDup (map limit_id (limits (fst (_lazy_reset_expired_limits (get_limits_by_key k db) now db))))) as Hnd0.
  { by apply lazy_reset_ids. }
  apply enforce_cases in Hrun; [|done]. cbv zeta in *.
  set (db0 := fst (_lazy_reset_expired_limits _ now db)) in *.
  destruct r as [id|e]; [|done]. destruct Hrun as (-> & -> & Hroom). split; [done|].
  intros l Hl. unfold reserve_state, create_usage_reservation. simpl.
  set (new := map (reserved_item rq (request_usage_budget rq)) (applying rq (get_limits_by_key k db0))).
  exists (charge_row new l). split; [apply elem_of_map; eauto|].
  destruct (charge_row_keys new l) as (-> & _ & -> & _). split; [done|]. split; [done|].
  destruct (String.eqb (api_key_id l) k && _limit_applies_for_request l (request_model rq)) eqn:Ea.
  - apply andb_prop in Ea as [Ek Ea].
    assert (l ∈ applying rq (get_limits_by_key k db0)) as Hin.
    { apply elem_of_filter_bool. split; [|done]. by apply elem_of_filter_bool. }
    specialize (Hroom l Hin). split; [done|].
    assert (current_value (charge_row new l) = current_value l + items_charge l new)%Z as -> by (by destruct l).
    destruct (reserve_delta_range l (request_model rq) (request_service_tier rq) (request_usage_budget rq)) as [Hd Hm].
    assert (items_charge l new = reserved_delta (reserved_item rq (request_usage_budget rq) l)) as ->.
    { unfold items_charge, new. rewrite map_map.
      rewrite (zsum_map_change limit_id (λ _, 0%Z) _ _ l).
      - assert (∀ (xs : list ApiKeyLimit), zsum (map (λ _, 0%Z) xs) = 0%Z) as -> by (clear; induction xs; simpl; lia).
        unfold item_charge. simpl. rewrite in_window_self. lia.
      - by do 2 apply NoDup_map_filter.
      - done.
      - intros y _ Hne. unfold item_charge, in_window. simpl. by destruct (Z.eqb_spec (limit_id l) (limit_id y)). }
    simpl. specialize (Hm Hroom). lia.
  - apply charge_other. intros it (s & -> & Hs)%elem_of_map. simpl. intros Heq.
    apply elem_of_filter_bool in Hs as [Hs Happ]. apply elem_of_filter_bool in Hs as [Hs Hk].
    rewrite (NoDup_map_eq _ _ s l Hnd0 Hs Hl Heq) in *. by rewrite Hk, Happ in Ea.
Qed.

(** A reservation that is not open is left alone. *)
Lemma closed_noop id db :
  (∀ r, get_usage_reservation id db = Some r → res_status r ≠ Reserved) →
  (∀ now, release_usage_reservation id now db = db) ∧
  (∀ model i o c tier st now, _settle_usage_reservation id model i o c tier st now db = db).
Proof.
  intros H. unfold release_usage_reservation, _settle_usage_reservation.
  destruct (get_usage_reservation id db) as [r|]; [|done]. rewrite bool_decide_eq_false_2 by auto. done.
Qed.

(** C13. In a state whose books balance, settling an open reservation with a
    consistent usage (no count is negative and at most the input is cached,
    which the code does not check) replaces, on every limit whose window is
    still the reserved one, the reserved amount by the actual usage of the
    limit's type; limits whose window moved on are untouched; and the
    reservation is closed: settling or releasing it again changes nothing. *)
Theorem settle_exact id model i o c tier now db d r
    (HL : ledger db d) (Hget : get_usage_reservation id db = Some r) (Hopen : res_status r = Reserved)
    (Hc : (0 <= c <= i)%Z) (Ho : (0 <= o)%Z) :
  let db' := finalize_usage_reservation id model i o c tier now db in
  let cost := _calculate_cost_microdollars model i o c tier in
  (∀ l, l ∈ limits db → ∃ l', l' ∈ limits db' ∧ limit_id l' = limit_id l ∧
    current_value l' = (current_value l + zsum (map (diff (settle_act i o cost) l) (items r)))%Z) ∧
  (∀ now', release_usage_reservation id now' db' = db') ∧
  (∀ model' i' o' c' tier' st now', _settle_usage_reservation id model' i' o' c' tier' st now' db' = db').
Proof.
  cbv zeta. unfold finalize_usage_reservation.
  destruct (settle_unfold id model (Some i) (Some o) (Some c) tier Finalized now db r Hget Hopen) as [ks Heq].
  rewrite !or_z_some in Heq. set (cost := _calculate_cost_microdollars model i o c tier) in *.
  set (act := settle_act i o cost) in *. rewrite Heq.
  destruct (get_usage_reservation_spec _ _ _ Hget) as [Hin Hid].
  destruct (ledger_wf _ _ HL r Hin) as (Hnd & Hwf & Hnone).
  set (h := closed_row act id (items r) _ _).
  assert (settles act r h) as (Hh1 & Hh2 & Hh3 & Hh4).
  { apply closed_row_settles; try done; intros []; done. }
  split.
  - intros l Hl. exists (adjust_rows act (items r) l). split; [simpl; apply elem_of_map; eauto|].
    split; [apply adjust_rows_keys|]. apply adjust_rows_current; [done| |].
    + intros it _. apply increment_nonneg; [lia|lia|]. by apply cost_microdollars_nonneg.
    + intros it Hit Hw. assert (item_charge l it = reserved_delta it) as <-.
      { unfold item_charge. by rewrite Hw, (Hnone Hopen it Hit). } by eapply ledger_covers.
  - assert (∀ r', get_usage_reservation id
        {| keys := ks; limits := map (adjust_rows act (items r)) (limits db); reservations := map h (reservations db) |}
        = Some r' → res_status r' ≠ Reserved) as Hclosed.
    { intros r' Hr'. apply get_usage_reservation_spec in Hr' as [Hr' Hid']. simpl in Hr'.
      apply elem_of_map in Hr' as (r0 & -> & Hr0). rewrite Hh1 in Hid'.
      rewrite (NoDup_map_eq _ _ r0 r (ledger_reservations _ _ HL) Hr0 Hin) by congruence. done. }
    by apply closed_noop.
Qed.

(** *** Limit rules *)

Lemma limit_type_of_inv s t : limit_type_of s = Some t → limit_type_value t = s.
Proof.
  unfold limit_type_of. repeat match goal with |- context [String.eqb s ?x] =>
    destruct (String.eqb_spec s x) as [->|]; [by intros [= <-]|] end. done.
Qed.

Lemma limit_window_of_inv s w : limit_window_of s = Some w → limit_window_value w = s.
Proof.
  unfold limit_window_of. repeat match goal with |- context [String.eqb s ?x] =>
    destruct (String.eqb_spec s x) as [->|]; [by intros [= <-]|] end. done.
Qed.

Lemma limit_input_to_row_ok li k now current reset row :
  _limit_input_to_row li k now current reset = Ok row →
  _limit_identity_from_row row = _limit_identity_from_input li ∧ api_key_id row = k ∧
  max_value row = in_max_value li ∧ current_value row = current ∧
  reset_at row = match reset with Some r => r | None => next_limit_reset now (limit_window row) end ∧
  (limit_type row = CREDITS → model_filter row = None).
Proof.
  unfold _limit_input_to_row. destruct (limit_window_of _) as [w|] eqn:Ew; [|done].
  destruct (String.eqb _ _ && _) eqn:Hb; [done|].
  destruct (limit_type_of _) as [t|] eqn:Et; [|done]. intros [= <-].
  apply limit_type_of_inv in Et. apply limit_window_of_inv in Ew. unfold _limit_identity_from_row, _limit_identity_from_input.
  simpl. split_and!; try done; [by rewrite Et, Ew|]. intros ->. rewrite <- Et in Hb. simpl in Hb.
  by destruct (in_model_filter li).
Qed.

Lemma map_res_ok {A B} (f : A → res ApiKeyError B) l l' :
  map_res f l = Ok l' → Forall2 (λ x y, f x = Ok y) l l'.
Proof.
  revert l'. induction l as [|x l IH]; intros l'; simpl; [intros [= <-]; constructor|].
  destruct (f x) as [y|] eqn:E; [|done]. simpl. destruct (map_res f l) as [ys|]; [|done]. simpl.
  intros [= <-]. constructor; auto.
Qed.

Lemma remove_dups_length {A} `{EqDecision A} (l : list A) :
  length (remove_dups l) = length l → NoDup l.
Proof.
  assert (∀ l : list A, length (remove_dups l) <= length l)%nat as Hle.
  { clear. induction l as [|x l IH]; simpl; [lia|]. case_decide; simpl; lia. }
  induction l as [|x l IH]; simpl; [constructor|]. case_decide as Hx.
  - intros H. specialize (Hle l). lia.
  - intros [= H]. constructor; [|auto]. by apply IH in H.
Qed.

(** Editing the limit rules of a key keeps the usage already counted: the new
    rows have the submitted identities, without duplicates; a rule whose
    identity existed keeps its current value and window unless a reset of
    usage is asked for, and every other rule starts at zero in a fresh
    window. *)
Theorem limit_update_keeps_usage k now submitted existing reset_usage rows
    (Hok : _build_limit_rows_for_update k now submitted existing reset_usage = Ok rows) :
  map _limit_identity_from_row rows = map _limit_identity_from_input submitted ∧
  NoDup (map _limit_identity_from_row rows) ∧
  ∀ row, row ∈ rows → api_key_id row = k ∧
    match existing_by_key existing (_limit_identity_from_row row) with
    | Some old =>
        if reset_usage then current_value row = 0%Z ∧ reset_at row = next_limit_reset now (limit_window row)
        else current_value row = current_value old ∧ reset_at row = reset_at old
    | None => current_value row = 0%Z ∧ reset_at row = next_limit_reset now (limit_window row)
    end.
Proof.
  unfold _build_limit_rows_for_update in Hok.
  destruct (Nat.eqb_spec (length (remove_dups (map _limit_identity_from_input submitted))) (length submitted))
    as [Hlen|]; [|done]. simpl in Hok. apply map_res_ok in Hok.
  assert (∀ li row, update_row k now existing reset_usage li = Ok row →
    _limit_identity_from_row row = _limit_identity_from_input li ∧ api_key_id row = k ∧
    match existing_by_key existing (_limit_identity_from_input li) with
    | Some old =>
        if reset_usage then current_value row = 0%Z ∧ reset_at row = next_limit_reset now (limit_window row)
        else current_value row = current_value old ∧ reset_at row = reset_at old
    | None => current_value row = 0%Z ∧ reset_at row = next_limit_reset now (limit_window row)
    end) as Hrow.
  { intros li row. unfold update_row. destruct (existing_by_key _ _) as [old|]; [destruct reset_usage|];
      intros H; apply limit_input_to_row_ok in H; tauto. }
  assert (map _limit_identity_from_row rows = map _limit_identity_from_input submitted) as Hids.
  { clear -Hok Hrow. induction Hok as [|li row ls rs H _ IH]; simpl; [done|].
    apply Hrow in H as (-> & _). by rewrite IH. }
  split_and!; [done|rewrite Hids; apply remove_dups_length; by rewrite length_map|].
  clear -Hok Hrow. induction Hok as [|li row ls rs H _ IH]; intros x; [set_solver|].
  intros [->|Hx]%elem_of_cons; [|auto]. apply Hrow in H as (-> & ? & ?). done.
Qed.

(** *** Retries *)

(** The retry wrapper always returns, after at most three sleeps of 0.1, 0.2
    and 0.4 seconds: with the result of the first attempt that does not fail,
    provided every failure before it was a locked database, and with the
    first other failure, or the fourth failure, otherwise. *)
Theorem busy_retry_total {A} (faults : nat → option fault) (run : DB → DB * A) db :
  ∃ db' r delays, with_busy_retry faults run db = Some (db', r, delays) ∧
    delays ∈ [[]; [1]; [1; 2]; [1; 2; 4]]%Z ∧
    match r with
    | Ok a => ∃ db0, run db0 = (db', a) ∧ faults (length delays) = None
    | Err msg => ∃ f, faults (length delays) = Some f ∧ fault_message f = msg ∧
        (_is_sqlite_database_locked msg = false ∨ length delays = 3%nat)
    end.
Proof.
  unfold with_busy_retry, _SQLITE_BUSY_RETRY_ATTEMPTS. cbn [retry_loop].
  assert (∀ (n : nat) (d : DB) (delays : list Z), length delays = n → faults n = None →
    delays ∈ [[]; [1]; [1; 2]; [1; 2; 4]]%Z →
    ∃ db' r delays', (let (db, r) := run d in Some (db, Ok r, delays)) = Some (db', r, delays') ∧
      delays' ∈ [[]; [1]; [1; 2]; [1; 2; 4]]%Z ∧
      match r with
      | Ok a => ∃ db0, run db0 = (db', a) ∧ faults (length delays') = None
      | Err msg => ∃ f, faults (length delays') = Some f ∧ fault_message f = msg ∧
          (_is_sqlite_database_locked msg = false ∨ length delays' = 3%nat)
      end) as Hok.
  { intros n d delays Hl Hf Hd. destruct (run d) as [db' a] eqn:E. eexists _, _, _. split; [done|].
    split; [done|]. simpl. exists d. by rewrite Hl. }
  assert (∀ (n : nat) (f : fault) (d : DB) (delays : list Z), length delays = n → faults n = Some f →
    delays ∈ [[]; [1]; [1; 2]; [1; 2; 4]]%Z → (_is_sqlite_database_locked (fault_message f) = false ∨ n = 3%nat) →
    ∃ db' (r : res string A) delays', Some (d, Err (fault_message f), delays) = Some (db', r, delays') ∧
      delays' ∈ [[]; [1]; [1; 2]; [1; 2; 4]]%Z ∧
      match r with
      | Ok a => ∃ db0, run db0 = (db', a) ∧ faults (length delays') = None
      | Err msg => ∃ f, faults (length delays') = Some f ∧ fault_message f = msg ∧
          (_is_sqlite_database_locked msg = false ∨ length delays' = 3%nat)
      end) as Herr.
  { intros n f d delays Hl Hf Hd Hwhy. eexists _, _, _. split; [done|]. split; [done|]. simpl. exists f. subst n. auto. }
  destruct (faults 0%nat) as [f0|] eqn:E0; [|apply (Hok 0%nat); [done|done|set_solver]].
  destruct (_is_sqlite_database_locked (fault_message f0)) eqn:L0; simpl;
    [|apply (Herr 0%nat f0); [done|done|set_solver|by left]].
  destruct (faults 1%nat) as [f1|] eqn:E1; [|apply (Hok 1%nat); [done|done|set_solver]].
  destruct (_is_sqlite_database_locked (fault_message f1)) eqn:L1; simpl;
    [|apply (Herr 1%nat f1); [done|done|set_solver|by left]].
  destruct (faults 2%nat) as [f2|] eqn:E2; [|apply (Hok 2%nat); [done|done|set_solver]].
  destruct (_is_sqlite_database_locked (fault_message f2)) eqn:L2; simpl;
    [|apply (Herr 2%nat f2); [done|done|set_solver|by left]].
  destruct (faults 3%nat) as [f3|] eqn:E3; [|apply (Hok 3%nat); [done|done|set_solver]].
  rewrite orb_true_r. apply (Herr 3%nat f3); [done|done|set_solver|by right].
Qed.

(** *** Concrete runs *)

Definition ex_key : ApiKey := {| key_id := "k"; is_active := true; expires_at := None; last_used_at := None |}.
Definition ex_limit : ApiKeyLimit :=
  {| limit_id := 1; api_key_id := "k"; limit_type := TOTAL_TOKENS; limit_window := DAILY; max_value := 20000;
     current_value := 500; model_filter := None; reset_at := 1000 |}.
Definition ex_db : DB := {| keys := [ex_key]; limits := [ex_limit]; reservations := [] |}.
Definition ex_direct : recorded := λ id w, if (w =? 1000)%Z then 500%Z else 0%Z.
Definition ex_request : Request :=
  {| request_model := Some "gpt-5"; request_service_tier := None; request_usage_budget := None |}.
Definition ex_db1 : DB := fst (_enforce_limits_for_request_once "k" ex_request "ur_1" 900 ex_db).

Lemma ex_initial : initial ex_db ex_direct.
Proof.
  split_and!; [done|apply NoDup_singleton|]. intros l ->%list_elem_of_singleton. done.
Qed.

Lemma ex_ledger1 : ledger ex_db1 ex_direct.
Proof.
  apply enforce_ledger; [intros r Hr; by apply elem_of_nil in Hr|]. apply initial_ledger, ex_initial.
Qed.

Lemma books_balance_witness :
  ∃ l, l ∈ limits ex_db1 ∧ (500 < current_value l)%Z ∧
    current_value l = (charges l (reservations ex_db1) + ex_direct (limit_id l) (reset_at l))%Z.
Proof.
  eexists. split; [by left|]. split; [by vm_compute|]. apply (books_balance ex_db1 ex_direct); [|by left].
  eapply reach_step; [apply reach_initial, ex_initial|].
  apply step_enforce. intros r Hr. by apply elem_of_nil in Hr.
Defined.

Lemma enforce_within_limits_witness :
  ∃ l', l' ∈ limits ex_db1 ∧ (500 <= current_value l' <= 20000)%Z.
Proof.
  destruct (enforce_within_limits "k" ex_request "ur_1" 900 ex_db ex_db1 (Ok "ur_1")) as [_ H];
    [apply NoDup_singleton|by vm_compute|].
  destruct (H ex_limit) as (l' & Hin & _ & _ & Hr); [by left|]. exists l'. split; [exact Hin|]. apply Hr.
Defined.

Lemma settle_exact_witness :
  release_usage_reservation "ur_1" 960 (finalize_usage_reservation "ur_1" "gpt-5" 100 50 10 None 950 ex_db1) =
    finalize_usage_reservation "ur_1" "gpt-5" 100 50 10 None 950 ex_db1.
Proof.
  destruct (get_usage_reservation "ur_1" ex_db1) as [r|] eqn:E; [|by vm_compute in E].
  destruct (settle_exact "ur_1" "gpt-5" 100 50 10 None 950 ex_db1 ex_direct r) as (_ & H & _);
    [apply ex_ledger1|done| |lia|lia|exact (H 960%Z)]. vm_compute in E. injection E as <-. done.
Defined.

Lemma release_stale_terminates_witness :
  ∃ db', release_stale_usage_reservations 2000 1500 500 ex_db1 = Some (db', 1%Z).
Proof.
  destruct (release_stale_terminates 2000 1500 500 ex_db1 ex_direct) as (db' & H & _ & _); [lia|apply ex_ledger1|].
  exists db'. rewrite H. by vm_compute.
Defined.

Lemma reset_expired_terminates_witness :
  ∃ db', reset_expired_limits 5000 ex_db1 = Some (db', 1%Z).
Proof.
  destruct (reset_expired_terminates 5000 ex_db1 ex_direct) as (db' & H & _ & _); [apply ex_ledger1|].
  exists db'. rewrite H. by vm_compute.
Defined.

Definition ex_rule : LimitRuleInput :=
  {| in_limit_type := "total_tokens"; in_limit_window := "daily"; in_max_value := 30000; in_model_filter := None |}.

Lemma limit_update_keeps_usage_witness :
  api_key_id (ex_limit {{ limit_id := 0%Z; max_value := 30000%Z }}) = "k" ∧
  current_value (ex_limit {{ limit_id := 0%Z; max_value := 30000%Z }}) = current_value ex_limit.
Proof.
  destruct (limit_update_keeps_usage "k" 900 [ex_rule] [ex_limit] false
    [ex_limit {{ limit_id := 0%Z; max_value := 30000%Z }}]) as (_ & _ & H); [by vm_compute|].
  destruct (H _ ltac:(by left)) as [H1 H2]. split; [exact H1|apply H2].
Defined.

End ApiKeyFacts.
