(* ===== verification/Coordination.v ===== *)
(** Coordination through the database: the attempt limiter of
    [src/app/core/rate_limiter/db_rate_limiter.py] and the scheduler leader
    lease of [src/app/core/scheduling/leader_election.py].

    Times are UTC microseconds; each statement-and-commit is one atomic
    transformation of the table. *)

From S2P Require Import Prelude Models.

(** ** Attempt limiter *)
Module RateLimiter.

Record RateLimitAttempt := { att_key : string; att_type : string; attempted_at : Z }.

Record DatabaseRateLimiter := { max_attempts : Z; window_seconds : Z; type : string }.

Inductive LimiterError := LimiterValueError (message : string) | DashboardRateLimitError (retry_after : Z).

Definition new (max window : Z) (ty : string) : res LimiterError DatabaseRateLimiter :=
  if (max <=? 0)%Z then Err (LimiterValueError "max_attempts must be positive")
  else if (window <=? 0)%Z then Err (LimiterValueError "window_seconds must be positive")
  else Ok {| max_attempts := max; window_seconds := window; type := ty |}.

Definition _window_start (l : DatabaseRateLimiter) (now : Z) : Z := (now - seconds (window_seconds l))%Z.

(** The rows every query of the class selects. *)
Definition in_window (l : DatabaseRateLimiter) (key : string) (window_start : Z) (a : RateLimitAttempt) : bool :=
  String.eqb (att_key a) key && String.eqb (att_type a) (type l) && (window_start <=? attempted_at a)%Z.

Definition count_attempts (l : DatabaseRateLimiter) (key : string) (window_start : Z) (rows : list RateLimitAttempt) : Z :=
  Z.of_nat (length (List.filter (in_window l key window_start) rows)).

(** [ORDER BY attempted_at LIMIT 1]. *)
Definition oldest_attempt (l : DatabaseRateLimiter) (key : string) (window_start : Z) (rows : list RateLimitAttempt)
    : option Z :=
  option_map attempted_at (min_by attempted_at (List.filter (in_window l key window_start) rows)).

Definition retry_after (l : DatabaseRateLimiter) (oldest : option Z) (now : Z) : Z :=
  match oldest with
  | None => window_seconds l
  | Some t =>
      let reset_at := (t + seconds (window_seconds l))%Z in
      Z.max 1 (py_int (inject_Z (reset_at - now) / 1000000)%Q)
  end.

(** [t1] is read for the window, [t2] for the retry hint. *)
Definition check (l : DatabaseRateLimiter) (key : string) (t1 t2 : Z) (rows : list RateLimitAttempt)
    : res LimiterError unit :=
  let window_start := _window_start l t1 in
  if (max_attempts l <=? count_attempts l key window_start rows)%Z
  then Err (DashboardRateLimitError (retry_after l (oldest_attempt l key window_start rows) t2))
  else Ok tt.

Definition attempt (l : DatabaseRateLimiter) (key : string) (now : Z) : RateLimitAttempt :=
  {| att_key := key; att_type := type l; attempted_at := now |}.

Definition check_and_increment (l : DatabaseRateLimiter) (key : string) (now : Z) (rows : list RateLimitAttempt)
    : list RateLimitAttempt * res LimiterError unit :=
  let window_start := _window_start l now in
  if (count_attempts l key window_start rows <? max_attempts l)%Z
  then (rows ++ [attempt l key now], Ok tt)
  else (rows, Err (DashboardRateLimitError (retry_after l (oldest_attempt l key window_start rows) now))).

Definition record_failure (l : DatabaseRateLimiter) (key : string) (now : Z) (rows : list RateLimitAttempt)
    : list RateLimitAttempt * res LimiterError unit :=
  let rows := rows ++ [attempt l key now] in
  let window_start := _window_start l now in
  (rows, if (max_attempts l <? count_attempts l key window_start rows)%Z
         then Err (DashboardRateLimitError (retry_after l (oldest_attempt l key window_start rows) now))
         else Ok tt).

Definition clear_for_key (l : DatabaseRateLimiter) (key : string) (rows : list RateLimitAttempt)
    : list RateLimitAttempt :=
  List.filter (λ a, negb (String.eqb (att_key a) key && String.eqb (att_type a) (type l))) rows.

Definition check_and_record (l : DatabaseRateLimiter) (key : string) (now : Z) (rows : list RateLimitAttempt)
    : list RateLimitAttempt * res LimiterError unit :=
  let window_start := _window_start l now in
  let count := count_attempts l key window_start rows in
  let oldest := oldest_attempt l key window_start rows in
  (rows ++ [attempt l key now],
   if (max_attempts l <=? count)%Z then Err (DashboardRateLimitError (retry_after l oldest now)) else Ok tt).

Definition cleanup (now older_than_seconds : Z) (rows : list RateLimitAttempt) : list RateLimitAttempt :=
  let cutoff := (now - seconds older_than_seconds)%Z in
  List.filter (λ a, negb (attempted_at a <? cutoff)%Z) rows.

End RateLimiter.

(** ** Leader election *)
Module Leader.

(** The single row of [scheduler_leader]. *)
Record SchedulerLeader := { leader_id : string; acquired_at : Z; expires_at : Z }.

Record LeaderElection := { _leader_id : string; _is_leader : bool }.

Record LeaderSettings := {
  leader_election_enabled : bool;
  database_url : string;
  leader_election_ttl_seconds : Z;
}.

Definition single_instance (s : LeaderSettings) : bool :=
  negb (leader_election_enabled s) || contains "sqlite" (py_lower (database_url s)).

(** The upsert of [try_acquire]. *)
Definition upsert_leader (me : string) (now expires : Z) (row : option SchedulerLeader) : option SchedulerLeader :=
  let mine := {| leader_id := me; acquired_at := now; expires_at := expires |} in
  match row with
  | None => Some mine
  | Some r => if (expires_at r <? now)%Z || String.eqb (leader_id r) me then Some mine else Some r
  end.

(** Where the database raises, if it does: before the commit takes effect,
    or after it (the commit's acknowledgement or the read that follows). *)
Inductive Fault := NoFault | BeforeCommit | AfterCommit.

Definition try_acquire (s : LeaderSettings) (fault : Fault) (now : Z) (me : LeaderElection) (row : option SchedulerLeader)
    : LeaderElection * option SchedulerLeader * bool :=
  if single_instance s then (me {{ _is_leader := true }}, row, true)
  else
    let expires := (now + seconds (leader_election_ttl_seconds s))%Z in
    let row' := upsert_leader (_leader_id me) now expires row in
    match fault with
    | BeforeCommit => (me {{ _is_leader := false }}, row, false)
    | AfterCommit => (me {{ _is_leader := false }}, row', false)
    | NoFault =>
        let won := match row' with Some r => String.eqb (leader_id r) (_leader_id me) | None => false end in
        (me {{ _is_leader := won }}, row', won)
    end.

(** [_is_leader] is not written. *)
Definition renew (s : LeaderSettings) (fault : Fault) (now : Z) (me : LeaderElection) (row : option SchedulerLeader)
    : option SchedulerLeader * bool :=
  if negb (_is_leader me) then (row, false)
  else if single_instance s then (row, true)
  else
    let expires := (now + seconds (leader_election_ttl_seconds s))%Z in
    let row' :=
      match row with
      | Some r => if String.eqb (leader_id r) (_leader_id me) then Some (r {{ expires_at := expires }}) else Some r
      | None => None
      end in
    match fault with
    | BeforeCommit => (row, false)
    | AfterCommit => (row', false)
    | NoFault => (row', true)
    end.

End Leader.

(** ** Limiter facts *)
Module RateLimiterFacts.
Import RateLimiter.

(** Attempts of a key inside the window that ends at [t]. *)
Definition window_of (l : DatabaseRateLimiter) (key : string) (t : Z) (rows : list RateLimitAttempt)
    : list RateLimitAttempt :=
  List.filter (λ a, in_window l key (_window_start l t) a && (attempted_at a <=? t)%Z) rows.

(** Operations of one limiter on the table, at nondecreasing times. *)
Inductive op := OpAttempt (key : string) (now : Z) | OpClear (key : string) | OpCleanup (now older : Z).

Definition apply_op (l : DatabaseRateLimiter) (o : op) (rows : list RateLimitAttempt) : list RateLimitAttempt :=
  match o with
  | OpAttempt key now => fst (check_and_increment l key now rows)
  | OpClear key => clear_for_key l key rows
  | OpCleanup now older => cleanup now older rows
  end.

Definition op_time (o : op) (t : Z) : Z := match o with OpAttempt _ now => now | _ => t end.

Fixpoint ordered (t : Z) (ops : list op) : Prop :=
  match ops with [] => True | o :: rest => (t <= op_time o t)%Z ∧ ordered (op_time o t) rest end.

Definition limited (l : DatabaseRateLimiter) (rows : list RateLimitAttempt) : Prop :=
  ∀ a, a ∈ rows → att_type a = type l →
    (Z.of_nat (length (window_of l (att_key a) (attempted_at a) rows)) <= max_attempts l)%Z.

Definition before (t : Z) (rows : list RateLimitAttempt) : Prop := ∀ a, a ∈ rows → (attempted_at a <= t)%Z.

Lemma limited_filter l (Q : RateLimitAttempt → bool) rows : limited l rows → limited l (List.filter Q rows).
Proof.
  intros H a Ha Ht. apply elem_of_filter_bool in Ha as [Ha _]. specialize (H a Ha Ht).
  unfold window_of in *. pose proof (filter_filter_length
    (λ a0, in_window l (att_key a) (_window_start l (attempted_at a)) a0 && (attempted_at a0 <=? attempted_at a)%Z) Q rows).
  lia.
Qed.

Lemma before_filter t (Q : RateLimitAttempt → bool) rows : before t rows → before t (List.filter Q rows).
Proof. intros H a Ha. apply elem_of_filter_bool in Ha as [Ha _]. auto. Qed.

Lemma attempt_limited l key now rows :
  (0 < window_seconds l)%Z → before now rows → limited l rows →
  (count_attempts l key (_window_start l now) rows < max_attempts l)%Z →
  limited l (rows ++ [attempt l key now]).
Proof.
  intros Hw Hb Hl Hc a Ha Ht. unfold window_of. rewrite List.filter_app, length_app. cbn [List.filter].
  set (k := att_key a). set (t := attempted_at a).
  destruct (in_window l k (_window_start l t) (attempt l key now) && (attempted_at (attempt l key now) <=? t)%Z) eqn:E.
  - simpl in E. apply andb_prop in E as [E1 E2%Z.leb_le]. unfold in_window in E1. simpl in E1.
    rewrite !andb_true_iff in E1. destruct E1 as [[Hk _] _]. apply String.eqb_eq in Hk.
    assert (t = now) as Hnow.
    { apply elem_of_app in Ha as [Ha| ->%list_elem_of_singleton]; [|done]. specialize (Hb a Ha). unfold t in *. lia. }
    assert (length (List.filter (λ a0, in_window l k (_window_start l t) a0 && (attempted_at a0 <=? t)%Z) rows) <=
            length (List.filter (in_window l key (_window_start l now)) rows))%nat as Hle.
    { apply filter_length_le. rewrite Hnow, <- Hk. intros x _ Hx. by apply andb_prop in Hx as [? _]. }
    unfold count_attempts in Hc. simpl. lia.
  - simpl. rewrite Nat.add_0_r. apply elem_of_app in Ha as [Ha| ->%list_elem_of_singleton]; [by apply Hl|].
    exfalso. unfold k, t, in_window, _window_start, seconds in E. simpl in E.
    rewrite !String.eqb_refl in E. simpl in E. rewrite andb_false_iff, !Z.leb_gt in E. lia.
Qed.

(** A limiter built by its constructor never lets more than [max_attempts]
    recorded attempts of one key fall into any window of [window_seconds]
    that ends at an attempt, whatever the order of attempts, resets after a
    successful login and clean-ups. *)
Theorem attempts_limited max window ty l ops t
    (Hnew : new max window ty = Ok l) (Hord : ordered t ops) :
  limited l (fold_left (λ rows o, apply_op l o rows) ops []).
Proof.
  assert (0 < window_seconds l)%Z as Hw.
  { unfold new in Hnew. destruct (Z.leb_spec max 0); [done|]. destruct (Z.leb_spec window 0); [done|].
    injection Hnew as <-. simpl. lia. }
  assert (∀ ops t rows, ordered t ops → before t rows → limited l rows →
    limited l (fold_left (λ rows o, apply_op l o rows) ops rows)) as Hrun.
  { clear -Hw. induction ops as [|o ops IH]; intros t rows Hord Hb Hl; [done|]. destruct Hord as [Ht Hord].
    cbn [fold_left]. apply (IH (op_time o t)); [done|..].
    - assert (before (op_time o t) rows) as Hb' by (intros a Ha; specialize (Hb a Ha); lia).
      destruct o as [key now|key|now older]; simpl in *; [|by apply before_filter..].
      unfold check_and_increment. case_if; [|done]. intros a [Ha| ->%list_elem_of_singleton]%elem_of_app; [auto|simpl; lia].
    - destruct o as [key now|key|now older]; simpl in *; [|by apply limited_filter..].
      unfold check_and_increment. case_if; [|done]. pyb. apply attempt_limited; [done| |done|done].
      intros a Ha. specialize (Hb a Ha). lia. }
  apply (Hrun ops t); [done|intros a Ha; by apply elem_of_nil in Ha..].
Qed.

(** Truncation of a microsecond count to whole seconds. *)
Lemma whole_seconds (us : Z) : py_int (inject_Z us / 1000000)%Q = Z.quot us 1000000.
Proof.
  unfold py_int, Qdiv, Qmult, Qinv, inject_Z. simpl. rewrite Z.mul_1_r. done.
Qed.

(** The retry hint of a refused attempt lies between one second and the
    window, and once more than that hint plus one second has passed the
    oldest attempt of the window no longer counts. *)
Theorem retry_after_bounds l key now rows n
    (Hw : (0 < window_seconds l)%Z) (Hb : before now rows)
    (Hrefused : snd (check_and_increment l key now rows) = Err (DashboardRateLimitError n)) :
  (1 <= n <= window_seconds l)%Z ∧
  ∀ now' t, (now + seconds (n + 1) <= now')%Z →
    oldest_attempt l key (_window_start l now) rows = Some t → (t < _window_start l now')%Z.
Proof.
  unfold check_and_increment in Hrefused. case_if_in Hrefused; [done|]. simpl in Hrefused.
  injection Hrefused as Hn. unfold retry_after in Hn.
  destruct (oldest_attempt l key (_window_start l now) rows) as [t0|] eqn:Eo.
  - unfold oldest_attempt in Eo. destruct (min_by _ _) as [a|] eqn:Em; [|done]. injection Eo as Ea.
    apply min_by_elem, elem_of_filter_bool in Em as [Hin Hwin]. specialize (Hb a Hin).
    unfold in_window, _window_start, seconds in *. pyb. destruct Hwin as [_ Hws].
    rewrite whole_seconds in Hn. unfold _window_start, seconds in *.
    set (us := (t0 + window_seconds l * 1000000 - now)%Z) in *.
    assert (0 <= us <= window_seconds l * 1000000)%Z as Hus by lia.
    pose proof (Z.quot_rem' us 1000000) as Hq. pose proof (Z.rem_bound_pos us 1000000 ltac:(lia) ltac:(lia)).
    split; [lia|]. intros now' t Hnow' [= <-]. lia.
  - split; [lia|]. by intros.
Qed.

Definition ex_limiter : DatabaseRateLimiter := {| max_attempts := 2; window_seconds := 60; type := "totp" |}.

Lemma attempts_limited_witness :
  limited ex_limiter (fold_left (λ rows o, apply_op ex_limiter o rows)
    [OpAttempt "ip" 1000000; OpAttempt "ip" 2000000; OpAttempt "ip" 3000000] []).
Proof.
  apply (attempts_limited 2 60 "totp" ex_limiter
    [OpAttempt "ip" 1000000; OpAttempt "ip" 2000000; OpAttempt "ip" 3000000] 0); [done|simpl; lia].
Defined.

Lemma retry_after_bounds_witness : (1 <= 58 <= 60)%Z.
Proof.
  apply (retry_after_bounds ex_limiter "ip" 3000000
    [attempt ex_limiter "ip" 1000000; attempt ex_limiter "ip" 2000000] 58).
  - done.
  - intros a [->|[->|H]%elem_of_cons]%elem_of_cons; [simpl; lia..|by apply elem_of_nil in H].
  - by vm_compute.
Defined.

End RateLimiterFacts.

(** ** Leader facts *)
Module LeaderFacts.
Import Leader.

(** Instances by id: each keeps its own [LeaderElection] object, all share
    the row. *)
Record cluster := { believes : string → bool; shared_row : option SchedulerLeader }.

Inductive action := Acquire | Renew.
Record call := { caller : string; what : action; at_time : Z; db_fault : Fault }.

Definition set_belief (f : string → bool) (id : string) (b : bool) : string → bool :=
  λ x, if String.eqb x id then b else f x.

(** One call of one instance; the flag says whether it was a [try_acquire]
    that returned [True]. *)
Definition run_call (s : LeaderSettings) (c : call) (w : cluster) : cluster * bool :=
  let me := {| _leader_id := caller c; _is_leader := believes w (caller c) |} in
  match what c with
  | Acquire =>
      let '(me', row', won) := try_acquire s (db_fault c) (at_time c) me (shared_row w) in
      ({| believes := set_belief (believes w) (caller c) (_is_leader me'); shared_row := row' |}, won)
  | Renew =>
      let (row', _) := renew s (db_fault c) (at_time c) me (shared_row w) in
      ({| believes := believes w; shared_row := row' |}, false)
  end.

Fixpoint run (s : LeaderSettings) (calls : list call) (w : cluster) : cluster :=
  match calls with [] => w | c :: rest => run s rest (fst (run_call s c w)) end.

(** The grants of a sequence of calls, oldest first. *)
Fixpoint grants (s : LeaderSettings) (calls : list call) (w : cluster) : list (string * Z) :=
  match calls with
  | [] => []
  | c :: rest =>
      let (w', won) := run_call s c w in
      if won then (caller c, at_time c) :: grants s rest w' else grants s rest w'
  end.

Fixpoint times_ordered (t : Z) (calls : list call) : Prop :=
  match calls with [] => True | c :: rest => (t <= at_time c)%Z ∧ times_ordered (at_time c) rest end.

(** The lease of an instance granted at [g.2] covers [g.2 + ttl] unless that
    time has passed. *)
Definition covered (ttl : Z) (row : option SchedulerLeader) (t : Z) (g : string * Z) : Prop :=
  (g.2 <= t)%Z ∧
  ((∃ r, row = Some r ∧ leader_id r = g.1 ∧ (g.2 + ttl <= expires_at r)%Z) ∨ (g.2 + ttl < t)%Z).

Lemma upsert_covers ttl me now row t g :
  (t <= now)%Z → covered ttl row t g → covered ttl (upsert_leader me now (now + ttl) row) now g.
Proof.
  intros Ht [Hg Hc]. split; [lia|]. destruct Hc as [(r & -> & Hr & Hle)|Hlt]; [|right; lia].
  unfold upsert_leader. destruct (Z.ltb_spec (expires_at r) now); simpl; [right; lia|].
  destruct (String.eqb_spec (leader_id r) me) as [Heq|Hne]; left; eexists; (split; [done|]); simpl;
    [split; [congruence|lia]|done].
Qed.

Lemma covered_later ttl row t t' g : (t <= t')%Z → covered ttl row t g → covered ttl row t' g.
Proof. intros Ht [Hg [Hc|Hlt]]; (split; [lia|]); [by left|right; lia]. Qed.

Lemma run_call_covers s c w t g :
  let ttl := seconds (leader_election_ttl_seconds s) in
  single_instance s = false → (t <= at_time c)%Z →
  covered ttl (shared_row w) t g → covered ttl (shared_row (fst (run_call s c w))) (at_time c) g.
Proof.
  intros ttl Hs Ht Hg. unfold run_call. destruct (what c).
  - unfold try_acquire. rewrite Hs. destruct (db_fault c); cbn [fst shared_row _leader_id];
      first [by eapply upsert_covers|by eapply covered_later].
  - unfold renew. rewrite Hs. cbn [_is_leader _leader_id]. destruct (believes w (caller c)); cbn [negb fst shared_row];
      [|by eapply covered_later].
    assert (covered ttl match shared_row w with
      | Some r => if String.eqb (leader_id r) (caller c) then Some (r {{ expires_at := at_time c + ttl }})%Z else Some r
      | None => None end (at_time c) g) as Hnew.
    { destruct Hg as [Hle Hc]. split; [lia|]. destruct Hc as [(r & -> & Hr & Hexp)|Hlt]; [|right; lia].
      left. destruct (String.eqb (leader_id r) (caller c)); eexists; (split; [done|]); [|done].
      destruct r; simpl in *. split; [done|lia]. }
    destruct (db_fault c); cbn [fst shared_row]; first [exact Hnew|by eapply covered_later].
Qed.

Lemma won_spec s c w w' :
  single_instance s = false → (0 <= leader_election_ttl_seconds s)%Z → run_call s c w = (w', true) →
  covered (seconds (leader_election_ttl_seconds s)) (shared_row w') (at_time c) (caller c, at_time c) ∧
  ∀ r, shared_row w = Some r → (expires_at r < at_time c)%Z ∨ leader_id r = caller c.
Proof.
  intros Hs Httl. unfold run_call. destruct (what c); [|by destruct (renew _ _ _ _ _)].
  unfold try_acquire. rewrite Hs. destruct (db_fault c); [|done..]. cbn [_leader_id].
  intros [= <- Hwon]. cbn [shared_row]. unfold upsert_leader in *. destruct (shared_row w) as [r|]; simpl in *.
  - destruct (Z.ltb_spec (expires_at r) (at_time c)); simpl in *.
    + split; [|intros ? [= <-]; by left]. split; simpl; [lia|]. left. eexists. split; [done|]. simpl. split; [done|lia].
    + destruct (String.eqb_spec (leader_id r) (caller c)) as [Heq|Hne]; simpl in *.
      * split; [|intros ? [= <-]; by right]. split; simpl; [lia|]. left. eexists. split; [done|]. simpl. split; [done|lia].
      * apply String.eqb_eq in Hwon. done.
  - split; [|done]. split; simpl; [lia|]. left. eexists. split; [done|]. simpl. split; [done|lia].
Qed.

Lemma grants_after s calls : 
  single_instance s = false → (0 <= leader_election_ttl_seconds s)%Z →
  ∀ w t g, times_ordered t calls → covered (seconds (leader_election_ttl_seconds s)) (shared_row w) t g →
  ∀ g', g' ∈ grants s calls w → g.1 ≠ g'.1 → (g.2 + seconds (leader_election_ttl_seconds s) < g'.2)%Z.
Proof.
  intros Hs Httl. induction calls as [|c calls IH]; intros w t g Hord Hg g' Hin Hne; [by apply elem_of_nil in Hin|].
  destruct Hord as [Ht Hord]. pose proof (run_call_covers s c w t g Hs Ht Hg) as Hg2.
  cbn [grants] in Hin. destruct (run_call s c w) as [w' won] eqn:Ec. simpl in Hg2.
  destruct won; [|by eapply IH]. apply elem_of_cons in Hin as [->|Hin]; [|by eapply IH].
  destruct (won_spec s c w w' Hs Httl Ec) as [_ Hold]. destruct Hg as [_ [(r & Hr & Hid & Hle)|Hlt]]; simpl in *; [|lia].
  destruct (Hold r Hr) as [|Hsame]; [lia|congruence].
Qed.

(** Mutual exclusion of the scheduler lease: with election enabled on a
    shared database, whenever two different instances are told by
    [try_acquire] that they lead, the later grant comes more than the lease
    time after the earlier one, whatever the interleaving of acquisitions,
    renewals and database failures. *)
Theorem leaders_exclusive s calls w t
    (Hs : single_instance s = false) (Httl : (0 <= leader_election_ttl_seconds s)%Z) (Hord : times_ordered t calls) :
  ∀ i j g g', (i < j)%nat → grants s calls w !! i = Some g → grants s calls w !! j = Some g' → g.1 ≠ g'.1 →
    (g.2 + seconds (leader_election_ttl_seconds s) < g'.2)%Z.
Proof.
  revert w t Hord. induction calls as [|c calls IH]; intros w t Hord i j g g' Hij Hi Hj Hne; [done|].
  destruct Hord as [Ht Hord]. cbn [grants] in Hi, Hj. destruct (run_call s c w) as [w' won] eqn:Ec.
  destruct won; [|by eapply (IH w' (at_time c))].
  destruct j as [|j]; [lia|]. destruct i as [|i]; simpl in Hi, Hj; [|eapply (IH w' (at_time c) Hord i j); eauto; lia].
  injection Hi as <-. destruct (won_spec s c w w' Hs Httl Ec) as [Hcov _].
  eapply grants_after; try done. by eapply list_elem_of_lookup_2.
Qed.

Definition ex_settings : LeaderSettings :=
  {| leader_election_enabled := true; database_url := "postgresql://db"; leader_election_ttl_seconds := 10 |}.
Definition ex_cluster : cluster := {| believes := λ _, false; shared_row := None |}.
Definition ex_calls : list call :=
  [{| caller := "a"; what := Acquire; at_time := 0; db_fault := NoFault |};
   {| caller := "b"; what := Acquire; at_time := 5000000; db_fault := NoFault |};
   {| caller := "b"; what := Acquire; at_time := 11000000; db_fault := NoFault |}].

Lemma leaders_exclusive_witness : (0 + seconds 10 < 11000000)%Z.
Proof.
  apply (leaders_exclusive ex_settings ex_calls ex_cluster 0 eq_refl ltac:(simpl; lia) ltac:(simpl; lia)
    0 1 ("a", 0%Z) ("b", 11000000%Z)); [lia|reflexivity|reflexivity|done].
Defined.

(** [renew] does not look at what its update matched: an instance whose lease
    lapsed and was taken over by another still gets [True] and keeps
    believing it leads, while the row names the other instance. *)
Theorem renew_unaware s w me other now (Hs : single_instance s = false)
    (Hme : believes w me = true) (Hother : leader_id other ≠ me) (Hrow : shared_row w = Some other) :
  renew s NoFault now {| _leader_id := me; _is_leader := believes w me |} (shared_row w) = (Some other, true) ∧
  fst (run_call s {| caller := me; what := Renew; at_time := now; db_fault := NoFault |} w) = w.
Proof.
  unfold run_call, renew. cbn [_is_leader _leader_id caller what at_time db_fault]. rewrite Hs, Hme, Hrow. cbn [negb].
  destruct (String.eqb_spec (leader_id other) me); [done|]. split; [done|]. destruct w; simpl in *. by subst.
Qed.

Lemma renew_unaware_witness :
  let w := run ex_settings ex_calls ex_cluster in
  fst (run_call ex_settings {| caller := "a"; what := Renew; at_time := 12000000; db_fault := NoFault |} w) = w.
Proof.
  apply (renew_unaware ex_settings (run ex_settings ex_calls ex_cluster) "a"
    {| leader_id := "b"; acquired_at := 11000000; expires_at := 21000000 |} 12000000); [reflexivity| reflexivity|done|reflexivity].
Defined.

End LeaderFacts.
