(* ===== verification/DurableBridge.v ===== *)
(** Durable HTTP-bridge sessions: the lease table behind
    [src/app/modules/proxy/durable_bridge_repository.py] and the coordinator
    [src/app/modules/proxy/durable_bridge_coordinator.py] the proxy talks to.

    A session row names the instance that owns it, an epoch that grows when
    ownership moves, and a lease; aliases map turn states, response ids and
    session headers to sessions, per API-key scope.

    Each method is one transaction on [BridgeDB].  [Repo.claim_session] also
    takes what other transactions do between its SELECT and its INSERT, and
    [Repo.commit_row] writes only the columns whose value changed since the
    row was loaded, as the ORM does.  Creation times and the ids of alias rows
    are left out: nothing reads them.  [sha256] is a parameter. *)

From stdpp Require Import sorting.
From S2P Require Import Prelude Models.

(** ** Repository *)
Module Repo.

Record HttpBridgeSessionRecord := {
  hb_id : string;
  session_key_kind : string;
  session_key_value : string;
  session_key_hash : string;
  hb_scope : string;
  owner_instance_id : option string;
  owner_epoch : Z;
  lease_expires_at : option Z;
  hb_state : HttpBridgeSessionState;
  hb_account_id : option string;
  hb_model : option string;
  hb_service_tier : option string;
  latest_turn_state : option string;
  latest_response_id : option string;
  latest_input_item_count : option Z;
  latest_input_full_fingerprint : option string;
  hb_updated_at : Z;
  last_seen_at : Z;
  closed_at : option Z;
}.

Record HttpBridgeSessionAlias := {
  al_session_id : string;
  alias_kind : string;
  alias_value : string;
  alias_hash : string;
  al_scope : string;
}.

Record BridgeDB := { sessions : list HttpBridgeSessionRecord; aliases : list HttpBridgeSessionAlias }.

Record DurableBridgeSessionSnapshot := {
  snap_id : string;
  snap_key_kind : string;
  snap_key_value : string;
  snap_key_hash : string;
  snap_scope : string;
  snap_owner : option string;
  snap_epoch : Z;
  snap_lease : option Z;
  snap_state : HttpBridgeSessionState;
  snap_account_id : option string;
  snap_model : option string;
  snap_service_tier : option string;
  snap_turn_state : option string;
  snap_response_id : option string;
  snap_item_count : option Z;
  snap_fingerprint : option string;
  snap_closed_at : option Z;
}.

Inductive BridgeError := IntegrityError | UnsupportedDialect (dialect : string).

(** The application's clock and the database's [now()]. *)
Record clock := { app_now : Z; db_now : Z }.

Definition _ANONYMOUS_API_KEY_SCOPE : string := "__anonymous__".

Definition durable_bridge_api_key_scope (api_key_id : option string) : string :=
  match api_key_id with
  | None => _ANONYMOUS_API_KEY_SCOPE
  | Some k => if String.eqb (py_strip k) "" then _ANONYMOUS_API_KEY_SCOPE else py_strip k
  end.

Definition _to_snapshot (r : HttpBridgeSessionRecord) : DurableBridgeSessionSnapshot := {|
  snap_id := hb_id r;
  snap_key_kind := session_key_kind r;
  snap_key_value := session_key_value r;
  snap_key_hash := session_key_hash r;
  snap_scope := hb_scope r;
  snap_owner := owner_instance_id r;
  snap_epoch := owner_epoch r;
  snap_lease := lease_expires_at r;
  snap_state := hb_state r;
  snap_account_id := hb_account_id r;
  snap_model := hb_model r;
  snap_service_tier := hb_service_tier r;
  snap_turn_state := latest_turn_state r;
  snap_response_id := latest_response_id r;
  snap_item_count := latest_input_item_count r;
  snap_fingerprint := latest_input_full_fingerprint r;
  snap_closed_at := closed_at r;
|}.

(** [timedelta(seconds=max(1.0, ttl))], in whole microseconds. *)
Definition lease_delta (lease_ttl_seconds : Q) : Z := py_round (qmax 1 lease_ttl_seconds * 1000000)%Q.

(** *** Flushing a loaded row *)

(** A column is written when its value differs from the loaded one. *)
Definition column {A} `{EqDecision A} (loaded new current : A) : A := if decide (new = loaded) then current else new.

(** The row after [UPDATE ... WHERE id = ...] with the changed columns. *)
Definition flush (clk : clock) (loaded new current : HttpBridgeSessionRecord) : HttpBridgeSessionRecord := {|
  hb_id := hb_id current;
  session_key_kind := session_key_kind current;
  session_key_value := session_key_value current;
  session_key_hash := session_key_hash current;
  hb_scope := hb_scope current;
  owner_instance_id := column (owner_instance_id loaded) (owner_instance_id new) (owner_instance_id current);
  owner_epoch := column (owner_epoch loaded) (owner_epoch new) (owner_epoch current);
  lease_expires_at := column (lease_expires_at loaded) (lease_expires_at new) (lease_expires_at current);
  hb_state := column (hb_state loaded) (hb_state new) (hb_state current);
  hb_account_id := column (hb_account_id loaded) (hb_account_id new) (hb_account_id current);
  hb_model := column (hb_model loaded) (hb_model new) (hb_model current);
  hb_service_tier := column (hb_service_tier loaded) (hb_service_tier new) (hb_service_tier current);
  latest_turn_state := column (latest_turn_state loaded) (latest_turn_state new) (latest_turn_state current);
  latest_response_id := column (latest_response_id loaded) (latest_response_id new) (latest_response_id current);
  latest_input_item_count :=
    column (latest_input_item_count loaded) (latest_input_item_count new) (latest_input_item_count current);
  latest_input_full_fingerprint :=
    column (latest_input_full_fingerprint loaded) (latest_input_full_fingerprint new)
      (latest_input_full_fingerprint current);
  hb_updated_at := db_now clk;
  last_seen_at := column (last_seen_at loaded) (last_seen_at new) (last_seen_at current);
  closed_at := column (closed_at loaded) (closed_at new) (closed_at current);
|}.

Definition commit_row (clk : clock) (loaded new : HttpBridgeSessionRecord) (db : BridgeDB) : BridgeDB :=
  {| sessions := update_where (λ r, String.eqb (hb_id r) (hb_id loaded)) (flush clk loaded new) (sessions db);
     aliases := aliases db |}.

Section Repository.
Context (sha256 : string → string).

Definition durable_bridge_hash (value : string) : string := sha256 value.

(** *** Queries *)

Definition get_row (session_id : string) (db : BridgeDB) : option HttpBridgeSessionRecord :=
  List.find (λ r, String.eqb (hb_id r) session_id) (sessions db).

Definition session_matches (kind hash scope : string) (r : HttpBridgeSessionRecord) : bool :=
  String.eqb (session_key_kind r) kind && String.eqb (session_key_hash r) hash && String.eqb (hb_scope r) scope.

Definition find_session (kind value scope : string) (db : BridgeDB) : option HttpBridgeSessionRecord :=
  List.find (session_matches kind (durable_bridge_hash value) scope) (sessions db).

Definition get_session (kind value scope : string) (db : BridgeDB) : option DurableBridgeSessionSnapshot :=
  option_map _to_snapshot (find_session kind value scope db).

Definition get_session_by_id (session_id : string) (db : BridgeDB) : option DurableBridgeSessionSnapshot :=
  option_map _to_snapshot (get_row session_id db).

Definition alias_matches (kind hash scope : string) (a : HttpBridgeSessionAlias) : bool :=
  String.eqb (alias_kind a) kind && String.eqb (alias_hash a) hash && String.eqb (al_scope a) scope.

(** The join of aliases and sessions, [LIMIT 1]. *)
Definition resolve_alias (kind value scope : string) (db : BridgeDB) : option DurableBridgeSessionSnapshot :=
  let joined := List.flat_map
    (λ a, List.filter (λ r, String.eqb (al_session_id a) (hb_id r)) (sessions db))
    (List.filter (alias_matches kind (durable_bridge_hash value) scope) (aliases db)) in
  option_map _to_snapshot (hd_error joined).

(** [ORDER BY state = ACTIVE first, last_seen_at DESC, updated_at DESC]. *)
Definition recent_key (r : HttpBridgeSessionRecord) : Z * Z * Z :=
  ((if bool_decide (hb_state r = BRIDGE_ACTIVE) then 0 else 1)%Z, (- last_seen_at r)%Z, (- hb_updated_at r)%Z).

Definition live_state (r : HttpBridgeSessionRecord) : bool :=
  bool_decide (hb_state r = BRIDGE_ACTIVE ∨ hb_state r = BRIDGE_DRAINING).

Definition find_session_by_latest_turn_state (turn_state scope : string) (db : BridgeDB)
    : option DurableBridgeSessionSnapshot :=
  option_map _to_snapshot (min_by recent_key (List.filter
    (λ r, bool_decide (latest_turn_state r = Some turn_state) && String.eqb (hb_scope r) scope && live_state r)
    (sessions db))).

Definition find_session_by_latest_response_id (response_id scope : string) (db : BridgeDB)
    : option DurableBridgeSessionSnapshot :=
  option_map _to_snapshot (min_by recent_key (List.filter
    (λ r, bool_decide (latest_response_id r = Some response_id) && String.eqb (hb_scope r) scope && live_state r)
    (sessions db))).

(** *** Claiming *)

Record ClaimArgs := {
  ca_key_kind : string;
  ca_key_value : string;
  ca_scope : string;
  ca_instance : string;
  ca_lease_ttl_seconds : Q;
  ca_account_id : option string;
  ca_model : option string;
  ca_service_tier : option string;
  ca_turn_state : option string;
  ca_response_id : option string;
  ca_allow_takeover : bool;
}.

Definition new_record (c : ClaimArgs) (clk : clock) (fresh_id : string) : HttpBridgeSessionRecord := {|
  hb_id := fresh_id;
  session_key_kind := ca_key_kind c;
  session_key_value := ca_key_value c;
  session_key_hash := durable_bridge_hash (ca_key_value c);
  hb_scope := ca_scope c;
  owner_instance_id := Some (ca_instance c);
  owner_epoch := 1;
  lease_expires_at := Some (app_now clk + lease_delta (ca_lease_ttl_seconds c))%Z;
  hb_state := BRIDGE_ACTIVE;
  hb_account_id := ca_account_id c;
  hb_model := ca_model c;
  hb_service_tier := ca_service_tier c;
  latest_turn_state := ca_turn_state c;
  latest_response_id := ca_response_id c;
  latest_input_item_count := None;
  latest_input_full_fingerprint := None;
  hb_updated_at := db_now clk;
  last_seen_at := app_now clk;
  closed_at := None;
|}.

Definition account_changed (c : ClaimArgs) (r : HttpBridgeSessionRecord) : bool :=
  bool_decide (hb_account_id r ≠ ca_account_id c).
Definition owner_changed (c : ClaimArgs) (r : HttpBridgeSessionRecord) : bool :=
  bool_decide (owner_instance_id r ≠ Some (ca_instance c)).
Definition lease_expired (now : Z) (r : HttpBridgeSessionRecord) : bool :=
  match lease_expires_at r with None => true | Some t => (t <=? now)%Z end.
Definition state_allows_takeover (r : HttpBridgeSessionRecord) : bool :=
  bool_decide (hb_state r = BRIDGE_DRAINING ∨ hb_state r = BRIDGE_CLOSED).

(** The early return: another instance holds a live lease. *)
Definition claim_refused (c : ClaimArgs) (now : Z) (r : HttpBridgeSessionRecord) : bool :=
  owner_changed c r && negb (ca_allow_takeover c) && negb (lease_expired now r) && negb (state_allows_takeover r).

Definition is_some {A} (o : option A) : bool := match o with Some _ => true | None => false end.

(** The attributes a granted claim sets on the existing row. *)
Definition claimed_row (c : ClaimArgs) (clk : clock) (r : HttpBridgeSessionRecord) : HttpBridgeSessionRecord :=
  let was_closed := bool_decide (hb_state r = BRIDGE_CLOSED) in
  let set_turn := account_changed c r || is_some (ca_turn_state c) || (owner_changed c r && was_closed) in
  let set_response := account_changed c r || is_some (ca_response_id c) || (owner_changed c r && was_closed) in
  {| hb_id := hb_id r;
     session_key_kind := session_key_kind r;
     session_key_value := session_key_value r;
     session_key_hash := session_key_hash r;
     hb_scope := hb_scope r;
     owner_instance_id := Some (ca_instance c);
     owner_epoch := if owner_changed c r then (owner_epoch r + 1)%Z else owner_epoch r;
     lease_expires_at := Some (app_now clk + lease_delta (ca_lease_ttl_seconds c))%Z;
     hb_state := BRIDGE_ACTIVE;
     hb_account_id := ca_account_id c;
     hb_model := ca_model c;
     hb_service_tier := ca_service_tier c;
     latest_turn_state := if set_turn then ca_turn_state c else latest_turn_state r;
     latest_response_id := if set_response then ca_response_id c else latest_response_id r;
     latest_input_item_count := if set_response then None else latest_input_item_count r;
     latest_input_full_fingerprint := if set_response then None else latest_input_full_fingerprint r;
     hb_updated_at := hb_updated_at r;
     last_seen_at := app_now clk;
     closed_at := None |}.

Definition _clear_aliases_for_session (session_id : string) (db : BridgeDB) : BridgeDB :=
  {| sessions := sessions db;
     aliases := List.filter (λ a, negb (String.eqb (al_session_id a) session_id)) (aliases db) |}.

(** One pass of the retry loop: [race] is what other transactions commit
    between the SELECT that finds no row and the INSERT; the unique keys make
    the INSERT fail when the session appeared meanwhile ([None]).  A row that
    exists is locked by the SELECT. *)
Definition claim_attempt (race : BridgeDB → BridgeDB) (clk : clock) (fresh_id : string) (c : ClaimArgs)
    (db : BridgeDB) : BridgeDB * option DurableBridgeSessionSnapshot :=
  match find_session (ca_key_kind c) (ca_key_value c) (ca_scope c) db with
  | None =>
      let db := race db in
      let r := new_record c clk fresh_id in
      if existsb (λ x, String.eqb (hb_id x) fresh_id ||
                       session_matches (ca_key_kind c) (session_key_hash r) (ca_scope c) x) (sessions db)
      then (db, None)
      else ({| sessions := sessions db ++ [r]; aliases := aliases db |}, Some (_to_snapshot r))
  | Some existing =>
      if claim_refused c (app_now clk) existing then (db, Some (_to_snapshot existing))
      else
        let new := claimed_row c clk existing in
        let db := if account_changed c existing then _clear_aliases_for_session (hb_id existing) db else db in
        (commit_row clk existing new db, Some (_to_snapshot new))
  end.

Definition claim_session (race : nat → BridgeDB → BridgeDB) (clk : nat → clock) (fresh_id : nat → string)
    (c : ClaimArgs) (db : BridgeDB) : BridgeDB * res BridgeError DurableBridgeSessionSnapshot :=
  match claim_attempt (race 0) (clk 0) (fresh_id 0) c db with
  | (db, Some s) => (db, Ok s)
  | (db, None) =>
      match claim_attempt (race 1) (clk 1) (fresh_id 1) c db with
      | (db, Some s) => (db, Ok s)
      | (db, None) => (db, Err IntegrityError)
      end
  end.

(** *** Renewing and releasing *)

Definition owns (instance_id : string) (epoch : Z) (r : HttpBridgeSessionRecord) : bool :=
  bool_decide (owner_instance_id r = Some instance_id) && (owner_epoch r =? epoch)%Z.

Record RenewArgs := {
  re_lease_ttl_seconds : Q;
  re_turn_state : option string;
  re_response_id : option string;
  re_item_count : option Z;
  re_fingerprint : option string;
  re_state : option HttpBridgeSessionState;
}.

Definition renewed_row (a : RenewArgs) (clk : clock) (r : HttpBridgeSessionRecord) : HttpBridgeSessionRecord :=
  let both := is_some (re_item_count a) && is_some (re_fingerprint a) in
  {| hb_id := hb_id r;
     session_key_kind := session_key_kind r;
     session_key_value := session_key_value r;
     session_key_hash := session_key_hash r;
     hb_scope := hb_scope r;
     owner_instance_id := owner_instance_id r;
     owner_epoch := owner_epoch r;
     lease_expires_at := Some (app_now clk + lease_delta (re_lease_ttl_seconds a))%Z;
     hb_state := default (hb_state r) (re_state a);
     hb_account_id := hb_account_id r;
     hb_model := hb_model r;
     hb_service_tier := hb_service_tier r;
     latest_turn_state := if is_some (re_turn_state a) then re_turn_state a else latest_turn_state r;
     latest_response_id := if is_some (re_response_id a) then re_response_id a else latest_response_id r;
     latest_input_item_count :=
       if both then re_item_count a else if is_some (re_response_id a) then None else latest_input_item_count r;
     latest_input_full_fingerprint :=
       if both then re_fingerprint a else if is_some (re_response_id a) then None else latest_input_full_fingerprint r;
     hb_updated_at := hb_updated_at r;
     last_seen_at := app_now clk;
     closed_at := closed_at r |}.

(** A method that loads a row, returns it as it is unless [(instance_id,
    epoch)] owns it, and otherwise commits new attributes. *)
Definition owner_update (clk : clock) (session_id instance_id : string) (epoch : Z)
    (attrs : HttpBridgeSessionRecord → HttpBridgeSessionRecord) (db : BridgeDB)
    : BridgeDB * option DurableBridgeSessionSnapshot :=
  match get_row session_id db with
  | None => (db, None)
  | Some row =>
      if negb (owns instance_id epoch row) then (db, Some (_to_snapshot row))
      else (commit_row clk row (attrs row) db, Some (_to_snapshot (attrs row)))
  end.

Definition renew_session (clk : clock) (session_id instance_id : string) (epoch : Z) (a : RenewArgs) (db : BridgeDB)
    : BridgeDB * option DurableBridgeSessionSnapshot :=
  owner_update clk session_id instance_id epoch (renewed_row a clk) db.

Definition released_row (draining : bool) (clk : clock) (r : HttpBridgeSessionRecord) : HttpBridgeSessionRecord :=
  {| hb_id := hb_id r;
     session_key_kind := session_key_kind r;
     session_key_value := session_key_value r;
     session_key_hash := session_key_hash r;
     hb_scope := hb_scope r;
     owner_instance_id := None;
     owner_epoch := owner_epoch r;
     lease_expires_at := Some (app_now clk);
     hb_state := if draining then BRIDGE_DRAINING else BRIDGE_CLOSED;
     hb_account_id := hb_account_id r;
     hb_model := hb_model r;
     hb_service_tier := hb_service_tier r;
     latest_turn_state := latest_turn_state r;
     latest_response_id := latest_response_id r;
     latest_input_item_count := latest_input_item_count r;
     latest_input_full_fingerprint := latest_input_full_fingerprint r;
     hb_updated_at := hb_updated_at r;
     last_seen_at := app_now clk;
     closed_at := if draining then None else Some (app_now clk) |}.

Definition release_session (clk : clock) (session_id instance_id : string) (epoch : Z) (draining : bool)
    (db : BridgeDB) : BridgeDB * option DurableBridgeSessionSnapshot :=
  owner_update clk session_id instance_id epoch (released_row draining clk) db.

Definition drained (instance_id : string) (r : HttpBridgeSessionRecord) : bool :=
  bool_decide (owner_instance_id r = Some instance_id) && bool_decide (hb_state r = BRIDGE_ACTIVE).

Definition drain_row (clk : clock) (r : HttpBridgeSessionRecord) : HttpBridgeSessionRecord :=
  r {{ hb_state := BRIDGE_DRAINING }} {{ last_seen_at := app_now clk }} {{ hb_updated_at := db_now clk }}.

Definition mark_owner_draining (clk : clock) (instance_id : string) (db : BridgeDB) : BridgeDB * Z :=
  ({| sessions := update_where (drained instance_id) (drain_row clk) (sessions db); aliases := aliases db |},
   Z.of_nat (length (List.filter (drained instance_id) (sessions db)))).

(** *** Purging *)

Definition purgeable (cutoff : Z) (r : HttpBridgeSessionRecord) : bool :=
  bool_decide (hb_state r = BRIDGE_CLOSED) && (last_seen_at r <? cutoff)%Z.

Definition seen_order (r r' : HttpBridgeSessionRecord) : Prop := (last_seen_at r <= last_seen_at r')%Z.
#[global] Instance seen_order_dec : RelDecision seen_order.
Proof. intros r r'. unfold seen_order. apply _. Defined.

Definition purge_batch (cutoff : Z) (session_ids : list string) (db : BridgeDB) : BridgeDB * Z :=
  let doomed := λ r, mem (hb_id r) session_ids && purgeable cutoff r in
  let ids := map hb_id (List.filter doomed (sessions db)) in
  ({| sessions := List.filter (λ r, negb (doomed r)) (sessions db);
      aliases := List.filter (λ a, negb (mem (al_session_id a) ids)) (aliases db) |},
   Z.of_nat (length ids)).

Fixpoint purge_loop (fuel : nat) (cutoff : Z) (batch_size : nat) (db : BridgeDB) (deleted_count : Z)
    : option (BridgeDB * Z) :=
  let batch := take batch_size (merge_sort seen_order (List.filter (purgeable cutoff) (sessions db))) in
  match batch, fuel with
  | [], _ => Some (db, deleted_count)
  | _, O => None
  | _, S fuel =>
      let (db, n) := purge_batch cutoff (map hb_id batch) db in
      purge_loop fuel cutoff batch_size db (deleted_count + n)
  end.

Definition purge_closed_before (cutoff : Z) (batch_size : nat) (db : BridgeDB) : option (BridgeDB * Z) :=
  purge_loop (S (length (sessions db))) cutoff batch_size db 0.

(** *** Aliases *)

(** The upsert on (kind, hash, scope); the foreign key refuses an alias of a
    session that does not exist. *)
Definition upsert_alias (dialect session_id kind value scope : string) (db : BridgeDB)
    : BridgeDB * res BridgeError unit :=
  let matches := alias_matches kind (durable_bridge_hash value) scope in
  if mem dialect ["postgresql"; "sqlite"] then
    if is_some (get_row session_id db) then
      ({| sessions := sessions db;
          aliases :=
            if any_where matches (aliases db)
            then update_where matches (λ a, a {{ al_session_id := session_id }} {{ alias_value := value }}) (aliases db)
            else aliases db ++ [{| al_session_id := session_id; alias_kind := kind; alias_value := value;
                                   alias_hash := durable_bridge_hash value; al_scope := scope |}] |}, Ok tt)
    else (db, Err IntegrityError)
  else (db, Err (UnsupportedDialect dialect)).

End Repository.

End Repo.

(** ** Coordinator *)
Module Coordinator.
Import Repo.

Definition _DURABLE_TURN_STATE_ALIAS : string := "turn_state".
Definition _DURABLE_PREVIOUS_RESPONSE_ALIAS : string := "previous_response_id".
Definition _DURABLE_SESSION_HEADER_ALIAS : string := "session_header".

Record DurableBridgeLookup := {
  lk_session_id : string;
  canonical_kind : string;
  canonical_key : string;
  lk_scope : string;
  lk_account_id : option string;
  lk_owner : option string;
  lk_epoch : Z;
  lk_lease : option Z;
  lk_state : HttpBridgeSessionState;
  lk_turn_state : option string;
  lk_response_id : option string;
  lk_item_count : option Z;
  lk_fingerprint : option string;
}.

Definition lease_is_active (now : Z) (l : DurableBridgeLookup) : bool :=
  match lk_owner l, lk_lease l with
  | Some _, Some t => (now <? t)%Z
  | _, _ => false
  end.

Definition _to_lookup (s : DurableBridgeSessionSnapshot) : DurableBridgeLookup := {|
  lk_session_id := snap_id s;
  canonical_kind := snap_key_kind s;
  canonical_key := snap_key_value s;
  lk_scope := snap_scope s;
  lk_account_id := snap_account_id s;
  lk_owner := snap_owner s;
  lk_epoch := snap_epoch s;
  lk_lease := snap_lease s;
  lk_state := snap_state s;
  lk_turn_state := snap_turn_state s;
  lk_response_id := snap_response_id s;
  lk_item_count := snap_item_count s;
  lk_fingerprint := snap_fingerprint s;
|}.

Section Coordinator.
Context (sha256 : string → string) (dialect : string).

(** The first alias of the list that resolves. *)
Fixpoint first_alias (scope : string) (candidates : list (string * option string)) (db : BridgeDB)
    : option DurableBridgeSessionSnapshot :=
  match candidates with
  | [] => None
  | (_, None) :: rest => first_alias scope rest db
  | (kind, Some value) :: rest =>
      match resolve_alias sha256 kind value scope db with
      | Some s => Some s
      | None => first_alias scope rest db
      end
  end.

Definition lookup_request_targets (kind value : string) (api_key_id turn_state session_header previous_response_id : option string)
    (db : BridgeDB) : option DurableBridgeLookup :=
  let scope := durable_bridge_api_key_scope api_key_id in
  match first_alias scope [(_DURABLE_TURN_STATE_ALIAS, turn_state);
                           (_DURABLE_PREVIOUS_RESPONSE_ALIAS, previous_response_id);
                           (_DURABLE_SESSION_HEADER_ALIAS, session_header)] db with
  | Some s => Some (_to_lookup s)
  | None =>
      let by_key := get_session sha256 kind value scope db in
      let by_turn :=
        match by_key, turn_state with
        | None, Some t => find_session_by_latest_turn_state t scope db
        | _, _ => by_key
        end in
      let by_response :=
        match by_key, by_turn, previous_response_id with
        | None, None, Some p => find_session_by_latest_response_id p scope db
        | _, _, _ => by_turn
        end in
      option_map _to_lookup by_response
  end.

Definition claim_live_session (race : nat → BridgeDB → BridgeDB) (clk : nat → clock) (fresh_id : nat → string)
    (api_key_id : option string) (c : ClaimArgs) (db : BridgeDB) : BridgeDB * res BridgeError DurableBridgeLookup :=
  let (db, r) := claim_session sha256 race clk fresh_id (c {{ ca_scope := durable_bridge_api_key_scope api_key_id }}) db in
  (db, let? s := r in Ok (_to_lookup s)).

Definition renew_live_session (clk : clock) (session_id instance_id : string) (epoch : Z) (a : RenewArgs) (db : BridgeDB)
    : BridgeDB * option DurableBridgeLookup :=
  let (db, s) := renew_session clk session_id instance_id epoch a db in (db, option_map _to_lookup s).

Definition release_live_session (clk : clock) (session_id instance_id : string) (epoch : Z) (draining : bool)
    (db : BridgeDB) : BridgeDB * option DurableBridgeLookup :=
  let (db, s) := release_session clk session_id instance_id epoch draining db in (db, option_map _to_lookup s).

Definition mark_instance_draining (clk : clock) (instance_id : string) (db : BridgeDB) : BridgeDB * Z :=
  mark_owner_draining clk instance_id db.

Definition register_turn_state (clk : clock) (session_id : string) (api_key_id : option string) (instance_id : string)
    (epoch : Z) (turn_state : string) (lease_ttl_seconds : Q) (db : BridgeDB) : BridgeDB * res BridgeError unit :=
  match upsert_alias sha256 dialect session_id _DURABLE_TURN_STATE_ALIAS turn_state
          (durable_bridge_api_key_scope api_key_id) db with
  | (db, Err e) => (db, Err e)
  | (db, Ok _) =>
      (fst (renew_session clk session_id instance_id epoch
         {| re_lease_ttl_seconds := lease_ttl_seconds; re_turn_state := Some turn_state; re_response_id := None;
            re_item_count := None; re_fingerprint := None; re_state := None |} db), Ok tt)
  end.

Definition register_previous_response_id (clk : clock) (session_id : string) (api_key_id : option string)
    (instance_id : string) (epoch : Z) (response_id : string) (lease_ttl_seconds : Q)
    (input_item_count : option Z) (input_full_fingerprint : option string) (db : BridgeDB)
    : BridgeDB * res BridgeError unit :=
  match upsert_alias sha256 dialect session_id _DURABLE_PREVIOUS_RESPONSE_ALIAS response_id
          (durable_bridge_api_key_scope api_key_id) db with
  | (db, Err e) => (db, Err e)
  | (db, Ok _) =>
      (fst (renew_session clk session_id instance_id epoch
         {| re_lease_ttl_seconds := lease_ttl_seconds; re_turn_state := None; re_response_id := Some response_id;
            re_item_count := input_item_count; re_fingerprint := input_full_fingerprint; re_state := None |} db), Ok tt)
  end.

Definition register_session_header (session_id : string) (api_key_id : option string) (session_header : string)
    (db : BridgeDB) : BridgeDB * res BridgeError unit :=
  upsert_alias sha256 dialect session_id _DURABLE_SESSION_HEADER_ALIAS session_header
    (durable_bridge_api_key_scope api_key_id) db.

End Coordinator.

End Coordinator.

(** ** Facts *)
Module BridgeFacts.
Import Repo Coordinator.

Section Facts.
Context (sha256 : string → string) (dialect : string).

(** *** The transactions that reach the tables *)

Inductive op :=
  | OpClaim (clk : clock) (fresh_id : string) (c : ClaimArgs)
  | OpRenew (clk : clock) (session_id instance_id : string) (epoch : Z) (a : RenewArgs)
  | OpRelease (clk : clock) (session_id instance_id : string) (epoch : Z) (draining : bool)
  | OpDrain (clk : clock) (instance_id : string)
  | OpPurge (cutoff : Z) (session_ids : list string)
  | OpAlias (session_id kind value scope : string).

Definition exec (o : op) (db : BridgeDB) : BridgeDB :=
  match o with
  | OpClaim clk fresh_id c => fst (claim_attempt sha256 (λ db, db) clk fresh_id c db)
  | OpRenew clk id inst epoch a => fst (renew_session clk id inst epoch a db)
  | OpRelease clk id inst epoch draining => fst (release_session clk id inst epoch draining db)
  | OpDrain clk inst => fst (mark_owner_draining clk inst db)
  | OpPurge cutoff ids => fst (purge_batch cutoff ids db)
  | OpAlias id kind value scope => fst (upsert_alias sha256 dialect id kind value scope db)
  end.

(** A state remembers the session ids ever used: a new row's id (a version 4
    UUID) is none of them. *)
Definition state := (BridgeDB * gset string)%type.

Definition valid (s : state) (o : op) : Prop :=
  match o with
  | OpClaim _ fresh_id _ => fresh_id ∉ s.2
  | _ => True
  end.

Definition used_by (o : op) : gset string := match o with OpClaim _ fresh_id _ => {[ fresh_id ]} | _ => ∅ end.

Inductive step : state → state → Prop :=
  | step_intro s o : valid s o → step s (exec o s.1, s.2 ∪ used_by o).

Definition empty_state : state := ({| sessions := []; aliases := [] |}, ∅).

(** *** Well-formed tables *)

Definition row_key (r : HttpBridgeSessionRecord) := (session_key_kind r, session_key_hash r, hb_scope r).
Definition alias_key (a : HttpBridgeSessionAlias) := (alias_kind a, alias_hash a, al_scope a).

Definition row_ok (r : HttpBridgeSessionRecord) : Prop :=
  session_key_hash r = sha256 (session_key_value r) ∧ (1 <= owner_epoch r)%Z ∧
  (hb_state r = BRIDGE_ACTIVE → is_Some (owner_instance_id r) ∧ is_Some (lease_expires_at r)).

Record wf (s : state) : Prop := {
  wf_ids : NoDup (map hb_id (sessions s.1));
  wf_used : ∀ r, r ∈ sessions s.1 → hb_id r ∈ s.2;
  wf_keys : NoDup (map row_key (sessions s.1));
  wf_rows : ∀ r, r ∈ sessions s.1 → row_ok r;
  wf_alias_keys : NoDup (map alias_key (aliases s.1));
  wf_fk : ∀ a, a ∈ aliases s.1 → ∃ r, r ∈ sessions s.1 ∧ hb_id r = al_session_id a;
}.

(** How the ownership of a row may evolve. *)
Definition row_le (r r' : HttpBridgeSessionRecord) : Prop :=
  (owner_epoch r < owner_epoch r')%Z ∨
  (owner_epoch r = owner_epoch r' ∧
   (owner_instance_id r' = owner_instance_id r ∨ owner_instance_id r' = None)).

Definition evolves (used : gset string) (db db' : BridgeDB) : Prop :=
  ∀ r', r' ∈ sessions db' →
    (∃ r, r ∈ sessions db ∧ hb_id r = hb_id r' ∧ row_key r = row_key r' ∧ row_le r r') ∨ hb_id r' ∉ used.

#[local] Instance row_le_refl : Reflexive row_le.
Proof. intros r. right. auto. Qed.
#[local] Instance row_le_trans : Transitive row_le.
Proof.
  intros a b c [H1|[H1 O1]] [H2|[H2 O2]]; [left; lia..|]. right. split; [lia|].
  destruct O2 as [->| ->]; [done|by right].
Qed.

(** Row identity, never written after the INSERT. *)
Definition same_ident (r r' : HttpBridgeSessionRecord) : Prop :=
  hb_id r' = hb_id r ∧ row_key r' = row_key r ∧ session_key_value r' = session_key_value r.

Lemma column_self {A} `{EqDecision A} (x y : A) : column x y x = y.
Proof. unfold column. by case_decide. Qed.

Lemma flush_ident clk l n r : same_ident r (flush clk l n r).
Proof. by repeat split. Qed.

Lemma flush_self clk l n : hb_id n = hb_id l → row_key n = row_key l → session_key_value n = session_key_value l →
  flush clk l n l = n {{ hb_updated_at := db_now clk }}.
Proof.
  unfold flush, row_key. intros H1 [= H2 H3 H4] H5. rewrite !column_self. destruct n; simpl in *. by subst.
Qed.

Lemma get_row_spec id db r : get_row id db = Some r → r ∈ sessions db ∧ hb_id r = id.
Proof. intros [H1 H2%String.eqb_eq]%find_Some_elem. done. Qed.

Lemma get_row_elem s r : wf s → r ∈ sessions s.1 → get_row (hb_id r) s.1 = Some r.
Proof.
  intros Hwf Hr. unfold get_row. destruct (List.find _ _) as [r'|] eqn:E.
  - apply find_Some_elem in E as [Hr' Hid%String.eqb_eq]. f_equal. by eapply (NoDup_map_eq hb_id); [apply Hwf|..].
  - eapply find_None_elem in E; [|done]. by rewrite String.eqb_refl in E.
Qed.

(** A row-wise update that keeps identity, the row invariant and the
    ownership order keeps the tables well formed. *)
Lemma map_sessions_ok s f (db' : BridgeDB) :
  wf s → sessions db' = map f (sessions s.1) → (∀ a, a ∈ aliases db' → a ∈ aliases s.1) →
  NoDup (map alias_key (aliases db')) →
  (∀ r, r ∈ sessions s.1 → same_ident r (f r) ∧ row_le r (f r) ∧ row_ok (f r)) →
  wf (db', s.2) ∧ evolves s.2 s.1 db'.
Proof.
  intros Hwf Hs Ha Hnda Hf.
  assert (map hb_id (sessions db') = map hb_id (sessions s.1)) as Hids.
  { rewrite Hs, map_map. apply map_ext_in. intros r Hr%list_elem_of_In. by apply Hf. }
  assert (map row_key (sessions db') = map row_key (sessions s.1)) as Hkeys.
  { rewrite Hs, map_map. apply map_ext_in. intros r Hr%list_elem_of_In. by apply Hf. }
  split; [split; cbn [fst snd]|].
  - rewrite Hids. apply Hwf.
  - rewrite Hs. intros r' (r & -> & Hr)%elem_of_map. destruct (Hf r Hr) as [[-> _] _]. by apply Hwf.
  - rewrite Hkeys. apply Hwf.
  - rewrite Hs. intros r' (r & -> & Hr)%elem_of_map. by apply Hf.
  - done.
  - intros a Hin. destruct (wf_fk s Hwf a (Ha a Hin)) as (r & Hr & Hid). exists (f r).
    destruct (Hf r Hr) as [(Hi & _) _]. rewrite Hs. split_and!; [apply elem_of_map; eauto|congruence].
  - intros r'. rewrite Hs. intros (r & -> & Hr)%elem_of_map. left. exists r. destruct (Hf r Hr) as [(Hi & Hk & _) [Hle _]]. by split_and!.
Qed.

(** The commit of one loaded row is such an update. *)
Lemma commit_row_ok s clk l n :
  wf s → l ∈ sessions s.1 → same_ident l n → row_le l n → row_ok n →
  ∀ db', sessions db' = sessions (commit_row clk l n s.1) → (∀ a, a ∈ aliases db' → a ∈ aliases s.1) →
  NoDup (map alias_key (aliases db')) → wf (db', s.2) ∧ evolves s.2 s.1 db'.
Proof.
  intros Hwf Hl Hid Hle Hok db' Hs Ha Hnd. eapply map_sessions_ok; [done|exact Hs|done|done|].
  intros r Hr. cbv beta. destruct (String.eqb_spec (hb_id r) (hb_id l)) as [Heq|Hne].
  - assert (r = l) as -> by (by eapply (NoDup_map_eq hb_id); [apply Hwf|..]).
    destruct Hid as (H1 & H2 & H3). rewrite flush_self by done.
    unfold same_ident, row_le, row_ok, row_key in *. destruct n; simpl in *. tauto.
  - split_and!; [by repeat split|reflexivity|by apply Hwf].
Qed.

Lemma commit_row_get s clk l n : wf s → l ∈ sessions s.1 → same_ident l n →
  get_row (hb_id l) (commit_row clk l n s.1) = Some (n {{ hb_updated_at := db_now clk }}).
Proof.
  intros Hwf Hl (H1 & H2 & H3). unfold get_row, commit_row, update_where. simpl.
  destruct (List.find _ _) as [r'|] eqn:E.
  - apply find_Some_elem in E as [(r & -> & Hr)%elem_of_map Hid%String.eqb_eq].
    destruct (String.eqb_spec (hb_id r) (hb_id l)) as [Heq|Hne]; [|done].
    assert (r = l) as -> by (by eapply (NoDup_map_eq hb_id); [apply Hwf|..]). by rewrite flush_self.
  - eapply find_None_elem in E; [|apply elem_of_map; exists l; split; [reflexivity|done]].
    rewrite String.eqb_refl in E. simpl in E. by rewrite String.eqb_refl in E.
Qed.

Lemma wf_refl s : wf s → wf (s.1, s.2) ∧ evolves s.2 s.1 s.1.
Proof. intros Hwf. split; [by destruct s|]. intros r Hr. left. exists r. split_and!; [done..|reflexivity]. Qed.

Lemma wf_more s used : wf s → s.2 ⊆ used → wf (s.1, used).
Proof. intros [] Hsub. split; simpl; try done. intros r Hr. auto. Qed.

Lemma find_session_spec kind value scope db r :
  find_session sha256 kind value scope db = Some r → r ∈ sessions db ∧ row_key r = (kind, sha256 value, scope).
Proof.
  intros [Hr Hm]%find_Some_elem. split; [done|]. unfold session_matches in Hm.
  rewrite !andb_true_iff, !String.eqb_eq in Hm. destruct Hm as [[H1 H2] H3]. unfold row_key. by rewrite H1, H2, H3.
Qed.

Lemma find_session_none kind value scope db r :
  find_session sha256 kind value scope db = None → r ∈ sessions db → row_key r ≠ (kind, sha256 value, scope).
Proof.
  intros Hn Hr [= H1 H2 H3]. eapply find_None_elem in Hn; [|exact Hr]. unfold session_matches in Hn.
  by rewrite H1, H2, H3, !String.eqb_refl in Hn.
Qed.

(** With no race, a claim that finds no row inserts one. *)
Lemma claim_insert s clk fresh_id c : wf s → fresh_id ∉ s.2 →
  find_session sha256 (ca_key_kind c) (ca_key_value c) (ca_scope c) s.1 = None →
  claim_attempt sha256 (λ db, db) clk fresh_id c s.1 =
  ({| sessions := sessions s.1 ++ [new_record sha256 c clk fresh_id]; aliases := aliases s.1 |},
   Some (_to_snapshot (new_record sha256 c clk fresh_id))).
Proof.
  intros Hwf Hfresh Hn. unfold claim_attempt. rewrite Hn. destruct (existsb _ _) eqn:E; [exfalso|done].
  apply existsb_exists in E as (r & Hr%list_elem_of_In & [Hid%String.eqb_eq|Hm]%orb_prop).
  - apply Hfresh. rewrite <- Hid. by apply Hwf.
  - eapply find_None_elem in Hn; [|exact Hr]. simpl in Hm. unfold durable_bridge_hash in *. congruence.
Qed.

Lemma insert_ok s r : wf s → hb_id r ∉ s.2 → (∀ x, x ∈ sessions s.1 → row_key x ≠ row_key r) → row_ok r →
  let db' := {| sessions := sessions s.1 ++ [r]; aliases := aliases s.1 |} in
  wf (db', s.2 ∪ {[ hb_id r ]}) ∧ evolves s.2 s.1 db'.
Proof.
  intros Hwf Hid Hkey Hok. cbv zeta.
  assert (∀ x, x ∈ sessions s.1 ++ [r] → x ∈ sessions s.1 ∨ x = r) as Hcase.
  { intros x [|?%list_elem_of_singleton]%elem_of_app; auto. }
  split; [split; cbn [fst snd sessions aliases]|].
  - rewrite map_app, NoDup_app. split_and!; [apply Hwf| |apply NoDup_singleton].
    intros k (x & -> & Hx)%elem_of_map ?%list_elem_of_singleton. apply Hid. simpl in *. rewrite <- H. by apply Hwf.
  - intros x [Hx| ->]%Hcase; [apply elem_of_union_l; by apply Hwf|set_solver].
  - rewrite map_app, NoDup_app. split_and!; [apply Hwf| |apply NoDup_singleton].
    intros k (x & -> & Hx)%elem_of_map ?%list_elem_of_singleton. by eapply Hkey.
  - intros x [Hx| ->]%Hcase; [by apply Hwf|done].
  - apply Hwf.
  - intros a Ha. destruct (wf_fk s Hwf a Ha) as (x & Hx & ?). exists x. split; [apply elem_of_app; by left|done].
  - intros x [Hx| ->]%Hcase; [|by right]. left. exists x. split_and!; [done..|reflexivity].
Qed.

Lemma lease_delta_pos ttl : (1000000 <= lease_delta ttl)%Z.
Proof.
  unfold lease_delta. destruct (qmax_spec 1 ttl) as [[H1 _] _].
  pose proof (py_round_bounds (qmax 1 ttl * 1000000)) as [_ Hb].
  assert (1000000 <= qmax 1 ttl * 1000000)%Q as Hq by nra.
  set (n := py_round _) in *. rewrite Zle_Qle in *. destruct (Z_lt_le_dec n 1000000) as [Hlt|Hle]; [|by rewrite <- Zle_Qle].
  assert (inject_Z n <= inject_Z 999999)%Q by (rewrite <- Zle_Qle; lia). unfold inject_Z in *. lra.
Qed.

Lemma claimed_ok c clk r : row_ok r →
  same_ident r (claimed_row c clk r) ∧ row_le r (claimed_row c clk r) ∧ row_ok (claimed_row c clk r).
Proof.
  intros (Hh & He & _). split_and!; [by repeat split| |].
  - unfold row_le, claimed_row, owner_changed. simpl. case_bool_decide; [left; lia|right].
    split; [done|]. left. by destruct (decide (owner_instance_id r = Some (ca_instance c))).
  - unfold row_ok, claimed_row. simpl. split_and!; [done| |by eauto]. destruct (owner_changed c r); lia.
Qed.

Lemma filter_aliases_ok s P : wf s →
  (∀ a, a ∈ List.filter P (aliases s.1) → a ∈ aliases s.1) ∧ NoDup (map alias_key (List.filter P (aliases s.1))).
Proof.
  intros Hwf. split; [by intros a [? _]%elem_of_filter_bool|]. apply NoDup_map_filter. apply Hwf.
Qed.

Lemma claim_ok s clk fresh_id c : wf s → fresh_id ∉ s.2 →
  let db' := fst (claim_attempt sha256 (λ db, db) clk fresh_id c s.1) in
  wf (db', s.2 ∪ {[ fresh_id ]}) ∧ evolves s.2 s.1 db'.
Proof.
  intros Hwf Hfresh. cbv zeta.
  destruct (find_session sha256 (ca_key_kind c) (ca_key_value c) (ca_scope c) s.1) as [r|] eqn:Ef.
  - destruct (find_session_spec _ _ _ _ _ Ef) as [Hr _]. unfold claim_attempt. rewrite Ef.
    assert (∀ db', wf (db', s.2) ∧ evolves s.2 s.1 db' → wf (db', s.2 ∪ {[ fresh_id ]}) ∧ evolves s.2 s.1 db') as Hmore.
    { intros db' [H ?]. split; [|done]. apply (wf_more (db', s.2)); [done|set_solver]. }
    destruct (claim_refused c (app_now clk) r); cbn [fst]; apply Hmore; [by apply wf_refl|].
    destruct (claimed_ok c clk r) as (H1 & H2 & H3); [by apply Hwf|].
    destruct (account_changed c r); eapply (commit_row_ok s clk r); try done;
      [by apply filter_aliases_ok|by apply filter_aliases_ok|apply Hwf].
  - rewrite claim_insert by done. cbn [fst]. apply (insert_ok s (new_record sha256 c clk fresh_id)); try done.
    intros x Hx. by eapply find_session_none.
Qed.

Lemma owner_update_ok s clk id inst epoch attrs : wf s →
  (∀ r, row_ok r → owner_instance_id r = Some inst → same_ident r (attrs r) ∧ row_le r (attrs r) ∧ row_ok (attrs r)) →
  let db' := fst (owner_update clk id inst epoch attrs s.1) in wf (db', s.2) ∧ evolves s.2 s.1 db'.
Proof.
  intros Hwf Hattrs. cbv zeta. unfold owner_update. destruct (get_row id s.1) as [r|] eqn:Eg; [|by apply wf_refl].
  apply get_row_spec in Eg as [Hr _]. destruct (owns inst epoch r) eqn:Eo; cbn [negb fst]; [|by apply wf_refl].
  unfold owns in Eo. apply andb_prop in Eo as [Ho%bool_decide_eq_true _].
  destruct (Hattrs r) as (H1 & H2 & H3); [by apply Hwf|done|].
  eapply (commit_row_ok s clk r); try done; apply Hwf.
Qed.

Lemma renewed_ok a clk inst r : row_ok r → owner_instance_id r = Some inst →
  same_ident r (renewed_row a clk r) ∧ row_le r (renewed_row a clk r) ∧ row_ok (renewed_row a clk r).
Proof.
  intros (Hh & He & _) Ho. split_and!; [by repeat split|right; by split; [|left]|].
  split_and!; simpl; [done..|]. rewrite Ho. eauto.
Qed.

Lemma released_ok d clk r : row_ok r →
  same_ident r (released_row d clk r) ∧ row_le r (released_row d clk r) ∧ row_ok (released_row d clk r).
Proof.
  intros (Hh & He & _). split_and!; [by repeat split|right; by split; [|right]|].
  split_and!; simpl; [done..|]. by destruct d.
Qed.

Lemma drain_ok s clk inst : wf s →
  let db' := fst (mark_owner_draining clk inst s.1) in wf (db', s.2) ∧ evolves s.2 s.1 db'.
Proof.
  intros Hwf. eapply map_sessions_ok; [done|reflexivity|done|apply Hwf|]. intros r Hr. cbv beta.
  pose proof (wf_rows s Hwf r Hr) as Hok. destruct (drained inst r).
  - unfold drain_row, same_ident, row_le, row_ok, row_key in *. destruct r; simpl in *.
    split_and!; try done; [|tauto..]. right. auto.
  - split_and!; [by repeat split|reflexivity|done].
Qed.

Lemma purge_ok s cutoff ids : wf s →
  let db' := fst (purge_batch cutoff ids s.1) in wf (db', s.2) ∧ evolves s.2 s.1 db'.
Proof.
  intros Hwf. set (doomed := λ r, mem (hb_id r) ids && purgeable cutoff r).
  change (fst (purge_batch cutoff ids s.1)) with
    {| sessions := List.filter (λ r, negb (doomed r)) (sessions s.1);
       aliases := List.filter (λ a, negb (mem (al_session_id a) (map hb_id (List.filter doomed (sessions s.1))))) (aliases s.1) |}.
  cbv zeta. clearbody doomed. assert (∀ r, r ∈ List.filter (λ r, negb (doomed r)) (sessions s.1) → r ∈ sessions s.1) as Hsub.
  { by intros r [? _]%elem_of_filter_bool. }
  split; [split; cbn [fst snd sessions aliases]|].
  - apply NoDup_map_filter, Hwf.
  - intros r Hr. apply Hwf. auto.
  - apply NoDup_map_filter, Hwf.
  - intros r Hr. apply Hwf. auto.
  - apply NoDup_map_filter, Hwf.
  - intros a [Ha Hkeep%negb_true_iff%mem_false]%elem_of_filter_bool.
    destruct (wf_fk s Hwf a Ha) as (r & Hr & Hid). exists r. split; [|done]. apply elem_of_filter_bool.
    split; [done|]. destruct (doomed r) eqn:E; [|done]. destruct Hkeep. rewrite <- Hid. apply elem_of_map.
    exists r. split; [done|]. by apply elem_of_filter_bool.
  - intros r Hr. left. exists r. split; [by apply Hsub|]. by split_and!.
Qed.

Lemma alias_matches_key kind hash scope a : alias_matches kind hash scope a = true ↔ alias_key a = (kind, hash, scope).
Proof.
  unfold alias_matches, alias_key. rewrite !andb_true_iff, !String.eqb_eq. split; [by intros [[-> ->] ->]|].
  by intros [= -> -> ->].
Qed.

(** The aliases after an upsert are those before it and the one it names. *)
Lemma upsert_alias_elem id kind value scope db a :
  a ∈ aliases (fst (upsert_alias sha256 dialect id kind value scope db)) →
  a ∈ aliases db ∨ (al_session_id a = id ∧ al_scope a = scope).
Proof.
  unfold upsert_alias. destruct (mem dialect _); [|by left]. destruct (is_some _); [|by left]. cbn [fst aliases].
  destruct (any_where _ _).
  - unfold update_where. intros (a0 & -> & Ha)%elem_of_map. destruct (alias_matches _ _ _ a0) eqn:Eh; [right|by left].
    apply alias_matches_key in Eh. destruct a0. by injection Eh.
  - intros [Ha| ->%list_elem_of_singleton]%elem_of_app; [by left|by right].
Qed.

Lemma alias_ok s id kind value scope : wf s →
  let db' := fst (upsert_alias sha256 dialect id kind value scope s.1) in wf (db', s.2) ∧ evolves s.2 s.1 db'.
Proof.
  intros Hwf. cbv zeta. pose proof (upsert_alias_elem id kind value scope s.1) as Hals. unfold upsert_alias in *.
  destruct (mem dialect _); [|by apply wf_refl].
  destruct (get_row id s.1) as [r|] eqn:Eg; cbn [is_some] in *; [|by apply wf_refl].
  apply get_row_spec in Eg as [Hr Hid]. cbn [fst aliases] in *.
  set (hit := alias_matches kind (durable_bridge_hash sha256 value) scope) in *. set (als := if any_where _ _ then _ else _) in *.
  assert (NoDup (map alias_key als)) as Hnd.
  { unfold als. destruct (any_where hit (aliases s.1)) eqn:Eany.
    - unfold update_where. rewrite map_map_id; [apply Hwf|]. intros a. destruct (hit a); by destruct a.
    - rewrite map_app, NoDup_app. split_and!; [apply Hwf| |apply NoDup_singleton].
      intros k (a & -> & Ha)%elem_of_map Hk%list_elem_of_singleton. apply alias_matches_key in Hk.
      apply not_true_iff_false in Eany. apply Eany, existsb_exists. exists a. by rewrite <- list_elem_of_In. }
  clearbody als. split; [|by apply wf_refl]. destruct Hwf as [? ? ? ? ? Hfk]. split; cbn [fst snd sessions aliases]; try done.
  intros a [Ha|[-> _]]%Hals; [by apply Hfk|]. by exists r.
Qed.

Lemma exec_ok s o : wf s → valid s o →
  wf (exec o s.1, s.2 ∪ used_by o) ∧ evolves s.2 s.1 (exec o s.1).
Proof.
  intros Hwf Hv. destruct o as [clk fresh_id c|clk id inst epoch a|clk id inst epoch d|clk inst|cutoff ids|id kind value scope];
    [by apply claim_ok|cbn [exec used_by]; rewrite (right_id_L ∅ (∪))..].
  - apply owner_update_ok; [done|]. intros r Hr Ho. by eapply renewed_ok.
  - apply owner_update_ok; [done|]. intros r Hr Ho. by eapply released_ok.
  - by apply drain_ok.
  - by apply purge_ok.
  - by apply alias_ok.
Qed.

Lemma wf_empty : wf empty_state.
Proof. split; simpl; try apply NoDup_nil_2; intros ? []%elem_of_nil. Qed.

Lemma steps_ok s s' : wf s → rtc step s s' → wf s' ∧ evolves s.2 s.1 s'.1 ∧ s.2 ⊆ s'.2.
Proof.
  intros Hwf Hs. revert Hwf. induction Hs as [s|s s1 s2 Hstep _ IH]; intros Hwf.
  { split_and!; [done|by apply wf_refl|done]. }
  destruct Hstep as [s o Hv]. destruct (exec_ok s o Hwf Hv) as [Hwf1 He1]. destruct (IH Hwf1) as (Hwf2 & He2 & Hsub).
  cbn [fst snd] in *. split_and!; [done| |set_solver]. intros r2 Hr2.
  destruct (He2 r2 Hr2) as [(r1 & Hr1 & Hid1 & Hk1 & Hle1)|Hfresh]; [|right; set_solver].
  destruct (He1 r1 Hr1) as [(r & Hr & Hid & Hk & Hle)|Hfresh]; [|right; congruence].
  left. exists r. split_and!; [done|congruence|congruence|by etrans].
Qed.

(** *** The transactions of the proxy *)

(** What a claim hands to the bridge session that made it: the id of the row
    and the scope of the API key it claimed it with
    ([_claim_durable_http_bridge_session], service.py 5698-5759, stores the id
    beside [session.key.api_key_id]). *)
Definition handed (o : op) (db : BridgeDB) : gset (string * string) :=
  match o with
  | OpClaim clk fresh_id c =>
      match snd (claim_attempt sha256 (λ db, db) clk fresh_id c db) with
      | Some snap => {[ (snap_id snap, ca_scope c) ]}
      | None => ∅
      end
  | _ => ∅
  end.

(** The bridge sessions of all instances register an alias for the row a claim
    gave them, with the API key of that claim
    ([_register_http_bridge_turn_state], [..._previous_response_id] and
    [register_session_header], service.py 5605-5653 and 5754-5759). *)
Definition registers (held : gset (string * string)) (o : op) : Prop :=
  match o with OpAlias id _ _ scope => (id, scope) ∈ held | _ => True end.

Inductive proxy_step : state * gset (string * string) → state * gset (string * string) → Prop :=
  | proxy_step_intro s held o : valid s o → registers held o →
      proxy_step (s, held) ((exec o s.1, s.2 ∪ used_by o), held ∪ handed o s.1).

Record scoped (s : state) (held : gset (string * string)) : Prop := {
  scoped_used : ∀ id scope, (id, scope) ∈ held → id ∈ s.2;
  scoped_held : ∀ id scope r, (id, scope) ∈ held → r ∈ sessions s.1 → hb_id r = id → hb_scope r = scope;
  scoped_alias : ∀ a r, a ∈ aliases s.1 → r ∈ sessions s.1 → hb_id r = al_session_id a → hb_scope r = al_scope a;
}.

Lemma exec_aliases s o a : wf s → valid s o → a ∈ aliases (exec o s.1) →
  a ∈ aliases s.1 ∨ ∃ id kind value scope, o = OpAlias id kind value scope ∧ al_session_id a = id ∧ al_scope a = scope.
Proof.
  intros Hwf Hv. destruct o as [clk fresh_id c|clk id inst epoch b|clk id inst epoch d|clk inst|cutoff ids|id kind value scope];
    cbn [exec].
  - intros Ha. left. revert Ha. destruct (find_session sha256 (ca_key_kind c) (ca_key_value c) (ca_scope c) s.1) eqn:Ef.
    + unfold claim_attempt. rewrite Ef. destruct (claim_refused _ _ _); cbn [fst]; [done|].
      destruct (account_changed _ _); [|done]. by intros [? _]%elem_of_filter_bool.
    + by rewrite claim_insert.
  - unfold renew_session, owner_update. destruct (get_row _ _); [|by left]. destruct (negb _); by left.
  - unfold release_session, owner_update. destruct (get_row _ _); [|by left]. destruct (negb _); by left.
  - by left.
  - intros [? _]%elem_of_filter_bool. by left.
  - intros [?|[]]%upsert_alias_elem; [by left|]. right. by exists id, kind, value, scope.
Qed.

(** The row a claim returns has the scope of the claim. *)
Lemma handed_scope s o id scope : wf s → valid s o → (id, scope) ∈ handed o s.1 →
  id ∈ s.2 ∪ used_by o ∧ ∀ r, r ∈ sessions (exec o s.1) → hb_id r = id → hb_scope r = scope.
Proof.
  intros Hwf Hv. destruct o as [clk fresh_id c| | | | |]; try by intros []%elem_of_empty. cbn [handed exec used_by].
  destruct (claim_ok s clk fresh_id c Hwf Hv) as [_ He]. revert He.
  destruct (find_session sha256 (ca_key_kind c) (ca_key_value c) (ca_scope c) s.1) as [r0|] eqn:Ef.
  - destruct (find_session_spec _ _ _ _ _ Ef) as [Hr0 Hk0]. unfold claim_attempt. rewrite Ef. intros He Hin.
    assert (id = hb_id r0 ∧ scope = ca_scope c) as [-> ->].
    { destruct (claim_refused c (app_now clk) r0); apply elem_of_singleton in Hin; by simplify_eq. }
    split; [apply elem_of_union_l; by apply Hwf|]. intros r Hr Hid.
    destruct (He r Hr) as [(r1 & Hr1 & Hid1 & Hk1 & _)|Hfresh]; [|destruct Hfresh; rewrite Hid; by apply Hwf].
    assert (r1 = r0) as -> by (eapply (NoDup_map_eq hb_id); [apply Hwf|done|done|congruence]).
    rewrite Hk0 in Hk1. by injection Hk1.
  - rewrite claim_insert by done. cbn [fst snd sessions]. intros _ [= -> ->]%elem_of_singleton. split; [set_solver|].
    intros r [Hr| ->%list_elem_of_singleton]%elem_of_app Hid; [|done].
    destruct Hv. rewrite <- Hid. by apply Hwf.
Qed.

Lemma proxy_step_ok s held s' held' : proxy_step (s, held) (s', held') →
  wf s → scoped s held → wf s' ∧ scoped s' held'.
Proof.
  intros Hstep Hwf Hsc. inversion Hstep as [? ? o Hv Hreg Heq1 Heq2]; subst.
  destruct (exec_ok s o Hwf Hv) as [Hwf' He]. split; [done|].
  assert (∀ r x, r ∈ sessions (exec o s.1) → hb_id r = x → x ∈ s.2 →
    ∃ r0, r0 ∈ sessions s.1 ∧ hb_id r0 = x ∧ hb_scope r0 = hb_scope r) as Hback.
  { intros r x Hr <- Hin. destruct (He r Hr) as [(r0 & ? & ? & Hk & _)|Hn]; [|done]. exists r0. by injection Hk. }
  split; cbn [fst snd].
  - intros id scope [Hin|Hin]%elem_of_union; [apply elem_of_union_l; by eapply Hsc|by eapply handed_scope].
  - intros id scope r [Hin|Hin]%elem_of_union Hr Hid; [|by eapply (proj2 (handed_scope s o id scope Hwf Hv Hin))].
    destruct (Hback r id Hr Hid) as (r0 & Hr0 & Hid0 & <-); [by eapply Hsc|]. by eapply (scoped_held s held).
  - intros a r Ha Hr Hid. destruct (exec_aliases s o a Hwf Hv Ha) as [Ha0|(id & kind & value & scope & -> & Hal & <-)].
    + destruct (wf_fk s Hwf a Ha0) as (x & Hx & Hxid).
      destruct (Hback r (al_session_id a) Hr Hid) as (r0 & Hr0 & Hid0 & <-); [rewrite <- Hxid; by apply Hwf|].
      by eapply (scoped_alias s held).
    + destruct (Hback r id Hr) as (r0 & Hr0 & Hid0 & <-); [congruence|by eapply (scoped_used s held)|].
      by eapply (scoped_held s held).
Qed.

Lemma proxy_steps_ok s held : rtc proxy_step (empty_state, ∅) (s, held) → wf s ∧ scoped s held.
Proof.
  intros Hs. change (wf (s, held).1 ∧ scoped (s, held).1 (s, held).2). revert Hs. generalize (s, held) as x.
  apply rtc_ind_r.
  { split; [apply wf_empty|]. split; simpl; [by intros ? ? []%elem_of_empty|by intros ? ? ? []%elem_of_empty|by intros ? ? []%elem_of_nil]. }
  intros [s1 h1] [s2 h2] _ Hstep [Hwf Hsc]. by eapply proxy_step_ok.
Qed.

(** C19. Well-formedness of every database the proxy reaches, whatever the
    order of claims, renewals, releases, draining, purges and registrations:
    ids and session keys are unique, every row hashes its key, active rows
    have an owner and a lease, aliases are unique per scope and name a session
    that exists.  Since an alias is registered for the row a claim returned,
    with the API key of that claim, that session is of the alias's own scope. *)
Theorem bridge_invariant s held (Hreach : rtc proxy_step (empty_state, ∅) (s, held)) :
  wf s ∧ ∀ a, a ∈ aliases s.1 →
    ∃ r, r ∈ sessions s.1 ∧ hb_id r = al_session_id a ∧ hb_scope r = al_scope a.
Proof.
  destruct (proxy_steps_ok s held Hreach) as [Hwf Hsc]. split; [done|]. intros a Ha.
  destruct (wf_fk s Hwf a Ha) as (r & Hr & Hid). exists r. split_and!; [done..|]. by eapply (scoped_alias s held).
Qed.

Lemma evolved s0 s1 r0 r1 :
  wf s0 → rtc step s0 s1 → r0 ∈ sessions s0.1 → r1 ∈ sessions s1.1 → hb_id r1 = hb_id r0 → row_le r0 r1.
Proof.
  intros Hwf Hs H0 H1 Hid. destruct (steps_ok s0 s1 Hwf Hs) as (_ & He & _).
  destruct (He r1 H1) as [(r & Hr & Hrid & _ & Hle)|Hfresh].
  - assert (r = r0) as -> by (eapply (NoDup_map_eq hb_id); [apply Hwf|done|done|congruence]). done.
  - destruct Hfresh. rewrite Hid. by apply Hwf.
Qed.

Lemma owns_spec inst epoch r : owns inst epoch r = true ↔ owner_instance_id r = Some inst ∧ owner_epoch r = epoch.
Proof. unfold owns. by rewrite andb_true_iff, bool_decide_eq_true, Z.eqb_eq. Qed.

Lemma not_owner_noop clk id inst epoch attrs db :
  (∀ r, get_row id db = Some r → owns inst epoch r = false) → fst (owner_update clk id inst epoch attrs db) = db.
Proof. intros H. unfold owner_update. destruct (get_row id db) as [r|]; [|done]. by rewrite H. Qed.

(** No two instances ever own a session at the same epoch, at whatever two
    times they are observed, and the epoch never goes back. *)
Theorem epoch_owner_unique s0 s1 r0 r1 a b
    (Hreach : rtc step empty_state s0) (H01 : rtc step s0 s1)
    (Hr0 : r0 ∈ sessions s0.1) (Hr1 : r1 ∈ sessions s1.1) (Hid : hb_id r1 = hb_id r0)
    (Ha : owner_instance_id r0 = Some a) (Hb : owner_instance_id r1 = Some b) :
  (owner_epoch r0 <= owner_epoch r1)%Z ∧ (owner_epoch r0 = owner_epoch r1 → a = b).
Proof.
  assert (wf s0) as Hwf0 by (by eapply steps_ok; [apply wf_empty|]).
  destruct (evolved s0 s1 r0 r1 Hwf0 H01 Hr0 Hr1 Hid) as [Hlt|[Heq Ho]]; split; try lia.
  intros _. destruct Ho; congruence.
Qed.

(** C16. Fencing.  If an instance owned a session at an epoch and at some later
    time no longer does, then its (instance, epoch) pair never owns the
    session again: every later renewal and release with that pair leaves the
    tables as they are, and as long as the session stays at that epoch it has
    no owner. *)
Theorem epoch_fencing s0 s1 s2 r0 a e
    (Hreach : rtc step empty_state s0) (H01 : rtc step s0 s1) (H12 : rtc step s1 s2)
    (Hr0 : r0 ∈ sessions s0.1) (Hown : owns a e r0 = true)
    (Hlost : ∀ r1, get_row (hb_id r0) s1.1 = Some r1 → owns a e r1 = false) :
  (∀ clk args, fst (renew_session clk (hb_id r0) a e args s2.1) = s2.1) ∧
  (∀ clk draining, fst (release_session clk (hb_id r0) a e draining s2.1) = s2.1) ∧
  (∀ r2, r2 ∈ sessions s2.1 → hb_id r2 = hb_id r0 → owner_epoch r2 = e → owner_instance_id r2 = None).
Proof.
  assert (wf s0) as Hwf0 by (by eapply steps_ok; [apply wf_empty|]).
  destruct (steps_ok s0 s1 Hwf0 H01) as (Hwf1 & He1 & Hsub1).
  destruct (steps_ok s1 s2 Hwf1 H12) as (Hwf2 & He2 & Hsub2). apply owns_spec in Hown as [Ho Hep].
  assert (∀ r2, r2 ∈ sessions s2.1 → hb_id r2 = hb_id r0 → owner_epoch r2 = e → owner_instance_id r2 = None) as Hnever.
  { intros r2 Hr2 Hid Heb. destruct (He2 r2 Hr2) as [(r1 & Hr1 & Hid1 & _ & H12')|Hfresh].
    2: { destruct Hfresh. rewrite Hid. apply Hsub1. by apply Hwf0. }
    pose proof (evolved s0 s1 r0 r1 Hwf0 H01 Hr0 Hr1 ltac:(congruence)) as H01'.
    pose proof (get_row_elem s1 r1 Hwf1 Hr1) as Hget. rewrite Hid1, Hid in Hget. apply Hlost in Hget.
    apply not_true_iff_false in Hget. rewrite owns_spec in Hget.
    destruct H01' as [|[E1 O1]], H12' as [|[E2 O2]]; [lia..|].
    destruct O1 as [O1|O1], O2 as [O2|O2]; try congruence. destruct Hget. split; [congruence|lia]. }
  assert (∀ r, get_row (hb_id r0) s2.1 = Some r → owns a e r = false) as Hnow.
  { intros r [Hr Hid]%get_row_spec. destruct (owns a e r) eqn:E; [|done]. apply owns_spec in E as [E1 E2].
    by rewrite (Hnever r Hr Hid E2) in E1. }
  split_and!; [intros; by apply not_owner_noop..|done].
Qed.

(** *** Claims *)

(** What a claim does to an existing session, on every branch.  It is refused
    exactly when another instance holds an unexpired lease on an active
    session and takeover was not requested, and then nothing changes.
    Otherwise the claimant owns the session with a lease of at least one
    second, at the old epoch when it was the owner already and at the next
    one when not; a change of account drops every alias and the recorded turn
    state and response of the old account; and no other session changes. *)
Theorem claim_existing_spec s clk fresh_id c r
    (Hreach : rtc step empty_state s)
    (Hfind : find_session sha256 (ca_key_kind c) (ca_key_value c) (ca_scope c) s.1 = Some r) :
  let (db', snap) := claim_attempt sha256 (λ db, db) clk fresh_id c s.1 in
  if claim_refused c (app_now clk) r
  then db' = s.1 ∧ snap = Some (_to_snapshot r) ∧ ca_allow_takeover c = false ∧ hb_state r = BRIDGE_ACTIVE ∧
       ∃ holder t, owner_instance_id r = Some holder ∧ holder ≠ ca_instance c ∧
                   lease_expires_at r = Some t ∧ (app_now clk < t)%Z
  else ∃ r' t,
       get_row (hb_id r) db' = Some r' ∧ snap = Some (_to_snapshot r') ∧ owns (ca_instance c) (owner_epoch r') r' = true ∧
       hb_state r' = BRIDGE_ACTIVE ∧ lease_expires_at r' = Some t ∧ (app_now clk + 1000000 <= t)%Z ∧
       owner_epoch r' = (if owner_changed c r then owner_epoch r + 1 else owner_epoch r)%Z ∧
       hb_account_id r' = ca_account_id c ∧
       (hb_account_id r ≠ ca_account_id c →
          (∀ a, a ∈ aliases db' → al_session_id a ≠ hb_id r) ∧
          latest_turn_state r' = ca_turn_state c ∧ latest_response_id r' = ca_response_id c ∧
          latest_input_item_count r' = None ∧ latest_input_full_fingerprint r' = None) ∧
       (hb_account_id r = ca_account_id c → aliases db' = aliases s.1) ∧
       (∀ x, x ∈ sessions s.1 → hb_id x ≠ hb_id r → x ∈ sessions db').
Proof.
  assert (wf s) as Hwf by (by eapply steps_ok; [apply wf_empty|]).
  destruct (find_session_spec _ _ _ _ _ Hfind) as [Hr _]. unfold claim_attempt. rewrite Hfind.
  destruct (claim_refused c (app_now clk) r) eqn:Eref.
  - unfold claim_refused, owner_changed, lease_expired, state_allows_takeover in Eref.
    rewrite !andb_true_iff, !negb_true_iff, bool_decide_eq_true, bool_decide_eq_false in Eref.
    destruct Eref as [[[Ho Ht] Hl] Hst]. assert (hb_state r = BRIDGE_ACTIVE) as Ha by (destruct (hb_state r); tauto).
    destruct (wf_rows s Hwf r Hr) as (_ & _ & Hact). destruct (Hact Ha) as [[holder Hh] [t Hlease]].
    rewrite Hlease in Hl. apply Z.leb_gt in Hl. split_and!; try done. exists holder, t. split_and!; try done. congruence.
  - set (new := claimed_row c clk r). set (db1 := if account_changed c r then _ else _).
    assert (sessions db1 = sessions s.1) as Hs1 by (unfold db1; by destruct (account_changed c r)).
    assert (get_row (hb_id r) (commit_row clk r new db1) = Some (new {{ hb_updated_at := db_now clk }})) as Hget.
    { unfold get_row, commit_row. rewrite Hs1. apply (commit_row_get s clk r new); [done..|by repeat split]. }
    exists (new {{ hb_updated_at := db_now clk }}), (app_now clk + lease_delta (ca_lease_ttl_seconds c))%Z.
    split; [exact Hget|]. cbn. pose proof (lease_delta_pos (ca_lease_ttl_seconds c)). split_and!; try done; [|lia|..].
    + apply owns_spec. done.
    + intros Hacc. unfold db1, account_changed. rewrite bool_decide_eq_true_2 by done. simpl. split_and!; try done.
      intros a [_ Ha%negb_true_iff%String.eqb_neq]%elem_of_filter_bool. done.
    + intros Hacc. unfold db1, account_changed. by rewrite bool_decide_eq_false_2 by naive_solver.
    + intros x Hx Hne. rewrite Hs1. apply elem_of_map. exists x. split; [|done].
      by destruct (String.eqb_spec (hb_id x) (hb_id r)).
Qed.

(** A claim linearizes: whatever other transactions commit between its
    SELECT and its INSERT, in either attempt, a claim that returns does to
    the database, at one of the states it had meanwhile, what an undisturbed
    attempt does there; and it fails only if the session was twice absent at
    the SELECT and present at the INSERT. *)
Theorem claim_linearizes race clk fresh_id c db :
  let lookup := find_session sha256 (ca_key_kind c) (ca_key_value c) (ca_scope c) in
  match claim_session sha256 race clk fresh_id c db with
  | (db', Ok snap) =>
      ∃ n at_db, (n = 0%nat ∨ n = 1%nat) ∧
        at_db ∈ [db; race 0%nat db; race 1%nat (race 0%nat db)] ∧
        claim_attempt sha256 (λ x, x) (clk n) (fresh_id n) c at_db = (db', Some snap)
  | (db', Err e) =>
      e = IntegrityError ∧ lookup db = None ∧ lookup (race 0%nat db) = None ∧ db' = race 1%nat (race 0%nat db)
  end.
Proof.
  cbv zeta. unfold claim_session.
  assert (∀ n db0, match claim_attempt sha256 (race n) (clk n) (fresh_id n) c db0 with
    | (db', Some snap) => ∃ at_db, (at_db = db0 ∨ at_db = race n db0) ∧
        claim_attempt sha256 (λ x, x) (clk n) (fresh_id n) c at_db = (db', Some snap)
    | (db', None) => db' = race n db0 ∧ find_session sha256 (ca_key_kind c) (ca_key_value c) (ca_scope c) db0 = None
    end) as Hatt.
  { intros n db0. unfold claim_attempt at 1.
    destruct (find_session sha256 _ _ _ db0) as [r|] eqn:Ef.
    - destruct (claim_refused c (app_now (clk n)) r) eqn:Er; exists db0; (split; [by left|]);
        unfold claim_attempt; by rewrite Ef, Er.
    - destruct (existsb _ _) eqn:Ex; [done|]. exists (race n db0). split; [by right|].
      unfold claim_attempt. destruct (find_session sha256 _ _ _ (race n db0)) as [r|] eqn:Ef'; [exfalso|by rewrite Ex].
      apply find_Some_elem in Ef' as [Hr Hm]. apply not_true_iff_false in Ex. apply Ex, existsb_exists.
      exists r. rewrite <- list_elem_of_In. split; [done|]. apply orb_true_iff. by right. }
  pose proof (Hatt 0%nat db) as H0. destruct (claim_attempt _ (race 0%nat) _ _ _ db) as [db0 [snap0|]].
  - destruct H0 as (at_db & Hin & Heq). exists 0%nat, at_db. split_and!; [by left| |done]. set_solver.
  - destruct H0 as [-> Hn0]. pose proof (Hatt 1%nat (race 0%nat db)) as H1.
    destruct (claim_attempt _ (race 1%nat) _ _ _ _) as [db1 [snap1|]].
    + destruct H1 as (at_db & Hin & Heq). exists 1%nat, at_db. split_and!; [by right| |done]. set_solver.
    + destruct H1 as [-> Hn1]. by split_and!.
Qed.

(** *** Lookups *)

Lemma resolve_alias_spec s kind value scope snap : wf s →
  resolve_alias sha256 kind value scope s.1 = Some snap →
  ∃ a r, a ∈ aliases s.1 ∧ alias_key a = (kind, sha256 value, scope) ∧ r ∈ sessions s.1 ∧
    al_session_id a = hb_id r ∧ snap = _to_snapshot r.
Proof.
  intros Hwf. unfold resolve_alias. destruct (hd_error _) as [r|] eqn:Eh; [|done]. intros [= <-].
  assert (r ∈ flat_map (λ a, List.filter (λ r, String.eqb (al_session_id a) (hb_id r)) (sessions s.1))
    (List.filter (alias_matches kind (sha256 value) scope) (aliases s.1))) as Hin.
  { unfold durable_bridge_hash in Eh. destruct (flat_map _ _); [done|]. injection Eh as ->. by left. }
  apply list_elem_of_In, in_flat_map in Hin as (a & Ha%list_elem_of_In & Hr%list_elem_of_In).
  apply elem_of_filter_bool in Ha as [Ha Hm%alias_matches_key], Hr as [Hr Hid%String.eqb_eq].
  exists a, r. by split_and!.
Qed.

Lemma resolve_alias_hit s a r : wf s → a ∈ aliases s.1 → r ∈ sessions s.1 → al_session_id a = hb_id r →
  alias_hash a = sha256 (alias_value a) →
  resolve_alias sha256 (alias_kind a) (alias_value a) (al_scope a) s.1 = Some (_to_snapshot r).
Proof.
  intros Hwf Ha Hr Hid Hh. destruct (resolve_alias _ _ _ _ _) as [snap|] eqn:E.
  - apply resolve_alias_spec in E as (a' & r' & Ha' & Hk & Hr' & Hid' & ->); [|done].
    assert (a' = a) as ->.
    { eapply (NoDup_map_eq alias_key); [apply Hwf|done|done|]. rewrite Hk. unfold alias_key. by rewrite Hh. }
    do 2 f_equal. eapply (NoDup_map_eq hb_id); [apply Hwf|done|done|congruence].
  - unfold resolve_alias in E. destruct (hd_error _) eqn:Eh; [done|].
    assert (r ∈ flat_map (λ a, List.filter (λ r, String.eqb (al_session_id a) (hb_id r)) (sessions s.1))
      (List.filter (alias_matches (alias_kind a) (sha256 (alias_value a)) (al_scope a)) (aliases s.1))) as Hin.
    { apply list_elem_of_In, in_flat_map. exists a. rewrite <- !list_elem_of_In, !elem_of_filter_bool. split_and!; try done.
      - apply alias_matches_key. unfold alias_key. by rewrite Hh.
      - by apply String.eqb_eq. }
    unfold durable_bridge_hash in Eh. destruct (flat_map _ _); [by apply elem_of_nil in Hin|done].
Qed.

Lemma first_alias_scope s held scope cands snap : wf s → scoped s held →
  first_alias sha256 scope cands s.1 = Some snap → ∃ r, r ∈ sessions s.1 ∧ hb_scope r = scope ∧ snap = _to_snapshot r.
Proof.
  intros Hwf Hsc. induction cands as [|[kind [value|]] cands IH]; simpl; [done| |done].
  destruct (resolve_alias _ _ _ _ _) as [x|] eqn:E; [|done]. intros [= ->].
  apply resolve_alias_spec in E as (a & r & Ha & Hk & Hr & Hid & ->); [|done].
  exists r. split_and!; [done| |done]. rewrite (scoped_alias s held Hsc a r) by done. by injection Hk.
Qed.

(** Tenants are isolated: whatever turn state, response id, session header or
    session key a request presents, the durable session it is routed to
    exists and belongs to the scope of the request's own API key. *)
Theorem lookup_scope_isolated s held kind value api_key_id turn header response l
    (Hreach : rtc proxy_step (empty_state, ∅) (s, held))
    (Hfound : lookup_request_targets sha256 kind value api_key_id turn header response s.1 = Some l) :
  ∃ r, r ∈ sessions s.1 ∧ l = _to_lookup (_to_snapshot r) ∧ hb_scope r = durable_bridge_api_key_scope api_key_id.
Proof.
  destruct (proxy_steps_ok s held Hreach) as [Hwf Hsc0].
  unfold lookup_request_targets in Hfound. set (scope := durable_bridge_api_key_scope api_key_id) in *.
  assert (∀ snap, (∃ r, r ∈ sessions s.1 ∧ hb_scope r = scope ∧ snap = _to_snapshot r) → Some (_to_lookup snap) = Some l →
    ∃ r, r ∈ sessions s.1 ∧ l = _to_lookup (_to_snapshot r) ∧ hb_scope r = scope) as Hdone.
  { intros snap (r & Hr & Hsc & ->) [= <-]. eauto. }
  destruct (first_alias _ _ _ _) as [snap|] eqn:Ea; [eapply Hdone; [by eapply first_alias_scope|done]|].
  assert (∀ snap, get_session sha256 kind value scope s.1 = Some snap →
    ∃ r, r ∈ sessions s.1 ∧ hb_scope r = scope ∧ snap = _to_snapshot r) as Hkey.
  { unfold get_session. intros snap. destruct (find_session _ _ _ _ _) as [r|] eqn:Ef; [|done]. intros [= <-].
    apply find_session_spec in Ef as [Hr [= _ _ Hsc]]. eauto. }
  assert (∀ P snap, option_map _to_snapshot (min_by recent_key
      (List.filter (λ r, P r && String.eqb (hb_scope r) scope && live_state r) (sessions s.1))) = Some snap →
    ∃ r, r ∈ sessions s.1 ∧ hb_scope r = scope ∧ snap = _to_snapshot r) as Hrecent.
  { intros P snap. destruct (min_by _ _) as [r|] eqn:Em; [|done]. intros [= <-].
    apply min_by_elem, elem_of_filter_bool in Em as [Hr [[_ Hsc%String.eqb_eq]%andb_prop _]%andb_prop]. eauto. }
  unfold find_session_by_latest_turn_state, find_session_by_latest_response_id in Hfound.
  destruct (get_session sha256 kind value scope s.1) as [k|] eqn:Ek; [by eapply Hdone; [apply Hkey|]|].
  destruct turn as [t|], response as [p|]; try done;
    repeat match type of Hfound with
    | context [option_map _to_snapshot ?m] =>
        let E := fresh "E" in destruct (option_map _to_snapshot m) eqn:E;
        [exact (Hdone _ (Hrecent _ _ E) Hfound)|]; clear E
    end; done.
Qed.

(** Registering an alias stores it. *)
Lemma upsert_alias_stores s kind value r : wf s → mem dialect ["postgresql"; "sqlite"] = true → r ∈ sessions s.1 →
  ∃ db' a, upsert_alias sha256 dialect (hb_id r) kind value (hb_scope r) s.1 = (db', Ok tt) ∧
    wf (db', s.2) ∧ sessions db' = sessions s.1 ∧ a ∈ aliases db' ∧
    a = {| al_session_id := hb_id r; alias_kind := kind; alias_value := value; alias_hash := sha256 value;
           al_scope := hb_scope r |}.
Proof.
  intros Hwf Hd Hr. pose proof (get_row_elem s r Hwf Hr) as Hget.
  destruct (alias_ok s (hb_id r) kind value (hb_scope r) Hwf) as [Hwf' _].
  unfold upsert_alias in *. rewrite Hd, Hget in *. cbn [is_some fst] in *.
  set (hit := alias_matches kind (durable_bridge_hash sha256 value) (hb_scope r)) in *.
  set (db' := {| sessions := _ |}) in *. exists db'. eexists. split_and!; [done..| |reflexivity].
  unfold db'. cbn [aliases]. destruct (any_where hit (aliases s.1)) eqn:Eany.
  - apply existsb_exists in Eany as (a & Ha%list_elem_of_In & Hm). pose proof Hm as Hk%alias_matches_key.
    apply elem_of_map. exists a. split; [|done]. rewrite Hm. destruct a. unfold alias_key in Hk. simpl in *. by simplify_eq.
  - apply elem_of_app. right. by apply list_elem_of_singleton.
Qed.

(** A request that presents a registered turn state is routed by it, whatever
    else it carries. *)
Lemma lookup_by_turn_state s a r api_key_id kind value header response :
  wf s → a ∈ aliases s.1 → r ∈ sessions s.1 → al_session_id a = hb_id r → alias_hash a = sha256 (alias_value a) →
  alias_kind a = _DURABLE_TURN_STATE_ALIAS → al_scope a = durable_bridge_api_key_scope api_key_id →
  lookup_request_targets sha256 kind value api_key_id (Some (alias_value a)) header response s.1 =
  Some (_to_lookup (_to_snapshot r)).
Proof.
  intros Hwf Ha Hr Hid Hh Hk Hsc. unfold lookup_request_targets. cbn [first_alias].
  by rewrite <- Hk, <- Hsc, (resolve_alias_hit s a r).
Qed.

(** Round trip: after the owner registers a turn state, a request of the same
    API key that presents it is routed to that session, whatever other hints
    it carries, and the session has the turn state and a live lease. *)
Theorem register_turn_state_roundtrip s clk r api_key_id inst epoch turn ttl kind value header response
    (Hreach : rtc step empty_state s) (Hd : mem dialect ["postgresql"; "sqlite"] = true)
    (Hr : r ∈ sessions s.1) (Hscope : hb_scope r = durable_bridge_api_key_scope api_key_id)
    (Hown : owns inst epoch r = true) :
  let (db', result) := register_turn_state sha256 dialect clk (hb_id r) api_key_id inst epoch turn ttl s.1 in
  result = Ok tt ∧
  ∃ l, lookup_request_targets sha256 kind value api_key_id (Some turn) header response db' = Some l ∧
    lk_session_id l = hb_id r ∧ lk_owner l = Some inst ∧ lk_epoch l = epoch ∧ lk_turn_state l = Some turn ∧
    lease_is_active (app_now clk) l = true.
Proof.
  assert (wf s) as Hwf by (by eapply steps_ok; [apply wf_empty|]). unfold register_turn_state. rewrite <- Hscope.
  destruct (upsert_alias_stores s _DURABLE_TURN_STATE_ALIAS turn r Hwf Hd Hr) as (db1 & a & -> & Hwf1 & Hs1 & Ha & Hdef).
  split; [done|]. assert (r ∈ sessions db1) as Hr1 by (by rewrite Hs1).
  pose proof (get_row_elem (db1, s.2) r Hwf1 Hr1) as Hget. cbn [fst] in Hget.
  unfold renew_session, owner_update. rewrite Hget, Hown. cbn [negb fst].
  set (args := {| re_lease_ttl_seconds := ttl |}). set (new := renewed_row args clk r).
  apply owns_spec in Hown as [Ho Hep].
  destruct (renewed_ok args clk inst r (wf_rows s Hwf r Hr) Ho) as (H1 & H2 & H3).
  destruct (commit_row_ok (db1, s.2) clk r new Hwf1 Hr1 H1 H2 H3 (commit_row clk r new db1) eq_refl) as [Hwf2 _];
    [done|apply Hwf1|].
  pose proof (commit_row_get (db1, s.2) clk r new Hwf1 Hr1 H1) as [Hnew _]%get_row_spec.
  exists (_to_lookup (_to_snapshot (new {{ hb_updated_at := db_now clk }}))). split.
  - replace turn with (alias_value a) by (by rewrite Hdef).
    apply (lookup_by_turn_state (commit_row clk r new db1, s.2) a); rewrite ?Hdef; try done. by rewrite <- Hdef.
  - cbn. split_and!; try done. rewrite Ho. cbn. apply Z.ltb_lt. pose proof (lease_delta_pos ttl). lia.
Qed.

(** Registration is not fenced: a caller that no longer owns the session
    leaves its row alone but still stores the alias, so the turn state of its
    own old conversation is routed to the session of the new owner, on
    whatever account that runs. *)
Theorem stale_owner_registers_alias s clk r api_key_id inst epoch turn ttl kind value header response
    (Hreach : rtc step empty_state s) (Hd : mem dialect ["postgresql"; "sqlite"] = true)
    (Hr : r ∈ sessions s.1) (Hscope : hb_scope r = durable_bridge_api_key_scope api_key_id)
    (Hstale : owns inst epoch r = false) :
  let (db', result) := register_turn_state sha256 dialect clk (hb_id r) api_key_id inst epoch turn ttl s.1 in
  result = Ok tt ∧ sessions db' = sessions s.1 ∧
  lookup_request_targets sha256 kind value api_key_id (Some turn) header response db' =
    Some (_to_lookup (_to_snapshot r)).
Proof.
  assert (wf s) as Hwf by (by eapply steps_ok; [apply wf_empty|]). unfold register_turn_state. rewrite <- Hscope.
  destruct (upsert_alias_stores s _DURABLE_TURN_STATE_ALIAS turn r Hwf Hd Hr) as (db1 & a & -> & Hwf1 & Hs1 & Ha & Hdef).
  assert (r ∈ sessions db1) as Hr1 by (by rewrite Hs1).
  pose proof (get_row_elem (db1, s.2) r Hwf1 Hr1) as Hget. cbn [fst] in Hget.
  unfold renew_session, owner_update. rewrite Hget, Hstale. cbn [negb fst]. split_and!; [done..|].
  replace turn with (alias_value a) by (by rewrite Hdef).
  apply (lookup_by_turn_state (db1, s.2) a); rewrite ?Hdef; try done. by rewrite <- Hdef.
Qed.

(** The owner check and the write of [release_session] are separate
    statements: a release whose row was loaded before another instance took
    the session over clears the new owner and closes its session. *)
Theorem stale_release_closes_successor s clk loaded r
    (Hreach : rtc step empty_state s) (Hr : r ∈ sessions s.1) (Hid : hb_id r = hb_id loaded)
    (Hact : hb_state loaded = BRIDGE_ACTIVE) (Howner : is_Some (owner_instance_id loaded)) :
  ∃ r', get_row (hb_id r) (commit_row clk loaded (released_row false clk loaded) s.1) = Some r' ∧
    owner_instance_id r' = None ∧ hb_state r' = BRIDGE_CLOSED ∧ owner_epoch r' = owner_epoch r.
Proof.
  assert (wf s) as Hwf by (by eapply steps_ok; [apply wf_empty|]).
  exists (flush clk loaded (released_row false clk loaded) r). split.
  - unfold get_row, commit_row, update_where. cbn [sessions]. destruct (List.find _ _) as [r'|] eqn:E.
    + apply find_Some_elem in E as [(x & -> & Hx)%elem_of_map Heq%String.eqb_eq].
      destruct (String.eqb_spec (hb_id x) (hb_id loaded)) as [Hxl|Hne]; [|congruence].
      do 2 f_equal. eapply (NoDup_map_eq hb_id); [apply Hwf|done|done|congruence].
    + eapply find_None_elem in E; [|apply elem_of_map; exists r; split; [reflexivity|done]].
      rewrite Hid, String.eqb_refl in E. cbn [flush hb_id] in E. by rewrite Hid, String.eqb_refl in E.
  - cbn. unfold column. rewrite Hact. destruct Howner as [o ->]. by repeat case_decide.
Qed.

(** *** Purging *)

Lemma filter_members_length {A} (key : A → string) batch l :
  NoDup (map key l) → NoDup (map key batch) → (∀ x, x ∈ batch → x ∈ l) →
  length (List.filter (λ x, mem (key x) (map key batch)) l) = length batch.
Proof.
  intros Hl Hb Hsub. apply Permutation_length, NoDup_Permutation.
  - exact (NoDup_fmap_1 key _ (NoDup_map_filter key _ _ Hl)).
  - exact (NoDup_fmap_1 key _ Hb).
  - intros x. rewrite elem_of_filter_bool, mem_spec, elem_of_map. split.
    + intros [Hx (y & Heq & Hy)]. by rewrite (NoDup_map_eq key l x y Hl Hx (Hsub y Hy) Heq).
    + intros Hx. split; [auto|eauto].
Qed.

(** One batch removes exactly its rows. *)
Lemma purge_batch_spec s cutoff batch : wf s → NoDup (map hb_id batch) →
  (∀ r, r ∈ batch → r ∈ List.filter (purgeable cutoff) (sessions s.1)) →
  let '(db', n) := purge_batch cutoff (map hb_id batch) s.1 in
  step s (db', s.2) ∧ n = Z.of_nat (length batch) ∧
  List.filter (λ r, negb (purgeable cutoff r)) (sessions db') = List.filter (λ r, negb (purgeable cutoff r)) (sessions s.1) ∧
  length (List.filter (purgeable cutoff) (sessions s.1)) =
    (length batch + length (List.filter (purgeable cutoff) (sessions db')))%nat.
Proof.
  intros Hwf Hnd Hsub. unfold purge_batch. cbn [sessions].
  set (doomed := λ r, mem (hb_id r) (map hb_id batch) && purgeable cutoff r).
  assert (List.filter doomed (sessions s.1) =
    List.filter (λ r, mem (hb_id r) (map hb_id batch)) (List.filter (purgeable cutoff) (sessions s.1))) as Hdoomed.
  { unfold doomed. clear. generalize (map hb_id batch) as ids. intros ids.
    induction (sessions s.1) as [|x l IH]; simpl; [done|].
    destruct (purgeable cutoff x), (mem (hb_id x) ids) eqn:Em; simpl; rewrite ?Em, IH; done. }
  assert (length (List.filter doomed (sessions s.1)) = length batch) as Hlen.
  { rewrite Hdoomed. apply filter_members_length; [apply NoDup_map_filter, Hwf|done|done]. }
  split_and!.
  - pose proof (step_intro s (OpPurge cutoff (map hb_id batch)) I) as Hst. cbn [exec used_by] in Hst.
    by rewrite (right_id_L ∅ (∪)) in Hst.
  - by rewrite length_map, Hlen.
  - apply filter_filter_and. intros r _ Hp%negb_true_iff. unfold doomed. by rewrite Hp, andb_false_r.
  - rewrite <- Hlen. rewrite (filter_split_length doomed (List.filter (purgeable cutoff) (sessions s.1))). f_equal.
    + f_equal. apply filter_filter_and. by intros r _ [_ ?]%andb_prop.
    + f_equal. apply filter_swap.
Qed.

Lemma purge_loop_spec fuel cutoff n s count : (0 < n)%nat → wf s →
  (length (List.filter (purgeable cutoff) (sessions s.1)) <= fuel)%nat →
  ∃ db', purge_loop fuel cutoff n s.1 count =
      Some (db', (count + Z.of_nat (length (List.filter (purgeable cutoff) (sessions s.1))))%Z) ∧
    rtc step s (db', s.2) ∧ sessions db' = List.filter (λ r, negb (purgeable cutoff r)) (sessions s.1).
Proof.
  intros Hn. revert s count. induction fuel as [|fuel IH]; intros s count Hwf Hfuel; cbn [purge_loop];
    pose proof (merge_sort_Permutation seen_order (List.filter (purgeable cutoff) (sessions s.1))) as Hp;
    set (l := merge_sort _ _) in *; destruct (take n l) as [|r batch] eqn:Eb.
  2: { assert (l = []) as Hl by (apply nil_length_inv; rewrite (Permutation_length Hp); lia). by rewrite Hl, take_nil in Eb. }
  1-2: assert (l = []) as Hl by (destruct l; [done|by destruct n; [lia|]]); rewrite Hl in Hp;
    apply Permutation_nil in Hp; exists s.1; rewrite Hp; split_and!; [do 2 f_equal; simpl; lia|by destruct s|];
    by rewrite filter_none_all.
  assert (∀ x, x ∈ r :: batch → x ∈ List.filter (purgeable cutoff) (sessions s.1)) as Hsub.
  { intros x Hx. rewrite <- Hp, <- (take_drop n l), Eb. apply elem_of_app. by left. }
  assert (NoDup (map hb_id (r :: batch))) as Hnd.
  { rewrite <- Eb. apply NoDup_map_take. rewrite Hp. apply NoDup_map_filter, Hwf. }
  pose proof (purge_batch_spec s cutoff (r :: batch) Hwf Hnd Hsub) as Hb.
  destruct (purge_batch cutoff _ s.1) as [db1 k]. destruct Hb as (Hst & -> & Hkeep & Hlen).
  destruct (IH (db1, s.2) (count + Z.of_nat (length (r :: batch)))%Z) as (db' & Hl & Hrtc & Hs).
  { eapply steps_ok; [exact Hwf|]. by apply rtc_once. }
  { simpl in Hlen. cbn [fst]. lia. }
  cbn [fst snd] in *. exists db'. rewrite Hl. split_and!; [do 2 f_equal; lia|by eapply rtc_l|congruence].
Qed.

(** The purge terminates for every table and batch size: it deletes exactly
    the closed sessions last seen before the cutoff, returns their number,
    and is a sequence of transactions of the system, so no alias is left
    without its session. *)
Theorem purge_terminates s cutoff n (Hreach : rtc step empty_state s) (Hn : (0 < n)%nat) :
  ∃ db', purge_closed_before cutoff n s.1 =
      Some (db', Z.of_nat (length (List.filter (purgeable cutoff) (sessions s.1)))) ∧
    sessions db' = List.filter (λ r, negb (purgeable cutoff r)) (sessions s.1) ∧
    (∀ a, a ∈ aliases db' → ∃ r, r ∈ sessions db' ∧ hb_id r = al_session_id a).
Proof.
  assert (wf s) as Hwf by (by eapply steps_ok; [apply wf_empty|]). unfold purge_closed_before.
  destruct (purge_loop_spec (S (length (sessions s.1))) cutoff n s 0 Hn Hwf) as (db' & Hl & Hrtc & Hs).
  { pose proof (filter_le_length (purgeable cutoff) (sessions s.1)). lia. }
  exists db'. split_and!; [exact Hl|done|]. intros a Ha.
  destruct (steps_ok s _ Hwf Hrtc) as ([_ _ _ _ _ Hfk] & _). destruct (Hfk a Ha) as (r & ? & ?). eauto.
Qed.

End Facts.

(** *** Witnesses *)

Definition ex_sha (s : string) : string := "h" ++ s.
Definition ex_clk (t : Z) : clock := {| app_now := t; db_now := t |}.
Definition ex_claim (instance account : string) (takeover : bool) : ClaimArgs :=
  {| ca_key_kind := "turn_state"; ca_key_value := "k"; ca_scope := "tenant"; ca_instance := instance;
     ca_lease_ttl_seconds := 30; ca_account_id := Some account; ca_model := Some "gpt-5"; ca_service_tier := None;
     ca_turn_state := None; ca_response_id := None; ca_allow_takeover := takeover |}.
Definition ex_renew : RenewArgs :=
  {| re_lease_ttl_seconds := 30; re_turn_state := None; re_response_id := None; re_item_count := None;
     re_fingerprint := None; re_state := None |}.

Definition ex_exec (o : op) (s : state) : state := (exec ex_sha "sqlite" o s.1, s.2 ∪ used_by o).

(** Instance A claims a session, then B takes it over with another account. *)
Definition ex_s1 : state := ex_exec (OpClaim (ex_clk 0) "s1" (ex_claim "A" "acc1" false)) empty_state.
Definition ex_s2 : state := ex_exec (OpClaim (ex_clk 5) "s2" (ex_claim "B" "acc2" true)) ex_s1.
Definition ex_row1 : HttpBridgeSessionRecord := new_record ex_sha (ex_claim "A" "acc1" false) (ex_clk 0) "s1".
Definition ex_row2 : HttpBridgeSessionRecord :=
  (claimed_row (ex_claim "B" "acc2" true) (ex_clk 5) ex_row1) {{ hb_updated_at := 5%Z }}.

Lemma ex_once o s : valid s o → rtc (step ex_sha "sqlite") s (ex_exec o s).
Proof. intros Hv. apply rtc_once. by apply step_intro. Qed.

Lemma ex_reach1 : rtc (step ex_sha "sqlite") empty_state ex_s1.
Proof. apply ex_once. simpl. set_solver. Qed.
Lemma ex_reach12 : rtc (step ex_sha "sqlite") ex_s1 ex_s2.
Proof. apply ex_once. unfold ex_s1, ex_exec. simpl. set_solver. Qed.
Lemma ex_reach2 : rtc (step ex_sha "sqlite") empty_state ex_s2.
Proof. etrans; [apply ex_reach1|apply ex_reach12]. Qed.

Lemma ex_in1 : ex_row1 ∈ sessions ex_s1.1.
Proof. by left. Qed.
Lemma ex_in2 : ex_row2 ∈ sessions ex_s2.1.
Proof. apply list_elem_of_singleton. by vm_compute. Qed.

(** The same claims by the proxy, and the turn state B registers. *)
Definition ex_proxy (o : op) (x : state * gset (string * string)) : state * gset (string * string) :=
  (ex_exec o x.1, x.2 ∪ handed ex_sha o x.1.1).
Definition ex_alias : op := OpAlias "s1" _DURABLE_TURN_STATE_ALIAS "turn-1" "tenant".
Definition ex_p1 := ex_proxy (OpClaim (ex_clk 0) "s1" (ex_claim "A" "acc1" false)) (empty_state, ∅).
Definition ex_p2 := ex_proxy (OpClaim (ex_clk 5) "s2" (ex_claim "B" "acc2" true)) ex_p1.
Definition ex_p3 := ex_proxy ex_alias ex_p2.

Lemma ex_proxy_once o x : valid x.1 o → registers x.2 o → rtc (proxy_step ex_sha "sqlite") x (ex_proxy o x).
Proof. intros Hv Hr. apply rtc_once. destruct x as [s held]. by apply proxy_step_intro. Qed.

Lemma ex_proxy_reach2 : rtc (proxy_step ex_sha "sqlite") (empty_state, ∅) ex_p2.
Proof.
  transitivity ex_p1; by apply ex_proxy_once.
Qed.
Lemma ex_proxy_reach3 : rtc (proxy_step ex_sha "sqlite") (empty_state, ∅) ex_p3.
Proof.
  etrans; [apply ex_proxy_reach2|]. apply ex_proxy_once; [done|].
  apply (bool_decide_eq_true_1 (("s1", "tenant") ∈ ex_p2.2)). by vm_compute.
Qed.

Lemma bridge_invariant_witness : ∃ a r,
  a ∈ aliases ex_p3.1.1 ∧ r ∈ sessions ex_p3.1.1 ∧ hb_id r = al_session_id a ∧ hb_scope r = al_scope a.
Proof.
  destruct (bridge_invariant ex_sha "sqlite" ex_p3.1 ex_p3.2) as [_ H].
  - exact ex_proxy_reach3.
  - destruct (H {| al_session_id := "s1"; alias_kind := _DURABLE_TURN_STATE_ALIAS; alias_value := "turn-1";
                   alias_hash := ex_sha "turn-1"; al_scope := "tenant" |}) as (r & H1 & H2 & H3).
    + by left.
    + eexists _, r. split_and!; [by left|exact H1|exact H2|exact H3].
Defined.

Lemma epoch_owner_unique_witness : (1 <= 2)%Z ∧ (1%Z = 2%Z → "A" = "B").
Proof.
  apply (epoch_owner_unique ex_sha "sqlite" ex_s1 ex_s2 ex_row1 ex_row2 "A" "B");
    [apply ex_reach1|apply ex_reach12|apply ex_in1|apply ex_in2|reflexivity..].
Defined.

Lemma epoch_fencing_witness : fst (renew_session (ex_clk 6) "s1" "A" 1 ex_renew ex_s2.1) = ex_s2.1.
Proof.
  apply (epoch_fencing ex_sha "sqlite" ex_s1 ex_s2 ex_s2 ex_row1 "A" 1);
    [apply ex_reach1|apply ex_reach12|done|apply ex_in1|reflexivity|].
  intros r1 Hr1. vm_compute in Hr1. by injection Hr1 as <-.
Defined.

Lemma claim_existing_spec_witness :
  let (db', snap) := claim_attempt ex_sha (λ db, db) (ex_clk 9) "s3" (ex_claim "C" "acc3" false) ex_s2.1 in
  db' = ex_s2.1 ∧ snap = Some (_to_snapshot ex_row2).
Proof.
  pose proof (claim_existing_spec ex_sha "sqlite" ex_s2 (ex_clk 9) "s3" (ex_claim "C" "acc3" false) ex_row2
    ex_reach2 eq_refl) as H.
  destruct (claim_attempt _ _ _ _ _ _) as [db' snap]. replace (claim_refused _ _ _) with true in H by reflexivity.
  by destruct H as (? & ? & _).
Defined.

Lemma lookup_scope_isolated_witness : "tenant" = durable_bridge_api_key_scope (Some " tenant ").
Proof.
  destruct (lookup_scope_isolated ex_sha "sqlite" ex_p3.1 ex_p3.2 "turn_state" "k" (Some " tenant ") (Some "turn-1") None None
    (_to_lookup (_to_snapshot ex_row2)) ex_proxy_reach3 eq_refl) as (r & _ & Hl & <-). by injection Hl.
Defined.

Lemma register_turn_state_roundtrip_witness :
  let (db', result) := register_turn_state ex_sha "sqlite" (ex_clk 9) "s1" (Some "tenant") "B" 2 "turn-1" 30 ex_s2.1 in
  result = Ok tt ∧
  ∃ l, lookup_request_targets ex_sha "x" "y" (Some "tenant") (Some "turn-1") None None db' = Some l ∧
    lk_session_id l = "s1" ∧ lk_owner l = Some "B" ∧ lk_epoch l = 2%Z ∧ lk_turn_state l = Some "turn-1" ∧
    lease_is_active 9 l = true.
Proof.
  apply (register_turn_state_roundtrip ex_sha "sqlite" ex_s2 (ex_clk 9) ex_row2 (Some "tenant") "B" 2 "turn-1" 30);
    [apply ex_reach2|reflexivity|apply ex_in2|reflexivity..].
Defined.

Lemma stale_owner_registers_alias_witness :
  let (db', result) := register_turn_state ex_sha "sqlite" (ex_clk 9) "s1" (Some "tenant") "A" 1 "turn-of-acc1" 30 ex_s2.1 in
  result = Ok tt ∧ sessions db' = sessions ex_s2.1 ∧
  lookup_request_targets ex_sha "x" "y" (Some "tenant") (Some "turn-of-acc1") None None db' =
    Some (_to_lookup (_to_snapshot ex_row2)).
Proof.
  apply (stale_owner_registers_alias ex_sha "sqlite" ex_s2 (ex_clk 9) ex_row2 (Some "tenant") "A" 1 "turn-of-acc1" 30);
    [apply ex_reach2|reflexivity|apply ex_in2|reflexivity..].
Defined.

(** A's release, loaded while A owned the session, committed after B's claim. *)
Lemma stale_release_closes_successor_witness :
  ∃ r', get_row "s1" (commit_row (ex_clk 9) ex_row1 (released_row false (ex_clk 9) ex_row1) ex_s2.1) = Some r' ∧
    owner_instance_id r' = None ∧ hb_state r' = BRIDGE_CLOSED ∧ owner_epoch r' = 2%Z.
Proof.
  apply (stale_release_closes_successor ex_sha "sqlite" ex_s2 (ex_clk 9) ex_row1 ex_row2);
    [apply ex_reach2|apply ex_in2|reflexivity|reflexivity|by eexists].
Defined.

Definition ex_s3 : state := ex_exec (OpRelease (ex_clk 20) "s1" "B" 2 false) ex_s2.

Lemma purge_terminates_witness : ∃ db', purge_closed_before 100 500 ex_s3.1 = Some (db', 1%Z) ∧ sessions db' = [].
Proof.
  destruct (purge_terminates ex_sha "sqlite" ex_s3 100 500) as (db' & H1 & H2 & _).
  - etrans; [apply ex_reach2|]. by apply ex_once.
  - lia.
  - exists db'. split; [exact H1|exact H2].
Defined.

End BridgeFacts.
