(* ===== verification/QuotaKeys.v ===== *)
(** Names of additional quotas and of models: the registry of
    [src/app/modules/usage/additional_quota_keys.py] with the model limits of
    [src/app/modules/proxy/additional_model_limits.py], and the model registry
    of [src/app/core/openai/model_registry.py].  [QuotaKeyFacts] shows when a
    registry file loads and what its maps resolve; [RegistryFacts] that a
    refresh of the model registry is an update of the plan/model relation. *)

From S2P Require Import Prelude Pricing.

(** ** Additional quota keys *)
Module QuotaKeys.

Definition is_key_char (c : ascii) : bool :=
  let n := Ascii.nat_of_ascii c in
  (Nat.leb 97 n && Nat.leb n 122) || (Nat.leb 48 n && Nat.leb n 57).

(** [_NORMALIZE_PATTERN.sub("_", s)]: every maximal run of other characters
    becomes one underscore; [in_run] is whether the previous character was
    part of a run. *)
Fixpoint sub_runs (in_run : bool) (s : string) : string :=
  match s with
  | EmptyString => EmptyString
  | String c s' =>
      if is_key_char c then String c (sub_runs false s')
      else if in_run then sub_runs true s'
      else String "_" (sub_runs true s')
  end.

(** [s.strip("_")]. *)
Fixpoint lstrip_underscore (s : string) : string :=
  match s with
  | EmptyString => EmptyString
  | String c s' => if Ascii.eqb c "_" then lstrip_underscore s' else s
  end.

Fixpoint rstrip_underscore (s : string) : string :=
  match s with
  | EmptyString => EmptyString
  | String c s' =>
      match rstrip_underscore s' with
      | EmptyString => if Ascii.eqb c "_" then EmptyString else String c EmptyString
      | t => String c t
      end
  end.

Definition _normalize_identifier (value : option string) : option string :=
  match value with
  | None => None
  | Some v =>
      none_if_empty (rstrip_underscore (lstrip_underscore (sub_runs false (py_lower (py_strip v)))))
  end.

Record AdditionalQuotaDefinition := {
  def_quota_key : string;
  display_label : string;
  model_ids : gset string;
  quota_key_aliases : gset string;
  limit_name_aliases : gset string;
  metered_feature_aliases : gset string;
  raw_limit_name_aliases : gset string;
  raw_metered_feature_aliases : gset string;
}.

Record AdditionalQuotaQueryScope := {
  scope_quota_key : string;
  quota_key_match_values : gset string;
  limit_name_match_values : gset string;
  metered_feature_match_values : gset string;
}.

(** An object of the registry file; an absent key is [None], an absent list
    the empty one. *)
Record AdditionalQuotaRegistryEntry := {
  entry_quota_key : option string;
  entry_display_label : option string;
  entry_model_ids : list string;
  entry_quota_key_aliases : list string;
  entry_limit_name_aliases : list string;
  entry_metered_feature_aliases : list string;
}.

Inductive RegistryError :=
  | KeyError (field : string)
  | InvalidQuotaKey (raw : string)
  | DuplicateQuotaKey (key : string)
  | DuplicateKeyAlias (alias : string)
  | DuplicateModel (model : string)
  | DuplicateAlias (alias : string).

(** [frozenset(alias for alias in (str(v).strip() ...) if alias)]. *)
Definition raw_aliases (values : list string) : gset string :=
  list_to_set (omap (λ v, none_if_empty (py_strip v)) values).

(** [frozenset(n for n in (_normalize_identifier(str(v)) ...) if n is not None)]. *)
Definition normalized_aliases (values : list string) : gset string :=
  list_to_set (omap (λ v, _normalize_identifier (Some v)) values).

Definition _definition_from_json (item : AdditionalQuotaRegistryEntry)
    : res RegistryError AdditionalQuotaDefinition :=
  match entry_quota_key item with
  | None => Err (KeyError "quota_key")
  | Some raw =>
      let raw_quota_key := py_strip raw in
      match _normalize_identifier (Some raw_quota_key) with
      | None => Err (InvalidQuotaKey raw_quota_key)
      | Some key =>
          match entry_display_label item with
          | None => Err (KeyError "display_label")
          | Some label =>
              Ok {| def_quota_key := key;
                    display_label := py_strip label;
                    model_ids := normalized_aliases (entry_model_ids item);
                    quota_key_aliases := normalized_aliases (entry_quota_key_aliases item) ∖ {[key]};
                    limit_name_aliases := normalized_aliases (entry_limit_name_aliases item);
                    metered_feature_aliases := normalized_aliases (entry_metered_feature_aliases item);
                    raw_limit_name_aliases := raw_aliases (entry_limit_name_aliases item);
                    raw_metered_feature_aliases := raw_aliases (entry_metered_feature_aliases item) |}
          end
      end
  end.

(** The list read from the file, one definition per object. *)
Fixpoint _definitions_for_path (data : list AdditionalQuotaRegistryEntry)
    : res RegistryError (list AdditionalQuotaDefinition) :=
  match data with
  | [] => Ok []
  | item :: rest =>
      let? d := _definition_from_json item in
      let? ds := _definitions_for_path rest in
      Ok (d :: ds)
  end.

Record DefinitionMaps := {
  by_quota_key : gmap string AdditionalQuotaDefinition;
  model_to_quota_key : gmap string string;
  model_to_definition : gmap string AdditionalQuotaDefinition;
  alias_to_quota_key : gmap string string;
  quota_key_alias_to_quota_key : gmap string string;
}.

Definition empty_maps : DefinitionMaps :=
  {| by_quota_key := ∅; model_to_quota_key := ∅; model_to_definition := ∅;
     alias_to_quota_key := ∅; quota_key_alias_to_quota_key := ∅ |}.

(** One guarded assignment [m[name] = key]: the error is raised when another
    key already holds the name. *)
Definition register (err : string → RegistryError) (key : string) (m : gmap string string)
    (name : string) : res RegistryError (gmap string string) :=
  match m !! name with
  | Some previous => if String.eqb previous key then Ok (<[name := key]> m) else Err (err name)
  | None => Ok (<[name := key]> m)
  end.

Fixpoint register_all (err : string → RegistryError) (key : string) (names : list string)
    (m : gmap string string) : res RegistryError (gmap string string) :=
  match names with
  | [] => Ok m
  | name :: rest => let? m' := register err key m name in register_all err key rest m'
  end.

(** The body of the loop over the definitions. *)
Definition add_definition (d : AdditionalQuotaDefinition) (m : DefinitionMaps)
    : res RegistryError DefinitionMaps :=
  let key := def_quota_key d in
  match by_quota_key m !! key with
  | Some _ => Err (DuplicateQuotaKey key)
  | None =>
      let? key_aliases := register DuplicateKeyAlias key (quota_key_alias_to_quota_key m) key in
      let? models := register_all DuplicateModel key (elements (model_ids d)) (model_to_quota_key m) in
      let? aliases := register_all DuplicateAlias key
                        (elements (limit_name_aliases d) ++ elements (metered_feature_aliases d))
                        (alias_to_quota_key m) in
      let? key_aliases := register_all DuplicateKeyAlias key (elements (quota_key_aliases d)) key_aliases in
      Ok {| by_quota_key := <[key := d]> (by_quota_key m);
            model_to_quota_key := models;
            model_to_definition :=
              foldr (λ x, insert x d) (model_to_definition m) (elements (model_ids d));
            alias_to_quota_key := aliases;
            quota_key_alias_to_quota_key := key_aliases |}
  end.

Fixpoint _definition_maps (definitions : list AdditionalQuotaDefinition) (m : DefinitionMaps)
    : res RegistryError DefinitionMaps :=
  match definitions with
  | [] => Ok m
  | d :: rest => let? m' := add_definition d m in _definition_maps rest m'
  end.

Definition _definition_maps_for_path (definitions : list AdditionalQuotaDefinition)
    : res RegistryError DefinitionMaps := _definition_maps definitions empty_maps.

Definition first_some {A} (x y : option A) : option A := match x with Some _ => x | None => y end.

(** [table.get(normalized)] when the name normalises. *)
Definition resolve (table : gmap string string) (value : option string) : option string :=
  match _normalize_identifier value with Some n => table !! n | None => None end.

Definition canonicalize_additional_quota_key (m : DefinitionMaps)
    (model quota_key limit_name metered_feature : option string) : option string :=
  first_some (resolve (model_to_quota_key m) model)
  (first_some (resolve (quota_key_alias_to_quota_key m) quota_key)
  (first_some (resolve (alias_to_quota_key m) limit_name)
  (first_some (resolve (alias_to_quota_key m) metered_feature)
  (first_some (_normalize_identifier limit_name)
  (first_some (_normalize_identifier metered_feature)
     (_normalize_identifier quota_key)))))).

Definition get_additional_quota_lookup_keys (m : DefinitionMaps)
    (quota_key limit_name metered_feature : option string) : option (gset string) :=
  match canonicalize_additional_quota_key m None quota_key limit_name metered_feature with
  | None => None
  | Some resolved_key =>
      match by_quota_key m !! resolved_key with
      | None => Some {[resolved_key]}
      | Some d => Some ({[resolved_key]} ∪ quota_key_aliases d)
      end
  end.

Definition get_additional_quota_key_for_model (m : DefinitionMaps) (model : option string) : option string :=
  canonicalize_additional_quota_key m model None None None.

Definition get_additional_quota_definition_for_model (m : DefinitionMaps) (model : option string)
    : option AdditionalQuotaDefinition :=
  match _normalize_identifier model with
  | None => None
  | Some normalized => model_to_definition m !! normalized
  end.

Definition get_additional_quota_definition (m : DefinitionMaps) (quota_key : option string)
    : option AdditionalQuotaDefinition :=
  match canonicalize_additional_quota_key m None quota_key None None with
  | None => None
  | Some resolved_key => by_quota_key m !! resolved_key
  end.

Definition lower_all (s : gset string) : gset string := set_map py_lower s.

Definition get_additional_quota_query_scope (m : DefinitionMaps)
    (quota_key limit_name metered_feature : option string) : option AdditionalQuotaQueryScope :=
  let candidate_limit_name := first_some quota_key limit_name in
  match canonicalize_additional_quota_key m None quota_key candidate_limit_name metered_feature with
  | None => None
  | Some resolved =>
      match get_additional_quota_definition m (Some resolved) with
      | None =>
          Some {| scope_quota_key := resolved; quota_key_match_values := {[resolved]};
                  limit_name_match_values := ∅; metered_feature_match_values := ∅ |}
      | Some d =>
          Some {| scope_quota_key := resolved;
                  quota_key_match_values := {[resolved]} ∪ quota_key_aliases d;
                  limit_name_match_values :=
                    lower_all (raw_limit_name_aliases d) ∪ limit_name_aliases d;
                  metered_feature_match_values :=
                    lower_all (raw_metered_feature_aliases d) ∪ metered_feature_aliases d |}
      end
  end.

Definition get_additional_display_label_for_quota_key (m : DefinitionMaps) (quota_key : option string)
    : option string :=
  match canonicalize_additional_quota_key m None quota_key None None with
  | None => None
  | Some resolved_key => display_label <$> by_quota_key m !! resolved_key
  end.

(** [quota_key or resolved_key]. *)
Definition get_additional_display_label (m : DefinitionMaps)
    (quota_key limit_name metered_feature : option string) : option string :=
  let resolved_key := canonicalize_additional_quota_key m None None limit_name metered_feature in
  get_additional_display_label_for_quota_key m (if truthy_s quota_key then quota_key else resolved_key).

(** *** Model limits *)

Record AdditionalModelLimit := {
  limit_model : string;
  limit_quota_key : string;
  limit_display_label : string;
}.

Definition get_additional_model_limit (m : DefinitionMaps) (model : option string)
    : option AdditionalModelLimit :=
  match get_additional_quota_definition_for_model m model, model with
  | Some resolved, Some name =>
      Some {| limit_model := py_lower (py_strip name); limit_quota_key := def_quota_key resolved;
              limit_display_label := display_label resolved |}
  | _, _ => None
  end.

Definition get_additional_quota_key_for_model_id (m : DefinitionMaps) (model : option string)
    : option string := limit_quota_key <$> get_additional_model_limit m model.

Definition get_additional_limit_name_for_model := get_additional_quota_key_for_model_id.

Definition get_additional_display_label_for_model (m : DefinitionMaps) (model : option string)
    : option string :=
  get_additional_display_label_for_quota_key m (get_additional_quota_key_for_model m model).

End QuotaKeys.

(** ** What the registry resolves *)
Module QuotaKeyFacts.
Import QuotaKeys.

(** *** Normalised names *)

Fixpoint all_chars (p : ascii → bool) (s : string) : bool :=
  match s with EmptyString => true | String c s' => p c && all_chars p s' end.

Definition name_char (c : ascii) : bool := is_key_char c || Ascii.eqb c "_".

(** A string that [sub_runs] leaves as it is: key characters with single
    underscores between them. *)
Fixpoint runs_ok (in_run : bool) (s : string) : bool :=
  match s with
  | EmptyString => true
  | String c s' => if is_key_char c then runs_ok false s' else Ascii.eqb c "_" && negb in_run && runs_ok true s'
  end.

Lemma key_char_underscore c : is_key_char c = true → Ascii.eqb c "_" = false.
Proof. by destruct c as [[] [] [] [] [] [] [] []]. Qed.
Lemma key_char_lower c : is_key_char c = true → lower_ascii c = c.
Proof. by destruct c as [[] [] [] [] [] [] [] []]. Qed.
Lemma name_char_space c : name_char c = true → is_space c = false.
Proof. by destruct c as [[] [] [] [] [] [] [] []]. Qed.
Lemma name_char_lower c : name_char c = true → lower_ascii c = c.
Proof. by destruct c as [[] [] [] [] [] [] [] []]. Qed.

Lemma sub_runs_ok b s : runs_ok b (sub_runs b s) = true.
Proof.
  revert b. induction s as [|c s IH]; intros b; simpl; [done|].
  destruct (is_key_char c) eqn:E; simpl; [by rewrite E|]. destruct b; simpl; done.
Qed.

Lemma runs_ok_fix b s : runs_ok b s = true → sub_runs b s = s.
Proof.
  revert b. induction s as [|c s IH]; intros b; simpl; [done|].
  destruct (is_key_char c); [intros H; by rewrite IH|].
  destruct b; rewrite ?andb_true_iff, ?andb_false_r; [naive_solver|].
  intros [[->%Ascii.eqb_eq _] H]. by rewrite IH.
Qed.

Lemma runs_ok_false s : runs_ok true s = true → runs_ok false s = true.
Proof.
  destruct s as [|c s]; simpl; [done|]. destruct (is_key_char c); [done|]. by rewrite andb_false_r.
Qed.

Lemma runs_ok_lstrip b s : runs_ok b s = true → runs_ok false (lstrip_underscore s) = true.
Proof.
  revert b. induction s as [|c s IH]; intros b; simpl; [done|].
  destruct (is_key_char c) eqn:E.
  - rewrite (key_char_underscore _ E). simpl. by rewrite E.
  - intros [[Hc _]%andb_true_iff H]%andb_true_iff. rewrite Hc. by apply (IH true).
Qed.

Lemma runs_ok_rstrip b s : runs_ok b s = true → runs_ok b (rstrip_underscore s) = true.
Proof.
  revert b. induction s as [|c s IH]; intros b; [done|].
  cbn [runs_ok rstrip_underscore]. destruct (is_key_char c) eqn:E; intros H.
  - specialize (IH _ H). destruct (rstrip_underscore s) as [|d t].
    + rewrite (key_char_underscore _ E). cbn. by rewrite E.
    + cbn [runs_ok] in *. by rewrite E.
  - apply andb_true_iff in H as [Hc H]. specialize (IH _ H).
    destruct (rstrip_underscore s) as [|d t]; cbn [runs_ok] in *.
    + apply andb_true_iff in Hc as [Hc _]. by rewrite Hc.
    + rewrite E, Hc. done.
Qed.

Definition starts_underscore (s : string) : bool :=
  match s with String c _ => Ascii.eqb c "_" | EmptyString => false end.

Lemma lstrip_starts s : starts_underscore (lstrip_underscore s) = false.
Proof. induction s as [|c s IH]; simpl; [done|]. destruct (Ascii.eqb c "_") eqn:E; done. Qed.
Lemma lstrip_fix s : starts_underscore s = false → lstrip_underscore s = s.
Proof. destruct s as [|c s]; simpl; [done|]. by intros ->. Qed.
Lemma rstrip_starts s : starts_underscore s = false → starts_underscore (rstrip_underscore s) = false.
Proof. destruct s as [|c s]; [done|]. simpl. intros H. destruct (rstrip_underscore s); simpl; by rewrite ?H. Qed.
Lemma rstrip_underscore_idem s : rstrip_underscore (rstrip_underscore s) = rstrip_underscore s.
Proof.
  induction s as [|c s IH]; [done|]. cbn [rstrip_underscore].
  destruct (rstrip_underscore s) as [|d t] eqn:E.
  - destruct (Ascii.eqb c "_") eqn:Ec; cbn; [done|]. by rewrite Ec.
  - cbn [rstrip_underscore] in *. by rewrite IH.
Qed.

(** Names in normal form, and that they are fixed points. *)
Definition normal_name (s : string) : Prop :=
  s ≠ "" ∧ runs_ok false s = true ∧ starts_underscore s = false ∧ rstrip_underscore s = s.

Lemma runs_ok_name b s : runs_ok b s = true → all_chars name_char s = true.
Proof.
  revert b. induction s as [|c s IH]; intros b; simpl; [done|]. unfold name_char at 1.
  destruct (is_key_char c) eqn:E; simpl; [by apply IH|].
  intros [[-> _]%andb_true_iff H]%andb_true_iff. by apply (IH true).
Qed.

Lemma name_strip s : all_chars name_char s = true → py_strip s = s.
Proof.
  intros H. unfold py_strip. assert (rstrip s = s) as Hr.
  { induction s as [|c s IH]; [done|]. simpl in H. apply andb_true_iff in H as [Hc H].
    cbn [rstrip]. rewrite (IH H). destruct s; [|done]. by rewrite (name_char_space _ Hc). }
  assert (lstrip s = s) as ->; [|done].
  destruct s as [|c s]; [done|]. simpl in H. apply andb_true_iff in H as [Hc _].
  cbn [lstrip]. by rewrite (name_char_space _ Hc).
Qed.

Lemma name_lower s : all_chars name_char s = true → py_lower s = s.
Proof.
  induction s as [|c s IH]; [done|]. simpl. intros [Hc H]%andb_true_iff.
  by rewrite (name_char_lower _ Hc), IH.
Qed.

Lemma normalize_normal value n : _normalize_identifier value = Some n → normal_name n.
Proof.
  destruct value as [v|]; [|done]. simpl. unfold none_if_empty.
  set (s := sub_runs false _). destruct (String.eqb _ "") eqn:E; [done|]. intros [= <-].
  apply String.eqb_neq in E. split_and!; [done|..].
  - apply runs_ok_rstrip, (runs_ok_lstrip false), sub_runs_ok.
  - apply rstrip_starts, lstrip_starts.
  - apply rstrip_underscore_idem.
Qed.

Lemma normal_fix n : normal_name n → _normalize_identifier (Some n) = Some n.
Proof.
  intros (Hne & Hr & Hs & Hf). simpl.
  rewrite (name_strip _ (runs_ok_name _ _ Hr)), (name_lower _ (runs_ok_name _ _ Hr)).
  rewrite (runs_ok_fix _ _ Hr), (lstrip_fix _ Hs), Hf. unfold none_if_empty.
  apply String.eqb_neq in Hne. by rewrite Hne.
Qed.

Lemma normalize_idem value n : _normalize_identifier value = Some n → _normalize_identifier (Some n) = Some n.
Proof. intros H%normalize_normal. by apply normal_fix. Qed.

(** *** The tables *)

(** The names a definition claims in each table. *)
Definition claimed_models (d : AdditionalQuotaDefinition) : gset string := model_ids d.
Definition claimed_aliases (d : AdditionalQuotaDefinition) : gset string :=
  limit_name_aliases d ∪ metered_feature_aliases d.
Definition claimed_keys (d : AdditionalQuotaDefinition) : gset string :=
  {[def_quota_key d]} ∪ quota_key_aliases d.

Definition unambiguous (names : AdditionalQuotaDefinition → gset string)
    (defs : list AdditionalQuotaDefinition) : Prop :=
  ∀ d d' x, d ∈ defs → d' ∈ defs → x ∈ names d → x ∈ names d' → def_quota_key d = def_quota_key d'.

Definition wf_registry (defs : list AdditionalQuotaDefinition) : Prop :=
  NoDup (map def_quota_key defs) ∧ unambiguous claimed_models defs ∧
  unambiguous claimed_aliases defs ∧ unambiguous claimed_keys defs.

(** The table sends exactly the claimed names to the key that claims them. *)
Definition table_for (names : AdditionalQuotaDefinition → gset string)
    (defs : list AdditionalQuotaDefinition) (t : gmap string string) : Prop :=
  ∀ x k, t !! x = Some k ↔ ∃ d, d ∈ defs ∧ x ∈ names d ∧ def_quota_key d = k.

Record maps_for (defs : list AdditionalQuotaDefinition) (m : DefinitionMaps) : Prop := {
  mf_keys : ∀ k d, by_quota_key m !! k = Some d ↔ d ∈ defs ∧ def_quota_key d = k;
  mf_models : table_for claimed_models defs (model_to_quota_key m);
  mf_defs : ∀ x d, model_to_definition m !! x = Some d ↔ d ∈ defs ∧ x ∈ model_ids d;
  mf_aliases : table_for claimed_aliases defs (alias_to_quota_key m);
  mf_key_aliases : table_for claimed_keys defs (quota_key_alias_to_quota_key m);
}.

Lemma register_all_spec err key names m :
  match register_all err key names m with
  | Ok m' => (∀ x k, x ∈ names → m !! x = Some k → k = key) ∧
             (∀ x k, m' !! x = Some k ↔ m !! x = Some k ∨ (x ∈ names ∧ k = key))
  | Err _ => ∃ x k, x ∈ names ∧ m !! x = Some k ∧ k ≠ key
  end.
Proof.
  revert m. induction names as [|n names IH]; intros m; simpl.
  { split; [set_solver|]. intros x k. set_solver. }
  unfold register. destruct (m !! n) as [p|] eqn:En.
  - destruct (String.eqb p key) eqn:Ep; simpl.
    2: { exists n, p. apply String.eqb_neq in Ep. set_solver. }
    apply String.eqb_eq in Ep. subst p. specialize (IH (<[n := key]> m)).
    rewrite insert_id in IH by done. rewrite insert_id by done. destruct (register_all err key names m) as [m'|e].
    + destruct IH as [IH1 IH2]. split; [set_solver|]. intros x k. rewrite IH2. set_solver.
    + destruct IH as (x & k & ? & ? & ?). exists x, k. set_solver.
  - simpl. specialize (IH (<[n := key]> m)). destruct (register_all err key names (<[n := key]> m)) as [m'|e].
    + destruct IH as [IH1 IH2]. split.
      * intros x k Hx Hk. destruct (decide (x = n)) as [->|]; [congruence|].
        apply (IH1 x); [set_solver|by rewrite lookup_insert_ne].
      * intros x k. rewrite IH2, lookup_insert_Some. set_solver.
    + destruct IH as (x & k & Hx & Hk & Hne). apply lookup_insert_Some in Hk as [[<- <-]|[? Hk]]; [done|].
      exists x, k. set_solver.
Qed.

Lemma register_single err key n m : register_all err key [n] m = register err key m n.
Proof. simpl. by destruct (register err key m n). Qed.

Lemma foldr_insert_lookup {V} (d : V) (xs : list string) (m : gmap string V) x :
  foldr (λ y, insert y d) m xs !! x = if decide (x ∈ xs) then Some d else m !! x.
Proof.
  induction xs as [|y xs IH]; simpl; [done|].
  destruct (decide (x = y)) as [->|Hne].
  - rewrite lookup_insert_eq, decide_True; [done|set_solver].
  - rewrite lookup_insert_ne by done. rewrite IH. do 2 case_decide; set_solver.
Qed.

(** One table and one more definition: registering its names succeeds exactly
    when the table stays unambiguous, and gives the table of the longer list. *)
Lemma register_step names err defs d t xs :
  table_for names defs t → unambiguous names defs → (∀ x, x ∈ xs ↔ x ∈ names d) →
  match register_all err (def_quota_key d) xs t with
  | Ok t' => table_for names (defs ++ [d]) t' ∧ unambiguous names (defs ++ [d])
  | Err _ => ¬ unambiguous names (defs ++ [d])
  end.
Proof.
  intros Ht Hu Hxs. pose proof (register_all_spec err (def_quota_key d) xs t) as Hr.
  destruct (register_all _ _ _ _) as [t'|e].
  - destruct Hr as [Hc Hl]. split.
    + intros x k. rewrite Hl, (Ht x k), Hxs. setoid_rewrite elem_of_app. set_solver.
    + assert (∀ d' x, d' ∈ defs → x ∈ names d' → x ∈ names d → def_quota_key d' = def_quota_key d) as Hd.
      { intros d' x Hd' Hx Hx'. apply (Hc x); [by apply Hxs|]. apply Ht. eauto. }
      intros d1 d2 x. rewrite !elem_of_app, !list_elem_of_singleton. naive_solver.
  - destruct Hr as (x & k & Hx & Hk & Hne). intros Hu'. apply Hne.
    apply Ht in Hk as (d' & Hd' & Hx' & <-). apply (Hu' d' d x); [set_solver..|by apply Hxs].
Qed.

Lemma fresh_key defs d (m : DefinitionMaps) : maps_for defs m →
  by_quota_key m !! def_quota_key d = None ↔ def_quota_key d ∉ map def_quota_key defs.
Proof.
  intros Hm. rewrite eq_None_not_Some. apply not_iff_compat. split.
  - intros [d' [Hd' <-]%(mf_keys _ _ Hm)]. apply elem_of_map. eauto.
  - intros (d' & -> & Hd')%elem_of_map. exists d'. by apply (mf_keys _ _ Hm).
Qed.

Lemma table_models_fresh defs d m x d' : maps_for defs m →
  unambiguous claimed_models (defs ++ [d]) → by_quota_key m !! def_quota_key d = None →
  d' ∈ defs → x ∈ model_ids d' → x ∉ model_ids d.
Proof.
  intros Hm Hu Hf Hd' Hx Hx'. rewrite (fresh_key defs) in Hf by done. apply Hf. apply elem_of_map.
  exists d'. split; [|done]. symmetry. apply (Hu d' d x); set_solver.
Qed.

Lemma add_definition_spec defs d m :
  maps_for defs m → wf_registry defs →
  match add_definition d m with
  | Ok m' => maps_for (defs ++ [d]) m' ∧ wf_registry (defs ++ [d])
  | Err _ => ¬ wf_registry (defs ++ [d])
  end.
Proof.
  intros Hm (Hnd & Hum & Hua & Huk). unfold add_definition.
  destruct (by_quota_key m !! def_quota_key d) as [d0|] eqn:Hf.
  { intros (Hnd' & _). rewrite map_app in Hnd'. apply NoDup_app in Hnd' as (_ & Hdis & _).
    apply (mf_keys _ _ Hm) in Hf as [Hd0 He]. apply (Hdis (def_quota_key d)); [|set_solver].
    apply elem_of_map. eauto. }
  pose proof (register_step claimed_keys DuplicateKeyAlias defs d _
    (def_quota_key d :: elements (quota_key_aliases d)) (mf_key_aliases _ _ Hm) Huk) as Hk.
  pose proof (register_step claimed_models DuplicateModel defs d _
    (elements (model_ids d)) (mf_models _ _ Hm) Hum) as Hmo.
  pose proof (register_step claimed_aliases DuplicateAlias defs d _
    (elements (limit_name_aliases d) ++ elements (metered_feature_aliases d)) (mf_aliases _ _ Hm) Hua) as Ha.
  specialize (Hk ltac:(unfold claimed_keys; set_solver)).
  specialize (Hmo ltac:(unfold claimed_models; set_solver)).
  specialize (Ha ltac:(unfold claimed_aliases; set_solver)).
  simpl in Hk. destruct (register DuplicateKeyAlias _ _ _) as [ka|e]; simpl in *; [|unfold wf_registry; tauto].
  destruct (register_all DuplicateModel _ _ _) as [tm|e]; simpl; [|unfold wf_registry; tauto].
  destruct (register_all DuplicateAlias _ _ _) as [ta|e]; simpl; [|unfold wf_registry; tauto].
  destruct (register_all DuplicateKeyAlias _ _ _) as [tk|e]; simpl; [|unfold wf_registry; tauto].
  destruct Hk as [Hk Huk'], Hmo as [Hmo Hum'], Ha as [Ha Hua']. split.
  - split; simpl; try done.
    + intros k d'. rewrite lookup_insert_Some, (mf_keys _ _ Hm), elem_of_app, list_elem_of_singleton.
      split; [naive_solver|]. intros [[Hd'| ->] <-]; [|by left]. right. split; [|done].
      intros He. apply (fresh_key defs d) in Hf; [|done]. apply Hf. rewrite He. apply elem_of_map. eauto.
    + intros x d'. rewrite foldr_insert_lookup, elem_of_app, list_elem_of_singleton.
      pose proof (table_models_fresh defs d m x) as Hfr. case_decide as Hx; rewrite elem_of_elements in Hx.
      * split; [intros [= <-]; auto|]. intros [[Hd'| ->] Hx']; [|done]. by destruct (Hfr d').
      * rewrite (mf_defs _ _ Hm). naive_solver.
  - split_and!; try done. rewrite map_app. apply NoDup_app. split; [done|]. split; [|simpl; repeat constructor; set_solver].
    intros k Hk1 Hk2. apply (fresh_key defs d) in Hf; [|done]. simpl in Hk2. set_solver.
Qed.

Lemma wf_registry_prefix defs rest : wf_registry (defs ++ rest) → wf_registry defs.
Proof.
  intros (Hnd & H1 & H2 & H3). rewrite map_app in Hnd. apply NoDup_app in Hnd as [Hnd _].
  assert (∀ names, unambiguous names (defs ++ rest) → unambiguous names defs) as Hp.
  { intros names Hu d d' x Hd Hd'. apply Hu; set_solver. }
  split_and!; auto.
Qed.

Lemma definition_maps_spec rest defs m :
  maps_for defs m → wf_registry defs →
  match _definition_maps rest m with
  | Ok m' => maps_for (defs ++ rest) m' ∧ wf_registry (defs ++ rest)
  | Err _ => ¬ wf_registry (defs ++ rest)
  end.
Proof.
  revert defs m. induction rest as [|d rest IH]; intros defs m Hm Hwf; simpl.
  { by rewrite app_nil_r. }
  pose proof (add_definition_spec defs d m Hm Hwf) as Hd.
  replace (defs ++ d :: rest) with ((defs ++ [d]) ++ rest) by (by rewrite <- app_assoc).
  destruct (add_definition d m) as [m'|e]; simpl.
  - destruct Hd as [Hm' Hwf']. by apply IH.
  - intros H%wf_registry_prefix. done.
Qed.

Lemma empty_maps_for : maps_for [] empty_maps.
Proof. split; simpl; unfold table_for; intros; rewrite lookup_empty; set_solver. Qed.

Lemma wf_registry_nil : wf_registry [].
Proof. split_and!; [constructor|..]; unfold unambiguous; set_solver. Qed.

Lemma loaded_maps_for defs m : _definition_maps_for_path defs = Ok m → maps_for defs m.
Proof.
  pose proof (definition_maps_spec defs [] empty_maps empty_maps_for wf_registry_nil) as H.
  unfold _definition_maps_for_path. intros E. rewrite E in H. apply H.
Qed.

(** A registry file is accepted exactly when its definitions do not contend
    for a name, and then each table sends every model, alias and key alias to
    the one quota key whose definition lists it, and nothing else. *)
Theorem registry_load_spec defs :
  match _definition_maps_for_path defs with
  | Ok m => wf_registry defs ∧ maps_for defs m
  | Err _ => ¬ wf_registry defs
  end.
Proof.
  pose proof (definition_maps_spec defs [] empty_maps empty_maps_for wf_registry_nil) as H.
  unfold _definition_maps_for_path. destruct (_definition_maps defs empty_maps); naive_solver.
Qed.

(** *** Canonical keys *)

Lemma definitions_normal data defs d :
  _definitions_for_path data = Ok defs → d ∈ defs → normal_name (def_quota_key d).
Proof.
  revert defs. induction data as [|item data IH]; intros defs; simpl; [intros [= <-]; set_solver|].
  intros (d0 & Hd0 & H)%res_bind_ok. apply res_bind_ok in H as (ds & Hds & [= <-]).
  intros [->|Hd]%elem_of_cons; [|by eapply IH].
  unfold _definition_from_json in Hd0. destruct (entry_quota_key item) as [raw|]; [|done].
  destruct (_normalize_identifier _) as [key|] eqn:Ek; [|done].
  destruct (entry_display_label item); [|done]. injection Hd0 as <-. simpl. by eapply normalize_normal.
Qed.

Lemma registered_key_resolves defs m d :
  maps_for defs m → d ∈ defs → normal_name (def_quota_key d) →
  resolve (quota_key_alias_to_quota_key m) (Some (def_quota_key d)) = Some (def_quota_key d).
Proof.
  intros Hm Hd Hn. unfold resolve. rewrite normal_fix by done.
  apply (mf_key_aliases _ _ Hm). exists d. unfold claimed_keys. set_solver.
Qed.

Lemma resolve_registered names defs t value r :
  table_for names defs t → resolve t value = Some r → ∃ d, d ∈ defs ∧ def_quota_key d = r.
Proof.
  unfold resolve. destruct (_normalize_identifier value) as [n|]; [|done].
  intros Ht (d & Hd & _ & <-)%Ht. eauto.
Qed.

(** The two ways a name used as key and as limit name resolves: to a
    registered key, or to its own normal form when no table knows it. *)
Lemma canonicalize_cases defs m k r :
  maps_for defs m → canonicalize_additional_quota_key m None (Some k) (Some k) None = Some r →
  (∃ d, d ∈ defs ∧ def_quota_key d = r) ∨
  (_normalize_identifier (Some k) = Some r ∧ quota_key_alias_to_quota_key m !! r = None ∧
   alias_to_quota_key m !! r = None).
Proof.
  intros Hm. unfold canonicalize_additional_quota_key.
  assert (∀ t, resolve t None = None) as Hno by done. rewrite !Hno. cbn [first_some].
  destruct (resolve (quota_key_alias_to_quota_key m) (Some k)) as [x|] eqn:E1; cbn [first_some].
  { intros [= <-]. left. eapply resolve_registered; [apply (mf_key_aliases _ _ Hm)|done]. }
  destruct (resolve (alias_to_quota_key m) (Some k)) as [x|] eqn:E2; cbn [first_some].
  { intros [= <-]. left. eapply resolve_registered; [apply (mf_aliases _ _ Hm)|done]. }
  unfold resolve in E1, E2. destruct (_normalize_identifier (Some k)) as [n|] eqn:En; [|done].
  cbn [first_some]. intros [= <-]. right. done.
Qed.

Lemma canonicalize_again data defs m k r :
  _definitions_for_path data = Ok defs → _definition_maps_for_path defs = Ok m →
  canonicalize_additional_quota_key m None (Some k) (Some k) None = Some r →
  canonicalize_additional_quota_key m None (Some r) (Some r) None = Some r.
Proof.
  intros Hdata Hload Hr. pose proof (loaded_maps_for _ _ Hload) as Hm.
  destruct (canonicalize_cases _ _ _ _ Hm Hr) as [(d & Hd & <-)|(Hn & H1 & H2)].
  - unfold canonicalize_additional_quota_key. assert (∀ t, resolve t None = None) as -> by done.
    rewrite (registered_key_resolves _ _ _ Hm Hd) by (by eapply definitions_normal). done.
  - unfold canonicalize_additional_quota_key, resolve. simpl (_normalize_identifier None).
    rewrite (normalize_idem _ _ Hn), H1, H2. done.
Qed.

(** The quota key under which usage of a name is recorded and looked up is
    stable: resolving it again gives the same key, and every spelling of the
    name has the query scope of its canonical key. *)
Theorem canonical_key_stable data defs m k r
    (Hdata : _definitions_for_path data = Ok defs)
    (Hload : _definition_maps_for_path defs = Ok m)
    (Hr : canonicalize_additional_quota_key m None (Some k) (Some k) None = Some r) :
  canonicalize_additional_quota_key m None (Some r) (Some r) None = Some r ∧
  get_additional_quota_query_scope m (Some k) None None = get_additional_quota_query_scope m (Some r) None None.
Proof.
  pose proof (canonicalize_again _ _ _ _ _ Hdata Hload Hr) as Hrr. split; [done|].
  unfold get_additional_quota_query_scope. cbn [first_some]. by rewrite Hr, Hrr.
Qed.

Definition ex_entry (key : string) (models limits keys : list string) : AdditionalQuotaRegistryEntry :=
  {| entry_quota_key := Some key; entry_display_label := Some key; entry_model_ids := models;
     entry_quota_key_aliases := keys; entry_limit_name_aliases := limits;
     entry_metered_feature_aliases := [] |}.

Definition ex_data : list AdditionalQuotaRegistryEntry :=
  [ex_entry "codex_spark" ["gpt-5.3-codex-spark"] ["GPT-5.3 Codex Spark"] ["spark"];
   ex_entry "codex_other" [] ["codex_other"] []].

Definition ex_defs : list AdditionalQuotaDefinition :=
  match _definitions_for_path ex_data with Ok ds => ds | Err _ => [] end.
Definition ex_maps : DefinitionMaps :=
  match _definition_maps_for_path ex_defs with Ok m => m | Err _ => empty_maps end.

Lemma canonical_key_stable_witness :
  canonicalize_additional_quota_key ex_maps None (Some "Spark") (Some "Spark") None = Some "codex_spark" ∧
  get_additional_quota_query_scope ex_maps (Some "Spark") None None =
  get_additional_quota_query_scope ex_maps (Some "codex_spark") None None.
Proof.
  split; [vm_compute; reflexivity|].
  apply (canonical_key_stable ex_data ex_defs ex_maps "Spark" "codex_spark"); vm_compute; reflexivity.
Defined.

End QuotaKeyFacts.

(** ** The model registry *)
Module ModelRegistry.
Import Pricing.

Record ReasoningLevel := { effort : string; level_description : string }.

(** [raw], the upstream object kept beside the fields, is left out. *)
Record UpstreamModel := {
  slug : string;
  display_name : string;
  description : string;
  context_window : Z;
  input_modalities : list string;
  supported_reasoning_levels : list ReasoningLevel;
  default_reasoning_level : option string;
  supports_reasoning_summaries : bool;
  support_verbosity : bool;
  default_verbosity : option string;
  prefer_websockets : bool;
  supports_parallel_tool_calls : bool;
  supported_in_api : bool;
  minimal_client_version : option string;
  priority : Z;
  available_in_plans : gset string;
  base_instructions : string;
}.

Record ModelRegistrySnapshot := {
  models : gmap string UpstreamModel;
  model_plans : gmap string (gset string);
  plan_models : gmap string (gset string);
  fetched_at : Q;
}.

Definition BOOTSTRAP_WEBSOCKET_PREFERRED_MODEL_PATTERNS : list string :=
  ["gpt-5.5"; "gpt-5.5-*"; "gpt-5.4"; "gpt-5.4-*"].

Record ModelRegistry := {
  _ttl_seconds : Q;
  _snapshot : option ModelRegistrySnapshot;
  _bootstrap_models : gmap string UpstreamModel;
}.

Definition new (ttl_seconds : Q) : option ModelRegistry :=
  if qle ttl_seconds 0 then None
  else Some {| _ttl_seconds := ttl_seconds; _snapshot := None; _bootstrap_models := ∅ |}.

Definition get_snapshot (r : ModelRegistry) : option ModelRegistrySnapshot := _snapshot r.

Definition get_models_with_fallback (r : ModelRegistry) : gmap string UpstreamModel :=
  match _snapshot r with Some s => models s | None => _bootstrap_models r end.

Definition plan_types_for_model (r : ModelRegistry) (name : string) : option (gset string) :=
  match _snapshot r with
  | None => None
  | Some s => Some (default ∅ (model_plans s !! name))
  end.

Definition prefers_websockets (r : ModelRegistry) (name : option string) : bool :=
  match name with
  | None => false
  | Some name =>
      let normalized_slug := py_lower (py_strip name) in
      if String.eqb normalized_slug "" then false
      else
        let bootstrap :=
          existsb (fnmatchcase normalized_slug) BOOTSTRAP_WEBSOCKET_PREFERRED_MODEL_PATTERNS in
        match _snapshot r with
        | None => bootstrap
        | Some s =>
            match models s !! name with
            | Some m => prefer_websockets m
            | None =>
                match models s !! normalized_slug with
                | Some m => prefer_websockets m
                | None => bootstrap
                end
            end
        end
  end.

Definition needs_refresh (monotonic : Q) (r : ModelRegistry) : bool :=
  match _snapshot r with
  | None => true
  | Some s => qle (_ttl_seconds r) (monotonic - fetched_at s)
  end.

(** [index.setdefault(k, set()).add(x)]. *)
Definition index_add (k x : string) (index : gmap string (gset string)) : gmap string (gset string) :=
  <[k := {[x]} ∪ default ∅ (index !! k)]> index.

Definition indexes := (gmap string UpstreamModel * gmap string (gset string))%type.

(** The body of the loop over the slugs of a plan that was not refreshed. *)
Definition carry_slug (previous : ModelRegistrySnapshot) (plan : string) (name : string) (acc : indexes)
    : indexes :=
  let '(ms, plans) := acc in
  (match ms !! name, models previous !! name with
   | None, Some m => <[name := m]> ms
   | _, _ => ms
   end, index_add name plan plans).

Definition carry_plan (previous : ModelRegistrySnapshot) (plan : string) (acc : indexes) : indexes :=
  foldr (carry_slug previous plan) acc (elements (default ∅ (plan_models previous !! plan))).

Definition carry_over (previous : ModelRegistrySnapshot) (refreshed : gset string) : indexes :=
  foldr (carry_plan previous) (∅, ∅) (elements (dom (plan_models previous) ∖ refreshed)).

Definition merge_model (plan : string) (acc : indexes) (m : UpstreamModel) : indexes :=
  (<[slug m := m]> acc.1, index_add (slug m) plan acc.2).

Definition merge_results (acc : indexes) (per_plan_results : dict (list UpstreamModel)) : indexes :=
  fold_left (λ acc '(plan, ms), fold_left (merge_model plan) ms acc) per_plan_results acc.

(** The reverse index, plan to slugs. *)
Definition invert (plans : gmap string (gset string)) : gmap string (gset string) :=
  foldr (λ '(name, ps) index, foldr (λ p, index_add p name) index (elements ps)) ∅ (map_to_list plans).

Definition update (monotonic : Q) (per_plan_results : dict (list UpstreamModel)) (r : ModelRegistry)
    : ModelRegistry :=
  match per_plan_results with
  | [] => r
  | _ =>
      let carried :=
        match _snapshot r with
        | Some previous => carry_over previous (list_to_set per_plan_results.*1)
        | None => (∅, ∅)
        end in
      let '(ms, plans) := merge_results carried per_plan_results in
      r {{ _snapshot := Some {| models := ms; model_plans := plans; plan_models := invert plans;
                                fetched_at := monotonic |} }}
  end.

Definition is_public_model (m : UpstreamModel) (allowed_models : option (gset string)) : bool :=
  match allowed_models with
  | None => true
  | Some allowed => bool_decide (slug m ∈ allowed)
  end.

End ModelRegistry.

(** ** What a refresh does *)
Module RegistryFacts.
Import ModelRegistry.

(** The relation an index of sets stands for. *)
Definition rel (index : gmap string (gset string)) (k x : string) : Prop := x ∈ default ∅ (index !! k).

Lemma rel_add k x index k' x' : rel (index_add k x index) k' x' ↔ (k' = k ∧ x' = x) ∨ rel index k' x'.
Proof.
  unfold rel, index_add. destruct (decide (k' = k)) as [->|Hne].
  - rewrite lookup_insert_eq. set_solver.
  - rewrite lookup_insert_ne by done. set_solver.
Qed.

Lemma rel_empty k x : ¬ rel ∅ k x.
Proof. unfold rel. rewrite lookup_empty. set_solver. Qed.

Lemma foldr_add_rel name ps index k x :
  rel (foldr (λ p, index_add p name) index ps) k x ↔ (k ∈ ps ∧ x = name) ∨ rel index k x.
Proof. induction ps as [|p ps IH]; simpl; [set_solver|]. rewrite rel_add, IH. set_solver. Qed.

Lemma invert_rel plans p s : rel (invert plans) p s ↔ rel plans s p.
Proof.
  unfold invert. transitivity (∃ ps, (s, ps) ∈ map_to_list plans ∧ p ∈ ps).
  - induction (map_to_list plans) as [|[name ps] l IH]; simpl; [pose proof (rel_empty p s); set_solver|].
    rewrite foldr_add_rel, elem_of_elements, IH. set_solver.
  - setoid_rewrite elem_of_map_to_list. unfold rel. destruct (plans !! s); set_solver.
Qed.

(** What holds of a pair of indexes under construction: every slug that a
    plan supports has its model, stored under its own name. *)
Definition stored (acc : indexes) : Prop :=
  (∀ s p, rel acc.2 s p → is_Some (acc.1 !! s)) ∧ (∀ s m, acc.1 !! s = Some m → slug m = s).

Definition consistent (snap : ModelRegistrySnapshot) : Prop :=
  stored (models snap, model_plans snap) ∧ ∀ p s, rel (plan_models snap) p s ↔ rel (model_plans snap) s p.

Lemma carry_plan_rel prev plan acc s p :
  rel (carry_plan prev plan acc).2 s p ↔ rel acc.2 s p ∨ (p = plan ∧ rel (plan_models prev) plan s).
Proof.
  unfold carry_plan, rel at 3. set (ss := default ∅ _). rewrite <- (elem_of_elements ss s).
  induction (elements ss) as [|n l IH]; simpl; [set_solver|].
  unfold carry_slug at 1. destruct (foldr _ acc l) as [ms plans]; simpl in *. rewrite rel_add, IH. set_solver.
Qed.

Lemma carry_plan_stored prev plan acc : consistent prev → stored acc → stored (carry_plan prev plan acc).
Proof.
  intros [[Hp1 Hp2] Hinv] Ha. unfold carry_plan. set (ss := default ∅ _).
  assert (∀ n, n ∈ elements ss → is_Some (models prev !! n)) as Hs.
  { intros n Hn%elem_of_elements. apply (Hp1 n plan), Hinv, Hn. }
  induction (elements ss) as [|n l IH]; simpl; [done|].
  destruct IH as [H1 H2]; [set_solver|]. unfold carry_slug at 1. destruct (foldr _ acc l) as [ms plans]; simpl in *.
  destruct (Hs n ltac:(set_solver)) as [m Hm]. split; simpl.
  - intros s p [[-> ->]|Hr]%rel_add; [destruct (ms !! n) eqn:E; rewrite ?Hm, ?lookup_insert_eq; eauto|].
    destruct (ms !! n) eqn:E; [eauto|]. rewrite Hm. destruct (decide (n = s)) as [->|].
    + rewrite lookup_insert_eq. eauto.
    + rewrite lookup_insert_ne by done. eauto.
  - intros s m'. destruct (ms !! n) eqn:E; [apply H2|]. rewrite Hm, lookup_insert_Some.
    intros [[<- <-]|[_ Hs']]; [by apply Hp2|by apply H2].
Qed.

Lemma stored_empty : stored (∅, ∅).
Proof.
  split; simpl; [by intros s p ?%rel_empty|]. intros s m. by rewrite lookup_empty.
Qed.

Lemma carry_over_spec prev refreshed :
  consistent prev →
  stored (carry_over prev refreshed) ∧
  ∀ s p, rel (carry_over prev refreshed).2 s p ↔ p ∉ refreshed ∧ rel (plan_models prev) p s.
Proof.
  intros Hc. unfold carry_over.
  assert (∀ s p, p ∉ refreshed ∧ rel (plan_models prev) p s ↔
    p ∈ elements (dom (plan_models prev) ∖ refreshed) ∧ rel (plan_models prev) p s) as Hd.
  { intros s p. rewrite elem_of_elements, elem_of_difference, elem_of_dom. unfold rel.
    destruct (plan_models prev !! p); set_solver. }
  setoid_rewrite Hd. clear Hd. induction (elements _) as [|p0 l IH]; simpl.
  - split; [apply stored_empty|]. intros s p. pose proof (rel_empty s p). set_solver.
  - destruct IH as [IH1 IH2]. split; [by apply carry_plan_stored|].
    intros s p. rewrite carry_plan_rel, IH2. set_solver.
Qed.

Lemma merge_plan_spec plan ms acc :
  stored acc → stored (fold_left (merge_model plan) ms acc) ∧
  ∀ s p, rel (fold_left (merge_model plan) ms acc).2 s p ↔
    rel acc.2 s p ∨ (p = plan ∧ ∃ m, m ∈ ms ∧ slug m = s).
Proof.
  revert acc. induction ms as [|m ms IH]; intros acc Ha; simpl; [split; [done|set_solver]|].
  assert (stored (merge_model plan acc m)) as Hm.
  { destruct Ha as [H1 H2]. split; simpl.
    - intros s p [[-> ->]|Hr]%rel_add; [rewrite lookup_insert_eq; eauto|].
      destruct (decide (slug m = s)) as [<-|]; [rewrite lookup_insert_eq|rewrite lookup_insert_ne by done]; eauto.
    - intros s m'. rewrite lookup_insert_Some. intros [[<- <-]|[_ ?]]; auto. }
  destruct (IH _ Hm) as [H1 H2]. split; [done|]. intros s p. rewrite H2. simpl. rewrite rel_add. set_solver.
Qed.

Lemma merge_results_spec results acc :
  stored acc → stored (merge_results acc results) ∧
  ∀ s p, rel (merge_results acc results).2 s p ↔
    rel acc.2 s p ∨ ∃ ms m, (p, ms) ∈ results ∧ m ∈ ms ∧ slug m = s.
Proof.
  unfold merge_results. revert acc. induction results as [|[plan ms] results IH]; intros acc Ha; simpl.
  { split; [done|set_solver]. }
  destruct (merge_plan_spec plan ms acc Ha) as [H1 H2]. destruct (IH _ H1) as [H3 H4].
  split; [done|]. intros s p. rewrite H4, H2. set_solver.
Qed.

(** A refresh of the model registry replaces exactly the plans it fetched: a
    fetched plan supports the models returned for it and no other, a plan that
    was not fetched supports what it did before; both indexes state that same
    relation and every model a plan supports is stored under its slug.  An
    empty refresh changes nothing. *)
Theorem registry_update_spec monotonic results r
    (Hprev : ∀ prev, _snapshot r = Some prev → consistent prev) :
  match _snapshot (update monotonic results r) with
  | None => results = [] ∧ _snapshot r = None
  | Some snap =>
      consistent snap ∧
      ∀ p s, rel (plan_models snap) p s ↔
        (∃ ms m, (p, ms) ∈ results ∧ m ∈ ms ∧ slug m = s) ∨
        (p ∉ results.*1 ∧ ∃ prev, _snapshot r = Some prev ∧ rel (plan_models prev) p s)
  end.
Proof.
  destruct results as [|res0 results].
  { simpl. destruct (_snapshot r) as [prev|] eqn:E; [|done]. split; [by apply Hprev|].
    intros p s. set_solver. }
  set (rs := res0 :: results) in *. unfold update. change (res0 :: results) with rs.
  set (carried := match _snapshot r with Some _ => _ | None => _ end).
  assert (stored carried ∧ ∀ s p, rel carried.2 s p ↔
    p ∉ rs.*1 ∧ ∃ prev, _snapshot r = Some prev ∧ rel (plan_models prev) p s) as [Hc1 Hc2].
  { unfold carried. destruct (_snapshot r) as [prev|].
    - destruct (carry_over_spec prev (list_to_set rs.*1) (Hprev _ eq_refl)) as [H1 H2].
      split; [done|]. intros s p. rewrite H2, elem_of_list_to_set. naive_solver.
    - split; [apply stored_empty|]. intros s p. pose proof (rel_empty s p). naive_solver. }
  destruct (merge_results_spec rs carried Hc1) as [H1 H2].
  destruct (merge_results carried rs) as [ms plans]. simpl in *. split.
  - split; simpl; [done|]. intros p s. apply invert_rel.
  - intros p s. rewrite invert_rel, H2, Hc2. tauto.
Qed.

Definition ex_model (name : string) : UpstreamModel :=
  {| slug := name; display_name := name; description := ""; context_window := 400000;
     input_modalities := ["text"]; supported_reasoning_levels := []; default_reasoning_level := None;
     supports_reasoning_summaries := true; support_verbosity := true; default_verbosity := None;
     prefer_websockets := false; supports_parallel_tool_calls := true; supported_in_api := true;
     minimal_client_version := None; priority := 1; available_in_plans := ∅; base_instructions := "" |}.

Definition ex_registry : ModelRegistry :=
  {| _ttl_seconds := 300; _snapshot := None; _bootstrap_models := ∅ |}.

Definition ex_results : dict (list UpstreamModel) := [("plus", [ex_model "gpt-5"; ex_model "gpt-5-mini"])].

Lemma registry_update_spec_witness :
  match _snapshot (update 10 ex_results ex_registry) with
  | None => False
  | Some snap => consistent snap ∧ rel (plan_models snap) "plus" "gpt-5"
  end.
Proof.
  pose proof (registry_update_spec 10 ex_results ex_registry ltac:(done)) as H.
  destruct (_snapshot (update 10 ex_results ex_registry)) as [snap|]; [|by destruct H].
  destruct H as [Hc Hr]. split; [exact Hc|]. apply Hr. left.
  exists [ex_model "gpt-5"; ex_model "gpt-5-mini"], (ex_model "gpt-5").
  split; [left|]. split; [left|reflexivity].
Defined.

End RegistryFacts.
