(* ===== verification/Stores.v ===== *)
(** The repositories behind account selection: usage rows and additional
    usage rows ([src/app/modules/usage/repository.py]), accounts
    ([src/app/modules/accounts/repository.py]), sticky sessions
    ([src/app/modules/proxy/sticky_repository.py] and
    [src/app/modules/sticky_sessions/service.py]) and the cache of selection
    inputs ([src/app/modules/proxy/account_cache.py]).  A table is the list of
    its rows in insertion order; a method is one statement, or the sequence of
    the statements it issues. *)

From S2P Require Import Prelude Models Usage QuotaKeys.

(** ** Usage rows *)
Module UsageRepo.
Import UsageCore.

Definition recorded_us (row : UsageHistory) : Z := wall_us (uh_recorded_at row).
Definition usage_rank (row : UsageHistory) : Z * Z := (recorded_us row, uh_id row).

(** [coalesce(window, 'primary')]. *)
Definition _normalized_window_expr (row : UsageHistory) : string := default "primary" (uh_window row).

Definition _window_clause (window : option string) (row : UsageHistory) : bool :=
  if negb (truthy_s window) || bool_decide (window = Some "primary")
  then String.eqb (_normalized_window_expr row) "primary"
  else bool_decide (uh_window row = window).

Definition latest_entry_for_account (account_id : string) (window : option string)
    (rows : list UsageHistory) : option UsageHistory :=
  max_by usage_rank
    (List.filter (λ row, String.eqb (uh_account_id row) account_id && _window_clause window row) rows).

(** The next value of the autoincrement column is an argument. *)
Definition add_entry (next_id utcnow : Z) (account_id : string) (used_percent : Q)
    (input_tokens output_tokens : option Z) (recorded_at : option datetime) (window : option string)
    (reset_at window_minutes : option Z) (credits_has credits_unlimited : option bool)
    (credits_balance : option Q) (rows : list UsageHistory) : list UsageHistory * UsageHistory :=
  let entry :=
    {| uh_id := next_id; uh_account_id := account_id;
       uh_recorded_at := default {| wall_us := utcnow; utc_offset_us := None |} recorded_at;
       uh_window := window; uh_used_percent := used_percent; uh_input_tokens := input_tokens;
       uh_output_tokens := output_tokens; uh_reset_at := reset_at; uh_window_minutes := window_minutes;
       Models.credits_has := credits_has; Models.credits_unlimited := credits_unlimited;
       Models.credits_balance := credits_balance |} in
  (rows ++ [entry], entry).

Inductive dialect := postgresql | sqlite.

(** PostgreSQL asks for the newest row of each account of the accounts table,
    other dialects for the first row of each partition. *)
Definition latest_by_account (d : dialect) (accounts : list Account) (window : option string)
    (rows : list UsageHistory) : gmap string UsageHistory :=
  match d with
  | postgresql =>
      list_to_map (omap (λ account,
        (λ row, (acc_id account, row)) <$> latest_entry_for_account (acc_id account) window rows) accounts)
  | sqlite => latest_per uh_account_id usage_rank (List.filter (_window_clause window) rows)
  end.

Definition history_since (account_id window : string) (since : Z) (rows : list UsageHistory)
    : list UsageHistory :=
  order_by (asc recorded_us)
    (List.filter (λ row, String.eqb (uh_account_id row) account_id && _window_clause (Some window) row
                         && (since <=? recorded_us row)%Z) rows).

(** [grouped.setdefault(row.account_id, []).append(row)]. *)
Definition group_row (grouped : gmap string (list UsageHistory)) (row : UsageHistory)
    : gmap string (list UsageHistory) :=
  <[uh_account_id row := default [] (grouped !! uh_account_id row) ++ [row]]> grouped.

Definition bulk_history_since (account_ids : list string) (window : string) (since : Z)
    (rows : list UsageHistory) : gmap string (list UsageHistory) :=
  match account_ids with
  | [] => ∅
  | _ =>
      fold_left group_row
        (order_by (then_by (asc uh_account_id) (asc recorded_us))
          (List.filter (λ row, mem (uh_account_id row) account_ids && _window_clause (Some window) row
                               && (since <=? recorded_us row)%Z) rows)) ∅
  end.

Definition latest_window_minutes (window : string) (rows : list UsageHistory) : option Z :=
  max_by id (omap uh_window_minutes (List.filter (_window_clause (Some window)) rows)).

(** [aggregate_since]: one aggregate per account with a matching row. *)
Record UsageAggregateRow := {
  agg_account_id : string;
  used_percent_avg : option Q;
  input_tokens_sum : option Z;
  output_tokens_sum : option Z;
  samples : Z;
  last_recorded_at : option Z;
  reset_at_max : option Z;
  window_minutes_max : option Z;
}.

(** SQL [sum]: null over no non-null value. *)
Definition sql_sum (l : list (option Z)) : option Z :=
  match omap id l with [] => None | vs => Some (zsum vs) end.
Definition sql_max (l : list (option Z)) : option Z := max_by id (omap id l).

Definition aggregate_rows (account_id : string) (rows : list UsageHistory) : UsageAggregateRow :=
  {| agg_account_id := account_id;
     used_percent_avg :=
       match rows with
       | [] => None
       | _ => Some (qsum (map uh_used_percent rows) / inject_Z (Z.of_nat (length rows)))%Q
       end;
     input_tokens_sum := sql_sum (map uh_input_tokens rows);
     output_tokens_sum := sql_sum (map uh_output_tokens rows);
     samples := Z.of_nat (length rows);
     last_recorded_at := max_by id (map recorded_us rows);
     reset_at_max := sql_max (map uh_reset_at rows);
     window_minutes_max := sql_max (map uh_window_minutes rows) |}.

Definition aggregate_since (since : Z) (window : option string) (rows : list UsageHistory)
    : list UsageAggregateRow :=
  let matching :=
    List.filter (λ row, (since <=? recorded_us row)%Z
                        && (negb (truthy_s window) || _window_clause window row)) rows in
  map (λ account_id,
        aggregate_rows account_id
          (List.filter (λ row, String.eqb (uh_account_id row) account_id) matching))
      (elements (list_to_set (map uh_account_id matching) : gset string)).

End UsageRepo.

(** ** Additional usage rows *)
Module AdditionalUsageRepo.
Import QuotaKeys.

Definition recorded_us (row : AdditionalUsageHistory) : Z := wall_us (ah_recorded_at row).
Definition usage_rank (row : AdditionalUsageHistory) : Z * Z := (recorded_us row, ah_id row).

Definition _resolve_additional_quota_key (m : DefinitionMaps)
    (quota_key limit_name metered_feature : option string) : option string :=
  match first_some quota_key limit_name, metered_feature with
  | None, None => None
  | candidate, _ => canonicalize_additional_quota_key m None quota_key candidate metered_feature
  end.

Definition _resolve_additional_quota_query_scope := get_additional_quota_query_scope.

(** Each list of the disjunction is used only when it is not empty; the key
    list falls back to the key itself. *)
Definition _additional_quota_match_clause (scope : AdditionalQuotaQueryScope)
    (row : AdditionalUsageHistory) : bool :=
  let keys := if bool_decide (quota_key_match_values scope = ∅) then {[scope_quota_key scope]}
              else quota_key_match_values scope in
  bool_decide (quota_key row ∈ keys)
  || bool_decide (py_lower (limit_name row) ∈ limit_name_match_values scope)
  || bool_decide (py_lower (metered_feature row) ∈ metered_feature_match_values scope).

Inductive UsageError := ValueError (message : string).

Definition KEY_ERROR : UsageError := ValueError "additional usage quota_key could not be determined".

Definition add_entry (m : DefinitionMaps) (next_id utcnow : Z) (account_id limit_name metered_feature window : string)
    (used_percent : Q) (reset_at window_minutes : option Z) (recorded_at : option datetime)
    (quota_key : option string) (rows : list AdditionalUsageHistory)
    : res UsageError (list AdditionalUsageHistory) :=
  match _resolve_additional_quota_key m quota_key (Some limit_name) (Some metered_feature) with
  | None => Err KEY_ERROR
  | Some effective_quota_key =>
      Ok (rows ++
        [{| ah_id := next_id; ah_account_id := account_id; Models.quota_key := effective_quota_key;
            Models.limit_name := limit_name; Models.metered_feature := metered_feature; ah_window := window;
            ah_used_percent := used_percent; ah_reset_at := reset_at; ah_window_minutes := window_minutes;
            ah_recorded_at := default {| wall_us := utcnow; utc_offset_us := None |} recorded_at |}])
  end.

Definition delete_for_account (account_id : string) (rows : list AdditionalUsageHistory)
    : list AdditionalUsageHistory :=
  delete_where (λ row, String.eqb (ah_account_id row) account_id) rows.

Definition delete_for_account_and_quota_key (m : DefinitionMaps) (account_id key : string)
    (rows : list AdditionalUsageHistory) : res UsageError (list AdditionalUsageHistory) :=
  match _resolve_additional_quota_query_scope m (Some key) None None with
  | None => Err KEY_ERROR
  | Some scope =>
      Ok (delete_where (λ row, String.eqb (ah_account_id row) account_id
                               && _additional_quota_match_clause scope row) rows)
  end.

Definition delete_for_account_and_limit := delete_for_account_and_quota_key.

Definition delete_for_account_quota_key_window (m : DefinitionMaps) (account_id key window : string)
    (rows : list AdditionalUsageHistory) : res UsageError (list AdditionalUsageHistory) :=
  match _resolve_additional_quota_query_scope m (Some key) None None with
  | None => Err KEY_ERROR
  | Some scope =>
      Ok (delete_where (λ row, String.eqb (ah_account_id row) account_id
                               && _additional_quota_match_clause scope row
                               && String.eqb (ah_window row) window) rows)
  end.

Definition delete_for_account_limit_window := delete_for_account_quota_key_window.

(** The rows a lookup considers. *)
Definition usage_conditions (scope : AdditionalQuotaQueryScope) (window : string)
    (account_ids : option (list string)) (since : option Z) (row : AdditionalUsageHistory) : bool :=
  _additional_quota_match_clause scope row && String.eqb (ah_window row) window
  && match account_ids with None => true | Some ids => mem (ah_account_id row) ids end
  && match since with None => true | Some t => (t <=? recorded_us row)%Z end.

Definition latest_by_account (m : DefinitionMaps) (key window limit : option string)
    (account_ids : option (list string)) (since : option Z) (rows : list AdditionalUsageHistory)
    : res UsageError (gmap string AdditionalUsageHistory) :=
  match _resolve_additional_quota_query_scope m key limit None, window with
  | Some scope, Some window =>
      Ok (latest_per ah_account_id usage_rank
            (List.filter (usage_conditions scope window account_ids since) rows))
  | _, _ => Err (ValueError "quota_key/limit_name and window are required")
  end.

Definition latest_by_quota_key (m : DefinitionMaps) (key window : string)
    (account_ids : option (list string)) (since : option Z) (rows : list AdditionalUsageHistory)
    : res UsageError (gmap string AdditionalUsageHistory) :=
  latest_by_account m (Some key) (Some window) None account_ids since rows.

Definition list_quota_keys (m : DefinitionMaps) (account_ids : option (list string)) (since : option Z)
    (rows : list AdditionalUsageHistory) : list string :=
  let matching :=
    List.filter (λ row,
      match account_ids with None => true | Some ids => mem (ah_account_id row) ids end
      && match since with None => true | Some t => (t <=? recorded_us row)%Z end) rows in
  order_by (asc id)
    (elements (list_to_set (omap (λ row,
       canonicalize_additional_quota_key m None (Some (quota_key row)) (Some (limit_name row))
         (Some (metered_feature row))) matching) : gset string)).

Definition list_limit_names := list_quota_keys.

Definition history_since (m : DefinitionMaps) (account_id : string) (key window limit : option string)
    (since : option Z) (rows : list AdditionalUsageHistory) : res UsageError (list AdditionalUsageHistory) :=
  match _resolve_additional_quota_query_scope m key limit None, window, since with
  | Some scope, Some window, Some since =>
      Ok (order_by (asc recorded_us)
            (List.filter (λ row, String.eqb (ah_account_id row) account_id
                                 && usage_conditions scope window None (Some since) row) rows))
  | _, _, _ => Err (ValueError "account_id, quota_key/limit_name, window, and since are required")
  end.

Definition latest_recorded_at_for_account (account_id : string) (rows : list AdditionalUsageHistory)
    : option Z :=
  max_by id (map recorded_us (List.filter (λ row, String.eqb (ah_account_id row) account_id) rows)).

Definition latest_recorded_at (rows : list AdditionalUsageHistory) : option Z :=
  max_by id (map recorded_us rows).

End AdditionalUsageRepo.

(** ** Accounts *)
Module AccountsRepo.

(** The tables that hang off an account. *)
Record Database := {
  accounts : list Account;
  usage_history : list UsageHistory;
  additional_usage_history : list AdditionalUsageHistory;
  sticky_sessions : list StickySession;
  request_logs : list RequestLog;
}.

Definition DUPLICATE_ACCOUNT_SUFFIX : string := "__copy".

Inductive AccountError := AccountIdentityConflictError (email : string).

Definition has_id (account_id : string) (a : Account) : bool := String.eqb (acc_id a) account_id.

Definition get_by_id (account_id : string) (rows : list Account) : option Account :=
  List.find (has_id account_id) rows.

Definition list_accounts (rows : list Account) : list Account := order_by (asc email) rows.

Record AccountRequestUsageSummary := {
  request_count : Z;
  total_tokens : Z;
  cached_input_tokens : Z;
  total_cost_usd : Q;
}.

(** [coalesce(output_tokens, reasoning_tokens, 0)]. *)
Definition output_tokens_expr (row : RequestLog) : Z :=
  match rl_output_tokens row with Some n => n | None => default 0%Z (rl_reasoning_tokens row) end.

Definition summarize_logs (rows : list RequestLog) : AccountRequestUsageSummary :=
  let input_sum := zsum (map (λ row, default 0%Z (rl_input_tokens row)) rows) in
  let output_sum := zsum (map output_tokens_expr rows) in
  let cached_sum := zsum (map (λ row, default 0%Z (rl_cached_input_tokens row)) rows) in
  {| request_count := Z.of_nat (length rows);
     total_tokens := input_sum + output_sum;
     cached_input_tokens := Z.max 0 (Z.min cached_sum input_sum);
     total_cost_usd := py_round_digits (qsum (map (λ row, default 0%Q (rl_cost_usd row)) rows)) 6 |}.

(** Rows without an account are grouped under the null key and skipped, as is
    an empty account id. *)
Definition list_request_usage_summary_by_account (account_ids : list string) (logs : list RequestLog)
    : gmap string AccountRequestUsageSummary :=
  let ids := List.filter (λ a, negb (String.eqb a "")) (omap rl_account_id logs) in
  let ids := match account_ids with [] => ids | _ => List.filter (λ a, mem a account_ids) ids end in
  list_to_map (map (λ a,
    (a, summarize_logs (List.filter (λ row, bool_decide (rl_account_id row = Some a)) logs))) ids).

Definition exists_active_chatgpt_account_id (chatgpt_id : string) (rows : list Account) : bool :=
  existsb (λ a, bool_decide (chatgpt_account_id a = Some chatgpt_id)
                && negb (bool_decide (acc_status a = DEACTIVATED ∨ acc_status a = PAUSED))) rows.

(** [_merge_by_email_enabled]: the argument is the settings row's
    [import_without_overwrite], [None] when there is no row. *)
Definition _merge_by_email_enabled (import_without_overwrite : option bool) : bool :=
  match import_without_overwrite with None => true | Some b => negb b end.

Definition duplicate_id (base_id : string) (sequence : Z) : string :=
  (base_id ++ DUPLICATE_ACCOUNT_SUFFIX ++ pretty sequence)%string.

Fixpoint next_available_loop (fuel : nat) (base_id candidate : string) (sequence : Z)
    (rows : list Account) : option string :=
  match fuel with
  | O => None
  | S fuel =>
      match get_by_id candidate rows with
      | None => Some candidate
      | Some _ => next_available_loop fuel base_id (duplicate_id base_id sequence) (sequence + 1) rows
      end
  end.

Definition _next_available_account_id (base_id : string) (rows : list Account) : option string :=
  next_available_loop (S (length rows)) base_id base_id 2 rows.

Definition _single_account_by_email (mail : string) (rows : list Account)
    : res AccountError (option Account) :=
  match take 2 (order_by (then_by (asc acc_created_at) (asc acc_id))
                 (List.filter (λ a, String.eqb (email a) mail) rows)) with
  | [] => Ok None
  | [a] => Ok (Some a)
  | _ => Err (AccountIdentityConflictError mail)
  end.

Definition _apply_account_updates (source target : Account) : Account :=
  target {{ chatgpt_account_id := chatgpt_account_id source;
            email := email source;
            acc_plan_type := acc_plan_type source;
            access_token_encrypted := access_token_encrypted source;
            refresh_token_encrypted := refresh_token_encrypted source;
            id_token_encrypted := id_token_encrypted source;
            last_refresh := last_refresh source;
            acc_status := acc_status source;
            acc_deactivation_reason := acc_deactivation_reason source;
            acc_reset_at := acc_reset_at source;
            acc_blocked_at := acc_blocked_at source }}.

Definition merge_into (target : string) (source : Account) (rows : list Account)
    : list Account * option Account :=
  let rows := update_where (has_id target) (_apply_account_updates source) rows in
  (rows, get_by_id target rows).

(** [None] as the account is the fuel of the id search running out. *)
Definition upsert (import_without_overwrite : option bool) (merge_by_email : option bool)
    (account : Account) (rows : list Account) : res AccountError (list Account * option Account) :=
  let merge := match merge_by_email with
               | None => _merge_by_email_enabled import_without_overwrite
               | Some b => b
               end in
  let insert account :=
    if merge then
      let? found := _single_account_by_email (email account) rows in
      match found with
      | Some target => Ok (merge_into (acc_id target) account rows)
      | None => Ok (rows ++ [account], Some account)
      end
    else Ok (rows ++ [account], Some account) in
  match get_by_id (acc_id account) rows with
  | Some existing =>
      if merge then Ok (merge_into (acc_id existing) account rows)
      else match _next_available_account_id (acc_id account) rows with
           | Some fresh => insert (account {{ acc_id := fresh }})
           | None => Ok (rows, None)
           end
  | None => insert account
  end.

(** [blocked_at] is [None] for [_UNSET]. *)
Definition status_values (status : AccountStatus) (reason : option string) (reset_at : option Z)
    (blocked_at : option (option Z)) (a : Account) : Account :=
  let a := a {{ acc_status := status; acc_deactivation_reason := reason; acc_reset_at := reset_at }} in
  match blocked_at with None => a | Some b => a {{ acc_blocked_at := b }} end.

Definition update_status (account_id : string) (status : AccountStatus) (reason : option string)
    (reset_at : option Z) (blocked_at : option (option Z)) (rows : list Account) : list Account * bool :=
  (update_where (has_id account_id) (status_values status reason reset_at blocked_at) rows,
   any_where (has_id account_id) rows).

Record expected := {
  expected_status : AccountStatus;
  expected_deactivation_reason : option string;
  expected_reset_at : option Z;
  expected_blocked_at : option (option Z);
}.

Definition is_current (account_id : string) (e : expected) (a : Account) : bool :=
  has_id account_id a && bool_decide (acc_status a = expected_status e)
  && bool_decide (acc_deactivation_reason a = expected_deactivation_reason e)
  && bool_decide (acc_reset_at a = expected_reset_at e)
  && match expected_blocked_at e with None => true | Some b => bool_decide (acc_blocked_at a = b) end.

Definition update_status_if_current (account_id : string) (status : AccountStatus) (reason : option string)
    (reset_at : option Z) (blocked_at : option (option Z)) (e : expected) (rows : list Account)
    : list Account * bool :=
  (update_where (is_current account_id e) (status_values status reason reset_at blocked_at) rows,
   any_where (is_current account_id e) rows).

(** The request logs keep their rows, detached; the rows of the additional
    usage table go with the account by [ON DELETE CASCADE]. *)
Definition delete (account_id : string) (utcnow : Z) (db : Database) : Database * bool :=
  ({| usage_history := delete_where (λ r, String.eqb (uh_account_id r) account_id) (usage_history db);
      request_logs :=
        update_where (λ r, bool_decide (rl_account_id r = Some account_id))
          (λ r, r {{ rl_account_id := None; rl_deleted_at := Some utcnow }}) (request_logs db);
      sticky_sessions := delete_where (λ r, String.eqb (sticky_account_id r) account_id) (sticky_sessions db);
      accounts := delete_where (has_id account_id) (accounts db);
      additional_usage_history :=
        if any_where (has_id account_id) (accounts db)
        then delete_where (λ r, String.eqb (ah_account_id r) account_id) (additional_usage_history db)
        else additional_usage_history db |},
   any_where (has_id account_id) (accounts db)).

Definition update_tokens (account_id access refresh id_token : string) (refreshed_at : Z)
    (plan mail chatgpt_id : option string) (rows : list Account) : list Account * bool :=
  (update_where (has_id account_id) (λ a,
     let a := a {{ access_token_encrypted := access; refresh_token_encrypted := refresh;
                   id_token_encrypted := id_token; last_refresh := refreshed_at }} in
     let a := match plan with Some p => a {{ acc_plan_type := p }} | None => a end in
     let a := match mail with Some e => a {{ email := e }} | None => a end in
     match chatgpt_id with Some c => a {{ chatgpt_account_id := Some c }} | None => a end) rows,
   any_where (has_id account_id) rows).

End AccountsRepo.

(** ** Sticky sessions *)
Module StickyRepo.

Definition is_row (key : string) (kind : StickySessionKind) (r : StickySession) : bool :=
  String.eqb (sticky_key r) key && bool_decide (sticky_kind r = kind).

Definition get_entry (key : string) (kind : StickySessionKind) (rows : list StickySession)
    : option StickySession :=
  if String.eqb key "" then None else List.find (is_row key kind) rows.

Definition delete (key : string) (kind : StickySessionKind) (rows : list StickySession)
    : list StickySession * bool :=
  if String.eqb key "" then (rows, false)
  else (delete_where (is_row key kind) rows, any_where (is_row key kind) rows).

(** An entry older than the maximum age is deleted by the read. *)
Definition get_account_id (utcnow : Z) (key : string) (kind : StickySessionKind)
    (max_age_seconds : option Z) (rows : list StickySession) : list StickySession * option string :=
  if String.eqb key "" then (rows, None)
  else match get_entry key kind rows with
       | None => (rows, None)
       | Some row =>
           match max_age_seconds with
           | Some age =>
               if (sticky_updated_at row <? utcnow - seconds age)%Z
               then (fst (delete key kind rows), None)
               else (rows, Some (sticky_account_id row))
           | None => (rows, Some (sticky_account_id row))
           end
       end.

(** [INSERT ... ON CONFLICT (key, kind) DO UPDATE]; [now] is the database
    clock.  An empty key is stored but not read back, which raises. *)
Definition upsert (now : Z) (key account_id : string) (kind : StickySessionKind)
    (rows : list StickySession) : list StickySession * option StickySession :=
  let rows' :=
    if any_where (is_row key kind) rows
    then update_where (is_row key kind)
           (λ r, r {{ sticky_account_id := account_id; sticky_updated_at := now }}) rows
    else rows ++ [{| sticky_key := key; sticky_kind := kind; sticky_account_id := account_id;
                     sticky_created_at := now; sticky_updated_at := now |}] in
  (rows', get_entry key kind rows').

Definition identifier (r : StickySession) : string * StickySessionKind := (sticky_key r, sticky_kind r).

Definition delete_entries (entries : list (string * StickySessionKind)) (rows : list StickySession)
    : list StickySession * list (string * StickySessionKind) :=
  let targets := List.filter (λ e, negb (String.eqb e.1 "")) entries in
  let hit r := bool_decide (identifier r ∈ targets) in
  match targets with
  | [] => (rows, [])
  | _ => (delete_where hit rows, map identifier (List.filter hit rows))
  end.

(** SQL [LIKE]: [%] is any run, [_] any character. *)
Fixpoint sql_like (p s : string) {struct p} : bool :=
  match p with
  | EmptyString => String.eqb s ""
  | String c p' =>
      if Ascii.eqb c "%" then
        (fix from (s : string) : bool :=
           sql_like p' s || match s with EmptyString => false | String _ s' => from s' end) s
      else match s with
           | EmptyString => false
           | String d s' => (Ascii.eqb c "_" || Ascii.eqb c d) && sql_like p' s'
           end
  end.

(** [func.lower(column).contains(query.lower())]. *)
Definition lower_contains (column query : string) : bool :=
  sql_like ("%" ++ py_lower query ++ "%")%string (py_lower column).

Record filters := {
  f_kind : option StickySessionKind;
  f_updated_before : option Z;
  f_account_query : option string;
  f_key_query : option string;
}.

(** A row joined with the email of its account. *)
Definition joined := (StickySession * string)%type.

Definition join_accounts (accounts : list Account) (rows : list StickySession) : list joined :=
  omap (λ r, (λ a, (r, email a)) <$> AccountsRepo.get_by_id (sticky_account_id r) accounts) rows.

Definition _apply_filters (f : filters) (j : joined) : bool :=
  match f_kind f with None => true | Some k => bool_decide (sticky_kind j.1 = k) end
  && match f_updated_before f with None => true | Some t => (sticky_updated_at j.1 <? t)%Z end
  && (negb (truthy_s (f_account_query f)) || lower_contains j.2 (default "" (f_account_query f)))
  && (negb (truthy_s (f_key_query f)) || lower_contains (sticky_key j.1) (default "" (f_key_query f))).

Definition matching (f : filters) (accounts : list Account) (rows : list StickySession) : list joined :=
  List.filter (_apply_filters f) (join_accounts accounts rows).

Inductive SortBy := by_updated_at | by_created_at | by_account | by_key.
Inductive SortDir := sort_asc | sort_desc.

Definition _build_order_by (sort_by : SortBy) (sort_dir : SortDir) : joined → joined → comparison :=
  let updated (j : joined) := sticky_updated_at j.1 in
  let created (j : joined) := sticky_created_at j.1 in
  let key (j : joined) := sticky_key j.1 in
  let dir {K} `{PyOrd K} (k : joined → K) := match sort_dir with sort_asc => asc k | sort_desc => desc k end in
  match sort_by with
  | by_updated_at => then_by (dir updated) (then_by (desc created) (asc key))
  | by_created_at => then_by (dir created) (then_by (desc updated) (asc key))
  | by_account => then_by (dir snd) (then_by (desc updated) (asc key))
  | by_key => then_by (dir key) (then_by (desc updated) (desc created))
  end.

Definition list_entry_identifiers (f : filters) (accounts : list Account) (rows : list StickySession)
    : list (string * StickySessionKind) :=
  map (λ j, identifier j.1) (order_by (_build_order_by by_updated_at sort_desc) (matching f accounts rows)).

Definition list_entries (f : filters) (sort_by : SortBy) (sort_dir : SortDir) (offset : Z)
    (limit : option Z) (accounts : list Account) (rows : list StickySession) : list joined :=
  let all := order_by (_build_order_by sort_by sort_dir) (matching f accounts rows) in
  let all := if (0 <? offset)%Z then drop (Z.to_nat offset) all else all in
  match limit with None => all | Some n => take (Z.to_nat n) all end.

Definition count_entries (f : filters) (accounts : list Account) (rows : list StickySession) : Z :=
  Z.of_nat (length (matching f accounts rows)).

Definition purge_before (cutoff : Z) (kind : option StickySessionKind) (rows : list StickySession)
    : list StickySession * Z :=
  let hit r := (sticky_updated_at r <? cutoff)%Z
               && match kind with None => true | Some k => bool_decide (sticky_kind r = k) end in
  (delete_where hit rows, Z.of_nat (length (List.filter hit rows))).

Definition purge_prompt_cache_before (cutoff : Z) (rows : list StickySession) : list StickySession * Z :=
  purge_before cutoff (Some PROMPT_CACHE) rows.

End StickyRepo.

(** ** The sticky-session service *)
Module StickyService.
Import StickyRepo.

Record StickySessionEntryData := {
  entry_key : string;
  entry_display_name : string;
  entry_kind : StickySessionKind;
  entry_created_at : Z;
  entry_updated_at : Z;
  expires_at : option Z;
  is_stale : bool;
}.

Record StickySessionListData := {
  entries : list StickySessionEntryData;
  stale_prompt_cache_count : Z;
  total : Z;
  has_more : bool;
}.

Record StickySessionsDeleteData := {
  deleted : list (string * StickySessionKind);
  failed : list (string * StickySessionKind * string);
}.

Definition deleted_count (d : StickySessionsDeleteData) : Z := Z.of_nat (length (deleted d)).

Definition _to_entry (utcnow ttl_seconds : Z) (row : joined) : StickySessionEntryData :=
  let s := row.1 in
  let expiry := (sticky_updated_at s + seconds ttl_seconds)%Z in
  let prompt_cache := bool_decide (sticky_kind s = PROMPT_CACHE) in
  {| entry_key := sticky_key s; entry_display_name := row.2; entry_kind := sticky_kind s;
     entry_created_at := sticky_created_at s; entry_updated_at := sticky_updated_at s;
     expires_at := if prompt_cache then Some expiry else None;
     is_stale := prompt_cache && (expiry <=? utcnow)%Z |}.

(** [kind not in (None, PROMPT_CACHE)]. *)
Definition durable_kind (kind : option StickySessionKind) : bool :=
  match kind with None | Some PROMPT_CACHE => false | _ => true end.

Definition _count_stale_prompt_cache_entries (kind : option StickySessionKind) (stale_cutoff : Z)
    (accounts : list Account) (rows : list StickySession) : Z :=
  if durable_kind kind then 0%Z
  else count_entries {| f_kind := Some PROMPT_CACHE; f_updated_before := Some stale_cutoff;
                        f_account_query := None; f_key_query := None |} accounts rows.

Definition normalized_query (q : option string) : option string :=
  if truthy_s q then py_strip <$> q else None.

(** The filters of a listing or of a filtered deletion. *)
Definition effective_filters (kind : option StickySessionKind) (stale_only : bool) (stale_cutoff : Z)
    (account_query key_query : option string) : filters :=
  {| f_kind := if stale_only then Some PROMPT_CACHE else kind;
     f_updated_before := if stale_only then Some stale_cutoff else None;
     f_account_query := normalized_query account_query;
     f_key_query := normalized_query key_query |}.

(** [t1] is the clock of the cutoff, [t2] that of the entries' staleness;
    [ttl_seconds] is the setting [openai_cache_affinity_max_age_seconds]. *)
Definition list_entries (t1 t2 ttl_seconds : Z) (kind : option StickySessionKind) (stale_only : bool)
    (account_query key_query : option string) (sort_by : SortBy) (sort_dir : SortDir) (offset limit : Z)
    (accounts : list Account) (rows : list StickySession) : StickySessionListData :=
  let stale_cutoff := (t1 - seconds ttl_seconds)%Z in
  let stale_count := _count_stale_prompt_cache_entries kind stale_cutoff accounts rows in
  if stale_only && durable_kind kind
  then {| entries := []; stale_prompt_cache_count := stale_count; total := 0; has_more := false |}
  else
    let f := effective_filters kind stale_only stale_cutoff account_query key_query in
    let n := count_entries f accounts rows in
    let found := map (_to_entry t2 ttl_seconds)
                   (StickyRepo.list_entries f sort_by sort_dir offset (Some limit) accounts rows) in
    {| entries := found; stale_prompt_cache_count := stale_count; total := n;
       has_more := (offset + Z.of_nat (length found) <? n)%Z |}.

Definition delete_entry (key : string) (kind : StickySessionKind) (rows : list StickySession)
    : list StickySession * bool := StickyRepo.delete key kind rows.

(** The targets: non-empty keys, first occurrence of each. *)
Definition distinct_targets (entries : list (string * StickySessionKind))
    : list (string * StickySessionKind) :=
  fold_left (λ targets e,
    if String.eqb e.1 "" || bool_decide (e ∈ targets) then targets else targets ++ [e]) entries [].

Definition delete_entries (entries : list (string * StickySessionKind)) (rows : list StickySession)
    : list StickySession * StickySessionsDeleteData :=
  let targets := distinct_targets entries in
  let '(rows', gone) := StickyRepo.delete_entries targets rows in
  (rows',
   {| deleted := gone;
      failed := map (λ e, (e, "not_found")) (List.filter (λ e, negb (bool_decide (e ∈ gone))) targets) |}).

Definition delete_filtered_entries (utcnow ttl_seconds : Z) (kind : option StickySessionKind)
    (stale_only : bool) (account_query key_query : option string) (accounts : list Account)
    (rows : list StickySession) : list StickySession * Z :=
  let stale_cutoff := (utcnow - seconds ttl_seconds)%Z in
  if stale_only && durable_kind kind then (rows, 0%Z)
  else
    let f := effective_filters kind stale_only stale_cutoff account_query key_query in
    let '(rows', gone) :=
      StickyRepo.delete_entries (list_entry_identifiers f accounts rows) rows in
    (rows', Z.of_nat (length gone)).

Definition purge_entries (utcnow ttl_seconds : Z) (rows : list StickySession) : list StickySession * Z :=
  purge_prompt_cache_before (utcnow - seconds ttl_seconds) rows.

End StickyService.

(** ** The cache of selection inputs *)
Module SelectionCache.
Section Cache.

(** [SelectionInputs] is the load balancer's type. *)
Context {D : Type}.

(** Model, limit name and the sorted set of scoped account ids. *)
Definition CacheKey := (option string * option string * option (list string))%type.

Record CachedSelectionInputs := { data : D; cached_until : Q }.

Record AccountSelectionCache := {
  ttl_seconds : Z;
  cache : gmap CacheKey CachedSelectionInputs;
  generation : Z;
}.

Definition new (ttl : Z) : option AccountSelectionCache :=
  if (ttl <? 0)%Z then None else Some {| ttl_seconds := ttl; cache := ∅; generation := 0 |}.

Definition get (monotonic : Q) (key : CacheKey) (c : AccountSelectionCache) : option D :=
  if (ttl_seconds c =? 0)%Z then None
  else match cache c !! key with
       | None => None
       | Some e => if qle (cached_until e) monotonic then None else Some (data e)
       end.

Definition set (monotonic : Q) (d : D) (key : CacheKey) (expected : option Z) (c : AccountSelectionCache)
    : AccountSelectionCache :=
  let entry := {| data := d; cached_until := monotonic + inject_Z (ttl_seconds c) |} in
  match expected with
  | Some g => if (g =? generation c)%Z then c {{ cache := <[key := entry]> (cache c) }} else c
  | None => c {{ cache := <[key := entry]> (cache c) }}
  end.

Definition invalidate (c : AccountSelectionCache) : AccountSelectionCache :=
  c {{ generation := (generation c + 1)%Z; cache := ∅ }}.

End Cache.
#[global] Arguments CachedSelectionInputs : clear implicits.
#[global] Arguments AccountSelectionCache : clear implicits.
End SelectionCache.

(** ** Facts about the stores *)
Module StoreFacts.
Import UsageRepo AccountsRepo.

(** *** Latest usage rows *)

Lemma list_to_map_omap_lookup {A V} (key : A → string) (f : A → option V) (l : list A) k :
  NoDup (map key l) →
  (list_to_map (omap (λ a, (λ v, (key a, v)) <$> f a) l) : gmap string V) !! k =
  match List.find (λ a, String.eqb (key a) k) l with Some a => f a | None => None end.
Proof.
  induction l as [|a l IH]; intros Hnd; simpl; [done|]. apply NoDup_cons in Hnd as [Hn Hnd].
  destruct (String.eqb (key a) k) eqn:E.
  - apply String.eqb_eq in E. subst k. destruct (f a) as [v|]; simpl; [by rewrite lookup_insert_eq|].
    etransitivity; [by apply IH|]. destruct (List.find _ l) as [b|] eqn:Ef; [|done].
    apply find_Some_elem in Ef as [Hb Hk%String.eqb_eq]. destruct Hn. apply elem_of_map. eauto.
  - apply String.eqb_neq in E. destruct (f a) as [v|]; simpl; [rewrite lookup_insert_ne by done|]; by apply IH.
Qed.

(** The two queries for the newest usage row of every account agree: on each
    database the entry of an account that exists is the row
    [latest_entry_for_account] returns, newest first and the highest id among
    equals; only rows of accounts that no longer exist are treated
    differently (PostgreSQL leaves them out). *)
Theorem latest_by_account_dialects accounts window rows account_id
    (Hids : NoDup (map acc_id accounts)) :
  latest_by_account sqlite accounts window rows !! account_id = latest_entry_for_account account_id window rows ∧
  latest_by_account postgresql accounts window rows !! account_id =
    (if existsb (has_id account_id) accounts then latest_entry_for_account account_id window rows else None).
Proof.
  split.
  - unfold latest_by_account. rewrite latest_per_lookup, filter_conj.
    unfold latest_entry_for_account. f_equal. apply List.filter_ext. intros row.
    apply Bool.eq_iff_eq_true. rewrite !andb_true_iff, bool_decide_eq_true, String.eqb_eq. tauto.
  - unfold latest_by_account. rewrite (list_to_map_omap_lookup acc_id) by done.
    destruct (List.find _ accounts) as [a|] eqn:Ef.
    + apply find_Some_elem in Ef as [Ha Hk]. pose proof Hk as ->%String.eqb_eq.
      assert (existsb (has_id account_id) accounts = true) as ->; [|done].
      apply existsb_exists. exists a. split; [by apply list_elem_of_In|done].
    + assert (existsb (has_id account_id) accounts = false) as ->; [|done].
      apply not_true_iff_false. intros (a & Ha%list_elem_of_In & Hk)%existsb_exists.
      apply (find_None_elem _ _ a) in Ef; [|done]. unfold has_id in Hk. congruence.
Qed.

(** *** Compare-and-set on accounts *)

Lemma get_by_id_Some account_id rows a : get_by_id account_id rows = Some a → a ∈ rows ∧ acc_id a = account_id.
Proof. intros [Ha Hk%String.eqb_eq]%find_Some_elem. done. Qed.

Lemma get_by_id_elem rows a : NoDup (map acc_id rows) → a ∈ rows → get_by_id (acc_id a) rows = Some a.
Proof.
  intros Hnd Ha. unfold get_by_id. destruct (List.find _ rows) as [b|] eqn:E.
  - apply find_Some_elem in E as [Hb Hk%String.eqb_eq]. f_equal. by eapply (NoDup_map_eq acc_id).
  - apply (find_None_elem _ _ a) in E; [|done]. unfold has_id in E. by rewrite String.eqb_refl in E.
Qed.

Lemma get_by_id_update (p : Account → bool) f rows k :
  (∀ a, acc_id (f a) = acc_id a) →
  get_by_id k (update_where p f rows) = (λ a, if p a then f a else a) <$> get_by_id k rows.
Proof.
  intros Hf. induction rows as [|a rows IH]; simpl; [done|].
  assert (has_id k (if p a then f a else a) = has_id k a) as ->.
  { unfold has_id. destruct (p a); by rewrite ?Hf. }
  destruct (has_id k a); [done|]. apply IH.
Qed.

Lemma status_values_id st re rs bl a : acc_id (status_values st re rs bl a) = acc_id a.
Proof. by destruct bl. Qed.

(** What an account row says about the account's availability. *)
Definition availability (a : Account) : AccountStatus * option string * option Z * option Z :=
  (acc_status a, acc_deactivation_reason a, acc_reset_at a, acc_blocked_at a).

Definition expects (a : Account) : expected :=
  {| expected_status := acc_status a; expected_deactivation_reason := acc_deactivation_reason a;
     expected_reset_at := acc_reset_at a; expected_blocked_at := Some (acc_blocked_at a) |}.

Lemma is_current_spec account_id a b :
  is_current account_id (expects a) b = true ↔ acc_id b = account_id ∧ availability b = availability a.
Proof.
  unfold is_current, has_id, availability, expects. simpl.
  rewrite !andb_true_iff, String.eqb_eq, !bool_decide_eq_true. split.
  - intros ((((-> & ->) & ->) & ->) & ->). done.
  - intros (-> & [= -> -> -> ->]). done.
Qed.

(** The conditional update is a compare-and-set on one row: it reports success
    exactly when the stored row still has the availability the caller read,
    and then that row takes the new values and no other row changes; on
    failure the table is unchanged. *)
Lemma update_status_if_current_spec account_id seen st re rs bl rows rows' ok :
  NoDup (map acc_id rows) →
  update_status_if_current account_id st re rs bl (expects seen) rows = (rows', ok) →
  map acc_id rows' = map acc_id rows ∧
  (∀ k, k ≠ account_id → get_by_id k rows' = get_by_id k rows) ∧
  match get_by_id account_id rows with
  | Some a => if decide (availability a = availability seen)
              then ok = true ∧ get_by_id account_id rows' = Some (status_values st re rs bl a)
              else ok = false ∧ rows' = rows
  | None => ok = false ∧ rows' = rows
  end.
Proof.
  intros Hnd [= <- <-]. set (p := is_current account_id (expects seen)).
  set (f := status_values st re rs bl).
  assert (∀ a, acc_id (f a) = acc_id a) as Hf by (intros; apply status_values_id).
  assert (any_where p rows = false → update_where p f rows = rows) as Hno.
  { intros Hn. unfold update_where. rewrite <- (map_id rows) at 2. apply map_ext_in. intros a Ha.
    destruct (p a) eqn:E; [|done]. exfalso. apply not_true_iff_false in Hn. apply Hn.
    apply existsb_exists. eauto. }
  split_and!.
  - by apply update_where_keys.
  - intros k Hk. rewrite get_by_id_update by done. destruct (get_by_id k rows) as [a|] eqn:E; simpl; [|done].
    destruct (p a) eqn:Ep; [|done]. apply is_current_spec in Ep as [He _].
    apply get_by_id_Some in E as [_ ?]. congruence.
  - destruct (get_by_id account_id rows) as [a|] eqn:E.
    + apply get_by_id_Some in E as HE. destruct HE as [Ha Hid]. case_decide as Hav.
      * assert (p a = true) as Hp by (by apply is_current_spec). split.
        -- apply existsb_exists. exists a. split; [by apply list_elem_of_In|done].
        -- rewrite get_by_id_update by done. rewrite E. simpl. by rewrite Hp.
      * assert (any_where p rows = false) as Hn; [|auto].
        apply not_true_iff_false. intros (b & Hb%list_elem_of_In & [Hbi Hba]%is_current_spec)%existsb_exists.
        assert (b = a) as -> by (apply (NoDup_map_eq acc_id rows); congruence). done.
    + assert (any_where p rows = false) as Hn; [|auto].
      apply not_true_iff_false. intros (b & Hb%list_elem_of_In & [Hbi _]%is_current_spec)%existsb_exists.
      apply (get_by_id_elem rows b Hnd) in Hb. congruence.
Qed.

(** *** Fresh account ids *)

(** The candidates after [k] refusals. *)
Definition candidate_at (base : string) (k : nat) : string :=
  match k with O => base | S k => duplicate_id base (Z.of_nat k + 2) end.

Lemma append_inj_l (a b c : string) : (a ++ b = a ++ c)%string → b = c.
Proof. induction a as [|x a IH]; simpl; [done|]. intros [= H]. auto. Qed.

Lemma append_length (a b : string) : String.length (a ++ b) = (String.length a + String.length b)%nat.
Proof. induction a as [|x a IH]; [done|]. simpl. by rewrite IH. Qed.

Lemma candidate_inj base i j : candidate_at base i = candidate_at base j → i = j.
Proof.
  assert (∀ k, candidate_at base (S k) ≠ base) as Hne.
  { intros k H. apply (f_equal String.length) in H. simpl in H. unfold duplicate_id, DUPLICATE_ACCOUNT_SUFFIX in H.
    rewrite !append_length in H. simpl in H. lia. }
  destruct i as [|i], j as [|j]; intros H; [done|by destruct (Hne j)|by destruct (Hne i)|].
  simpl in H. unfold duplicate_id in H. apply append_inj_l, append_inj_l in H.
  apply (inj pretty) in H. lia.
Qed.

Lemma next_available_loop_spec fuel base k rows :
  match next_available_loop fuel base (candidate_at base k) (Z.of_nat k + 2) rows with
  | Some c => get_by_id c rows = None
  | None => ∀ i, (k <= i < k + fuel)%nat → is_Some (get_by_id (candidate_at base i) rows)
  end.
Proof.
  revert k. induction fuel as [|fuel IH]; intros k; simpl; [lia|].
  destruct (get_by_id (candidate_at base k) rows) as [a|] eqn:E; [|done].
  specialize (IH (S k)). simpl (candidate_at base (S k)) in IH.
  replace (Z.of_nat (S k) + 2)%Z with (Z.of_nat k + 2 + 1)%Z in IH by lia.
  destruct (next_available_loop _ _ _ _ _); [done|]. intros i Hi.
  destruct (decide (i = k)) as [->|]; [by eexists|]. apply IH. lia.
Qed.

Lemma candidates_exhausted base rows n :
  (∀ i, (i < n)%nat → is_Some (get_by_id (candidate_at base i) rows)) → (n <= length rows)%nat.
Proof.
  intros H. rewrite <- (length_map acc_id rows).
  replace n with (length (map (candidate_at base) (seq 0 n))) by (by rewrite length_map, length_seq).
  apply submseteq_length, NoDup_submseteq.
  - apply NoDup_ListNoDup, NoDup_map_NoDup_ForallPairs; [|apply seq_NoDup].
    intros i j _ _. apply candidate_inj.
  - intros c (i & -> & Hi%elem_of_seq)%elem_of_map. destruct (H i) as [a Ha]; [lia|].
    apply get_by_id_Some in Ha as [Ha <-]. apply elem_of_map. eauto.
Qed.

(** The search for an unused id ends within one candidate per row. *)
Lemma next_available_total base rows :
  ∃ c, _next_available_account_id base rows = Some c ∧ get_by_id c rows = None.
Proof.
  unfold _next_available_account_id.
  pose proof (next_available_loop_spec (S (length rows)) base 0 rows) as H.
  simpl (candidate_at base 0) in H. simpl (Z.of_nat 0 + 2)%Z in H.
  destruct (next_available_loop _ _ _ _ _) as [c|]; [eauto|]. exfalso.
  assert (S (length rows) <= length rows)%nat; [|lia].
  apply (candidates_exhausted base). intros i Hi. apply H. lia.
Qed.

(** *** Importing an account *)

Lemma get_by_id_None_fresh rows k : get_by_id k rows = None ↔ k ∉ map acc_id rows.
Proof.
  split.
  - intros H (a & -> & Ha)%elem_of_map. apply (find_None_elem _ _ a) in H; [|done].
    unfold has_id in H. by rewrite String.eqb_refl in H.
  - intros H. destruct (get_by_id k rows) as [a|] eqn:E; [|done].
    apply get_by_id_Some in E as [Ha <-]. destruct H. apply elem_of_map. eauto.
Qed.

Lemma merge_into_spec target source rows t :
  get_by_id target rows = Some t →
  merge_into target source rows =
    (update_where (has_id target) (_apply_account_updates source) rows,
     Some (_apply_account_updates source t)).
Proof.
  intros Ht. unfold merge_into. rewrite get_by_id_update by done. rewrite Ht. simpl.
  apply get_by_id_Some in Ht as [_ <-]. unfold has_id. by rewrite String.eqb_refl.
Qed.

Lemma single_account_spec mail rows :
  match _single_account_by_email mail rows with
  | Ok None => ∀ a, a ∈ rows → email a ≠ mail
  | Ok (Some t) => t ∈ rows ∧ email t = mail ∧ ∀ a, a ∈ rows → email a = mail → a = t
  | Err _ => (2 <= length (List.filter (λ a, String.eqb (email a) mail) rows))%nat
  end.
Proof.
  unfold _single_account_by_email. set (P := λ a, String.eqb (email a) mail).
  pose proof (order_by_perm (then_by (asc acc_created_at) (asc acc_id)) (List.filter P rows)) as Hp.
  set (l := order_by _ _) in *.
  assert (∀ a, a ∈ l ↔ a ∈ rows ∧ email a = mail) as Hl.
  { intros a. rewrite Hp, elem_of_filter_bool. unfold P. by rewrite String.eqb_eq. }
  destruct l as [|a [|b l]]; simpl.
  - intros a Ha Hm. assert (a ∈ []) by (by apply Hl). set_solver.
  - destruct (proj1 (Hl a) ltac:(set_solver)) as [Ha Hm]. split_and!; [done..|].
    intros b Hb Hbm. assert (b ∈ [a]) by (by apply Hl). set_solver.
  - rewrite <- Hp. simpl. lia.
Qed.

Definition merging (settings merge : option bool) : bool :=
  match merge with None => _merge_by_email_enabled settings | Some b => b end.

(** Importing an account always ends, keeps the ids of the table distinct and
    never touches another account: merging updates the row with the imported
    id, or else the only row with the imported email, keeping its id and its
    creation time, and is refused when several rows share that email; without
    merging the table grows by one row, whose id is new even when the imported
    id is taken. *)
Theorem upsert_spec settings merge account rows (Hids : NoDup (map acc_id rows)) :
  match upsert settings merge account rows with
  | Ok (rows', Some result) =>
      NoDup (map acc_id rows') ∧ get_by_id (acc_id result) rows' = Some result ∧
      email result = email account ∧
      (∀ k, k ≠ acc_id result → get_by_id k rows' = get_by_id k rows) ∧
      (if merging settings merge
       then result = account ∨
            ∃ t, get_by_id (acc_id result) rows = Some t ∧ result = _apply_account_updates account t
       else rows' = rows ++ [result] ∧ get_by_id (acc_id result) rows = None)
  | Ok (_, None) => False
  | Err _ => merging settings merge = true ∧ get_by_id (acc_id account) rows = None ∧
             (2 <= length (List.filter (λ a, String.eqb (email a) (email account)) rows))%nat
  end.
Proof.
  assert (∀ a, get_by_id (acc_id a) rows = None →
    NoDup (map acc_id (rows ++ [a])) ∧ get_by_id (acc_id a) (rows ++ [a]) = Some a ∧
    ∀ k, k ≠ acc_id a → get_by_id k (rows ++ [a]) = get_by_id k rows) as Hadd.
  { intros a Ha. pose proof (proj1 (get_by_id_None_fresh _ _) Ha) as Hf.
    assert (NoDup (map acc_id (rows ++ [a]))) as Hnd.
    { rewrite map_app. apply NoDup_app. split_and!; [done| |repeat constructor; set_solver]. simpl. set_solver. }
    split_and!; [done|by apply get_by_id_elem; [done|set_solver]|].
    intros k Hk. unfold get_by_id. clear -Hk. induction rows as [|b rows IH]; simpl; [|by destruct (has_id k b)].
    unfold has_id. by apply not_eq_sym, String.eqb_neq in Hk as ->. }
  assert (∀ t, t ∈ rows → let r := _apply_account_updates account t in
    let rows' := update_where (has_id (acc_id t)) (_apply_account_updates account) rows in
    NoDup (map acc_id rows') ∧ get_by_id (acc_id t) rows' = Some r ∧
    ∀ k, k ≠ acc_id t → get_by_id k rows' = get_by_id k rows) as Hmerge.
  { intros t Ht r rows'. unfold rows'. rewrite update_where_keys by done. split_and!; [done|..].
    - rewrite get_by_id_update by done. rewrite (get_by_id_elem _ _ Hids Ht). simpl.
      unfold has_id. by rewrite String.eqb_refl.
    - intros k Hk. rewrite get_by_id_update by done. destruct (get_by_id k rows) as [a|] eqn:E; [|done].
      simpl. apply get_by_id_Some in E as [_ <-]. unfold has_id. by apply String.eqb_neq in Hk as ->. }
  unfold upsert. fold (merging settings merge).
  destruct (get_by_id (acc_id account) rows) as [ex|] eqn:Eid; destruct (merging settings merge) eqn:Em.
  - apply get_by_id_Some in Eid as Hex. destruct Hex as [Hex Hexid].
    rewrite (merge_into_spec _ _ _ ex) by (by rewrite Hexid). destruct (Hmerge ex Hex) as (H1 & H2 & H3).
    split_and!; [done..|]. right. exists ex. split; [exact (get_by_id_elem _ _ Hids Hex)|done].
  - destruct (next_available_total (acc_id account) rows) as (c & -> & Hc).
    set (a := account {{ acc_id := c }}). destruct (Hadd a Hc) as (H1 & H2 & H3). split_and!; done.
  - pose proof (single_account_spec (email account) rows) as Hs.
    destruct (_single_account_by_email (email account) rows) as [[t|]|e]; cbn [res_bind].
    + destruct Hs as (Ht & Hm & _). pose proof (get_by_id_elem _ _ Hids Ht) as Hg.
      rewrite (merge_into_spec _ _ _ t) by done. destruct (Hmerge t Ht) as (H1 & H2 & H3).
      split_and!; [done..|]. right. by exists t.
    + destruct (Hadd account Eid) as (H1 & H2 & H3). split_and!; try done. by left.
    + done.
  - destruct (Hadd account Eid) as (H1 & H2 & H3). split_and!; done.
Qed.

(** *** Sticky sessions *)
Import StickyRepo.

Definition sticky_ids (rows : list StickySession) : list (string * StickySessionKind) := map identifier rows.

Lemma is_row_spec key kind r : is_row key kind r = true ↔ identifier r = (key, kind).
Proof. unfold is_row, identifier. rewrite andb_true_iff, String.eqb_eq, bool_decide_eq_true. naive_solver. Qed.

Lemma find_row_app key kind rows r :
  identifier r = (key, kind) → (key, kind) ∉ sticky_ids rows →
  List.find (is_row key kind) (rows ++ [r]) = Some r.
Proof.
  intros Hr Hn. induction rows as [|s rows IH]; simpl.
  - by rewrite (proj2 (is_row_spec key kind r) Hr).
  - unfold sticky_ids in Hn. simpl in Hn. apply not_elem_of_cons in Hn as [Hs Hn].
    destruct (is_row key kind s) eqn:E; [|by apply IH]. apply is_row_spec in E. congruence.
Qed.

Lemma find_row_update key kind f rows :
  (∀ r, identifier (f r) = identifier r) →
  List.find (is_row key kind) (update_where (is_row key kind) f rows) = f <$> List.find (is_row key kind) rows.
Proof.
  intros Hf. induction rows as [|r rows IH]; simpl; [done|].
  destruct (is_row key kind r) eqn:E; [|by rewrite E].
  assert (is_row key kind (f r) = true) as ->; [|done].
  apply is_row_spec. rewrite Hf. by apply is_row_spec.
Qed.

Lemma any_row_spec key kind rows : any_where (is_row key kind) rows = true ↔ (key, kind) ∈ sticky_ids rows.
Proof.
  unfold any_where, sticky_ids. rewrite existsb_exists, elem_of_map. setoid_rewrite is_row_spec.
  setoid_rewrite <- list_elem_of_In. naive_solver.
Qed.

Lemma find_row_elem key kind rows : (key, kind) ∈ sticky_ids rows →
  ∃ r, List.find (is_row key kind) rows = Some r.
Proof.
  intros (r & Hi & Hr)%elem_of_map. destruct (List.find (is_row key kind) rows) eqn:E; [eauto|].
  apply (find_None_elem _ _ r) in E; [|done]. assert (is_row key kind r = true) by (by apply is_row_spec). congruence.
Qed.

(** The row an upsert leaves for its key. *)
Lemma upsert_find now key account_id kind rows :
  ∃ row, List.find (is_row key kind) (upsert now key account_id kind rows).1 = Some row ∧
         sticky_account_id row = account_id ∧ sticky_updated_at row = now.
Proof.
  unfold upsert. destruct (any_where (is_row key kind) rows) eqn:E; simpl.
  - apply any_row_spec, find_row_elem in E as [r Hr]. rewrite find_row_update by done. rewrite Hr. simpl. eauto.
  - rewrite find_row_app; [eauto|done|]. rewrite <- any_row_spec. by rewrite E.
Qed.

Lemma upsert_ids now key account_id kind rows :
  NoDup (sticky_ids rows) → NoDup (sticky_ids (upsert now key account_id kind rows).1).
Proof.
  intros Hnd. unfold upsert, sticky_ids. destruct (any_where (is_row key kind) rows) eqn:E; simpl.
  - by rewrite update_where_keys.
  - rewrite map_app. apply NoDup_app. split_and!; [done| |simpl; repeat constructor; set_solver].
    intros x Hx Hx'. simpl in Hx'. apply list_elem_of_singleton in Hx' as ->.
    assert ((key, kind) ∈ sticky_ids rows) as Hin by exact Hx. apply any_row_spec in Hin. congruence.
Qed.

(** A sticky mapping that was just written is returned until it is older than
    the maximum age, and from then on it is gone: the read that finds it too
    old deletes it.  Mappings under other keys or kinds are untouched. *)
Theorem sticky_mapping_lifetime now later key account_id kind max_age rows
    (Hkey : key ≠ "") :
  let rows1 := (upsert now key account_id kind rows).1 in
  let expired := match max_age with Some age => (now + seconds age <? later)%Z | None => false end in
  get_account_id later key kind max_age rows1 =
    (if expired then delete_where (is_row key kind) rows1 else rows1,
     if expired then None else Some account_id) ∧
  (expired = true → get_entry key kind (get_account_id later key kind max_age rows1).1 = None) ∧
  ∀ key' kind', (key', kind') ≠ (key, kind) → get_entry key' kind' rows1 = get_entry key' kind' rows.
Proof.
  cbv zeta. set (rows1 := (upsert now key account_id kind rows).1).
  destruct (upsert_find now key account_id kind rows) as (row & Hrow & Hacc & Hupd). fold rows1 in Hrow.
  apply String.eqb_neq in Hkey as Hk.
  set (expired := match max_age with Some age => _ | None => _ end).
  assert (get_account_id later key kind max_age rows1 =
    (if expired then delete_where (is_row key kind) rows1 else rows1,
     if expired then None else Some account_id)) as Hget.
  { unfold get_account_id, get_entry, StickyRepo.delete, expired. rewrite Hk, Hrow.
    destruct max_age as [age|]; [|by rewrite Hacc]. rewrite Hupd, Hacc.
    replace (now <? later - seconds age)%Z with (now + seconds age <? later)%Z; [by destruct (_ <? _)%Z|].
    apply Bool.eq_iff_eq_true. rewrite !Z.ltb_lt. lia. }
  rewrite Hget. split_and!; [done|..].
  - intros ->. unfold get_entry. rewrite Hk. simpl.
    destruct (List.find _ (delete_where _ _)) as [r|] eqn:E; [|done].
    apply find_Some_elem in E as [Hr Hi]. apply elem_of_filter_bool in Hr as [_ Hn]. by rewrite Hi in Hn.
  - intros key' kind' Hne. unfold get_entry, rows1, upsert. destruct (String.eqb key' ""); [done|].
    assert (∀ r, identifier r = (key, kind) → is_row key' kind' r = false) as Hd.
    { intros r Hr. apply not_true_iff_false. rewrite is_row_spec. congruence. }
    destruct (any_where (is_row key kind) rows); simpl; clear -Hd.
    + induction rows as [|r rows IH]; simpl; [done|]. destruct (is_row key kind r) eqn:E; simpl.
      * apply is_row_spec in E. rewrite !Hd by done. done.
      * by destruct (is_row key' kind' r).
    + induction rows as [|r rows IH]; simpl; [by rewrite Hd|]. by destruct (is_row key' kind' r).
Qed.

(** *** Listing and deleting *)

Lemma list_entries_page f sb sd offset limit accounts rows :
  (0 <= offset)%Z →
  list_entries f sb sd offset (Some limit) accounts rows =
  page offset limit (order_by (_build_order_by sb sd) (matching f accounts rows)).
Proof.
  intros Ho. unfold list_entries, page. destruct (0 <? offset)%Z eqn:E; [done|].
  apply Z.ltb_ge in E. assert (offset = 0)%Z as -> by lia. done.
Qed.

Lemma pages_tile {A} (limit : nat) (l : list A) n :
  (length l <= n * limit)%nat →
  concat (map (λ i, take limit (drop (i * limit) l)) (seq 0 n)) = l.
Proof.
  revert l. induction n as [|n IH]; intros l Hl; simpl.
  { destruct l; [done|simpl in Hl; lia]. }
  rewrite drop_0, <- seq_shift, map_map. rewrite <- (take_drop limit l) at 2. f_equal.
  rewrite <- (IH (drop limit l)); [|rewrite length_drop; lia]. f_equal. apply map_ext. intros i.
  by rewrite drop_drop.
Qed.

(** Listing sticky sessions page by page shows every matching entry exactly
    once, in the order asked for: the total that the listing reports is the
    number of entries, the pages concatenate to the sorted list, and the
    [has_more] flag is set exactly while an entry is left after the page. *)
Theorem sticky_listing_complete t1 t2 ttl kind stale_only aq kq sb sd limit accounts rows (n : nat)
    (Hlimit : (0 < limit)%Z) (Hkind : stale_only && StickyService.durable_kind kind = false)
    (Hn : (StickyService.total
             (StickyService.list_entries t1 t2 ttl kind stale_only aq kq sb sd 0 limit accounts rows)
           <= Z.of_nat n * limit)%Z) :
  let f := StickyService.effective_filters kind stale_only (t1 - seconds ttl) aq kq in
  let listing i := StickyService.list_entries t1 t2 ttl kind stale_only aq kq sb sd (Z.of_nat i * limit) limit
                     accounts rows in
  concat (map (λ i, StickyService.entries (listing i)) (seq 0 n)) =
    map (StickyService._to_entry t2 ttl) (order_by (_build_order_by sb sd) (matching f accounts rows)) ∧
  ∀ i, StickyService.total (listing i) = Z.of_nat (length (matching f accounts rows)) ∧
       StickyService.has_more (listing i) =
         (Z.of_nat i * limit + Z.of_nat (length (StickyService.entries (listing i)))
          <? Z.of_nat (length (matching f accounts rows)))%Z.
Proof.
  cbv zeta. unfold StickyService.list_entries in *. rewrite Hkind in *.
  cbn [StickyService.entries StickyService.total StickyService.has_more] in *.
  set (f := StickyService.effective_filters _ _ _ _ _) in *. split; [|by intros i].
  set (l := order_by _ _). unfold count_entries in Hn.
  assert (length l = length (matching f accounts rows)) as Hl by apply order_by_length.
  rewrite <- (pages_tile (Z.to_nat limit) l n) by nia. rewrite concat_map, map_map. f_equal.
  apply map_ext. intros i. rewrite list_entries_page by nia. unfold page. fold l.
  do 3 f_equal. nia.
Qed.

Definition matched (f : filters) (accounts : list Account) (r : StickySession) : bool :=
  match get_by_id (sticky_account_id r) accounts with
  | Some a => _apply_filters f (r, email a)
  | None => false
  end.

Lemma matching_rows f accounts rows :
  map fst (matching f accounts rows) = List.filter (matched f accounts) rows.
Proof.
  unfold matching, join_accounts, matched. induction rows as [|r rows IH]; simpl; [done|].
  destruct (get_by_id (sticky_account_id r) accounts) as [a|]; simpl; [|done].
  destruct (_apply_filters f (r, email a)); simpl; [f_equal|]; exact IH.
Qed.

Lemma filter_ext_elem {A} (P Q : A → bool) l :
  (∀ x, x ∈ l → P x = Q x) → List.filter P l = List.filter Q l.
Proof. intros H. apply List.filter_ext_in. intros x Hx. apply H. by apply list_elem_of_In. Qed.

Lemma delete_entries_rows targets rows :
  let hit r := negb (String.eqb (sticky_key r) "") && bool_decide (identifier r ∈ targets) in
  StickyRepo.delete_entries targets rows = (delete_where hit rows, map identifier (List.filter hit rows)).
Proof.
  cbv zeta. unfold StickyRepo.delete_entries. set (t := List.filter _ targets).
  assert (∀ r, bool_decide (identifier r ∈ t) =
    negb (String.eqb (sticky_key r) "") && bool_decide (identifier r ∈ targets)) as Ht.
  { intros r. apply Bool.eq_iff_eq_true. unfold t.
    rewrite bool_decide_eq_true, elem_of_filter_bool, andb_true_iff, bool_decide_eq_true. simpl. tauto. }
  unfold delete_where. destruct t as [|e t'] eqn:E.
  - rewrite (filter_ext_elem _ (λ _, true)), (filter_ext_elem (λ r, _ && _) (λ _, false)).
    + assert (∀ l : list StickySession, List.filter (λ _, true) l = l ∧ List.filter (λ _, false) l = []) as H.
      { induction l as [|? ? [IH1 IH2]]; simpl; [done|]. by rewrite IH1. }
      by rewrite (proj1 (H rows)), (proj2 (H rows)).
    + intros r _. rewrite <- Ht. apply bool_decide_eq_false. set_solver.
    + intros r _. rewrite <- Ht. rewrite bool_decide_false; [done|set_solver].
  - f_equal; [|f_equal]; apply filter_ext_elem; intros r _; by rewrite Ht.
Qed.

(** Deleting by filter removes exactly the entries the same filter lists, and
    reports their number. *)
Theorem delete_filtered_exact utcnow ttl kind stale_only aq kq accounts rows
    (Hids : NoDup (sticky_ids rows)) (Hkeys : ∀ r, r ∈ rows → sticky_key r ≠ "")
    (Hkind : stale_only && StickyService.durable_kind kind = false) :
  let f := StickyService.effective_filters kind stale_only (utcnow - seconds ttl) aq kq in
  StickyService.delete_filtered_entries utcnow ttl kind stale_only aq kq accounts rows =
  (delete_where (matched f accounts) rows, count_entries f accounts rows).
Proof.
  cbv zeta. unfold StickyService.delete_filtered_entries. rewrite Hkind. set (f := StickyService.effective_filters _ _ _ _ _).
  rewrite delete_entries_rows. set (hit := λ r, _ && _).
  assert (∀ r, r ∈ rows → hit r = matched f accounts r) as Hhit.
  { intros r Hr. unfold hit. apply Bool.eq_iff_eq_true.
    rewrite andb_true_iff, negb_true_iff, String.eqb_neq, bool_decide_eq_true.
    unfold list_entry_identifiers. rewrite elem_of_map. setoid_rewrite order_by_elem. split.
    - intros [_ (j & Hi & Hj)]. assert (j.1 ∈ List.filter (matched f accounts) rows) as [Hjr Hm]%elem_of_filter_bool.
      { rewrite <- matching_rows. apply elem_of_map. eauto. }
      by rewrite (NoDup_map_eq identifier rows r j.1).
    - intros Hm. split; [by apply Hkeys|]. assert (r ∈ map fst (matching f accounts rows)) as (j & -> & Hj)%elem_of_map.
      { rewrite matching_rows. by apply elem_of_filter_bool. } eauto. }
  f_equal.
  - apply filter_ext_elem. intros r Hr. by rewrite Hhit.
  - unfold count_entries. rewrite length_map. f_equal.
    rewrite (filter_ext_elem hit _ _ Hhit), <- matching_rows. apply length_map.
Qed.

(** *** The selection cache *)
Import SelectionCache.

(** A load remembers the generation it began under; the cache is used through
    these operations. *)
Inductive cache_op (D : Type) :=
  | Store (monotonic : Q) (d : D) (key : CacheKey) (began : Z)
  | Invalidate.
Arguments Store {D}. Arguments Invalidate {D}.

Definition run_op {D} (c : AccountSelectionCache (D * Z)) (op : cache_op D) : AccountSelectionCache (D * Z) :=
  match op with
  | Store t d key began => set t (d, began) key (Some began) c
  | Invalidate => invalidate c
  end.

Definition cache_current {D} (c : AccountSelectionCache (D * Z)) : Prop :=
  ∀ key e, cache c !! key = Some e → snd (data e) = generation c.

Lemma run_op_current {D} (c : AccountSelectionCache (D * Z)) op : cache_current c → cache_current (run_op c op).
Proof.
  intros Hc. destruct op as [t d key began|]; simpl.
  - unfold set. destruct (began =? generation c)%Z eqn:E; [|done]. apply Z.eqb_eq in E.
    intros k e. simpl. rewrite lookup_insert_Some. intros [[<- <-]|[_ He]]; [done|by apply (Hc k)].
  - intros k e. simpl. by rewrite lookup_empty.
Qed.

(** A hit of the selection cache is never older than the last invalidation:
    whatever loads and invalidations interleave, an entry the cache returns
    was loaded by a caller that began under the current generation, so inputs
    read before an account was marked are not served after it. *)
Theorem selection_cache_fresh {D} (ttl : Z) c0 (ops : list (cache_op D)) t key d g
    (Hnew : new ttl = Some c0)
    (Hget : get t key (fold_left run_op ops c0) = Some (d, g)) :
  g = generation (fold_left run_op ops c0).
Proof.
  assert (cache_current (fold_left run_op ops c0)) as Hc.
  { assert (cache_current c0) as H0.
    { unfold new in Hnew. destruct (ttl <? 0)%Z; [done|]. injection Hnew as <-. intros k e.
      simpl. by rewrite lookup_empty. }
    clear Hget Hnew. revert c0 H0. induction ops as [|op ops IH]; intros c0 H0; simpl; [done|].
    apply IH, run_op_current, H0. }
  unfold get in Hget. destruct (ttl_seconds _ =? 0)%Z; [done|].
  destruct (cache _ !! key) as [e|] eqn:E; [|done]. destruct (qle _ _); [done|]. injection Hget as He.
  apply Hc in E. by rewrite He in E.
Qed.

(** *** Concrete runs *)

Definition ex_acc (id mail : string) : Account :=
  {| acc_id := id; chatgpt_account_id := None; email := mail; acc_plan_type := "plus";
     access_token_encrypted := ""; refresh_token_encrypted := ""; id_token_encrypted := "";
     last_refresh := 0; acc_created_at := 0; acc_status := ACTIVE; acc_deactivation_reason := None;
     acc_reset_at := None; acc_blocked_at := None |}.

Definition ex_accs : list Account := [ex_acc "a" "a@x"; ex_acc "b" "b@x"].

Definition ex_usage (id : Z) (account : string) (at_us : Z) : UsageHistory :=
  {| uh_id := id; uh_account_id := account; uh_recorded_at := {| wall_us := at_us; utc_offset_us := None |};
     uh_window := None; uh_used_percent := 10; uh_input_tokens := None; uh_output_tokens := None;
     uh_reset_at := None; uh_window_minutes := None; Models.credits_has := None;
     Models.credits_unlimited := None; Models.credits_balance := None |}.

Lemma latest_by_account_dialects_witness :
  latest_by_account sqlite ex_accs None [ex_usage 1 "a" 5; ex_usage 2 "a" 7] !! "a" = Some (ex_usage 2 "a" 7) ∧
  latest_by_account postgresql ex_accs None [ex_usage 1 "a" 5; ex_usage 2 "a" 7] !! "a" = Some (ex_usage 2 "a" 7).
Proof.
  destruct (latest_by_account_dialects ex_accs None [ex_usage 1 "a" 5; ex_usage 2 "a" 7] "a"
    ltac:(apply NoDup_ListNoDup; repeat constructor; simpl; intuition discriminate)) as [H1 H2].
  rewrite H1, H2. split; reflexivity.
Defined.

Lemma upsert_spec_witness :
  match AccountsRepo.upsert (Some true) None (ex_acc "a" "c@x") ex_accs with
  | Ok (rows', Some r) => acc_id r = "a__copy2" ∧ NoDup (map acc_id rows')
  | _ => False
  end.
Proof.
  pose proof (upsert_spec (Some true) None (ex_acc "a" "c@x") ex_accs
    ltac:(apply NoDup_ListNoDup; repeat constructor; simpl; intuition discriminate)) as H.
  change (AccountsRepo.upsert (Some true) None (ex_acc "a" "c@x") ex_accs)
    with (Ok (E := AccountError) (ex_accs ++ [ex_acc "a__copy2" "c@x"], Some (ex_acc "a__copy2" "c@x"))) in *.
  split; [reflexivity|exact (proj1 H)].
Defined.

Definition ex_sticky (key account : string) (at_us : Z) : StickySession :=
  {| sticky_key := key; sticky_kind := PROMPT_CACHE; sticky_account_id := account;
     sticky_created_at := at_us; sticky_updated_at := at_us |}.

Definition ex_rows : list StickySession := [ex_sticky "k1" "a" 10; ex_sticky "k2" "b" 20; ex_sticky "k3" "a" 30].

Lemma sticky_mapping_lifetime_witness :
  get_account_id (seconds 1) "k1" PROMPT_CACHE (Some 60%Z) (upsert 0 "k1" "b" PROMPT_CACHE ex_rows).1 =
  ((upsert 0 "k1" "b" PROMPT_CACHE ex_rows).1, Some "b").
Proof. exact (proj1 (sticky_mapping_lifetime 0 (seconds 1) "k1" "b" PROMPT_CACHE (Some 60%Z) ex_rows ltac:(done))). Defined.

Lemma sticky_listing_complete_witness :
  concat (map (λ i, StickyService.entries (StickyService.list_entries 40 40 100 None false None None by_updated_at sort_desc
    (Z.of_nat i * 2) 2 ex_accs ex_rows)) (seq 0 2)) =
  map (StickyService._to_entry 40 100)
    [(ex_sticky "k3" "a" 30, "a@x"); (ex_sticky "k2" "b" 20, "b@x"); (ex_sticky "k1" "a" 10, "a@x")].
Proof.
  exact (proj1 (sticky_listing_complete 40 40 100 None false None None by_updated_at sort_desc 2 ex_accs ex_rows 2
    ltac:(done) eq_refl ltac:(vm_compute; discriminate))).
Defined.

Lemma delete_filtered_exact_witness :
  StickyService.delete_filtered_entries (seconds 1) 0 None true (Some "A@x") None ex_accs ex_rows =
  ([ex_sticky "k2" "b" 20], 2%Z).
Proof.
  rewrite (delete_filtered_exact (seconds 1) 0 None true (Some "A@x") None ex_accs ex_rows).
  - vm_compute. reflexivity.
  - apply NoDup_ListNoDup. repeat constructor; simpl; intuition discriminate.
  - intros r Hr. repeat (apply elem_of_cons in Hr as [->|Hr]; [discriminate|]). by apply elem_of_nil in Hr.
  - reflexivity.
Defined.

Definition ex_ops : list (cache_op nat) :=
  [Store 0 1%nat (None, None, None) 0; Invalidate; Store 1 2%nat (None, None, None) 0;
   Store 1 3%nat (None, None, None) 1].

Lemma selection_cache_fresh_witness :
  1%Z = generation (fold_left run_op ex_ops {| ttl_seconds := 5; cache := ∅; generation := 0 |}).
Proof.
  apply (selection_cache_fresh 5 _ ex_ops 2 (None, None, None) 3%nat 1 eq_refl). vm_compute. reflexivity.
Defined.

End StoreFacts.
