(* ===== verification/LoadBalancer.v ===== *)
(** The load balancer service, [src/app/modules/proxy/load_balancer.py]: the
    states it builds from accounts, usage rows and its runtime memory, the
    selection with and without stickiness, the optimistic write-back of
    account availability, and the failure and success reports.

    The objects [select_account] mutates are positions in the list of states,
    as in [Balancer]; a cloned row is its value.  Other tasks run at the
    [await]s: the points where they may change the world are functions of type
    [World → World] in the environments below.  The additional-quota registry,
    the model registry and the settings are read-only here.  The database
    calls succeed: the code has no handler for their exceptions, which leave
    the service as they are. *)

From S2P Require Import Prelude Models Usage Balancer Resilience QuotaKeys Stores.
Import Usage.PlanTypes Usage.UsageCore Usage.Quota Balancer.Logic QuotaKeys.QuotaKeys.

Module LoadBalancer.
Import ModelRegistry.

Definition MAX_SELECTION_ATTEMPTS : nat := 4.
Definition STICKY_GRACE_PERIOD_SECONDS : Q := 10.

(** [status in _RECOVERABLE_STATUSES]. *)
Definition recoverable (st : AccountStatus) : bool :=
  match st with ACTIVE | RATE_LIMITED | QUOTA_EXCEEDED => true | PAUSED | DEACTIVATED => false end.

Definition NO_PLAN_SUPPORT_FOR_MODEL : string := "no_plan_support_for_model".
Definition ADDITIONAL_QUOTA_DATA_UNAVAILABLE : string := "additional_quota_data_unavailable".
Definition NO_ADDITIONAL_QUOTA_ELIGIBLE_ACCOUNTS : string := "no_additional_quota_eligible_accounts".

Record RuntimeState := {
  rt_reset_at : option Q;
  rt_cooldown_until : option Q;
  rt_last_error_at : option Q;
  rt_last_selected_at : option Q;
  rt_error_count : Z;
  version : Z;
  rt_blocked_at : option Q;
  rt_health_tier : Z;
  drain_entered_at : option Q;
  probe_success_streak : Z;
}.

Definition new_runtime : RuntimeState :=
  {| rt_reset_at := None; rt_cooldown_until := None; rt_last_error_at := None; rt_last_selected_at := None;
     rt_error_count := 0; version := 0; rt_blocked_at := None; rt_health_tier := 0;
     drain_entered_at := None; probe_success_streak := 0 |}.

Notation runtime_map := (gmap string RuntimeState).

(** [runtime.setdefault(account_id, RuntimeState())], the value. *)
Definition runtime_of (account_id : string) (runtime : runtime_map) : RuntimeState :=
  default new_runtime (runtime !! account_id).

Record AccountSelection := {
  selected_account : option Account;
  selection_error_message : option string;
  selection_error_code : option string;
}.

Record SelectionInputs := {
  in_accounts : list Account;
  latest_primary : gmap string UsageHistory;
  latest_secondary : gmap string UsageHistory;
  runtime_accounts : option (list Account);
  in_error_message : option string;
  in_error_code : option string;
}.

Record Settings := {
  soft_drain_enabled : bool;
  drain_config : DrainConfig;
  usage_refresh_interval_seconds : Z;
  breaker_settings : CircuitBreaker.Settings;
}.

Notation usage_map := (gmap string AdditionalUsageHistory).

(** *** States of accounts *)

(** [float(x) if x else None] and [int(x) if x else None]. *)
Definition float_or_none (o : option Z) : option Q := if truthy_z o then inject_Z <$> o else None.
Definition int_or_none (o : option Q) : option Z := if truthy_q o then py_int <$> o else None.

(** Instants in microseconds; a naive value is UTC. *)
Definition instant_us (d : datetime) : Z := wall_us d - default 0%Z (utc_offset_us d).

Definition refresh_interval (s : Settings) : Z := Z.max (usage_refresh_interval_seconds s * 2) 180.

Definition _usage_entry_is_recent_enough (s : Settings) (utcnow : Z) (recorded_at : option datetime) : bool :=
  match recorded_at with
  | None => false
  | Some d => (utcnow - seconds (refresh_interval s) <=? instant_us d)%Z
  end.

Definition _usage_entry_to_window_row (entry : UsageHistory) : UsageWindowRow :=
  {| row_account_id := uh_account_id entry; row_used_percent := Some (uh_used_percent entry);
     row_reset_at := uh_reset_at entry; row_window_minutes := uh_window_minutes entry;
     row_recorded_at := Some (uh_recorded_at entry) |}.

(** The clock readings of one call of [_state_from_account], in order. *)
Record StateClock := {
  c_guard : Q;
  c_recent_us : Z;
  c_cooldown : Q;
  c_quota1 : Q; c_quota2 : Q; c_quota3 : Q;
  c_tier : Q; c_tier_again : Q;
  c_drain : Q;
}.

(** Lines 1035-1042: the row used for the weekly window. *)
Definition effective_secondary (primary_entry secondary_entry : option UsageHistory) : option UsageHistory :=
  match primary_entry with
  | Some p =>
      if should_use_weekly_primary (_usage_entry_to_window_row p) (_usage_entry_to_window_row <$> secondary_entry)
      then primary_entry else secondary_entry
  | None => secondary_entry
  end.

(** The guard of lines 1053-1064: a quota block without a marker, contradicted
    by a recent row of the next window. *)
Definition quota_block_outdated (s : Settings) (c : StateClock) (account : Account)
    (runtime_reset blocked : option Q) (secondary : option UsageHistory) : bool :=
  match runtime_reset, blocked, secondary with
  | Some r, None, Some e =>
      bool_decide (acc_status account = QUOTA_EXCEEDED) && qlt (c_guard c) r
      && _usage_entry_is_recent_enough s (c_recent_us c) (Some (uh_recorded_at e))
      && qlt (uh_used_percent e) 100
      && match uh_reset_at e with Some x => qlt r (inject_Z x) | None => false end
  | _, _, _ => false
  end.

(** Lines 1073-1081. *)
Definition cooldown_ready (c : StateClock) (account : Account) (rt : RuntimeState) (blocked : option Q) : bool :=
  if bool_decide (acc_status account = QUOTA_EXCEEDED)
  then match blocked with
       | Some b => qle (b + QUOTA_EXCEEDED_COOLDOWN_SECONDS) (c_cooldown c)
       | None => false
       end
  else match rt_cooldown_until rt, rt_blocked_at rt with
       | Some u, Some _ => qle u (c_cooldown c)
       | _, _ => false
       end.

(** [recorded_at.replace(tzinfo=utc).timestamp()]. *)
Definition recorded_epoch (e : UsageHistory) : Q := inject_Z (wall_us (uh_recorded_at e)) / 1000000.

(** Lines 1083-1093: a row of the blocked window recorded after the block. *)
Definition refreshed_since_block (account : Account) (blocked : option Q)
    (primary secondary : option UsageHistory) : bool :=
  let freshness_entry :=
    match acc_status account with
    | QUOTA_EXCEEDED => secondary
    | RATE_LIMITED => primary
    | _ => None
    end in
  match blocked, freshness_entry with
  | Some b, Some e => qlt b (recorded_epoch e)
  | _, _ => false
  end.

(** Lines 1047-1093: the reset guard that is still in force. *)
Definition effective_runtime_reset (s : Settings) (c : StateClock) (account : Account) (rt : RuntimeState)
    (blocked : option Q) (primary secondary : option UsageHistory) : option Q :=
  let db_reset_at := float_or_none (acc_reset_at account) in
  let reset := match db_reset_at with Some r => Some r | None => rt_reset_at rt end in
  let reset := if quota_block_outdated s c account reset blocked secondary then None else reset in
  if cooldown_ready c account rt blocked && refreshed_since_block account blocked primary secondary
  then None else reset.

(** [float(x) if x is not None else y]. *)
Definition effective_blocked_at (account : Account) (rt : RuntimeState) : option Q :=
  match acc_blocked_at account with Some b => Some (inject_Z b) | None => rt_blocked_at rt end.

(** Lines 1109-1142: the new health tier and what it records. *)
Definition update_tier (s : Settings) (c : StateClock) (probe : AccountState) (rt : RuntimeState)
    : Z * RuntimeState :=
  if soft_drain_enabled s then
    let new_tier := evaluate_health_tier (drain_config s) (Some (c_tier c)) (c_tier_again c)
                      (drain_entered_at rt) (probe_success_streak rt) probe in
    let rt := if (new_tier =? HEALTH_TIER_DRAINING)%Z && negb (rt_health_tier rt =? HEALTH_TIER_DRAINING)%Z
              then rt {{ drain_entered_at := Some (c_drain c); probe_success_streak := 0%Z }} else rt in
    let rt := if (new_tier =? HEALTH_TIER_HEALTHY)%Z
              then rt {{ drain_entered_at := None; probe_success_streak := 0%Z }} else rt in
    (new_tier, rt {{ rt_health_tier := new_tier }})
  else (HEALTH_TIER_HEALTHY,
        rt {{ drain_entered_at := None; probe_success_streak := 0%Z; rt_health_tier := HEALTH_TIER_HEALTHY }}).

(** The runtime entry is shared and updated in place. *)
Definition _state_from_account (s : Settings) (c : StateClock) (account : Account)
    (primary_entry secondary_entry : option UsageHistory) (rt : RuntimeState) : AccountState * RuntimeState :=
  let secondary := effective_secondary primary_entry secondary_entry in
  let secondary_used := uh_used_percent <$> secondary in
  let blocked := effective_blocked_at account rt in
  let reset := effective_runtime_reset s c account rt blocked primary_entry secondary in
  let '(status, used_percent, reset_at) :=
    apply_usage_quota (c_quota1 c) (c_quota2 c) (c_quota3 c) (acc_status account)
      (uh_used_percent <$> primary_entry) (primary_entry ≫= uh_reset_at) (primary_entry ≫= uh_window_minutes)
      reset secondary_used (secondary ≫= uh_reset_at) in
  let next_blocked_at := match status with QUOTA_EXCEEDED | RATE_LIMITED => blocked | _ => None end in
  let probe :=
    {| account_id := acc_id account; Logic.status := status; Logic.used_percent := used_percent;
       Logic.reset_at := None; blocked_at := None; cooldown_until := None;
       secondary_used_percent := secondary_used; secondary_reset_at := None;
       last_error_at := rt_last_error_at rt; last_selected_at := None;
       error_count := rt_error_count rt; deactivation_reason := None; plan_type := None;
       capacity_credits := None; health_tier := rt_health_tier rt |} in
  let '(new_tier, rt') := update_tier s c probe rt in
  ({| account_id := acc_id account; Logic.status := status; Logic.used_percent := used_percent;
      Logic.reset_at := reset_at; blocked_at := next_blocked_at; cooldown_until := rt_cooldown_until rt;
      secondary_used_percent := secondary_used; secondary_reset_at := secondary ≫= uh_reset_at;
      last_error_at := rt_last_error_at rt; last_selected_at := rt_last_selected_at rt;
      error_count := rt_error_count rt; deactivation_reason := acc_deactivation_reason account;
      plan_type := Some (acc_plan_type account);
      capacity_credits := capacity_for_plan (Some (acc_plan_type account)) "secondary";
      health_tier := new_tier |}, rt').

(** [clk i] are the readings for the [i]-th account. *)
Fixpoint build_states_from (s : Settings) (clk : nat → StateClock) (i : nat) (accounts : list Account)
    (primary secondary : gmap string UsageHistory) (runtime : runtime_map) : list AccountState * runtime_map :=
  match accounts with
  | [] => ([], runtime)
  | a :: rest =>
      let '(state, rt) :=
        _state_from_account s (clk i) a (primary !! acc_id a) (secondary !! acc_id a)
          (runtime_of (acc_id a) runtime) in
      let '(states, runtime') :=
        build_states_from s clk (S i) rest primary secondary (<[acc_id a := rt]> runtime) in
      (state :: states, runtime')
  end.

Definition account_map_of (accounts : list Account) : gmap string Account :=
  fold_left (λ m a, <[acc_id a := a]> m) accounts ∅.

Definition _build_states (s : Settings) (clk : nat → StateClock) (inputs : SelectionInputs)
    (runtime : runtime_map) : list AccountState * gmap string Account * runtime_map :=
  let '(states, runtime') :=
    build_states_from s clk 0 (in_accounts inputs) (latest_primary inputs) (latest_secondary inputs) runtime in
  (states, account_map_of (in_accounts inputs), runtime').

Definition _prune_runtime (accounts : list Account) (runtime : runtime_map) : runtime_map :=
  filter (λ e, e.1 ∈ map acc_id accounts) runtime.

(** *** Selection preferring accounts under the budget *)

(** The clock reading and the random draw of one call of [select_account]. *)
Definition Draw := (Q * Q)%type.

(** [select_account] on some of the objects: [idxs] are their positions. *)
Fixpoint write_back (idxs : list nat) (pool : list AccountState) (states : list AccountState)
    : list AccountState :=
  match idxs, pool with
  | i :: idxs, x :: pool => write_back idxs pool (<[i := x]> states)
  | _, _ => states
  end.

Definition select_among (o : SelectOpts) (now : option Q) (d : Draw) (idxs : list nat)
    (states : list AccountState) : list AccountState * res SelectError SelectionResult :=
  let '(pool, r) := select_account o now d.1 d.2 (omap (λ i, states !! i) idxs) in
  (write_back idxs pool states,
   match r with
   | Ok (Selected (k, x)) =>
       match idxs !! k with Some i => Ok (Selected (i, x)) | None => Err ValueError end
   | r => r
   end).

Definition opts (prefer_earlier : bool) (strategy : RoutingStrategy) (backoff deterministic primary_first : bool)
    : SelectOpts :=
  {| prefer_earlier_reset := prefer_earlier; routing_strategy := strategy;
     allow_backoff_fallback := backoff; Logic.deterministic_probe := deterministic;
     primary_first_usage_weighted := primary_first |}.

Definition above (o : option Q) (threshold : Q) : bool :=
  match o with Some p => qlt threshold p | None => false end.

Definition _state_above_budget_threshold (threshold : Q) (s : AccountState) : bool :=
  above (used_percent s) threshold.

Definition _state_above_sticky_budget_threshold (threshold : Q) (s : AccountState) : bool :=
  above (used_percent s) threshold || above (secondary_used_percent s) threshold.

(** Positions of the states that satisfy a predicate. *)
Definition positions (p : AccountState → bool) (states : list AccountState) : list nat :=
  List.filter (λ i, match states !! i with Some s => p s | None => false end) (seq 0 (length states)).

(** [d1] and [d2] are the draws of the first and the second call. *)
Definition _select_account_preferring_budget_safe (prefer_earlier : bool) (strategy : RoutingStrategy)
    (threshold : Q) (backoff deterministic : bool) (d1 d2 : Draw) (states : list AccountState)
    : list AccountState * res SelectError SelectionResult :=
  let all := seq 0 (length states) in
  let preferred := positions (λ s, negb (_state_above_budget_threshold threshold s)) states in
  let fallback states :=
    let primary_first :=
      match strategy with usage_weighted => negb (Nat.eqb (length states) 0) | _ => false end in
    select_among (opts prefer_earlier strategy backoff deterministic primary_first) None d2 all states in
  match preferred with
  | [] => fallback states
  | _ =>
      let '(states', r) :=
        select_among (opts prefer_earlier strategy backoff deterministic false) None d1 preferred states in
      match r with
      | Err e => (states', Err e)
      | Ok (Selected m) => (states', Ok (Selected m))
      | Ok (Unavailable msg) =>
          if Nat.eqb (length preferred) (length states) then (states', Ok (Unavailable msg))
          else fallback states'
      end
  end.

(** *** Sticky selection *)

Inductive LBError := StickyKindRequired | SelectionRaised | UsageLookupFailed.

Record StickyRequest := {
  req_key : string;
  req_kind : option StickySessionKind;
  req_reallocate : bool;
  req_max_age_seconds : option Z;
}.

Record RoutingRequest := {
  budget_threshold_pct : Q;
  prefer_earlier_reset_accounts : bool;
  req_strategy : RoutingStrategy;
}.

(** Clock readings and draws of one call of [_select_with_stickiness]: the
    lookup, the pressure check, the calls of the selector and the writes. *)
Record StickyDraws := {
  d_lookup : Z;
  d_now : Q;
  d_pinned : Draw;
  d_pool1 : Draw; d_pool2 : Draw;
  d_pinned_again : Draw;
  d_grace_now : Q; d_grace : Draw;
  d_choice1 : Draw; d_choice2 : Draw;
  d_write : Z;
}.

(** [next((state for state in states if state.account_id == wanted), None)]. *)
Definition find_state (wanted : string) (states : list AccountState) : option (nat * AccountState) :=
  list_find (λ s, account_id s = wanted) states.

Definition lift_select {A} (r : res SelectError A) : res LBError A :=
  match r with Ok a => Ok a | Err _ => Err SelectionRaised end.

Definition safe_choice (q : RoutingRequest) (deterministic : bool) (d1 d2 : Draw) (states : list AccountState) :=
  _select_account_preferring_budget_safe (prefer_earlier_reset_accounts q) (req_strategy q)
    (budget_threshold_pct q) true deterministic d1 d2 states.

(** [select_account([pinned], ..., allow_backoff_fallback=False)]. *)
Definition pinned_opts (q : RoutingRequest) : SelectOpts :=
  opts (prefer_earlier_reset_accounts q) (req_strategy q) false false false.

(** [if sticky_max_age_seconds is not None: upsert(...)]. *)
Definition refresh_mapping (k : StickyRequest) (kind : StickySessionKind) (d : StickyDraws) (pinned_id : string)
    (rows : list StickySession) : list StickySession :=
  match req_max_age_seconds k with
  | Some _ => fst (StickyRepo.upsert (d_write d) (req_key k) pinned_id kind rows)
  | None => rows
  end.

Definition budget_pressured (q : RoutingRequest) (kind : StickySessionKind) (pinned : AccountState) : bool :=
  match kind with PROMPT_CACHE | CODEX_SESSION | STICKY_THREAD => true end
  && negb (bool_decide (status pinned = RATE_LIMITED))
  && _state_above_sticky_budget_threshold (budget_threshold_pct q) pinned.

Definition rate_limit_far_away (d : StickyDraws) (kind : StickySessionKind) (pinned : AccountState) : bool :=
  bool_decide (kind = PROMPT_CACHE) && bool_decide (status pinned = RATE_LIMITED)
  && match reset_at pinned with Some r => qle 600 (r - d_now d) | None => false end.

(** The pool's best candidate is the pinned account, or is above the
    threshold by the same measure as the pinned one. *)
Definition pool_also_exhausted (q : RoutingRequest) (pinned : AccountState) (best : SelectionResult) : bool :=
  match best with
  | Unavailable _ => false
  | Selected m =>
      String.eqb (account_id (obj m)) (account_id pinned)
      || (if _state_above_budget_threshold (budget_threshold_pct q) pinned
          then _state_above_budget_threshold (budget_threshold_pct q) (obj m)
          else _state_above_sticky_budget_threshold (budget_threshold_pct q) (obj m))
  end.

(** The outcome of the phases on the pinned account: a result to return, or
    the states and the value of [reallocate_sticky] to go on with. *)
Inductive pinned_outcome := Stay (m : member) | GoOn (reallocate : bool).

Definition try_pinned (q : RoutingRequest) (d : Draw) (p : nat) (otherwise : bool) (states : list AccountState)
    : res LBError (list AccountState * pinned_outcome) :=
  let '(states', r) := select_among (pinned_opts q) None d [p] states in
  let? r := lift_select r in
  Ok (states', match r with Selected m => Stay m | Unavailable _ => GoOn otherwise end).

(** Lines 681-747. *)
Definition pinned_phase (k : StickyRequest) (q : RoutingRequest) (kind : StickySessionKind) (d : StickyDraws)
    (p : nat) (pinned : AccountState) (states : list AccountState)
    : res LBError (list AccountState * pinned_outcome) :=
  let pressured := budget_pressured q kind pinned in
  if negb (pressured || rate_limit_far_away d kind pinned)
  then try_pinned q (d_pinned d) p (req_reallocate k) states
  else if pressured then
    let '(states1, best) := safe_choice q true (d_pool1 d) (d_pool2 d) states in
    let? best := lift_select best in
    let pinned := default pinned (states1 !! p) in
    if pool_also_exhausted q pinned best
    then try_pinned q (d_pinned_again d) p true states1
    else Ok (states1, GoOn true)
  else Ok (states, GoOn true).

(** Lines 754-766: the selection on a copy of the pinned state, ten seconds
    ahead; the shared state is not written. *)
Definition grace_phase (q : RoutingRequest) (d : StickyDraws) (p : nat) (pinned : AccountState)
    (reallocate : bool) : res LBError (option member) :=
  if negb reallocate && bool_decide (status pinned = RATE_LIMITED) then
    let '(_, r) := select_account (pinned_opts q) (Some (d_grace_now d + STICKY_GRACE_PERIOD_SECONDS)%Q)
                     (d_grace d).1 (d_grace d).2 [pinned] in
    let? r := lift_select r in
    Ok (match r with Selected m => Some (p, obj m) | Unavailable _ => None end)
  else Ok None.

(** Lines 767-778: what becomes of the mapping, and whether the fallback is
    written to it. *)
Definition mapping_phase (k : StickyRequest) (kind : StickySessionKind) (pinned : AccountState)
    (reallocate : bool) (rows : list StickySession) : list StickySession * bool :=
  if reallocate then (fst (StickyRepo.delete (req_key k) kind rows), true)
  else if negb (recoverable (status pinned)) then (rows, true)
  else match req_max_age_seconds k with Some _ => (rows, false) | None => (rows, true) end.

(** Lines 785-793. *)
Definition choose_fallback (k : StickyRequest) (q : RoutingRequest) (kind : StickySessionKind) (d : StickyDraws)
    (account_map : gmap string Account) (persist_fallback : bool) (states : list AccountState)
    (rows : list StickySession)
    : res LBError (list AccountState * list StickySession * SelectionResult) :=
  let '(states', chosen) := safe_choice q false (d_choice1 d) (d_choice2 d) states in
  let? chosen := lift_select chosen in
  Ok (states',
      match chosen with
      | Selected m =>
          if persist_fallback && bool_decide (is_Some (account_map !! account_id (obj m)))
          then fst (StickyRepo.upsert (d_write d) (req_key k) (account_id (obj m)) kind rows)
          else rows
      | Unavailable _ => rows
      end, chosen).

Definition _select_with_stickiness (k : StickyRequest) (q : RoutingRequest) (d : StickyDraws)
    (account_map : gmap string Account) (states : list AccountState) (rows : list StickySession)
    : res LBError (list AccountState * list StickySession * SelectionResult) :=
  if String.eqb (req_key k) "" then
    let '(states', r) := safe_choice q false (d_choice1 d) (d_choice2 d) states in
    let? r := lift_select r in Ok (states', rows, r)
  else match req_kind k with
  | None => Err StickyKindRequired
  | Some kind =>
      let '(rows, existing) :=
        StickyRepo.get_account_id (d_lookup d) (req_key k) kind (req_max_age_seconds k) rows in
      if truthy_s existing then
        match find_state (default "" existing) states with
        | None =>
            choose_fallback k q kind d account_map true states (fst (StickyRepo.delete (req_key k) kind rows))
        | Some (p, pinned) =>
            let? phase := pinned_phase k q kind d p pinned states in
            let '(states, outcome) := phase in
            match outcome with
            | Stay m => Ok (states, refresh_mapping k kind d (account_id pinned) rows, Selected m)
            | GoOn reallocate =>
                let pinned := default pinned (states !! p) in
                let? grace := grace_phase q d p pinned reallocate in
                match grace with
                | Some m => Ok (states, refresh_mapping k kind d (account_id pinned) rows, Selected m)
                | None =>
                    let '(rows, persist_fallback) := mapping_phase k kind pinned reallocate rows in
                    choose_fallback k q kind d account_map persist_fallback states rows
                end
            end
        end
      else choose_fallback k q kind d account_map true states rows
  end.

(** *** Runtime memory and write-back *)

(** [a != b] on optional floats. *)
Definition differs (a b : option Q) : bool :=
  match a, b with
  | Some x, Some y => negb (qeq x y)
  | None, None => false
  | _, _ => true
  end.

(** [if a != b: a = b]. *)
Definition take_new (old new : option Q) : option Q := if differs old new then new else old.

(** [dirty]: something of the entry or of the account's row differs. *)
Definition sync_dirty (account : Account) (state : AccountState) (selected : bool) (rt : RuntimeState) : bool :=
  differs (rt_reset_at rt) (reset_at state) || differs (rt_cooldown_until rt) (cooldown_until state)
  || differs (rt_blocked_at rt) (blocked_at state) || differs (rt_last_error_at rt) (last_error_at state)
  || negb (rt_error_count rt =? error_count state)%Z
  || negb (bool_decide (acc_status account = status state))
  || negb (bool_decide (acc_deactivation_reason account = deactivation_reason state))
  || selected.

(** The entry after the assignments of lines 893-916. *)
Definition synced (now : Q) (account : Account) (state : AccountState) (selected : bool) (rt : RuntimeState)
    : RuntimeState :=
  {| rt_reset_at := take_new (rt_reset_at rt) (reset_at state);
     rt_cooldown_until := take_new (rt_cooldown_until rt) (cooldown_until state);
     rt_last_error_at := take_new (rt_last_error_at rt) (last_error_at state);
     rt_last_selected_at := if selected then Some now else rt_last_selected_at rt;
     rt_error_count := error_count state;
     version := if sync_dirty account state selected rt then (version rt + 1)%Z else version rt;
     rt_blocked_at := take_new (rt_blocked_at rt) (blocked_at state);
     rt_health_tier := rt_health_tier rt;
     drain_entered_at := drain_entered_at rt;
     probe_success_streak := probe_success_streak rt |}.

(** [now] is read when the account was selected.  The boolean is the result;
    a version mismatch leaves all but the selection time alone. *)
Definition _sync_runtime_state (now : Q) (account : Account) (state : AccountState) (selected : bool)
    (expected_version : option Z) (runtime : runtime_map) : runtime_map * bool :=
  let rt := runtime_of (acc_id account) runtime in
  let put rt := <[acc_id account := rt]> runtime in
  let stale := match expected_version with Some v => negb (version rt =? v)%Z | None => false end in
  if stale then
    (put (if selected then rt {{ rt_last_selected_at := Some now; version := (version rt + 1)%Z }} else rt), false)
  else (put (synced now account state selected rt), true).

(** What is written to the account's row. *)
Definition needs_write (account : Account) (state : AccountState) : bool :=
  negb (bool_decide (acc_status account = status state))
  || negb (bool_decide (acc_deactivation_reason account = deactivation_reason state))
  || negb (bool_decide (acc_reset_at account = int_or_none (reset_at state)))
  || negb (bool_decide (acc_blocked_at account = int_or_none (blocked_at state))).

(** The caller's copy of the row after a write. *)
Definition written (account : Account) (state : AccountState) : Account :=
  account {{ acc_status := status state; acc_deactivation_reason := deactivation_reason state;
             acc_reset_at := int_or_none (reset_at state); acc_blocked_at := int_or_none (blocked_at state) }}.

Definition _persist_state (account : Account) (state : AccountState) (rows : list Account)
    : list Account * Account :=
  if needs_write account state
  then (fst (AccountsRepo.update_status (acc_id account) (status state) (deactivation_reason state)
               (int_or_none (reset_at state)) (Some (int_or_none (blocked_at state))) rows),
        written account state)
  else (rows, account).

Definition _persist_state_if_current (account : Account) (state : AccountState) (rows : list Account)
    : list Account * Account * bool :=
  if needs_write account state
  then let '(rows, updated) :=
         AccountsRepo.update_status_if_current (acc_id account) (status state) (deactivation_reason state)
           (int_or_none (reset_at state)) (Some (int_or_none (blocked_at state)))
           {| AccountsRepo.expected_status := acc_status account;
              AccountsRepo.expected_deactivation_reason := acc_deactivation_reason account;
              AccountsRepo.expected_reset_at := acc_reset_at account;
              AccountsRepo.expected_blocked_at := Some (acc_blocked_at account) |} rows in
       (rows, if updated then written account state else account, updated)
  else (rows, account, true).

(** *** The world *)

Record World := {
  w_runtime : runtime_map;
  w_db : AccountsRepo.Database;
  w_cache : SelectionCache.AccountSelectionCache SelectionInputs;
  w_degradation : Degradation.DegradationManager;
  w_breakers : CircuitBreaker.registry;
}.

Definition with_accounts (rows : list Account) (w : World) : World :=
  w {{ w_db := (w_db w) {{ AccountsRepo.accounts := rows }} }}.
Definition with_sticky (rows : list StickySession) (w : World) : World :=
  w {{ w_db := (w_db w) {{ AccountsRepo.sticky_sessions := rows }} }}.
Definition set_degraded (reason : string) (w : World) : World :=
  w {{ w_degradation := Degradation.set_degraded (Some reason) (w_degradation w) }}.
Definition set_normal (w : World) : World := w {{ w_degradation := Degradation.set_normal (w_degradation w) }}.

(** [between k] is what other tasks do before the [k]-th write. *)
Fixpoint _persist_selection_state (between : nat → World → World) (k : nat) (account_map : gmap string Account)
    (states : list AccountState) (w : World) : World * list string :=
  match states with
  | [] => (w, [])
  | state :: rest =>
      match account_map !! account_id state with
      | None => _persist_selection_state between (S k) account_map rest w
      | Some account =>
          let w := between k w in
          let '(rows, account', persisted) :=
            _persist_state_if_current account state (AccountsRepo.accounts (w_db w)) in
          let '(w, stale) :=
            _persist_selection_state between (S k) (<[account_id state := account']> account_map) rest
              (with_accounts rows w) in
          (w, if persisted then stale else acc_id account :: stale)
      end
  end.

(** *** Loading the inputs *)

Section Service.
Context (settings : Settings) (maps : DefinitionMaps) (registry : ModelRegistry).

Definition _additional_usage_fresh_since (utcnow : Z) : Z := utcnow - seconds (refresh_interval settings).

Definition _additional_usage_is_exhausted (now : Q) (entry : AdditionalUsageHistory) : bool :=
  match ah_reset_at entry with
  | Some r => if (r <=? py_int now)%Z then false else qle 100 (ah_used_percent entry)
  | None => qle 100 (ah_used_percent entry)
  end.

Inductive eligibility := eligible | data_unavailable | quota_exhausted.
#[global] Instance eligibility_eq : EqDecision eligibility.
Proof. solve_decision. Defined.

(** [now1] and [now2] are read by the two exhaustion checks. *)
Definition _additional_quota_eligibility (now1 now2 : Q) (account : string)
    (latest_p latest_s fresh_p fresh_s : usage_map) : eligibility :=
  let stale (latest fresh : usage_map) :=
    bool_decide (is_Some (latest !! account)) && negb (bool_decide (is_Some (fresh !! account))) in
  let exhausted now (fresh : usage_map) :=
    match fresh !! account with Some e => _additional_usage_is_exhausted now e | None => false end in
  if negb (bool_decide (is_Some (latest_p !! account))) && negb (bool_decide (is_Some (latest_s !! account)))
  then data_unavailable
  else if stale latest_p fresh_p then data_unavailable
  else if stale latest_s fresh_s then data_unavailable
  else if exhausted now1 fresh_p then quota_exhausted
  else if exhausted now2 fresh_s then quota_exhausted
  else eligible.

Definition _latest_additional_by_key (key window : string) (account_ids : list string) (since : option Z)
    (rows : list AdditionalUsageHistory) : res LBError usage_map :=
  match canonicalize_additional_quota_key maps None (Some key) (Some key) None with
  | None => Ok ∅
  | Some resolved =>
      match AdditionalUsageRepo.latest_by_quota_key maps resolved window (Some account_ids) since rows with
      | Ok m => Ok m
      | Err _ => Err UsageLookupFailed
      end
  end.

Definition model_text (model : option string) : string := default "None" model.

(** [clk a] are the readings of the exhaustion checks for account [a]. *)
Definition _filter_accounts_for_additional_limit (utcnow : Z) (clk : string → Q * Q) (accounts : list Account)
    (model : option string) (limit : string) (rows : list AdditionalUsageHistory)
    : res LBError (list Account * option string * option string) :=
  match accounts with
  | [] => Ok ([], None, None)
  | _ =>
      let since := _additional_usage_fresh_since utcnow in
      let ids := map acc_id accounts in
      let? latest_p := _latest_additional_by_key limit "primary" ids None rows in
      let? latest_s := _latest_additional_by_key limit "secondary" ids None rows in
      let? fresh_p := _latest_additional_by_key limit "primary" ids (Some since) rows in
      let? fresh_s := _latest_additional_by_key limit "secondary" ids (Some since) rows in
      let verdict a :=
        _additional_quota_eligibility (clk (acc_id a)).1 (clk (acc_id a)).2 (acc_id a)
          latest_p latest_s fresh_p fresh_s in
      let eligible_accounts := List.filter (λ a, bool_decide (verdict a = eligible)) accounts in
      let blocked_by_data := existsb (λ a, bool_decide (verdict a = data_unavailable)) accounts in
      match eligible_accounts with
      | [] =>
          Ok ([],
              Some (if blocked_by_data then ADDITIONAL_QUOTA_DATA_UNAVAILABLE
                    else NO_ADDITIONAL_QUOTA_ELIGIBLE_ACCOUNTS),
              Some ((if blocked_by_data then "No fresh additional quota data available for model '"
                     else "No accounts with available additional quota for model '")
                    ++ model_text model ++ "'")%string)
      | _ => Ok (eligible_accounts, None, None)
      end
  end.

Definition _filter_accounts_for_model (accounts : list Account) (model : string) : list Account :=
  match plan_types_for_model registry model with
  | None => accounts
  | Some allowed_plans =>
      List.filter (λ a, account_plan_matches_allowed (Some (acc_plan_type a)) (elements allowed_plans)) accounts
  end.

Definition _selectable_accounts (accounts : list Account) : list Account :=
  List.filter (λ a, match acc_status a with DEACTIVATED | PAUSED => false | _ => true end) accounts.

Definition _gated_limit_name_for_model (model : option string) : option string :=
  get_additional_quota_key_for_model_id maps model.

Definition _mapped_model_has_registry_entry (model : option string) : bool :=
  match model, get_snapshot registry with
  | Some m, Some snapshot => bool_decide (is_Some (model_plans snapshot !! py_lower (py_strip m)))
  | _, _ => false
  end.

(** The request's routing constraints. *)
Record Constraints := {
  c_model : option string;
  c_limit_name : option string;
  c_account_ids : option (gset string);
  c_exclude : gset string;
}.

Definition cache_key (c : Constraints) : SelectionCache.CacheKey :=
  (c_model c, c_limit_name c, (λ ids, order_by (asc id) (elements ids)) <$> c_account_ids c).

Definition empty_inputs (all : list Account) (msg code : option string) : SelectionInputs :=
  {| in_accounts := []; latest_primary := ∅; latest_secondary := ∅; runtime_accounts := Some all;
     in_error_message := msg; in_error_code := code |}.

Definition scoped (c : Constraints) (accounts : list Account) : list Account :=
  match c_account_ids c with
  | None => accounts
  | Some ids => List.filter (λ a, bool_decide (acc_id a ∈ ids)) accounts
  end.

(** Clock readings of a load, what other tasks do between the reads and the
    write to the cache, and the database dialect. *)
Record LoadEnv := {
  l_get : Q;
  l_utcnow : Z;
  l_exhausted : string → Q * Q;
  l_dialect : UsageRepo.dialect;
  l_during : World → World;
  l_set : Q;
}.

(** The selectable accounts in scope, and those whose plan has the model when
    the registry knows it. *)
Definition in_scope (c : Constraints) (db : AccountsRepo.Database) : list Account :=
  scoped c (_selectable_accounts (AccountsRepo.list_accounts (AccountsRepo.accounts db))).

Definition candidates (c : Constraints) (db : AccountsRepo.Database) : list Account :=
  if truthy_s (c_model c) && _mapped_model_has_registry_entry (c_model c)
  then _filter_accounts_for_model (in_scope c db) (default "" (c_model c)) else in_scope c db.

(** The inputs read from the database (lines 412-503). *)
Definition read_inputs (e : LoadEnv) (c : Constraints) (db : AccountsRepo.Database)
    : res LBError SelectionInputs :=
  let all := AccountsRepo.list_accounts (AccountsRepo.accounts db) in
  let limit := if truthy_s (c_limit_name c) then c_limit_name c else _gated_limit_name_for_model (c_model c) in
  let pre := in_scope c db in
  let with_model := candidates c db in
  let complete accounts :=
    match accounts with
    | [] => empty_inputs all None None
    | _ =>
        {| in_accounts := accounts;
           latest_primary := UsageRepo.latest_by_account (l_dialect e) (AccountsRepo.accounts db) None
                               (AccountsRepo.usage_history db);
           latest_secondary := UsageRepo.latest_by_account (l_dialect e) (AccountsRepo.accounts db)
                                 (Some "secondary") (AccountsRepo.usage_history db);
           runtime_accounts := Some all; in_error_message := None; in_error_code := None |}
    end in
  if truthy_s (c_model c) && Nat.eqb (length with_model) 0 then
    Ok (match all, pre with
        | [], _ | _, [] => empty_inputs all None None
        | _, _ => empty_inputs all
                    (Some ("No accounts with a plan supporting model '" ++ default "" (c_model c) ++ "'")%string)
                    (Some NO_PLAN_SUPPORT_FOR_MODEL)
        end)
  else if truthy_s limit then
    let? filtered := _filter_accounts_for_additional_limit (l_utcnow e) (l_exhausted e) with_model (c_model c)
                       (default "" limit) (AccountsRepo.additional_usage_history db) in
    let '(accounts, code, msg) := filtered in
    Ok (match accounts with [] => empty_inputs all msg code | _ => complete accounts end)
  else Ok (complete with_model).

Definition _load_selection_inputs (e : LoadEnv) (c : Constraints) (w : World)
    : res LBError (World * SelectionInputs) :=
  match SelectionCache.get (l_get e) (cache_key c) (w_cache w) with
  | Some cached => Ok (w, cached)
  | None =>
      let load_generation := SelectionCache.generation (w_cache w) in
      let? inputs := read_inputs e c (w_db w) in
      let w := l_during e w in
      Ok (w {{ w_cache := SelectionCache.set (l_set e) inputs (cache_key c) (Some load_generation) (w_cache w) }},
          inputs)
  end.

(** The local [load_selection_inputs]: excluded accounts are dropped. *)
Definition load_selection_inputs (e : LoadEnv) (c : Constraints) (w : World)
    : res LBError (World * SelectionInputs) :=
  let? loaded := _load_selection_inputs e c w in
  let '(w, inputs) := loaded in
  Ok (w, if negb (bool_decide (c_exclude c = ∅)) && negb (Nat.eqb (length (in_accounts inputs)) 0)
         then inputs {{ in_accounts := List.filter (λ a, negb (bool_decide (acc_id a ∈ c_exclude c)))
                                         (in_accounts inputs) }}
         else inputs).

(** *** One attempt *)

(** The readings, draws and interference of one attempt: [a_before] runs
    before the states are written to the runtime memory, [a_between] before
    each write to the accounts table, and [a_reload] is the load that follows
    when the attempt is repeated. *)
Record AttemptEnv := {
  a_clock : nat → StateClock;
  a_draw1 : Draw; a_draw2 : Draw;
  a_sticky : StickyDraws;
  a_before : World → World;
  a_sync : nat → Q;
  a_between : nat → World → World;
  a_after : World → World;
  a_reload : LoadEnv;
}.

(** The loop that syncs every state; [selected_id] is the chosen account. *)
Fixpoint sync_states (now : nat → Q) (i : nat) (selected_id : option string) (account_map : gmap string Account)
    (states : list AccountState) (runtime : runtime_map) : runtime_map :=
  match states with
  | [] => runtime
  | state :: rest =>
      let runtime :=
        match account_map !! account_id state with
        | None => runtime
        | Some account =>
            fst (_sync_runtime_state (now i) account state
                   (bool_decide (selected_id = Some (account_id state))) None runtime)
        end in
      sync_states now (S i) selected_id account_map rest runtime
  end.

Definition selected_id (r : SelectionResult) : option string :=
  match r with Selected m => Some (account_id (obj m)) | Unavailable _ => None end.

Definition result_message (r : SelectionResult) : option string :=
  match r with Selected _ => None | Unavailable msg => Some msg end.

(** The status and reason of the result are copied to the state of the chosen
    account. *)
Definition copy_result (chosen : AccountState) (states : list AccountState) : list AccountState :=
  match find_state (account_id chosen) states with
  | None => states
  | Some (i, s) =>
      <[i := s {{ status := status chosen; deactivation_reason := deactivation_reason chosen }}]> states
  end.

(** The account handed to the caller, and the states to write back. *)
Definition take_selection (account_map : gmap string Account) (r : SelectionResult) (states : list AccountState)
    : option Account * list AccountState :=
  match r with
  | Unavailable _ => (None, states)
  | Selected m =>
      let chosen := obj m in
      match account_map !! account_id chosen with
      | None => (None, states)
      | Some selected =>
          let reset := match find_state (account_id chosen) states with
                       | Some (_, s) => int_or_none (reset_at s)
                       | None => acc_reset_at selected
                       end in
          (Some (selected {{ acc_status := status chosen; acc_deactivation_reason := deactivation_reason chosen;
                             acc_reset_at := reset }}),
           copy_result chosen states)
      end
  end.

(** The fields compared before and after the write-back. *)
Definition recovery_view (rt : RuntimeState) : option Q * option Q * Z * option Q :=
  (rt_reset_at rt, rt_cooldown_until rt, rt_error_count rt, rt_last_error_at rt).

Definition view_differs (before after : option Q * option Q * Z * option Q) : bool :=
  let '(r, c, n, e) := before in
  let '(r', c', n', e') := after in
  differs r' r || differs c' c || negb (n' =? n)%Z || differs e' e.

Definition runtime_recovered (before after : runtime_map) : bool :=
  existsb (λ e, view_differs (recovery_view e.2) (recovery_view (runtime_of e.1 after))) (map_to_list before).

(** What an attempt ends in: a result, or another attempt on fresh inputs. *)
Inductive attempt_end := Finish (snapshot : option Account) (error_message : option string) | Again.

Definition runtime_pool (inputs : SelectionInputs) : list Account :=
  match runtime_accounts inputs with
  | Some (a :: l) => a :: l
  | _ => in_accounts inputs
  end.

Definition NO_AVAILABLE : string := "No available accounts".

(** The shared part: write the states to the runtime memory and then to the
    accounts table. *)
Definition settle (e : AttemptEnv) (account_map : gmap string Account) (r : SelectionResult)
    (states : list AccountState) (w : World) : World * runtime_map * Z * option Account * list string :=
  let w := a_before e w in
  let w := w {{ w_runtime := sync_states (a_sync e) 0 (selected_id r) account_map states (w_runtime w) }} in
  let '(snapshot, states) := take_selection account_map r states in
  let before := w_runtime w in
  let generation := SelectionCache.generation (w_cache w) in
  let '(w, stale) :=
    _persist_selection_state (a_between e) 0 account_map
      (List.filter (λ s, bool_decide (is_Some (account_map !! account_id s))) states) w in
  (a_after e w, before, generation, snapshot, stale).

Definition in_stale (snapshot : option Account) (stale : list string) : bool :=
  match snapshot with Some a => mem (acc_id a) stale | None => false end.

Definition plain_attempt (q : RoutingRequest) (e : AttemptEnv) (attempt : nat) (inputs : SelectionInputs) (w : World)
    : res LBError (World * attempt_end) :=
  let runtime := _prune_runtime (runtime_pool inputs) (w_runtime w) in
  let '(states, account_map, runtime) := _build_states settings (a_clock e) inputs runtime in
  let w := w {{ w_runtime := runtime }} in
  let '(states, r) := safe_choice q false (a_draw1 e) (a_draw2 e) states in
  let? r := lift_select r in
  let '(w, before, generation, snapshot, stale) := settle e account_map r states w in
  let last := Nat.leb MAX_SELECTION_ATTEMPTS attempt in
  let is_none := match snapshot with None => true | Some _ => false end in
  let error_message := if is_none then result_message r else None in
  Ok (w,
    if in_stale snapshot stale then (if last then Finish None None else Again)
    else if negb is_none && negb (SelectionCache.generation (w_cache w) =? generation)%Z && negb last then Again
    else if is_none && bool_decide (error_message = Some NO_AVAILABLE)
            && runtime_recovered before (w_runtime w) && negb last then Again
    else Finish snapshot error_message).

Definition sticky_attempt (k : StickyRequest) (q : RoutingRequest) (e : AttemptEnv) (attempt : nat)
    (inputs : SelectionInputs) (w : World) : res LBError (World * attempt_end) :=
  let runtime := _prune_runtime (runtime_pool inputs) (w_runtime w) in
  let '(states, account_map, runtime) := _build_states settings (a_clock e) inputs runtime in
  let w := w {{ w_runtime := runtime }} in
  let? chosen := _select_with_stickiness k q (a_sticky e) account_map states
                   (AccountsRepo.sticky_sessions (w_db w)) in
  let '(states, rows, r) := chosen in
  let '(w, _, _, snapshot, stale) := settle e account_map r states (with_sticky rows w) in
  let last := Nat.leb MAX_SELECTION_ATTEMPTS attempt in
  let error_message := match snapshot with None => result_message r | Some _ => None end in
  Ok (w, if in_stale snapshot stale then (if last then Finish None None else Again)
         else Finish snapshot error_message).

(** *** The selection loop *)

Record SelectRequest := {
  s_constraints : Constraints;
  s_routing : RoutingRequest;
  s_sticky : option StickyRequest;
}.

Definition run_attempt (r : SelectRequest) :=
  match s_sticky r with
  | None => plain_attempt (s_routing r)
  | Some k => sticky_attempt k (s_routing r)
  end.

(** The inputs' own error ends the call at once. *)
Definition refused (inputs : SelectionInputs) : option AccountSelection :=
  match in_error_code inputs, in_accounts inputs with
  | Some code, [] => Some {| selected_account := None; selection_error_message := in_error_message inputs;
                             selection_error_code := Some code |}
  | _, _ => None
  end.

Definition _format_degraded_error_message (message : option string) (w : World) : string :=
  let reason := or_s (snd (Degradation.get_status (w_degradation w))) "upstream capacity is currently unavailable" in
  (or_s message "Upstream unavailable" ++ ". Service is operating in degraded mode: " ++ reason)%string.

(** Lines 380-392. *)
Definition conclude (snapshot : option Account) (error_message : option string) (w : World)
    : World * AccountSelection :=
  match snapshot with
  | Some a => (w, {| selected_account := Some a; selection_error_message := None; selection_error_code := None |})
  | None =>
      if bool_decide (error_message = Some NO_AVAILABLE) then
        let w := set_degraded "all upstream accounts are unavailable" w in
        (w, {| selected_account := None;
               selection_error_message := Some (_format_degraded_error_message error_message w);
               selection_error_code := None |})
      else (w, {| selected_account := None; selection_error_message := error_message;
                  selection_error_code := None |})
  end.

(** The [while True] loops; [None] is running out of fuel. *)
Fixpoint select_loop (fuel : nat) (r : SelectRequest) (env : nat → AttemptEnv) (attempt : nat)
    (inputs : SelectionInputs) (w : World) : option (res LBError (World * AccountSelection)) :=
  match fuel with
  | O => None
  | S fuel =>
      match run_attempt r (env attempt) attempt inputs w with
      | Err e => Some (Err e)
      | Ok (w, Finish snapshot error_message) => Some (Ok (conclude snapshot error_message w))
      | Ok (w, Again) =>
          match load_selection_inputs (a_reload (env attempt)) (s_constraints r) w with
          | Err e => Some (Err e)
          | Ok (w, inputs) =>
              match refused inputs with
              | Some answer => Some (Ok (w, answer))
              | None => select_loop fuel r env (S attempt) inputs w
              end
          end
      end
  end.

(** [clock] gives the readings of the breakers. *)
Definition _is_upstream_circuit_breaker_open (clock : string → Q) (w : World) : bool :=
  CircuitBreaker.circuit_breaker_enabled (breaker_settings settings)
  && CircuitBreaker.are_all_account_circuit_breakers_open clock (w_breakers w).

Definition lb_select_account (first : LoadEnv) (clock : string → Q) (env : nat → AttemptEnv) (r : SelectRequest)
    (w : World) : option (res LBError (World * AccountSelection)) :=
  match load_selection_inputs first (s_constraints r) w with
  | Err e => Some (Err e)
  | Ok (w, inputs) =>
      let w :=
        if _is_upstream_circuit_breaker_open clock w then set_degraded "upstream circuit breaker is open" w
        else match in_accounts inputs, in_error_code inputs with
             | _ :: _, _ | _, Some _ => set_normal w
             | [], None => w
             end in
      match refused inputs with
      | Some answer => Some (Ok (w, answer))
      | None => select_loop MAX_SELECTION_ATTEMPTS r env 1 inputs w
      end
  end.

(** *** Reports *)

Definition _state_for (account : Account) (runtime : runtime_map) : runtime_map * AccountState :=
  let rt := runtime_of (acc_id account) runtime in
  (<[acc_id account := rt]> runtime,
   {| account_id := acc_id account; status := acc_status account; used_percent := None;
      reset_at := rt_reset_at rt; blocked_at := effective_blocked_at account rt;
      cooldown_until := rt_cooldown_until rt; secondary_used_percent := None; secondary_reset_at := None;
      last_error_at := rt_last_error_at rt; last_selected_at := rt_last_selected_at rt;
      error_count := rt_error_count rt; deactivation_reason := acc_deactivation_reason account;
      plan_type := Some (acc_plan_type account);
      capacity_credits := capacity_for_plan (Some (acc_plan_type account)) "secondary"; health_tier := 0 |}).

(** The common body of the three failure reports; the caller's account object
    is returned as the report leaves it. *)
Definition mark (handle : AccountState → AccountState) (account : Account) (w : World) : World * Account :=
  let '(runtime, state) := _state_for account (w_runtime w) in
  let state := handle state in
  let runtime := fst (_sync_runtime_state 0 account state false None runtime) in
  let '(rows, account) := _persist_state account state (AccountsRepo.accounts (w_db w)) in
  (with_accounts rows (w {{ w_runtime := runtime; w_cache := SelectionCache.invalidate (w_cache w) }}), account).

Definition mark_rate_limit (t1 t2 t3 t4 jitter : Q) (account : Account) (error : UpstreamError) (w : World) :=
  mark (handle_rate_limit t1 t2 t3 t4 jitter error) account w.

Definition mark_quota_exceeded (t1 t2 t3 t4 : Q) (account : Account) (error : UpstreamError) (w : World) :=
  mark (handle_quota_exceeded t1 t2 t3 t4 error) account w.

Definition mark_permanent_failure (account : Account) (error_code : string) (w : World) :=
  mark (handle_permanent_failure error_code) account w.

(** The caller's account object is not written: the check runs on a clone. *)
Definition record_errors (now : Q) (account : Account) (count : Z) (w : World) : World :=
  if (count <? 1)%Z then w
  else
    let '(runtime, state) := _state_for account (w_runtime w) in
    let state := state {{ error_count := (error_count state + count)%Z; last_error_at := Some now }} in
    let runtime := fst (_sync_runtime_state 0 account state false None runtime) in
    let rt := runtime_of (acc_id account) runtime in
    let runtime := if (rt_health_tier rt =? HEALTH_TIER_PROBING)%Z
                   then <[acc_id account := rt {{ probe_success_streak := 0%Z }}]> runtime else runtime in
    let '(rows, _, _) := _persist_state_if_current account state (AccountsRepo.accounts (w_db w)) in
    with_accounts rows (w {{ w_runtime := runtime }}).

Definition record_error (now : Q) (account : Account) (w : World) : World := record_errors now account 1 w.

Definition record_success (account : Account) (w : World) : World :=
  match w_runtime w !! acc_id account with
  | None => w
  | Some rt =>
      let rt := if (0 <? rt_error_count rt)%Z
                then rt {{ rt_error_count := 0%Z; rt_last_error_at := None; version := (version rt + 1)%Z }}
                else rt in
      let rt := if (rt_health_tier rt =? HEALTH_TIER_PROBING)%Z
                then rt {{ probe_success_streak := (probe_success_streak rt + 1)%Z; version := (version rt + 1)%Z }}
                else rt in
      w {{ w_runtime := <[acc_id account := rt]> (w_runtime w) }}
  end.

End Service.
End LoadBalancer.
