(* ===== verification/LoadBalancerFacts.v ===== *)
(** What the load balancer service guarantees: every selection ends within
    four attempts and without an internal error; the account it returns
    satisfies the request's constraints; sticky mappings follow their policy;
    availability is written back without lost updates; failure reports take
    effect at the next selection; and the runtime memory stays well formed. *)

From S2P Require Import Prelude Models Usage Balancer Resilience QuotaKeys Stores LoadBalancer.
Import Usage.PlanTypes Usage.UsageCore Usage.Quota Balancer.Retry Balancer.Logic Balancer.BalancerFacts.
Import QuotaKeys.QuotaKeys QuotaKeys.ModelRegistry LoadBalancer.LoadBalancer.

Module LoadBalancerFacts.

(** ** How selection changes the shared states *)

(** A state only recovers: it keeps its identity and the fields selection does
    not own, a paused or deactivated account is left as it is, and a status
    changes only to active. *)
Definition evolves (s s' : AccountState) : Prop :=
  s' = s {{ status := status s'; used_percent := used_percent s'; reset_at := reset_at s';
            cooldown_until := cooldown_until s'; last_error_at := last_error_at s';
            error_count := error_count s' }} ∧
  (status s = PAUSED ∨ status s = DEACTIVATED → s' = s) ∧
  (status s' = status s ∨ status s' = ACTIVE) ∧
  (error_count s' = error_count s ∨ error_count s' = 0%Z).

#[global] Instance evolves_refl : Reflexive evolves.
Proof. intros s. split_and!; [by destruct s|done|by left|by left]. Qed.

#[global] Instance evolves_trans : Transitive evolves.
Proof.
  intros s1 s2 s3 (H1 & H2 & H3 & H4) (G1 & G2 & G3 & G4). split_and!.
  - rewrite G1, H1. by destruct s1.
  - intros Hs. pose proof (H2 Hs) as ->. by apply G2.
  - destruct G3 as [->|]; [|by right]. done.
  - destruct G4 as [->|]; [|by right]. done.
Qed.

Lemma classify_evolves current s : evolves s (fst (classify current s)).
Proof.
  destruct (classify_frame current s _ eq_refl) as (H1 & H2 & _ & _ & H5).
  set (s' := fst _) in *. unfold recovered in H2. split_and!; [done|..|done].
  - intros [Hs|Hs]; by rewrite Hs in H2.
  - destruct (status s) eqn:E; [right; by apply H2|..]; [destruct H2 as [(_ & H2 & _)|[_ H2]]..| |];
      first [by right | left; rewrite H2; exact E].
Qed.

(** [select_account] on chosen positions rewrites those positions only. *)
Definition touch (f : AccountState → AccountState) (idxs : list nat) (states : list AccountState)
    : list AccountState := imap (λ i s, if decide (i ∈ idxs) then f s else s) states.

Lemma touch_lookup f idxs states i :
  touch f idxs states !! i = (λ s, if decide (i ∈ idxs) then f s else s) <$> states !! i.
Proof. unfold touch. by rewrite list_lookup_imap. Qed.

Lemma write_back_lookup (f : AccountState → AccountState) idxs (states cur : list AccountState) i :
  NoDup idxs → (∀ j, j ∈ idxs → (j < length states)%nat) → length cur = length states →
  write_back idxs (map f (omap (λ i, states !! i) idxs)) cur !! i =
  if decide (i ∈ idxs) then f <$> states !! i else cur !! i.
Proof.
  revert cur. induction idxs as [|j idxs IH]; intros cur Hnd Hr Hl; [done|].
  apply NoDup_cons in Hnd as [Hj Hnd]. destruct (lookup_lt_is_Some_2 states j) as [s Hs]; [set_solver|].
  simpl. rewrite Hs. simpl. etransitivity.
  { apply IH; [done|set_solver|by rewrite length_insert]. }
  destruct (decide (i = j)) as [->|Hne].
  - rewrite decide_False by done. rewrite decide_True by set_solver. rewrite Hs.
    rewrite list_lookup_insert_eq; [done|]. rewrite Hl. apply Hr. set_solver.
  - rewrite list_lookup_insert_ne by done. do 2 case_decide; set_solver.
Qed.

Lemma omap_lookup_in_range {A} (l : list A) (idxs : list nat) (k : nat) :
  (∀ j, j ∈ idxs → (j < length l)%nat) → omap (λ i, l !! i) idxs !! k = idxs !! k ≫= λ i, l !! i.
Proof.
  revert k. induction idxs as [|j idxs IH]; intros k Hr; [done|].
  destruct (lookup_lt_is_Some_2 l j) as [x Hx]; [set_solver|]. simpl. rewrite Hx.
  destruct k as [|k]; simpl; [by rewrite Hx|]. apply IH. set_solver.
Qed.

(** The clock of one call. *)
Definition clock_of (now : option Q) (d : Draw) : Q := or_q now d.1.

Lemma select_among_spec o now d idxs states states' r :
  NoDup idxs → (∀ j, j ∈ idxs → (j < length states)%nat) →
  select_among o now d idxs states = (states', r) →
  states' = touch (λ s, fst (classify (clock_of now d) s)) idxs states ∧
  ((∃ i s x v, r = Ok (Selected (i, x)) ∧ i ∈ idxs ∧ states !! i = Some s ∧ states' !! i = Some x ∧
               classify (clock_of now d) s = (x, v) ∧ v ≠ Skipped) ∨
   (∃ msg, r = Ok (Unavailable msg))).
Proof.
  intros Hnd Hr H. unfold select_among in H.
  destruct (select_account o now d.1 d.2 _) as [pool r0] eqn:E. injection H as <- <-.
  pose proof (select_account_unfold _ _ _ _ _ _ _ E) as [-> Hres]. cbv zeta in *. fold (clock_of now d) in *.
  set (f := λ s, fst (classify (clock_of now d) s)).
  assert (write_back idxs (map f (omap (λ i, states !! i) idxs)) states = touch f idxs states) as Hw.
  { apply list_eq. intros i. rewrite write_back_lookup, touch_lookup by done.
    case_decide; [done|]. by destruct (states !! i). }
  split; [exact Hw|].
  destruct r0 as [[[k x]|msg]|e]; [left| |].
  - apply selected_verdict in E as (s & v & Hs & Hc & Hv).
    rewrite omap_lookup_in_range in Hs by done. destruct (idxs !! k) as [i|] eqn:Ek; [|done]. simpl in Hs.
    exists i, s, x, v. pose proof (list_elem_of_lookup_2 _ _ _ Ek) as Hi.
    split_and!; [done..| |done|done]. etransitivity; [by rewrite Hw|]. rewrite  touch_lookup, Hs. simpl.
    rewrite decide_True by done. unfold f, clock_of. by rewrite Hc.
  - right. by exists msg.
  - exfalso. destruct Hres as [(m & ? & _)|[(m & ? & _)|(msg & ? & _)]]; done.
Qed.

Lemma touch_evolves current idxs states :
  Forall2 evolves states (touch (λ s, fst (classify current s)) idxs states).
Proof.
  apply Forall2_lookup. intros i. rewrite touch_lookup. destruct (states !! i); simpl; constructor.
  case_decide; [apply classify_evolves|reflexivity].
Qed.

(** ** What the selectors pick *)

(** The values a state takes under passes of the selection loop at the given
    clock readings. *)
Inductive passes (clks : list Q) (s : AccountState) : AccountState → Prop :=
  | passes_here : passes clks s s
  | passes_next current s1 : current ∈ clks → passes clks s s1 → passes clks s (fst (classify current s1)).
#[local] Hint Constructors passes : core.

Lemma passes_trans clks s1 s2 s3 : passes clks s1 s2 → passes clks s2 s3 → passes clks s1 s3.
Proof. intros H1 H2. induction H2; eauto. Qed.

Lemma passes_sub clks clks' s s' : clks ⊆ clks' → passes clks s s' → passes clks' s s'.
Proof. intros Hs H. induction H; eauto. Qed.

Lemma passes_evolves clks s s' : passes clks s s' → evolves s s'.
Proof.
  induction 1 as [|c s1 Hc H IH]; [reflexivity|]. etransitivity; [exact IH|apply classify_evolves].
Qed.

Lemma passes_pending clks s s' c :
  passes clks s s' → (∀ t, t ∈ clks → pending (Some c) t) → cooldown_until s = Some c → cooldown_until s' = Some c.
Proof.
  intros H Hp Hc. induction H as [|t s1 Ht H IH]; [done|].
  destruct (classify_frame t s1 _ eq_refl) as (_ & _ & _ & [H1|[H1 _]] & _); [congruence|].
  exfalso. rewrite IH in H1. by apply (pending_not_passed _ _ (Hp t Ht)).
Qed.

(** The chosen object is the outcome of a pass that did not skip it. *)
Definition picks (clks : list Q) (states : list AccountState) (m : member) : Prop :=
  ∃ s s1 current v, states !! m.1 = Some s ∧ passes clks s s1 ∧ current ∈ clks ∧
    classify current s1 = (m.2, v) ∧ v ≠ Skipped.

Lemma picks_active clks states m : picks clks states m →
  status m.2 = ACTIVE ∧ ∃ s, states !! m.1 = Some s ∧ passes clks s m.2.
Proof.
  intros (s & s1 & t & v & Hs & Hp & Ht & Hc & Hv). split.
  - apply classify_spec in Hc. destruct v; [done|..]; apply Hc.
  - exists s. split; [done|]. change m.2 with (fst (m.2, v)). rewrite <- Hc. by constructor.
Qed.

Lemma picks_not_pending clks states m c s :
  picks clks states m → states !! m.1 = Some s → (∀ t, t ∈ clks → pending (Some c) t) →
  cooldown_until s ≠ Some c.
Proof.
  intros (s0 & s1 & t & v & Hs & Hp & Ht & Hc & Hv) Hs' Hpend Hcool.
  assert (s0 = s) as -> by congruence. pose proof (passes_pending _ _ _ _ Hp Hpend Hcool) as Hc1.
  assert (snd (classify t s1) = Skipped) as Hsk; [|by rewrite Hc in Hsk].
  apply classify_pending. rewrite Hc1. by apply Hpend.
Qed.

Lemma passes_refl_list clks states : Forall2 (passes clks) states states.
Proof. apply Forall2_lookup. intros i. destruct (states !! i); constructor. constructor. Qed.

Lemma passes_trans_list clks l1 l2 l3 :
  Forall2 (passes clks) l1 l2 → Forall2 (passes clks) l2 l3 → Forall2 (passes clks) l1 l3.
Proof.
  rewrite !Forall2_lookup. intros H1 H2 i. specialize (H1 i). specialize (H2 i).
  destruct H1 as [x y Hxy|]; inversion H2; subst; constructor. by eapply passes_trans.
Qed.

(** A step of the service on the states, and what it hands on. *)
Definition choice_ok (clks : list Q) (states states' : list AccountState) (r : SelectionResult) : Prop :=
  Forall2 (passes clks) states states' ∧
  match r with Selected m => picks clks states m | Unavailable _ => True end.

Lemma choice_compose clks states states1 states2 r :
  Forall2 (passes clks) states states1 → choice_ok clks states1 states2 r → choice_ok clks states states2 r.
Proof.
  intros H1 [H2 H3]. split.
  - by eapply passes_trans_list.
  - destruct r as [m|]; [|done]. destruct H3 as (s & s1 & t & v & Hs & Hp & Ht & Hc & Hv).
    destruct (Forall2_lookup_r _ _ _ _ _ H1 Hs) as (s0 & Hs0 & Hp0).
    exists s0, s1, t, v. split_and!; [done| |done..]. by eapply passes_trans.
Qed.

Lemma choice_sub clks clks' states states' r :
  clks ⊆ clks' → choice_ok clks states states' r → choice_ok clks' states states' r.
Proof.
  intros Hs [H1 H2]. split.
  - eapply Forall2_impl; [done|]. intros ??. by apply passes_sub.
  - destruct r as [m|]; [|done]. destruct H2 as (s & s1 & t & v & ?&?&?&?&?). exists s, s1, t, v.
    split_and!; eauto using passes_sub.
Qed.

Lemma select_among_ok o now d idxs states states' r :
  NoDup idxs → (∀ j, j ∈ idxs → (j < length states)%nat) →
  select_among o now d idxs states = (states', r) →
  ∃ a, r = Ok a ∧ choice_ok [clock_of now d] states states' a.
Proof.
  intros Hnd Hr H. apply select_among_spec in H as [-> Hres]; [|done..].
  assert (Forall2 (passes [clock_of now d]) states
    (touch (λ s, fst (classify (clock_of now d) s)) idxs states)) as Hp.
  { apply Forall2_lookup. intros i. rewrite touch_lookup. destruct (states !! i); simpl; constructor.
    case_decide; constructor; [set_solver|constructor]. }
  destruct Hres as [(i & s & x & v & -> & Hi & Hs & Hs' & Hc & Hv)|(msg & ->)]; eexists; (split; [done|]).
  - split; [done|]. exists s, s, (clock_of now d), v. split_and!; [done|constructor|set_solver|done..].
  - by split.
Qed.

Lemma seq_positions_ok n : NoDup (seq 0 n) ∧ ∀ j, j ∈ seq 0 n → (j < n)%nat.
Proof. split; [apply NoDup_seq|]. intros j Hj%elem_of_seq. lia. Qed.

Lemma positions_ok p states :
  NoDup (positions p states) ∧ ∀ j, j ∈ positions p states → (j < length states)%nat ∧
    ∃ s, states !! j = Some s ∧ p s = true.
Proof.
  unfold positions. split.
  - apply NoDup_ListNoDup, List.NoDup_filter, NoDup_ListNoDup, NoDup_seq.
  - intros j [Hj%elem_of_seq Hp]%elem_of_filter_bool. split; [lia|]. destruct (states !! j); eauto. done.
Qed.

Lemma safe_choice_ok q det d1 d2 states states' r :
  safe_choice q det d1 d2 states = (states', r) →
  ∃ a, r = Ok a ∧ choice_ok [d1.1; d2.1] states states' a.
Proof.
  unfold safe_choice, _select_account_preferring_budget_safe.
  set (below := λ s, negb (_state_above_budget_threshold (budget_threshold_pct q) s)).
  destruct (positions_ok below states) as [Hnd Hr]. set (pref := positions below states) in *.
  assert (∀ o sts sts' r', length sts = length states → select_among o None d2 (seq 0 (length states)) sts = (sts', r') →
    ∃ a, r' = Ok a ∧ choice_ok [d1.1; d2.1] sts sts' a) as Hall.
  { intros o sts sts' r' Hl H. destruct (seq_positions_ok (length states)) as [H1 H2].
    apply select_among_ok in H as (a & -> & Ha); [|done|by rewrite Hl]. exists a. split; [done|].
    eapply choice_sub; [|done]. simpl. set_solver. }
  assert (∀ sts sts' r', length sts = length states →
    select_among (opts (prefer_earlier_reset_accounts q) (req_strategy q) true det
      (match req_strategy q with usage_weighted => negb (Nat.eqb (length sts) 0) | _ => false end))
      None d2 (seq 0 (length states)) sts = (sts', r') →
    ∃ a, r' = Ok a ∧ choice_ok [d1.1; d2.1] sts sts' a) as Hfall by (intros; eapply Hall; eauto).
  clearbody pref. destruct pref as [|p pref'] eqn:Ep; [by apply Hfall|]. rewrite <- Ep in *.
  destruct (select_among _ None d1 pref states) as [states1 r1] eqn:E1.
  destruct (select_among_ok _ _ _ _ _ _ _ ltac:(apply Hnd) ltac:(intros j Hj; by apply Hr) E1) as (a & -> & Ha).
  pose proof (choice_sub [clock_of None d1] [d1.1; d2.1] _ _ _ ltac:(simpl; set_solver) Ha) as Ha'.
  destruct a as [m|msg]; [intros [= <- <-]; eauto|].
  destruct (Nat.eqb _ _); [intros [= <- <-]; eauto|]. intros H.
  assert (length states1 = length states) as Hl by (symmetry; eapply Forall2_length, Ha).
  apply Hfall in H as (a & -> & Hb); [|done]. exists a. split; [done|].
  eapply choice_compose; [apply Ha'|exact Hb].
Qed.

(** ** Sticky selection *)

Definition sticky_clocks (d : StickyDraws) : list Q :=
  [(d_pinned d).1; (d_pool1 d).1; (d_pool2 d).1; (d_pinned_again d).1;
   clock_of (Some (d_grace_now d + STICKY_GRACE_PERIOD_SECONDS)%Q) (d_grace d); (d_choice1 d).1; (d_choice2 d).1].

(** The account a key is mapped to. *)
Definition mapped (key : string) (kind : StickySessionKind) (rows : list StickySession) : option string :=
  sticky_account_id <$> StickyRepo.get_entry key kind rows.

(** The mapping is given up before the fallback is chosen. *)
Definition rebinds (k : StickyRequest) (q : RoutingRequest) (kind : StickySessionKind) (d : StickyDraws)
    (pinned : AccountState) : bool :=
  req_reallocate k || budget_pressured q kind pinned || rate_limit_far_away d kind pinned.

Lemma find_state_Some wanted states p s :
  find_state wanted states = Some (p, s) → states !! p = Some s ∧ account_id s = wanted.
Proof. intros (H1 & H2 & _)%list_find_Some. done. Qed.

Lemma single_position (states : list AccountState) p s :
  states !! p = Some s → NoDup [p] ∧ ∀ j, j ∈ [p] → (j < length states)%nat.
Proof.
  intros Hs%lookup_lt_Some. split; [apply NoDup_singleton|]. intros j ->%list_elem_of_singleton. done.
Qed.

Lemma choice_at_position o d p states states' a :
  NoDup [p] → (∀ j, j ∈ [p] → (j < length states)%nat) →
  select_among o None d [p] states = (states', Ok (Selected a)) → a.1 = p.
Proof.
  intros H1 H2 H. apply select_among_spec in H as [_ [(i & s & x & v & [= ->] & Hi & _)|(msg & ?)]]; [|done..].
  by apply list_elem_of_singleton in Hi.
Qed.

Lemma try_pinned_ok q d p other states s :
  states !! p = Some s →
  ∃ states' out, try_pinned q d p other states = Ok (states', out) ∧
    Forall2 (passes [d.1]) states states' ∧
    match out with Stay m => m.1 = p ∧ picks [d.1] states m | GoOn b => b = other end.
Proof.
  intros Hs. destruct (single_position _ _ _ Hs) as [H1 H2]. unfold try_pinned.
  destruct (select_among (pinned_opts q) None d [p] states) as [states' r] eqn:E.
  destruct (select_among_ok _ _ _ _ _ _ _ H1 H2 E) as (a & -> & [Ha1 Ha2]). simpl.
  eexists _, _. split; [done|]. split; [exact Ha1|]. destruct a as [m|msg]; [|done].
  split; [|exact Ha2]. by eapply choice_at_position.
Qed.

Lemma pinned_phase_ok k q kind d p pinned states :
  states !! p = Some pinned →
  ∃ states' out, pinned_phase k q kind d p pinned states = Ok (states', out) ∧
    Forall2 (passes (sticky_clocks d)) states states' ∧
    match out with
    | Stay m => m.1 = p ∧ picks (sticky_clocks d) states m
    | GoOn b => b = rebinds k q kind d pinned
    end.
Proof.
  intros Hp. unfold pinned_phase, rebinds.
  destruct (budget_pressured q kind pinned), (rate_limit_far_away d kind pinned); simpl;
    rewrite ?orb_true_r, ?orb_false_r.
  4: { destruct (try_pinned_ok q (d_pinned d) p (req_reallocate k) states _ Hp) as (st & out & -> & H1 & H2).
    eexists _, _. split; [done|].
    assert ([(d_pinned d).1] ⊆ sticky_clocks d) as Hsub by (unfold sticky_clocks; set_solver).
    split; [eapply Forall2_impl; [done|]; intros ??; by apply passes_sub|].
    destruct out as [m|b]; [|done]. destruct H2 as [H2 H3]. split; [done|].
    eapply (choice_sub _ (sticky_clocks d) states states (Selected m)); [exact Hsub|].
    split; [apply passes_refl_list|done]. }
  3: { eexists _, _. split; [done|]. split; [apply passes_refl_list|done]. }
  all: destruct (safe_choice q true (d_pool1 d) (d_pool2 d) states) as [states1 r] eqn:E;
    destruct (safe_choice_ok _ _ _ _ _ _ _ E) as (best & -> & [Hb _]); simpl;
    assert (Forall2 (passes (sticky_clocks d)) states states1) as Hb'
      by (eapply Forall2_impl; [exact Hb|]; intros ??; apply passes_sub; unfold sticky_clocks; set_solver);
    destruct (pool_also_exhausted _ _ _);
    [|eexists _, _; split; [done|]; split; [done|done]];
    destruct (Forall2_lookup_l _ _ _ _ _ Hb' Hp) as (s1 & Hs1 & _);
    destruct (try_pinned_ok q (d_pinned_again d) p true states1 _ Hs1) as (st & out & -> & H1 & H2);
    eexists _, _; (split; [done|]);
    assert ([(d_pinned_again d).1] ⊆ sticky_clocks d) as Hsub by (unfold sticky_clocks; set_solver);
    assert (Forall2 (passes (sticky_clocks d)) states1 st) as H1'
      by (eapply Forall2_impl; [exact H1|]; intros ??; by apply passes_sub);
    (split; [by eapply passes_trans_list|]); destruct out as [m|b]; [|done]; destruct H2 as [H2 H3];
    (split; [done|]);
    apply (choice_compose (sticky_clocks d) states states1 states1 (Selected m) Hb');
    (split; [apply passes_refl_list|]);
    by eapply (choice_sub _ (sticky_clocks d) states1 states1 (Selected m) Hsub (conj (passes_refl_list _ _) H3)).
Qed.

Lemma grace_phase_ok q d p pinned reallocate :
  ∃ o, grace_phase q d p pinned reallocate = Ok o ∧
    match o with
    | Some m => reallocate = false ∧ m.1 = p ∧ ∃ v,
        classify (clock_of (Some (d_grace_now d + STICKY_GRACE_PERIOD_SECONDS)%Q) (d_grace d)) pinned = (m.2, v) ∧
        v ≠ Skipped
    | None => True
    end.
Proof.
  unfold grace_phase. destruct (negb reallocate && _) eqn:E; [|by eexists].
  apply andb_true_iff in E as [Hr%negb_true_iff _].
  destruct (select_account _ _ _ _ [pinned]) as [pool r] eqn:Es.
  pose proof (select_account_unfold _ _ _ _ _ _ _ Es) as [_ Hres]. cbv zeta in Hres.
  destruct r as [[m|msg]|e]; simpl.
  - eexists. split; [done|]. split_and!; [done..|]. destruct m as [i x].
    apply selected_verdict in Es as (s & v & Hs & Hc & Hv). destruct i as [|i]; [|by destruct i].
    injection Hs as <-. by exists v.
  - by eexists.
  - exfalso. destruct Hres as [(m & ? & _)|[(m & ? & _)|(msg & ? & _)]]; done.
Qed.

(** *** Effects on the mapping *)

Lemma mapped_upsert now key account kind rows :
  key ≠ "" → mapped key kind (StickyRepo.upsert now key account kind rows).1 = Some account.
Proof.
  intros Hk%String.eqb_neq. unfold mapped, StickyRepo.get_entry. rewrite Hk.
  destruct (StoreFacts.upsert_find now key account kind rows) as (row & -> & <- & _). done.
Qed.

Lemma mapped_delete key kind rows : mapped key kind (StickyRepo.delete key kind rows).1 = None.
Proof.
  unfold mapped, StickyRepo.get_entry, StickyRepo.delete. destruct (String.eqb key ""); [done|]. simpl.
  destruct (List.find _ (delete_where _ _)) as [r|] eqn:E; [|done].
  apply find_Some_elem in E as [Hr Hi]. apply elem_of_filter_bool in Hr as [_ Hn]. by rewrite Hi in Hn.
Qed.

Lemma get_account_id_mapped t key kind age rows rows' existing :
  StickyRepo.get_account_id t key kind age rows = (rows', existing) → mapped key kind rows' = existing.
Proof.
  unfold StickyRepo.get_account_id, mapped. destruct (String.eqb key "") eqn:Ek.
  { intros [= <- <-]. unfold StickyRepo.get_entry. by rewrite Ek. }
  destruct (StickyRepo.get_entry key kind rows) as [row|] eqn:E; [|intros [= <- <-]; by rewrite E].
  destruct age as [a|]; [|intros [= <- <-]; by rewrite E].
  destruct (_ <? _)%Z; intros [= <- <-]; [|by rewrite E].
  pose proof (mapped_delete key kind rows) as H. unfold mapped in H. exact H.
Qed.

Lemma mapped_refresh k kind d pinned_id rows :
  req_key k ≠ "" → mapped (req_key k) kind rows = Some pinned_id →
  mapped (req_key k) kind (refresh_mapping k kind d pinned_id rows) = Some pinned_id.
Proof. intros Hk Hm. unfold refresh_mapping. destruct (req_max_age_seconds k); [by apply mapped_upsert|done]. Qed.

(** Rows under other identifiers. *)
Lemma other_rows_delete key kind rows key' kind' :
  (key', kind') ≠ (key, kind) →
  StickyRepo.get_entry key' kind' (StickyRepo.delete key kind rows).1 = StickyRepo.get_entry key' kind' rows.
Proof.
  intros Hne. unfold StickyRepo.get_entry, StickyRepo.delete. destruct (String.eqb key' ""); [done|].
  destruct (String.eqb key ""); [done|]. simpl.
  induction rows as [|r rows IH]; simpl; [done|]. destruct (StickyRepo.is_row key kind r) eqn:E; simpl.
  - rewrite IH. assert (StickyRepo.is_row key' kind' r = false) as ->; [|done].
    apply not_true_iff_false. rewrite StoreFacts.is_row_spec. apply StoreFacts.is_row_spec in E. congruence.
  - by destruct (StickyRepo.is_row key' kind' r).
Qed.

Lemma other_rows_upsert now key account kind rows key' kind' :
  (key', kind') ≠ (key, kind) →
  StickyRepo.get_entry key' kind' (StickyRepo.upsert now key account kind rows).1 =
  StickyRepo.get_entry key' kind' rows.
Proof.
  intros Hne. unfold StickyRepo.get_entry, StickyRepo.upsert. destruct (String.eqb key' ""); [done|].
  assert (∀ r, StickyRepo.identifier r = (key, kind) → StickyRepo.is_row key' kind' r = false) as Hd.
  { intros r Hr. apply not_true_iff_false. rewrite StoreFacts.is_row_spec. congruence. }
  destruct (any_where _ rows); simpl; clear -Hd.
  - induction rows as [|r rows IH]; simpl; [done|]. destruct (StickyRepo.is_row key kind r) eqn:E; simpl.
    + apply StoreFacts.is_row_spec in E. by rewrite !Hd.
    + by destruct (StickyRepo.is_row key' kind' r).
  - induction rows as [|r rows IH]; simpl; [by rewrite Hd|]. by destruct (StickyRepo.is_row key' kind' r).
Qed.

Lemma other_rows_lookup t key kind age rows key' kind' :
  (key', kind') ≠ (key, kind) →
  StickyRepo.get_entry key' kind' (StickyRepo.get_account_id t key kind age rows).1 =
  StickyRepo.get_entry key' kind' rows.
Proof.
  intros Hne. unfold StickyRepo.get_account_id. destruct (String.eqb key ""); [done|].
  destruct (StickyRepo.get_entry key kind rows); [|done]. destruct age; [|done].
  destruct (_ <? _)%Z; [|done]. by apply other_rows_delete.
Qed.

(** Every account of the states is in the map, as [_build_states] makes it. *)
Definition map_covers (account_map : gmap string Account) (states : list AccountState) : Prop :=
  ∀ s, s ∈ states → is_Some (account_map !! account_id s).

Lemma picks_id clks states m : picks clks states m → ∃ s, s ∈ states ∧ account_id m.2 = account_id s ∧ states !! m.1 = Some s.
Proof.
  intros [_ (s & Hs & [H _]%passes_evolves)]%picks_active. exists s.
  split; [by eapply list_elem_of_lookup_2|]. split; [|done]. by rewrite H.
Qed.

(** The mapping after the call, by what was selected. *)
Definition bound_to (key : string) (kind : StickySessionKind) (rows : list StickySession) (r : SelectionResult)
    (unchanged : option string) : Prop :=
  mapped key kind rows = match r with Selected m => Some (account_id m.2) | Unavailable _ => unchanged end.

Lemma choose_fallback_ok k q kind d account_map persist states rows :
  req_key k ≠ "" → map_covers account_map states →
  ∃ states' rows' r, choose_fallback k q kind d account_map persist states rows = Ok (states', rows', r) ∧
    choice_ok (sticky_clocks d) states states' r ∧
    (if persist then bound_to (req_key k) kind rows' r (mapped (req_key k) kind rows) else rows' = rows) ∧
    (∀ key' kind', (key', kind') ≠ (req_key k, kind) →
       StickyRepo.get_entry key' kind' rows' = StickyRepo.get_entry key' kind' rows).
Proof.
  intros Hk Hm. unfold choose_fallback.
  destruct (safe_choice q false (d_choice1 d) (d_choice2 d) states) as [states' r] eqn:E.
  destruct (safe_choice_ok _ _ _ _ _ _ _ E) as (a & -> & Ha). simpl.
  assert (choice_ok (sticky_clocks d) states states' a) as Ha'
    by (eapply choice_sub; [|exact Ha]; unfold sticky_clocks; set_solver).
  eexists _, _, _. split; [done|]. split; [exact Ha'|]. destruct a as [m|msg].
  - destruct Ha' as [_ Hp]. destruct (picks_id _ _ _ Hp) as (s & Hs & He & _).
    rewrite bool_decide_true by (unfold obj; rewrite He; by apply Hm). rewrite andb_true_r. destruct persist.
    + split; [by apply mapped_upsert|]. intros. by apply other_rows_upsert.
    + done.
  - by destruct persist.
Qed.

Lemma covers_passes clks account_map states states' :
  map_covers account_map states → Forall2 (passes clks) states states' → map_covers account_map states'.
Proof.
  intros Hm Hf s [i Hs]%list_elem_of_lookup_1.
  destruct (Forall2_lookup_r _ _ _ _ _ Hf Hs) as (s0 & Hs0 & [He _]%passes_evolves).
  rewrite He. simpl. apply Hm. by eapply list_elem_of_lookup_2.
Qed.

(** What the policy says about the mapping of a key whose pinned account is
    among the states. *)
Definition pinned_policy (k : StickyRequest) (q : RoutingRequest) (kind : StickySessionKind) (d : StickyDraws)
    (pinned : AccountState) (rows : list StickySession) (r : SelectionResult) : Prop :=
  match r with
  | Selected m =>
      mapped (req_key k) kind rows = Some (account_id m.2) ∨
      (mapped (req_key k) kind rows = Some (account_id pinned) ∧ rebinds k q kind d pinned = false ∧
       is_Some (req_max_age_seconds k))
  | Unavailable _ =>
      mapped (req_key k) kind rows = if rebinds k q kind d pinned then None else Some (account_id pinned)
  end.

Lemma stickiness_pinned k q kind d account_map p pinned states rows :
  req_key k ≠ "" → map_covers account_map states → states !! p = Some pinned →
  mapped (req_key k) kind rows = Some (account_id pinned) →
  ∃ states' rows' r,
    (let? phase := pinned_phase k q kind d p pinned states in
     let '(states, outcome) := phase in
     match outcome with
     | Stay m => Ok (states, refresh_mapping k kind d (account_id pinned) rows, Selected m)
     | GoOn reallocate =>
         let pinned := default pinned (states !! p) in
         let? grace := grace_phase q d p pinned reallocate in
         match grace with
         | Some m => Ok (states, refresh_mapping k kind d (account_id pinned) rows, Selected m)
         | None =>
             let '(rows, persist_fallback) := mapping_phase k kind pinned reallocate rows in
             choose_fallback k q kind d account_map persist_fallback states rows
         end
     end) = Ok (states', rows', r) ∧
    choice_ok (sticky_clocks d) states states' r ∧ pinned_policy k q kind d pinned rows' r ∧
    (∀ key' kind', (key', kind') ≠ (req_key k, kind) →
       StickyRepo.get_entry key' kind' rows' = StickyRepo.get_entry key' kind' rows).
Proof.
  intros Hk Hm Hp Hmap.
  assert (∀ id key' kind', (key', kind') ≠ (req_key k, kind) →
    StickyRepo.get_entry key' kind' (refresh_mapping k kind d id rows) = StickyRepo.get_entry key' kind' rows) as Hother.
  { intros id key' kind' Hne. unfold refresh_mapping. destruct (req_max_age_seconds k); [by apply other_rows_upsert|done]. }
  destruct (pinned_phase_ok k q kind d p pinned states Hp) as (states1 & out & -> & Hf & Hout). simpl.
  destruct out as [m|b].
  { destruct Hout as [Hmp Hpk]. destruct (picks_id _ _ _ Hpk) as (s & _ & He & Hs).
    assert (s = pinned) as -> by congruence.
    eexists _, _, _. split; [done|]. split; [by split|]. split; [|auto]. left. rewrite He. by apply mapped_refresh. }
  destruct (Forall2_lookup_l _ _ _ _ _ Hf Hp) as (s1 & Hs1 & Hps1). rewrite Hs1. simpl.
  assert (account_id s1 = account_id pinned) as Hid by (apply passes_evolves in Hps1 as [H _]; by rewrite H).
  destruct (grace_phase_ok q d p s1 b) as (o & -> & Ho). simpl. destruct o as [m|].
  { destruct Ho as (-> & Hmp & v & Hc & Hv). rewrite Hid.
    assert (picks (sticky_clocks d) states m) as Hpk.
    { exists pinned, s1. eexists _, v. split_and!; [by rewrite Hmp|done| |exact Hc|done].
      unfold sticky_clocks. set_solver. }
    destruct (picks_id _ _ _ Hpk) as (s & _ & He & Hs). assert (s = pinned) as -> by congruence.
    eexists _, _, _. split; [done|]. split; [by split|]. split; [|auto]. left. rewrite He. by apply mapped_refresh. }
  pose proof (covers_passes _ _ _ _ Hm Hf) as Hm1. unfold mapping_phase. subst b.
  set (b := rebinds k q kind d pinned) in *. destruct b eqn:Eb.
  - destruct (choose_fallback_ok k q kind d account_map true states1
      (StickyRepo.delete (req_key k) kind rows).1 Hk Hm1) as (st & rows' & r & -> & H1 & H2 & H3).
    eexists _, _, _. split; [done|]. split; [by eapply choice_compose|]. split.
    + unfold bound_to in H2. rewrite mapped_delete in H2. unfold pinned_policy. subst b. rewrite Eb.
      destruct r; [by left|done].
    + intros. rewrite H3 by done. by apply other_rows_delete.
  - assert (∀ persist, (persist = false → is_Some (req_max_age_seconds k)) →
      ∃ states' rows' r, choose_fallback k q kind d account_map persist states1 rows = Ok (states', rows', r) ∧
      choice_ok (sticky_clocks d) states states' r ∧ pinned_policy k q kind d pinned rows' r ∧
      (∀ key' kind', (key', kind') ≠ (req_key k, kind) →
        StickyRepo.get_entry key' kind' rows' = StickyRepo.get_entry key' kind' rows)) as Hc.
    { intros persist Hage.
      destruct (choose_fallback_ok k q kind d account_map persist states1 rows Hk Hm1)
        as (st & rows' & r & -> & H1 & H2 & H3).
      eexists _, _, _. split; [done|]. split; [by eapply choice_compose|]. split; [|done].
      unfold pinned_policy. fold b. rewrite Eb. destruct persist; [|subst rows'].
      - unfold bound_to in H2. rewrite Hmap in H2. destruct r; [by left|done].
      - destruct r; [right; auto|done]. }
    destruct (negb (recoverable (status s1))); [by apply Hc|].
    destruct (req_max_age_seconds k); [|by apply Hc]. apply Hc. eauto.
Qed.

Lemma stickiness_ok k q kind d account_map states rows :
  req_key k ≠ "" → req_kind k = Some kind → map_covers account_map states →
  ∃ states' rows' r,
    _select_with_stickiness k q d account_map states rows = Ok (states', rows', r) ∧
    choice_ok (sticky_clocks d) states states' r ∧
    (let '(rows0, existing) :=
       StickyRepo.get_account_id (d_lookup d) (req_key k) kind (req_max_age_seconds k) rows in
     match (if truthy_s existing then find_state (default "" existing) states else None) with
     | Some (_, pinned) => pinned_policy k q kind d pinned rows' r
     | None => bound_to (req_key k) kind rows' r (if truthy_s existing then None else existing)
     end) ∧
    (∀ key' kind', (key', kind') ≠ (req_key k, kind) →
       StickyRepo.get_entry key' kind' rows' = StickyRepo.get_entry key' kind' rows).
Proof.
  intros Hk Hkind Hm. unfold _select_with_stickiness. apply String.eqb_neq in Hk as Hk'. rewrite Hk', Hkind.
  pose proof (other_rows_lookup (d_lookup d) (req_key k) kind (req_max_age_seconds k) rows) as Hother.
  destruct (StickyRepo.get_account_id _ _ _ _ rows) as [rows0 existing] eqn:E. simpl in Hother.
  apply get_account_id_mapped in E as Hmap.
  destruct (truthy_s existing) eqn:Et.
  - destruct existing as [id|]; [|done]. simpl.
    destruct (find_state id states) as [[p pinned]|] eqn:Ef.
    + apply find_state_Some in Ef as [Hp <-].
      destruct (stickiness_pinned k q kind d account_map p pinned states rows0 Hk Hm Hp Hmap)
        as (st & rows' & r & Hrun & H1 & H2 & H3).
      exists st, rows', r. split; [exact Hrun|]. split; [done|]. split; [done|].
      intros. rewrite H3 by done. by apply Hother.
    + destruct (choose_fallback_ok k q kind d account_map true states
        (StickyRepo.delete (req_key k) kind rows0).1 Hk Hm) as (st & rows' & r & -> & H1 & H2 & H3).
      exists st, rows', r. split; [done|]. split; [done|]. split.
      * unfold bound_to in *. by rewrite mapped_delete in H2.
      * intros. rewrite H3 by done. rewrite other_rows_delete by done. by apply Hother.
  - destruct (choose_fallback_ok k q kind d account_map true states rows0 Hk Hm)
      as (st & rows' & r & -> & H1 & H2 & H3).
    exists st, rows', r. split; [done|]. split; [done|]. split.
    + unfold bound_to in *. by rewrite Hmap in H2.
    + intros. rewrite H3 by done. by apply Hother.
Qed.

(** *** When the pinned account serves *)















(** *** Affinity *)

Lemma select_single_available q d p states s x :
  states !! p = Some s → classify d.1 s = (x, Available) →
  ∃ states', select_among (pinned_opts q) None d [p] states = (states', Ok (Selected (p, x))).
Proof.
  intros Hs Hc. unfold select_among. simpl omap. rewrite Hs.
  destruct (select_account (pinned_opts q) None d.1 d.2 [s]) as [pool r] eqn:E.
  pose proof (select_account_unfold _ _ _ _ _ _ _ E) as [_ Hr]. cbv zeta in Hr.
  change (or_q None d.1) with d.1 in Hr.
  assert (with_verdict Available (classify_all d.1 0 [s]) = [(0%nat, x)]) as Hav.
  { simpl. rewrite Hc. done. }
  rewrite Hav in Hr. destruct Hr as [(m & -> & _ & Hm)|[(m & _ & ? & _)|(msg & _ & ? & _)]]; [|done..].
  apply choose_elem, effective_pool_sub, list_elem_of_singleton in Hm as ->. simpl. by eexists.
Qed.

(** Affinity: while the account a live mapping points to is available, under
    its budget and not rate limited far into the future, the request goes to
    that account and the mapping stays. *)
Theorem sticky_affinity k q kind d account_map states rows pinned_id p pinned x
    (Hkey : req_key k ≠ "") (Hkind : req_kind k = Some kind)
    (Hlive : (StickyRepo.get_account_id (d_lookup d) (req_key k) kind (req_max_age_seconds k) rows).2
             = Some pinned_id)
    (Hid : pinned_id ≠ "") (Hp : find_state pinned_id states = Some (p, pinned))
    (Hbudget : budget_pressured q kind pinned = false) (Hfar : rate_limit_far_away d kind pinned = false)
    (Havail : classify (d_pinned d).1 pinned = (x, Available)) :
  ∃ states' rows', _select_with_stickiness k q d account_map states rows = Ok (states', rows', Selected (p, x)) ∧
    account_id x = pinned_id ∧ mapped (req_key k) kind rows' = Some pinned_id.
Proof.
  apply find_state_Some in Hp as Hps. destruct Hps as [Hps Hpid].
  unfold _select_with_stickiness. apply String.eqb_neq in Hkey as Hk'. rewrite Hk', Hkind.
  destruct (StickyRepo.get_account_id _ _ _ _ rows) as [rows0 existing] eqn:E. simpl in Hlive. subst existing.
  apply get_account_id_mapped in E as Hmap. simpl. apply String.eqb_neq in Hid. rewrite Hid. simpl. rewrite Hp.
  unfold pinned_phase. rewrite Hbudget, Hfar. simpl. unfold try_pinned.
  destruct (select_single_available q (d_pinned d) p states pinned x Hps Havail) as (states' & ->). simpl.
  eexists _, _. split; [done|]. split.
  - pose proof (classify_evolves (d_pinned d).1 pinned) as [He _]. rewrite Havail in He. simpl in He. by rewrite He.
  - rewrite Hpid. by apply mapped_refresh.
Qed.

(** ** Building states and taking the result *)

Lemma state_from_account_id s c a pe se rt : account_id (_state_from_account s c a pe se rt).1 = acc_id a.
Proof.
  unfold _state_from_account. destruct (apply_usage_quota _ _ _ _ _ _ _ _ _ _) as [[st up] ra].
  by destruct (update_tier _ _ _ _).
Qed.

Lemma build_states_ids s clk i accounts primary secondary runtime :
  map account_id (build_states_from s clk i accounts primary secondary runtime).1 = map acc_id accounts.
Proof.
  revert i runtime. induction accounts as [|a accounts IH]; intros i runtime; simpl; [done|].
  pose proof (state_from_account_id s (clk i) a (primary !! acc_id a) (secondary !! acc_id a)
    (runtime_of (acc_id a) runtime)) as Ha.
  destruct (_state_from_account _ _ _ _ _ _) as [state rt]. simpl in Ha.
  specialize (IH (S i) (<[acc_id a := rt]> runtime)). destruct (build_states_from _ _ _ _ _ _ _) as [states rt'].
  simpl in *. by rewrite Ha, IH.
Qed.

Lemma account_map_lookup accounts (m : gmap string Account) id a :
  fold_left (λ m a, <[acc_id a := a]> m) accounts m !! id = Some a →
  (a ∈ accounts ∧ acc_id a = id) ∨ (m !! id = Some a ∧ id ∉ map acc_id accounts).
Proof.
  revert m. induction accounts as [|b accounts IH]; intros m; simpl; [right; set_solver|].
  intros [[Ha Hid]|[Hm Hn]]%IH; [left; set_solver|].
  apply lookup_insert_Some in Hm as [[<- <-]|[Hne Hm]]; [left; set_solver|right; set_solver].
Qed.

Lemma account_map_of_spec accounts id a :
  account_map_of accounts !! id = Some a → a ∈ accounts ∧ acc_id a = id.
Proof. intros [?|[? _]]%account_map_lookup; [done|]. by rewrite lookup_empty in *. Qed.

Lemma account_map_of_is_Some accounts id : id ∈ map acc_id accounts → is_Some (account_map_of accounts !! id).
Proof.
  unfold account_map_of. assert (∀ m : gmap string Account, is_Some (m !! id) ∨ id ∈ map acc_id accounts →
    is_Some (fold_left (λ m a, <[acc_id a := a]> m) accounts m !! id)) as H; [|auto].
  induction accounts as [|b accounts IH]; intros m; simpl; [set_solver|].
  intros H. apply IH. destruct (decide (acc_id b = id)) as [->|Hne].
  - left. rewrite lookup_insert_eq. eauto.
  - rewrite lookup_insert_ne by done. set_solver.
Qed.

Lemma build_states_covers s clk inputs runtime states account_map runtime' :
  _build_states s clk inputs runtime = (states, account_map, runtime') →
  map account_id states = map acc_id (in_accounts inputs) ∧ account_map = account_map_of (in_accounts inputs) ∧
  map_covers account_map states.
Proof.
  unfold _build_states. pose proof (build_states_ids s clk 0 (in_accounts inputs) (latest_primary inputs)
    (latest_secondary inputs) runtime) as Hids.
  destruct (build_states_from _ _ _ _ _ _ _) as [sts rt]. simpl in Hids. intros [= <- <- <-].
  split_and!; [done..|]. intros st Hst. apply account_map_of_is_Some. rewrite <- Hids. apply elem_of_map. eauto.
Qed.

Lemma take_selection_spec account_map r states a states' :
  take_selection account_map r states = (Some a, states') →
  ∃ m sel, r = Selected m ∧ account_map !! account_id m.2 = Some sel ∧ acc_id a = acc_id sel ∧
    acc_plan_type a = acc_plan_type sel ∧ acc_status a = status m.2 ∧
    acc_deactivation_reason a = deactivation_reason m.2.
Proof.
  unfold take_selection. destruct r as [m|]; [|done]. unfold obj.
  destruct (account_map !! account_id m.2) as [sel|] eqn:E; [|done]. intros [= <- <-]. by exists m, sel.
Qed.

(** ** Attempts *)

Section Attempts.
Context (settings : Settings) (maps : DefinitionMaps) (registry : ModelRegistry).

(** An account handed out by an attempt: one of the inputs, now active. *)
Definition from_inputs (inputs : SelectionInputs) (a : Account) : Prop :=
  ∃ sel, sel ∈ in_accounts inputs ∧ acc_id a = acc_id sel ∧ acc_plan_type a = acc_plan_type sel ∧
    acc_status a = ACTIVE.

Lemma settle_snapshot e inputs r states w w' before g snapshot stale clks states0 :
  settle e (account_map_of (in_accounts inputs)) r states w = (w', before, g, snapshot, stale) →
  choice_ok clks states0 states r →
  match snapshot with Some a => from_inputs inputs a | None => True end.
Proof.
  unfold settle. destruct (take_selection _ _ _) as [snap states1] eqn:Et.
  destruct (_persist_selection_state _ _ _ _ _) as [w1 st]. intros [= <- <- <- <- <-] [_ Hp].
  destruct snap as [a|]; [|done]. apply take_selection_spec in Et as (m & sel & -> & Hsel & H1 & H2 & H3 & _).
  apply account_map_of_spec in Hsel as [Hsel _]. exists sel. apply picks_active in Hp as [Ha _].
  by rewrite H3.
Qed.

(** What an attempt may end in. *)
Lemma attempt_ok r e attempt inputs w :
  match run_attempt settings r e attempt inputs w with
  | Err err => err = StickyKindRequired ∧ ∃ k, s_sticky r = Some k ∧ req_key k ≠ "" ∧ req_kind k = None
  | Ok (_, Again) => (attempt < MAX_SELECTION_ATTEMPTS)%nat
  | Ok (_, Finish (Some a) msg) => from_inputs inputs a ∧ msg = None
  | Ok (_, Finish None _) => True
  end.
Proof.
  unfold run_attempt. destruct (s_sticky r) as [k|].
  - unfold sticky_attempt. destruct (_build_states _ _ _ _) as [[states amap] rt] eqn:Eb.
    apply build_states_covers in Eb as (_ & -> & Hc).
    set (w1 := w {{ w_runtime := rt }}). set (rows := AccountsRepo.sticky_sessions (w_db w1)).
    assert (match _select_with_stickiness k (s_routing r) (a_sticky e) (account_map_of (in_accounts inputs)) states rows with
      | Err err => err = StickyKindRequired ∧ req_key k ≠ "" ∧ req_kind k = None
      | Ok (states', _, res) => ∃ clks, choice_ok clks states states' res end) as Hs.
    { destruct (decide (req_key k = "")) as [Hk|Hk].
      - unfold _select_with_stickiness. rewrite Hk. simpl.
        destruct (safe_choice _ _ _ _ _) as [st rr] eqn:E. destruct (safe_choice_ok _ _ _ _ _ _ _ E) as (a & -> & Ha).
        simpl. eauto.
      - destruct (req_kind k) as [kind|] eqn:Ekind.
        + destruct (stickiness_ok k (s_routing r) kind (a_sticky e) _ states rows Hk Ekind Hc)
            as (st & rows' & res & -> & H & _). eauto.
        + unfold _select_with_stickiness. apply String.eqb_neq in Hk as Hk'. by rewrite Hk', Ekind. }
    destruct (_select_with_stickiness _ _ _ _ _ _) as [[[st rows'] res]|err]; cbn [res_bind]; [|naive_solver].
    destruct Hs as [clks Hs].
    destruct (settle e _ res st _) as [[[[w2 before] g] snap] stale] eqn:Es.
    pose proof (settle_snapshot _ _ _ _ _ _ _ _ _ _ _ _ Es Hs) as Hsnap.
    destruct (in_stale snap stale).
    + destruct (Nat.leb_spec MAX_SELECTION_ATTEMPTS attempt); done.
    + destruct snap; done.
  - unfold plain_attempt. destruct (_build_states _ _ _ _) as [[states amap] rt] eqn:Eb.
    apply build_states_covers in Eb as (_ & -> & Hc).
    destruct (safe_choice _ _ _ _ _) as [st rr] eqn:E. destruct (safe_choice_ok _ _ _ _ _ _ _ E) as (res & -> & Ha).
    cbn [lift_select res_bind]. destruct (settle e _ res st _) as [[[[w2 before] g] snap] stale] eqn:Es.
    pose proof (settle_snapshot _ _ _ _ _ _ _ _ _ _ _ _ Es Ha) as Hsnap.
    destruct (in_stale snap stale).
    { destruct (Nat.leb_spec MAX_SELECTION_ATTEMPTS attempt); done. }
    destruct (Nat.leb_spec MAX_SELECTION_ATTEMPTS attempt); simpl; rewrite ?andb_false_r; [by destruct snap|].
    destruct snap as [a|]; simpl; [by destruct (_ =? _)%Z|]. by destruct (_ && _).
Qed.

(** The loop stops by its own bound. *)
Lemma select_loop_total fuel r env attempt inputs w :
  (fuel + attempt = S MAX_SELECTION_ATTEMPTS)%nat → (1 <= attempt)%nat → (1 <= fuel)%nat →
  is_Some (select_loop settings maps registry fuel r env attempt inputs w).
Proof.
  revert attempt inputs w. induction fuel as [|fuel IH]; intros attempt inputs w Hf Ha H1; [lia|].
  simpl. pose proof (attempt_ok r (env attempt) attempt inputs w) as Hok.
  destruct (run_attempt _ _ _ _ _ _) as [[w1 [snap msg|]]|err]; [eauto| |eauto].
  destruct (load_selection_inputs _ _ _ _ _ _) as [[w2 inputs2]|e2]; [|eauto].
  destruct (refused inputs2); [eauto|]. apply IH; lia.
Qed.

(** *** Loads *)

(** The registry of additional quotas was read from its file. *)
Definition loaded (maps : DefinitionMaps) : Prop :=
  ∃ data defs, _definitions_for_path data = Ok defs ∧ _definition_maps_for_path defs = Ok maps.

Lemma latest_additional_ok key window ids since rows :
  loaded maps → ∃ m, _latest_additional_by_key maps key window ids since rows = Ok m.
Proof.
  intros (data & defs & Hd & Hl). unfold _latest_additional_by_key.
  destruct (canonicalize_additional_quota_key maps None (Some key) (Some key) None) as [r|] eqn:E; [|eauto].
  apply (QuotaKeyFacts.canonicalize_again _ _ _ _ _ Hd Hl) in E as Hr.
  unfold AdditionalUsageRepo.latest_by_quota_key, AdditionalUsageRepo.latest_by_account,
    AdditionalUsageRepo._resolve_additional_quota_query_scope, get_additional_quota_query_scope.
  cbn [first_some]. rewrite Hr. destruct (get_additional_quota_definition maps (Some r)); eauto.
Qed.

Lemma filter_additional_ok utcnow clk accounts model limit rows :
  loaded maps → ∃ out, _filter_accounts_for_additional_limit settings maps utcnow clk accounts model limit rows = Ok out ∧
    ∀ a, a ∈ out.1.1 → a ∈ accounts.
Proof.
  intros Hl. unfold _filter_accounts_for_additional_limit.
  destruct accounts as [|a0 accounts']; [eexists; split; [done|]; simpl; set_solver|].
  set (accounts := a0 :: accounts').
  destruct (latest_additional_ok limit "primary" (map acc_id accounts) None rows Hl) as [m1 ->].
  destruct (latest_additional_ok limit "secondary" (map acc_id accounts) None rows Hl) as [m2 ->].
  destruct (latest_additional_ok limit "primary" (map acc_id accounts)
    (Some (_additional_usage_fresh_since settings utcnow)) rows Hl) as [m3 ->].
  destruct (latest_additional_ok limit "secondary" (map acc_id accounts)
    (Some (_additional_usage_fresh_since settings utcnow)) rows Hl) as [m4 ->].
  cbn [res_bind]. set (el := List.filter _ accounts).
  assert (∀ a, a ∈ el → a ∈ accounts) as Hel by (intros a [? _]%elem_of_filter_bool; done).
  destruct el as [|b el'] eqn:E; eexists; (split; [done|]); simpl; [set_solver|exact Hel].
Qed.

Lemma read_inputs_ok e c db :
  loaded maps → ∃ inputs, read_inputs settings maps registry e c db = Ok inputs ∧
    ∀ a, a ∈ in_accounts inputs → a ∈ candidates registry c db.
Proof.
  intros Hl. unfold read_inputs. set (all := AccountsRepo.list_accounts _). cbv zeta.
  set (pre := in_scope c db). set (wm := candidates registry c db).
  destruct (truthy_s (c_model c) && Nat.eqb (length wm) 0).
  { eexists. split; [done|]. destruct all, pre; simpl; set_solver. }
  destruct (truthy_s _).
  - destruct (filter_additional_ok (l_utcnow e) (l_exhausted e) wm (c_model c)
      (default "" (if truthy_s (c_limit_name c) then c_limit_name c else _gated_limit_name_for_model maps (c_model c)))
      (AccountsRepo.additional_usage_history db) Hl) as ([[accts code] msg] & -> & Hsub). cbn [res_bind].
    eexists. split; [done|]. destruct accts; simpl in *; [set_solver|exact Hsub].
  - eexists. split; [done|]. destruct wm; simpl; set_solver.
Qed.

Lemma load_ok e c w : loaded maps → ∃ w' inputs, load_selection_inputs settings maps registry e c w = Ok (w', inputs).
Proof.
  intros Hl. unfold load_selection_inputs, _load_selection_inputs.
  destruct (SelectionCache.get _ _ _); [cbn [res_bind]; eauto|].
  destruct (read_inputs_ok e c (w_db w) Hl) as (inputs & -> & _). cbn [res_bind]. eauto.
Qed.

Lemma filter_additional_err utcnow clk accounts model limit rows err :
  _filter_accounts_for_additional_limit settings maps utcnow clk accounts model limit rows = Err err →
  err = UsageLookupFailed.
Proof.
  assert (∀ window ids since e, _latest_additional_by_key maps limit window ids since rows = Err e →
    e = UsageLookupFailed) as Hkey.
  { intros window ids since e. unfold _latest_additional_by_key. repeat (case_match; try done). by intros [= <-]. }
  unfold _filter_accounts_for_additional_limit. destruct accounts; [done|]. cbv zeta.
  do 4 (destruct (_latest_additional_by_key _ _ _ _ _ _) eqn:E; cbn [res_bind]; [clear E|intros [= <-]; by eapply Hkey]).
  by destruct (List.filter _ _).
Qed.

(** A load fails only on a registry of additional quotas that did not come
    from a file that loads. *)
Lemma load_err e c w err : load_selection_inputs settings maps registry e c w = Err err →
  err = UsageLookupFailed ∧ ¬ loaded maps.
Proof.
  intros H. split; [|intros Hl; destruct (load_ok e c w Hl) as (? & ? & ?); congruence]. revert H.
  unfold load_selection_inputs, _load_selection_inputs. destruct (SelectionCache.get _ _ _); [done|].
  destruct (read_inputs settings maps registry e c (w_db w)) as [inputs|e'] eqn:E; [done|].
  cbn [res_bind]. intros [= <-]. unfold read_inputs in E. cbv zeta in E.
  destruct (truthy_s (c_model c) && _); [done|]. destruct (truthy_s _); [|done].
  destruct (_filter_accounts_for_additional_limit _ _ _ _ _ _ _ _) as [[[? ?] ?]|e2] eqn:Ef; [done|].
  cbn [res_bind] in E. injection E as <-. by eapply filter_additional_err.
Qed.

(** What a selection may raise. *)
Definition selection_error (r : SelectRequest) (err : LBError) : Prop :=
  (err = StickyKindRequired ∧ ∃ k, s_sticky r = Some k ∧ req_key k ≠ "" ∧ req_kind k = None) ∨
  (err = UsageLookupFailed ∧ ¬ loaded maps).

Lemma select_loop_errors fuel r env attempt inputs w err :
  select_loop settings maps registry fuel r env attempt inputs w = Some (Err err) → selection_error r err.
Proof.
  revert attempt inputs w. induction fuel as [|fuel IH]; intros attempt inputs w; simpl; [done|].
  pose proof (attempt_ok r (env attempt) attempt inputs w) as Hok.
  destruct (run_attempt _ _ _ _ _ _) as [[w1 [snap msg|]]|e]; [done| |intros [= <-]; by left].
  destruct (load_selection_inputs _ _ _ _ _ w1) as [[w2 inputs2]|e2] eqn:El.
  - destruct (refused inputs2); [done|]. apply IH.
  - intros [= <-]. right. by eapply load_err.
Qed.

End Attempts.

(** C18. Every account selection ends, within its four attempts and whatever
    other tasks do to the tables in between: the loop never runs past its
    bound.  As long as the database answers, the only error it raises is the
    one for a sticky key without a kind, or that of the usage lookup when the
    registry of additional quotas is not one a file loads to. *)
Theorem lb_selection_total settings maps registry first clock env r w :
  ∃ out, lb_select_account settings maps registry first clock env r w = Some out ∧
    ∀ err, out = Err err →
      (err = StickyKindRequired ∧ ∃ k, s_sticky r = Some k ∧ req_key k ≠ "" ∧ req_kind k = None) ∨
      (err = UsageLookupFailed ∧ ¬ loaded maps).
Proof.
  unfold lb_select_account.
  destruct (load_selection_inputs settings maps registry first (s_constraints r) w) as [[w1 inputs]|e] eqn:El.
  2: { eexists. split; [done|]. intros err [= <-]. right. by eapply load_err. }
  destruct (refused inputs); [by eexists|].
  match goal with |- context [select_loop _ _ _ _ _ _ _ _ ?w2] =>
    destruct (select_loop_total settings maps registry MAX_SELECTION_ATTEMPTS r env 1 inputs w2) as [out Hout]
  end; [unfold MAX_SELECTION_ATTEMPTS; lia..|]. exists out. split; [done|]. intros err ->. by eapply select_loop_errors.
Qed.

(** ** Constraints of the request *)

Section Scope.
Context (settings : Settings) (maps : DefinitionMaps) (registry : ModelRegistry) (Hmaps : loaded maps).

(** The plan may use the model, as far as the registry knows the model. *)
Definition supports_model (model : option string) (plan : string) : Prop :=
  truthy_s model && _mapped_model_has_registry_entry registry model = true →
  ∀ allowed, plan_types_for_model registry (default "" model) = Some allowed →
    account_plan_matches_allowed (Some plan) (elements allowed) = true.

Definition fits (c : Constraints) (a : Account) : Prop :=
  (∀ ids, c_account_ids c = Some ids → acc_id a ∈ ids) ∧ recoverable (acc_status a) = true ∧
  supports_model (c_model c) (acc_plan_type a).

(** Entries of the cache answer the constraints they are filed under. *)
Definition cache_ok (w : World) : Prop :=
  ∀ c e, SelectionCache.cache (w_cache w) !! cache_key c = Some e →
    ∀ a, a ∈ in_accounts (SelectionCache.data e) → fits c a.

Definition benign (f : World → World) : Prop := ∀ w, cache_ok w → cache_ok (f w).

Definition env_benign (env : nat → AttemptEnv) : Prop :=
  ∀ k, benign (a_before (env k)) ∧ (∀ i, benign (a_between (env k) i)) ∧ benign (a_after (env k)) ∧
       benign (l_during (a_reload (env k))).

Lemma cache_key_scope c c' : cache_key c = cache_key c' →
  c_model c = c_model c' ∧
  ∀ id, (∀ ids, c_account_ids c = Some ids → id ∈ ids) → ∀ ids, c_account_ids c' = Some ids → id ∈ ids.
Proof.
  unfold cache_key. intros [= Hm _ Hids]. split; [done|]. intros id H ids Hs. rewrite Hs in Hids.
  destruct (c_account_ids c) as [ids0|]; [|done]. injection Hids as He.
  rewrite <- elem_of_elements, <- (order_by_elem (asc Datatypes.id)), <- He, order_by_elem, elem_of_elements. auto.
Qed.

Lemma fits_key c c' a : cache_key c = cache_key c' → fits c a → fits c' a.
Proof. intros [Hm Hk]%cache_key_scope (H1 & H2 & H3). unfold fits. rewrite <- Hm. eauto. Qed.

Lemma candidates_fit c db a : a ∈ candidates registry c db → fits c a.
Proof.
  assert (a ∈ in_scope c db → (∀ ids, c_account_ids c = Some ids → acc_id a ∈ ids) ∧
    recoverable (acc_status a) = true) as Hscope.
  { unfold in_scope, scoped. intros Ha.
    assert (a ∈ _selectable_accounts (AccountsRepo.list_accounts (AccountsRepo.accounts db)) ∧
      ∀ ids, c_account_ids c = Some ids → acc_id a ∈ ids) as [Hs Hi].
    { destruct (c_account_ids c) as [ids|]; [|done].
      apply elem_of_filter_bool in Ha as [Ha Hb%bool_decide_eq_true]. split; [done|]. by intros ? [= <-]. }
    split; [done|]. apply elem_of_filter_bool in Hs as [_ Hs]. by destruct (acc_status a). }
  unfold candidates. destruct (truthy_s (c_model c) && _) eqn:E.
  - intros Ha. unfold _filter_accounts_for_model in Ha.
    destruct (plan_types_for_model registry (default "" (c_model c))) as [allowed|] eqn:Ep.
    + apply elem_of_filter_bool in Ha as [Ha Hplan]. destruct (Hscope Ha). split_and!; [done..|].
      intros _ allowed'. rewrite Ep. by intros [= <-].
    + destruct (Hscope Ha). split_and!; [done..|]. intros _ allowed'. by rewrite Ep.
  - intros Ha. destruct (Hscope Ha). split_and!; [done..|]. intros Hc. by rewrite E in Hc.
Qed.

Lemma load_fits e c w w' inputs :
  cache_ok w → benign (l_during e) →
  load_selection_inputs settings maps registry e c w = Ok (w', inputs) →
  cache_ok w' ∧ ∀ a, a ∈ in_accounts inputs → fits c a ∧ acc_id a ∉ c_exclude c.
Proof.
  intros Hok Hb. unfold load_selection_inputs. intros ([w1 ins] & Hload & H)%res_bind_ok.
  assert (cache_ok w1 ∧ ∀ a, a ∈ in_accounts ins → fits c a) as [Hok1 Hfit].
  { unfold _load_selection_inputs in Hload.
    destruct (SelectionCache.get (l_get e) (cache_key c) (w_cache w)) as [cached|] eqn:Eg.
    - injection Hload as <- <-. split; [done|]. unfold SelectionCache.get in Eg.
      destruct (_ =? 0)%Z; [done|]. destruct (SelectionCache.cache (w_cache w) !! cache_key c) as [en|] eqn:El; [|done].
      destruct (qle _ _); [done|]. injection Eg as <-. by apply Hok.
    - destruct (read_inputs_ok settings maps registry e c (w_db w) Hmaps) as (ins' & Hr & Hsub).
      rewrite Hr in Hload. cbn [res_bind] in Hload. injection Hload as <- <-.
      assert (∀ a, a ∈ in_accounts ins' → fits c a) as Hf by (intros a Ha; apply (candidates_fit c (w_db w)); auto).
      split; [|done]. intros c' en. unfold SelectionCache.set. destruct (_ =? _)%Z; simpl; [|by apply Hb].
      rewrite lookup_insert_Some. intros [[Hk <-]|[_ Hl]]; [|by apply (Hb _ Hok)].
      intros a Ha. by apply (fits_key c), Hf. }
  injection H as <- <-. split; [done|]. intros a.
  destruct (negb (bool_decide (c_exclude c = ∅)) && _) eqn:E; simpl.
  - intros [Ha Hx%negb_true_iff%bool_decide_eq_false]%elem_of_filter_bool. auto.
  - intros Ha. split; [auto|]. apply andb_false_iff in E as [E|E].
    + apply negb_false_iff, bool_decide_eq_true in E. rewrite E. set_solver.
    + apply negb_false_iff, Nat.eqb_eq, nil_length_inv in E. rewrite E in Ha. set_solver.
Qed.

Lemma persist_cache between k amap states w :
  (∀ i, benign (between i)) → cache_ok w → cache_ok (_persist_selection_state between k amap states w).1.
Proof.
  intros Hb. revert k amap w. induction states as [|s states IH]; intros k amap w Hok; simpl; [done|].
  destruct (amap !! account_id s) as [a|]; [|by apply IH].
  destruct (_persist_state_if_current _ _ _) as [[rows a'] ok].
  specialize (IH (S k) (<[account_id s := a']> amap) (with_accounts rows (between k w)) (Hb k _ Hok)).
  by destruct (_persist_selection_state _ _ _ _ _).
Qed.

Lemma settle_cache e amap r states w :
  benign (a_before e) → (∀ i, benign (a_between e i)) → benign (a_after e) → cache_ok w →
  cache_ok (settle e amap r states w).1.1.1.1.
Proof.
  intros H1 H2 H3 Hok. unfold settle. destruct (take_selection _ _ _) as [snap states1].
  match goal with |- context [_persist_selection_state ?b ?k ?m ?l ?w1] =>
    pose proof (persist_cache b k m l w1 H2 (H1 _ Hok)) as Hp end.
  destruct (_persist_selection_state _ _ _ _ _) as [w1 st]. by apply H3.
Qed.

Lemma attempt_cache r env k attempt inputs w w' fin :
  env_benign env → cache_ok w → run_attempt settings r (env k) attempt inputs w = Ok (w', fin) → cache_ok w'.
Proof.
  intros Henv Hok. destruct (Henv k) as (H1 & H2 & H3 & _). unfold run_attempt. destruct (s_sticky r) as [sk|].
  - unfold sticky_attempt. destruct (_build_states _ _ _ _) as [[states amap] rt].
    intros ([[st rows] res] & _ & H)%res_bind_ok.
    match type of H with context [settle ?e ?m ?x ?s ?w0] => pose proof (settle_cache e m x s w0 H1 H2 H3 Hok) as Hs end.
    destruct (settle _ _ _ _ _) as [[[[w1 before] g] snap] stale]. by injection H as <- _.
  - unfold plain_attempt. destruct (_build_states _ _ _ _) as [[states amap] rt].
    destruct (safe_choice _ _ _ _ _) as [st rr]. intros (res & _ & H)%res_bind_ok.
    match type of H with context [settle ?e ?m ?x ?s ?w0] => pose proof (settle_cache e m x s w0 H1 H2 H3 Hok) as Hs end.
    destruct (settle _ _ _ _ _) as [[[[w1 before] g] snap] stale]. by injection H as <- _.
Qed.

(** The guarantee about the account handed out. *)
Definition admissible (c : Constraints) (a : Account) : Prop :=
  acc_status a = ACTIVE ∧ acc_id a ∉ c_exclude c ∧ (∀ ids, c_account_ids c = Some ids → acc_id a ∈ ids) ∧
  supports_model (c_model c) (acc_plan_type a).

Lemma loop_admissible fuel r env attempt inputs w w' sel a :
  env_benign env → cache_ok w →
  (∀ a, a ∈ in_accounts inputs → fits (s_constraints r) a ∧ acc_id a ∉ c_exclude (s_constraints r)) →
  select_loop settings maps registry fuel r env attempt inputs w = Some (Ok (w', sel)) →
  selected_account sel = Some a → admissible (s_constraints r) a.
Proof.
  intros Henv. revert attempt inputs w. induction fuel as [|fuel IH]; intros attempt inputs w Hok Hin; simpl; [done|].
  pose proof (attempt_ok settings r (env attempt) attempt inputs w) as Hatt.
  destruct (run_attempt _ _ _ _ _ _) as [[w1 [snap msg|]]|e] eqn:Er; [| |done].
  - unfold conclude. destruct snap as [b|].
    + intros [= <- <-] [= <-]. destruct Hatt as [(s & Hs & H1 & H2 & H3) _].
      destruct (Hin _ Hs) as [(F1 & F2 & F3) Hx]. unfold admissible. rewrite H1, H2. auto.
    + destruct (bool_decide _); intros [= <- <-]; done.
  - pose proof (attempt_cache _ _ _ _ _ _ _ _ Henv Hok Er) as Hok1.
    destruct (load_selection_inputs _ _ _ _ _ _) as [[w2 inputs2]|e2] eqn:El; [|done].
    destruct (load_fits _ _ _ _ _ Hok1 ltac:(apply Henv) El) as [Hok2 Hin2].
    destruct (refused inputs2) as [ans|] eqn:Eref; [|by apply IH].
    intros [= <- <-]. unfold refused in Eref. destruct (in_error_code inputs2), (in_accounts inputs2); try done.
    by injection Eref as <-.
Qed.

End Scope.

(** C5. An account handed to a request is active and satisfies the request's
    constraints, on every attempt and whatever other tasks do in between as
    long as they file cache entries under the constraints they loaded them
    for: it is none of the excluded accounts, it is in the scope of accounts
    the request may use, and its plan supports the model when the registry
    knows the model. *)
Theorem lb_selection_admissible settings maps registry first clock env r w w' sel a
    (Hmaps : loaded maps) (Hcache : cache_ok registry w)
    (Hfirst : benign registry (l_during first)) (Henv : env_benign registry env)
    (Hrun : lb_select_account settings maps registry first clock env r w = Some (Ok (w', sel)))
    (Hsel : selected_account sel = Some a) :
  admissible registry (s_constraints r) a.
Proof.
  unfold lb_select_account in Hrun.
  destruct (load_selection_inputs _ _ _ _ _ _) as [[w1 inputs]|e] eqn:El; [|done].
  destruct (load_fits _ _ _ Hmaps _ _ _ _ _ Hcache Hfirst El) as [Hok Hin].
  destruct (refused inputs) as [ans|] eqn:Eref.
  { injection Hrun as <- <-. unfold refused in Eref. destruct (in_error_code inputs), (in_accounts inputs); try done.
    by injection Eref as <-. }
  eapply (loop_admissible settings maps registry Hmaps); [done| |exact Hin|exact Hrun|done].
  destruct (_is_upstream_circuit_breaker_open _ _ _); [done|].
  by destruct (in_accounts inputs), (in_error_code inputs).
Qed.

(** ** Write-back *)

(** The availability a state would give its row. *)
Definition state_availability (s : AccountState) : AccountStatus * option string * option Z * option Z :=
  (status s, deactivation_reason s, int_or_none (reset_at s), int_or_none (blocked_at s)).

Lemma needs_write_false account state :
  needs_write account state = false ↔ StoreFacts.availability account = state_availability state.
Proof.
  unfold needs_write, StoreFacts.availability, state_availability.
  rewrite !orb_false_iff, !negb_false_iff, !bool_decide_eq_true. split.
  - by intros (((-> & ->) & ->) & ->).
  - by intros [= -> -> -> ->].
Qed.

(** C17. The optimistic write of an account's availability never loses another
    writer's update: it changes the row only when the row still has the
    availability the selection was based on, and otherwise it reports the
    account as stale and leaves the table as it is.  No other row changes, and
    on success the row and the caller's copy carry the new availability. *)
Theorem persist_no_lost_update account state rows rows' account' ok
    (Hids : NoDup (map acc_id rows))
    (Hrun : _persist_state_if_current account state rows = (rows', account', ok)) :
  (∀ k, k ≠ acc_id account → AccountsRepo.get_by_id k rows' = AccountsRepo.get_by_id k rows) ∧
  if ok then
    StoreFacts.availability account' = state_availability state ∧
    ((rows' = rows ∧ StoreFacts.availability account = state_availability state) ∨
     ∃ row row', AccountsRepo.get_by_id (acc_id account) rows = Some row ∧
       StoreFacts.availability row = StoreFacts.availability account ∧
       AccountsRepo.get_by_id (acc_id account) rows' = Some row' ∧
       StoreFacts.availability row' = state_availability state)
  else
    rows' = rows ∧ account' = account ∧
    ∀ row, AccountsRepo.get_by_id (acc_id account) rows = Some row →
      StoreFacts.availability row ≠ StoreFacts.availability account.
Proof.
  unfold _persist_state_if_current in Hrun. destruct (needs_write account state) eqn:En.
  - destruct (AccountsRepo.update_status_if_current _ _ _ _ _ _ rows) as [rows1 upd] eqn:Eu.
    injection Hrun as <- <- <-.
    apply (StoreFacts.update_status_if_current_spec _ account) in Eu as (_ & Hother & Hrow); [|done].
    split; [done|]. destruct (AccountsRepo.get_by_id (acc_id account) rows) as [row|].
    + case_decide as Hav; destruct Hrow as [-> Hrow].
      * split; [done|]. right. eexists _, _. done.
      * split_and!; [done..|]. by intros ? [= <-].
    + destruct Hrow as [-> ->]. done.
  - injection Hrun as <- <- <-. apply needs_write_false in En. split; [done|]. split; [done|]. by left.
Qed.

(** ** Reports take effect *)

Lemma differs_false a b : differs a b = false →
  match a, b with Some x, Some y => (x == y)%Q | None, None => True | _, _ => False end.
Proof. destruct a, b; simpl; try done. rewrite negb_false_iff. apply qeq_true. Qed.

Lemma take_new_Some old c : ∃ c', take_new old (Some c) = Some c' ∧ (c' == c)%Q.
Proof.
  unfold take_new. destruct (differs old (Some c)) eqn:E; [exists c; split; [done|reflexivity]|].
  apply differs_false in E. destruct old as [c'|]; [eauto|done].
Qed.

(** The runtime memory holds the cooldown of the state it was synced with. *)
Lemma sync_cooldown now account state sel runtime c :
  cooldown_until state = Some c →
  ∃ c', rt_cooldown_until (runtime_of (acc_id account) (_sync_runtime_state now account state sel None runtime).1)
        = Some c' ∧ (c' == c)%Q.
Proof.
  intros Hc. unfold _sync_runtime_state. cbn [fst]. unfold runtime_of at 1. rewrite lookup_insert_eq. cbn [default].
  unfold synced. cbn [rt_cooldown_until]. rewrite Hc. apply take_new_Some.
Qed.

Lemma prune_lookup accounts runtime id :
  id ∈ map acc_id accounts → _prune_runtime accounts runtime !! id = runtime !! id.
Proof.
  intros Hin. unfold _prune_runtime. destruct (runtime !! id) as [rt|] eqn:E.
  - by apply map_lookup_filter_Some.
  - apply map_lookup_filter_None. by left.
Qed.

Lemma state_from_account_cooldown s c a pe se rt :
  cooldown_until (_state_from_account s c a pe se rt).1 = rt_cooldown_until rt.
Proof.
  unfold _state_from_account. destruct (apply_usage_quota _ _ _ _ _ _ _ _ _ _) as [[st up] ra].
  by destruct (update_tier _ _ _ _).
Qed.

Lemma build_states_cooldown s clk i accounts primary secondary runtime states rt' j a st :
  NoDup (map acc_id accounts) →
  build_states_from s clk i accounts primary secondary runtime = (states, rt') →
  accounts !! j = Some a → states !! j = Some st →
  cooldown_until st = rt_cooldown_until (runtime_of (acc_id a) runtime).
Proof.
  revert i runtime states rt' j. induction accounts as [|b accounts IH]; intros i runtime states rt' j Hnd; [done|].
  cbn [map] in Hnd. apply NoDup_cons in Hnd as [Hb Hnd]. simpl.
  pose proof (state_from_account_cooldown s (clk i) b (primary !! acc_id b) (secondary !! acc_id b)
    (runtime_of (acc_id b) runtime)) as Hc.
  destruct (_state_from_account _ _ _ _ _ _) as [s0 rt0].
  destruct (build_states_from _ _ _ _ _ _ _) as [sts rt1] eqn:Eb. intros [= <- <-].
  destruct j as [|j]; simpl; [intros [= <-] [= <-]; exact Hc|]. intros Ha Hst.
  rewrite (IH _ _ _ _ _ Hnd Eb Ha Hst). unfold runtime_of. rewrite lookup_insert_ne; [done|].
  intros He. apply Hb. rewrite He. apply elem_of_map. exists a. split; [done|]. by eapply list_elem_of_lookup_2.
Qed.

(** The two reports that block an account for a while, and until when. *)
Inductive report :=
  | ReportRateLimit (t1 t2 t3 t4 jitter : Q) (e : UpstreamError)
  | ReportQuota (t1 t2 t3 t4 : Q) (e : UpstreamError).

Definition apply_report (r : report) (account : Account) (w : World) : World * Account :=
  match r with
  | ReportRateLimit t1 t2 t3 t4 jitter e => mark_rate_limit t1 t2 t3 t4 jitter account e w
  | ReportQuota t1 t2 t3 t4 e => mark_quota_exceeded t1 t2 t3 t4 account e w
  end.

Definition valid_report (r : report) : Prop :=
  match r with
  | ReportRateLimit _ _ _ t4 jitter _ => (0 < t4 ∧ 0 <= jitter)%Q
  | ReportQuota _ t2 _ _ _ => (0 < t2)%Q
  end.

Definition blocked_until (r : report) : Q :=
  match r with
  | ReportRateLimit _ _ _ t4 _ _ => t4
  | ReportQuota _ t2 _ _ _ => t2 + QUOTA_EXCEEDED_COOLDOWN_SECONDS
  end.

Lemma mark_cooldown handle account w c :
  cooldown_until (handle (_state_for account (w_runtime w)).2) = Some c →
  ∃ c', rt_cooldown_until (runtime_of (acc_id account) (w_runtime (mark handle account w).1)) = Some c' ∧ (c' == c)%Q.
Proof.
  intros Hc. unfold mark. destruct (_state_for account (w_runtime w)) as [rt st]. simpl in Hc.
  destruct (_persist_state account (handle st) _) as [rows acct]. simpl. by apply sync_cooldown.
Qed.

Lemma report_cooldown r account w :
  valid_report r →
  ∃ c, rt_cooldown_until (runtime_of (acc_id account) (w_runtime (apply_report r account w).1)) = Some c ∧
       (blocked_until r <= c)%Q ∧ ¬ (c == 0)%Q.
Proof.
  destruct r as [t1 t2 t3 t4 jitter e|t1 t2 t3 t4 e]; simpl.
  - intros [Ht Hj]. unfold mark_rate_limit. set (st := (_state_for account (w_runtime w)).2).
    assert (∃ d, cooldown_until (handle_rate_limit t1 t2 t3 t4 jitter e st) = Some (t4 + d)%Q ∧ (0 <= d)%Q) as (d & Hd & Hd0).
    { unfold handle_rate_limit. eexists. split; [done|].
      destruct (message e) as [msg|]; [|by apply backoff_nonneg].
      destruct (String.eqb msg ""); [by apply backoff_nonneg|].
      destruct (parse_retry_after msg) eqn:E; [by eapply parse_retry_after_nonneg|by apply backoff_nonneg]. }
    destruct (mark_cooldown _ _ _ _ Hd) as (c & Hc & Heq). exists c. split_and!; [done|lra|].
    intros H0. lra.
  - intros Ht. unfold mark_quota_exceeded. set (st := (_state_for account (w_runtime w)).2).
    assert (cooldown_until (handle_quota_exceeded t1 t2 t3 t4 e st) =
      Some (t2 + QUOTA_EXCEEDED_COOLDOWN_SECONDS)%Q) as Hd.
    { unfold handle_quota_exceeded. by destruct (_extract_reset_at t3 e). }
    destruct (mark_cooldown _ _ _ _ Hd) as (c & Hc & Heq). exists c. unfold QUOTA_EXCEEDED_COOLDOWN_SECONDS in *.
    split_and!; [done|lra|]. intros H0. lra.
Qed.

(** An account reported as rate limited or out of quota is not selected again
    before its cooldown ends (for a quota, 120 seconds), even by an attempt
    that still works on inputs loaded before the report, and the inputs cached
    before the report are dropped. *)
Theorem reported_account_skipped settings clk inputs q d1 d2 rep account w states amap runtime states' m
    (Hrep : valid_report rep) (Hids : NoDup (map acc_id (in_accounts inputs)))
    (Hpool : acc_id account ∈ map acc_id (runtime_pool inputs))
    (Hbuild : _build_states settings clk inputs
                (_prune_runtime (runtime_pool inputs) (w_runtime (apply_report rep account w).1))
              = (states, amap, runtime))
    (Hsel : safe_choice q false d1 d2 states = (states', Ok (Selected m)))
    (Ht1 : (d1.1 < blocked_until rep)%Q) (Ht2 : (d2.1 < blocked_until rep)%Q) :
  account_id m.2 ≠ acc_id account ∧
  SelectionCache.cache (w_cache (apply_report rep account w).1) = ∅.
Proof.
  split.
  - destruct (report_cooldown rep account w Hrep) as (c & Hc & Hle & Hnz).
    apply safe_choice_ok in Hsel as (a & [= <-] & [_ Hp]). intros He.
    destruct (picks_id _ _ _ Hp) as (s & Hs & Hid & Hl).
    destruct (build_states_covers _ _ _ _ _ _ _ Hbuild) as (Hmap & _ & _).
    unfold _build_states in Hbuild. destruct (build_states_from _ _ _ _ _ _ _) as [sts rt] eqn:Eb.
    injection Hbuild as <- <- <-.
    assert (∃ b, in_accounts inputs !! m.1 = Some b ∧ acc_id b = acc_id account) as (b & Hb & Hbid).
    { assert (map account_id sts !! m.1 = Some (acc_id account)) as Hm.
      { rewrite <- He, Hid. change (map account_id sts) with (account_id <$> sts). by rewrite list_lookup_fmap, Hl. }
      rewrite Hmap in Hm. change (map acc_id (in_accounts inputs)) with (acc_id <$> in_accounts inputs) in Hm.
      rewrite list_lookup_fmap in Hm. apply fmap_Some in Hm as (b & ? & ?). eauto. }
    pose proof (build_states_cooldown _ _ _ _ _ _ _ _ _ _ _ _ Hids Eb Hb Hl) as Hcool.
    unfold runtime_of in Hcool. rewrite Hbid, prune_lookup in Hcool by done.
    unfold runtime_of in Hc. rewrite Hc in Hcool.
    apply (picks_not_pending _ _ _ c s Hp Hl); [|done].
    intros t Ht. exists c. split; [done|]. split; [done|]. simpl in Ht.
    apply elem_of_cons in Ht as [->|Ht]; [lra|]. apply list_elem_of_singleton in Ht as ->. lra.
  - destruct rep; unfold apply_report, mark_rate_limit, mark_quota_exceeded, mark;
      destruct (_state_for account (w_runtime w)); destruct (_persist_state _ _ _); reflexivity.
Qed.

Lemma update_status_lookup id st re rs bl rows a :
  AccountsRepo.get_by_id id rows = Some a →
  AccountsRepo.get_by_id id (AccountsRepo.update_status id st re rs bl rows).1 =
  Some (AccountsRepo.status_values st re rs bl a).
Proof.
  intros Ha. unfold AccountsRepo.update_status. simpl.
  rewrite StoreFacts.get_by_id_update by (intros; apply StoreFacts.status_values_id). rewrite Ha. simpl.
  apply StoreFacts.get_by_id_Some in Ha as [_ <-]. unfold AccountsRepo.has_id. by rewrite String.eqb_refl.
Qed.

(** An account reported as permanently failed is out of every later load: its
    row is deactivated with the reason, the cached inputs are dropped, and no
    selection inputs read afterwards contain it, until some other writer
    reactivates the row. *)
Theorem failed_account_excluded settings maps registry account code w row e c w' inputs
    (Hmaps : loaded maps)
    (Hids : NoDup (map acc_id (AccountsRepo.accounts (w_db w))))
    (Hrow : AccountsRepo.get_by_id (acc_id account) (AccountsRepo.accounts (w_db w)) = Some row)
    (Hseen : acc_status account ≠ DEACTIVATED)
    (Hload : load_selection_inputs settings maps registry e c (mark_permanent_failure account code w).1
             = Ok (w', inputs)) :
  let w1 := (mark_permanent_failure account code w).1 in
  acc_id account ∉ map acc_id (in_accounts inputs) ∧
  acc_status <$> AccountsRepo.get_by_id (acc_id account) (AccountsRepo.accounts (w_db w1)) = Some DEACTIVATED.
Proof.
  cbv zeta. set (w1 := (mark_permanent_failure account code w).1) in *.
  assert (AccountsRepo.accounts (w_db w1) =
    (AccountsRepo.update_status (acc_id account) DEACTIVATED
       (deactivation_reason (handle_permanent_failure code (_state_for account (w_runtime w)).2))
       (int_or_none (reset_at (handle_permanent_failure code (_state_for account (w_runtime w)).2)))
       (Some None) (AccountsRepo.accounts (w_db w))).1 ∧
    SelectionCache.cache (w_cache w1) = ∅) as [Hrows Hcache].
  { unfold w1, mark_permanent_failure, mark. destruct (_state_for account (w_runtime w)) as [rt st].
    unfold _persist_state. assert (needs_write account (handle_permanent_failure code st) = true) as ->.
    { unfold needs_write. rewrite bool_decide_false; [done|]. exact Hseen. }
    split; reflexivity. }
  assert (∀ a, a ∈ AccountsRepo.accounts (w_db w1) → acc_id a = acc_id account → acc_status a = DEACTIVATED) as Hdead.
  { intros a Ha Hid. rewrite Hrows in Ha.
    unfold AccountsRepo.update_status, update_where in Ha. simpl in Ha. apply elem_of_map in Ha as (b & -> & Hb).
    destruct (AccountsRepo.has_id (acc_id account) b) eqn:Eb; [done|].
    unfold AccountsRepo.has_id in Eb. apply String.eqb_neq in Eb. done. }
  split.
  - unfold load_selection_inputs in Hload. apply res_bind_ok in Hload as ([w2 ins] & Hl & Hx).
    assert (∀ a, a ∈ in_accounts ins → acc_id a ≠ acc_id account) as Hout.
    { unfold _load_selection_inputs in Hl.
      assert (SelectionCache.get (l_get e) (cache_key c) (w_cache w1) = None) as Hg.
      { unfold SelectionCache.get. rewrite Hcache, lookup_empty. by destruct (_ =? 0)%Z. }
      rewrite Hg in Hl. destruct (read_inputs_ok settings maps registry e c (w_db w1) Hmaps) as (ins' & Hr & Hsub).
      rewrite Hr in Hl. injection Hl as <- <-. intros a Ha Hid. apply Hsub in Ha.
      pose proof (candidates_fit registry c (w_db w1) a Ha) as (_ & Hrec & _).
      assert (a ∈ AccountsRepo.accounts (w_db w1)) as Hin.
      { unfold candidates, in_scope, scoped, _filter_accounts_for_model, _selectable_accounts,
          AccountsRepo.list_accounts in Ha.
        repeat (match type of Ha with
          | _ ∈ List.filter _ _ => apply elem_of_filter_bool in Ha as [Ha _]
          | _ ∈ order_by _ _ => apply order_by_elem in Ha
          | _ ∈ (if ?b then _ else _) => destruct b
          | _ ∈ match ?o with Some _ => _ | None => _ end => destruct o
          end). all: exact Ha. }
      by rewrite (Hdead a Hin Hid) in Hrec. }
    injection Hx as <- <-. intros (a & Hid & Ha)%elem_of_map. apply (Hout a); [|done].
    destruct (negb _ && _); [|done]. simpl in Ha. by apply elem_of_filter_bool in Ha as [? _].
  - rewrite Hrows, (update_status_lookup _ _ _ _ _ _ _ Hrow). done.
Qed.

(** ** The runtime memory *)

(** Health tiers and what they record: a healthy account has no drain time and
    no probe streak; a draining or probing one knows when the drain began;
    probe successes are counted only while probing. *)
Definition tier_wf (rt : RuntimeState) : Prop :=
  (rt_health_tier rt = HEALTH_TIER_HEALTHY ∧ drain_entered_at rt = None ∧ probe_success_streak rt = 0%Z) ∨
  (rt_health_tier rt = HEALTH_TIER_DRAINING ∧ is_Some (drain_entered_at rt) ∧ probe_success_streak rt = 0%Z) ∨
  (rt_health_tier rt = HEALTH_TIER_PROBING ∧ is_Some (drain_entered_at rt) ∧ (0 <= probe_success_streak rt)%Z).

Definition runtime_wf (rt : RuntimeState) : Prop :=
  tier_wf rt ∧ (0 <= rt_error_count rt)%Z ∧ (0 <= version rt)%Z.

Definition memory_wf (runtime : runtime_map) : Prop := ∀ id rt, runtime !! id = Some rt → runtime_wf rt.

Lemma new_runtime_wf : runtime_wf new_runtime.
Proof. split; [by left|done]. Qed.

Lemma runtime_of_wf id runtime : memory_wf runtime → runtime_wf (runtime_of id runtime).
Proof.
  intros Hm. unfold runtime_of. destruct (runtime !! id) eqn:E; simpl; [by eapply Hm|apply new_runtime_wf].
Qed.

Lemma memory_insert id rt runtime : memory_wf runtime → runtime_wf rt → memory_wf (<[id := rt]> runtime).
Proof. intros Hm Hr i x [[_ <-]|[_ Hx]]%lookup_insert_Some; [done|by eapply Hm]. Qed.

Lemma memory_prune accounts runtime : memory_wf runtime → memory_wf (_prune_runtime accounts runtime).
Proof. intros Hm i x [Hx _]%map_lookup_filter_Some. by eapply Hm. Qed.

Lemma evaluate_tier_range c now clock entered streak s :
  let t := evaluate_health_tier c now clock entered streak s in
  t = health_tier s ∨ t = HEALTH_TIER_HEALTHY ∨ t = HEALTH_TIER_DRAINING ∨
  (t = HEALTH_TIER_PROBING ∧ (health_tier s = HEALTH_TIER_DRAINING ∨ health_tier s = HEALTH_TIER_PROBING)).
Proof.
  cbv zeta. unfold evaluate_health_tier. destruct (hard_blocked s); [by left|].
  repeat match goal with
  | |- context [if (?x =? ?y)%Z then _ else _] => destruct (Z.eqb_spec x y)
  | |- context [if ?b then _ else _] => destruct b
  | |- context [match ?o with Some _ => _ | None => _ end] => destruct o
  end; tauto.
Qed.

Lemma update_tier_wf s c probe rt :
  health_tier probe = rt_health_tier rt → runtime_wf rt → runtime_wf (update_tier s c probe rt).2.
Proof.
  intros Hp (Ht & He & Hv). unfold update_tier. destruct (soft_drain_enabled s); [|split; [by left|done]].
  pose proof (evaluate_tier_range (drain_config s) (Some (c_tier c)) (c_tier_again c) (drain_entered_at rt)
    (probe_success_streak rt) probe) as Hr. cbv zeta in Hr. set (t := evaluate_health_tier _ _ _ _ _ _) in *.
  rewrite Hp in Hr. clearbody t. unfold tier_wf, HEALTH_TIER_HEALTHY, HEALTH_TIER_DRAINING, HEALTH_TIER_PROBING in *.
  destruct (Z.eqb_spec t 0) as [H0|H0]; destruct (Z.eqb_spec t 1) as [H1|H1];
    destruct (Z.eqb_spec (rt_health_tier rt) 1) as [H2|H2]; simpl; split; simpl; try done;
    unfold tier_wf, HEALTH_TIER_HEALTHY, HEALTH_TIER_DRAINING, HEALTH_TIER_PROBING; simpl; try lia;
    try (by left); right; intuition (subst; eauto; try lia).
  right. destruct rt. simpl in *. split_and!; [done..|lia].
Qed.

Definition counts_ok (states : list AccountState) : Prop := ∀ s, s ∈ states → (0 <= error_count s)%Z.

Lemma state_from_account_wf s c a pe se rt :
  runtime_wf rt → runtime_wf (_state_from_account s c a pe se rt).2 ∧
  (0 <= error_count (_state_from_account s c a pe se rt).1)%Z.
Proof.
  intros Hrt. unfold _state_from_account. destruct (apply_usage_quota _ _ _ _ _ _ _ _ _ _) as [[st up] ra].
  match goal with |- context [update_tier s c ?p rt] => pose proof (update_tier_wf s c p rt eq_refl Hrt) as Hu end.
  destruct (update_tier _ _ _ _) as [t rt']. simpl in *. split; [done|apply Hrt].
Qed.

Lemma build_states_wf s clk i accounts primary secondary runtime states runtime' :
  memory_wf runtime → build_states_from s clk i accounts primary secondary runtime = (states, runtime') →
  memory_wf runtime' ∧ counts_ok states.
Proof.
  revert i runtime states runtime'. induction accounts as [|a accounts IH]; intros i runtime states runtime' Hm; simpl.
  { intros [= <- <-]. split; [done|]. intros s0. set_solver. }
  destruct (state_from_account_wf s (clk i) a (primary !! acc_id a) (secondary !! acc_id a) _
    (runtime_of_wf (acc_id a) _ Hm)) as [Hrt Hc].
  destruct (_state_from_account _ _ _ _ _ _) as [st rt]. simpl in *.
  destruct (build_states_from _ _ _ _ _ _ _) as [sts rt'] eqn:E. intros [= <- <-].
  destruct (IH _ _ _ _ (memory_insert _ _ _ Hm Hrt) E) as [H1 H2]. split; [done|].
  intros s0 [->|Hs]%elem_of_cons; auto.
Qed.

Lemma counts_passes clks states states' :
  counts_ok states → Forall2 (passes clks) states states' → counts_ok states'.
Proof.
  intros Hc Hf s [i Hs]%list_elem_of_lookup_1.
  destruct (Forall2_lookup_r _ _ _ _ _ Hf Hs) as (s0 & Hs0 & (_ & _ & _ & He)%passes_evolves).
  apply list_elem_of_lookup_2, Hc in Hs0. lia.
Qed.

Lemma synced_wf now account state sel rt :
  runtime_wf rt → (0 <= error_count state)%Z → runtime_wf (synced now account state sel rt).
Proof.
  intros (Ht & He & Hv) Hc. split_and!; [exact Ht|exact Hc|]. simpl. destruct (sync_dirty _ _ _ _); lia.
Qed.

Lemma sync_states_wf now i sel amap states runtime :
  memory_wf runtime → counts_ok states → memory_wf (sync_states now i sel amap states runtime).
Proof.
  revert i runtime. induction states as [|s states IH]; intros i runtime Hm Hc; simpl; [done|].
  apply IH; [|intros s0 Hs0; apply Hc; set_solver].
  destruct (amap !! account_id s) as [a|]; [|done]. apply memory_insert; [done|].
  apply synced_wf; [by apply runtime_of_wf|]. apply Hc. set_solver.
Qed.

(** Other tasks keep the memory well formed. *)
Definition keeps (f : World → World) : Prop := ∀ w, memory_wf (w_runtime w) → memory_wf (w_runtime (f w)).

Definition attempt_keeps (e : AttemptEnv) : Prop :=
  keeps (a_before e) ∧ (∀ i, keeps (a_between e i)) ∧ keeps (a_after e).

Lemma persist_memory between k amap states w :
  (∀ i, keeps (between i)) → memory_wf (w_runtime w) →
  memory_wf (w_runtime (_persist_selection_state between k amap states w).1).
Proof.
  intros Hb. revert k amap w. induction states as [|s states IH]; intros k amap w Hok; simpl; [done|].
  destruct (amap !! account_id s) as [a|]; [|by apply IH].
  destruct (_persist_state_if_current _ _ _) as [[rows a'] ok].
  specialize (IH (S k) (<[account_id s := a']> amap) (with_accounts rows (between k w)) (Hb k _ Hok)).
  by destruct (_persist_selection_state _ _ _ _ _).
Qed.

Lemma settle_memory e amap r states w :
  attempt_keeps e → memory_wf (w_runtime w) → counts_ok states →
  memory_wf (w_runtime (settle e amap r states w).1.1.1.1).
Proof.
  intros (H1 & H2 & H3) Hm Hc. unfold settle.
  destruct (take_selection _ _ _) as [snap states1].
  match goal with |- context [_persist_selection_state ?b ?k ?m ?l ?w1] =>
    pose proof (persist_memory b k m l w1 H2 (sync_states_wf _ _ _ _ _ _ (H1 _ Hm) Hc)) as Hp end.
  destruct (_persist_selection_state _ _ _ _ _) as [w1 st]. by apply H3.
Qed.

Lemma attempt_memory settings r e attempt inputs w w' fin :
  attempt_keeps e → memory_wf (w_runtime w) →
  run_attempt settings r e attempt inputs w = Ok (w', fin) → memory_wf (w_runtime w').
Proof.
  intros He Hm. unfold run_attempt.
  assert (∀ states amap rt, _build_states settings (a_clock e) inputs
    (_prune_runtime (runtime_pool inputs) (w_runtime w)) = (states, amap, rt) →
    memory_wf rt ∧ counts_ok states ∧ amap = account_map_of (in_accounts inputs) ∧ map_covers amap states) as Hbuild.
  { intros states amap rt Hb. destruct (build_states_covers _ _ _ _ _ _ _ Hb) as (_ & Ha & Hcov).
    unfold _build_states in Hb. destruct (build_states_from _ _ _ _ _ _ _) as [sts rt'] eqn:Eb.
    injection Hb as <- <- <-. apply build_states_wf in Eb as [H1 H2]; [auto|by apply memory_prune]. }
  destruct (s_sticky r) as [k|].
  - unfold sticky_attempt. destruct (_build_states _ _ _ _) as [[states amap] rt].
    destruct (Hbuild _ _ _ eq_refl) as (Hrt & Hc & _ & Hcov). intros ([[st rows] res] & Hsel & H)%res_bind_ok.
    assert (counts_ok st) as Hst.
    { destruct (decide (req_key k = "")) as [Hk|Hk].
      - unfold _select_with_stickiness in Hsel. rewrite Hk in Hsel. simpl in Hsel.
        destruct (safe_choice _ _ _ _ _) as [st0 rr] eqn:E. destruct (safe_choice_ok _ _ _ _ _ _ _ E) as (a & -> & [Ha _]).
        injection Hsel as <- _ _. by eapply counts_passes.
      - destruct (req_kind k) as [kind|] eqn:Ek.
        + destruct (stickiness_ok k (s_routing r) kind (a_sticky e) amap states
            (AccountsRepo.sticky_sessions (w_db w)) Hk Ek Hcov) as (st0 & rows0 & res0 & Heq & [Hf _] & _).
          change (AccountsRepo.sticky_sessions (w_db (w {{ w_runtime := rt }})))
            with (AccountsRepo.sticky_sessions (w_db w)) in Hsel.
          rewrite Heq in Hsel. injection Hsel as <- _ _. by eapply counts_passes.
        + unfold _select_with_stickiness in Hsel. apply String.eqb_neq in Hk. by rewrite Hk, Ek in Hsel. }
    match type of H with context [settle ?e0 ?m ?x ?s ?w0] => pose proof (settle_memory e0 m x s w0 He Hrt Hst) as Hs end.
    destruct (settle _ _ _ _ _) as [[[[w1 before] g] snap] stale]. by injection H as <- _.
  - unfold plain_attempt. destruct (_build_states _ _ _ _) as [[states amap] rt].
    destruct (Hbuild _ _ _ eq_refl) as (Hrt & Hc & _ & _).
    destruct (safe_choice _ _ _ _ _) as [st rr] eqn:E. destruct (safe_choice_ok _ _ _ _ _ _ _ E) as (a & -> & [Ha _]).
    cbn [lift_select res_bind]. intros H. pose proof (counts_passes _ _ _ Hc Ha) as Hst.
    match type of H with context [settle ?e0 ?m ?x ?s ?w0] => pose proof (settle_memory e0 m x s w0 He Hrt Hst) as Hs end.
    destruct (settle _ _ _ _ _) as [[[[w1 before] g] snap] stale]. by injection H as <- _.
Qed.

Lemma mark_memory handle account w :
  (∀ s, (0 <= error_count s)%Z → (0 <= error_count (handle s))%Z) →
  memory_wf (w_runtime w) → memory_wf (w_runtime (mark handle account w).1).
Proof.
  intros Hh Hm. unfold mark, _state_for. pose proof (runtime_of_wf (acc_id account) _ Hm) as Hrt.
  match goal with |- context [_persist_state ?a ?s ?r] => destruct (_persist_state a s r) as [rows acct] end.
  apply memory_insert; [by apply memory_insert|]. apply synced_wf.
  - unfold runtime_of at 1. rewrite lookup_insert_eq. exact Hrt.
  - apply Hh. simpl. apply Hrt.
Qed.

Section Memory.
Context (settings : Settings) (maps : DefinitionMaps) (registry : ModelRegistry).

(** The operations of the service, in any order. *)
Inductive lb_step : World → World → Prop :=
  | StepLoad e c w w' inputs :
      keeps (l_during e) → load_selection_inputs settings maps registry e c w = Ok (w', inputs) → lb_step w w'
  | StepAttempt r e attempt inputs w w' fin :
      attempt_keeps e → run_attempt settings r e attempt inputs w = Ok (w', fin) → lb_step w w'
  | StepRateLimit t1 t2 t3 t4 jitter account error w :
      lb_step w (mark_rate_limit t1 t2 t3 t4 jitter account error w).1
  | StepQuota t1 t2 t3 t4 account error w : lb_step w (mark_quota_exceeded t1 t2 t3 t4 account error w).1
  | StepFailure account code w : lb_step w (mark_permanent_failure account code w).1
  | StepErrors now account count w : lb_step w (record_errors now account count w)
  | StepSuccess account w : lb_step w (record_success account w).

Inductive lb_reachable : World → Prop :=
  | LbStart w : w_runtime w = ∅ → lb_reachable w
  | LbNext w w' : lb_reachable w → lb_step w w' → lb_reachable w'.

Lemma load_memory e c w w' inputs :
  keeps (l_during e) → memory_wf (w_runtime w) →
  load_selection_inputs settings maps registry e c w = Ok (w', inputs) → memory_wf (w_runtime w').
Proof.
  intros Hk Hm ([w1 ins] & Hl & [= <- _])%res_bind_ok. unfold _load_selection_inputs in Hl.
  destruct (SelectionCache.get _ _ _); [by injection Hl as <- _|].
  apply res_bind_ok in Hl as (ins' & _ & [= <- _]). by apply Hk.
Qed.

Lemma reset_streak_memory id runtime :
  memory_wf runtime →
  memory_wf (if (rt_health_tier (runtime_of id runtime) =? HEALTH_TIER_PROBING)%Z
             then <[id := (runtime_of id runtime) {{ probe_success_streak := 0%Z }}]> runtime else runtime).
Proof.
  intros Hm. destruct (Z.eqb_spec (rt_health_tier (runtime_of id runtime)) HEALTH_TIER_PROBING) as [Hp|]; [|done].
  apply memory_insert; [done|]. destruct (runtime_of_wf id _ Hm) as (Ht & He & Hv).
  destruct (runtime_of id runtime) as [r c e l n v b t d p]. unfold tier_wf in *. simpl in *. subst t.
  unfold HEALTH_TIER_HEALTHY, HEALTH_TIER_DRAINING, HEALTH_TIER_PROBING in *.
  destruct Ht as [(? & _)|[(? & _)|(_ & Hd & _)]]; [done..|].
  split_and!; simpl; [right; right; done|done..].
Qed.

Lemma record_errors_memory now account count w :
  memory_wf (w_runtime w) → memory_wf (w_runtime (record_errors now account count w)).
Proof.
  intros Hm. unfold record_errors. destruct (Z.ltb_spec count 1) as [|Hc]; [done|]. unfold _state_for.
  pose proof (runtime_of_wf (acc_id account) _ Hm) as Hrt.
  match goal with |- context [_persist_state_if_current ?a ?s ?r] =>
    destruct (_persist_state_if_current a s r) as [[rows acct] ok] end.
  apply reset_streak_memory, memory_insert; [by apply memory_insert|]. apply synced_wf.
  - unfold runtime_of at 1. rewrite lookup_insert_eq. exact Hrt.
  - destruct Hrt as (_ & He & _). simpl. lia.
Qed.

Lemma record_success_memory account w :
  memory_wf (w_runtime w) → memory_wf (w_runtime (record_success account w)).
Proof.
  intros Hm. unfold record_success. destruct (w_runtime w !! acc_id account) as [rt|] eqn:E; [|done].
  apply memory_insert; [done|]. destruct (Hm _ _ E) as (Ht & He & Hv).
  set (rt1 := if (0 <? _)%Z then _ else rt).
  assert (runtime_wf rt1) as (Ht1 & He1 & Hv1).
  { unfold rt1. destruct (0 <? rt_error_count rt)%Z; [|done]. destruct rt. split_and!; simpl in *; [done|lia|lia]. }
  clearbody rt1. destruct (Z.eqb_spec (rt_health_tier rt1) HEALTH_TIER_PROBING) as [Hp|]; [|done].
  unfold tier_wf in Ht1. rewrite Hp in Ht1.
  unfold HEALTH_TIER_HEALTHY, HEALTH_TIER_DRAINING, HEALTH_TIER_PROBING in Ht1.
  destruct Ht1 as [(? & _)|[(? & _)|(_ & Hd & Hs)]]; [done..|]. destruct rt1.
  split_and!; simpl in *; [|done|lia]. right. right. simpl. split_and!; [done..|lia].
Qed.

(** C20. The runtime memory of the balancer is well formed at every moment: error
    counts and versions are never negative, and the health-tier fields agree
    (a drain time exactly while draining or probing, probe successes only
    while probing), under every interleaving of loads, selection attempts and
    reports. *)
Theorem memory_invariant w (Hreach : lb_reachable w) : memory_wf (w_runtime w).
Proof.
  induction Hreach as [w Hw|w w' _ IH Hstep]; [intros id rt; by rewrite Hw, lookup_empty|].
  destruct Hstep as [e c w w' inputs Hk Hl|r e attempt inputs w w' fin Hk Ha|t1 t2 t3 t4 jitter account error w
    |t1 t2 t3 t4 account error w|account code w|now account count w|account w].
  - by eapply load_memory.
  - by eapply attempt_memory.
  - apply mark_memory; [|done]. intros s Hs. unfold handle_rate_limit. destruct (_extract_reset_at t3 error); simpl; lia.
  - apply mark_memory; [|done]. intros s Hs. unfold handle_quota_exceeded. by destruct (_extract_reset_at t3 error).
  - by apply mark_memory.
  - by apply record_errors_memory.
  - by apply record_success_memory.
Qed.

End Memory.

(** ** Gated quotas *)

Lemma max_by_filter_rank {A R} `{PyOrdLaws R} (rank : A → R) (P : A → bool) l m :
  (∀ x y, P x = true → P y = false → pylt (rank y) (rank x) = true) →
  max_by rank l = Some m →
  max_by rank (List.filter P l) = if P m then Some m else None.
Proof.
  intros HP Hm. destruct (P m) eqn:Em.
  - by apply max_by_filter.
  - destruct (List.filter P l) as [|x l'] eqn:Ef; [done|]. exfalso.
    assert (x ∈ List.filter P l) as [Hx HPx]%elem_of_filter_bool by (rewrite Ef; set_solver).
    pose proof (max_by_max _ _ _ _ Hm Hx) as Hle. by rewrite (HP x m HPx Em) in Hle.
Qed.

(** The newest row since a time is the newest row, if that is recent enough. *)
Lemma fresh_lookup maps key window ids since rows latest fresh a :
  _latest_additional_by_key maps key window ids None rows = Ok latest →
  _latest_additional_by_key maps key window ids (Some since) rows = Ok fresh →
  fresh !! a = match latest !! a with
               | Some row => if (since <=? AdditionalUsageRepo.recorded_us row)%Z then Some row else None
               | None => None
               end.
Proof.
  unfold _latest_additional_by_key. destruct (canonicalize_additional_quota_key _ _ _ _ _) as [r|];
    [|intros [= <-] [= <-]; by rewrite lookup_empty].
  unfold AdditionalUsageRepo.latest_by_quota_key, AdditionalUsageRepo.latest_by_account.
  destruct (AdditionalUsageRepo._resolve_additional_quota_query_scope _ _ _ _) as [scope|]; [|done].
  intros [= <-] [= <-]. rewrite !latest_per_lookup, !filter_conj.
  set (P := λ row, (since <=? AdditionalUsageRepo.recorded_us row)%Z).
  set (l := List.filter (λ x, bool_decide (ah_account_id x = a) &&
    AdditionalUsageRepo.usage_conditions scope window (Some ids) None x) rows).
  assert (List.filter (λ x, bool_decide (ah_account_id x = a) &&
    AdditionalUsageRepo.usage_conditions scope window (Some ids) (Some since) x) rows = List.filter P l) as ->.
  { unfold l. rewrite filter_conj. apply List.filter_ext. intros x. unfold AdditionalUsageRepo.usage_conditions, P.
    rewrite andb_true_r. destruct (bool_decide _), (AdditionalUsageRepo._additional_quota_match_clause _ _),
      (String.eqb _ _), (mem _ _), (since <=? _)%Z; done. }
  destruct (max_by AdditionalUsageRepo.usage_rank l) as [m|] eqn:Em.
  - change (since <=? AdditionalUsageRepo.recorded_us m)%Z with (P m).
    apply max_by_filter_rank; [|done]. intros x y Hx Hy. unfold P in *. apply Z.leb_le in Hx. apply Z.leb_gt in Hy.
    unfold pylt, pycmp, PyOrd_prod, AdditionalUsageRepo.usage_rank. simpl. unfold pycmp, PyOrd_Z.
    assert (AdditionalUsageRepo.recorded_us y < AdditionalUsageRepo.recorded_us x)%Z as Hlt by lia.
    by rewrite (proj2 (Z.compare_lt_iff _ _) Hlt).
  - by destruct l.
Qed.

Lemma decide_is_Some {A} (o : option A) : bool_decide (is_Some o) = match o with Some _ => true | None => false end.
Proof. destruct o; [by apply bool_decide_eq_true; eexists|apply bool_decide_eq_false; by intros [? [=]]]. Qed.

(** The row is recent and its quota is not used up. *)
Definition quota_open (since : Z) (now : Q) (row : AdditionalUsageHistory) : Prop :=
  (since <= AdditionalUsageRepo.recorded_us row)%Z ∧ _additional_usage_is_exhausted now row = false.

(** A gated model is routed only to accounts whose additional quota is known
    and open: an account is eligible exactly when it has a usage row of some
    window, the newest row of each window it has is fresh, and none of those
    rows is exhausted. *)
Theorem gated_eligibility maps key ids since rows now1 now2 a lp ls fp fs
    (Hlp : _latest_additional_by_key maps key "primary" ids None rows = Ok lp)
    (Hls : _latest_additional_by_key maps key "secondary" ids None rows = Ok ls)
    (Hfp : _latest_additional_by_key maps key "primary" ids (Some since) rows = Ok fp)
    (Hfs : _latest_additional_by_key maps key "secondary" ids (Some since) rows = Ok fs) :
  _additional_quota_eligibility now1 now2 a lp ls fp fs = eligible ↔
  (is_Some (lp !! a) ∨ is_Some (ls !! a)) ∧
  (∀ row, lp !! a = Some row → quota_open since now1 row) ∧
  (∀ row, ls !! a = Some row → quota_open since now2 row).
Proof.
  unfold quota_open.
  pose proof (fresh_lookup _ _ _ _ _ _ _ _ a Hlp Hfp) as Hp.
  pose proof (fresh_lookup _ _ _ _ _ _ _ _ a Hls Hfs) as Hs.
  unfold _additional_quota_eligibility. rewrite Hp, Hs, !decide_is_Some. clear.
  assert (∀ (o : option AdditionalUsageHistory) (P : AdditionalUsageHistory → Prop),
    (∀ row, o = Some row → P row) ↔ match o with Some row => P row | None => True end) as Hall
    by (intros [x|] P; naive_solver).
  rewrite !Hall, <-!not_eq_None_Some. clear Hall.
  destruct (lp !! a) as [rp|], (ls !! a) as [rs|]; simpl;
    repeat match goal with
    | |- context [(since <=? ?x)%Z] => destruct (Z.leb_spec since x); simpl
    | |- context [if _additional_usage_is_exhausted ?n ?r then _ else _] =>
        destruct (_additional_usage_is_exhausted n r) eqn:?; simpl
    end; intuition (congruence || lia).
Qed.

(** ** Model names *)

(** The registry has the model under its slug, but not as it is written. *)
Definition misspelled (snapshot : ModelRegistrySnapshot) (model : string) : Prop :=
  is_Some (model_plans snapshot !! py_lower (py_strip model)) ∧ model_plans snapshot !! model = None.

(** The model lookup is normalised for the question whether the registry knows
    the model but not for the question which plans have it: a model asked for
    in another spelling than its slug finds no plan, and the request is
    refused although accounts could serve it. *)
Theorem model_spelling_refused settings maps registry snapshot e c model db
    (Hsnap : _snapshot registry = Some snapshot) (Hmodel : c_model c = Some model) (Hne : model ≠ "")
    (Hspelling : misspelled snapshot model) (Hscope : in_scope c db ≠ []) :
  ∃ inputs, read_inputs settings maps registry e c db = Ok inputs ∧ in_accounts inputs = [] ∧
    in_error_code inputs = Some NO_PLAN_SUPPORT_FOR_MODEL.
Proof.
  destruct Hspelling as [Hknown Hspelling].
  assert (truthy_s (c_model c) = true) as Ht.
  { rewrite Hmodel. simpl. by apply String.eqb_neq in Hne as ->. }
  assert (_mapped_model_has_registry_entry registry (c_model c) = true) as Hm.
  { rewrite Hmodel. unfold _mapped_model_has_registry_entry, get_snapshot. rewrite Hsnap. by apply bool_decide_eq_true. }
  assert (candidates registry c db = []) as Hc.
  { unfold candidates. rewrite Ht, Hm, Hmodel. simpl. unfold _filter_accounts_for_model, plan_types_for_model.
    rewrite Hsnap, Hspelling. simpl. clear Hscope. change (elements ∅) with ([] : list string).
    induction (in_scope c db) as [|a l IH]; simpl; [done|].
    assert (account_plan_matches_allowed (Some (acc_plan_type a)) [] = false) as ->.
    { unfold account_plan_matches_allowed. destruct (_clean_plan_type _) as [p|]; [|done]. cbn [map].
      assert (∀ q, mem q [] = false) as Hnil by done.
      rewrite Hnil. destruct (normalize_account_plan_type (Some p)) as [n|]; [|done].
      by induction (default [] (dict_get ACCOUNT_PLAN_EQUIVALENTS n)). }
    exact IH. }
  eexists. split.
  { unfold read_inputs. rewrite Hc, Ht. simpl. reflexivity. }
  assert (AccountsRepo.list_accounts (AccountsRepo.accounts db) ≠ []) as Hall.
  { intros H0. apply Hscope. unfold in_scope, scoped. rewrite H0. by destruct (c_account_ids c). }
  destruct (AccountsRepo.list_accounts (AccountsRepo.accounts db)); [done|]. by destruct (in_scope c db).
Qed.

End LoadBalancerFacts.
