(* ===== verification/LoadBalancerSamples.v ===== *)
(** Concrete runs of the load balancer service: the guarantees of
    [LoadBalancerFacts] on small worlds, and what a selection inside the grace
    period writes to the accounts table. *)

From S2P Require Import Prelude Models Usage Balancer Resilience QuotaKeys Stores LoadBalancer LoadBalancerFacts.
Import Usage.PlanTypes Usage.UsageCore Usage.Quota Balancer.Logic Balancer.
Import QuotaKeys.QuotaKeys QuotaKeys.QuotaKeyFacts QuotaKeys.ModelRegistry QuotaKeys.RegistryFacts.
Import LoadBalancer.LoadBalancer LoadBalancerFacts.LoadBalancerFacts.

Module LoadBalancerSamples.
Import StoreFacts.

Definition ex_settings : Settings :=
  {| soft_drain_enabled := true; drain_config := default_drain_config; usage_refresh_interval_seconds := 60;
     breaker_settings := {| CircuitBreaker.circuit_breaker_enabled := false;
                            CircuitBreaker.circuit_breaker_failure_threshold := 5;
                            CircuitBreaker.circuit_breaker_recovery_timeout_seconds := 60 |} |}.

Definition ex_world (accounts : list Account) (sticky : list StickySession) : World :=
  {| w_runtime := ∅;
     w_db := {| AccountsRepo.accounts := accounts; AccountsRepo.usage_history := [];
                AccountsRepo.additional_usage_history := []; AccountsRepo.sticky_sessions := sticky;
                AccountsRepo.request_logs := [] |};
     w_cache := {| SelectionCache.ttl_seconds := 5; SelectionCache.cache := ∅; SelectionCache.generation := 0 |};
     w_degradation := Degradation.new;
     w_breakers := {| CircuitBreaker._circuit_breaker := None; CircuitBreaker._account_circuit_breakers := [] |} |}.

(** All clocks read 100 seconds; nothing else runs. *)
Definition ex_clock : StateClock :=
  {| c_guard := 100; c_recent_us := seconds 100; c_cooldown := 100; c_quota1 := 100; c_quota2 := 100;
     c_quota3 := 100; c_tier := 100; c_tier_again := 100; c_drain := 100 |}.
Definition ex_draw : Draw := (100%Q, 0%Q).
Definition ex_draws : StickyDraws :=
  {| d_lookup := seconds 100; d_now := 100; d_pinned := ex_draw; d_pool1 := ex_draw; d_pool2 := ex_draw;
     d_pinned_again := ex_draw; d_grace_now := 100; d_grace := ex_draw; d_choice1 := ex_draw;
     d_choice2 := ex_draw; d_write := seconds 100 |}.
Definition ex_load : LoadEnv :=
  {| l_get := 100; l_utcnow := seconds 100; l_exhausted := λ _, (100%Q, 100%Q); l_dialect := UsageRepo.sqlite;
     l_during := id; l_set := 100 |}.
Definition ex_env : AttemptEnv :=
  {| a_clock := λ _, ex_clock; a_draw1 := ex_draw; a_draw2 := ex_draw; a_sticky := ex_draws; a_before := id;
     a_sync := λ _, 100%Q; a_between := λ _, id; a_after := id; a_reload := ex_load |}.

Definition ex_routing : RoutingRequest :=
  {| budget_threshold_pct := 95; prefer_earlier_reset_accounts := false; req_strategy := round_robin |}.
Definition ex_any : Constraints :=
  {| c_model := None; c_limit_name := None; c_account_ids := None; c_exclude := ∅ |}.
Definition ex_key (reallocate : bool) (max_age : option Z) : StickyRequest :=
  {| req_key := "k"; req_kind := Some PROMPT_CACHE; req_reallocate := reallocate; req_max_age_seconds := max_age |}.

Definition ex_limited (id : string) (until : Z) : Account :=
  (ex_acc id (id ++ "@x")%string) {{ acc_status := RATE_LIMITED; acc_reset_at := Some until }}.
Definition ex_pin (account : string) : StickySession :=
  {| sticky_key := "k"; sticky_kind := PROMPT_CACHE; sticky_account_id := account;
     sticky_created_at := 0; sticky_updated_at := 0 |}.

Definition ex_request (c : Constraints) (k : option StickyRequest) : SelectRequest :=
  {| s_constraints := c; s_routing := ex_routing; s_sticky := k |}.
Definition ex_select (c : Constraints) (k : option StickyRequest) (w : World) :=
  lb_select_account ex_settings ex_maps ex_registry ex_load (λ _, 100%Q) (λ _, ex_env) (ex_request c k) w.

Definition grace_world : World := ex_world [ex_limited "a" 105; ex_acc "b" "b@x"] [ex_pin "a"].

Definition availability_of (id : string) (w : World) :=
  (λ a, (acc_status a, acc_reset_at a)) <$> AccountsRepo.get_by_id id (AccountsRepo.accounts (w_db w)).


(** At 100 seconds an account rate limited until 105 is pinned.  The selection
    ten seconds ahead runs on a copy, so that it "does not mutate the original
    state" that is written back; but the chosen status is copied to that state
    afterwards: the accounts table then says the account is active, with its
    reset still to come, while the same call without the key leaves the row
    rate limited and takes the other account. *)
Theorem grace_persists_active :
  match ex_select ex_any (Some (ex_key false None)) grace_world with
  | Some (Ok (w, sel)) => acc_id <$> selected_account sel = Some "a" ∧ availability_of "a" w = Some (ACTIVE, Some 105%Z)
  | _ => False
  end ∧
  match ex_select ex_any None grace_world with
  | Some (Ok (w, sel)) => acc_id <$> selected_account sel = Some "b" ∧
                          availability_of "a" w = Some (RATE_LIMITED, Some 105%Z)
  | _ => False
  end.
Proof. vm_compute. auto. Qed.

(** *** The guarantees on these worlds *)

Lemma ex_loaded : loaded ex_maps.
Proof. exists ex_data, ex_defs. split; vm_compute; reflexivity. Qed.

Definition ex_built (accounts : list Account) :=
  _build_states ex_settings (λ _, ex_clock)
    {| in_accounts := accounts; latest_primary := ∅; latest_secondary := ∅; runtime_accounts := Some accounts;
       in_error_message := None; in_error_code := None |}.
Definition two_accounts : list Account := [ex_acc "a" "a@x"; ex_acc "b" "b@x"].
Definition two_states : list AccountState := (ex_built two_accounts ∅).1.1.
Definition two_map : gmap string Account := (ex_built two_accounts ∅).1.2.

Definition nth_state (i : nat) : AccountState :=
  nth i two_states (BalancerFacts.ex_account "" PAUSED None None).


Lemma sticky_affinity_witness :
  ∃ states' rows', _select_with_stickiness (ex_key false None) ex_routing ex_draws two_map two_states [ex_pin "b"]
    = Ok (states', rows', Selected (1%nat, nth_state 1)).
Proof.
  destruct (sticky_affinity (ex_key false None) ex_routing PROMPT_CACHE ex_draws two_map two_states [ex_pin "b"]
    "b" 1 (nth_state 1) (nth_state 1))
    as (st & rows & H & _); try (vm_compute; reflexivity); [done..|]. exists st, rows. exact H.
Defined.

Definition ex_registry' : ModelRegistry := update 10 ex_results ex_registry.
Definition ex_model_request (name : string) : Constraints :=
  {| c_model := Some name; c_limit_name := None; c_account_ids := Some {["a"; "b"]}; c_exclude := {["a"]} |}.

Lemma lb_selection_admissible_witness :
  admissible ex_registry' (ex_model_request "gpt-5") (ex_acc "b" "b@x").
Proof.
  eapply (lb_selection_admissible ex_settings ex_maps ex_registry' ex_load (λ _, 100%Q) (λ _, ex_env)
    (ex_request (ex_model_request "gpt-5") None) (ex_world two_accounts [])).
  - exact ex_loaded.
  - intros c e He. cbn [w_cache ex_world SelectionCache.cache] in He. by rewrite lookup_empty in He.
  - intros w Hw. exact Hw.
  - intros k. split_and!; repeat intro; eauto.
  - vm_compute. reflexivity.
  - vm_compute. reflexivity.
Defined.

Definition ex_state (st : AccountStatus) : AccountState := (nth_state 0) {{ status := st }}.

Lemma persist_no_lost_update_witness :
  match _persist_state_if_current (ex_acc "a" "a@x") (ex_state RATE_LIMITED) [ex_limited "a" 105] with
  | (rows', account', ok) => rows' = [ex_limited "a" 105] ∧ ok = false
  end.
Proof.
  pose proof (persist_no_lost_update (ex_acc "a" "a@x") (ex_state RATE_LIMITED) [ex_limited "a" 105]
    [ex_limited "a" 105] (ex_acc "a" "a@x") false ltac:(apply NoDup_singleton) eq_refl) as [_ H].
  split; [exact (proj1 H)|reflexivity].
Defined.

Definition ex_inputs : SelectionInputs :=
  {| in_accounts := two_accounts; latest_primary := ∅; latest_secondary := ∅;
     runtime_accounts := Some two_accounts; in_error_message := None; in_error_code := None |}.
Definition ex_report : report := ReportQuota 100 100 100 100 {| message := None; resets_at := None; resets_in_seconds := None |}.
Definition after_report : World := (apply_report ex_report (ex_acc "a" "a@x") (ex_world two_accounts [])).1.
Definition after_build :=
  _build_states ex_settings (λ _, ex_clock) ex_inputs
    (_prune_runtime (runtime_pool ex_inputs) (w_runtime after_report)).
Definition after_choice := safe_choice ex_routing false ex_draw ex_draw after_build.1.1.

Lemma reported_account_skipped_witness :
  match after_choice.2 with Ok (Selected m) => account_id m.2 ≠ "a" | _ => False end.
Proof.
  pose proof (reported_account_skipped ex_settings (λ _, ex_clock) ex_inputs ex_routing ex_draw ex_draw ex_report
    (ex_acc "a" "a@x") (ex_world two_accounts []) after_build.1.1 after_build.1.2 after_build.2 after_choice.1
    (1%nat, nth 1 after_choice.1 (nth_state 0)) ltac:(done)
    ltac:(apply NoDup_ListNoDup; repeat constructor; simpl; intuition discriminate)
    ltac:(left) ltac:(vm_compute; reflexivity) ltac:(vm_compute; reflexivity)
    ltac:(vm_compute; reflexivity) ltac:(vm_compute; reflexivity)) as [H _].
  vm_compute. vm_compute in H. exact H.
Defined.

Lemma failed_account_excluded_witness :
  match load_selection_inputs ex_settings ex_maps ex_registry ex_load ex_any
          (mark_permanent_failure (ex_acc "a" "a@x") "account_deactivated" (ex_world two_accounts [])).1 with
  | Ok (_, inputs) => "a" ∉ map acc_id (in_accounts inputs)
  | Err _ => False
  end.
Proof.
  destruct (load_selection_inputs _ _ _ _ _ _) as [[w' inputs]|e] eqn:E; [|vm_compute in E; discriminate].
  exact (proj1 (failed_account_excluded ex_settings ex_maps ex_registry (ex_acc "a" "a@x") "account_deactivated"
    (ex_world two_accounts []) (ex_acc "a" "a@x") ex_load ex_any w' inputs ex_loaded
    ltac:(apply NoDup_ListNoDup; repeat constructor; simpl; intuition discriminate) eq_refl ltac:(done) E)).
Defined.

Lemma memory_invariant_witness :
  memory_wf (w_runtime (record_success (ex_acc "a" "a@x") after_report)).
Proof.
  apply (memory_invariant ex_settings ex_maps ex_registry). eapply LbNext; [|apply StepSuccess].
  eapply LbNext; [|apply (StepQuota _ _ _ 100 100 100 100)]. by apply LbStart.
Defined.

Definition ex_spark (id : Z) (account : string) (at_us : Z) (used : Q) : AdditionalUsageHistory :=
  {| ah_id := id; ah_account_id := account; quota_key := "codex_spark"; limit_name := "spark";
     metered_feature := "spark"; ah_window := "primary"; ah_used_percent := used; ah_reset_at := None;
     ah_window_minutes := None; ah_recorded_at := {| wall_us := at_us; utc_offset_us := None |} |}.
Definition ex_sparks : list AdditionalUsageHistory :=
  [ex_spark 1 "a" 10 100; ex_spark 2 "a" 20 30; ex_spark 3 "b" 20 100; ex_spark 4 "c" 5 0].
Definition ex_latest (window : string) (since : option Z) : gmap string AdditionalUsageHistory :=
  match _latest_additional_by_key ex_maps "spark" window ["a"; "b"; "c"] since ex_sparks with
  | Ok m => m
  | Err _ => ∅
  end.

Lemma gated_eligibility_witness :
  (is_Some (ex_latest "primary" None !! "a") ∨ is_Some (ex_latest "secondary" None !! "a")) ∧
  ∀ row, ex_latest "primary" None !! "a" = Some row → _additional_usage_is_exhausted 100 row = false.
Proof.
  destruct (proj1 (gated_eligibility ex_maps "spark" ["a"; "b"; "c"] 8 ex_sparks 100 100 "a"
    (ex_latest "primary" None) (ex_latest "secondary" None) (ex_latest "primary" (Some 8%Z))
    (ex_latest "secondary" (Some 8%Z)) ltac:(vm_compute; reflexivity) ltac:(vm_compute; reflexivity)
    ltac:(vm_compute; reflexivity) ltac:(vm_compute; reflexivity)) ltac:(vm_compute; reflexivity)) as (H1 & H2 & _).
  split; [exact H1|]. intros row Hrow. exact (proj2 (H2 row Hrow)).
Defined.

Lemma model_spelling_refused_witness :
  ∃ inputs, read_inputs ex_settings ex_maps ex_registry' ex_load
    {| c_model := Some "GPT-5"; c_limit_name := None; c_account_ids := None; c_exclude := ∅ |}
    (w_db (ex_world two_accounts [])) = Ok inputs ∧ in_accounts inputs = [].
Proof.
  destruct (model_spelling_refused ex_settings ex_maps ex_registry'
    (default {| models := ∅; model_plans := ∅; plan_models := ∅; fetched_at := 0 |} (_snapshot ex_registry'))
    ex_load {| c_model := Some "GPT-5"; c_limit_name := None; c_account_ids := None; c_exclude := ∅ |} "GPT-5"
    (w_db (ex_world two_accounts [])) ltac:(vm_compute; reflexivity) eq_refl ltac:(done)
    ltac:(split; [vm_compute; eexists; reflexivity|vm_compute; reflexivity]) ltac:(vm_compute; discriminate))
    as (inputs & H1 & H2 & _).
  exists inputs. split; [exact H1|exact H2].
Defined.

End LoadBalancerSamples.
