(* ===== verification/Json.v ===== *)
(** JSON values and the parts of Python's [json] module the proxy uses:
    [json.loads], and [json.dumps] with separators [(",", ":")], with and
    without [sort_keys] and [ensure_ascii].  The theorems: reading what was
    written gives the value back, and two values have the same canonical key
    exactly when they are equal as Python values.

    Characters up to 127 are one [ascii] each; a character above is kept as
    the bytes of its UTF-8 encoding.  A float is an exact decimal: rounding to
    binary64 on reading, and the overflow to infinity, are left out. *)

From S2P Require Import Prelude.

Module Json.

(** ** Values *)

(** [FDec neg c e] is [±c * 10^e]. *)
Inductive pyfloat := FDec (neg : bool) (c : N) (e : Z) | FInf (neg : bool) | FNaN.

(** [JsonValue]: an object is a dict in insertion order. *)
Inductive json :=
  | JNull
  | JBool (b : bool)
  | JInt (n : Z)
  | JFloat (f : pyfloat)
  | JStr (s : string)
  | JList (l : list json)
  | JObj (d : list (string * json)).

(** [json] is nested in lists and pairs: induction with hypotheses for the
    members. *)
Section JsonInd.
Context (P : json → Prop).
Context (Hnull : P JNull) (Hbool : ∀ b, P (JBool b)) (Hint : ∀ n, P (JInt n)) (Hfloat : ∀ f, P (JFloat f)).
Context (Hstr : ∀ s, P (JStr s)).
Context (Hlist : ∀ l, Forall P l → P (JList l)).
Context (Hobj : ∀ d, Forall (λ p, P p.2) d → P (JObj d)).

Fixpoint json_rect' (v : json) : P v :=
  match v with
  | JNull => Hnull
  | JBool b => Hbool b
  | JInt n => Hint n
  | JFloat f => Hfloat f
  | JStr s => Hstr s
  | JList l =>
      Hlist l ((fix go l : Forall P l :=
                  match l with [] => Forall_nil_2 _ | x :: l => Forall_cons_2 _ _ _ (json_rect' x) (go l) end) l)
  | JObj d =>
      Hobj d ((fix go d : Forall (λ p, P p.2) d :=
                 match d with
                 | [] => Forall_nil_2 _
                 | p :: d => Forall_cons_2 (λ p, P p.2) _ _ (json_rect' p.2) (go d)
                 end) d)
  end.
End JsonInd.

#[global] Instance pyfloat_eq : EqDecision pyfloat.
Proof. solve_decision. Defined.

(** [value.get(key)] on a value that may not be a dict; a missing key and a
    [null] are told apart by the caller when it matters. *)
Definition get (k : string) (d : dict json) : option json := dict_get d k.
(** [d.get(k)] as Python sees it: [None] for a missing key. *)
Definition get_or_null (k : string) (d : dict json) : json := default JNull (dict_get d k).
Definition get_str (k : string) (d : dict json) : option string :=
  match dict_get d k with Some (JStr s) => Some s | _ => None end.
Definition get_obj (k : string) (d : dict json) : option (dict json) :=
  match dict_get d k with Some (JObj o) => Some o | _ => None end.
Definition get_list (k : string) (d : dict json) : option (list json) :=
  match dict_get d k with Some (JList l) => Some l | _ => None end.
Definition is_null (v : json) : bool := match v with JNull => true | _ => false end.

(** [d.pop(k, None)], the dict. *)
Definition dict_del {V} (d : dict V) (k : string) : dict V := List.filter (λ p, negb (String.eqb p.1 k)) d.

(** [value.__class__.__name__]. *)
Definition class_name (v : json) : string :=
  match v with
  | JNull => "NoneType" | JBool _ => "bool" | JInt _ => "int" | JFloat _ => "float"
  | JStr _ => "str" | JList _ => "list" | JObj _ => "dict"
  end.

(** ** Digits *)

Definition digit_char (d : N) : ascii := Ascii.ascii_of_N (48 + d).
Definition char_digit (c : ascii) : option N :=
  let n := Ascii.N_of_ascii c in if (48 <=? n)%N && (n <=? 57)%N then Some (n - 48)%N else None.

(** The decimal digits of a number, the most significant first; [0] has one. *)
Fixpoint digits_from (fuel : nat) (n : N) (acc : list N) : list N :=
  match fuel with
  | O => acc
  | S fuel => if (n <? 10)%N then n :: acc else digits_from fuel (n / 10) ((n mod 10)%N :: acc)
  end.
Definition digits (n : N) : list N := digits_from (S (N.size_nat n)) n [].

Definition digits_value (l : list N) : N := fold_left (λ a d, (10 * a + d)%N) l 0%N.

Fixpoint show_digits (l : list N) : string :=
  match l with [] => "" | d :: l => String (digit_char d) (show_digits l) end.

(** The longest run of digits, and the rest. *)
Fixpoint take_digits (s : string) : list N * string :=
  match s with
  | String c r =>
      match char_digit c with
      | Some d => let '(ds, rest) := take_digits r in (d :: ds, rest)
      | None => ([], s)
      end
  | EmptyString => ([], "")
  end.

(** ** Numbers *)

Definition minus (neg : bool) : string := if neg then "-" else "".
Definition show_N (n : N) : string := show_digits (digits n).
Definition show_Z (n : Z) : string := (minus (n <? 0)%Z ++ show_N (Z.abs_N n))%string.

Fixpoint zeros (k : nat) : list N := match k with O => [] | S k => 0%N :: zeros k end.

(** [repr] of a float: the digits with a point if the value is not too large
    or small, else in scientific notation with an exponent of two digits or
    more. *)
Definition show_exponent (e : Z) : string :=
  let n := Z.abs_N e in
  ((if (e <? 0)%Z then "-" else "+") ++ (if (n <? 10)%N then "0" else "") ++ show_N n)%string.

Definition show_dec (c : N) (e : Z) : string :=
  let ds := digits c in
  let point := if (c =? 0)%N then 1%Z else (Z.of_nat (length ds) + e)%Z in
  if (c =? 0)%N then "0.0"
  else if (-4 <? point)%Z && (point <=? 16)%Z then
    if (point <=? 0)%Z then ("0." ++ show_digits (zeros (Z.to_nat (- point)) ++ ds))%string
    else if (Z.of_nat (length ds) <=? point)%Z
    then (show_digits (ds ++ zeros (Z.to_nat (point - Z.of_nat (length ds)))) ++ ".0")%string
    else (show_digits (take (Z.to_nat point) ds) ++ "." ++ show_digits (drop (Z.to_nat point) ds))%string
  else
    (show_digits (take 1 ds) ++ (if Nat.eqb (length ds) 1 then "" else "." ++ show_digits (drop 1 ds))
     ++ "e" ++ show_exponent (point - 1))%string.

Definition show_float (f : pyfloat) : string :=
  match f with
  | FDec neg c e => (minus neg ++ show_dec c e)%string
  | FInf neg => (minus neg ++ "Infinity")%string
  | FNaN => "NaN"
  end.

(** Trailing zeros of the coefficient go to the exponent. *)
Fixpoint strip10 (fuel : nat) (c : N) (e : Z) : N * Z :=
  match fuel with
  | O => (c, e)
  | S fuel => if (c =? 0)%N then (0%N, 0%Z)
              else if (c mod 10 =? 0)%N then strip10 fuel (c / 10) (e + 1) else (c, e)
  end.
Definition make_dec (neg : bool) (c : N) (e : Z) : pyfloat :=
  let '(c, e) := strip10 (S (N.size_nat c)) c e in FDec neg c e.

(** The number pattern: a sign, zero or digits without a leading zero, a
    fraction and an exponent, the last two optional. *)
Definition read_fraction (s : string) : list N * string :=
  match s with
  | String "." r => match take_digits r with ([], _) => ([], s) | (ds, rest) => (ds, rest) end
  | _ => ([], s)
  end.

Definition read_sign (s : string) : bool * string :=
  match s with
  | String "-" r => (true, r)
  | String "+" r => (false, r)
  | _ => (false, s)
  end.

Definition read_exponent (s : string) : option Z * string :=
  match s with
  | String c r =>
      if Ascii.eqb c "e" || Ascii.eqb c "E" then
        let '(neg, r) := read_sign r in
        match take_digits r with
        | ([], _) => (None, s)
        | (ds, rest) => (Some (if neg then - Z.of_N (digits_value ds) else Z.of_N (digits_value ds))%Z, rest)
        end
      else (None, s)
  | EmptyString => (None, s)
  end.

Definition read_integer (s : string) : option (list N * string) :=
  match s with
  | String "0" r => Some ([0%N], r)
  | _ => match take_digits s with ([], _) => None | p => Some p end
  end.

Definition read_number (s : string) : option (json * string) :=
  let '(neg, r) := match s with String "-" r => (true, r) | _ => (false, s) end in
  match read_integer r with
  | None => None
  | Some (ds, rest) =>
      let '(fs, rest1) := read_fraction rest in
      let '(ex, rest2) := read_exponent rest1 in
      Some (match fs, ex with
            | [], None => JInt (if neg then - Z.of_N (digits_value ds) else Z.of_N (digits_value ds))
            | _, _ => JFloat (make_dec neg (digits_value (ds ++ fs)) (default 0%Z ex - Z.of_nat (length fs)))
            end, rest2)
  end.

(** ** Strings *)

Definition hex_char (d : N) : ascii := if (d <? 10)%N then digit_char d else Ascii.ascii_of_N (87 + d).
Definition hex4 (n : N) : string :=
  String (hex_char (n / 4096 mod 16)) (String (hex_char (n / 256 mod 16))
    (String (hex_char (n / 16 mod 16)) (String (hex_char (n mod 16)) ""))).

Definition dquote : ascii := "034".

(** The two-character escapes, by code. *)
Definition short_escape (n : N) : option ascii :=
  if (n =? 34)%N then Some dquote else if (n =? 92)%N then Some "\"%char
  else if (n =? 10)%N then Some "n"%char else if (n =? 13)%N then Some "r"%char
  else if (n =? 9)%N then Some "t"%char else if (n =? 12)%N then Some "f"%char
  else if (n =? 8)%N then Some "b"%char else None.

(** One character, with [ensure_ascii=False]. *)
Definition escape_char (c : ascii) : string :=
  let n := Ascii.N_of_ascii c in
  match short_escape n with
  | Some e => String "\" (String e "")
  | None => if (n <? 32)%N then ("\u" ++ hex4 n)%string else String c ""
  end.

Fixpoint escape (s : string) : string :=
  match s with "" => "" | String c r => (escape_char c ++ escape r)%string end.
Definition quote (body : string) : string := String dquote (body ++ String dquote "").

(** *** UTF-8 *)

Definition byte (n : N) : ascii := Ascii.ascii_of_N n.

(** The bytes of a code point; a lone surrogate is encoded like any other. *)
Definition utf8 (cp : N) : string :=
  if (cp <? 128)%N then String (byte cp) ""
  else if (cp <? 2048)%N then String (byte (192 + cp / 64)) (String (byte (128 + cp mod 64)) "")
  else if (cp <? 65536)%N
  then String (byte (224 + cp / 4096)) (String (byte (128 + cp / 64 mod 64)) (String (byte (128 + cp mod 64)) ""))
  else String (byte (240 + cp / 262144)) (String (byte (128 + cp / 4096 mod 64))
         (String (byte (128 + cp / 64 mod 64)) (String (byte (128 + cp mod 64)) ""))).

(** One code point with [ensure_ascii=True]. *)
Definition escape_point (cp : N) : string :=
  match short_escape cp with
  | Some e => String "\" (String e "")
  | None =>
      if (32 <=? cp)%N && (cp <=? 126)%N then String (byte cp) ""
      else if (cp <? 65536)%N then ("\u" ++ hex4 cp)%string
      else ("\u" ++ hex4 (55296 + (cp - 65536) / 1024) ++ "\u" ++ hex4 (56320 + (cp - 65536) mod 1024))%string
  end.

(** The code points of a text; a byte that starts no sequence stands for
    itself. *)
Definition cont (c : ascii) : N := (Ascii.N_of_ascii c - 128)%N.
Fixpoint code_points (s : string) : list N :=
  match s with
  | "" => []
  | String c r =>
      let n := Ascii.N_of_ascii c in
      if (n <? 192)%N then n :: code_points r
      else if (n <? 224)%N then
        match r with String c1 r => ((n - 192) * 64 + cont c1)%N :: code_points r | _ => [n] end
      else if (n <? 240)%N then
        match r with
        | String c1 (String c2 r) => ((n - 224) * 4096 + cont c1 * 64 + cont c2)%N :: code_points r
        | _ => [n]
        end
      else
        match r with
        | String c1 (String c2 (String c3 r)) =>
            ((n - 240) * 262144 + cont c1 * 4096 + cont c2 * 64 + cont c3)%N :: code_points r
        | _ => [n]
        end
  end.

Definition escape_ascii (s : string) : string := foldr (λ cp t, escape_point cp ++ t)%string "" (code_points s).

(** *** Reading *)

Definition hex_digit (c : ascii) : option N :=
  let n := Ascii.N_of_ascii c in
  if (48 <=? n)%N && (n <=? 57)%N then Some (n - 48)%N
  else if (97 <=? n)%N && (n <=? 102)%N then Some (n - 87)%N
  else if (65 <=? n)%N && (n <=? 70)%N then Some (n - 55)%N else None.

Definition hex4_value (a b c d : ascii) : option N :=
  match hex_digit a, hex_digit b, hex_digit c, hex_digit d with
  | Some x, Some y, Some z, Some w => Some (((x * 16 + y) * 16 + z) * 16 + w)%N
  | _, _, _, _ => None
  end.

Definition unescape_char (c : ascii) : option ascii :=
  if Ascii.eqb c dquote then Some dquote
  else if Ascii.eqb c "\" then Some "\"%char else if Ascii.eqb c "/" then Some "/"%char
  else if Ascii.eqb c "b" then Some "008"%char else if Ascii.eqb c "f" then Some "012"%char
  else if Ascii.eqb c "n" then Some "010"%char else if Ascii.eqb c "r" then Some "013"%char
  else if Ascii.eqb c "t" then Some "009"%char else None.

Definition high_surrogate (n : N) : bool := (55296 <=? n)%N && (n <=? 56319)%N.
Definition low_surrogate (n : N) : bool := (56320 <=? n)%N && (n <=? 57343)%N.
Definition join_surrogates (hi lo : N) : N := (65536 + (hi - 55296) * 1024 + (lo - 56320))%N.

Definition put (prefix : string) (o : option (string * string)) : option (string * string) :=
  match o with Some (s, rest) => Some ((prefix ++ s)%string, rest) | None => None end.

(** After the opening quote: the text up to the closing one, and the rest.  A
    control character is an error. *)
Fixpoint scan_string (s : string) : option (string * string) :=
  match s with
  | "" => None
  | String c r =>
      if Ascii.eqb c dquote then Some ("", r)
      else if Ascii.eqb c "\" then
        match r with
        | "" => None
        | String e r1 =>
            if Ascii.eqb e "u" then
              match r1 with
              | String a (String b (String c' (String d r2))) =>
                  match hex4_value a b c' d with
                  | None => None
                  | Some n =>
                      match r2 with
                      | String "\" (String "u" (String a2 (String b2 (String c2 (String d2 r3))))) =>
                          match (if high_surrogate n then hex4_value a2 b2 c2 d2 else None) with
                          | Some m =>
                              if low_surrogate m then put (utf8 (join_surrogates n m)) (scan_string r3)
                              else put (utf8 n) (scan_string r2)
                          | None => put (utf8 n) (scan_string r2)
                          end
                      | _ => put (utf8 n) (scan_string r2)
                      end
                  end
              | _ => None
              end
            else match unescape_char e with Some x => put (String x "") (scan_string r1) | None => None end
        end
      else if (Ascii.N_of_ascii c <? 32)%N then None
      else put (String c "") (scan_string r)
  end.

(** ** Texts *)

(** [json.dumps(v, separators=(",", ":"))], by how strings are escaped. *)
Definition commas : list string → string := String.concat ",".
Fixpoint write (esc : string → string) (v : json) : string :=
  match v with
  | JNull => "null"
  | JBool b => if b then "true" else "false"
  | JInt n => show_Z n
  | JFloat f => show_float f
  | JStr s => quote (esc s)
  | JList l => ("[" ++ commas (map (write esc) l) ++ "]")%string
  | JObj d => ("{" ++ commas (map (λ p, quote (esc p.1) ++ ":" ++ write esc p.2)%string d) ++ "}")%string
  end.

Definition dumps : json → string := write escape.
Definition dumps_ascii : json → string := write escape_ascii.

(** [sort_keys=True]. *)
Fixpoint sort_keys (v : json) : json :=
  match v with
  | JList l => JList (map sort_keys l)
  | JObj d => JObj (order_by (asc fst) (map (λ p, (p.1, sort_keys p.2)) d))
  | v => v
  end.

Definition is_ws (c : ascii) : bool :=
  Ascii.eqb c " " || Ascii.eqb c "009" || Ascii.eqb c "010" || Ascii.eqb c "013".
Fixpoint skip_ws (s : string) : string :=
  match s with String c r => if is_ws c then skip_ws r else s | "" => "" end.

(** [null], [true], [false] and the three float constants. *)
Definition constants : list (string * json) :=
  [("null", JNull); ("true", JBool true); ("false", JBool false); ("NaN", JFloat FNaN);
   ("Infinity", JFloat (FInf false)); ("-Infinity", JFloat (FInf true))].

Fixpoint strip_prefix (p s : string) : option string :=
  match p, s with
  | "", _ => Some s
  | String a p, String b s => if Ascii.eqb a b then strip_prefix p s else None
  | String _ _, "" => None
  end.

Fixpoint read_constant (cs : list (string * json)) (s : string) : option (json * string) :=
  match cs with
  | [] => None
  | (text, v) :: cs => match strip_prefix text s with Some r => Some (v, r) | None => read_constant cs s end
  end.

Definition read_scalar (s : string) : option (json * string) :=
  match read_number s with Some p => Some p | None => read_constant constants s end.

(** The rest after an expected character. *)
Definition after (c : ascii) (s : string) : option string :=
  match s with String c' r => if Ascii.eqb c' c then Some r else None | "" => None end.

(** A quoted text. *)
Definition read_key (s : string) : option (string * string) :=
  match after dquote s with Some r => scan_string r | None => None end.

(** The value at the start of a text and the rest; [None] is
    [JSONDecodeError].  An element starts at its first character; a member
    starts at its key's quote. *)
Fixpoint read (fuel : nat) (s : string) : option (json * string) :=
  match fuel with
  | O => None
  | S fuel =>
      match s with
      | "" => None
      | String c r =>
          if Ascii.eqb c dquote then
            match scan_string r with Some (t, rest) => Some (JStr t, rest) | None => None end
          else if Ascii.eqb c "[" then
            match after "]" (skip_ws r) with
            | Some rest => Some (JList [], rest)
            | None =>
                match read_elements fuel (skip_ws r) with Some (l, rest) => Some (JList l, rest) | None => None end
            end
          else if Ascii.eqb c "{" then
            match after "}" (skip_ws r) with
            | Some rest => Some (JObj [], rest)
            | None =>
                match read_members fuel (skip_ws r) [] with Some (d, rest) => Some (JObj d, rest) | None => None end
            end
          else read_scalar s
      end
  end
with read_elements (fuel : nat) (s : string) : option (list json * string) :=
  match fuel with
  | O => None
  | S fuel =>
      match read fuel s with
      | None => None
      | Some (v, r) =>
          match after "]" (skip_ws r), after "," (skip_ws r) with
          | Some rest, _ => Some ([v], rest)
          | None, Some r =>
              match read_elements fuel (skip_ws r) with Some (l, rest) => Some (v :: l, rest) | None => None end
          | None, None => None
          end
      end
  end
with read_members (fuel : nat) (s : string) (d : dict json) : option (dict json * string) :=
  match fuel with
  | O => None
  | S fuel =>
      match read_key s with
      | None => None
      | Some (k, r) =>
          match after ":" (skip_ws r) with
          | None => None
          | Some r =>
              match read fuel (skip_ws r) with
              | None => None
              | Some (v, r) =>
                  match after "}" (skip_ws r), after "," (skip_ws r) with
                  | Some rest, _ => Some (dict_set d k v, rest)
                  | None, Some r => read_members fuel (skip_ws r) (dict_set d k v)
                  | None, None => None
                  end
              end
          end
      end
  end.

(** Two units of fuel for each character are enough: see [read_fuel]. *)
Definition loads (s : string) : option json :=
  match read (2 * String.length s + 2) (skip_ws s) with
  | Some (v, rest) => if String.eqb (skip_ws rest) "" then Some v else None
  | None => None
  end.

End Json.

Module JsonFacts.
Import Json.

(** ** Concatenation *)

Lemma app_empty (s : string) : ("" ++ s = s)%string.
Proof. done. Qed.
Lemma app_cons c (a b : string) : (String c a ++ b = String c (a ++ b))%string.
Proof. done. Qed.
Lemma app_assoc' (a b c : string) : ((a ++ b) ++ c = a ++ (b ++ c))%string.
Proof. induction a as [|x a IH]; [done|]. rewrite !app_cons. by f_equal. Qed.
Lemma app_empty_r (s : string) : (s ++ "" = s)%string.
Proof. induction s as [|x s IH]; [done|]. rewrite app_cons. by f_equal. Qed.
Lemma length_app' (a b : string) : String.length (a ++ b) = (String.length a + String.length b)%nat.
Proof. induction a as [|x a IH]; [done|]. rewrite app_cons. simpl. by f_equal. Qed.

Create HintDb strapp.
#[export] Hint Rewrite app_empty app_cons app_assoc' app_empty_r : strapp.
Ltac str_app := autorewrite with strapp.
Ltac str_app_in H := autorewrite with strapp in H.

(** ** Digits *)

Lemma digits_value_acc l a : fold_left (λ a d, (10 * a + d)%N) l a = (a * 10 ^ N.of_nat (length l) + digits_value l)%N.
Proof.
  unfold digits_value. revert a. induction l as [|d l IH]; intros a; simpl length; simpl fold_left; [rewrite N.mul_1_r; lia|].
  rewrite IH, (IH (10 * 0 + d)%N), Nat2N.inj_succ, N.pow_succ_r'. lia.
Qed.

Lemma digits_value_app l1 l2 :
  digits_value (l1 ++ l2) = (digits_value l1 * 10 ^ N.of_nat (length l2) + digits_value l2)%N.
Proof. unfold digits_value at 1. rewrite fold_left_app, digits_value_acc. done. Qed.

Lemma digits_value_cons d l : digits_value (d :: l) = (d * 10 ^ N.of_nat (length l) + digits_value l)%N.
Proof. unfold digits_value at 1. simpl. by rewrite digits_value_acc. Qed.

Lemma digits_value_zeros k : digits_value (zeros k) = 0%N.
Proof. induction k as [|k IH]; [done|]. simpl zeros. by rewrite digits_value_cons, IH. Qed.

Lemma zeros_length k : length (zeros k) = k.
Proof. induction k; simpl; congruence. Qed.

Definition small (l : list N) : Prop := Forall (λ d, (d < 10)%N) l.

Lemma small_zeros k : small (zeros k).
Proof. induction k; constructor; [lia|done]. Qed.

Lemma size_nat_bound n : (n < 2 ^ N.of_nat (N.size_nat n))%N.
Proof.
  destruct n as [|p]; [done|]. change (N.size_nat (N.pos p)) with (Pos.size_nat p).
  induction p as [p IH|p IH|]; [..|done]; cbn [Pos.size_nat]; rewrite Nat2N.inj_succ, N.pow_succ_r'; lia.
Qed.

Lemma digits_from_spec fuel n acc :
  (n < 2 ^ N.of_nat fuel)%N → small acc →
  let l := digits_from (S fuel) n acc in
  digits_value l = (n * 10 ^ N.of_nat (length acc) + digits_value acc)%N ∧ small l ∧
  ∃ d l', l = d :: l' ∧ (n ≠ 0%N → d ≠ 0%N) ∧ (n = 0%N → l' = acc).
Proof.
  cbv zeta. revert n acc. induction fuel as [|fuel IH]; intros n acc Hn Hs.
  - assert (n = 0%N) as -> by (simpl in Hn; lia). simpl. rewrite digits_value_cons. split_and!; [lia|by constructor|eauto].
  - change (digits_from (S (S fuel)) n acc) with
      (if (n <? 10)%N then n :: acc else digits_from (S fuel) (n / 10) ((n mod 10)%N :: acc)).
    destruct (N.ltb_spec n 10) as [Hlt|Hge].
    + rewrite digits_value_cons. split_and!; [done|by constructor|eauto].
    + assert (n / 10 < 2 ^ N.of_nat fuel)%N as Hq.
      { apply N.Div0.div_lt_upper_bound. rewrite Nat2N.inj_succ, N.pow_succ_r' in Hn. lia. }
      assert ((n mod 10 < 10)%N) as Hr by (apply N.mod_lt; lia).
      destruct (IH (n / 10)%N ((n mod 10)%N :: acc) Hq ltac:(by constructor)) as (Hv & Hd & d & l' & Hl & Hnz & _).
      split_and!; [|done|].
      * rewrite Hv, digits_value_cons. simpl length. rewrite Nat2N.inj_succ, N.pow_succ_r'.
        pose proof (N.div_mod' n 10). nia.
      * exists d, l'. split_and!; [done| |lia]. intros _. apply Hnz. intros H0.
        apply N.div_small_iff in H0; lia.
Qed.

Lemma digits_spec n :
  digits_value (digits n) = n ∧ small (digits n) ∧ ∃ d l, digits n = d :: l ∧ (n ≠ 0%N → d ≠ 0%N) ∧ (n = 0%N → l = []).
Proof.
  destruct (digits_from_spec (N.size_nat n) n [] (size_nat_bound n) (Forall_nil_2 _)) as (Hv & Hs & H).
  split_and!; [|done|done]. unfold digits. rewrite Hv. simpl. rewrite N.mul_1_r. apply N.add_0_r.
Qed.

Lemma char_digit_char d : (d < 10)%N → char_digit (digit_char d) = Some d.
Proof.
  intros H. assert (d ∈ [0; 1; 2; 3; 4; 5; 6; 7; 8; 9]%N) as Hd by (rewrite !elem_of_cons; lia).
  repeat (apply elem_of_cons in Hd as [->|Hd]; [reflexivity|]). by apply elem_of_nil in Hd.
Qed.

(** The next character is no digit. *)
Definition no_digit (s : string) : Prop := match s with String c _ => char_digit c = None | "" => True end.

Lemma take_show_digits l rest : small l → no_digit rest → take_digits (show_digits l ++ rest) = (l, rest).
Proof.
  intros Hs Hr. induction Hs as [|d l Hd _ IH]; simpl show_digits; str_app.
  - destruct rest as [|c r]; [done|]. simpl in *. by rewrite Hr.
  - simpl. by rewrite char_digit_char, IH.
Qed.

Lemma show_digits_app l1 l2 : show_digits (l1 ++ l2) = (show_digits l1 ++ show_digits l2)%string.
Proof. induction l1 as [|d l1 IH]; simpl; str_app; congruence. Qed.

(** ** Numbers *)

(** What follows a value in a text that was written: nothing, or the end of
    the element. *)
Definition stops (s : string) : Prop :=
  match s with "" => True | String c _ => c = ","%char ∨ c = "]"%char ∨ c = "}"%char end.

Lemma stops_no_digit s : stops s → no_digit s.
Proof. destruct s as [|c s]; [done|]. by intros [->|[->| ->]]. Qed.
Lemma stops_fraction s : stops s → read_fraction s = ([], s).
Proof. destruct s as [|c s]; [done|]. by intros [->|[->| ->]]. Qed.
Lemma stops_exponent s : stops s → read_exponent s = (None, s).
Proof. destruct s as [|c s]; [done|]. by intros [->|[->| ->]]. Qed.

Ltac each_digit H :=
  match type of H with (?d < 10)%N =>
    let Hd := fresh in
    assert (d ∈ [0; 1; 2; 3; 4; 5; 6; 7; 8; 9]%N) as Hd by (rewrite !elem_of_cons; lia);
    repeat (apply elem_of_cons in Hd as [->|Hd]); [..|by apply elem_of_nil in Hd]
  end.

Lemma read_integer_digits d l rest :
  small (d :: l) → d ≠ 0%N → no_digit rest → read_integer (show_digits (d :: l) ++ rest) = Some (d :: l, rest).
Proof.
  intros Hs Hd Hr. pose proof (take_show_digits _ _ Hs Hr) as Ht. apply Forall_cons in Hs as [Hlt _].
  unfold read_integer. rewrite Ht. simpl show_digits. str_app. each_digit Hlt; done.
Qed.

Lemma read_integer_zero rest : read_integer ("0" ++ rest) = Some ([0%N], rest).
Proof. done. Qed.

Lemma read_integer_N n rest : no_digit rest → read_integer (show_N n ++ rest) = Some (digits n, rest).
Proof.
  intros Hr. destruct (digits_spec n) as (_ & Hs & d & l & Hl & Hnz & Hz). unfold show_N.
  destruct (decide (n = 0%N)) as [->|Hn].
  - done.
  - rewrite Hl in *. apply read_integer_digits; auto.
Qed.

Lemma show_N_head n : ∃ d r, (d < 10)%N ∧ show_N n = String (digit_char d) r.
Proof.
  destruct (digits_spec n) as (_ & Hs & d & l & Hl & _). unfold show_N. rewrite Hl in *.
  apply Forall_cons in Hs as [Hd _]. simpl. eauto.
Qed.

(** The sign in front of a digit. *)
Lemma read_number_sign neg c r :
  is_Some (char_digit c) →
  (match (minus neg ++ String c r)%string with String "-" r => (true, r) | _ => (false, (minus neg ++ String c r)%string) end)
  = (neg, String c r).
Proof.
  intros Hc. destruct neg; [done|]. unfold minus. str_app. destruct (Ascii.eqb_spec c "-"%char) as [->|Hne].
  - by destruct Hc.
  - destruct c as [[] [] [] [] [] [] [] []]; done.
Qed.

Lemma read_int n rest : stops rest → read_number (show_Z n ++ rest) = Some (JInt n, rest).
Proof.
  intros Hst. unfold read_number, show_Z. destruct (show_N_head (Z.abs_N n)) as (d & r & Hd & Hr).
  str_app. rewrite Hr, app_cons, read_number_sign by (rewrite char_digit_char; done).
  rewrite <- app_cons, <- Hr, read_integer_N by by apply stops_no_digit.
  rewrite (stops_fraction _ Hst), (stops_exponent _ Hst). destruct (digits_spec (Z.abs_N n)) as (-> & _).
  do 3 f_equal. destruct (Z.ltb_spec n 0); lia.
Qed.

Definition float_wf (f : pyfloat) : Prop :=
  match f with FDec _ c e => if (c =? 0)%N then e = 0%Z else (c mod 10 ≠ 0)%N | _ => True end.

Lemma strip10_spec fuel c k e :
  (c mod 10 ≠ 0)%N → (k < fuel)%nat → strip10 fuel (c * 10 ^ N.of_nat k)%N e = (c, (e + Z.of_nat k)%Z).
Proof.
  intros Hc. assert (c ≠ 0%N) as Hc0 by (intros ->; done).
  revert k e. induction fuel as [|fuel IH]; intros k e Hk; [lia|]. cbn [strip10].
  assert ((c * 10 ^ N.of_nat k)%N ≠ 0%N) as Hnz by (pose proof (N.pow_nonzero 10 (N.of_nat k)); lia).
  apply N.eqb_neq in Hnz as ->. destruct k as [|k].
  - change (10 ^ N.of_nat 0)%N with 1%N. rewrite N.mul_1_r. apply N.eqb_neq in Hc as ->. f_equal. lia.
  - rewrite Nat2N.inj_succ, N.pow_succ_r'.
    replace (c * (10 * 10 ^ N.of_nat k))%N with (c * 10 ^ N.of_nat k * 10)%N by lia.
    rewrite N.Div0.mod_mul, N.div_mul by lia. simpl. rewrite IH by lia. f_equal. lia.
Qed.

Lemma make_dec_shift neg c k e :
  (c mod 10 ≠ 0)%N → make_dec neg (c * 10 ^ N.of_nat k)%N e = FDec neg c (e + Z.of_nat k).
Proof.
  intros Hc. unfold make_dec. rewrite strip10_spec; [done..|].
  set (m := (c * 10 ^ N.of_nat k)%N). pose proof (size_nat_bound m) as Hb.
  assert (2 ^ N.of_nat k <= m)%N as Hle.
  { unfold m. assert (c ≠ 0%N) by (intros ->; done).
    assert (2 ^ N.of_nat k <= 10 ^ N.of_nat k)%N by (apply N.pow_le_mono_l; lia). nia. }
  assert (2 ^ N.of_nat k < 2 ^ N.of_nat (N.size_nat m))%N as Hlt by lia.
  apply N.pow_lt_mono_r_iff in Hlt; lia.
Qed.

Lemma make_dec_normal neg c e : (c mod 10 ≠ 0)%N → make_dec neg c e = FDec neg c e.
Proof.
  intros Hc. pose proof (make_dec_shift neg c 0 e Hc) as H. change (10 ^ N.of_nat 0)%N with 1%N in H.
  rewrite N.mul_1_r in H. rewrite H. f_equal. lia.
Qed.

Lemma read_exponent_show e rest :
  no_digit rest → read_exponent (String "e" (show_exponent e ++ rest)) = (Some e, rest).
Proof.
  intros Hr. unfold read_exponent, show_exponent. simpl Ascii.eqb. simpl orb. cbv iota.
  set (n := Z.abs_N e). set (pad := if (n <? 10)%N then _ else _).
  destruct (digits_spec n) as (Hv & Hs & d & l & Hl & _).
  assert (take_digits (pad ++ show_N n ++ rest) =
    ((if (n <? 10)%N then [0%N] else []) ++ digits n, rest)) as Ht.
  { unfold pad, show_N. pose proof (take_show_digits _ rest Hs Hr) as Ht.
    destruct (n <? 10)%N; [|done]. change ("0" ++ show_digits (digits n) ++ rest)%string with
      (String "0" (show_digits (digits n) ++ rest)). simpl. by rewrite Ht. }
  assert (digits_value ((if (n <? 10)%N then [0%N] else []) ++ digits n) = n) as Hval by (by destruct (n <? 10)%N).
  destruct (Z.ltb_spec e 0); str_app; cbn [read_sign]; rewrite Ht;
    (destruct (_ ++ digits n) eqn:E; [apply (f_equal length) in E; rewrite length_app, Hl in E; simpl in E; lia|]);
    rewrite Hval; f_equal; f_equal; lia.
Qed.

(** A number with a fraction or an exponent, from its pieces. *)
Lemma read_pieces neg ds text fs ex rest rest1 :
  read_integer text = Some (ds, rest) →
  (∃ c r, text = String c r ∧ is_Some (char_digit c)) →
  (let '(fs', rest1') := read_fraction rest in fs' = fs ∧ read_exponent rest1' = (ex, rest1)) →
  fs ≠ [] ∨ ex ≠ None →
  read_number (minus neg ++ text) =
  Some (JFloat (make_dec neg (digits_value (ds ++ fs)) (default 0%Z ex - Z.of_nat (length fs))), rest1).
Proof.
  intros Hi (c & r & -> & Hc) Hf Hne. unfold read_number. rewrite read_number_sign, Hi by done.
  destruct (read_fraction rest) as [fs' rest1']. destruct Hf as [-> ->].
  destruct fs, ex; try done. by destruct Hne.
Qed.

Lemma read_fraction_digits d l rest :
  small (d :: l) → no_digit rest → read_fraction (String "." (show_digits (d :: l) ++ rest)) = (d :: l, rest).
Proof. intros Hs Hr. unfold read_fraction. by rewrite take_show_digits. Qed.

Lemma small_sub l l1 l2 : small l → l = l1 ++ l2 → small l1 ∧ small l2.
Proof. intros H ->. by apply Forall_app in H. Qed.

Lemma digit_head d l rest : (d < 10)%N → ∃ c r, (show_digits (d :: l) ++ rest)%string = String c r ∧ is_Some (char_digit c).
Proof. intros Hd. eexists _, _. split; [reflexivity|]. by rewrite char_digit_char. Qed.

Section Decimal.
Context (neg : bool) (c : N) (e : Z) (rest : string).
Context (Hc : (c mod 10 ≠ 0)%N) (Hst : stops rest).
Context (d : N) (l : list N) (Hl : digits c = d :: l) (Hd : d ≠ 0%N) (Hs : small (d :: l)).
Context (Hv : digits_value (d :: l) = c).

Lemma read_below_one :
  let k := Z.to_nat (- (Z.of_nat (S (length l)) + e)) in
  (Z.of_nat (S (length l)) + e <= 0)%Z →
  read_number (minus neg ++ ("0." ++ show_digits (zeros k ++ d :: l)) ++ rest) = Some (JFloat (FDec neg c e), rest).
Proof.
  cbv zeta. intros Hle. set (k := Z.to_nat _).
  assert (small (zeros k ++ d :: l)) as Hsm by (apply Forall_app; split; [apply small_zeros|done]).
  destruct (zeros k ++ d :: l) as [|x fs] eqn:Ef; [by destruct k|].
  rewrite (read_pieces neg [0%N] _ (x :: fs) None (String "." (show_digits (x :: fs) ++ rest)) rest).
  - do 3 f_equal. rewrite <- Ef. change ([0%N] ++ zeros k ++ d :: l) with (zeros (S k) ++ d :: l).
    rewrite digits_value_app, digits_value_zeros, Hv, N.mul_0_l, N.add_0_l, make_dec_normal, length_app, zeros_length by done.
    simpl length. simpl default. f_equal. lia.
  - done.
  - str_app. eexists _, _. split; [reflexivity|]. done.
  - rewrite read_fraction_digits by (first [done|by apply stops_no_digit]). by rewrite stops_exponent.
  - by left.
Qed.

Lemma read_above_digits :
  let k := Z.to_nat e in
  (0 <= e)%Z →
  read_number (minus neg ++ (show_digits ((d :: l) ++ zeros k) ++ ".0") ++ rest) = Some (JFloat (FDec neg c e), rest).
Proof.
  cbv zeta. intros He. set (k := Z.to_nat e). str_app.
  assert (small ((d :: l) ++ zeros k)) as Hsm by (apply Forall_app; split; [done|apply small_zeros]).
  rewrite (read_pieces neg ((d :: l) ++ zeros k) _ [0%N] None (".0" ++ rest)%string rest).
  - do 3 f_equal. change [0%N] with (zeros 1). rewrite !digits_value_app, !digits_value_zeros, !zeros_length, Hv, !N.add_0_r.
    rewrite <- N.mul_assoc, <- N.pow_add_r, <- Nat2N.inj_add, make_dec_shift by done. simpl default. f_equal. lia.
  - apply read_integer_digits; [done|done|]. done.
  - apply digit_head. by inversion_clear Hs.
  - change (".0" ++ rest)%string with (String "." (show_digits [0%N] ++ rest)).
    rewrite read_fraction_digits by (first [apply (small_zeros 1)|by apply stops_no_digit]). by rewrite stops_exponent.
  - by left.
Qed.

Lemma read_inside n x y fs :
  (0 < n)%nat → take n (d :: l) = d :: x → drop n (d :: l) = y :: fs →
  read_number (minus neg ++ (show_digits (d :: x) ++ "." ++ show_digits (y :: fs)) ++ rest)
  = Some (JFloat (FDec neg c (- Z.of_nat (S (length l) - n))), rest).
Proof.
  intros Hn Ht Hdr. assert (d :: l = (d :: x) ++ y :: fs) as Hsplit by (rewrite <- Ht, <- Hdr; by rewrite take_drop).
  destruct (small_sub _ _ _ Hs Hsplit) as [Hs1 Hs2]. str_app.
  rewrite (read_pieces neg (d :: x) _ (y :: fs) None (String "." (show_digits (y :: fs) ++ rest)) rest).
  - do 3 f_equal. rewrite <- Hsplit, Hv, make_dec_normal by done. f_equal. simpl default.
    rewrite <- Hdr, length_drop. simpl. lia.
  - by apply read_integer_digits.
  - apply digit_head. by inversion_clear Hs.
  - rewrite read_fraction_digits by (first [done|by apply stops_no_digit]). by rewrite stops_exponent.
  - by left.
Qed.

Lemma read_scientific ex :
  read_number (minus neg ++ (show_digits [d] ++ (if Nat.eqb (length (d :: l)) 1 then "" else "." ++ show_digits l)
    ++ "e" ++ show_exponent ex) ++ rest)
  = Some (JFloat (FDec neg c (ex - Z.of_nat (length l))), rest).
Proof.
  assert (small [d] ∧ small l) as [Hs1 Hs2] by by apply (small_sub _ [d] l Hs).
  str_app.
  rewrite (read_pieces neg [d] _ l (Some ex)
    ((if Nat.eqb (length (d :: l)) 1 then "" else "." ++ show_digits l) ++ String "e" (show_exponent ex ++ rest)) rest).
  - do 3 f_equal. change ([d] ++ l) with (d :: l). by rewrite Hv, make_dec_normal.
  - apply read_integer_digits; [done..|]. by destruct (Nat.eqb _ 1).
  - apply digit_head. by inversion_clear Hs.
  - destruct l as [|y l'].
    + simpl Nat.eqb. cbv iota. str_app. split; [done|]. by rewrite read_exponent_show by by apply stops_no_digit.
    + simpl Nat.eqb. cbv iota. str_app. rewrite read_fraction_digits by done.
      by rewrite read_exponent_show by by apply stops_no_digit.
  - by right.
Qed.
End Decimal.

Lemma read_dec neg c e rest :
  float_wf (FDec neg c e) → stops rest →
  read_number (minus neg ++ show_dec c e ++ rest) = Some (JFloat (FDec neg c e), rest).
Proof.
  intros Hwf Hst. unfold float_wf in Hwf. unfold show_dec. destruct (N.eqb_spec c 0) as [->|Hc0].
  - subst e. str_app. rewrite (read_pieces neg [0%N] _ [0%N] None (String "." (show_digits [0%N] ++ rest)) rest).
    + done.
    + done.
    + eexists _, _. split; [reflexivity|done].
    + rewrite read_fraction_digits by (first [apply (small_zeros 1)|by apply stops_no_digit]). by rewrite stops_exponent.
    + by left.
  - destruct (digits_spec c) as (Hv & Hs & d & l & Hl & Hd & _). specialize (Hd Hc0). rewrite Hl in *.
    set (n := Z.of_nat (length (d :: l))). set (point := (n + e)%Z).
    destruct ((-4 <? point)%Z && (point <=? 16)%Z).
    + destruct (Z.leb_spec point 0) as [Hle|Hgt]; [by eapply read_below_one|].
      destruct (Z.leb_spec n point) as [Hle|Hlt].
      * replace (point - n)%Z with e by lia. eapply read_above_digits; try done. lia.
      * assert (0 < Z.to_nat point < length (d :: l))%nat as Hp by (subst n; lia).
        destruct (Z.to_nat point) as [|m] eqn:Em; [lia|]. simpl take. simpl drop.
        destruct (drop m l) as [|y fs] eqn:Edr.
        { apply (f_equal length) in Edr. rewrite length_drop in Edr. simpl in *. lia. }
        rewrite (read_inside neg c rest Hwf Hst d l) with (n := S m); [|done..|lia|done|done].
        do 4 f_equal. subst n point. simpl length in *. lia.
    + simpl take. simpl drop. rewrite (read_scientific neg c rest Hwf Hst d l) by done.
      do 4 f_equal. subst n point. simpl length. lia.
Qed.

Lemma read_float f rest : float_wf f → stops rest → read_scalar (show_float f ++ rest) = Some (JFloat f, rest).
Proof.
  intros Hf Hst. unfold read_scalar. destruct f as [neg c e|[]|]; simpl show_float; [|done..].
  by rewrite app_assoc', read_dec.
Qed.

(** ** Strings *)

Lemma put_put a b o : put a (put b o) = put (a ++ b)%string o.
Proof. destruct o as [[s r]|]; [|done]. simpl. by rewrite app_assoc'. Qed.

Lemma hex_digit_char n : (n < 16)%N → hex_digit (hex_char n) = Some n.
Proof.
  intros H. assert (n ∈ [0;1;2;3;4;5;6;7;8;9;10;11;12;13;14;15]%N) as Hd by (rewrite !elem_of_cons; lia).
  repeat (apply elem_of_cons in Hd as [->|Hd]; [reflexivity|]). by apply elem_of_nil in Hd.
Qed.

Lemma hex4_read n : (n < 65536)%N →
  hex4_value (hex_char (n / 4096 mod 16)) (hex_char (n / 256 mod 16)) (hex_char (n / 16 mod 16)) (hex_char (n mod 16))
  = Some n.
Proof.
  intros H. unfold hex4_value. rewrite !hex_digit_char by (apply N.mod_lt; lia). f_equal.
  rewrite !N.Div0.mod_eq.
  assert (n / 4096 / 16 = 0)%N as H1 by (rewrite N.Div0.div_div; apply N.div_small; lia).
  assert (n / 256 / 16 = n / 4096)%N as H2 by by rewrite N.Div0.div_div.
  assert (n / 16 / 16 = n / 256)%N as H3 by by rewrite N.Div0.div_div.
  rewrite H1, H2, H3.
  pose proof (N.Div0.mul_div_le n 16). pose proof (N.Div0.mul_div_le (n / 16) 16) as L2.
  pose proof (N.Div0.mul_div_le (n / 256) 16) as L3. rewrite H3 in L2. rewrite H2 in L3. clear H1 H2 H3.
  generalize dependent (n / 16)%N. generalize dependent (n / 256)%N. generalize dependent (n / 4096)%N. lia.
Qed.

Lemma scan_plain c s :
  Ascii.eqb c dquote = false → Ascii.eqb c "\" = false → (32 <= Ascii.N_of_ascii c)%N →
  scan_string (String c s) = put (String c "") (scan_string s).
Proof. intros H1 H2 H3. cbn [scan_string]. rewrite H1, H2. by apply N.ltb_ge in H3 as ->. Qed.

(** A six-character escape that does not begin a surrogate pair. *)
Lemma scan_unicode n s :
  (n < 65536)%N → high_surrogate n = false → scan_string ("\u" ++ hex4 n ++ s) = put (utf8 n) (scan_string s).
Proof.
  intros Hn Hh. unfold hex4. str_app. cbn [scan_string]. simpl Ascii.eqb. cbv iota.
  rewrite hex4_read, Hh by done.
  destruct s as [|x1 s1]; [done|]. destruct x1 as [[] [] [] [] [] [] [] []]; try done.
  destruct s1 as [|x2 s2]; [done|]. destruct x2 as [[] [] [] [] [] [] [] []]; try done.
  destruct s2 as [|? [|? [|? [|? ?]]]]; done.
Qed.

Lemma ascii_roundtrip c : byte (Ascii.N_of_ascii c) = c.
Proof. apply Ascii.ascii_N_embedding. Qed.

Lemma scan_escape_char c s : scan_string (escape_char c ++ s) = put (String c "") (scan_string s).
Proof.
  unfold escape_char. destruct (short_escape (Ascii.N_of_ascii c)) as [x|] eqn:E.
  - destruct c as [[] [] [] [] [] [] [] []]; try done; by injection E as <-.
  - destruct (N.ltb_spec (Ascii.N_of_ascii c) 32) as [Hlt|Hge].
    + rewrite app_assoc', scan_unicode; [|lia|].
      * do 2 f_equal. unfold utf8. replace (Ascii.N_of_ascii c <? 128)%N with true by (symmetry; apply N.ltb_lt; lia).
        by rewrite ascii_roundtrip.
      * unfold high_surrogate. replace (55296 <=? Ascii.N_of_ascii c)%N with false by (symmetry; apply N.leb_gt; lia). done.
    + str_app. apply scan_plain; [..|done]; destruct (Ascii.eqb_spec c dquote) as [->|]; try done;
        by destruct (Ascii.eqb_spec c "\"%char) as [->|].
Qed.

(** Reading gives back a text that was escaped with [esc]. *)
Definition reads_back (esc : string → string) (s : string) : Prop :=
  ∀ rest, scan_string (esc s ++ String dquote rest) = Some (s, rest).

Lemma escape_reads_back s : reads_back escape s.
Proof.
  intros rest. induction s as [|c s IH]; [done|]. cbn [escape]. rewrite app_assoc', scan_escape_char, IH. done.
Qed.

(** *** Texts of Unicode characters *)

Definition scalar (cp : N) : Prop := (cp < 1114112)%N ∧ high_surrogate cp = false ∧ low_surrogate cp = false.
Definition utf8_all (cps : list N) : string := foldr (λ cp t, utf8 cp ++ t)%string "" cps.
(** The text is the encoding of characters. *)
Definition unicode (s : string) : Prop := ∃ cps, Forall scalar cps ∧ s = utf8_all cps.

Lemma byte_code n : (n < 256)%N → Ascii.N_of_ascii (byte n) = n.
Proof. apply Ascii.N_ascii_embedding. Qed.

Lemma cont_byte x : (x < 64)%N → cont (byte (128 + x)) = x.
Proof. intros H. unfold cont. rewrite byte_code by lia. lia. Qed.

Ltac decide_ltb :=
  repeat match goal with
  | |- context [(?x <? ?y)%N] =>
      first [replace (x <? y)%N with true by (symmetry; apply N.ltb_lt; lia)
            |replace (x <? y)%N with false by (symmetry; apply N.ltb_ge; lia)]
  end.

(** The sequences of one to four bytes. *)
Lemma points_1 a s : (a < 128)%N → code_points (String (byte a) s) = a :: code_points s.
Proof. intros. cbn [code_points]. rewrite byte_code by lia. by decide_ltb. Qed.
Lemma points_2 a b s : (a < 32)%N → (b < 64)%N →
  code_points (String (byte (192 + a)) (String (byte (128 + b)) s)) = (a * 64 + b)%N :: code_points s.
Proof. intros. cbn [code_points]. rewrite byte_code, cont_byte by lia. decide_ltb. f_equal. lia. Qed.
Lemma points_3 a b c s : (a < 16)%N → (b < 64)%N → (c < 64)%N →
  code_points (String (byte (224 + a)) (String (byte (128 + b)) (String (byte (128 + c)) s)))
  = ((a * 64 + b) * 64 + c)%N :: code_points s.
Proof. intros. cbn [code_points]. rewrite byte_code, !cont_byte by lia. decide_ltb. f_equal. lia. Qed.
Lemma points_4 a b c d s : (a < 16)%N → (b < 64)%N → (c < 64)%N → (d < 64)%N →
  code_points (String (byte (240 + a)) (String (byte (128 + b)) (String (byte (128 + c)) (String (byte (128 + d)) s))))
  = (((a * 64 + b) * 64 + c) * 64 + d)%N :: code_points s.
Proof. intros. cbn [code_points]. rewrite byte_code, !cont_byte by lia. decide_ltb. f_equal. lia. Qed.

Lemma split64 a b c : (c = b * 64)%N → (a / b = a / c * 64 + a / b mod 64)%N.
Proof.
  intros ->. rewrite <- N.Div0.div_div, N.mul_comm. apply N.div_mod'.
Qed.

Lemma code_points_utf8 cp s : (cp < 1114112)%N → code_points (utf8 cp ++ s) = cp :: code_points s.
Proof.
  intros Hcp. assert (∀ a, (a mod 64 < 64)%N) as Hm by (intros a; apply N.mod_lt; lia).
  pose proof (split64 cp 1 64 eq_refl) as E1. rewrite N.div_1_r in E1.
  pose proof (split64 cp 64 4096 eq_refl) as E2. pose proof (split64 cp 4096 262144 eq_refl) as E3.
  unfold utf8. destruct (N.ltb_spec cp 128); [|destruct (N.ltb_spec cp 2048); [|destruct (N.ltb_spec cp 65536)]]; str_app.
  - by apply points_1.
  - rewrite points_2 by (first [apply Hm|apply N.Div0.div_lt_upper_bound; lia]). by rewrite <- E1.
  - rewrite points_3 by (first [apply Hm|apply N.Div0.div_lt_upper_bound; lia]). by rewrite <- E2, <- E1.
  - rewrite points_4 by (first [apply Hm|apply N.Div0.div_lt_upper_bound; lia]). by rewrite <- E3, <- E2, <- E1.
Qed.

(** Two escapes that form a surrogate pair. *)
Lemma scan_pair hi lo s :
  high_surrogate hi = true → low_surrogate lo = true →
  scan_string ("\u" ++ hex4 hi ++ "\u" ++ hex4 lo ++ s) = put (utf8 (join_surrogates hi lo)) (scan_string s).
Proof.
  intros Hh Hl. pose proof Hh as [Hh1 Hh2]%andb_true_iff. pose proof Hl as [Hl1 Hl2]%andb_true_iff.
  apply N.leb_le in Hh1, Hh2, Hl1, Hl2.
  unfold hex4. str_app. cbn [scan_string]. simpl Ascii.eqb. cbv iota.
  by rewrite !hex4_read, Hh, Hl by lia.
Qed.

Lemma scan_escape_point cp s : scalar cp → scan_string (escape_point cp ++ s) = put (utf8 cp) (scan_string s).
Proof.
  intros (Hcp & Hh & Hlo). unfold escape_point. destruct (short_escape cp) as [x|] eqn:E.
  { unfold short_escape in E. repeat match type of E with
    | (if (?a =? ?b)%N then _ else _) = _ => destruct (N.eqb_spec a b) as [->|]; [by injection E as <-|]
    end. done. }
  destruct ((32 <=? cp)%N && (cp <=? 126)%N) eqn:Er.
  { apply andb_true_iff in Er as [H1%N.leb_le H2%N.leb_le]. str_app.
    assert (utf8 cp = String (byte cp) "") as -> by (unfold utf8; by replace (cp <? 128)%N with true by (symmetry; apply N.ltb_lt; lia)).
    apply scan_plain; [| |rewrite byte_code by lia; lia].
    - apply Ascii.eqb_neq. intros H. apply (f_equal Ascii.N_of_ascii) in H. rewrite byte_code in H by lia. by subst.
    - apply Ascii.eqb_neq. intros H. apply (f_equal Ascii.N_of_ascii) in H. rewrite byte_code in H by lia. by subst. }
  destruct (N.ltb_spec cp 65536) as [H3|H3].
  { rewrite app_assoc'. by apply scan_unicode. }
  assert ((cp - 65536) mod 1024 < 1024)%N by (apply N.mod_lt; lia).
  assert ((cp - 65536) / 1024 < 1024)%N by (apply N.Div0.div_lt_upper_bound; lia).
  pose proof (N.div_mod' (cp - 65536) 1024) as Hdm.
  generalize dependent ((cp - 65536) / 1024)%N. generalize dependent ((cp - 65536) mod 1024)%N. intros lo Hlo' hi Hhi Hdm.
  rewrite !app_assoc', scan_pair.
  - do 2 f_equal. unfold join_surrogates. lia.
  - apply andb_true_iff. split; apply N.leb_le; lia.
  - apply andb_true_iff. split; apply N.leb_le; lia.
Qed.

Lemma ascii_reads_back s : unicode s → reads_back escape_ascii s.
Proof.
  intros (cps & Hs & ->) rest. unfold escape_ascii.
  assert (code_points (utf8_all cps) = cps) as ->.
  { induction Hs as [|cp cps [Hcp _] _ IH]; [done|]. cbn [utf8_all foldr]. rewrite code_points_utf8 by done. by f_equal. }
  induction Hs as [|cp cps Hcp _ IH]; [done|]. cbn [foldr utf8_all].
  rewrite app_assoc', scan_escape_point, IH by done. done.
Qed.

(** ** Reading what was written *)

(** A value as Python holds it: keys are distinct, a float is in lowest terms,
    and every text satisfies [P]. *)
Fixpoint wf (P : string → Prop) (v : json) : Prop :=
  match v with
  | JFloat f => float_wf f
  | JStr s => P s
  | JList l => foldr (λ x acc, wf P x ∧ acc) True l
  | JObj d => NoDup d.*1 ∧ foldr (λ p acc, (P p.1 ∧ wf P p.2) ∧ acc) True d
  | _ => True
  end.

Lemma foldr_and_Forall {A} (Q : A → Prop) l : foldr (λ x acc, Q x ∧ acc) True l ↔ Forall Q l.
Proof. induction l as [|x l IH]; simpl; [by split|]. by rewrite Forall_cons, IH. Qed.

Lemma wf_list P l : wf P (JList l) ↔ Forall (wf P) l.
Proof. apply (foldr_and_Forall (wf P)). Qed.
Lemma wf_obj P d : wf P (JObj d) ↔ NoDup d.*1 ∧ Forall (λ p, P p.1 ∧ wf P p.2) d.
Proof. cbn [wf]. by rewrite (foldr_and_Forall (λ p, P p.1 ∧ wf P p.2) d). Qed.

(** How deep the reader goes. *)
Fixpoint weight (v : json) : nat :=
  match v with
  | JList l => S (foldr (λ x acc, S (weight x + acc)) 0 l)
  | JObj d => S (foldr (λ p acc, S (weight p.2 + acc)) 0 d)
  | _ => 1
  end.

Lemma commas_cons x y l : commas (x :: y :: l) = (x ++ "," ++ commas (y :: l))%string.
Proof. done. Qed.

Lemma commas_length l : (length l <= 1 + String.length (commas l))%nat ∧
  (foldr (λ s n, String.length s + n) 0 l + length l <= 1 + String.length (commas l))%nat.
Proof.
  induction l as [|x [|y l] IH]; [simpl; lia|change (commas [x]) with x; simpl; lia|].
  rewrite commas_cons, !length_app'. change (String.length ",") with 1%nat. cbn [length foldr] in *. lia.
Qed.

Section Write.
Context (esc : string → string).

Lemma weight_bound v : (weight v <= 2 * String.length (write esc v) + 1)%nat.
Proof.
  induction v as [|[]|n|f|s|l IH|d IH] using json_rect'; try (simpl; lia).
  - cbn [write weight]. rewrite !length_app'.
    assert (foldr (λ x acc, S (weight x + acc)) 0 l <=
      2 * foldr (λ s n, String.length s + n) 0 (map (write esc) l) + 2 * length l)%nat as H.
    { induction IH as [|x l Hx _ IHl]; simpl; lia. }
    pose proof (commas_length (map (write esc) l)) as [_ Hc]. rewrite length_map in Hc. simpl String.length. lia.
  - cbn [write weight]. rewrite !length_app'. set (f := λ p, (quote (esc p.1) ++ ":" ++ write esc p.2)%string).
    assert (foldr (λ p acc, S (weight p.2 + acc)) 0 d <=
      2 * foldr (λ s n, String.length s + n) 0 (map f d) + 2 * length d)%nat as H.
    { assert (∀ p, 1 + String.length (write esc p.2) <= String.length (f p))%nat as Hf
        by (intros p; unfold f; rewrite !length_app'; simpl; lia).
      clearbody f. induction IH as [|p d Hp _ IHd]; simpl; [lia|]. specialize (Hf p). lia. }
    pose proof (commas_length (map f d)) as [_ Hc]. rewrite length_map in Hc. simpl String.length. lia.
Qed.

(** A written value starts with none of the characters that end an element. *)
Definition opens (c : ascii) : Prop := is_ws c = false ∧ c ≠ "]"%char ∧ c ≠ "}"%char.

(** The first character of a number. *)
Definition number_start (c : ascii) : Prop :=
  opens c ∧ Ascii.eqb c dquote = false ∧ Ascii.eqb c "[" = false ∧ Ascii.eqb c "{" = false.
Definition starts (P : ascii → Prop) (s : string) : Prop := match s with String c _ => P c | "" => False end.

Lemma starts_app P s t : starts P s → starts P (s ++ t).
Proof. by destruct s. Qed.

Lemma digits_start d l : (d < 10)%N → starts number_start (show_digits (d :: l)).
Proof. intros Hd. simpl. each_digit Hd; done. Qed.

Lemma minus_start neg s : starts number_start s → starts number_start (minus neg ++ s).
Proof. by destruct neg. Qed.

Lemma show_N_start n : starts number_start (show_N n).
Proof.
  destruct (digits_spec n) as (_ & Hs & d & l & Hl & _). unfold show_N. rewrite Hl in *.
  apply Forall_cons in Hs as [Hd _]. by apply digits_start.
Qed.

Lemma show_dec_start c e : starts number_start (show_dec c e).
Proof.
  unfold show_dec. destruct (digits_spec c) as (_ & Hs & d & l & Hl & _). rewrite Hl in *.
  apply Forall_cons in Hs as [Hd _]. repeat case_if; try done.
  - apply starts_app. by apply (digits_start d (l ++ _)).
  - pyb. destruct (Z.to_nat _) as [|k] eqn:Ek; [lia|]. by apply starts_app, (digits_start d (take k l)).
  - by apply starts_app, (digits_start d []).
  - by apply starts_app, (digits_start d []).
Qed.

Lemma show_float_start f : starts number_start (show_float f).
Proof. destruct f; [apply minus_start, show_dec_start|by apply minus_start|done]. Qed.

Lemma show_Z_start n : starts number_start (show_Z n).
Proof. apply minus_start, show_N_start. Qed.

Lemma write_starts v : starts opens (write esc v).
Proof.
  assert (∀ s, starts number_start s → starts opens s) as Hsub by (intros [|c s]; [done|by intros []]).
  destruct v as [|[]|n|f|s|l|d]; try done; apply Hsub; [apply show_Z_start|apply show_float_start].
Qed.

Lemma write_opens v : ∃ c r, write esc v = String c r ∧ opens c.
Proof. pose proof (write_starts v) as H. destruct (write esc v) as [|c r]; [done|]. eauto. Qed.

Lemma skip_opens c r : opens c → skip_ws (String c r) = String c r.
Proof. intros [H _]. simpl. by rewrite H. Qed.

Lemma skip_write v rest : skip_ws (write esc v ++ rest) = (write esc v ++ rest)%string.
Proof. destruct (write_opens v) as (c & r & -> & Hc). rewrite app_cons. by apply skip_opens. Qed.

Lemma skip_comma s : skip_ws (String "," s) = String "," s.
Proof. done. Qed.

(** The branches of [read] by the first character. *)
Lemma read_array fuel c r l rest :
  opens c → read_elements fuel (String c r) = Some (l, rest) → read (S fuel) (String "[" (String c r)) = Some (JList l, rest).
Proof.
  intros Hc Hr. cbn [read]. simpl Ascii.eqb. cbv iota. rewrite skip_opens by done. rewrite Hr.
  destruct Hc as (_ & Hc & _). apply Ascii.eqb_neq in Hc. simpl. by rewrite Hc.
Qed.

Lemma read_object fuel r d rest :
  read_members fuel (String dquote r) [] = Some (d, rest) →
  read (S fuel) (String "{" (String dquote r)) = Some (JObj d, rest).
Proof. intros Hr. cbn [read]. simpl Ascii.eqb. cbv iota. simpl skip_ws. simpl after. cbv iota. by rewrite Hr. Qed.

Lemma read_start fuel s : starts number_start s → read (S fuel) s = read_scalar s.
Proof. destruct s as [|c s]; [done|]. intros (_ & H1 & H2 & H3). cbn [read]. by rewrite H1, H2, H3. Qed.

Lemma dict_set_fresh {V} (d : dict V) k v : k ∉ d.*1 → dict_set d k v = d ++ [(k, v)].
Proof.
  induction d as [|[k' v'] d IH]; [done|]. csimpl. intros [Hne Hin]%not_elem_of_cons.
  apply String.eqb_neq in Hne as ->. simpl. by rewrite IH.
Qed.

(** Reading back one value, at any depth that is enough. *)
Definition reads (v : json) : Prop :=
  ∀ fuel rest, (weight v <= fuel)%nat → stops rest → read fuel (write esc v ++ rest) = Some (v, rest).

Lemma read_elements_write x l fuel rest :
  Forall reads (x :: l) → (foldr (λ x acc, S (weight x + acc)) 0 (x :: l) <= fuel)%nat →
  read_elements fuel (commas (map (write esc) (x :: l)) ++ String "]" rest) = Some (x :: l, rest).
Proof.
  revert x fuel. induction l as [|y l IH]; intros x fuel [Hx Hl]%Forall_cons Hf;
    (destruct fuel as [|fuel]; [simpl in Hf; lia|]); cbn [foldr] in Hf.
  - change (commas (map (write esc) [x])) with (write esc x). cbn [read_elements].
    rewrite Hx; [|lia|by right; left]. done.
  - cbn [map]. rewrite commas_cons. str_app. cbn [read_elements]. rewrite Hx; [|lia|by left].
    rewrite skip_comma. simpl after. cbv iota.
    specialize (IH y fuel Hl ltac:(cbn [foldr]; lia)). cbn [map] in IH.
    assert (∃ r, commas (write esc y :: map (write esc) l) = (write esc y ++ r)%string) as [r Hr].
    { destruct (map (write esc) l) as [|z zs]; [exists ""; by rewrite app_empty_r|]. rewrite commas_cons. eauto. }
    rewrite Hr in *. rewrite app_assoc' in *. rewrite skip_write. by rewrite IH.
Qed.

Definition member (p : string * json) : string := (quote (esc p.1) ++ ":" ++ write esc p.2)%string.

Lemma read_members_write k v d fuel acc rest :
  Forall (λ p, reads_back esc p.1 ∧ reads p.2) ((k, v) :: d) → NoDup (acc.*1 ++ ((k, v) :: d).*1) →
  (foldr (λ p n, S (weight p.2 + n)) 0 ((k, v) :: d) <= fuel)%nat →
  read_members fuel (commas (map member ((k, v) :: d)) ++ String "}" rest) acc = Some (acc ++ (k, v) :: d, rest).
Proof.
  revert k v fuel acc. induction d as [|[k2 v2] d IH]; intros k v fuel acc [[Hk Hv] Hd]%Forall_cons Hnd Hf;
    (destruct fuel as [|fuel]; [simpl in Hf; lia|]); cbn [foldr] in Hf; simpl in Hk, Hv;
    assert (k ∉ acc.*1) as Hfresh by (apply NoDup_app in Hnd as (_ & Hnd & _); intros Hin; apply (Hnd k Hin); csimpl; left).
  - change (commas (map member [(k, v)])) with (member (k, v)). unfold member, quote. simpl fst. simpl snd. str_app.
    cbn [read_members]. unfold read_key. simpl after. cbv iota. rewrite Hk. simpl skip_ws. simpl after. cbv iota. rewrite skip_write.
    rewrite Hv; [|simpl in *; lia|by right; right]. simpl. by rewrite dict_set_fresh.
  - cbn [map]. rewrite commas_cons. unfold member at 1, quote. simpl fst. simpl snd. str_app.
    cbn [read_members]. unfold read_key. simpl after. cbv iota. rewrite Hk. simpl skip_ws. simpl after. cbv iota. rewrite skip_write.
    rewrite Hv; [|simpl in *; lia|by left]. rewrite skip_comma. simpl after. cbv iota. rewrite dict_set_fresh by done.
    assert (∃ r, commas (member (k2, v2) :: map member d) = String dquote r) as [r Hr].
    { destruct (map member d); [by eexists|]. rewrite commas_cons. by eexists. }
    specialize (IH k2 v2 fuel (acc ++ [(k, v)]) Hd). cbn [map] in IH. rewrite Hr in *. rewrite app_cons in *.
    simpl skip_ws. cbv iota. rewrite IH; [by rewrite <- app_assoc| |cbn [foldr]; lia].
    rewrite fmap_app, <- app_assoc. done.
Qed.

Lemma read_write v : wf (reads_back esc) v → reads v.
Proof.
  induction v as [|b|n|f|s|l IH|d IH] using json_rect'; intros Hwf [|fuel] rest Hf Hst; try (simpl in Hf; lia).
  - done.
  - by destruct b.
  - cbn [write]. rewrite read_start by apply starts_app, show_Z_start. unfold read_scalar. by rewrite read_int.
  - cbn [write]. rewrite read_start by apply starts_app, show_float_start. by apply read_float.
  - cbn [write]. unfold quote. str_app. cbn [read]. simpl Ascii.eqb. cbv iota. by rewrite Hwf.
  - cbn [write weight] in *. apply wf_list in Hwf. destruct l as [|x l]; [done|]. str_app.
    destruct (write_opens x) as (c & r & Hc & Ho).
    assert (∃ r', commas (map (write esc) (x :: l)) = String c r') as [r' Hr'].
    { cbn [map]. destruct (map (write esc) l); [exists r; exact Hc|]. rewrite commas_cons, Hc. eauto. }
    pose proof (read_elements_write x l fuel rest) as He. rewrite Hr' in *. rewrite app_cons in *.
    apply read_array; [done|]. apply He; [|lia]. apply Forall_forall. intros y Hy.
    rewrite Forall_forall in IH, Hwf. auto.
  - cbn [write weight] in *. apply wf_obj in Hwf as [Hnd Hwf]. destruct d as [|[k v] d]; [done|]. str_app.
    fold member. change (λ p : string * json, quote (esc p.1) +:+ ":" +:+ write esc p.2) with member.
    assert (∃ r, commas (map member ((k, v) :: d)) = String dquote r) as [r Hr].
    { cbn [map]. destruct (map member d); [by eexists|]. rewrite commas_cons. by eexists. }
    pose proof (read_members_write k v d fuel [] rest) as He. rewrite Hr in *. rewrite app_cons in *.
    apply read_object. apply He; [|done|lia]. apply Forall_forall. intros y Hy.
    rewrite Forall_forall in IH, Hwf. destruct (Hwf y Hy). auto.
Qed.

End Write.

Lemma loads_write esc v : wf (reads_back esc) v → loads (write esc v) = Some v.
Proof.
  intros Hwf. unfold loads. pose proof (skip_write esc v "") as Hs. rewrite app_empty_r in Hs. rewrite Hs.
  pose proof (weight_bound esc v) as Hw.
  pose proof (read_write esc v Hwf (2 * String.length (write esc v) + 2) "" ltac:(lia) I) as Hr.
  rewrite app_empty_r in Hr. by rewrite Hr.
Qed.

Lemma wf_impl (P Q : string → Prop) v : (∀ s, P s → Q s) → wf P v → wf Q v.
Proof.
  intros HPQ. induction v as [|b|n|f|s|l IH|d IH] using json_rect'; try done; [apply HPQ|..].
  - rewrite !wf_list, !Forall_forall. rewrite Forall_forall in IH. auto.
  - rewrite !wf_obj, !Forall_forall. rewrite Forall_forall in IH. intros [Hnd H]. split; [done|].
    intros p Hp. destruct (H p Hp). split; [by apply HPQ|by apply IH].
Qed.

(** Python values: any texts, or texts of Unicode characters. *)
Definition value (v : json) : Prop := wf (λ _, True) v.
Definition unicode_value (v : json) : Prop := wf unicode v.

(** [json.loads] of a text that [json.dumps] wrote is the value, with
    [ensure_ascii=False] for every value and with [ensure_ascii=True] for
    every value of Unicode text. *)
Lemma loads_dumps v (Hv : value v) :
  loads (dumps v) = Some v ∧ (unicode_value v → loads (dumps_ascii v) = Some v).
Proof.
  split.
  - apply loads_write. revert Hv. apply wf_impl. intros s _. apply escape_reads_back.
  - intros Hu. apply loads_write. revert Hu. apply wf_impl. apply ascii_reads_back.
Qed.

(** ** The reader ends *)

Lemma skip_ws_length s : (String.length (skip_ws s) <= String.length s)%nat.
Proof. induction s as [|c s IH]; simpl; [done|]. destruct (is_ws c); simpl; lia. Qed.

Lemma put_Some p o x : put p o = Some x → ∃ t, o = Some (t, x.2) ∧ x.1 = (p ++ t)%string.
Proof. destruct o as [[t r]|]; [|done]. intros [= <-]. by exists t. Qed.

Lemma scan_string_length s t rest : scan_string s = Some (t, rest) → (String.length rest < String.length s)%nat.
Proof.
  enough (∀ n s t rest, (String.length s <= n)%nat → scan_string s = Some (t, rest) →
    (String.length rest < String.length s)%nat) by eauto. clear.
  induction n as [|n IH]; intros s t rest Hn; [by destruct s; [|simpl in Hn; lia]|].
  destruct s as [|c r]; [done|]. cbn [scan_string].
  destruct (Ascii.eqb c dquote); [intros [= _ <-]; simpl; lia|].
  assert (∀ p r', (String.length r' <= String.length r)%nat → put p (scan_string r') = Some (t, rest) →
    (String.length rest < String.length (String c r))%nat) as Hput.
  { intros p r' Hr' (t' & Ht' & _)%put_Some. apply IH in Ht'; simpl in *; lia. }
  destruct (Ascii.eqb c "\").
  - destruct r as [|e r1]; [done|]. destruct (Ascii.eqb e "u").
    + destruct r1 as [|a [|b [|c' [|d r2]]]]; try done. destruct (hex4_value a b c' d) as [m|]; [|done].
      assert (∀ p, put p (scan_string r2) = Some (t, rest) → (String.length rest < String.length (String c (String e (String a (String b (String c' (String d r2)))))))%nat)
        as Hplain by (intros p; apply Hput; simpl; lia).
      intros H. destruct r2 as [|x1 r2]; [by eapply Hplain|].
      destruct x1 as [[] [] [] [] [] [] [] []]; try (by eapply Hplain).
      destruct r2 as [|x2 r2]; [by eapply Hplain|].
      destruct x2 as [[] [] [] [] [] [] [] []]; try (by eapply Hplain).
      destruct r2 as [|a2 [|b2 [|c2 [|d2 r3]]]]; try (by eapply Hplain).
      destruct (if high_surrogate m then _ else _) as [lo|]; [|by eapply Hplain].
      destruct (low_surrogate lo); [|by eapply Hplain]. eapply Hput; [|exact H]. simpl. lia.
    + destruct (unescape_char e); [|done]. apply Hput. simpl. lia.
  - destruct (_ <? 32)%N; [done|]. by apply Hput.
Qed.

Lemma take_digits_length s ds r : take_digits s = (ds, r) → (String.length r + length ds <= String.length s)%nat.
Proof.
  revert ds r. induction s as [|c s IH]; intros ds r; simpl; [by intros [= <- <-]|].
  destruct (char_digit c); [|by intros [= <- <-]; simpl; lia].
  destruct (take_digits s) as [ds' r'] eqn:E. intros [= <- <-]. specialize (IH _ _ eq_refl). simpl. lia.
Qed.

Lemma read_scalar_length s v rest : read_scalar s = Some (v, rest) → (String.length rest < String.length s)%nat.
Proof.
  unfold read_scalar. destruct (read_number s) as [[v' r']|] eqn:E.
  - intros [= _ <-]. unfold read_number in E.
    set (body := match s with String "-" r => (true, r) | _ => (false, s) end) in E.
    assert (String.length body.2 <= String.length s)%nat as Hb.
    { unfold body. destruct s as [|c s']; [done|]. destruct c as [[] [] [] [] [] [] [] []]; simpl; lia. }
    destruct body as [neg r]. simpl in Hb.
    destruct (read_integer r) as [[ds r1]|] eqn:Ei; [|done].
    assert (String.length r1 < String.length r)%nat as H1.
    { unfold read_integer in Ei.
      assert (match take_digits r with ([], _) => None | p => Some p end = Some (ds, r1) → (String.length r1 < String.length r)%nat) as Ht.
      { destruct (take_digits r) as [[|x xs] y] eqn:Et; [done|]. intros [= <- <-]. apply take_digits_length in Et. simpl in Et. lia. }
      destruct r as [|c r]; [done|]. destruct c as [[] [] [] [] [] [] [] []]; try (by apply Ht).
      injection Ei as <- <-. simpl. lia. }
    destruct (read_fraction r1) as [fs r2] eqn:Ef. destruct (read_exponent r2) as [ex r3] eqn:Ee. injection E as _ <-.
    assert (String.length r2 <= String.length r1)%nat as H2.
    { unfold read_fraction in Ef. destruct r1 as [|c r1]; [by injection Ef as <- <-|].
      destruct c as [[] [] [] [] [] [] [] []]; try (by injection Ef as <- <-).
      destruct (take_digits r1) as [[|x xs] y] eqn:Et; injection Ef as <- <-; [done|].
      apply take_digits_length in Et. simpl in *. lia. }
    assert (String.length r3 <= String.length r2)%nat as H3; [|lia].
    unfold read_exponent in Ee. destruct r2 as [|c r2]; [by injection Ee as <- <-|].
    destruct (_ || _); [|by injection Ee as <- <-]. destruct (read_sign r2) as [sg r4] eqn:Es.
    assert (String.length r4 <= String.length r2)%nat as H4.
    { unfold read_sign in Es. destruct r2 as [|c2 r2]; [by injection Es as <- <-|].
      destruct c2 as [[] [] [] [] [] [] [] []]; injection Es as <- <-; simpl; lia. }
    destruct (take_digits r4) as [[|x xs] y] eqn:Et; injection Ee as <- <-; [done|].
    apply take_digits_length in Et. simpl in *. lia.
  - clear E. assert (∀ p r, strip_prefix p s = Some r → String.length s = (String.length p + String.length r)%nat) as Hp.
    { clear. induction s as [|b s IH]; intros [|a p] r; simpl; try done; [by intros [= <-]..|].
      destruct (Ascii.eqb a b); [|done]. intros H%IH. simpl. lia. }
    assert (Forall (λ c, (0 < String.length c.1)%nat) constants) as Hc by (repeat constructor; simpl; lia).
    revert Hc. generalize constants as cs. induction cs as [|[t v'] cs IH]; [done|]. intros [Ht Hc]%Forall_cons.
    cbn [read_constant]. destruct (strip_prefix t s) as [r|] eqn:Es; [|by apply IH].
    intros [= _ <-]. apply Hp in Es. simpl in Ht. lia.
Qed.

Lemma after_length c s r : after c s = Some r → String.length s = S (String.length r).
Proof. destruct s as [|c' s]; [done|]. simpl. destruct (Ascii.eqb c' c); [|done]. by intros [= <-]. Qed.

Lemma after_skip_length c s r : after c (skip_ws s) = Some r → (String.length (skip_ws r) < String.length s)%nat.
Proof. intros H%after_length. pose proof (skip_ws_length s). pose proof (skip_ws_length r). lia. Qed.

Lemma member_length s k r :
  read_key s = Some (k, r) → (String.length r < String.length s)%nat.
Proof.
  unfold read_key.   destruct (after dquote s) as [r'|] eqn:E; [|done]. intros H%scan_string_length. apply after_length in E. lia.
Qed.

Lemma read_shortens fuel :
  (∀ s v r, read fuel s = Some (v, r) → (String.length r < String.length s)%nat) ∧
  (∀ s l r, read_elements fuel s = Some (l, r) → (String.length r < String.length s)%nat) ∧
  (∀ s d d' r, read_members fuel s d = Some (d', r) → (String.length r < String.length s)%nat).
Proof.
  induction fuel as [|fuel (IH1 & IH2 & IH3)]; [done|]. split_and!.
  - intros [|c s] v r; [done|]. cbn [read]. pose proof (skip_ws_length s) as Hw. destruct (Ascii.eqb c dquote).
    { destruct (scan_string s) as [[t r']|] eqn:E; [|done]. intros [= _ <-]. apply scan_string_length in E. simpl. lia. }
    destruct (Ascii.eqb c "[").
    { destruct (after "]" (skip_ws s)) eqn:E; [intros [= _ <-]; apply after_length in E; simpl; lia|].
      destruct (read_elements fuel (skip_ws s)) as [[l rest]|] eqn:El; [|done]. intros [= _ <-]. apply IH2 in El. simpl. lia. }
    destruct (Ascii.eqb c "{"); [|apply read_scalar_length].
    destruct (after "}" (skip_ws s)) eqn:E; [intros [= _ <-]; apply after_length in E; simpl; lia|].
    destruct (read_members fuel (skip_ws s) []) as [[l rest]|] eqn:El; [|done]. intros [= _ <-]. apply IH3 in El. simpl. lia.
  - intros s l r. cbn [read_elements]. destruct (read fuel s) as [[v r1]|] eqn:E; [|done]. apply IH1 in E.
    pose proof (skip_ws_length r1). destruct (after "]" (skip_ws r1)) eqn:E1.
    { intros [= _ <-]. apply after_length in E1. lia. }
    destruct (after "," (skip_ws r1)) eqn:E2; [|done]. apply after_skip_length in E2.
    destruct (read_elements fuel _) as [[l' r']|] eqn:E3; [|done]. intros [= _ <-]. apply IH2 in E3. lia.
  - intros s d d' r. cbn [read_members]. destruct (read_key s) as [[k r1]|] eqn:E; [|done].
    apply member_length in E. destruct (after ":" (skip_ws r1)) eqn:E1; [|done]. apply after_skip_length in E1.
    destruct (read fuel _) as [[v r2]|] eqn:E2; [|done]. apply IH1 in E2. pose proof (skip_ws_length r2).
    destruct (after "}" (skip_ws r2)) eqn:E3; [intros [= _ <-]; apply after_length in E3; lia|].
    destruct (after "," (skip_ws r2)) eqn:E4; [|done]. apply after_skip_length in E4. intros H3%IH3. lia.
Qed.

(** Two units of fuel for each character are enough: more fuel changes
    nothing. *)
Lemma read_fuel fuel :
  (∀ s fuel', (2 * String.length s + 1 <= fuel)%nat → (2 * String.length s + 1 <= fuel')%nat → read fuel s = read fuel' s) ∧
  (∀ s fuel', (2 * String.length s + 2 <= fuel)%nat → (2 * String.length s + 2 <= fuel')%nat →
     read_elements fuel s = read_elements fuel' s) ∧
  (∀ s d fuel', (2 * String.length s + 2 <= fuel)%nat → (2 * String.length s + 2 <= fuel')%nat →
     read_members fuel s d = read_members fuel' s d).
Proof.
  induction fuel as [|fuel (IH1 & IH2 & IH3)]; [split_and!; intros; lia|]. split_and!.
  - intros [|c s] [|fuel'] Hf Hf'; try lia; [done|]. cbn [read]. pose proof (skip_ws_length s). simpl in Hf, Hf'.
    rewrite (IH2 (skip_ws s) fuel') by lia. by rewrite (IH3 (skip_ws s) [] fuel') by lia.
  - intros s [|fuel'] Hf Hf'; [lia|]. cbn [read_elements]. rewrite (IH1 s fuel') by lia.
    destruct (read fuel' s) as [[v r]|] eqn:E; [|done]. apply (proj1 (read_shortens fuel')) in E.
    destruct (after "]" (skip_ws r)); [done|]. destruct (after "," (skip_ws r)) eqn:E2; [|done].
    apply after_skip_length in E2. by rewrite (IH2 _ fuel') by lia.
  - intros s d [|fuel'] Hf Hf'; [lia|]. cbn [read_members].
    destruct (read_key s) as [[k r1]|] eqn:E; [|done]. apply member_length in E.
    destruct (after ":" (skip_ws r1)) eqn:E1; [|done]. apply after_skip_length in E1. rewrite (IH1 _ fuel') by lia.
    destruct (read fuel' _) as [[v r2]|] eqn:E2; [|done]. apply (proj1 (read_shortens fuel')) in E2.
    destruct (after "}" (skip_ws r2)); [done|]. destruct (after "," (skip_ws r2)) eqn:E4; [|done].
    apply after_skip_length in E4. by rewrite (IH3 _ _ fuel') by lia.
Qed.

(** What is read is a Python value. *)
Lemma make_dec_wf neg c e : float_wf (make_dec neg c e).
Proof.
  unfold make_dec.
  assert (∀ fuel c e, (c < 2 ^ N.of_nat fuel)%N → let p := strip10 (S fuel) c e in float_wf (FDec neg p.1 p.2)) as H.
  { clear. intros fuel. induction fuel as [|fuel IH]; intros c e Hc; cbv zeta.
    - assert (c = 0%N) as -> by (simpl in Hc; lia). done.
    - change (strip10 (S (S fuel)) c e) with (if (c =? 0)%N then (0%N, 0%Z)
        else if (c mod 10 =? 0)%N then strip10 (S fuel) (c / 10) (e + 1) else (c, e)).
      destruct (N.eqb_spec c 0) as [->|Hc0]; [done|]. destruct (N.eqb_spec (c mod 10) 0) as [H0|H0].
      + apply IH. apply N.Div0.div_lt_upper_bound. rewrite Nat2N.inj_succ, N.pow_succ_r' in Hc. lia.
      + simpl. apply N.eqb_neq in Hc0 as ->. done. }
  specialize (H (N.size_nat c) c e (size_nat_bound c)). by destruct (strip10 _ c e).
Qed.

Lemma read_scalar_value s v r : read_scalar s = Some (v, r) → value v.
Proof.
  unfold read_scalar. destruct (read_number s) as [[v' r']|] eqn:E.
  - intros [= <- <-]. unfold read_number in E. destruct (match s with String "-" r => _ | _ => _ end) as [neg t].
    destruct (read_integer t) as [[ds r1]|]; [|done]. destruct (read_fraction r1) as [fs r2].
    destruct (read_exponent r2) as [ex r3]. injection E as <- <-. destruct fs, ex; first [done|apply make_dec_wf].
  - clear E. assert (Forall (λ c, value c.2) constants) as Hc by (repeat constructor).
    revert Hc. generalize constants as cs. induction cs as [|[t v'] cs IH]; [done|]. intros [Ht Hc]%Forall_cons.
    cbn [read_constant]. destruct (strip_prefix t s); [by intros [= <- <-]|by apply IH].
Qed.

Lemma dict_set_value (d : dict json) k v :
  value (JObj d) → value v → value (JObj (dict_set d k v)).
Proof.
  unfold value. rewrite !wf_obj, !Forall_forall. intros [Hnd Hd] Hv. split; [by apply dict_set_NoDup|].
  intros p [->|Hp]%dict_set_in; [done|by apply Hd].
Qed.

Lemma read_value fuel :
  (∀ s v r, read fuel s = Some (v, r) → value v) ∧
  (∀ s l r, read_elements fuel s = Some (l, r) → Forall value l) ∧
  (∀ s d d' r, value (JObj d) → read_members fuel s d = Some (d', r) → value (JObj d')).
Proof.
  assert (value (JObj [])) as Hnil by (apply wf_obj; by split; [constructor|]).
  induction fuel as [|fuel (IH1 & IH2 & IH3)]; [done|]. split_and!.
  - intros [|c s] v r; [done|]. cbn [read]. destruct (Ascii.eqb c dquote).
    { destruct (scan_string s) as [[t r']|]; [|done]. by intros [= <- <-]. }
    destruct (Ascii.eqb c "[").
    { destruct (after "]" _); [by intros [= <- <-]|].
      destruct (read_elements fuel _) as [[l rest]|] eqn:E; [|done]. intros [= <- <-]. apply wf_list. by eapply IH2. }
    destruct (Ascii.eqb c "{"); [|apply read_scalar_value]. destruct (after "}" _); [by intros [= <- <-]|].
    destruct (read_members fuel _ []) as [[l rest]|] eqn:E; [|done]. intros [= <- <-]. by eapply IH3.
  - intros s l r. cbn [read_elements]. destruct (read fuel s) as [[v r1]|] eqn:E; [|done]. apply IH1 in E.
    destruct (after "]" _); [intros [= <- <-]; by constructor|]. destruct (after "," _); [|done].
    destruct (read_elements fuel _) as [[l' r']|] eqn:E2; [|done]. intros [= <- <-]. constructor; [done|by eapply IH2].
  - intros s d d' r Hd. cbn [read_members]. destruct (read_key s) as [[k r1]|]; [|done].
    destruct (after ":" _); [|done]. destruct (read fuel _) as [[v r2]|] eqn:E2; [|done]. apply IH1 in E2.
    destruct (after "}" _); [intros [= <- <-]; by apply dict_set_value|]. destruct (after "," _); [|done].
    apply IH3. by apply dict_set_value.
Qed.

Lemma loads_value s v : loads s = Some v → value v.
Proof.
  unfold loads. destruct (read _ _) as [[w r]|] eqn:E; [|done]. destruct (String.eqb _ _); [|done].
  intros [= <-]. by eapply (proj1 (read_value _)).
Qed.

(** ** Canonical texts *)

(** Sorting by distinct keys does not depend on the order of the list. *)
Section SortUnique.
Context {A : Type} (key : A → string).

Lemma at_most_asc x y : at_most (asc key) x y = negb (pylt (key y) (key x)).
Proof.
  unfold at_most, asc, pylt. rewrite (pycmp_antisym (key x) (key y)). by destruct (pycmp (key x) (key y)).
Qed.

Lemma key_total x y : key x ≠ key y → pylt (key x) (key y) = negb (pylt (key y) (key x)).
Proof.
  intros Hne. unfold pylt. rewrite (pycmp_antisym (key x) (key y)).
  destruct (pycmp (key x) (key y)) eqn:E; [|done..]. by apply String.compare_eq_iff in E.
Qed.

Lemma insert_comm x y l : key x ≠ key y →
  insert_ordered (asc key) x (insert_ordered (asc key) y l) = insert_ordered (asc key) y (insert_ordered (asc key) x l).
Proof.
  intros Hne. pose proof (key_total x y Hne) as Hxy. induction l as [|z l IH]; simpl.
  - rewrite !at_most_asc, Hxy. destruct (pylt (key y) (key x)) eqn:E; simpl; rewrite ?at_most_asc, ?Hxy, ?E; done.
  - destruct (at_most (asc key) y z) eqn:Ey, (at_most (asc key) x z) eqn:Ex; simpl; rewrite ?Ey, ?Ex;
      rewrite at_most_asc in Ey; rewrite at_most_asc in Ex; rewrite ?at_most_asc.
    + rewrite Hxy. destruct (pylt (key y) (key x)) eqn:E; simpl; rewrite ?at_most_asc, ?Hxy, ?E, ?Ex, ?Ey; done.
    + destruct (pylt (key y) (key x)) eqn:E; simpl; rewrite ?at_most_asc; simpl.
      * done.
      * exfalso. apply negb_true_iff in Ey. apply negb_false_iff in Ex.
        pose proof (pylt_lt_le_trans (key z) (key x) (key y) Ex E) as H. congruence.
    + destruct (pylt (key x) (key y)) eqn:E; simpl; rewrite ?at_most_asc; simpl.
      * done.
      * exfalso. apply negb_true_iff in Ex. apply negb_false_iff in Ey.
        pose proof (pylt_lt_le_trans (key z) (key y) (key x) Ey E) as H. congruence.
    + by f_equal.
Qed.

Lemma order_by_unique l l' : l ≡ₚ l' → NoDup (map key l) → order_by (asc key) l = order_by (asc key) l'.
Proof.
  induction 1 as [|x l l' _ IH|x y l|l1 l2 l3 H1 IH1 _ IH2]; intros Hnd.
  - done.
  - simpl. apply NoDup_cons in Hnd as [_ Hnd]. by rewrite IH.
  - simpl. apply insert_comm. apply NoDup_cons in Hnd as [Hx _]. set_solver.
  - rewrite IH1 by done. apply IH2. by rewrite <- H1.
Qed.
End SortUnique.

(** Python's [==] on JSON values of the same types: dicts of the same size
    whose members agree, lists element by element (a NaN equals itself here). *)
Fixpoint jeq (v w : json) : bool :=
  match v, w with
  | JNull, JNull => true
  | JBool a, JBool b => Bool.eqb a b
  | JInt a, JInt b => (a =? b)%Z
  | JFloat a, JFloat b => bool_decide (a = b)
  | JStr a, JStr b => String.eqb a b
  | JList l, JList l' =>
      (fix go l l' := match l, l' with
                      | [], [] => true
                      | x :: l, y :: l' => jeq x y && go l l'
                      | _, _ => false
                      end) l l'
  | JObj d, JObj d' =>
      Nat.eqb (length d) (length d')
      && forallb (λ p, match dict_get d' p.1 with Some y => jeq p.2 y | None => false end) d
  | _, _ => false
  end.

Lemma jeq_list l l' : jeq (JList l) (JList l') = true ↔ Forall2 (λ x y, jeq x y = true) l l'.
Proof.
  cbn [jeq]. revert l'. induction l as [|x l IH]; intros [|y l'].
  - by split.
  - split; [done|]. by intros H%Forall2_nil_inv_l.
  - split; [done|]. by intros H%Forall2_nil_inv_r.
  - rewrite andb_true_iff, Forall2_cons. by rewrite IH.
Qed.

Definition sorted_member (p : string * json) : string * json := (p.1, sort_keys p.2).

Lemma sorted_member_keys d : map fst (map sorted_member d) = d.*1.
Proof. rewrite map_map. by apply map_ext. Qed.

Lemma sort_keys_jeq v w : value v → value w → (sort_keys v = sort_keys w ↔ jeq v w = true).
Proof.
  unfold value. revert w. induction v as [|b|n|f|s|l IH|d IH] using json_rect'; intros w Hv Hw;
    destruct w as [|b'|n'|f'|s'|l'|d']; try (split; done).
  - simpl. rewrite Bool.eqb_true_iff. naive_solver.
  - simpl. rewrite Z.eqb_eq. naive_solver.
  - simpl. rewrite bool_decide_eq_true. naive_solver.
  - simpl. rewrite String.eqb_eq. naive_solver.
  - rewrite jeq_list. apply wf_list in Hv, Hw. cbn [sort_keys].
    transitivity (map sort_keys l = map sort_keys l'); [split; [by intros [= H]|by intros ->]|].
    revert l' Hw. induction IH as [|x l Hx _ IHl]; intros [|y l'] Hw; simpl.
    + by split.
    + split; [done|]. by intros H%Forall2_nil_inv_l.
    + split; [done|]. by intros H%Forall2_nil_inv_r.
    + apply Forall_cons in Hv as [Hvx Hvl], Hw as [Hwy Hwl]. rewrite Forall2_cons, <- Hx, <- IHl by done.
      split; [intros [= H1 H2]; auto|by intros [-> ->]].
  - apply wf_obj in Hv as [Hnd Hv], Hw as [Hnd' Hw]. rewrite Forall_forall in IH, Hv, Hw. cbn [sort_keys jeq].
    fold sorted_member. change (λ p : string * json, (p.1, sort_keys p.2)) with sorted_member.
    rewrite andb_true_iff, Nat.eqb_eq, forallb_forall. split.
    + intros [= H]. assert (map sorted_member d ≡ₚ map sorted_member d') as Hp.
      { by rewrite <- (order_by_perm (asc fst) (map sorted_member d)), H, order_by_perm. }
      split; [apply Permutation_length in Hp; by rewrite !length_map in Hp|].
      intros p Hin%list_elem_of_In.
      assert (sorted_member p ∈ map sorted_member d') as (q & Hq & Hin')%elem_of_map.
      { rewrite <- Hp. apply elem_of_map. eauto. }
      injection Hq as Hk Hs. rewrite (dict_get_in d' p.1 q.2) by (first [done|rewrite Hk; by destruct q]).
      apply (IH p Hin); [by apply Hv|by apply Hw|done].
    + intros [Hlen Hall]. f_equal. apply order_by_unique; [|by rewrite sorted_member_keys].
      apply submseteq_length_Permutation; [|by rewrite !length_map, Hlen].
      apply NoDup_submseteq; [apply (NoDup_fmap_1 fst); by rewrite <- sorted_member_keys in Hnd|].
      intros x (p & -> & Hp)%elem_of_map. specialize (Hall p ltac:(by apply list_elem_of_In)).
      destruct (dict_get d' p.1) as [y|] eqn:Eg; [|done]. apply dict_get_Some_in in Eg.
      apply elem_of_map. exists (p.1, y). split; [|done]. unfold sorted_member. f_equal.
      apply (IH p Hp); [by apply Hv|by apply (Hw _ Eg)|done].
Qed.

(** The value with sorted keys is a value. *)
Lemma sort_keys_wf P v : wf P v → wf P (sort_keys v).
Proof.
  induction v as [|b|n|f|s|l IH|d IH] using json_rect'; try done.
  - cbn [sort_keys]. rewrite !wf_list, !Forall_forall. rewrite Forall_forall in IH.
    intros Hl y (x & -> & Hx)%elem_of_map. auto.
  - cbn [sort_keys]. change (λ p : string * json, (p.1, sort_keys p.2)) with sorted_member.
    rewrite !wf_obj, !Forall_forall. rewrite Forall_forall in IH. intros [Hnd Hd]. split.
    + rewrite (fmap_Permutation fst _ _ (order_by_perm _ _)). by rewrite <- sorted_member_keys in Hnd.
    + intros y (x & -> & Hx)%order_by_elem%elem_of_map. destruct (Hd x Hx) as [Hk Hx2]. split; [done|]. by apply IH.
Qed.
Lemma sort_keys_value v : value v → value (sort_keys v).
Proof. apply sort_keys_wf. Qed.

(** Sorting the keys twice is sorting them once. *)
Lemma sort_keys_idemp v : value v → sort_keys (sort_keys v) = sort_keys v.
Proof.
  unfold value. induction v as [|b|n|f|s|l IH|d IH] using json_rect'; try done.
  - rewrite wf_list, Forall_forall. rewrite Forall_forall in IH. intros Hl. cbn [sort_keys]. f_equal. rewrite map_map.
    apply map_ext_in. intros x Hx%list_elem_of_In. auto.
  - rewrite wf_obj, Forall_forall. rewrite Forall_forall in IH. intros [Hnd Hd]. cbn [sort_keys].
    change (λ p : string * json, (p.1, sort_keys p.2)) with sorted_member. f_equal. symmetry. apply order_by_unique.
    + rewrite (Permutation_map sorted_member (order_by_perm (asc fst) (map sorted_member d))), map_map.
      erewrite map_ext_in; [reflexivity|]. intros p Hp%list_elem_of_In. unfold sorted_member. simpl. f_equal.
      symmetry. apply IH; [done|]. by apply Hd.
    + by rewrite sorted_member_keys.
Qed.

(** [json.dumps(v, sort_keys=True)] is a faithful key: two values have the
    same text exactly when Python finds them equal (as values of the same
    types), whatever the order of their members. *)
Lemma canonical_text_faithful v w (Hv : value v) (Hw : value w) :
  dumps (sort_keys v) = dumps (sort_keys w) ↔ jeq v w = true.
Proof.
  rewrite <- sort_keys_jeq by done. split; [|by intros ->]. intros H.
  pose proof (loads_write escape (sort_keys v)) as H1. pose proof (loads_write escape (sort_keys w)) as H2.
  unfold dumps in H. rewrite H in H1. apply sort_keys_value in Hv, Hw.
  assert (∀ x, value x → wf (reads_back escape) x) as Hr by (intros x; apply wf_impl; intros s _; apply escape_reads_back).
  rewrite (H2 (Hr _ Hw)) in H1. by specialize (H1 (Hr _ Hv)) as [= <-].
Qed.

(** Checks that a text, or a value without floats, is of Unicode text. *)
Definition unicodeb (s : string) : bool :=
  String.eqb (utf8_all (code_points s)) s
  && forallb (λ cp, (cp <? 1114112)%N && negb (high_surrogate cp) && negb (low_surrogate cp)) (code_points s).
Fixpoint unicode_valueb (v : json) : bool :=
  match v with
  | JFloat _ => false
  | JStr s => unicodeb s
  | JList l => forallb unicode_valueb l
  | JObj d => bool_decide (NoDup d.*1) && forallb (λ p, unicodeb p.1 && unicode_valueb p.2) d
  | _ => true
  end.

Lemma unicodeb_sound s : unicodeb s = true → unicode s.
Proof.
  unfold unicodeb. intros [E%String.eqb_eq H]%andb_true_iff. exists (code_points s). split; [|done]. apply Forall_forall.
  intros cp Hcp%list_elem_of_In. rewrite forallb_forall in H. specialize (H cp Hcp).
  rewrite !andb_true_iff, !negb_true_iff, N.ltb_lt in H. unfold scalar. tauto.
Qed.

Lemma unicode_valueb_sound v : unicode_valueb v = true → unicode_value v.
Proof.
  unfold unicode_value. induction v as [|b|n|f|s|l IH|d IH] using json_rect'; try done.
  - apply unicodeb_sound.
  - cbn [unicode_valueb]. rewrite wf_list, forallb_forall, !Forall_forall. rewrite Forall_forall in IH. intros H x Hx.
    apply IH; [done|]. by apply H, list_elem_of_In.
  - cbn [unicode_valueb]. rewrite andb_true_iff, wf_obj, forallb_forall, !Forall_forall. rewrite Forall_forall in IH. intros [Hn%bool_decide_eq_true H].
    split; [done|]. intros p Hp. specialize (H p (proj1 (list_elem_of_In _ _) Hp)). apply andb_true_iff in H as [H1 H2].
    split; [by apply unicodeb_sound|by apply IH].
Qed.

(** The same for [ensure_ascii=True] and Unicode text. *)
Lemma canonical_ascii_faithful v w (Hv : unicode_value v) (Hw : unicode_value w) :
  dumps_ascii (sort_keys v) = dumps_ascii (sort_keys w) ↔ sort_keys v = sort_keys w.
Proof.
  split; [|by intros ->]. intros H. apply sort_keys_wf in Hv, Hw.
  assert (∀ x, unicode_value x → loads (dumps_ascii x) = Some x) as Hr.
  { intros x Hx. apply (proj2 (loads_dumps x (wf_impl _ _ x (λ _ _, I) Hx))). done. }
  apply Hr in Hv, Hw. congruence.
Qed.

End JsonFacts.
