(* ===== verification/Sse.v ===== *)
(** Server-sent events and the upstream payload schemas:
    [src/app/core/utils/sse.py], [src/app/core/openai/models.py] and
    [src/app/core/openai/parsing.py].

    Texts are as in [Json]: a character above 127 is the bytes of its UTF-8
    encoding, so the line ends U+0085, U+2028 and U+2029 that [splitlines]
    knows are byte sequences here. *)

From S2P Require Import Prelude Json.
Import Json.Json.

Module Sse.

(** ** [str.splitlines] and [str.strip] *)

(** The one-byte line ends besides [\r]. *)
Definition ends_line (c : ascii) : bool :=
  let n := Ascii.N_of_ascii c in
  ((n =? 10) || (n =? 11) || (n =? 12) || (n =? 28) || (n =? 29) || (n =? 30))%N.

Definition is_byte (n : N) (c : ascii) : bool := (Ascii.N_of_ascii c =? n)%N.

(** The lines of a text, after a first piece that has been read. *)
Fixpoint split_from (line s : string) : list string :=
  match s with
  | "" => if String.eqb line "" then [] else [line]
  | String c s1 =>
      let go_on := split_from (line ++ String c "")%string s1 in
      if ends_line c then line :: split_from "" s1
      else match s1 with
      | String c2 s2 =>
          if is_byte 13 c then line :: (if is_byte 10 c2 then split_from "" s2 else split_from "" s1)
          else if is_byte 194 c && is_byte 133 c2 then line :: split_from "" s2
          else if is_byte 226 c && is_byte 128 c2 then
            match s2 with
            | String c3 s3 => if is_byte 168 c3 || is_byte 169 c3 then line :: split_from "" s3 else go_on
            | "" => go_on
            end
          else go_on
      | "" => if is_byte 13 c then [line] else go_on
      end
  end.

Definition splitlines (s : string) : list string := split_from "" s.

(** The code points [str.isspace] holds of. *)
Definition space_point (n : N) : bool :=
  ((9 <=? n) && (n <=? 13) || (28 <=? n) && (n <=? 32) || (n =? 133) || (n =? 160) || (n =? 5760)
   || (8192 <=? n) && (n <=? 8202) || (n =? 8232) || (n =? 8233) || (n =? 8239) || (n =? 8287) || (n =? 12288))%N.

Fixpoint drop_spaces (l : list N) : list N :=
  match l with n :: r => if space_point n then drop_spaces r else l | [] => [] end.

(** The code points of [s.strip()]. *)
Definition stripped_points (s : string) : list N := rev (drop_spaces (rev (drop_spaces (code_points s)))).

(** ** Writing *)

Definition newline : string := String "010" "".

Definition format_sse_data (payload : dict json) : string :=
  ("data: " ++ dumps_ascii (JObj payload) ++ newline ++ newline)%string.

Definition format_sse_event (payload : dict json) : string :=
  match get_str "type" payload with
  | Some (String c t) => ("event: " ++ String c t ++ newline ++ format_sse_data payload)%string
  | _ => format_sse_data payload
  end.

(** ** Reading *)

(** [line.split(":", 1)]. *)
Fixpoint cut_colon (s : string) : option (string * string) :=
  match s with
  | "" => None
  | String c r => if Ascii.eqb c ":" then Some ("", r)
                  else match cut_colon r with Some (a, b) => Some (String c a, b) | None => None end
  end.

Definition _parse_sse_field (line : string) : string * string :=
  match cut_colon line with
  | None => (line, "")
  | Some (field, value) => (field, match value with String " " v => v | v => v end)
  end.

Definition _extract_sse_data_lines (event_block : string) : option (list string) :=
  let data_lines :=
    omap (λ raw_line, match raw_line with
                      | "" => None
                      | String ":" _ => None
                      | _ => let '(field, value) := _parse_sse_field raw_line in
                             if String.eqb field "data" then Some value else None
                      end) (splitlines event_block) in
  match data_lines with [] => None | _ => Some data_lines end.

Definition extract_sse_data (event_block : string) : option string :=
  match _extract_sse_data_lines event_block with
  | None => None
  | Some data_lines =>
      let data := String.concat newline data_lines in
      if bool_decide (stripped_points data = []) then None
      else if bool_decide (stripped_points data = code_points "[DONE]") then None
      else Some data
  end.

Definition parse_sse_data_json (event_block : string) : option (dict json) :=
  match extract_sse_data event_block with
  | None => None
  | Some data => match loads data with Some (JObj payload) => Some payload | _ => None end
  end.

End Sse.

(** ** Schemas of upstream payloads

    A class is a record and its validation a function: [None] stands for a
    [ValidationError].  Members a class does not name are dropped. *)

Module OpenAIModels.
Import Sse.

(** [StrictStr | None], [StrictInt | None] and [StrictInt | StrictFloat | None]
    with default [None]: the field's value, or [None] for an error. *)
Definition opt_str (k : string) (d : dict json) : option (option string) :=
  match get_or_null k d with JNull => Some None | JStr s => Some (Some s) | _ => None end.
Definition opt_int (k : string) (d : dict json) : option (option Z) :=
  match get_or_null k d with JNull => Some None | JInt n => Some (Some n) | _ => None end.
Definition opt_number (k : string) (d : dict json) : option (option json) :=
  match get_or_null k d with JNull => Some None | (JInt _ | JFloat _) as v => Some (Some v) | _ => None end.
(** A field that holds another class or [None]. *)
Definition opt_model {A} (validate : dict json → option A) (k : string) (d : dict json) : option (option A) :=
  match get_or_null k d with
  | JNull => Some None
  | JObj o => match validate o with Some a => Some (Some a) | None => None end
  | _ => None
  end.
(** The same with [_normalize_model_value] before it: what does not validate
    becomes [None]. *)
Definition _normalize_model_value {A} (validate : dict json → option A) (value : json) : option A :=
  match value with JObj o => validate o | _ => None end.

Record OpenAIError := {
  err_message : option string; err_type : option string; err_code : option string; err_param : option string;
  err_plan_type : option string; err_resets_at : option json; err_resets_in_seconds : option json }.

Definition validate_OpenAIError (d : dict json) : option OpenAIError :=
  message ← opt_str "message" d; ty ← opt_str "type" d; code ← opt_str "code" d; param ← opt_str "param" d;
  plan_type ← opt_str "plan_type" d; resets_at ← opt_number "resets_at" d;
  resets_in_seconds ← opt_number "resets_in_seconds" d;
  Some {| err_message := message; err_type := ty; err_code := code; err_param := param; err_plan_type := plan_type;
          err_resets_at := resets_at; err_resets_in_seconds := resets_in_seconds |}.

Record OpenAIErrorEnvelope := { env_error : option OpenAIError }.
Definition validate_OpenAIErrorEnvelope (d : dict json) : option OpenAIErrorEnvelope :=
  error ← opt_model validate_OpenAIError "error" d; Some {| env_error := error |}.

Record ResponseUsageDetails := { cached_tokens : option Z; reasoning_tokens : option Z }.
Definition validate_ResponseUsageDetails (d : dict json) : option ResponseUsageDetails :=
  cached ← opt_int "cached_tokens" d; reasoning ← opt_int "reasoning_tokens" d;
  Some {| cached_tokens := cached; reasoning_tokens := reasoning |}.

Record ResponseUsage := {
  input_tokens : option Z; output_tokens : option Z; total_tokens : option Z;
  input_tokens_details : option ResponseUsageDetails; output_tokens_details : option ResponseUsageDetails }.
Definition validate_ResponseUsage (d : dict json) : option ResponseUsage :=
  input ← opt_int "input_tokens" d; output ← opt_int "output_tokens" d; total ← opt_int "total_tokens" d;
  input_details ← opt_model validate_ResponseUsageDetails "input_tokens_details" d;
  output_details ← opt_model validate_ResponseUsageDetails "output_tokens_details" d;
  Some {| input_tokens := input; output_tokens := output; total_tokens := total;
          input_tokens_details := input_details; output_tokens_details := output_details |}.

(** [OpenAIResponse], and [OpenAIResponsePayload] with the same fields. *)
Record OpenAIResponse := {
  resp_id : option string; resp_status : option string; resp_error : option OpenAIError; resp_usage : option ResponseUsage }.
Definition validate_OpenAIResponse (d : dict json) : option OpenAIResponse :=
  id ← opt_str "id" d; status ← opt_str "status" d;
  Some {| resp_id := id; resp_status := status;
          resp_error := _normalize_model_value validate_OpenAIError (get_or_null "error" d);
          resp_usage := _normalize_model_value validate_ResponseUsage (get_or_null "usage" d) |}.

Record OpenAIEvent := { ev_type : string; ev_resp : option OpenAIResponse; ev_error : option OpenAIError }.
Definition validate_OpenAIEvent (d : dict json) : option OpenAIEvent :=
  ty ← get_str "type" d; response ← opt_model validate_OpenAIResponse "response" d;
  Some {| ev_type := ty; ev_resp := response;
          ev_error := _normalize_model_value validate_OpenAIError (get_or_null "error" d) |}.

Record CompactResponsePayload := { compact_object : string; compact_response : OpenAIResponse }.
Definition _validate_object (value : string) : option string :=
  let normalized := py_strip value in
  if String.eqb normalized "" then None
  else if negb (startswith "response.compact" normalized) then None
  else Some normalized.
Definition validate_CompactResponsePayload (d : dict json) : option CompactResponsePayload :=
  raw ← get_str "object" d; object ← _validate_object raw; response ← validate_OpenAIResponse d;
  Some {| compact_object := object; compact_response := response |}.

(** *** [parsing.py] *)

Definition parse_sse_event (line : string) : option OpenAIEvent :=
  match parse_sse_data_json line with None => None | Some payload => validate_OpenAIEvent payload end.

Definition parse_error_payload (payload : json) : option OpenAIError :=
  match payload with
  | JObj d => match validate_OpenAIErrorEnvelope d with Some envelope => env_error envelope | None => None end
  | _ => None
  end.

Definition parse_response_payload (payload : json) : option OpenAIResponse :=
  match payload with JObj d => validate_OpenAIResponse d | _ => None end.

Definition parse_compact_response_payload (payload : json) : option CompactResponsePayload :=
  match payload with JObj d => validate_CompactResponsePayload d | _ => None end.

End OpenAIModels.

Module SseFacts.
Import Sse OpenAIModels JsonFacts.

(** ** Text on one line *)

Fixpoint every (P : ascii → bool) (s : string) : bool :=
  match s with "" => true | String c r => P c && every P r end.

Lemma every_app P s t : every P (s ++ t) = every P s && every P t.
Proof. induction s as [|c s IH]; [done|]. rewrite app_cons. simpl. by rewrite IH, andb_assoc. Qed.

Lemma every_impl (P Q : ascii → bool) s : (∀ c, P c = true → Q c = true) → every P s = true → every Q s = true.
Proof. intros H. induction s as [|c s IH]; simpl; [done|]. rewrite !andb_true_iff. intros [? ?]. auto. Qed.

(** An ASCII character that ends no line, and a printable one. *)
Definition inline (c : ascii) : bool := (Ascii.N_of_ascii c <? 128)%N && negb (ends_line c) && negb (is_byte 13 c).
Definition printable (c : ascii) : bool := (32 <=? Ascii.N_of_ascii c)%N && (Ascii.N_of_ascii c <=? 126)%N.

Lemma printable_inline c : printable c = true → inline c = true.
Proof. destruct c as [[] [] [] [] [] [] [] []]; vm_compute; congruence. Qed.

Lemma split_inline line t rest :
  every inline t = true → split_from line (t ++ newline ++ rest) = (line ++ t)%string :: split_from "" rest.
Proof.
  revert line. induction t as [|c t IH]; intros line; simpl every.
  - intros _. by rewrite app_empty, app_empty_r.
  - rewrite andb_true_iff. intros [Hc Ht]. rewrite app_cons. specialize (IH (line ++ String c "")%string Ht).
    rewrite app_assoc', app_cons, app_empty in IH. rewrite <- IH. set (s := (t ++ newline ++ rest)%string).
    assert (∃ c2 s2, s = String c2 s2) as (c2 & s2 & Hs) by (unfold s; destruct t; eexists _, _; reflexivity).
    rewrite Hs. cbn [split_from]. unfold inline in Hc. rewrite !andb_true_iff, !negb_true_iff in Hc. destruct Hc as [[Hn H1] H2].
    apply N.ltb_lt in Hn. rewrite H1, H2. unfold is_byte. destruct (N.eqb_spec (Ascii.N_of_ascii c) 194); [lia|].
    destruct (N.eqb_spec (Ascii.N_of_ascii c) 226); [lia|]. done.
Qed.

(** ** What [json.dumps] writes is printable ASCII *)

Lemma show_digits_printable l : small l → every printable (show_digits l) = true.
Proof. induction 1 as [|d l Hd _ IH]; simpl; [done|]. rewrite IH, andb_true_r. by each_digit Hd. Qed.

Lemma small_parts n k : small (take n (digits k)) ∧ small (drop n (digits k)).
Proof. apply (small_sub (digits k)); [apply digits_spec|by rewrite take_drop]. Qed.

Lemma show_N_printable n : every printable (show_N n) = true.
Proof. apply show_digits_printable, digits_spec. Qed.

Lemma show_Z_printable n : every printable (show_Z n) = true.
Proof. unfold show_Z. rewrite every_app, show_N_printable. by destruct (n <? 0)%Z. Qed.

Lemma show_float_printable f : every printable (show_float f) = true.
Proof.
  destruct f as [neg c e|neg|]; [|by destruct neg|done]. unfold show_float. rewrite every_app.
  apply andb_true_iff. split; [by destruct neg|]. unfold show_dec, show_exponent. destruct (digits_spec c) as (_ & Hs & _).
  assert (∀ k, small (zeros k)) as Hz by apply small_zeros.
  assert (∀ n, small (take n (digits c)) ∧ small (drop n (digits c))) as Hp by (intros n; apply small_parts).
  repeat case_if; try done; rewrite ?every_app, ?show_N_printable; rewrite ?show_digits_printable;
    first [done|by apply Hp|apply Forall_app_2; first [exact Hs|apply Hz]].
Qed.

Lemma hex4_printable n : every printable (hex4 n) = true.
Proof.
  assert (∀ d, (d < 16)%N → printable (hex_char d) = true) as H.
  { intros d Hd. assert (d ∈ [0;1;2;3;4;5;6;7;8;9;10;11;12;13;14;15]%N) as Hin by (rewrite !elem_of_cons; lia).
    repeat (apply elem_of_cons in Hin as [->|Hin]; [reflexivity|]). by apply elem_of_nil in Hin. }
  unfold hex4. simpl. rewrite !H; [done|apply N.mod_lt; lia..].
Qed.

Lemma escape_point_printable cp : every printable (escape_point cp) = true.
Proof.
  unfold escape_point. destruct (short_escape cp) as [e|] eqn:E.
  - unfold short_escape in E. repeat (case_match; [injection E as <-; reflexivity|]). done.
  - destruct (_ && _) eqn:Hc; [|case_match; rewrite ?every_app, !hex4_printable; done].
    apply andb_true_iff in Hc as [H1%N.leb_le H2%N.leb_le]. simpl. unfold printable. rewrite byte_code by lia.
    rewrite andb_true_r, andb_true_iff, !N.leb_le. lia.
Qed.

Lemma escape_ascii_printable s : every printable (escape_ascii s) = true.
Proof.
  unfold escape_ascii. induction (code_points s) as [|cp l IH]; [done|]. simpl. by rewrite every_app, escape_point_printable.
Qed.

Lemma quote_printable s : every printable s = true → every printable (quote s) = true.
Proof. intros H. unfold quote. simpl every at 1. rewrite every_app, H. done. Qed.

Lemma commas_printable l : Forall (λ s, every printable s = true) l → every printable (commas l) = true.
Proof.
  induction 1 as [|s l Hs Hl IH]; [done|]. destruct l as [|t l]; [done|]. rewrite commas_cons, every_app, every_app, Hs, IH. done.
Qed.

Lemma dumps_ascii_printable v : every printable (dumps_ascii v) = true.
Proof.
  unfold dumps_ascii. induction v as [|[]|n|f|s|l IH|d IH] using json_rect'; try done.
  - apply show_Z_printable.
  - apply show_float_printable.
  - apply quote_printable, escape_ascii_printable.
  - cbn [write]. rewrite !every_app, commas_printable; [done|]. by apply Forall_map.
  - cbn [write]. rewrite !every_app, commas_printable; [done|]. apply Forall_map.
    eapply Forall_impl; [exact IH|]. intros p Hp. cbv beta. rewrite !every_app, Hp.
    by rewrite (quote_printable _ (escape_ascii_printable p.1)).
Qed.

(** ** Round trip *)

Lemma dumps_obj p : ∃ r, dumps_ascii (JObj p) = String "{" r.
Proof. eexists. reflexivity. Qed.

Lemma stripped_first s n l : code_points s = n :: l → space_point n = false → ∃ l', stripped_points s = n :: l'.
Proof.
  intros Hs Hn. unfold stripped_points. rewrite Hs. simpl drop_spaces at 2. rewrite Hn. simpl.
  assert (∀ m, ∃ m', drop_spaces (m ++ [n]) = m' ++ [n]) as H.
  { induction m as [|x m [m' IH]]; simpl; [exists []; by rewrite Hn|]. destruct (space_point x); [by eauto|].
    exists (x :: m). done. }
  destruct (H (rev l)) as [m' ->]. rewrite rev_app_distr. simpl. eauto.
Qed.

(** The lines of an event: none counts but the data. *)
Lemma data_line p : _parse_sse_field ("data: " ++ dumps_ascii (JObj p)) = ("data", dumps_ascii (JObj p)).
Proof. destruct (dumps_obj p) as [r ->]. reflexivity. Qed.

Lemma event_line t : _parse_sse_field ("event: " ++ t) = ("event", t).
Proof. by destruct t as [|c t]. Qed.

Lemma split_data p : splitlines (format_sse_data p) = [("data: " ++ dumps_ascii (JObj p))%string; ""].
Proof.
  unfold splitlines, format_sse_data. rewrite <- app_assoc', split_inline; [done|]. rewrite every_app. apply andb_true_iff. split; [done|].
  eapply every_impl; [apply printable_inline|apply dumps_ascii_printable].
Qed.

Lemma extract_one data : (∃ r, data = String "{" r) →
  (if bool_decide (stripped_points data = []) then None
   else if bool_decide (stripped_points data = code_points "[DONE]") then None else Some data) = Some data.
Proof.
  intros [r ->]. destruct (stripped_first (String "{" r) 123%N (code_points r)) as [l' ->]; [done..|].
  by rewrite !bool_decide_false.
Qed.

(** Every event the proxy writes is read back as the payload it was written
    from, whatever text the payload holds, if the event's type stays on one
    line; the type line adds nothing to the data. *)
Theorem sse_roundtrip p
    (Hp : unicode_value (JObj p)) (Ht : ∀ t, get_str "type" p = Some t → every inline t = true) :
  parse_sse_data_json (format_sse_event p) = Some p ∧ parse_sse_data_json (format_sse_data p) = Some p ∧
  parse_sse_event (format_sse_event p) = validate_OpenAIEvent p.
Proof.
  assert (loads (dumps_ascii (JObj p)) = Some (JObj p)) as Hl.
  { apply loads_dumps; [|done]. eapply wf_impl; [|exact Hp]. done. }
  assert (∀ block, omap (λ raw_line, match raw_line with
                      | "" => None
                      | String ":" _ => None
                      | _ => let '(field, value) := _parse_sse_field raw_line in
                             if String.eqb field "data" then Some value else None
                      end) (splitlines block) = [dumps_ascii (JObj p)] → parse_sse_data_json block = Some p) as Hb.
  { intros block Hblock. unfold parse_sse_data_json, extract_sse_data, _extract_sse_data_lines. rewrite Hblock.
    simpl String.concat. rewrite extract_one by apply dumps_obj. by rewrite Hl. }
  assert (parse_sse_data_json (format_sse_data p) = Some p) as Hdata.
  { apply Hb. rewrite split_data. cbn [omap list_omap]. rewrite (data_line p).
    destruct (dumps_obj p) as [r Hr]. rewrite Hr. done. }
  assert (parse_sse_data_json (format_sse_event p) = Some p) as Hev; [|split_and!; [done..|unfold parse_sse_event; by rewrite Hev]].
  unfold format_sse_event. destruct (get_str "type" p) as [[|c t]|] eqn:Et; [done| |done].
  specialize (Ht _ eq_refl). apply Hb. unfold splitlines. rewrite <- app_assoc', split_inline by (rewrite every_app; exact Ht).
  fold (splitlines (format_sse_data p)). rewrite split_data, app_empty. cbn [omap list_omap]. rewrite (data_line p), (event_line (String c t)).
  destruct (dumps_obj p) as [r Hr]. rewrite Hr. done.
Qed.

(** ** Samples *)

Definition sample_event (text : string) : dict json := [("type", JStr "response.output_text.delta"); ("delta", JStr text)].

Lemma sse_roundtrip_witness :
  parse_sse_data_json (format_sse_event (sample_event (utf8 8232))) = Some (sample_event (utf8 8232)).
Proof.
  apply (sse_roundtrip (sample_event (utf8 8232))).
  - apply wf_obj. split; [apply (bool_decide_unpack _); vm_compute; exact I|].
    assert (∀ cps, Forall (λ cp, bool_decide (cp < 1114112)%N && negb (high_surrogate cp) && negb (low_surrogate cp) = true) cps →
      unicode (utf8_all cps)) as Hu.
    { intros cps Hc. exists cps. split; [|done]. eapply Forall_impl; [exact Hc|]. intros cp Hcp.
      rewrite !andb_true_iff, !negb_true_iff, bool_decide_eq_true in Hcp. by destruct Hcp as [[? ?] ?]. }
    assert (∀ s, utf8_all (code_points s) = s → forallb (λ cp, bool_decide (cp < 1114112)%N && negb (high_surrogate cp) &&
      negb (low_surrogate cp)) (code_points s) = true → unicode s) as Hs.
    { intros s' E Hf. rewrite <- E. apply Hu. apply Forall_forall. intros x Hx. rewrite forallb_forall in Hf.
      by apply Hf, list_elem_of_In. }
    repeat (apply Forall_cons; split); try apply Forall_nil_2; split; apply Hs; vm_compute; reflexivity.
  - intros t [= <-]. vm_compute. reflexivity.
Defined.

(** A data line that holds one of the characters U+0085, U+2028 or U+2029
    inside a JSON string, as a writer that does not escape it sends it, is
    cut there: the block is valid for the JSON reader and for the event format
    (whose lines end at [\r] and [\n] only), and the event is lost. *)
Theorem line_separator_loses_event :
  Forall (λ cp, let p := sample_event ("a" ++ utf8 cp ++ "b")%string in
                loads (dumps (JObj p)) = Some (JObj p) ∧
                parse_sse_data_json ("data: " ++ dumps (JObj p) ++ newline ++ newline)%string = None)
    [133; 8232; 8233]%N.
Proof. repeat (apply Forall_cons; split); try apply Forall_nil_2; split; vm_compute; reflexivity. Qed.

End SseFacts.
