(* ===== verification/ToolCalls.v ===== *)
(** Duplicate tool calls, [src/app/modules/proxy/tool_call_dedupe.py]: the
    keys under which calls with side effects are compared, the suppression of
    repeated calls in a response stream, the removal of repeated entries of a
    parallel call, the text of a rewritten event, and the clean-up of replayed
    calls in a request's input.

    A function that changes a dict its caller holds returns the new value. *)

From S2P Require Import Prelude Json Sse.
Import Json.Json Sse.Sse Sse.OpenAIModels.

Module ToolDedupe.

Definition TOOL_CALL_DEDUPE_CACHE_LIMIT : nat := 1024.
Definition PARALLEL_TOOL_CALL_NAME : string := "multi_tool_use.parallel".

Definition DIRECT_SIDE_EFFECT_TOOL_CALL_NAMES : list string :=
  ["apply_patch"; "close_agent"; "create_goal"; "exec_command"; "request_user_input"; "resume_agent";
   "send_input"; "spawn_agent"; "update_goal"; "update_plan"; "wait_agent"; "write_stdin"].

Definition prefixed : list string := map (λ n, "functions." ++ n)%string DIRECT_SIDE_EFFECT_TOOL_CALL_NAMES.

Definition SIDE_EFFECT_TOOL_CALL_NAMES : list string :=
  PARALLEL_TOOL_CALL_NAME :: DIRECT_SIDE_EFFECT_TOOL_CALL_NAMES ++ prefixed.
Definition SIDE_EFFECT_TOOL_CALL_ITEM_TYPES : list string := ["apply_patch_call"].
Definition PARALLEL_TOOL_USE_DEDUPE_RECIPIENT_NAMES : list string := prefixed ++ ["multi_tool_use.parallel"].
Definition SIDE_EFFECT_VOLATILE_ARG_KEYS : list string := ["max_output_tokens"; "timeout_ms"; "yield_time_ms"].

Definition mem_opt (o : option string) (l : list string) : bool := match o with Some x => mem x l | None => false end.

(** *** Fields of a payload *)

Definition event_type_from_payload (event : option OpenAIEvent) (payload : option (dict json)) : option string :=
  match event, payload with
  | Some e, _ => Some (ev_type e)
  | None, None => None
  | None, Some p =>
      match get_str "type" p, get_obj "error" p with
      | Some t, _ => Some t
      | None, Some _ => Some "error"
      | None, None => None
      end
  end.

Definition response_id_from_payload (payload : option (dict json)) : option string :=
  match payload with
  | None => None
  | Some p =>
      match match get_str "response_id" p with Some s => none_if_empty (py_strip s) | None => None end with
      | Some s => Some s
      | None =>
          match get_obj "response" p with
          | None => None
          | Some r => match get_str "id" r with Some s => none_if_empty (py_strip s) | None => None end
          end
      end
  end.

(** *** Keys *)

Definition json_object_from_argument (argument_value : string) : option (dict json) :=
  match loads argument_value with Some (JObj d) => Some d | _ => None end.

Definition canonical_json_key (v : json) : string := dumps (sort_keys v).

Definition canonical_parameters_key (recipient_name : string) (parameters : dict json) : string :=
  let canonical_parameters := fold_left dict_del SIDE_EFFECT_VOLATILE_ARG_KEYS parameters in
  canonical_json_key (JObj [("recipient_name", JStr recipient_name); ("parameters", JObj canonical_parameters)]).

Definition canonical_wait_agent_targets (targets : json) : json :=
  match targets with
  | JList l => JList (order_by (asc (λ t, (class_name t, canonical_json_key t))) l)
  | t => t
  end.

Definition normalize_tool_call_name (name : option string) : option string :=
  match name with
  | None => None
  | Some n => Some (match strip_prefix "functions." n with Some r => r | None => n end)
  end.

Definition json_of_name (name : option string) : json := match name with Some n => JStr n | None => JNull end.

(** The members of a [write_stdin] call that count. *)
Definition stdin_members (parameters : dict json) : dict json :=
  [("session_id", get_or_null "session_id" parameters); ("chars", get_or_null "chars" parameters);
   ("yield_time_ms", get_or_null "yield_time_ms" parameters);
   ("max_output_tokens", get_or_null "max_output_tokens" parameters)].

Definition canonical_parallel_tool_use_key (tool_use : dict json) : string :=
  match get_str "recipient_name" tool_use, get_obj "parameters" tool_use with
  | Some recipient_name, Some parameters =>
      let name := default "" (normalize_tool_call_name (Some recipient_name)) in
      if String.eqb name "write_stdin" then canonical_parameters_key name (stdin_members parameters)
      else if String.eqb name "wait_agent" then
        canonical_json_key (JObj [("recipient_name", JStr name);
                                  ("targets", canonical_wait_agent_targets (get_or_null "targets" parameters))])
      else if String.eqb name "exec_command" then canonical_parameters_key name parameters
      else canonical_json_key (JObj tool_use)
  | _, _ => canonical_json_key (JObj tool_use)
  end.

(** [canonical_tool_use or tool_use]. *)
Definition canonical_tool_use (tool_use : json) : json :=
  match tool_use with
  | JObj d =>
      match json_object_from_argument (canonical_parallel_tool_use_key d) with
      | Some (p :: d') => JObj (p :: d')
      | _ => tool_use
      end
  | v => v
  end.

Definition canonical_side_effect_argument_key (item_name : option string) (argument_value : string) : string :=
  match json_object_from_argument argument_value with
  | None => argument_value
  | Some argument =>
      let normalized := normalize_tool_call_name item_name in
      if bool_decide (normalized = Some "write_stdin") then
        canonical_json_key (JObj [("name", JStr "write_stdin"); ("session_id", get_or_null "session_id" argument);
                                  ("chars", get_or_null "chars" argument);
                                  ("yield_time_ms", get_or_null "yield_time_ms" argument)])
      else if bool_decide (normalized = Some "wait_agent") then
        canonical_json_key (JObj [("name", JStr "wait_agent");
                                  ("targets", canonical_wait_agent_targets (get_or_null "targets" argument))])
      else if bool_decide (normalized = Some "exec_command") then canonical_parameters_key "exec_command" argument
      else if negb (bool_decide (item_name = Some PARALLEL_TOOL_CALL_NAME)) then
        canonical_json_key (JObj [("name", json_of_name (if truthy_s normalized then normalized else item_name));
                                  ("parameters", JObj argument)])
      else match get_list "tool_uses" argument with
           | None => canonical_json_key (JObj argument)
           | Some tool_uses =>
               canonical_json_key (JObj (dict_set argument "tool_uses" (JList (map canonical_tool_use tool_uses))))
           end
  end.

Definition canonical_downstream_side_effect_argument_key (item_name : option string) (argument_value : string)
    : string :=
  match json_object_from_argument argument_value with
  | None => argument_value
  | Some argument =>
      let normalized := normalize_tool_call_name item_name in
      if bool_decide (normalized = Some "write_stdin") then canonical_parameters_key "write_stdin" (stdin_members argument)
      else if bool_decide (normalized = Some "exec_command") then canonical_parameters_key "exec_command" argument
      else canonical_side_effect_argument_key item_name argument_value
  end.

(** An entry of a parallel call that is compared: its recipient and itself. *)
Definition compared_use (tool_use : json) : option (string * dict json) :=
  match tool_use with
  | JObj d =>
      match get_str "recipient_name" d with
      | Some r => if mem r PARALLEL_TOOL_USE_DEDUPE_RECIPIENT_NAMES then Some (r, d) else None
      | None => None
      end
  | _ => None
  end.

Definition _tool_call_has_side_effect_arguments (item_name : option string) (argument_value : string) : bool :=
  if negb (bool_decide (item_name = Some PARALLEL_TOOL_CALL_NAME)) then mem_opt item_name SIDE_EFFECT_TOOL_CALL_NAMES
  else match json_object_from_argument argument_value with
       | None => false
       | Some argument =>
           match get_list "tool_uses" argument with
           | None => false
           | Some tool_uses => existsb (λ u, bool_decide (is_Some (compared_use u))) tool_uses
           end
       end.

(** *** Calls in a response stream *)

(** Response id, item type, name, call id and argument key. *)
Definition tool_call_key := (string * string * option string * option string * string)%type.

(** The dict of seen keys, in insertion order. *)
Notation seen_keys := (list tool_call_key).

Definition add_seen (seen : seen_keys) (key : tool_call_key) : seen_keys :=
  if bool_decide (key ∈ seen) then seen else seen ++ [key].

(** The loop that drops the oldest keys. *)
Definition trim_seen (seen : seen_keys) : seen_keys := drop (length seen - TOOL_CALL_DEDUPE_CACHE_LIMIT) seen.

Definition parallel_key (response_id : option string) (scoped : bool) (use : string * dict json) : tool_call_key :=
  (default "" (if scoped then response_id else None), "parallel_tool_use", Some use.1, None,
   canonical_parallel_tool_use_key use.2).

(** The loop over the entries: what is seen then, the entries kept and the
    number removed. *)
Fixpoint keep_unseen (key : string * dict json → tool_call_key) (tool_uses : list json) (seen : seen_keys)
    : seen_keys * list json * nat :=
  match tool_uses with
  | [] => (seen, [], 0)
  | u :: rest =>
      match compared_use u with
      | None => let '(seen, kept, removed) := keep_unseen key rest seen in (seen, u :: kept, removed)
      | Some use =>
          if bool_decide (key use ∈ seen)
          then let '(seen, kept, removed) := keep_unseen key rest seen in (seen, kept, S removed)
          else let '(seen, kept, removed) := keep_unseen key rest (add_seen seen (key use)) in (seen, u :: kept, removed)
      end
  end.

(** The result, the item as it is left and the seen keys. *)
Definition _mark_duplicate_parallel_tool_call_downstream_event (item : dict json) (argument_value : string)
    (seen : seen_keys) (response_id : option string) (scoped : bool) : bool * dict json * seen_keys :=
  match json_object_from_argument argument_value with
  | None => (false, item, seen)
  | Some argument =>
      match get_list "tool_uses" argument with
      | None => (false, item, seen)
      | Some tool_uses =>
          let '(seen, kept, removed) := keep_unseen (parallel_key response_id scoped) tool_uses seen in
          let seen := trim_seen seen in
          if Nat.eqb removed 0 then (false, item, seen)
          else match kept with
               | [] => (true, item, seen)
               | _ =>
                   let rewritten := dict_set argument "tool_uses" (JList kept) in
                   (false, dict_set item "arguments" (JStr (canonical_json_key (JObj rewritten))), seen)
               end
      end
  end.

(** The argument of a call item by the item's type: [None] for an item that is
    no call, [Some None] for a call whose argument is no text. *)
Definition call_argument (item : dict json) : option (option string) :=
  let text v := match v with Some (JStr s) => Some s | _ => None end in
  match get_str "type" item with
  | Some "function_call" => Some (text (dict_get item "arguments"))
  | Some "custom_tool_call" => Some (text (dict_get item "input"))
  | Some "apply_patch_call" =>
      Some (match dict_get item "operation" with
            | Some (JObj d) => Some (canonical_json_key (JObj d))
            | v => text v
            end)
  | _ => None
  end.

Definition is_side_effect_tool_call (item_type : string) (item_name : option string) (argument_value : string) : bool :=
  mem item_type SIDE_EFFECT_TOOL_CALL_ITEM_TYPES
  || (mem_opt item_name SIDE_EFFECT_TOOL_CALL_NAMES && _tool_call_has_side_effect_arguments item_name argument_value).

(** The three keys of a single call: exact, of its response, of any response. *)
Definition exact_key (rid item_type : string) (name call_id : option string) (arg : string) : tool_call_key :=
  (rid, item_type, name, call_id, arg).

(** Lines 130-166, a call that is not parallel. *)
Definition mark_single (item_type : string) (name call_id : option string) (argument_key : string)
    (seen : seen_keys) (response_id : option string) (scoped : bool) : bool * seen_keys :=
  let rid := default "" response_id in
  let key := exact_key rid item_type name call_id argument_key in
  let same_response := exact_key rid item_type name None argument_key in
  let cross_response := exact_key "" item_type name None argument_key in
  if bool_decide (key ∈ seen) then (true, seen)
  else if negb scoped && bool_decide (cross_response ∈ seen) && negb (bool_decide (same_response ∈ seen))
  then (true, seen)
  else
    let seen := add_seen (add_seen seen key) same_response in
    let seen := if scoped then seen else add_seen seen cross_response in
    (false, trim_seen seen).

(** The result, the payload as it is left and the seen keys. *)
Definition mark_duplicate_tool_call_downstream_event (payload : option (dict json)) (seen : seen_keys)
    (response_id : option string) (scoped : bool) : bool * option (dict json) * seen_keys :=
  match payload with
  | None => (false, payload, seen)
  | Some p =>
      if negb (bool_decide (get_str "type" p = Some "response.output_item.done")) then (false, payload, seen)
      else match get_obj "item" p with
      | None => (false, payload, seen)
      | Some item =>
          match call_argument item with
          | None => (false, payload, [])
          | Some None => (false, payload, seen)
          | Some (Some argument_value) =>
              let item_type := default "" (get_str "type" item) in
              let item_name := get_str "name" item in
              let call_id := get_str "call_id" item in
              if negb (is_side_effect_tool_call item_type item_name argument_value) then (false, payload, [])
              else if bool_decide (item_name = Some PARALLEL_TOOL_CALL_NAME) then
                let '(suppressed, item, seen) :=
                  _mark_duplicate_parallel_tool_call_downstream_event item argument_value seen response_id scoped in
                (suppressed, Some (dict_set p "item" (JObj item)), seen)
              else
                let name := normalize_tool_call_name item_name in
                let '(suppressed, seen) :=
                  mark_single item_type name call_id (canonical_downstream_side_effect_argument_key name argument_value)
                    seen response_id scoped in
                (suppressed, payload, seen)
          end
      end
  end.

(** *** Entries of one parallel call *)

Fixpoint first_uses (tool_uses : list json) (seen : list string) : list json * nat :=
  match tool_uses with
  | [] => ([], 0)
  | u :: rest =>
      match compared_use u with
      | None => let '(kept, removed) := first_uses rest seen in (u :: kept, removed)
      | Some use =>
          let key := canonical_parallel_tool_use_key use.2 in
          if mem key seen then let '(kept, removed) := first_uses rest seen in (kept, S removed)
          else let '(kept, removed) := first_uses rest (key :: seen) in (u :: kept, removed)
      end
  end.

Definition dedupe_parallel_tool_uses_argument (argument_value : string) : string * bool * nat :=
  match json_object_from_argument argument_value with
  | None => (argument_value, false, 0)
  | Some decoded =>
      match get_list "tool_uses" decoded with
      | None => (argument_value, false, 0)
      | Some tool_uses =>
          let '(kept, removed) := first_uses tool_uses [] in
          if Nat.eqb removed 0 then (argument_value, false, 0)
          else (canonical_json_key (JObj (dict_set decoded "tool_uses" (JList kept))), true, removed)
      end
  end.

Definition rewrite_parallel_tool_call_payload (payload : option (dict json)) : option (dict json) * bool * nat :=
  match payload with
  | None => (payload, false, 0)
  | Some p =>
      if negb (bool_decide (get_str "type" p = Some "response.output_item.done")) then (payload, false, 0)
      else match get_obj "item" p with
      | None => (payload, false, 0)
      | Some item =>
          if negb (bool_decide (get_str "type" item = Some "function_call"))
             || negb (bool_decide (get_str "name" item = Some PARALLEL_TOOL_CALL_NAME))
          then (payload, false, 0)
          else match get_str "arguments" item with
          | None => (payload, false, 0)
          | Some argument_value =>
              let '(rewritten, changed, removed) := dedupe_parallel_tool_uses_argument argument_value in
              if negb changed then (payload, false, 0)
              else (Some (dict_set p "item" (JObj (dict_set item "arguments" (JStr rewritten)))), true, removed)
          end
      end
  end.

(** The text of an event after the rewriting: the text, the payload, the parsed
    event, its type and the event block. *)
Definition rewrite_parallel_tool_call_text (text : string) (payload : option (dict json)) (event_block : string)
    : string * option (dict json) * option OpenAIEvent * option string * string :=
  match rewrite_parallel_tool_call_payload payload with
  | (Some rewritten, true, _) =>
      let block := format_sse_event rewritten in
      let event := parse_sse_event block in
      (dumps_ascii (JObj rewritten), Some rewritten, event, event_type_from_payload event (Some rewritten), block)
  | _ =>
      let event := parse_sse_event event_block in
      (text, payload, event, event_type_from_payload event payload, event_block)
  end.

Definition rewrite_parallel_tool_call_sse_line (line : string) (payload : option (dict json))
    : string * option (dict json) * option OpenAIEvent * option string :=
  match rewrite_parallel_tool_call_payload payload with
  | (Some rewritten, true, _) =>
      let rewritten_line := format_sse_event rewritten in
      let event := parse_sse_event rewritten_line in
      (rewritten_line, Some rewritten, event, event_type_from_payload event (Some rewritten))
  | _ =>
      let event := parse_sse_event line in
      (line, payload, event, event_type_from_payload event payload)
  end.

(** *** Replayed calls in the input of a request *)

(** Item type, name and argument key. *)
Definition call_key := (string * option string * string)%type.

Definition replayed_side_effect_tool_call_key (item : dict json) : option call_key :=
  match get_str "type" item with
  | Some "function_call" =>
      let item_name := get_str "name" item in
      match get_str "arguments" item with
      | None => None
      | Some argument_value =>
          if mem_opt item_name SIDE_EFFECT_TOOL_CALL_NAMES && _tool_call_has_side_effect_arguments item_name argument_value
          then Some ("function_call", item_name, canonical_side_effect_argument_key item_name argument_value)
          else None
      end
  | Some "custom_tool_call" =>
      let item_name := get_str "name" item in
      if negb (mem_opt item_name SIDE_EFFECT_TOOL_CALL_NAMES) then None
      else match get_str "input" item with
      | None => None
      | Some argument_value =>
          Some ("custom_tool_call", item_name, canonical_side_effect_argument_key item_name argument_value)
      end
  | Some "apply_patch_call" =>
      Some ("apply_patch_call", Some "apply_patch_call", canonical_json_key (get_or_null "operation" item))
  | _ => None
  end.

Definition replayed_input_segment_boundary (item : dict json) : bool :=
  mem_opt (get_str "role" item) ["developer"; "system"; "user"]
  && match get_or_null "type" item with JNull => true | JStr t => String.eqb t "message" | _ => false end.

Definition replayed_tool_call_segment_boundary (item : dict json) : bool :=
  mem_opt (get_str "type" item) (["function_call"; "custom_tool_call"] ++ SIDE_EFFECT_TOOL_CALL_ITEM_TYPES).

(** [isinstance(x, str) and x]. *)
Definition nonempty_str (k : string) (d : dict json) : option string :=
  match get_str k d with Some s => none_if_empty s | None => None end.

Definition replayed_tool_output_call_id (item : dict json) : option string :=
  if mem_opt (get_str "type" item) ["function_call_output"; "custom_tool_call_output"; "apply_patch_call_output"]
  then nonempty_str "call_id" item else None.

Definition assistant_message (text : string) : json :=
  JObj [("type", JStr "message"); ("role", JStr "assistant");
        ("content", JList [JObj [("type", JStr "output_text"); ("text", JStr text)]])].

Definition replayed_tool_output_as_assistant_message (item : dict json) : json :=
  assistant_message (match get_str "output" item with
                     | Some s => s
                     | None => canonical_json_key (get_or_null "output" item)
                     end).

Definition replayed_tool_call_without_output_as_assistant_message (item : dict json) : json :=
  assistant_message ("Omitted replayed side-effect tool call without matching output: "
                     ++ default "tool" (nonempty_str "name" item) ++ ".")%string.

(** The loop moves the cursor past the outputs before the call. *)
Fixpoint skip_before (call_index : nat) (indices : list nat) (cursor : nat) : nat :=
  match indices with
  | i :: rest => if Nat.ltb i call_index then skip_before call_index rest (S cursor) else cursor
  | [] => cursor
  end.

Definition replayed_tool_output_index_for_call (outputs : gmap string (list nat)) (cursors : gmap string nat)
    (call_index : nat) (call_id : string) : gmap string nat * option nat :=
  match outputs !! call_id with
  | None | Some [] => (cursors, None)
  | Some indices =>
      let start := default 0 (cursors !! call_id) in
      let cursor := skip_before call_index (drop start indices) start in
      match indices !! cursor with
      | None => (<[call_id := cursor]> cursors, None)
      | Some output_index => (<[call_id := S cursor]> cursors, Some output_index)
      end
  end.

(** The first pass: calls by index, their ids, and outputs by call id. *)
Record replay_scan := {
  call_keys : gmap nat call_key;
  call_ids : gmap nat string;
  output_indices : gmap string (list nat);
}.

Definition scan_step (acc : nat * replay_scan) (item : json) : nat * replay_scan :=
  let '(index, sc) := acc in
  (S index,
   match item with
   | JObj d =>
       match replayed_side_effect_tool_call_key d with
       | Some key =>
           {| call_keys := <[index := key]> (call_keys sc);
              call_ids := match nonempty_str "call_id" d with
                          | Some id => <[index := id]> (call_ids sc)
                          | None => call_ids sc
                          end;
              output_indices := output_indices sc |}
       | None =>
           match replayed_tool_output_call_id d with
           | Some id => sc {{ output_indices := <[id := default [] (output_indices sc !! id) ++ [index]]> (output_indices sc) }}
           | None => sc
           end
       end
   | _ => sc
   end).

Definition scan_items (items : list json) : replay_scan :=
  snd (fold_left scan_step items (0, {| call_keys := ∅; call_ids := ∅; output_indices := ∅ |})).

Record replay_state := {
  dropped : gset nat;
  rewritten : gmap nat json;
  first_call_id : gmap call_key (option string);
  first_call_index : gmap call_key nat;
  output_of : gmap nat (option nat);
  cursors : gmap string nat;
  last_key : option call_key;
  removed_count : nat;
}.

Definition new_segment (st : replay_state) : replay_state :=
  st {{ first_call_id := (∅ : gmap call_key (option string)); first_call_index := (∅ : gmap call_key nat);
        last_key := (None : option call_key) }}.

Definition obj_at (items : list json) (i : nat) : option (dict json) :=
  match items !! i with Some (JObj d) => Some d | _ => None end.

(** Lines 414-424: a repeated call is dropped and its output becomes an
    assistant message. *)
Definition drop_repeated (items : list json) (index : nat) (key : call_key) (output_index : option nat)
    (st : replay_state) : replay_state :=
  let rewritten1 :=
    match first_call_index st !! key with
    | Some first =>
        match default None (output_of st !! first), obj_at items first with
        | None, Some d => <[first := replayed_tool_call_without_output_as_assistant_message d]> (rewritten st)
        | _, _ => rewritten st
        end
    | None => rewritten st
    end in
  let rewritten2 :=
    match output_index with
    | Some o => match obj_at items o with
                | Some d => <[o := replayed_tool_output_as_assistant_message d]> rewritten1
                | None => rewritten1
                end
    | None => rewritten1
    end in
  st {{ dropped := {[index]} ∪ dropped st; rewritten := rewritten2; removed_count := S (removed_count st) }}.

(** One round of the main loop. *)
Definition replay_step (items : list json) (sc : replay_scan) (acc : nat * replay_state) (item : json)
    : nat * replay_state :=
  let '(index, st) := acc in
  let d := match item with JObj d => Some d | _ => None end in
  let st := match d with Some d => if replayed_input_segment_boundary d then new_segment st else st | None => st end in
  (S index,
   match call_keys sc !! index with
   | None =>
       let output_call_id := match d with Some d => replayed_tool_output_call_id d | None => None end in
       let ours := match last_key st, output_call_id with
                   | Some k, Some id => bool_decide (first_call_id st !! k = Some (Some id))
                   | _, _ => false
                   end in
       if ours then st
       else if bool_decide (is_Some output_call_id)
               || match d with Some d => replayed_tool_call_segment_boundary d | None => false end
       then new_segment st
       else st
   | Some key =>
       let st := match last_key st with
                 | Some k => if bool_decide (key = k) then st
                             else st {{ first_call_id := (∅ : gmap call_key (option string)) }}
                 | None => st
                 end in
       let '(cs, output_index) :=
         match call_ids sc !! index with
         | Some id => replayed_tool_output_index_for_call (output_indices sc) (cursors st) index id
         | None => (cursors st, None)
         end in
       let st := st {{ last_key := Some key; cursors := cs; output_of := <[index := output_index]> (output_of st) }} in
       match first_call_id st !! key with
       | None =>
           st {{ first_call_id := <[key := call_ids sc !! index]> (first_call_id st);
                 first_call_index := <[key := index]> (first_call_index st) }}
       | Some _ => drop_repeated items index key output_index st
       end
   end).

Definition replay_start : replay_state :=
  {| dropped := ∅; rewritten := ∅; first_call_id := ∅; first_call_index := ∅; output_of := ∅; cursors := ∅;
     last_key := None; removed_count := 0 |}.

Definition replay_run (items : list json) (sc : replay_scan) : replay_state :=
  snd (fold_left (replay_step items sc) items (0, replay_start)).

(** Lines 427-438: calls that are kept, not rewritten and have no output. *)
Definition missing_output (items : list json) (sc : replay_scan) (st : replay_state) (index : nat) : bool :=
  bool_decide (is_Some (call_keys sc !! index)) && negb (bool_decide (index ∈ dropped st))
  && negb (bool_decide (is_Some (rewritten st !! index)))
  && match default None (output_of st !! index) with Some _ => false | None => true end
  && bool_decide (is_Some (obj_at items index)).

Definition rewrite_missing (items : list json) (acc : replay_state * nat) (index : nat) : replay_state * nat :=
  match obj_at items index with
  | Some d => ((fst acc) {{ rewritten := <[index := replayed_tool_call_without_output_as_assistant_message d]> (rewritten (fst acc)) }},
               S (snd acc))
  | None => acc
  end.

(** [x in {...}] raises for a list or a dict. *)
Definition hashable (v : json) : bool := match v with JList _ | JObj _ => false | _ => true end.
Definition unhashable (k : string) (item : json) : bool :=
  match item with JObj d => negb (hashable (get_or_null k d)) | _ => false end.

Inductive ReplayError := TypeError.

(** An item whose type (in the first pass) or role (in the main loop) is a
    list or a dict raises. *)
Definition dedupe_replayed_side_effect_input_items (items : list json) (sanitize_missing_outputs : bool)
    : res ReplayError (list json * nat) :=
  let sc := scan_items items in
  if existsb (unhashable "type") items then Err TypeError
  else if bool_decide (call_keys sc = ∅) then Ok (items, 0)
  else if existsb (unhashable "role") items then Err TypeError
  else
    let st := replay_run items sc in
    let '(st, missing) :=
      if sanitize_missing_outputs
      then fold_left (rewrite_missing items) (List.filter (missing_output items sc st) (seq 0 (length items))) (st, 0)
      else (st, 0) in
    Ok (if Nat.eqb (removed_count st) 0 && Nat.eqb missing 0 then (items, 0)
        else
          (omap (λ p : nat * json, if bool_decide (p.1 ∈ dropped st) then None
                                   else Some (default p.2 (rewritten st !! p.1))) (imap pair items),
           removed_count st + missing)).

End ToolDedupe.

Module ToolDedupeFacts.
Import ToolDedupe JsonFacts.

(** ** What a key says about the arguments *)


Lemma object_value a d : json_object_from_argument a = Some d → value (JObj d).
Proof.
  unfold json_object_from_argument. destruct (loads a) as [[| | | | | |o]|] eqn:E; try done.
  intros [= <-]. by eapply loads_value.
Qed.

Lemma value_get (d : dict json) k v : value (JObj d) → dict_get d k = Some v → value v.
Proof.
  unfold value. rewrite wf_obj, Forall_forall. intros [_ H] Hg%dict_get_Some_in. apply (H _ Hg).
Qed.

















(** ** Response streams *)

(** An event of a stream, with the response it belongs to. *)
Record stream_event := { ev_payload : option (dict json); ev_response : option string }.

Definition mark (scoped : bool) (seen : list tool_call_key) (e : stream_event) :=
  mark_duplicate_tool_call_downstream_event (ev_payload e) seen (ev_response e) scoped.
Definition suppressed (scoped : bool) (seen : list tool_call_key) (e : stream_event) : bool := (mark scoped seen e).1.1.
(** The seen keys after a stream. *)
Definition cache (scoped : bool) (es : list stream_event) : list tool_call_key :=
  fold_left (λ seen e, (mark scoped seen e).2) es [].

(** The call with side effects an event reports: the item, its type, name,
    call id and argument. *)
Record call := { c_item : dict json; c_type : string; c_name : option string; c_id : option string; c_arg : string }.

Definition call_of (e : stream_event) : option call :=
  match ev_payload e with
  | None => None
  | Some p =>
      if negb (bool_decide (get_str "type" p = Some "response.output_item.done")) then None
      else match get_obj "item" p with
      | None => None
      | Some item =>
          match call_argument item with
          | Some (Some a) =>
              let t := default "" (get_str "type" item) in
              if is_side_effect_tool_call t (get_str "name" item) a
              then Some {| c_item := item; c_type := t; c_name := get_str "name" item; c_id := get_str "call_id" item; c_arg := a |}
              else None
          | _ => None
          end
      end
  end.

Definition is_parallel (c : call) : bool := bool_decide (c_name c = Some PARALLEL_TOOL_CALL_NAME).
Definition arg_key (c : call) : string :=
  canonical_downstream_side_effect_argument_key (normalize_tool_call_name (c_name c)) (c_arg c).


Lemma mark_no_call scoped seen e : call_of e = None →
  ∃ seen', mark scoped seen e = (false, ev_payload e, seen') ∧ (seen' = seen ∨ seen' = []).
Proof.
  unfold call_of, mark, mark_duplicate_tool_call_downstream_event. destruct (ev_payload e) as [p|]; [|by eauto].
  destruct (negb _); [by eauto|]. destruct (get_obj "item" p) as [item|]; [|by eauto].
  destruct (call_argument item) as [[a|]|]; [|by eauto..]. destruct (is_side_effect_tool_call _ _ _); [done|]. eauto.
Qed.

Lemma mark_call scoped seen e c : call_of e = Some c →
  mark scoped seen e =
  if is_parallel c then
    let '(s, item, seen) := _mark_duplicate_parallel_tool_call_downstream_event (c_item c) (c_arg c) seen (ev_response e) scoped in
    (s, Some (dict_set (default [] (ev_payload e)) "item" (JObj item)), seen)
  else
    let '(s, seen) := mark_single (c_type c) (normalize_tool_call_name (c_name c)) (c_id c) (arg_key c) seen (ev_response e) scoped in
    (s, ev_payload e, seen).
Proof.
  unfold call_of, mark, mark_duplicate_tool_call_downstream_event. destruct (ev_payload e) as [p|]; [|done].
  destruct (negb _); [done|]. destruct (get_obj "item" p) as [item|]; [|done].
  destruct (call_argument item) as [[a|]|]; [|done..]. destruct (is_side_effect_tool_call _ _ _); [|done].
  intros [= <-]. cbn [negb]. unfold is_parallel, arg_key. simpl c_name. done.
Qed.

















Lemma trim_seen_bound seen : (length (trim_seen seen) <= TOOL_CALL_DEDUPE_CACHE_LIMIT)%nat.
Proof. unfold trim_seen. rewrite length_drop. lia. Qed.

Lemma mark_bound scoped seen e : (length seen <= TOOL_CALL_DEDUPE_CACHE_LIMIT)%nat →
  (length (mark scoped seen e).2 <= TOOL_CALL_DEDUPE_CACHE_LIMIT)%nat.
Proof.
  intros Hlen. destruct (call_of e) as [c|] eqn:Ec.
  - rewrite (mark_call _ _ _ _ Ec). destruct (is_parallel c).
    + unfold _mark_duplicate_parallel_tool_call_downstream_event.
      destruct (json_object_from_argument (c_arg c)) as [d|]; [|done]. destruct (get_list "tool_uses" d) as [l|]; [|done].
      destruct (keep_unseen _ l seen) as [[s' kept] removed]. destruct (Nat.eqb removed 0); [apply trim_seen_bound|].
      destruct kept; apply trim_seen_bound.
    + unfold mark_single. case_bool_decide; [done|]. destruct (_ && _); [done|]. apply trim_seen_bound.
  - destruct (mark_no_call scoped seen e Ec) as (s' & -> & [->| ->]); simpl; [done|lia].
Qed.

(** The memory of a stream never holds more than 1024 keys, and a call it has
    let through is withheld when the same event comes again at once, however
    full the memory is. *)
Theorem stream_remembers_call scoped es e c
    (Hc : call_of e = Some c) (Hp : is_parallel c = false) (Hs : suppressed scoped (cache scoped es) e = false) :
  suppressed scoped (cache scoped (es ++ [e])) e = true ∧
  (length (cache scoped (es ++ [e])) <= TOOL_CALL_DEDUPE_CACHE_LIMIT)%nat.
Proof.
  assert (∀ es, (length (cache scoped es) <= TOOL_CALL_DEDUPE_CACHE_LIMIT)%nat) as Hb.
  { intros es'. unfold cache. induction es' as [|x es' IH] using rev_ind; [simpl; lia|].
    rewrite fold_left_app. by apply mark_bound. }
  split; [|apply Hb]. unfold cache at 1. rewrite fold_left_app. fold (cache scoped es). cbn [fold_left].
  unfold suppressed in *. rewrite (mark_call _ _ _ _ Hc), Hp in Hs. rewrite !(mark_call _ _ _ _ Hc), Hp.
  unfold mark_single in *. set (key := exact_key _ _ _ (c_id c) _) in *.
  case_bool_decide as H1; [done|]. destruct (_ && _); [done|]. simpl.
  match goal with |- context [trim_seen ?s] => set (seen' := s) end.
  assert (∃ l2, seen' = cache scoped es ++ key :: l2 ∧ (length l2 <= 2)%nat) as (l2 & Hl2 & Hlen).
  { assert (∀ s k, add_seen s k = s ∨ add_seen s k = s ++ [k]) as Hadd by (intros s k; unfold add_seen; case_bool_decide; auto).
    assert (add_seen (cache scoped es) key = cache scoped es ++ [key]) as Hkey by (unfold add_seen; by rewrite bool_decide_false).
    unfold seen'. rewrite Hkey. destruct scoped.
    - destruct (Hadd (cache true es ++ [key]) (exact_key (default "" (ev_response e)) (c_type c) (normalize_tool_call_name (c_name c)) None (arg_key c)))
        as [->| ->]; [exists []|eexists [_]; rewrite <- app_assoc]; (split; [done|simpl; lia]).
    - match goal with |- context [add_seen (add_seen ?s ?k1) ?k2] => destruct (Hadd s k1) as [->| ->]; 
        match goal with |- context [add_seen ?s' k2] => destruct (Hadd s' k2) as [->| ->] end end;
        rewrite <- ?app_assoc; eexists; (split; [reflexivity|simpl; lia]). }
  assert (key ∈ trim_seen seen') as Hin; [|by rewrite bool_decide_true].
  unfold trim_seen. rewrite Hl2, drop_app, elem_of_app. right. rewrite length_app.
  specialize (Hb es). unfold TOOL_CALL_DEDUPE_CACHE_LIMIT in *. simpl length.
  replace (length (cache scoped es) + S (length l2) - 1024 - length (cache scoped es))%nat with 0%nat by lia. left.
Qed.

(** ** Replayed calls *)

Definition key_of (item : json) : option call_key :=
  match item with JObj d => replayed_side_effect_tool_call_key d | _ => None end.
Definition output_id_of (item : json) : option string :=
  match item with JObj d => replayed_tool_output_call_id d | _ => None end.

(** What the first pass finds: the call at each index, and outputs under the
    id they answer. *)
Lemma scan_items_spec items :
  (∀ i, call_keys (scan_items items) !! i = items !! i ≫= key_of) ∧
  (∀ id l o, output_indices (scan_items items) !! id = Some l → o ∈ l → ∃ item, items !! o = Some item ∧ output_id_of item = Some id).
Proof.
  unfold scan_items. set (start := (0, _)).
  enough (fst (fold_left scan_step items start) = length items ∧
    (∀ i, call_keys (snd (fold_left scan_step items start)) !! i = items !! i ≫= key_of) ∧
    (∀ id l o, output_indices (snd (fold_left scan_step items start)) !! id = Some l → o ∈ l →
      ∃ item, items !! o = Some item ∧ output_id_of item = Some id)) by tauto.
  induction items as [|x items IH] using rev_ind; [by split_and!|].
  rewrite fold_left_app. cbn [fold_left]. destruct (fold_left scan_step items start) as [n sc]. simpl in IH |- *.
  destruct IH as (-> & Hk & Ho). rewrite length_app. split; [simpl; lia|].
  assert (∀ i, (items ++ [x]) !! i ≫= key_of = if decide (i = length items) then key_of x else items !! i ≫= key_of) as Hx.
  { intros i. case_decide as Hi; [subst i; by rewrite list_lookup_middle|].
    destruct (decide (i < length items)%nat); [by rewrite lookup_app_l|].
    rewrite !lookup_ge_None_2; [done| |]; [lia|rewrite length_app; simpl; lia]. }
  assert (∀ id l o, output_indices sc !! id = Some l → o ∈ l →
    ∃ item, (items ++ [x]) !! o = Some item ∧ output_id_of item = Some id) as Ho'.
  { intros id l o Hl Hin. destruct (Ho _ _ _ Hl Hin) as (item & Hi & ?). exists item. split; [|done]. by apply lookup_app_l_Some. }
  destruct x as [| | | | | |d]; try (split; [intros i; rewrite Hx, Hk; case_decide; [subst; by rewrite lookup_ge_None_2|done]|exact Ho']).
  simpl in *. destruct (replayed_side_effect_tool_call_key d) as [key|] eqn:Ekey; simpl.
  { split; [|exact Ho']. intros i. rewrite Hx. case_decide; [subst; by rewrite lookup_insert_eq|].
    by rewrite lookup_insert_ne, Hk by done. }
  assert (∀ i, call_keys sc !! i = (items ++ [JObj d]) !! i ≫= key_of) as Hk'.
  { intros i. rewrite Hx, Hk. case_decide; [subst; by rewrite lookup_ge_None_2|done]. }
  destruct (replayed_tool_output_call_id d) as [id|] eqn:Eid; [|by split]. simpl. split; [exact Hk'|].
  intros id' l o. destruct (decide (id' = id)) as [->|Hne]; [|rewrite lookup_insert_ne by done; apply Ho'].
  rewrite lookup_insert_eq. intros [= <-] [Hin|Hin]%elem_of_app.
  - destruct (output_indices sc !! id) eqn:E; simpl in Hin; [by eapply Ho'|by apply elem_of_nil in Hin].
  - apply list_elem_of_singleton in Hin as ->. eexists. rewrite list_lookup_middle by done. by split.
Qed.

Lemma output_index_found outputs cs i id cs' o :
  replayed_tool_output_index_for_call outputs cs i id = (cs', Some o) → ∃ l, outputs !! id = Some l ∧ o ∈ l.
Proof.
  unfold replayed_tool_output_index_for_call. destruct (outputs !! id) as [[|x l]|] eqn:El; [done| |done].
  destruct (_ !! skip_before _ _ _) eqn:E; [|done]. intros [= _ <-]. exists (x :: l). split; [done|].
  by eapply list_elem_of_lookup_2.
Qed.

(** Item [m] may stand between a call with this key and its repetition: it is
    no user, system or developer message and no other tool call. *)
Definition transparent (key : call_key) (item : json) : Prop :=
  match item with
  | JObj d => replayed_input_segment_boundary d = false ∧
              (replayed_side_effect_tool_call_key d = Some key ∨
               replayed_side_effect_tool_call_key d = None ∧ replayed_tool_call_segment_boundary d = false)
  | _ => True
  end.

(** Call [j] is an earlier call with the key, and nothing but transparent
    items follow it up to [i]. *)
Definition directly_before (items : list json) (key : call_key) (j i : nat) : Prop :=
  (j < i)%nat ∧ items !! j ≫= key_of = Some key ∧ ∀ m item, (j < m < i)%nat → items !! m = Some item → transparent key item.

(** What may replace an item: a call without output by a notice, a tool output
    by an assistant message with its text. *)
Definition replacement (item v : json) : Prop :=
  ∃ d, item = JObj d ∧
    (is_Some (key_of item) ∧ v = replayed_tool_call_without_output_as_assistant_message d ∨
     is_Some (output_id_of item) ∧ v = replayed_tool_output_as_assistant_message d).

Record replay_inv (items : list json) (i : nat) (st : replay_state) : Prop := {
  ri_dropped : ∀ k, k ∈ dropped st → (k < i)%nat ∧ ∃ key j, items !! k ≫= key_of = Some key ∧
                 directly_before items key j k ∧ j ∉ dropped st;
  ri_count : removed_count st = size (dropped st);
  ri_last : ∀ key, is_Some (first_call_id st !! key) → last_key st = Some key;
  ri_first : ∀ key, is_Some (first_call_id st !! key) →
               ∃ j, first_call_index st !! key = Some j ∧ directly_before items key j i ∧ j ∉ dropped st;
  ri_index : ∀ key j, first_call_index st !! key = Some j → items !! j ≫= key_of = Some key;
  ri_rewritten : ∀ k v, rewritten st !! k = Some v → ∃ item, items !! k = Some item ∧ replacement item v;
}.

Lemma new_segment_inv items i st : replay_inv items i st → replay_inv items i (new_segment st).
Proof.
  intros [H1 H2 H3 H4 H5 H6]. split; simpl; try done; intros key; rewrite lookup_empty; [by intros [? ?]..|done].
Qed.

(** A transparent item, or any item once nothing is remembered, moves the
    invariant on. *)
Lemma replay_inv_next items i st item :
  items !! i = Some item → (∀ key, is_Some (first_call_id st !! key) → transparent key item) →
  replay_inv items i st → replay_inv items (S i) st.
Proof.
  intros Hi Ht [H1 H2 H3 H4 H5 H6]. split; try done.
  - intros k Hk. destruct (H1 k Hk) as [? ?]. split; [lia|done].
  - intros key Hkey. destruct (H4 key Hkey) as (j & Hj & (Hlt & Hk & Hm) & Hd). exists j. split; [done|]. split; [|done].
    split_and!; [lia|done|]. intros m x Hmi Hx. destruct (decide (m = i)) as [->|]; [|apply (Hm m); [lia|done]].
    replace x with item by congruence. by apply Ht.
Qed.

Lemma output_is_no_call d : is_Some (replayed_tool_output_call_id d) → replayed_tool_call_segment_boundary d = false.
Proof.
  unfold replayed_tool_output_call_id, replayed_tool_call_segment_boundary. intros [id H].
  destruct (get_str "type" d) as [t|]; [|done]. cbn [mem_opt] in *. destruct (mem t [_; _; _]) eqn:E; [|done].
  apply mem_spec in E. rewrite !elem_of_cons, elem_of_nil in E. by destruct E as [->|[->|[->|[]]]].
Qed.

(** The bookkeeping of a call keeps the invariant. *)
Lemma replay_inv_update items i st key cs oo :
  replay_inv items i st → (∀ key', is_Some (first_call_id st !! key') → key' = key) →
  replay_inv items i (st {{ last_key := Some key; cursors := cs; output_of := oo }}).
Proof. intros [H1 H2 H3 H4 H5 H6] Hl. split; simpl; try done. intros key' H'. by rewrite (Hl key'). Qed.

Lemma drop_repeated_inv items i key o st item :
  items !! i = Some item → key_of item = Some key → is_Some (first_call_id st !! key) →
  (∀ oi, o = Some oi → ∃ x, items !! oi = Some x ∧ is_Some (output_id_of x)) →
  replay_inv items i st →
  (∀ key', is_Some (first_call_id st !! key') → transparent key' item) →
  replay_inv items (S i) (drop_repeated items i key o st).
Proof.
  intros Hi Hkey Hfirst Ho Hinv Ht. pose proof Hinv as [H1 H2 H3 H4 H5 H6].
  assert (i ∉ dropped st) as Hnew by (intros [? _]%H1; lia).
  destruct (replay_inv_next _ _ _ _ Hi Ht Hinv) as [N1 _ _ N4 _ _].
  assert (∀ k v, rewritten (drop_repeated items i key o st) !! k = Some v → ∃ x, items !! k = Some x ∧ replacement x v) as Hrw.
  { unfold drop_repeated. cbn [rewritten].
    set (r1 := match first_call_index st !! key with Some _ => _ | None => _ end).
    assert (∀ k v, r1 !! k = Some v → ∃ x, items !! k = Some x ∧ replacement x v) as Hr1.
    { unfold r1. destruct (first_call_index st !! key) as [f|] eqn:Ef; [|done].
      destruct (default None _); [done|]. unfold obj_at. destruct (items !! f) as [[| | | | | |d]|] eqn:Ei; try done.
      intros k v. destruct (decide (k = f)) as [->|]; [|rewrite lookup_insert_ne by done; apply H6].
      rewrite lookup_insert_eq. intros [= <-]. exists (JObj d). split; [done|]. exists d. split; [done|]. left. split; [|done].
      apply H5 in Ef. rewrite Ei in Ef. simpl in *. by rewrite Ef. }
    clearbody r1. destruct o as [oi|]; [|done]. unfold obj_at. destruct (items !! oi) as [[| | | | | |d]|] eqn:Ei; try done.
    simpl. intros k v. destruct (decide (k = oi)) as [->|]; [|rewrite lookup_insert_ne by done; apply Hr1].
    rewrite lookup_insert_eq. intros [= <-]. exists (JObj d). split; [done|]. exists d. split; [done|]. right. split; [|done].
    destruct (Ho oi eq_refl) as (x & Hx & ?). by replace (JObj d) with x by congruence. }
  destruct (H4 key Hfirst) as (j & Hj & Hb & Hjd). split; simpl.
  - intros k [->%elem_of_singleton|Hk]%elem_of_union.
    + split; [lia|]. exists key, j. rewrite Hi. split; [done|]. split; [done|]. destruct Hb as [? _]. set_unfold. intros [->|]; [lia|done].
    + destruct (H1 k Hk) as (Hlt & key' & j' & Hk' & Hb' & Hj'). split; [lia|]. exists key', j'. split_and!; try done.
      destruct Hb' as [? _]. set_unfold. intros [->|]; [lia|done].
  - rewrite H2, size_union, size_singleton by set_solver. done.
  - done.
  - intros key' H'. destruct (N4 key' H') as (j' & Hj' & Hb' & Hd'). exists j'. split_and!; try done.
    destruct (H4 key' H') as (j2 & Hj2 & [? _] & _). assert (j2 = j') by congruence. set_unfold. intros [->|]; [lia|done].
  - done.
  - exact Hrw.
Qed.

Lemma record_first_inv items i key id st item :
  items !! i = Some item → key_of item = Some key → last_key st = Some key →
  (∀ key', is_Some (first_call_id st !! key') → transparent key' item) → replay_inv items i st →
  replay_inv items (S i) (st {{ first_call_id := <[key := id]> (first_call_id st);
                                first_call_index := <[key := i]> (first_call_index st) }}).
Proof.
  intros Hi Hkey Hlast Ht Hinv. pose proof (replay_inv_next _ _ _ _ Hi Ht Hinv) as [N1 N2 N3 N4 N5 N6]. split; simpl; try done.
  - intros key' H. destruct (decide (key' = key)) as [->|Hne]; [done|]. rewrite lookup_insert_ne in H by done. by apply N3.
  - intros key' H. destruct (decide (key' = key)) as [->|Hne].
    + exists i. rewrite lookup_insert_eq. split; [done|]. split; [|intros [? _]%(ri_dropped _ _ _ Hinv); lia].
      split_and!; [lia|by rewrite Hi|]. intros m x Hm. lia.
    + rewrite lookup_insert_ne in H by done. rewrite lookup_insert_ne by done. by apply N4.
  - intros key' j. destruct (decide (key' = key)) as [->|Hne].
    + rewrite lookup_insert_eq. intros [= <-]. by rewrite Hi.
    + rewrite lookup_insert_ne by done. apply N5.
Qed.

(** A message of the user ends the segment. *)
Lemma boundary_inv items i st item :
  replay_inv items i st →
  let st1 := match item with JObj d => if replayed_input_segment_boundary d then new_segment st else st | _ => st end in
  replay_inv items i st1 ∧
  ∀ d key, item = JObj d → is_Some (first_call_id st1 !! key) → replayed_input_segment_boundary d = false.
Proof.
  intros Hinv st1. unfold st1. destruct item as [| | | | | |d]; try (by split).
  destruct (replayed_input_segment_boundary d) eqn:E.
  - split; [by apply new_segment_inv|]. intros d' key _. simpl. rewrite lookup_empty. by intros [? ?].
  - split; [done|]. intros d' key [= <-]. done.
Qed.

(** A call with another key than the last forgets the calls before it. *)
Lemma other_call_inv items i st key :
  replay_inv items i st →
  let st2 := match last_key st with
             | Some k => if bool_decide (key = k) then st else st {{ first_call_id := (∅ : gmap call_key (option string)) }}
             | None => st
             end in
  replay_inv items i st2 ∧ ∀ key', is_Some (first_call_id st2 !! key') → key' = key ∧ is_Some (first_call_id st !! key').
Proof.
  intros Hinv st2. unfold st2. pose proof (ri_last _ _ _ Hinv) as Hl. destruct (last_key st) as [k|] eqn:El.
  - case_bool_decide as Hkk.
    + split; [done|]. intros key' H. split; [|done]. specialize (Hl key' H). congruence.
    + split; [|intros key'; simpl; rewrite lookup_empty; by intros [? ?]].
      destruct Hinv as [H1 H2 H3 H4 H5 H6]. split; simpl; try done; intros key'; rewrite lookup_empty; by intros [? ?].
  - split; [done|]. intros key' H. specialize (Hl key' H). congruence.
Qed.

Lemma replay_step_inv items i st item :
  items !! i = Some item → replay_inv items i st →
  replay_inv items (S i) (snd (replay_step items (scan_items items) (i, st) item)).
Proof.
  intros Hi Hinv. destruct (scan_items_spec items) as [Hk Ho]. unfold replay_step. rewrite Hk, Hi. cbn [mbind option_bind].
  destruct (boundary_inv _ _ _ item Hinv) as [Hinv1 Hb1].
  replace (match match item with JObj d => Some d | _ => None end with Some _ => _ | None => _ end)
    with (match item with JObj d => if replayed_input_segment_boundary d then new_segment st else st | _ => st end)
    by by destruct item.
  set (st1 := match item with JObj _ => _ | _ => _ end) in *. clearbody st1. clear Hinv st. cbn [snd].
  destruct (key_of item) as [key|] eqn:Ekey.
  - destruct (other_call_inv _ _ _ key Hinv1) as [Hinv2 Hl2]. set (st2 := match last_key st1 with Some _ => _ | None => _ end) in *.
    clearbody st2. destruct (match call_ids (scan_items items) !! i with Some _ => _ | None => _ end) as [cs o] eqn:Eout.
    assert (∀ oi, o = Some oi → ∃ x, items !! oi = Some x ∧ is_Some (output_id_of x)) as Hoi.
    { intros oi ->. destruct (call_ids (scan_items items) !! i) as [id|]; [|done].
      destruct (output_index_found _ _ _ _ _ _ Eout) as (l & Hl & Hin). destruct (Ho _ _ _ Hl Hin) as (x & Hx & Hid).
      exists x. by rewrite Hid. }
    pose proof (replay_inv_update items i st2 key cs (<[i := o]> (output_of st2)) Hinv2 (λ k H, proj1 (Hl2 k H))) as Hinv3.
    assert (∀ key', is_Some (first_call_id st2 !! key') → transparent key' item) as Ht.
    { intros key' H. destruct (Hl2 key' H) as [-> H1]. destruct item as [| | | | | |d]; try done. split; [by eapply Hb1|]. by left. }
    set (st3 := st2 {{ last_key := _; cursors := _; output_of := _ }}) in *.
    assert (first_call_id st3 = first_call_id st2) as E3 by done. rewrite <- E3 in Ht.
    destruct (first_call_id st3 !! key) eqn:Ef; [by eapply drop_repeated_inv|by eapply record_first_inv].
  - assert ((∀ d, item = JObj d → replayed_tool_call_segment_boundary d = false) → replay_inv items (S i) st1) as Hstay.
    { intros Hd. apply (replay_inv_next items i st1 item Hi); [|done]. intros key' H. destruct item as [| | | | | |d]; try done.
      split; [by eapply Hb1|]. right. split; [done|]. by apply Hd. }
    destruct (match last_key st1 with Some _ => _ | None => _ end) eqn:Eours.
    + apply Hstay. intros d ->. apply output_is_no_call. destruct (replayed_tool_output_call_id d); [done|].
      by destruct (last_key st1).
    + destruct (_ || _) eqn:Eb; [|apply Hstay; intros d ->; by apply orb_false_iff in Eb as [_ Eb]].
      apply (replay_inv_next items i _ item Hi); [|by apply new_segment_inv]. intros key'. simpl. rewrite lookup_empty.
      by intros [? ?].
Qed.

Lemma replay_run_inv items : replay_inv items (length items) (replay_run items (scan_items items)).
Proof.
  assert (∀ pre post, items = pre ++ post →
    fst (fold_left (replay_step items (scan_items items)) pre (0, replay_start)) = length pre ∧
    replay_inv items (length pre) (snd (fold_left (replay_step items (scan_items items)) pre (0, replay_start)))) as H.
  { induction pre as [|x pre IH] using rev_ind; intros post Hitems.
    - split; [done|]. split; simpl; try done.
      + intros key. rewrite lookup_empty. by intros [? ?].
      + intros key. rewrite lookup_empty. by intros [? ?].
    - rewrite fold_left_app, length_app. cbn [fold_left]. rewrite <- app_assoc in Hitems. destruct (IH _ Hitems) as [H1 H2].
      destruct (fold_left _ pre _) as [n st]. simpl in H1, H2. subst n. split; [simpl; lia|].
      replace (length pre + length [x])%nat with (S (length pre)) by (simpl; lia). apply replay_step_inv; [|done].
      rewrite Hitems. by apply list_lookup_middle. }
  by apply (H items []); rewrite app_nil_r.
Qed.

(** The calls without output that are rewritten at the end. *)
Lemma rewrite_missing_spec items l st n :
  (∀ i, i ∈ l → is_Some (items !! i ≫= key_of)) →
  let st' := fst (fold_left (rewrite_missing items) l (st, n)) in
  dropped st' = dropped st ∧ removed_count st' = removed_count st ∧
  ∀ k v, rewritten st' !! k = Some v → rewritten st !! k = Some v ∨ ∃ item, items !! k = Some item ∧ replacement item v.
Proof.
  revert st n. induction l as [|i l IH]; intros st n Hl; simpl; [by auto|].
  unfold rewrite_missing at 2 4 6. unfold obj_at. destruct (items !! i) as [[| | | | | |d]|] eqn:Ei; try (apply IH; set_solver).
  destruct (IH (st {{ rewritten := <[i:=replayed_tool_call_without_output_as_assistant_message d]> (rewritten st) }}) (S n))
    as (H1 & H2 & H3); [set_solver|]. split_and!; [done|done|]. intros k v Hk. destruct (H3 k v Hk) as [H|H]; [|by right].
  simpl in H. destruct (decide (k = i)) as [->|]; [|rewrite lookup_insert_ne in H by done; by left].
  rewrite lookup_insert_eq in H. injection H as <-. right. exists (JObj d). split; [done|]. exists d. split; [done|]. left.
  split; [|done]. destruct (Hl i) as [key Hkey]; [left|]. rewrite Ei in Hkey. simpl in *. by rewrite Hkey.
Qed.

(** What becomes of each item. *)
Definition fates (items : list json) (st : replay_state) : list (option json) :=
  imap (λ i x, if bool_decide (i ∈ dropped st) then None else Some (default x (rewritten st !! i))) items.

Lemma fates_output items st :
  omap (λ p : nat * json, if bool_decide (p.1 ∈ dropped st) then None else Some (default p.2 (rewritten st !! p.1))) (imap pair items)
  = omap id (fates items st).
Proof.
  unfold fates. induction items as [|x items IH] using rev_ind; [done|]. rewrite !imap_app, !omap_app, IH. by f_equal.
Qed.

Lemma fates_length items st : (∀ k, k ∈ dropped st → (k < length items)%nat) →
  (length (omap id (fates items st)) + size (dropped st) = length items)%nat.
Proof.
  intros Hd. assert (size (dropped st) = length (filter (.∈ dropped st) (seq 0 (length items)))) as ->.
  { rewrite <- (size_list_to_set (C := gset nat)) by (apply NoDup_filter, NoDup_seq). f_equal. apply set_eq. intros k.
    rewrite elem_of_list_to_set, list_elem_of_filter, elem_of_seq. split; [|tauto]. intros Hk. specialize (Hd k Hk). split; [done|lia]. }
  unfold fates. clear Hd. induction items as [|x items IH] using rev_ind; [done|].
  rewrite imap_app, omap_app, !length_app, seq_app, filter_app, length_app. cbn [length imap seq].
  rewrite <- plus_n_O. simpl (filter _ [_]). rewrite filter_cons, filter_nil. simpl.
  case_bool_decide; case_decide; simpl; try done; lia.
Qed.

(** Each item stays, is replaced, or is dropped as the repetition of an earlier
    call that stays. *)
Definition fates_ok (items : list json) (fs : list (option json)) : Prop :=
  length fs = length items ∧
  ∀ i item, items !! i = Some item → ∃ fate, fs !! i = Some fate ∧
    match fate with
    | Some v => v = item ∨ replacement item v
    | None => ∃ key j v, key_of item = Some key ∧ directly_before items key j i ∧ fs !! j = Some (Some v)
    end.

Lemma fates_spec items st :
  (∀ k, k ∈ dropped st → (k < length items)%nat ∧ ∃ key j, items !! k ≫= key_of = Some key ∧
     directly_before items key j k ∧ j ∉ dropped st) →
  (∀ k v, rewritten st !! k = Some v → ∃ item, items !! k = Some item ∧ replacement item v) →
  fates_ok items (fates items st).
Proof.
  intros Hd Hr. unfold fates. split; [by rewrite length_imap|]. intros i item Hi.
  rewrite list_lookup_imap, Hi. eexists. split; [reflexivity|]. case_bool_decide as Hin.
  - destruct (Hd i Hin) as (_ & key & j & Hkey & Hb & Hj). rewrite Hi in Hkey. exists key, j.
    destruct Hb as (Hlt & Hkj & Hm). destruct (items !! j) as [x|] eqn:Ej; [|done].
    eexists. split_and!; [done|split_and!; [done|by rewrite Ej|done]|]. rewrite list_lookup_imap, Ej. simpl.
    by rewrite bool_decide_false.
  - destruct (rewritten st !! i) as [v|] eqn:Ev; [|by left]. right. destruct (Hr _ _ Ev) as (x & Hx & Hv). simpl.
    by replace item with x by congruence.
Qed.

Lemma fates_same items : fates_ok items (Some <$> items) ∧ items = omap id (Some <$> items).
Proof.
  split; [split; [by rewrite length_fmap|]|].
  - intros i item Hi. exists (Some item). rewrite list_lookup_fmap, Hi. auto.
  - induction items as [|x l IH]; [done|]. simpl. by f_equal.
Qed.

(** The clean-up of a request's input keeps the order of the items and leaves
    each of them alone, except that a call with side effects is dropped when it
    repeats an earlier call that stays, with the same tool and arguments and
    no message of the user nor another tool call in between, that a tool
    output may become an assistant message and a call may become a notice.
    The number reported counts the dropped calls, and no other changes unless
    missing outputs are asked for. *)
Theorem replay_cleanup_spec items sanitize out n
    (H : dedupe_replayed_side_effect_input_items items sanitize = Ok (out, n)) :
  (∃ fs, fates_ok items fs ∧ out = omap id fs) ∧
  (length items <= length out + n)%nat ∧ (sanitize = false → length items = length out + n)%nat ∧ (n = 0%nat → out = items).
Proof.
  unfold dedupe_replayed_side_effect_input_items in H. destruct (existsb _ items); [done|].
  assert ((items, 0%nat) = (out, n) → (∃ fs, fates_ok items fs ∧ out = omap id fs) ∧
    (length items <= length out + n)%nat ∧ (sanitize = false → length items = length out + n)%nat ∧ (n = 0%nat → out = items)) as Hsame.
  { intros [= <- <-]. destruct (fates_same items) as [? Heq]. split_and!; [by eexists|lia..|done]. }
  case_bool_decide; [apply Hsame; congruence|]. destruct (existsb _ items); [done|].
  pose proof (replay_run_inv items) as [H1 H2 _ _ _ H6]. set (st := replay_run items (scan_items items)) in *.
  set (missing := List.filter _ _) in H.
  assert (∀ i, i ∈ missing → is_Some (items !! i ≫= key_of)) as Hmiss.
  { intros i [_ Hi]%elem_of_filter_bool. unfold missing_output in Hi. rewrite !andb_true_iff in Hi.
    destruct Hi as ((((Hi & _) & _) & _) & _). apply bool_decide_eq_true in Hi.
    by rewrite (proj1 (scan_items_spec items)) in Hi. }
  destruct (if sanitize then _ else _) as [st' m] eqn:Est.
  assert (dropped st' = dropped st ∧ removed_count st' = removed_count st ∧ (sanitize = false → m = 0%nat) ∧
    ∀ k v, rewritten st' !! k = Some v → ∃ item, items !! k = Some item ∧ replacement item v) as (E1 & E2 & E3 & E4).
  { destruct sanitize; [|by injection Est as <- <-]. destruct (rewrite_missing_spec items missing st 0 Hmiss) as (S1 & S2 & S3).
    rewrite Est in *. simpl in *. split_and!; try done. intros k v Hk. destruct (S3 k v Hk); [by apply H6|done]. }
  destruct (_ && _) eqn:Ez; [apply Hsame; congruence|].
  rewrite fates_output in H. injection H as <- <-.
  assert (fates_ok items (fates items st')) as Hf by (apply fates_spec; [by rewrite E1|done]).
  pose proof (fates_length items st') as Hl. rewrite E1 in Hl. specialize (Hl (λ k Hk, proj1 (H1 k Hk))).
  split_and!; [by eexists|lia|intros Hs; specialize (E3 Hs); lia|].
  intros Hz. exfalso. replace (removed_count st') with 0%nat in Ez by lia. by replace m with 0%nat in Ez by lia.
Qed.

(** ** Parallel calls *)

(** The keys of the entries that are compared. *)
Definition use_keys (l : list json) : list string :=
  omap (λ u, option_map (λ use : string * dict json, canonical_parallel_tool_use_key use.2) (compared_use u)) l.
Definition uncompared (l : list json) : list json := List.filter (λ u, negb (bool_decide (is_Some (compared_use u)))) l.

Lemma sublist_full {A} (k l : list A) : sublist k l → length l = length k → k = l.
Proof.
  induction 1 as [|x k l _ IH|x k l Hs IH]; simpl; [done|intros [=]; f_equal; auto|].
  apply sublist_length in Hs. lia.
Qed.

Lemma first_uses_spec l seen : let '(kept, removed) := first_uses l seen in
  sublist kept l ∧ (length l = length kept + removed)%nat ∧ uncompared kept = uncompared l ∧
  NoDup (use_keys kept) ∧ (∀ k, k ∈ use_keys kept ↔ k ∈ use_keys l ∧ k ∉ seen).
Proof.
  revert seen. induction l as [|u l IH]; intros seen; simpl; [split_and!; [done..|constructor|set_solver]|].
  destruct (compared_use u) as [use|] eqn:Eu.
  - destruct (mem _ seen) eqn:Em.
    + specialize (IH seen). destruct (first_uses l seen) as [kept removed]. destruct IH as (H1 & H2 & H3 & H4 & H5).
      unfold uncompared, use_keys in *. simpl. rewrite ?Eu. simpl. split_and!; [by constructor|lia|done|done|].
      apply mem_spec in Em. intros k. rewrite H5. set_solver.
    + specialize (IH (canonical_parallel_tool_use_key use.2 :: seen)). destruct (first_uses l _) as [kept removed].
      destruct IH as (H1 & H2 & H3 & H4 & H5). unfold uncompared, use_keys in *. simpl. rewrite ?Eu. simpl.
      assert (canonical_parallel_tool_use_key use.2 ∉ seen) as Hn by (intros Hin%mem_spec; congruence).
      split_and!; [by constructor|lia|done|constructor; [|done]; rewrite H5; set_solver|].
      intros k. rewrite !elem_of_cons, H5. set_unfold. destruct (decide (k = canonical_parallel_tool_use_key use.2)) as [->|]; tauto.
  - specialize (IH seen). destruct (first_uses l seen) as [kept removed]. destruct IH as (H1 & H2 & H3 & H4 & H5).
    unfold uncompared, use_keys in *. simpl. rewrite ?Eu. simpl. split_and!; [by constructor|lia|by f_equal|done|done].
Qed.

(** Rewriting a parallel call removes repeated entries only: an argument that
    is no object with a list of entries, or has no repetition, comes back
    untouched; otherwise the new text reads back as the old object, up to the
    order of members, with a sublist of the entries in which each compared
    call occurs once, none is lost and entries that are not compared all
    remain. *)
Theorem parallel_rewrite_spec a a' changed removed
    (H : dedupe_parallel_tool_uses_argument a = (a', changed, removed)) :
  (changed = false ∧ a' = a ∧ removed = 0%nat ∧
   ∀ d uses, json_object_from_argument a = Some d → get_list "tool_uses" d = Some uses → NoDup (use_keys uses)) ∨
  (changed = true ∧ (0 < removed)%nat ∧
   ∃ d uses kept d', json_object_from_argument a = Some d ∧ get_list "tool_uses" d = Some uses ∧
     json_object_from_argument a' = Some d' ∧ jeq (JObj d') (JObj (dict_set d "tool_uses" (JList kept))) = true ∧
     sublist kept uses ∧ (length uses = length kept + removed)%nat ∧ uncompared kept = uncompared uses ∧
     NoDup (use_keys kept) ∧ ∀ k, k ∈ use_keys kept ↔ k ∈ use_keys uses).
Proof.
  unfold dedupe_parallel_tool_uses_argument in H. destruct (json_object_from_argument a) as [d|] eqn:Ea; [|injection H as <- <- <-; by left].
  destruct (get_list "tool_uses" d) as [uses|] eqn:Eu.
  2:{ injection H as <- <- <-. left. split_and!; try done. intros d0 u0 [= <-]. congruence. }
  pose proof (first_uses_spec uses []) as Hs. destruct (first_uses uses []) as [kept r].
  destruct Hs as (H1 & H2 & H3 & H4 & H5). destruct (Nat.eqb_spec r 0) as [Hr|Hr]; injection H as <- <- <-.
  - left. split_and!; try done. intros d0 u0 [= <-] Hu. replace u0 with uses by congruence.
    assert (kept = uses) as -> by (apply sublist_full; [done|lia]). done.
  - right. split_and!; [done|lia|]. pose proof (object_value a d Ea) as Hd.
    assert (value (JObj (dict_set d "tool_uses" (JList kept)))) as Hv.
    { apply dict_set_value; [done|]. unfold get_list in Eu.
      destruct (dict_get d "tool_uses") as [[| | | | |l0|]|] eqn:E; try done. injection Eu as ->.
      apply (value_get d) in E; [|done]. unfold value in *. rewrite wf_list, Forall_forall in *.
      intros x Hx. apply E. by eapply elem_of_sublist. }
    pose proof (sort_keys_value _ Hv) as Hs. pose proof (loads_dumps _ Hs) as [Hl _].
    assert (∃ d', sort_keys (JObj (dict_set d "tool_uses" (JList kept))) = JObj d') as [d' Hd'] by by eexists.
    exists d, uses, kept, d'. split_and!; try done.
    + unfold json_object_from_argument, canonical_json_key. by rewrite Hl, Hd'.
    + rewrite <- Hd'. apply sort_keys_jeq; [done|done|]. apply sort_keys_idemp. done.
    + intros k. rewrite H5. set_solver.
Qed.

(** The entries removed from a parallel call of a custom tool are removed in
    its member [arguments], which such a call does not have: the member
    [input], where its arguments are, still holds the text it came with. *)
Theorem custom_parallel_input_kept scoped seen e c p' seen'
    (Hc : call_of e = Some c) (Hp : is_parallel c = true) (Ht : c_type c = "custom_tool_call")
    (Hm : mark scoped seen e = (false, Some p', seen')) :
  ∃ item, get_obj "item" p' = Some item ∧ get_str "input" item = Some (c_arg c).
Proof.
  rewrite (mark_call _ _ _ _ Hc), Hp in Hm.
  assert (get_str "input" (c_item c) = Some (c_arg c)) as Hin.
  { unfold call_of in Hc. destruct (ev_payload e) as [p|]; [|done]. destruct (negb _); [done|].
    destruct (get_obj "item" p) as [item|]; [|done]. destruct (call_argument item) as [[a|]|] eqn:Ea; try done.
    destruct (is_side_effect_tool_call _ _ _); [|done]. injection Hc as <-. simpl in *.
    destruct (get_str "type" item) as [t|] eqn:Et; [|done]. simpl in Ht. subst t. unfold call_argument in Ea. rewrite Et in Ea.
    unfold get_str. destruct (dict_get item "input") as [[]|]; try done. by injection Ea as ->. }
  unfold _mark_duplicate_parallel_tool_call_downstream_event in Hm.
  assert (∀ item', get_obj "item" (dict_set (default [] (ev_payload e)) "item" (JObj item')) = Some item') as Hget.
  { intros item'. unfold get_obj. by rewrite dict_get_set. }
  destruct (json_object_from_argument (c_arg c)) as [d|]; [|injection Hm as <- _; by eauto].
  destruct (get_list "tool_uses" d) as [l|]; [|injection Hm as <- _; by eauto].
  destruct (keep_unseen _ l seen) as [[s' kept] removed]. destruct (Nat.eqb removed 0); [injection Hm as <- _; by eauto|].
  destruct kept as [|u kept]; [done|]. injection Hm as <- _. eexists. split; [apply Hget|].
  unfold get_str. rewrite dict_get_set. exact Hin.
Qed.

(** ** Samples *)

Definition done_event (response : string) (item : dict json) : stream_event :=
  {| ev_payload := Some [("type", JStr "response.output_item.done"); ("item", JObj item)]; ev_response := Some response |}.
Definition exec_args (timeout : Z) : string := dumps (JObj [("cmd", JStr "make"); ("timeout_ms", JInt timeout)]).
Definition exec_call (call_id : string) (timeout : Z) : dict json :=
  [("type", JStr "function_call"); ("name", JStr "exec_command"); ("call_id", JStr call_id);
   ("arguments", JStr (exec_args timeout))].
Definition sample_use (cmd : string) : json :=
  JObj [("recipient_name", JStr "functions.exec_command"); ("parameters", JObj [("cmd", JStr cmd)])].
Definition parallel_args : string :=
  dumps (JObj [("tool_uses", JList [sample_use "make"; sample_use "ls"; sample_use "make"])]).
Definition custom_parallel : dict json :=
  [("type", JStr "custom_tool_call"); ("name", JStr PARALLEL_TOOL_CALL_NAME); ("input", JStr parallel_args)].
Definition the_call (e : stream_event) : call :=
  default {| c_item := []; c_type := ""; c_name := None; c_id := None; c_arg := "" |} (call_of e).



Lemma stream_remembers_call_witness :
  suppressed true (cache true ([] ++ [done_event "r1" (exec_call "a" 10)])) (done_event "r1" (exec_call "a" 10)) = true.
Proof.
  apply (stream_remembers_call true [] (done_event "r1" (exec_call "a" 10)) (the_call (done_event "r1" (exec_call "a" 10))));
    vm_compute; reflexivity.
Defined.

Definition sample_input : list json :=
  [JObj [("role", JStr "user"); ("content", JStr "build")];
   JObj (exec_call "a" 10); JObj [("type", JStr "function_call_output"); ("call_id", JStr "a"); ("output", JStr "ok")];
   JObj (exec_call "b" 20); JObj [("type", JStr "function_call_output"); ("call_id", JStr "b"); ("output", JStr "again")]].
Definition cleaned (items : list json) (sanitize : bool) : list json * nat :=
  match dedupe_replayed_side_effect_input_items items sanitize with Ok r => r | Err _ => ([], 0%nat) end.

Lemma replay_cleanup_spec_witness :
  (cleaned sample_input false).2 = 1%nat ∧ (length sample_input = length (cleaned sample_input false).1 + 1)%nat.
Proof.
  split; [vm_compute; reflexivity|].
  destruct (replay_cleanup_spec sample_input false (cleaned sample_input false).1 (cleaned sample_input false).2)
    as (_ & _ & H & _); [vm_compute; reflexivity|]. exact (H eq_refl).
Defined.

Lemma parallel_rewrite_spec_witness :
  let r := dedupe_parallel_tool_uses_argument parallel_args in r.1.2 = true ∧ (0 < r.2)%nat.
Proof.
  destruct (parallel_rewrite_spec parallel_args (dedupe_parallel_tool_uses_argument parallel_args).1.1
              (dedupe_parallel_tool_uses_argument parallel_args).1.2 (dedupe_parallel_tool_uses_argument parallel_args).2)
    as [(H & _)|(H & Hr & _)]; [vm_compute; reflexivity| |by split]. exfalso. vm_compute in H. discriminate H.
Defined.

(** Three entries, one repeated, and all three are still in [input]. *)
Lemma custom_parallel_input_kept_witness :
  let e := done_event "r1" custom_parallel in
  (∃ p' item, (mark true [] e).1.2 = Some p' ∧ get_obj "item" p' = Some item ∧ get_str "input" item = Some parallel_args ∧
     get_str "arguments" item = Some (dedupe_parallel_tool_uses_argument parallel_args).1.1).
Proof.
  set (e := done_event "r1" custom_parallel).
  destruct (custom_parallel_input_kept true [] e (the_call e) (default [] (mark true [] e).1.2) (mark true [] e).2)
    as (item & H1 & H2); [vm_compute; reflexivity..|].
  exists (default [] (mark true [] e).1.2), item. split_and!; [vm_compute; reflexivity|exact H1|exact H2|].
  assert (Some item = get_obj "item" (default [] (mark true [] e).1.2)) as E by exact (eq_sym H1). vm_compute in E.
  injection E as ->. vm_compute. reflexivity.
Defined.

End ToolDedupeFacts.
