(* ===== verification/Requests.v ===== *)
(** Client requests on their way upstream:
    [src/app/core/openai/strict_schema.py] (strict JSON schemas),
    [src/app/core/openai/message_coercion.py] (chat messages to input items) and
    [src/app/core/openai/requests.py] (field validators and the canonical form of
    a Responses payload).

    The classes of [requests.py] are pydantic models; what is modelled here is
    the code of their validators and of [to_payload] after the dump. *)

From S2P Require Import Prelude Json.
Import Json.Json.

(** ** Python operations on JSON values *)

Module JsonOps.

Definition has (k : string) (d : dict json) : bool := bool_decide (is_Some (dict_get d k)).

(** [bool(value)]. *)
Definition truthy (v : json) : bool :=
  match v with
  | JNull | JBool false | JStr "" | JList [] | JObj [] => false
  | JInt n => negb (n =? 0)%Z
  | JFloat (FDec _ c _) => negb (c =? 0)%N
  | _ => true
  end.

(** [str(value)] of a scalar. *)
Definition str_scalar (v : json) : string :=
  match v with
  | JNull => "None"
  | JBool b => if b then "True" else "False"
  | JInt n => show_Z n
  | JFloat (FInf neg) => (minus neg ++ "inf")%string
  | JFloat FNaN => "nan"
  | JFloat f => show_float f
  | JStr s => s
  | _ => ""
  end.

(** [isinstance(value, str) and value]. *)
Definition filled_str (k : string) (d : dict json) : option string :=
  match get_str k d with Some "" => None | o => o end.

Definition is_str (s : string) (v : json) : bool := match v with JStr t => String.eqb t s | _ => false end.
(** [value in (...)] for a tuple or set of strings. *)
Definition str_in (v : json) (l : list string) : bool := match v with JStr t => mem t l | _ => false end.

Definition obj (fields : list (string * json)) : json := JObj fields.

End JsonOps.

(** ** Strict schemas *)

Module StrictSchema.
Import JsonOps.

Record StrictSchemaError := { code : string; message : string; param : string }.

(** A path in the schema, and the reason of a violation there. *)
Definition violation := (list string * string)%type.

Definition _has_combinator (node : dict json) : bool :=
  existsb (λ name, bool_decide (is_Some (get_list name node))) ["anyOf"; "oneOf"; "allOf"].
Definition _is_ref (node : dict json) : bool := bool_decide (is_Some (get_str "$ref" node)).

Definition quoted (names : list string) : string := String.concat ", " (map (λ n, "'" ++ n ++ "'")%string names).

Definition required_set (node : dict json) : list string :=
  match get_list "required" node with
  | Some l => omap (λ v, match v with JStr s => Some s | _ => None end) l
  | None => []
  end.

(** The checks of one node, lines 127-157. *)
Definition object_node (node : dict json) : bool := is_str "object" (get_or_null "type" node) || has "properties" node.

Definition node_violation (node : dict json) : option string :=
  if negb (has "type" node) && negb (_has_combinator node) && negb (_is_ref node) then Some "schema must have a 'type' key"
  else if object_node node then
    match get_or_null "additionalProperties" node with
    | JBool false =>
        match get_obj "properties" node with
        | Some properties =>
            match List.filter (λ n, negb (mem n (required_set node))) (map fst properties) with
            | [] => None
            | missing => Some ("'required' is required to be supplied and to be an array including every key in properties. Missing "
                               ++ quoted missing)%string
            end
        | None => None
        end
    | _ => Some "'additionalProperties' is required to be supplied and to be false"
    end
  else None.

(** The schemas below one node in the order they are visited, each with its
    step of the path: properties, items, combinators, definitions. *)
Definition property_children (node : dict json) : list (list string * json) :=
  if object_node node
  then map (λ p, (["properties"; p.1], p.2)) (default [] (get_obj "properties" node))
  else [].
Definition item_children (node : dict json) : list (list string * json) :=
  if is_str "array" (get_or_null "type" node) || has "items" node
  then match get_or_null "items" node with JNull => [] | items => [(["items"], items)] end
  else [].
Definition combinator_children (node : dict json) : list (list string * json) :=
  flat_map (λ name, imap (λ i c, ([name; show_N (N.of_nat i)], c)) (default [] (get_list name node))) ["anyOf"; "oneOf"; "allOf"].
Definition definitions (node : dict json) : json :=
  let defs := get_or_null "$defs" node in if truthy defs then defs else get_or_null "definitions" node.
Definition definition_children (node : dict json) : list (list string * json) :=
  match definitions node with JObj defs => map (λ p, (["$defs"; p.1], p.2)) defs | _ => [] end.

Definition children (node : dict json) : list (list string * json) :=
  property_children node ++ item_children node ++ combinator_children node ++ definition_children node.

(** The first violation among the children, by the search below them. *)
Fixpoint first_violation (find : json → list string → option violation) (path : list string)
    (cs : list (list string * json)) : option violation :=
  match cs with
  | [] => None
  | (step, c) :: cs =>
      match find c (path ++ step) with Some v => Some v | None => first_violation find path cs end
  end.

(** The search, with fuel for its depth. *)
Fixpoint find_from (fuel : nat) (node : json) (path : list string) : option violation :=
  match fuel, node with
  | S fuel, JObj d =>
      match node_violation d with
      | Some reason => Some (path, reason)
      | None => first_violation (find_from fuel) path (children d)
      end
  | _, _ => None
  end.

(** The nesting depth of a value bounds the depth of the search. *)
Fixpoint depth (v : json) : nat :=
  match v with
  | JList l => S (list_max (map depth l))
  | JObj d => S (list_max (map (λ p, depth p.2) d))
  | _ => 1
  end.

Definition _find_violation (node : json) (path : list string) : option violation := find_from (depth node) node path.

Definition _render_context (path : list string) : string :=
  match path with [] => "()" | _ => ("(" ++ quoted path ++ ")")%string end.

Definition label (name : option string) (fallback : string) : string :=
  match name with Some n => if String.eqb n "" then fallback else n | None => fallback end.

Definition validate_strict_json_schema (schema : json) (name : option string) (param : string) : option StrictSchemaError :=
  match _find_violation schema [] with
  | None => None
  | Some (context_path, reason) =>
      Some {| code := "invalid_json_schema";
              message := "Invalid schema for response_format '" ++ label name "response_format" ++ "': In context="
                         ++ _render_context context_path ++ ", " ++ reason ++ ".";
              param := param |}
  end%string.

Definition validate_strict_function_tool_schema (schema : json) (name : option string) (param : string)
    : option StrictSchemaError :=
  match _find_violation schema [] with
  | None => None
  | Some (context_path, reason) =>
      Some {| code := "invalid_function_parameters";
              message := "Invalid schema for function '" ++ label name "function" ++ "': In context="
                         ++ _render_context context_path ++ ", " ++ reason ++ ".";
              param := param |}
  end%string.

End StrictSchema.

(** ** Chat messages *)

Module MessageCoercion.
Import JsonOps.

(** [ClientPayloadError], with its message; [param] is always ["messages"]. *)
Record ClientPayloadError := { cp_message : string; cp_param : string }.
Definition bad {A} (text : string) : res ClientPayloadError A := Err {| cp_message := text; cp_param := "messages" |}.

Definition SUPPORTED_MESSAGE_ROLES : list string := ["system"; "developer"; "user"; "assistant"; "tool"].

Definition _json_dict_or_none (value : json) : option (dict json) := match value with JObj d => Some d | _ => None end.
Definition _content_parts (content : json) : list json := match content with JList l => l | v => [v] end.

Definition _merge_instructions (existing : string) (extra_parts : list string) : string :=
  let extra := String.concat (String "010" "") (List.filter (λ p, negb (String.eqb p "")) extra_parts) in
  match extra_parts with
  | [] => existing
  | _ => if String.eqb extra "" then existing
         else if String.eqb existing "" then extra else (existing ++ String "010" extra)%string
  end.

(** The text of a content part: a string, or the member [text] of an object. *)
Definition part_text (part : json) : option string :=
  match part with JStr s => Some s | JObj d => get_str "text" d | _ => None end.

Definition _content_to_text (content : json) : option string :=
  match content with
  | JStr s => Some s
  | JList l => Some (String.concat (String "010" "") (List.filter (λ p, negb (String.eqb p "")) (omap part_text l)))
  | JObj d => get_str "text" d
  | _ => None
  end.

Definition text_part (d : dict json) : bool :=
  match get_or_null "type" d with
  | JNull => bool_decide (is_Some (get_str "text" d))
  | t => is_str "text" t && bool_decide (is_Some (get_str "text" d))
  end.

Definition _ensure_text_only_content (content : json) (role : string) : res ClientPayloadError unit :=
  let refuse := bad (role ++ " messages must be text-only.")%string in
  match content with
  | JNull | JStr _ => Ok tt
  | JList l =>
      if forallb (λ part, match part with JStr _ => true | JObj d => text_part d | _ => false end) l then Ok tt else refuse
  | JObj d => if text_part d then Ok tt else refuse
  | _ => refuse
  end.

Definition _get_assistant_refusal (msg : dict json) : option string := filled_str "refusal" msg.

Definition _to_content_list (normalized : json) : list json :=
  match normalized with JList l => l | JNull | JStr "" => [] | v => [v] end.

Definition _text_type_for_role (role : string) : string :=
  if String.eqb role "assistant" then "output_text" else "input_text".

Definition TextContentPart (ty text : string) : json := JObj [("type", JStr ty); ("text", JStr text)].
Definition RefusalContentPart (refusal : string) : json := JObj [("type", JStr "refusal"); ("refusal", JStr refusal)].

Definition _audio_mime_type (audio_format : string) : string :=
  if String.eqb audio_format "wav" then "audio/wav"
  else if String.eqb audio_format "mp3" then "audio/mpeg"
  else ("audio/" ++ audio_format)%string.

Definition _audio_input_to_data_url (input_audio : json) : option string :=
  match input_audio with
  | JObj d =>
      match get_str "data" d, get_str "format" d with
      | Some data, Some audio_format => Some ("data:" ++ _audio_mime_type audio_format ++ ";base64," ++ data)%string
      | _, _ => None
      end
  | _ => None
  end.

(** [InputFileItem(type="input_file", ...)]. *)
Definition InputFileItem (fields : list (string * json)) : json := JObj (("type", JStr "input_file") :: fields).

Definition _file_part_to_input_file (file_info : json) : json :=
  match file_info with
  | JObj d =>
      match filled_str "file_id" d with
      | Some file_id => InputFileItem [("file_id", JStr file_id)]
      | None =>
          match filled_str "file_url" d with
          | Some file_url => InputFileItem [("file_url", JStr file_url)]
          | None =>
              match match get_str "file_data" d with Some s => Some s | None => get_str "data" d end with
              | Some file_data =>
                  let mime_type := default "application/octet-stream"
                    (match filled_str "mime_type" d with Some m => Some m | None => filled_str "content_type" d end) in
                  InputFileItem [("file_url", JStr ("data:" ++ mime_type ++ ";base64," ++ file_data)%string)]
              | None => InputFileItem []
              end
          end
      end
  | _ => InputFileItem []
  end.

(** The url and detail of an [image_url] part. *)
Definition image_url_of (image_url : json) : option string * option string :=
  match image_url with
  | JObj d => (get_str "url" d, get_str "detail" d)
  | JStr s => (Some s, None)
  | _ => (None, None)
  end.

Definition _normalize_content_part (part : dict json) (role : string) : json :=
  let ty := get_or_null "type" part in
  let part_type := if truthy ty then ty else if has "text" part then JStr "text" else JNull in
  if str_in part_type ["text"; "input_text"; "output_text"] then
    match get_str "text" part with
    | Some text => TextContentPart (_text_type_for_role role) text
    | None => JObj part
    end
  else if String.eqb role "assistant" then JObj part
  else if is_str "image_url" part_type then
    match image_url_of (get_or_null "image_url" part) with
    | (Some url, detail) =>
        JObj ([("type", JStr "input_image"); ("image_url", JStr url)]
              ++ match detail with Some s => [("detail", JStr s)] | None => [] end)
    | (None, _) => JObj part
    end
  else if is_str "input_image" part_type then JObj part
  else if is_str "input_audio" part_type then
    match _audio_input_to_data_url (get_or_null "input_audio" part) with
    | Some data_url => InputFileItem [("file_url", JStr data_url)]
    | None => JObj part
    end
  else if is_str "file" part_type then _file_part_to_input_file (get_or_null "file" part)
  else JObj part.

Definition normalize_part (role : string) (part : json) : json :=
  match part with
  | JStr s => TextContentPart (_text_type_for_role role) s
  | JObj d => _normalize_content_part d role
  | v => v
  end.

Definition _normalize_content_parts (content : json) (role : string) : json :=
  match content with
  | JNull => JNull
  | JStr s => JList [TextContentPart (_text_type_for_role role) s]
  | JList l => JList (map (normalize_part role) l)
  | v => normalize_part role v
  end.

(** One entry of [tool_calls]. *)
Definition FunctionCallInputItem (call_id name arguments : string) : json :=
  JObj [("type", JStr "function_call"); ("call_id", JStr call_id); ("name", JStr name); ("arguments", JStr arguments)].

Definition convert_tool_call (tc : json) : res ClientPayloadError json :=
  match tc with
  | JObj tc_dict =>
      match filled_str "id" tc_dict, get_obj "function" tc_dict with
      | None, _ => bad "tool_calls[].id is required."
      | Some _, None => bad "tool_calls[].function is required."
      | Some call_id, Some function =>
          match filled_str "name" function, get_str "arguments" function with
          | None, _ => bad "tool_calls[].function.name is required."
          | Some _, None => bad "tool_calls[].function.arguments must be a string."
          | Some name, Some arguments => Ok (FunctionCallInputItem call_id name arguments)
          end
      end
  | _ => bad "tool_calls entries must be objects."
  end.

Fixpoint map_res {E A B} (f : A → res E B) (l : list A) : res E (list B) :=
  match l with
  | [] => Ok []
  | x :: l => let? y := f x in let? ys := map_res f l in Ok (y :: ys)
  end.

Definition _decompose_assistant_tool_calls (msg : dict json) : res ClientPayloadError (list json) :=
  let content := get_or_null "content" msg in
  let refusal := _get_assistant_refusal msg in
  let parts := (if is_null content then [] else _to_content_list (_normalize_content_parts content "assistant"))
               ++ match refusal with Some r => [RefusalContentPart r] | None => [] end in
  let items := if is_null content && bool_decide (refusal = None) then []
               else [JObj [("role", JStr "assistant"); ("content", JList parts)]] in
  match get_list "tool_calls" msg with
  | Some tool_calls => let? calls := map_res convert_tool_call tool_calls in Ok (items ++ calls)
  | None => Ok items
  end.

Definition _concat_text_parts (content : list json) : string := String.concat "" (omap part_text content).

(** The id a tool message answers: the first of three spellings. *)
Definition resolved_call_id (msg : dict json) : option string :=
  match filled_str "tool_call_id" msg with
  | Some s => Some s
  | None => match filled_str "toolCallId" msg with Some s => Some s | None => filled_str "call_id" msg end
  end.

Definition FunctionCallOutputInputItem (call_id output : string) : json :=
  JObj [("type", JStr "function_call_output"); ("call_id", JStr call_id); ("output", JStr output)].

Definition _convert_tool_message (msg : dict json) : res ClientPayloadError json :=
  match resolved_call_id msg with
  | None => bad "tool messages must include 'tool_call_id'."
  | Some call_id =>
      match get_or_null "content" msg with
      | JStr s => Ok (FunctionCallOutputInputItem call_id s)
      | JList content =>
          let output := _concat_text_parts content in
          if String.eqb output "" && negb (bool_decide (content = []))
          then bad "tool message content array contains no valid text parts."
          else Ok (FunctionCallOutputInputItem call_id output)
      | JNull => bad "tool message content is required."
      | _ => bad "tool message content must be a string or array."
      end
  end.

Definition _normalize_message_content (msg : dict json) : json :=
  let content := get_or_null "content" msg in
  let role := get_or_null "role" msg in
  let role_str := default "user" (get_str "role" msg) in
  let refusal := if String.eqb role_str "assistant" then _get_assistant_refusal msg else None in
  match content, refusal with
  | JNull, None =>
      if has "content" msg then JObj [("role", role); ("content", JNull)] else JObj [("role", role)]
  | _, _ =>
      let normalized := if is_null content then JList [] else _normalize_content_parts content role_str in
      let normalized := match refusal with
                        | Some r => JList (_to_content_list normalized ++ [RefusalContentPart r])
                        | None => normalized
                        end in
      JObj [("role", role); ("content", normalized)]
  end.

(** One message: the instruction text it adds and its input items. *)
Definition coerce_message (msg : json) : res ClientPayloadError (list string * list json) :=
  match msg with
  | JObj d =>
      match get_str "role" d with
      | None => bad "Each message must include a string 'role'."
      | Some role =>
          if negb (mem role SUPPORTED_MESSAGE_ROLES) then bad ("Unsupported message role: " ++ role)%string
          else if mem role ["system"; "developer"] then
            let? _ := _ensure_text_only_content (get_or_null "content" d) role in
            Ok (match _content_to_text (get_or_null "content" d) with
                | Some "" | None => []
                | Some text => [text]
                end, [])
          else if String.eqb role "tool" then let? item := _convert_tool_message d in Ok ([], [item])
          else if String.eqb role "assistant" && bool_decide (default [] (get_list "tool_calls" d) ≠ []) then
            let? items := _decompose_assistant_tool_calls d in Ok ([], items)
          else Ok ([], [_normalize_message_content d])
      end
  | _ => bad "Each message must be an object."
  end.

(** The loop over the messages. *)
Definition coerce_messages (existing_instructions : string) (messages : list json)
    : res ClientPayloadError (string * list json) :=
  let? results := map_res coerce_message messages in
  Ok (_merge_instructions existing_instructions (flat_map fst results), flat_map snd results).

End MessageCoercion.

(** ** Responses requests *)

Module ResponsesRequests.
Import JsonOps.

(** [ValueError] of a validator, with its message. *)
Definition invalid {A} (text : string) : res string A := Err text.

Definition RESPONSES_INCLUDE_ALLOWLIST : list string :=
  ["code_interpreter_call.outputs"; "computer_call_output.output.image_url"; "file_search_call.results";
   "message.input_image.image_url"; "message.output_text.logprobs"; "reasoning.encrypted_content";
   "web_search_call.action.sources"].
Definition UNSUPPORTED_TOOL_TYPES : list string :=
  ["file_search"; "code_interpreter"; "computer_use"; "computer_use_preview"; "image_generation"].
Definition TOOL_TYPE_ALIASES : dict string := [("web_search_preview", "web_search")].
Definition INTERLEAVED_REASONING_KEYS : list string := ["reasoning_content"; "reasoning_details"; "tool_calls"; "function_call"].
Definition INTERLEAVED_REASONING_PART_TYPES : list string := ["reasoning"; "reasoning_content"; "reasoning_details"].
Definition ASSISTANT_TEXT_PART_TYPES : list string := ["text"; "input_text"; "output_text"].
Definition TOOL_TEXT_PART_TYPES : list string := ["text"; "input_text"; "output_text"; "refusal"].

(** *** Tools *)

Definition normalize_tool_type (tool_type : string) : string := default tool_type (dict_get TOOL_TYPE_ALIASES tool_type).

(** A dict with its [type] normalised. *)
Definition with_normal_type (d : dict json) : dict json :=
  match get_str "type" d with
  | Some tool_type => if String.eqb (normalize_tool_type tool_type) tool_type then d
                      else dict_set d "type" (JStr (normalize_tool_type tool_type))
  | None => d
  end.

Definition normalize_tool_choice (choice : json) : json :=
  match choice with JObj d => JObj (with_normal_type d) | c => c end.

Fixpoint validate_tool_types (tools : list json) (allow_builtin_tools : bool) : res string (list json) :=
  match tools with
  | [] => Ok []
  | tool :: rest =>
      let? normalized :=
        match tool with
        | JObj d =>
            match get_str "type" (with_normal_type d) with
            | Some t => if negb allow_builtin_tools && mem t UNSUPPORTED_TOOL_TYPES
                        then invalid ("Unsupported tool type: " ++ t)%string
                        else Ok (JObj (with_normal_type d))
            | None => Ok tool
            end
        | t => Ok t
        end in
      let? others := validate_tool_types rest allow_builtin_tools in
      Ok (normalized :: others)
  end.

(** *** File references *)

Definition _is_input_file_with_id (item : dict json) : bool :=
  is_str "input_file" (get_or_null "type" item) && bool_decide (is_Some (filled_str "file_id" item)).

(** The parts of an item's content. *)
Definition content_parts (item : dict json) : list json :=
  match get_or_null "content" item with JList l => l | JObj d => [JObj d] | _ => [] end.

Definition _has_input_file_id (input_items : list json) : bool :=
  existsb (λ item, match item with
                   | JObj d => _is_input_file_with_id d ||
                               existsb (λ part, match part with JObj p => _is_input_file_with_id p | _ => false end) (content_parts d)
                   | _ => false
                   end) input_items.

Record InputImageFileReference := { item_index : nat; content_index : option nat; file_id : string }.

Definition _input_image_file_reference (item : dict json) : option string :=
  if negb (is_str "input_image" (get_or_null "type" item)) then None
  else match filled_str "file_id" item with
  | Some id => Some id
  | None =>
      match get_str "image_url" item with
      | Some url => match strip_prefix "sediment://" url with
                    | Some r => none_if_empty (py_strip r)
                    | None => None
                    end
      | None => None
      end
  end.

(** The ids one dict names: of an [input_file] and of an [input_image]. *)
Definition ids_of (d : dict json) : list string :=
  (if _is_input_file_with_id d then match filled_str "file_id" d with Some id => [id] | None => [] end else [])
  ++ match _input_image_file_reference d with Some id => [id] | None => [] end.

Definition extract_input_file_ids (input_value : json) : gset string :=
  match input_value with
  | JList l =>
      list_to_set (flat_map (λ item, match item with
                                     | JObj d => ids_of d ++ flat_map (λ part, match part with JObj p => ids_of p | _ => [] end) (content_parts d)
                                     | _ => []
                                     end) l)
  | _ => ∅
  end.

Definition extract_input_image_file_references (input_value : json) : list InputImageFileReference :=
  let at_index i c d := match _input_image_file_reference d with
                        | Some id => [{| item_index := i; content_index := c; file_id := id |}]
                        | None => []
                        end in
  match input_value with
  | JList l =>
      concat (imap (λ i item, match item with
                              | JObj d =>
                                  at_index i None d ++
                                  concat (imap (λ c part, match part with JObj p => at_index i (Some c) p | _ => [] end) (content_parts d))
                              | _ => []
                              end) l)
  | _ => []
  end.

(** *** Input items *)

Definition _extract_text_content_part (part : json) (allowed_types : list string) : option string :=
  match part with
  | JObj d =>
      let part_type := get_or_null "type" d in
      match get_str "text" d with
      | Some text => if str_in part_type allowed_types || is_null part_type then Some text
                     else if is_str "refusal" part_type then get_str "refusal" d else None
      | None => if is_str "refusal" part_type then get_str "refusal" d else None
      end
  | _ => None
  end.

Definition _sanitize_interleaved_reasoning_content_part (part : json) : option json :=
  match part with
  | JObj d =>
      if str_in (get_or_null "type" d) INTERLEAVED_REASONING_PART_TYPES then None
      else Some (JObj (fold_left dict_del INTERLEAVED_REASONING_KEYS d))
  | v => Some v
  end.

(** [None] also stands for the [None] of a content that is [null]. *)
Definition _sanitize_interleaved_reasoning_content (content : json) : option json :=
  match content with
  | JNull => None
  | JList l => Some (JList (omap (λ part, match _sanitize_interleaved_reasoning_content_part part with
                                          | Some JNull | None => None
                                          | Some v => Some v
                                          end) l))
  | JObj d => _sanitize_interleaved_reasoning_content_part (JObj d)
  | v => Some v
  end.

Definition sanitize_member (p : string * json) : option (string * json) :=
  if mem p.1 INTERLEAVED_REASONING_KEYS then None
  else if String.eqb p.1 "content" then
    match _sanitize_interleaved_reasoning_content p.2 with Some v => Some (p.1, v) | None => None end
  else Some p.

Definition _sanitize_interleaved_reasoning_input_item (item : json) : json :=
  match item with JObj d => JObj (omap sanitize_member d) | v => v end.

Definition _normalize_tool_output_value (content : json) : string :=
  match content with
  | JNull => ""
  | JStr s => s
  | JList l =>
      match omap (λ part, match part with JStr s => Some s | p => _extract_text_content_part p TOOL_TEXT_PART_TYPES end) l with
      | [] => dumps content
      | parts => String.concat "" parts
      end
  | JObj d => match _extract_text_content_part content TOOL_TEXT_PART_TYPES with Some s => s | None => dumps content end
  | v => str_scalar v
  end.

Definition _normalize_tool_input_item (value : dict json) : res string json :=
  match MessageCoercion.resolved_call_id value with
  | None => invalid "tool input items must include 'tool_call_id'"
  | Some call_id =>
      let output := get_or_null "output" value in
      let output_value := if is_null output then get_or_null "content" value else output in
      Ok (JObj [("type", JStr "function_call_output"); ("call_id", JStr call_id);
                ("output", JStr (_normalize_tool_output_value output_value))])
  end.

Definition _normalize_assistant_content_part (part : json) : json :=
  match part with
  | JStr s => JObj [("type", JStr "output_text"); ("text", JStr s)]
  | JObj d => match _extract_text_content_part part ASSISTANT_TEXT_PART_TYPES with
              | Some text => JObj [("type", JStr "output_text"); ("text", JStr text)]
              | None => part
              end
  | v => v
  end.

Definition _normalize_assistant_content (content : json) : json :=
  match content with
  | JStr s => JList [JObj [("type", JStr "output_text"); ("text", JStr s)]]
  | JList l => JList (map _normalize_assistant_content_part l)
  | JObj d => JList [_normalize_assistant_content_part content]
  | v => v
  end.

(** The item is left as it is when the contents are equal. *)
Definition _normalize_assistant_input_item (value : dict json) : json :=
  let content := get_or_null "content" value in
  let normalized := _normalize_assistant_content content in
  if JsonFacts.jeq normalized content then JObj value else JObj (dict_set value "content" normalized).

Definition _normalize_role_input_item (value : json) : res string json :=
  match value with
  | JObj d =>
      let role := get_or_null "role" d in
      if is_str "assistant" role then Ok (_normalize_assistant_input_item d)
      else if is_str "tool" role then _normalize_tool_input_item d
      else Ok value
  | v => Ok v
  end.

Fixpoint _sanitize_input_items (input_items : list json) : res string (list json) :=
  match input_items with
  | [] => Ok []
  | item :: rest =>
      match _sanitize_interleaved_reasoning_input_item item with
      | JNull => _sanitize_input_items rest
      | sanitized =>
          let? first := _normalize_role_input_item sanitized in
          let? others := _sanitize_input_items rest in
          Ok (first :: others)
      end
  end.

Definition _normalize_input_text (text : string) : list json :=
  [JObj [("role", JStr "user"); ("content", JList [JObj [("type", JStr "input_text"); ("text", JStr text)]])]].

(** *** Field validators *)

Definition _validate_input_type (value : json) : res string (list json) :=
  match value with
  | JStr s => _sanitize_input_items (_normalize_input_text s)
  | JList l => _sanitize_input_items l
  | _ => invalid "input must be a string or array"
  end.

Fixpoint _validate_include (value : list string) : res string (list string) :=
  match value with
  | [] => Ok []
  | entry :: rest =>
      if mem entry RESPONSES_INCLUDE_ALLOWLIST then let? others := _validate_include rest in Ok (entry :: others)
      else invalid ("Unsupported include value: " ++ entry)%string
  end.

Definition _validate_truncation (value : option string) : res string (option string) :=
  match value with None => Ok None | Some _ => invalid "truncation is not supported" end.

Definition _ensure_store_false (value : bool) : bool := false.

Definition _normalize_previous_response_id (value : option string) : option string :=
  match value with None => None | Some s => none_if_empty (py_strip s) end.

Definition _normalize_service_tier_alias_value (value : json) : json :=
  match value with
  | JStr s => if String.eqb (py_lower (py_strip s)) "fast" then JStr "priority" else value
  | v => v
  end.

Definition _normalize_service_tier_field (value : option string) : option string :=
  match value with
  | None => None
  | Some s => match _normalize_service_tier_alias_value (JStr s) with JStr t => Some t | _ => Some s end
  end.

Definition _validate_conversation (conversation previous_response_id : option string) : res string unit :=
  if truthy_s conversation && truthy_s previous_response_id
  then invalid "Provide either 'conversation' or 'previous_response_id', not both." else Ok tt.

(** *** The payload sent upstream *)

Definition UNSUPPORTED_UPSTREAM_FIELDS : list string :=
  ["max_output_tokens"; "prompt_cache_retention"; "safety_identifier"; "temperature"; "top_p"].

(** [if isinstance(value, str) and key not in d: d[key] = value]. *)
Definition set_missing (d : dict json) (k : string) (v : json) : dict json :=
  match v with JStr _ => if has k d then d else dict_set d k v | _ => d end.

Definition effort (s : string) : dict json := [("effort", JStr s)].
Definition enabled_effort (b : bool) : option (dict json) := if b then Some (effort "medium") else None.

(** The part of [_normalize_thinking_alias] for a dict: [Some r] when it
    returns [r], [None] when it goes on to [enable_thinking]. *)
Definition thinking_mapping_alias (d : dict json) : option (option (dict json)) :=
  let e := match get_str "effort" d with
           | Some s => if String.eqb (py_strip s) "" then [] else [("effort", JStr (py_lower (py_strip s)))]
           | None => []
           end in
  let s := match get_str "summary" d with
           | Some s => if String.eqb (py_strip s) "" then [] else [("summary", JStr (py_strip s))]
           | None => []
           end in
  match e ++ s with
  | [] =>
      let ty := match get_str "type" d with Some t => py_lower (py_strip t) | None => "" end in
      if String.eqb ty "enabled" then Some (Some (effort "medium"))
      else if String.eqb ty "disabled" then Some None
      else match get_or_null "enabled" d with JBool b => Some (enabled_effort b) | _ => None end
  | normalized => Some (Some normalized)
  end.

Definition _normalize_thinking_alias (thinking enable_thinking : json) : option (dict json) :=
  let go_on := match enable_thinking with JBool b => enabled_effort b | _ => None end in
  match thinking with
  | JBool b => enabled_effort b
  | JStr s =>
      let normalized := py_lower (py_strip s) in
      if mem normalized ["low"; "medium"; "high"; "xhigh"] then Some (effort normalized)
      else if mem normalized ["enabled"; "true"; "on"] then Some (effort "medium")
      else if mem normalized ["disabled"; "false"; "off"] then None
      else go_on
  | JObj d => match thinking_mapping_alias d with Some r => r | None => go_on end
  | _ => go_on
  end.

(** Members of the provider's reasoning that are not set yet. *)
Definition take_missing (d provider : dict json) (k : string) : dict json :=
  match dict_get provider k with Some v => if has k d then d else dict_set d k v | None => d end.

Definition normalize_reasoning_aliases (payload : dict json) : dict json :=
  let rest := fold_left dict_del ["reasoningEffort"; "reasoningSummary"; "thinking"; "enable_thinking"] payload in
  let reasoning_map := default [] (get_obj "reasoning" rest) in
  let reasoning_map := set_missing reasoning_map "effort" (get_or_null "reasoningEffort" payload) in
  let reasoning_map := set_missing reasoning_map "summary" (get_or_null "reasoningSummary" payload) in
  let reasoning_map :=
    match _normalize_thinking_alias (get_or_null "thinking" payload) (get_or_null "enable_thinking" payload) with
    | Some provider => take_missing (take_missing reasoning_map provider "effort") provider "summary"
    | None => reasoning_map
    end in
  match reasoning_map with [] => rest | _ => dict_set rest "reasoning" (JObj reasoning_map) end.

Definition _normalize_openai_compatible_aliases (payload : dict json) : dict json :=
  let rest := fold_left dict_del ["textVerbosity"; "verbosity"; "promptCacheKey"; "promptCacheRetention"] payload in
  let rest := set_missing rest "prompt_cache_key" (get_or_null "promptCacheKey" payload) in
  let rest := set_missing rest "prompt_cache_retention" (get_or_null "promptCacheRetention" payload) in
  let rest := normalize_reasoning_aliases rest in
  let text_map := default [] (get_obj "text" rest) in
  let text_map := set_missing text_map "verbosity" (get_or_null "textVerbosity" payload) in
  let text_map := set_missing text_map "verbosity" (get_or_null "verbosity" payload) in
  match text_map with [] => rest | _ => dict_set rest "text" (JObj text_map) end.

Definition _normalize_service_tier_aliases (payload : dict json) : dict json :=
  match _normalize_service_tier_alias_value (get_or_null "service_tier" payload) with
  | JStr s => dict_set payload "service_tier" (JStr s)
  | _ => payload
  end.

(** The compact request applies the alias before its fields are validated. *)
Definition _normalize_service_tier_aliases_before_validation (data : json) : json :=
  match data with JObj d => JObj (_normalize_service_tier_aliases d) | v => v end.

Definition _sanitize_interleaved_reasoning_input (payload : dict json) : res string (dict json) :=
  match get_list "input" payload with
  | Some items => let? sanitized := _sanitize_input_items items in Ok (dict_set payload "input" (JList sanitized))
  | None => Ok payload
  end.

Definition _tool_sort_key (tool : json) : string :=
  match tool with
  | JObj d =>
      match get_str "name" d with
      | Some name => name
      | None => match get_obj "function" d with Some f => default "" (get_str "name" f) | None => "" end
      end
  | _ => ""
  end.

(** [_sort_keys_recursive] is [sort_keys]: keys are distinct, so the values of
    the pairs are never compared. *)
Definition _sort_keys_recursive : json → json := sort_keys.

Definition _canonicalize_tools (payload : dict json) : dict json :=
  match get_list "tools" payload with
  | None | Some [] => payload
  | Some tools => dict_set payload "tools" (JList (map _sort_keys_recursive (order_by (asc _tool_sort_key) tools)))
  end.

Definition _strip_unsupported_fields (payload : dict json) : res string (dict json) :=
  let payload := _normalize_openai_compatible_aliases payload in
  let payload := _normalize_service_tier_aliases payload in
  let? payload := _sanitize_interleaved_reasoning_input payload in
  Ok (fold_left dict_del UNSUPPORTED_UPSTREAM_FIELDS (_canonicalize_tools payload)).

Definition _strip_compact_unsupported_fields (payload : dict json) : res string (dict json) :=
  let? payload := _strip_unsupported_fields payload in
  Ok (fold_left dict_del ["store"; "tools"; "tool_choice"; "parallel_tool_calls"] payload).

End ResponsesRequests.
