(* ===== verification/RequestFacts.v ===== *)
(** Theorems about [Requests]: strict schemas, chat messages and the canonical
    form of a Responses payload. *)

From Stdlib Require Import Sorted.
From S2P Require Import Prelude Json Requests.
Import Json.Json Json.JsonFacts Requests.JsonOps.

Module StrictSchemaFacts.
Import StrictSchema.

(** ** The search visits every schema *)

(** The schemas directly inside a schema, with the step that leads there:
    those of the properties, the items, the alternatives and the definitions
    ([$defs], or [definitions] when that is absent or empty). *)
Inductive subschema (d : dict json) : list string → json → Prop :=
  | sub_property ps k v : dict_get d "properties" = Some (JObj ps) → (k, v) ∈ ps → subschema d ["properties"; k] v
  | sub_items v : dict_get d "items" = Some v → v ≠ JNull → subschema d ["items"] v
  | sub_combinator name l i c :
      name ∈ ["anyOf"; "oneOf"; "allOf"] → dict_get d name = Some (JList l) → l !! i = Some c →
      subschema d [name; show_N (N.of_nat i)] c
  | sub_defs ps k v : dict_get d "$defs" = Some (JObj ps) → (k, v) ∈ ps → subschema d ["$defs"; k] v
  | sub_definitions ps k v :
      truthy (get_or_null "$defs" d) = false → dict_get d "definitions" = Some (JObj ps) → (k, v) ∈ ps →
      subschema d ["$defs"; k] v.

Lemma get_obj_spec k (d o : dict json) : get_obj k d = Some o ↔ dict_get d k = Some (JObj o).
Proof. unfold get_obj. destruct (dict_get d k) as [[]|]; naive_solver. Qed.
Lemma get_list_spec k (d : dict json) l : get_list k d = Some l ↔ dict_get d k = Some (JList l).
Proof. unfold get_list. destruct (dict_get d k) as [[]|]; naive_solver. Qed.
Lemma or_null_obj k (d o : dict json) : get_or_null k d = JObj o ↔ dict_get d k = Some (JObj o).
Proof. unfold get_or_null. destruct (dict_get d k); naive_solver. Qed.

Lemma children_sound d step c : (step, c) ∈ children d → subschema d step c.
Proof.
  unfold children. rewrite !elem_of_app. intros [H|[H|[H|H]]].
  - unfold property_children in H. destruct (object_node d); [|by apply elem_of_nil in H].
    apply elem_of_map in H as ([k v] & [= -> ->] & Hp).
    destruct (get_obj "properties" d) as [ps|] eqn:E; [|by apply elem_of_nil in Hp]. apply get_obj_spec in E. by eapply sub_property.
  - unfold item_children in H. destruct (_ || _); [|by apply elem_of_nil in H]. unfold get_or_null in H.
    destruct (dict_get d "items") as [v|] eqn:E; [|by apply elem_of_nil in H]. simpl in H.
    destruct v; try (by apply elem_of_nil in H); apply list_elem_of_singleton in H as [= -> ->]; by apply sub_items.
  - unfold combinator_children in H. apply list_elem_of_In, in_flat_map in H as (name & Hn%list_elem_of_In & H%list_elem_of_In).
    destruct (get_list name d) as [l|] eqn:E; [|by apply elem_of_nil in H]. simpl in H.
    apply elem_of_lookup_imap in H as (i & c' & [= -> ->] & Hi). apply get_list_spec in E. by eapply sub_combinator.
  - unfold definition_children, definitions in H. destruct (truthy (get_or_null "$defs" d)) eqn:Et.
    + destruct (get_or_null "$defs" d) as [| | | | | |ps] eqn:E; try (by apply elem_of_nil in H). apply or_null_obj in E.
      apply elem_of_map in H as ([k v] & [= -> ->] & Hp). by eapply sub_defs.
    + destruct (get_or_null "definitions" d) as [| | | | | |ps] eqn:E; try (by apply elem_of_nil in H). apply or_null_obj in E.
      apply elem_of_map in H as ([k v] & [= -> ->] & Hp). by eapply sub_definitions.
Qed.

Lemma children_complete d step c : subschema d step c → (step, c) ∈ children d.
Proof.
  unfold children. rewrite !elem_of_app. intros [ps k v Hd Hv|v Hd Hv|name l i x Hn Hd Hi|ps k v Hd Hv|ps k v Ht Hd Hv].
  - left. unfold property_children, object_node, has. rewrite Hd. rewrite bool_decide_true, orb_true_r by done.
    rewrite (proj2 (get_obj_spec _ _ _) Hd). apply elem_of_map. by exists (k, v).
  - right. left. unfold item_children, has, get_or_null. rewrite Hd. rewrite bool_decide_true, orb_true_r by done. simpl.
    destruct v; try done; by apply list_elem_of_singleton.
  - right. right. left. unfold combinator_children. apply list_elem_of_In, in_flat_map. exists name.
    split; [by apply list_elem_of_In|]. rewrite (proj2 (get_list_spec _ _ _) Hd). apply list_elem_of_In, elem_of_lookup_imap.
    by exists i, x.
  - right. right. right. unfold definition_children, definitions. rewrite (proj2 (or_null_obj _ _ _) Hd).
    destruct ps as [|p ps]; [by apply elem_of_nil in Hv|]. simpl truthy. cbv iota. apply elem_of_map. by exists (k, v).
  - right. right. right. unfold definition_children, definitions. rewrite Ht, (proj2 (or_null_obj _ _ _) Hd).
    apply elem_of_map. by exists (k, v).
Qed.

(** The schemas reachable from a root, with their paths. *)
Inductive visited (root : json) : list string → json → Prop :=
  | visited_root : visited root [] root
  | visited_child path d step c :
      visited root path (JObj d) → subschema d step c → visited root (path ++ step) c.

(** What strict mode asks of one schema: it says its type (or is a reference
    or a combination), and an object is closed and requires every property. *)
Definition strict_node (d : dict json) : Prop :=
  (is_Some (dict_get d "type") ∨ (∃ name l, name ∈ ["anyOf"; "oneOf"; "allOf"] ∧ dict_get d name = Some (JList l)) ∨
   ∃ r, dict_get d "$ref" = Some (JStr r)) ∧
  (dict_get d "type" = Some (JStr "object") ∨ is_Some (dict_get d "properties") →
   dict_get d "additionalProperties" = Some (JBool false) ∧
   ∀ properties k, get_obj "properties" d = Some properties → k ∈ properties.*1 →
     ∃ required, get_list "required" d = Some required ∧ JStr k ∈ required).

Lemma object_node_spec d :
  object_node d = true ↔ dict_get d "type" = Some (JStr "object") ∨ is_Some (dict_get d "properties").
Proof.
  unfold object_node, has, get_or_null. rewrite orb_true_iff, bool_decide_eq_true.
  split; (intros [H|H]; [left|by right]).
  - destruct (dict_get d "type") as [v|]; [|done]. simpl in H. destruct v; try done. apply String.eqb_eq in H. by subst.
  - by rewrite H.
Qed.

Lemma required_set_spec d k : k ∈ required_set d ↔ ∃ l, get_list "required" d = Some l ∧ JStr k ∈ l.
Proof.
  unfold required_set. destruct (get_list "required" d) as [l|]; [|set_solver]. rewrite list_elem_of_omap. split.
  - intros (v & Hv & Hs). exists l. split; [done|]. destruct v; try done. by injection Hs as <-.
  - intros (l' & [= <-] & Hl). by exists (JStr k).
Qed.

Lemma has_combinator_spec d :
  _has_combinator d = true ↔ ∃ name l, name ∈ ["anyOf"; "oneOf"; "allOf"] ∧ dict_get d name = Some (JList l).
Proof.
  unfold _has_combinator. rewrite existsb_exists. split.
  - intros (name & Hn%list_elem_of_In & [l Hl%get_list_spec]%bool_decide_eq_true). by exists name, l.
  - intros (name & l & Hn & Hl%get_list_spec). exists name. split; [by apply list_elem_of_In|]. apply bool_decide_eq_true. by eexists.
Qed.

Lemma is_ref_spec d : _is_ref d = true ↔ ∃ r, dict_get d "$ref" = Some (JStr r).
Proof.
  unfold _is_ref, get_str. rewrite bool_decide_eq_true. destruct (dict_get d "$ref") as [[]|]; split; try (by intros [? ?]); by eexists.
Qed.

Lemma node_violation_spec d : node_violation d = None ↔ strict_node d.
Proof.
  unfold node_violation, strict_node. rewrite <- object_node_spec.
  assert (negb (has "type" d) && negb (_has_combinator d) && negb (_is_ref d) = false ↔
    is_Some (dict_get d "type") ∨ (∃ name l, name ∈ ["anyOf"; "oneOf"; "allOf"] ∧ dict_get d name = Some (JList l)) ∨
    ∃ r, dict_get d "$ref" = Some (JStr r)) as Ht.
  { unfold has. rewrite !andb_false_iff, !negb_false_iff, bool_decide_eq_true, has_combinator_spec, is_ref_spec. tauto. }
  destruct (negb _ && _ && _) eqn:E.
  { split; [done|]. intros [H _]. apply Ht in H. congruence. }
  destruct (object_node d).
  2:{ split; [|done]. intros _. split; [by apply Ht|done]. }
  unfold get_or_null. split.
  - intros H. split; [by apply Ht|]. intros _. destruct (dict_get d "additionalProperties") as [[| [] | | | | |]|]; try done.
    split; [done|]. intros ps k Hps Hk. rewrite Hps in H. destruct (List.filter _ _) eqn:Ef; [|done].
    destruct (mem k (required_set d)) eqn:Em; [by apply mem_spec, required_set_spec in Em|].
    assert (k ∈ List.filter (λ n, negb (mem n (required_set d))) (map fst ps)) as Hin by (apply elem_of_filter_bool; by rewrite Em).
    rewrite Ef in Hin. by apply elem_of_nil in Hin.
  - intros [_ H]. destruct (H eq_refl) as [-> Hr]. simpl. destruct (get_obj "properties" d) as [ps|]; [|done].
    destruct (List.filter _ _) as [|k l] eqn:Ef; [done|]. exfalso.
    assert (k ∈ List.filter (λ n, negb (mem n (required_set d))) (map fst ps)) as [Hk Hn]%elem_of_filter_bool by (rewrite Ef; left).
    apply negb_true_iff in Hn. assert (k ∈ required_set d) as Hm%mem_spec; [|congruence]. apply required_set_spec. by apply (Hr ps).
Qed.

(** Children lie strictly inside their node. *)
Lemma list_max_ge n l : n ∈ l → (n <= list_max l)%nat.
Proof.
  intros Hn. pose proof (proj1 (list_max_le l _) (Nat.le_refl _)) as Hall. rewrite List.Forall_forall in Hall.
  by apply Hall, list_elem_of_In.
Qed.

Lemma depth_value (d : dict json) v : v ∈ d.*2 → (depth v < depth (JObj d))%nat.
Proof.
  intros (p & -> & Hp)%list_elem_of_fmap. simpl. apply Nat.lt_succ_r, list_max_ge, elem_of_map. by exists p.
Qed.

Lemma depth_member (d : dict json) k v : dict_get d k = Some v → (depth v < depth (JObj d))%nat.
Proof. intros H%dict_get_Some_in. apply depth_value, list_elem_of_fmap. by exists (k, v). Qed.

Lemma depth_elem l v : v ∈ l → (depth v < depth (JList l))%nat.
Proof. intros H. simpl. apply Nat.lt_succ_r, list_max_ge, elem_of_map. by exists v. Qed.

Lemma subschema_depth d step c : subschema d step c → (depth c < depth (JObj d))%nat.
Proof.
  assert (∀ k ps k' v, dict_get d k = Some (JObj ps) → (k', v) ∈ ps → (depth v < depth (JObj d))%nat) as Hobj.
  { intros k ps k' v E%depth_member Hv. assert (depth v < depth (JObj ps))%nat; [|lia].
    apply depth_value, list_elem_of_fmap. by exists (k', v). }
  intros [ps k v Hd Hv|v Hd Hv|name l i x Hn Hd Hi|ps k v Hd Hv|ps k v Ht Hd Hv]; [by eapply Hobj|by eapply depth_member| |by eapply Hobj..].
  apply depth_member in Hd. apply list_elem_of_lookup_2, depth_elem in Hi. lia.
Qed.

Lemma visited_below d step c p x : subschema d step c → visited c p x → visited (JObj d) (step ++ p) x.
Proof.
  intros Hc. induction 1 as [|p e s x _ IH Hx].
  - rewrite app_nil_r. apply (visited_child _ [] d); [constructor|done].
  - rewrite app_assoc. by eapply visited_child.
Qed.

Lemma visited_inv root p x : visited root p x →
  (p = [] ∧ x = root) ∨ ∃ d step c p', root = JObj d ∧ subschema d step c ∧ p = step ++ p' ∧ visited c p' x.
Proof.
  induction 1 as [|p e s x Hp IH Hx]; [by left|]. right. destruct IH as [[-> <-]|(d & step & c & p' & -> & Hc & -> & Hv)].
  - exists e, s, x, []. split_and!; [done..|by rewrite app_nil_r|constructor].
  - exists d, step, c, (p' ++ s). split_and!; [done..|by rewrite app_assoc|by eapply visited_child].
Qed.

(** What the search has found below a schema. *)
Definition found (node : json) (path : list string) (r : option violation) : Prop :=
  match r with
  | None => ∀ p d, visited node p (JObj d) → strict_node d
  | Some (q, reason) => ∃ p d, q = path ++ p ∧ visited node p (JObj d) ∧ node_violation d = Some reason
  end.

Lemma first_violation_spec find path cs :
  (∀ step c, (step, c) ∈ cs → found c (path ++ step) (find c (path ++ step))) →
  match first_violation find path cs with
  | None => ∀ step c, (step, c) ∈ cs → found c (path ++ step) None
  | Some v => ∃ step c, (step, c) ∈ cs ∧ found c (path ++ step) (Some v)
  end.
Proof.
  induction cs as [|[step c] cs IH]; intros H; simpl; [set_solver|].
  pose proof (H step c ltac:(left)) as Hc. destruct (find c (path ++ step)) as [v|]; [exists step, c; split; [left|done]|].
  specialize (IH ltac:(intros; apply H; by right)). destruct (first_violation find path cs) as [v|].
  - destruct IH as (s' & c' & ? & ?). exists s', c'. split; [by right|done].
  - intros s' c' [[= -> ->]|Hin]%elem_of_cons; [done|exact (IH s' c' Hin)].
Qed.

Lemma find_from_spec fuel node path : (depth node <= fuel)%nat → found node path (find_from fuel node path).
Proof.
  revert node path. induction fuel as [|fuel IH]; intros node path Hf.
  { destruct node; simpl in Hf; lia. }
  destruct node as [| | | | | |d]; try (simpl; intros p e Hv; by destruct (visited_inv _ _ _ Hv) as [[_ ?]|(? & ? & ? & ? & ? & _)]).
  cbn [find_from]. destruct (node_violation d) as [reason|] eqn:Ev.
  { exists [], d. rewrite app_nil_r. split_and!; [done|constructor|done]. }
  assert (∀ step c, (step, c) ∈ children d → found c (path ++ step) (find_from fuel c (path ++ step))) as Hc.
  { intros step c Hc. apply IH. apply children_sound, subschema_depth in Hc. lia. }
  apply first_violation_spec in Hc. destruct (first_violation _ _ _) as [[q reason]|].
  - destruct Hc as (step & c & Hin & p & e & -> & Hv & He). exists (step ++ p), e. rewrite app_assoc. split_and!; [done| |done].
    by eapply visited_below; [apply children_sound|].
  - intros p e Hv. destruct (visited_inv _ _ _ Hv) as [[-> [= ->]]|(d' & step & c & p' & [= <-] & Hin & -> & Hv')].
    + by apply node_violation_spec.
    + by apply (Hc step c (children_complete _ _ _ Hin) p').
Qed.

(** C32. A schema passes exactly when every schema reachable from it satisfies
    strict mode: it says its type, and an object forbids additional properties
    and requires each of its own.  A refusal names a reachable schema by its
    path and a rule it breaks; the search always ends. *)
Theorem strict_schema_spec schema name param :
  match validate_strict_json_schema schema name param with
  | None => ∀ path d, visited schema path (JObj d) → strict_node d
  | Some e => code e = "invalid_json_schema" ∧ StrictSchema.param e = param ∧
      ∃ path d reason, visited schema path (JObj d) ∧ ¬ strict_node d ∧ node_violation d = Some reason ∧
        message e = ("Invalid schema for response_format '" ++ label name "response_format" ++ "': In context="
                     ++ _render_context path ++ ", " ++ reason ++ ".")%string
  end.
Proof.
  unfold validate_strict_json_schema, _find_violation. pose proof (find_from_spec (depth schema) schema [] (Nat.le_refl _)) as H.
  destruct (find_from _ _ _) as [[q reason]|]; [|done]. destruct H as (p & d & -> & Hv & Hd). split_and!; [done|done|].
  exists p, d, reason. split_and!; [done| |done|done]. rewrite <- node_violation_spec. congruence.
Qed.

End StrictSchemaFacts.

Module CoercionFacts.
Import MessageCoercion.

Lemma map_res_inl {E A B} (f : A → res E B) l r : map_res f l = Ok r ↔ Forall2 (λ x y, f x = Ok y) l r.
Proof.
  revert r. induction l as [|x l IH]; intros r; simpl.
  - split; [intros [= <-]; constructor|]. by intros ->%Forall2_nil_inv_l.
  - rewrite res_bind_ok. setoid_rewrite res_bind_ok. split.
    + intros (y & Hy & ys & Hys & [= <-]). constructor; [done|by apply IH].
    + intros (y & ys & Hy & Hys & ->)%Forall2_cons_inv_l. exists y. split; [done|]. exists ys. split; [by apply IH|done].
Qed.

Lemma map_res_err {E A B} (f : A → res E B) l e : map_res f l = Err e →
  ∃ pre x post, l = pre ++ x :: post ∧ f x = Err e ∧ ∀ y, y ∈ pre → ∃ b, f y = Ok b.
Proof.
  induction l as [|x l IH]; simpl; [done|]. destruct (f x) as [b|e'] eqn:Ex; simpl.
  - destruct (map_res f l) as [bs|e'] eqn:El; [done|]. simpl. intros [= ->]. destruct (IH eq_refl) as (pre & y & post & -> & Hy & Hpre).
    exists (x :: pre), y, post. split_and!; [done..|]. intros z [->|Hz]%elem_of_cons; [by exists b|by apply Hpre].
  - intros [= ->]. exists [], x, l. split_and!; [done..|]. by intros y ?%elem_of_nil.
Qed.

(** ** What an item holds *)

(** An item as the upstream API knows it: a message of the user or the
    assistant with its content and nothing else, a function call, or the
    output of one. *)
Definition upstream_item (item : json) : Prop :=
  match item with
  | JObj d =>
      (dict_get d "role" = Some (JStr "user") ∨ dict_get d "role" = Some (JStr "assistant")) ∧
      (d.*1 = ["role"] ∨ d.*1 = ["role"; "content"]) ∨
      (∃ call_id name arguments, item = FunctionCallInputItem call_id name arguments) ∨
      (∃ call_id output, item = FunctionCallOutputInputItem call_id output)
  | _ => False
  end.

(** The calls in the items: id, name and arguments; and the ids answered. *)
Definition call_of_item (item : json) : option (string * string * string) :=
  match item with
  | JObj d =>
      match get_str "type" d, get_str "call_id" d, get_str "name" d, get_str "arguments" d with
      | Some "function_call", Some id, Some n, Some a => Some (id, n, a)
      | _, _, _, _ => None
      end
  | _ => None
  end.
Definition answer_of_item (item : json) : option string :=
  match item with
  | JObj d => match get_str "type" d with Some "function_call_output" => get_str "call_id" d | _ => None end
  | _ => None
  end.

(** The same of the messages. *)
Definition call_of_entry (tc : json) : option (string * string * string) :=
  match tc with
  | JObj d =>
      match get_str "id" d, get_obj "function" d with
      | Some id, Some f => match get_str "name" f, get_str "arguments" f with Some n, Some a => Some (id, n, a) | _, _ => None end
      | _, _ => None
      end
  | _ => None
  end.
Definition calls_of_message (msg : json) : list (string * string * string) :=
  match msg with
  | JObj d => if is_str "assistant" (get_or_null "role" d) then omap call_of_entry (default [] (get_list "tool_calls" d)) else []
  | _ => []
  end.
Definition answer_of_message (msg : json) : list string :=
  match msg with
  | JObj d => if is_str "tool" (get_or_null "role" d) then match resolved_call_id d with Some id => [id] | None => [] end else []
  | _ => []
  end.

(** The instruction text of a system or developer message. *)
Definition instruction_of_message (msg : json) : list string :=
  match msg with
  | JObj d =>
      if str_in (get_or_null "role" d) ["system"; "developer"]
      then match _content_to_text (get_or_null "content" d) with Some "" | None => [] | Some text => [text] end
      else []
  | _ => []
  end.

Lemma filled_str_get k d s : filled_str k d = Some s → get_str k d = Some s.
Proof. unfold filled_str. destruct (get_str k d) as [[|c t]|]; congruence. Qed.

Lemma convert_tool_call_spec tc item : convert_tool_call tc = Ok item →
  upstream_item item ∧ call_of_item item = call_of_entry tc ∧ is_Some (call_of_entry tc) ∧ answer_of_item item = None.
Proof.
  unfold convert_tool_call, bad. destruct tc as [| | | | | |d]; try done.
  destruct (filled_str "id" d) as [id|] eqn:Ei; [|done]. destruct (get_obj "function" d) as [f|] eqn:Ef; [|done].
  destruct (filled_str "name" f) as [n|] eqn:En; [|done]. destruct (get_str "arguments" f) as [a|] eqn:Ea; [|done].
  intros [= <-]. simpl. rewrite (filled_str_get _ _ _ Ei), Ef, (filled_str_get _ _ _ En), Ea. split_and!; [|done..].
  right. left. by exists id, n, a.
Qed.

Lemma map_convert l items : map_res convert_tool_call l = Ok items →
  Forall upstream_item items ∧ omap call_of_item items = omap call_of_entry l ∧ omap answer_of_item items = [].
Proof.
  rewrite map_res_inl. induction 1 as [|tc item l items H _ IH]; [done|].
  destruct (convert_tool_call_spec _ _ H) as (H1 & H2 & [c Hc] & H4). destruct IH as (I1 & I2 & I3).
  csimpl. rewrite H2, Hc, H4, I2, I3. split_and!; [by constructor|done..].
Qed.

(** A message made of a role and content is an upstream item and no call. *)
Lemma message_item role content :
  role = "user" ∨ role = "assistant" →
  let item := JObj [("role", JStr role); ("content", content)] in
  upstream_item item ∧ call_of_item item = None ∧ answer_of_item item = None.
Proof. intros [-> | ->]; (split; [left; split; [|by right]|done]); [by left|by right]. Qed.

Lemma normalize_message_spec d role : get_str "role" d = Some role → role = "user" ∨ role = "assistant" →
  upstream_item (_normalize_message_content d) ∧ call_of_item (_normalize_message_content d) = None ∧
  answer_of_item (_normalize_message_content d) = None.
Proof.
  intros Hr Hrole. assert (get_or_null "role" d = JStr role) as Hn.
  { unfold get_str, get_or_null in *. destruct (dict_get d "role") as [[]|]; try done. by injection Hr as ->. }
  unfold _normalize_message_content. rewrite Hn.
  assert (upstream_item (JObj [("role", JStr role)])) as Honly by (destruct Hrole as [-> | ->]; (left; split; [|by left]); [by left|by right]).
  set (refusal := if String.eqb _ _ then _ else None). destruct (get_or_null "content" d), refusal, (has "content" d);
    try (by apply message_item); done.
Qed.

Lemma decompose_spec d items : _decompose_assistant_tool_calls d = Ok items →
  Forall upstream_item items ∧ omap call_of_item items = omap call_of_entry (default [] (get_list "tool_calls" d)) ∧
  omap answer_of_item items = [].
Proof.
  unfold _decompose_assistant_tool_calls. set (msgs := if _ && _ then [] else _).
  assert (Forall upstream_item msgs ∧ omap call_of_item msgs = [] ∧ omap answer_of_item msgs = []) as (M1 & M2 & M3).
  { unfold msgs. destruct (_ && _); [done|]. split_and!; [|done..]. constructor; [|done]. apply message_item. by right. }
  destruct (get_list "tool_calls" d) as [l|]; simpl; [|by intros [= <-]].
  rewrite res_bind_ok. intros (calls & Hc & [= <-]). destruct (map_convert _ _ Hc) as (I1 & I2 & I3).
  rewrite !omap_app, M2, M3, I2, I3. split_and!; [by apply Forall_app|done..].
Qed.

Lemma convert_tool_message_spec d item : _convert_tool_message d = Ok item →
  ∃ id output, resolved_call_id d = Some id ∧ item = FunctionCallOutputInputItem id output.
Proof.
  unfold _convert_tool_message, bad. destruct (resolved_call_id d) as [id|]; [|done].
  destruct (get_or_null "content" d); try done; [intros [= <-]; by eauto|]. destruct (_ && _); [done|]. intros [= <-]; by eauto.
Qed.

Lemma coerce_message_spec msg texts items : coerce_message msg = Ok (texts, items) →
  Forall upstream_item items ∧ omap call_of_item items = calls_of_message msg ∧ omap answer_of_item items = answer_of_message msg ∧
  texts = instruction_of_message msg.
Proof.
  unfold coerce_message, bad. destruct msg as [| | | | | |d]; try done. destruct (get_str "role" d) as [role|] eqn:Er; [|done].
  assert (get_or_null "role" d = JStr role) as Hn.
  { unfold get_str, get_or_null in *. destruct (dict_get d "role") as [[]|]; try done. by injection Er as ->. }
  unfold calls_of_message, answer_of_message, instruction_of_message. rewrite Hn. unfold is_str, str_in.
  destruct (mem role SUPPORTED_MESSAGE_ROLES) eqn:Em; [|done]. cbn [negb].
  destruct (mem role ["system"; "developer"]) eqn:Es.
  { apply mem_spec in Es. rewrite res_bind_ok. intros (_ & _ & [= <- <-]). 
    rewrite !elem_of_cons, elem_of_nil in Es. by destruct Es as [->|[->|[]]]. }
  destruct (String.eqb_spec role "tool") as [->|Ht].
  { rewrite res_bind_ok. intros (item & Hi & [= <- <-]). destruct (convert_tool_message_spec _ _ Hi) as (id & out & -> & ->).
    split_and!; [|done..]. constructor; [|done]. right. right. by eauto. }
  destruct (String.eqb_spec role "assistant") as [->|Ha]; cbn [andb].
  - case_bool_decide as Htc.
    + rewrite res_bind_ok. intros (its & Hi & [= <- <-]). destruct (decompose_spec _ _ Hi) as (H1 & H2 & H3).
      split_and!; [done|done|done|done].
    + intros [= <- <-]. destruct (normalize_message_spec d "assistant" Er ltac:(by right)) as (H1 & H2 & H3).
      assert (default [] (get_list "tool_calls" d) = []) as -> by (by destruct (default [] (get_list "tool_calls" d))).
      simpl. rewrite H2, H3. split_and!; [by constructor|done..].
  - intros [= <- <-]. assert (role = "user") as ->.
    { apply mem_spec in Em. unfold SUPPORTED_MESSAGE_ROLES in Em. rewrite !elem_of_cons, elem_of_nil in Em.
      destruct Em as [->|[->|[->|[->|[->|[]]]]]]; done. }
    destruct (normalize_message_spec d "user" Er ltac:(by left)) as (H1 & H2 & H3). simpl. rewrite H2, H3.
    split_and!; [by constructor|done..].
Qed.

(** Every refusal names the member [messages]. *)
Lemma bind_param {A B} (x : res ClientPayloadError A) (f : A → res ClientPayloadError B) e :
  (∀ e, x = Err e → cp_param e = "messages") → (∀ a e, f a = Err e → cp_param e = "messages") →
  res_bind x f = Err e → cp_param e = "messages".
Proof. intros Hx Hf. destruct x as [a|e']; simpl; [by apply Hf|]. intros [= ->]. by apply Hx. Qed.

Lemma convert_tool_call_param tc e : convert_tool_call tc = Err e → cp_param e = "messages".
Proof. unfold convert_tool_call, bad. repeat case_match; by intros [= <-]. Qed.

Lemma coerce_message_param m e : coerce_message m = Err e → cp_param e = "messages".
Proof.
  unfold coerce_message. destruct m as [| | | | | |d]; try (by intros [= <-]). destruct (get_str "role" d); [|by intros [= <-]].
  destruct (negb _); [by intros [= <-]|]. destruct (mem _ _).
  { apply bind_param; [|done]. intros e'. unfold _ensure_text_only_content, bad. repeat case_match; by intros [= <-]. }
  destruct (String.eqb _ _).
  { apply bind_param; [|done]. intros e'. unfold _convert_tool_message, bad. repeat case_match; by intros [= <-]. }
  destruct (_ && _); [|done]. apply bind_param; [|done]. intros e'. unfold _decompose_assistant_tool_calls.
  destruct (get_list _ _); [|done]. apply bind_param; [|done]. intros e'' (pre & tc & post & _ & H & _)%map_res_err.
  by apply convert_tool_call_param in H.
Qed.

Lemma flat_map_omap {A B C} (f : B → option C) (g : A → list B) l : omap f (flat_map g l) = flat_map (λ x, omap f (g x)) l.
Proof. induction l as [|x l IH]; [done|]. simpl. by rewrite omap_app, <- IH. Qed.

(** Chat messages become input items the upstream API knows, with no member a
    client added; every tool call of an assistant message and every tool
    answer is there once, in order, with its id; the text of system and
    developer messages goes to the instructions, in order, and nowhere else.
    A refusal is that of the first message that cannot be converted. *)
Theorem coerce_messages_spec existing msgs :
  match coerce_messages existing msgs with
  | Ok (instructions, items) =>
      Forall upstream_item items ∧ omap call_of_item items = flat_map calls_of_message msgs ∧
      omap answer_of_item items = flat_map answer_of_message msgs ∧
      instructions = _merge_instructions existing (flat_map instruction_of_message msgs)
  | Err e => cp_param e = "messages" ∧
      ∃ pre msg post, msgs = pre ++ msg :: post ∧ coerce_message msg = Err e ∧ ∀ m, m ∈ pre → ∃ r, coerce_message m = Ok r
  end.
Proof.
  unfold coerce_messages. destruct (map_res coerce_message msgs) as [results|e] eqn:E; simpl.
  - apply map_res_inl in E. rewrite !flat_map_omap.
    enough (Forall upstream_item (flat_map snd results) ∧
      flat_map (λ x, omap call_of_item x.2) results = flat_map calls_of_message msgs ∧
      flat_map (λ x, omap answer_of_item x.2) results = flat_map answer_of_message msgs ∧
      flat_map fst results = flat_map instruction_of_message msgs) as (H1 & H2 & H3 & ->) by done.
    induction E as [|msg [texts items] msgs results H _ (I1 & I2 & I3 & I4)]; [done|].
    destruct (coerce_message_spec _ _ _ H) as (H1 & H2 & H3 & H4). csimpl. rewrite I2, I3, I4, H2, H3, H4.
    split_and!; [by apply Forall_app|done..].
  - destruct (map_res_err _ _ _ E) as (pre & m & post & -> & Hm & Hpre). split; [by apply (coerce_message_param m)|].
    by exists pre, m, post.
Qed.

End CoercionFacts.

Module ResponsesFacts.
Import ResponsesRequests.

(** ** Members of a dict *)

Lemma dict_del_all (ks : list string) (d : dict json) :
  fold_left dict_del ks d = List.filter (λ p, negb (mem p.1 ks)) d.
Proof.
  revert d. induction ks as [|k ks IH]; intros d; simpl.
  - induction d as [|p d IHd]; simpl; [done|]. by f_equal.
  - rewrite IH. unfold dict_del. rewrite filter_conj. apply filter_ext. intros p. simpl.
    rewrite negb_orb. apply andb_comm.
Qed.

Lemma dict_get_del_all (ks : list string) (d : dict json) k :
  dict_get (fold_left dict_del ks d) k = if mem k ks then None else dict_get d k.
Proof.
  rewrite dict_del_all. induction d as [|[k' v] d IH]; simpl; [by destruct (mem k ks)|].
  destruct (mem k' ks) eqn:Em; simpl; rewrite IH; destruct (String.eqb_spec k k') as [->|Hne]; try done; by rewrite Em.
Qed.

Lemma dict_get_None_keys {V} (d : dict V) k : dict_get d k = None ↔ k ∉ d.*1.
Proof.
  induction d as [|[k' v] d IH]; simpl; [split; [intros _; apply not_elem_of_nil|done]|].
  rewrite not_elem_of_cons. simpl. destruct (String.eqb_spec k k') as [->|Hne]; [split; [done|tauto]|]. rewrite IH. tauto.
Qed.

Lemma dict_del_id (ks : list string) (d : dict json) : (∀ k, k ∈ ks → dict_get d k = None) → fold_left dict_del ks d = d.
Proof.
  intros H. rewrite dict_del_all. apply forallb_filter_id, forallb_forall. intros [k v] Hp%list_elem_of_In. simpl.
  destruct (mem k ks) eqn:E; [|done]. apply mem_spec, H, dict_get_None_keys in E. exfalso. apply E, list_elem_of_fmap.
  by exists (k, v).
Qed.

Lemma dict_del_twice (ks : list string) (d : dict json) : fold_left dict_del ks (fold_left dict_del ks d) = fold_left dict_del ks d.
Proof. apply dict_del_id. intros k Hk%mem_spec. by rewrite dict_get_del_all, Hk. Qed.

Lemma dict_set_id {V} (d : dict V) k v : dict_get d k = Some v → dict_set d k v = d.
Proof.
  induction d as [|[k' w] d IH]; simpl; [done|]. destruct (String.eqb_spec k k') as [->|Hne]; [by intros [= ->]|].
  intros H. f_equal. by apply IH.
Qed.

(** ** Input items *)

(** A part, a content or an item that sanitising leaves as it is. *)
Definition clean_part (v : json) : Prop := _sanitize_interleaved_reasoning_content_part v = Some v ∧ v ≠ JNull.
Definition clean_content (v : json) : Prop := _sanitize_interleaved_reasoning_content v = Some v.

Lemma sanitize_part_clean p v : _sanitize_interleaved_reasoning_content_part p = Some v → v ≠ JNull → clean_part v.
Proof.
  destruct p as [| | | | | |d]; try (by intros [= <-]). cbn [_sanitize_interleaved_reasoning_content_part].
  destruct (str_in _ _) eqn:E; [done|]. intros H _. apply (inj Some) in H as <-. split; [|done].
  cbn [_sanitize_interleaved_reasoning_content_part]. unfold get_or_null in *. rewrite (dict_get_del_all INTERLEAVED_REASONING_KEYS d "type").
  change (mem "type" INTERLEAVED_REASONING_KEYS) with false. cbv iota. rewrite E. do 2 f_equal. apply (dict_del_twice INTERLEAVED_REASONING_KEYS).
Qed.

Lemma clean_list l : Forall clean_part l → clean_content (JList l).
Proof.
  intros H. unfold clean_content. simpl. do 2 f_equal. induction H as [|x l [Hx Hn] _ IH]; [done|]. csimpl. rewrite Hx.
  destruct x; try done; by f_equal.
Qed.

Lemma sanitize_content_parts c l : _sanitize_interleaved_reasoning_content c = Some (JList l) → Forall clean_part l.
Proof.
  destruct c as [| | | | |l0|d]; try done; [|simpl; by destruct (str_in _ _)]. simpl. intros [= <-].
  apply Forall_forall. intros v (p & _ & Hv)%list_elem_of_omap.
  destruct (_sanitize_interleaved_reasoning_content_part p) as [w|] eqn:E; [|done].
  assert (v = w ∧ w ≠ JNull) as [-> Hw] by (destruct w; [done|by injection Hv as <-..]). by eapply sanitize_part_clean.
Qed.

Lemma sanitize_content_clean c v : _sanitize_interleaved_reasoning_content c = Some v → clean_content v.
Proof.
  intros H. destruct c as [| | | | |l|d]; try done; try (by injection H as <-).
  - destruct v as [| | | | |l'|]; try done. apply clean_list. by eapply sanitize_content_parts.
  - simpl in H. destruct (str_in _ _) eqn:E; [done|]. injection H as <-.
    by destruct (sanitize_part_clean (JObj d) (JObj (fold_left dict_del INTERLEAVED_REASONING_KEYS d)) ltac:(simpl; by rewrite E) ltac:(done)).
Qed.

Definition clean_members (d : dict json) : Prop := Forall (λ p, sanitize_member p = Some p) d.

Lemma sanitize_members_clean d : clean_members (omap sanitize_member d).
Proof.
  apply Forall_forall. intros p (q & _ & Hq)%list_elem_of_omap. unfold sanitize_member in *.
  destruct (mem q.1 _) eqn:Em; [done|]. destruct (String.eqb q.1 "content") eqn:Ec.
  - destruct (_sanitize_interleaved_reasoning_content q.2) as [v|] eqn:Ev; [|done]. injection Hq as <-. cbn [fst snd]. rewrite Em, Ec.
    by rewrite (sanitize_content_clean _ _ Ev).
  - injection Hq as <-. by rewrite Em, Ec.
Qed.

Lemma clean_members_id d : clean_members d → omap sanitize_member d = d.
Proof. induction 1 as [|p d Hp _ IH]; [done|]. csimpl. rewrite Hp. by f_equal. Qed.

Lemma clean_members_content d c : clean_members d → dict_get d "content" = Some c → clean_content c.
Proof.
  unfold clean_members. rewrite Forall_forall. intros H Hc%dict_get_Some_in. specialize (H _ Hc). unfold sanitize_member in H.
  simpl in H. unfold clean_content. destruct (_sanitize_interleaved_reasoning_content c); [by injection H as ->|done].
Qed.

Lemma clean_members_set d v : clean_members d → clean_content v → clean_members (dict_set d "content" v).
Proof.
  unfold clean_members. rewrite !Forall_forall. intros H Hv p [->|Hp]%dict_set_in; [|by apply H].
  unfold sanitize_member. simpl. by rewrite Hv.
Qed.

(** Normalising a clean content twice is normalising it once, and the result
    is clean. *)
Lemma normal_part p : _normalize_assistant_content_part (_normalize_assistant_content_part p) = _normalize_assistant_content_part p.
Proof.
  destruct p as [| | | | | |d]; try done. unfold _normalize_assistant_content_part at 2 3.
  destruct (_extract_text_content_part _ _) eqn:E; [done|]. unfold _normalize_assistant_content_part. by rewrite E.
Qed.

Lemma normal_part_clean p : clean_part p → clean_part (_normalize_assistant_content_part p).
Proof.
  intros H. destruct p as [| | | | | |d]; try done. cbn [_normalize_assistant_content_part].
  by destruct (_extract_text_content_part (JObj d) ASSISTANT_TEXT_PART_TYPES).
Qed.

Lemma normal_content c : clean_content c →
  clean_content (_normalize_assistant_content c) ∧
  _normalize_assistant_content (_normalize_assistant_content c) = _normalize_assistant_content c.
Proof.
  intros H. destruct c as [| | | | |l|d]; try done.
  - apply sanitize_content_parts in H. simpl. split.
    + apply clean_list, Forall_map. eapply Forall_impl; [exact H|]. apply normal_part_clean.
    + f_equal. rewrite map_map. apply map_ext, normal_part.
  - split; [|cbn [_normalize_assistant_content map]; by rewrite normal_part].
    apply clean_list. constructor; [|done]. apply normal_part_clean. by split.
Qed.

Lemma sanitize_item_fixed item w :
  _normalize_role_input_item (_sanitize_interleaved_reasoning_input_item item) = Ok w →
  _sanitize_interleaved_reasoning_input_item item ≠ JNull →
  _sanitize_interleaved_reasoning_input_item w = w ∧ w ≠ JNull ∧ _normalize_role_input_item w = Ok w.
Proof.
  destruct item as [| | | | | |d0]; try (by intros [= <-]). simpl. pose proof (sanitize_members_clean d0) as Hd.
  set (d := omap sanitize_member d0) in *. clearbody d. intros H _. unfold _normalize_role_input_item in H.
  destruct (is_str "assistant" (get_or_null "role" d)) eqn:Ea.
  - injection H as <-. unfold _normalize_assistant_input_item.
    set (n := _normalize_assistant_content (get_or_null "content" d)). destruct (jeq n (get_or_null "content" d)) eqn:Ej.
    + cbn [_sanitize_interleaved_reasoning_input_item]. rewrite clean_members_id by done. split_and!; [done..|].
      cbn [_normalize_role_input_item]. rewrite Ea. unfold _normalize_assistant_input_item. fold n. by rewrite Ej.
    + assert (∃ c, dict_get d "content" = Some c ∧ get_or_null "content" d = c) as (c & Ec & Eg).
      { unfold n, get_or_null in *. destruct (dict_get d "content"); [by eauto|done]. }
      destruct (normal_content c (clean_members_content d c Hd Ec)) as [Hn Hnn]. unfold n in *. rewrite Eg in *. clear n.
      set (n := _normalize_assistant_content c) in *.
      cbn [_sanitize_interleaved_reasoning_input_item]. rewrite clean_members_id by by apply clean_members_set.
      split_and!; [done..|]. cbn [_normalize_role_input_item]. unfold get_or_null in *. rewrite dict_get_set.
      change (String.eqb "role" "content") with false. cbv iota. rewrite Ea. f_equal.
      unfold _normalize_assistant_input_item, get_or_null. rewrite dict_get_set. change (String.eqb "content" "content") with true.
      cbv iota. cbn [default from_option]. unfold id. rewrite Hnn. destruct (jeq n n); [done|]. f_equal.
      apply dict_set_id. by rewrite dict_get_set.
  - destruct (is_str "tool" (get_or_null "role" d)) eqn:Et.
    + unfold _normalize_tool_input_item in H. destruct (MessageCoercion.resolved_call_id d); [|done]. by injection H as <-.
    + injection H as <-. cbn [_sanitize_interleaved_reasoning_input_item]. rewrite clean_members_id by done. split_and!; [done..|].
      cbn [_normalize_role_input_item]. by rewrite Ea, Et.
Qed.

Lemma sanitize_items_fixed l r : _sanitize_input_items l = Ok r → _sanitize_input_items r = Ok r.
Proof.
  revert r. induction l as [|x l IH]; intros r; cbn [_sanitize_input_items]; [by intros [= <-]|].
  pose proof (sanitize_item_fixed x) as Hx. destruct (_sanitize_interleaved_reasoning_input_item x) eqn:E; [by apply IH|..];
    rewrite res_bind_ok; intros (w & Hw & H); rewrite res_bind_ok in H; destruct H as (ws & Hws & [= <-]);
    (destruct (Hx w Hw) as (H1 & H2 & H3); [done|]); cbn [_sanitize_input_items]; rewrite H1; destruct w; try done;
    rewrite H3; cbn [res_bind]; by rewrite (IH _ Hws).
Qed.

(** ** Sorting by a key *)

Section SortByKey.
Context {A : Type} (key : A → string).
Notation le x y := (at_most (asc key) x y = true).

Lemma insert_sorted x l : Sorted (λ x y, le x y) l → Sorted (λ x y, le x y) (insert_ordered (asc key) x l).
Proof.
  assert (∀ a b, at_most (asc key) a b = false → le b a) as Htot.
  { intros a b. rewrite !at_most_asc, negb_false_iff, negb_true_iff. apply pylt_asym. }
  induction 1 as [|y l Hl IH Hy]; simpl; [by repeat constructor|]. destruct (at_most (asc key) x y) eqn:E.
  - constructor; [by constructor|by constructor].
  - constructor; [done|]. destruct l as [|z l]; simpl; [constructor; by apply Htot|].
    destruct (at_most (asc key) x z); constructor; [by apply Htot|by inversion Hy].
Qed.

Lemma order_by_sorted l : Sorted (λ x y, le x y) (order_by (asc key) l).
Proof. induction l as [|x l IH]; simpl; [constructor|by apply insert_sorted]. Qed.

Lemma order_by_id l : Sorted (λ x y, le x y) l → order_by (asc key) l = l.
Proof.
  induction 1 as [|x l Hl IH Hx]; [done|]. cbn [order_by foldr]. fold (order_by (asc key) l). rewrite IH.
  destruct Hx as [|y l Hxy]; simpl; [done|]. by rewrite Hxy.
Qed.

Lemma order_by_map (g : A → A) l : (∀ x, x ∈ l → key (g x) = key x) →
  order_by (asc key) (map g l) = map g (order_by (asc key) l).
Proof.
  intros H. induction l as [|x l IH]; [done|]. cbn [order_by foldr map]. fold (order_by (asc key) l) (order_by (asc key) (map g l)).
  rewrite IH by (intros; apply H; by right).
  assert (∀ y, y ∈ order_by (asc key) l → key (g y) = key y) as Hl by (intros y Hy%order_by_elem; apply H; by right).
  assert (key (g x) = key x) as Hx by (apply H; left).
  clear IH. induction (order_by (asc key) l) as [|y t IHt]; simpl; [done|]. rewrite !at_most_asc, Hx, (Hl y) by left.
  destruct (negb _); simpl; [done|]. f_equal. apply IHt. intros; apply Hl; by right.
Qed.

End SortByKey.

(** ** Tools *)

Lemma sorted_get d k : NoDup d.*1 →
  dict_get (order_by (asc fst) (map sorted_member d)) k = option_map sort_keys (dict_get d k).
Proof.
  intros Hnd. set (l := order_by _ _).
  assert (NoDup l.*1) as Hl by (unfold l; rewrite (fmap_Permutation fst _ _ (order_by_perm _ _)); by rewrite <- sorted_member_keys in Hnd).
  destruct (dict_get d k) as [v|] eqn:E; simpl.
  - apply dict_get_in; [done|]. apply order_by_elem, elem_of_map. exists (k, v). split; [done|]. by apply dict_get_Some_in.
  - apply dict_get_None_keys. apply dict_get_None_keys in E. intros H. apply E.
    unfold l in H. rewrite (fmap_Permutation fst _ _ (order_by_perm _ _)) in H. by rewrite <- sorted_member_keys.
Qed.

Lemma sorted_get_str d k : NoDup d.*1 → get_str k (order_by (asc fst) (map sorted_member d)) = get_str k d.
Proof. intros Hnd. unfold get_str. rewrite sorted_get by done. by destruct (dict_get d k) as [[]|]. Qed.

Lemma tool_key_sorted v : value v → _tool_sort_key (sort_keys v) = _tool_sort_key v.
Proof.
  unfold value. destruct v as [| | | | | |d]; try done. rewrite wf_obj, Forall_forall. intros [Hnd Hd]. cbn [sort_keys].
  change (λ p : string * json, (p.1, sort_keys p.2)) with sorted_member. unfold _tool_sort_key. rewrite sorted_get_str by done.
  destruct (get_str "name" d); [done|]. unfold get_obj. rewrite sorted_get by done.
  destruct (dict_get d "function") as [[| | | | | |f]|] eqn:E; try done. simpl option_map. cbn [sort_keys].
  change (λ p : string * json, (p.1, sort_keys p.2)) with sorted_member.
  apply dict_get_Some_in, Hd in E as [_ Hf]. cbn [snd] in Hf. apply wf_obj in Hf as [Hnf _]. by rewrite sorted_get_str.
Qed.

Definition canonical_tools (l : list json) : list json := map sort_keys (order_by (asc _tool_sort_key) l).

Lemma canonical_tools_fixed l : Forall value l → canonical_tools (canonical_tools l) = canonical_tools l.
Proof.
  rewrite Forall_forall. intros Hl. unfold canonical_tools.
  assert (∀ x, x ∈ order_by (asc _tool_sort_key) l → value x) as Ho by (intros x Hx%order_by_elem; auto).
  rewrite order_by_map by (intros x Hx; by apply tool_key_sorted, Ho).
  rewrite order_by_id by apply order_by_sorted. rewrite map_map. apply map_ext_in.
  intros x Hx%list_elem_of_In. by apply sort_keys_idemp, Ho.
Qed.

(** The same tools, in another order and with their members in another order. *)
Definition same_tools (tools tools' : list json) : Prop :=
  ∃ permuted, tools ≡ₚ permuted ∧ Forall2 (λ x y, jeq x y = true) permuted tools'.

(** The tools sent upstream do not depend on how the client ordered them, nor
    on the order of the members inside them, as long as their names differ:
    requests with the same tools have the same text up to there. *)
Theorem tools_canonical p p' tools tools'
    (Hv : Forall value tools) (Hv' : Forall value tools') (Hnd : NoDup (map _tool_sort_key tools))
    (Hp : get_list "tools" p = Some tools) (Hp' : get_list "tools" p' = Some tools')
    (Hsame : same_tools tools tools') :
  get_list "tools" (_canonicalize_tools p) = get_list "tools" (_canonicalize_tools p').
Proof.
  destruct Hsame as (permuted & Hperm & Hsame).
  assert (canonical_tools tools = canonical_tools tools') as Hc.
  { rewrite Forall_forall in Hv, Hv'. unfold canonical_tools.
    rewrite <- !order_by_map by (intros x Hx; by apply tool_key_sorted; auto).
    assert (map sort_keys permuted = map sort_keys tools') as <-.
    { assert (∀ x, x ∈ permuted → value x) as Hpv by (intros x Hx; apply Hv; by rewrite Hperm). clear Hperm Hp'.
      induction Hsame as [|x y l l' Hxy _ IH]; [done|]. simpl. f_equal.
      - apply sort_keys_jeq; [apply Hpv; left|apply Hv'; left|done].
      - apply IH; [intros z Hz; apply Hv'; by right|intros z Hz; apply Hpv; by right]. }
    apply order_by_unique; [by rewrite Hperm|]. rewrite map_map. erewrite map_ext_in; [exact Hnd|].
    intros x Hx%list_elem_of_In. by apply tool_key_sorted, Hv. }
  assert (∀ q l, get_list "tools" q = Some l → get_list "tools" (_canonicalize_tools q) = Some (canonical_tools l)) as Hg.
  { intros q l Hq. unfold _canonicalize_tools. rewrite Hq. destruct l as [|t l]; [done|]. unfold get_list. by rewrite dict_get_set. }
  by rewrite (Hg p tools), (Hg p' tools'), Hc.
Qed.

(** ** The payload *)

(** The spellings other clients use, and the members the steps may set. *)
Definition reasoning_aliases : list string := ["reasoningEffort"; "reasoningSummary"; "thinking"; "enable_thinking"].
Definition other_aliases : list string := ["textVerbosity"; "verbosity"; "promptCacheKey"; "promptCacheRetention"].
Definition rewritten_members : list string :=
  ["prompt_cache_key"; "reasoning"; "text"; "service_tier"; "input"; "tools"].

Lemma set_missing_get d k v k' : k' ≠ k → dict_get (set_missing d k v) k' = dict_get d k'.
Proof.
  intros H. unfold set_missing. destruct v; try done. destruct (has k d); [done|]. rewrite dict_get_set.
  by rewrite (proj2 (String.eqb_neq _ _) H).
Qed.

Lemma set_nonempty_get (d m : dict json) k k' : k' ≠ k →
  dict_get (match m with [] => d | _ => dict_set d k (JObj m) end) k' = dict_get d k'.
Proof. intros H. destruct m; [done|]. rewrite dict_get_set. by rewrite (proj2 (String.eqb_neq _ _) H). Qed.

Lemma set_nonempty_id (d : dict json) k :
  match default [] (get_obj k d) with [] => d | _ => dict_set d k (JObj (default [] (get_obj k d))) end = d.
Proof.
  destruct (get_obj k d) as [[|p m]|] eqn:E; simpl; [done| |done]. apply dict_set_id. unfold get_obj in E.
  destruct (dict_get d k) as [[]|]; try done. by injection E as ->.
Qed.

Lemma reasoning_step_get p k : k ≠ "reasoning" →
  dict_get (normalize_reasoning_aliases p) k = if mem k reasoning_aliases then None else dict_get p k.
Proof. intros H. unfold normalize_reasoning_aliases. rewrite set_nonempty_get by done. apply dict_get_del_all. Qed.

Lemma reasoning_step_id p : (∀ k, k ∈ reasoning_aliases → dict_get p k = None) → normalize_reasoning_aliases p = p.
Proof.
  intros H. unfold normalize_reasoning_aliases. fold reasoning_aliases. rewrite (dict_del_id reasoning_aliases) by done.
  unfold get_or_null. rewrite !H by (unfold reasoning_aliases; set_solver). simpl. apply set_nonempty_id.
Qed.

Lemma alias_step_get p k : k ∉ ["reasoning"; "text"; "prompt_cache_key"; "prompt_cache_retention"] →
  dict_get (_normalize_openai_compatible_aliases p) k = if mem k (other_aliases ++ reasoning_aliases) then None else dict_get p k.
Proof.
  rewrite !not_elem_of_cons. intros (H1 & H2 & H3 & H4 & _). unfold _normalize_openai_compatible_aliases.
  rewrite set_nonempty_get by done. rewrite reasoning_step_get by done.
  assert (mem k (other_aliases ++ reasoning_aliases) = mem k other_aliases || mem k reasoning_aliases) as -> by apply existsb_app.
  rewrite !set_missing_get by done. rewrite dict_get_del_all. fold other_aliases.
  by destruct (mem k reasoning_aliases), (mem k other_aliases).
Qed.

Lemma alias_step_id p : (∀ k, k ∈ other_aliases ++ reasoning_aliases → dict_get p k = None) →
  _normalize_openai_compatible_aliases p = p.
Proof.
  intros H. unfold _normalize_openai_compatible_aliases. fold other_aliases.
  rewrite (dict_del_id other_aliases) by (intros; apply H, elem_of_app; by left).
  unfold get_or_null. rewrite !H by (apply elem_of_app; left; unfold other_aliases; set_solver). simpl.
  rewrite reasoning_step_id by (intros; apply H, elem_of_app; by right). apply set_nonempty_id.
Qed.

Lemma tier_step_get p k : k ≠ "service_tier" → dict_get (_normalize_service_tier_aliases p) k = dict_get p k.
Proof.
  intros H. unfold _normalize_service_tier_aliases. destruct (_normalize_service_tier_alias_value _); try done.
  rewrite dict_get_set. by rewrite (proj2 (String.eqb_neq _ _) H).
Qed.

Lemma tier_value_idem v : _normalize_service_tier_alias_value (_normalize_service_tier_alias_value v) = _normalize_service_tier_alias_value v.
Proof. destruct v as [| | | |s| |]; try done. simpl. destruct (String.eqb _ _) eqn:E; [done|]. simpl. by rewrite E. Qed.

Lemma tier_step_own p : get_or_null "service_tier" (_normalize_service_tier_aliases p) =
  _normalize_service_tier_alias_value (get_or_null "service_tier" p).
Proof.
  unfold _normalize_service_tier_aliases. destruct (_normalize_service_tier_alias_value _) eqn:E;
    try (destruct (get_or_null "service_tier" p); simpl in E; try done; by destruct (String.eqb _ _)).
  unfold get_or_null. by rewrite dict_get_set.
Qed.

Lemma tier_step_id p : _normalize_service_tier_alias_value (get_or_null "service_tier" p) = get_or_null "service_tier" p →
  _normalize_service_tier_aliases p = p.
Proof.
  intros H. unfold _normalize_service_tier_aliases. rewrite H. unfold get_or_null in *.
  destruct (dict_get p "service_tier") as [v|] eqn:E; simpl; [|done]. destruct v; try done. by apply dict_set_id.
Qed.

Lemma input_step_get p q k : _sanitize_interleaved_reasoning_input p = Ok q → k ≠ "input" → dict_get q k = dict_get p k.
Proof.
  unfold _sanitize_interleaved_reasoning_input. destruct (get_list "input" p) as [l|]; [|by intros [= <-]].
  rewrite res_bind_ok. intros (r & _ & [= <-]) Hk. rewrite dict_get_set. by rewrite (proj2 (String.eqb_neq _ _) Hk).
Qed.

Lemma get_list_cong k (p q : dict json) : dict_get p k = dict_get q k → get_list k p = get_list k q.
Proof. intros H. unfold get_list. by rewrite H. Qed.

Lemma input_step_fixed p q r : _sanitize_interleaved_reasoning_input p = Ok q → dict_get r "input" = dict_get q "input" →
  _sanitize_interleaved_reasoning_input r = Ok r.
Proof.
  unfold _sanitize_interleaved_reasoning_input. intros H Hr. rewrite (get_list_cong "input" r q Hr).
  destruct (get_list "input" p) as [l|] eqn:E.
  - apply res_bind_ok in H as (x & Hx & [= <-]). unfold get_list. rewrite dict_get_set in *. simpl in *.
    rewrite (sanitize_items_fixed _ _ Hx). simpl. by rewrite dict_set_id.
  - injection H as <-. by rewrite E.
Qed.

Lemma tools_step_get p k : k ≠ "tools" → dict_get (_canonicalize_tools p) k = dict_get p k.
Proof.
  intros H. unfold _canonicalize_tools. destruct (get_list "tools" p) as [[|t l]|]; try done.
  rewrite dict_get_set. by rewrite (proj2 (String.eqb_neq _ _) H).
Qed.

Lemma tools_step_fixed p r : (∀ l, get_list "tools" p = Some l → Forall value l) →
  dict_get r "tools" = dict_get (_canonicalize_tools p) "tools" → _canonicalize_tools r = r.
Proof.
  intros Hv Hr. unfold _canonicalize_tools at 1. rewrite (get_list_cong "tools" _ _ Hr).
  unfold _canonicalize_tools in Hr |- *. destruct (get_list "tools" p) as [[|t l]|] eqn:E.
  - by rewrite E.
  - rewrite dict_get_set in Hr. simpl in Hr. unfold get_list. rewrite dict_get_set. simpl String.eqb. cbv iota.
    change (map _sort_keys_recursive (order_by (asc _tool_sort_key) (t :: l))) with (canonical_tools (t :: l)) in *.
    destruct (canonical_tools (t :: l)) as [|x xs] eqn:Ec; [done|]. rewrite <- Ec in *.
    change (map _sort_keys_recursive (order_by (asc _tool_sort_key) ?y)) with (canonical_tools y).
    rewrite canonical_tools_fixed by by apply Hv. by apply dict_set_id.
  - by rewrite E.
Qed.

(** A string is in a list of constants. *)
Ltac in_list := apply mem_spec; vm_compute; reflexivity.

Lemma value_tools p l : value (JObj p) → get_list "tools" p = Some l → Forall value l.
Proof.
  unfold value, get_list. rewrite wf_obj, Forall_forall. intros [_ Hp].
  destruct (dict_get p "tools") as [[| | | | |l'|]|] eqn:E; try done. intros [= ->].
  apply dict_get_Some_in, Hp in E as [_ E]. by apply wf_list in E.
Qed.

(** The payload sent upstream is in canonical form: the fields upstream does
    not support and the spellings of other clients are gone, every other
    member is as the client sent it, and preparing the payload again changes
    nothing. *)
Theorem payload_canonical p q
    (Hp : value (JObj p)) (H : _strip_unsupported_fields p = Ok q) :
  (∀ k, k ∈ UNSUPPORTED_UPSTREAM_FIELDS ++ other_aliases ++ reasoning_aliases → dict_get q k = None) ∧
  (∀ k, k ∉ UNSUPPORTED_UPSTREAM_FIELDS ++ other_aliases ++ reasoning_aliases ++ rewritten_members → dict_get q k = dict_get p k) ∧
  _strip_unsupported_fields q = Ok q.
Proof.
  unfold _strip_unsupported_fields in H. set (p1 := _normalize_openai_compatible_aliases p) in *.
  set (p2 := _normalize_service_tier_aliases p1) in *. apply res_bind_ok in H as (p3 & H3 & H4).
  set (p4 := _canonicalize_tools p3) in *. assert (q = fold_left dict_del UNSUPPORTED_UPSTREAM_FIELDS p4) as Eq by congruence.
  assert (∀ k, dict_get q k = if mem k UNSUPPORTED_UPSTREAM_FIELDS then None else dict_get p4 k) as Hq by (intros; rewrite Eq; apply dict_get_del_all).
  assert (∀ k, k ∉ ["service_tier"; "input"; "tools"] → dict_get p4 k = dict_get p1 k) as H41.
  { intros k. rewrite !not_elem_of_cons. intros (? & ? & ? & _). unfold p4. rewrite tools_step_get, (input_step_get _ _ _ H3) by done.
    by apply tier_step_get. }
  assert (∀ k, k ∈ other_aliases ++ reasoning_aliases → dict_get q k = None) as Hal.
  { intros k Hk. rewrite Hq. destruct (mem k UNSUPPORTED_UPSTREAM_FIELDS); [done|].
    assert (k ∉ ["service_tier"; "input"; "tools"] ∧ k ∉ ["reasoning"; "text"; "prompt_cache_key"; "prompt_cache_retention"]) as [Hk1 Hk2].
    { unfold other_aliases, reasoning_aliases in Hk. simpl in Hk. rewrite !elem_of_cons, elem_of_nil in Hk.
      destruct Hk as [->|[->|[->|[->|[->|[->|[->|[->|[]]]]]]]]]; split; intros Hx%mem_spec; by vm_compute in Hx. }
    rewrite H41 by done. unfold p1. rewrite alias_step_get by done. apply mem_spec in Hk. by rewrite Hk. }
  split_and!.
  - intros k [Hk|Hk]%elem_of_app; [|by apply Hal]. rewrite Hq. apply mem_spec in Hk. by rewrite Hk.
  - intros k. rewrite !not_elem_of_app. intros (Hu & Ho & Hr & Hm). rewrite Hq.
    destruct (mem k UNSUPPORTED_UPSTREAM_FIELDS) eqn:E; [by apply mem_spec in E|].
    unfold rewritten_members in Hm. rewrite !not_elem_of_cons in Hm. destruct Hm as (? & ? & ? & ? & ? & ? & _).
    rewrite H41 by (rewrite !not_elem_of_cons; split_and!; first [done|apply not_elem_of_nil]). unfold p1. rewrite alias_step_get.
    + destruct (mem k (other_aliases ++ reasoning_aliases)) eqn:Em; [|reflexivity]. apply mem_spec, elem_of_app in Em. tauto.
    + rewrite !not_elem_of_cons. split_and!; first [done|apply not_elem_of_nil|intros ->; apply Hu; in_list].
  - assert (∀ k, k ∈ ["service_tier"; "input"; "tools"] → dict_get q k = dict_get p4 k) as Hq4.
    { intros k Hk. rewrite Hq. rewrite !elem_of_cons, elem_of_nil in Hk. by destruct Hk as [->|[->|[->|[]]]]. }
    unfold _strip_unsupported_fields. rewrite alias_step_id by done. rewrite tier_step_id.
    2:{ assert (get_or_null "service_tier" q = get_or_null "service_tier" p2) as ->.
        { unfold get_or_null. rewrite Hq4 by in_list. unfold p4. by rewrite tools_step_get, (input_step_get _ _ _ H3). }
        unfold p2. rewrite tier_step_own. apply tier_value_idem. }
    rewrite (input_step_fixed _ _ q H3) by (rewrite Hq4 by in_list; by apply tools_step_get). simpl res_bind.
    rewrite (tools_step_fixed p3 q); [|..].
    + f_equal. apply (dict_del_id UNSUPPORTED_UPSTREAM_FIELDS). intros k Hk. rewrite Hq. apply mem_spec in Hk. by rewrite Hk.
    + intros l Hl. apply (value_tools p); [done|]. rewrite <- Hl. apply get_list_cong. rewrite (input_step_get _ _ _ H3) by done.
      unfold p2. rewrite tier_step_get by done. unfold p1. rewrite alias_step_get; [done|].
      rewrite !not_elem_of_cons. split_and!; first [done|apply not_elem_of_nil].
    + apply Hq4. in_list.
Qed.

(** ** Samples *)

Definition tool_ab (name : string) : json := JObj [("name", JStr name); ("strict", JBool true)].
Definition tool_ba (name : string) : json := JObj [("strict", JBool true); ("name", JStr name)].
Definition sample_payload (tools : list json) : dict json :=
  [("model", JStr "gpt-5"); ("temperature", JInt 1); ("reasoningEffort", JStr "high"); ("service_tier", JStr "Fast");
   ("input", JList [JObj [("role", JStr "assistant"); ("content", JStr "ok"); ("reasoning_content", JStr "x")]]);
   ("tools", JList tools)].

(** What is read back from its own text is a value. *)
Lemma read_back_value v : loads (dumps v) = Some v → value v.
Proof. apply loads_value. Qed.

Lemma tools_canonical_witness :
  get_list "tools" (_canonicalize_tools (sample_payload [tool_ab "f"; tool_ab "a"])) =
  get_list "tools" (_canonicalize_tools (sample_payload [tool_ba "a"; tool_ba "f"])).
Proof.
  apply (tools_canonical (sample_payload [tool_ab "f"; tool_ab "a"]) (sample_payload [tool_ba "a"; tool_ba "f"])
           [tool_ab "f"; tool_ab "a"] [tool_ba "a"; tool_ba "f"]).
  - repeat (apply Forall_cons; split); try apply Forall_nil_2; apply read_back_value; vm_compute; reflexivity.
  - repeat (apply Forall_cons; split); try apply Forall_nil_2; apply read_back_value; vm_compute; reflexivity.
  - apply (bool_decide_unpack _). vm_compute. exact I.
  - reflexivity.
  - reflexivity.
  - exists [tool_ab "a"; tool_ab "f"]. split; [apply Permutation_swap|repeat constructor].
Defined.

Definition prepared (p : dict json) : dict json := match _strip_unsupported_fields p with Ok q => q | Err _ => [] end.

Lemma payload_canonical_witness :
  let q := prepared (sample_payload [tool_ba "a"]) in
  dict_get q "temperature" = None ∧ dict_get q "model" = Some (JStr "gpt-5") ∧ _strip_unsupported_fields q = Ok q.
Proof.
  destruct (payload_canonical (sample_payload [tool_ba "a"]) (prepared (sample_payload [tool_ba "a"]))) as (H1 & H2 & H3).
  - apply read_back_value. vm_compute. reflexivity.
  - vm_compute. reflexivity.
  - split; [|split]; [|vm_compute; reflexivity|exact H3]. apply H1, mem_spec. vm_compute. reflexivity.
Defined.

End ResponsesFacts.
