(* ===== verification/ChatResponses.v ===== *)
(** Responses-API events turned into chat completions,
    [src/app/core/openai/chat_responses.py]: the slots of tool calls, the chunks of a
    streamed completion, and the completion collected from a whole stream.

    A generator is a function to the list of what it yields; a state it shares
    with its caller is passed and returned.  The clock reading [created] is an
    argument. *)

From S2P Require Import Prelude Json Sse Requests.
Import Json.Json Sse.Sse Sse.OpenAIModels Requests.JsonOps.

Module ChatResponses.

(** ** The chat schema *)

Record ChatToolCallFunction := { fn_name : option string; fn_arguments : option string }.
Record ChatToolCallDelta := { td_index : nat; td_id : option string; td_type : string; td_function : option ChatToolCallFunction }.
Record ChatChunkDelta := {
  cd_role : option string; cd_content : option string; cd_refusal : option string; cd_tool_calls : option (list ChatToolCallDelta) }.
Record ChatChunkChoice := { cc_delta : ChatChunkDelta; cc_finish_reason : option string }.
Record ChatPromptTokensDetails := { pd_cached_tokens : option Z }.
Record ChatCompletionTokensDetails := { xd_reasoning_tokens : option Z }.
Record ChatCompletionUsage := {
  prompt_tokens : option Z; completion_tokens : option Z; chat_total_tokens : option Z;
  prompt_tokens_details : option ChatPromptTokensDetails; completion_tokens_details : option ChatCompletionTokensDetails }.
Record ChatCompletionChunk := {
  ck_created : Z; ck_model : string; ck_choices : list ChatChunkChoice; ck_usage : option ChatCompletionUsage }.
Record ChatMessageToolCall := { mt_id : option string; mt_type : string; mt_function : option ChatToolCallFunction }.
Record ChatCompletionMessage := {
  ms_content : option string; ms_refusal : option string; ms_tool_calls : option (list ChatMessageToolCall) }.
Record ChatCompletionChoice := { ch_message : ChatCompletionMessage; ch_finish_reason : option string }.
Record ChatCompletion := {
  co_id : string; co_created : Z; co_model : string; co_choices : list ChatCompletionChoice; co_usage : option ChatCompletionUsage }.

Inductive ChatCompletionResult := Completed (c : ChatCompletion) | Failed (e : OpenAIErrorEnvelope).

(** *** [model_dump(mode="json", exclude_none=True)] *)

Definition field {A} (k : string) (f : A → json) (o : option A) : list (string * json) :=
  match o with Some a => [(k, f a)] | None => [] end.
Definition dump_nat (n : nat) : json := JInt (Z.of_nat n).

Definition dump_function (f : ChatToolCallFunction) : json :=
  JObj (field "name" JStr (fn_name f) ++ field "arguments" JStr (fn_arguments f)).
Definition dump_tool_delta (t : ChatToolCallDelta) : json :=
  JObj ([("index", dump_nat (td_index t))] ++ field "id" JStr (td_id t) ++ [("type", JStr (td_type t))]
        ++ field "function" dump_function (td_function t)).
Definition dump_delta (d : ChatChunkDelta) : json :=
  JObj (field "role" JStr (cd_role d) ++ field "content" JStr (cd_content d) ++ field "refusal" JStr (cd_refusal d)
        ++ field "tool_calls" (λ l, JList (map dump_tool_delta l)) (cd_tool_calls d)).
Definition dump_choice (c : ChatChunkChoice) : json :=
  JObj ([("index", JInt 0); ("delta", dump_delta (cc_delta c))] ++ field "finish_reason" JStr (cc_finish_reason c)).
Definition dump_usage (u : ChatCompletionUsage) : json :=
  JObj (field "prompt_tokens" JInt (prompt_tokens u) ++ field "completion_tokens" JInt (completion_tokens u)
        ++ field "total_tokens" JInt (chat_total_tokens u)
        ++ field "prompt_tokens_details" (λ p, JObj (field "cached_tokens" JInt (pd_cached_tokens p))) (prompt_tokens_details u)
        ++ field "completion_tokens_details" (λ x, JObj (field "reasoning_tokens" JInt (xd_reasoning_tokens x)))
             (completion_tokens_details u)).
Definition dump_chunk_payload (c : ChatCompletionChunk) : dict json :=
  [("id", JStr "chatcmpl_temp"); ("object", JStr "chat.completion.chunk"); ("created", JInt (ck_created c));
   ("model", JStr (ck_model c)); ("choices", JList (map dump_choice (ck_choices c)))]
  ++ field "usage" dump_usage (ck_usage c).

Definition _dump_sse (payload : dict json) : string := format_sse_data payload.

Definition _dump_chunk (chunk : ChatCompletionChunk) (include_usage : bool) : string :=
  let payload := dump_chunk_payload chunk in
  _dump_sse (if include_usage && negb (has "usage" payload) then dict_set payload "usage" JNull else payload).

(** ** Slots of tool calls *)

Record ToolCallIndex := { indexes : gmap string nat; next_index : nat; output_index_map : gmap Z nat }.
Definition new_index : ToolCallIndex := {| indexes := ∅; next_index := 0; output_index_map := ∅ |}.

Definition _tool_call_key (call_id name : option string) : option string :=
  match call_id, name with
  | Some (String c s), _ => Some ("id:" ++ String c s)%string
  | _, Some (String c s) => Some ("name:" ++ String c s)%string
  | _, _ => None
  end.

(** [index_for] has no caller; [index_for_output_index] routes every event. *)
Definition index_for (ix : ToolCallIndex) (call_id name : option string) : ToolCallIndex * nat :=
  match _tool_call_key call_id name with
  | None => (ix, 0)
  | Some key =>
      match indexes ix !! key with
      | Some i => (ix, i)
      | None => (ix {{ indexes := <[key := next_index ix]> (indexes ix); next_index := S (next_index ix) }}, next_index ix)
      end
  end.

Definition index_for_output_index (ix : ToolCallIndex) (output_index : option Z) (call_id name : option string)
    : ToolCallIndex * nat :=
  let key := _tool_call_key call_id name in
  match match output_index with Some o => output_index_map ix !! o | None => None end with
  | Some idx =>
      (match key with
       | Some k => match indexes ix !! k with Some _ => ix | None => ix {{ indexes := <[k := idx]> (indexes ix) }} end
       | None => ix
       end, idx)
  | None =>
      match key with
      | None =>
          match output_index with
          | Some o =>
              let idx := next_index ix in
              (ix {{ output_index_map := <[o := idx]> (output_index_map ix); next_index := Nat.max (next_index ix) (S idx) }}, idx)
          | None => (ix, 0)
          end
      | Some k =>
          let '(ix, idx) := match indexes ix !! k with
                            | Some i => (ix, i)
                            | None => (ix {{ indexes := <[k := next_index ix]> (indexes ix); next_index := S (next_index ix) }},
                                       next_index ix)
                            end in
          (match output_index with
           | Some o => ix {{ output_index_map := <[o := idx]> (output_index_map ix) }}
           | None => ix
           end, idx)
      end
  end.

Definition register_alias (ix : ToolCallIndex) (alias_id : string) (index : nat) : ToolCallIndex :=
  let key := ("id:" ++ alias_id)%string in
  match indexes ix !! key with Some _ => ix | None => ix {{ indexes := <[key := index]> (indexes ix) }} end.

Definition register_output_index (ix : ToolCallIndex) (output_index : Z) (index : nat) : ToolCallIndex :=
  match output_index_map ix !! output_index with
  | Some _ => ix
  | None => ix {{ output_index_map := <[output_index := index]> (output_index_map ix) }}
  end.

(** ** Deltas and the state of a call *)

Inductive arguments_mode := Append | Replace.

Record ToolCallDelta := {
  dl_index : nat; dl_call_id : option string; dl_name : option string; dl_arguments : option string;
  dl_tool_type : option string; dl_mode : arguments_mode }.

Record ToolCallState := {
  tc_index : nat; tc_call_id : option string; tc_name : option string; tc_arguments : string; tc_tool_type : string;
  emitted_call_id : option string; emitted_name : option string; emitted_arguments : string; emitted_tool_type : option string }.
Definition new_call (index : nat) : ToolCallState :=
  {| tc_index := index; tc_call_id := None; tc_name := None; tc_arguments := ""; tc_tool_type := "function";
     emitted_call_id := None; emitted_name := None; emitted_arguments := ""; emitted_tool_type := None |}.

(** [value or other] for strings. *)
Definition or_text (o : option string) (other : string) : string := match o with Some (String c s) => String c s | _ => other end.

Definition _build_tool_call_function (name arguments : option string) : option ChatToolCallFunction :=
  match name, arguments with None, None => None | _, _ => Some {| fn_name := name; fn_arguments := arguments |} end.

Definition to_chunk_call (d : ToolCallDelta) : ChatToolCallDelta :=
  {| td_index := dl_index d; td_id := dl_call_id d; td_type := or_text (dl_tool_type d) "function";
     td_function := _build_tool_call_function (dl_name d) (dl_arguments d) |}.

Definition apply_delta (s : ToolCallState) (d : ToolCallDelta) : ToolCallState :=
  let s := match dl_call_id d with Some (String c t) => s {{ tc_call_id := Some (String c t) }} | _ => s end in
  let s := match dl_name d with Some (String c t) => s {{ tc_name := Some (String c t) }} | _ => s end in
  let s := match dl_arguments d with
           | Some a => match dl_mode d with
                       | Replace => s {{ tc_arguments := a }}
                       | Append => s {{ tc_arguments := (tc_arguments s ++ a)%string }}
                       end
           | None => s
           end in
  match dl_tool_type d with Some (String c t) => s {{ tc_tool_type := String c t }} | _ => s end.

Definition _pending_stream_value (emitted current : option string) : option string :=
  match current with
  | None => None
  | Some c => if bool_decide (emitted = Some c) then None else Some c
  end.

Definition _pending_stream_arguments (emitted current : string) : option string :=
  if String.eqb current "" || String.eqb current emitted then None
  else if String.eqb emitted "" then Some current
  else match strip_prefix emitted current with Some suffix => none_if_empty suffix | None => None end.

(** The delta to send, and the state with what has been sent. *)
Definition build_stream_delta (s : ToolCallState) : ToolCallState * option ToolCallDelta :=
  let call_id := _pending_stream_value (emitted_call_id s) (tc_call_id s) in
  let name := _pending_stream_value (emitted_name s) (tc_name s) in
  let arguments := _pending_stream_arguments (emitted_arguments s) (tc_arguments s) in
  let tool_type := or_text (Some (tc_tool_type s)) "function" in
  if bool_decide (call_id = None) && bool_decide (name = None) && bool_decide (arguments = None)
     && bool_decide (emitted_tool_type s = Some tool_type)
  then (s, None)
  else
    (s {{ emitted_call_id := match call_id with Some _ => tc_call_id s | None => emitted_call_id s end;
          emitted_name := match name with Some _ => tc_name s | None => emitted_name s end;
          emitted_arguments := match arguments with Some _ => tc_arguments s | None => emitted_arguments s end;
          emitted_tool_type := Some tool_type }},
     Some {| dl_index := tc_index s; dl_call_id := call_id; dl_name := name; dl_arguments := arguments;
             dl_tool_type := Some tool_type; dl_mode := Append |}).

Definition to_message_tool_call (s : ToolCallState) : option ChatMessageToolCall :=
  let function := _build_tool_call_function (tc_name s) (none_if_empty (tc_arguments s)) in
  match tc_call_id s, function with
  | None, None => None
  | _, _ => Some {| mt_id := tc_call_id s; mt_type := or_text (Some (tc_tool_type s)) "function"; mt_function := function |}
  end.

(** The list is extended up to the slot, which takes the delta. *)
Definition extend_calls (calls : list ToolCallState) (index : nat) : list ToolCallState :=
  calls ++ map new_call (seq (length calls) (S index - length calls)).
Definition _merge_tool_call_delta (calls : list ToolCallState) (d : ToolCallDelta) : list ToolCallState :=
  alter (λ s, apply_delta s d) (dl_index d) (extend_calls calls (dl_index d)).

Definition _compact_tool_calls (calls : list ToolCallState) : list ChatMessageToolCall := omap to_message_tool_call calls.

(** ** Reading a tool call from an event *)

(** A bool is an int. *)
Definition _resolve_output_index (payload : dict json) : option Z :=
  match get_or_null "output_index" payload with
  | JInt n => Some n
  | JBool b => Some (if b then 1 else 0)%Z
  | _ => None
  end.

Fixpoint _first_str (values : list json) : option string :=
  match values with
  | [] => None
  | JStr (String c s) :: _ => Some (String c s)
  | _ :: rest => _first_str rest
  end.

Definition any_key (keys : list string) (d : dict json) : bool := existsb (λ k, has k d) keys.
Definition CALL_KEYS : list string := ["call_id"; "tool_call_id"; "arguments"; "function"; "name"].

(** An [item] that describes a call. *)
Definition call_item (item : dict json) : bool :=
  match get_str "type" item with Some t => contains "tool" t || contains "function" t | None => false end
  || any_key CALL_KEYS item.

Definition _is_tool_call_event (payload : dict json) : bool :=
  match get_str "type" payload with Some t => contains "tool_call" t || contains "function_call" t | None => false end
  || match get_obj "item" payload with Some item => call_item item | None => false end
  || any_key ["call_id"; "tool_call_id"] payload
  || has "arguments" payload && (has "name" payload || has "function" payload).

Definition _select_tool_call_candidate (payload : dict json) : dict json :=
  match get_obj "item" payload with Some item => if call_item item then item else payload | None => payload end.

Definition or_else {A} (a b : option A) : option A := match a with Some x => Some x | None => b end.

(** Call id, name, arguments and type. *)
Definition _extract_tool_call_fields (payload : dict json)
    : option (option string * option string * option string * option string) :=
  let candidate := _select_tool_call_candidate payload in
  let g k := get_or_null k candidate in
  let delta_map := get_obj "delta" candidate in
  let dg k := match delta_map with Some m => get_or_null k m | None => JNull end in
  let function_of d := match d with Some m => get_obj "function" m | None => None end in
  let member k f := match f with Some m => get_or_null k m | None => JNull end in
  let call_id := or_else (_first_str [g "call_id"; g "tool_call_id"; g "id"]) (_first_str [dg "id"; dg "call_id"; dg "tool_call_id"]) in
  let name := or_else (_first_str [g "name"; g "tool_name"])
    (or_else (_first_str [dg "name"])
      (or_else (_first_str [member "name" (get_obj "function" candidate)])
        (_first_str [member "name" (function_of delta_map)]))) in
  let text v := match v with JStr s => Some s | _ => None end in
  let arguments := or_else (text (g "arguments"))
    (or_else (text (g "delta"))
      (or_else (text (dg "arguments")) (text (member "arguments" (function_of delta_map))))) in
  let tool_type := _first_str [g "tool_type"; g "type"] in
  let tool_type := match tool_type with Some t => if startswith "response." t then None else Some t | None => None end in
  let tool_type := match tool_type with Some t => if mem t ["tool_call"; "function_call"] then Some "function" else Some t | None => None end in
  match call_id, name, arguments with None, None, None => None | _, _, _ => Some (call_id, name, arguments, tool_type) end.

Definition _tool_call_arguments_mode (payload : dict json) : arguments_mode :=
  match get_str "type" payload with Some t => if endswith ".delta" t then Append else Replace | None => Replace end.

Definition _register_item_id_alias (payload : dict json) (index : nat) (ix : ToolCallIndex) : ToolCallIndex :=
  match get_obj "item" payload with
  | None => ix
  | Some item =>
      let ix := match get_str "id" item with
                | Some (String c s) => if is_str (String c s) (get_or_null "call_id" item) then ix
                                       else register_alias ix (String c s) index
                | _ => ix
                end in
      match _resolve_output_index payload with Some o => register_output_index ix o index | None => ix end
  end.

Definition _tool_call_delta_from_payload (payload : dict json) (ix : ToolCallIndex) : ToolCallIndex * option ToolCallDelta :=
  if negb (_is_tool_call_event payload) then (ix, None)
  else match _extract_tool_call_fields payload with
  | None => (ix, None)
  | Some (call_id, name, arguments, tool_type) =>
      let routing_id := or_else call_id
        (_first_str [get_or_null "item_id" payload; match get_obj "item" payload with Some item => get_or_null "id" item | None => JNull end]) in
      let '(ix, index) := index_for_output_index ix (_resolve_output_index payload) routing_id name in
      (_register_item_id_alias payload index ix,
       Some {| dl_index := index; dl_call_id := call_id; dl_name := name; dl_arguments := arguments; dl_tool_type := tool_type;
               dl_mode := _tool_call_arguments_mode payload |})
  end.

(** ** Usage, errors and the end of a response *)

Definition _map_usage (usage : option ResponseUsage) : option ChatCompletionUsage :=
  match usage with
  | None => None
  | Some u =>
      match input_tokens u, output_tokens u, total_tokens u with
      | None, None, None => None
      | _, _, _ =>
          let cached := match input_tokens_details u with Some d => cached_tokens d | None => None end in
          let reasoning := match output_tokens_details u with Some d => reasoning_tokens d | None => None end in
          Some {| prompt_tokens := input_tokens u; completion_tokens := output_tokens u; chat_total_tokens := total_tokens u;
                  prompt_tokens_details := option_map (λ n, {| pd_cached_tokens := Some n |}) cached;
                  completion_tokens_details := option_map (λ n, {| xd_reasoning_tokens := Some n |}) reasoning |}
      end
  end.

Definition _parse_usage (value : json) : option ResponseUsage :=
  match value with JObj d => validate_ResponseUsage d | _ => None end.

Definition _finish_reason_from_incomplete (response : json) : string :=
  match response with
  | JObj r =>
      match get_obj "incomplete_details" r with
      | Some details =>
          let reason := get_or_null "reason" details in
          if str_in reason ["max_output_tokens"; "max_tokens"] then "length"
          else if is_str "content_filter" reason then "content_filter" else "stop"
      | None => "stop"
      end
  | _ => "stop"
  end.

Definition _default_error_envelope : OpenAIErrorEnvelope :=
  {| env_error := Some {| err_message := Some "Upstream error"; err_type := Some "server_error"; err_code := Some "upstream_error";
                          err_param := None; err_plan_type := None; err_resets_at := None; err_resets_in_seconds := None |} |}.

(** [float(text)]: a run of digits with single underscores between them. *)
Fixpoint take_under (s : string) : list N * string :=
  match s with
  | String c r =>
      match char_digit c with
      | Some d =>
          match r with
          | String "_" ((String c2 _) as r2) =>
              match char_digit c2 with
              | Some _ => let '(ds, rest) := take_under r2 in (d :: ds, rest)
              | None => ([d], r)
              end
          | _ => let '(ds, rest) := take_under r in (d :: ds, rest)
          end
      | None => ([], s)
      end
  | "" => ([], "")
  end.

(** A sign and the rest. *)
Definition split_sign (s : string) : bool * string :=
  match s with String "-" r => (true, r) | String "+" r => (false, r) | _ => (false, s) end.

Definition float_of (s : string) : option pyfloat :=
  let '(neg, r) := split_sign (py_lower (py_strip s)) in
  if mem r ["inf"; "infinity"] then Some (FInf neg)
  else if String.eqb r "nan" then Some FNaN
  else
    let '(whole, r) := take_under r in
    let '(fraction, r) := match r with String "." t => take_under t | _ => ([], r) end in
    let '(exponent, r) :=
      match r with
      | String "e" t => let '(eneg, t) := split_sign t in
                        let '(es, t) := take_under t in
                        (match es with
                         | [] => None
                         | _ => Some (if eneg then (- Z.of_N (digits_value es))%Z else Z.of_N (digits_value es))
                         end, t)
      | _ => (Some 0%Z, r)
      end in
    match whole ++ fraction, exponent, r with
    | _ :: _, Some e, "" => Some (make_dec neg (digits_value (whole ++ fraction)) (e - Z.of_nat (length fraction)))
    | _, _, _ => None
    end.

Definition _coerce_number (value : json) : option json :=
  match value with
  | JInt _ | JFloat _ | JBool _ => Some value
  | JStr s => option_map JFloat (float_of s)
  | _ => None
  end.

Definition _normalize_error_payload (payload : dict json) : dict json :=
  omap (λ k, option_map (λ s, (k, JStr s)) (get_str k payload)) ["message"; "type"; "code"; "param"; "plan_type"]
  ++ omap (λ k, option_map (λ v, (k, v)) (_coerce_number (get_or_null k payload))) ["resets_at"; "resets_in_seconds"].

Definition _error_envelope_from_payload (payload : dict json) : OpenAIErrorEnvelope :=
  match _normalize_error_payload payload with
  | [] => _default_error_envelope
  | normalized => match validate_OpenAIError normalized with
                  | Some e => {| env_error := Some e |}
                  | None => _default_error_envelope
                  end
  end.

(** The error an event of type [response.failed] or [error] carries. *)
Definition event_error (event_type : string) (payload : dict json) : option (dict json) :=
  if String.eqb event_type "response.failed"
  then match get_obj "response" payload with Some response => get_obj "error" response | None => None end
  else get_obj "error" payload.

Definition failure_event (t : string) : bool := mem t ["response.failed"; "error"].
Definition final_event (t : string) : bool := mem t ["response.completed"; "response.incomplete"].

(** ** Streaming *)

(** What the generator yields, before it is written out. *)
Inductive output := Chunk (c : ChatCompletionChunk) | ErrorPayload (error : dict json) | Done.

Definition render (include_usage : bool) (o : output) : string :=
  match o with
  | Chunk c => _dump_chunk c include_usage
  | ErrorPayload error => _dump_sse [("error", JObj error)]
  | Done => ("data: [DONE]" ++ newline ++ newline)%string
  end.

Record _ChatChunkState := {
  tool_index : ToolCallIndex; tool_calls : list ToolCallState; saw_tool_call : bool; sent_role : bool }.
Definition new_state : _ChatChunkState :=
  {| tool_index := new_index; tool_calls := []; saw_tool_call := false; sent_role := false |}.

Section Stream.
Context (model : string) (created : Z) (include_usage : bool).

Definition chunk (choices : list ChatChunkChoice) (usage : option ChatCompletionUsage) : output :=
  Chunk {| ck_created := created; ck_model := model; ck_choices := choices; ck_usage := usage |}.
Definition delta_chunk (d : ChatChunkDelta) : output := chunk [{| cc_delta := d; cc_finish_reason := None |}] None.

(** The role goes with the first delta. *)
Definition role_of (st : _ChatChunkState) : option string := if sent_role st then None else Some "assistant".

(** Text and refusal deltas. *)
Definition text_step (event_type : string) (payload : dict json) (st : _ChatChunkState) : _ChatChunkState * list output :=
  if mem event_type ["response.output_text.delta"; "response.refusal.delta"] then
    let text := get_str "delta" payload in
    let refusal := String.eqb event_type "response.refusal.delta" in
    (st {{ sent_role := true }},
     [delta_chunk {| cd_role := role_of st; cd_content := if refusal then None else text;
                     cd_refusal := if refusal then text else None; cd_tool_calls := None |}])
  else (st, []).

(** What is pending for one call is sent. *)
Definition emit_call (st : _ChatChunkState) (i : nat) : _ChatChunkState * list output :=
  match tool_calls st !! i with
  | None => (st, [])
  | Some call =>
      let '(call, delta) := build_stream_delta call in
      match delta with
      | None => (st, [])
      | Some d =>
          (st {{ tool_calls := <[i := call]> (tool_calls st); saw_tool_call := true; sent_role := true }},
           [delta_chunk {| cd_role := role_of st; cd_content := None; cd_refusal := None; cd_tool_calls := Some [to_chunk_call d] |}])
      end
  end.

Definition tool_step (payload : dict json) (st : _ChatChunkState) : _ChatChunkState * list output :=
  let '(ix, delta) := _tool_call_delta_from_payload payload (tool_index st) in
  let st := st {{ tool_index := ix }} in
  match delta with
  | None => (st, [])
  | Some d => emit_call (st {{ tool_calls := _merge_tool_call_delta (tool_calls st) d }}) (dl_index d)
  end.

(** The calls are flushed in order. *)
Fixpoint flush_calls (st : _ChatChunkState) (slots : list nat) : _ChatChunkState * list output :=
  match slots with
  | [] => (st, [])
  | i :: rest => let '(st, out) := emit_call st i in
                 let '(st, outs) := flush_calls st rest in (st, out ++ outs)
  end.

Definition final_step (event_type : string) (payload : dict json) (st : _ChatChunkState) : _ChatChunkState * list output :=
  let '(st, flushed) := flush_calls st (seq 0 (length (tool_calls st))) in
  let usage := match get_obj "response" payload with
               | Some response => if include_usage then _map_usage (_parse_usage (get_or_null "usage" response)) else None
               | None => None
               end in
  let finish_reason := if saw_tool_call st then "tool_calls"
                       else if String.eqb event_type "response.incomplete"
                       then _finish_reason_from_incomplete (get_or_null "response" payload) else "stop" in
  let no_delta := {| cd_role := None; cd_content := None; cd_refusal := None; cd_tool_calls := None |} in
  (st, flushed ++ [chunk [{| cc_delta := no_delta; cc_finish_reason := Some finish_reason |}] None]
       ++ (if include_usage then [chunk [] usage] else []) ++ [Done]).

(** One line: the state, what is yielded, and whether the generator returns. *)
Definition line_step (line : string) (st : _ChatChunkState) : _ChatChunkState * list output * bool :=
  match parse_sse_data_json line with
  | None | Some [] => (st, [], false)
  | Some payload =>
      let event_type := default "" (get_str "type" payload) in
      let '(st, texts) := text_step event_type payload st in
      let '(st, tools) := tool_step payload st in
      match (if failure_event event_type then event_error event_type payload else None) with
      | Some error => (st, texts ++ tools ++ [ErrorPayload error; Done], true)
      | None =>
          if final_event event_type
          then let '(st, final) := final_step event_type payload st in (st, texts ++ tools ++ final, true)
          else (st, texts ++ tools, false)
      end
  end.

Fixpoint iter_chat_chunks (lines : list string) (st : _ChatChunkState) : _ChatChunkState * list output :=
  match lines with
  | [] => (st, [])
  | line :: rest =>
      let '(st, out, returned) := line_step line st in
      if returned then (st, out)
      else let '(st, outs) := iter_chat_chunks rest st in (st, out ++ outs)
  end.

(** The outputs up to the one that is the terminal text. *)
Definition is_terminal (o : output) : bool := String.eqb (py_strip (render include_usage o)) "data: [DONE]".
Fixpoint until_terminal (outs : list output) : list output * bool :=
  match outs with
  | [] => ([], false)
  | o :: rest => if is_terminal o then ([o], true) else let '(l, b) := until_terminal rest in (o :: l, b)
  end.

(** The asynchronous wrapper: one line at a time, and nothing after the
    terminal chunk. *)
Fixpoint stream_from (lines : list string) (st : _ChatChunkState) (terminal_chunk_sent : bool) : list output :=
  match lines with
  | [] => []
  | line :: rest =>
      if terminal_chunk_sent then stream_from rest st true
      else let '(st, outs) := iter_chat_chunks [line] st in
           let '(sent, terminal) := until_terminal outs in
           sent ++ stream_from rest st terminal
  end.
Definition stream_chat_chunks (lines : list string) : list output := stream_from lines new_state false.

(** ** Collecting *)

Record collected := {
  content_parts : list string; refusal_parts : list string; response_id : option string; col_usage : option ResponseUsage;
  incomplete_reason : option string; col_index : ToolCallIndex; col_calls : list ToolCallState }.
Definition nothing_collected : collected :=
  {| content_parts := []; refusal_parts := []; response_id := None; col_usage := None; incomplete_reason := None;
     col_index := new_index; col_calls := [] |}.

(** What a finished response adds. *)
Definition collect_final (event_type : string) (payload : dict json) (c : collected) : collected :=
  match get_obj "response" payload with
  | None => c
  | Some response =>
      let c := match get_str "id" response with Some id => c {{ response_id := Some id }} | None => c end in
      let c := c {{ col_usage := _parse_usage (get_or_null "usage" response) }} in
      if String.eqb event_type "response.incomplete"
      then c {{ incomplete_reason := Some (_finish_reason_from_incomplete (JObj response)) }} else c
  end.

Definition collect_tool (payload : dict json) (c : collected) : collected :=
  let '(ix, delta) := _tool_call_delta_from_payload payload (col_index c) in
  let c := c {{ col_index := ix }} in
  match delta with Some d => c {{ col_calls := _merge_tool_call_delta (col_calls c) d }} | None => c end.

(** One line: the state, or the error that ends the collection. *)
Definition collect_step (line : string) (c : collected) : collected + OpenAIErrorEnvelope :=
  match parse_sse_data_json line with
  | None | Some [] => inl c
  | Some payload =>
      let event_type := default "" (get_str "type" payload) in
      let part := match get_str "delta" payload with Some s => [s] | None => [] end in
      let c := if String.eqb event_type "response.output_text.delta" then c {{ content_parts := content_parts c ++ part }} else c in
      let c := if String.eqb event_type "response.refusal.delta" then c {{ refusal_parts := refusal_parts c ++ part }} else c in
      let c := collect_tool payload c in
      if failure_event event_type then
        inr (match event_error event_type payload with
             | Some error => _error_envelope_from_payload error
             | None => _default_error_envelope
             end)
      else inl (if final_event event_type then collect_final event_type payload c else c)
  end.

Fixpoint collect_lines (lines : list string) (c : collected) : collected + OpenAIErrorEnvelope :=
  match lines with
  | [] => inl c
  | line :: rest => match collect_step line c with inl c => collect_lines rest c | inr e => inr e end
  end.

Definition completion_of (c : collected) : ChatCompletion :=
  let content := String.concat "" (content_parts c) in
  let refusal := none_if_empty (String.concat "" (refusal_parts c)) in
  let calls := _compact_tool_calls (col_calls c) in
  let has_calls := negb (bool_decide (length calls = 0)) in
  let finish_reason := if has_calls then "tool_calls" else or_text (incomplete_reason c) "stop" in
  let content := if (has_calls || bool_decide (is_Some refusal)) && String.eqb content "" then None else Some content in
  {| co_id := or_text (response_id c) "chatcmpl_temp"; co_created := created; co_model := model;
     co_choices := [{| ch_message := {| ms_content := content; ms_refusal := refusal;
                                        ms_tool_calls := if has_calls then Some calls else None |};
                       ch_finish_reason := Some finish_reason |}];
     co_usage := _map_usage (col_usage c) |}.

Definition collect_chat_completion (lines : list string) : ChatCompletionResult :=
  match collect_lines lines nothing_collected with inl c => Completed (completion_of c) | inr e => Failed e end.

End Stream.

End ChatResponses.
