(* ===== verification/ChatFacts.v ===== *)
(** Theorems about [ChatResponses]: what a streaming client has put together
    is what the collected completion holds. *)

From S2P Require Import Prelude Json Sse Requests ChatResponses.
Import Json.Json Json.JsonFacts Sse.Sse Sse.OpenAIModels Requests.JsonOps ChatResponses.ChatResponses.

Module ChatFacts.

(** ** The client's view *)

(** What a client has put together of one tool call: the last id and name it
    was sent, and the argument fragments in order. *)
Record client_call := { cl_id : option string; cl_name : option string; cl_args : string }.
Definition no_call : client_call := {| cl_id := None; cl_name := None; cl_args := "" |}.

Definition deltas_of (o : output) : list ChatToolCallDelta :=
  match o with
  | Chunk c => flat_map (λ ch, default [] (cd_tool_calls (cc_delta ch))) (ck_choices c)
  | _ => []
  end.

Definition client_step (i : nat) (acc : client_call) (d : ChatToolCallDelta) : client_call :=
  if Nat.eqb (td_index d) i then
    {| cl_id := or_else (td_id d) (cl_id acc);
       cl_name := or_else (match td_function d with Some f => fn_name f | None => None end) (cl_name acc);
       cl_args := (cl_args acc ++ match td_function d with Some f => default "" (fn_arguments f) | None => "" end)%string |}
  else acc.

Definition client (i : nat) (outs : list output) : client_call := fold_left (client_step i) (flat_map deltas_of outs) no_call.

(** The text and the refusal it has been sent. *)
Definition texts_of (f : ChatChunkDelta → option string) (o : output) : list string :=
  match o with Chunk c => omap (λ ch, f (cc_delta ch)) (ck_choices c) | _ => [] end.
Definition text_sent (f : ChatChunkDelta → option string) (outs : list output) : string := String.concat "" (flat_map (texts_of f) outs).

Lemma concat_app l1 l2 : String.concat "" (l1 ++ l2) = (String.concat "" l1 ++ String.concat "" l2)%string.
Proof.
  assert (∀ x l, String.concat "" (x :: l) = (x ++ String.concat "" l)%string) as Hc.
  { intros x [|y l]; simpl; [by rewrite app_empty_r|]. by rewrite app_empty. }
  induction l1 as [|x l1 IH]; [done|]. rewrite <- app_comm_cons, !Hc, IH. by rewrite app_assoc'.
Qed.

Lemma text_sent_app f a b : text_sent f (a ++ b) = (text_sent f a ++ text_sent f b)%string.
Proof. unfold text_sent. by rewrite flat_map_app, concat_app. Qed.

Lemma text_sent_cons f o outs : text_sent f (o :: outs) = (String.concat "" (texts_of f o) ++ text_sent f outs)%string.
Proof. apply (text_sent_app f [o] outs) || (unfold text_sent; simpl; by rewrite concat_app). Qed.

Lemma client_app i a b : client i (a ++ b) = fold_left (client_step i) (flat_map deltas_of b) (client i a).
Proof. unfold client. by rewrite flat_map_app, fold_left_app. Qed.

Lemma client_other i a b : flat_map deltas_of b = [] → client i (a ++ b) = client i a.
Proof. intros H. by rewrite client_app, H. Qed.

(** ** What has been sent is what the call says it is *)

Definition sent_of (s : ToolCallState) : client_call :=
  {| cl_id := emitted_call_id s; cl_name := emitted_name s; cl_args := emitted_arguments s |}.

(** Nothing is marked as sent that the call does not have. *)
Definition sent_known (s : ToolCallState) : Prop :=
  (tc_call_id s = None → emitted_call_id s = None) ∧ (tc_name s = None → emitted_name s = None).

Record synced (st : _ChatChunkState) (outs : list output) : Prop := {
  sy_slot : ∀ i s, tool_calls st !! i = Some s → tc_index s = i ∧ client i outs = sent_of s ∧ sent_known s;
  sy_free : ∀ i, tool_calls st !! i = None → client i outs = no_call;
}.

Lemma strip_prefix_app p s r : strip_prefix p s = Some r → s = (p ++ r)%string.
Proof.
  revert s. induction p as [|c p IH]; intros s; [by intros [= ->]|]. destruct s as [|d s]; [done|]. simpl.
  destruct (Ascii.eqb_spec c d) as [->|]; [|done]. intros H%IH. by rewrite app_cons, H.
Qed.

Lemma pending_value e c v : _pending_stream_value e c = Some v → c = Some v.
Proof. unfold _pending_stream_value. destruct c; [|done]. by case_bool_decide. Qed.

Lemma pending_value_none e c : _pending_stream_value e c = None → c = None ∨ e = c.
Proof. unfold _pending_stream_value. destruct c; [|by left]. case_bool_decide; [by right|done]. Qed.

Lemma pending_arguments e c v : _pending_stream_arguments e c = Some v → c = (e ++ v)%string.
Proof.
  unfold _pending_stream_arguments. destruct (_ || _); [done|]. destruct (String.eqb_spec e "") as [->|].
  - intros [= ->]. done.
  - destruct (strip_prefix e c) as [r|] eqn:E; [|done]. unfold none_if_empty. destruct (String.eqb r ""); [done|].
    intros [= ->]. by apply strip_prefix_app.
Qed.

Lemma strip_prefix_refl s : strip_prefix s s = Some "".
Proof. induction s as [|c s IH]; [done|]. simpl. by rewrite Ascii.eqb_refl. Qed.

Lemma pending_arguments_none e c : _pending_stream_arguments e c = None → e = c ∨ strip_prefix e c = None.
Proof.
  unfold _pending_stream_arguments. destruct (String.eqb_spec c "") as [->|Hc]; simpl.
  { intros _. destruct e; [by left|by right]. }
  destruct (String.eqb_spec c e) as [->|Hne]; [by left|]. destruct (String.eqb_spec e "") as [->|He]; [done|].
  destruct (strip_prefix e c) as [r|] eqn:E; [|by right]. unfold none_if_empty.
  destruct (String.eqb_spec r "") as [->|]; [|done]. apply strip_prefix_app in E. rewrite app_empty_r in E. congruence.
Qed.

(** After sending what is pending, what is sent is what there is. *)
Lemma value_sent e c : (c = None → e = None) →
  match _pending_stream_value e c with Some _ => c | None => e end = c ∧ or_else (_pending_stream_value e c) e = c.
Proof.
  intros H. destruct (_pending_stream_value e c) as [v|] eqn:E; [by apply pending_value in E as ->|].
  apply pending_value_none in E as [->| ->]; [rewrite H by done|]; done.
Qed.

Lemma arguments_sent e c : let e' := match _pending_stream_arguments e c with Some _ => c | None => e end in
  e' = (e ++ default "" (_pending_stream_arguments e c))%string ∧ (e' = c ∨ strip_prefix e' c = None).
Proof.
  destruct (_pending_stream_arguments e c) as [v|] eqn:E; simpl.
  - apply pending_arguments in E. auto.
  - rewrite app_empty_r. split; [done|]. by apply pending_arguments_none.
Qed.

(** What a call is, apart from what has been sent of it. *)
Definition core (s : ToolCallState) : nat * option string * option string * string * string :=
  (tc_index s, tc_call_id s, tc_name s, tc_arguments s, tc_tool_type s).

Lemma core_refl (l : list ToolCallState) : Forall2 (λ s t, core s = core t) l l.
Proof. induction l as [|s l IH]; [constructor|constructor; [done|exact IH]]. Qed.

Lemma core_trans (a b c : list ToolCallState) :
  Forall2 (λ s t, core s = core t) a b → Forall2 (λ s t, core s = core t) b c → Forall2 (λ s t, core s = core t) a c.
Proof.
  intros H. revert c. induction H as [|x y a b Hxy _ IH]; intros c Hc; [done|].
  apply Forall2_cons_inv_l in Hc as (z & c' & Hz & Hc & ->). constructor; [congruence|auto].
Qed.

(** A call whose pending parts have been sent. *)
Definition flushed (s : ToolCallState) : Prop :=
  emitted_call_id s = tc_call_id s ∧ emitted_name s = tc_name s ∧
  (emitted_arguments s = tc_arguments s ∨ strip_prefix (emitted_arguments s) (tc_arguments s) = None).

Lemma build_spec s s' d : build_stream_delta s = (s', d) → sent_known s →
  core s' = core s ∧ sent_known s' ∧ flushed s' ∧
  sent_of s' = match d with Some d => client_step (tc_index s) (sent_of s) (to_chunk_call d) | None => sent_of s end ∧
  (∀ d', d = Some d' → dl_index d' = tc_index s).
Proof.
  intros H [Hk1 Hk2]. unfold build_stream_delta in H.
  destruct (value_sent _ _ Hk1) as [V1 V2]. destruct (value_sent _ _ Hk2) as [V3 V4].
  destruct (arguments_sent (emitted_arguments s) (tc_arguments s)) as [A1 A2].
  set (pi := _pending_stream_value (emitted_call_id s) (tc_call_id s)) in *.
  set (pn := _pending_stream_value (emitted_name s) (tc_name s)) in *.
  set (pa := _pending_stream_arguments (emitted_arguments s) (tc_arguments s)) in *. clearbody pi pn pa.
  destruct (_ && _) eqn:Ec; injection H as <- <-.
  - rewrite !andb_true_iff, !bool_decide_eq_true in Ec. destruct Ec as [[[-> ->] ->] _]. simpl in *.
    split_and!; [done|done|by split_and!|done|done].
  - split_and!; [done|split; simpl; intros; [by rewrite V1|by rewrite V3]|by split_and!| |by intros d' [= <-]].
    unfold sent_of, client_step. simpl. rewrite Nat.eqb_refl. f_equal; [congruence| |].
    + unfold _build_tool_call_function. destruct pn, pa; simpl in *; congruence.
    + rewrite A1. unfold _build_tool_call_function. by destruct pn, pa.
Qed.

Lemma client_step_other i acc d : td_index d ≠ i → client_step i acc d = acc.
Proof. intros H. unfold client_step. by rewrite (proj2 (Nat.eqb_neq _ _) H). Qed.

Section Facts.
Context (model : string) (created : Z) (include_usage : bool).
Notation emit_call := (emit_call model created).
Notation text_step := (text_step model created).
Notation tool_step := (tool_step model created).
Notation flush_calls := (flush_calls model created).

Lemma emit_call_spec st i st' out outs : emit_call st i = (st', out) → synced st outs →
  synced st' (outs ++ out) ∧ tool_index st' = tool_index st ∧ Forall2 (λ s t, core s = core t) (tool_calls st') (tool_calls st) ∧
  (∀ s, tool_calls st' !! i = Some s → flushed s) ∧
  (∀ j s, j ≠ i → tool_calls st' !! j = Some s → tool_calls st !! j = Some s) ∧
  (∀ f, (f = cd_content ∨ f = cd_refusal) → text_sent f out = "").
Proof.
  unfold ChatResponses.emit_call. intros H [Hslot Hfree].
  pose proof core_refl as Hrefl.
  destruct (tool_calls st !! i) as [s|] eqn:Ei.
  2:{ injection H as <- <-. rewrite app_nil_r. split_and!; try done. by rewrite Ei. }
  destruct (Hslot i s Ei) as (Hidx & Hcl & Hk). destruct (build_stream_delta s) as [s' d] eqn:Eb.
  destruct (build_spec _ _ _ Eb Hk) as (B1 & B2 & B3 & B4 & B5). destruct d as [d|]; injection H as <- <-.
  - assert (dl_index d = i) as Hd by (rewrite <- Hidx; by apply B5). split_and!.
    + split; simpl.
      * intros j t Hj. destruct (decide (j = i)) as [->|Hne].
        -- rewrite list_lookup_insert_eq in Hj by (by eapply lookup_lt_Some). injection Hj as <-.
           assert (tc_index s' = i) as Hi' by (injection B1; congruence). split_and!; [done| |done].
           rewrite client_app. simpl. rewrite Hcl, B4, Hidx. done.
        -- rewrite list_lookup_insert_ne in Hj by done. destruct (Hslot j t Hj) as (? & Hc & ?). split_and!; [done| |done].
           rewrite client_app, Hc. simpl. by rewrite client_step_other by (simpl; congruence).
      * intros j Hj. destruct (decide (j = i)) as [->|Hne].
        -- rewrite list_lookup_insert_eq in Hj by (by eapply lookup_lt_Some). done.
        -- rewrite list_lookup_insert_ne in Hj by done. rewrite client_app, (Hfree j Hj). simpl.
           by rewrite client_step_other by (simpl; congruence).
    + done.
    + simpl. rewrite <- (list_insert_id (tool_calls st) i s Ei) at 2. by apply Forall2_insert.
    + simpl. intros t Ht. rewrite list_lookup_insert_eq in Ht by (by eapply lookup_lt_Some). by injection Ht as <-.
    + simpl. intros j t Hne Hj. by rewrite list_lookup_insert_ne in Hj.
    + intros f [->| ->]; reflexivity.
  - assert (s' = s) as -> by (unfold build_stream_delta in Eb; destruct (_ && _); by injection Eb).
    rewrite app_nil_r. split_and!; try done. intros t. rewrite Ei. by intros [= <-].
Qed.

(** Flushing a list of slots sends everything pending there. *)
Lemma flush_calls_spec slots (F : nat → Prop) : ∀ st st' out outs, flush_calls st slots = (st', out) → synced st outs →
  (∀ i s, F i → tool_calls st !! i = Some s → flushed s) →
  synced st' (outs ++ out) ∧ Forall2 (λ s t, core s = core t) (tool_calls st') (tool_calls st) ∧
  (∀ i s, F i ∨ i ∈ slots → tool_calls st' !! i = Some s → flushed s) ∧
  (∀ f, (f = cd_content ∨ f = cd_refusal) → text_sent f out = "").
Proof.
  revert F. induction slots as [|i slots IH]; intros F st st' out outs H Hs HF; cbn [ChatResponses.flush_calls] in H.
  - injection H as <- <-. rewrite app_nil_r. split_and!; [done|apply core_refl| |by intros f [->| ->]].
    intros j s [Hj|Hj%elem_of_nil]; [by apply HF|done].
  - destruct (emit_call st i) as [st1 o1] eqn:E1. destruct (flush_calls st1 slots) as [st2 o2] eqn:E2. injection H as <- <-.
    destruct (emit_call_spec _ _ _ _ _ E1 Hs) as (S1 & _ & C1 & F1 & N1 & T1).
    destruct (IH (λ j, F j ∨ j = i) _ _ _ _ E2 S1) as (S2 & C2 & F2 & T2).
    { intros j s Hj Hl. destruct (decide (j = i)) as [->|Hne]; [by apply F1|]. destruct Hj as [Hj|Hj]; [|done].
      apply (HF j); [done|]. by apply N1. }
    rewrite app_assoc. split_and!; [done| | |].
    + eapply core_trans; [exact C2|exact C1].
    + intros j s Hj. apply F2. rewrite elem_of_cons in Hj. tauto.
    + intros f Hf. by rewrite text_sent_app, T1, T2.
Qed.

(** ** Merging a delta *)

Lemma apply_delta_sent s d : tc_index (apply_delta s d) = tc_index s ∧ sent_of (apply_delta s d) = sent_of s ∧
  (sent_known s → sent_known (apply_delta s d)).
Proof.
  unfold apply_delta, sent_of, sent_known.
  destruct (dl_call_id d) as [[|]|], (dl_name d) as [[|]|], (dl_arguments d), (dl_mode d), (dl_tool_type d) as [[|]|]; simpl;
    (split_and!; [done..|]); intros [? ?]; (split; done).
Qed.

Lemma apply_delta_core s t d : core s = core t → core (apply_delta s d) = core (apply_delta t d).
Proof.
  destruct s, t. unfold core. simpl. intros [= -> -> -> -> ->]. unfold apply_delta.
  destruct (dl_call_id d) as [[|]|], (dl_name d) as [[|]|], (dl_arguments d), (dl_mode d), (dl_tool_type d) as [[|]|]; done.
Qed.

Lemma extend_calls_lookup calls n i :
  extend_calls calls n !! i =
  match calls !! i with Some s => Some s | None => if decide (i <= n)%nat then Some (new_call i) else None end.
Proof.
  unfold extend_calls. destruct (calls !! i) as [s|] eqn:E; [by apply lookup_app_l_Some|].
  apply lookup_ge_None in E. rewrite lookup_app_r by done. rewrite list_lookup_fmap_eq || rewrite list_lookup_fmap.
  case_decide as Hd.
  - rewrite lookup_seq_lt by lia. simpl. do 2 f_equal. lia.
  - rewrite lookup_seq_ge by lia. done.
Qed.

Lemma merge_lookup calls d i :
  _merge_tool_call_delta calls d !! i =
  if decide (i = dl_index d) then Some (apply_delta (default (new_call i) (calls !! i)) d)
  else match calls !! i with Some s => Some s | None => if decide (i <= dl_index d)%nat then Some (new_call i) else None end.
Proof.
  unfold _merge_tool_call_delta. case_decide as Hi.
  - subst i. rewrite list_lookup_alter_eq, extend_calls_lookup. destruct (calls !! dl_index d); simpl; [done|].
    rewrite decide_True by done. done.
  - rewrite list_lookup_alter_ne by done. apply extend_calls_lookup.
Qed.

Lemma merge_synced st d outs : synced st outs → synced (st {{ tool_calls := _merge_tool_call_delta (tool_calls st) d }}) outs.
Proof.
  intros [Hslot Hfree].
  assert (∀ i, tc_index (new_call i) = i ∧ no_call = sent_of (new_call i) ∧ sent_known (new_call i)) as Hnew by done.
  split; simpl; intros i.
  - intros s. rewrite merge_lookup. case_decide as Hi.
    + intros [= <-]. destruct (apply_delta_sent (default (new_call i) (tool_calls st !! i)) d) as (-> & -> & Hk).
      destruct (tool_calls st !! i) as [t|] eqn:E; simpl in *.
      * destruct (Hslot i t E) as (? & ? & ?). split_and!; auto.
      * rewrite (Hfree i E). destruct (Hnew i) as (? & ? & ?). split_and!; auto.
    + destruct (tool_calls st !! i) as [t|] eqn:E; [intros [= <-]; by apply Hslot|]. case_decide; [|done]. intros [= <-].
      rewrite (Hfree i E). apply Hnew.
  - rewrite merge_lookup. case_decide; [done|]. destruct (tool_calls st !! i) eqn:E; [done|]. intros _. by apply Hfree.
Qed.

Lemma merge_core a b d : Forall2 (λ s t, core s = core t) a b →
  Forall2 (λ s t, core s = core t) (_merge_tool_call_delta a d) (_merge_tool_call_delta b d).
Proof.
  rewrite !Forall2_lookup. intros H i. rewrite !merge_lookup. specialize (H i). case_decide.
  - constructor. apply apply_delta_core. by destruct H.
  - destruct H; [by constructor|]. case_decide; by constructor.
Qed.

(** ** The two readings of a stream go together *)

(** The streaming state after [outs] and the collected state are the same
    calls, texts and slots. *)
Record together (st : _ChatChunkState) (outs : list output) (c : collected) : Prop := {
  to_synced : synced st outs;
  to_index : tool_index st = col_index c;
  to_calls : Forall2 (λ s t, core s = core t) (tool_calls st) (col_calls c);
  to_content : text_sent cd_content outs = String.concat "" (content_parts c);
  to_refusal : text_sent cd_refusal outs = String.concat "" (refusal_parts c);
}.

(** The first part of both loops: the text of the event. *)
Definition collect_text (event_type : string) (payload : dict json) (c : collected) : collected :=
  let part := match get_str "delta" payload with Some s => [s] | None => [] end in
  let c := if String.eqb event_type "response.output_text.delta" then c {{ content_parts := content_parts c ++ part }} else c in
  if String.eqb event_type "response.refusal.delta" then c {{ refusal_parts := refusal_parts c ++ part }} else c.

Lemma text_step_together ty p st outs c st' out :
  text_step ty p st = (st', out) → together st outs c → together st' (outs ++ out) (collect_text ty p c).
Proof.
  unfold ChatResponses.text_step, collect_text. intros H [T1 T2 T3 T4 T5].
  destruct (String.eqb_spec ty "response.output_text.delta") as [->|H1].
  - injection H as <- <-. destruct T1 as [S1 S2]. split; simpl; try done.
    + split; simpl; intros i; [intros s Hs|intros Hs]; rewrite client_other by done; auto.
    + rewrite text_sent_app, T4, concat_app. by destruct (get_str "delta" p).
    + by rewrite text_sent_app, T5, app_empty_r.
  - destruct (String.eqb_spec ty "response.refusal.delta") as [->|H2].
    + injection H as <- <-. destruct T1 as [S1 S2]. split; simpl; try done.
      * split; simpl; intros i; [intros s Hs|intros Hs]; rewrite client_other by done; auto.
      * by rewrite text_sent_app, T4, app_empty_r.
      * rewrite text_sent_app, T5, concat_app. by destruct (get_str "delta" p).
    + assert (mem ty ["response.output_text.delta"; "response.refusal.delta"] = false) as Hm.
      { destruct (mem _ _) eqn:E; [|done]. apply mem_spec in E. rewrite !elem_of_cons, elem_of_nil in E. naive_solver. }
      rewrite Hm in H. injection H as <- <-. by rewrite app_nil_r.
Qed.

Lemma tool_step_together p st outs c st' out :
  tool_step p st = (st', out) → together st outs c → together st' (outs ++ out) (collect_tool p c).
Proof.
  unfold ChatResponses.tool_step, collect_tool. intros H [T1 T2 T3 T4 T5]. rewrite T2 in H.
  destruct (_tool_call_delta_from_payload p (col_index c)) as [ix [d|]].
  - set (st1 := st {{ tool_index := ix }} {{ tool_calls := _ }}) in H. cbv zeta in H.
    assert (synced st1 outs) as S1 by (destruct (merge_synced _ d _ T1) as [? ?]; by split).
    destruct (emit_call_spec _ _ _ _ _ H S1) as (S2 & I2 & C2 & _ & _ & X2). split; simpl; try done.
    + eapply core_trans; [exact C2|]. by apply merge_core.
    + rewrite text_sent_app, X2, app_empty_r by auto. done.
    + rewrite text_sent_app, X2, app_empty_r by auto. done.
  - injection H as <- <-. rewrite app_nil_r. split; simpl; try done. by destruct T1.
Qed.

Definition line_payload (line : string) : option (dict json) :=
  match parse_sse_data_json line with Some (p :: ps) => Some (p :: ps) | _ => None end.
Definition line_type (line : string) : string :=
  match line_payload line with Some p => default "" (get_str "type" p) | None => "" end.

(** A line that ends nothing. *)
Lemma line_together line st outs c c' st' out ret :
  collect_step line c = inl c' → final_event (line_type line) = false → line_step model created include_usage line st = (st', out, ret) →
  together st outs c → ret = false ∧ together st' (outs ++ out) c'.
Proof.
  unfold collect_step, line_step, line_type, line_payload.
  destruct (parse_sse_data_json line) as [[|p ps]|]; [by intros [= <-] _ [= <- <- <-]; rewrite app_nil_r| |
    by intros [= <-] _ [= <- <- <-]; rewrite app_nil_r].
  set (payload := p :: ps). set (ty := default "" (get_str "type" payload)). fold (collect_text ty payload c). cbv zeta.
  intros Hc Hf Hl Ht. destruct (failure_event ty) eqn:Ef; [done|]. rewrite Hf in Hc, Hl. injection Hc as <-.
  destruct (text_step ty payload st) as [st1 o1] eqn:E1. destruct (tool_step payload st1) as [st2 o2] eqn:E2.
  injection Hl as <- <- <-. split; [done|]. rewrite app_assoc.
  eapply tool_step_together; [exact E2|]. by eapply text_step_together.
Qed.

(** ** The end of a stream *)

Definition is_chunk (o : output) : Prop := ∃ c, o = Chunk c.

Lemma rstrip_keep c s : is_space c = false → rstrip (String c s) = String c (rstrip s).
Proof. intros H. simpl. destruct (rstrip s); [by rewrite H|done]. Qed.

Lemma rstrip_more c s : rstrip s ≠ "" → rstrip (String c s) = String c (rstrip s).
Proof. simpl. by destruct (rstrip s). Qed.

(** Only the terminal text is taken for it. *)
Lemma data_not_terminal p : String.eqb (py_strip (format_sse_data p)) "data: [DONE]" = false.
Proof.
  apply String.eqb_neq. unfold format_sse_data, dumps_ascii. cbn [write]. set (rest := (commas _ ++ "}")%string).
  assert (∀ t, rstrip ("data: {" ++ t) = ("data: {" ++ rstrip t)%string) as H.
  { intros t. assert (rstrip (String "{" t) = String "{" (rstrip t)) as Hb by by apply rstrip_keep.
    assert (rstrip (String " " (String "{" t)) = String " " (String "{" (rstrip t))) as Hs by (rewrite rstrip_more; by rewrite Hb).
    rewrite !app_cons, app_empty. rewrite (rstrip_keep "d"), (rstrip_keep "a"), (rstrip_keep "t"), (rstrip_keep "a"), (rstrip_keep ":") by done.
    by rewrite Hs. }
  replace ("data: " ++ ("{" ++ rest) ++ newline ++ newline)%string with ("data: {" ++ (rest ++ newline ++ newline))%string by done.
  unfold py_strip. replace (lstrip ("data: {" ++ (rest ++ newline ++ newline))) with ("data: {" ++ (rest ++ newline ++ newline))%string by done.
  rewrite H. by rewrite !app_cons.
Qed.

Lemma chunk_not_terminal o : is_chunk o → is_terminal include_usage o = false.
Proof. intros [c ->]. unfold is_terminal. simpl render. unfold _dump_chunk, _dump_sse. apply data_not_terminal. Qed.

Lemma until_chunks outs : Forall is_chunk outs → until_terminal include_usage outs = (outs, false).
Proof. induction 1 as [|o outs Ho _ IH]; [done|]. cbn [until_terminal]. by rewrite chunk_not_terminal, IH. Qed.

Lemma until_done outs e : Forall is_chunk outs → e = [Done] ∨ (∃ error, e = [ErrorPayload error; Done]) →
  until_terminal include_usage (outs ++ e) = (outs ++ e, true).
Proof.
  intros H He. induction H as [|o outs Ho _ IH]; cbn [app until_terminal].
  - assert (is_terminal include_usage Done = true) as Hd by (by vm_compute). destruct He as [->|[error ->]]; cbn [until_terminal]; rewrite Hd; [done|].
    assert (is_terminal include_usage (ErrorPayload error) = false) as -> by apply data_not_terminal. done.
  - by rewrite chunk_not_terminal, IH.
Qed.

Lemma emit_chunks st i : Forall is_chunk (emit_call st i).2.
Proof.
  unfold ChatResponses.emit_call. destruct (tool_calls st !! i) as [s|]; [|constructor]. destruct (build_stream_delta s) as [s' [d|]]; simpl.
  - constructor; [by eexists|constructor].
  - constructor.
Qed.

Lemma flush_chunks slots st : Forall is_chunk (flush_calls st slots).2.
Proof.
  revert st. induction slots as [|i slots IH]; intros st; cbn [ChatResponses.flush_calls]; [constructor|].
  pose proof (emit_chunks st i) as H1. destruct (emit_call st i) as [st1 o1]. specialize (IH st1).
  destruct (flush_calls st1 slots) as [st2 o2]. by apply Forall_app.
Qed.

(** What a line yields: chunks, and the end exactly when the generator
    returns. *)
Lemma line_outputs line st st' out ret : line_step model created include_usage line st = (st', out, ret) →
  if ret then ∃ a e, out = a ++ e ∧ Forall is_chunk a ∧ (e = [Done] ∨ ∃ error, e = [ErrorPayload error; Done]) else Forall is_chunk out.
Proof.
  unfold line_step. destruct (parse_sse_data_json line) as [[|p ps]|]; [by intros [= <- <- <-]| |by intros [= <- <- <-]].
  set (payload := p :: ps). set (ty := default "" (get_str "type" payload)). cbv zeta.
  assert (Forall is_chunk (text_step ty payload st).2) as H1.
  { unfold ChatResponses.text_step. destruct (mem _ _); simpl; [constructor; [by eexists|constructor]|constructor]. }
  destruct (text_step ty payload st) as [st1 o1].
  assert (Forall is_chunk (tool_step payload st1).2) as H2.
  { unfold ChatResponses.tool_step. destruct (_tool_call_delta_from_payload _ _) as [ix [d|]]; [apply emit_chunks|constructor]. }
  destruct (tool_step payload st1) as [st2 o2]. simpl in H1, H2.
  destruct (if failure_event ty then _ else None) as [error|].
  - intros [= <- <- <-]. exists (o1 ++ o2), [ErrorPayload error; Done]. rewrite app_assoc. split_and!; [done|by apply Forall_app|by eauto].
  - destruct (final_event ty); [|intros [= <- <- <-]; by apply Forall_app]. unfold final_step.
    pose proof (flush_chunks (seq 0 (length (tool_calls st2))) st2) as H3. destruct (flush_calls st2 _) as [st3 o3]. simpl in H3.
    set (u := if include_usage then [chunk model created [] _] else []).
    assert (Forall is_chunk u) as Hu by (unfold u; destruct include_usage; [constructor; [by eexists|constructor]|constructor]).
    clearbody u. intros [= <- <- <-]. eexists (o1 ++ o2 ++ o3 ++ _ :: u), [Done].
    split_and!; [rewrite <- !app_assoc; reflexivity| |by left].
    apply Forall_app_2; [done|]. apply Forall_app_2; [done|]. apply Forall_app_2; [done|]. constructor; [by eexists|done].
Qed.

(** The wrapper that feeds the generator line by line and stops at the
    terminal text yields what the generator yields on the whole stream. *)
Lemma stream_is_iter lines st :
  stream_from model created include_usage lines st false = (iter_chat_chunks model created include_usage lines st).2.
Proof.
  assert (∀ ls st, stream_from model created include_usage ls st true = []) as Hstop by (induction ls; done).
  revert st. induction lines as [|l ls IH]; intros st; [done|]. cbn [stream_from iter_chat_chunks].
  destruct (line_step model created include_usage l st) as [[st' out] ret] eqn:E. apply line_outputs in E. destruct ret.
  - destruct E as (a & e & -> & Ha & He). rewrite until_done by done. by rewrite Hstop, app_nil_r.
  - rewrite app_nil_r, until_chunks by done. rewrite IH. by destruct (iter_chat_chunks _ _ _ ls st').
Qed.

(** ** Agreement *)

Lemma synced_other st outs more : flat_map deltas_of more = [] → synced st outs → synced st (outs ++ more).
Proof. intros H [S1 S2]. split; intros i; [intros s Hs|intros Hs]; rewrite client_other by done; auto. Qed.

Lemma collect_final_same ty p c : col_calls (collect_final ty p c) = col_calls c ∧
  content_parts (collect_final ty p c) = content_parts c ∧ refusal_parts (collect_final ty p c) = refusal_parts c.
Proof. unfold collect_final. destruct (get_obj "response" p) as [r|]; [|done]. by destruct (get_str "id" r), (String.eqb ty "response.incomplete"). Qed.

(** The line that ends the stream sends everything pending. *)
Lemma final_line line st outs c c' st' out ret :
  collect_step line c = inl c' → final_event (line_type line) = true → line_step model created include_usage line st = (st', out, ret) →
  together st outs c →
  ret = true ∧ synced st' (outs ++ out) ∧ Forall2 (λ s t, core s = core t) (tool_calls st') (col_calls c') ∧
  (∀ i s, tool_calls st' !! i = Some s → flushed s) ∧
  text_sent cd_content (outs ++ out) = String.concat "" (content_parts c') ∧
  text_sent cd_refusal (outs ++ out) = String.concat "" (refusal_parts c').
Proof.
  unfold collect_step, line_step, line_type, line_payload.
  destruct (parse_sse_data_json line) as [[|p ps]|]; [done| |done].
  set (payload := p :: ps). set (ty := default "" (get_str "type" payload)). fold (collect_text ty payload c). cbv zeta.
  intros Hc Hf Hl Ht. destruct (failure_event ty) eqn:Ef; [done|]. rewrite Hf in Hc, Hl. injection Hc as <-.
  destruct (text_step ty payload st) as [st1 o1] eqn:E1. destruct (tool_step payload st1) as [st2 o2] eqn:E2.
  apply (text_step_together _ _ _ _ _ _ _ E1), (tool_step_together _ _ _ _ _ _ E2) in Ht. destruct Ht as [T1 T2 T3 T4 T5].
  unfold final_step in Hl. destruct (flush_calls st2 _) as [st3 o3] eqn:E3.
  destruct (flush_calls_spec _ (λ _, False) _ _ _ _ E3 T1) as (S3 & C3 & F3 & X3); [done|].
  set (u := if include_usage then _ else []) in Hl. injection Hl as <- <- <-.
  assert (flat_map deltas_of u = [] ∧ ∀ f, (f = cd_content ∨ f = cd_refusal) → text_sent f u = "") as [Hu1 Hu2].
  { unfold u. destruct include_usage; (split; [done|by intros f [->| ->]]). }
  clearbody u. destruct (collect_final_same ty payload (collect_tool payload (collect_text ty payload c))) as (-> & -> & ->).
  match goal with |- context [o3 ++ ?x :: u ++ [Done]] => set (tail := x :: u ++ [Done]) end.
  assert (flat_map deltas_of tail = [] ∧ ∀ f, (f = cd_content ∨ f = cd_refusal) → text_sent f tail = "") as [Htail1 Htail2].
  { unfold tail. split; [simpl; rewrite flat_map_app, Hu1; done|]. intros f Hf'.
    rewrite text_sent_cons, text_sent_app, Hu2 by done. by destruct Hf' as [->| ->]. }
  rewrite !app_assoc. split_and!; [done|..].
  - by apply synced_other.
  - by eapply core_trans.
  - intros i s Hs. apply (F3 i s); [|done]. right. apply elem_of_seq. apply lookup_lt_Some in Hs.
    apply Forall2_length in C3. lia.
  - rewrite text_sent_app, Htail2, app_empty_r by auto. rewrite text_sent_app, X3, app_empty_r by auto. done.
  - rewrite text_sent_app, Htail2, app_empty_r by auto. rewrite text_sent_app, X3, app_empty_r by auto. done.
Qed.

Lemma lines_together pre last c : ∀ st outs c0,
  together st outs c0 → collect_lines (pre ++ [last]) c0 = inl c →
  Forall (λ l, final_event (line_type l) = false) pre → final_event (line_type last) = true →
  ∃ st' out, iter_chat_chunks model created include_usage (pre ++ [last]) st = (st', out) ∧
    synced st' (outs ++ out) ∧ Forall2 (λ s t, core s = core t) (tool_calls st') (col_calls c) ∧
    (∀ i s, tool_calls st' !! i = Some s → flushed s) ∧
    text_sent cd_content (outs ++ out) = String.concat "" (content_parts c) ∧
    text_sent cd_refusal (outs ++ out) = String.concat "" (refusal_parts c).
Proof.
  induction pre as [|l pre IH]; intros st outs c0 Ht Hc Hp Hl; cbn [app collect_lines iter_chat_chunks] in *.
  - destruct (collect_step last c0) as [c1|] eqn:Ec; [|done]. injection Hc as ->.
    destruct (line_step model created include_usage last st) as [[st' out] ret] eqn:El.
    destruct (final_line _ _ _ _ _ _ _ _ Ec Hl El Ht) as (-> & H). by exists st', out.
  - apply Forall_cons in Hp as [Hp1 Hp]. destruct (collect_step l c0) as [c1|] eqn:Ec; [|done].
    destruct (line_step model created include_usage l st) as [[st1 o1] ret] eqn:El.
    destruct (line_together _ _ _ _ _ _ _ _ Ec Hp1 El Ht) as (-> & Ht1).
    destruct (IH _ _ _ Ht1 Hc Hp Hl) as (st' & out & Hi & H). rewrite Hi. exists st', (o1 ++ out). split; [done|].
    by rewrite app_assoc.
Qed.

(** *** What the client was sent of the arguments *)

(** The arguments sent for a slot are those it has, those sent before, or
    none yet. *)
Definition sent_from (st st' : _ChatChunkState) : Prop :=
  ∀ i s', tool_calls st' !! i = Some s' →
    emitted_arguments s' = tc_arguments s' ∨ emitted_arguments s' = "" ∨
    ∃ s, tool_calls st !! i = Some s ∧ emitted_arguments s' = emitted_arguments s.

Lemma sent_from_same st st' : tool_calls st' = tool_calls st → sent_from st st'.
Proof. intros H i s'. rewrite H. eauto. Qed.

Lemma emit_call_sent st0 st i st' out : emit_call st i = (st', out) → sent_from st0 st → sent_from st0 st'.
Proof.
  unfold ChatResponses.emit_call. intros H Hs. destruct (tool_calls st !! i) as [s|] eqn:Ei; [|by injection H as <- <-].
  destruct (build_stream_delta s) as [s' d] eqn:Eb. destruct d as [d|]; injection H as <- <-; [|done].
  intros j t Hj. simpl in Hj. destruct (decide (j = i)) as [->|Hne].
  - rewrite list_lookup_insert_eq in Hj by (by eapply lookup_lt_Some). injection Hj as <-.
    unfold build_stream_delta in Eb. destruct (_ && _); [done|]. injection Eb as <- _. simpl.
    destruct (_pending_stream_arguments _ _); [by left|]. by apply (Hs i s).
  - rewrite list_lookup_insert_ne in Hj by done. by apply Hs.
Qed.

Lemma flush_calls_sent slots : ∀ st0 st st' out, flush_calls st slots = (st', out) → sent_from st0 st → sent_from st0 st'.
Proof.
  induction slots as [|i slots IH]; intros st0 st st' out H Hs; cbn [ChatResponses.flush_calls] in H; [by injection H as <- <-|].
  destruct (emit_call st i) as [st1 o1] eqn:E1. destruct (flush_calls st1 slots) as [st2 o2] eqn:E2. injection H as <- <-.
  eapply IH; [exact E2|]. by eapply emit_call_sent.
Qed.

Lemma tool_step_sent p st st' out : tool_step p st = (st', out) → sent_from st st'.
Proof.
  unfold ChatResponses.tool_step. destruct (_tool_call_delta_from_payload p (tool_index st)) as [ix [d|]]; intros H.
  - eapply emit_call_sent; [exact H|]. intros i s'. destruct st; simpl. rewrite merge_lookup. case_decide as Hi.
    + intros [= <-]. right.
      assert (∀ t, emitted_arguments (apply_delta t d) = emitted_arguments t) as Happ
        by (intros t; destruct (apply_delta_sent t d) as (_ & Hsent & _); exact (f_equal cl_args Hsent)).
      rewrite Happ. destruct (_ !! i) as [t|]; simpl; [right; eauto|by left].
    + destruct (_ !! i) as [t|]; [intros [= <-]; eauto|]. case_decide; [|done]. intros [= <-]. right. by left.
  - injection H as <- <-. by apply sent_from_same.
Qed.

Lemma line_sent line st st' out ret : line_step model created include_usage line st = (st', out, ret) → sent_from st st'.
Proof.
  unfold line_step. destruct (parse_sse_data_json line) as [[|p ps]|]; [by intros [= <- <- <-]; apply sent_from_same| |
    by intros [= <- <- <-]; apply sent_from_same].
  set (payload := p :: ps). set (ty := default "" (get_str "type" payload)). cbv zeta.
  destruct (text_step ty payload st) as [st1 o1] eqn:E1. destruct (tool_step payload st1) as [st2 o2] eqn:E2.
  assert (sent_from st st2) as H2.
  { assert (tool_calls st1 = tool_calls st) as Hc.
    { unfold ChatResponses.text_step in E1. destruct (mem _ _); by injection E1 as <- _. }
    intros i s' Hs'. destruct (tool_step_sent _ _ _ _ E2 i s' Hs') as [?|[?|(s & Hs & ?)]]; [by left|by right; left|].
    rewrite Hc in Hs. eauto. }
  destruct (if failure_event ty then _ else None); [by intros [= <- _ _]|].
  destruct (final_event ty); [|by intros [= <- _ _]]. unfold final_step.
  destruct (flush_calls st2 _) as [st3 o3] eqn:E3. intros [= <- _ _]. by eapply flush_calls_sent.
Qed.

(** The arguments were those of the call, as collected, after some of the
    lines. *)
Definition were_arguments (lines : list string) (i : nat) (a : string) : Prop :=
  ∃ before after c s, lines = before ++ after ∧ collect_lines before nothing_collected = inl c ∧
    col_calls c !! i = Some s ∧ tc_arguments s = a.

Definition sent_were (lines : list string) (st : _ChatChunkState) : Prop :=
  ∀ i s, tool_calls st !! i = Some s → emitted_arguments s = "" ∨ were_arguments lines i (emitted_arguments s).

Lemma collect_lines_snoc lines line c0 c c' :
  collect_lines lines c0 = inl c → collect_step line c = inl c' → collect_lines (lines ++ [line]) c0 = inl c'.
Proof.
  revert c0. induction lines as [|l lines IH]; intros c0; cbn [app collect_lines]; [by intros [= ->] ->|].
  destruct (collect_step l c0); [apply IH|done].
Qed.

Lemma line_sent_were lines line st st' out ret c' :
  line_step model created include_usage line st = (st', out, ret) → sent_were lines st →
  collect_lines (lines ++ [line]) nothing_collected = inl c' →
  Forall2 (λ s t, core s = core t) (tool_calls st') (col_calls c') → sent_were (lines ++ [line]) st'.
Proof.
  intros Hl Hw Hc Hcore i s' Hs'. destruct (line_sent _ _ _ _ _ Hl i s' Hs') as [He|[He|(s & Hs & He)]].
  - right. destruct (Forall2_lookup_l _ _ _ _ _ Hcore Hs') as (t & Ht & Hct).
    exists (lines ++ [line]), [], c', t. rewrite app_nil_r. split_and!; [done..|]. rewrite He. by injection Hct.
  - by left.
  - rewrite He. destruct (Hw i s Hs) as [?|(x & y & c & t & -> & ? & ? & ?)]; [by left|]. right.
    exists x, (y ++ [line]), c, t. by rewrite app_assoc.
Qed.

Lemma lines_sent pre last c : ∀ done st outs c0 st' out,
  together st outs c0 → collect_lines done nothing_collected = inl c0 → sent_were done st →
  collect_lines (pre ++ [last]) c0 = inl c →
  Forall (λ l, final_event (line_type l) = false) pre → final_event (line_type last) = true →
  iter_chat_chunks model created include_usage (pre ++ [last]) st = (st', out) → sent_were (done ++ pre ++ [last]) st'.
Proof.
  induction pre as [|l pre IH]; intros done st outs c0 st' out Ht Hd Hw Hc Hp Hl Hi;
    cbn [app collect_lines iter_chat_chunks] in *.
  - destruct (collect_step last c0) as [c1|] eqn:Ec; [|done]. injection Hc as ->.
    destruct (line_step model created include_usage last st) as [[st1 o1] ret] eqn:El.
    destruct (final_line _ _ _ _ _ _ _ _ Ec Hl El Ht) as (-> & _ & Hcore & _). injection Hi as <- <-.
    eapply line_sent_were; [exact El|done|by eapply collect_lines_snoc|done].
  - apply Forall_cons in Hp as [Hp1 Hp]. destruct (collect_step l c0) as [c1|] eqn:Ec; [|done].
    destruct (line_step model created include_usage l st) as [[st1 o1] ret] eqn:El.
    destruct (line_together _ _ _ _ _ _ _ _ Ec Hp1 El Ht) as (-> & Ht1).
    destruct (iter_chat_chunks _ _ _ (pre ++ [last]) st1) as [st2 o2] eqn:Ei. injection Hi as <- <-.
    replace (done ++ l :: pre ++ [last]) with ((done ++ [l]) ++ pre ++ [last]) by (by rewrite <- app_assoc).
    pose proof (collect_lines_snoc _ _ _ _ _ Hd Ec) as Hd1.
    eapply IH; [exact Ht1|done| |done..]. eapply line_sent_were; [exact El|done|done|apply Ht1].
Qed.

(** C34. When the collection of the events succeeds and the last event, and no
    other, ends the response, a client that puts the streamed chunks together
    has what the completion collected from the same events holds: the same
    text and refusal, and for each tool call the same id and name and the same
    arguments; if upstream has taken back arguments that were already sent,
    the client has those, exactly as they were collected up to some event. *)
Theorem stream_agrees_with_collection pre last c
    (Hcol : collect_lines (pre ++ [last]) nothing_collected = inl c)
    (Hpre : Forall (λ l, final_event (line_type l) = false) pre) (Hlast : final_event (line_type last) = true) :
  let outs := stream_chat_chunks model created include_usage (pre ++ [last]) in
  text_sent cd_content outs = String.concat "" (content_parts c) ∧
  text_sent cd_refusal outs = String.concat "" (refusal_parts c) ∧
  (∀ i s, col_calls c !! i = Some s →
     cl_id (client i outs) = tc_call_id s ∧ cl_name (client i outs) = tc_name s ∧
     (cl_args (client i outs) = tc_arguments s ∨
      (strip_prefix (cl_args (client i outs)) (tc_arguments s) = None ∧
       were_arguments (pre ++ [last]) i (cl_args (client i outs))))) ∧
  (∀ i, col_calls c !! i = None → client i outs = no_call).
Proof.
  assert (together new_state [] nothing_collected) as Hstart by (split; [split; [done|by intros i _]|done..|constructor|done|done]).
  destruct (lines_together pre last c _ _ _ Hstart Hcol Hpre Hlast) as (st & out & Hi & [S1 S2] & Hcore & Hfl & Hx & Hy).
  assert (sent_were (pre ++ [last]) st) as Hw.
  { apply (lines_sent pre last c [] new_state [] nothing_collected st out); try done. }
  unfold stream_chat_chunks. rewrite stream_is_iter, Hi. simpl in *. split_and!; [done|done|..].
  - intros i s Hs. destruct (Forall2_lookup_r _ _ _ _ _ Hcore Hs) as (t & Ht & Hct). destruct (S1 i t Ht) as (_ & Hcl & _).
    unfold core in Hct. destruct (Hfl i t Ht) as (F1 & F2 & F3). rewrite Hcl. simpl. injection Hct as _ H2 H3 H4 _.
    rewrite <- H2, <- H3, <- H4. split_and!; [done..|]. destruct F3 as [F3|F3]; [by left|]. right. split; [done|].
    destruct (Hw i t Ht) as [He|He]; [by rewrite He in F3|exact He].
  - intros i Hn. apply S2. apply lookup_ge_None in Hn. apply lookup_ge_None. apply Forall2_length in Hcore. lia.
Qed.

(** The stream ends with the terminal text and nothing follows it; before it
    there are only chunks, or one error. *)
Theorem stream_ends_once lines :
  let outs := stream_chat_chunks model created include_usage lines in
  Forall is_chunk outs ∨ ∃ a e, outs = a ++ e ∧ Forall is_chunk a ∧ (e = [Done] ∨ ∃ error, e = [ErrorPayload error; Done]).
Proof.
  unfold stream_chat_chunks. rewrite stream_is_iter. generalize new_state. induction lines as [|l ls IH]; intros st; simpl; [by left|].
  destruct (line_step model created include_usage l st) as [[st' out] ret] eqn:E. apply line_outputs in E. destruct ret; [by right|].
  specialize (IH st'). destruct (iter_chat_chunks _ _ _ ls st') as [st2 o2]. simpl in *. destruct IH as [H|(a & e & -> & Ha & He)].
  - left. by apply Forall_app.
  - right. exists (out ++ a), e. rewrite app_assoc. split_and!; [done|by apply Forall_app|done].
Qed.

End Facts.

(** An event [response.failed] that carries no error object ends a collected
    completion with an error, but a stream says nothing about it: no error and
    no terminal text, whatever the state. *)
Theorem failed_without_error_silent model created include_usage line payload st c
    (Hp : line_payload line = Some payload) (Ht : line_type line = "response.failed")
    (He : event_error "response.failed" payload = None) (Htool : _is_tool_call_event payload = false) :
  line_step model created include_usage line st = (st, [], false) ∧ collect_step line c = inr _default_error_envelope.
Proof.
  unfold line_type in Ht. rewrite Hp in Ht. unfold line_payload in Hp. unfold line_step, collect_step.
  destruct (parse_sse_data_json line) as [[|p ps]|]; try done. injection Hp as <-. rewrite Ht. cbv zeta.
  assert (text_step model created "response.failed" (p :: ps) st = (st, [])) as -> by done.
  assert (tool_step model created (p :: ps) st = (st, [])) as ->.
  { unfold tool_step, _tool_call_delta_from_payload. rewrite Htool. simpl. by destruct st. }
  assert (failure_event "response.failed" = true) as -> by done. rewrite He. split; done.
Qed.

(** ** Slots *)

(** The slots only grow: no id or output index ever changes its slot. *)
Definition slots_le (a b : ToolCallIndex) : Prop := indexes a ⊆ indexes b ∧ output_index_map a ⊆ output_index_map b.

Lemma slots_refl a : slots_le a a.
Proof. by split. Qed.
Lemma slots_trans a b c : slots_le a b → slots_le b c → slots_le a c.
Proof. intros [? ?] [? ?]. split; by etrans. Qed.

Lemma slots_add_key ix k i : indexes ix !! k = None → slots_le ix (ix {{ indexes := <[k := i]> (indexes ix) }}).
Proof. intros H. split; simpl; [by apply insert_subseteq|done]. Qed.

Lemma slots_add_output ix o i : output_index_map ix !! o = None →
  slots_le ix (ix {{ output_index_map := <[o := i]> (output_index_map ix) }}).
Proof. intros H. split; simpl; [done|by apply insert_subseteq]. Qed.

(** The slot of an event, and where it is recorded. *)
Lemma index_for_output_spec ix o cid name ix' i : index_for_output_index ix o cid name = (ix', i) →
  slots_le ix ix' ∧ (∀ x, o = Some x → output_index_map ix' !! x = Some i) ∧
  (∀ k, o = None → _tool_call_key cid name = Some k → indexes ix' !! k = Some i).
Proof.
  unfold index_for_output_index. set (key := _tool_call_key cid name).
  destruct (match o with Some x => output_index_map ix !! x | None => None end) as [j|] eqn:Eo.
  - intros [= <- <-]. destruct o as [x|]; [|done].
    destruct key as [k|]; [destruct (indexes ix !! k) eqn:Ek|]; (split_and!; [|by intros y [= <-]|done]);
      [apply slots_refl|by apply slots_add_key|apply slots_refl].
  - destruct key as [k|].
    + destruct (indexes ix !! k) as [j|] eqn:Ek.
      * intros [= <- <-]. destruct o as [x|]; (split_and!; [|intros y Hy|intros k' Hk' Hk]); try done.
        -- by apply slots_add_output.
        -- injection Hy as <-. simpl. by rewrite lookup_insert_eq.
        -- by injection Hk as <-.
      * intros [= <- <-]. assert (slots_le ix (ix {{ indexes := <[k := next_index ix]> (indexes ix); next_index := S (next_index ix) }}))
          as H1 by (destruct (slots_add_key ix k (next_index ix) Ek); by split).
        destruct o as [x|]; (split_and!; [|intros y Hy|intros k' Hk' Hk]); try done.
        -- eapply slots_trans; [exact H1|]. by apply slots_add_output.
        -- injection Hy as <-. simpl. by rewrite lookup_insert_eq.
        -- injection Hk as <-. simpl. by rewrite lookup_insert_eq.
    + destruct o as [x|]; intros [= <- <-]; (split_and!; [|intros y Hy|done]); try done.
      * destruct (slots_add_output ix x (next_index ix) Eo). by split.
      * injection Hy as <-. simpl. by rewrite lookup_insert_eq.
Qed.

Lemma register_le payload i ix : slots_le ix (_register_item_id_alias payload i ix).
Proof.
  unfold _register_item_id_alias. destruct (get_obj "item" payload) as [item|]; [|apply slots_refl].
  match goal with |- slots_le ix (match _ with Some _ => register_output_index ?x _ _ | None => _ end) => set (ix1 := x) end.
  assert (slots_le ix ix1) as H1.
  { unfold ix1. destruct (get_str "id" item) as [[|a s]|]; try apply slots_refl. destruct (is_str _ _); [apply slots_refl|].
    unfold register_alias. destruct (indexes ix !! _) eqn:E; [apply slots_refl|by apply slots_add_key]. }
  destruct (_resolve_output_index payload) as [o|]; [|done]. eapply slots_trans; [exact H1|]. unfold register_output_index.
  destruct (output_index_map ix1 !! o) eqn:E; [apply slots_refl|by apply slots_add_output].
Qed.

(** Where an event is routed: by its output index, or else by its key. *)
Definition route_key (payload : dict json) : option string :=
  match _extract_tool_call_fields payload with
  | Some (call_id, name, _, _) =>
      _tool_call_key (or_else call_id (_first_str [get_or_null "item_id" payload;
        match get_obj "item" payload with Some item => get_or_null "id" item | None => JNull end])) name
  | None => None
  end.

Lemma delta_slot payload ix ix' d : _tool_call_delta_from_payload payload ix = (ix', d) →
  slots_le ix ix' ∧ ∀ d', d = Some d' →
    (∀ o, _resolve_output_index payload = Some o → output_index_map ix' !! o = Some (dl_index d')) ∧
    (∀ k, _resolve_output_index payload = None → route_key payload = Some k → indexes ix' !! k = Some (dl_index d')).
Proof.
  unfold _tool_call_delta_from_payload, route_key. destruct (negb _); [intros [= <- <-]; split; [apply slots_refl|done]|].
  destruct (_extract_tool_call_fields payload) as [[[[cid name] args] ty]|]; [|intros [= <- <-]; split; [apply slots_refl|done]].
  destruct (index_for_output_index _ _ _ _) as [ix1 i] eqn:E. intros [= <- <-].
  apply index_for_output_spec in E as (H1 & H2 & H3). destruct (register_le payload i ix1) as [R1 R2]. split.
  { eapply slots_trans; [exact H1|by split]. }
  intros d' [= <-]. simpl. split.
  - intros o Ho. eapply lookup_weaken; [by apply H2|done].
  - intros k Ho Hk. eapply lookup_weaken; [by apply H3|done].
Qed.

Definition slots_after (ix : ToolCallIndex) (payloads : list (dict json)) : ToolCallIndex :=
  fold_left (λ ix p, (_tool_call_delta_from_payload p ix).1) payloads ix.

Lemma slots_after_le ix ps : slots_le ix (slots_after ix ps).
Proof.
  revert ix. induction ps as [|p ps IH]; intros ix; [apply slots_refl|]. cbn [slots_after fold_left].
  eapply slots_trans; [|apply IH]. destruct (_tool_call_delta_from_payload p ix) as [ix' d] eqn:E. by apply delta_slot in E as [? _].
Qed.

(** One call stays in one slot: two events with the same output index, or two
    events without one that name the same call, go to the same slot, whatever
    comes in between. *)
Theorem same_call_same_slot ix p between p' ix1 ix2 d d'
    (H1 : _tool_call_delta_from_payload p ix = (ix1, Some d))
    (H2 : _tool_call_delta_from_payload p' (slots_after ix1 between) = (ix2, Some d'))
    (Hsame : (∃ o, _resolve_output_index p = Some o ∧ _resolve_output_index p' = Some o) ∨
             (_resolve_output_index p = None ∧ _resolve_output_index p' = None ∧
              ∃ k, route_key p = Some k ∧ route_key p' = Some k)) :
  dl_index d' = dl_index d.
Proof.
  apply delta_slot in H1 as [_ H1], H2 as [[L1 L2] H2]. destruct (H1 d eq_refl) as [A1 A2], (H2 d' eq_refl) as [B1 B2].
  destruct (slots_after_le ix1 between) as [M1 M2].
  destruct Hsame as [(o & Ho & Ho')|(Hn & Hn' & k & Hk & Hk')].
  - specialize (A1 o Ho). specialize (B1 o Ho'). apply (lookup_weaken _ _ _ _ A1) in M2. apply (lookup_weaken _ _ _ _ M2) in L2. congruence.
  - specialize (A2 k Hn Hk). specialize (B2 k Hn' Hk'). apply (lookup_weaken _ _ _ _ A2) in M1. apply (lookup_weaken _ _ _ _ M1) in L1. congruence.
Qed.

(** ** Samples *)

Definition call_added : dict json :=
  [("type", JStr "response.output_item.added"); ("output_index", JInt 1);
   ("item", JObj [("type", JStr "function_call"); ("id", JStr "fc_1"); ("call_id", JStr "call_1"); ("name", JStr "run");
                  ("arguments", JStr "")])].
Definition call_delta (text : string) : dict json :=
  [("type", JStr "response.function_call_arguments.delta"); ("output_index", JInt 1); ("item_id", JStr "fc_1"); ("delta", JStr text)].
Definition text_delta : dict json := [("type", JStr "response.output_text.delta"); ("delta", JStr "Hi")].
Definition completed : dict json :=
  [("type", JStr "response.completed"); ("response", JObj [("id", JStr "resp_1"); ("usage", JObj [("input_tokens", JInt 3)])])].
Definition failed : dict json := [("type", JStr "response.failed"); ("response", JObj [("status", JStr "failed")])].

Definition sample_lines : list string := map format_sse_event [text_delta; call_added; call_delta "{"; call_delta "}"].
Definition sample_collected : collected :=
  match collect_lines (sample_lines ++ [format_sse_event completed]) nothing_collected with inl c => c | inr _ => nothing_collected end.

Definition sample_call : ToolCallState := List.hd (new_call 0) (col_calls sample_collected).

Lemma stream_agrees_with_collection_witness :
  let outs := stream_chat_chunks "gpt-5" 1 true (sample_lines ++ [format_sse_event completed]) in
  text_sent cd_content outs = "Hi" ∧ cl_id (client 0 outs) = Some "call_1" ∧ cl_args (client 0 outs) = "{}".
Proof.
  destruct (stream_agrees_with_collection "gpt-5" 1 true sample_lines (format_sse_event completed) sample_collected)
    as (H1 & _ & H3 & _); [vm_compute; reflexivity| |vm_compute; reflexivity|].
  - unfold sample_lines. repeat (apply Forall_cons; split); try apply Forall_nil_2; vm_compute; reflexivity.
  - destruct (H3 0%nat sample_call ltac:(vm_compute; reflexivity)) as (I1 & _ & _).
    split; [rewrite H1; vm_compute; reflexivity|]. split; [rewrite I1; vm_compute; reflexivity|vm_compute; reflexivity].
Defined.

Lemma failed_without_error_silent_witness :
  line_step "gpt-5" 1 true (format_sse_event failed) new_state = (new_state, [], false) ∧
  collect_step (format_sse_event failed) nothing_collected = inr _default_error_envelope.
Proof. apply (failed_without_error_silent "gpt-5" 1 true (format_sse_event failed) failed); vm_compute; reflexivity. Defined.

Definition delta_at (p : dict json) (ix : ToolCallIndex) : ToolCallDelta :=
  default {| dl_index := 0; dl_call_id := None; dl_name := None; dl_arguments := None; dl_tool_type := None; dl_mode := Append |}
    (_tool_call_delta_from_payload p ix).2.

Lemma same_call_same_slot_witness :
  let ix1 := (_tool_call_delta_from_payload call_added new_index).1 in
  dl_index (delta_at (call_delta "x") (slots_after ix1 [call_delta "y"])) = dl_index (delta_at call_added new_index).
Proof.
  apply (same_call_same_slot new_index call_added [call_delta "y"] (call_delta "x")
           (_tool_call_delta_from_payload call_added new_index).1
           (_tool_call_delta_from_payload (call_delta "x")
              (slots_after (_tool_call_delta_from_payload call_added new_index).1 [call_delta "y"])).1).
  - vm_compute. reflexivity.
  - vm_compute. reflexivity.
  - left. exists 1%Z. split; vm_compute; reflexivity.
Defined.

End ChatFacts.
