(* ===== verification/ProxyEvents.v ===== *)
(** Upstream events as the proxy reads and rewrites them: the error helpers of
    [src/app/core/errors.py] and [src/app/modules/proxy/helpers.py], and the
    event functions of [src/app/modules/proxy/service.py] that have no state.

    The reading of the clock that stamps a built event is the argument
    [created]. *)

From S2P Require Import Prelude Balancer Json Sse Requests ChatResponses ToolCalls.
Import Balancer.Logic Json.Json Sse.Sse Sse.OpenAIModels Requests.JsonOps.

(** ** Errors *)

Module ProxyErrors.

(** The envelope [{"error": {...}}] and its detail. *)
Definition error_detail (code message error_type : string) : dict json :=
  [("message", JStr message); ("type", JStr error_type); ("code", JStr code)].
Definition openai_error (code message error_type : string) : dict json :=
  [("error", JObj (error_detail code message error_type))].

(** The answer to images that are referenced instead of sent inline, if there are
    any in the request's input. *)
Definition unsupported_image_references (input : json) : option (dict json) :=
  match Requests.ResponsesRequests.extract_input_image_file_references input with
  | [] => None
  | _ => Some (openai_error "unsupported_input_image_format"
           ("input_image references via file_id or sediment:// URIs are not supported on /v1/responses; the upstream API only accepts "
            ++ "inline data: URLs. Send the image inline (codex-cli style) or use the upload protocol exclusively for MCP tool arguments.")
           "server_error")
  end.

(** [if value:] for an optional string. *)
Definition filled (o : option string) : option string := match o with Some s => none_if_empty s | None => None end.

Definition response_failed_event (created : Z) (code message error_type : string) (response_id error_param : option string)
    : dict json :=
  let error := error_detail code message error_type
               ++ match filled error_param with Some p => [("param", JStr p)] | None => [] end in
  [("type", JStr "response.failed");
   ("response", JObj ([("object", JStr "response"); ("status", JStr "failed"); ("error", JObj error); ("incomplete_details", JNull)]
                      ++ match filled response_id with Some i => [("id", JStr i)] | None => [] end
                      ++ [("created_at", JInt created)]))].

Definition or_opt (a b : option string) : option string := match filled a with Some s => Some s | None => b end.

Definition _normalize_error_code (code error_type : option string) : string :=
  match filled (or_opt code error_type) with Some v => py_lower v | None => "upstream_error" end.

Definition _coerce_str (value : json) : option string := match value with JStr s => Some s | _ => None end.
Definition _coerce_number (value : json) : option json := ChatResponses.ChatResponses._coerce_number value.

Definition _parse_openai_error (payload : dict json) : option OpenAIError :=
  let error := get_or_null "error" payload in
  if negb (truthy error) then None
  else match error with
  | JObj d =>
      match validate_OpenAIError d with
      | Some e => Some e
      | None =>
          let s k := _coerce_str (get_or_null k d) in
          let n k := _coerce_number (get_or_null k d) in
          Some {| err_message := s "message"; err_type := s "type"; err_code := s "code"; err_param := s "param";
                  err_plan_type := s "plan_type"; err_resets_at := n "resets_at"; err_resets_in_seconds := n "resets_in_seconds" |}
      end
  | _ => None
  end.

Definition set_some (k : string) (f : option json) (d : dict json) : dict json :=
  match f with Some v => dict_set d k v | None => d end.

Definition _apply_error_metadata (target : dict json) (error : option OpenAIError) : dict json :=
  match error with
  | None => target
  | Some e => set_some "resets_in_seconds" (err_resets_in_seconds e)
                (set_some "resets_at" (err_resets_at e) (set_some "plan_type" (option_map JStr (err_plan_type e)) target))
  end.

(** A JSON number as the rational it is written as; infinity and NaN, which the
    balancer's model leaves out, are no number here. *)
Definition number_of (v : json) : option Q :=
  match v with
  | JInt n => Some (inject_Z n)
  | JFloat (FDec neg c e) =>
      let m := inject_Z (if neg then - Z.of_N c else Z.of_N c)%Z in
      Some (match e with
            | Zneg k => m / inject_Z (10 ^ Zpos k)
            | _ => m * inject_Z (10 ^ e)
            end)%Q
  | _ => None
  end.

(** What the failure handlers of the balancer are told. *)
Definition no_error : UpstreamError := {| message := None; resets_at := None; resets_in_seconds := None |}.
Definition only_message (m : string) : UpstreamError := no_error {{ message := Some m }}.
Definition _upstream_error_from_openai (error : option OpenAIError) : UpstreamError :=
  match error with
  | None => no_error
  | Some e => {| message := err_message e;
                 resets_at := match err_resets_at e with Some v => number_of v | None => None end;
                 resets_in_seconds := match err_resets_in_seconds e with Some v => number_of v | None => None end |}
  end.

Definition RATE_LIMIT_CODES : list string := ["rate_limit_exceeded"; "usage_limit_reached"].
Definition QUOTA_CODES : list string := ["insufficient_quota"; "usage_not_included"; "quota_exceeded"].
Definition TRANSIENT_CODES : list string := ["server_error"; "upstream_error"; "stream_incomplete"; "overloaded_error"].

Definition classify_upstream_failure (error_code : string) (http_status : option Z) : FailureClass :=
  if mem error_code RATE_LIMIT_CODES then rate_limit
  else if mem error_code QUOTA_CODES then quota
  else if mem error_code TRANSIENT_CODES || match http_status with Some s => (500 <=? s)%Z | None => false end
  then retryable_transient
  else non_retryable.

End ProxyErrors.

(** ** Events *)

Module ProxyEvents.
Import ProxyErrors.

Definition TERMINAL_EVENTS : list string := ["response.completed"; "response.failed"; "response.incomplete"; "error"].
Definition ACCOUNT_RECOVERY_RETRY_CODES : list string :=
  ["rate_limit_exceeded"; "usage_limit_reached"; "insufficient_quota"; "usage_not_included"; "quota_exceeded"]
  ++ map fst PERMANENT_FAILURE_CODES.
Definition TRANSIENT_RETRY_CODES : list string :=
  ["server_error"; "stream_incomplete"; "stream_idle_timeout"; "upstream_request_timeout"].
Definition WEBSOCKET_TRANSPARENT_REPLAY_ERROR_CODES : list string :=
  ["rate_limit_exceeded"; "usage_limit_reached"; "insufficient_quota"; "usage_not_included"; "quota_exceeded"].
Definition TEXT_DELTA_EVENT_TYPES : list string := ["response.output_text.delta"; "response.refusal.delta"].
Definition SUPPRESSED_DUPLICATE_TOOL_CALL_MESSAGE : string :=
  "Suppressed duplicate side-effect tool call; upstream response cannot be continued safely.".
Definition CLOSED_EARLY : string := "Upstream websocket closed before response.completed".

(** [value in {...}] for an optional string. *)
Definition in_set (o : option string) (l : list string) : bool := match o with Some x => mem x l | None => false end.

(** [value.strip() or None] of a member that is a string. *)
Definition stripped_member (k : string) (d : dict json) : option string :=
  match get_str k d with Some s => none_if_empty (py_strip s) | None => None end.

(** *** Fields of an event *)

Definition _event_type_from_payload (event : option OpenAIEvent) (payload : option (dict json)) : option string :=
  match event, payload with
  | Some e, _ => Some (ev_type e)
  | None, None => None
  | None, Some p =>
      match get_str "type" p, get_obj "error" p with
      | Some t, _ => Some t
      | None, Some _ => Some "error"
      | None, None => None
      end
  end.

Definition _websocket_response_id (event : option OpenAIEvent) (payload : option (dict json)) : option string :=
  match match event with Some e => match ev_resp e with Some r => filled (resp_id r) | None => None end | None => None end with
  | Some i => Some i
  | None =>
      match payload with
      | None => None
      | Some p =>
          match stripped_member "response_id" p with
          | Some i => Some i
          | None => match get_obj "response" p with Some r => stripped_member "id" r | None => None end
          end
      end
  end.

Definition _websocket_event_error_payload (event_type : option string) (payload : option (dict json)) : option (dict json) :=
  match payload with
  | None => None
  | Some p =>
      if in_set event_type ["error"] then get_obj "error" p
      else if in_set event_type ["response.failed"]
      then match get_obj "response" p with Some r => get_obj "error" r | None => None end
      else None
  end.

Definition error_member (k : string) (event_type : option string) (payload : option (dict json)) : option string :=
  match _websocket_event_error_payload event_type payload with Some e => stripped_member k e | None => None end.
Definition _websocket_event_error_code := error_member "code".
Definition _websocket_event_error_type := error_member "type".
Definition _websocket_event_error_param := error_member "param".
Definition _websocket_event_error_message := error_member "message".

Definition _http_error_status_from_payload (payload : option (dict json)) : option Z :=
  match payload with
  | Some p => match get_or_null "status" p with
              | JInt n => Some n
              | JBool b => Some (if b then 1 else 0)%Z
              | _ => None
              end
  | None => None
  end.

Definition _normalize_service_tier_value (value : json) : option string :=
  match value with
  | JStr s =>
      let stripped := py_strip s in
      if String.eqb stripped "" then None
      else if String.eqb (py_lower stripped) "fast" then Some "priority"
      else Some stripped
  | _ => None
  end.

Definition _service_tier_from_event_payload (payload : option (dict json)) : option string :=
  match payload with
  | Some p => match get_obj "response" p with Some r => _normalize_service_tier_value (get_or_null "service_tier" r) | None => None end
  | None => None
  end.

Definition _effective_service_tier (requested_service_tier actual_service_tier : option string) : option string :=
  match actual_service_tier with Some t => Some t | None => requested_service_tier end.

Definition _response_output_item_done_function_call_id (payload : option (dict json)) : option string :=
  match payload with
  | Some p =>
      if negb (is_str "response.output_item.done" (get_or_null "type" p)) then None
      else match get_obj "item" p with
      | Some item => if is_str "function_call" (get_or_null "type" item) then filled (get_str "call_id" item) else None
      | None => None
      end
  | None => None
  end.

(** *** Messages about lost responses *)

(** [text.split()]. *)
Fixpoint split_words_from (word s : string) : list string :=
  match s with
  | "" => if String.eqb word "" then [] else [word]
  | String c r =>
      if is_space c then (if String.eqb word "" then [] else [word]) ++ split_words_from "" r
      else split_words_from (word ++ String c "") r
  end.
Definition split_words (s : string) : list string := split_words_from "" s.
(** [" ".join(text.split())]. *)
Definition one_spaced (s : string) : string := String.concat " " (split_words s).

Definition _is_previous_response_not_found_message (message : option string) : bool :=
  match message with
  | None => false
  | Some m => let normalized := one_spaced (py_lower m) in contains "previous response" normalized && contains "not found" normalized
  end.

Definition is_quote (c : ascii) : bool := Ascii.eqb c "'" || Ascii.eqb c "034".
(** One or more characters other than quotes, up to the quote that ends them. *)
Fixpoint quoted_id (s : string) : string * string :=
  match s with
  | String c r => if is_quote c then ("", s) else let '(i, rest) := quoted_id r in (String c i, rest)
  | "" => ("", "")
  end.

(** A prefix up to case. *)
Fixpoint strip_prefix_ci (p s : string) : option string :=
  match p, s with
  | "", _ => Some s
  | String a p, String b s => if Ascii.eqb (lower_ascii a) (lower_ascii b) then strip_prefix_ci p s else None
  | _, "" => None
  end.

(** The pattern at the start of a text without repeated blanks. *)
Definition match_not_found (s : string) : option string :=
  match strip_prefix_ci "previous response with id " s with
  | Some (String q r) =>
      if negb (is_quote q) then None
      else match quoted_id r with
      | (String c i, String _ rest) =>
          match strip_prefix_ci " not found" rest with Some _ => Some (String c i) | None => None end
      | _ => None
      end
  | _ => None
  end.
Fixpoint search_not_found (s : string) : option string :=
  match match_not_found s with
  | Some i => Some i
  | None => match s with String _ r => search_not_found r | "" => None end
  end.

Definition _previous_response_id_from_not_found_message (message : option string) : option string :=
  match message with
  | None => None
  | Some m => match search_not_found (one_spaced m) with Some i => none_if_empty (py_strip i) | None => None end
  end.

(** [[A-Za-z0-9_-]]. *)
Definition id_char (c : ascii) : bool :=
  let n := Ascii.N_of_ascii c in
  ((65 <=? n) && (n <=? 90) || (97 <=? n) && (n <=? 122) || (48 <=? n) && (n <=? 57) || (n =? 95) || (n =? 45))%N.
(** The identifier stands alone somewhere in the text. *)
Fixpoint mentions (before : bool) (ident s : string) : bool :=
  negb before && match strip_prefix ident s with
                 | Some rest => match rest with String c _ => negb (id_char c) | "" => true end
                 | None => false
                 end
  || match s with String c r => mentions (id_char c) ident r | "" => false end.

Definition _message_mentions_previous_response_id (message previous_response_id : option string) : bool :=
  match message, previous_response_id with
  | Some m, Some p =>
      let ident := py_strip p in
      if String.eqb ident "" then false else mentions false ident (one_spaced m)
  | _, _ => false
  end.

Definition _is_missing_tool_output_error (code param message : option string) : bool :=
  match message with
  | Some m => in_set code ["invalid_request_error"] && in_set param ["input"]
              && startswith "no tool output found for function call call_" (one_spaced (py_lower m))
  | None => false
  end.

Definition _is_previous_response_not_found_error (code param message : option string) : bool :=
  in_set code ["previous_response_not_found"]
  || in_set code ["invalid_request_error"] && in_set param ["previous_response_id"]
     && _is_previous_response_not_found_message message.

(** *** Penalties and retries *)

Definition _should_penalize_stream_error (code : option string) : bool :=
  in_set code ACCOUNT_RECOVERY_RETRY_CODES || in_set code TRANSIENT_RETRY_CODES.
Definition _is_account_neutral_error_code (code : option string) : bool := in_set code ["proxy_overloaded"; "proxy_unavailable"].
Definition _should_retry_stream_error (code : string) : bool := mem code ACCOUNT_RECOVERY_RETRY_CODES.

Inductive close_class := transient | rejected.
Definition _classify_upstream_close (close_code : option Z) (response_events_seen : Z) : close_class :=
  if bool_decide (close_code = Some 1000%Z) && (response_events_seen =? 0)%Z then rejected else transient.

(** *** Rewritten events *)

Notation rewritten := (option OpenAIEvent * option (dict json) * option string * string)%type.

(** A failure of the response, as event, payload, type and text. *)
Definition failed_rewrite (created : Z) (code message response_id : string) : rewritten :=
  let payload := response_failed_event created code message "server_error" (Some response_id) None in
  let block := format_sse_event payload in
  let event := parse_sse_event block in
  let parsed := parse_sse_data_json block in
  (event, parsed, _event_type_from_payload event parsed, dumps_ascii (JObj payload)).

Definition _build_rewritten_stream_response_failed_event (created : Z) (response_id error_code error_message : string)
    : string * option OpenAIEvent * option (dict json) * option string :=
  let block := format_sse_event (response_failed_event created error_code error_message "server_error" (Some response_id) None) in
  let payload := parse_sse_data_json block in
  let event := parse_sse_event block in
  (block, event, payload, _event_type_from_payload event payload).

Definition _rewrite_previous_response_stream_error (previous_response_id preferred_account_id : option string)
    (error_code error_type error_message error_param : option string)
    : option (string * string * option string) :=
  match previous_response_id with
  | None => None
  | Some _ =>
      if _is_previous_response_not_found_error error_code error_param error_message
         || _is_missing_tool_output_error error_code error_param error_message
      then Some ("stream_incomplete", CLOSED_EARLY, None)
      else
        let normalized := _normalize_error_code error_code error_type in
        match preferred_account_id with
        | Some _ => if mem normalized ACCOUNT_RECOVERY_RETRY_CODES
                    then Some ("upstream_unavailable", "Previous response owner account is unavailable; retry later.", Some normalized)
                    else None
        | None => None
        end
  end.

Definition _wrapped_websocket_error_event (status_code : Z) (payload : dict json) : dict json :=
  [("type", JStr "error"); ("status", JInt status_code); ("error", JObj (default [] (get_obj "error" payload)))].

(** *** Output that is already visible *)

Definition TEXT_DONE_CONTENT_PART_TYPES : list string := ["output_text"; "refusal"].
Definition _is_text_content_part (payload : option (dict json)) : bool :=
  match payload with
  | Some p => match get_obj "part" p with Some part => str_in (get_or_null "type" part) TEXT_DONE_CONTENT_PART_TYPES | None => false end
  | None => false
  end.
Definition _should_suppress_text_done_event (event_type : option string) (payload : option (dict json))
    (suppress_text_done_events saw_text_delta : bool) : bool :=
  if negb suppress_text_done_events || negb saw_text_delta then false
  else if in_set event_type ["response.output_text.done"] then true
  else if in_set event_type ["response.content_part.done"] then _is_text_content_part payload
  else false.

End ProxyEvents.
