(* ===== verification/WsRequests.v ===== *)
(** Requests in flight on an upstream websocket, [src/app/modules/proxy/service.py]:
    their state, the rules that say which of them an upstream event belongs to,
    when one may be replayed, and the anchors that continue a conversation.

    A request object is shared by reference: the deque of pending requests and
    the local variables of a handler name the same object.  Here the deque is a
    list of records, a reference is the record's [request_id] (a fresh UUID per
    request, so that the field-wise equality of the dataclass is identity), and
    a change through a reference changes the record in the list.  Fields that no
    modelled code reads (heartbeat tasks, affinity, latency marks) are left out.
    SHA-256 is an argument. *)

From S2P Require Import Prelude Balancer Admission Json Sse Requests ToolCalls ProxyEvents.
Import Json.Json Sse.Sse Sse.OpenAIModels Requests.JsonOps ProxyEvents.ProxyErrors ProxyEvents.ProxyEvents.

Module WsRequests.

Record ApiKeyUsageReservationData := { reservation_id : string; rv_model : string }.

Record _WebSocketRequestState := {
  request_id : string;
  model : option string;
  service_tier : option string;
  api_key_reservation : option ApiKeyUsageReservationData;
  started_at : Q;
  request_log_id : option string;
  actual_service_tier : option string;
  response_id : option string;
  awaiting_response_created : bool;
  event_queue : bool;
  api_key : option string;
  request_text : option string;
  replay_count : Z;
  skip_request_log : bool;
  previous_response_id : option string;
  session_id : option string;
  proxy_injected_previous_response_id : bool;
  fresh_upstream_request_text : option string;
  fresh_upstream_request_is_retry_safe : bool;
  preferred_account_id : option string;
  error_code_override : option string;
  error_message_override : option string;
  error_type_override : option string;
  error_param_override : option string;
  error_http_status_override : option Z;
  response_event_count : Z;
  previous_response_not_found_rewritten : bool;
  response_create_gate_acquired : bool;
  response_create_gate : bool;
  response_create_admission : bool;
  suppressed_duplicate_tool_call : bool;
  pending_function_call_ids : list string;
  seen_tool_call_keys : list ToolDedupe.tool_call_key;
  input_item_count : Z;
  input_full_fingerprint : option string;
  account_health_error_handled : bool;
  downstream_visible : bool;
  draining_until_terminal : bool;
}.
Notation request := _WebSocketRequestState.

(** ** References *)

Definition is_ref (i : string) (r : request) : bool := String.eqb (request_id r) i.
(** [request in pending]. *)
Definition pending_has (i : string) (pending : list request) : bool := existsb (is_ref i) pending.
(** A change through a reference. *)
Definition modify (i : string) (f : request → request) (pending : list request) : list request := update_where (is_ref i) f pending.
Definition deref (i : string) (pending : list request) : option request := List.find (is_ref i) pending.
(** [pending.remove(request)]. *)
Fixpoint remove_ref (i : string) (pending : list request) : list request :=
  match pending with
  | [] => []
  | r :: rest => if is_ref i r then rest else r :: remove_ref i rest
  end.

(** ** Which request an event belongs to *)

Definition unresolved (r : request) : bool := negb (bool_decide (is_Some (response_id r))).
Definition _http_bridge_request_counts_against_queue (r : request) : bool := negb (draining_until_terminal r).
Definition _draining_websocket_request_states (pending : list request) : list request := List.filter draining_until_terminal pending.

(** The only element of a list. *)
Definition only {A} (l : list A) : option A := match l with [x] => Some x | _ => None end.

Definition _find_websocket_request_state_by_response_id (pending : list request) (rid : string) : option request :=
  List.find (λ r, bool_decide (response_id r = Some rid)) pending.

(** The request an id is given to: visible ones first, then draining ones. *)
Definition unassigned (pending : list request) : option request :=
  match List.find (λ r, unresolved r && _http_bridge_request_counts_against_queue r) pending with
  | Some r => Some r
  | None => match List.find (λ r, unresolved r && draining_until_terminal r) pending with
            | Some r => Some r
            | None => List.find unresolved pending
            end
  end.

(** The pending requests afterwards, and the reference returned. *)
Definition _assign_websocket_response_id (pending : list request) (rid : option string) : list request * option string :=
  match rid with
  | None => (pending, None)
  | Some i =>
      match _find_websocket_request_state_by_response_id pending i with
      | Some r => (pending, Some (request_id r))
      | None =>
          match unassigned pending with
          | Some r => (modify (request_id r) (λ r, r {{ response_id := Some i }}) pending, Some (request_id r))
          | None => (pending, None)
          end
      end
  end.

(** [{r.previous_response_id for r in requests if r.previous_response_id}]. *)
Definition unique_previous (l : list request) : list string := remove_dups (omap (λ r, filled (previous_response_id r)) l).

Definition nonempty {A} (l : list A) : bool := match l with [] => false | _ => true end.

Definition _matching_websocket_request_states_for_previous_response_error (pending : list request)
    (previous_response_id_hint error_message : option string) (allow_unanchored : bool) : list request :=
  let followups := List.filter (λ r, bool_decide (is_Some (previous_response_id r))) pending in
  if negb (nonempty followups) then
    match pending with [r] => if allow_unanchored then [r] else [] | _ => [] end
  else
    let hinted := match previous_response_id_hint with
                  | Some h => List.filter (λ r, bool_decide (previous_response_id r = Some h)) followups
                  | None => []
                  end in
    let mentioned := match error_message with
                     | Some _ => List.filter (λ r, _message_mentions_previous_response_id error_message (previous_response_id r)) followups
                     | None => []
                     end in
    if nonempty hinted then hinted
    else if nonempty mentioned then mentioned
    else
      let unresolved_followups := List.filter unresolved followups in
      match unresolved_followups with
      | [] => []
      | [r] => [r]
      | _ => if bool_decide (length (unique_previous unresolved_followups) = 1) then unresolved_followups else []
      end.

Definition _match_websocket_request_state_for_previous_response_error (pending : list request)
    (previous_response_id_hint error_message : option string) (allow_unanchored : bool) : option request :=
  only (_matching_websocket_request_states_for_previous_response_error pending previous_response_id_hint error_message allow_unanchored).

Definition _matching_websocket_request_states_for_missing_tool_output_error (pending : list request) : list request :=
  let unresolved_followups := List.filter (λ r, unresolved r && bool_decide (is_Some (previous_response_id r))) pending in
  match unresolved_followups with
  | [] | [_] => unresolved_followups
  | _ => if bool_decide (length (unique_previous unresolved_followups) = 1) then unresolved_followups else []
  end.

Definition _match_websocket_request_state_for_precreated_terminal_event (pending : list request) : option request :=
  only (List.filter (λ r, unresolved r && awaiting_response_created r) pending).

(** What is known of an event without a response id. *)
Record hints := {
  prefer_previous_response_not_found : bool; previous_response_id_hint : option string; error_message : option string;
  allow_unanchored_previous_response_error : bool; prefer_draining_requests : bool }.

Definition previous_response_match (h : hints) (pending : list request) : option request :=
  _match_websocket_request_state_for_previous_response_error pending (previous_response_id_hint h) (error_message h)
    (allow_unanchored_previous_response_error h).

Definition _match_websocket_request_state_for_anonymous_event (pending : list request) (h : hints) : option request :=
  if prefer_previous_response_not_found h then previous_response_match h pending
  else
    let visible := List.filter _http_bridge_request_counts_against_queue pending in
    let draining := _draining_websocket_request_states pending in
    let draining_choice := match only (List.filter unresolved draining) with Some r => Some r | None => head draining end in
    let among_visible :=
      match only visible with
      | Some r => Some r
      | None =>
          match only (List.filter unresolved visible) with
          | Some r => Some r
          | None => if negb (nonempty visible) then draining_choice else None
          end
      end in
    if prefer_draining_requests h && nonempty draining then
      match only (List.filter unresolved draining) with
      | Some r => Some r
      | None => if negb (nonempty visible) then head draining else among_visible
      end
    else among_visible.

(** Removing the request a terminal event ends. *)
Definition _pop_terminal_websocket_request_state (pending : list request) (rid : option string)
    (fallback_request_state : option string) (h : hints) (allow_precreated_terminal_fallback : bool)
    : list request * option request :=
  let pop r := (remove_ref (request_id r) pending, Some r) in
  let by_id := match rid with Some i => _find_websocket_request_state_by_response_id pending i | None => None end in
  match by_id with
  | Some r => pop r
  | None =>
      match match fallback_request_state with Some i => deref i pending | None => None end with
      | Some r => pop r
      | None =>
          let precreated := match rid with
                            | Some _ => if allow_precreated_terminal_fallback
                                        then _match_websocket_request_state_for_precreated_terminal_event pending else None
                            | None => None
                            end in
          match precreated with
          | Some r => pop r
          | None =>
              let other := match rid with
                           | Some _ => if prefer_previous_response_not_found h then previous_response_match h pending else None
                           | None => _match_websocket_request_state_for_anonymous_event pending h
                           end in
              match other with Some r => pop r | None => (pending, None) end
          end
      end
  end.

Definition _pop_matching_websocket_request_states (pending matching : list request) : list request * list request :=
  (fold_left (λ p r, remove_ref (request_id r) p) matching pending, List.filter (λ r, pending_has (request_id r) pending) matching).

(** ** Replays *)

Definition _websocket_precreated_retry_error_code (r : request) (event_type : option string) (payload : option (dict json))
    (has_other_pending_requests : bool) : option string :=
  if has_other_pending_requests || negb (unresolved r) || (0 <? response_event_count r)%Z || negb (awaiting_response_created r)
     || negb (truthy_s (request_text r)) || (1 <=? replay_count r)%Z || negb (in_set event_type ["error"; "response.failed"])
  then None
  else
    let error_code := _normalize_error_code (_websocket_event_error_code event_type payload) (_websocket_event_error_type event_type payload) in
    let error_param := _websocket_event_error_param event_type payload in
    let error_message := _websocket_event_error_message event_type payload in
    if _is_previous_response_not_found_error (Some error_code) error_param error_message then Some "stream_incomplete"
    else if _is_missing_tool_output_error (Some error_code) error_param error_message then None
    else if mem error_code WEBSOCKET_TRANSPARENT_REPLAY_ERROR_CODES then Some error_code else None.

Definition _websocket_owner_pinned_quota_error_code (r : request) (event_type : option string) (payload : option (dict json))
    : option string :=
  if negb (bool_decide (is_Some (previous_response_id r))) || negb (bool_decide (is_Some (preferred_account_id r)))
     || negb (unresolved r) || negb (awaiting_response_created r) || negb (truthy_s (request_text r))
     || negb (in_set event_type ["error"; "response.failed"])
  then None
  else
    let error_code := _normalize_error_code (_websocket_event_error_code event_type payload) (_websocket_event_error_type event_type payload) in
    if mem error_code WEBSOCKET_TRANSPARENT_REPLAY_ERROR_CODES then Some error_code else None.

Definition _record_response_event (event_type : option string) (r : request) : request :=
  match event_type with
  | Some t => if startswith "response." t && negb (mem t ["response.failed"; "response.incomplete"])
              then r {{ response_event_count := (response_event_count r + 1)%Z }} else r
  | None => r
  end.

Section Fingerprints.
Context (sha256 : string → string).

Definition _fingerprint_input_items (items : list json) : string := sha256 (dumps_ascii (sort_keys (JList items))).

Definition _refresh_websocket_request_input_fingerprint_from_text (r : request) : request :=
  let none := r {{ input_item_count := 0%Z; input_full_fingerprint := (None : option string) }} in
  match filled (request_text r) with
  | None => none
  | Some text =>
      match loads text with
      | Some (JObj payload) =>
          match get_list "input" payload with
          | Some items => r {{ input_item_count := Z.of_nat (length items);
                               input_full_fingerprint := Some (_fingerprint_input_items items) }}
          | None => none
          end
      | _ => none
      end
  end.

(** The anchor is dropped and the request sent as the client wrote it. *)
Definition drop_anchor (r : request) : request :=
  r {{ request_text := fresh_upstream_request_text r; previous_response_id := (None : option string);
       proxy_injected_previous_response_id := false; fresh_upstream_request_is_retry_safe := false }}.
Definition count_replay (r : request) : request :=
  r {{ replay_count := (replay_count r + 1)%Z; awaiting_response_created := true; response_id := (None : option string) }}.

Definition replayable (r : request) : bool :=
  unresolved r && awaiting_response_created r && truthy_s (request_text r) && (replay_count r <? 1)%Z
  && (response_event_count r <=? 0)%Z.

Definition _pop_replayable_precreated_websocket_request_state (pending : list request) : list request * option request :=
  match pending with
  | [r] =>
      if replayable r
      then let r := if proxy_injected_previous_response_id r && fresh_upstream_request_is_retry_safe r
                       && truthy_s (fresh_upstream_request_text r)
                    then _refresh_websocket_request_input_fingerprint_from_text (drop_anchor r) else r in
           ([], Some (count_replay r))
      else (pending, None)
  | _ => (pending, None)
  end.

(** ** Continuing a conversation *)

Record _WebSocketContinuityState := {
  last_completed_input_count : Z; last_completed_response_id : option string;
  last_completed_input_prefix_fingerprint : option string; last_pending_function_call_ids : list string }.
Definition new_continuity : _WebSocketContinuityState :=
  {| last_completed_input_count := 0; last_completed_response_id := None; last_completed_input_prefix_fingerprint := None;
     last_pending_function_call_ids := [] |}.

Record _WebSocketContinuityAnchor := { an_previous_response_id : string; stored_input_item_count : Z }.

(** [input_value] and [payload_previous] are members of the request payload. *)
Definition _websocket_continuity_anchor_for_payload (state : option _WebSocketContinuityState)
    (payload_previous : option string) (input_value : json) (codex_session_affinity : bool) : option _WebSocketContinuityAnchor :=
  match state, payload_previous with
  | Some st, None =>
      if negb codex_session_affinity then None
      else match last_completed_response_id st, last_completed_input_prefix_fingerprint st, input_value with
      | Some previous, Some stored_fingerprint, JList incoming =>
          let stored := last_completed_input_count st in
          if (stored <=? 0)%Z || (Z.of_nat (length incoming) <=? stored)%Z then None
          else if String.eqb (_fingerprint_input_items (take (Z.to_nat stored) incoming)) stored_fingerprint
          then Some {| an_previous_response_id := previous; stored_input_item_count := stored |}
          else None
      | _, _, _ => None
      end
  | _, _ => None
  end.

Definition _record_websocket_continuity_completion (r : request) (rid : option string) (st : _WebSocketContinuityState)
    : _WebSocketContinuityState :=
  match rid, input_full_fingerprint r with
  | Some i, Some fingerprint =>
      if (input_item_count r <=? 0)%Z then new_continuity
      else {| last_completed_input_count := input_item_count r; last_completed_response_id := Some i;
              last_completed_input_prefix_fingerprint := Some fingerprint;
              last_pending_function_call_ids := pending_function_call_ids r |}
  | _, _ => new_continuity
  end.

End Fingerprints.

End WsRequests.
