(* ===== verification/WsRelay.v ===== *)
(** The relay between a client's websocket and an upstream one,
    [src/app/modules/proxy/service.py]: what an upstream text does to the
    requests in flight and to the client, how a request is settled, how pending
    requests are failed, and the reader loop.

    What the code does outside the connection (settling reservations, reporting
    to the load balancer, writing request logs, putting blocks on a queue) is
    recorded as an [effect], in order; [Settled] and [FailedRequest] mark the end
    of the code that settles or fails a request.  The pending requests are only changed
    under their lock, in one piece, so the handling of a text is one step; the
    outcome of a send to the client is an argument. *)

From S2P Require Import Prelude Balancer Admission Json Sse Requests ToolCalls ProxyEvents WsRequests.
Import Json.Json Sse.Sse Sse.OpenAIModels Requests.JsonOps.
Import ProxyEvents.ProxyErrors ProxyEvents.ProxyEvents WsRequests.WsRequests.

Module WsRelay.

Record log_entry := {
  lg_account : string; lg_api_key : option string; lg_request_id : string; lg_model : string; lg_status : string;
  lg_error_code : option string; lg_error_message : option string; lg_usage : option ResponseUsage; lg_tier : option string }.

Inductive effect :=
  | AdmissionReleased (request : string)
  | FinalizeReservation (reservation model : string) (input output cached : Z) (tier : option string)
  | ReleaseReservation (reservation : string)
  | TouchReservation (request : string)
  | HandleStreamError (error : Logic.UpstreamError) (code : string)
  | RecordSuccess
  | RememberOwner (response : string) (api_key account session : option string)
  | WriteLog (entry : log_entry)
  | Put (request block : string)
  | PutEnd (request : string)
  | SendClient (text : string)
  | Settled (request : string)
  | FailedRequest (request : string)
  | RegisterPreviousResponse (response : string) (input_item_count : option Z) (fingerprint : option string).

Record _WebSocketUpstreamControl := {
  reconnect_requested : bool; retire_after_drain : bool; suppress_downstream_event : bool;
  replay_request_state : option request; downstream_texts : option (list string) }.
Definition new_control : _WebSocketUpstreamControl :=
  {| reconnect_requested := false; retire_after_drain := false; suppress_downstream_event := false;
     replay_request_state := None; downstream_texts := None |}.

Record conn := {
  pending : list request; control : _WebSocketUpstreamControl; create_gate : Semaphore.Semaphore;
  continuity : option _WebSocketContinuityState; effects : list effect }.

Definition emit (es : list effect) (c : conn) : conn := c {{ effects := effects c ++ es }}.
Definition request_reconnect (c : conn) : conn := c {{ control := (control c) {{ reconnect_requested := true }} }}.
Definition suppress (c : conn) : conn := c {{ control := (control c) {{ suppress_downstream_event := true }} }}.
Definition set_pending (p : list request) (c : conn) : conn := c {{ pending := p }}.

(** ** Settling a request *)

(** The request, the gate and what else happened. *)
Definition _release_websocket_response_create_gate (r : request) (gate : Semaphore.Semaphore)
    : request * Semaphore.Semaphore * list effect :=
  let released := if response_create_admission r then [AdmissionReleased (request_id r)] else [] in
  let acquired := response_create_gate_acquired r in
  (r {{ response_create_admission := false; awaiting_response_created := false; response_create_gate := false;
        response_create_gate_acquired := false }},
   if acquired then Semaphore.release gate else gate, released).

Definition release_gate (r : request) (c : conn) : request * conn :=
  let '(r, gate, es) := _release_websocket_response_create_gate r (create_gate c) in (r, emit es (c {{ create_gate := gate }})).

Record _StreamSettlement := {
  st_status : string; st_model : string; st_service_tier : option string; st_input_tokens : option Z;
  st_output_tokens : option Z; st_cached_input_tokens : option Z; st_error_code : option string;
  st_error_message : option string; st_error : option Logic.UpstreamError; account_health_error : bool; record_success : bool;
  st_downstream_visible : bool; downstream_text_visible : bool; st_response_id : option string }.

Definition new_settlement : _StreamSettlement :=
  {| st_status := "success"; st_model := ""; st_service_tier := None; st_input_tokens := None; st_output_tokens := None;
     st_cached_input_tokens := None; st_error_code := None; st_error_message := None; st_error := None; account_health_error := false;
     record_success := true; st_downstream_visible := false; downstream_text_visible := false; st_response_id := None |}.

Definition _stream_settlement_error_payload (s : _StreamSettlement) : Logic.UpstreamError :=
  match st_error s with
  | Some e => e
  | None => only_message (match filled (st_error_message s) with Some m => m | None => "Upstream error" end)
  end.

(** The call made on the reservation; its failure is only logged. *)
Definition _settle_stream_api_key_usage (api_key : option string) (reservation : option ApiKeyUsageReservationData)
    (s : _StreamSettlement) : list effect :=
  match api_key, reservation with
  | Some _, Some rv =>
      match st_input_tokens s, st_output_tokens s with
      | Some i, Some o =>
          if String.eqb (st_status s) "success"
          then [FinalizeReservation (reservation_id rv) (or_s (Some (rv_model rv)) (st_model s)) i o
                  (or_z (st_cached_input_tokens s) 0) (st_service_tier s)]
          else [ReleaseReservation (reservation_id rv)]
      | _, _ => [ReleaseReservation (reservation_id rv)]
      end
  | _, _ => []
  end.

Definition _release_websocket_reservation (reservation : option ApiKeyUsageReservationData) : list effect :=
  match reservation with Some rv => [ReleaseReservation (reservation_id rv)] | None => [] end.

Definition name_of (r : request) : string := or_s (response_id r) (request_id r).

(** What a terminal event says: status, error and its code and message, usage
    and the response's own id. *)
Record verdict := {
  vd_status : string; vd_code : option string; vd_message : option string; vd_error : option Logic.UpstreamError;
  vd_usage : option ResponseUsage; vd_id : option string }.

Definition verdict_of (event : option OpenAIEvent) (event_type : option string) (payload : option (dict json)) : verdict :=
  let response := match event with Some e => ev_resp e | None => None end in
  let usage := match response with Some r => resp_usage r | None => None end in
  let id := match response with Some r => filled (resp_id r) | None => None end in
  let code_of error := Some (match error with
                             | Some e => _normalize_error_code (err_code e) (err_type e)
                             | None => _normalize_error_code None None
                             end) in
  if in_set event_type ["error"] then
    let error := match event with Some e => ev_error e | None => None end in
    {| vd_status := "error";
       vd_code := match error with
                  | Some e => code_of error
                  | None => Some (_normalize_error_code (_websocket_event_error_code event_type payload)
                                    (_websocket_event_error_type event_type payload))
                  end;
       vd_message := match error with Some e => err_message e | None => _websocket_event_error_message event_type payload end;
       vd_error := Some (_upstream_error_from_openai error); vd_usage := None; vd_id := None |}
  else if in_set event_type ["response.failed"; "response.incomplete"] then
    let error := match response with Some r => resp_error r | None => None end in
    {| vd_status := "error"; vd_code := code_of error; vd_message := match error with Some e => err_message e | None => None end;
       vd_error := if in_set event_type ["response.failed"] then Some (_upstream_error_from_openai error) else None;
       vd_usage := usage; vd_id := id |}
  else if in_set event_type ["response.completed"] then
    {| vd_status := "success"; vd_code := None; vd_message := None; vd_error := None; vd_usage := usage; vd_id := id |}
  else {| vd_status := "success"; vd_code := None; vd_message := None; vd_error := None; vd_usage := None; vd_id := None |}.

(** Whether the account is blamed. *)
Definition blames_account (r : request) (event_type : option string) (v : verdict) : bool :=
  in_set event_type ["response.failed"; "error"] && _should_penalize_stream_error (vd_code v)
  && negb (account_health_error_handled r)
  && negb (suppressed_duplicate_tool_call r && in_set (vd_code v) ["stream_incomplete"])
  && negb (in_set (vd_code v) ["stream_incomplete"] && bool_decide (is_Some (previous_response_id r))
           && bool_decide (vd_message v = Some CLOSED_EARLY)).

Definition cached_of (usage : option ResponseUsage) : option Z :=
  match usage with Some u => match input_tokens_details u with Some d => cached_tokens d | None => None end | None => None end.

Definition settlement_of (r : request) (event_type : option string) (v : verdict) (tier : option string) : _StreamSettlement :=
  new_settlement
  {{ st_status := vd_status v; st_model := or_s (model r) ""; st_service_tier := tier;
     st_input_tokens := match vd_usage v with Some u => input_tokens u | None => None end;
     st_output_tokens := match vd_usage v with Some u => output_tokens u | None => None end;
     st_cached_input_tokens := cached_of (vd_usage v); st_error_code := vd_code v; st_error_message := vd_message v;
     st_error := vd_error v; account_health_error := blames_account r event_type v;
     record_success := negb (in_set event_type ["response.failed"; "response.incomplete"; "error"]) }}.

Section Relay.
Context (sha256 : string → string).
Context (account_id : string) (created : Z) (current_request_id : option string).

Definition _finalize_websocket_request_state (r : request) (event : option OpenAIEvent) (event_type : option string)
    (payload : option (dict json)) (key : option string) (c : conn) : conn :=
  if draining_until_terminal r then
    let '(r, c) := release_gate r c in
    emit (_release_websocket_reservation (api_key_reservation r) ++ [Settled (request_id r)]) c
  else
    let v := verdict_of event event_type payload in
    let rid := or_s (vd_id v) (name_of r) in
    let actual := _service_tier_from_event_payload payload in
    let tier := match actual with Some t => Some t | None => service_tier r end in
    let settlement := settlement_of r event_type v tier in
    let '(r, c) := release_gate r c in
    let c := emit (_settle_stream_api_key_usage key (api_key_reservation r) settlement) c in
    let c := if account_health_error settlement
             then request_reconnect (emit [HandleStreamError (_stream_settlement_error_payload settlement)
                                             (or_s (st_error_code settlement) "upstream_error")] c)
             else if record_success settlement
             then emit [RecordSuccess; RememberOwner rid key (Some account_id) (session_id r)] c
             else c in
    emit ((if skip_request_log r then []
           else [WriteLog {| lg_account := account_id; lg_api_key := key; lg_request_id := rid; lg_model := or_s (model r) "";
                             lg_status := vd_status v; lg_error_code := vd_code v; lg_error_message := vd_message v;
                             lg_usage := vd_usage v; lg_tier := tier |}])
          ++ [Settled (request_id r)]) c.

(** ** Reading an upstream text *)

Record reading := {
  rd_payload : option (dict json); rd_event : option OpenAIEvent; rd_type : option string; rd_response_id : option string;
  rd_error_message : option string; typeless_error : bool; not_found : bool; missing_output : bool; rd_hint : option string }.

Definition data_block (text : string) : string := ("data: " ++ text ++ newline ++ newline)%string.

Definition read_event (text : string) : reading :=
  let block := data_block text in
  let payload := parse_sse_data_json block in
  let event := parse_sse_event block in
  let event_type := _event_type_from_payload event payload in
  let error_message := _websocket_event_error_message event_type payload in
  let code := Some (_normalize_error_code (_websocket_event_error_code event_type payload) (_websocket_event_error_type event_type payload)) in
  let param := _websocket_event_error_param event_type payload in
  {| rd_payload := payload; rd_event := event; rd_type := event_type; rd_response_id := _websocket_response_id event payload;
     rd_error_message := error_message;
     typeless_error := match payload with
                       | Some p => negb (bool_decide (is_Some (get_str "type" p))) && bool_decide (is_Some (get_obj "error" p))
                       | None => false
                       end;
     not_found := _is_previous_response_not_found_error code param error_message;
     missing_output := _is_missing_tool_output_error code param error_message;
     rd_hint := _previous_response_id_from_not_found_message error_message |}.

Definition hints_of (e : reading) (prefer_draining : bool) : hints :=
  {| prefer_previous_response_not_found := not_found e || missing_output e; previous_response_id_hint := rd_hint e;
     error_message := rd_error_message e; allow_unanchored_previous_response_error := not_found e;
     prefer_draining_requests := prefer_draining |}.

(** The request an event is for, and the pending requests after an id is
    assigned. *)
Definition match_event (e : reading) (event_type : option string) (h : hints) (p : list request) : list request * option string :=
  if in_set event_type ["response.created"] then _assign_websocket_response_id p (rd_response_id e)
  else match rd_response_id e with
       | Some i => (p, option_map request_id (_find_websocket_request_state_by_response_id p i))
       | None => (p, option_map request_id (_match_websocket_request_state_for_anonymous_event p h))
       end.

(** The service tier and the function call an event reports. *)
Definition note_event (payload : option (dict json)) (r : request) : request :=
  let r := match _service_tier_from_event_payload payload with
           | Some t => r {{ actual_service_tier := Some t; service_tier := Some t }}
           | None => r
           end in
  match _response_output_item_done_function_call_id payload with
  | Some i => if mem i (pending_function_call_ids r) then r
              else r {{ pending_function_call_ids := pending_function_call_ids r ++ [i] }}
  | None => r
  end.

(** Whether the event repeats a call, the payload and the request then. *)
Definition dedupe_event (payload : option (dict json)) (r : request) : bool * option (dict json) * request :=
  let '(repeated, payload, seen) :=
    ToolDedupe.mark_duplicate_tool_call_downstream_event payload (seen_tool_call_keys r)
      (or_opt (ToolDedupe.response_id_from_payload payload) (Some (request_id r))) false in
  (repeated, payload, r {{ seen_tool_call_keys := seen }}).

(** The requests a lost previous response or a missing tool output concerns. *)
Definition pop_concerned (e : reading) (p : list request) : list request * list request :=
  let '(p1, grouped) :=
    _pop_matching_websocket_request_states p
      (_matching_websocket_request_states_for_previous_response_error p (rd_hint e) (rd_error_message e) (not_found e)) in
  if negb (nonempty grouped) && missing_output e
  then _pop_matching_websocket_request_states p1 (_matching_websocket_request_states_for_missing_tool_output_error p1)
  else (p1, grouped).

(** ** Rewritten events *)

Definition _rewrite_websocket_continuity_corruption_event (r : request) (reconnect : bool) (c : conn) : rewritten * conn :=
  (failed_rewrite created "stream_incomplete" CLOSED_EARLY (name_of r), if reconnect then request_reconnect c else c).
Definition _rewrite_websocket_previous_response_owner_unavailable_event (r : request) : rewritten :=
  failed_rewrite created "upstream_unavailable" "Previous response owner account is unavailable; retry later." (name_of r).
Definition _rewrite_websocket_suppressed_duplicate_tool_call_completion_event (r : request) : rewritten :=
  failed_rewrite created "stream_incomplete" SUPPRESSED_DUPLICATE_TOOL_CALL_MESSAGE (name_of r).

Definition _maybe_rewrite_websocket_previous_response_not_found_event (r : request) (w : rewritten) (c : conn) : rewritten * conn :=
  let '(event, payload, event_type, _) := w in
  let code := _websocket_event_error_code event_type payload in
  let param := _websocket_event_error_param event_type payload in
  let message := _websocket_event_error_message event_type payload in
  if _is_previous_response_not_found_error code param message
  then _rewrite_websocket_continuity_corruption_event r (bool_decide (is_Some (preferred_account_id r))) c
  else match previous_response_id r with
       | None => (w, c)
       | Some _ => if _is_missing_tool_output_error code param message
                   then _rewrite_websocket_continuity_corruption_event r true c else (w, c)
       end.

(** The text sent, the block, and the event, payload and type. *)
Definition _build_stream_incomplete_terminal_event_for_request (r : request)
    : string * string * option OpenAIEvent * option (dict json) * option string :=
  let '(block, event, payload, event_type) :=
    _build_rewritten_stream_response_failed_event created (name_of r) "stream_incomplete" CLOSED_EARLY in
  (dumps_ascii (JObj (response_failed_event created "stream_incomplete" CLOSED_EARLY "server_error" (Some (name_of r)) None)),
   block, event, payload, event_type).

(** ** One upstream text on a websocket *)

(** Several requests ended at once, each with an error of its own. *)
Fixpoint finalize_group (group : list request) (key : option string) (c : conn) : conn * list string :=
  match group with
  | [] => (c, [])
  | r :: rest =>
      let '(text, _, event, payload, event_type) := _build_stream_incomplete_terminal_event_for_request r in
      let '(c, texts) := finalize_group rest key (_finalize_websocket_request_state r event event_type payload key c) in
      (c, text :: texts)
  end.

(** The request that ends, and the ones that end with it; the repeated-call and
    missing-output rewritings of the text. *)
Definition end_request (e : reading) (matched : option string) (w : rewritten) (c : conn)
    : conn * option request * list request * rewritten :=
  let '(_, _, event_type, _) := w in
  let '(p, ended) := _pop_terminal_websocket_request_state (pending c) (rd_response_id e) matched (hints_of e true)
                       (in_set event_type ["response.failed"; "response.incomplete"; "error"]) in
  let '(p, grouped) := if negb (bool_decide (is_Some ended)) && (not_found e || missing_output e) then pop_concerned e p else (p, []) in
  let '(p, grouped) := if negb (bool_decide (is_Some ended)) && in_set event_type ["error"] && typeless_error e && negb (nonempty grouped)
                       then ([], p) else (p, grouped) in
  let c := set_pending p c in
  match ended with
  | None => (c, None, grouped, w)
  | Some r =>
      let '(r, w, c) :=
        if in_set event_type ["response.completed"] && suppressed_duplicate_tool_call r
        then let r := r {{ error_http_status_override := Some 502%Z }} in
             (r, _rewrite_websocket_suppressed_duplicate_tool_call_completion_event r, request_reconnect c)
        else (r, w, c) in
      let '(r, w, c) :=
        if bool_decide (is_Some (previous_response_id r)) && missing_output e
        then let r := r {{ error_http_status_override := Some 502%Z }} in
             let '(w, c) := _rewrite_websocket_continuity_corruption_event r true c in (r, w, c)
        else (r, w, c) in
      (c, Some r, grouped, w)
  end.

(** What the load balancer is told of an error event. *)
Definition report_of (event_type : option string) (payload : option (dict json)) : Logic.UpstreamError :=
  only_message (match _websocket_event_error_message event_type payload with Some m => m | None => "Upstream error" end).

(** A quota error of a request that is pinned to its account is not retried. *)
Definition refuse_pinned (r : request) (retry : option string) (w : rewritten) (c : conn) : rewritten * conn * option string :=
  let '(_, payload, event_type, _) := w in
  match retry with
  | Some code =>
      if mem code WEBSOCKET_TRANSPARENT_REPLAY_ERROR_CODES && bool_decide (is_Some (previous_response_id r))
         && bool_decide (is_Some (preferred_account_id r))
      then (_rewrite_websocket_previous_response_owner_unavailable_event r, emit [HandleStreamError (report_of event_type payload) code] c, None)
      else (w, c, retry)
  | None => (w, c, None)
  end.

(** What happens to the request that ended: it is replayed, or settled. *)
Definition settle_or_replay (e : reading) (r : request) (key : option string) (others : bool) (w : rewritten) (c : conn)
    : conn * string :=
  let '(_, payload, event_type, _) := w in
  let retry := _websocket_precreated_retry_error_code r event_type payload others in
  let '(w, c) := _maybe_rewrite_websocket_previous_response_not_found_event r w c in
  let '(_, payload, event_type, _) := w in
  let retry := match retry with Some _ => retry | None => _websocket_precreated_retry_error_code r event_type payload others end in
  let '(w, c, retry) := refuse_pinned r retry w c in
  let '(event, payload, event_type, text) := w in
  let replay r c := suppress (request_reconnect (c {{ control := (control c) {{ replay_request_state := Some r }} }})) in
  let retry := if not_found e && negb (fresh_upstream_request_is_retry_safe r && truthy_s (fresh_upstream_request_text r))
               then None else retry in
  match retry with
  | Some code =>
      if not_found e then (replay (count_replay (drop_anchor r)) c, text)
      else (emit [HandleStreamError (report_of event_type payload) code] (replay (count_replay r) c), text)
  | None =>
      let c := if in_set event_type ["response.completed"]
               then c {{ continuity := option_map (_record_websocket_continuity_completion r (rd_response_id e)) (continuity c) }}
               else c in
      (_finalize_websocket_request_state r event event_type payload key c, text)
  end.

(** The end of a text that is for no request. *)
Definition unclaimed (e : reading) (text : string) (c : conn) : conn * string :=
  if not_found e
  then (request_reconnect c,
        dumps_ascii (JObj (response_failed_event created "stream_incomplete" CLOSED_EARLY "server_error" current_request_id None)))
  else if missing_output e then (suppress c, text)
  else (c, text).

(** What the part under the lock leaves: whether the text is withheld as a
    repeated call, the request just created, the one that ended, those that end
    together, whether others are pending, and the event as it is then. *)
Record ws_routed := {
  ws_withheld : bool; ws_created : option string; ws_ended : option request; ws_grouped : list request; ws_others : bool;
  ws_event : rewritten }.

Definition route_text (text : string) (e : reading) (c : conn) : conn * ws_routed :=
  let block := match rd_payload e with Some p => format_sse_event p | None => data_block text end in
  let '(text, payload, event, event_type, _) := ToolDedupe.rewrite_parallel_tool_call_text text (rd_payload e) block in
  let '(p, matched) := match_event e event_type (hints_of e true) (pending c) in
  let noted := match match matched with Some i => deref i p | None => None end with
               | Some r => Some (dedupe_event payload (note_event payload r))
               | None => None
               end in
  match noted with
  | Some (true, _, r) =>
      (suppress (set_pending (modify (request_id r) (λ _, r {{ suppressed_duplicate_tool_call := true }}) p) c),
       {| ws_withheld := true; ws_created := None; ws_ended := None; ws_grouped := []; ws_others := false;
          ws_event := (event, payload, event_type, text) |})
  | _ =>
      let '(p, payload, text) :=
        match noted with
        | Some (_, payload, r) =>
            let r := if in_set event_type TEXT_DELTA_EVENT_TYPES then r {{ downstream_visible := true }} else r in
            (modify (request_id r) (λ _, r) p, payload, match payload with Some d => dumps_ascii (JObj d) | None => text end)
        | None => (p, payload, text)
        end in
      let c := set_pending p c in
      let created_ref := if in_set event_type ["response.created"] then matched else None in
      let w := (event, payload, event_type, text) in
      if in_set event_type TERMINAL_EVENTS && nonempty p
      then let '(c, ended, grouped, w) := end_request e matched w c in
           (c, {| ws_withheld := false; ws_created := created_ref; ws_ended := ended; ws_grouped := grouped;
                  ws_others := nonempty (pending c); ws_event := w |})
      else (c, {| ws_withheld := false; ws_created := created_ref; ws_ended := None; ws_grouped := []; ws_others := false;
                  ws_event := w |})
  end.

(** The request a [response.created] names gives its permit back. *)
Definition release_created (created_ref : option string) (c : conn) : conn :=
  match match created_ref with Some i => deref i (pending c) | None => None end with
  | Some r => let '(r, c) := release_gate r c in set_pending (modify (request_id r) (λ _, r) (pending c)) c
  | None => c
  end.

Definition _process_upstream_websocket_text (text : string) (key : option string) (c : conn) : conn * string :=
  let e := read_event text in
  let '(c, t) := route_text text e c in
  let '(event, payload, event_type, text) := ws_event t in
  if ws_withheld t then (c, text)
  else
    let c := release_created (ws_created t) c in
    match ws_grouped t with
    | _ :: _ :: _ =>
        let '(c, texts) := finalize_group (ws_grouped t) key (request_reconnect c) in
        (suppress (c {{ control := (control c) {{ downstream_texts := Some texts }} }}), default "" (head texts))
    | _ =>
        match match ws_ended t, ws_grouped t with None, [r] => Some r | _, _ => ws_ended t end with
        | None => unclaimed e text c
        | Some r =>
            let r := _record_response_event event_type r in
            let c := if in_set event_type TERMINAL_EVENTS then c else emit [TouchReservation (request_id r)] c in
            settle_or_replay e r key (ws_others t) (ws_event t) c
        end
    end.

(** ** Failing what is pending *)

(** The first request whose error blames the account. *)
Fixpoint penalty (error_code error_message : string) (remaining : list request) : option (string * string) :=
  match remaining with
  | [] => None
  | r :: rest =>
      let code := or_s (error_code_override r) error_code in
      if mem code TRANSIENT_RETRY_CODES || _should_penalize_stream_error (Some code)
      then Some (code, or_s (error_message_override r) error_message)
      else penalty error_code error_message rest
  end.

Definition failed_event (r : request) (code message : string) : dict json :=
  response_failed_event created code message (or_s (error_type_override r) "server_error") (Some (name_of r)) (error_param_override r).

(** How the pending requests are failed: whether the account is known, the id it
    is logged under, whether the client is told, the status logged. *)
Record failing := {
  fl_account : bool; fl_account_id : option string; fl_code : string; fl_message : string; fl_key : option string;
  fl_to_client : bool; fl_status : string; fl_penalize : bool }.

Definition fail_one (f : failing) (r : request) (c : conn) : conn :=
  let code := or_s (error_code_override r) (fl_code f) in
  let message := or_s (error_message_override r) (fl_message f) in
  let '(r, c) := release_gate r c in
  emit ((if event_queue r then [Put (request_id r) (format_sse_event (failed_event r code message)); PutEnd (request_id r)] else [])
        ++ (if fl_to_client f then [SendClient (dumps_ascii (JObj (failed_event r code message)))] else [])
        ++ _release_websocket_reservation (api_key_reservation r)
        ++ match fl_account_id f with
           | Some account =>
               if skip_request_log r then []
               else [WriteLog {| lg_account := account; lg_api_key := fl_key f;
                                 lg_request_id := or_s (response_id r) (or_s (request_log_id r) (request_id r));
                                 lg_model := or_s (model r) ""; lg_status := fl_status f; lg_error_code := Some code;
                                 lg_error_message := Some message; lg_usage := None; lg_tier := service_tier r |}]
           | None => []
           end
        ++ [FailedRequest (request_id r)]) c.

Definition fail_requests (f : failing) (remaining : list request) (c : conn) : conn :=
  let c := if fl_penalize f && fl_account f
           then match penalty (fl_code f) (fl_message f) remaining with
                | Some (code, message) => emit [HandleStreamError (only_message (or_s (Some message) (fl_message f))) code] c
                | None => c
                end
           else c in
  fold_left (λ c r, fail_one f r c) remaining c.

Definition _fail_pending_websocket_requests (f : failing) (c : conn) : conn := fail_requests f (pending c) (set_pending [] c).

Definition expired (now request_budget_seconds : Q) (r : request) : bool := qle (started_at r + request_budget_seconds)%Q now.
Definition _fail_expired_pending_websocket_requests (now request_budget_seconds : Q) (f : failing) (c : conn) : conn :=
  fail_requests f (List.filter (expired now request_budget_seconds) (pending c))
    (set_pending (List.filter (λ r, negb (expired now request_budget_seconds r)) (pending c)) c).

(** ** Timeouts *)

Record _WebSocketReceiveTimeout := {
  timeout_seconds : Q; to_error_code : string; to_error_message : string; fail_all_pending : bool }.

Definition IDLE : string * string := ("stream_idle_timeout", "Upstream stream idle timeout").
Definition EXHAUSTED : string * string := ("upstream_request_timeout", "Proxy request budget exhausted").
Definition receive_timeout (seconds : Q) (error : string * string) (all : bool) : _WebSocketReceiveTimeout :=
  {| timeout_seconds := seconds; to_error_code := error.1; to_error_message := error.2; fail_all_pending := all |}.

(** [min] of a list that is not empty. *)
Definition least (l : list Q) : option Q := match l with [] => None | x :: r => Some (fold_left qmin r x) end.

Definition _remaining_budget_seconds (now deadline : Q) : Q := qmax 0 (deadline - now)%Q.

Definition _websocket_receive_timeout_for_pending_requests (now : Q) (started_ats : list Q)
    (proxy_request_budget_seconds stream_idle_timeout_seconds : Q) : option _WebSocketReceiveTimeout :=
  match least started_ats with
  | None => None
  | Some oldest =>
      let idle := qmax (1 # 1000) stream_idle_timeout_seconds in
      let remaining := _remaining_budget_seconds now (oldest + proxy_request_budget_seconds)%Q in
      let matches_budget := qeq idle (qmax (1 # 1000) proxy_request_budget_seconds) in
      Some (if qle remaining 0 && matches_budget then receive_timeout 0 IDLE false
            else if matches_budget && qle idle remaining then receive_timeout remaining IDLE false
            else if qle remaining 0 then receive_timeout 0 EXHAUSTED false
            else if qlt idle remaining then receive_timeout idle IDLE true
            else receive_timeout remaining EXHAUSTED false)
  end.

Definition _next_websocket_receive_timeout (now budget idle : Q) (c : conn) : option _WebSocketReceiveTimeout :=
  _websocket_receive_timeout_for_pending_requests now
    (map started_at (List.filter _http_bridge_request_counts_against_queue (pending c))) budget idle.

(** ** The reader *)

Inductive upstream_message :=
  | UpstreamText (text : string)
  | UpstreamBinary
  | UpstreamClosed (error : option string) (close_code : option Z).

Definition _upstream_websocket_disconnect_message (error : option string) (close_code : option Z) : string :=
  match filled error, close_code with
  | Some e, _ => (CLOSED_EARLY ++ ": " ++ e)%string
  | None, Some code => (CLOSED_EARLY ++ " (close_code=" ++ show_Z code ++ ")")%string
  | None, None => CLOSED_EARLY
  end.

(** What the reader's wait ends with; [accepted] is the number of sends to the
    client that succeed before one fails. *)
Inductive wake :=
  | Arrived (m : upstream_message) (accepted : nat)
  | KeepaliveDue (accepted : nat)
  | DeadlineReached (now : Q)
  | Crashed.

Definition keepalive_texts (c : conn) : list string :=
  map (λ i, dumps_ascii (JObj [("type", JStr "response.in_progress");
                               ("response", JObj [("id", JStr i); ("status", JStr "in_progress")])]))
    (omap response_id (pending c)).

Definition client_gone (key : option string) : failing :=
  {| fl_account := false; fl_account_id := Some account_id; fl_code := "client_disconnected";
     fl_message := "Downstream websocket disconnected before response.completed"; fl_key := key; fl_to_client := false;
     fl_status := "cancelled"; fl_penalize := false |}.
Definition upstream_gone (code message : string) (key : option string) : failing :=
  {| fl_account := true; fl_account_id := Some account_id; fl_code := code; fl_message := message; fl_key := key;
     fl_to_client := true; fl_status := "error"; fl_penalize := true |}.

(** Sending to the client: what it gets, and whether it is gone. *)
Definition send_all (key : option string) (texts : list string) (accepted : nat) (c : conn) : conn * bool :=
  let c := emit (map SendClient (take accepted texts)) c in
  if Nat.ltb accepted (length texts) then (_fail_pending_websocket_requests (client_gone key) c, true) else (c, false).

(** One round of the loop: the connection and whether the reader stops.
    [waited] is the timeout computed before the wait
    ([_next_websocket_receive_timeout]); requests may have come in since. *)
Definition relay_step (key : option string) (budget : Q) (waited : option _WebSocketReceiveTimeout) (w : wake) (c : conn) : conn * bool :=
  match w with
  | Arrived (UpstreamText text) accepted =>
      let '(c, text) := _process_upstream_websocket_text text key c in
      let texts := match downstream_texts (control c) with
                   | Some texts => texts
                   | None => if suppress_downstream_event (control c) then [] else [text]
                   end in
      let c := c {{ control := (control c) {{ suppress_downstream_event := false; downstream_texts := (None : option (list string)) }} }} in
      let '(c, gone) := send_all key texts accepted c in
      (c, gone || reconnect_requested (control c)
                  && (bool_decide (is_Some (replay_request_state (control c))) || negb (nonempty (pending c))))
  | Arrived UpstreamBinary accepted =>
      if Nat.ltb accepted 1 then (_fail_pending_websocket_requests (client_gone key) c, true) else (c, false)
  | Arrived (UpstreamClosed error close_code) _ =>
      let '(p, replay) := _pop_replayable_precreated_websocket_request_state sha256 (pending c) in
      match replay with
      | Some r => (set_pending p (c {{ control := (control c) {{ reconnect_requested := true; replay_request_state := Some r }} }}), true)
      | None => (_fail_pending_websocket_requests (upstream_gone "stream_incomplete" (_upstream_websocket_disconnect_message error close_code) key) c, true)
      end
  | KeepaliveDue accepted => send_all key (keepalive_texts c) accepted c
  | DeadlineReached now =>
      match waited with
      | None => (c, false)
      | Some t =>
          if fail_all_pending t
          then (request_reconnect (_fail_pending_websocket_requests (upstream_gone (to_error_code t) (to_error_message t) key) c), true)
          else (_fail_expired_pending_websocket_requests now budget
                  {| fl_account := false; fl_account_id := Some account_id; fl_code := to_error_code t; fl_message := to_error_message t;
                     fl_key := key; fl_to_client := true; fl_status := "error"; fl_penalize := true |} c, false)
      end
  | Crashed =>
      (_fail_pending_websocket_requests (upstream_gone "stream_incomplete" "Upstream websocket reader crashed before response.completed" key) c, true)
  end.

(** ** The client's side *)

(** A client's connection: no request yet, one permit. *)
Definition opened (continuity_state : option _WebSocketContinuityState) : conn :=
  {| pending := []; control := new_control; create_gate := Semaphore.new 1; continuity := continuity_state; effects := [] |}.

(** The permit of the gate is there; work admission granted. *)
Definition _acquire_request_state_response_create_admission (r : request) : request :=
  r {{ response_create_gate := true; response_create_gate_acquired := true; awaiting_response_created := true;
       response_create_admission := true }}.

(** A request of the client is registered before it is sent. *)
Definition submit (r : request) (gate : Semaphore.Semaphore) (c : conn) : conn :=
  c {{ pending := pending c ++ [_acquire_request_state_response_create_admission r]; create_gate := gate }}.

(** The next upstream connection, with the request that is sent again. *)
Definition reopen (c : conn) : conn :=
  c {{ pending := pending c ++ option_list (replay_request_state (control c)); control := new_control }}.

End Relay.

End WsRelay.
