(* ===== verification/WsFacts.v ===== *)
(** Properties of the websocket relay: no request is lost or answered twice,
    events reach the request they are for, a replay is safe, permits of the
    response-create gate are conserved, and waiting respects the budgets. *)

From S2P Require Import Prelude Balancer Admission Json Sse Requests ToolCalls ProxyEvents WsRequests WsRelay.
Import Json.Json Sse.Sse Sse.OpenAIModels Requests.JsonOps.
Import ProxyEvents.ProxyErrors ProxyEvents.ProxyEvents WsRequests.WsRequests WsRelay.WsRelay.

Module WsFacts.

(** ** References *)

Notation ids := (map request_id).

Lemma is_ref_true i r : is_ref i r = true ↔ request_id r = i.
Proof. apply String.eqb_eq. Qed.

Lemma is_ref_refl r : is_ref (request_id r) r = true.
Proof. by apply is_ref_true. Qed.

Lemma deref_Some i p r : deref i p = Some r → r ∈ p ∧ request_id r = i.
Proof. intros [H1 H2]%find_Some_elem. by rewrite is_ref_true in H2. Qed.

Lemma deref_elem p r : NoDup (ids p) → r ∈ p → deref (request_id r) p = Some r.
Proof.
  intros Hnd Hr. unfold deref. destruct (List.find _ p) as [r'|] eqn:E.
  - apply deref_Some in E as [E1 E2]. f_equal. by apply (NoDup_map_eq request_id p).
  - pose proof (find_None_elem _ _ _ E Hr) as H. by rewrite is_ref_refl in H.
Qed.

Lemma modify_ids i f p : (∀ r, request_id (f r) = request_id r) → ids (modify i f p) = ids p.
Proof. intros H. unfold modify, update_where. apply map_map_id. intros r. case_match; auto. Qed.

(** Replacing a pending request changes only what it changes of it. *)
Lemma modify_map {B} (g : request → B) p r r' : NoDup (ids p) → r ∈ p → g r' = g r → map g (modify (request_id r) (λ _, r') p) = map g p.
Proof.
  intros Hnd Hr He. unfold modify, update_where. rewrite map_map. apply map_ext_in. intros x Hx%list_elem_of_In.
  destruct (is_ref (request_id r) x) eqn:E; [|done]. apply is_ref_true in E.
  by rewrite (NoDup_map_eq request_id p x r Hnd Hx Hr E).
Qed.

Lemma remove_ref_perm p r : NoDup (ids p) → r ∈ p → p ≡ₚ r :: remove_ref (request_id r) p.
Proof.
  induction p as [|x p IH]; intros Hnd Hr; [by apply not_elem_of_nil in Hr|]. simpl.
  apply NoDup_cons in Hnd as [Hx Hnd]. destruct (is_ref (request_id r) x) eqn:E.
  - apply is_ref_true in E. apply elem_of_cons in Hr as [->|Hr]; [done|]. exfalso. apply Hx. apply elem_of_map. eauto.
  - apply elem_of_cons in Hr as [->|Hr]; [by rewrite is_ref_refl in E|]. rewrite (IH Hnd Hr) at 1. constructor.
Qed.

Lemma remove_ref_sub i p r : r ∈ remove_ref i p → r ∈ p.
Proof. induction p as [|x p IH]; simpl; [done|]. case_match; rewrite ?elem_of_cons; naive_solver. Qed.

(** ** What routing an event leaves alone *)

(** The fields that decide who a request is and what may be done with it. *)
Definition core (r : request) :=
  (request_id r, response_id r, awaiting_response_created r, request_text r, replay_count r, previous_response_id r,
   (proxy_injected_previous_response_id r, fresh_upstream_request_text r, fresh_upstream_request_is_retry_safe r),
   preferred_account_id r, response_create_gate_acquired r, draining_until_terminal r, response_event_count r).
Definition core_id (x : string * option string * bool * option string * Z * option string * (bool * option string * bool)
                        * option string * bool * bool * Z) : string :=
  let '(i, _, _, _, _, _, _, _, _, _, _) := x in i.

Lemma core_ids p q : map core p ≡ₚ map core q → ids p ≡ₚ ids q.
Proof.
  intros H. assert (∀ l, ids l = map core_id (map core l)) as E by (intros l; rewrite map_map; by apply map_ext).
  rewrite !E. by rewrite H.
Qed.

Lemma note_event_core payload r : core (note_event payload r) = core r.
Proof. unfold note_event. destruct (_service_tier_from_event_payload payload), (_response_output_item_done_function_call_id payload); try case_if; done. Qed.

Lemma dedupe_event_core payload r b payload' r' : dedupe_event payload r = (b, payload', r') → core r' = core r.
Proof. unfold dedupe_event. destruct (ToolDedupe.mark_duplicate_tool_call_downstream_event _ _ _ _) as [[? ?] ?]. by intros [= _ _ <-]. Qed.

(** The request a rule picks is a pending one. *)
Lemma only_Some {A} (l : list A) x : only l = Some x → l = [x].
Proof. destruct l as [|y [|]]; simpl; congruence. Qed.

Lemma only_filter {A} (P : A → bool) l x : only (List.filter P l) = Some x → x ∈ l ∧ P x = true.
Proof. intros H%only_Some. apply elem_of_filter_bool. rewrite H. by left. Qed.

Lemma find_by_id_elem p i r : _find_websocket_request_state_by_response_id p i = Some r → r ∈ p ∧ response_id r = Some i.
Proof. intros [H1 H2]%find_Some_elem. by apply bool_decide_eq_true in H2. Qed.

Lemma filter_sub {A} (P : A → bool) l : List.filter P l `sublist_of` l.
Proof. induction l as [|x l IH]; simpl; [done|]. destruct (P x); by constructor. Qed.

Lemma matching_previous_sub p hint message allow :
  _matching_websocket_request_states_for_previous_response_error p hint message allow `sublist_of` p.
Proof.
  unfold _matching_websocket_request_states_for_previous_response_error. set (f := List.filter _ p).
  assert (f `sublist_of` p) as Hf by apply filter_sub.
  assert (∀ (P : request → bool), List.filter P f `sublist_of` p) as Hff by (intros P; etrans; [apply filter_sub|done]).
  destruct (negb (nonempty f)).
  { destruct p as [|x [|]], allow; try apply sublist_nil_l; done. }
  destruct (nonempty (match hint with Some h => List.filter _ f | None => [] end)).
  { destruct hint; [apply Hff|apply sublist_nil_l]. }
  destruct (nonempty (match message with Some _ => List.filter _ f | None => [] end)).
  { destruct message; [apply Hff|apply sublist_nil_l]. }
  pose proof (Hff unresolved) as Hu. destruct (List.filter unresolved f) as [|x [|y l]]; [done..|].
  case_bool_decide; [done|apply sublist_nil_l].
Qed.

Lemma matching_missing_sub p : _matching_websocket_request_states_for_missing_tool_output_error p `sublist_of` p.
Proof.
  unfold _matching_websocket_request_states_for_missing_tool_output_error.
  match goal with |- context [List.filter ?P p] => pose proof (filter_sub P p) as H; destruct (List.filter P p) as [|x [|y l]] end; [done..|].
  case_bool_decide; [done|apply sublist_nil_l].
Qed.

Lemma sub_elem {A} (l k : list A) x : l `sublist_of` k → x ∈ l → x ∈ k.
Proof. intros H Hx. eapply elem_of_submseteq; [exact Hx|by apply sublist_submseteq]. Qed.

Lemma previous_response_match_elem h p r : previous_response_match h p = Some r → r ∈ p.
Proof.
  intros H%only_Some. eapply sub_elem; [apply matching_previous_sub|]. rewrite H. by left.
Qed.

Lemma anonymous_match_elem p h r : _match_websocket_request_state_for_anonymous_event p h = Some r → r ∈ p.
Proof.
  unfold _match_websocket_request_state_for_anonymous_event. destruct (prefer_previous_response_not_found h).
  { apply previous_response_match_elem. }
  set (visible := List.filter _ p). set (draining := _draining_websocket_request_states p).
  assert (∀ x, x ∈ visible → x ∈ p) as Hv by (intros x Hx; by apply elem_of_filter_bool in Hx as [? _]).
  assert (∀ x, x ∈ draining → x ∈ p) as Hd by (intros x Hx; by apply elem_of_filter_bool in Hx as [? _]).
  assert (∀ x, head draining = Some x → x ∈ p) as Hh by (intros x Hx; apply Hd; destruct draining; [done|injection Hx as ->; by left]).
  assert (∀ x, only visible = Some x → x ∈ p) as Ho by (intros x Hx%only_Some; apply Hv; rewrite Hx; by left).
  assert (∀ (P : request → bool) l x, only (List.filter P l) = Some x → x ∈ l) as Hf by (intros P l x Hx; by apply only_filter in Hx as [? _]).
  repeat (case_match; try done); intros; simplify_eq; eauto.
Qed.

Lemma precreated_match_elem p r : _match_websocket_request_state_for_precreated_terminal_event p = Some r → r ∈ p.
Proof. intros H. by apply only_filter in H as [? _]. Qed.

(** ** Requests that leave *)

Lemma NoDup_ids_perm p q : p ≡ₚ q → NoDup (ids p) → NoDup (ids q).
Proof. intros H. by rewrite H. Qed.

Lemma pop_terminal_spec p rid fallback h a p' ended :
  NoDup (ids p) → _pop_terminal_websocket_request_state p rid fallback h a = (p', ended) →
  p ≡ₚ option_list ended ++ p'.
Proof.
  intros Hnd. unfold _pop_terminal_websocket_request_state.
  assert (∀ r, r ∈ p → (remove_ref (request_id r) p, Some r) = (p', ended) → p ≡ₚ option_list ended ++ p') as Hpop.
  { intros r Hr [= <- <-]. by apply remove_ref_perm. }
  destruct (match rid with Some i => _ | None => _ end) as [r|] eqn:E1.
  { apply Hpop. destruct rid; [|done]. by apply find_by_id_elem in E1 as [? _]. }
  clear E1. destruct (match fallback with Some i => _ | None => _ end) as [r|] eqn:E2.
  { apply Hpop. destruct fallback; [|done]. by apply deref_Some in E2 as [? _]. }
  clear E2. destruct (match rid with Some i => _ | None => _ end) as [r|] eqn:E3.
  { apply Hpop. destruct rid, a; try done. by apply precreated_match_elem. }
  clear E3. destruct (match rid with Some i => _ | None => _ end) as [r|] eqn:E4.
  { apply Hpop. destruct rid; [|by eapply anonymous_match_elem]. case_match; [|done]. by eapply previous_response_match_elem. }
  by intros [= <- <-].
Qed.

Lemma pop_matching_spec p matching p' popped :
  NoDup (ids p) → matching `sublist_of` p → _pop_matching_websocket_request_states p matching = (p', popped) →
  p ≡ₚ popped ++ p'.
Proof.
  intros Hnd Hsub. unfold _pop_matching_websocket_request_states. intros [= <- <-].
  assert (NoDup matching) as Hm by (eapply sublist_NoDup; [by apply (NoDup_fmap_1 request_id)|exact Hsub]).
  assert (∀ r, r ∈ matching → r ∈ p) as He by (intros r; by apply sub_elem).
  assert (List.filter (λ r, pending_has (request_id r) p) matching = matching) as ->.
  { clear Hm Hsub. induction matching as [|r m IH]; [done|]. simpl. unfold pending_has at 1.
    assert (existsb (is_ref (request_id r)) p = true) as ->.
    { apply existsb_exists. exists r. split; [apply list_elem_of_In, He; by left|apply is_ref_refl]. }
    f_equal. apply IH. intros x Hx. apply He. by right. }
  clear Hsub. revert p Hnd He Hm. induction matching as [|r m IH]; intros p Hnd He Hm; [done|].
  apply NoDup_cons in Hm as [Hr Hm]. pose proof (remove_ref_perm p r Hnd (He r (list_elem_of_here _ _))) as Hp.
  assert (NoDup (ids (remove_ref (request_id r) p))) as Hnd'.
  { apply (NoDup_ids_perm _ _ Hp) in Hnd. by apply NoDup_cons in Hnd as [_ ?]. }
  simpl. rewrite <- (IH _ Hnd'); [done| |done]. intros x Hx.
  assert (x ∈ r :: remove_ref (request_id r) p) as [->|]%elem_of_cons by (rewrite <- Hp; apply He; by right); done.
Qed.

Lemma pop_concerned_spec e p p' grouped : NoDup (ids p) → pop_concerned e p = (p', grouped) → p ≡ₚ grouped ++ p'.
Proof.
  intros Hnd. unfold pop_concerned. destruct (_pop_matching_websocket_request_states p _) as [p1 g1] eqn:E1.
  apply pop_matching_spec in E1; [|done|apply matching_previous_sub]. destruct (_ && _) eqn:Eb; [|by intros [= <- <-]].
  assert (g1 = []) as -> by (destruct g1; done). simpl in E1. intros E2. rewrite E1.
  eapply pop_matching_spec; [by eapply NoDup_ids_perm|apply matching_missing_sub|exact E2].
Qed.

(** ** The part under the lock *)

(** Nothing is settled, released or replayed. *)
Definition quiet (c c' : conn) : Prop :=
  create_gate c' = create_gate c ∧ effects c' = effects c ∧ replay_request_state (control c') = replay_request_state (control c).

Lemma quiet_refl c : quiet c c.
Proof. done. Qed.

Lemma quiet_trans c1 c2 c3 : quiet c1 c2 → quiet c2 c3 → quiet c1 c3.
Proof. intros (? & ? & ?) (? & ? & ?). split_and!; congruence. Qed.

Lemma quiet_set_pending p c : quiet c (set_pending p c).
Proof. done. Qed.

Lemma quiet_reconnect c : quiet c (request_reconnect c).
Proof. done. Qed.

Section Facts.
Context (sha256 : string → string) (account_id : string) (created : Z) (current_request_id : option string).

Lemma end_request_spec e matched w c c' ended grouped w' :
  NoDup (ids (pending c)) → end_request created e matched w c = (c', ended, grouped, w') →
  quiet c c' ∧ map core (pending c) ≡ₚ map core (option_list ended ++ grouped ++ pending c') ∧ (is_Some ended → grouped = []).
Proof.
  intros Hnd. unfold end_request. destruct w as [[[event payload] ty] text].
  destruct (_pop_terminal_websocket_request_state _ _ _ _ _) as [p0 ended0] eqn:Epop. apply pop_terminal_spec in Epop; [|done].
  destruct (if (_ : bool) then pop_concerned e p0 else (p0, [])) as [p1 g1] eqn:E1.
  destruct (if (_ : bool) then ([], p1) else (p1, g1)) as [p2 g2] eqn:E2.
  assert (p0 ≡ₚ g2 ++ p2 ∧ (is_Some ended0 → g2 = [])) as [Hp Hg].
  { assert (p0 ≡ₚ g1 ++ p1 ∧ (is_Some ended0 → g1 = [])) as [H1 H2].
    { case_if_in E1; [|by injection E1 as <- <-]. split; [|by destruct ended0]. eapply pop_concerned_spec; [|exact E1].
      apply (NoDup_ids_perm _ _ Epop) in Hnd. rewrite map_app in Hnd. by apply NoDup_app in Hnd as (_ & _ & ?). }
    destruct (_ && _) eqn:Eb in E2; injection E2 as <- <-; [|done].
    rewrite !andb_true_iff, !negb_true_iff, bool_decide_eq_false in Eb. destruct Eb as (((Ha & _) & _) & Hb).
    destruct g1; [|done]. rewrite app_nil_r. split; [done|]. intros []%Ha. }
  assert (pending c ≡ₚ option_list ended0 ++ g2 ++ p2) as Hall by (by rewrite Epop, Hp).
  destruct ended0 as [r|]; [|by intros [= <- <- <- <-]; rewrite Hall; split_and!; try done; intros []].
  specialize (Hg (ex_intro _ r eq_refl)) as ->.
  assert (∀ r' c'', core r' = core r → quiet c c'' → pending c'' = p2 → quiet c c'' ∧
    map core (pending c) ≡ₚ map core (option_list (Some r') ++ [] ++ pending c'') ∧ (is_Some (Some r') → @nil request = [])) as Hdone.
  { intros r' c'' Hr Hq Hc. split_and!; [done| |done]. rewrite Hall, Hc. simpl. by rewrite Hr. }
  unfold _rewrite_websocket_continuity_corruption_event.
  repeat case_if; intros [= <- <- <- <-]; apply Hdone; done.
Qed.
(** At most one request gets the response id, which none had. *)
Definition assigned (p : list request) (rid : option string) (p' : list request) : Prop :=
  p' = p ∨ ∃ r i, rid = Some i ∧ r ∈ p ∧ response_id r = None ∧ (∀ x, x ∈ p → response_id x ≠ Some i) ∧
                  p' = modify (request_id r) (λ r, r {{ response_id := Some i }}) p.

Lemma assigned_ids p rid p' : assigned p rid p' → ids p' = ids p.
Proof. intros [->|(r & i & _ & _ & _ & _ & ->)]; [done|]. by apply modify_ids. Qed.

Lemma unassigned_elem p r : unassigned p = Some r → r ∈ p ∧ response_id r = None.
Proof.
  assert (∀ r, unresolved r = true → response_id r = None) as Hu.
  { intros x H. unfold unresolved in H. apply negb_true_iff, bool_decide_eq_false, eq_None_not_Some in H. done. }
  unfold unassigned. repeat case_match; intros; simplify_eq;
    repeat match goal with H : List.find _ _ = Some _ |- _ => apply find_Some_elem in H as [? H]; try apply andb_true_iff in H as [? _] end; auto.
Qed.

Lemma match_event_spec e ty h p p' m : match_event e ty h p = (p', m) →
  assigned p (rd_response_id e) p' ∧ (∀ i, m = Some i → i ∈ ids p') ∧ (in_set ty ["response.created"] = false → p' = p).
Proof.
  unfold match_event. destruct (in_set ty ["response.created"]) eqn:Ec.
  - unfold _assign_websocket_response_id. destruct (rd_response_id e) as [i|] eqn:Ei; [|intros [= <- <-]; split_and!; try done; by left].
    destruct (_find_websocket_request_state_by_response_id p i) as [r|] eqn:Ef.
    + intros [= <- <-]. split_and!; [by left| |done]. intros j [= <-]. apply find_by_id_elem in Ef as [? _].
      apply elem_of_map. eauto.
    + destruct (unassigned p) as [r|] eqn:Eu; intros [= <- <-]; [|split_and!; try done; by left]. split_and!; [| |done].
      { apply unassigned_elem in Eu as [Hr Hn]. right. exists r, i. split_and!; try done. intros x Hx Hi.
        pose proof (find_None_elem _ _ _ Ef Hx) as H. by rewrite bool_decide_eq_false in H. }
      intros j [= <-]. rewrite modify_ids by done. apply elem_of_map. apply unassigned_elem in Eu as [? _]. eauto.
  - assert (∀ o, (∀ r, o = Some r → r ∈ p) → (p, option_map request_id o) = (p', m) →
      assigned p (rd_response_id e) p' ∧ (∀ i, m = Some i → i ∈ ids p') ∧ (false = false → p' = p)) as H.
    { intros o Ho [= <- <-]. split_and!; [by left| |done]. intros i Hi. destruct o as [r|]; [|done]. injection Hi as <-.
      apply elem_of_map. eauto. }
    destruct (rd_response_id e) as [i|]; intros Hp; eapply H; [|exact Hp| |exact Hp]; intros r Hr.
    + by apply find_by_id_elem in Hr as [? _].
    + by eapply anonymous_match_elem.
Qed.

(** The request a [response.created] is for has a response id then. *)
Lemma match_created_resolved e ty h p p' i : NoDup (ids p) → match_event e ty h p = (p', Some i) → in_set ty ["response.created"] = true →
  ∀ r, r ∈ p' → request_id r = i → is_Some (response_id r).
Proof.
  intros Hnd. unfold match_event. intros Hm Hc r Hr Hi. rewrite Hc in Hm. unfold _assign_websocket_response_id in Hm.
  destruct (rd_response_id e) as [j|]; [|done]. destruct (_find_websocket_request_state_by_response_id p j) as [x|] eqn:Ef.
  - injection Hm as <- <-. apply find_by_id_elem in Ef as [Hx Hxi]. rewrite (NoDup_map_eq request_id p r x) by done. by rewrite Hxi.
  - destruct (unassigned p) as [x|] eqn:Eu; [|done]. injection Hm as <- <-. unfold modify, update_where in Hr.
    apply elem_of_map in Hr as (y & -> & Hy). destruct (is_ref (request_id x) y) eqn:Ey; [by eexists|].
    rewrite <- Hi, is_ref_refl in Ey. done.
Qed.

Lemma noted_core payload r b payload' r' : dedupe_event payload (note_event payload r) = (b, payload', r') → core r' = core r.
Proof. intros H%dedupe_event_core. by rewrite H, note_event_core. Qed.

Lemma core_request_id r r' : core r' = core r → request_id r' = request_id r.
Proof. intros H. by injection H. Qed.

(** The requests that leave and the pending ones are those there were. *)
Record route_ok (c : conn) (e : reading) (c' : conn) (t : ws_routed) (p : list request) : Prop := {
  ro_quiet : quiet c c';
  ro_assigned : assigned (pending c) (rd_response_id e) p;
  ro_cores : map core p ≡ₚ map core (option_list (ws_ended t) ++ ws_grouped t ++ pending c');
  ro_one : is_Some (ws_ended t) → ws_grouped t = [];
  ro_withheld : ws_withheld t = true → ws_ended t = None ∧ ws_grouped t = [];
  ro_created : is_Some (ws_created t) → ws_ended t = None ∧ ws_grouped t = [];
  ro_resolved : ∀ i, ws_created t = Some i → ∀ r, r ∈ pending c' → request_id r = i → is_Some (response_id r);
  ro_stable : is_Some (ws_ended t) ∨ ws_grouped t ≠ [] → p = pending c;
  ro_others : is_Some (ws_ended t) ∨ ws_grouped t ≠ [] → ws_others t = nonempty (pending c') }.

Lemma route_text_spec text e c c' t : NoDup (ids (pending c)) → route_text created text e c = (c', t) → ∃ p, route_ok c e c' t p.
Proof.
  intros Hnd. unfold route_text.
  destruct (ToolDedupe.rewrite_parallel_tool_call_text _ _ _) as [[[[txt payload] event] ty] bl].
  destruct (match_event e ty _ (pending c)) as [p m] eqn:Em. pose proof (λ i, match_created_resolved e ty (hints_of e true) (pending c) p i Hnd) as Hres. rewrite Em in Hres.
  apply match_event_spec in Em as (Ha & Hm & Hs).
  assert (NoDup (ids p)) as Hnp by (by rewrite (assigned_ids _ _ _ Ha)).
  assert (∀ i, (if in_set ty ["response.created"] then m else None) = Some i → ∀ r, r ∈ p → request_id r = i → is_Some (response_id r)) as Hcr.
  { intros i Hi. destruct (in_set ty ["response.created"]) eqn:Ec; [|done]. subst m. by apply Hres. }
  clear Hres.
  set (noted := match match m with Some i => deref i p | None => None end with Some r => _ | None => None end).
  assert (∀ b payload' r', noted = Some (b, payload', r') → ∃ r, r ∈ p ∧ request_id r' = request_id r ∧ core r' = core r) as Hn.
  { intros b payload' r'. subst noted. destruct (match m with Some i => deref i p | None => None end) as [r|] eqn:Ed; [|done].
    intros [= H]. apply noted_core in H. exists r. destruct m; [|done]. apply deref_Some in Ed as [? _].
    split_and!; [done|by apply core_request_id|done]. }
  destruct noted as [[[[] payload'] r']|] eqn:En.
  - destruct (Hn _ _ _ eq_refl) as (r & Hr & Hi & Hc). intros [= <- <-]. exists p. split; simpl; try done; try (by intros []); [|by intros [[]|[]]..].
    rewrite Hi. by rewrite (modify_map core).
  - destruct (Hn _ _ _ eq_refl) as (r & Hr & Hi & Hc). clear Hn En noted.
    set (r2 := if in_set ty TEXT_DELTA_EVENT_TYPES then _ else r').
    assert (core r2 = core r) as Hc2 by (unfold r2; case_if; done).
    assert (request_id r2 = request_id r) as Hi2 by (by apply core_request_id).
    rewrite Hi2. pose proof (modify_map core p r r2 Hnp Hr Hc2) as Hmod. set (p2 := modify _ _ p) in *.
    destruct (in_set ty TERMINAL_EVENTS && nonempty p2) eqn:Et.
    + destruct (end_request created e m _ _) as [[[c3 ended] grouped] w3] eqn:Ee. apply end_request_spec in Ee as (Hq & Hcs & Ho); last first.
      { assert (ids p2 ≡ₚ ids p) as H by (apply core_ids; by rewrite Hmod). simpl. by rewrite H. }
      intros [= <- <-]. apply andb_true_iff in Et as [Et _]. exists p. simpl in *.
      assert (in_set ty ["response.created"] = false) as Hnc.
      { destruct ty as [ty|]; [|done]. simpl in Et |- *. unfold mem in *. destruct (String.eqb_spec ty "response.created") as [->|]; done. }
      split; simpl; try done.
      * by rewrite <- Hmod.
      * rewrite Hnc. by intros [].
      * by rewrite Hnc.
      * intros _. by apply Hs.
    + intros [= <- <-]. exists p. split; simpl; try done; try (by intros []); [by rewrite Hmod| |by intros [[]|[]]..].
      intros i Hri x Hx Hxi. unfold p2, modify, update_where in Hx. apply elem_of_map in Hx as (y & -> & Hy).
      destruct (is_ref (request_id r) y) eqn:Ey; [|by eapply Hcr]. assert (response_id r2 = response_id r) as -> by (by injection Hc2).
      eapply Hcr; [exact Hri|done|]. congruence.
  - clear Hn En noted. destruct (in_set ty TERMINAL_EVENTS && nonempty p) eqn:Et.
    + destruct (end_request created e m _ _) as [[[c3 ended] grouped] w3] eqn:Ee. apply end_request_spec in Ee as (Hq & Hcs & Ho); [|done].
      intros [= <- <-]. apply andb_true_iff in Et as [Et _]. exists p. simpl in *.
      assert (in_set ty ["response.created"] = false) as Hnc.
      { destruct ty as [ty|]; [|done]. simpl in Et |- *. unfold mem in *. destruct (String.eqb_spec ty "response.created") as [->|]; done. }
      split; simpl; try done.
      * rewrite Hnc. by intros [].
      * by rewrite Hnc.
      * intros _. by apply Hs.
    + intros [= <- <-]. exists p. split; simpl; try done; try (by intros []); by intros [[]|[]].
Qed.

(** ** Accounts of requests and permits *)

Definition outcome (x : effect) : option string := match x with Settled i | FailedRequest i => Some i | _ => None end.
Definition answered (c : conn) : list string := omap outcome (effects c).
Definition replaying (c : conn) : list request := option_list (replay_request_state (control c)).
Definition permits (c : conn) : Z :=
  (Semaphore._value (create_gate c) + Z.of_nat (length (Semaphore.woken (create_gate c))))%Z.
Definition sound (c : conn) : Prop := (0 <= Semaphore._value (create_gate c))%Z.
Definition holders (l : list request) : Z := Z.of_nat (length (List.filter response_create_gate_acquired l)).

Lemma holders_app l k : holders (l ++ k) = (holders l + holders k)%Z.
Proof. unfold holders. rewrite List.filter_app, length_app. lia. Qed.

Lemma filter_perm_length {A} (P : A → bool) l k : l ≡ₚ k → length (List.filter P l) = length (List.filter P k).
Proof. induction 1; simpl; repeat case_match; simpl; lia. Qed.

Lemma holders_core p q : map core p ≡ₚ map core q → holders p = holders q.
Proof.
  intros H. assert (∀ l, holders l = Z.of_nat (length (List.filter (λ x, let '(_, _, _, _, _, _, _, _, b, _, _) := x in b) (map core l)))) as E.
  { intros l. unfold holders. f_equal. induction l as [|r l IH]; [done|]. simpl. destruct (response_create_gate_acquired r); simpl; lia. }
  rewrite !E. f_equal. by apply filter_perm_length.
Qed.

(** The requests [out] are answered or handed over for a replay, each once, and
    the permits they held are given back or kept for the replay. *)
Definition settled (c c' : conn) (out : list request) : Prop :=
  pending c' = pending c ∧
  answered c' ++ ids (replaying c') ≡ₚ ids out ++ answered c ++ ids (replaying c) ∧
  (permits c' + holders (replaying c') = permits c + holders (replaying c) + holders out)%Z ∧ (sound c → sound c').

Lemma settled_trans c1 c2 c3 a b : settled c1 c2 a → settled c2 c3 b → settled c1 c3 (a ++ b).
Proof.
  intros (P1 & A1 & H1 & S1) (P2 & A2 & H2 & S2). split_and!; [congruence| |rewrite holders_app; lia|auto].
  rewrite A2, A1, map_app, !app_assoc. by rewrite (Permutation_app_comm (ids b) (ids a)).
Qed.

Lemma settled_quiet c c' : quiet c c' → pending c' = pending c → settled c c' [].
Proof.
  intros (Hg & He & Hr) Hp. unfold settled, answered, replaying, permits, sound. rewrite Hg, He, Hr. split_and!; [done..| |done].
  unfold holders at 3. simpl. lia.
Qed.

(** Nothing changes in the books. *)
Definition same_books (c c' : conn) : Prop :=
  pending c' = pending c ∧ answered c' = answered c ∧ replaying c' = replaying c ∧ create_gate c' = create_gate c.

Lemma same_gate c c' : create_gate c' = create_gate c → permits c' = permits c ∧ (sound c → sound c').
Proof. intros H. unfold permits, sound. by rewrite H. Qed.

Lemma same_books_refl c : same_books c c.
Proof. done. Qed.

Lemma same_books_trans c1 c2 c3 : same_books c1 c2 → same_books c2 c3 → same_books c1 c3.
Proof. intros (? & ? & ? & ?) (? & ? & ? & ?). split_and!; congruence. Qed.

Lemma answered_emit es c : answered (emit es c) = answered c ++ omap outcome es.
Proof. unfold answered. simpl. apply omap_app. Qed.

Lemma same_books_emit es c : omap outcome es = [] → same_books c (emit es c).
Proof. intros H. split_and!; try done. by rewrite answered_emit, H, app_nil_r. Qed.

Lemma same_books_reconnect c : same_books c (request_reconnect c).
Proof. done. Qed.

Lemma settled_same c c' c'' out : same_books c c' → settled c' c'' out → settled c c'' out.
Proof.
  intros (P & A & R & [M S]%same_gate) (P' & A' & M' & S'). unfold settled. rewrite P', A', M', P, A, R, M. split_and!; auto.
Qed.

Lemma settled_then c c' c'' out : settled c c' out → same_books c' c'' → settled c c'' out.
Proof.
  intros (P' & A' & M' & S') (P & A & R & [M S]%same_gate). unfold settled. rewrite P, A, R, M. split_and!; auto.
Qed.

Lemma permits_release c : permits (c {{ create_gate := Semaphore.release (create_gate c) }}) = (permits c + 1)%Z ∧
  (sound c → sound (c {{ create_gate := Semaphore.release (create_gate c) }})).
Proof.
  unfold permits, sound. simpl. destruct (create_gate c) as [v [|f ws] k]; unfold Semaphore.release, Semaphore._wake_up_next; simpl;
    rewrite ?length_app; simpl; lia.
Qed.

(** The gate: the request keeps everything but its permit. *)
Lemma release_gate_spec r c r' c' : release_gate r c = (r', c') →
  request_id r' = request_id r ∧ response_id r' = response_id r ∧ response_create_gate_acquired r' = false ∧
  api_key_reservation r' = api_key_reservation r ∧
  pending c' = pending c ∧ answered c' = answered c ∧ replaying c' = replaying c ∧ permits c' = (permits c + holders [r])%Z ∧
  (sound c → sound c').
Proof.
  unfold release_gate, _release_websocket_response_create_gate. intros [= <- <-]. simpl.
  split_and!; try done.
  - rewrite answered_emit. unfold answered. simpl. destruct (response_create_admission r); simpl; by rewrite app_nil_r.
  - unfold holders. simpl. destruct (response_create_gate_acquired r); simpl.
    + apply permits_release.
    + unfold permits. simpl. lia.
  - destruct (response_create_gate_acquired r); [apply permits_release|done].
Qed.

Lemma settled_intro c c' r : pending c' = pending c → answered c' = answered c ++ [request_id r] → replaying c' = replaying c →
  permits c' = (permits c + holders [r])%Z → (sound c → sound c') → settled c c' [r].
Proof.
  intros Hp Ha Hr Hm Hs. split_and!; [done| |rewrite Hr; lia|done]. rewrite Ha, Hr. simpl.
  rewrite <- app_assoc. symmetry. apply Permutation_middle.
Qed.

Lemma release_reservation_silent rv : omap outcome (_release_websocket_reservation rv) = [].
Proof. by destruct rv. Qed.

Lemma settle_usage_silent key rv s : omap outcome (_settle_stream_api_key_usage key rv s) = [].
Proof. unfold _settle_stream_api_key_usage. repeat case_match; done. Qed.

(** The permit goes back, then what is written last answers the request. *)
Lemma settle_with r r1 c c1 c2 es : release_gate r c = (r1, c1) → same_books c1 c2 → omap outcome es = [request_id r] →
  settled c (emit es c2) [r].
Proof.
  intros (Hi & _ & _ & _ & Hp & Ha & Hr & Hm & Hs)%release_gate_spec (Hp2 & Ha2 & Hr2 & [Hm2 Hs2]%same_gate) He. apply settled_intro.
  - by rewrite <- Hp, <- Hp2.
  - by rewrite answered_emit, Ha2, Ha, He.
  - by rewrite <- Hr, <- Hr2.
  - by rewrite <- Hm, <- Hm2.
  - change (sound c → sound c2). auto.
Qed.

Lemma finalize_settled r event ty payload key c :
  settled c (_finalize_websocket_request_state account_id r event ty payload key c) [r].
Proof.
  unfold _finalize_websocket_request_state. destruct (release_gate r c) as [r1 c1] eqn:E.
  pose proof (release_gate_spec _ _ _ _ E) as (Hi & _).
  destruct (draining_until_terminal r).
  - eapply settle_with; [exact E|done|]. rewrite omap_app, release_reservation_silent, Hi. done.
  - eapply settle_with; [exact E| |rewrite omap_app, Hi; by destruct (skip_request_log r1)].
    eapply same_books_trans; [apply same_books_emit, settle_usage_silent|].
    repeat case_if; [|by apply same_books_emit|done].
    by eapply same_books_trans; [apply same_books_emit|apply same_books_reconnect].
Qed.

Lemma finalize_group_settled group key c c' texts :
  finalize_group account_id created group key c = (c', texts) → settled c c' group.
Proof.
  revert c c' texts. induction group as [|r rest IH]; intros c c' texts; [by intros [= <- _]; apply settled_quiet|].
  cbn [finalize_group]. destruct (_build_stream_incomplete_terminal_event_for_request created r) as [[[[text block] event] payload] ty].
  destruct (finalize_group account_id created rest key _) as [c2 ts] eqn:E. intros [= <- _]. apply IH in E.
  exact (settled_trans _ _ _ [r] rest (finalize_settled _ _ _ _ _ _) E).
Qed.


(** What may be sent again: a request that saw no response, was not sent again
    before and has a text; the text is its own or, without the anchor the
    proxy had put in, the client's. *)
Definition replay_of (r r' : request) : Prop :=
  response_id r = None ∧ (replay_count r < 1)%Z ∧ replay_count r' = (replay_count r + 1)%Z ∧
  request_id r' = request_id r ∧ response_id r' = None ∧ response_create_gate_acquired r' = response_create_gate_acquired r ∧
  (request_text r' = request_text r ∧ previous_response_id r' = previous_response_id r ∨
   request_text r' = fresh_upstream_request_text r ∧ previous_response_id r' = None ∧ fresh_upstream_request_is_retry_safe r = true) ∧
  truthy_s (request_text r') = true.

Lemma unresolved_None r : unresolved r = true → response_id r = None.
Proof. unfold unresolved. intros H%negb_true_iff%bool_decide_eq_false. by apply eq_None_not_Some. Qed.

Lemma retry_code_spec r ty payload others code : _websocket_precreated_retry_error_code r ty payload others = Some code →
  others = false ∧ response_id r = None ∧ (replay_count r < 1)%Z ∧ truthy_s (request_text r) = true.
Proof.
  unfold _websocket_precreated_retry_error_code. destruct (_ || negb (in_set ty _)) eqn:E; [done|]. intros _.
  rewrite !orb_false_iff, !negb_false_iff, Z.leb_gt in E. destruct E as ((((((? & ?%unresolved_None) & _) & _) & ?) & ?) & _). done.
Qed.

Lemma maybe_rewrite_books r w c w' c' :
  _maybe_rewrite_websocket_previous_response_not_found_event created r w c = (w', c') → same_books c c'.
Proof.
  unfold _maybe_rewrite_websocket_previous_response_not_found_event, _rewrite_websocket_continuity_corruption_event.
  destruct w as [[[event payload] ty] text]. repeat case_match; intros [= <- <-]; done.
Qed.

Lemma refuse_pinned_spec r retry w c w' c' retry' :
  refuse_pinned created r retry w c = (w', c', retry') → same_books c c' ∧ (retry' = retry ∨ retry' = None).
Proof.
  unfold refuse_pinned. destruct w as [[[ev p] ty] t]. destruct retry as [code|]; [|by intros [= _ <- <-]; split; [|left]].
  case_if; intros [= _ <- <-]; [|by split; [|left]]. split; [by apply same_books_emit|by right].
Qed.

Lemma finalize_replay r event ty payload key c :
  replay_request_state (control (_finalize_websocket_request_state account_id r event ty payload key c)) = replay_request_state (control c).
Proof.
  unfold _finalize_websocket_request_state, release_gate. destruct (_release_websocket_response_create_gate r (create_gate c)) as [[? ?] ?].
  repeat case_if; done.
Qed.

(** A request handed over for a replay is in the books as one that left. *)
Lemma replay_settled c c2 c3 r r' : replaying c = [] → same_books c c2 → replay_of r r' →
  pending c3 = pending c2 → answered c3 = answered c2 → create_gate c3 = create_gate c2 → replay_request_state (control c3) = Some r' →
  settled c c3 [r].
Proof.
  intros Hnone (P2 & A2 & _ & [M2 S2]%same_gate) (_ & _ & _ & Hi & _ & Hg & _) P A [M S]%same_gate Hc3.
  assert (replaying c3 = [r']) as Hr3 by (unfold replaying; by rewrite Hc3). split_and!; [congruence| | |auto].
  - rewrite Hr3, Hnone. simpl. rewrite Hi, app_nil_r, A, A2. symmetry. apply Permutation_cons_append.
  - rewrite Hr3, Hnone, M, M2. unfold holders. simpl. rewrite Hg. destruct (response_create_gate_acquired r); simpl; lia.
Qed.

Lemma settle_or_replay_spec e r key others w c c' text :
  replaying c = [] → settle_or_replay account_id created e r key others w c = (c', text) →
  settled c c' [r] ∧ (∀ r', replay_request_state (control c') = Some r' → others = false ∧ replay_of r r' ∧
    reconnect_requested (control c') = true).
Proof.
  intros Hnone. unfold settle_or_replay. destruct w as [[[ev0 p0] ty0] t0].
  destruct (_maybe_rewrite_websocket_previous_response_not_found_event created r _ c) as [w1 c1] eqn:E1.
  apply maybe_rewrite_books in E1. destruct w1 as [[[ev1 p1] ty1] t1].
  set (retry := match _websocket_precreated_retry_error_code r ty0 p0 others with Some _ => _ | None => _ end).
  assert (∀ code, retry = Some code → others = false ∧ response_id r = None ∧ (replay_count r < 1)%Z ∧ truthy_s (request_text r) = true) as Hretry.
  { intros code. unfold retry. case_match eqn:E0; [intros _|]; by eapply retry_code_spec. }
  destruct (refuse_pinned created r retry _ c1) as [[w2 c2] retry2] eqn:E2. apply refuse_pinned_spec in E2 as [H2 Hr2].
  assert (same_books c c2) as Hb by (by eapply same_books_trans). clear E1 H2 c1. destruct w2 as [[[ev2 p2] ty2] t2].
  destruct (if not_found e && negb _ then None else retry2) as [code|] eqn:Ec.
  - assert (retry = Some code) as Hcode by (case_if_in Ec; [done|]; destruct Hr2 as [->| ->]; done).
    destruct (Hretry _ Hcode) as (Ho & Hid & Hc & Ht). destruct (not_found e) eqn:Enf.
    + destruct (fresh_upstream_request_is_retry_safe r && truthy_s (fresh_upstream_request_text r)) eqn:Hs; [|done].
      apply andb_true_iff in Hs as [Hs Hft].
      assert (replay_of r (count_replay (drop_anchor r))) as Hro by (split_and!; try done; by right).
      intros [= <- _]. split; [by eapply (replay_settled c c2)|]. by intros r' [= <-].
    + assert (replay_of r (count_replay r)) as Hro by (split_and!; try done; by left).
      intros [= <- _]. split; [|by intros r' [= <-]]. eapply (replay_settled c c2); try done. rewrite answered_emit. by rewrite app_nil_r.
  - intros [= <- _]. split.
    + eapply settled_same; [exact Hb|]. eapply settled_same; [|apply finalize_settled]. by destruct (in_set ty2 _).
    + intros r'. rewrite finalize_replay. destruct Hb as (_ & _ & R2 & _). rewrite Hnone in R2. unfold replaying in R2.
      assert (replay_request_state (control c2) = None) as Hn by (by destruct (replay_request_state (control c2))).
      destruct (in_set ty2 _); intros Hr'; change (replay_request_state (control c2) = Some r') in Hr'; congruence.
Qed.


(** ** Conservation *)

(** Every request is still pending, answered or handed over for a replay, and
    so is every permit. *)
Definition conserved (c c' : conn) : Prop :=
  ids (pending c') ++ answered c' ++ ids (replaying c') ≡ₚ ids (pending c) ++ answered c ++ ids (replaying c) ∧
  (permits c' + holders (pending c') + holders (replaying c') = permits c + holders (pending c) + holders (replaying c))%Z ∧
  (sound c → sound c').

Lemma conserved_trans c1 c2 c3 : conserved c1 c2 → conserved c2 c3 → conserved c1 c3.
Proof. intros (A1 & H1 & S1) (A2 & H2 & S2). split_and!; [by rewrite A2|lia|auto]. Qed.

Lemma conserved_same c c' : same_books c c' → conserved c c'.
Proof. intros (P & A & R & [M S]%same_gate). unfold conserved. by rewrite P, A, R, M. Qed.

Lemma modify_holders i f p : (∀ r, response_create_gate_acquired (f r) = response_create_gate_acquired r) → holders (modify i f p) = holders p.
Proof.
  intros H. unfold holders, modify, update_where. f_equal. induction p as [|r p IH]; [done|]. simpl.
  destruct (is_ref i r); rewrite ?H; destruct (response_create_gate_acquired r); simpl; lia.
Qed.

Lemma assigned_holders p rid p' : assigned p rid p' → holders p' = holders p.
Proof. intros [->|(r & i & _ & _ & _ & _ & ->)]; [done|]. by apply modify_holders. Qed.

(** Requests leave the queue and are then settled. *)
Lemma conserved_leave c c1 c2 p out : quiet c c1 → ids p = ids (pending c) → holders p = holders (pending c) →
  map core p ≡ₚ map core (out ++ pending c1) → settled c1 c2 out → conserved c c2.
Proof.
  intros (Hg & He & Hr) Hi Hh Hc (P & A & M & S). apply core_ids in Hc as Hids. apply holders_core in Hc.
  rewrite Hi, map_app in Hids. rewrite Hh, holders_app in Hc.
  assert (answered c1 = answered c ∧ replaying c1 = replaying c ∧ permits c1 = permits c) as (E1 & E2 & E3)
    by (unfold answered, replaying, permits; by rewrite Hg, He, Hr).
  rewrite E1, E2 in A. rewrite E2, E3 in M. split_and!; [|rewrite P; lia|intros Hs; apply S; unfold sound; by rewrite Hg].
  rewrite P, A, Hids, !app_assoc. by rewrite (Permutation_app_comm (ids (pending c1)) (ids out)).
Qed.

Lemma modify_released p r r' : NoDup (ids p) → r ∈ p → response_create_gate_acquired r' = false →
  (holders (modify (request_id r) (λ _, r') p) + holders [r] = holders p)%Z.
Proof.
  intros Hnd Hr Hg. induction p as [|x p IH]; [by apply not_elem_of_nil in Hr|].
  apply NoDup_cons in Hnd as [Hx Hnd]. change (x :: p) with ([x] ++ p). unfold modify, update_where in *. rewrite map_app, !holders_app. simpl map.
  destruct (is_ref (request_id r) x) eqn:E.
  - apply is_ref_true in E. assert (x = r) as ->.
    { apply elem_of_cons in Hr as [->|Hr]; [done|]. exfalso. apply Hx. rewrite E. apply elem_of_map. eauto. }
    assert (map (λ r0, if is_ref (request_id r) r0 then r' else r0) p = p) as ->.
    { clear -Hx. induction p as [|y p IH]; [done|]. simpl. rewrite IH by (intros H; apply Hx; by right).
      destruct (is_ref (request_id r) y) eqn:E; [|done]. apply is_ref_true in E. exfalso. apply Hx. simpl. rewrite E. by left. }
    unfold holders at 1. simpl. rewrite Hg. simpl. lia.
  - apply elem_of_cons in Hr as [->|Hr]; [by rewrite is_ref_refl in E|]. specialize (IH Hnd Hr). lia.
Qed.

Lemma omap_of_map {A B} (f : A → option B) l k : map f l = map f k → omap f l = omap f k.
Proof.
  assert (∀ l, omap f l = omap id (map f l)) as H by (induction l0 as [|x l0 IH]; [done|]; csimpl; destruct (f x); simpl; congruence).
  rewrite !H. by intros ->.
Qed.

Lemma release_created_conserved ref c : NoDup (ids (pending c)) →
  conserved c (release_created ref c) ∧ ids (pending (release_created ref c)) = ids (pending c) ∧
  omap response_id (pending (release_created ref c)) = omap response_id (pending c) ∧
  replaying (release_created ref c) = replaying c ∧ control (release_created ref c) = control c.
Proof.
  intros Hnd. unfold release_created. destruct (match ref with Some i => _ | None => _ end) as [r|] eqn:Ed; [|done].
  destruct ref as [i|]; [|done]. apply deref_Some in Ed as [Hr _].
  destruct (release_gate r c) as [r1 c1] eqn:Eg. assert (control c1 = control c) as Hctl.
  { unfold release_gate in Eg. destruct (_release_websocket_response_create_gate r (create_gate c)) as [[? ?] ?]. by injection Eg as _ <-. }
  apply release_gate_spec in Eg as (Hi & Hri & Hg & _ & Hp & Ha & Hrp & Hm & Hs). rewrite Hi, Hp.
  assert (ids (modify (request_id r) (λ _, r1) (pending c)) = ids (pending c)) as Hids by (by apply modify_map).
  split_and!; try done.
  - split_and!; [| |done].
    + change (ids (modify (request_id r) (λ _, r1) (pending c)) ++ answered c1 ++ ids (replaying c1) ≡ₚ
              ids (pending c) ++ answered c ++ ids (replaying c)). by rewrite Hids, Ha, Hrp.
    + change (permits c1 + holders (modify (request_id r) (λ _, r1) (pending c)) + holders (replaying c1) =
              permits c + holders (pending c) + holders (replaying c))%Z. rewrite Hrp, Hm.
      pose proof (modify_released (pending c) r r1 Hnd Hr Hg). lia.
  - change (omap response_id (modify (request_id r) (λ _, r1) (pending c)) = omap response_id (pending c)).
    apply omap_of_map. by apply modify_map.
Qed.


(** ** Response ids *)

Definition core_response (x : string * option string * bool * option string * Z * option string * (bool * option string * bool)
                              * option string * bool * bool * Z) : option string :=
  let '(_, i, _, _, _, _, _, _, _, _, _) := x in i.

Lemma core_responses p q : map core p ≡ₚ map core q → omap response_id p ≡ₚ omap response_id q.
Proof.
  intros H. assert (∀ l, omap response_id l = omap core_response (map core l)) as E.
  { induction l as [|r l IH]; [done|]. csimpl. destruct (response_id r); congruence. }
  rewrite !E. by rewrite H.
Qed.

Lemma modify_other i f p : i ∉ ids p → modify i f p = p.
Proof.
  intros H. unfold modify, update_where. induction p as [|x p IH]; [done|]. simpl in *. apply not_elem_of_cons in H as [Hx Hp].
  rewrite IH by done. destruct (is_ref i x) eqn:E; [|done]. apply is_ref_true in E. congruence.
Qed.

Lemma modify_perm p r f : NoDup (ids p) → r ∈ p → modify (request_id r) f p ≡ₚ f r :: remove_ref (request_id r) p.
Proof.
  intros Hnd Hr. pose proof (remove_ref_perm p r Hnd Hr) as Hp. apply (NoDup_ids_perm _ _ Hp) in Hnd as Hnd'.
  apply NoDup_cons in Hnd' as [Hn _].
  transitivity (modify (request_id r) f (r :: remove_ref (request_id r) p)); [by apply Permutation_map|].
  pose proof (modify_other (request_id r) f _ Hn) as E. unfold modify, update_where in *. simpl. by rewrite is_ref_refl, E.
Qed.

Lemma assigned_responses p rid p' : NoDup (ids p) → assigned p rid p' → NoDup (omap response_id p) → NoDup (omap response_id p').
Proof.
  intros Hnd [->|(r & i & _ & Hr & Hn & Hi & ->)] Hd; [done|]. rewrite modify_perm by done. csimpl. apply NoDup_cons.
  rewrite (remove_ref_perm p r Hnd Hr) in Hd. csimpl in Hd. rewrite Hn in Hd. split; [|done].
  intros (x & Hx & Hxi)%list_elem_of_omap. apply (Hi x); [by apply remove_ref_sub in Hx|done].
Qed.

(** A request without a response holds a permit, and was sent twice at most. *)
Definition okreq (r : request) : Prop :=
  (response_id r = None → response_create_gate_acquired r = true) ∧ (0 <= replay_count r <= 1)%Z.

Lemma okreq_core r r' : core r' = core r → okreq r → okreq r'.
Proof. intros Hc. unfold core in Hc. injection Hc as E1 E2 E3 E4 E5 E6 E7 E8 E9 E10 E11 E12 E13. unfold okreq. by rewrite E2, E5, E11. Qed.

Lemma okreq_cores p q : map core p ≡ₚ map core q → Forall okreq p → Forall okreq q.
Proof.
  intros Hc. rewrite !Forall_forall. intros Hp r Hr. assert (core r ∈ map core p) as (r0 & E & Hr0)%elem_of_map.
  { rewrite Hc. apply elem_of_map. eauto. } eapply okreq_core; eauto.
Qed.

Lemma assigned_okreq p rid p' : assigned p rid p' → Forall okreq p → Forall okreq p'.
Proof.
  intros [->|(r & i & _ & _ & _ & _ & ->)] H; [done|]. unfold modify, update_where. rewrite Forall_forall in *.
  intros x (y & -> & Hy)%elem_of_map. destruct (is_ref _ y); [|auto]. split; [done|]. by apply (H y).
Qed.

(** What holds between two texts. *)
Record relay_inv (c : conn) : Prop := {
  ri_ids : NoDup (ids (pending c));
  ri_responses : NoDup (omap response_id (pending c));
  ri_requests : Forall okreq (pending c);
  ri_replay : replaying c = [] }.

Lemma replay_of_core r0 r r' : core r = core r0 → replay_of r r' → replay_of r0 r'.
Proof.
  intros Hc. unfold core in Hc. injection Hc as E1 E2 E3 E4 E5 E6 E7 E8 E9 E10 E11 E12 E13.
  unfold replay_of. by rewrite E1, E2, E4, E5, E6, E8, E9, E11.
Qed.

(** The request that ended is one of the pending ones; when it is sent again it
    was the only one. *)
Definition replay_ok (c c' : conn) : Prop :=
  ∀ r', replay_request_state (control c') = Some r' →
    pending c' = [] ∧ reconnect_requested (control c') = true ∧ ∃ r, pending c = [r] ∧ replay_of r r'.

Lemma record_event_replay ty r r' : replay_of (_record_response_event ty r) r' → replay_of r r'.
Proof. unfold _record_response_event. repeat case_match; done. Qed.

Lemma settled_one c c1 c2 e t p r r1 : relay_inv c → route_ok c e c1 t p → option_list (ws_ended t) ++ ws_grouped t = [r] →
  request_id r1 = request_id r → response_create_gate_acquired r1 = response_create_gate_acquired r → settled c1 c2 [r1] → conserved c c2.
Proof.
  intros [Hnd _ _ _] Hok Ht Hi Hg (P & A & M & S). destruct Hok as [Hq Ha Hc _ _ _ _ _ _].
  eapply (conserved_leave c c1 c2 p [r]); [done|by eapply assigned_ids|by eapply assigned_holders| |].
  - by rewrite Hc, app_assoc, Ht.
  - split_and!; [done| | |done].
    + rewrite A. simpl. by rewrite Hi.
    + rewrite M. unfold holders. simpl. rewrite Hg. by destruct (response_create_gate_acquired r).
Qed.

Lemma unclaimed_books e text c c' text' : unclaimed created current_request_id e text c = (c', text') → same_books c c' ∧
  replay_request_state (control c') = replay_request_state (control c).
Proof. unfold unclaimed. repeat case_if; intros [= <- _]; done. Qed.

Lemma finalize_group_replay group key c c' texts :
  finalize_group account_id created group key c = (c', texts) → replay_request_state (control c') = replay_request_state (control c).
Proof.
  revert c c' texts. induction group as [|r rest IH]; intros c c' texts; [by intros [= <- _]|]. cbn [finalize_group].
  destruct (_build_stream_incomplete_terminal_event_for_request created r) as [[[[? ?] event] payload] ty].
  destruct (finalize_group account_id created rest key _) as [c2 ts] eqn:E. intros [= <- _]. apply IH in E.
  by rewrite E, finalize_replay.
Qed.

(** What a text does to the connection. *)
Record text_ok (c c' : conn) : Prop := {
  tk_conserved : conserved c c';
  tk_responses : NoDup (omap response_id (pending c'));
  tk_requests : Forall okreq (pending c' ++ replaying c');
  tk_replay : replay_ok c c' }.

Lemma route_responses c e c1 t p : relay_inv c → route_ok c e c1 t p → NoDup (omap response_id (pending c1)).
Proof.
  intros [Hnd Hresp _ _] [_ Ha Hc _ _ _ _ _ _]. apply (assigned_responses _ _ _ Hnd Ha) in Hresp.
  apply core_responses in Hc. rewrite Hc, !omap_app in Hresp. apply NoDup_app in Hresp as (_ & _ & H). by apply NoDup_app in H as (_ & _ & ?).
Qed.

Lemma route_requests c e c1 t p : relay_inv c → route_ok c e c1 t p → Forall okreq (option_list (ws_ended t) ++ ws_grouped t ++ pending c1).
Proof.
  intros [_ _ Hreq _] [_ Ha Hc _ _ _ _ _ _]. eapply okreq_cores; [exact Hc|]. by eapply assigned_okreq.
Qed.

Lemma release_created_requests ref c : NoDup (ids (pending c)) →
  (∀ i, ref = Some i → ∀ r, r ∈ pending c → request_id r = i → is_Some (response_id r)) →
  Forall okreq (pending c) → Forall okreq (pending (release_created ref c)).
Proof.
  intros Hnd Hres Hreq. unfold release_created. destruct (match ref with Some i => _ | None => _ end) as [r|] eqn:Ed; [|done].
  destruct ref as [i|]; [|done]. apply deref_Some in Ed as [Hr Hi]. specialize (Hres i eq_refl r Hr Hi) as [x Hx].
  destruct (release_gate r c) as [r1 c1] eqn:Eg. assert (replay_count r1 = replay_count r) as Hrc.
  { unfold release_gate in Eg. destruct (_release_websocket_response_create_gate r (create_gate c)) as [[? ?] ?] eqn:E.
    injection E as <- _ _. by injection Eg as <- _. }
  apply release_gate_spec in Eg as (Hi1 & Hri & _ & _ & Hp & _). change (Forall okreq (modify (request_id r1) (λ _, r1) (pending c1))).
  rewrite Hp. unfold modify, update_where. rewrite Forall_forall in *. intros y (z & -> & Hz)%elem_of_map.
  destruct (is_ref _ z); [|auto]. split; [by rewrite Hri, Hx|]. rewrite Hrc. by apply Hreq.
Qed.

(** Nothing left: the books and the queue are those after routing. *)
Lemma text_ok_quiet c e c1 c2 t p : relay_inv c → route_ok c e c1 t p → ws_ended t = None → ws_grouped t = [] →
  conserved c1 c2 → NoDup (omap response_id (pending c2)) → Forall okreq (pending c2) →
  replay_request_state (control c2) = replay_request_state (control c1) → text_ok c c2.
Proof.
  intros Hinv Hok He Hg Hc Hr Hreq Hrep. destruct Hok as [Hq Ha Hcore _ _ _ _ _ _]. rewrite He, Hg in Hcore. simpl in Hcore. split; [|done| |].
  - eapply conserved_trans; [|exact Hc]. eapply (conserved_leave c c1 c1 p []); [done|by eapply assigned_ids|by eapply assigned_holders|done|].
    by apply settled_quiet.
  - apply Forall_app. split; [done|]. unfold replaying. rewrite Hrep. destruct Hq as (_ & _ & ->). destruct Hinv as [_ _ _ Hn]. unfold replaying in Hn. by rewrite Hn.
  - intros r'. rewrite Hrep. destruct Hq as (_ & _ & ->). destruct Hinv as [_ _ _ Hn]. unfold replaying in Hn.
    by destruct (replay_request_state (control c)).
Qed.

(** One request left, and was settled or sent again. *)
Lemma text_ok_one c e c1 t p r r1 c1' others key w c2 out : relay_inv c → route_ok c e c1 t p → option_list (ws_ended t) ++ ws_grouped t = [r] →
  r1 = _record_response_event w.1.2 r → same_books c1 c1' → control c1' = control c1 → others = ws_others t →
  settle_or_replay account_id created e r1 key others w c1' = (c2, out) → text_ok c c2.
Proof.
  intros Hinv Hok Ht -> Hb Hctl -> Hs.
  assert (replaying c1' = []) as Hnone.
  { destruct Hb as (_ & _ & -> & _). unfold replaying. destruct (ro_quiet _ _ _ _ _ Hok) as (_ & _ & ->). by destruct Hinv. }
  apply settle_or_replay_spec in Hs as [Hset Hrep]; [|done].
  assert (settled c1 c2 [_record_response_event w.1.2 r]) as Hset' by (by eapply settled_same).
  assert (is_Some (ws_ended t) ∨ ws_grouped t ≠ []) as Hleft by (destruct (ws_ended t); [left; eauto|right; simpl in Ht; by rewrite Ht]).
  split.
  - eapply settled_one; [done..| | |exact Hset']; unfold _record_response_event; repeat case_match; done.
  - destruct Hset' as (-> & _). by eapply route_responses.
  - pose proof (route_requests _ _ _ _ _ Hinv Hok) as Hreq. rewrite app_assoc, Ht in Hreq. apply Forall_app in Hreq as [Hreq1 Hreq2].
    apply Forall_app. destruct Hset' as (-> & _). split; [done|]. unfold replaying.
    destruct (replay_request_state (control c2)) as [r'|] eqn:Er; [|done]. destruct (Hrep r' eq_refl) as (_ & Hro%record_event_replay & _).
    apply Forall_singleton in Hreq1 as [Hg Hcount]. destruct Hro as (Hn & Hlt & Hcnt & _ & _ & Hgate & _). apply Forall_singleton.
    split; [intros _; rewrite Hgate; auto|lia].
  - intros r' Hr'. destruct (Hrep _ Hr') as (Ho & Hro & Hrc). rewrite (ro_others _ _ _ _ _ Hok Hleft) in Ho.
    destruct Hset' as (Hp2 & _). assert (pending c1 = []) as Hp1 by (by destruct (pending c1)). split_and!; [by rewrite Hp2|done|].
    pose proof (ro_cores _ _ _ _ _ Hok) as Hc. rewrite Hp1, app_nil_r, Ht, (ro_stable _ _ _ _ _ Hok Hleft) in Hc. simpl in Hc.
    symmetry in Hc. apply Permutation_singleton_l in Hc. destruct (pending c) as [|r0 [|]]; try done. injection Hc as Hc. exists r0. split; [done|].
    eapply replay_of_core; [|by eapply record_event_replay]. unfold core. congruence.
Qed.

Lemma process_text_ok text key c c' out : relay_inv c →
  _process_upstream_websocket_text account_id created current_request_id text key c = (c', out) → text_ok c c'.
Proof.
  intros Hinv. unfold _process_upstream_websocket_text. set (e := read_event text).
  destruct (route_text created text e c) as [c1 t] eqn:Er. apply route_text_spec in Er as [p Hok]; [|by destruct Hinv].
  pose proof (route_responses _ _ _ _ _ Hinv Hok) as Hresp1. pose proof (route_requests _ _ _ _ _ Hinv Hok) as Hreq1.
  rewrite app_assoc in Hreq1. apply Forall_app in Hreq1 as [_ Hreq1]. destruct (ws_event t) as [[[event payload] ty] txt].
  destruct (ws_withheld t) eqn:Ew.
  { intros [= <- _]. destruct (ro_withheld _ _ _ _ _ Hok Ew) as [He Hg]. by eapply text_ok_quiet. }
  assert (NoDup (ids (pending c1))) as Hnd1.
  { destruct Hinv as [Hnd _ _ _], Hok as [_ Ha Hc _ _ _ _ _ _]. rewrite <- (assigned_ids _ _ _ Ha) in Hnd. apply core_ids in Hc.
    rewrite Hc, !map_app in Hnd. apply NoDup_app in Hnd as (_ & _ & H). by apply NoDup_app in H as (_ & _ & ?). }
  assert (replay_request_state (control c1) = None) as Hn1.
  { destruct (ro_quiet _ _ _ _ _ Hok) as (_ & _ & ->). destruct Hinv as [_ _ _ Hn]. unfold replaying in Hn. by destruct (replay_request_state _). }
  destruct (release_created_conserved (ws_created t) c1 Hnd1) as (Hcc & Hci & Hcr & Hcp & Hctl).
  assert (ws_ended t = None ∧ ws_grouped t = [] ∨ release_created (ws_created t) c1 = c1) as Hcase.
  { destruct (ws_created t) as [i|] eqn:Ecr; [|by right]. left. apply (ro_created _ _ _ _ _ Hok). by rewrite Ecr. }
  destruct Hcase as [[He Hg]|Hsame].
  { rewrite He, Hg. intros [Hu Hur]%unclaimed_books. eapply text_ok_quiet; [done..| | | |].
    - eapply conserved_trans; [exact Hcc|by apply conserved_same].
    - destruct Hu as (-> & _). by rewrite Hcr.
    - destruct Hu as (-> & _). apply release_created_requests; [done| |done]. apply (ro_resolved _ _ _ _ _ Hok).
    - by rewrite Hur, Hctl. }
  rewrite Hsame. clear Hcc Hci Hcr Hcp Hctl Hsame.
  destruct (ws_grouped t) as [|g1 [|g2 gs]] eqn:Eg.
  - destruct (ws_ended t) as [r|] eqn:Ee.
    + intros Hs. eapply (text_ok_one c e c1 t p r _ _ _ _ _ _ _ Hinv Hok); [| | | | |exact Hs]; [by rewrite Ee, Eg|done|case_if; [done|by apply same_books_emit]|by case_if|done].
    + intros [Hu Hur]%unclaimed_books. eapply text_ok_quiet; [done..| | | |done]; [by apply conserved_same|by destruct Hu as (-> & _)..].
  - assert (ws_ended t = None) as Ee.
    { destruct (ws_ended t) eqn:Ee; [|done]. pose proof (ro_one _ _ _ _ _ Hok) as H. rewrite Ee, Eg in H. by specialize (H (ex_intro _ _ eq_refl)). }
    rewrite Ee. intros Hs.
    eapply (text_ok_one c e c1 t p g1 _ _ _ _ _ _ _ Hinv Hok); [| | | | |exact Hs]; [by rewrite Ee, Eg|done|case_if; [done|by apply same_books_emit]|by case_if|done].
  - destruct (finalize_group account_id created (g1 :: g2 :: gs) key _) as [c2 texts] eqn:Ef. intros [= <- _].
    apply finalize_group_replay in Ef as Hfr. apply finalize_group_settled in Ef as Hfs.
    assert (ws_ended t = None) as Ee.
    { destruct (ws_ended t) eqn:Ee; [|done]. pose proof (ro_one _ _ _ _ _ Hok) as H. rewrite Ee, Eg in H. by specialize (H (ex_intro _ _ eq_refl)). }
    assert (settled c1 c2 (ws_grouped t)) as Hset by (rewrite Eg; by eapply settled_same).
    split.
    + destruct Hok as [Hq Ha Hc _ _ _ _ _ _]. rewrite Ee in Hc. simpl in Hc.
      eapply conserved_trans; [|by apply (conserved_same c2)].
      eapply (conserved_leave c c1 c2 p (ws_grouped t)); [done|by eapply assigned_ids|by eapply assigned_holders|done|done].
    + destruct Hset as (Hp & _). change (NoDup (omap response_id (pending c2))). by rewrite Hp.
    + destruct Hset as (Hp & _). change (Forall okreq (pending c2 ++ replaying c2)). apply Forall_app. rewrite Hp. split; [done|].
      unfold replaying. rewrite Hfr. change (replay_request_state (control (request_reconnect c1))) with (replay_request_state (control c1)). by rewrite Hn1.
    + intros r' Hr'. change (replay_request_state (control c2) = Some r') in Hr'. rewrite Hfr in Hr'. change (replay_request_state (control c1) = Some r') in Hr'. congruence.
Qed.


(** ** Failing requests *)

Lemma fail_one_settled f r c : settled c (fail_one created f r c) [r] ∧ control (fail_one created f r c) = control c.
Proof.
  unfold fail_one. destruct (release_gate r c) as [r1 c1] eqn:E. pose proof (release_gate_spec _ _ _ _ E) as (Hi & _). split.
  - eapply settle_with; [exact E|done|]. rewrite !omap_app, release_reservation_silent, Hi.
    destruct (event_queue r1), (fl_to_client f), (fl_account_id f), (skip_request_log r1); done.
  - unfold release_gate in E. destruct (_release_websocket_response_create_gate r (create_gate c)) as [[? ?] ?]. by injection E as _ <-.
Qed.

Lemma fail_requests_settled f out c : settled c (fail_requests created f out c) out ∧ control (fail_requests created f out c) = control c.
Proof.
  assert (∀ c, settled c (fold_left (λ c r, fail_one created f r c) out c) out ∧
               control (fold_left (λ c r, fail_one created f r c) out c) = control c) as H.
  { clear c. induction out as [|r out IH]; intros c; [split; [by apply settled_quiet|done]|]. simpl.
    destruct (IH (fail_one created f r c)) as [H1 H2], (fail_one_settled f r c) as [H3 H4].
    split; [exact (settled_trans _ _ _ [r] out H3 H1)|congruence]. }
  unfold fail_requests. set (c1 := if _ && _ then _ else c). destruct (H c1) as [H1 H2].
  assert (same_books c c1 ∧ control c1 = control c) as [Hb Hc] by (unfold c1; repeat case_match; done || (split; [by apply same_books_emit|done])).
  split; [by eapply settled_same|congruence].
Qed.

Lemma leave_conserved c c2 p out : pending c ≡ₚ out ++ p → settled (set_pending p c) c2 out → conserved c c2.
Proof. intros Hp Hs. eapply (conserved_leave c (set_pending p c) c2 (pending c) out); try done. by rewrite Hp. Qed.

Lemma filter_partition {A} (P : A → bool) l : l ≡ₚ List.filter P l ++ List.filter (λ x, negb (P x)) l.
Proof.
  induction l as [|x l IH]; [done|]. simpl. destruct (P x); simpl; [by f_equiv|]. rewrite IH at 1. apply Permutation_middle.
Qed.

Lemma fail_pending_spec f c : conserved c (_fail_pending_websocket_requests created f c) ∧
  pending (_fail_pending_websocket_requests created f c) = [] ∧ control (_fail_pending_websocket_requests created f c) = control c.
Proof.
  unfold _fail_pending_websocket_requests. destruct (fail_requests_settled f (pending c) (set_pending [] c)) as [Hs Hc]. split_and!; [|by apply Hs|done].
  eapply (leave_conserved c _ []); [by rewrite app_nil_r|done].
Qed.

Lemma fail_expired_spec now budget f c : let c' := _fail_expired_pending_websocket_requests created now budget f c in
  conserved c c' ∧ pending c' = List.filter (λ r, negb (expired now budget r)) (pending c) ∧ control c' = control c.
Proof.
  unfold _fail_expired_pending_websocket_requests. set (out := List.filter (expired now budget) (pending c)).
  set (p := List.filter (λ r, negb (expired now budget r)) (pending c)).
  destruct (fail_requests_settled f out (set_pending p c)) as [Hs Hc]. split_and!; [|by apply Hs|done].
  eapply leave_conserved; [|exact Hs]. apply filter_partition.
Qed.

Lemma send_all_spec key texts accepted c c' gone : send_all account_id created key texts accepted c = (c', gone) →
  conserved c c' ∧ control c' = control c ∧ (if gone then pending c' = [] else pending c' = pending c).
Proof.
  unfold send_all. set (c1 := emit _ c). assert (same_books c c1) as Hb.
  { apply same_books_emit. induction (take accepted texts); done. }
  case_if; intros [= <- <-].
  - destruct (fail_pending_spec (client_gone account_id key) c1) as (H1 & H2 & H3). split_and!; [|by rewrite H3|done].
    eapply conserved_trans; [by apply conserved_same|done].
  - split_and!; [by apply conserved_same|done|by apply Hb].
Qed.

(** ** One round of the reader *)

Record step_ok (c c' : conn) (stop : bool) : Prop := {
  so_conserved : conserved c c';
  so_responses : NoDup (omap response_id (pending c'));
  so_requests : Forall okreq (pending c' ++ replaying c');
  so_replay : replay_ok c c';
  so_stop : if stop then pending c' = [] else replaying c' = [] }.

Lemma omap_sub {A B} (f : A → option B) l k : l `sublist_of` k → omap f l `sublist_of` omap f k.
Proof.
  induction 1 as [|x l k _ IH|x l k _ IH]; [done| |]; csimpl; destruct (f x); try done; by constructor.
Qed.

(** A round that only loses requests. *)
Lemma step_ok_fewer c c' stop : relay_inv c → conserved c c' → pending c' `sublist_of` pending c →
  replay_request_state (control c') = replay_request_state (control c) → (stop = true → pending c' = []) → step_ok c c' stop.
Proof.
  intros [Hnd Hresp Hreq Hn] Hc Hp Hr Hs.
  assert (replay_request_state (control c) = None) as Hnone by (unfold replaying in Hn; by destruct (replay_request_state (control c))).
  assert (replaying c' = []) as Hn' by (unfold replaying; by rewrite Hr, Hnone). split; try done.
  - eapply sublist_NoDup; [exact Hresp|by apply omap_sub].
  - rewrite Hn', app_nil_r. rewrite Forall_forall in *. intros r Hin. apply Hreq. by eapply sub_elem.
  - intros r'. rewrite Hr, Hnone. done.
  - destruct stop; auto.
Qed.

Lemma relay_text_ok key text accepted budget waited c c' stop : relay_inv c →
  relay_step sha256 account_id created current_request_id key budget waited (Arrived (UpstreamText text) accepted) c = (c', stop) →
  step_ok c c' stop.
Proof.
  intros Hinv. cbn [relay_step]. destruct (_process_upstream_websocket_text account_id created current_request_id text key c) as [c1 out] eqn:Ep.
  apply process_text_ok in Ep as [Hc1 Hr1 Hq1 Hp1]; [|done].
  set (texts := match downstream_texts (control c1) with Some _ => _ | None => _ end).
  match goal with |- context [send_all _ _ key texts accepted ?c] => set (c2 := c) end.
  assert (same_books c1 c2 ∧ replay_request_state (control c2) = replay_request_state (control c1) ∧
          reconnect_requested (control c2) = reconnect_requested (control c1)) as (Hb & Hrep & Hrec) by done.
  clearbody c2. destruct (send_all account_id created key texts accepted c2) as [c3 gone] eqn:Es. apply send_all_spec in Es as (Hs & Hctl & Hgone).
  intros [= <- <-]. assert (replay_request_state (control c3) = replay_request_state (control c1)) as Hr3 by (by rewrite Hctl).
  assert (replaying c3 = replaying c1) as Hr3' by (unfold replaying; by rewrite Hr3).
  assert (pending c3 = [] ∨ pending c3 = pending c1) as Hpend by (destruct gone; [by left|right; rewrite Hgone; by apply Hb]). split.
  - eapply conserved_trans; [exact Hc1|]. eapply conserved_trans; [by apply conserved_same|done].
  - destruct Hpend as [->| ->]; [constructor|done].
  - rewrite Hr3'. apply Forall_app in Hq1 as [Ha Hb']. apply Forall_app. split; [|done]. by destruct Hpend as [->| ->].
  - intros r' Hr'. rewrite Hr3 in Hr'. destruct (Hp1 r' Hr') as (He & Ht & Hex). split_and!; [by destruct Hpend as [->| ->]| |done].
    by rewrite Hctl, Hrec.
  - destruct gone; [done|]. simpl. unfold replaying. rewrite Hr3, Hctl, Hrec.
    destruct (replay_request_state (control c1)) as [r'|] eqn:Er.
    + destruct (Hp1 r' Er) as (He & Ht & _). rewrite Ht. simpl. by destruct Hpend as [->| ->].
    + destruct (reconnect_requested (control c1) && _) eqn:Eb; [|done]. apply andb_true_iff in Eb as [_ Eb].
      by destruct (pending c3).
Qed.

Lemma refresh_fields r : let r' := _refresh_websocket_request_input_fingerprint_from_text sha256 r in
  request_id r' = request_id r ∧ response_id r' = response_id r ∧ replay_count r' = replay_count r ∧ request_text r' = request_text r ∧
  previous_response_id r' = previous_response_id r ∧ response_create_gate_acquired r' = response_create_gate_acquired r.
Proof. unfold _refresh_websocket_request_input_fingerprint_from_text. repeat case_match; done. Qed.

Lemma pop_replayable_spec p r' : _pop_replayable_precreated_websocket_request_state sha256 p = ([], Some r') → ∃ r, p = [r] ∧ replay_of r r'.
Proof.
  unfold _pop_replayable_precreated_websocket_request_state. destruct p as [|r [|]]; try done. destruct (replayable r) eqn:Er; [|done].
  unfold replayable in Er. rewrite !andb_true_iff in Er. destruct Er as ((((Hn%unresolved_None & _) & Ht) & Hc%Z.ltb_lt) & _).
  intros [= <-]. exists r. split; [done|]. destruct (_ && _) eqn:Eb.
  - rewrite !andb_true_iff in Eb. destruct Eb as ((_ & Hs) & Hf).
    destruct (refresh_fields (drop_anchor r)) as (H1 & H2 & H3 & H4 & H5 & H6). split_and!; try done.
    + simpl. by rewrite H3.
    + right. split_and!; [exact H4|exact H5|done].
    + change (truthy_s (request_text (_refresh_websocket_request_input_fingerprint_from_text sha256 (drop_anchor r))) = true). by rewrite H4.
  - split_and!; try done. by left.
Qed.

Lemma pop_replayable_none p p' : _pop_replayable_precreated_websocket_request_state sha256 p = (p', None) → p' = p.
Proof. unfold _pop_replayable_precreated_websocket_request_state. repeat case_match; congruence. Qed.

Lemma pop_replayable_some p p' r' : _pop_replayable_precreated_websocket_request_state sha256 p = (p', Some r') → p' = [].
Proof. unfold _pop_replayable_precreated_websocket_request_state. repeat case_match; congruence. Qed.

Lemma relay_step_ok key budget waited w c c' stop : relay_inv c →
  relay_step sha256 account_id created current_request_id key budget waited w c = (c', stop) → step_ok c c' stop.
Proof.
  intros Hinv.
  assert (∀ f c'' b, conserved (_fail_pending_websocket_requests created f c) c'' → pending c'' = [] →
    replay_request_state (control c'') = replay_request_state (control c) → step_ok c c'' b) as Hfail.
  { intros f c'' b Hc Hp Hr. destruct (fail_pending_spec f c) as (H1 & H2 & H3). apply step_ok_fewer; [done| | |done|done].
    - by eapply conserved_trans.
    - rewrite Hp. apply sublist_nil_l. }
  assert (∀ f b, step_ok c (_fail_pending_websocket_requests created f c) b) as Hfail'.
  { intros f b. destruct (fail_pending_spec f c) as (H1 & H2 & H3). eapply (Hfail f); [by apply conserved_same|done|by rewrite H3]. }
  destruct w as [[text| |error code] accepted|accepted|now|]; [by apply relay_text_ok|cbn [relay_step]..].
  - case_if; intros [= <- <-]; [apply Hfail'|]. by apply step_ok_fewer.
  - destruct (_pop_replayable_precreated_websocket_request_state sha256 (pending c)) as [p [r'|]] eqn:Ep; [|by intros [= <- <-]; apply Hfail'].
    apply pop_replayable_some in Ep as Hp. subst p. apply pop_replayable_spec in Ep as (r & Hr & Hro).
    intros [= <- <-]. destruct Hinv as [_ _ Hreq Hnone]. rewrite Hr in Hreq. apply Forall_singleton in Hreq as [Hg Hcnt]. split; try done.
    + eapply leave_conserved; [by rewrite Hr, app_nil_r|]. eapply (replay_settled _ (set_pending [] c)); done.
    + constructor.
    + apply Forall_singleton. destruct Hro as (Hn & Hlt & Hc & _ & _ & Hgate & _). split; [intros _; rewrite Hgate; auto|lia].
    + intros x [= <-]. split_and!; [done..|]. eauto.
  - intros Hs. apply send_all_spec in Hs as (Hc & Hctl & Hp). apply step_ok_fewer; [done..| |by rewrite Hctl|by destruct stop].
    destruct stop; rewrite Hp; [apply sublist_nil_l|done].
  - destruct waited as [t|]; [|by intros [= <- <-]; apply step_ok_fewer].
    case_if; intros [= <- <-].
    + destruct (fail_pending_spec (upstream_gone account_id (to_error_code t) (to_error_message t) key) c) as (H1 & H2 & H3).
      eapply Hfail; [by apply conserved_same, same_books_reconnect|done|]. simpl. by rewrite H3.
    + match goal with |- step_ok c (_fail_expired_pending_websocket_requests _ _ _ ?f c) _ => destruct (fail_expired_spec now budget f c) as (H1 & H2 & H3) end.
      apply step_ok_fewer; [done..| |by rewrite H3|done]. rewrite H2. apply filter_sub.
  - intros [= <- <-]. apply Hfail'.
Qed.

(** ** The life of a client's connection

    The client's loop submits requests, each with the gate's permit taken or
    waited for; the reader takes its rounds; when it has stopped the next
    upstream connection is opened. *)
Inductive relay_run : conn → list string → bool → Prop :=
  | run_open continuity_state : relay_run (opened continuity_state) [] false
  | run_wait c submitted stopped fut gate : relay_run c submitted stopped → Semaphore.acquire fut (create_gate c) = (gate, false) →
      relay_run (c {{ create_gate := gate }}) submitted stopped
  | run_submit c submitted stopped r gate : relay_run c submitted stopped →
      (∃ fut, Semaphore.acquire fut (create_gate c) = (gate, true) ∨
              Semaphore.woken (create_gate c) = [fut] ∧ gate = Semaphore.resume fut (create_gate c)) →
      request_id r ∉ submitted → response_id r = None → replay_count r = 0%Z →
      relay_run (submit r gate c) (request_id r :: submitted) stopped
  | run_round c submitted key budget waited w c' stop : relay_run c submitted false →
      relay_step sha256 account_id created current_request_id key budget waited w c = (c', stop) → relay_run c' submitted stop
  | run_reopen c submitted : relay_run c submitted true → relay_run (reopen c) submitted false.

Record run_inv (c : conn) (submitted : list string) (stopped : bool) : Prop := {
  rv_ids : NoDup submitted;
  rv_all : submitted ≡ₚ ids (pending c) ++ answered c ++ ids (replaying c);
  rv_permits : (permits c + holders (pending c) + holders (replaying c) = 1)%Z;
  rv_sound : sound c;
  rv_responses : NoDup (omap response_id (pending c));
  rv_requests : Forall okreq (pending c ++ replaying c);
  rv_fresh : Forall (λ r, response_id r = None) (replaying c);
  rv_live : stopped = false → replaying c = [] }.

Lemma run_relay_inv c submitted : run_inv c submitted false → relay_inv c.
Proof.
  intros [Hnd Hall _ _ Hr Hq _ Hl]. split; [|done|by apply Forall_app in Hq as [? _]|auto].
  rewrite Hall in Hnd. by apply NoDup_app in Hnd as (? & _).
Qed.

Lemma permit_taken c gate : sound c → (∃ fut, Semaphore.acquire fut (create_gate c) = (gate, true) ∨
    Semaphore.woken (create_gate c) = [fut] ∧ gate = Semaphore.resume fut (create_gate c)) →
  permits (c {{ create_gate := gate }}) = (permits c - 1)%Z ∧ sound (c {{ create_gate := gate }}).
Proof.
  unfold sound, permits. intros Hs [fut [Ha|[Hw ->]]].
  - unfold Semaphore.acquire in Ha. destruct (Semaphore.locked (create_gate c)) eqn:H; [done|]. unfold Semaphore.locked in H. apply orb_false_iff in H as [H%Z.eqb_neq _].
    injection Ha as <-. simpl. destruct (create_gate c). simpl in *. lia.
  - destruct (create_gate c) as [v ws k]. simpl in *. subst k. unfold Semaphore.resume. simpl. rewrite Nat.eqb_refl. simpl.
    destruct (Semaphore.wake_free_spec v ws []) as (H1 & H2 & _). simpl in H1. lia.
Qed.

Lemma relay_run_inv c submitted stopped : relay_run c submitted stopped → run_inv c submitted stopped.
Proof.
  induction 1 as [ct|c sub stopped fut gate _ IH Ha|c sub stopped r gate _ IH Hg Hid Hn Hc|c sub key budget waited w c' stop _ IH Hs|c sub _ IH].
  - split; try done; try constructor.
  - destruct IH as [H1 H2 H3 H4 H5 H6 H7 H8]. unfold Semaphore.acquire in Ha. case_if_in Ha; [|done]. injection Ha as <-.
    split; done.
  - destruct IH as [H1 H2 H3 H4 H5 H6 H7 H8]. destruct (permit_taken c gate H4 Hg) as [Hp Hs].
    set (r' := _acquire_request_state_response_create_admission r). split; try done.
    + by constructor.
    + change (request_id r :: sub ≡ₚ ids (pending c ++ [r']) ++ answered c ++ ids (replaying c)). rewrite map_app, <- app_assoc. simpl.
      rewrite H2. apply Permutation_middle.
    + change (permits (c {{ create_gate := gate }}) + holders (pending c ++ [r']) + holders (replaying c) = 1)%Z. rewrite holders_app, Hp.
      change (holders [r']) with 1%Z. lia.
    + change (NoDup (omap response_id (pending c ++ [r']))). rewrite omap_app. unfold omap at 2, list_omap. change (response_id r') with (response_id r). rewrite Hn. by rewrite app_nil_r.
    + change (Forall okreq ((pending c ++ [r']) ++ replaying c)). rewrite !Forall_app in *. destruct H6. split_and!; [done| |done].
      apply Forall_singleton. split; [done|]. change (0 <= replay_count r <= 1)%Z. lia.
  - pose proof (run_relay_inv _ _ IH) as Hinv. destruct IH as [H1 H2 H3 H4 H5 H6 H7 H8].
    destruct (relay_step_ok _ _ _ _ _ _ _ Hinv Hs) as [(Ha & Hm & Hso) Hr Hq Hrep Hstop]. split; try done; auto.
    + by rewrite Ha.
    + lia.
    + unfold replaying. destruct (replay_request_state (control c')) as [r'|] eqn:Er; [|constructor].
      destruct (Hrep r' Er) as (_ & _ & r0 & _ & Hro). apply Forall_singleton. by destruct Hro as (_ & _ & _ & _ & ? & _).
    + by intros ->.
  - destruct IH as [H1 H2 H3 H4 H5 H6 H7 H8]. split; try done.
    + change (sub ≡ₚ ids (pending c ++ replaying c) ++ answered c ++ []). rewrite map_app, app_nil_r, H2, <- app_assoc.
      f_equiv. apply Permutation_app_comm.
    + change (permits c + holders (pending c ++ replaying c) + 0 = 1)%Z. rewrite holders_app. lia.
    + change (NoDup (omap response_id (pending c ++ replaying c))). rewrite omap_app.
      assert (omap response_id (replaying c) = []) as ->; [|by rewrite app_nil_r].
      clear -H7. induction H7 as [|r l Hr _ IH]; [done|]. csimpl. by rewrite Hr.
    + change (Forall okreq ((pending c ++ replaying c) ++ [])). by rewrite app_nil_r.
Qed.

(** ** Events that name a response *)

(** The requests other than [i]. *)
Definition others (i : string) (p : list request) : list request := List.filter (λ r, negb (is_ref i r)) p.

Lemma others_modify i r p : request_id r = i → others i (modify i (λ _, r) p) = others i p.
Proof.
  intros Hi. unfold others, modify, update_where. induction p as [|x p IH]; [done|]. simpl. destruct (is_ref i x) eqn:E; simpl.
  - assert (is_ref i r = true) as -> by (by apply is_ref_true). done.
  - rewrite E. simpl. by rewrite IH.
Qed.

Lemma others_remove i p : others i (remove_ref i p) = others i p.
Proof. unfold others. induction p as [|x p IH]; [done|]. simpl. destruct (is_ref i x) eqn:E; simpl; [done|]. rewrite E. simpl. by rewrite IH. Qed.

Lemma NoDup_omap_inj {A B} (f : A → option B) l x y b : NoDup (omap f l) → x ∈ l → y ∈ l → f x = Some b → f y = Some b → x = y.
Proof.
  induction l as [|z l IH]; [by intros _ ?%not_elem_of_nil|]. intros Hnd Hx Hy Hfx Hfy.
  assert (∀ w, w ∈ l → f w = Some b → b ∈ omap f l) as Hin by (intros w Hw Hb; apply list_elem_of_omap; eauto).
  apply elem_of_cons in Hx as [->|Hx], Hy as [->|Hy]; [done|..]; csimpl in Hnd.
  - rewrite Hfx in Hnd. apply NoDup_cons in Hnd as [Hb _]. by destruct Hb; eapply Hin.
  - rewrite Hfy in Hnd. apply NoDup_cons in Hnd as [Hb _]. by destruct Hb; eapply Hin.
  - apply IH; try done. destruct (f z); [|done]. by apply NoDup_cons in Hnd as [_ ?].
Qed.

Lemma find_by_id_here p r i : NoDup (omap response_id p) → r ∈ p → response_id r = Some i →
  _find_websocket_request_state_by_response_id p i = Some r.
Proof.
  intros Hnd Hr Hi. destruct (_find_websocket_request_state_by_response_id p i) as [x|] eqn:E.
  - apply find_by_id_elem in E as [Hx Hxi]. f_equal. by eapply (NoDup_omap_inj response_id).
  - pose proof (find_None_elem _ _ _ E Hr) as H. by rewrite bool_decide_eq_false in H.
Qed.

Lemma match_event_named e ty h p r i : NoDup (omap response_id p) → r ∈ p → response_id r = Some i → rd_response_id e = Some i →
  match_event e ty h p = (p, Some (request_id r)).
Proof.
  intros Hnd Hr Hi He. unfold match_event, _assign_websocket_response_id. rewrite He, (find_by_id_here p r i) by done. by case_if.
Qed.

Lemma elem_of_modify p r r' : r ∈ p → r' ∈ modify (request_id r) (λ _, r') p.
Proof. intros Hr. unfold modify, update_where. apply elem_of_map. exists r. by rewrite is_ref_refl. Qed.

Lemma end_request_named e matched w c r i c' ended grouped w' :
  NoDup (omap response_id (pending c)) → r ∈ pending c → response_id r = Some i → rd_response_id e = Some i →
  end_request created e matched w c = (c', ended, grouped, w') →
  pending c' = remove_ref (request_id r) (pending c) ∧ is_Some ended ∧ grouped = [].
Proof.
  intros Hnd Hr Hi He. unfold end_request. destruct w as [[[event payload] ty] text].
  unfold _pop_terminal_websocket_request_state. rewrite He, (find_by_id_here _ r i) by done.
  rewrite (bool_decide_eq_true_2 (is_Some (Some r))) by done. cbn [negb andb]. unfold _rewrite_websocket_continuity_corruption_event.
  repeat case_if; intros [= <- <- <- <-]; done.
Qed.

Lemma route_text_named text e c r i c' t : NoDup (ids (pending c)) → NoDup (omap response_id (pending c)) →
  r ∈ pending c → response_id r = Some i → rd_response_id e = Some i → route_text created text e c = (c', t) →
  others (request_id r) (pending c') = others (request_id r) (pending c) ∧ ws_grouped t = [] ∧
  (∀ j, ws_created t = Some j → j = request_id r).
Proof.
  intros Hnd Hnr Hr Hi He. unfold route_text.
  destruct (ToolDedupe.rewrite_parallel_tool_call_text _ _ _) as [[[[txt payload] event] ty] bl].
  rewrite (match_event_named e ty _ _ r i), (deref_elem (pending c) r) by done.
  destruct (dedupe_event payload (note_event payload r)) as [[b payload'] r'] eqn:Ed. apply noted_core in Ed as Hc.
  assert (request_id r' = request_id r) as Hid by (by apply core_request_id).
  destruct b; [intros [= <- <-]; simpl; rewrite Hid; by rewrite others_modify|].
  set (r2 := if in_set ty TEXT_DELTA_EVENT_TYPES then _ else r').
  assert (core r2 = core r) as Hc2 by (unfold r2; case_if; done).
  assert (request_id r2 = request_id r) as Hi2 by (by apply core_request_id).
  rewrite Hi2. pose proof (modify_map core _ r r2 Hnd Hr Hc2) as Hmod. pose proof (elem_of_modify (pending c) r r2 Hr) as H2.
  pose proof (others_modify (request_id r) r2 (pending c) Hi2) as Ho. set (p2 := modify _ _ (pending c)) in *.
  assert (∀ j, (if in_set ty ["response.created"] then Some (request_id r) else None) = Some j → j = request_id r) as Hcr.
  { intros j. case_if; congruence. }
  destruct (in_set ty TERMINAL_EVENTS && nonempty p2); [|by intros [= <- <-]].
  destruct (end_request created e _ _ _) as [[[c3 ended] grouped] w3] eqn:Ee.
  apply (end_request_named _ _ _ _ r2 i) in Ee as (Hp & _ & ->); [|simpl| |by injection Hc2 as _ ->|done]; [|by rewrite (core_responses p2 (pending c)) by (by rewrite Hmod)|done].
  intros [= <- <-]. simpl. split_and!; [|done..]. by rewrite Hp, Hi2, others_remove.
Qed.

Lemma release_created_others i ref c : (∀ j, ref = Some j → j = i) → others i (pending (release_created ref c)) = others i (pending c).
Proof.
  intros Hj. unfold release_created. destruct (match ref with Some j => _ | None => _ end) as [r|] eqn:Ed; [|done].
  destruct ref as [j|]; [|done]. apply deref_Some in Ed as [_ Hr]. destruct (release_gate r c) as [r1 c1] eqn:Eg.
  apply release_gate_spec in Eg as (Hi & _ & _ & _ & Hp & _).
  change (others i (modify (request_id r1) (λ _, r1) (pending c1)) = others i (pending c)).
  assert (request_id r1 = i) as -> by (rewrite Hi, Hr; auto). rewrite Hp. apply others_modify. rewrite Hi, Hr. auto.
Qed.

Lemma process_named text key c r i c' out : relay_inv c → r ∈ pending c → response_id r = Some i →
  rd_response_id (read_event text) = Some i →
  _process_upstream_websocket_text account_id created current_request_id text key c = (c', out) →
  others (request_id r) (pending c') = others (request_id r) (pending c).
Proof.
  intros Hinv Hr Hi He. unfold _process_upstream_websocket_text. set (e := read_event text) in *.
  destruct (route_text created text e c) as [c1 t] eqn:Er. apply route_text_spec in Er as Hok; [|by destruct Hinv]. destruct Hok as [p Hok].
  apply (route_text_named _ _ _ r i) in Er as (Ho & Hg & Hcr); [|by destruct Hinv..|done|done|done]. rewrite <- Ho.
  destruct (ws_event t) as [[[event payload] ty] txt]. case_if; [by intros [= <- _]|]. rewrite Hg.
  rewrite <- (release_created_others _ (ws_created t) c1) by done.
  assert (replaying (release_created (ws_created t) c1) = []) as Hn.
  { unfold replaying. destruct (ro_quiet _ _ _ _ _ Hok) as (_ & _ & Hq). destruct Hinv as [Hnd _ _ Hn]. unfold replaying in Hn. rewrite <- Hq in Hn.
    unfold release_created. destruct (match ws_created t with Some j => _ | None => _ end); [|done].
    unfold release_gate. by destruct (_release_websocket_response_create_gate _ _) as [[? ?] ?]. }
  destruct (ws_ended t) as [x|].
  - intros Hs. apply settle_or_replay_spec in Hs as [(-> & _) _]; [by case_if|by case_if].
  - intros [(-> & _) _]%unclaimed_books. done.
Qed.


(** ** The relay's promises *)

Lemma one_unresolved c submitted stopped r x : relay_run c submitted stopped → r ∈ pending c → x ∈ pending c →
  response_id r = None → response_id x = None → x = r.
Proof.
  intros [_ _ Hp Hs _ Hq _ _]%relay_run_inv Hr Hx Hnr Hnx. unfold sound, permits in *.
  apply Forall_app in Hq as [Hq _]. rewrite Forall_forall in Hq.
  assert (∀ y, y ∈ pending c → response_id y = None → y ∈ List.filter response_create_gate_acquired (pending c)) as Hf.
  { intros y Hy Hn. apply elem_of_filter_bool. split; [done|]. by apply (Hq y Hy). }
  pose proof (Hf r Hr Hnr) as Hr'. pose proof (Hf x Hx Hnx) as Hx'. unfold holders in Hp at 1.
  assert (length (List.filter response_create_gate_acquired (pending c)) <= 1) as Hl by (unfold holders in Hp; lia).
  destruct (List.filter response_create_gate_acquired (pending c)) as [|y [|z l]]; simpl in Hl; [by apply not_elem_of_nil in Hr'| |lia].
  apply list_elem_of_singleton in Hr', Hx'. congruence.
Qed.

Lemma unassigned_here p r : r ∈ p → response_id r = None → ∃ x, unassigned p = Some x.
Proof.
  intros Hr Hn. unfold unassigned. do 2 (case_match; [by eexists|]). destruct (List.find unresolved p) as [x|] eqn:Hf; [by exists x|]. exfalso.
  pose proof (find_None_elem _ _ _ Hf Hr) as H'.
  unfold unresolved in H'. by rewrite Hn in H'.
Qed.

(** C3. Whatever the client submits and the upstream sends, every request that
    was submitted is, exactly once, pending, answered or waiting to be sent
    again; and when the reader stops no request is left behind. *)
Theorem relay_conserves c submitted key budget waited w c' stop :
  relay_run c submitted false →
  relay_step sha256 account_id created current_request_id key budget waited w c = (c', stop) →
  NoDup submitted ∧ submitted ≡ₚ ids (pending c') ++ answered c' ++ ids (replaying c') ∧ (stop = true → pending c' = []).
Proof.
  intros Hr Hs. pose proof (relay_run_inv _ _ _ Hr) as Hi. apply run_relay_inv in Hi as Hinv.
  destruct (relay_run_inv _ _ _ (run_round _ _ _ _ _ _ _ _ Hr Hs)) as [Hnd Hall _ _ _ _ _ _]. split_and!; [done..|].
  intros ->. apply (so_stop _ _ _ (relay_step_ok _ _ _ _ _ _ _ Hinv Hs)).
Qed.

(** At any time at most one pending request has no response yet, so a
    [response.created] with a new id is given to the request it is for. *)
Theorem created_unambiguous c submitted stopped i r :
  relay_run c submitted stopped → r ∈ pending c → response_id r = None → (∀ x, x ∈ pending c → response_id x ≠ Some i) →
  (∀ x, x ∈ pending c → x ≠ r → is_Some (response_id x)) ∧
  _assign_websocket_response_id (pending c) (Some i) =
    (modify (request_id r) (λ r, r {{ response_id := Some i }}) (pending c), Some (request_id r)).
Proof.
  intros Hrun Hr Hn Hi. assert (∀ x, x ∈ pending c → response_id x = None → x = r) as Hone.
  { intros x Hx Hnx. by eapply one_unresolved. }
  split.
  { intros x Hx Hne. destruct (response_id x) eqn:E; [done|]. by destruct Hne; apply Hone. }
  unfold _assign_websocket_response_id. destruct (_find_websocket_request_state_by_response_id (pending c) i) as [x|] eqn:Ef.
  { apply find_by_id_elem in Ef as [Hx Hxi]. by destruct (Hi x Hx). }
  destruct (unassigned_here _ _ Hr Hn) as [x Hx]. rewrite Hx. apply unassigned_elem in Hx as [Hx Hnx]. by rewrite (Hone x Hx Hnx).
Qed.

(** C9. A request is sent again only when it was the only one in flight, no
    response of it had begun and it was not sent again before; what is sent is
    its own text, or the client's own text without the anchor the proxy had
    put in; the reader stops, so that a new upstream connection carries it. *)
Theorem replay_safe c submitted key budget waited w c' stop r' :
  relay_run c submitted false →
  relay_step sha256 account_id created current_request_id key budget waited w c = (c', stop) →
  replay_request_state (control c') = Some r' →
  stop = true ∧ pending c' = [] ∧ reconnect_requested (control c') = true ∧ ∃ r, pending c = [r] ∧ replay_of r r'.
Proof.
  intros Hinv%relay_run_inv%run_relay_inv Hs Hr. destruct (relay_step_ok _ _ _ _ _ _ _ Hinv Hs) as [_ _ _ Hrep Hstop].
  destruct (Hrep r' Hr) as (Hp & Hrc & H). split_and!; [|done..]. destruct stop; [done|]. unfold replaying in Hstop. by rewrite Hr in Hstop.
Qed.

(** C35. A text of a response that belongs to a pending request leaves every
    other pending request as it was. *)
Theorem events_isolated c submitted text key i r c' out :
  relay_run c submitted false → r ∈ pending c → response_id r = Some i → rd_response_id (read_event text) = Some i →
  _process_upstream_websocket_text account_id created current_request_id text key c = (c', out) →
  others (request_id r) (pending c') = others (request_id r) (pending c).
Proof. intros Hinv%relay_run_inv%run_relay_inv. by apply process_named. Qed.


(** ** Waiting *)

(** A pending request whose client still waits. *)
Definition awaited (c : conn) (r : request) : Prop := r ∈ pending c ∧ draining_until_terminal r = false.

(** The wait that began at [started] with the timeout [t] is over at [now]. *)
Definition deadline_passed (started budget idle now : Q) (c : conn) (t : _WebSocketReceiveTimeout) : Prop :=
  _next_websocket_receive_timeout started budget idle c = Some t ∧ (started + timeout_seconds t <= now)%Q.

Lemma least_spec l m : least l = Some m → m ∈ l ∧ ∀ x, x ∈ l → (m <= x)%Q.
Proof.
  destruct l as [|x l]; [done|]. intros [= <-]. revert x. induction l as [|y l IH]; intros x; simpl.
  - split; [by left|]. intros z ->%list_elem_of_singleton. lra.
  - destruct (IH (qmin x y)) as [Hm Hl]. destruct (qmin_spec x y) as [[Hx Hy] Heq]. split.
    + apply elem_of_cons in Hm as [->|Hm]; [|by do 2 right]. destruct Heq as [->| ->]; [by left|by right; left].
    + pose proof (Hl (qmin x y) (list_elem_of_here _ _)) as H0.
      intros z [->|[->|Hz]%elem_of_cons]%elem_of_cons; [lra..|]. apply Hl. by right.
Qed.

Lemma least_None l : least l = None → l = [].
Proof. by destruct l. Qed.

Lemma receive_timeout_spec now starts budget idle t :
  _websocket_receive_timeout_for_pending_requests now starts budget idle = Some t →
  (0 <= timeout_seconds t)%Q ∧
  (∀ s, s ∈ starts → timeout_seconds t <= qmax 0 (s + budget - now))%Q ∧
  if fail_all_pending t then (∀ s, s ∈ starts → now + timeout_seconds t < s + budget)%Q
  else ∃ s, s ∈ starts ∧ (s + budget <= now + timeout_seconds t)%Q.
Proof.
  unfold _websocket_receive_timeout_for_pending_requests. destruct (least starts) as [oldest|] eqn:El; [|done].
  apply least_spec in El as [Ho Hl]. unfold _remaining_budget_seconds. set (remaining := qmax 0 _).
  set (patience := qmax (1 # 1000) idle). destruct (qmax_spec 0 (oldest + budget - now)) as [[H0 Hr] Heq]. fold remaining in H0, Hr, Heq.
  destruct (qmax_spec (1 # 1000) idle) as [[Hp _] _]. fold patience in Hp.
  assert (∀ s, s ∈ starts → remaining <= qmax 0 (s + budget - now))%Q as Hmono.
  { intros s Hs. specialize (Hl s Hs). destruct (qmax_spec 0 (s + budget - now)) as [[? ?] _]. destruct Heq as [->| ->]; lra. }
  assert (∀ s, s ∈ starts → 0 <= qmax 0 (s + budget - now))%Q as Hpos.
  { intros s _. by destruct (qmax_spec 0 (s + budget - now)) as [[? ?] _]. }
  assert (∃ s, s ∈ starts ∧ s + budget <= now + remaining)%Q as Hold by (exists oldest; split; [done|lra]).
  assert (remaining <= 0 → ∃ s, s ∈ starts ∧ s + budget <= now + 0)%Q as Hgone by (intros; exists oldest; split; [done|lra]).
  intros [= <-]. destruct (qle remaining 0 && qeq patience _) eqn:E1.
  { apply andb_true_iff in E1 as [E1 _]. pyb. split_and!; [simpl; lra|done|by apply Hgone]. }
  destruct (qeq patience _ && qle patience remaining); [done|]. destruct (qle remaining 0) eqn:E2; pyb.
  { split_and!; [simpl; lra|done|by apply Hgone]. }
  destruct (qlt patience remaining) eqn:E3; pyb; [|done]. cbn [timeout_seconds fail_all_pending receive_timeout]. split_and!; [lra| |].
  - intros s Hs. specialize (Hmono s Hs). lra.
  - intros s Hs. specialize (Hl s Hs). destruct Heq as [He|He]; rewrite He in E3, E2; lra.
Qed.

(** The reader never waits a negative time nor past the moment the budget of
    a request runs out; an idle timeout that fails everything comes before any
    budget has run out, and any other timeout comes when one has. *)
Theorem receive_timeout_bounds now budget idle c t :
  _next_websocket_receive_timeout now budget idle c = Some t →
  (0 <= timeout_seconds t)%Q ∧
  (∀ r, awaited c r → timeout_seconds t <= qmax 0 (started_at r + budget - now))%Q ∧
  if fail_all_pending t
  then (∀ r, awaited c r → now + timeout_seconds t < started_at r + budget)%Q
  else ∃ r, r ∈ pending c ∧ expired (now + timeout_seconds t) budget r = true.
Proof.
  intros (H0 & H1 & H2)%receive_timeout_spec.
  assert (∀ r, awaited c r →
    started_at r ∈ map started_at (List.filter _http_bridge_request_counts_against_queue (pending c))) as Hin.
  { intros r [Hr Hd]. apply elem_of_map. exists r. split; [done|]. apply elem_of_filter_bool. split; [done|].
    unfold _http_bridge_request_counts_against_queue. by rewrite Hd. }
  split_and!; [done|by auto|]. destruct (fail_all_pending t); [by auto|].
  destruct H2 as (s & (r & -> & [Hr _]%elem_of_filter_bool)%elem_of_map & Hs). exists r. split; [done|]. unfold expired. by apply qle_true.
Qed.

(** C36. When the reader's deadline passes, the round fails at least one request:
    a connection is never left waiting with the deadline behind it.  The
    deadline is that of the requests [c0] had when the wait began; they are
    still pending in [c], beside those that came in since. *)
Theorem deadline_progress key budget idle started now c0 c t :
  deadline_passed started budget idle now c0 t → (∀ r, r ∈ pending c0 → r ∈ pending c) →
  length (pending (relay_step sha256 account_id created current_request_id key budget (Some t) (DeadlineReached now) c).1)
    < length (pending c).
Proof.
  intros (Ht & Hnow) Hstill. cbn [relay_step].
  assert (pending c ≠ []) as Hne.
  { destruct (pending c0) as [|r l] eqn:E; [unfold _next_websocket_receive_timeout in Ht; by rewrite E in Ht|].
    intros H. specialize (Hstill r (list_elem_of_here _ _)). rewrite H in Hstill. by apply not_elem_of_nil in Hstill. }
  apply receive_timeout_spec in Ht as (_ & _ & H2). destruct (fail_all_pending t); cbn [fst].
  - match goal with |- context [request_reconnect (_fail_pending_websocket_requests _ ?f c)] =>
      change (pending (request_reconnect (_fail_pending_websocket_requests created f c))) with (pending (_fail_pending_websocket_requests created f c));
      destruct (fail_pending_spec f c) as (_ & -> & _) end.
    destruct (pending c); simpl; [done|lia].
  - match goal with |- context [_fail_expired_pending_websocket_requests _ _ _ ?f c] => destruct (fail_expired_spec now budget f c) as (_ & -> & _) end.
    destruct H2 as (s & (r & -> & [Hr _]%elem_of_filter_bool)%elem_of_map & Hs).
    pose proof (Permutation_length (filter_partition (expired now budget) (pending c))) as Hlen. rewrite length_app in Hlen.
    assert (r ∈ List.filter (expired now budget) (pending c)) as Hin.
    { apply elem_of_filter_bool. split; [by apply Hstill|]. apply qle_true. lra. }
    destruct (List.filter (expired now budget) (pending c)); [by apply not_elem_of_nil in Hin|simpl in *; lia].
Qed.


End Facts.

(** ** A connection *)

Definition sample_request (i : string) (previous : option string) : request :=
  {| request_id := i; model := Some "gpt-5"; service_tier := None; api_key_reservation := None; started_at := 0%Q; request_log_id := None;
     actual_service_tier := None; response_id := None; awaiting_response_created := false; event_queue := false; api_key := None;
     request_text := Some "{}"; replay_count := 0; skip_request_log := false; previous_response_id := previous; session_id := None;
     proxy_injected_previous_response_id := false; fresh_upstream_request_text := None; fresh_upstream_request_is_retry_safe := false;
     preferred_account_id := None; error_code_override := None; error_message_override := None; error_type_override := None;
     error_param_override := None; error_http_status_override := None; response_event_count := 0;
     previous_response_not_found_rewritten := false; response_create_gate_acquired := false; response_create_gate := false;
     response_create_admission := false; suppressed_duplicate_tool_call := false; pending_function_call_ids := []; seen_tool_call_keys := [];
     input_item_count := 1; input_full_fingerprint := None; account_health_error_handled := false; downstream_visible := false;
     draining_until_terminal := false |}.

Definition text_of (type response : string) : string :=
  dumps_ascii (JObj [("type", JStr type); ("response", JObj [("id", JStr response); ("object", JStr "response")])]).

(** A round on a text, and a request whose permit is there. *)
Definition sample_round (text : string) (c : conn) : conn * bool :=
  relay_step (λ s, s) "account" 0 None None 600 None (Arrived (UpstreamText text) 1) c.
Definition send (i : string) (c : conn) : conn :=
  submit (sample_request i None) (Semaphore.acquire 0 (create_gate c)).1 c.

Definition sent_a : conn := send "a" (opened None).
Definition created_a : conn := (sample_round (text_of "response.created" "resp_1") sent_a).1.
Definition sent_b : conn := send "b" created_a.
Definition created_b : conn := (sample_round (text_of "response.created" "resp_2") sent_b).1.

Lemma send_run i c submitted : relay_run (λ s, s) "account" 0 None c submitted false → (Semaphore.acquire 0 (create_gate c)).2 = true →
  i ∉ submitted → relay_run (λ s, s) "account" 0 None (send i c) (i :: submitted) false.
Proof.
  intros Hc Hg Hi. apply (run_submit _ _ _ _ c submitted false (sample_request i None)); [done| |done..].
  exists 0. left. destruct (Semaphore.acquire 0 (create_gate c)) as [g b]. simpl in *. by subst b.
Qed.

Lemma sample_round_run text c submitted stop : relay_run (λ s, s) "account" 0 None c submitted false → (sample_round text c).2 = stop →
  relay_run (λ s, s) "account" 0 None (sample_round text c).1 submitted stop.
Proof. intros Hc <-. eapply run_round; [exact Hc|]. unfold sample_round. apply surjective_pairing. Qed.

Lemma sent_a_run : relay_run (λ s, s) "account" 0 None sent_a ["a"] false.
Proof. apply send_run; [apply run_open|vm_compute; reflexivity|apply not_elem_of_nil]. Qed.

Lemma created_a_run : relay_run (λ s, s) "account" 0 None created_a ["a"] false.
Proof. apply sample_round_run; [apply sent_a_run|vm_compute; reflexivity]. Qed.

Lemma sent_b_run : relay_run (λ s, s) "account" 0 None sent_b ["b"; "a"] false.
Proof. apply send_run; [apply created_a_run|vm_compute; reflexivity|apply (bool_decide_unpack _); vm_compute; exact I]. Qed.

Lemma created_b_run : relay_run (λ s, s) "account" 0 None created_b ["b"; "a"] false.
Proof. apply sample_round_run; [apply sent_b_run|vm_compute; reflexivity]. Qed.

(** The first response ends while the second goes on. *)
Lemma relay_conserves_witness :
  let '(c', stop) := sample_round (text_of "response.completed" "resp_1") created_b in
  answered c' = ["a"] ∧ ids (pending c') = ["b"] ∧ ["b"; "a"] ≡ₚ ids (pending c') ++ answered c' ++ ids (replaying c').
Proof.
  destruct (sample_round (text_of "response.completed" "resp_1") created_b) as [c' stop] eqn:E. split_and!.
  - assert (c' = (sample_round (text_of "response.completed" "resp_1") created_b).1) as -> by (by rewrite E). vm_compute. reflexivity.
  - assert (c' = (sample_round (text_of "response.completed" "resp_1") created_b).1) as -> by (by rewrite E). vm_compute. reflexivity.
  - apply (relay_conserves _ _ _ _ _ _ _ _ _ _ _ _ created_b_run E).
Defined.

(** The second request is in flight next to the first one's response. *)
Lemma created_unambiguous_witness :
  let b := _acquire_request_state_response_create_admission (sample_request "b" None) in
  _assign_websocket_response_id (pending sent_b) (Some "resp_2") =
    (modify "b" (λ r, r {{ response_id := Some "resp_2" }}) (pending sent_b), Some "b").
Proof.
  intros b. apply (created_unambiguous _ _ _ _ _ _ _ "resp_2" b sent_b_run).
  - change (pending sent_b) with (pending created_a ++ [b]). apply elem_of_app. right. by apply list_elem_of_singleton.
  - reflexivity.
  - apply (Forall_forall (λ x, response_id x ≠ Some "resp_2") (pending sent_b)).
    assert (map response_id (pending sent_b) = [Some "resp_1"; None]) as H by (vm_compute; reflexivity).
    revert H. generalize (pending sent_b). intros [|x [|y [|z l]]] H; try done. injection H as H1 H2. repeat constructor; congruence.
Defined.

(** A quota error before the response began: the request is sent again. *)
Definition quota_text : string :=
  dumps_ascii (JObj [("type", JStr "error"); ("error", JObj [("code", JStr "usage_limit_reached"); ("message", JStr "limit")])]).

Lemma replay_safe_witness :
  let '(c', stop) := sample_round quota_text sent_a in
  stop = true ∧ pending c' = [] ∧ ∃ r r', pending sent_a = [r] ∧ replay_of r r'.
Proof.
  destruct (sample_round quota_text sent_a) as [c' stop] eqn:E.
  assert (is_Some (replay_request_state (control (sample_round quota_text sent_a).1))) as [r' Hr] by (vm_compute; eauto).
  rewrite E in Hr. destruct (replay_safe _ _ _ _ _ _ _ _ _ _ _ _ r' sent_a_run E Hr) as (H1 & H2 & _ & r & H3 & H4). eauto 10.
Defined.

Lemma events_isolated_witness :
  let '(c', _) := _process_upstream_websocket_text "account" 0 None (text_of "response.completed" "resp_1") None created_b in
  others "a" (pending c') = others "a" (pending created_b) ∧ ids (others "a" (pending created_b)) = ["b"].
Proof.
  destruct (_process_upstream_websocket_text _ _ _ _ _ _) as [c' out] eqn:E. split; [|vm_compute; reflexivity].
  assert (∃ r, head (pending created_b) = Some r ∧ request_id r = "a" ∧ response_id r = Some "resp_1") as (r & Hh & <- & Hi)
    by (vm_compute; eauto).
  assert (r ∈ pending created_b) as Hr by (destruct (pending created_b); [done|injection Hh as ->; by left]).
  apply (events_isolated _ _ _ _ _ _ _ _ "resp_1" r _ _ created_b_run Hr Hi) with (2 := E). vm_compute. reflexivity.
Defined.


Lemma receive_timeout_bounds_witness :
  let t := receive_timeout 300 IDLE true in
  _next_websocket_receive_timeout 0 600 300 created_b = Some t ∧ (∀ r, awaited created_b r → 0 + 300 < started_at r + 600)%Q.
Proof.
  intros t. assert (_next_websocket_receive_timeout 0 600 300 created_b = Some t) as H by (vm_compute; reflexivity).
  split; [exact H|]. apply (receive_timeout_bounds 0 600 300 created_b t H).
Defined.

(** At time 400 the budget of both requests has 200 seconds left. *)
Definition last_wait : _WebSocketReceiveTimeout := receive_timeout (qmax 0 (600 - 400)) EXHAUSTED false.
Lemma deadline_progress_witness :
  length (pending (relay_step (λ s, s) "account" 0 None None 600 (Some last_wait) (DeadlineReached 600) created_b).1) < 2.
Proof.
  apply (deadline_progress (λ s, s) "account" 0 None None 600 300 400 600 created_b created_b last_wait).
  - split; [vm_compute; reflexivity|vm_compute; discriminate].
  - done.
Defined.

End WsFacts.
