(* ===== verification/BridgeRelay.v ===== *)
(** The HTTP bridge, [src/app/modules/proxy/service.py]: HTTP requests that share
    an upstream websocket.  What an upstream text does to the requests of a
    bridge session, how a request that saw no response is retried, how a client
    that leaves is detached, and the session's reader loop.

    The session's connection state is the [conn] of the websocket relay; a block
    put on the queue of a request's client is an effect.  Reconnecting the
    session's upstream and sending the request again is I/O: its outcome is an
    argument. *)

From S2P Require Import Prelude Balancer Admission Json Sse Requests ToolCalls ProxyEvents WsRequests WsRelay.
Import Json.Json Sse.Sse Sse.OpenAIModels Requests.JsonOps.
Import ProxyEvents.ProxyErrors ProxyEvents.ProxyEvents WsRequests.WsRequests WsRelay.WsRelay.

Module BridgeRelay.

Record _HTTPBridgeSession := {
  link : conn; queued_request_count : Z; closed : bool; last_upstream_close_code : option Z;
  br_last_response_id : option string; br_last_input_count : Z; br_last_fingerprint : option string }.
Notation session := _HTTPBridgeSession.

Definition on_link (f : conn → conn) (s : session) : session := s {{ link := f (link s) }}.
Definition requests (s : session) : list request := pending (link s).
Definition set_requests (p : list request) (s : session) : session := on_link (set_pending p) s.
(** [max(0, count - n)]. *)
Definition less_queued (n : Z) (s : session) : session := s {{ queued_request_count := Z.max 0 (queued_request_count s - n) }}.
Definition counted (l : list request) : Z := Z.of_nat (length (List.filter _http_bridge_request_counts_against_queue l)).

Definition _http_bridge_session_has_visible_requests (s : session) : bool :=
  (0 <? queued_request_count s)%Z || existsb _http_bridge_request_counts_against_queue (requests s).
Definition _http_bridge_session_retiring_with_visible_requests (s : session) : bool :=
  retire_after_drain (control (link s)) && _http_bridge_session_has_visible_requests s.

(** ** Error events *)

(** The error members of an event: code, type, message, parameter, and whether
    the code was given. *)
Definition error_fields (event : option OpenAIEvent) (payload : option (dict json))
    : option string * option string * option string * option string * bool :=
  match match event with Some e => ev_error e | None => None end with
  | Some e => (err_code e, err_type e, err_message e, err_param e,
               match err_code e with Some c => negb (String.eqb (py_strip c) "") | None => false end)
  | None =>
      match match payload with Some p => get_obj "error" p | None => None end with
      | Some d => (stripped_member "code" d, stripped_member "type" d, stripped_member "message" d, stripped_member "param" d,
                   bool_decide (is_Some (stripped_member "code" d)))
      | None => (None, None, None, None, false)
      end
  end.

Definition is_number (v : json) : bool := match v with JInt _ | JFloat _ | JBool _ => true | _ => false end.
Definition rate_limit_metadata (payload : option (dict json)) : dict json :=
  match match payload with Some p => get_obj "error" p | None => None end with
  | Some d =>
      match get_str "plan_type" d with Some t => [("plan_type", JStr t)] | None => [] end
      ++ flat_map (λ k, let v := get_or_null k d in if is_number v then [(k, v)] else []) ["resets_at"; "resets_in_seconds"]
  | None => []
  end.

(** [normalized_event["response"]["error"].update(metadata)]. *)
Definition update_error (event metadata : dict json) : dict json :=
  match get_obj "response" event with
  | Some r => match get_obj "error" r with
              | Some d => dict_set event "response" (JObj (dict_set r "error" (JObj (fold_left (λ d kv, dict_set d kv.1 kv.2) metadata d))))
              | None => event
              end
  | None => event
  end.

Definition _normalize_http_bridge_error_event (created : Z) (event : option OpenAIEvent) (payload : option (dict json))
    (name : option string) : string * option (dict json) * option OpenAIEvent * string :=
  let '(code, error_type, message, param, explicit) := error_fields event payload in
  let normalized := _normalize_error_code code error_type in
  let normalized := if negb explicit && String.eqb normalized "error" then "upstream_error" else normalized in
  let failed := response_failed_event created normalized (or_s message "Upstream error") (or_s error_type "server_error") name param in
  let block := format_sse_event (update_error failed (rate_limit_metadata payload)) in
  (block, parse_sse_data_json block, parse_sse_event block, "response.failed").

(** ** Retrying a request that saw no response *)

Definition retryable (r : request) : bool :=
  negb (draining_until_terminal r) && unresolved r && awaiting_response_created r && truthy_s (request_text r).

(** The outcome of reconnecting and sending: a failure, before or after the new
    connection was there, has an error code and a message. *)
Inductive retry_attempt := Resent | NotResent (reconnected : bool) (code message : string).

(** What a new upstream connection changes in the session; the account and the
    connection itself are arguments of the rounds that follow. *)
Definition _reconnect_http_bridge_session (s : session) : session :=
  (on_link (λ c, c {{ control := new_control }}) s) {{ closed := false; last_upstream_close_code := (None : option Z) }}.

Definition _retry_http_bridge_precreated_request (attempt : retry_attempt) (s : session) : session * bool :=
  match only (List.filter retryable (requests s)) with
  | None => (s, false)
  | Some r =>
      let change f := set_requests (modify (request_id r) f (requests s)) s in
      if bool_decide (is_Some (previous_response_id r)) || (1 <=? replay_count r)%Z || (0 <? response_event_count r)%Z
         || downstream_visible r
      then (s, false)
      else match _classify_upstream_close (last_upstream_close_code s) (response_event_count r) with
      | rejected =>
          (change (λ r, r {{ error_code_override := Some "upstream_rejected_input"; error_http_status_override := Some 502%Z;
                             error_message_override :=
                               Some ("Upstream rejected the request before response.created (close_code="
                                     ++ match last_upstream_close_code s with Some n => show_Z n | None => "None" end ++ ")")%string }}), false)
      | transient =>
          match attempt with
          | Resent => (_reconnect_http_bridge_session (change (λ r, r {{ replay_count := (replay_count r + 1)%Z }})), true)
          | NotResent reconnected code message =>
              let s := change (λ r, r {{ replay_count := (replay_count r + 1)%Z; error_code_override := Some code;
                                         error_message_override := Some message }}) in
              (if reconnected then _reconnect_http_bridge_session s else s, false)
          end
      end
  end.

(** ** One upstream text *)

Section Bridge.
Context (account_id : string) (created : Z).

(** What the part under the lock leaves: whether the text is withheld, the
    request just created, the one matched, the one that ended and those that
    end with it, whether others are pending, the event and its block. *)
Record routed := {
  rt_withheld : bool; rt_created : option string; rt_matched : option string; rt_ended : option request; rt_grouped : list request;
  rt_others : bool; rt_event : rewritten; rt_block : string }.

(** The requests that end with a terminal event. *)
Definition bridge_end (e : reading) (event_type : option string) (matched : option string) (s : session)
    : session * option string * option request * list request :=
  let quiet := negb (in_set event_type ["response.failed"; "response.incomplete"; "error"]) in
  let '(p, ended) := _pop_terminal_websocket_request_state (requests s) (rd_response_id e) matched (hints_of e quiet) true in
  let s := set_requests p s in
  let '(matched, ended) :=
    match matched, ended, rd_response_id e with
    | None, Some r, Some i =>
        if in_set event_type ["response.completed"] && unresolved r then (Some (request_id r), Some (r {{ response_id := Some i }}))
        else if bool_decide (response_id r = Some i) then (Some (request_id r), ended)
        else (None, ended)
    | _, _, _ => (matched, ended)
    end in
  let '(s, grouped) :=
    if match ended with Some r => _http_bridge_request_counts_against_queue r | None => false end then (less_queued 1 s, [])
    else if not_found e || missing_output e
    then let '(p, grouped) := pop_concerned e (requests s) in
         let s := set_requests p s in (if nonempty grouped then less_queued (counted grouped) s else s, grouped)
    else (s, []) in
  let '(s, grouped) :=
    if negb (bool_decide (is_Some ended)) && in_set event_type ["error"] && typeless_error e && negb (nonempty grouped)
    then let grouped := requests s in
         let s := set_requests [] s in (if nonempty grouped then less_queued (counted grouped) s else s, grouped)
    else (s, grouped) in
  (s, matched, ended, grouped).

Definition bridge_route (text : string) (e : reading) (s : session) : session * routed :=
  let '(text, payload, event, event_type, block) := ToolDedupe.rewrite_parallel_tool_call_text text (rd_payload e) (data_block text) in
  let quiet := negb (in_set event_type ["response.failed"; "response.incomplete"; "error"]) in
  let '(p, matched) := match_event e event_type (hints_of e quiet) (requests s) in
  let noted := match match matched with Some i => deref i p | None => None end with
               | Some r => Some (dedupe_event payload (note_event payload r))
               | None => None
               end in
  match noted with
  | Some (true, _, r) =>
      (set_requests (modify (request_id r) (λ _, r {{ suppressed_duplicate_tool_call := true }}) p) s,
       {| rt_withheld := true; rt_created := None; rt_matched := matched; rt_ended := None; rt_grouped := []; rt_others := false;
          rt_event := (event, payload, event_type, text); rt_block := block |})
  | _ =>
      let '(p, payload, block) :=
        match noted with
        | Some (_, payload, r) =>
            let r := if in_set event_type TEXT_DELTA_EVENT_TYPES then r {{ downstream_visible := true }} else r in
            (modify (request_id r) (λ _, r) p, payload, match payload with Some d => format_sse_event d | None => block end)
        | None => (p, payload, block)
        end in
      let s := set_requests p s in
      let created_ref := if in_set event_type ["response.created"] then matched else None in
      let w := (event, payload, event_type, text) in
      if in_set event_type TERMINAL_EVENTS
      then let '(s, matched, ended, grouped) := bridge_end e event_type matched s in
           (s, {| rt_withheld := false; rt_created := created_ref; rt_matched := matched; rt_ended := ended; rt_grouped := grouped;
                  rt_others := nonempty (requests s); rt_event := w; rt_block := block |})
      else (s, {| rt_withheld := false; rt_created := created_ref; rt_matched := matched; rt_ended := None; rt_grouped := []; rt_others := false;
                  rt_event := w; rt_block := block |})
  end.

(** Requests ended together. *)
Fixpoint bridge_finalize_group (group : list request) (s : session) : session :=
  match group with
  | [] => s
  | r :: rest =>
      let r := r {{ error_http_status_override := Some 502%Z }} in
      let '(_, block, event, payload, event_type) := _build_stream_incomplete_terminal_event_for_request created r in
      let s := on_link (emit (if event_queue r then [Put (request_id r) block; PutEnd (request_id r)] else [])) s in
      bridge_finalize_group rest (on_link (_finalize_websocket_request_state account_id r event event_type payload (api_key r)) s)
  end.

(** The request whose status an event decides: the one that ended, or the one
    matched, which is still pending. *)
Inductive status_of := NoRequest | Ended (r : request) | Pending (r : request).
Definition status (t : routed) (s : session) : status_of :=
  match rt_ended t with
  | Some r => Ended r
  | None => match match rt_matched t with Some i => deref i (requests s) | None => None end with
            | Some r => Pending r
            | None => NoRequest
            end
  end.
Definition status_request (x : status_of) : option request := match x with NoRequest => None | Ended r | Pending r => Some r end.
(** A change of that request. *)
Definition change_status (f : request → request) (t : routed) (s : session) : routed * session :=
  match status t s with
  | NoRequest => (t, s)
  | Ended r => (t {{ rt_ended := Some (f r) }}, s)
  | Pending r => (t, set_requests (modify (request_id r) f (requests s)) s)
  end.
Definition set_event (w : rewritten) (t : routed) : routed := let '(_, _, _, text) := w in t {{ rt_event := w; rt_block := data_block text }}.
Definition override_502 (r : request) : request := r {{ error_http_status_override := Some 502%Z }}.

(** The event is counted on the request matched and on the one that ended. *)
Definition count_event (t : routed) (s : session) : routed * session :=
  let '(_, _, event_type, _) := rt_event t in
  let s := match rt_matched t with Some i => set_requests (modify i (_record_response_event event_type) (requests s)) s | None => s end in
  (t {{ rt_ended := option_map (_record_response_event event_type) (rt_ended t) }}, s).

(** A completion that follows a withheld call becomes a failure. *)
Definition rewrite_suppressed (t : routed) (s : session) : routed * session :=
  let '(_, _, event_type, _) := rt_event t in
  match rt_ended t with
  | Some r =>
      if in_set event_type ["response.completed"] && suppressed_duplicate_tool_call r
      then let r := override_502 r in
           (set_event (_rewrite_websocket_suppressed_duplicate_tool_call_completion_event created r) (t {{ rt_ended := Some r }}),
            on_link request_reconnect (s {{ closed := true }}))
      else (t, s)
  | None => (t, s)
  end.

Definition rewrite_missing_output (e : reading) (t : routed) (s : session) : routed * session :=
  match status_request (status t s) with
  | Some r =>
      if bool_decide (is_Some (previous_response_id r)) && missing_output e
      then let '(w, c) := _rewrite_websocket_continuity_corruption_event created r true (link s) in
           let '(t, s) := change_status override_502 t (s {{ link := c }}) in (set_event w t, s)
      else (t, s)
  | None => (t, s)
  end.

Definition rewrite_not_found (e : reading) (t : routed) (s : session) : routed * session :=
  match status_request (status t s) with
  | Some r =>
      if not_found e
      then let '(w, c) := _maybe_rewrite_websocket_previous_response_not_found_event created r (rt_event t) (link s) in
           let lone := negb (bool_decide (is_Some (rd_response_id e))) && negb (rt_others t) in
           let '(t, s) := change_status (λ r, (override_502 r) {{ previous_response_not_found_rewritten := lone }}) t (s {{ link := c }}) in
           (set_event w t, s)
      else (t, s)
  | None => (t, s)
  end.

(** A quota error of the account: the request is failed when it is pinned to the
    account, retried on another one when it is new.  The result says whether the
    request was sent again. *)
Definition handle_quota (e : reading) (attempt : retry_attempt) (t : routed) (s : session) : routed * session * bool :=
  let '(_, payload, event_type, _) := rt_event t in
  match status_request (status t s) with
  | None => (t, s, false)
  | Some r =>
      let report := only_message (match _websocket_event_error_message event_type payload with Some m => m | None => "Upstream error" end) in
      let blame code := on_link (emit [HandleStreamError report code]) in
      match _websocket_owner_pinned_quota_error_code r event_type payload, _websocket_precreated_retry_error_code r event_type payload (rt_others t) with
      | Some code, _ =>
          if not_found e then (t, s, false)
          else
            let s := on_link (λ c, c {{ control := (control c) {{ reconnect_requested := true; retire_after_drain := true }} }}) (blame code s) in
            let '(t, s) := change_status (λ r, (override_502 r) {{ account_health_error_handled := true }}) t s in
            (set_event (_rewrite_websocket_previous_response_owner_unavailable_event created r) t, s, false)
      | None, Some code =>
          if not_found e then (t, s, false)
          else
            let '(t, s) := change_status (λ r, r {{ account_health_error_handled := true }}) t (blame code s) in
            match previous_response_id r with
            | Some _ => (t, s, false)
            | None =>
                let r := r {{ account_health_error_handled := true; awaiting_response_created := true; response_id := (None : option string) }} in
                let s := if pending_has (request_id r) (requests s) then set_requests (modify (request_id r) (λ _, r) (requests s)) s
                         else (set_requests (r :: requests s) s) {{ queued_request_count := (queued_request_count s + 1)%Z }} in
                let '(s, retried) := _retry_http_bridge_precreated_request attempt s in
                if retried then (t, s, true)
                else
                  let r := override_502 (default r (deref (request_id r) (requests s))) in
                  let s := less_queued 1 (set_requests (remove_ref (request_id r) (requests s)) s) in
                  let '(_, block, event, payload, event_type) := _build_stream_incomplete_terminal_event_for_request created r in
                  (t {{ rt_ended := if bool_decide (is_Some (rt_ended t)) then Some r else None; rt_event := (event, payload, event_type, ""); rt_block := block }},
                   s, false)
            end
      | None, None => (t, s, false)
      end
  end.

(** A completed response anchors the next turn. *)
Definition note_completed (e : reading) (t : routed) (s : session) : session :=
  let '(_, _, event_type, _) := rt_event t in
  match rt_ended t with
  | Some r =>
      if negb (in_set event_type ["response.completed"]) then s
      else
        let s := match rd_response_id e with Some i => s {{ br_last_response_id := Some i }} | None => s end in
        if (0 <? input_item_count r)%Z
        then s {{ br_last_input_count := input_item_count r; br_last_fingerprint := input_full_fingerprint r }} else s
  | None => s
  end.

Definition normalize_error (t : routed) (s : session) : routed * session :=
  let '(event, payload, event_type, text) := rt_event t in
  if in_set event_type ["error"]
  then let '(t, s) := change_status (λ r, r {{ error_http_status_override := _http_error_status_from_payload payload }}) t s in
       let '(block, payload, event, event_type) :=
         _normalize_http_bridge_error_event created event payload (option_map name_of (status_request (status t s))) in
       (t {{ rt_event := (event, payload, Some event_type, text); rt_block := block }}, s)
  else (t, s).

(** The matched request as it is now: ended or still pending. *)
Definition matched_request (t : routed) (s : session) : option request :=
  match rt_matched t, rt_ended t with
  | Some i, Some r => if is_ref i r then Some r else deref i (requests s)
  | Some i, None => deref i (requests s)
  | None, _ => None
  end.
Definition put_block (t : routed) (r : request) : list effect := if event_queue r then [Put (request_id r) (rt_block t)] else [].

(** The gate, the aliases of a completed response, and the queues. *)
Definition deliver (e : reading) (t : routed) (s : session) : session :=
  let '(event, payload, event_type, _) := rt_event t in
  let s := match match rt_created t with Some i => deref i (requests s) | None => None end with
           | Some r => if in_set event_type ["response.created"]
                       then let '(r, c) := release_gate r (link s) in
                            set_requests (modify (request_id r) (λ _, r) (requests s)) (s {{ link := c }})
                       else s
           | None => s
           end in
  let m := matched_request t s in
  let s := match rd_response_id e, m with
           | Some i, Some r =>
               if in_set event_type ["response.completed"]
               then let listed := (0 <? input_item_count r)%Z in
                    on_link (emit [RegisterPreviousResponse i (if listed then Some (input_item_count r) else None)
                                     (if listed then input_full_fingerprint r else None)]) s
               else s
           | _, _ => s
           end in
  let s := match m with Some r => on_link (emit (put_block t r)) s | None => s end in
  match rt_ended t with
  | None => s
  | Some r =>
      let same := match rt_matched t with Some i => is_ref i r | None => false end in
      let s := on_link (emit ((if same then [] else put_block t r) ++ (if event_queue r then [PutEnd (request_id r)] else []))) s in
      on_link (_finalize_websocket_request_state account_id r event event_type payload (api_key r)) s
  end.

Definition _process_http_bridge_upstream_text (attempt : retry_attempt) (text : string) (s : session) : session :=
  let e := read_event text in
  let '(s, t) := bridge_route text e s in
  if rt_withheld t then s
  else match rt_grouped t with
  | _ :: _ :: _ => bridge_finalize_group (rt_grouped t) (on_link request_reconnect s)
  | _ =>
      let t := match rt_ended t, rt_grouped t with None, [r] => t {{ rt_ended := Some r }} | _, _ => t end in
      let '(t, s) := count_event t s in
      match status t s with
      | NoRequest => if not_found e then on_link request_reconnect s else deliver e (normalize_error t s).1 (note_completed e t s)
      | x =>
          let '(_, _, event_type, _) := rt_event t in
          let s := if in_set event_type TERMINAL_EVENTS then s
                   else match status_request x with Some r => on_link (emit [TouchReservation (request_id r)]) s | None => s end in
          let '(t, s) := rewrite_suppressed t s in
          let '(t, s) := rewrite_missing_output e t s in
          let '(t, s) := rewrite_not_found e t s in
          let '(t, s, resent) := handle_quota e attempt t s in
          if resent then s
          else
            let s := note_completed e t s in
            let '(t, s) := normalize_error t s in
            deliver e t s
      end
  end.

(** ** Clients that leave, and the reader *)

Definition _retire_http_bridge_after_drain_if_ready (s : session) : session * bool :=
  if negb (reconnect_requested (control (link s)) && retire_after_drain (control (link s))) then (s, false)
  else if existsb _http_bridge_request_counts_against_queue (requests s) || negb (queued_request_count s =? 0)%Z then (s, false)
  else ((set_requests [] s) {{ closed := true }}, true).

(** The client of a request stops reading its queue. *)
Definition _detach_http_bridge_request (i : string) (s : session) : session * bool :=
  match deref i (requests s) with
  | None => (s, false)
  | Some r =>
      if draining_until_terminal r then (set_requests (modify i (λ r, r {{ event_queue := false }}) (requests s)) s, false)
      else
        let '(r, c) := release_gate (r {{ draining_until_terminal := true; downstream_visible := false; event_queue := false }}) (link s) in
        let c := emit (_release_websocket_reservation (api_key_reservation r)) c in
        let r := r {{ api_key_reservation := (None : option ApiKeyUsageReservationData) }} in
        let s := less_queued 1 (set_requests (modify i (λ _, r) (requests s)) (s {{ link := c }})) in
        let s := on_link (λ c, c {{ control := (control c) {{ reconnect_requested := true; retire_after_drain := true }} }}) s in
        ((_retire_http_bridge_after_drain_if_ready s).1, true)
  end.

Definition bridge_failing (code message : string) : failing :=
  {| fl_account := true; fl_account_id := Some account_id; fl_code := code; fl_message := message; fl_key := None;
     fl_to_client := false; fl_status := "error"; fl_penalize := true |}.
Definition fail_session (code message : string) (s : session) : session :=
  (on_link (_fail_pending_websocket_requests created (bridge_failing code message)) (s {{ queued_request_count := 0%Z }})) {{ closed := true }}.

Inductive bridge_wake :=
  | BridgeText (text : string)
  | BridgeClosed (error : option string) (close_code : option Z)
  | BridgeTimeout
  | BridgeCrashed.

(** One round of the reader, which stops with the session closed; [waited] is
    the timeout computed before the wait. *)
Definition bridge_step (waited : option _WebSocketReceiveTimeout) (attempt : retry_attempt) (w : bridge_wake) (s : session) : session * bool :=
  match w with
  | BridgeText text =>
      let s := _process_http_bridge_upstream_text attempt text (s {{ last_upstream_close_code := (None : option Z) }}) in
      _retire_http_bridge_after_drain_if_ready s
  | BridgeClosed error close_code =>
      let '(s, retried) := _retry_http_bridge_precreated_request attempt (s {{ last_upstream_close_code := close_code }}) in
      if retried then (s, false)
      else (fail_session "stream_incomplete" (_upstream_websocket_disconnect_message error close_code) s, true)
  | BridgeTimeout =>
      match waited with
      | None => (s, false)
      | Some t =>
          let '(s, retried) := _retry_http_bridge_precreated_request attempt s in
          if retried then (s, false) else (fail_session (to_error_code t) (to_error_message t) s, true)
      end
  | BridgeCrashed => (fail_session "stream_incomplete" "HTTP bridge upstream reader crashed before response.completed" s, true)
  end.

End Bridge.

End BridgeRelay.
