(* ===== verification/BridgeRelayFacts.v ===== *)
(** Properties of the HTTP bridge's relay: an upstream text loses no request
    of a session whose clients are all still there and keeps the count of the
    queue right; a text that ends the request of a client that left can lose
    the request of another. *)

From S2P Require Import Prelude Balancer Admission Json Sse Requests ToolCalls ProxyEvents WsRequests WsRelay WsFacts BridgeRelay.
Import Json.Json Sse.Sse Sse.OpenAIModels Requests.JsonOps.
Import ProxyEvents.ProxyErrors ProxyEvents.ProxyEvents WsRequests.WsRequests WsRelay.WsRelay WsFacts.WsFacts BridgeRelay.BridgeRelay.

Module BridgeRelayFacts.

(** ** What a change of a request keeps *)

Definition key (r : request) : string * bool := (request_id r, draining_until_terminal r).
Notation keys := (map key).

Lemma ids_keys l : ids l = map fst (keys l).
Proof. by rewrite map_map. Qed.

Lemma keys_ids l k : keys l ≡ₚ keys k → ids l ≡ₚ ids k.
Proof. rewrite !ids_keys. by intros ->. Qed.

Lemma keys_ids_eq l k : keys l = keys k → ids l = ids k.
Proof. rewrite !ids_keys. by intros ->. Qed.

Lemma modify_keys i f p : (∀ r, key (f r) = key r) → keys (modify i f p) = keys p.
Proof. intros H. unfold modify, update_where. apply map_map_id. intros r. case_match; auto. Qed.

Lemma core_keys p q : map core p ≡ₚ map core q → keys p ≡ₚ keys q.
Proof.
  set (g := λ x : string * option string * bool * option string * Z * option string * (bool * option string * bool)
                  * option string * bool * bool * Z, let '(i, _, _, _, _, _, _, _, _, d, _) := x in (i, d)).
  intros H. assert (∀ l, keys l = map g (map core l)) as E by (intros l; by rewrite map_map). rewrite !E. by rewrite H.
Qed.

Lemma record_event_key ty r : key (_record_response_event ty r) = key r.
Proof. unfold _record_response_event. repeat case_match; done. Qed.

Definition visible (r : request) : Prop := draining_until_terminal r = false.

Lemma visible_keys l k : keys l ≡ₚ keys k → Forall visible l → Forall visible k.
Proof.
  intros H. rewrite !Forall_forall. intros Hl r Hr. assert (key r ∈ keys l) as (r0 & E & Hr0)%elem_of_map.
  { rewrite H. apply elem_of_map. eauto. } injection E as _ E. unfold visible. rewrite E. by apply Hl.
Qed.

Lemma counted_visible l : Forall visible l → counted l = Z.of_nat (length l).
Proof.
  intros H. unfold counted. f_equal. induction H as [|r l Hr _ IH]; [done|]. simpl.
  unfold _http_bridge_request_counts_against_queue at 1. unfold visible in Hr. rewrite Hr. simpl. by rewrite IH.
Qed.

(** ** The part under the lock *)

Lemma pop_terminal_matched p rid i h a p' ended : i ∈ ids p →
  _pop_terminal_websocket_request_state p rid (Some i) h a = (p', ended) → is_Some ended.
Proof.
  intros (r & -> & Hr)%elem_of_map. unfold _pop_terminal_websocket_request_state.
  destruct (match rid with Some j => _ | None => _ end); [by intros [= _ <-]|].
  destruct (deref (request_id r) p) as [x|] eqn:E; [by intros [= _ <-]|].
  pose proof (find_None_elem _ _ _ E Hr) as H. by rewrite is_ref_refl in H.
Qed.

(** What the session is after requests have left its queue. *)
Definition left (s s' : session) (out : list request) : Prop :=
  keys (requests s) ≡ₚ keys out ++ keys (requests s') ∧ answered (link s') = answered (link s) ∧
  queued_request_count s' = (queued_request_count s - Z.of_nat (length out))%Z.

(** Every client is still there, and the queue's count is the number of requests. *)
Record bridge_inv (s : session) : Prop := {
  bi_ids : NoDup (ids (requests s));
  bi_visible : Forall visible (requests s);
  bi_count : queued_request_count s = Z.of_nat (length (requests s)) }.

Lemma keys_length (l k : list request) : keys l ≡ₚ keys k → length l = length k.
Proof. intros H%Permutation_length. by rewrite !length_map in H. Qed.

Lemma left_nil s : left s s [].
Proof. split_and!; [done..|simpl; lia]. Qed.

Lemma left_inv s s' out : bridge_inv s → left s s' out → bridge_inv s' ∧ Forall visible out ∧ NoDup (ids out ++ ids (requests s')).
Proof.
  intros [Hnd Hv Hc] (Hk & _ & Hq). rewrite <- map_app in Hk. pose proof (visible_keys _ _ Hk Hv) as [Hvo Hvs]%Forall_app.
  pose proof (keys_length _ _ Hk) as Hl. rewrite length_app in Hl. apply keys_ids in Hk. rewrite Hk, map_app in Hnd.
  split_and!; [|done|done]. split; [by apply NoDup_app in Hnd as (_ & _ & ?)|done|lia].
Qed.

(** Requests that end together. *)
Lemma left_grouped s p g p1 : bridge_inv s → keys (requests s) ≡ₚ keys p → p ≡ₚ g ++ p1 →
  left s (if nonempty g then less_queued (counted g) (set_requests p1 (set_requests p s)) else set_requests p1 (set_requests p s)) g.
Proof.
  intros [_ Hv Hc] Hk Hp. assert (keys (requests s) ≡ₚ keys g ++ keys p1) as Hk1 by (by rewrite Hk, <- map_app, Hp).
  assert (Forall visible g) as Hvg.
  { rewrite <- map_app in Hk1. by apply (visible_keys _ _ Hk1), Forall_app in Hv as [? _]. }
  assert (length (requests s) = length g + length p1) as Hl by (rewrite <- map_app in Hk1; by rewrite (keys_length _ _ Hk1), length_app).
  destruct g as [|r g]; cbn [nonempty]; (split_and!; [exact Hk1|done|]).
  - change (queued_request_count s = queued_request_count s - 0)%Z. lia.
  - change (Z.max 0 (queued_request_count s - counted (r :: g)) = queued_request_count s - Z.of_nat (length (r :: g)))%Z.
    rewrite counted_visible by done. lia.
Qed.

Lemma bridge_end_spec e ty matched s s' matched' ended grouped :
  bridge_inv s → bridge_end e ty matched s = (s', matched', ended, grouped) →
  left s s' (option_list ended ++ grouped) ∧ (is_Some ended → grouped = []) ∧
  (∀ i, matched = Some i → i ∈ ids (requests s) → is_Some ended) ∧ (ended = None → matched' = matched).
Proof.
  intros Hinv. unfold bridge_end. destruct (_pop_terminal_websocket_request_state _ _ _ _ _) as [p ended0] eqn:Epop.
  assert (∀ i, matched = Some i → i ∈ ids (requests s) → is_Some ended0) as Hm by (intros i -> Hi; by eapply pop_terminal_matched).
  apply pop_terminal_spec in Epop as Hp; [|by destruct Hinv].
  destruct (match matched, ended0, rd_response_id e with None, Some r, Some i => _ | _, _, _ => _ end) as [matched1 ended1] eqn:E1.
  assert (option_map key ended1 = option_map key ended0 ∧ (ended1 = None → matched1 = matched)) as [Hk Hmm].
  { revert E1. destruct matched, ended0, (rd_response_id e); repeat case_if; by intros [= <- <-]. }
  assert (keys (requests s) ≡ₚ keys (option_list ended1 ++ p)) as Hkeys.
  { rewrite Hp, !map_app. destruct ended0 as [x|], ended1 as [y|]; try done. injection Hk as H1 H2. simpl. unfold key at 1 3. by rewrite H1, H2. }
  clear E1. assert (∀ i, matched = Some i → i ∈ ids (requests s) → is_Some ended1) as Hsome.
  { intros i Hi1 Hi2. specialize (Hm i Hi1 Hi2). by destruct ended0, ended1. }
  pose proof (visible_keys _ _ Hkeys (bi_visible _ Hinv)) as [Hve Hvp]%Forall_app.
  pose proof (keys_length _ _ Hkeys) as Hlen. rewrite length_app in Hlen. pose proof (bi_count _ Hinv) as Hc.
  assert (NoDup (ids p)) as Hnp.
  { pose proof (bi_ids _ Hinv) as H. apply keys_ids in Hkeys. rewrite Hkeys, map_app in H. by apply NoDup_app in H as (_ & _ & ?). }
  destruct ended1 as [r|].
  - assert (_http_bridge_request_counts_against_queue r = true) as ->.
    { apply Forall_cons_1 in Hve as [Hvr _]. unfold _http_bridge_request_counts_against_queue. unfold visible in Hvr. by rewrite Hvr. }
    rewrite (bool_decide_eq_true_2 (is_Some (Some r))) by done. cbn [negb andb]. intros [= <- <- <- <-].
    split_and!; [|done..]. split_and!; [by rewrite app_nil_r, Hkeys, map_app|done|].
    change (Z.max 0 (queued_request_count s - 1) = queued_request_count s - 1)%Z. simpl in Hlen. lia.
  - simpl option_list in *. pose proof (λ g p1, left_grouped s p g p1 Hinv Hkeys) as Hg.
    rewrite (bool_decide_eq_false_2 (is_Some None)) by (by intros []). cbn [negb andb].
    destruct (not_found e || missing_output e).
    + change (requests (set_requests p s)) with p. destruct (pop_concerned e p) as [p1 g1] eqn:Ec. apply pop_concerned_spec in Ec; [|done].
      specialize (Hg _ _ Ec) as Hg1. destruct g1 as [|g gs]; cbn [nonempty negb] in *.
      * rewrite andb_true_r. destruct (in_set ty ["error"] && typeless_error e); intros [= <- <- <- <-]; (split_and!; [|by intros []|done|done]); [|done].
        apply (Hg p1 []). by rewrite app_nil_r.
      * rewrite andb_false_r. intros [= <- <- <- <-]. split_and!; [done|by intros []|done|done].
    + cbn [nonempty negb]. rewrite andb_true_r. destruct (in_set ty ["error"] && typeless_error e); intros [= <- <- <- <-]; (split_and!; [|by intros []|done|done]).
      * apply (Hg p []). by rewrite app_nil_r.
      * apply (Hg [] p). done.
Qed.

(** The same requests, counted and answered as before. *)
Definition same_session (s s' : session) : Prop :=
  keys (requests s') = keys (requests s) ∧ answered (link s') = answered (link s) ∧ queued_request_count s' = queued_request_count s.

Lemma same_session_refl s : same_session s s.
Proof. done. Qed.

Lemma same_session_trans s1 s2 s3 : same_session s1 s2 → same_session s2 s3 → same_session s1 s3.
Proof. intros (? & ? & ?) (? & ? & ?). split_and!; congruence. Qed.

Lemma same_session_inv s s' : same_session s s' → bridge_inv s → bridge_inv s'.
Proof.
  intros (Hk & _ & Hq) [Hnd Hv Hc]. split; [by rewrite (keys_ids_eq _ _ Hk)|apply (visible_keys (requests s)); [by rewrite Hk|done]|].
  assert (keys (requests s') ≡ₚ keys (requests s)) as Hl%keys_length by (by rewrite Hk). by rewrite Hl, Hq.
Qed.

Lemma same_session_left s s0 s1 out : same_session s s0 → left s0 s1 out → left s s1 out.
Proof. intros (Hk & Ha & Hq) (Hk' & Ha' & Hq'). unfold left. rewrite <- Hk, <- Ha, <- Hq. done. Qed.

Lemma same_session_modify i f s : (∀ r, key (f r) = key r) → same_session s (set_requests (modify i f (requests s)) s).
Proof. intros H. split_and!; [|done..]. change (keys (modify i f (requests s)) = keys (requests s)). by apply modify_keys. Qed.

(** An event that is no error says of no response that it is lost. *)
Lemma flags_quiet text : in_set (rd_type (read_event text)) ["error"; "response.failed"] = false →
  not_found (read_event text) = false ∧ missing_output (read_event text) = false.
Proof.
  intros H. set (e := read_event text) in *. assert (∀ k, error_member k (rd_type e) (rd_payload e) = None) as Hm.
  { intros k. unfold error_member, _websocket_event_error_payload. destruct (rd_payload e); [|done].
    destruct (rd_type e) as [ty|]; [|done]. cbn [in_set] in *. unfold mem in *. cbn [existsb] in *.
    destruct (String.eqb ty "error"); [done|]. destruct (String.eqb ty "response.failed"); done. }
  change (_is_previous_response_not_found_error (Some (_normalize_error_code (error_member "code" (rd_type e) (rd_payload e)) (error_member "type" (rd_type e) (rd_payload e))))
            (error_member "param" (rd_type e) (rd_payload e)) (error_member "message" (rd_type e) (rd_payload e)) = false ∧
          _is_missing_tool_output_error (Some (_normalize_error_code (error_member "code" (rd_type e) (rd_payload e)) (error_member "type" (rd_type e) (rd_payload e))))
            (error_member "param" (rd_type e) (rd_payload e)) (error_member "message" (rd_type e) (rd_payload e)) = false).
  rewrite !Hm. done.
Qed.

Lemma read_type_payload text p ty : rd_payload (read_event text) = Some p → get_str "type" p = Some ty → rd_type (read_event text) = Some ty.
Proof.
  cbn [rd_payload rd_type read_event]. intros Hp Ht. unfold parse_sse_event. rewrite Hp. unfold _event_type_from_payload, validate_OpenAIEvent.
  rewrite Ht. simpl. by destruct (opt_model validate_OpenAIResponse "response" p).
Qed.

Lemma rewritten_payload_type payload p n : ToolDedupe.rewrite_parallel_tool_call_payload payload = (p, true, n) →
  ∃ d, payload = Some d ∧ get_str "type" d = Some "response.output_item.done".
Proof.
  unfold ToolDedupe.rewrite_parallel_tool_call_payload. destruct payload as [d|]; [|done].
  destruct (bool_decide (get_str "type" d = Some "response.output_item.done")) eqn:E; [|done]. apply bool_decide_eq_true in E. eauto.
Qed.

Lemma quiet_text text txt payload event ty block : let e := read_event text in
  ToolDedupe.rewrite_parallel_tool_call_text text (rd_payload e) (data_block text) = (txt, payload, event, ty, block) →
  in_set ty TERMINAL_EVENTS = false → not_found e = false ∧ missing_output e = false.
Proof.
  intros e. unfold ToolDedupe.rewrite_parallel_tool_call_text.
  destruct (ToolDedupe.rewrite_parallel_tool_call_payload (rd_payload e)) as [[p changed] n] eqn:E.
  assert (∀ t, t = rd_type e → in_set t TERMINAL_EVENTS = false → not_found e = false ∧ missing_output e = false) as Hsame.
  { intros t -> Ht. apply flags_quiet. fold e. destruct (rd_type e) as [t|]; [|done]. cbn [in_set] in *. unfold mem, TERMINAL_EVENTS in *.
    cbn [existsb] in *. rewrite !orb_false_iff in Ht. destruct Ht as (_ & -> & _ & -> & _). done. }
  destruct changed.
  - apply rewritten_payload_type in E as (d & Hd & Ht). intros _ _. apply flags_quiet. by rewrite (read_type_payload text d _ Hd Ht).
  - intros H. assert (ty = rd_type e) as -> by (by destruct p; injection H as _ _ _ <- _). by apply Hsame.
Qed.


Definition event_type_of (t : routed) : option string := let '(_, _, ty, _) := rt_event t in ty.

Record routed_ok (e : reading) (s s' : session) (t : routed) : Prop := {
  rk_left : left s s' (option_list (rt_ended t) ++ rt_grouped t);
  rk_one : is_Some (rt_ended t) → rt_grouped t = [];
  rk_withheld : rt_withheld t = true → rt_ended t = None ∧ rt_grouped t = [];
  rk_quiet : rt_ended t = None → is_Some (rt_matched t) →
    rt_withheld t = true ∨ not_found e = false ∧ missing_output e = false ∧ in_set (event_type_of t) TERMINAL_EVENTS = false ∧ rt_grouped t = [] }.

Lemma assigned_keys p rid p' : assigned p rid p' → keys p' = keys p.
Proof. intros [->|(r & i & _ & _ & _ & _ & ->)]; [done|]. by apply modify_keys. Qed.

Lemma core_key r r' : core r' = core r → key r' = key r.
Proof. intros H. unfold core in H. injection H as E1 E2 E3 E4 E5 E6 E7 E8 E9 E10 E11 E12 E13. unfold key. by rewrite E1, E12. Qed.

Lemma bridge_end_routed e ty m s0 s w block c : let s1 := s0 in bridge_inv s1 → same_session s s1 →
  (∀ i, m = Some i → i ∈ ids (requests s1)) → ∀ s' t,
  (let '(s2, matched, ended, grouped) := bridge_end e ty m s1 in
     (s2, {| rt_withheld := false; rt_created := c; rt_matched := matched; rt_ended := ended; rt_grouped := grouped;
             rt_others := nonempty (requests s2); rt_event := w; rt_block := block |})) = (s', t) → routed_ok e s s' t.
Proof.
  intros s1 Hinv Hss Hm s' t. destruct (bridge_end e ty m s1) as [[[s2 matched] ended] grouped] eqn:Ee.
  apply bridge_end_spec in Ee as (Hl & Ho & Hs & Hn); [|done]. intros [= <- <-]. split; simpl; try done.
  - by eapply same_session_left.
  - intros -> Hi. rewrite (Hn eq_refl) in Hi. destruct Hi as [i Hi]. by destruct (Hs i Hi (Hm i Hi)).
Qed.

Lemma bridge_route_spec text s s' t : bridge_inv s → bridge_route text (read_event text) s = (s', t) → routed_ok (read_event text) s s' t.
Proof.
  intros Hinv. unfold bridge_route. set (e := read_event text).
  destruct (ToolDedupe.rewrite_parallel_tool_call_text _ _ _) as [[[[txt payload] event] ty] block] eqn:Et.
  pose proof (quiet_text text txt payload event ty block Et) as Hquiet. fold e in Hquiet. clear Et.
  destruct (match_event e ty _ (requests s)) as [p m] eqn:Em. apply match_event_spec in Em as (Ha & Hm & _).
  pose proof (assigned_keys _ _ _ Ha) as Hk.
  set (noted := match match m with Some i => deref i p | None => None end with Some r => _ | None => None end).
  assert (∀ b payload' r', noted = Some (b, payload', r') → ∀ r2, core r2 = core r' → keys (modify (request_id r') (λ _, r2) p) = keys p) as Hn.
  { intros b payload' r'. subst noted. destruct (match m with Some i => deref i p | None => None end) as [r|] eqn:Ed; [|done].
    intros [= H] r2 Hr2. apply noted_core in H. rewrite H in Hr2. destruct m; [|done]. apply deref_Some in Ed as [Hr _].
    rewrite (core_request_id _ _ H). apply modify_map; [|done|by apply core_key]. rewrite (assigned_ids _ _ _ Ha). by destruct Hinv. }
  assert (∀ p2, keys p2 = keys p → same_session s (set_requests p2 s)) as Hss by (intros p2 Hp2; split_and!; [by rewrite <- Hk|done..]).
  assert (∀ p2, keys p2 = keys p → ∀ i, m = Some i → i ∈ ids (requests (set_requests p2 s))) as Hmem.
  { intros p2 Hp2 i Hi. change (i ∈ ids p2). rewrite (keys_ids_eq _ _ Hp2). by apply Hm. }
  destruct noted as [[[[] payload'] r']|] eqn:En.
  - intros [= <- <-]. split; simpl; try done; [|by left]. eapply same_session_left; [|apply left_nil]. apply Hss. by eapply Hn.
  - set (r2 := if in_set ty TEXT_DELTA_EVENT_TYPES then _ else r').
    assert (core r2 = core r') as Hc2 by (unfold r2; case_if; done).
    assert (keys (modify (request_id r2) (λ _, r2) p) = keys p) as Hk2 by (rewrite (core_request_id _ _ Hc2); by eapply Hn).
    destruct (in_set ty TERMINAL_EVENTS) eqn:Ety.
    + apply bridge_end_routed; [|by apply Hss|by apply Hmem]. eapply same_session_inv; [by apply Hss|done].
    + intros [= <- <-]. split; simpl; try done; [eapply same_session_left; [by apply Hss|apply left_nil]|].
      intros _ _. right. by destruct (Hquiet eq_refl).
  - destruct (in_set ty TERMINAL_EVENTS) eqn:Ety.
    + apply bridge_end_routed; [|by apply Hss|by apply Hmem]. eapply same_session_inv; [by apply Hss|done].
    + intros [= <- <-]. split; simpl; try done; [eapply same_session_left; [apply (Hss p eq_refl)|apply left_nil]|].
      intros _ _. right. by destruct (Hquiet eq_refl).
Qed.

(** ** What happens to the request of a text *)

(** The request that ended, and the session. *)
Definition same_end (x y : routed * session) : Prop :=
  option_map key (rt_ended y.1) = option_map key (rt_ended x.1) ∧ same_session x.2 y.2.

Lemma same_end_refl x : same_end x x.
Proof. done. Qed.

Lemma same_end_trans x y z : same_end x y → same_end y z → same_end x z.
Proof. intros [? ?] [? ?]. split; [congruence|by eapply same_session_trans]. Qed.

Lemma same_link f s : pending (f (link s)) = pending (link s) → answered (f (link s)) = answered (link s) → same_session s (on_link f s).
Proof. intros Hp Ha. split_and!; [|done..]. unfold requests. simpl. by rewrite Hp. Qed.

Lemma change_status_same f t s : (∀ r, key (f r) = key r) → same_end (t, s) (change_status f t s).
Proof.
  intros Hf. unfold change_status, status. destruct (rt_ended t) as [r|] eqn:Er.
  - split; [|done]. simpl. rewrite Er. simpl. by rewrite Hf.
  - destruct (match rt_matched t with Some i => _ | None => _ end) as [r|]; [|done].
    split; [done|]. by apply same_session_modify.
Qed.

Lemma set_event_ended w t : rt_ended (set_event w t) = rt_ended t.
Proof. by destruct w as [[[? ?] ?] ?]. Qed.

Lemma count_event_same t s : same_end (t, s) (count_event t s).
Proof.
  unfold count_event. destruct (rt_event t) as [[[event payload] ty] text]. split.
  - simpl. destruct (rt_ended t); [|done]. simpl. by rewrite record_event_key.
  - cbn [snd]. destruct (rt_matched t); [|done]. apply same_session_modify. apply record_event_key.
Qed.


Section Bridge.
Context (account_id : string) (created : Z).

Lemma rewrite_suppressed_same t s : same_end (t, s) (rewrite_suppressed created t s).
Proof.
  unfold rewrite_suppressed. destruct (rt_event t) as [[[event payload] ty] text]. destruct (rt_ended t) as [r|] eqn:Er; [|done].
  case_if; [|done]. split; [|done]. cbn [fst]. rewrite set_event_ended. simpl. by rewrite Er.
Qed.

Lemma rewrite_missing_output_same e t s : same_end (t, s) (rewrite_missing_output created e t s).
Proof.
  unfold rewrite_missing_output. destruct (status_request (status t s)) as [r|]; [|done]. case_if; [|done].
  unfold _rewrite_websocket_continuity_corruption_event. set (s0 := s {{ link := request_reconnect (link s) }}).
  pose proof (change_status_same override_502 t s0 (λ r, eq_refl)) as [H1 H2].
  destruct (change_status override_502 t s0) as [t1 s1]. split; [cbn [fst]; by rewrite set_event_ended|done].
Qed.

Lemma rewrite_not_found_same e t s : same_end (t, s) (rewrite_not_found created e t s).
Proof.
  unfold rewrite_not_found. destruct (status_request (status t s)) as [r|]; [|done]. case_if; [|done].
  destruct (_maybe_rewrite_websocket_previous_response_not_found_event created r (rt_event t) (link s)) as [w c] eqn:E.
  apply maybe_rewrite_books in E as (Hp & Ha & _). set (s0 := s {{ link := c }}).
  match goal with |- context [change_status ?f t s0] => pose proof (change_status_same f t s0 (λ r, eq_refl)) as [H1 H2];
    destruct (change_status f t s0) as [t1 s1] end.
  split; [cbn [fst]; by rewrite set_event_ended|]. eapply same_session_trans; [|exact H2].
  split_and!; [|done..]. change (keys (pending c) = keys (pending (link s))). by rewrite Hp.
Qed.

Lemma normalize_error_same t s : same_end (t, s) (normalize_error created t s).
Proof.
  unfold normalize_error. destruct (rt_event t) as [[[event payload] ty] text]. case_if; [|done].
  match goal with |- context [change_status ?f t s] => pose proof (change_status_same f t s (λ r, eq_refl)) as [H1 H2];
    destruct (change_status f t s) as [t1 s1] end.
  destruct (_normalize_http_bridge_error_event created event payload _) as [[[block payload'] event'] ty']. done.
Qed.

Lemma note_completed_same e t s : same_session s (note_completed e t s).
Proof. unfold note_completed. destruct (rt_event t) as [[[event payload] ty] text]. repeat case_match; done. Qed.

Lemma reconnect_same s s' : same_session s s' → same_session s (_reconnect_http_bridge_session s').
Proof. intros H. eapply same_session_trans; [exact H|]. by split_and!. Qed.

Lemma retry_same attempt s s' b : _retry_http_bridge_precreated_request attempt s = (s', b) → same_session s s'.
Proof.
  unfold _retry_http_bridge_precreated_request. destruct (only _) as [r|]; [|by intros [= <- _]].
  case_if; [by intros [= <- _]|].
  destruct (_classify_upstream_close _ _); [destruct attempt as [|[] code message]|]; intros [= <- _];
    try apply reconnect_same; by apply same_session_modify.
Qed.

(** The request that is put back, sent again or not. *)
Lemma handle_quota_spec e attempt t s t' s' resent :
  NoDup (ids (option_list (rt_ended t)) ++ ids (requests s)) → (0 <= queued_request_count s)%Z →
  (rt_ended t = None → status t s = NoRequest ∨ in_set (event_type_of t) TERMINAL_EVENTS = false) →
  handle_quota created e attempt t s = (t', s', resent) →
  if resent then keys (requests s') ≡ₚ keys (option_list (rt_ended t) ++ requests s) ∧ answered (link s') = answered (link s) ∧
                 queued_request_count s' = (queued_request_count s + Z.of_nat (length (option_list (rt_ended t))))%Z
  else same_end (t, s) (t', s').
Proof.
  intros Hnd Hq Hquiet. unfold handle_quota. unfold event_type_of in Hquiet. destruct (rt_event t) as [[[event payload] ty] text] eqn:Ev.
  destruct (rt_ended t) as [r|] eqn:Er; last first.
  { destruct (Hquiet eq_refl) as [->|Hty]; [by intros [= <- <- <-]|]. destruct (status_request (status t s)) as [r|]; [|by intros [= <- <- <-]].
    assert (in_set ty ["error"; "response.failed"] = false) as Hne.
    { destruct ty as [ty|]; [|done]. cbn [in_set] in *. unfold mem, TERMINAL_EVENTS in *. cbn [existsb] in *. rewrite !orb_false_iff in Hty.
      destruct Hty as (_ & -> & _ & -> & _). done. }
    assert (_websocket_owner_pinned_quota_error_code r ty payload = None) as ->.
    { unfold _websocket_owner_pinned_quota_error_code. rewrite Hne. by rewrite orb_true_r. }
    assert (_websocket_precreated_retry_error_code r ty payload (rt_others t) = None) as ->; [|by intros [= <- <- <-]].
    unfold _websocket_precreated_retry_error_code. rewrite Hne. by rewrite orb_true_r. }
  clear Hquiet. unfold status. rewrite Er. cbn [status_request].
  destruct (_websocket_owner_pinned_quota_error_code r ty payload) as [code|].
  { case_if; [by intros [= <- <- <-]|]. match goal with |- context [change_status ?f t ?s0] => pose proof (change_status_same f t s0 (λ r, eq_refl)) as [H1 H2];
      destruct (change_status f t s0) as [t1 s1] end.
    intros [= <- <- <-]. split; [exact H1|]. eapply same_session_trans; [|exact H2].
    apply same_session_trans with (s2 := on_link (emit [HandleStreamError (only_message (match _websocket_event_error_message ty payload with Some m => m | None => "Upstream error" end)) code]) s).
    - apply same_link; [done|]. by rewrite answered_emit, app_nil_r.
    - done. }
  destruct (_websocket_precreated_retry_error_code r ty payload (rt_others t)) as [code|]; [|by intros [= <- <- <-]].
  case_if; [by intros [= <- <- <-]|]. set (s0 := on_link (emit [HandleStreamError _ code]) s).
  assert (same_session s s0) as Hs0 by (apply same_link; [done|]; by rewrite answered_emit, app_nil_r).
  unfold change_status, status. rewrite Er. destruct (previous_response_id r) as [pv|].
  { intros [= <- <- <-]. split; [simpl; by rewrite Er|done]. }
  set (r0 := r {{ account_health_error_handled := true; awaiting_response_created := true; response_id := (None : option string) }}).
  assert (pending_has (request_id r0) (requests s0) = false) as Hhas.
  { change (pending_has (request_id r) (requests s) = false). apply NoDup_cons in Hnd as [Hr _]. unfold pending_has.
    apply not_true_iff_false. intros (x & Hx%list_elem_of_In & Hi)%existsb_exists. apply is_ref_true in Hi. apply Hr.
    apply elem_of_map. eauto. }
  rewrite Hhas. set (s1 := _ {{ queued_request_count := _ }}).
  assert (keys (requests s1) = key r :: keys (requests s) ∧ answered (link s1) = answered (link s) ∧ queued_request_count s1 = (queued_request_count s + 1)%Z) as (K1 & A1 & Q1).
  { destruct Hs0 as (K0 & A0 & Q0). split_and!; [|done|done]. change (key r :: keys (requests s0) = key r :: keys (requests s)). by rewrite K0. }
  destruct (_retry_http_bridge_precreated_request attempt s1) as [s2 retried] eqn:E2. apply retry_same in E2 as (K2 & A2 & Q2).
  destruct retried; intros Hout; [injection Hout as <- <- <-; by rewrite K2, K1, A2, A1, Q2, Q1|].
  set (r1 := default r0 (deref (request_id r0) (requests s2))).
  assert (key r1 = key r ∧ keys (remove_ref (request_id (override_502 r1)) (requests s2)) = keys (requests s)) as [Hk1 Hrm].
  { unfold r1. rewrite K1 in K2. destruct (requests s2) as [|x l]; [done|]. injection K2 as Hxi Hxd Hl.
    assert (deref (request_id r0) (x :: l) = Some x) as ->.
    { unfold deref. cbn [List.find]. assert (is_ref (request_id r0) x = true) as -> by (by apply is_ref_true). done. }
    cbn [default from_option id]. split; [unfold key; by rewrite Hxi, Hxd|].
    change (keys (remove_ref (request_id x) (x :: l)) = keys (requests s)). cbn [remove_ref]. by rewrite is_ref_refl. }
  assert (rt_ended t' = Some (override_502 r1)) as Ht by (by injection Hout as <- _ _).
  injection Hout as _ <- <-. split; [cbn [fst]; rewrite Ht, Er; cbn [option_map]; by rewrite <- Hk1|]. split_and!.
  - exact Hrm.
  - change (answered (link s2) = answered (link s)). by rewrite A2.
  - change (Z.max 0 (queued_request_count s2 - 1) = queued_request_count s)%Z. lia.
Qed.


Lemma same_session_emit es s : omap outcome es = [] → same_session s (on_link (emit es) s).
Proof. intros H. apply same_link; [done|]. by rewrite answered_emit, H, app_nil_r. Qed.

Lemma finalize_answered r event ty payload k s : let s' := on_link (_finalize_websocket_request_state account_id r event ty payload k) s in
  keys (requests s') = keys (requests s) ∧ answered (link s') ≡ₚ request_id r :: answered (link s) ∧ queued_request_count s' = queued_request_count s.
Proof.
  set (c' := _finalize_websocket_request_state account_id r event ty payload k (link s)).
  destruct (finalize_settled account_id r event ty payload k (link s)) as (Hp & Ha & _). fold c' in Hp, Ha. split_and!; [|clear Hp|done].
  - change (keys (pending c') = keys (pending (link s))). by rewrite Hp.
  - change (answered c' ≡ₚ request_id r :: answered (link s)). assert (replaying c' = replaying (link s)) as Hr.
    { unfold replaying, c'. by rewrite finalize_replay. }
    rewrite Hr in Ha. by apply (Permutation_app_inv_r (ids (replaying (link s)))).
Qed.

Lemma put_block_silent t r : omap outcome (put_block t r) = [].
Proof. unfold put_block. by destruct (event_queue r). Qed.

Lemma release_gate_key r c r' c' : release_gate r c = (r', c') → key r' = key r.
Proof. unfold release_gate, _release_websocket_response_create_gate. by intros [= <- _]. Qed.

(** The end: the request that ended is answered, and nothing else changes. *)
Lemma deliver_spec e t s : NoDup (ids (requests s)) → let s' := deliver account_id e t s in
  keys (requests s') = keys (requests s) ∧ answered (link s') ≡ₚ ids (option_list (rt_ended t)) ++ answered (link s) ∧
  queued_request_count s' = queued_request_count s.
Proof.
  intros Hnd. unfold deliver. destruct (rt_event t) as [[[event payload] ty] text].
  set (s1 := match match rt_created t with Some i => _ | None => None end with Some r => _ | None => s end).
  assert (same_session s s1) as H1.
  { unfold s1. destruct (rt_created t) as [i|]; [|done]. destruct (deref i (requests s)) as [r|] eqn:Ed; [|done]. case_if; [|done].
    apply deref_Some in Ed as [Hr _]. destruct (release_gate r (link s)) as [r1 c1] eqn:Eg. pose proof (release_gate_key _ _ _ _ Eg) as Hk.
    pose proof (release_gate_spec _ _ _ _ Eg) as (Hi & _ & _ & _ & Hp & Ha & _). split_and!; [|exact Ha|done].
    change (keys (modify (request_id r1) (λ _, r1) (requests s)) = keys (requests s)). rewrite Hi. by apply modify_map. }
  set (m := matched_request t s1). set (s2 := match rd_response_id e with Some i => _ | None => s1 end).
  assert (same_session s s2) as H2.
  { eapply same_session_trans; [exact H1|]. unfold s2. destruct (rd_response_id e), m; try done. case_if; [|done]. by apply same_session_emit. }
  set (s3 := match m with Some r => _ | None => s2 end). assert (same_session s s3) as (K3 & A3 & Q3).
  { eapply same_session_trans; [exact H2|]. unfold s3. destruct m; [|done]. by apply same_session_emit, put_block_silent. }
  clearbody s3. clear s1 s2 m H1 H2. destruct (rt_ended t) as [r|]; [|by rewrite K3, A3, Q3].
  set (s4 := on_link (emit _) s3). assert (same_session s3 s4) as (K4 & A4 & Q4).
  { apply same_session_emit. rewrite omap_app. destruct (rt_matched t); [case_if|]; rewrite ?put_block_silent; by destruct (event_queue r). }
  destruct (finalize_answered r event ty payload (api_key r) s4) as (K5 & A5 & Q5). cbn zeta. rewrite K5, A5, Q5, K4, A4, Q4, K3, A3, Q3. done.
Qed.

Lemma bridge_finalize_group_spec group s : let s' := bridge_finalize_group account_id created group s in
  keys (requests s') = keys (requests s) ∧ answered (link s') ≡ₚ ids group ++ answered (link s) ∧ queued_request_count s' = queued_request_count s.
Proof.
  revert s. induction group as [|r group IH]; intros s; [done|]. cbn [bridge_finalize_group].
  destruct (_build_stream_incomplete_terminal_event_for_request created _) as [[[[text block] event] payload] ty].
  set (r1 := r {{ error_http_status_override := Some 502%Z }}). set (s1 := on_link (emit _) s).
  assert (same_session s s1) as (K1 & A1 & Q1) by (apply same_session_emit; by destruct (event_queue r1)).
  destruct (finalize_answered r1 event ty payload (api_key r1) s1) as (K2 & A2 & Q2).
  specialize (IH (on_link (_finalize_websocket_request_state account_id r1 event ty payload (api_key r1)) s1)) as (K3 & A3 & Q3).
  cbn zeta in *. rewrite K3, A3, Q3, K2, A2, Q2, K1, A1, Q1. split_and!; [done| |done]. simpl. symmetry. apply Permutation_middle.
Qed.

(** Requests and the session at the end of a text. *)
Definition tallied (s s' : session) : Prop :=
  ids (requests s') ++ answered (link s') ≡ₚ ids (requests s) ++ answered (link s) ∧ bridge_inv s'.

Lemma tallied_left s s1 out s' : bridge_inv s → left s s1 out →
  keys (requests s') = keys (requests s1) → answered (link s') ≡ₚ ids out ++ answered (link s1) → queued_request_count s' = queued_request_count s1 →
  tallied s s'.
Proof.
  intros Hinv Hl K A Q. destruct (left_inv _ _ _ Hinv Hl) as ([Hnd Hv Hc] & _ & _). destruct Hl as (Hk & Ha & _). split.
  - rewrite <- map_app in Hk. apply keys_ids in Hk. rewrite map_app in Hk. rewrite A, Hk, (keys_ids_eq _ _ K), Ha, !app_assoc.
    by rewrite (Permutation_app_comm (ids out)).
  - split; [by rewrite (keys_ids_eq _ _ K)|apply (visible_keys (requests s1)); [by rewrite K|done]|].
    assert (keys (requests s') ≡ₚ keys (requests s1)) as Hl%keys_length by (by rewrite K). by rewrite Hl, Q.
Qed.

Lemma left_same_end s0 t s t' s' : left s0 s (option_list (rt_ended t)) → same_end (t, s) (t', s') → left s0 s' (option_list (rt_ended t')).
Proof.
  intros (Hk & Ha & Hq) [He (K & A & Q)]. simpl in *. unfold left. rewrite K, A, Q.
  assert (keys (option_list (rt_ended t')) = keys (option_list (rt_ended t))) as E.
  { destruct (rt_ended t') as [x|], (rt_ended t) as [y|]; try done. simpl in *. congruence. }
  assert (length (option_list (rt_ended t')) = length (option_list (rt_ended t))) as -> by (by rewrite <- (length_map key), E, length_map).
  by rewrite E.
Qed.

Lemma left_same_session s0 s s' out : left s0 s out → same_session s s' → left s0 s' out.
Proof. intros (Hk & Ha & Hq) (K & A & Q). unfold left. by rewrite K, A, Q. Qed.

Lemma tallied_deliver e s0 t s : bridge_inv s0 → left s0 s (option_list (rt_ended t)) → tallied s0 (deliver account_id e t s).
Proof.
  intros Hinv Hl. destruct (left_inv _ _ _ Hinv Hl) as (Hs & _ & _). destruct (deliver_spec e t s (bi_ids _ Hs)) as (K & A & Q).
  by eapply tallied_left.
Qed.

(** A request put back in the queue. *)
Lemma tallied_resent s0 s s' out : bridge_inv s0 → left s0 s out →
  keys (requests s') ≡ₚ keys (out ++ requests s) → answered (link s') = answered (link s) →
  queued_request_count s' = (queued_request_count s + Z.of_nat (length out))%Z → tallied s0 s'.
Proof.
  intros [Hnd Hv Hc] (Hk & Ha & Hq) K A Q. assert (keys (requests s') ≡ₚ keys (requests s0)) as Hk' by (by rewrite K, map_app, Hk).
  assert (ids (requests s') ≡ₚ ids (requests s0)) as Hi by (by apply keys_ids). split; [by rewrite Hi, A, Ha|]. split.
  - by rewrite Hi.
  - by eapply visible_keys; [symmetry|].
  - rewrite (keys_length _ _ Hk'). lia.
Qed.

Lemma quiet_rewrites e t s : rt_ended t = None → not_found e = false → missing_output e = false →
  rewrite_suppressed created t s = (t, s) ∧ rewrite_missing_output created e t s = (t, s) ∧ rewrite_not_found created e t s = (t, s).
Proof.
  intros He Hn Hm. unfold rewrite_suppressed, rewrite_missing_output, rewrite_not_found. rewrite He, Hn, Hm.
  destruct (rt_event t) as [[[? ?] ?] ?]. destruct (status_request (status t s)); [|done]. by rewrite andb_false_r.
Qed.

(** What follows the part under the lock, for the request of the text. *)
Lemma handle_request_tallied e attempt s0 t s : bridge_inv s0 → left s0 s (option_list (rt_ended t)) →
  (rt_ended t = None → not_found e = false ∧ missing_output e = false ∧ in_set (event_type_of t) TERMINAL_EVENTS = false) →
  tallied s0 (let '(t, s) := rewrite_suppressed created t s in
              let '(t, s) := rewrite_missing_output created e t s in
              let '(t, s) := rewrite_not_found created e t s in
              let '(t, s, resent) := handle_quota created e attempt t s in
              if resent then s
              else let s := note_completed e t s in let '(t, s) := normalize_error created t s in deliver account_id e t s).
Proof.
  intros Hinv Hl Hquiet. pose proof (rewrite_suppressed_same t s) as H1. destruct (rewrite_suppressed created t s) as [t1 s1] eqn:E1.
  pose proof (rewrite_missing_output_same e t1 s1) as H2. destruct (rewrite_missing_output created e t1 s1) as [t2 s2] eqn:E2.
  pose proof (rewrite_not_found_same e t2 s2) as H3. destruct (rewrite_not_found created e t2 s2) as [t3 s3] eqn:E3.
  assert (same_end (t, s) (t3, s3)) as H by (do 2 (eapply same_end_trans; [eassumption|]); done).
  pose proof (left_same_end _ _ _ _ _ Hl H) as Hl3. destruct (left_inv _ _ _ Hinv Hl3) as (Hs3 & _ & Hnd).
  destruct (handle_quota created e attempt t3 s3) as [[t4 s4] resent] eqn:E4. apply handle_quota_spec in E4; [|done|by rewrite (bi_count _ Hs3); lia|].
  2: { intros He3. assert (rt_ended t = None) as He by (destruct H as [H _]; simpl in H; rewrite He3 in H; by destruct (rt_ended t)).
       destruct (Hquiet He) as (Hn & Hm & Hty). right. destruct (quiet_rewrites e t s He Hn Hm) as (Q1 & Q2 & Q3).
       rewrite Q1 in E1. injection E1 as <- <-. rewrite Q2 in E2. injection E2 as <- <-. rewrite Q3 in E3. by injection E3 as <- <-. }
  destruct resent; [destruct E4 as (K & A & Q); by eapply tallied_resent|].
  pose proof (left_same_end _ _ _ _ _ Hl3 E4) as Hl4. pose proof (left_same_session _ _ _ _ Hl4 (note_completed_same e t4 s4)) as Hl5.
  pose proof (normalize_error_same t4 (note_completed e t4 s4)) as H6. cbn zeta. destruct (normalize_error created t4 (note_completed e t4 s4)) as [t6 s6].
  apply tallied_deliver; [done|]. by eapply left_same_end.
Qed.

Lemma handle_text_tallied e attempt s0 t s : bridge_inv s0 → left s0 s (option_list (rt_ended t)) →
  (rt_ended t = None → is_Some (rt_matched t) → not_found e = false ∧ missing_output e = false ∧ in_set (event_type_of t) TERMINAL_EVENTS = false) →
  tallied s0 (let '(t, s) := count_event t s in
              match status t s with
              | NoRequest => if not_found e then on_link request_reconnect s else deliver account_id e (normalize_error created t s).1 (note_completed e t s)
              | x =>
                  let '(_, _, event_type, _) := rt_event t in
                  let s := if in_set event_type TERMINAL_EVENTS then s
                           else match status_request x with Some r => on_link (emit [TouchReservation (request_id r)]) s | None => s end in
                  let '(t, s) := rewrite_suppressed created t s in
                  let '(t, s) := rewrite_missing_output created e t s in
                  let '(t, s) := rewrite_not_found created e t s in
                  let '(t, s, resent) := handle_quota created e attempt t s in
                  if resent then s
                  else let s := note_completed e t s in let '(t, s) := normalize_error created t s in deliver account_id e t s
              end).
Proof.
  intros Hinv Hl Hquiet. pose proof (count_event_same t s) as Hc.
  assert (rt_matched (count_event t s).1 = rt_matched t ∧ event_type_of (count_event t s).1 = event_type_of t) as [Hm Hty].
  { unfold count_event, event_type_of. destruct t as [w0 c0 m0 e0 g0 o0 [[[ev p] ty] tx] b0]. done. }
  destruct (count_event t s) as [t1 s1]. cbn [fst] in *. pose proof (left_same_end _ _ _ _ _ Hl Hc) as Hl1.
  assert (rt_ended t1 = None → rt_ended t = None) as He by (destruct Hc as [Hc _]; simpl in Hc; by destruct (rt_ended t1), (rt_ended t)).
  destruct (status t1 s1) as [|r|r] eqn:Es.
  - assert (rt_ended t1 = None) as Hn by (unfold status in Es; by destruct (rt_ended t1)). case_if.
    + rewrite Hn in Hl1. by eapply tallied_left.
    + pose proof (normalize_error_same t1 s1) as [Hne _]. apply tallied_deliver; [done|].
      assert (rt_ended (normalize_error created t1 s1).1 = None) as ->.
      { cbn [fst] in Hne. rewrite Hn in Hne. by destruct (rt_ended (normalize_error created t1 s1).1). }
      rewrite Hn in Hl1. by eapply left_same_session, note_completed_same.
  - assert (rt_ended t1 = Some r) as Hr by (unfold status in Es; destruct (rt_ended t1); [congruence|]; by destruct (match rt_matched t1 with Some _ => _ | None => _ end)).
    destruct (rt_event t1) as [[[ev p] ty] tx]. cbn [status_request]. apply handle_request_tallied; [done| |by rewrite Hr].
    case_if; [done|]. eapply left_same_session; [done|]. by apply same_session_emit.
  - assert (rt_ended t1 = None ∧ is_Some (rt_matched t1)) as [Hn Hs] by (unfold status in Es; destruct (rt_ended t1); [done|]; by destruct (rt_matched t1)).
    rewrite Hm in Hs. destruct (Hquiet (He Hn) Hs) as (Q1 & Q2 & Q3). rewrite <- Hty in Q3.
    destruct (rt_event t1) as [[[ev p] ty] tx] eqn:Ev. cbn [status_request]. apply handle_request_tallied; [done| |done].
    case_if; [done|]. eapply left_same_session; [done|]. by apply same_session_emit.
Qed.

(** C11. As long as the clients of a bridge session are all there, an upstream
    text, whatever it is, loses no request and answers none twice: each request
    is still queued or has been answered, and the session's count of queued
    requests stays the number of its requests. *)
Theorem bridge_conserves attempt text s : bridge_inv s → let s' := _process_http_bridge_upstream_text account_id created attempt text s in
  ids (requests s') ++ answered (link s') ≡ₚ ids (requests s) ++ answered (link s) ∧ bridge_inv s'.
Proof.
  intros Hinv. cbn zeta. change (tallied s (_process_http_bridge_upstream_text account_id created attempt text s)).
  unfold _process_http_bridge_upstream_text. set (e := read_event text).
  destruct (bridge_route text e s) as [s1 t] eqn:Er. apply bridge_route_spec in Er as [Hl Ho Hw Hq]; [|done]. fold e in Hq.
  destruct (rt_withheld t) eqn:Ew.
  { destruct (Hw eq_refl) as [He Hg]. rewrite He, Hg in Hl. by eapply tallied_left. }
  destruct (rt_grouped t) as [|g [|g2 gs]] eqn:Eg.
  - rewrite app_nil_r in Hl. assert (match rt_ended t with Some _ | None => t end = t) as -> by (by destruct (rt_ended t)).
    apply handle_text_tallied; [done..|]. intros H1 H2. destruct (Hq H1 H2) as [?|(? & ? & ? & _)]; done.
  - destruct (rt_ended t) as [r|] eqn:Ee; [by specialize (Ho (ex_intro _ r eq_refl))|]. apply handle_text_tallied; done.
  - destruct (rt_ended t) as [r|] eqn:Ee; [by specialize (Ho (ex_intro _ r eq_refl))|].
    destruct (bridge_finalize_group_spec (g :: g2 :: gs) (on_link request_reconnect s1)) as (K & A & Q). by eapply tallied_left.
Qed.

End Bridge.


(** ** A session *)

Definition sample_session (p : list request) : session :=
  {| link := set_pending p (opened None); queued_request_count := counted p; closed := false; last_upstream_close_code := None;
     br_last_response_id := None; br_last_input_count := 0; br_last_fingerprint := None |}.
(** A request that follows [previous]. *)
Definition follow_up (i previous : string) : request := (sample_request i (Some previous)) {{ event_queue := true; awaiting_response_created := true }}.
Definition lost_text (previous : string) : string :=
  dumps_ascii (JObj [("type", JStr "error");
                     ("error", JObj [("code", JStr "previous_response_not_found");
                                     ("message", JStr ("Previous response with id '" ++ previous ++ "' not found.")%string)])]).

Lemma bridge_conserves_witness :
  let s := sample_session [follow_up "a" "resp_1"; follow_up "b" "resp_2"] in
  let s' := _process_http_bridge_upstream_text "account" 0 Resent (lost_text "resp_1") s in
  ids (requests s') = ["b"] ∧ answered (link s') = ["a"] ∧ ids (requests s') ++ answered (link s') ≡ₚ ids (requests s) ++ answered (link s).
Proof.
  intros s s'. split_and!; [vm_compute; reflexivity..|]. apply (bridge_conserves "account" 0 Resent (lost_text "resp_1") s). split.
  - apply (bool_decide_unpack _). vm_compute. exact I.
  - repeat constructor.
  - reflexivity.
Defined.

(** The request of a client that left ends with a lost previous response:
    the code then also takes the only other request out of the queue, though it
    follows another response, and never answers it. *)
Theorem detached_end_drops_another :
  let s := (_detach_http_bridge_request "a" (sample_session [follow_up "a" "resp_1"; follow_up "b" "resp_2"])).1 in
  let s' := _process_http_bridge_upstream_text "account" 0 Resent (lost_text "resp_1") s in
  ids (requests s) = ["a"; "b"] ∧ queued_request_count s = 1%Z ∧ requests s' = [] ∧ queued_request_count s' = 0%Z ∧ answered (link s') = ["a"] ∧
  List.filter (λ x, match x with Put i _ | PutEnd i => String.eqb i "b" | _ => false end) (effects (link s')) = [].
Proof. vm_compute. done. Qed.


End BridgeRelayFacts.
