(* ===== verification/HttpStream.v ===== *)
(** Streaming a response to an HTTP client, [src/app/modules/proxy/service.py]:
    one upstream exchange ([_stream_once]) and the loop around it that selects
    accounts, retries and fails over ([_stream_with_retry]).

    What the code does is a history of [act]s, in order.  What the world answers
    is an argument that may look at the history: the time left, the load
    balancer's selections, token refreshes, the lines of an upstream stream and
    how it ends, whether settling and releasing a reservation succeed.  Time
    passes only between acts.  The generator is run to its end.  An exchange that the proxy's own admission refuses counts as
    an exchange without lines that is refused; a token refresh is rejected only
    by the proxy's own admission, never with 401.  The keep-alive of
    reservations, latencies and logging to files are left out. *)

From S2P Require Import Prelude Balancer Json Sse Requests ToolCalls ProxyEvents WsRequests WsRelay.
Import Json.Json Sse.Sse Sse.OpenAIModels Requests.JsonOps.
Import ProxyEvents.ProxyErrors ProxyEvents.ProxyEvents WsRequests.WsRequests WsRelay.WsRelay.
Import Balancer.Logic.

Module HttpStream.

(** ** Acts and exceptions *)

Inductive act :=
  | Asked (account_ids : option (list string)) (excluded : list string)
  | Refreshed (account : string) (force : bool)
  | Upstream (account : string)
  | Yield (block : string)
  | MarkRateLimit (account : string) (error : UpstreamError)
  | MarkQuotaExceeded (account : string) (error : UpstreamError)
  | MarkPermanentFailure (account code : string)
  | RecordErrors (account : string) (count : Z)
  | RecordedSuccess (account : string)
  | Slept
  | OnReservation (e : effect)
  | ReleaseFailed (reservation_id : string)
  | Logged (account : option string) (response status : string) (code message : option string).
Notation history := (list act).

Inductive exn :=
  | ProxyResponseError (status_code : Z) (payload : dict json)
  | _RetryableStreamError (code : string) (error : UpstreamError) (exclude_account : bool)
  | _TransientStreamError (code : string) (error : UpstreamError)
  | _TerminalStreamError (code : string) (error : UpstreamError)
  | RefreshError (is_permanent : bool) (code : string)
  | ClientError (message : string)
  | OtherError.

(** How an upstream stream ends: normally, with an error response, by a broken
    connection or a timeout, or by another exception. *)
Inductive upstream_end :=
  | Finished
  | Refused (status_code : Z) (payload : dict json)
  | NetworkError (message : string)
  | Crash.
Record script := { sc_lines : list string; sc_end : upstream_end }.

(** What is asked for. *)
Record call := {
  c_request_id : string; c_model : string; c_input : json; c_previous_response_id : option string; c_service_tier : option string;
  c_propagate_http_errors : bool; c_suppress_text_done_events : bool; c_api_key : option string;
  c_reservation : option ApiKeyUsageReservationData; c_deterministic_failover_enabled : bool }.

(** ** Blaming an account *)

(** What the load balancer is told, and the class of the failure. *)
Definition _handle_stream_error (account : string) (error : UpstreamError) (code : string) (http_status : option Z)
    : history * FailureClass :=
  let classified := classify_upstream_failure code http_status in
  if _is_account_neutral_error_code (Some code) then ([], classified)
  else match classified with
  | rate_limit => ([MarkRateLimit account error], classified)
  | quota => ([MarkQuotaExceeded account error], classified)
  | _ => (if mem code (map fst PERMANENT_FAILURE_CODES) then [MarkPermanentFailure account code] else [RecordErrors account 1], classified)
  end.

(** The members of a parsed error. *)
Definition code_of (error : option OpenAIError) : string :=
  match error with Some e => _normalize_error_code (err_code e) (err_type e) | None => _normalize_error_code None None end.
Definition message_of (error : option OpenAIError) : option string := match error with Some e => err_message e | None => None end.
Definition type_of (error : option OpenAIError) : option string := match error with Some e => err_type e | None => None end.
Definition param_of (error : option OpenAIError) : option string := match error with Some e => err_param e | None => None end.

(** [_apply_error_metadata(event["response"]["error"], error)]. *)
Definition with_metadata (event : dict json) (error : option OpenAIError) : dict json :=
  match get_obj "response" event with
  | Some r => match get_obj "error" r with
              | Some d => dict_set event "response" (JObj (dict_set r "error" (JObj (_apply_error_metadata d error))))
              | None => event
              end
  | None => event
  end.

(** ** One exchange *)

(** The local variables of an exchange, the settlement it fills and the calls
    seen on the account. *)
Record progress := {
  pg_history : history; pg_settlement : _StreamSettlement; pg_seen : list ToolDedupe.tool_call_key;
  pg_status : string; pg_error_code : option string; pg_error_message : option string; pg_response_id : string;
  pg_usage : option ResponseUsage; pg_service_tier : option string; saw_text_delta : bool; pg_suppressed_call : bool }.

Definition say (acts : history) (p : progress) : progress := p {{ pg_history := pg_history p ++ acts }}.
Definition settle_with (f : _StreamSettlement → _StreamSettlement) (p : progress) : progress := p {{ pg_settlement := f (pg_settlement p) }}.
(** The outcome as an error with its code and message. *)
Definition failed_with (code : string) (message : option string) (p : progress) : progress :=
  p {{ pg_status := "error"; pg_error_code := Some code; pg_error_message := message }}.
Definition blame (health : bool) (error : UpstreamError) (p : progress) : progress :=
  settle_with (λ s, s {{ record_success := false; account_health_error := health; st_error := Some error }}) p.

(** A line the client gets. *)
Definition show (block : string) (event_type : option string) (p : progress) : progress :=
  say [Yield block]
    (settle_with (λ s, s {{ st_downstream_visible := true;
                            downstream_text_visible := in_set event_type TEXT_DELTA_EVENT_TYPES || downstream_text_visible s }}) p).

Definition take_tier (payload : option (dict json)) (p : progress) : progress :=
  match _service_tier_from_event_payload payload with Some t => p {{ pg_service_tier := Some t }} | None => p end.

Definition event_id (event : option OpenAIEvent) : option string :=
  match event with Some e => match ev_resp e with Some r => filled (resp_id r) | None => None end | None => None end.
Definition named (event : option OpenAIEvent) (p : progress) : progress :=
  match event_id event with
  | Some i => settle_with (λ s, s {{ st_response_id := Some i }}) (p {{ pg_response_id := i }})
  | None => p
  end.

Definition event_failure (event : OpenAIEvent) (event_type : option string) : option OpenAIError :=
  if in_set event_type ["response.failed"] then match ev_resp event with Some r => resp_error r | None => None end else ev_error event.
Definition failure_code (error : option OpenAIError) (event_type : option string) (payload : option (dict json)) : string :=
  let code := code_of error in
  if in_set event_type ["error"] && String.eqb code "error" && negb (bool_decide (is_Some (_websocket_event_error_code event_type payload)))
  then "upstream_error" else code.

(** The usage and status of a response that ended. *)
Definition note_end (event : OpenAIEvent) (event_type : option string) (p : progress) : progress :=
  if in_set event_type ["response.completed"; "response.incomplete"]
  then let p := p {{ pg_usage := match ev_resp event with Some r => resp_usage r | None => None end }} in
       let p := named (Some event) p in
       if in_set event_type ["response.incomplete"] then p {{ pg_status := "error" }} else p
  else p.

(** A line that is neither suppressed nor a repeated call is shown. *)
Definition relay_line (request_id line : string) (payload : option (dict json)) (event_type : option string) (p : progress) : progress :=
  let '(repeated, payload, seen) :=
    ToolDedupe.mark_duplicate_tool_call_downstream_event payload (pg_seen p)
      (or_opt (ToolDedupe.response_id_from_payload payload) (Some request_id)) false in
  let p := p {{ pg_seen := seen }} in
  if repeated then p {{ pg_suppressed_call := true }}
  else show (match payload with Some d => format_sse_event d | None => line end) event_type p.

Section Exchange.
Context (created : Z) (c : call) (account : string) (preferred_account_id : option string).

(** What an error becomes for a request that continues a response. *)
Definition rewrite_error (code : string) (error : option OpenAIError) : option (string * string * option string) :=
  _rewrite_previous_response_stream_error (c_previous_response_id c) preferred_account_id (Some code) (type_of error) (message_of error)
    (param_of error).
Definition blame_owner (error : option OpenAIError) (code : option string) (p : progress) : progress :=
  match code with Some u => say (_handle_stream_error account (_upstream_error_from_openai error) u None).1 p | None => p end.

Definition failed_block (code message response_id : string) : string :=
  format_sse_event (response_failed_event created code message "server_error" (Some response_id) None).

(** The first line of a stream: it is shown, or the exchange is given up.  A
    failure that is shown still ends the exchange with an exception. *)
Definition shown_first (line : string) (event : option OpenAIEvent) (payload : option (dict json)) (event_type : option string)
    (p : progress) : progress :=
  let p := match event with Some e => note_end e (Some (ev_type e)) p | None => p end in
  let p := if in_set event_type TEXT_DELTA_EVENT_TYPES then p {{ saw_text_delta := true }} else p in
  if _should_suppress_text_done_event event_type payload (c_suppress_text_done_events c) (saw_text_delta p) then p
  else let '(line, payload, _, event_type) := ToolDedupe.rewrite_parallel_tool_call_sse_line line payload in
       relay_line (c_request_id c) line payload event_type p.

Definition first_failure (allow_retry allow_transient_retry : bool) (line : string) (event : OpenAIEvent) (payload : option (dict json))
    (event_type : option string) (p : progress) : progress * exn :=
  let error := event_failure event (Some (ev_type event)) in
  let told := _upstream_error_from_openai error in
  let p := p {{ pg_response_id := if String.eqb (ev_type event) "response.failed" then default (c_request_id c) (event_id (Some event))
                                  else c_request_id c }} in
  let code := failure_code error event_type payload in
  match rewrite_error code error with
  | Some (rewritten_code, rewritten_message, upstream_code) =>
      let p := blame_owner error upstream_code (blame false told p) in
      let '(line, event, payload, event_type) :=
        _build_rewritten_stream_response_failed_event created (pg_response_id p) rewritten_code rewritten_message in
      (shown_first line event payload event_type (failed_with rewritten_code (Some rewritten_message) p),
       _TerminalStreamError rewritten_code told)
  | None =>
      let p := blame (_should_penalize_stream_error (Some code)) told (failed_with code (message_of error) p) in
      if allow_retry && String.eqb code "stream_idle_timeout" then (p, _RetryableStreamError code told true)
      else if allow_retry && _should_retry_stream_error code then (p, _RetryableStreamError code told false)
      else if allow_transient_retry && mem code TRANSIENT_RETRY_CODES && negb (String.eqb code "stream_idle_timeout")
      then (p, _TransientStreamError code told)
      else (shown_first line (Some event) payload event_type p, _TerminalStreamError code told)
  end.

Definition first_line (allow_retry allow_transient_retry : bool) (line : string) (p : progress) : progress * option exn :=
  let payload := parse_sse_data_json line in
  let event := parse_sse_event line in
  let event_type := _event_type_from_payload event payload in
  let p := named event (take_tier payload p) in
  match event with
  | Some e =>
      if mem (ev_type e) ["response.failed"; "error"]
      then let '(p, raised) := first_failure allow_retry allow_transient_retry line e payload event_type p in (p, Some raised)
      else (shown_first line event payload event_type p, None)
  | None => (shown_first line event payload event_type p, None)
  end.

(** An error event without an error object is replaced. *)
Definition read_line (line : string) (p : progress) : string * option OpenAIEvent * option (dict json) * option string :=
  let payload := parse_sse_data_json line in
  let event := parse_sse_event line in
  let event_type := _event_type_from_payload event payload in
  match payload with
  | Some d =>
      if in_set event_type ["error"] && negb (bool_decide (is_Some (match event with Some e => ev_error e | None => None end)))
      then _build_rewritten_stream_response_failed_event created (pg_response_id p) "upstream_error"
             (match stripped_member "message" d with Some m => m | None => "Upstream error" end)
      else (line, event, payload, event_type)
  | None => (line, event, payload, event_type)
  end.

(** A failure later in the stream. *)
Definition late_failure (line : string) (event : OpenAIEvent) (payload : option (dict json)) (event_type : option string) (p : progress)
    : progress * string * option OpenAIEvent * option (dict json) * option string :=
  let error := event_failure event event_type in
  let told := _upstream_error_from_openai error in
  let p := if in_set event_type ["response.failed"] then named (Some event) p else p in
  let code := failure_code error event_type payload in
  match rewrite_error code error with
  | Some (rewritten_code, rewritten_message, upstream_code) =>
      let p := p {{ pg_response_id := if in_set event_type ["response.failed"] then default (c_request_id c) (event_id (Some event))
                                      else c_request_id c }} in
      let p := blame_owner error upstream_code p in
      let '(line, event, payload, event_type) :=
        _build_rewritten_stream_response_failed_event created (pg_response_id p) rewritten_code rewritten_message in
      (blame false told (failed_with rewritten_code (Some rewritten_message) p), line, event, payload, event_type)
  | None =>
      (blame (_should_penalize_stream_error (Some code) && negb (saw_text_delta p)) told (failed_with code (message_of error) p),
       line, Some event, payload, event_type)
  end.

Definition next_line (line : string) (p : progress) : progress :=
  let '(line, _, payload, _) := read_line line p in
  let p := take_tier payload p in
  let '(line, payload, event, event_type) := ToolDedupe.rewrite_parallel_tool_call_sse_line line payload in
  let p := if in_set event_type TEXT_DELTA_EVENT_TYPES then p {{ saw_text_delta := true }} else p in
  if _should_suppress_text_done_event event_type payload (c_suppress_text_done_events c) (saw_text_delta p) then p
  else
    let '(p, line, payload, event_type) :=
      match event with
      | None => (p, line, payload, event_type)
      | Some e =>
          let '(p, line, event, payload, event_type) :=
            if in_set event_type ["response.failed"; "error"] then late_failure line e payload event_type p
            else (p, line, event, payload, event_type) in
          let p := match event with
                   | Some e => note_end e event_type p
                   | None => if in_set event_type ["response.completed"; "response.incomplete"] then p {{ pg_usage := None }} else p
                   end in
          if in_set event_type ["response.completed"] && pg_suppressed_call p
          then let '(line, _, payload, event_type) :=
                 _build_rewritten_stream_response_failed_event created (pg_response_id p) "stream_incomplete"
                   SUPPRESSED_DUPLICATE_TOOL_CALL_MESSAGE in
               (settle_with (λ s, s {{ record_success := false; account_health_error := false }})
                  (failed_with "stream_incomplete" (Some SUPPRESSED_DUPLICATE_TOOL_CALL_MESSAGE) p), line, payload, event_type)
          else (p, line, payload, event_type)
      end in
    relay_line (c_request_id c) line payload event_type p.

(** An error response of the upstream. *)
Definition refused (status_code : Z) (payload : dict json) (p : progress) : progress * option exn :=
  let error := _parse_openai_error payload in
  let code := code_of error in
  let unblamed := settle_with (λ s, s {{ record_success := false; account_health_error := false }}) in
  match rewrite_error code error with
  | Some (rewritten_code, rewritten_message, upstream_code) =>
      let p := unblamed (failed_with rewritten_code (Some rewritten_message) (blame_owner error upstream_code p)) in
      (say [Yield (failed_block rewritten_code rewritten_message (c_request_id c))] p, None)
  | None =>
      (settle_with (λ s, s {{ record_success := false; account_health_error := _should_penalize_stream_error (Some code) }})
         (failed_with code (message_of error) p),
       Some (ProxyResponseError status_code payload))
  end.

Definition started (seen : list ToolDedupe.tool_call_key) (h : history) : progress :=
  {| pg_history := h ++ [Upstream account]; pg_settlement := new_settlement; pg_seen := seen; pg_status := "success"; pg_error_code := None;
     pg_error_message := None; pg_response_id := c_request_id c; pg_usage := None; pg_service_tier := c_service_tier c;
     saw_text_delta := false; pg_suppressed_call := false |}.

(** Nothing came: the stream was empty or could not be opened. *)
Definition nothing_came (allow_retry : bool) (ending : upstream_end) (p : progress) : progress * option exn :=
  match ending with
  | Finished =>
      (say [Yield (failed_block "stream_incomplete" CLOSED_EARLY (c_request_id c))]
         (blame true (only_message CLOSED_EARLY) (failed_with "stream_incomplete" (Some CLOSED_EARLY) p)), None)
  | NetworkError m =>
      let message := or_s (Some m) "Request to upstream timed out" in
      let p := blame true (only_message message) (failed_with "upstream_unavailable" (Some message) p) in
      if allow_retry then (p, Some (_RetryableStreamError "upstream_unavailable" (only_message message) true))
      else (say [Yield (failed_block "upstream_unavailable" message (c_request_id c))] p, None)
  | Refused status_code payload => refused status_code payload p
  | Crash => (p, Some OtherError)
  end.

Definition rest_of_stream (lines : list string) (ending : upstream_end) (p : progress) : progress * option exn :=
  let p := fold_left (λ p line, next_line line p) lines p in
  match ending with
  | Finished => (p, None)
  | Refused status_code payload => refused status_code payload p
  | NetworkError m => (p, Some (ClientError m))
  | Crash => (p, Some OtherError)
  end.

(** The settlement and the log row at the end. *)
Definition closed (p : progress) : progress :=
  let s := (pg_settlement p)
           {{ st_status := pg_status p; st_model := c_model c; st_service_tier := pg_service_tier p;
              st_input_tokens := match pg_usage p with Some u => input_tokens u | None => None end;
              st_output_tokens := match pg_usage p with Some u => output_tokens u | None => None end;
              st_cached_input_tokens := cached_of (pg_usage p); st_error_code := pg_error_code p;
              st_error_message := pg_error_message p }} in
  say [Logged (Some account) (pg_response_id p) (pg_status p) (pg_error_code p) (pg_error_message p)] (p {{ pg_settlement := s }}).

Definition _stream_once (allow_retry allow_transient_retry : bool) (sc : script) (seen : list ToolDedupe.tool_call_key) (h : history)
    : progress * option exn :=
  let p := started seen h in
  let '(p, raised) :=
    match sc_lines sc with
    | [] => nothing_came allow_retry (sc_end sc) p
    | line :: rest =>
        match first_line allow_retry allow_transient_retry line p with
        | (p, Some e) => (p, Some e)
        | (p, None) => rest_of_stream rest (sc_end sc) p
        end
    end in
  (closed p, raised).

End Exchange.

(** ** Selection and retries *)

Definition _STREAM_MAX_ACCOUNT_ATTEMPTS : nat := 3.
Definition _MAX_TRANSIENT_SAME_ACCOUNT_RETRIES : nat := 3.
Definition EXHAUSTED_MESSAGE : string := "Proxy request budget exhausted".
Definition OWNER_UNAVAILABLE : string := "Previous response owner account is unavailable; retry later.".

(** What the load balancer answers. *)
Record selected := { sel_account : option string; sel_error_message : option string; sel_error_code : option string }.

(** What a token refresh comes to. *)
Inductive freshness :=
  | Fresh
  | NotRefreshed (is_permanent : bool) (code : string)
  | NoConnection (message : string)
  | Rejected (status_code : Z) (payload : dict json)
  | Broken.

Definition _raise_proxy_budget_exhausted : exn := ProxyResponseError 502 (openai_error "upstream_unavailable" EXHAUSTED_MESSAGE "server_error").

(** The state of the loop. *)
Record retrying := {
  rt_history : history; rt_excluded : list string; last_transient_exc : option (Z * dict json);
  last_retryable_stream_error : option (string * UpstreamError); any_attempt_logged : bool; rt_settled : bool }.
Definition perform (acts : history) (s : retrying) : retrying := s {{ rt_history := rt_history s ++ acts }}.
Definition exclude (account : string) (s : retrying) : retrying := s {{ rt_excluded := account :: rt_excluded s }}.

(** How an attempt ends: the next one follows, the stream is over, or an
    exception leaves the generator. *)
Inductive flow := Next (s : retrying) | Return (s : retrying) | Raise (s : retrying) (e : exn).

Section Retry.
Context (created : Z) (c : call).
(** The accounts the API key may use; the world's answers. *)
Context (scoped_account_ids : option (list string)).
Context (remaining : history → Q) (ask : history → option (list string) → list string → option selected).
Context (ensure_fresh : history → string → bool → freshness) (upstream : history → string → script) (settles : history → bool).
(** The account the request prefers, and whether it must have it. *)
Context (preferred_account_id : option string) (require_preferred_account : bool).

Definition in_scope (account : string) : bool := match scoped_account_ids with Some ids => mem account ids | None => true end.

(** [None] of the load balancer stands for the deadline that passes meanwhile. *)
Definition _select_account_with_budget (excluded : list string) (h : history) : history * res exn selected :=
  if qle (remaining h) 0 then (h, Err _raise_proxy_budget_exhausted)
  else
    let '(h, first) :=
      match preferred_account_id with
      | Some a => if negb (mem a excluded) && in_scope a
                  then (h ++ [Asked (Some [a]) []], Some (ask h (Some [a]) []))
                  else (h, None)
      | None => (h, None)
      end in
    match first with
    | Some None => (h, Err _raise_proxy_budget_exhausted)
    | Some (Some {| sel_account := Some a; sel_error_message := m; sel_error_code := e |}) =>
        (h, Ok {| sel_account := Some a; sel_error_message := m; sel_error_code := e |})
    | _ =>
        let answer := ask h scoped_account_ids excluded in
        let h := h ++ [Asked scoped_account_ids excluded] in
        match answer with
        | None => (h, Err _raise_proxy_budget_exhausted)
        | Some s =>
            match sel_account s with
            | Some a => if mem a excluded
                        then (h, Ok {| sel_account := None; sel_error_message := Some "No active accounts available";
                                       sel_error_code := Some "no_accounts" |})
                        else (h, Ok s)
            | None => (h, Ok s)
            end
        end
    end.

(** *** Answers of the proxy itself *)

Definition logged_error (account : option string) (code message : string) : act :=
  Logged account (c_request_id c) "error" (Some code) (Some message).
Definition failed_event_block (code message : string) : act := Yield (failed_block created code message (c_request_id c)).
(** An error of the upstream or of the proxy as an event. *)
Definition error_event_block (error : option OpenAIError) (code fallback response_id : string) (param : option string) : act :=
  Yield (format_sse_event
    (with_metadata (response_failed_event created code (or_s (message_of error) fallback) (or_s (type_of error) "server_error")
                      (Some response_id) param) error)).

Definition timed_out (account : option string) (s : retrying) : flow :=
  Return (perform [logged_error account "upstream_request_timeout" EXHAUSTED_MESSAGE;
                   failed_event_block "upstream_request_timeout" EXHAUSTED_MESSAGE] s).
Definition unreachable (account message : string) (s : retrying) : flow :=
  let message := or_s (Some message) "Request to upstream timed out" in
  Return (perform [logged_error (Some account) "upstream_unavailable" message; failed_event_block "upstream_unavailable" message] s).
Definition owner_unavailable (s : retrying) : flow :=
  Return (perform [failed_event_block "upstream_unavailable" OWNER_UNAVAILABLE;
                   logged_error preferred_account_id "upstream_unavailable" OWNER_UNAVAILABLE] s).
Definition streaming_failed (s : retrying) : flow := Return (perform [failed_event_block "upstream_error" "Proxy streaming failed"] s).
Definition refresh_failed (account : string) (is_permanent : bool) (code : string) (s : retrying) : flow :=
  Next (if is_permanent then perform [MarkPermanentFailure account code] s else s).

(** [str(error.get("message") or "Upstream error")]. *)
Definition text_of_error (error : UpstreamError) : string := or_s (message error) "Upstream error".

Definition no_account (sel : selected) (s : retrying) : flow :=
  if require_preferred_account && bool_decide (is_Some preferred_account_id) then owner_unavailable s
  else match (if c_propagate_http_errors c then last_transient_exc s else None), last_retryable_stream_error s with
  | Some (status_code, payload), _ => Raise s (ProxyResponseError status_code payload)
  | None, Some (code, error) =>
      let message := text_of_error error in Return (perform [failed_event_block code message; logged_error None code message] s)
  | None, None =>
      let message := or_s (sel_error_message sel) "No active accounts available" in
      let code := or_s (sel_error_code sel) "no_accounts" in
      Return (perform [failed_event_block code message; logged_error None code message] s)
  end.

(** Settling the reservation ends the stream. *)
Definition settle (settlement : _StreamSettlement) (s : retrying) : flow :=
  let told := map OnReservation (_settle_stream_api_key_usage (c_api_key c) (c_reservation c) settlement) in
  let ok := match c_api_key c, c_reservation c with Some _, Some _ => settles (rt_history s) | _, _ => true end in
  Return ((perform (if ok then told else []) s) {{ rt_settled := ok }}).

Definition finished (account : string) (settlement : _StreamSettlement) (s : retrying) : flow :=
  let s := if account_health_error settlement
           then perform (_handle_stream_error account (_stream_settlement_error_payload settlement)
                           (or_s (st_error_code settlement) "upstream_error") None).1 s
           else if record_success settlement then perform [RecordedSuccess account] s else s in
  settle settlement s.

(** A failure after the client got a part of the response. *)
Definition surface_visible (account : string) (raised : exn) (settlement : _StreamSettlement) (s : retrying) : flow :=
  let response_id := or_s (st_response_id settlement) (c_request_id c) in
  let '(block, code, message, told) :=
    match raised with
    | ProxyResponseError _ payload =>
        let error := _parse_openai_error payload in
        let code := code_of error in
        (error_event_block error code "Upstream error" response_id (param_of error), code,
         match error with Some e => err_message e | None => Some "Upstream error" end, _upstream_error_from_openai error)
    | _TransientStreamError code error =>
        (Yield (failed_block created (or_s (Some code) "upstream_error") (text_of_error error) response_id), code, Some (text_of_error error), error)
    | _ => (Yield "", "", None, no_error)
    end in
  let settlement := settlement {{ record_success := false; st_error_code := Some code; st_error_message := message; st_error := Some told;
                                  account_health_error := _should_penalize_stream_error (Some code) }} in
  let s := perform [block] s in
  let s := if account_health_error settlement
           then perform (_handle_stream_error account (_stream_settlement_error_payload settlement) (or_s (Some code) "upstream_error") None).1 s
           else s in
  settle settlement s.

(** *** Exceptions that end an attempt *)

(** The tokens were refused: they are renewed and the account is asked once
    more.  An exception of that exchange leaves the generator. *)
Definition retry_unauthorized (account : string) (seen : list ToolDedupe.tool_call_key) (s : retrying) : flow :=
  if qle (remaining (rt_history s)) 0 then timed_out (Some account) s
  else
    let answer := ensure_fresh (rt_history s) account true in
    let s := perform [Refreshed account true] s in
    match answer with
    | NotRefreshed is_permanent code => refresh_failed account is_permanent code s
    | NoConnection m => unreachable account m s
    | Rejected status_code payload => Raise s (ProxyResponseError status_code payload)
    | Broken => Raise s OtherError
    | Fresh =>
        if qle (remaining (rt_history s)) 0 then timed_out (Some account) s
        else
          let '(p, raised) := _stream_once created c account None false false (upstream (rt_history s) account) seen (rt_history s) in
          let s := s {{ rt_history := pg_history p }} in
          match raised with
          | Some e => Raise s e
          | None => finished account (pg_settlement p) s
          end
    end.

Definition proxy_error (account : string) (status_code : Z) (payload : dict json) (seen : list ToolDedupe.tool_call_key) (s : retrying) : flow :=
  if (status_code =? 401)%Z then retry_unauthorized account seen s
  else
    let error := _parse_openai_error payload in
    let code := code_of error in
    let s := if _should_penalize_stream_error (Some code)
             then perform (_handle_stream_error account (_upstream_error_from_openai error) code None).1 s else s in
    if c_propagate_http_errors c then Raise s (ProxyResponseError status_code payload)
    else Return (perform [error_event_block error code "Upstream error" (c_request_id c) (param_of error)] s).

(** The handlers around an attempt. *)
Definition handle (account : string) (raised : exn) (seen : list ToolDedupe.tool_call_key) (s : retrying) : flow :=
  match raised with
  | _RetryableStreamError code error exclude_account =>
      let s := (perform (_handle_stream_error account error code None).1 s) {{ last_retryable_stream_error := Some (code, error) }} in
      Next (if exclude_account then exclude account s else s)
  | _TerminalStreamError code error =>
      Return (if _should_penalize_stream_error (Some code) then perform (_handle_stream_error account error code None).1 s else s)
  | ProxyResponseError status_code payload => proxy_error account status_code payload seen s
  | RefreshError is_permanent code => refresh_failed account is_permanent code s
  | _TransientStreamError _ _ | ClientError _ | OtherError => streaming_failed s
  end.

(** *** One account *)

(** An error response other than 500 moves the request to the next account or
    is raised again. *)
Definition refused_by (account : string) (attempt : nat) (status_code : Z) (payload : dict json) (seen : list ToolDedupe.tool_call_key)
    (s : retrying) : flow :=
  let error := _parse_openai_error payload in
  let code := code_of error in
  if _is_account_neutral_error_code (Some code) then handle account (ProxyResponseError status_code payload) seen s
  else
    let '(told, class) := _handle_stream_error account (_upstream_error_from_openai error) code (Some status_code) in
    let s := perform told s in
    let action := if c_deterministic_failover_enabled c
                  then failover_decision class false (Z.of_nat _STREAM_MAX_ACCOUNT_ATTEMPTS - Z.of_nat attempt - 1) else surface in
    match action with
    | failover_next => Next (exclude account (s {{ last_transient_exc := Some (status_code, payload) }}))
    | _ => handle account (ProxyResponseError status_code payload) seen s
    end.

(** The transient error after [retries] others: again, or another account. *)
Definition given_up (account : string) (raised : exn) (retries : Z) (s : retrying) : flow :=
  let '(code, error) := match raised with
                        | _TransientStreamError code error => (code, error)
                        | ProxyResponseError _ payload => ("server_error", _upstream_error_from_openai (_parse_openai_error payload))
                        | _ => ("server_error", no_error)
                        end in
  let s := perform (_handle_stream_error account error code None).1 s in
  let s := perform [RecordErrors account (retries - 1)] s in
  let s := match raised with ProxyResponseError st payload => s {{ last_transient_exc := Some (st, payload) }} | _ => s end in
  Next (exclude account s).

(** Exchanges with one account; [spare] is how many may still follow a transient
    error. *)
Fixpoint same_account (spare : nat) (account : string) (attempt : nat) (seen : list ToolDedupe.tool_call_key) (s : retrying) : flow :=
  let allow_retry := Nat.ltb attempt (_STREAM_MAX_ACCOUNT_ATTEMPTS - 1) in
  let '(p, raised) :=
    _stream_once created c account preferred_account_id allow_retry (Nat.ltb 0 spare || allow_retry)
      (upstream (rt_history s) account) seen (rt_history s) in
  let s := s {{ rt_history := pg_history p }} in
  let seen := pg_seen p in
  let transient e :=
    let retries := (Z.of_nat _MAX_TRANSIENT_SAME_ACCOUNT_RETRIES - Z.of_nat spare)%Z in
    match spare with
    | S spare => if negb (qle (remaining (rt_history s)) 0) then same_account spare account attempt seen (perform [Slept] s)
                else given_up account e retries s
    | O => given_up account e retries s
    end in
  match raised with
  | None => finished account (pg_settlement p) s
  | Some (_TransientStreamError _ _ as e) =>
      if st_downstream_visible (pg_settlement p) then surface_visible account e (pg_settlement p) s else transient e
  | Some (ProxyResponseError status_code payload as e) =>
      if st_downstream_visible (pg_settlement p) then surface_visible account e (pg_settlement p) s
      else if negb (status_code =? 500)%Z then refused_by account attempt status_code payload seen s
      else transient e
  | Some e => handle account e seen s
  end.

(** *** The loop *)

Definition attempt_account (account : string) (attempt : nat) (s : retrying) : flow :=
  if qle (remaining (rt_history s)) 0 then timed_out (Some account) s
  else
    let answer := ensure_fresh (rt_history s) account false in
    let s := perform [Refreshed account false] s in
    match answer with
    | NoConnection m => unreachable account m s
    | NotRefreshed is_permanent code => handle account (RefreshError is_permanent code) [] s
    | Rejected status_code payload => handle account (ProxyResponseError status_code payload) [] s
    | Broken => handle account OtherError [] s
    | Fresh =>
        let s := s {{ any_attempt_logged := true }} in
        if qle (remaining (rt_history s)) 0 then timed_out (Some account) s
        else same_account (_MAX_TRANSIENT_SAME_ACCOUNT_RETRIES - 1) account attempt [] s
    end.

Definition attempt_once (attempt : nat) (s : retrying) : flow :=
  if qle (remaining (rt_history s)) 0 then timed_out None s
  else
    let '(h, answer) := _select_account_with_budget (rt_excluded s) (rt_history s) in
    let s := s {{ rt_history := h }} in
    match answer with
    | Err (ProxyResponseError _ payload) =>
        let error := _parse_openai_error payload in
        let code := code_of error in
        if String.eqb code "upstream_unavailable" && bool_decide (message_of error = Some EXHAUSTED_MESSAGE) then timed_out None s
        else Return (perform [error_event_block error code "Upstream unavailable" (c_request_id c) None] s)
    | Err e => Raise s e
    | Ok sel =>
        match sel_account sel with
        | None => no_account sel s
        | Some account =>
            if require_preferred_account && bool_decide (is_Some preferred_account_id)
               && negb (bool_decide (preferred_account_id = Some account))
            then owner_unavailable s
            else attempt_account account attempt s
        end
    end.

Definition attempts_used_up (s : retrying) : flow :=
  let log code message := if any_attempt_logged s then [] else [logged_error None code message] in
  match (if c_propagate_http_errors c then last_transient_exc s else None), last_retryable_stream_error s with
  | Some (status_code, payload), _ => Raise s (ProxyResponseError status_code payload)
  | None, Some (code, error) => Return (perform (failed_event_block code (text_of_error error) :: log code (text_of_error error)) s)
  | None, None =>
      let message := "No available accounts after retries" in
      Return (perform (failed_event_block "no_accounts" message :: log "no_accounts" message) s)
  end.

Fixpoint attempt_loop (attempts : list nat) (s : retrying) : flow :=
  match attempts with
  | [] => attempts_used_up s
  | n :: rest => match attempt_once n s with Next s => attempt_loop rest s | f => f end
  end.

Definition new_retrying : retrying :=
  {| rt_history := []; rt_excluded := []; last_transient_exc := None; last_retryable_stream_error := None; any_attempt_logged := false;
     rt_settled := false |}.

(** Whether the database takes the release. *)
Context (releases : history → bool).

(** [_release_unsettled_stream_api_key_usage]: an exception is only logged. *)
Definition _release_unsettled_stream_api_key_usage (id : string) (s : retrying) : retrying :=
  perform [if releases (rt_history s) then OnReservation (ReleaseReservation id) else ReleaseFailed id] s.

(** The reservation is given back when it was not settled. *)
Definition released (s : retrying) : retrying :=
  match c_api_key c, c_reservation c with
  | Some _, Some rv => if rt_settled s then s else _release_unsettled_stream_api_key_usage (reservation_id rv) s
  | _, _ => s
  end.

Definition stream_loop : history * option exn :=
  match attempt_loop (seq 0 _STREAM_MAX_ACCOUNT_ATTEMPTS) new_retrying with
  | Next s | Return s => (rt_history (released s), None)
  | Raise s e => (rt_history (released s), Some e)
  end.

End Retry.

(** What the generator is given before the loop: the settings, or the exception
    of reading them; the account of the request's files, when the caller looked
    it up; what looking it up here gives before the loop and in it; the owner
    lookup of the response the request continues; and whether the database takes
    a release. *)
Record surroundings := {
  sr_settings : option exn; sr_rewritten_file_account : option string;
  sr_file_account : option string; sr_file_account_again : option string;
  sr_owner : res exn (option string); sr_releases : history → bool }.

(** What comes before the [try] whose [finally] releases the reservation. *)
Definition prologue (c : call) (sr : surroundings) : res exn (option string) :=
  match sr_settings sr with
  | Some e => Err e
  | None =>
      match sr_rewritten_file_account sr with
      | Some a => Ok (Some a)
      | None => match unsupported_image_references (c_input c) with
                | Some answer => Err (ProxyResponseError 400 answer)
                | None => Ok (sr_file_account sr)
                end
      end
  end.

(** The owner of the response the request continues comes first; its lookup may
    fail.  Otherwise the account that holds the request's files. *)
Definition _stream_with_retry (created : Z) (c : call) (scoped_account_ids : option (list string))
    (remaining : history → Q) (ask : history → option (list string) → list string → option selected)
    (ensure_fresh : history → string → bool → freshness) (upstream : history → string → script) (settles : history → bool)
    (sr : surroundings) : history * option exn :=
  let run preferred required :=
    stream_loop created c scoped_account_ids remaining ask ensure_fresh upstream settles preferred required (sr_releases sr) in
  match prologue c sr with
  | Err e => ([], Some e)
  | Ok rewritten_file_account_id =>
      let file_account := match rewritten_file_account_id with Some a => Some a | None => sr_file_account_again sr end in
      match c_previous_response_id c with
      | None => run file_account false
      | Some _ =>
          match sr_owner sr with
          | Err e => (rt_history (released c (sr_releases sr) new_retrying), Some e)
          | Ok (Some a) => run (Some a) true
          | Ok None => run file_account false
          end
      end
  end.


End HttpStream.
