(* ===== verification/HttpStreamFacts.v ===== *)
(** Properties of streaming over HTTP: a response that has begun is never
    started again, the number of exchanges is bounded, a request that continues
    a response stays on its owner's account, and its reservation is closed once;
    and two ways in which failures are not handled as meant. *)

From S2P Require Import Prelude Balancer Json Sse Requests ToolCalls ProxyEvents WsRequests WsRelay HttpStream.
Import Json.Json Sse.Sse Sse.OpenAIModels Requests.JsonOps.
Import ProxyEvents.ProxyErrors ProxyEvents.ProxyEvents WsRequests.WsRequests WsRelay.WsRelay HttpStream.HttpStream.
Import Balancer.Logic.

Module HttpStreamFacts.

(** ** Histories *)

Definition is_upstream (x : act) : bool := match x with Upstream _ => true | _ => false end.
Definition is_yield (x : act) : bool := match x with Yield _ => true | _ => false end.
(** What is told about the reservation, and whether the database took it. *)
Definition reservation_act (x : act) : option (effect * bool) :=
  match x with OnReservation e => Some (e, true) | ReleaseFailed id => Some (ReleaseReservation id, false) | _ => None end.

(** Neither an exchange nor a word to the client nor to the reservation. *)
Definition background (x : act) : bool := negb (is_upstream x) && negb (is_yield x) && negb (bool_decide (is_Some (reservation_act x))).

Definition exchanges (h : history) : nat := length (List.filter is_upstream h).
Definition silent (h : history) : bool := forallb (λ x, negb (is_yield x)) h.
Definition reserved (h : history) : list (effect * bool) := omap reservation_act h.

(** No exchange begins after the client got something. *)
Fixpoint replay_free (h : history) : bool :=
  match h with
  | [] => true
  | x :: h => (if is_yield x then Nat.eqb (exchanges h) 0 else true) && replay_free h
  end.

Lemma exchanges_app h k : exchanges (h ++ k) = exchanges h + exchanges k.
Proof. unfold exchanges. by rewrite List.filter_app, length_app. Qed.
Lemma silent_app h k : silent (h ++ k) = silent h && silent k.
Proof. apply forallb_app. Qed.
Lemma reserved_app h k : reserved (h ++ k) = reserved h ++ reserved k.
Proof. apply omap_app. Qed.

Lemma replay_free_silent h k : silent h = true → replay_free (h ++ k) = replay_free k.
Proof.
  induction h as [|x h IH]; [done|]. simpl. intros [Hx Hh]%andb_true_iff. apply negb_true_iff in Hx. rewrite Hx. simpl. auto.
Qed.

Lemma replay_free_calm h k : replay_free h = true → exchanges k = 0 → replay_free k = true → replay_free (h ++ k) = true.
Proof.
  intros Hh Hk Hf. induction h as [|x h IH]; [done|]. simpl in *. apply andb_true_iff in Hh as [Hx Hh]. rewrite IH by done.
  rewrite andb_true_r. destruct (is_yield x); [|done]. rewrite exchanges_app, Hk, Nat.add_0_r. done.
Qed.

Lemma calm_replay_free h : exchanges h = 0 → replay_free h = true.
Proof.
  induction h as [|x h IH]; [done|]. intros H. simpl. change (x :: h) with ([x] ++ h) in H. rewrite exchanges_app in H.
  rewrite IH by lia. rewrite andb_true_r. destruct (is_yield x); [|done]. apply Nat.eqb_eq. lia.
Qed.

Lemma background_spec h : forallb background h = true → exchanges h = 0 ∧ silent h = true ∧ reserved h = [].
Proof.
  induction h as [|x h IH]; [done|]. simpl. intros [Hx Hh]%andb_true_iff. destruct (IH Hh) as (H1 & H2 & H3).
  unfold exchanges, reserved in *. destruct x; simpl in Hx |- *; try done; by rewrite ?H2.
Qed.

Lemma handled_background account error code status : forallb background (_handle_stream_error account error code status).1 = true.
Proof. unfold _handle_stream_error. case_if; [done|]. destruct (classify_upstream_failure code status); try done; by case_if. Qed.

(** ** One exchange *)

(** What an exchange adds: nothing for the reservation, no other exchange, and
    something for the client only if the settlement says so. *)
Definition grows (p p' : progress) : Prop :=
  ∃ acts, pg_history p' = pg_history p ++ acts ∧ exchanges acts = 0 ∧ reserved acts = [] ∧
    (st_downstream_visible (pg_settlement p') = st_downstream_visible (pg_settlement p) ∧ silent acts = true ∨
     st_downstream_visible (pg_settlement p') = true).

Lemma grows_same p p' : pg_history p' = pg_history p → st_downstream_visible (pg_settlement p') = st_downstream_visible (pg_settlement p) → grows p p'.
Proof. intros Hh Hv. exists []. rewrite app_nil_r. split_and!; auto. Qed.

Lemma grows_trans p q r : grows p q → grows q r → grows p r.
Proof.
  intros (a & Ha & H1 & H2 & H3) (b & Hb & H4 & H5 & H6). exists (a ++ b). rewrite Hb, Ha, app_assoc, exchanges_app, reserved_app, H1, H2, H4, H5.
  split_and!; try done. destruct H6 as [[H6 H6']|H6]; [|by right]. destruct H3 as [[H3 H3']|H3]; [|right; congruence].
  left. by rewrite silent_app, H6, H3', H6', H3.
Qed.

Lemma grows_say acts p : forallb background acts = true → grows p (say acts p).
Proof. intros (H1 & H2 & H3)%background_spec. exists acts. split_and!; auto. Qed.

Lemma grows_show block ty p : grows p (show block ty p).
Proof. exists [Yield block]. split_and!; try done. by right. Qed.

Create HintDb exchange discriminated.
#[export] Hint Resolve grows_say grows_show handled_background : exchange.

Lemma grows_relay i line payload ty p : grows p (relay_line i line payload ty p).
Proof.
  unfold relay_line. destruct (ToolDedupe.mark_duplicate_tool_call_downstream_event _ _ _ _) as [[b d] seen].
  destruct b; [by apply grows_same|]. eapply grows_trans; [|apply grows_show]. by apply grows_same.
Qed.

Lemma grows_named e p : grows p (named e p).
Proof. unfold named. destruct (event_id e); by apply grows_same. Qed.

Lemma grows_tier payload p : grows p (take_tier payload p).
Proof. unfold take_tier. destruct (_service_tier_from_event_payload payload); by apply grows_same. Qed.

Lemma grows_end e ty p : grows p (note_end e ty p).
Proof.
  unfold note_end. case_if; [|by apply grows_same]. eapply (grows_trans _ (p {{ pg_usage := _ }})); [by apply grows_same|].
  eapply grows_trans; [apply grows_named|]. case_if; by apply grows_same.
Qed.

Section Exchange.
Context (created : Z) (c : call) (account : string) (preferred : option string).

Lemma grows_owner error code p : grows p (blame_owner account error code p).
Proof. unfold blame_owner. destruct code; [|by apply grows_same]. apply grows_say, handled_background. Qed.

Lemma grows_shown line event payload ty p : grows p (shown_first c line event payload ty p).
Proof.
  unfold shown_first. set (p1 := match event with Some e => _ | None => p end).
  assert (grows p p1) as H1 by (unfold p1; destruct event; [apply grows_end|by apply grows_same]).
  set (p2 := if in_set ty _ then _ else p1). assert (grows p p2) as H2.
  { eapply grows_trans; [exact H1|]. unfold p2. case_if; by apply grows_same. }
  case_if; [done|]. destruct (ToolDedupe.rewrite_parallel_tool_call_sse_line line payload) as [[[l d] e] t].
  eapply grows_trans; [exact H2|apply grows_relay].
Qed.

Lemma first_failure_spec retry transient line event payload ty p :
  let '(p', raised) := first_failure created c account preferred retry transient line event payload ty p in
  grows p p' ∧ match raised with
               | _RetryableStreamError _ _ _ | _TransientStreamError _ _ =>
                   pg_history p' = pg_history p ∧ st_downstream_visible (pg_settlement p') = st_downstream_visible (pg_settlement p)
               | _TerminalStreamError _ _ => True
               | _ => False
               end.
Proof.
  unfold first_failure. destruct (rewrite_error c preferred _ _) as [[[rc rm] uc]|].
  - set (q := blame_owner account _ uc _).
    assert (grows p q) as Hq by (eapply grows_trans; [|apply grows_owner]; by apply grows_same).
    destruct (_build_rewritten_stream_response_failed_event created (pg_response_id q) rc rm) as [[[l e] d] t]. split; [|done].
    eapply grows_trans; [exact Hq|]. eapply grows_trans; [|apply grows_shown]. by apply grows_same.
  - set (q := blame _ _ (failed_with _ _ _)).
    assert (grows p q ∧ pg_history q = pg_history p ∧ st_downstream_visible (pg_settlement q) = st_downstream_visible (pg_settlement p)) as (Hq & Hh & Hv)
      by (split_and!; [by apply grows_same|done..]).
    clearbody q. repeat case_if; (split; [|done]); [done..|]. eapply grows_trans; [exact Hq|apply grows_shown].
Qed.

Lemma first_line_spec retry transient line p :
  let '(p', raised) := first_line created c account preferred retry transient line p in
  grows p p' ∧ match raised with
               | Some (_RetryableStreamError _ _ _ | _TransientStreamError _ _) =>
                   pg_history p' = pg_history p ∧ st_downstream_visible (pg_settlement p') = st_downstream_visible (pg_settlement p)
               | Some (_TerminalStreamError _ _) | None => True
               | _ => False
               end.
Proof.
  unfold first_line. set (q := named _ _). assert (grows p q) as Hq by (eapply grows_trans; [apply grows_tier|apply grows_named]).
  assert (pg_history q = pg_history p ∧ st_downstream_visible (pg_settlement q) = st_downstream_visible (pg_settlement p)) as [Hh Hv].
  { unfold q, named, take_tier. by destruct (event_id _), (_service_tier_from_event_payload _). }
  destruct (parse_sse_event line) as [e|]; [case_if|].
  - pose proof (first_failure_spec retry transient line e (parse_sse_data_json line) (_event_type_from_payload (Some e) (parse_sse_data_json line)) q) as H.
    destruct (first_failure created c account preferred retry transient line e _ _ q) as [p' raised]. destruct H as [Hg Hr].
    split; [by eapply grows_trans|]. destruct raised; try done; destruct Hr as [-> ->]; done.
  - split; [|done]. eapply grows_trans; [exact Hq|apply grows_shown].
  - split; [|done]. eapply grows_trans; [exact Hq|apply grows_shown].
Qed.

Lemma late_failure_spec line e payload ty p :
  let '(p', _, _, _, _) := late_failure created c account preferred line e payload ty p in grows p p'.
Proof.
  unfold late_failure. set (q := if in_set ty ["response.failed"] then named (Some e) p else p).
  assert (grows p q) as Hq by (unfold q; case_if; [apply grows_named|by apply grows_same]).
  destruct (rewrite_error c preferred _ _) as [[[rc rm] uc]|].
  - set (q2 := blame_owner account _ uc _). assert (grows p q2) as H2.
    { eapply grows_trans; [exact Hq|]. eapply grows_trans; [|apply grows_owner]. by apply grows_same. }
    destruct (_build_rewritten_stream_response_failed_event created (pg_response_id q2) rc rm) as [[[l ev] d] t].
    eapply grows_trans; [exact H2|]. by apply grows_same.
  - eapply grows_trans; [exact Hq|]. by apply grows_same.
Qed.

Lemma next_line_spec line p : grows p (next_line created c account preferred line p).
Proof.
  unfold next_line. destruct (read_line created line p) as [[[l0 e0] d0] t0]. set (p1 := take_tier d0 p).
  assert (grows p p1) as H1 by apply grows_tier.
  destruct (ToolDedupe.rewrite_parallel_tool_call_sse_line l0 d0) as [[[l d] e] t].
  set (p2 := if in_set t TEXT_DELTA_EVENT_TYPES then _ else p1). assert (grows p p2) as H2.
  { eapply grows_trans; [exact H1|]. unfold p2. case_if; by apply grows_same. }
  clearbody p2. case_if; [done|]. destruct e as [e|]; [|eapply grows_trans; [exact H2|apply grows_relay]].
  set (late := if in_set t ["response.failed"; "error"] then _ else _).
  assert (let '(p', _, _, _, _) := late in grows p p') as H3.
  { unfold late. case_if; [|done]. pose proof (late_failure_spec l e d t p2) as H.
    destruct (late_failure created c account preferred l e d t p2) as [[[[p' ?] ?] ?] ?]. by eapply grows_trans. }
  destruct late as [[[[p3 l3] e3] d3] t3]. set (p4 := match e3 with Some e => note_end e t3 p3 | None => _ end).
  assert (grows p p4) as H4.
  { eapply grows_trans; [exact H3|]. unfold p4. destruct e3; [apply grows_end|]. case_if; by apply grows_same. }
  clearbody p4. destruct (in_set t3 ["response.completed"] && pg_suppressed_call p4).
  - destruct (_build_rewritten_stream_response_failed_event created (pg_response_id p4) _ _) as [[[l5 e5] d5] t5].
    eapply grows_trans; [|apply grows_relay]. eapply grows_trans; [exact H4|]. by apply grows_same.
  - eapply grows_trans; [exact H4|apply grows_relay].
Qed.

Lemma lines_spec lines p : grows p (fold_left (λ p line, next_line created c account preferred line p) lines p).
Proof.
  revert p. induction lines as [|line lines IH]; intros p; [by apply grows_same|]. simpl.
  eapply grows_trans; [apply next_line_spec|apply IH].
Qed.

(** What an exchange adds to the history, and what it tells of it. *)
Definition adds (p : progress) (r : progress * option exn) : Prop :=
  ∃ acts, pg_history r.1 = pg_history p ++ acts ∧ exchanges acts = 0 ∧ reserved acts = [] ∧
    match r.2 with
    | Some (_RetryableStreamError _ _ _ | _TransientStreamError _ _) => silent acts = true
    | Some (ProxyResponseError _ _) =>
        st_downstream_visible (pg_settlement p) = false → st_downstream_visible (pg_settlement r.1) = false → silent acts = true
    | Some (RefreshError _ _) => False
    | _ => True
    end.

Lemma refused_spec status_code payload p : adds p (refused created c account preferred status_code payload p).
Proof.
  unfold refused. destruct (rewrite_error c preferred _ _) as [[[rc rm] uc]|].
  - set (q := settle_with _ _).
    assert (grows p q) as (acts & Ha & H1 & H2 & _) by (eapply grows_trans; [apply grows_owner|]; by apply grows_same).
    exists (acts ++ [Yield (failed_block created rc rm (c_request_id c))]). rewrite exchanges_app, reserved_app, H1, H2. split_and!; [|done..].
    change (pg_history q ++ [Yield (failed_block created rc rm (c_request_id c))] = pg_history p ++ acts ++ [Yield (failed_block created rc rm (c_request_id c))]).
    by rewrite Ha, app_assoc.
  - exists []. rewrite app_nil_r. done.
Qed.

Lemma nothing_came_spec retry ending p : adds p (nothing_came created c account preferred retry ending p).
Proof.
  destruct ending as [|st payload|m|]; cbn [nothing_came].
  - by eexists [Yield _].
  - apply refused_spec.
  - case_if; [exists []; by rewrite app_nil_r|by eexists [Yield _]].
  - exists []. by rewrite app_nil_r.
Qed.

Lemma grows_adds p q r : grows p q → adds q r → (∀ code error ex, r.2 ≠ Some (_RetryableStreamError code error ex)) →
  (∀ code error, r.2 ≠ Some (_TransientStreamError code error)) →
  (st_downstream_visible (pg_settlement q) = true → st_downstream_visible (pg_settlement r.1) = true) → adds p r.
Proof.
  intros (a & Ha & H1 & H2 & H3) (b & Hb & H4 & H5 & H6) Hnr Hnt Hv. exists (a ++ b). rewrite Hb, Ha, app_assoc, exchanges_app, reserved_app, H1, H2, H4, H5.
  split_and!; try done. destruct r as [r [[st d|code e ex|code e|code e|pm code|m|]|]]; simpl in *; try done; [|by destruct (Hnr code e ex)|by destruct (Hnt code e)].
  intros Hp Hr. destruct H3 as [[H3 H3']|H3]; [|rewrite Hv in Hr; done]. rewrite silent_app, H3'. simpl. apply H6; congruence.
Qed.

Lemma refused_visible status_code payload p : st_downstream_visible (pg_settlement p) = true →
  st_downstream_visible (pg_settlement (refused created c account preferred status_code payload p).1) = true.
Proof.
  intros H. unfold refused. destruct (rewrite_error c preferred _ _) as [[[rc rm] uc]|]; [|done].
  unfold blame_owner. by destruct uc.
Qed.

Lemma refused_raises status_code payload p :
  (refused created c account preferred status_code payload p).2 = None ∨
  (refused created c account preferred status_code payload p).2 = Some (ProxyResponseError status_code payload).
Proof. unfold refused. destruct (rewrite_error c preferred _ _) as [[[rc rm] uc]|]; auto. Qed.

Lemma rest_of_stream_spec lines ending p : adds p (rest_of_stream created c account preferred lines ending p).
Proof.
  unfold rest_of_stream. pose proof (lines_spec lines p) as Hg. set (q := fold_left _ lines p) in *. clearbody q.
  destruct ending as [|st payload|m|].
  - destruct Hg as (a & Ha & H1 & H2 & _). by exists a.
  - eapply grows_adds; [exact Hg|apply refused_spec| | |apply refused_visible]; intros; destruct (refused_raises st payload q) as [->| ->]; done.
  - destruct Hg as (a & Ha & H1 & H2 & _). by exists a.
  - destruct Hg as (a & Ha & H1 & H2 & _). by exists a.
Qed.

(** An exchange, from the history before it. *)
Lemma stream_once_spec retry transient sc seen h p raised :
  _stream_once created c account preferred retry transient sc seen h = (p, raised) →
  ∃ acts, pg_history p = h ++ Upstream account :: acts ∧ exchanges acts = 0 ∧ reserved acts = [] ∧
    match raised with
    | Some (_RetryableStreamError _ _ _ | _TransientStreamError _ _) => silent acts = true
    | Some (ProxyResponseError _ _) => st_downstream_visible (pg_settlement p) = false → silent acts = true
    | Some (RefreshError _ _) => False
    | _ => True
    end.
Proof.
  unfold _stream_once. set (p0 := started c account seen h).
  set (r := match sc_lines sc with [] => _ | _ => _ end). assert (adds p0 r) as Hr.
  { unfold r. destruct (sc_lines sc) as [|line rest]; [apply nothing_came_spec|].
    pose proof (first_line_spec retry transient line p0) as H.
    destruct (first_line created c account preferred retry transient line p0) as [q [e|]]; destruct H as [Hg He].
    - destruct Hg as (a & Ha & H1 & H2 & _). exists a. split_and!; try done. destruct e; simpl; try done; destruct He as [He _];
        rewrite Ha in He; apply app_nil_invr in He || (rewrite <- (app_nil_r (pg_history p0)) in He at 2; apply app_inv_head in He); by subst a.
    - destruct (rest_of_stream_spec rest (sc_end sc) q) as (b & Hb & H4 & H5 & H6).
      eapply grows_adds; [exact Hg|by exists b| | |].
      + intros code e ex He'. unfold rest_of_stream in He'. destruct (sc_end sc); try done. destruct (refused_raises status_code payload (fold_left (λ p line, next_line created c account preferred line p) rest q)) as [E|E]; by rewrite E in He'.
      + intros code e He'. unfold rest_of_stream in He'. destruct (sc_end sc); try done. destruct (refused_raises status_code payload (fold_left (λ p line, next_line created c account preferred line p) rest q)) as [E|E]; by rewrite E in He'.
      + intros Hv. unfold rest_of_stream. destruct (lines_spec rest q) as (la & _ & _ & _ & Hl).
        assert (st_downstream_visible (pg_settlement (fold_left (λ p line, next_line created c account preferred line p) rest q)) = true) as Hv'
          by (destruct Hl as [[Hl _]|Hl]; congruence).
        destruct (sc_end sc); try done. by apply refused_visible. }
  destruct r as [q e]. destruct Hr as (a & Ha & H1 & H2 & H3). cbn [fst snd] in *. intros [= <- <-].
  exists (a ++ [Logged (Some account) (pg_response_id q) (pg_status q) (pg_error_code q) (pg_error_message q)]).
  assert (pg_history (closed c account q) = pg_history q ++ [Logged (Some account) (pg_response_id q) (pg_status q) (pg_error_code q) (pg_error_message q)]) as Hc by done.
  rewrite Hc, Ha, exchanges_app, reserved_app, H1, H2. unfold p0. cbn [started pg_history]. rewrite <- !app_assoc. split_and!; try done.
  destruct e as [[st d|code e ex|code e|code e|pm code|m|]|]; try done; rewrite silent_app; [intros Hv; rewrite H3; done|by rewrite H3..].
Qed.


End Exchange.


(** ** The loop *)

Definition contacted (h : history) : list string := omap (λ x, match x with Upstream a => Some a | _ => None end) h.
Lemma contacted_app h k : contacted (h ++ k) = contacted h ++ contacted k.
Proof. apply omap_app. Qed.
Lemma calm_contacted h : exchanges h = 0 → contacted h = [].
Proof.
  unfold exchanges, contacted. induction h as [|x h IH]; [done|]. intros H. csimpl. destruct x; simpl in *; auto; done.
Qed.

Definition state_of (f : flow) : retrying := match f with Next s | Return s | Raise s _ => s end.
Definition over (f : flow) : bool := match f with Next _ => false | _ => true end.

Section Retry.
Context (created : Z) (c : call) (scoped : option (list string)).
Context (remaining : history → Q) (ask : history → option (list string) → list string → option selected).
Context (ensure_fresh : history → string → bool → freshness) (upstream : history → string → script) (settles : history → bool).
Context (preferred : option string) (require : bool).

(** There is a reservation to settle. *)
Definition holds_reservation : bool := match c_api_key c, c_reservation c with Some _, Some _ => true | _, _ => false end.

(** The acts on the reservation so far. *)
Definition closes (s : retrying) (acts : history) : Prop :=
  length (reserved acts) = (if rt_settled s && holds_reservation then 1 else 0) ∧ Forall (λ x, x.2 = true) (reserved acts).

(** The stream is over without another exchange. *)
Definition ends (s : retrying) (f : flow) : Prop :=
  over f = true ∧ ∃ acts, rt_history (state_of f) = rt_history s ++ acts ∧ exchanges acts = 0 ∧ closes (state_of f) acts.

(** At most [n] exchanges, all with accounts in [P]; one more if the stream is
    over; none after the client got something. *)
Definition good (P : string → Prop) (n : nat) (s : retrying) (f : flow) : Prop :=
  ∃ acts, rt_history (state_of f) = rt_history s ++ acts ∧ Forall P (contacted acts) ∧ replay_free acts = true ∧
    if over f then exchanges acts <= n + 1 ∧ closes (state_of f) acts
    else exchanges acts <= n ∧ silent acts = true ∧ reserved acts = [] ∧ rt_settled (state_of f) = false.

Lemma ends_good P n s f : ends s f → good P n s f.
Proof.
  intros [Ho (acts & Ha & He & Hc)]. exists acts. rewrite Ho. split_and!; [done|by rewrite calm_contacted|by apply calm_replay_free|lia|done].
Qed.

Lemma ends_return acts s : exchanges acts = 0 → reserved acts = [] → rt_settled s = false → ends s (Return (perform acts s)).
Proof. intros H1 H2 H3. split; [done|]. exists acts. split_and!; [done..|]. unfold closes. rewrite H2.
  change (0 = (if rt_settled s && holds_reservation then 1 else 0) ∧ Forall (λ x : effect * bool, x.2 = true) []). by rewrite H3.
Qed.

Lemma ends_raise s e : rt_settled s = false → ends s (Raise s e).
Proof. intros H. split; [done|]. exists []. rewrite app_nil_r. split_and!; [done..|]. unfold closes. simpl. by rewrite H. Qed.

Lemma ends_after s s' acts f : rt_history s' = rt_history s ++ acts → exchanges acts = 0 → reserved acts = [] → ends s' f → ends s f.
Proof.
  intros Hh He Hr [Ho (acts' & Ha & He' & Hc)]. split; [done|]. exists (acts ++ acts').
  rewrite Ha, Hh, app_assoc, exchanges_app, He, He'. split_and!; [done..|]. unfold closes in *. by rewrite reserved_app, Hr.
Qed.

Lemma good_after P n k s s' acts f : rt_history s' = rt_history s ++ acts → exchanges acts <= k → silent acts = true → reserved acts = [] →
  Forall P (contacted acts) → good P n s' f → good P (k + n) s f.
Proof.
  intros Hh He Hs Hr HP (acts' & Ha & HP' & Hf & Ho). exists (acts ++ acts').
  rewrite Ha, Hh, app_assoc, contacted_app, replay_free_silent, exchanges_app by done. split_and!; [done|by apply Forall_app|done|].
  destruct (over f).
  - destruct Ho as [He' Hc]. split; [lia|]. unfold closes in *. by rewrite reserved_app, Hr.
  - destruct Ho as (He' & Hs' & Hr' & Hst). rewrite silent_app, reserved_app, Hs, Hs', Hr, Hr'. split_and!; [lia|done..].
Qed.

Lemma good_quiet P n s s' acts f : rt_history s' = rt_history s ++ acts → forallb background acts = true → good P n s' f → good P n s f.
Proof.
  intros Hh (H1 & H2 & H3)%background_spec. apply (good_after P n 0 s s' acts f); [done|lia|done|done|by rewrite calm_contacted].
Qed.

Lemma good_next P n acts s s' : rt_history s' = rt_history s ++ acts → forallb background acts = true → rt_settled s' = false → good P n s (Next s').
Proof.
  intros Hh (H1 & H2 & H3)%background_spec Hs. exists acts. split_and!; [done|by rewrite calm_contacted|by apply calm_replay_free|].
  simpl. split_and!; [lia|done..].
Qed.

Lemma good_weaken P n m s f : n <= m → good P n s f → good P m s f.
Proof. intros H (acts & Ha & HP & Hf & Ho). exists acts. split_and!; [done..|]. destruct (over f); naive_solver lia. Qed.

(** After an exchange of which the client may have seen something. *)
Lemma good_exchange (P : string → Prop) n s s' account acts f : rt_history s' = rt_history s ++ Upstream account :: acts →
  exchanges acts = 0 → reserved acts = [] → P account → ends s' f → good P n s f.
Proof.
  intros Hh He Hr HP [Ho (acts' & Ha & He' & Hc)]. exists (Upstream account :: acts ++ acts'). rewrite Ha, Hh, Ho. split_and!.
  - by rewrite <- app_assoc.
  - csimpl. change (Forall P (account :: contacted (acts ++ acts'))). rewrite contacted_app, !calm_contacted by done. by repeat constructor.
  - simpl. apply calm_replay_free. rewrite exchanges_app. lia.
  - change (S (exchanges (acts ++ acts')) <= n + 1). rewrite exchanges_app. lia.
  - unfold closes in *. change (reserved (Upstream account :: acts ++ acts')) with (reserved (acts ++ acts')). by rewrite reserved_app, Hr.
Qed.

(** *** The proxy's own answers *)

Lemma timed_out_ends a s : rt_settled s = false → ends s (timed_out created c a s).
Proof. by apply ends_return. Qed.
Lemma unreachable_ends a m s : rt_settled s = false → ends s (unreachable created c a m s).
Proof. by apply ends_return. Qed.
Lemma owner_unavailable_ends s : rt_settled s = false → ends s (owner_unavailable created c preferred s).
Proof. by apply ends_return. Qed.
Lemma streaming_failed_ends s : rt_settled s = false → ends s (streaming_failed created c s).
Proof. by apply ends_return. Qed.

Lemma refresh_failed_good P n a pm code s : rt_settled s = false → good P n s (refresh_failed a pm code s).
Proof. intros H. unfold refresh_failed. destruct pm; [by eapply good_next|]. eapply (good_next _ _ []); by rewrite ?app_nil_r. Qed.

Lemma no_account_ends sel s : rt_settled s = false → ends s (no_account created c preferred require sel s).
Proof.
  intros H. unfold no_account. case_if; [by apply owner_unavailable_ends|].
  destruct (if c_propagate_http_errors c then last_transient_exc s else None) as [[st pl]|]; [by apply ends_raise|].
  destruct (last_retryable_stream_error s) as [[code e]|]; by apply ends_return.
Qed.

Lemma attempts_used_up_ends s : rt_settled s = false → ends s (attempts_used_up created c s).
Proof.
  intros H. unfold attempts_used_up. destruct (if c_propagate_http_errors c then last_transient_exc s else None) as [[st pl]|]; [by apply ends_raise|].
  destruct (last_retryable_stream_error s) as [[code e]|]; apply ends_return; try done; by destruct (any_attempt_logged s).
Qed.

Lemma settle_ends settlement s : ends s (settle c settles settlement s).
Proof.
  split; [done|]. unfold settle. set (ok := match c_api_key c, c_reservation c with Some _, Some _ => _ | _, _ => true end).
  set (told := map OnReservation (_settle_stream_api_key_usage (c_api_key c) (c_reservation c) settlement)).
  exists (if ok then told else []). split_and!; [done| |].
  - destruct ok; [|done]. unfold told, exchanges. by induction (_settle_stream_api_key_usage (c_api_key c) (c_reservation c) settlement).
  - unfold closes, holds_reservation. cbn [state_of rt_settled]. unfold ok, told, _settle_stream_api_key_usage.
    destruct (c_api_key c), (c_reservation c); try done. cbn [rt_settled]. destruct (settles (rt_history s)); [|done]. cbn [andb].
    repeat case_match; by repeat constructor.
Qed.

Lemma finished_ends a settlement s : ends s (finished c settles a settlement s).
Proof.
  unfold finished. destruct (account_health_error settlement).
  - pose proof (handled_background a (_stream_settlement_error_payload settlement) (or_s (st_error_code settlement) "upstream_error") None) as (H1 & H2 & H3)%background_spec.
    by eapply ends_after; [..|apply settle_ends].
  - destruct (record_success settlement); [by eapply (ends_after _ _ [_]); [..|apply settle_ends]|apply settle_ends].
Qed.

Lemma surface_visible_ends a raised settlement s : ends s (surface_visible created c settles a raised settlement s).
Proof.
  unfold surface_visible. destruct (match raised with ProxyResponseError _ _ => _ | _ => _ end) as [[[block code] message] told] eqn:Eb.
  assert (exchanges [block] = 0 ∧ reserved [block] = []) as [H1 H2] by (destruct raised; by injection Eb as <- <- <- <-).
  cbn zeta. match goal with |- ends s (settle _ _ ?st ?s') => set (settlement' := st); set (s1 := s') end.
  assert (∃ acts, rt_history s1 = rt_history s ++ acts ∧ exchanges acts = 0 ∧ reserved acts = []) as (acts & Ha & He & Hr).
  { unfold s1. case_if.
    - match goal with |- context [_handle_stream_error a ?e ?k None] => pose proof (handled_background a e k None) as (G1 & G2 & G3)%background_spec;
        exists (block :: (_handle_stream_error a e k None).1) end.
      change (block :: ?l) with ([block] ++ l). rewrite exchanges_app, reserved_app, H1, H2, G1, G3. split_and!; [|done..]. simpl. by rewrite <- app_assoc.
    - by exists [block]. }
  eapply ends_after; [exact Ha|done..|apply settle_ends].
Qed.

(** *** Exceptions *)

Notation handle := (handle created c remaining ensure_fresh upstream settles).
Notation retry_unauthorized := (retry_unauthorized created c remaining ensure_fresh upstream settles).

Lemma retry_unauthorized_good a seen s : rt_settled s = false → good (eq a) 0 s (retry_unauthorized a seen s).
Proof.
  intros Hs. unfold HttpStream.retry_unauthorized. case_if; [by apply ends_good, timed_out_ends|].
  set (s1 := perform [Refreshed a true] s). assert (rt_settled s1 = false) as Hs1 by done.
  eapply (good_quiet _ _ s s1 [Refreshed a true]); [done..|]. clearbody s1. clear Hb.
  destruct (ensure_fresh (rt_history s) a true) as [|pm code|m|st pl|].
  - case_if; [by apply ends_good, timed_out_ends|].
    destruct (_stream_once created c a None false false (upstream (rt_history s1) a) seen (rt_history s1)) as [p raised] eqn:E.
    apply stream_once_spec in E as (acts & Ha & He & Hr & _).
    set (s2 := s1 {{ rt_history := pg_history p }}). assert (rt_settled s2 = false) as Hs2 by done.
    eapply (good_exchange _ _ s1 s2 a acts); [done..|]. destruct raised; [by apply ends_raise|apply finished_ends].
  - by apply refresh_failed_good.
  - by apply ends_good, unreachable_ends.
  - by apply ends_good, ends_raise.
  - by apply ends_good, ends_raise.
Qed.

(** Exceptions that end the stream. *)
Definition final (e : exn) : bool := match e with _TerminalStreamError _ _ | _TransientStreamError _ _ | ClientError _ | OtherError => true | _ => false end.

Lemma handle_final a e seen s : final e = true → rt_settled s = false → ends s (handle a e seen s).
Proof.
  intros Hf Hs. destruct e as [st d|code e ex|code e|code e|pm code|m|]; try done; cbn [HttpStream.handle]; try (by apply streaming_failed_ends).
  case_if; [|eapply (ends_return []) in Hs; [|done..]; unfold perform in Hs; destruct s; simpl in *; by rewrite app_nil_r in Hs].
  pose proof (handled_background a e code None) as (H1 & _ & H3)%background_spec. by apply ends_return.
Qed.

Lemma handle_good a e seen s : rt_settled s = false → good (eq a) 0 s (handle a e seen s).
Proof.
  intros Hs. destruct (final e) eqn:Ef; [by apply ends_good, handle_final|].
  destruct e as [st d|code e ex|code e|code e|pm code|m|]; try done; cbn [HttpStream.handle].
  - unfold proxy_error. case_if; [by apply retry_unauthorized_good|]. apply ends_good.
    set (s1 := if _should_penalize_stream_error _ then _ else s).
    assert (rt_settled s1 = false ∧ ∃ acts, rt_history s1 = rt_history s ++ acts ∧ forallb background acts = true) as (Hs1 & acts & Ha & Hb').
    { unfold s1. case_if; [split; [done|]; eexists; split; [done|apply handled_background]|]. split; [done|]. exists []. by rewrite app_nil_r. }
    apply background_spec in Hb' as (H1 & _ & H3). eapply ends_after; [exact Ha|done..|]. case_if; [by apply ends_raise|by apply ends_return].
  - destruct ex; (eapply good_next; [done|apply handled_background|done]).
  - by apply refresh_failed_good.
Qed.

Lemma given_up_good a e retries s : rt_settled s = false → good (eq a) 0 s (given_up a e retries s).
Proof.
  intros Hs. unfold given_up. destruct (match e with ProxyResponseError _ _ => _ | _ => _ end) as [code error].
  eapply (good_next _ _ ((_handle_stream_error a error code None).1 ++ [RecordErrors a (retries - 1)])).
  - destruct e; simpl; by rewrite app_assoc.
  - rewrite forallb_app, handled_background. done.
  - by destruct e.
Qed.

Lemma refused_by_good a n st pl seen s : rt_settled s = false →
  good (eq a) 0 s (refused_by created c remaining ensure_fresh upstream settles a n st pl seen s).
Proof.
  intros Hs. unfold refused_by. case_if; [by apply handle_good|].
  destruct (_handle_stream_error a _ _ (Some st)) as [told class] eqn:E.
  assert (forallb background told = true) as Ht by (change told with (told, class).1; rewrite <- E; apply handled_background).
  set (s1 := perform told s). assert (rt_history s1 = rt_history s ++ told ∧ rt_settled s1 = false) as [Hh Hs1] by done. clearbody s1.
  destruct (if c_deterministic_failover_enabled c then _ else surface).
  all: first [by apply (good_next _ _ told)|eapply (good_quiet _ _ s s1 told); [done..|by apply handle_good]].
Qed.

(** What follows an exchange with an account: the end, or what at most [spare]
    more exchanges do if the client got nothing. *)
Definition after_exchange (a : string) (spare : nat) (s : retrying) (p : progress) (raised : option exn) (f : flow) : Prop :=
  let s1 := s {{ rt_history := pg_history p }} in
  ends s1 f ∨
  match raised with
  | Some (_RetryableStreamError _ _ _ | _TransientStreamError _ _ | RefreshError _ _) => good (eq a) spare s1 f
  | Some (ProxyResponseError _ _) => st_downstream_visible (pg_settlement p) = false ∧ good (eq a) spare s1 f
  | _ => False
  end.
(** [f] is the outcome of an exchange and what follows. *)
Definition exchanged (a : string) (spare : nat) (s : retrying) (f : flow) : Prop :=
  ∃ retry transient seen p raised,
    _stream_once created c a preferred retry transient (upstream (rt_history s) a) seen (rt_history s) = (p, raised) ∧
    after_exchange a spare s p raised f.

Lemma exchanged_begins a spare s f : exchanged a spare s f → ∃ acts, rt_history (state_of f) = rt_history s ++ Upstream a :: acts.
Proof.
  intros (retry & transient & seen & p & raised & (acts & Ha & _)%stream_once_spec & Hf).
  assert (∃ acts', rt_history (state_of f) = pg_history p ++ acts') as [acts' H].
  { destruct Hf as [(_ & acts' & H & _)|Hf]; [eauto|].
    destruct raised as [[]|]; try done; [destruct Hf as [_ (acts' & H & _)]|destruct Hf as (acts' & H & _)..]; eauto. }
  exists (acts ++ acts'). by rewrite H, Ha, <- app_assoc.
Qed.

Lemma exchange_good a spare s f : exchanged a spare s f → rt_settled s = false → good (eq a) (S spare) s f.
Proof.
  intros (retry & transient & seen & p & raised & (acts & Ha & He & Hr & Hm)%stream_once_spec & Hf) Hs. unfold after_exchange in Hf.
  set (s1 := s {{ rt_history := pg_history p }}) in *.
  assert (rt_history s1 = rt_history s ++ Upstream a :: acts) as Hh by done.
  destruct Hf as [Hf|Hf]; [by eapply good_exchange|].
  assert (silent acts = true → good (eq a) spare s1 f → good (eq a) (S spare) s f) as Hgo.
  { intros Hsil. apply (good_after _ _ 1 s s1 (Upstream a :: acts)); [done|change (S (exchanges acts) <= 1); lia|done|done|].
    change (Forall (eq a) (a :: contacted acts)). rewrite calm_contacted by done. by repeat constructor. }
  destruct raised as [[]|]; try done; [|by apply Hgo..]. destruct Hf as [Hv Hf]. apply Hgo; auto.
Qed.

Lemma same_account_exchanged spare a n seen s : rt_settled s = false →
  exchanged a spare s (same_account created c remaining ensure_fresh upstream settles preferred spare a n seen s).
Proof.
  revert seen s. induction spare as [|spare IH]; intros seen s Hs; cbn [same_account];
    (destruct (_stream_once created c a preferred _ _ (upstream (rt_history s) a) seen (rt_history s)) as [p raised] eqn:E);
    (eexists _, _, _, p, raised; split; [exact E|]); unfold after_exchange; set (s1 := s {{ rt_history := pg_history p }}); assert (rt_settled s1 = false) as Hs1 by done;
    (destruct raised as [[st pl|code e ex|code e|code e|pm code|m|]|]; [case_if; [left; apply surface_visible_ends|right; split; [done|]]
      |right; apply (good_weaken _ 0); [lia|by apply handle_good]|case_if; [left; apply surface_visible_ends|right]|left; by apply handle_final
      |right; apply (good_weaken _ 0); [lia|by apply handle_good]|left; by apply handle_final..|left; apply finished_ends]).
  - case_if; [by apply refused_by_good|by apply given_up_good].
  - by apply given_up_good.
  - case_if; [apply (good_weaken _ 0); [lia|by apply refused_by_good]|]. case_if; [|apply (good_weaken _ 0); [lia|by apply given_up_good]].
    eapply (good_quiet _ _ s1 (perform [Slept] s1) [Slept]); [done..|]. apply exchange_good; [by apply IH|done].
  - case_if; [|apply (good_weaken _ 0); [lia|by apply given_up_good]].
    eapply (good_quiet _ _ s1 (perform [Slept] s1) [Slept]); [done..|]. apply exchange_good; [by apply IH|done].
Qed.

Lemma same_account_good spare a n seen s : rt_settled s = false →
  good (eq a) (S spare) s (same_account created c remaining ensure_fresh upstream settles preferred spare a n seen s).
Proof. intros Hs. apply exchange_good; [by apply same_account_exchanged|done]. Qed.

(** *** Attempts *)

Lemma attempt_account_good a n s : rt_settled s = false →
  good (eq a) 3 s (attempt_account created c remaining ensure_fresh upstream settles preferred a n s).
Proof.
  intros Hs. unfold attempt_account. case_if; [by apply ends_good, timed_out_ends|].
  set (s1 := perform [Refreshed a false] s). assert (rt_settled s1 = false) as Hs1 by done.
  eapply (good_quiet _ _ s s1 [Refreshed a false]); [done..|]. clearbody s1. clear Hb.
  destruct (ensure_fresh (rt_history s) a false) as [|pm code|m|st pl|].
  - set (s2 := s1 {{ any_attempt_logged := true }}). eapply (good_quiet _ _ s1 s2 []); [by rewrite app_nil_r|done|].
    case_if; [by apply ends_good, timed_out_ends|by apply same_account_good].
  - apply (good_weaken _ 0); [lia|by apply handle_good].
  - by apply ends_good, unreachable_ends.
  - apply (good_weaken _ 0); [lia|by apply handle_good].
  - apply (good_weaken _ 0); [lia|by apply handle_good].
Qed.

Lemma select_spec excluded h : let '(h', _) := _select_account_with_budget scoped remaining ask preferred excluded h in
  ∃ acts, h' = h ++ acts ∧ forallb background acts = true.
Proof.
  assert (∀ h0 acts, h0 = h ++ acts → forallb background acts = true → ∃ acts', h0 ++ [Asked scoped excluded] = h ++ acts' ∧ forallb background acts' = true) as Hask.
  { intros h0 acts -> H. exists (acts ++ [Asked scoped excluded]). rewrite app_assoc, forallb_app, H. done. }
  assert (∃ acts, h = h ++ acts ∧ forallb background acts = true) as Hnil by (exists []; by rewrite app_nil_r).
  unfold _select_account_with_budget. case_if; [done|].
  destruct (match preferred with Some a => _ | None => (h, None) end) as [h0 first] eqn:E.
  assert (∃ acts, h0 = h ++ acts ∧ forallb background acts = true) as Hh0.
  { destruct preferred as [a|]; [|injection E as <- _; exact Hnil]. revert E. case_if; intros E; injection E as <- _; [by eexists [_]|exact Hnil]. }
  destruct Hh0 as (acts0 & Hh0 & Hb0).
  assert (∃ acts', h0 ++ [Asked scoped excluded] = h ++ acts' ∧ forallb background acts' = true) as Hlast by (by eapply Hask).
  destruct first as [[[[a|] m e]|]|]; [by exists acts0| |by exists acts0|]; cbn zeta;
    (destruct (ask h0 scoped excluded) as [sel|]; [destruct (sel_account sel); [case_if|]|]; exact Hlast).
Qed.

(** The owner of the response the request continues, when it must be used. *)
Definition allowed (a : string) : Prop := require && bool_decide (is_Some preferred) = true → preferred = Some a.

Lemma attempt_once_good n s : rt_settled s = false →
  good allowed 3 s (attempt_once created c scoped remaining ask ensure_fresh upstream settles preferred require n s).
Proof.
  intros Hs. unfold attempt_once. case_if; [by apply ends_good, timed_out_ends|].
  pose proof (select_spec (rt_excluded s) (rt_history s)) as Hsel.
  destruct (_select_account_with_budget scoped remaining ask preferred (rt_excluded s) (rt_history s)) as [h answer].
  destruct Hsel as (acts & -> & Hb1). set (s1 := s {{ rt_history := rt_history s ++ acts }}). assert (rt_settled s1 = false) as Hs1 by done.
  eapply (good_quiet _ _ s s1 acts); [done..|]. clearbody s1. clear Hb.
  destruct answer as [sel|[st pl|code e ex|code e|code e|pm code|m|]]; [|case_if; [by apply ends_good, timed_out_ends|by apply ends_good, ends_return]|by apply ends_good, ends_raise..].
  destruct (sel_account sel) as [a|]; [|by apply ends_good, no_account_ends].
  destruct (require && bool_decide (is_Some preferred) && negb (bool_decide (preferred = Some a))) eqn:Eo; [by apply ends_good, owner_unavailable_ends|].
  destruct (attempt_account_good a n s1 Hs1) as (acts' & Ha & HP & Hf & Hrest). exists acts'. split_and!; [done| |done|done].
  eapply Forall_impl; [exact HP|]. intros x <- Hreq. rewrite Hreq in Eo. simpl in Eo. by apply negb_false_iff, bool_decide_eq_true in Eo.
Qed.

Lemma attempt_loop_good attempts s : rt_settled s = false →
  let f := attempt_loop created c scoped remaining ask ensure_fresh upstream settles preferred require attempts s in
  over f = true ∧ good allowed (3 * length attempts) s f.
Proof.
  revert s. induction attempts as [|n rest IH]; intros s Hs; cbn [attempt_loop].
  - pose proof (attempts_used_up_ends s Hs) as H. split; [by destruct H|by apply ends_good].
  - pose proof (attempt_once_good n s Hs) as H.
    destruct (attempt_once created c scoped remaining ask ensure_fresh upstream settles preferred require n s) as [s'|s'|s' e].
    + destruct H as (acts & Ha & HP & Hf & He & Hsil & Hr & Hst). cbn [state_of] in *. destruct (IH s' Hst) as [Ho Hg]. split; [done|].
      replace (3 * length (n :: rest)) with (3 + 3 * length rest) by (simpl; lia). by eapply good_after.
    + split; [done|]. eapply good_weaken; [|exact H]. simpl. lia.
    + split; [done|]. eapply good_weaken; [|exact H]. simpl. lia.
Qed.

(** The load balancer offers the account when it is asked for it, its tokens are
    fresh, and there is time. *)
Definition serves (a : string) : Prop :=
  (∀ h, qle (remaining h) 0 = false) ∧ in_scope scoped a = true ∧
  (∀ h, ∃ m e, ask h (Some [a]) [] = Some {| sel_account := Some a; sel_error_message := m; sel_error_code := e |}) ∧
  ∀ h, ensure_fresh h a false = Fresh.

(** The first attempt is an exchange with the preferred account. *)
Lemma first_attempt_preferred a n : preferred = Some a → serves a →
  ∃ acts, rt_history (state_of (attempt_once created c scoped remaining ask ensure_fresh upstream settles preferred require n new_retrying))
          = Asked (Some [a]) [] :: Refreshed a false :: Upstream a :: acts.
Proof.
  intros Hp (Hr & Hsc & Hask & Hf). unfold attempt_once, _select_account_with_budget. rewrite !Hr, Hp. cbn [new_retrying rt_excluded rt_history mem existsb].
  rewrite Hsc. destruct (Hask []) as (m & e & ->). cbn -[attempt_account]. rewrite bool_decide_true, andb_false_r by done.
  unfold attempt_account. rewrite Hr, Hf, Hr. rewrite <- Hp.
  match goal with |- context [state_of ?f] => match f with context [same_account _ _ _ _ _ _ _ _ _ _ _ ?s] =>
    destruct (exchanged_begins a 2 s f) as [acts H]; [by apply same_account_exchanged|] end end.
  exists acts. exact H.
Qed.

Context (releases : history → bool).

(** What happens to the reservation in a whole run: one act if there is one to
    settle, none otherwise; and the act takes effect if releases do. *)
Definition closed_once (h : history) : Prop :=
  length (reserved h) = (if holds_reservation then 1 else 0) ∧
  ((∀ k, releases k = true) → Forall (λ x, x.2 = true) (reserved h)).

Lemma released_spec s : ∃ acts, rt_history (released c releases s) = rt_history s ++ acts ∧ exchanges acts = 0 ∧
  length (reserved acts) = (if holds_reservation then if rt_settled s then 0 else 1 else 0) ∧
  ((∀ k, releases k = true) → Forall (λ x, x.2 = true) (reserved acts)).
Proof.
  unfold released, holds_reservation. destruct (c_api_key c), (c_reservation c); try (exists []; by rewrite app_nil_r).
  destruct (rt_settled s); [exists []; by rewrite app_nil_r|]. unfold _release_unsettled_stream_api_key_usage. eexists. split; [done|].
  destruct (releases (rt_history s)) eqn:E; split_and!; try done; intros H; [by repeat constructor|by rewrite H in E].
Qed.

Lemma loop_contacts_preferred a : preferred = Some a → serves a →
  head (contacted (stream_loop created c scoped remaining ask ensure_fresh upstream settles preferred require releases).1) = Some a.
Proof.
  intros Hp Hs. unfold stream_loop.
  destruct (first_attempt_preferred a 0 Hp Hs) as [acts H]. pose proof (attempt_once_good 0 new_retrying eq_refl) as Hg.
  set (f := attempt_loop created c scoped remaining ask ensure_fresh upstream settles preferred require _ new_retrying).
  assert (∃ acts', rt_history (state_of f) = Asked (Some [a]) [] :: Refreshed a false :: Upstream a :: acts') as [acts' H'].
  { unfold f. change (seq 0 _STREAM_MAX_ACCOUNT_ATTEMPTS) with (0 :: [1; 2]). remember [1; 2] as rest eqn:E. cbn [attempt_loop].
    destruct (attempt_once created c scoped remaining ask ensure_fresh upstream settles preferred require 0 new_retrying) as [s|s|s e]; [|eauto..].
    destruct Hg as (acts0 & _ & _ & _ & _ & _ & _ & Hst). destruct (attempt_loop_good rest s Hst) as [_ (acts' & Ha & _)].
    exists (acts ++ acts'). cbn [state_of] in H. by rewrite Ha, H. }
  clearbody f. destruct (released_spec (state_of f)) as (rest & Hr & _). rewrite H' in Hr.
  destruct f as [s|s|s e]; cbn [state_of fst] in Hr |- *; by rewrite Hr.
Qed.

Lemma stream_loop_spec : let '(h, _) := stream_loop created c scoped remaining ask ensure_fresh upstream settles preferred require releases in
  Forall allowed (contacted h) ∧ replay_free h = true ∧ exchanges h <= 10 ∧ closed_once h.
Proof.
  unfold stream_loop. destruct (attempt_loop_good (seq 0 _STREAM_MAX_ACCOUNT_ATTEMPTS) new_retrying eq_refl) as [Ho Hg].
  set (f := attempt_loop created c scoped remaining ask ensure_fresh upstream settles preferred require _ new_retrying) in *. clearbody f.
  destruct Hg as (acts & Ha & HP & Hf & Hrest). rewrite Ho in Hrest. destruct Hrest as [He Hc]. simpl in Ha, He.
  destruct (released_spec (state_of f)) as (acts' & Ha' & He' & Hr' & Ht').
  assert (let h := rt_history (released c releases (state_of f)) in
    Forall allowed (contacted h) ∧ replay_free h = true ∧ exchanges h <= 10 ∧ closed_once h) as H.
  { cbn zeta. unfold closed_once. rewrite Ha', Ha, contacted_app, exchanges_app, reserved_app, length_app, Hr', (calm_contacted acts'), app_nil_r by done.
    destruct Hc as [Hc Ht]. rewrite Hc.
    split_and!; [done|by apply replay_free_calm; [..|apply calm_replay_free]|lia|by destruct (rt_settled (state_of f)), holds_reservation|].
    intros H. apply Forall_app. auto. }
  by destruct f.
Qed.

End Retry.

(** ** The stream as a whole *)

Section Stream.
Context (created : Z) (c : call) (scoped : option (list string)).
Context (remaining : history → Q) (ask : history → option (list string) → list string → option selected).
Context (ensure_fresh : history → string → bool → freshness) (upstream : history → string → script) (settles : history → bool).
Context (sr : surroundings).
Notation stream := (_stream_with_retry created c scoped remaining ask ensure_fresh upstream settles sr).

(** The account a request must stay on. *)
Definition bound_to : option string :=
  match c_previous_response_id c, sr_owner sr with Some _, Ok (Some a) => Some a | _, _ => None end.


(** The owner is contacted, and first, if it serves. *)
Lemma owner_contacted prev a : c_previous_response_id c = Some prev → sr_owner sr = Ok (Some a) → is_ok (prologue c sr) = true →
  serves scoped remaining ask ensure_fresh a → head (contacted stream.1) = Some a.
Proof.
  intros Hp Ho Hpr Hs. unfold _stream_with_retry. destruct (prologue c sr); [|done]. rewrite Hp, Ho. by apply loop_contacts_preferred.
Qed.

Lemma stream_spec : Forall (λ a, from_option (eq a) True bound_to) (contacted stream.1) ∧ replay_free stream.1 = true ∧
  exchanges stream.1 <= 10 ∧ (is_ok (prologue c sr) = true → closed_once c (sr_releases sr) stream.1).
Proof.
  assert (∀ preferred require, (∀ a, allowed preferred require a → from_option (eq a) True bound_to) →
    let h := (stream_loop created c scoped remaining ask ensure_fresh upstream settles preferred require (sr_releases sr)).1 in
    Forall (λ a, from_option (eq a) True bound_to) (contacted h) ∧ replay_free h = true ∧
    exchanges h <= 10 ∧ (is_ok (prologue c sr) = true → closed_once c (sr_releases sr) h)) as Hrun.
  { intros preferred require Hal. pose proof (stream_loop_spec created c scoped remaining ask ensure_fresh upstream settles preferred require (sr_releases sr)) as H.
    destruct (stream_loop created c scoped remaining ask ensure_fresh upstream settles preferred require (sr_releases sr)) as [h e].
    destruct H as (H1 & H2 & H3 & H4). split_and!; try done. by eapply Forall_impl. }
  unfold _stream_with_retry, bound_to in *. destruct (prologue c sr) as [rewritten|e].
  2:{ split_and!; [apply Forall_nil_2|done|apply (Nat.le_0_l 10)|done]. }
  destruct (c_previous_response_id c); [destruct (sr_owner sr) as [[a|]|e]|].
  - apply Hrun. intros a' Ha'. specialize (Ha' eq_refl). by injection Ha' as ->.
  - by apply Hrun.
  - destruct (released_spec c (sr_releases sr) new_retrying) as (acts & Ha & He & Hr). simpl in Ha |- *. rewrite Ha. unfold closed_once. simpl in Hr.
    rewrite calm_contacted, calm_replay_free, He by done. split_and!; [done..|lia|done].
  - by apply Hrun.
Qed.

End Stream.

(** C6. Once the client got a piece of the response, no exchange with an upstream
    account begins: a response that is visible is never started again, whatever
    the upstream, the load balancer and the clock do. *)
Theorem no_replay_after_output created c scoped remaining ask ensure_fresh upstream settles sr :
  replay_free (_stream_with_retry created c scoped remaining ask ensure_fresh upstream settles sr).1 = true.
Proof. apply stream_spec. Qed.

(** A request takes at most ten upstream exchanges: three attempts of three
    exchanges each, and one more after the tokens were refreshed. *)
Theorem stream_attempts_bounded created c scoped remaining ask ensure_fresh upstream settles sr :
  exchanges (_stream_with_retry created c scoped remaining ask ensure_fresh upstream settles sr).1 <= 10.
Proof. apply stream_spec. Qed.


(** A request that continues a response whose owner is known is only ever sent
    to the owner's account. *)
Theorem owner_only created c scoped remaining ask ensure_fresh upstream settles sr previous a :
  c_previous_response_id c = Some previous → sr_owner sr = Ok (Some a) →
  Forall (eq a) (contacted (_stream_with_retry created c scoped remaining ask ensure_fresh upstream settles sr).1).
Proof.
  intros Hp Ho. eapply Forall_impl; [apply stream_spec|]. intros a'. unfold bound_to. rewrite Hp, Ho. simpl. done.
Qed.

(** ** Failures that are not handled as meant *)

(** An error response other than 401 and 500 that is not handed to another
    account is reported to the load balancer by the handler of the exchange and
    once more by the handler of the attempt: the account is blamed twice for one
    failure. *)
Theorem surfaced_failure_blamed_twice created c remaining ensure_fresh upstream settles account attempt status payload seen s :
  let error := _parse_openai_error payload in
  let told http_status := (_handle_stream_error account (_upstream_error_from_openai error) (code_of error) http_status).1 in
  status ≠ 401%Z → c_deterministic_failover_enabled c = false ∨ _STREAM_MAX_ACCOUNT_ATTEMPTS <= S attempt → _should_penalize_stream_error (Some (code_of error)) = true →
  _is_account_neutral_error_code (Some (code_of error)) = false →
  let f := refused_by created c remaining ensure_fresh upstream settles account attempt status payload seen s in
  ∃ shown, rt_history (state_of f) = rt_history s ++ told (Some status) ++ told None ++ shown ∧
    shown = if c_propagate_http_errors c then []
            else [error_event_block created error (code_of error) "Upstream error" (c_request_id c) (param_of error)].
Proof.
  intros error told Hst Hfo Hpen Hneu f. unfold f, refused_by. fold error. rewrite Hneu.
  pose proof (eq_refl (told (Some status))) as Et. unfold told at 1 in Et.
  destruct (_handle_stream_error account _ _ (Some status)) as [t class]. cbn [fst] in Et.
  replace (if c_deterministic_failover_enabled c then _ else surface) with surface.
  2:{ destruct Hfo as [->|Hn]; [done|]. destruct (c_deterministic_failover_enabled c); [|done]. unfold failover_decision.
      by rewrite (proj2 (Z.leb_le _ _)) by lia. }
  cbn [handle]. unfold proxy_error. rewrite (proj2 (Z.eqb_neq _ _) Hst). fold error. rewrite Hpen.
  eexists. split; [|reflexivity]. destruct (c_propagate_http_errors c); cbn; subst t; by rewrite <- ?app_assoc, ?app_nil_r.
Qed.

(** *** Samples *)

Definition sample_call : call :=
  {| c_request_id := "req_1"; c_model := "gpt-5"; c_input := JStr "Hello"; c_previous_response_id := None; c_service_tier := None;
     c_propagate_http_errors := true; c_suppress_text_done_events := false; c_api_key := Some "key";
     c_reservation := Some {| reservation_id := "rsv_1"; rv_model := "gpt-5" |}; c_deterministic_failover_enabled := true |}.
Definition overloaded : dict json := openai_error "server_error" "busy" "server_error".
Definition expired : dict json := openai_error "invalid_api_key" "expired" "invalid_request_error".
Definition failed_line : string := failed_block 0 "invalid_request_error" "no such model" "resp_1".

(** The accounts in order, the excluded ones left out. *)
Definition in_turn (accounts : list string) (_ : history) (_ : option (list string)) (excluded : list string) : option selected :=
  Some {| sel_account := head (List.filter (λ a, negb (mem a excluded)) accounts); sel_error_message := None; sel_error_code := None |}.

(** Everything the generator asks for before the loop succeeds. *)
Definition calm_surroundings (owner : option string) : surroundings :=
  {| sr_settings := None; sr_rewritten_file_account := None; sr_file_account := None; sr_file_account_again := None;
     sr_owner := Ok owner; sr_releases := λ _, true |}.

Definition sample_stream (c : call) (accounts : list string) (upstream : history → string → script) : history * option exn :=
  _stream_with_retry 0 c None (λ _, 60%Q) (in_turn accounts) (λ _ _ _, Fresh) upstream (λ _, true) (calm_surroundings None).

(** A stream that fails on its first line. *)
Definition fails (_ : history) (_ : string) : script := {| sc_lines := [failed_line]; sc_end := Finished |}.
(** The same after the tokens were refused once. *)
Definition fails_once_refreshed (h : history) (a : string) : script :=
  if Nat.eqb (exchanges h) 0 then {| sc_lines := []; sc_end := Refused 401 expired |} else fails h a.

(** An exception of the exchange that follows a token refresh is not caught by
    the handlers of the attempt: a failed response that otherwise ends the
    stream normally makes the generator raise after the client was told. *)
Theorem post_refresh_failure_escapes :
  (sample_stream sample_call ["a"] fails).2 = None ∧
  (∃ error, (sample_stream sample_call ["a"] fails_once_refreshed).2 = Some (_TerminalStreamError "invalid_request_error" error)) ∧
  List.filter is_yield (sample_stream sample_call ["a"] fails).1 = List.filter is_yield (sample_stream sample_call ["a"] fails_once_refreshed).1.
Proof. split_and!; [by vm_compute|eexists; by vm_compute|by vm_compute]. Qed.

Lemma surfaced_failure_blamed_twice_witness :
  ∃ shown, rt_history (state_of (refused_by 0 sample_call (λ _, 60%Q) (λ _ _ _, Fresh) fails (λ _, true) "a" 2 503 overloaded [] new_retrying))
    = [] ++ [RecordErrors "a" 1] ++ [RecordErrors "a" 1] ++ shown ∧ shown = [].
Proof.
  apply (surfaced_failure_blamed_twice 0 sample_call (λ _, 60%Q) (λ _ _ _, Fresh) fails (λ _, true) "a" 2 503 overloaded [] new_retrying);
    [lia|by right|reflexivity|reflexivity].
Defined.

Lemma owner_only_witness :
  Forall (eq "b") (contacted (_stream_with_retry 0 (sample_call {{ c_previous_response_id := Some "resp_0" }}) None (λ _, 60%Q) (in_turn ["a"; "b"])
    (λ _ _ _, Fresh) fails (λ _, true) (calm_surroundings (Some "b"))).1).
Proof. apply (owner_only _ _ _ _ _ _ _ _ _ "resp_0" "b"); reflexivity. Defined.

End HttpStreamFacts.
