(* ===== verification/RequestLogs.v ===== *)
(** The request log: its table ([src/app/modules/request_logs/repository.py])
    and the dashboard's view of it ([mappers.py], [service.py], [api.py]).

    The free-text search over joined tables is an argument.  A commit that fails
    is rolled back; a session that was closed before the row could be read back
    is left out. *)

From S2P Require Import Prelude Models Pricing Stores.
Import Pricing.UsageLogs Stores.UsageRepo.

(** ** The table *)
Module RequestLogsRepo.

(** What the pricing functions look at. *)
Definition like (log : RequestLog) : RequestLogLike :=
  {| log_model := Some (rl_model log); log_service_tier := rl_service_tier log; log_input_tokens := rl_input_tokens log;
     log_output_tokens := rl_output_tokens log; log_cached_input_tokens := rl_cached_input_tokens log;
     log_reasoning_tokens := rl_reasoning_tokens log; log_cost_usd := rl_cost_usd log |}.

Definition list_since (since : Z) (logs : list RequestLog) : list RequestLog :=
  List.filter (λ log, since <=? rl_requested_at log)%Z logs.

(** [requested_at DESC, id DESC]. *)
Definition newest_first (x y : RequestLog) : comparison := then_by (desc rl_requested_at) (desc rl_id) x y.

Definition _lookup_account_id (condition : RequestLog → bool) (logs : list RequestLog) : option string :=
  match order_by newest_first (List.filter condition logs) with
  | log :: _ => match rl_account_id log with Some a => none_if_empty (py_strip a) | None => None end
  | [] => None
  end.

Definition served (response_id : string) (api_key_id : option string) (log : RequestLog) : bool :=
  String.eqb (rl_request_id log) response_id && String.eqb (rl_status log) "success" && bool_decide (is_Some (rl_account_id log))
  && match api_key_id with Some k => bool_decide (rl_api_key_id log = Some k) | None => true end.

Definition find_latest_account_id_for_response_id (response_id : string) (api_key_id session_id : option string)
    (logs : list RequestLog) : option string :=
  let response_id := py_strip response_id in
  if String.eqb response_id "" then None
  else
    let session := match session_id with Some s => py_strip s | None => "" end in
    let scoped := if String.eqb session "" then None
                  else _lookup_account_id (λ log, served response_id api_key_id log && bool_decide (rl_session_id log = Some session)) logs in
    match scoped with
    | Some owner => Some owner
    | None => _lookup_account_id (served response_id api_key_id) logs
    end.

(** *** Totals *)

Record RequestActivityAggregate := {
  act_request_count : Z; act_error_count : Z; act_input_tokens : Z; act_output_tokens : Z; act_cached_input_tokens : Z; act_cost_usd : Q }.

Record BucketModelAggregate := {
  bucket_epoch : Z; bk_model : string; bk_service_tier : option string; bk_request_count : Z; bk_error_count : Z;
  bk_input_tokens : Z; bk_output_tokens : Z; bk_cached_input_tokens : Z; bk_reasoning_tokens : Z; bk_cost_usd : Q }.

(** [coalesce(sum(column), 0)]: nulls do not count. *)
Definition sum_of (column : RequestLog → option Z) (logs : list RequestLog) : Z := zsum (map (λ log, default 0%Z (column log)) logs).
Definition failed_count (logs : list RequestLog) : Z :=
  zsum (map (λ log, if String.eqb (rl_status log) "success" then 0 else 1)%Z logs).
Definition cost_of (logs : list RequestLog) : Q := qsum (map (λ log, default 0%Q (rl_cost_usd log)) logs).

Definition aggregate_activity_since (since : Z) (logs : list RequestLog) : RequestActivityAggregate :=
  let rows := list_since since logs in
  {| act_request_count := Z.of_nat (length rows); act_error_count := failed_count rows; act_input_tokens := sum_of rl_input_tokens rows;
     act_output_tokens := sum_of rl_output_tokens rows; act_cached_input_tokens := sum_of rl_cached_input_tokens rows;
     act_cost_usd := cost_of rows |}.

(** The start of the bucket a row falls into, in seconds.  PostgreSQL divides
    the exact epoch and rounds down; SQLite's [strftime('%s')] drops the
    fraction and [CAST ... AS INTEGER] truncates the quotient. *)
Definition bucket_of (d : dialect) (bucket_seconds : Z) (log : RequestLog) : Z :=
  match d with
  | postgresql => rl_requested_at log / (bucket_seconds * 1000000) * bucket_seconds
  | sqlite => Z.quot (rl_requested_at log / 1000000) bucket_seconds * bucket_seconds
  end%Z.

Definition bucket_key (d : dialect) (bucket_seconds : Z) (log : RequestLog) : Z * string * option string :=
  (bucket_of d bucket_seconds log, rl_model log, rl_service_tier log).

Definition bucket_row (key : Z * string * option string) (rows : list RequestLog) : BucketModelAggregate :=
  let '(epoch, model, tier) := key in
  {| bucket_epoch := epoch; bk_model := model; bk_service_tier := tier; bk_request_count := Z.of_nat (length rows);
     bk_error_count := failed_count rows; bk_input_tokens := sum_of rl_input_tokens rows; bk_output_tokens := sum_of rl_output_tokens rows;
     bk_cached_input_tokens := sum_of rl_cached_input_tokens rows; bk_reasoning_tokens := sum_of rl_reasoning_tokens rows;
     bk_cost_usd := cost_of rows |}.

(** [GROUP BY]: a row per key. *)
Definition aggregate_by_bucket (d : dialect) (since bucket_seconds : Z) (logs : list RequestLog) : list BucketModelAggregate :=
  let rows := list_since since logs in
  let key := bucket_key d bucket_seconds in
  order_by (asc bucket_epoch)
    (map (λ k, bucket_row k (List.filter (λ log, bool_decide (key log = k)) rows)) (remove_dups (map key rows))).

Definition error_rows (code : string) (rows : list RequestLog) : list RequestLog :=
  List.filter (λ log, bool_decide (rl_error_code log = Some code)) rows.

Definition top_error_since (since : Z) (logs : list RequestLog) : option string :=
  let rows := List.filter (λ log, negb (String.eqb (rl_status log) "success")) (list_since since logs) in
  let count code := Z.of_nat (length (error_rows code rows)) in
  match order_by (then_by (desc count) (asc (λ code : string, code))) (remove_dups (omap rl_error_code rows)) with
  | code :: _ => none_if_empty code
  | [] => None
  end.

(** *** Writing *)

(** [ensure_request_id]: the given id, that of the running request or a new one. *)
Definition ensure_request_id (value current generated : string) : string :=
  if negb (String.eqb value "") then value else if negb (String.eqb current "") then current else generated.

(** The arguments of [add_log] in the fields of the row; its id and cost are
    not among them. *)
Definition _resolve_account_plan_type (account_id : string) (accounts : list Account) : option string :=
  match List.find (λ a, String.eqb (acc_id a) account_id) accounts with Some a => Some (acc_plan_type a) | None => None end.

Definition priced (log : RequestLog) : RequestLog := log {{ rl_cost_usd := calculated_cost_from_log (like log) None }}.

Definition new_row (id now : Z) (requested_at : option Z) (current generated : string) (accounts : list Account) (args : RequestLog) : RequestLog :=
  let plan := match rl_plan_type args, rl_account_id args with
              | None, Some a => if String.eqb a "" then None else _resolve_account_plan_type a accounts
              | plan, _ => plan
              end in
  priced (args {{ rl_id := id; rl_request_id := ensure_request_id (rl_request_id args) current generated; rl_plan_type := plan;
                  rl_deleted_at := None; rl_requested_at := default now requested_at }}).

Definition add_log (id now : Z) (requested_at : option Z) (current generated : string) (accounts : list Account) (commits : bool)
    (args : RequestLog) (logs : list RequestLog) : list RequestLog * option RequestLog :=
  let log := new_row id now requested_at current generated accounts args in
  if commits then (logs ++ [log], Some log) else (logs, None).

Definition update_model_for_request (request_id current generated model : string) (logs : list RequestLog) : list RequestLog * nat :=
  let request_id := ensure_request_id request_id current generated in
  let concerns log := String.eqb (rl_request_id log) request_id in
  (update_where concerns (λ log, priced (log {{ rl_model := model }})) logs, length (List.filter concerns logs)).

(** *** Listing *)

(** [Some []] and [None] alike ask for everything. *)
Record filters := {
  f_search : option string; f_since : option Z; f_until : option Z; f_account_ids : list string; f_api_key_ids : list string;
  f_model_options : list (string * option string); f_models : list string; f_reasoning_efforts : list string;
  f_include_success : bool; f_include_error_other : bool; f_error_codes_in : list string; f_error_codes_excluding : list string }.

Definition among (o : option string) (l : list string) : bool := match o with Some x => mem x l | None => false end.
(** A list that restricts the rows only when it has elements. *)
Definition asked {A} (l : list A) (p : bool) : bool := match l with [] => true | _ => p end.

Definition option_conditions (options : list (string * option string)) : list (RequestLog → bool) :=
  omap (λ '(model, effort), let base := py_strip model in
          if String.eqb base "" then None
          else Some (λ log, String.eqb (rl_model log) base && bool_decide (rl_reasoning_effort log = effort))) options.

Definition model_condition (f : filters) (log : RequestLog) : bool :=
  match f_model_options f with
  | [] => asked (f_models f) (mem (rl_model log) (f_models f)) && asked (f_reasoning_efforts f) (among (rl_reasoning_effort log) (f_reasoning_efforts f))
  | options => let conditions := option_conditions options in asked conditions (existsb (λ p, p log) conditions)
  end.

Definition status_conditions (f : filters) : list (RequestLog → bool) :=
  (if f_include_success f then [λ log, String.eqb (rl_status log) "success"] else [])
  ++ match f_error_codes_in f with
     | [] => []
     | codes => [λ log, String.eqb (rl_status log) "error" && among (rl_error_code log) codes]
     end
  ++ (if f_include_error_other f
      then [λ log, String.eqb (rl_status log) "error"
                   && asked (f_error_codes_excluding f) (negb (among (rl_error_code log) (f_error_codes_excluding f)))]
      else []).
Definition status_condition (f : filters) (log : RequestLog) : bool :=
  let conditions := status_conditions f in asked conditions (existsb (λ p, p log) conditions).

Section Listing.
(** [ilike] over the columns of the row, its account and its API key. *)
Context (found : string → RequestLog → bool).

Definition _build_filters (f : filters) (log : RequestLog) : bool :=
  negb (bool_decide (is_Some (rl_deleted_at log)))
  && match f_since f with Some t => t <=? rl_requested_at log | None => true end%Z
  && match f_until f with Some t => rl_requested_at log <=? t | None => true end%Z
  && asked (f_account_ids f) (among (rl_account_id log) (f_account_ids f))
  && asked (f_api_key_ids f) (among (rl_api_key_id log) (f_api_key_ids f))
  && model_condition f log && status_condition f log
  && match f_search f with Some s => if String.eqb s "" then true else found s log | None => true end.

Definition matching (f : filters) (logs : list RequestLog) : list RequestLog := List.filter (_build_filters f) logs.
Definition _count_recent (f : filters) (logs : list RequestLog) : Z := Z.of_nat (length (matching f logs)).

Definition list_recent (limit offset : nat) (f : filters) (logs : list RequestLog) : list RequestLog * Z :=
  let rows := drop offset (order_by newest_first (matching f logs)) in
  let rows := match limit with O => rows | _ => take limit rows end in
  match rows with
  | [] => ([], _count_recent f logs)
  | _ => (rows, Z.of_nat (length (matching f logs)))
  end.

(** [DISTINCT] columns in order; nulls come first in SQLite and last in
    PostgreSQL. *)
Definition null_asc (d : dialect) (x y : option string) : comparison :=
  match x, y with
  | Some x, Some y => pycmp x y
  | None, None => Eq
  | None, Some _ => match d with sqlite => Lt | postgresql => Gt end
  | Some _, None => match d with sqlite => Gt | postgresql => Lt end
  end.

Definition distinct {A} `{EqDecision A} (cmp : A → A → comparison) (l : list A) : list A := order_by cmp (remove_dups l).
Definition filled_in (l : list (option string)) : list string := omap (λ o, match o with Some s => none_if_empty s | None => None end) l.
Definition named_pairs (l : list (string * option string)) : list (string * option string) := List.filter (λ p, negb (String.eqb p.1 "")) l.

Definition list_filter_options (d : dialect) (f : filters) (logs : list RequestLog)
    : list string * list (string * option string) * list string * list (string * option string) :=
  let f := f {{ f_include_success := true; f_include_error_other := true; f_error_codes_in := []; f_error_codes_excluding := [];
                f_search := None }} in
  let rows := matching f logs in
  let key_rows := matching (f {{ f_api_key_ids := [] }}) logs in
  let pair_asc := then_by (asc fst) (λ x y, null_asc d x.2 y.2) in
  (filled_in (distinct (null_asc d) (map rl_account_id rows)),
   named_pairs (distinct pair_asc (map (λ log, (rl_model log, rl_reasoning_effort log)) rows)),
   filled_in (distinct (null_asc d) (map rl_api_key_id key_rows)),
   named_pairs (distinct pair_asc (map (λ log, (rl_status log, rl_error_code log)) rows))).

End Listing.

(** Names of API keys: the pairs of id and (name, prefix) stored. *)
Definition get_api_key_details_by_ids (ids : list string) (keys : list (string * (string * option string))) : list (string * (string * option string)) :=
  List.filter (λ '(id, (name, _)), mem id ids && negb (String.eqb id "") && negb (String.eqb name "")) keys.
Definition get_api_key_names_by_ids (ids : list string) (keys : list (string * (string * option string))) : dict string :=
  map (λ '(id, (name, _)), (id, name)) (get_api_key_details_by_ids ids keys).

End RequestLogsRepo.

(** ** The dashboard's view *)
Module RequestLogsService.
Import RequestLogsRepo.

Definition RATE_LIMIT_CODES : list string := ["rate_limit_exceeded"; "usage_limit_reached"].
Definition QUOTA_CODES : list string := ["insufficient_quota"; "usage_not_included"; "quota_exceeded"].

Definition normalize_log_status (status : string) (error_code : option string) : string :=
  if String.eqb status "success" then "ok"
  else if among error_code RATE_LIMIT_CODES then "rate_limit"
  else if among error_code QUOTA_CODES then "quota"
  else "error".
Definition log_status (log : RequestLog) : string := normalize_log_status (rl_status log) (rl_error_code log).

Record RequestLogEntry := {
  ent_requested_at : Z; ent_account_id : option string; ent_plan_type : option string; ent_api_key_id : option string;
  ent_api_key_name : option string; ent_request_id : string; ent_model : string; ent_transport : option string;
  ent_service_tier : option string; ent_requested_service_tier : option string; ent_actual_service_tier : option string;
  ent_status : string; ent_error_code : option string; ent_error_message : option string; ent_tokens : option Z;
  ent_cached_input_tokens : option Z; ent_reasoning_effort : option string; ent_cost_usd : option Q; ent_latency_ms : option Z;
  ent_latency_first_token_ms : option Z }.

Definition to_request_log_entry (api_key_name : option string) (log : RequestLog) : RequestLogEntry :=
  {| ent_requested_at := rl_requested_at log; ent_account_id := rl_account_id log; ent_plan_type := rl_plan_type log;
     ent_api_key_id := rl_api_key_id log; ent_api_key_name := api_key_name; ent_request_id := rl_request_id log; ent_model := rl_model log;
     ent_transport := rl_transport log; ent_service_tier := rl_service_tier log; ent_requested_service_tier := rl_requested_service_tier log;
     ent_actual_service_tier := rl_actual_service_tier log; ent_status := log_status log; ent_error_code := rl_error_code log;
     ent_error_message := rl_error_message log; ent_tokens := total_tokens_from_log (like log);
     ent_cached_input_tokens := cached_input_tokens_from_log (like log); ent_reasoning_effort := rl_reasoning_effort log;
     ent_cost_usd := cost_from_log (like log) (Some 6); ent_latency_ms := rl_latency_ms log;
     ent_latency_first_token_ms := rl_latency_first_token_ms log |}.

(** *** Which rows are asked for *)

Record RequestLogStatusFilter := {
  include_success : bool; include_error_other : bool; error_codes_in : list string; error_codes_excluding : list string }.

Definition any_status : RequestLogStatusFilter :=
  {| include_success := true; include_error_other := true; error_codes_in := []; error_codes_excluding := [] |}.

Definition _map_status_filter (status : list string) : RequestLogStatusFilter :=
  let normalized := map py_lower (List.filter (λ v, negb (String.eqb v "")) status) in
  if match normalized with [] => true | _ => mem "all" normalized end then any_status
  else
    let include_error_other := mem "error" normalized in
    {| include_success := mem "ok" normalized; include_error_other := include_error_other;
       error_codes_in := order_by (asc (λ c : string, c)) ((if mem "rate_limit" normalized then RATE_LIMIT_CODES else [])
                                              ++ (if mem "quota" normalized then QUOTA_CODES else []));
       error_codes_excluding := if include_error_other then order_by (asc (λ c : string, c)) (RATE_LIMIT_CODES ++ QUOTA_CODES) else [] |}.

Definition _normalize_status_values (values : list (string * option string)) : list string :=
  let normalized := map (λ '(status, code), normalize_log_status status code) values in
  List.filter (λ status, mem status normalized) ["ok"; "rate_limit"; "quota"; "error"].

Record query := {
  q_search : option string; q_since : option Z; q_until : option Z; q_account_ids : list string; q_api_key_ids : list string;
  q_model_options : list (string * option string); q_models : list string; q_reasoning_efforts : list string; q_status : list string }.

Definition filters_of (q : query) : filters :=
  let status_filter := _map_status_filter (q_status q) in
  {| f_search := q_search q; f_since := q_since q; f_until := q_until q; f_account_ids := q_account_ids q;
     f_api_key_ids := q_api_key_ids q; f_model_options := q_model_options q; f_models := q_models q;
     f_reasoning_efforts := q_reasoning_efforts q; f_include_success := include_success status_filter;
     f_include_error_other := include_error_other status_filter; f_error_codes_in := error_codes_in status_filter;
     f_error_codes_excluding := error_codes_excluding status_filter |}.

Record RequestLogsPage := { requests : list RequestLogEntry; total : Z; has_more : bool }.

Definition list_recent (found : string → RequestLog → bool) (limit offset : nat) (q : query) (keys : list (string * (string * option string)))
    (logs : list RequestLog) : RequestLogsPage :=
  let '(rows, total) := RequestLogsRepo.list_recent found limit offset (filters_of q) logs in
  let names := get_api_key_names_by_ids (filled_in (map rl_api_key_id rows)) keys in
  {| requests := map (λ log, to_request_log_entry (dict_get names (default "" (rl_api_key_id log))) log) rows; total := total;
     has_more := (Z.of_nat offset + Z.of_nat limit <? total)%Z |}.

Record RequestLogApiKeyOption := { opt_id : string; opt_name : string; opt_prefix : option string }.

Definition key_option (details : list (string * (string * option string))) (id : string) : RequestLogApiKeyOption :=
  match dict_get details id with
  | Some (name, prefix) => {| opt_id := id; opt_name := name; opt_prefix := prefix |}
  | None => {| opt_id := id; opt_name := id; opt_prefix := None |}
  end.

Record RequestLogFilterOptions := {
  account_ids : list string; model_options : list (string * option string); api_keys : list RequestLogApiKeyOption; statuses : list string }.

Definition list_filter_options (found : string → RequestLog → bool) (d : dialect) (q : query) (keys : list (string * (string * option string)))
    (logs : list RequestLog) : RequestLogFilterOptions :=
  let '(accounts, models, key_ids, status_values) := RequestLogsRepo.list_filter_options found d (filters_of q) logs in
  let details := get_api_key_details_by_ids key_ids keys in
  {| account_ids := accounts; model_options := models;
     api_keys := order_by (asc (λ o, (py_lower (opt_name o), (py_lower (default "" (opt_prefix o)), opt_id o)))) (map (key_option details) key_ids);
     statuses := _normalize_status_values status_values |}.

(** *** The query string *)

Definition _MODEL_OPTION_DELIMITER : string := ":::".

(** [raw.split(delimiter, 1)]. *)
Fixpoint split_once (sep s : string) : option (string * string) :=
  if startswith sep s then Some ("", String.substring (String.length sep) (String.length s) s)
  else match s with
       | EmptyString => None
       | String c s' => match split_once sep s' with Some (l, r) => Some (String c l, r) | None => None end
       end.

Definition _parse_model_option (value : string) : option (string * option string) :=
  let raw := py_strip value in
  if String.eqb raw "" then None
  else match split_once _MODEL_OPTION_DELIMITER raw with
       | None => Some (raw, None)
       | Some (model, effort) =>
           let model := py_strip model in
           if String.eqb model "" then None else Some (model, none_if_empty (py_strip effort))
       end.

End RequestLogsService.

(** ** Properties *)
Module RequestLogFacts.
Import RequestLogsRepo RequestLogsService.

(** *** The first row of an ordering *)

Lemma insert_ordered_head {A} (cmp : A → A → comparison) x l :
  ∃ r, insert_ordered cmp x l = match head l with Some y => if at_most cmp x y then x else y | None => x end :: r.
Proof. destruct l as [|y l]; simpl; [by eexists|]. case_if; by eexists. Qed.

Lemma order_by_first {A} (cmp : A → A → comparison) (total : ∀ x y, at_most cmp x y = false → at_most cmp y x = true)
    (trans : ∀ x y z, at_most cmp x y = true → at_most cmp y z = true → at_most cmp x z = true) l x r :
  order_by cmp l = x :: r → x ∈ l ∧ ∀ y, y ∈ l → at_most cmp x y = true.
Proof.
  intros H. split; [apply (order_by_elem cmp); rewrite H; set_solver|]. revert x r H. induction l as [|z l IH]; [done|]. simpl. intros x r H.
  assert (∀ y, at_most cmp y y = true) as Hrefl by (intros y; destruct (at_most cmp y y) eqn:E; [done|apply total in E as E2; congruence]).
  destruct (insert_ordered_head cmp z (order_by cmp l)) as [r' E]. rewrite H in E. injection E as -> ->.
  destruct (order_by cmp l) as [|w rest] eqn:El; simpl in *.
  - intros y [->|Hy]%elem_of_cons; [done|]. apply (order_by_elem cmp) in Hy. rewrite El in Hy. by apply elem_of_nil in Hy.
  - intros y [->|Hy]%elem_of_cons.
    + destruct (at_most cmp z w) eqn:E; [done|by apply total].
    + specialize (IH w rest eq_refl y Hy). destruct (at_most cmp z w) eqn:E; [by eapply trans|done].
Qed.

Lemma newest_first_key x y : newest_first x y = pycmp (rl_requested_at y, rl_id y) (rl_requested_at x, rl_id x).
Proof. done. Qed.

(** No row is newer. *)
Definition newest (log log' : RequestLog) : Prop := pylt (rl_requested_at log, rl_id log) (rl_requested_at log', rl_id log') = false.

Lemma at_most_newest x y : at_most newest_first x y = true ↔ newest x y.
Proof.
  unfold newest, at_most, pylt. rewrite newest_first_key, (pycmp_antisym (rl_requested_at x, rl_id x)).
  by destruct (pycmp (rl_requested_at x, rl_id x) (rl_requested_at y, rl_id y)).
Qed.

Lemma newest_row l log r : order_by newest_first l = log :: r → log ∈ l ∧ ∀ y, y ∈ l → newest log y.
Proof.
  intros H. destruct (order_by_first newest_first) with (l := l) (x := log) (r := r) as [Hin Hn]; [..|done|].
  - intros x y Hxy. destruct (at_most newest_first y x) eqn:E; [done|]. exfalso. revert Hxy E. unfold at_most.
    rewrite !newest_first_key, (pycmp_antisym (rl_requested_at x, rl_id x)). by destruct (pycmp (rl_requested_at x, rl_id x) _).
  - intros x y z. rewrite !at_most_newest. unfold newest. intros H1 H2. by eapply pylt_le_trans.
  - split; [done|]. intros y Hy. by apply at_most_newest, Hn.
Qed.

(** *** Who served a response *)

(** Account ids are stored as they are: not blank, no blanks around. *)
Definition clean_account (log : RequestLog) : Prop :=
  match rl_account_id log with Some a => a ≠ "" ∧ py_strip a = a | None => True end.

Lemma lookup_spec condition logs : Forall clean_account logs → (∀ log, condition log = true → is_Some (rl_account_id log)) →
  match _lookup_account_id condition logs with
  | Some a => ∃ log, log ∈ logs ∧ condition log = true ∧ rl_account_id log = Some a ∧ ∀ y, y ∈ logs → condition y = true → newest log y
  | None => ∀ log, log ∈ logs → condition log = false
  end.
Proof.
  intros Hc Hs. unfold _lookup_account_id. destruct (order_by newest_first (List.filter condition logs)) as [|log r] eqn:E.
  - intros log Hl. destruct (condition log) eqn:Ec; [|done]. assert (log ∈ order_by newest_first (List.filter condition logs)) as H.
    { apply order_by_elem, elem_of_filter_bool. done. } rewrite E in H. by apply elem_of_nil in H.
  - apply newest_row in E as [[Hin Hl]%elem_of_filter_bool Hn]. destruct (Hs log Hl) as [a Ha]. rewrite Ha.
    pose proof (proj1 (Forall_forall _ _) Hc log Hin) as Hcl. unfold clean_account in Hcl. rewrite Ha in Hcl. destruct Hcl as [Hne ->].
    unfold none_if_empty. rewrite (proj2 (String.eqb_neq _ _) Hne). exists log. split_and!; [done..|]. intros y Hy Hy'. by apply Hn, elem_of_filter_bool.
Qed.

Lemma lookup_nothing condition logs : (∀ log, condition log = false) → _lookup_account_id condition logs = None.
Proof.
  intros H. unfold _lookup_account_id. replace (List.filter condition logs) with (@nil RequestLog); [done|].
  induction logs as [|log logs IH]; [done|]. simpl. by rewrite H.
Qed.

(** Belongs to the session asked for; without one every row does not. *)
Definition in_session (session_id : option string) (log : RequestLog) : bool :=
  match session_id with
  | Some s => negb (String.eqb (py_strip s) "") && bool_decide (rl_session_id log = Some (py_strip s))
  | None => false
  end.

Lemma served_account rid key log : served rid key log = true → is_Some (rl_account_id log).
Proof. unfold served. intros H. repeat (apply andb_true_iff in H as [H ?]). by eapply bool_decide_eq_true_1. Qed.

(** The account named for a response has served it: its row is a success of that
    response, under the API key if one is given, and among such rows one of the
    session comes before one of another, a newer before an older.  No account is
    named only if there is no such row. *)
Lemma latest_owner_spec response_id api_key_id session_id logs : Forall clean_account logs → py_strip response_id ≠ "" →
  match find_latest_account_id_for_response_id response_id api_key_id session_id logs with
  | Some a => ∃ log, log ∈ logs ∧ served (py_strip response_id) api_key_id log = true ∧ rl_account_id log = Some a ∧
      ∀ y, y ∈ logs → served (py_strip response_id) api_key_id y = true →
        (in_session session_id y = true → in_session session_id log = true ∧ newest log y) ∧ (in_session session_id log = false → newest log y)
  | None => ∀ log, log ∈ logs → served (py_strip response_id) api_key_id log = false
  end.
Proof.
  intros Hc Hr. unfold find_latest_account_id_for_response_id. rewrite (proj2 (String.eqb_neq _ _) Hr).
  set (rid := py_strip response_id) in *. clearbody rid.
  assert (match _lookup_account_id (λ log, served rid api_key_id log && in_session session_id log) logs with
    | Some a => ∃ log, log ∈ logs ∧ served rid api_key_id log && in_session session_id log = true ∧ rl_account_id log = Some a ∧
        ∀ y, y ∈ logs → served rid api_key_id y && in_session session_id y = true → newest log y
    | None => ∀ log, log ∈ logs → served rid api_key_id log && in_session session_id log = false end) as Hscoped.
  { apply lookup_spec; [done|]. intros log [H _]%andb_true_iff. by eapply served_account. }
  assert ((if String.eqb (match session_id with Some s => py_strip s | None => "" end) "" then None
    else _lookup_account_id (λ log, served rid api_key_id log && bool_decide (rl_session_id log = Some (match session_id with Some s => py_strip s | None => "" end))) logs)
    = _lookup_account_id (λ log, served rid api_key_id log && in_session session_id log) logs) as ->.
  { unfold in_session. destruct session_id as [s|]; [destruct (String.eqb_spec (py_strip s) "") as [->|Hne]; [|done]|];
      simpl; rewrite lookup_nothing; intros; rewrite ?andb_false_r; done. }
  destruct (_lookup_account_id (λ log, served rid api_key_id log && in_session session_id log) logs) as [a|].
  - destruct Hscoped as (log & Hin & [Hs Hi]%andb_true_iff & Ha & Hn). exists log. split_and!; [done..|]. intros y Hy Hys.
    split; [|congruence]. intros Hyi. split; [done|]. apply Hn; [done|]. by rewrite Hys, Hyi.
  - pose proof (lookup_spec (served rid api_key_id) logs Hc (served_account rid api_key_id)) as H.
    destruct (_lookup_account_id (served rid api_key_id) logs) as [a|]; [|done].
    destruct H as (log & Hin & Hs & Ha & Hn). exists log. split_and!; [done..|]. intros y Hy Hys. split; [|intros; by apply Hn].
    intros Hyi. specialize (Hscoped y Hy). rewrite Hys, Hyi in Hscoped. done.
Qed.

(** *** The status filter *)

(** The statuses a query asks for, as it names them. *)
Definition asked_statuses (status : list string) : list string := map py_lower (List.filter (λ v, negb (String.eqb v "")) status).
(** It asks for nothing, for all, or only for statuses there are none of. *)
Definition asks_everything (status : list string) : bool :=
  mem "all" (asked_statuses status) || negb (existsb (λ s, mem s (asked_statuses status)) ["ok"; "rate_limit"; "quota"; "error"]).

Lemma code_kind (code : option string) :
  (among code RATE_LIMIT_CODES = true ∧ among code QUOTA_CODES = false) ∨ (among code RATE_LIMIT_CODES = false ∧ among code QUOTA_CODES = true) ∨
  (among code RATE_LIMIT_CODES = false ∧ among code QUOTA_CODES = false).
Proof.
  destruct code as [c|]; [|by right; right]. unfold among. destruct (mem c RATE_LIMIT_CODES) eqn:E; [left; split; [done|]|destruct (mem c QUOTA_CODES); tauto].
  apply mem_spec in E. unfold RATE_LIMIT_CODES in E. by repeat (apply elem_of_cons in E as [->|E]; [done|]); apply elem_of_nil in E.
Qed.

Lemma among_perm code l l' : l ≡ₚ l' → among code l = among code l'.
Proof. intros H. destruct code as [c|]; [|done]. apply eq_iff_eq_true. unfold among. rewrite !mem_spec. by rewrite H. Qed.

Lemma among_app code l l' : among code (l ++ l') = among code l || among code l'.
Proof. destruct code; [|done]. apply existsb_app. Qed.

(** The rows a status filter lets through are those whose shown status it names;
    a filter that names no status there is lets every row through. *)
Theorem status_filter_spec q log : rl_status log ∈ ["success"; "error"] →
  status_condition (filters_of q) log = asks_everything (q_status q) || mem (log_status log) (asked_statuses (q_status q)).
Proof.
  intros Hs. unfold filters_of, _map_status_filter, asks_everything. fold (asked_statuses (q_status q)). set (n := asked_statuses (q_status q)). clearbody n.
  unfold status_condition, status_conditions, log_status, normalize_log_status. destruct n as [|v n'].
  { simpl. by repeat (apply elem_of_cons in Hs as [->|Hs]; [done|]); apply elem_of_nil in Hs. }
  set (n := v :: n'). clearbody n. destruct (mem "all" n).
  { simpl. by repeat (apply elem_of_cons in Hs as [->|Hs]; [done|]); apply elem_of_nil in Hs. }
  cbn [f_include_success f_error_codes_in f_include_error_other f_error_codes_excluding include_success include_error_other error_codes_in error_codes_excluding existsb].
  set (codes := order_by _ ((if mem "rate_limit" n then _ else _) ++ _)).
  assert (among (rl_error_code log) codes
    = (mem "rate_limit" n && among (rl_error_code log) RATE_LIMIT_CODES) || (mem "quota" n && among (rl_error_code log) QUOTA_CODES)) as Hin.
  { unfold codes. rewrite (among_perm _ _ _ (order_by_perm _ _)), among_app. by destruct (mem "rate_limit" n), (mem "quota" n), (rl_error_code log). }
  assert (codes = [] ↔ mem "rate_limit" n || mem "quota" n = false) as Hcodes.
  { unfold codes. by destruct (mem "rate_limit" n), (mem "quota" n). }
  assert (among (rl_error_code log) (order_by (asc (λ c : string, c)) (RATE_LIMIT_CODES ++ QUOTA_CODES))
    = among (rl_error_code log) RATE_LIMIT_CODES || among (rl_error_code log) QUOTA_CODES) as Hex.
  { by rewrite (among_perm _ _ _ (order_by_perm _ _)), among_app. }
  set (others := order_by _ (RATE_LIMIT_CODES ++ QUOTA_CODES)) in *. assert (∃ x l, others = x :: l) as (x & l & Eo) by (eexists _, _; by vm_compute).
  rewrite Eo in *. clearbody codes others.
  destruct codes as [|c codes]; [assert (mem "rate_limit" n || mem "quota" n = false) as [Hr Hq]%orb_false_iff by (by apply Hcodes)|].
  all: repeat (apply elem_of_cons in Hs as [Hs|Hs]); try (by apply elem_of_nil in Hs); rewrite Hs.
  all: destruct (code_kind (rl_error_code log)) as [[E1 E2]|[[E1 E2]|[E1 E2]]]; rewrite E1, E2 in *.
  all: destruct (mem "ok" n) eqn:K1, (mem "rate_limit" n) eqn:K2, (mem "quota" n) eqn:K3, (mem "error" n) eqn:K4; simpl in *; rewrite ?K1, ?K2, ?K3, ?K4, ?Hin, ?Hex, ?Hs; first [done|by discriminate (proj2 Hcodes eq_refl)].
Qed.

(** *** Groups *)

Lemma zsum_perm l1 l2 : l1 ≡ₚ l2 → zsum l1 = zsum l2.
Proof. induction 1; simpl; lia. Qed.

Section Groups.
Context {A K : Type} `{EqDecision K} (key : A → K).
Notation group rows := (λ k, List.filter (λ a, bool_decide (key a = k)) rows).

Lemma group_skip r rows ks : key r ∉ ks → concat (map (group (r :: rows)) ks) = concat (map (group rows) ks).
Proof.
  induction ks as [|k ks IH]; [done|]. intros [Hk Hks]%not_elem_of_cons. cbn [map concat]. rewrite IH by done. f_equal. simpl.
  by rewrite bool_decide_false.
Qed.

Lemma group_take r rows ks : NoDup ks → key r ∈ ks → concat (map (group (r :: rows)) ks) ≡ₚ r :: concat (map (group rows) ks).
Proof.
  induction 1 as [|k ks Hk Hks IH]; [by intros ?%elem_of_nil|]. cbn [map concat]. destruct (decide (key r = k)) as [E|E].
  - intros _. rewrite group_skip by congruence. simpl. by rewrite bool_decide_true.
  - intros [?|Hin]%elem_of_cons; [done|]. rewrite IH by done. simpl. rewrite bool_decide_false by done. by rewrite Permutation_middle.
Qed.

(** The groups of a grouping are a partition of the rows. *)
Lemma groups_partition rows : concat (map (group rows) (remove_dups (map key rows))) ≡ₚ rows.
Proof.
  assert (∀ ks, NoDup ks → (∀ r, r ∈ rows → key r ∈ ks) → concat (map (group rows) ks) ≡ₚ rows) as H.
  { induction rows as [|r rows IH]; intros ks Hnd Hks.
    - clear. induction ks; [done|]. simpl. done.
    - rewrite group_take by (done || apply Hks; set_solver). constructor. apply IH; [done|]. intros r' Hr'. apply Hks. set_solver. }
  apply H; [apply NoDup_remove_dups|]. intros r Hr. apply elem_of_remove_dups, elem_of_map. by exists r.
Qed.

Lemma zsum_groups (f : A → Z) rows : zsum (map (λ k, zsum (map f (group rows k))) (remove_dups (map key rows))) = zsum (map f rows).
Proof.
  rewrite <- (zsum_perm _ _ (Permutation_map f (groups_partition rows))). induction (remove_dups (map key rows)) as [|k ks IH]; [done|].
  cbn [map concat]. rewrite map_app, zsum_app, <- IH. done.
Qed.

Lemma qsum_groups (f : A → Q) rows : (qsum (map (λ k, qsum (map f (group rows k))) (remove_dups (map key rows))) == qsum (map f rows))%Q.
Proof.
  rewrite <- (qsum_perm _ _ (Permutation_map f (groups_partition rows))). induction (remove_dups (map key rows)) as [|k ks IH]; [done|].
  cbn [map concat]. rewrite map_app, qsum_app, qsum_cons, IH. done.
Qed.

End Groups.

Lemma length_zsum {A} (l : list A) : Z.of_nat (length l) = zsum (map (λ _, 1%Z) l).
Proof. induction l as [|x l IH]; [done|]. simpl. lia. Qed.

(** Every total of the buckets is the total of the rows: nothing is counted twice
    or left out, in either dialect. *)
Theorem buckets_add_up d since bucket_seconds logs :
  let buckets := aggregate_by_bucket d since bucket_seconds logs in
  let activity := aggregate_activity_since since logs in
  zsum (map bk_request_count buckets) = act_request_count activity ∧ zsum (map bk_error_count buckets) = act_error_count activity ∧
  zsum (map bk_input_tokens buckets) = act_input_tokens activity ∧ zsum (map bk_output_tokens buckets) = act_output_tokens activity ∧
  zsum (map bk_cached_input_tokens buckets) = act_cached_input_tokens activity ∧ (qsum (map bk_cost_usd buckets) == act_cost_usd activity)%Q.
Proof.
  cbv zeta. unfold aggregate_by_bucket, aggregate_activity_since. set (rows := list_since since logs). set (key := bucket_key d bucket_seconds).
  set (groups := map _ (remove_dups (map key rows))).
  assert (∀ (f : BucketModelAggregate → Z) g, (∀ k l, f (bucket_row k l) = zsum (map g l)) → zsum (map f (order_by (asc bucket_epoch) groups)) = zsum (map g rows)) as Hz.
  { intros f g Hf. rewrite (zsum_perm _ _ (Permutation_map f (order_by_perm _ _))), <- (zsum_groups key). unfold groups. rewrite map_map. f_equal.
    apply map_ext. intros k. apply Hf. }
  rewrite length_zsum. split_and!; [apply Hz; intros [[e m] t] l; rewrite <- ?length_zsum; done..|].
  etransitivity; [apply (qsum_perm _ _ (Permutation_map bk_cost_usd (order_by_perm _ _)))|].
  etransitivity; [|apply (qsum_groups key)]. unfold groups. rewrite map_map. erewrite map_ext; [reflexivity|]. by intros [[e m] t].
Qed.

(** The two dialects put a row into the same bucket, for times after 1970. *)
Lemma bucket_dialects bucket_seconds log : (0 < bucket_seconds)%Z → (0 <= rl_requested_at log)%Z →
  bucket_of postgresql bucket_seconds log = bucket_of sqlite bucket_seconds log.
Proof.
  intros Hb Ht. unfold bucket_of. rewrite Z.quot_div_nonneg by (try lia; apply Z.div_pos; lia). rewrite Z.div_div by lia.
  by rewrite (Z.mul_comm 1000000).
Qed.

(** *** Pages *)

(** The name shown for a row does not depend on the rows listed with it. *)
Definition entry_of (keys : list (string * (string * option string))) (log : RequestLog) : RequestLogEntry :=
  to_request_log_entry (dict_get (get_api_key_names_by_ids (filled_in [rl_api_key_id log]) keys) (default "" (rl_api_key_id log))) log.

Lemma names_get ids ids' keys id : mem id ids = mem id ids' → dict_get (get_api_key_names_by_ids ids keys) id = dict_get (get_api_key_names_by_ids ids' keys) id.
Proof.
  intros Hm. unfold get_api_key_names_by_ids, get_api_key_details_by_ids. induction keys as [|[k [name prefix]] keys IH]; [done|]. cbn [List.filter].
  destruct (decide (k = id)) as [->|Hne].
  - rewrite Hm. case_if; simpl; [by rewrite String.eqb_refl|done].
  - assert (String.eqb id k = false) as E by (apply String.eqb_neq; congruence). repeat case_if; simpl; rewrite ?E; done.
Qed.

Lemma filled_in_mem (log : RequestLog) rows : log ∈ rows →
  mem (default "" (rl_api_key_id log)) (filled_in (map rl_api_key_id rows)) = mem (default "" (rl_api_key_id log)) (filled_in [rl_api_key_id log]).
Proof.
  intros Hin. apply eq_iff_eq_true. rewrite !mem_spec. unfold filled_in. rewrite !list_elem_of_omap. split.
  - intros (o & _ & Ho). exists (rl_api_key_id log). split; [set_solver|]. destruct o as [k|]; [|done]. unfold none_if_empty in *.
    destruct (String.eqb_spec k ""); [done|]. injection Ho as Hk. destruct (rl_api_key_id log) as [k'|]; simpl in *; [subst k'; by destruct (String.eqb_spec k "")|done].
  - intros (o & ->%list_elem_of_singleton & Ho). exists (rl_api_key_id log). split; [|done]. apply elem_of_map. by exists log.
Qed.

Lemma list_recent_rows found limit offset q keys logs :
  let page := list_recent found (S limit) offset q keys logs in
  requests page = map (entry_of keys) (take (S limit) (drop offset (order_by newest_first (matching found (filters_of q) logs)))) ∧
  total page = Z.of_nat (length (matching found (filters_of q) logs)).
Proof.
  unfold list_recent, RequestLogsRepo.list_recent. set (rows := take (S limit) _).
  unfold _count_recent.
  destruct rows as [|r rs] eqn:E; (split; [|done]); [done|]. cbn [requests]. apply map_ext_in. intros log Hin%list_elem_of_In.
  unfold entry_of. f_equal. apply names_get. by apply filled_in_mem.
Qed.

(** Listing the log page by page shows every matching row exactly once, newest
    first; the total is the number of matching rows on every page, those past
    the end included, and more is promised exactly while a row is left. *)
Theorem log_listing_complete found limit q keys logs n :
  let page i := list_recent found (S limit) (i * S limit) q keys logs in
  let rows := order_by newest_first (matching found (filters_of q) logs) in
  length rows <= n * S limit →
  concat (map (λ i, requests (page i)) (seq 0 n)) = map (entry_of keys) rows ∧
  (∀ i, total (page i) = Z.of_nat (length rows)) ∧
  (∀ i, has_more (page i) = true ↔ drop (S i * S limit) rows ≠ []).
Proof.
  cbv zeta. intros Hn. split_and!.
  - rewrite (map_ext _ _ (λ i, proj1 (list_recent_rows found limit (i * S limit) q keys logs))), <- (Stores.StoreFacts.pages_tile (S limit) _ n Hn) at 1.
    by rewrite concat_map, map_map.
  - intros i. rewrite (proj2 (list_recent_rows found limit (i * S limit) q keys logs)). by rewrite order_by_length.
  - intros i. pose proof (proj2 (list_recent_rows found limit (i * S limit) q keys logs)) as Ht. revert Ht. unfold list_recent.
    destruct (RequestLogsRepo.list_recent _ _ _ _ _) as [rows t]. cbn [total has_more]. intros ->. rewrite Z.ltb_lt.
    rewrite <- (order_by_length newest_first). set (l := order_by _ _). rewrite <- length_zero_iff_nil, length_drop. lia.
Qed.

(** *** Samples *)

Definition sample_log (id at_us : Z) (status : string) (code : option string) : RequestLog :=
  {| rl_id := id; rl_account_id := Some "acc_1"; rl_api_key_id := Some "key_1"; rl_session_id := None; rl_request_id := "resp_1";
     rl_requested_at := at_us; rl_deleted_at := None; rl_model := "gpt-5"; rl_plan_type := None; rl_transport := None;
     rl_service_tier := None; rl_requested_service_tier := None; rl_actual_service_tier := None; rl_input_tokens := Some 10%Z;
     rl_output_tokens := Some 5%Z; rl_cached_input_tokens := None; rl_reasoning_tokens := None; rl_cost_usd := None;
     rl_reasoning_effort := None; rl_latency_ms := None; rl_latency_first_token_ms := None; rl_status := status; rl_error_code := code;
     rl_error_message := None |}.
Definition sample_query (status : list string) : query :=
  {| q_search := None; q_since := None; q_until := None; q_account_ids := []; q_api_key_ids := []; q_model_options := []; q_models := [];
     q_reasoning_efforts := []; q_status := status |}.
Definition sample_logs : list RequestLog :=
  [sample_log 1 100 "success" None; sample_log 2 300 "error" (Some "quota_exceeded"); sample_log 3 200 "error" None].

Lemma status_filter_spec_witness :
  status_condition (filters_of (sample_query ["Quota"])) (sample_log 2 300 "error" (Some "quota_exceeded")) = true ∧
  status_condition (filters_of (sample_query ["Quota"])) (sample_log 3 200 "error" None) = false.
Proof.
  split; [rewrite (status_filter_spec (sample_query ["Quota"]) (sample_log 2 300 "error" (Some "quota_exceeded")))
         |rewrite (status_filter_spec (sample_query ["Quota"]) (sample_log 3 200 "error" None))]; [reflexivity|set_solver|reflexivity|set_solver].
Defined.

Lemma log_listing_complete_witness :
  concat (map (λ i, requests (list_recent (λ _ _, true) 2 (i * 2) (sample_query []) [] sample_logs)) (seq 0 2))
  = map (entry_of []) (order_by newest_first sample_logs).
Proof. apply (log_listing_complete (λ _ _, true) 1 (sample_query []) [] sample_logs 2). vm_compute. lia. Defined.

End RequestLogFacts.
