(* ===== verification/Ownership.v ===== *)
(** Who owns what.  [Owners]: the account that served a response, remembered in
    memory and looked up in the request log
    ([_resolve_websocket_previous_response_owner] of
    [src/app/modules/proxy/service.py]).  [Ring]: the instances that share the
    bridge sessions ([src/app/modules/proxy/ring_membership.py] and the ring
    functions of [service.py]). *)

From S2P Require Import Prelude Models Balancer Json ProxyEvents HttpStream RequestLogs.
Import Json.Json ProxyEvents.ProxyErrors HttpStream.HttpStream RequestLogs.RequestLogsRepo.

(** ** Owners of responses *)
Module Owners.

Definition _WEBSOCKET_PREVIOUS_RESPONSE_ACCOUNT_CACHE_LIMIT : nat := Z.to_nat 4096.

(** A dict in insertion order: response id, API key id, session id. *)
Notation cache_key := (string * option string * option string)%type.
Notation index := (list (cache_key * string)).

Definition get (k : cache_key) (c : index) : option string :=
  match List.find (λ e, bool_decide (e.1 = k)) c with Some e => Some e.2 | None => None end.
(** [pop(key, None)], then insertion at the end. *)
Definition put (k : cache_key) (account : string) (c : index) : index :=
  List.filter (λ e, negb (bool_decide (e.1 = k))) c ++ [(k, account)].
(** Oldest entries go first. *)
Fixpoint evict (c : index) : index :=
  match c with
  | [] => []
  | _ :: rest => if Nat.ltb _WEBSOCKET_PREVIOUS_RESPONSE_ACCOUNT_CACHE_LIMIT (length c) then evict rest else c
  end.

Definition _normalize_session_id (session_id : option string) : option string :=
  match session_id with Some s => none_if_empty (py_strip s) | None => None end.

Definition cache_keys (response_id : string) (api_key_id session_id : option string) : list cache_key :=
  (response_id, api_key_id, None) :: match _normalize_session_id session_id with Some s => [(response_id, api_key_id, Some s)] | None => [] end.

Definition _remember_websocket_previous_response_owner (previous_response_id api_key_id account_id session_id : option string)
    (c : index) : index :=
  match previous_response_id, account_id with
  | Some response, Some account =>
      let response_id := py_strip response in
      let account := py_strip account in
      if String.eqb response_id "" || String.eqb account "" then c
      else evict (fold_left (λ c k, put k account c) (cache_keys response_id api_key_id session_id) c)
  | _, _ => c
  end.

Definition _previous_response_owner_lookup_failed_error_envelope : dict json :=
  openai_error "upstream_unavailable" "Previous response owner lookup failed; retry later." "server_error".

(** [database] is [None] when the lookup fails; [meanwhile] is what other
    requests do to the index while the lookup runs. *)
Definition _resolve_websocket_previous_response_owner (previous_response_id api_key_id session_id : option string)
    (database : option (list RequestLog)) (meanwhile : index → index) (c : index) : index * res exn (option string) :=
  match previous_response_id with
  | None => (c, Ok None)
  | Some response =>
      let response_id := py_strip response in
      if String.eqb response_id "" then (c, Ok None)
      else
        let session := _normalize_session_id session_id in
        match get (response_id, api_key_id, session) c with
        | Some account => (c, Ok (Some account))
        | None =>
            let fallback := match session with Some _ => get (response_id, api_key_id, None) c | None => None end in
            let c := meanwhile c in
            match database with
            | None => (c, match fallback with
                          | Some a => Ok (Some a)
                          | None => Err (ProxyResponseError 502 _previous_response_owner_lookup_failed_error_envelope)
                          end)
            | Some logs =>
                match find_latest_account_id_for_response_id response_id api_key_id session logs with
                | None => (c, Ok fallback)
                | Some account =>
                    (_remember_websocket_previous_response_owner (Some response_id) api_key_id (Some account) session c, Ok (Some account))
                end
            end
        end
  end.

End Owners.

(** ** The ring of instances *)
Module Ring.

Definition RING_HEARTBEAT_INTERVAL_SECONDS : Z := 10.
Definition RING_STALE_THRESHOLD_SECONDS : Z := 30.
Definition RING_STALE_GRACE_SECONDS : Z := RING_HEARTBEAT_INTERVAL_SECONDS + 5.

Record BridgeRingMember := {
  rm_id : string; rm_instance_id : string; registered_at : Z; last_heartbeat_at : Z; metadata_json : option string }.

(** Seconds as microseconds. *)
Definition seconds (n : Z) : Z := n * 1000000.

Definition _bridge_ring_metadata_json (endpoint_base_url : option string) : option string :=
  match endpoint_base_url with Some url => Some (dumps_ascii (JObj [("endpoint_base_url", JStr url)])) | None => None end.

(** [rstrip("/")]. *)
Fixpoint rstrip_slash (s : string) : string :=
  match s with
  | EmptyString => EmptyString
  | String c s' => match rstrip_slash s' with
                   | EmptyString => if Ascii.eqb c "/" then EmptyString else String c EmptyString
                   | t => String c t
                   end
  end.

Definition _bridge_ring_endpoint_from_metadata (metadata : option string) : option string :=
  match metadata with
  | None => None
  | Some text =>
      match loads text with
      | Some (JObj payload) =>
          match dict_get payload "endpoint_base_url" with
          | Some (JStr endpoint) => none_if_empty (rstrip_slash (py_strip endpoint))
          | _ => None
          end
      | _ => None
      end
  end.

Definition of_instance (instance_id : string) (m : BridgeRingMember) : bool := String.eqb (rm_instance_id m) instance_id.

(** [INSERT ... ON CONFLICT (instance_id) DO UPDATE]. *)
Definition upsert (row : BridgeRingMember) (change : BridgeRingMember → BridgeRingMember) (t : list BridgeRingMember) : list BridgeRingMember :=
  if existsb (of_instance (rm_instance_id row)) t then update_where (of_instance (rm_instance_id row)) change t else t ++ [row].

(** The two clock readings of the inserted and of the updated row differ in the
    code by less than a statement; one stands for both. *)
Definition register (uuid instance_id : string) (endpoint : option string) (now : Z) (t : list BridgeRingMember) : list BridgeRingMember :=
  let metadata := _bridge_ring_metadata_json endpoint in
  upsert {| rm_id := uuid; rm_instance_id := instance_id; registered_at := now; last_heartbeat_at := now; metadata_json := metadata |}
    (λ m, m {{ last_heartbeat_at := now; registered_at := now; metadata_json := metadata }}) t.

(** On other databases than PostgreSQL and SQLite a row that is gone does not
    come back. *)
Definition heartbeat (upserts : bool) (uuid instance_id : string) (endpoint : option string) (now : Z) (t : list BridgeRingMember)
    : list BridgeRingMember :=
  let metadata := _bridge_ring_metadata_json endpoint in
  let change m := m {{ last_heartbeat_at := now; metadata_json := metadata }} in
  if upserts
  then upsert {| rm_id := uuid; rm_instance_id := instance_id; registered_at := now; last_heartbeat_at := now; metadata_json := metadata |} change t
  else update_where (of_instance instance_id) change t.

Definition unregister (instance_id : string) (t : list BridgeRingMember) : list BridgeRingMember :=
  List.filter (λ m, negb (of_instance instance_id m)) t.

Definition mark_stale (instance_id : string) (stale_threshold_seconds grace_seconds now : Z) (t : list BridgeRingMember) : list BridgeRingMember :=
  let active_for_seconds := Z.max grace_seconds 0 in
  let age_seconds := Z.max (stale_threshold_seconds - active_for_seconds) 0 in
  update_where (of_instance instance_id) (λ m, m {{ last_heartbeat_at := (now - seconds age_seconds)%Z }}) t.

Definition fresh (stale_threshold_seconds now : Z) (m : BridgeRingMember) : bool :=
  (now - seconds stale_threshold_seconds <=? last_heartbeat_at m)%Z.

Definition list_active (stale_threshold_seconds : Z) (require_endpoint : bool) (now : Z) (t : list BridgeRingMember) : list string :=
  order_by (asc (λ i : string, i))
    (map rm_instance_id
       (List.filter (λ m, fresh stale_threshold_seconds now m && (negb require_endpoint || bool_decide (is_Some (metadata_json m)))) t)).

Definition resolve_endpoint (instance_id : string) (stale_threshold_seconds now : Z) (t : list BridgeRingMember) : option string :=
  match List.find (λ m, of_instance instance_id m && fresh stale_threshold_seconds now m) t with
  | Some m => _bridge_ring_endpoint_from_metadata (metadata_json m)
  | None => None
  end.

Fixpoint join (sep : string) (l : list string) : string :=
  match l with [] => "" | [x] => x | x :: l => (x ++ sep ++ join sep l)%string end.

(** *** The owner of a session *)

Record Settings := { instance_id_setting : string; instance_ring_setting : list string }.
Record _HTTPBridgeSessionKey := { affinity_kind : string; affinity_key : string; api_key_id : option string }.

Definition sorted_set (l : list string) : list string := order_by (asc (λ i : string, i)) (remove_dups l).
Definition stripped_entries (l : list string) : list string := List.filter (λ s, negb (String.eqb s "")) (map py_strip l).

Definition _normalized_http_bridge_instance_ring (settings : Settings) : string * list string :=
  let instance_id := or_s (Some (py_strip (instance_id_setting settings))) "codex-lb" in
  let entries := stripped_entries (instance_ring_setting settings) in
  (instance_id, sorted_set (match entries with [] => [instance_id] | _ => entries end)).

Section Owner.
(** The digest of [hashlib]. *)
Context (sha256 : string → string).

Definition ring_fingerprint (stale_threshold_seconds now : Z) (t : list BridgeRingMember) : string :=
  sha256 (join "," (order_by (asc (λ i : string, i)) (list_active stale_threshold_seconds false now t))).

(** The ring membership is [None] without the service, [Some None] when the
    table cannot be read, in which case the error is raised. *)
Definition _active_http_bridge_instance_ring (settings : Settings) (membership : option (option (Z * list BridgeRingMember)))
    : option (string * list string) :=
  let '(instance_id, static_ring) := _normalized_http_bridge_instance_ring settings in
  match membership with
  | None => Some (instance_id, static_ring)
  | Some None => None
  | Some (Some (now, t)) =>
      match list_active RING_STALE_THRESHOLD_SECONDS true now t with
      | [] => Some (instance_id, [instance_id])
      | active => match sorted_set (stripped_entries active) with
                  | [] => Some (instance_id, static_ring)
                  | members => Some (instance_id, members)
                  end
      end
  end.

Definition hash_input (key : _HTTPBridgeSessionKey) : string :=
  (affinity_kind key ++ ":" ++ affinity_key key ++ ":" ++ default "" (api_key_id key))%string.

Definition _http_bridge_owner_instance (key : _HTTPBridgeSessionKey) (settings : Settings)
    (membership : option (option (Z * list BridgeRingMember))) : option (option string) :=
  match _active_http_bridge_instance_ring settings membership with
  | None => None
  | Some (instance_id, ring) =>
      Some (if Nat.leb (length ring) 1 then Some instance_id else Rendezvous.select_node sha256 (hash_input key) ring)
  end.

End Owner.
End Ring.
