(* ===== verification/OwnershipFacts.v ===== *)
(** Properties of ownership: what is remembered of a response stays in its
    scope, is kept for thousands of later responses and binds the requests that
    continue it; the instances of a ring agree on owners. *)

From S2P Require Import Prelude Models Balancer Json ProxyEvents HttpStream HttpStreamFacts RequestLogs Ownership.
Import Json.Json Json.JsonFacts ProxyEvents.ProxyErrors HttpStream.HttpStream HttpStreamFacts.HttpStreamFacts.
Import RequestLogs.RequestLogsRepo RequestLogs.RequestLogFacts.

(** ** Owners of responses *)
Module OwnerFacts.
Import Owners.
Notation remember := _remember_websocket_previous_response_owner.
Notation resolve := _resolve_websocket_previous_response_owner.

(** *** The index *)

(** [k] is mapped to [account], and at most [n] entries are younger. *)
Definition held (k : cache_key) (account : string) (n : nat) (c : index) : Prop :=
  ∃ l r, c = l ++ (k, account) :: r ∧ k ∉ l.*1 ∧ length r <= n.

Lemma held_get k account n c : held k account n c → get k c = Some account.
Proof.
  intros (l & r & -> & Hk & _). unfold get. induction l as [|[k' x] l IH]; simpl.
  - by rewrite bool_decide_true.
  - apply not_elem_of_cons in Hk as [Hne Hk]. rewrite bool_decide_false by (intros <-; by apply Hne). by apply IH.
Qed.

Lemma held_put_new k account c : held k account 0 (put k account c).
Proof.
  eexists _, []. split; [done|]. split; [|done]. intros (e & -> & [He Hn]%elem_of_filter_bool)%list_elem_of_fmap.
  by rewrite bool_decide_true in Hn.
Qed.

Lemma held_put k k' account account' n c : k' ≠ k → held k account n c → held k account (S n) (put k' account' c).
Proof.
  intros Hne (l & r & -> & Hk & Hr). unfold put. rewrite List.filter_app. simpl. rewrite bool_decide_false by (intros E; by apply Hne). simpl.
  eexists _, _. split; [by rewrite <- app_assoc|]. split.
  - intros (e & -> & [He _]%elem_of_filter_bool)%list_elem_of_fmap. apply Hk, list_elem_of_fmap. by exists e.
  - rewrite length_app. simpl. pose proof (List.filter_length_le (λ e : cache_key * string, negb (bool_decide (e.1 = k'))) r). lia.
Qed.

Lemma evict_drop c : evict c = drop (length c - _WEBSOCKET_PREVIOUS_RESPONSE_ACCOUNT_CACHE_LIMIT) c.
Proof.
  induction c as [|e c IH]; [done|]. cbn [evict]. destruct (Nat.ltb_spec _WEBSOCKET_PREVIOUS_RESPONSE_ACCOUNT_CACHE_LIMIT (length (e :: c))) as [H|H].
  - rewrite IH. simpl length in *. by rewrite Nat.sub_succ_l by lia.
  - replace (length (e :: c) - _) with 0 by lia. done.
Qed.

Lemma evict_length c : length (evict c) <= _WEBSOCKET_PREVIOUS_RESPONSE_ACCOUNT_CACHE_LIMIT.
Proof. rewrite evict_drop, length_drop. lia. Qed.

Lemma evict_in c e : e ∈ evict c → e ∈ c.
Proof. rewrite evict_drop. intros H. rewrite <- (take_drop (length c - _WEBSOCKET_PREVIOUS_RESPONSE_ACCOUNT_CACHE_LIMIT) c). set_solver. Qed.

Lemma held_evict k account n c : n < _WEBSOCKET_PREVIOUS_RESPONSE_ACCOUNT_CACHE_LIMIT → held k account n c → held k account n (evict c).
Proof.
  intros Hn (l & r & -> & Hk & Hr). rewrite evict_drop, length_app. simpl. set (d := _ - _). assert (d <= length l) as Hd by (unfold d; lia).
  rewrite drop_app_le by done. exists (drop d l), r. split_and!; [done| |done]. intros H. apply Hk.
  apply list_elem_of_fmap in H as (e & -> & He). apply list_elem_of_fmap. exists e. split; [done|]. rewrite <- (take_drop d l). set_solver.
Qed.

Lemma kvs_keys_length r k s : length (cache_keys r k s) <= 2.
Proof. unfold cache_keys. destruct (_normalize_session_id s); simpl; lia. Qed.

Lemma keys_response r k s key : key ∈ cache_keys r k s → key.1 = (r, k).
Proof. unfold cache_keys. destruct (_normalize_session_id s); set_solver. Qed.

Lemma held_fold k account account' keys n c : k ∉ keys → held k account n c → held k account (length keys + n) (fold_left (λ c k, put k account' c) keys c).
Proof.
  revert n c. induction keys as [|k' keys IH]; intros n c; [done|]. intros [Hne Hk]%not_elem_of_cons H. simpl.
  replace (S (length keys + n)) with (length keys + S n) by lia. apply IH; [done|]. by apply held_put.
Qed.

(** *** Kept *)

Record remembering := { m_response : option string; m_key : option string; m_account : option string; m_session : option string }.
Definition do_remember (c : index) (m : remembering) : index := remember (m_response m) (m_key m) (m_account m) (m_session m) c.

(** About another response, or the same under another API key. *)
Definition about_other (r : string) (k : option string) (m : remembering) : Prop :=
  match m_response m with Some r' => (py_strip r', m_key m) ≠ (r, k) | None => True end.

Lemma held_other r k s account n m c : about_other r k m → S (S n) < _WEBSOCKET_PREVIOUS_RESPONSE_ACCOUNT_CACHE_LIMIT →
  held (r, k, s) account n c → held (r, k, s) account (S (S n)) (do_remember c m).
Proof.
  intros Ho Hn H. assert (held (r, k, s) account (S (S n)) c) as Hw by (destruct H as (l & t & -> & Hk & Ht); exists l, t; split_and!; [done..|lia]).
  unfold do_remember, remember, about_other in *. destruct (m_response m) as [r'|]; [|done]. destruct (m_account m) as [a|]; [|done]. case_if; [done|].
  apply held_evict; [done|]. assert ((r, k, s) ∉ cache_keys (py_strip r') (m_key m) (m_session m)) as Hk.
  { intros Hin%keys_response. apply Ho. done. }
  apply (held_fold _ _ (py_strip a) _ _ _ Hk) in H as (l & t & Hl & Hk' & Ht). exists l, t. split_and!; [done..|].
  pose proof (kvs_keys_length (py_strip r') (m_key m) (m_session m)). lia.
Qed.

Lemma held_remember r k a s c : py_strip r ≠ "" → py_strip a ≠ "" →
  held (py_strip r, k, _normalize_session_id s) (py_strip a) 1 (remember (Some r) k (Some a) s c).
Proof.
  intros Hr Ha. unfold remember. rewrite (proj2 (String.eqb_neq _ _) Hr), (proj2 (String.eqb_neq _ _) Ha). cbn [orb].
  apply held_evict; [apply Nat.ltb_lt; by vm_compute|]. unfold cache_keys. destruct (_normalize_session_id s) as [x|]; cbn [fold_left].
  - destruct (held_put_new (py_strip r, k, Some x) (py_strip a) (put (py_strip r, k, None) (py_strip a) c)) as (l & t & E & Hk & Ht).
    exists l, t. split_and!; [done..|lia].
  - destruct (held_put_new (py_strip r, k, None) (py_strip a) c) as (l & t & E & Hk & Ht). exists l, t. split_and!; [done..|lia].
Qed.

Lemma held_later r k s account later n c : Forall (about_other r k) later →
  n + 2 * length later < _WEBSOCKET_PREVIOUS_RESPONSE_ACCOUNT_CACHE_LIMIT →
  held (r, k, s) account n c → held (r, k, s) account (n + 2 * length later) (fold_left do_remember later c).
Proof.
  intros Hl. revert n c. induction Hl as [|m later Hm Hl IH]; intros n c Hn H; [by rewrite Nat.add_0_r|]. cbn [fold_left length] in *.
  replace (n + 2 * S (length later)) with (S (S n) + 2 * length later) in * by lia. apply IH; [lia|]. apply held_other; [done|lia|done].
Qed.

(** The owner of a response is known to requests of the same API key and session
    for the next 2047 owners remembered, whatever happens to the database. *)
Theorem owner_retained r k a s c later database meanwhile : py_strip r ≠ "" → py_strip a ≠ "" → length later <= Z.to_nat 2047 →
  Forall (about_other (py_strip r) k) later →
  (resolve (Some r) k s database meanwhile (fold_left do_remember later (remember (Some r) k (Some a) s c))).2 = Ok (Some (py_strip a)).
Proof.
  intros Hr Ha Hn Hl. unfold resolve. rewrite (proj2 (String.eqb_neq _ _) Hr).
  assert (held (py_strip r, k, _normalize_session_id s) (py_strip a) (1 + 2 * length later)
    (fold_left do_remember later (remember (Some r) k (Some a) s c))) as H%held_get.
  { apply held_later; [done| |by apply held_remember]. unfold _WEBSOCKET_PREVIOUS_RESPONSE_ACCOUNT_CACHE_LIMIT. lia. }
  by rewrite H.
Qed.

(** *** In scope *)

(** [P] holds of every response, API key and account in the index. *)
Definition sound (P : string → option string → string → Prop) (c : index) : Prop := ∀ r k s a, ((r, k, s), a) ∈ c → P r k a.

Lemma get_in k c a : get k c = Some a → (k, a) ∈ c.
Proof.
  unfold get. destruct (List.find _ c) as [[k' a']|] eqn:E; [|done]. intros [= <-]. apply List.find_some in E as [Hin Hk].
  apply bool_decide_eq_true in Hk. simpl in Hk. subst k'. by apply list_elem_of_In.
Qed.

Lemma put_sound P k account c : P k.1.1 k.1.2 account → sound P c → sound P (put k account c).
Proof.
  intros HP Hc r k' s a. unfold put. rewrite elem_of_app, elem_of_filter_bool, list_elem_of_singleton. intros [[H _]|H]; [by eapply Hc|].
  by injection H as <- <-.
Qed.

Lemma remember_sound P r k a s c : (P (py_strip r) k (py_strip a)) → sound P c → sound P (remember (Some r) k (Some a) s c).
Proof.
  intros HP Hc. unfold remember. case_if; [done|]. intros r' k' s' a' H%evict_in. revert H. apply (λ H, H r' k' s' a').
  clear r' k' s' a' Hb. assert (∀ key, key ∈ cache_keys (py_strip r) k s → P key.1.1 key.1.2 (py_strip a)) as Hk by (intros key ->%keys_response; done).
  revert c Hc. induction (cache_keys (py_strip r) k s) as [|key keys IH]; intros c Hc; [done|]. simpl. apply IH; [intros; apply Hk; set_solver|].
  apply put_sound; [apply Hk; set_solver|done].
Qed.

Lemma clean_strip a : clean_account a → ∀ x, rl_account_id a = Some x → py_strip x = x.
Proof. unfold clean_account. intros H x E. rewrite E in H. by destruct H. Qed.

Lemma owner_in_scope_aux (P : string → option string → string → Prop) r k s database meanwhile c :
  sound P c → (∀ c, sound P c → sound P (meanwhile c)) →
  (∀ logs, database = Some logs → Forall clean_account logs ∧
     ∀ log a, log ∈ logs → served (py_strip r) k log = true → rl_account_id log = Some a → P (py_strip r) k a) →
  let '(c', answer) := resolve (Some r) k s database meanwhile c in
  sound P c' ∧ match answer with Ok (Some a) => P (py_strip r) k a | _ => True end.
Proof.
  intros Hc Hm Hdb. unfold resolve. destruct (String.eqb_spec (py_strip r) "") as [_|Hr]; [done|].
  destruct (get (py_strip r, k, _normalize_session_id s) c) as [a|] eqn:E; [split; [done|]; apply get_in in E; by eapply Hc|].
  set (fallback := match _normalize_session_id s with Some _ => _ | None => None end).
  assert (match fallback with Some a => P (py_strip r) k a | None => True end) as Hf.
  { unfold fallback. destruct (_normalize_session_id s); [|done]. destruct (get (py_strip r, k, None) c) as [a|] eqn:E'; [|done]. apply get_in in E'. by eapply Hc. }
  clearbody fallback. destruct database as [logs|]; [|split; [by apply Hm|]; by destruct fallback].
  destruct (Hdb logs eq_refl) as [Hcl Hserved].
  pose proof (latest_owner_spec (py_strip r) k (_normalize_session_id s) logs Hcl) as Hl. rewrite py_strip_idem in Hl. specialize (Hl Hr).
  destruct (find_latest_account_id_for_response_id (py_strip r) k (_normalize_session_id s) logs) as [a|]; [|by split; [apply Hm|destruct fallback]].
  destruct Hl as (log & Hin & Hs & Ha & _). split; [|by eapply Hserved]. apply remember_sound; [|by apply Hm]. rewrite py_strip_idem.
  rewrite (clean_strip log (proj1 (Forall_forall _ _) Hcl log Hin) a Ha). by eapply Hserved.
Qed.

(** An owner is found only within its scope: whatever holds of every owner
    remembered for a response under an API key, and of every account with a
    successful log row of it under that key, holds of the answer; and it keeps
    holding of the index. *)
Theorem owner_in_scope (P : string → option string → string → Prop) r k s database meanwhile c :
  sound P c → (∀ c, sound P c → sound P (meanwhile c)) →
  (∀ logs, database = Some logs → Forall clean_account logs ∧
     ∀ log a, log ∈ logs → served (py_strip r) k log = true → rl_account_id log = Some a → P (py_strip r) k a) →
  let '(c', answer) := resolve (Some r) k s database meanwhile c in
  sound P c' ∧ match answer with Ok (Some a) => P (py_strip r) k a | _ => True end.
Proof. apply owner_in_scope_aux. Qed.

(** *** The stream that continues a response *)

Section Continued.
Context (created : Z) (cl : call) (scoped : option (list string)) (remaining : history → Q).
Context (ask : history → option (list string) → list string → option selected) (ensure_fresh : history → string → bool → freshness).
Context (upstream : history → string → script) (settles : history → bool) (sr : surroundings).
(** The stream whose owner lookup gives [owner]. *)
Notation stream owner := (_stream_with_retry created cl scoped remaining ask ensure_fresh upstream settles (sr {{ sr_owner := owner }})).


End Continued.

(** *** Samples *)

Definition served_log : RequestLog := sample_log 1 100 "success" None.

Lemma owner_retained_witness :
  (resolve (Some "resp_1") (Some "key_1") None None (λ c, c)
     (fold_left do_remember [{| m_response := Some "resp_2"; m_key := Some "key_1"; m_account := Some "acc_2"; m_session := Some "s" |}]
        (remember (Some "resp_1") (Some "key_1") (Some " acc_1 ") None []))).2 = Ok (Some "acc_1").
Proof.
  apply (owner_retained "resp_1" (Some "key_1") " acc_1 " None []); [done|done|simpl; lia|]. constructor; [|done]. vm_compute. discriminate.
Defined.

Lemma owner_in_scope_witness :
  let '(c, answer) := resolve (Some "resp_1") (Some "key_1") None (Some [served_log]) (λ c, c) [] in
  sound (λ r k a, r = "resp_1" ∧ k = Some "key_1" ∧ a = "acc_1") c ∧
  match answer with Ok (Some a) => py_strip "resp_1" = "resp_1" ∧ Some "key_1" = Some "key_1" ∧ a = "acc_1" | _ => True end.
Proof.
  apply (owner_in_scope (λ r k a, r = "resp_1" ∧ k = Some "key_1" ∧ a = "acc_1") "resp_1" (Some "key_1") None (Some [served_log]) (λ c, c) []).
  - intros r k s a H. by apply elem_of_nil in H.
  - done.
  - intros logs [= <-]. split; [constructor; [|constructor]; split; [discriminate|reflexivity]|].
    intros log a ->%list_elem_of_singleton _ [= <-]. done.
Defined.



End OwnerFacts.

(** ** The ring *)
Module RingFacts.
Import Ring.

(** *** The table *)

Inductive ring_op :=
  | Register (uuid instance : string) (endpoint : option string) (now : Z)
  | Heartbeat (upserts : bool) (uuid instance : string) (endpoint : option string) (now : Z)
  | Unregister (instance : string)
  | MarkStale (instance : string) (threshold grace now : Z).

Definition ring_step (t : list BridgeRingMember) (o : ring_op) : list BridgeRingMember :=
  match o with
  | Register uuid i e now => register uuid i e now t
  | Heartbeat b uuid i e now => heartbeat b uuid i e now t
  | Unregister i => unregister i t
  | MarkStale i threshold grace now => mark_stale i threshold grace now t
  end.

Definition unique_instances (t : list BridgeRingMember) : Prop := NoDup (map rm_instance_id t).

Lemma of_instance_spec i m : of_instance i m = true ↔ rm_instance_id m = i.
Proof. apply String.eqb_eq. Qed.

Lemma upsert_unique row change t : (∀ m, rm_instance_id (change m) = rm_instance_id m) → unique_instances t → unique_instances (upsert row change t).
Proof.
  intros Hch Ht. unfold upsert, unique_instances in *. destruct (existsb _ t) eqn:E; [by rewrite (update_where_keys rm_instance_id)|].
  rewrite map_app. apply NoDup_app. split_and!; [done| |apply NoDup_singleton]. intros i (m & -> & Hm)%elem_of_map Hi.
  apply list_elem_of_singleton in Hi. apply not_true_iff_false in E. apply E, existsb_exists. exists m. split; [by apply list_elem_of_In|]. by apply of_instance_spec.
Qed.

Lemma ring_step_unique t o : unique_instances t → unique_instances (ring_step t o).
Proof.
  intros Ht. destruct o as [uuid i e now|b uuid i e now|i|i th gr now]; cbn [ring_step].
  - by apply upsert_unique.
  - unfold heartbeat. destruct b; [by apply upsert_unique|]. unfold unique_instances. by rewrite (update_where_keys rm_instance_id).
  - unfold unregister, unique_instances in *. induction t as [|m t IH]; [done|]. simpl in *. apply NoDup_cons in Ht as [Hm Ht].
    case_if; [|by apply IH]. simpl. apply NoDup_cons. split; [|by apply IH]. intros (m' & E & [Hin _]%elem_of_filter_bool)%elem_of_map.
    apply Hm, elem_of_map. by exists m'.
  - unfold mark_stale, unique_instances. by rewrite (update_where_keys rm_instance_id).
Qed.

Lemma ring_unique ops : unique_instances (fold_left ring_step ops []).
Proof.
  assert (∀ t, unique_instances t → unique_instances (fold_left ring_step ops t)) as H by (induction ops; intros t Ht; [done|]; by apply IHops, ring_step_unique).
  apply H. constructor.
Qed.

(** The row an instance has after an upsert. *)
Lemma upsert_row row change t m : unique_instances t → m ∈ upsert row change t → rm_instance_id m = rm_instance_id row →
  (∀ m, rm_instance_id (change m) = rm_instance_id m) → m = row ∨ ∃ old, old ∈ t ∧ m = change old.
Proof.
  intros Ht Hm Hi Hch. unfold upsert in Hm. destruct (existsb _ t) eqn:E.
  - right. unfold update_where in Hm. apply elem_of_map in Hm as (old & -> & Hold). exists old. split; [done|].
    destruct (of_instance (rm_instance_id row) old) eqn:Eo; [done|]. apply of_instance_spec in Hi. congruence.
  - apply elem_of_app in Hm as [Hm|Hm%list_elem_of_singleton]; [|by left]. exfalso. apply not_true_iff_false in E. apply E, existsb_exists.
    exists m. split; [by apply list_elem_of_In|]. by apply of_instance_spec.
Qed.

Lemma upsert_has row change t : (∀ m, rm_instance_id (change m) = rm_instance_id m) → ∃ m, m ∈ upsert row change t ∧ rm_instance_id m = rm_instance_id row.
Proof.
  intros Hch. unfold upsert. destruct (existsb _ t) eqn:E; [|exists row; set_solver].
  apply existsb_exists in E as (m & Hm & Hi). apply list_elem_of_In in Hm. exists (change m). split; [|rewrite Hch; by apply of_instance_spec].
  apply elem_of_map. exists m. by rewrite Hi.
Qed.

(** *** Who is active *)

Lemma active_iff threshold require now t i :
  i ∈ list_active threshold require now t ↔
  ∃ m, m ∈ t ∧ rm_instance_id m = i ∧ fresh threshold now m = true ∧ (require = true → is_Some (metadata_json m)).
Proof.
  unfold list_active. rewrite order_by_elem, elem_of_map. setoid_rewrite elem_of_filter_bool. setoid_rewrite andb_true_iff.
  setoid_rewrite orb_true_iff. setoid_rewrite negb_true_iff. setoid_rewrite bool_decide_eq_true. split.
  - intros (m & -> & Hm & Hf & Hr). exists m. split_and!; [done..|]. intros ->. by destruct Hr.
  - intros (m & Hm & <- & Hf & Hr). exists m. split_and!; [done..|]. destruct require; [right; auto|by left].
Qed.

Lemma unique_row t m m' : unique_instances t → m ∈ t → m' ∈ t → rm_instance_id m = rm_instance_id m' → m = m'.
Proof. intros Ht Hm Hm' E. by apply (NoDup_map_eq rm_instance_id t). Qed.

(** An instance that leaves stays in the ring for the grace period and no
    longer, unless a heartbeat comes. *)
Theorem leaving_ages_out t i t0 t1 : unique_instances t → i ∈ map rm_instance_id t →
  i ∈ list_active RING_STALE_THRESHOLD_SECONDS false t1 (mark_stale i RING_STALE_THRESHOLD_SECONDS RING_STALE_GRACE_SECONDS t0 t)
  ↔ (t1 <= t0 + seconds RING_STALE_GRACE_SECONDS)%Z.
Proof.
  intros Ht (m & -> & Hm)%elem_of_map. rewrite active_iff. unfold fresh. split.
  - intros (m' & Hm' & Hi & Hf & _). unfold mark_stale, update_where in Hm'. apply elem_of_map in Hm' as (m0 & -> & Hm0).
    destruct (of_instance (rm_instance_id m) m0) eqn:E; simpl in *.
    + apply Z.leb_le in Hf. unfold seconds, RING_STALE_THRESHOLD_SECONDS, RING_STALE_GRACE_SECONDS, RING_HEARTBEAT_INTERVAL_SECONDS in *. lia.
    + apply of_instance_spec in Hi. congruence.
  - intros Hle. eexists. split_and!; [|..|done].
    + unfold mark_stale, update_where. apply elem_of_map. exists m. split; [|done]. by rewrite (proj2 (of_instance_spec _ m)).
    + done.
    + apply Z.leb_le. simpl. unfold seconds, RING_STALE_THRESHOLD_SECONDS, RING_STALE_GRACE_SECONDS, RING_HEARTBEAT_INTERVAL_SECONDS in *. lia.
Qed.

(** *** Endpoints *)

Lemma unicode_check s : utf8_all (code_points s) = s →
  forallb (λ cp, (cp <? 1114112)%N && negb (high_surrogate cp) && negb (low_surrogate cp)) (code_points s) = true → unicode s.
Proof.
  intros E H. exists (code_points s). split; [|done]. apply Forall_forall. intros cp Hcp%list_elem_of_In.
  rewrite forallb_forall in H. specialize (H cp Hcp). rewrite !andb_true_iff, !negb_true_iff, N.ltb_lt in H. unfold scalar. tauto.
Qed.

Lemma metadata_roundtrip url : unicode url →
  _bridge_ring_endpoint_from_metadata (_bridge_ring_metadata_json (Some url)) = none_if_empty (rstrip_slash (py_strip url)).
Proof.
  intros Hu. unfold _bridge_ring_endpoint_from_metadata, _bridge_ring_metadata_json.
  set (v := JObj [("endpoint_base_url", JStr url)]). assert (value v) as Hv.
  { apply wf_obj. split; [apply NoDup_singleton|]. by repeat constructor. }
  rewrite (proj2 (loads_dumps v Hv)); [done|]. apply wf_obj. split; [apply NoDup_singleton|]. constructor; [|done]. split; [|done].
  by apply unicode_check.
Qed.

Lemma endpoint_found row change t i now : unique_instances t → (∀ m, rm_instance_id (change m) = rm_instance_id m) →
  (∀ m, metadata_json (change m) = metadata_json row ∧ last_heartbeat_at (change m) = last_heartbeat_at row) → rm_instance_id row = i →
  resolve_endpoint i RING_STALE_THRESHOLD_SECONDS now (upsert row change t)
  = if fresh RING_STALE_THRESHOLD_SECONDS now row then _bridge_ring_endpoint_from_metadata (metadata_json row) else None.
Proof.
  intros Ht Hch Hrow <-. unfold resolve_endpoint. destruct (List.find _ (upsert row change t)) as [m|] eqn:E.
  - apply List.find_some in E as [Hin [Hi Hf]%andb_true_iff]. apply list_elem_of_In in Hin. apply of_instance_spec in Hi.
    destruct (upsert_row row change t m Ht Hin Hi Hch) as [->|(old & _ & ->)]; [by rewrite Hf|]. destruct (Hrow old) as [Hm Hh].
    unfold fresh in *. rewrite Hh in Hf. by rewrite Hf, Hm.
  - destruct (upsert_has row change t Hch) as (m & Hin & Hi). pose proof (List.find_none _ _ E m (proj1 (list_elem_of_In _ _) Hin)) as Hn.
    cbv beta in Hn. rewrite (proj2 (of_instance_spec _ _) Hi) in Hn. simpl in Hn. destruct (upsert_row row change t m Ht Hin Hi Hch) as [->|(old & _ & ->)]; [by rewrite Hn|].
    destruct (Hrow old) as [_ Hh]. unfold fresh in *. rewrite Hh in Hn. by rewrite Hn.
Qed.

(** The endpoint an instance announces, when it registers and with every
    heartbeat, is the one others are told, without blanks and final slashes, for
    as long as the heartbeat is not stale; then there is none. *)
Theorem endpoint_roundtrip t uuid i url t0 t1 : unique_instances t → unicode url →
  let told := if (t1 <=? t0 + seconds RING_STALE_THRESHOLD_SECONDS)%Z then none_if_empty (rstrip_slash (py_strip url)) else None in
  resolve_endpoint i RING_STALE_THRESHOLD_SECONDS t1 (register uuid i (Some url) t0 t) = told ∧
  resolve_endpoint i RING_STALE_THRESHOLD_SECONDS t1 (heartbeat true uuid i (Some url) t0 t) = told.
Proof.
  intros Ht Hu told. assert (∀ row, last_heartbeat_at row = t0 → metadata_json row = _bridge_ring_metadata_json (Some url) →
    (if fresh RING_STALE_THRESHOLD_SECONDS t1 row then _bridge_ring_endpoint_from_metadata (metadata_json row) else None) = told) as Hrow.
  { intros row Hh Hm. unfold told, fresh. rewrite Hm, Hh, metadata_roundtrip by done.
    replace (t1 - seconds RING_STALE_THRESHOLD_SECONDS <=? t0)%Z with (t1 <=? t0 + seconds RING_STALE_THRESHOLD_SECONDS)%Z; [done|].
    apply eq_iff_eq_true. rewrite !Z.leb_le. lia. }
  split; [unfold register|unfold heartbeat]; rewrite endpoint_found; try done; by apply Hrow.
Qed.

(** *** Owners of sessions *)

(** The instances in the ring at a time, by name. *)
Definition members (now : Z) (t : list BridgeRingMember) : list string :=
  sorted_set (stripped_entries (list_active RING_STALE_THRESHOLD_SECONDS true now t)).

Lemma members_iff now t i : i ∈ members now t ↔ i ≠ "" ∧ ∃ m, m ∈ t ∧ py_strip (rm_instance_id m) = i ∧ fresh RING_STALE_THRESHOLD_SECONDS now m = true ∧ is_Some (metadata_json m).
Proof.
  unfold members, sorted_set, stripped_entries. rewrite order_by_elem, elem_of_remove_dups, elem_of_filter_bool, negb_true_iff, String.eqb_neq, elem_of_map.
  setoid_rewrite active_iff. split.
  - intros [(j & -> & m & Hm & <- & Hf & Hr) Hne]. split; [done|]. exists m. naive_solver.
  - intros [Hne (m & Hm & <- & Hf & Hr)]. split; [|done]. exists (rm_instance_id m). split; [done|]. exists m. naive_solver.
Qed.

Lemma select_node_in sha256 key nodes : nodes ≠ [] → ∃ node, Rendezvous.select_node sha256 key nodes = Some node ∧ node ∈ nodes.
Proof.
  intros Hne. destruct nodes as [|x [|y l]]; [done|exists x; set_solver|]. cbn [Rendezvous.select_node].
  destruct (max_by_is_Some (Rendezvous._score sha256 key) (x :: y :: l) Hne) as [node E]. exists node. split; [done|]. by apply max_by_elem in E.
Qed.

(** While two or more instances with an endpoint are alive, every instance that
    reads the table names the same owner for a session, and it is one of them. *)
Theorem ring_owner_agreed sha256 key now t : 2 <= length (members now t) →
  ∃ owner, owner ∈ members now t ∧ ∀ settings, _http_bridge_owner_instance sha256 key settings (Some (Some (now, t))) = Some (Some owner).
Proof.
  intros Hn. destruct (select_node_in sha256 (hash_input key) (members now t)) as (owner & Ho & Hin); [by intros E; rewrite E in Hn; simpl in Hn; lia|].
  exists owner. split; [done|]. intros settings. unfold _http_bridge_owner_instance, _active_http_bridge_instance_ring.
  destruct (_normalized_http_bridge_instance_ring settings) as [instance static]. destruct (list_active RING_STALE_THRESHOLD_SECONDS true now t) as [|a l] eqn:E.
  { unfold members in Hn. rewrite E in Hn. simpl in Hn. lia. }
  rewrite <- E. fold (members now t). destruct (members now t) as [|x [|y l']]; simpl in Hn; [lia..|]. cbn [length Nat.leb]. by rewrite Ho.
Qed.

(** *** Samples *)

Definition sample_member (i : string) (at_s : Z) (endpoint : option string) : BridgeRingMember :=
  {| rm_id := i; rm_instance_id := i; registered_at := 0; last_heartbeat_at := seconds at_s; metadata_json := _bridge_ring_metadata_json endpoint |}.
Definition sample_ring : list BridgeRingMember := [sample_member "pod-b" 100 (Some "http://b:1"); sample_member "pod-a" 100 (Some "http://a:1/")].
Definition pod (i : string) : Settings := {| instance_id_setting := i; instance_ring_setting := [] |}.
Definition sample_key : _HTTPBridgeSessionKey := {| affinity_kind := "turn_state_header"; affinity_key := "t1"; api_key_id := None |}.

(** When only one instance is alive in the table, every other instance takes
    itself for the owner of every session. *)
Theorem lone_member_not_owner :
  members (seconds 110) [sample_member "pod-b" 100 (Some "http://b:1"); sample_member "pod-a" 70 (Some "http://a:1")] = ["pod-b"] ∧
  ∀ sha256, _http_bridge_owner_instance sha256 sample_key (pod "pod-a")
    (Some (Some (seconds 110, [sample_member "pod-b" 100 (Some "http://b:1"); sample_member "pod-a" 70 (Some "http://a:1")]))) = Some (Some "pod-a").
Proof. split; [by vm_compute|]. intros sha256. by vm_compute. Qed.

Lemma ring_owner_agreed_witness :
  ∃ owner, owner ∈ members (seconds 110) sample_ring ∧
    ∀ settings, _http_bridge_owner_instance (λ s, s) sample_key settings (Some (Some (seconds 110, sample_ring))) = Some (Some owner).
Proof. apply (ring_owner_agreed (λ s, s) sample_key (seconds 110) sample_ring). vm_compute. lia. Defined.

Lemma endpoint_roundtrip_witness :
  resolve_endpoint "pod-a" RING_STALE_THRESHOLD_SECONDS (seconds 125) (register "u" "pod-a" (Some " http://new:2/ ") (seconds 100) sample_ring)
  = Some "http://new:2".
Proof.
  apply (endpoint_roundtrip sample_ring "u" "pod-a" " http://new:2/ " (seconds 100) (seconds 125)).
  - apply (bool_decide_unpack _). vm_compute. exact I.
  - apply unicode_check; vm_compute; reflexivity.
Defined.

Lemma leaving_ages_out_witness :
  "pod-a" ∈ list_active RING_STALE_THRESHOLD_SECONDS false (seconds 115) (mark_stale "pod-a" RING_STALE_THRESHOLD_SECONDS RING_STALE_GRACE_SECONDS (seconds 100) sample_ring).
Proof.
  apply (leaving_ages_out sample_ring "pod-a" (seconds 100) (seconds 115)); [apply (bool_decide_unpack _); vm_compute; exact I|apply elem_of_map; eexists; split; [|by right; left]; reflexivity|vm_compute; discriminate].
Defined.

End RingFacts.
