(* ===== verification/RequestPolicy.v ===== *)
(** Chat requests and the policy on requests:
    [src/app/core/openai/chat_requests.py] and
    [src/app/modules/proxy/request_policy.py].

    A pydantic request object is its dump without null members: a member that is
    absent reads as [None], and assigning [None] removes it.  The order of members
    is not that of the class.  What pydantic itself checks (field types, lengths)
    has happened before. *)

From S2P Require Import Prelude Pricing QuotaKeys Json Requests ProxyEvents.
Import Json.Json Requests.JsonOps Requests.ResponsesRequests.

(** ** Chat requests *)
Module ChatRequests.
Import Requests.MessageCoercion.

Definition _SUPPORTED_CHAT_ROLES : list string := ["system"; "developer"; "user"; "assistant"; "tool"].

Definition _part_type (part : dict json) : option string :=
  match filled_str "type" part with
  | Some t => Some t
  | None => if bool_decide (is_Some (get_str "text" part)) then Some "text" else None
  end.
Definition is_part (t : string) (part : dict json) : bool := bool_decide (_part_type part = Some t).

(** [ValueError] of a validator. *)
Fixpoint check_all {A} (check : A → res string unit) (l : list A) : res string unit :=
  match l with [] => Ok tt | x :: l => let? _ := check x in check_all check l end.

(** *** Validators *)

Definition names_file (part : json) : bool :=
  match part with
  | JObj d => match get_obj "file" d with Some f => bool_decide (is_Some (filled_str "file_id" f)) | None => false end
  | _ => false
  end.
Definition _reject_file_id (messages : list json) : res string unit :=
  if existsb (λ m, match m with JObj d => existsb names_file (_content_parts (get_or_null "content" d)) | _ => false end) messages
  then Err "file_id is not supported" else Ok tt.

Definition text_only_part (part : dict json) : bool :=
  match get_or_null "type" part with JNull => true | t => is_str "text" t end && bool_decide (is_Some (get_str "text" part)).

Definition ensure_text_only (content : json) (role : string) : res string unit :=
  let refused := Err (role ++ " messages must be text-only.")%string in
  match content with
  | JNull | JStr _ => Ok tt
  | JList l => if forallb (λ part, match part with JStr _ => true | JObj d => text_only_part d | _ => false end) l then Ok tt else refused
  | JObj d => if text_only_part d then Ok tt else refused
  | _ => refused
  end.

Definition validate_user_part (part : json) : res string unit :=
  match part with
  | JStr _ => Ok tt
  | JObj d =>
      match _part_type d with
      | Some "text" => if bool_decide (is_Some (get_str "text" d)) then Ok tt else Err "Text content parts must include a string 'text'."
      | Some "image_url" =>
          match get_obj "image_url" d with
          | Some image => if bool_decide (is_Some (get_str "url" image)) then Ok tt else Err "Image content parts must include image_url.url."
          | None => Err "Image content parts must include image_url.url."
          end
      | Some "input_audio" => Err "Audio input is not supported."
      | Some "file" => if bool_decide (is_Some (get_obj "file" d)) then Ok tt else Err "File content parts must include file metadata."
      | Some t => Err ("Unsupported user content part type: " ++ t)%string
      | None => Err "Unsupported user content part type: None"
      end
  | _ => Err "User message content parts must be objects."
  end.
Definition _validate_user_content (content : json) : res string unit :=
  match content with JNull | JStr _ => Ok tt | _ => check_all validate_user_part (_content_parts content) end.

Definition _validate_tool_message (message : dict json) : res string unit :=
  match resolved_call_id message with Some _ => Ok tt | None => Err "tool messages must include 'tool_call_id'." end.

Definition validate_tool_call (indexed : nat * json) : res string unit :=
  let '(index, call) := indexed in
  let at_index text := ("assistant tool_calls[" ++ show_Z (Z.of_nat index) ++ "]" ++ text)%string in
  match call with
  | JObj d =>
      match filled_str "id" d, get_obj "function" d with
      | None, _ => Err (at_index " must include a non-empty 'id'.")
      | Some _, None => Err (at_index " must include a 'function' object.")
      | Some _, Some f => match filled_str "name" f with
                          | Some _ => Ok tt
                          | None => Err (at_index ".function must include a non-empty 'name'.")
                          end
      end
  | _ => Err (at_index " must be an object.")
  end.
Definition _validate_assistant_tool_calls (message : dict json) : res string unit :=
  match get_or_null "tool_calls" message with
  | JNull => Ok tt
  | JList calls => check_all validate_tool_call (imap (λ i c, (i, c)) calls)
  | _ => Err "assistant message 'tool_calls' must be an array."
  end.

Definition validate_message (message : json) : res string unit :=
  match message with
  | JObj d =>
      match get_str "role" d with
      | None => Err "Each message must include a string 'role'."
      | Some role =>
          if negb (mem role _SUPPORTED_CHAT_ROLES) then Err ("Unsupported message role: " ++ role)%string
          else if mem role ["system"; "developer"] then ensure_text_only (get_or_null "content" d) role
          else if String.eqb role "user" then _validate_user_content (get_or_null "content" d)
          else if String.eqb role "assistant" then _validate_assistant_tool_calls d
          else _validate_tool_message d
      end
  | _ => Err "'messages' must contain objects."
  end.
Definition _validate_messages (messages : list json) : res string unit :=
  match messages with [] => Err "'messages' must be a non-empty list." | _ => check_all validate_message messages end.

(** *** Oversized images *)

(** [text.split(",", 1)] and [text.count("=")]. *)
Fixpoint split_comma (s : string) : option (string * string) :=
  match s with
  | EmptyString => None
  | String c s' => if Ascii.eqb c "," then Some ("", s')
                   else match split_comma s' with Some (l, r) => Some (String c l, r) | None => None end
  end.
Fixpoint count_char (c : ascii) (s : string) : Z :=
  match s with EmptyString => 0 | String d s' => (if Ascii.eqb d c then 1 else 0) + count_char c s' end%Z.

Definition _is_oversized_data_url (url : string) : bool :=
  if negb (startswith "data:" url) then false
  else match split_comma url with
       | None => false
       | Some (header, data) =>
           if negb (contains ";base64" header) then false
           else (8 * 1024 * 1024 <? Z.of_nat (String.length data) * 3 / 4 - count_char "=" data)%Z
       end.

Definition oversized_part (part : json) : bool :=
  match part with
  | JObj d => is_part "image_url" d
              && match get_obj "image_url" d with
                 | Some image => match get_str "url" image with Some url => _is_oversized_data_url url | None => false end
                 | None => false
                 end
  | _ => false
  end.

Definition _drop_oversized_images (content : json) : json :=
  match content with
  | JNull | JStr _ => content
  | JList l => JList (List.filter (λ part, negb (oversized_part part)) l)
  | part => if oversized_part part then JStr "" else part
  end.

Definition sanitize_user_message (message : json) : json :=
  match message with
  | JObj d =>
      if is_str "user" (get_or_null "role" d)
      then match _drop_oversized_images (get_or_null "content" d) with JNull => JObj d | content => JObj (dict_set d "content" content) end
      else message
  | m => m
  end.
Definition _sanitize_user_messages (messages : list json) : list json := map sanitize_user_message messages.

(** *** Tools *)

(** [value or default] for a JSON value. *)
Definition or_json (v d : json) : json := if truthy v then v else d.

Definition normalize_chat_tool (tool : json) : option json :=
  match tool with
  | JObj d =>
      match get_obj "function" d with
      | Some f =>
          match filled_str "name" f with
          | Some name =>
              Some (JObj ([("type", or_json (get_or_null "type" d) (JStr "function")); ("name", JStr name);
                           ("description", get_or_null "description" f); ("parameters", get_or_null "parameters" f)]
                          ++ match get_or_null "strict" f with JBool b => [("strict", JBool b)] | _ => [] end))
          | None => None
          end
      | None =>
          let by_name := match filled_str "name" d with Some _ => Some tool | None => None end in
          match get_str "type" d with
          | Some t => if String.eqb (normalize_tool_type t) "web_search" then Some (JObj (with_normal_type d)) else by_name
          | None => by_name
          end
      end
  | _ => None
  end.
Definition _normalize_chat_tools (tools : list json) : list json := omap normalize_chat_tool tools.

Definition _normalize_tool_choice (tool_choice : json) : json :=
  match tool_choice with
  | JObj d =>
      let d := if is_str "web_search_preview" (get_or_null "type" d) then dict_set d "type" (JStr "web_search") else d in
      match get_obj "function" d with
      | Some f => match filled_str "name" f with
                  | Some name => JObj [("type", or_json (get_or_null "type" d) (JStr "function")); ("name", JStr name)]
                  | None => JObj d
                  end
      | None => JObj d
      end
  | c => c
  end.

(** *** The response format *)

(** What pydantic reads of a [response_format] object, a [text] object and a
    [strict] flag is an argument; its errors are [ValidationError]s, those of the
    functions below plain [ValueError]s. *)
Inductive failure := ValueError (text : string) | ClientFailure (e : ClientPayloadError) | ValidationError (text : string).

Record ChatResponseFormat := { crf_type : string; crf_schema : option (json * option string * option bool) }.

Definition text_format (fields : list (string * json)) : json := JObj (List.filter (λ p, negb (is_null p.2)) fields).
Definition opt_str (o : option string) : json := match o with Some s => JStr s | None => JNull end.
Definition opt_bool (o : option bool) : json := match o with Some b => JBool b | None => JNull end.

Definition _text_format_from_type (format_type : string) : res failure json :=
  if mem format_type ["json_object"; "text"] then Ok (text_format [("type", JStr format_type)])
  else if String.eqb format_type "json_schema" then Err (ValueError "'response_format' must include 'json_schema' when type is 'json_schema'.")
  else Err (ValueError ("Unsupported response_format.type: " ++ format_type)%string).

Definition _text_format_from_parsed (parsed : ChatResponseFormat) : res failure json :=
  if String.eqb (crf_type parsed) "json_schema" then
    match crf_schema parsed with
    | None => Err (ValueError "'response_format.json_schema' is required when type is 'json_schema'.")
    | Some (schema, name, strict) =>
        Ok (text_format [("type", JStr (crf_type parsed)); ("strict", opt_bool strict); ("schema", schema); ("name", opt_str name)])
    end
  else if mem (crf_type parsed) ["json_object"; "text"] then Ok (text_format [("type", JStr (crf_type parsed))])
  else Err (ValueError ("Unsupported response_format.type: " ++ crf_type parsed)%string).

Section Format.
Context (read_format : dict json → res failure ChatResponseFormat) (read_text : dict json → res failure (dict json)).

Definition _response_format_to_text_format (response_format : json) : res failure json :=
  match response_format with
  | JStr t => _text_format_from_type t
  | JObj d => let? parsed := read_format d in _text_format_from_parsed parsed
  | _ => Err (ValueError "'response_format' must be a string or object.")
  end.

Definition _parse_text_controls (text : json) : res failure (dict json) :=
  match text with
  | JNull => Ok []
  | JObj d => read_text d
  | _ => Err (ValueError "'text' must be an object when using 'response_format'.")
  end.

Definition _apply_response_format (data : dict json) (response_format : json) : res failure (dict json) :=
  let? controls := _parse_text_controls (get_or_null "text" data) in
  if has "format" controls then Err (ValueError "Provide either 'response_format' or 'text.format', not both.")
  else let? format := _response_format_to_text_format response_format in
       Ok (dict_set data "text" (JObj (dict_set controls "format" format))).

(** *** As a Responses request *)

(** The members that do not go upstream. *)
Definition CHAT_ONLY : list string :=
  ["messages"; "store"; "n"; "max_tokens"; "max_completion_tokens"; "response_format"; "stream_options"; "tools"; "tool_choice"; "reasoning_effort"].

Definition with_effort (dumped data : dict json) : dict json :=
  match get_or_null "reasoning_effort" dumped with
  | JNull => data
  | e => if has "reasoning" data then data else dict_set data "reasoning" (JObj [("effort", e)])
  end.
Definition with_stream_options (dumped data : dict json) : dict json :=
  match get_obj "stream_options" dumped with
  | Some o => match get_or_null "include_obfuscation" o with
              | JNull => data
              | v => dict_set data "stream_options" (JObj [("include_obfuscation", v)])
              end
  | None => data
  end.

(** The members given to [ResponsesRequest.model_validate]. *)
Definition to_responses_request (dumped : dict json) : res failure (dict json) :=
  let messages := _sanitize_user_messages (default [] (get_list "messages" dumped)) in
  let data := fold_left dict_del CHAT_ONLY dumped in
  let tools := _normalize_chat_tools (default [] (get_list "tools" dumped)) in
  let tool_choice := _normalize_tool_choice (get_or_null "tool_choice" dumped) in
  let data := normalize_reasoning_aliases (with_effort dumped data) in
  let? data := match get_or_null "response_format" dumped with JNull => Ok data | f => _apply_response_format data f end in
  let data := with_stream_options dumped data in
  match coerce_messages "" messages with
  | Err e => Err (ClientFailure e)
  | Ok (instructions, input_items) =>
      let data := dict_set (dict_set (dict_set data "instructions" (JStr instructions)) "input" (JList input_items)) "tools" (JList tools) in
      Ok (match tool_choice with JNull => data | c => dict_set data "tool_choice" c end)
  end.

End Format.
End ChatRequests.

(** ** The policy on requests *)
Module RequestPolicy.
Import QuotaKeys.ModelRegistry.
Import Requests.StrictSchema ProxyEvents.ProxyErrors.

Definition _UNSUPPORTED_UPSTREAM_REASONING_EFFORTS : list string := ["minimal"].
Definition _DEFAULT_REASONING_EFFORT_FALLBACK : string := "low".
Definition _UPSTREAM_OMIT_SERVICE_TIERS : list string := ["auto"; "default"].

(** What the policy reads of an API key. *)
Record ApiKeyData := {
  allowed_models : option (list string); enforced_model : option string; enforced_reasoning_effort : option string;
  enforced_service_tier : option string }.

(** [ProxyModelNotAllowed] with its message. *)
Definition validate_model_access (api_key : option ApiKeyData) (model : option string) : res string unit :=
  match api_key with
  | None => Ok tt
  | Some key =>
      match allowed_models key, model with
      | None, _ | Some [], _ | _, None => Ok tt
      | Some allowed, Some m => if mem m allowed then Ok tt else Err ("This API key does not have access to model '" ++ m ++ "'")%string
      end
  end.

(** *** Reasoning effort *)

Definition unsupported_effort (e : string) : bool := mem (py_lower (py_strip e)) _UNSUPPORTED_UPSTREAM_REASONING_EFFORTS.

(** [snapshot.models.get(model) or ...get(model.strip().lower())]. *)
Definition find_model (model : string) (s : ModelRegistrySnapshot) : option UpstreamModel :=
  match models s !! model with Some m => Some m | None => models s !! py_lower (py_strip model) end.

Definition _resolve_reasoning_effort_fallback (model : string) (registry : ModelRegistry) : string :=
  if String.eqb model "" then _DEFAULT_REASONING_EFFORT_FALLBACK
  else match get_snapshot registry with
       | None => _DEFAULT_REASONING_EFFORT_FALLBACK
       | Some s =>
           match find_model model s with
           | None => _DEFAULT_REASONING_EFFORT_FALLBACK
           | Some upstream =>
               let advertised := List.filter (λ e, negb (String.eqb e "")) (map ModelRegistry.effort (supported_reasoning_levels upstream)) in
               default _DEFAULT_REASONING_EFFORT_FALLBACK (List.find (λ e, negb (unsupported_effort e)) advertised)
           end
       end.

(** [payload.reasoning.effort]. *)
Definition request_effort (payload : dict json) : option string :=
  match get_obj "reasoning" payload with Some r => get_str "effort" r | None => None end.
Definition request_model (payload : dict json) : string := default "" (get_str "model" payload).
(** [payload.reasoning.effort = value]; the object is created if it is missing. *)
Definition set_effort (value : string) (payload : dict json) : dict json :=
  dict_set payload "reasoning" (JObj (dict_set (default [] (get_obj "reasoning" payload)) "effort" (JStr value))).

Definition normalize_unsupported_reasoning_effort (registry : ModelRegistry) (payload : dict json) : dict json :=
  match request_effort payload with
  | None => payload
  | Some e => if unsupported_effort e then set_effort (_resolve_reasoning_effort_fallback (request_model payload) registry) payload else payload
  end.

(** *** Enforcement *)

Definition enforce_model (key : ApiKeyData) (payload : dict json) : dict json :=
  match enforced_model key with
  | Some m => if String.eqb m "" || String.eqb (request_model payload) m then payload else dict_set payload "model" (JStr m)
  | None => payload
  end.
Definition enforce_effort (key : ApiKeyData) (payload : dict json) : dict json :=
  match enforced_reasoning_effort key with Some e => set_effort e payload | None => payload end.
Definition enforce_tier (key : ApiKeyData) (payload : dict json) : dict json :=
  match enforced_service_tier key with
  | Some t => if mem t _UPSTREAM_OMIT_SERVICE_TIERS then dict_del payload "service_tier" else dict_set payload "service_tier" (JStr t)
  | None => payload
  end.

Definition apply_api_key_enforcement (registry : ModelRegistry) (payload : dict json) (api_key : option ApiKeyData) : dict json :=
  match api_key with
  | None => normalize_unsupported_reasoning_effort registry payload
  | Some key => enforce_tier key (normalize_unsupported_reasoning_effort registry (enforce_effort key (enforce_model key payload)))
  end.

Definition _effective_model_for_api_key (api_key : option ApiKeyData) (requested_model : string) : string :=
  match api_key with Some key => default requested_model (enforced_model key) | None => requested_model end.

(** *** Refusals *)

(** [ClientPayloadError] with all its members. *)
Record PayloadError := { pe_message : string; pe_param : option string; pe_code : option string; pe_type : option string }.

Definition with_param (param : option string) (error : dict json) : dict json :=
  match filled param, get_obj "error" error with
  | Some p, Some e => dict_set error "error" (JObj (dict_set e "param" (JStr p)))
  | _, _ => error
  end.
Definition openai_invalid_payload_error (param : option string) : dict json :=
  with_param param (openai_error "invalid_request_error" "Invalid request payload" "invalid_request_error").
(** The parts of the first error's location, if there is one. *)
Definition openai_validation_error (loc : option (list string)) : dict json :=
  match loc with
  | Some parts => openai_invalid_payload_error (Some (String.concat "." (List.filter (λ p, negb (String.eqb p "body")) parts)))
  | None => openai_invalid_payload_error None
  end.
Definition openai_client_payload_error (exc : PayloadError) : dict json :=
  match pe_code exc, pe_type exc with
  | None, None => openai_invalid_payload_error (pe_param exc)
  | _, _ => with_param (pe_param exc)
              (openai_error (or_s (pe_code exc) "invalid_request_error") (pe_message exc) (or_s (pe_type exc) "invalid_request_error"))
  end.

Definition refused_schema (violation : StrictSchemaError) : PayloadError :=
  {| pe_message := message violation; pe_param := Some (param violation); pe_code := Some (code violation); pe_type := Some "invalid_request_error" |}.

(** *** Strict schemas *)

Definition strict_flag (d : dict json) : bool := match get_or_null "strict" d with JBool true => true | _ => false end.

Definition enforce_strict_text_format (request : dict json) : res PayloadError unit :=
  match get_obj "text" request with
  | None => Ok tt
  | Some text =>
      match get_obj "format" text with
      | None => Ok tt
      | Some format =>
          if negb (is_str "json_schema" (get_or_null "type" format)) || negb (strict_flag format) then Ok tt
          else match get_or_null "schema" format with
               | JNull => Ok tt
               | schema => match validate_strict_json_schema schema (get_str "name" format) "text.format.schema" with
                           | None => Ok tt
                           | Some violation => Err (refused_schema violation)
                           end
               end
      end
  end.

(** The object that describes a function, in the Responses or the chat shape. *)
Definition descriptor (nested : bool) (tool : json) : option (dict json) :=
  match tool with
  | JObj d => if nested then get_obj "function" d else if is_str "function" (get_or_null "type" d) then Some d else None
  | _ => None
  end.

(** The schema a tool must be checked against, with the function's name. *)
Definition strict_parameters (nested : bool) (tool : json) : option (json * option string) :=
  match descriptor nested tool with
  | None => None
  | Some d => if strict_flag d
              then match get_or_null "parameters" d with JNull => None | schema => Some (schema, get_str "name" d) end
              else None
  end.

Definition check_tool (param : string) (nested : bool) (tool : json) : res PayloadError unit :=
  match strict_parameters nested tool with
  | None => Ok tt
  | Some (schema, name) =>
      match validate_strict_function_tool_schema schema name param with
      | None => Ok tt
      | Some violation => Err (refused_schema violation)
      end
  end.

(** [template] is the parameter's name at an index. *)
Fixpoint check_tools (template : nat → string) (nested : bool) (index : nat) (tools : list json) : res PayloadError unit :=
  match tools with
  | [] => Ok tt
  | tool :: rest => let? _ := check_tool (template index) nested tool in check_tools template nested (S index) rest
  end.
Definition enforce_strict_function_tools_format (tools : list json) (template : nat → string) (nested : bool) : res PayloadError unit :=
  check_tools template nested 0 tools.

Definition responses_param (index : nat) : string := ("tools[" ++ show_Z (Z.of_nat index) ++ "].parameters")%string.
Definition chat_param (index : nat) : string := ("tools[" ++ show_Z (Z.of_nat index) ++ "].function.parameters")%string.

(** The checks after pydantic's on the way in. *)
Definition normalize_responses_request_payload (request : dict json) : res PayloadError (dict json) :=
  let? _ := enforce_strict_text_format request in
  let? _ := enforce_strict_function_tools_format (default [] (get_list "tools" request)) responses_param false in
  Ok request.

(** An answer with status 400, or an exception no handler of the route expects,
    which is answered with status 500. *)
Inductive refusal := BadRequest (error : dict json) | InternalError.

(** What a chat completion passes before it is streamed: the route checks the
    tools as they came and the text format of the request they become; it
    handles [ClientPayloadError] and [ValidationError].  The location pydantic
    gives is not modelled. *)
Definition chat_admission (registry : ModelRegistry) (api_key : option ApiKeyData)
    (read_format : dict json → res ChatRequests.failure ChatRequests.ChatResponseFormat)
    (read_text : dict json → res ChatRequests.failure (dict json)) (dumped : dict json) : res refusal (dict json) :=
  match enforce_strict_function_tools_format (default [] (get_list "tools" dumped)) chat_param true with
  | Err e => Err (BadRequest (openai_client_payload_error e))
  | Ok _ =>
      match ChatRequests.to_responses_request read_format read_text dumped with
      | Err (ChatRequests.ValueError _) => Err InternalError
      | Err (ChatRequests.ClientFailure e) => Err (BadRequest (openai_invalid_payload_error (Some (MessageCoercion.cp_param e))))
      | Err (ChatRequests.ValidationError _) => Err (BadRequest (openai_validation_error None))
      | Ok request =>
          match enforce_strict_text_format request with
          | Err e => Err (BadRequest (openai_client_payload_error e))
          | Ok _ => Ok (apply_api_key_enforcement registry request api_key)
          end
      end
  end.

End RequestPolicy.
