(* ===== verification/PolicyFacts.v ===== *)
(** Properties of the policy on requests and of chat requests: what an API key
    enforces reaches the request, which efforts, tools and messages pass, and
    four ways around the checks. *)

From S2P Require Import Prelude QuotaKeys Json Requests RequestFacts ProxyEvents RequestPolicy.
Import Json.Json Json.JsonFacts Requests.JsonOps Requests.ResponsesRequests.
Import RequestPolicy.RequestPolicy QuotaKeys.ModelRegistry.

(** ** Enforcement *)
Module EnforcementFacts.

Lemma dict_get_del_ne {V} (d : dict V) k k' : k' ≠ k → dict_get (dict_del d k) k' = dict_get d k'.
Proof.
  intros Hne. unfold dict_del. induction d as [|[k0 v] d IH]; [done|]. simpl. destruct (String.eqb_spec k0 k) as [->|H]; simpl.
  - rewrite (proj2 (String.eqb_neq k' k)) by done. done.
  - by rewrite IH.
Qed.

Lemma get_str_set_ne k k' v d : k' ≠ k → get_str k' (dict_set d k v) = get_str k' d.
Proof. intros H. unfold get_str. by rewrite dict_get_set, (proj2 (String.eqb_neq k' k)). Qed.

(** *** Efforts *)

Lemma fallback_supported model registry : unsupported_effort (_resolve_reasoning_effort_fallback model registry) = false.
Proof.
  unfold _resolve_reasoning_effort_fallback. case_if; [done|]. destruct (get_snapshot registry) as [s|]; [|done].
  destruct (find_model model s) as [m|]; [|done]. destruct (List.find _ _) as [e|] eqn:E; [|done].
  apply List.find_some in E as [_ E]. by apply negb_true_iff in E.
Qed.

Lemma effort_set e payload : request_effort (set_effort e payload) = Some e.
Proof. unfold request_effort, set_effort, get_obj, get_str. by rewrite dict_get_set, String.eqb_refl, dict_get_set, String.eqb_refl. Qed.

Definition supported (payload : dict json) : Prop := match request_effort payload with Some e => unsupported_effort e = false | None => True end.

Lemma normalize_supported registry payload : supported (normalize_unsupported_reasoning_effort registry payload).
Proof.
  unfold supported, normalize_unsupported_reasoning_effort. destruct (request_effort payload) as [e|] eqn:E; [|by rewrite E].
  case_if; [rewrite effort_set; apply fallback_supported|by rewrite E].
Qed.

Lemma tier_effort key payload : request_effort (enforce_tier key payload) = request_effort payload.
Proof.
  unfold enforce_tier, request_effort, get_obj. destruct (enforced_service_tier key) as [t|]; [|done].
  case_if; [by rewrite dict_get_del_ne|by rewrite dict_get_set].
Qed.

(** *** Members *)

Lemma set_effort_other e payload k : k ≠ "reasoning" → dict_get (set_effort e payload) k = dict_get payload k.
Proof. intros H. unfold set_effort. by rewrite dict_get_set, (proj2 (String.eqb_neq k _)). Qed.

Lemma normalize_other registry payload k : k ≠ "reasoning" → dict_get (normalize_unsupported_reasoning_effort registry payload) k = dict_get payload k.
Proof. intros H. unfold normalize_unsupported_reasoning_effort. destruct (request_effort payload); [|done]. case_if; [by apply set_effort_other|done]. Qed.

Lemma effort_other key payload k : k ≠ "reasoning" → dict_get (enforce_effort key payload) k = dict_get payload k.
Proof. intros H. unfold enforce_effort. destruct (enforced_reasoning_effort key); [by apply set_effort_other|done]. Qed.

Lemma tier_other key payload k : k ≠ "service_tier" → dict_get (enforce_tier key payload) k = dict_get payload k.
Proof.
  intros H. unfold enforce_tier. destruct (enforced_service_tier key); [|done].
  case_if; [by apply dict_get_del_ne|by rewrite dict_get_set, (proj2 (String.eqb_neq k _))].
Qed.

Lemma model_other key payload k : k ≠ "model" → dict_get (enforce_model key payload) k = dict_get payload k.
Proof. intros H. unfold enforce_model. destruct (enforced_model key); [|done]. case_if; [done|]. by rewrite dict_get_set, (proj2 (String.eqb_neq k _)). Qed.

Lemma enforced_request_model key payload : request_model (enforce_model key payload) = or_s (enforced_model key) (request_model payload).
Proof.
  unfold enforce_model, or_s. destruct (enforced_model key) as [m|]; [|done]. destruct (String.eqb_spec m "") as [->|Hm]; [done|]. cbn [orb].
  destruct (String.eqb_spec (request_model payload) m) as [E|E]; [done|]. unfold request_model, get_str. by rewrite dict_get_set, String.eqb_refl.
Qed.

(** The tier that goes upstream for the one a key enforces. *)
Definition enforced_tier (t : string) : option json := if mem t _UPSTREAM_OMIT_SERVICE_TIERS then None else Some (JStr t).

Lemma dict_get_del {V} (d : dict V) k : dict_get (dict_del d k) k = None.
Proof.
  unfold dict_del. induction d as [|[k0 v] d IH]; [done|]. simpl. destruct (String.eqb_spec k0 k) as [->|H]; simpl; [done|].
  by rewrite (proj2 (String.eqb_neq k k0)).
Qed.

(** What an API key enforces is what the request asks for afterwards: its model,
    its service tier (none for those upstream picks itself) and its effort,
    unless upstream does not know it; whatever the client asked for, no effort
    is left in [reasoning] that upstream does not know; nothing else changes. *)
Theorem enforcement_spec registry payload key :
  let request := apply_api_key_enforcement registry payload (Some key) in
  request_model request = or_s (enforced_model key) (request_model payload) ∧
  dict_get request "service_tier" = match enforced_service_tier key with Some t => enforced_tier t | None => dict_get payload "service_tier" end ∧
  (∀ e, enforced_reasoning_effort key = Some e → unsupported_effort e = false → request_effort request = Some e) ∧
  supported request ∧
  ∀ k, k ∉ ["model"; "reasoning"; "service_tier"] → dict_get request k = dict_get payload k.
Proof.
  cbv zeta. unfold apply_api_key_enforcement. split_and!.
  - rewrite <- enforced_request_model. unfold request_model, get_str. by rewrite tier_other, normalize_other, effort_other.
  - unfold enforce_tier, enforced_tier. destruct (enforced_service_tier key) as [t|]; [case_if; [apply dict_get_del|by rewrite dict_get_set]|].
    by rewrite normalize_other, effort_other, model_other.
  - intros e He Hs. rewrite tier_effort. unfold enforce_effort. rewrite He. unfold normalize_unsupported_reasoning_effort. by rewrite effort_set, Hs, effort_set.
  - unfold supported. rewrite tier_effort. apply normalize_supported.
  - intros k Hk. rewrite tier_other, normalize_other, effort_other, model_other; [done|set_solver..].
Qed.

End EnforcementFacts.

(** ** Tools *)
Module StrictToolFacts.
Import Requests.StrictSchema RequestPolicy.ChatRequests.

(** A tool with nothing to object to. *)
Definition tool_ok (nested : bool) (tool : json) : Prop :=
  match strict_parameters nested tool with Some (schema, _) => _find_violation schema [] = None | None => True end.

Lemma check_tool_ok param nested tool : check_tool param nested tool = Ok tt ↔ tool_ok nested tool.
Proof.
  unfold check_tool, tool_ok. destruct (strict_parameters nested tool) as [[schema name]|]; [|done].
  unfold validate_strict_function_tool_schema. by destruct (_find_violation schema []) as [[path reason]|].
Qed.

Lemma check_tools_ok template nested index tools : check_tools template nested index tools = Ok tt ↔ Forall (tool_ok nested) tools.
Proof.
  revert index. induction tools as [|tool tools IH]; intros index; [split; [constructor|done]|]. cbn [check_tools]. rewrite Forall_cons, <- (IH (S index)).
  rewrite <- (check_tool_ok (template index)). destruct (check_tool (template index) nested tool) as [[]|e]; simpl; [tauto|]. split; [done|by intros [? _]].
Qed.

Lemma check_tools_err template nested index tools e : check_tools template nested index tools = Err e →
  ∃ before tool after, tools = before ++ tool :: after ∧ Forall (tool_ok nested) before ∧ ¬ tool_ok nested tool ∧
    check_tool (template (index + length before)) nested tool = Err e.
Proof.
  revert index. induction tools as [|tool tools IH]; intros index; [done|]. cbn [check_tools]. destruct (check_tool (template index) nested tool) as [[]|e'] eqn:E; simpl.
  - intros (before & t & after & -> & Hb & Ht & He)%IH. exists (tool :: before), t, after. split_and!; [done| |done|].
    + constructor; [by apply (check_tool_ok (template index))|done].
    + simpl. by rewrite Nat.add_succ_r.
  - intros [= ->]. exists [], tool, tools. split_and!; [done|constructor| |by rewrite Nat.add_0_r]. rewrite <- (check_tool_ok (template index)). congruence.
Qed.

(** Tools pass exactly when the parameters of each strict function are a strict
    schema; otherwise the first one that fails is named by its place, with the
    code of a bad function schema. *)
Theorem strict_tools_spec tools template nested :
  match enforce_strict_function_tools_format tools template nested with
  | Ok _ => Forall (tool_ok nested) tools
  | Err e => ∃ before tool after, tools = before ++ tool :: after ∧ Forall (tool_ok nested) before ∧ ¬ tool_ok nested tool ∧
      pe_param e = Some (template (length before)) ∧ pe_code e = Some "invalid_function_parameters"
  end.
Proof.
  unfold enforce_strict_function_tools_format. destruct (check_tools template nested 0 tools) as [[]|e] eqn:E; [by apply check_tools_ok in E|].
  apply check_tools_err in E as (before & tool & after & -> & Hb & Ht & He). exists before, tool, after. split_and!; [done..| |].
  all: unfold check_tool in He; destruct (strict_parameters nested tool) as [[schema name]|]; [|done]; unfold validate_strict_function_tool_schema in He;
    destruct (_find_violation schema []) as [[path reason]|]; [|done]; by injection He as <-.
Qed.

(** *** Chat tools *)

(** A function in the shape of the Responses API. *)
Definition flat_function (tool : json) : bool :=
  match tool with JObj d => negb (bool_decide (is_Some (get_obj "function" d))) | _ => false end.

Lemma lockstep tool tool' : normalize_chat_tool tool = Some tool' → flat_function tool = false → tool_ok true tool → tool_ok false tool'.
Proof.
  destruct tool as [| | | | |l|d]; try done. cbn [normalize_chat_tool flat_function]. destruct (get_obj "function" d) as [f|] eqn:Ef; [|by intros _ H].
  destruct (filled_str "name" f) as [name|] eqn:En; [|done]. intros [= <-] _. unfold tool_ok, strict_parameters, descriptor. rewrite Ef.
  match goal with |- context [is_str "function" (get_or_null "type" ?d')] => set (normal := d') end.
  assert (strict_flag normal = strict_flag f) as Hs by (unfold strict_flag, normal, get_or_null; cbn; by destruct (default JNull (dict_get f "strict")) as [|[]| | | | |]).
  assert (get_or_null "parameters" normal = get_or_null "parameters" f) as Hp by done. clearbody normal.
  destruct (is_str "function" (get_or_null "type" normal)); [|done]. rewrite Hs. destruct (strict_flag f); [|done]. rewrite Hp. by destruct (get_or_null "parameters" f).
Qed.

(** The check on the tools of a chat request as they came is not weaker than the
    check of the tools they become, if none is a function in the shape of the
    Responses API. *)
Theorem chat_tools_lockstep tools template template' : Forall (λ t, flat_function t = false) tools →
  enforce_strict_function_tools_format tools template true = Ok tt →
  enforce_strict_function_tools_format (_normalize_chat_tools tools) template' false = Ok tt.
Proof.
  unfold enforce_strict_function_tools_format. intros Hf H%check_tools_ok. apply check_tools_ok. unfold _normalize_chat_tools.
  induction tools as [|tool tools IH]; [constructor|]. apply Forall_cons in Hf as [Hf Hfs]. apply Forall_cons in H as [Ht Hts]. csimpl.
  destruct (normalize_chat_tool tool) as [tool'|] eqn:E; [|by apply IH]. constructor; [by eapply lockstep|by apply IH].
Qed.

(** *** Samples *)

Definition open_schema : json := JObj [("type", JStr "object"); ("properties", JObj [("a", JObj [("type", JStr "string")])])].
Definition flat_tool : json := JObj [("type", JStr "function"); ("name", JStr "f"); ("strict", JBool true); ("parameters", open_schema)].
Definition nested_tool : json :=
  JObj [("type", JStr "function"); ("function", JObj [("name", JStr "f"); ("strict", JBool true); ("parameters", open_schema)])].
Definition loose_tool : json := JObj [("type", JStr "function"); ("function", JObj [("name", JStr "g"); ("parameters", open_schema)])].

(** A strict function in the shape of the Responses API passes the check of a chat
    request although its schema is not strict, and goes upstream as it is; the
    same function in the chat shape is refused. *)
Theorem flat_chat_tool_unchecked :
  enforce_strict_function_tools_format [flat_tool] chat_param true = Ok tt ∧ _normalize_chat_tools [flat_tool] = [flat_tool] ∧
  ¬ tool_ok false flat_tool ∧ enforce_strict_function_tools_format [nested_tool] chat_param true ≠ Ok tt.
Proof. split_and!; by vm_compute. Qed.

Lemma chat_tools_lockstep_witness :
  enforce_strict_function_tools_format (_normalize_chat_tools [loose_tool]) responses_param false = Ok tt.
Proof. apply (chat_tools_lockstep [loose_tool] chat_param responses_param); [repeat constructor|vm_compute; reflexivity]. Defined.

End StrictToolFacts.

(** ** Chat messages *)
Module ChatMessageFacts.
Import Requests.MessageCoercion RequestPolicy.ChatRequests.

(** *** Validated messages can be coerced *)

(** What the validators leave to the coercion: arguments of calls are strings,
    answers of tools have text. *)
Definition call_arguments (call : json) : bool :=
  match call with
  | JObj d => match get_obj "function" d with Some f => bool_decide (is_Some (get_str "arguments" f)) | None => false end
  | _ => false
  end.
Definition answer_text (content : json) : bool :=
  match content with JStr _ | JList [] => true | JList l => negb (String.eqb (_concat_text_parts l) "") | _ => false end.
Definition complete_message (m : json) : bool :=
  match m with
  | JObj d =>
      if is_str "tool" (get_or_null "role" d) then answer_text (get_or_null "content" d)
      else if is_str "assistant" (get_or_null "role" d) then forallb call_arguments (default [] (get_list "tool_calls" d))
      else true
  | _ => true
  end.

Lemma check_all_ok {A} (check : A → res string unit) l : check_all check l = Ok tt → Forall (λ x, check x = Ok tt) l.
Proof. induction l as [|x l IH]; [constructor|]. simpl. destruct (check x) as [[]|e] eqn:E; [|done]. intros H. constructor; auto. Qed.

Lemma text_parts_agree d : text_only_part d = text_part d.
Proof. unfold text_only_part, text_part. by destruct (get_or_null "type" d). Qed.

Lemma text_only_agree content role : ensure_text_only content role = Ok tt → _ensure_text_only_content content role = Ok tt.
Proof.
  unfold ensure_text_only, _ensure_text_only_content. destruct content as [| | | |s|l|d]; try done; [|rewrite text_parts_agree; by case_if].
  replace (forallb (λ part, match part with JStr _ => true | JObj d => text_only_part d | _ => false end) l)
    with (forallb (λ part, match part with JStr _ => true | JObj d => text_part d | _ => false end) l); [by case_if|].
  induction l as [|x l IH]; [done|]. simpl. rewrite IH. destruct x; [done..|]. by rewrite text_parts_agree.
Qed.

Lemma call_converts i call : validate_tool_call (i, call) = Ok tt → call_arguments call = true → ∃ item, convert_tool_call call = Ok item.
Proof.
  unfold validate_tool_call, call_arguments, convert_tool_call. destruct call as [| | | | |l|d]; try done.
  destruct (filled_str "id" d) as [id|]; [|done]. destruct (get_obj "function" d) as [f|]; [|done]. destruct (filled_str "name" f) as [name|]; [|done].
  intros _ [s ->]%bool_decide_eq_true. by eexists.
Qed.

Lemma map_res_total {E A B} (f : A → res E B) l : Forall (λ x, ∃ y, f x = Ok y) l → ∃ ys, map_res f l = Ok ys.
Proof. induction 1 as [|x l [y Hy] _ [ys Hys]]; [by eexists|]. simpl. rewrite Hy. simpl. rewrite Hys. by eexists. Qed.

Lemma calls_convert d calls : get_or_null "tool_calls" d = JList calls → _validate_assistant_tool_calls d = Ok tt → forallb call_arguments calls = true →
  ∃ items, map_res convert_tool_call calls = Ok items.
Proof.
  intros Hc Hv Ha. unfold _validate_assistant_tool_calls in Hv. rewrite Hc in Hv. apply check_all_ok in Hv. apply map_res_total, Forall_forall. intros call Hin.
  apply list_elem_of_lookup in Hin as [i Hi]. apply (call_converts i).
  - apply (proj1 (Forall_forall _ _) Hv (i, call)). apply list_elem_of_lookup. exists i. by rewrite list_lookup_imap, Hi.
  - apply (proj1 (forallb_forall _ _) Ha), list_elem_of_In, list_elem_of_lookup. by exists i.
Qed.

Lemma message_coerced m : validate_message m = Ok tt → complete_message m = true → ∃ r, coerce_message m = Ok r.
Proof.
  unfold validate_message, complete_message, coerce_message. destruct m as [| | | | |l|d]; try done. unfold is_str.
  destruct (get_str "role" d) as [role|] eqn:Er; [|done]. change SUPPORTED_MESSAGE_ROLES with _SUPPORTED_CHAT_ROLES.
  assert (get_or_null "role" d = JStr role) as Hrole by (revert Er; unfold get_str, get_or_null; destruct (dict_get d "role") as [[]|]; naive_solver).
  rewrite Hrole. destruct (mem role _SUPPORTED_CHAT_ROLES) eqn:Em; [|done]. cbn [negb]. apply mem_spec in Em. unfold _SUPPORTED_CHAT_ROLES in Em.
  repeat (apply elem_of_cons in Em as [->|Em]); [..|by apply elem_of_nil in Em]; simpl.
  1-2: intros ->%text_only_agree _; by eexists.
  - by eexists.
  - intros Hv Ha. destruct (get_list "tool_calls" d) as [calls|] eqn:Ec; [|by eexists]. simpl in *.
    assert (get_or_null "tool_calls" d = JList calls) as Hc by (revert Ec; unfold get_list, get_or_null; destruct (dict_get d "tool_calls") as [[]|]; naive_solver).
    case_if; [|by eexists]. unfold _decompose_assistant_tool_calls. rewrite Ec. destruct (calls_convert d calls Hc Hv Ha) as [items ->]. by eexists.
  - unfold _validate_tool_message, _convert_tool_message. destruct (resolved_call_id d) as [id|]; [|done]. intros _.
    unfold answer_text. destruct (get_or_null "content" d) as [| | | |s|[|x l]|]; try done; [by eexists..|]. intros Ht%negb_true_iff. rewrite Ht. by eexists.
Qed.

Lemma sanitized_message m : validate_message m = Ok tt → complete_message m = true → ∃ r, coerce_message (sanitize_user_message m) = Ok r.
Proof.
  intros Hv Hc. unfold sanitize_user_message. destruct m as [| | | | |l|d]; try (by apply message_coerced). case_if; [|by apply message_coerced].
  assert (get_str "role" d = Some "user") as Hr.
  { revert Hb. unfold is_str, get_or_null, get_str. destruct (dict_get d "role") as [[]|]; simpl; try done. by intros ->%String.eqb_eq. }
  assert (∀ v, ∃ r, coerce_message (JObj (dict_set d "content" v)) = Ok r) as Hset.
  { intros v. unfold coerce_message. rewrite EnforcementFacts.get_str_set_ne, Hr by done. by eexists. }
  destruct (_drop_oversized_images (get_or_null "content" d)); try apply Hset. by apply message_coerced.
Qed.

(** Messages that pass the validators of a chat request, whose calls have text
    arguments and whose tool answers have text, become input items: the two
    layers of checks do not contradict each other. *)
Theorem validated_messages_coerced messages : _validate_messages messages = Ok tt → forallb complete_message messages = true →
  ∃ instructions items, coerce_messages "" (_sanitize_user_messages messages) = Ok (instructions, items).
Proof.
  intros Hv Hc. unfold coerce_messages. assert (Forall (λ m, validate_message m = Ok tt) messages) as Hall by (destruct messages; [done|by apply check_all_ok]).
  destruct (map_res_total coerce_message (_sanitize_user_messages messages)) as [results ->]; [|by eexists _, _].
  unfold _sanitize_user_messages. apply Forall_map, Forall_forall. intros m Hm. apply sanitized_message; [by apply (proj1 (Forall_forall _ _) Hall)|].
  by apply (proj1 (forallb_forall _ _) Hc), list_elem_of_In.
Qed.

End ChatMessageFacts.

(** ** Ways around the checks *)
Module PolicySamples.
Import Requests.MessageCoercion RequestPolicy.ChatRequests EnforcementFacts ChatMessageFacts.

Definition no_key : ApiKeyData := {| allowed_models := None; enforced_model := None; enforced_reasoning_effort := None; enforced_service_tier := None |}.
Definition sample_key : ApiKeyData :=
  {| allowed_models := None; enforced_model := Some "gpt-5.1"; enforced_reasoning_effort := Some "high"; enforced_service_tier := Some "auto" |}.
Definition sample_request : dict json :=
  [("model", JStr "gpt-5"); ("instructions", JStr ""); ("input", JList []); ("reasoningEffort", JStr "minimal")].

(** An effort upstream does not know that is given by an alias of another client
    passes the policy, which looks at [reasoning] only, and goes upstream. *)
Theorem alias_effort_reaches_upstream registry :
  supported (apply_api_key_enforcement registry sample_request (Some no_key)) ∧
  ∃ payload, _strip_unsupported_fields (apply_api_key_enforcement registry sample_request (Some no_key)) = Ok payload ∧
    request_effort payload = Some "minimal" ∧ unsupported_effort "minimal" = true.
Proof. split; [by vm_compute|]. eexists. split; [by vm_compute|]. split; by vm_compute. Qed.

Definition sample_chat (format : json) : dict json :=
  [("model", JStr "gpt-5"); ("messages", JList [JObj [("role", JStr "user"); ("content", JStr "hi")]]); ("response_format", format)].

(** A chat request with a response format that is not supported is answered with
    an internal error instead of a bad request: the route does not expect the
    exception. *)
Theorem bad_format_internal_error registry api_key read_format read_text t : mem t ["json_object"; "text"] = false →
  chat_admission registry api_key read_format read_text (sample_chat (JStr t)) = Err InternalError.
Proof.
  intros Ht. unfold chat_admission, to_responses_request, sample_chat. cbn -[mem]. unfold _text_format_from_type. rewrite Ht. by case_if.
Qed.

Definition sample_registry : ModelRegistry := {| _ttl_seconds := 300; _snapshot := None; _bootstrap_models := ∅ |}.

Lemma bad_format_internal_error_witness : chat_admission sample_registry None (λ _, Err (ValidationError "")) (λ d, Ok d) (sample_chat (JStr "xml")) = Err InternalError.
Proof. apply (bad_format_internal_error sample_registry None (λ _, Err (ValidationError "")) (λ d, Ok d) "xml"). reflexivity. Defined.

Lemma validated_messages_coerced_witness :
  ∃ instructions items, coerce_messages "" (_sanitize_user_messages
    [JObj [("role", JStr "system"); ("content", JStr "be brief")];
     JObj [("role", JStr "assistant"); ("tool_calls", JList [JObj [("id", JStr "c1"); ("function", JObj [("name", JStr "f"); ("arguments", JStr "{}")])]])];
     JObj [("role", JStr "tool"); ("tool_call_id", JStr "c1"); ("content", JStr "done")]]) = Ok (instructions, items).
Proof. apply validated_messages_coerced; vm_compute; reflexivity. Defined.

End PolicySamples.
