(* ===== verification/Affinity.v ===== *)
(** What a request is tied to, [src/app/modules/proxy/service.py].
    [Affinity]: the routing key of a request, from its headers and its payload;
    the key of the bridge session it belongs to; the conversation state kept
    between the requests of a websocket session.  [FilePins]: the accounts that
    uploaded files belong to.

    Headers are in the order of the mapping.  A request is the dump of the
    pydantic object without null members, as in [RequestPolicy]; a string is its
    UTF-8 bytes, so that a slice counts code points.  SHA-256 (as a hex digest)
    and UUIDs are arguments. *)

From S2P Require Import Prelude Models Json Requests ProxyEvents WsRequests RequestPolicy Ownership.
Import Json.Json Requests.JsonOps Requests.ResponsesRequests ProxyEvents.ProxyErrors WsRequests.WsRequests RequestPolicy.RequestPolicy Ownership.Owners.

Module Affinity.

(** ** Headers *)

(** [{key.lower(): value for key, value in headers.items()}]. *)
Definition lower_keys (headers : dict string) : dict string := fold_left (λ d p, dict_set d (py_lower p.1) p.2) headers [].
Definition stripped_header (k : string) (headers : dict string) : option string :=
  match dict_get (lower_keys headers) k with Some v => none_if_empty (py_strip v) | None => None end.

Definition SESSION_HEADERS : list string := ["session_id"; "x-codex-session-id"; "x-codex-conversation-id"].
Definition _sticky_key_from_session_header (headers : dict string) : option string :=
  head (omap (λ k, stripped_header k headers) SESSION_HEADERS).
Definition _sticky_key_from_turn_state_header (headers : dict string) : option string := stripped_header "x-codex-turn-state" headers.

Definition _owner_lookup_session_id_from_headers (headers : dict string) : option string :=
  match _sticky_key_from_turn_state_header headers with
  | Some turn_state => Some turn_state
  | None => _sticky_key_from_session_header headers
  end.

Definition _header_value_case_insensitive (headers : dict string) (name : string) : option string :=
  match List.find (λ p, String.eqb (py_lower p.1) (py_lower name)) headers with Some p => Some p.2 | None => None end.

Definition _headers_with_turn_state (headers : dict string) (turn_state : option string) : dict string :=
  match filled turn_state with Some t => dict_set headers "x-codex-turn-state" t | None => headers end.

(** *** Turn states the proxy makes up *)

Definition lower_hex (c : ascii) : bool :=
  let n := Ascii.N_of_ascii c in ((48 <=? n)%N && (n <=? 57)%N) || ((97 <=? n)%N && (n <=? 102)%N).
(** [[0-9a-f]{n}$]: the end of the string or a newline before it. *)
Fixpoint hex_tail (n : nat) (s : string) : bool :=
  match n, s with
  | O, "" => true
  | O, String c "" => Ascii.eqb c "010"
  | S n, String c s => lower_hex c && hex_tail n s
  | _, _ => false
  end.
Definition after_turn (s : string) : bool := match strip_prefix "turn_" s with Some rest => hex_tail 32 rest | None => false end.
Definition _is_synthesized_turn_state (value : string) : bool :=
  after_turn value || match strip_prefix "http_" value with Some rest => after_turn rest | None => false end.

Definition ensure_downstream_turn_state (uuid : string) (headers : dict string) : string :=
  default ("turn_" ++ uuid)%string (_sticky_key_from_turn_state_header headers).
Definition ensure_http_downstream_turn_state (uuid : string) (headers : dict string) : string :=
  default ("http_turn_" ++ uuid)%string (_sticky_key_from_turn_state_header headers).

Definition _response_create_client_metadata (payload : dict json) (headers : dict string) : option (dict json) :=
  let client_metadata := default [] (get_obj "client_metadata" payload) in
  let client_metadata :=
    match dict_get (lower_keys headers) "x-codex-turn-metadata" with
    | Some turn_metadata =>
        if String.eqb (py_strip turn_metadata) "" || has "x-codex-turn-metadata" client_metadata then client_metadata
        else dict_set client_metadata "x-codex-turn-metadata" (JStr turn_metadata)
    | None => client_metadata
    end in
  match client_metadata with [] => None | _ => Some client_metadata end.

(** ** Prompt cache keys *)

Definition _prompt_cache_key_from_request_model (payload : dict json) : option string :=
  match filled_str "prompt_cache_key" payload with Some k => Some k | None => filled_str "promptCacheKey" payload end.

Definition _extract_model_class (model : string) : string :=
  if contains "codex" model then "codex" else if contains "mini" model then "mini" else "std".

(** [s[:n]]. *)
Definition py_prefix (n : nat) (s : string) : string := JsonFacts.utf8_all (take n (code_points s)).

(** [json.dumps(v, ensure_ascii=False)] with the default separators. *)
Fixpoint write_spaced (v : json) : string :=
  match v with
  | JNull => "null"
  | JBool b => if b then "true" else "false"
  | JInt n => show_Z n
  | JFloat f => show_float f
  | JStr s => quote (escape s)
  | JList l => ("[" ++ String.concat ", " (map write_spaced l) ++ "]")%string
  | JObj d => ("{" ++ String.concat ", " (map (λ p, quote (escape p.1) ++ ": " ++ write_spaced p.2)%string d) ++ "}")%string
  end.

Definition is_user (item : json) : bool := match item with JObj d => is_str "user" (get_or_null "role" d) | _ => false end.
Definition part_text_of (part : json) : option string := match part with JObj p => get_str "text" p | _ => None end.

(** The text of a user message. *)
Definition user_text (item : dict json) : string :=
  let whole := py_prefix 512 (write_spaced (sort_keys (JObj item))) in
  match get_or_null "content" item with
  | JStr s => py_prefix 512 s
  | JList parts => match head (omap part_text_of parts) with Some text => py_prefix 512 text | None => whole end
  | _ => whole
  end.

Definition _extract_first_user_input (payload : dict json) : option string :=
  match get_or_null "input" payload with
  | JStr s => Some (py_prefix 512 s)
  | JList items => match List.find is_user items with Some (JObj d) => Some (user_text d) | _ => None end
  | _ => None
  end.

Section Keys.
Context (sha256 : string → string).

Definition _derive_prompt_cache_key (uuid : string) (payload : dict json) (api_key : option string) : string :=
  let model_class := match filled_str "model" payload with Some m => [_extract_model_class m] | None => [] end in
  let digest text := py_prefix 12 (sha256 (py_prefix 512 text)) in
  let parts :=
    match api_key with Some k => [py_prefix 12 k] | None => [] end
    ++ match filled_str "instructions" payload with Some i => [digest i] | None => [] end
    ++ match filled (_extract_first_user_input payload) with Some t => [digest t] | None => [] end in
  match parts with
  | [] => String.concat "-" (model_class ++ [py_prefix 24 uuid])
  | _ => String.concat "-" (model_class ++ parts)
  end.

(** The payload afterwards, the key and where it comes from. *)
Definition _resolve_prompt_cache_key (derivation_enabled : bool) (uuid : string) (payload : dict json) (openai_cache_affinity : bool)
    (api_key : option string) : dict json * option string * string :=
  match match _prompt_cache_key_from_request_model payload with Some k => none_if_empty (py_strip k) | None => None end with
  | Some stripped =>
      let unchanged := bool_decide (_prompt_cache_key_from_request_model payload = Some stripped) in
      (if unchanged then payload else dict_set payload "prompt_cache_key" (JStr stripped), Some stripped, "payload")
  | None =>
      if negb openai_cache_affinity || negb derivation_enabled then (payload, None, "none")
      else let key := _derive_prompt_cache_key uuid payload api_key in
           (dict_set payload "prompt_cache_key" (JStr key), Some key, "derived")
  end.

(** ** Routing *)

Record _AffinityPolicy := {
  af_key : option string; af_kind : option StickySessionKind; af_reallocate_sticky : bool; af_max_age_seconds : option Z }.
Definition no_affinity : _AffinityPolicy :=
  {| af_key := None; af_kind := None; af_reallocate_sticky := false; af_max_age_seconds := None |}.
Definition codex_session (key : string) : _AffinityPolicy := no_affinity {{ af_key := Some key; af_kind := Some CODEX_SESSION }}.

Record affinity_settings := {
  openai_prompt_cache_key_derivation_enabled : bool; codex_session_affinity : bool; openai_cache_affinity : bool;
  openai_cache_affinity_max_age_seconds : Z; sticky_threads_enabled : bool }.

Definition cache_affinity (s : affinity_settings) (cache_key : option string) : _AffinityPolicy :=
  if openai_cache_affinity s
  then no_affinity {{ af_key := cache_key; af_kind := Some PROMPT_CACHE; af_max_age_seconds := Some (openai_cache_affinity_max_age_seconds s) }}
  else if sticky_threads_enabled s
  then no_affinity {{ af_key := cache_key; af_kind := Some STICKY_THREAD; af_reallocate_sticky := true }}
  else no_affinity.

Definition session_or_cache (s : affinity_settings) (headers : dict string) (cache_key : option string) : _AffinityPolicy :=
  match _sticky_key_from_session_header headers with
  | Some session_key => if codex_session_affinity s then codex_session session_key else cache_affinity s cache_key
  | None => cache_affinity s cache_key
  end.

(** The payload with its prompt cache key, and the policy. *)
Definition _sticky_key_for_responses_request (s : affinity_settings) (uuid : string) (payload : dict json) (headers : dict string)
    (api_key : option string) : dict json * _AffinityPolicy :=
  let '(payload, cache_key, _) :=
    _resolve_prompt_cache_key (openai_prompt_cache_key_derivation_enabled s) uuid payload (openai_cache_affinity s) api_key in
  (payload, match _sticky_key_from_turn_state_header headers with
            | Some turn_state_key => codex_session turn_state_key
            | None => session_or_cache s headers cache_key
            end).

Definition _sticky_key_for_compact_request (s : affinity_settings) (uuid : string) (payload : dict json) (headers : dict string)
    (api_key : option string) : dict json * _AffinityPolicy :=
  let '(payload, cache_key, _) :=
    _resolve_prompt_cache_key (openai_prompt_cache_key_derivation_enabled s) uuid payload (openai_cache_affinity s) api_key in
  (payload, session_or_cache s headers cache_key).

Definition _sticky_key_for_codex_control_request (headers : dict string) (codex_session_affinity : bool) : _AffinityPolicy :=
  match _sticky_key_from_turn_state_header headers with
  | Some turn_state_key => codex_session turn_state_key
  | None => match _sticky_key_from_session_header headers with
            | Some session_key => if codex_session_affinity then codex_session session_key else no_affinity
            | None => no_affinity
            end
  end.

End Keys.

(** ** Keys of bridge sessions *)

Inductive strength := Hard | Soft.
#[global] Instance strength_eq : EqDecision strength.
Proof. solve_decision. Defined.

Record _HTTPBridgeSessionKey := { affinity_kind : string; affinity_key : string; key_api_key_id : option string; key_strength : strength }.

Definition _HARD_HTTP_BRIDGE_AFFINITY_KINDS : list string := ["turn_state_header"; "session_header"].

Definition _forwarded_http_bridge_session_key (headers : dict string) (api_key forwarded_affinity_kind forwarded_affinity_key : option string)
    : option _HTTPBridgeSessionKey :=
  let from forwarded name := match filled forwarded with Some v => Some v | None => _header_value_case_insensitive headers name end in
  match from forwarded_affinity_kind "x-codex-bridge-affinity-kind", from forwarded_affinity_key "x-codex-bridge-affinity-key" with
  | Some kind, Some key =>
      Some {| affinity_kind := kind; affinity_key := key; key_api_key_id := api_key;
              key_strength := if mem kind _HARD_HTTP_BRIDGE_AFFINITY_KINDS then Hard else Soft |}
  | _, _ => None
  end.

Definition kind_value (k : StickySessionKind) : string :=
  match k with CODEX_SESSION => "codex_session" | STICKY_THREAD => "sticky_thread" | PROMPT_CACHE => "prompt_cache" end.

Definition _make_http_bridge_session_key (headers : dict string) (affinity : _AffinityPolicy) (api_key : option string) (request_id : string)
    (allow_forwarded_affinity_headers : bool) (forwarded_affinity_kind forwarded_affinity_key : option string) : _HTTPBridgeSessionKey :=
  let forwarded := if allow_forwarded_affinity_headers
                   then _forwarded_http_bridge_session_key headers api_key forwarded_affinity_kind forwarded_affinity_key else None in
  let key kind k s := {| affinity_kind := kind; affinity_key := k; key_api_key_id := api_key; key_strength := s |} in
  match forwarded with
  | Some forwarded_key => forwarded_key
  | None =>
      match _sticky_key_from_turn_state_header headers, _sticky_key_from_session_header headers with
      | Some turn_state_key, _ => key "turn_state_header" turn_state_key Hard
      | None, Some session_key => key "session_header" session_key Hard
      | None, None => key (match af_kind affinity with Some k => kind_value k | None => "request" end) (or_s (af_key affinity) request_id) Soft
      end
  end.

Definition _http_bridge_request_stage (headers : dict string) (payload_previous : option string) : string :=
  if bool_decide (is_Some payload_previous) || bool_decide (is_Some (_sticky_key_from_turn_state_header headers))
     || bool_decide (is_Some (_sticky_key_from_session_header headers))
  then "follow_up" else "first_turn".

(** ** Conversation states of websocket sessions *)

Definition _WEBSOCKET_CONTINUITY_CACHE_LIMIT : nat := Z.to_nat 4096.

(** A dict in insertion order from a session and an API key to a state object.
    An object is a reference: what two lookups of it share is the number. *)
Notation continuity_key := (string * option string)%type.
Record continuity_index := { ix_entries : list (continuity_key * nat); ix_next : nat }.

Definition state_of (k : continuity_key) (l : list (continuity_key * nat)) : option nat :=
  match List.find (λ e, bool_decide (e.1 = k)) l with Some e => Some e.2 | None => None end.
(** Oldest entries go first. *)
Definition evict_states (l : list (continuity_key * nat)) : list (continuity_key * nat) :=
  drop (length l - _WEBSOCKET_CONTINUITY_CACHE_LIMIT) l.

(** The state of a request: a number of the index, or a state nobody shares. *)
Definition _websocket_continuity_state_for_request (headers : dict string) (api_key : option string) (codex_session_affinity : bool)
    (ix : continuity_index) : continuity_index * nat :=
  let fresh := ({| ix_entries := ix_entries ix; ix_next := S (ix_next ix) |}, ix_next ix) in
  if negb codex_session_affinity then fresh
  else match _owner_lookup_session_id_from_headers headers with
  | None => fresh
  | Some session_id =>
      let key := (session_id, api_key) in
      match state_of key (ix_entries ix) with
      | None => ({| ix_entries := evict_states (ix_entries ix ++ [(key, ix_next ix)]); ix_next := S (ix_next ix) |}, ix_next ix)
      | Some state =>
          ({| ix_entries := evict_states (List.filter (λ e, negb (bool_decide (e.1 = key))) (ix_entries ix) ++ [(key, state)]);
              ix_next := ix_next ix |}, state)
      end
  end.

End Affinity.

(** ** Files *)
Module FilePins.
Import Affinity.

Definition _FILE_ACCOUNT_PIN_TTL_SECONDS : Q := 1800.

Record _FilePinEntry := { pin_account_id : string; pin_expires_at : Q }.
Notation pins := (gmap string _FilePinEntry).

Definition expired (now : Q) (e : _FilePinEntry) : bool := qle (pin_expires_at e) now.
Definition _evict_expired_file_pins_locked (now : Q) (p : pins) : pins := filter (λ e, expired now e.2 = false) p.

(** [now] twice: for the expiry of the pin, then for the eviction. *)
Definition _pin_file_account (now later : Q) (file_id account_id : string) (p : pins) : pins :=
  if String.eqb file_id "" || String.eqb account_id "" then p
  else _evict_expired_file_pins_locked later
         (<[file_id := {| pin_account_id := account_id; pin_expires_at := (now + _FILE_ACCOUNT_PIN_TTL_SECONDS)%Q |}]> p).

Definition _lookup_file_pin (now later : Q) (file_id : string) (p : pins) : pins * option _FilePinEntry :=
  if String.eqb file_id "" then (p, None)
  else
    let p := _evict_expired_file_pins_locked now p in
    match p !! file_id with
    | None => (p, None)
    | Some entry => if expired later entry then (delete file_id p, None) else (p, Some entry)
    end.
Definition _resolve_file_account (now later : Q) (file_id : string) (p : pins) : pins * option string :=
  let '(p, entry) := _lookup_file_pin now later file_id p in (p, pin_account_id <$> entry).

(** The best pin so far: its account, its expiry and its file. *)
Record best := { best_account : option string; best_expires_at : Q; best_file_id : option string }.
Definition no_best : best := {| best_account := None; best_expires_at := -1; best_file_id := None |}.
Definition consider (p : pins) (b : best) (file_id : string) : best :=
  match p !! file_id with
  | None => b
  | Some entry =>
      if qlt (best_expires_at b) (pin_expires_at entry)
         || (qeq (pin_expires_at entry) (best_expires_at b)
             && match best_file_id b with None => true | Some other => pylt file_id other end)
      then {| best_account := Some (pin_account_id entry); best_expires_at := pin_expires_at entry; best_file_id := Some file_id |}
      else b
  end.

(** [explicit_fields] is pydantic's [model_fields_set]; [order] lists the set
    of file ids the way it is iterated. *)
Definition _resolve_file_account_for_responses (now : Q) (explicit_fields : list string) (order : gset string → list string)
    (payload : dict json) (headers : dict string) (p : pins) : pins * option string :=
  let explicit_cache_key := mem "prompt_cache_key" explicit_fields || mem "promptCacheKey" explicit_fields in
  if explicit_cache_key && bool_decide (is_Some (_prompt_cache_key_from_request_model payload)) then (p, None)
  else if match _sticky_key_from_turn_state_header headers with Some t => negb (_is_synthesized_turn_state t) | None => false end then (p, None)
  else if bool_decide (is_Some (_sticky_key_from_session_header headers)) then (p, None)
  else if truthy_s (get_str "previous_response_id" payload) then (p, None)
  else
    let file_ids := extract_input_file_ids (get_or_null "input" payload) in
    if bool_decide (file_ids = ∅) then (p, None)
    else
      let p := _evict_expired_file_pins_locked now p in
      (p, best_account (fold_left (consider p) (order file_ids) no_best)).

End FilePins.
