(* ===== verification/AffinityFacts.v ===== *)
(** What routing keys, bridge keys, conversation states and file pins promise.
    The properties are about [Affinity] and [FilePins] of [Affinity.v]. *)

From S2P Require Import Prelude Models Json Requests ProxyEvents WsRequests RequestPolicy Ownership Affinity.
Import Json.Json Requests.JsonOps Requests.ResponsesRequests ProxyEvents.ProxyErrors WsRequests.WsRequests Affinity.Affinity Affinity.FilePins.

Module AffinityFacts.

(** ** Prompt cache keys *)

Lemma find_app_found {A} (f : A → bool) (l k : list A) : existsb f l = true → List.find f (l ++ k) = List.find f l.
Proof. induction l as [|x l IH]; [done|]. simpl. destruct (f x); [done|]. apply IH. Qed.

Lemma filled_str_other k k' v (d : dict json) : k ≠ k' → filled_str k (dict_set d k' v) = filled_str k d.
Proof. intros H. unfold filled_str, get_str. by rewrite dict_get_set, (proj2 (String.eqb_neq _ _) H). Qed.

Lemma first_user_later payload items more : get_or_null "input" payload = JList items → existsb is_user items = true →
  _extract_first_user_input (dict_set payload "input" (JList (items ++ more))) = _extract_first_user_input payload.
Proof.
  intros Hi Hu. unfold _extract_first_user_input. rewrite Hi. unfold get_or_null. rewrite dict_get_set, String.eqb_refl. simpl.
  by rewrite find_app_found.
Qed.

(** A session keeps its derived key: what follows the first user message does
    not count, and neither does the draw of the UUID once there is one. *)
Lemma derived_key_later sha256 uuid uuid' payload items more api_key : get_or_null "input" payload = JList items →
  existsb is_user items = true → filled_str "instructions" payload ≠ None ∨ api_key ≠ None →
  _derive_prompt_cache_key sha256 uuid (dict_set payload "input" (JList (items ++ more))) api_key
  = _derive_prompt_cache_key sha256 uuid' payload api_key.
Proof.
  intros Hi Hu Hp. unfold _derive_prompt_cache_key. rewrite (first_user_later _ _ _ Hi Hu), !filled_str_other by done.
  destruct api_key; [done|]. destruct (filled_str "instructions" payload); [done|]. by destruct Hp.
Qed.

Lemma derived_key_filled sha256 uuid payload api_key : filled_str "model" payload ≠ None →
  _derive_prompt_cache_key sha256 uuid payload api_key ≠ "".
Proof.
  intros Hm. unfold _derive_prompt_cache_key. destruct (filled_str "model" payload) as [m|]; [|done]. cbn [app].
  assert (∀ l, String.concat "-" (_extract_model_class m :: l) ≠ "") as H.
  { intros l. unfold _extract_model_class. destruct (contains "codex" m), (contains "mini" m), l; simpl; done. }
  match goal with |- match ?p with _ => _ end ≠ _ => destruct p end; apply H.
Qed.

Lemma resolved_key_carried sha256 enabled uuid payload openai api_key : filled_str "model" payload ≠ None →
  let '(payload', key, _) := _resolve_prompt_cache_key sha256 enabled uuid payload openai api_key in
  match key with Some k => _prompt_cache_key_from_request_model payload' = Some k | None => payload' = payload end.
Proof.
  intros Hm. unfold _resolve_prompt_cache_key.
  assert (Hset : ∀ k, k ≠ "" → _prompt_cache_key_from_request_model (dict_set payload "prompt_cache_key" (JStr k)) = Some k).
  { intros k Hk. unfold _prompt_cache_key_from_request_model, filled_str, get_str. rewrite dict_get_set, String.eqb_refl. by destruct k. }
  destruct (_prompt_cache_key_from_request_model payload) as [raw|] eqn:Hraw.
  - unfold none_if_empty. destruct (String.eqb_spec (py_strip raw) "") as [_|Hne].
    + destruct (negb openai || negb enabled); [done|]. by apply Hset, derived_key_filled.
    + case_bool_decide; [congruence|]. by apply Hset.
  - destruct (negb openai || negb enabled); [done|]. by apply Hset, derived_key_filled.
Qed.

(** The key a request is routed by under a cache affinity is the key it carries
    upstream; the other requests are routed by a header. *)
Theorem routing_key_carried sha256 s uuid payload headers api_key : filled_str "model" payload ≠ None →
  let '(payload', policy) := _sticky_key_for_responses_request sha256 s uuid payload headers api_key in
  match af_kind policy with
  | Some CODEX_SESSION => af_key policy = _owner_lookup_session_id_from_headers headers
  | Some _ => af_key policy = None ∧ payload' = payload ∨ af_key policy = _prompt_cache_key_from_request_model payload'
  | None => af_key policy = None
  end.
Proof.
  intros Hm. unfold _sticky_key_for_responses_request, _owner_lookup_session_id_from_headers, session_or_cache, cache_affinity.
  pose proof (resolved_key_carried sha256 (openai_prompt_cache_key_derivation_enabled s) uuid payload (openai_cache_affinity s) api_key Hm) as H.
  destruct (_resolve_prompt_cache_key _ _ _ _ _ _) as [[payload' key] source].
  destruct (_sticky_key_from_turn_state_header headers); [done|].
  assert (key = None ∧ payload' = payload ∨ key = _prompt_cache_key_from_request_model payload') as Hk by (destruct key; [by right|by left]).
  destruct (_sticky_key_from_session_header headers); destruct (codex_session_affinity s), (openai_cache_affinity s), (sticky_threads_enabled s); done.
Qed.

(** ** Bridge keys *)

Lemma stripped_header_filled k headers v : stripped_header k headers = Some v → v ≠ "".
Proof. unfold stripped_header. destruct (dict_get _ _) as [w|]; [|done]. unfold none_if_empty. destruct (String.eqb_spec (py_strip w) ""); [done|]. by intros [= <-]. Qed.

Lemma session_header_filled headers v : _sticky_key_from_session_header headers = Some v → v ≠ "".
Proof.
  unfold _sticky_key_from_session_header, SESSION_HEADERS. cbn [omap list_omap].
  destruct (stripped_header "session_id" headers) eqn:E1; [intros [= <-]; by eapply stripped_header_filled|].
  destruct (stripped_header "x-codex-session-id" headers) eqn:E2; [intros [= <-]; by eapply stripped_header_filled|].
  destruct (stripped_header "x-codex-conversation-id" headers) eqn:E3; [intros [= <-]; by eapply stripped_header_filled|done].
Qed.

(** The instance that owns a session computes the key the request had where it
    came in, whatever its own headers and policy say. *)
Theorem bridge_key_forwarded headers affinity api_key request_id headers' affinity' request_id' : request_id ≠ "" →
  let key := _make_http_bridge_session_key headers affinity api_key request_id false None None in
  _make_http_bridge_session_key headers' affinity' api_key request_id' true (Some (affinity_kind key)) (Some (affinity_key key)) = key.
Proof.
  intros Hr. unfold _make_http_bridge_session_key, _forwarded_http_bridge_session_key.
  assert (∀ s, s ≠ "" → filled (Some s) = Some s) as Hf.
  { intros s Hs. unfold filled, none_if_empty. by rewrite (proj2 (String.eqb_neq _ _) Hs). }
  destruct (_sticky_key_from_turn_state_header headers) as [t|] eqn:Et; cbn [affinity_kind affinity_key].
  { rewrite !Hf; [done| |done]. by eapply stripped_header_filled. }
  destruct (_sticky_key_from_session_header headers) as [t|] eqn:Es; cbn [affinity_kind affinity_key].
  { rewrite !Hf; [done| |done]. by eapply session_header_filled. }
  rewrite !Hf; [by destruct (af_kind affinity) as [[]|]| |by destruct (af_kind affinity) as [[]|]].
  unfold or_s. destruct (af_key affinity) as [k|]; [|done]. by destruct (String.eqb_spec k "").
Qed.

(** ** Conversation states *)

(** A request: its headers, its API key, and whether its route has sessions. *)
Record asking := { ask_headers : dict string; ask_api_key : option string; ask_affinity : bool }.
(** The conversation a request belongs to. *)
Definition conversation (q : asking) : option continuity_key :=
  if ask_affinity q then match _owner_lookup_session_id_from_headers (ask_headers q) with Some s => Some (s, ask_api_key q) | None => None end
  else None.
Definition ask_state (q : asking) (ix : continuity_index) : continuity_index * nat :=
  _websocket_continuity_state_for_request (ask_headers q) (ask_api_key q) (ask_affinity q) ix.
(** The states a sequence of requests gets. *)
Fixpoint ask_states (qs : list asking) (ix : continuity_index) : continuity_index * list (option continuity_key * nat) :=
  match qs with
  | [] => (ix, [])
  | q :: qs => let '(ix, state) := ask_state q ix in let '(ix, rest) := ask_states qs ix in (ix, (conversation q, state) :: rest)
  end.
Definition empty_index : continuity_index := {| ix_entries := []; ix_next := 0 |}.

(** The states handed out, and the index: a state is in it under its own
    conversation only. *)
Record index_inv (given : list (option continuity_key * nat)) (ix : continuity_index) : Prop := {
  ii_next : ∀ c n, (c, n) ∈ given → n < ix_next ix;
  ii_given : ∀ k n, (k, n) ∈ ix_entries ix → (Some k, n) ∈ given;
  ii_owner : ∀ c k n, (c, n) ∈ given → (k, n) ∈ ix_entries ix → c = Some k;
  ii_same : ForallOrdPairs (λ x y : option continuity_key * nat, x.2 = y.2 → x.1 = y.1 ∧ x.1 ≠ None) given;
  ii_size : length (ix_entries ix) <= _WEBSOCKET_CONTINUITY_CACHE_LIMIT }.

Lemma state_of_in k l n : state_of k l = Some n → (k, n) ∈ l.
Proof.
  unfold state_of. destruct (List.find _ l) as [[k' n']|] eqn:E; [|done]. intros [= <-]. apply List.find_some in E as [Hin Hk].
  apply bool_decide_eq_true in Hk. simpl in Hk. subst k'. by apply list_elem_of_In.
Qed.

Lemma evict_states_in e l : e ∈ evict_states l → e ∈ l.
Proof. unfold evict_states. intros H. rewrite <- (take_drop (length l - _WEBSOCKET_CONTINUITY_CACHE_LIMIT) l). set_solver. Qed.

Lemma evict_states_size l : length (evict_states l) <= _WEBSOCKET_CONTINUITY_CACHE_LIMIT.
Proof. unfold evict_states. rewrite length_drop. lia. Qed.

(** A state nobody has, or the one in the index under the request's own
    conversation; and what is in the index afterwards. *)
Lemma ask_state_spec q ix : let '(ix', n) := ask_state q ix in
  (n = ix_next ix ∧ ix_next ix' = S (ix_next ix) ∨ ix_next ix' = ix_next ix ∧ ∃ k, conversation q = Some k ∧ (k, n) ∈ ix_entries ix)
  ∧ (∀ k m, (k, m) ∈ ix_entries ix' → (k, m) ∈ ix_entries ix ∨ conversation q = Some k ∧ m = n)
  ∧ (length (ix_entries ix) <= _WEBSOCKET_CONTINUITY_CACHE_LIMIT → length (ix_entries ix') <= _WEBSOCKET_CONTINUITY_CACHE_LIMIT).
Proof.
  unfold ask_state, _websocket_continuity_state_for_request, conversation.
  destruct (ask_affinity q); cbn [negb]; [|simpl; naive_solver].
  destruct (_owner_lookup_session_id_from_headers (ask_headers q)) as [s|]; [|simpl; naive_solver].
  destruct (state_of (s, ask_api_key q) (ix_entries ix)) as [n|] eqn:E; cbn [ix_entries ix_next].
  - apply state_of_in in E. split_and!; [right; naive_solver| |intros _; apply evict_states_size].
    intros k m H%evict_states_in. apply elem_of_app in H as [H|H]; [|set_solver]. left. apply list_elem_of_In in H.
    apply List.filter_In in H as [H _]. by apply list_elem_of_In.
  - split_and!; [by left| |intros _; apply evict_states_size]. intros k m H%evict_states_in. set_solver.
Qed.

Lemma ask_state_inv given q ix : index_inv given ix →
  let '(ix', n) := ask_state q ix in index_inv ((conversation q, n) :: given) ix'.
Proof.
  intros [Hn Hg Ho Hs Hz]. pose proof (ask_state_spec q ix) as H. destruct (ask_state q ix) as [ix' n]. destruct H as (Hcase & Hin & Hsize).
  assert (∀ c, (c, n) ∈ given → c = conversation q ∧ c ≠ None) as Hold.
  { intros c Hc. destruct Hcase as [[-> _]|(_ & k & Hk & He)]; [apply Hn in Hc; lia|]. rewrite Hk. split; [|rewrite (Ho _ _ _ Hc He)]; [by eapply Ho|done]. }
  split.
  - intros c m [[= _ ->]|Hc%Hn]%elem_of_cons; destruct Hcase as [[E ->]|(-> & k & _ & He)]; try lia. apply Hg, Hn in He. lia.
  - intros k m [He|[Hk ->]]%Hin; [right; by apply Hg|]. rewrite Hk. left.
  - intros c k m [[= -> ->]|Hc]%elem_of_cons [He|[Hk Em]]%Hin.
    + destruct Hcase as [[E _]|(_ & k' & Hk' & He')]; [apply Hg, Hn in He; lia|]. rewrite Hk'. symmetry. by eapply Ho; [apply Hg|].
    + done.
    + by eapply Ho.
    + subst m. apply Hold in Hc as [-> _]. done.
  - constructor; [|done]. apply Forall_forall. intros [d m] Hd. simpl. intros <-. apply Hold in Hd as [-> ?]. done.
  - by apply Hsize.
Qed.

Lemma index_inv_empty : index_inv [] empty_index.
Proof. split; [set_solver..|constructor|simpl; lia]. Qed.

Lemma ask_states_inv qs given ix : index_inv given ix →
  let '(ix', answers) := ask_states qs ix in index_inv (rev answers ++ given) ix'.
Proof.
  revert given ix. induction qs as [|q qs IH]; intros given ix Hinv; [done|]. cbn [ask_states].
  pose proof (ask_state_inv given q ix Hinv) as H. destruct (ask_state q ix) as [ix1 n]. specialize (IH _ _ H).
  destruct (ask_states qs ix1) as [ix2 rest]. cbn [rev]. by rewrite <- app_assoc.
Qed.

Lemma ordered_pairs_snoc {A} (R : A → A → Prop) l x : ForallOrdPairs R (l ++ [x]) → ForallOrdPairs R l ∧ Forall (λ y, R y x) l.
Proof.
  induction l as [|y l IH]; [split; constructor|]. intros H. inversion H as [|? ? Hy Hl]; subst. apply Forall_app in Hy as [Hy Hx].
  destruct (IH Hl) as [H1 H2]. split; constructor; [done..| |done]. by inversion Hx.
Qed.

Lemma ordered_pairs_rev {A} (R : A → A → Prop) `{!Symmetric R} l i j x y : ForallOrdPairs R (rev l) → i ≠ j →
  l !! i = Some x → l !! j = Some y → R x y.
Proof.
  revert i j x y. induction l as [|z l IH]; [done|]. cbn [rev]. intros i j x y [Hl Hz]%ordered_pairs_snoc Hij.
  assert (∀ m w, l !! m = Some w → R w z) as Hw.
  { intros m w Hm. eapply Forall_forall in Hz; [done|]. apply list_elem_of_In, in_rev. rewrite rev_involutive. apply list_elem_of_In, list_elem_of_lookup. by exists m. }
  destruct i as [|i], j as [|j]; [done| | |]; cbn [lookup list_lookup].
  - intros [= <-] Hy. symmetry. by eapply Hw.
  - intros Hx [= <-]. by eapply Hw.
  - intros Hx Hy. eapply (IH i j); [done|lia|done..].
Qed.

Lemma states_isolated_aux qs i j c d n : let answers := (ask_states qs empty_index).2 in
  i ≠ j → answers !! i = Some (c, n) → answers !! j = Some (d, n) → c = d ∧ c ≠ None.
Proof.
  simpl. intros Hij Hi Hj. pose proof (ask_states_inv qs [] empty_index index_inv_empty) as H.
  destruct (ask_states qs empty_index) as [ix answers]. rewrite app_nil_r in H. apply ii_same in H.
  assert (Symmetric (λ x y : option continuity_key * nat, x.2 = y.2 → x.1 = y.1 ∧ x.1 ≠ None)) as Hsym.
  { intros x y Hxy E. destruct (Hxy (eq_sym E)) as [-> ?]. done. }
  by apply (ordered_pairs_rev _ _ _ _ _ _ H Hij Hi Hj).
Qed.

(** *** Kept *)

(** State [n] is found for [k], and at most [m] entries are more recent. *)
Definition kept (k : continuity_key) (n m : nat) (ix : continuity_index) : Prop :=
  ∃ pre post, ix_entries ix = pre ++ (k, n) :: post ∧ k ∉ pre.*1 ∧ length post <= m.

Lemma kept_state_of k n m ix : kept k n m ix → state_of k (ix_entries ix) = Some n.
Proof.
  intros (pre & post & -> & Hk & _). unfold state_of. induction pre as [|e pre IH]; simpl; [by rewrite bool_decide_true|].
  apply not_elem_of_cons in Hk as [Hne Hk]. rewrite bool_decide_false by done. by apply IH.
Qed.

Lemma kept_evict k n m l next : m < _WEBSOCKET_CONTINUITY_CACHE_LIMIT → kept k n m {| ix_entries := l; ix_next := next |} →
  kept k n m {| ix_entries := evict_states l; ix_next := next |}.
Proof.
  intros Hm (pre & post & E & Hk & Hp). cbn [ix_entries] in E. subst l. unfold evict_states. rewrite length_app. cbn [length].
  set (d := _ - _). assert (d <= length pre) as Hd by (unfold d; lia). exists (drop d pre), post. cbn [ix_entries]. rewrite drop_app_le by done.
  split_and!; [done| |done]. intros H. apply Hk. rewrite <- (take_drop d pre), fmap_app. set_solver.
Qed.

Lemma filter_other_key k k' n pre post : k ≠ k' → k ∉ pre.*1 → let keep := λ e : continuity_key * nat, negb (bool_decide (e.1 = k')) in
  List.filter keep (pre ++ (k, n) :: post) = List.filter keep pre ++ (k, n) :: List.filter keep post ∧ k ∉ (List.filter keep pre).*1.
Proof.
  intros Hne Hk keep. split.
  - rewrite List.filter_app. cbn [List.filter]. unfold keep at 2. cbn [fst]. by rewrite bool_decide_false.
  - intros H. apply Hk. apply list_elem_of_fmap in H as (e & -> & He). apply list_elem_of_fmap. exists e. split; [done|].
    apply list_elem_of_In in He. apply List.filter_In in He as [He _]. by apply list_elem_of_In.
Qed.

Lemma kept_step k n m q ix : S m < _WEBSOCKET_CONTINUITY_CACHE_LIMIT → kept k n m ix → kept k n (S m) (ask_state q ix).1.
Proof.
  intros Hm Hkept. pose proof (kept_state_of _ _ _ _ Hkept) as Hs. destruct Hkept as (pre & post & E & Hk & Hp).
  unfold ask_state, _websocket_continuity_state_for_request.
  destruct (ask_affinity q); cbn [negb]; [|exists pre, post; split_and!; [done..|lia]].
  destruct (_owner_lookup_session_id_from_headers (ask_headers q)) as [s|]; [|exists pre, post; split_and!; [done..|lia]].
  set (k' := (s, ask_api_key q)). destruct (decide (k' = k)) as [->|Hne].
  - rewrite Hs. apply kept_evict; [done|]. exists (List.filter (λ e, negb (bool_decide (e.1 = k))) (ix_entries ix)), []. split_and!; [done| |simpl; lia].
    intros H. apply list_elem_of_fmap in H as (e & -> & He). apply list_elem_of_In in He. apply List.filter_In in He as [_ He].
    by rewrite bool_decide_true in He.
  - destruct (state_of k' (ix_entries ix)) as [n'|]; apply kept_evict; [done| |done|]; rewrite E.
    + destruct (filter_other_key k k' n pre post (not_eq_sym Hne) Hk) as [-> Hk']. rewrite <- app_assoc. eexists _, _. split_and!; [done..|].
      rewrite length_app. simpl. pose proof (List.filter_length_le (λ e : continuity_key * nat, negb (bool_decide (e.1 = k'))) post). lia.
    + rewrite <- app_assoc. exists pre, (post ++ [(k', ix_next ix)]). split_and!; [done..|]. rewrite length_app. simpl. lia.
Qed.

Lemma kept_new q k ix : conversation q = Some k → kept k (ask_state q ix).2 0 (ask_state q ix).1.
Proof.
  unfold conversation, ask_state, _websocket_continuity_state_for_request. destruct (ask_affinity q); [|done]. cbn [negb].
  destruct (_owner_lookup_session_id_from_headers (ask_headers q)) as [s|]; [|done]. intros [= <-]. set (k := (s, ask_api_key q)).
  assert (0 < _WEBSOCKET_CONTINUITY_CACHE_LIMIT) as Hl by (unfold _WEBSOCKET_CONTINUITY_CACHE_LIMIT; lia).
  destruct (state_of k (ix_entries ix)) as [n|] eqn:E; apply kept_evict; try done.
  - exists (List.filter (λ e, negb (bool_decide (e.1 = k))) (ix_entries ix)), []. split_and!; [done| |done].
    intros H. apply list_elem_of_fmap in H as (e & -> & He). apply list_elem_of_In in He. apply List.filter_In in He as [_ He].
    by rewrite bool_decide_true in He.
  - exists (ix_entries ix), []. split_and!; [done| |done]. intros H. apply list_elem_of_fmap in H as ([k' n] & -> & He).
    unfold state_of in E. destruct (List.find _ (ix_entries ix)) eqn:F; [done|]. apply list_elem_of_In in He.
    apply (List.find_none _ _ F) in He. simpl in He. by rewrite bool_decide_true in He.
Qed.

Lemma kept_states k n qs m ix : m + length qs < _WEBSOCKET_CONTINUITY_CACHE_LIMIT → kept k n m ix →
  kept k n (m + length qs) (ask_states qs ix).1.
Proof.
  revert m ix. induction qs as [|q qs IH]; intros m ix Hm H; [by rewrite Nat.add_0_r|]. cbn [ask_states length] in *.
  pose proof (kept_step k n m q ix ltac:(lia) H) as H1. destruct (ask_state q ix) as [ix1 n1].
  specialize (IH (S m) ix1 ltac:(lia) H1). destruct (ask_states qs ix1) as [ix2 rest]. by rewrite <- Nat.add_succ_comm.
Qed.

(** Two requests that share a conversation state have the same session and the
    same API key; requests without a session never share one. *)
Theorem states_isolated qs i j c d n : let answers := (ask_states qs empty_index).2 in
  i ≠ j → answers !! i = Some (c, n) → answers !! j = Some (d, n) → c = d ∧ c ≠ None.
Proof. apply states_isolated_aux. Qed.

(** A conversation keeps its state as long as fewer than 4096 other requests
    come between two of its own. *)
Theorem state_kept q k between q' ix : conversation q = Some k → conversation q' = Some k →
  length between < _WEBSOCKET_CONTINUITY_CACHE_LIMIT →
  (ask_state q' (ask_states between (ask_state q ix).1).1).2 = (ask_state q ix).2.
Proof.
  intros Hq Hq' Hl. pose proof (kept_states k _ between 0 _ Hl (kept_new q k ix Hq)) as H%kept_state_of.
  revert Hq' H. generalize (ask_states between (ask_state q ix).1).1. intros ix'. unfold conversation, ask_state, _websocket_continuity_state_for_request.
  destruct (ask_affinity q'); [|done]. cbn [negb]. destruct (_owner_lookup_session_id_from_headers (ask_headers q')) as [s|]; [|done].
  by intros [= ->] ->.
Qed.

(** ** Files *)

(** [f] is at least as good a choice as [f']: pinned later, or at the same time
    with the smaller name. *)
Definition preferred (e : _FilePinEntry) (f : string) (e' : _FilePinEntry) (f' : string) : Prop :=
  (pin_expires_at e' < pin_expires_at e)%Q ∨ (pin_expires_at e' == pin_expires_at e)%Q ∧ pylt f' f = false.

Lemma preferred_refl e f : preferred e f e f.
Proof. right. split; [done|]. apply pylt_irrefl. Qed.

Lemma preferred_trans e1 f1 e2 f2 e3 f3 : preferred e1 f1 e2 f2 → preferred e2 f2 e3 f3 → preferred e1 f1 e3 f3.
Proof.
  intros [H1|[H1 F1]] [H2|[H2 F2]]; [left; lra|left; rewrite H2; done|left; rewrite <- H1; done|]. right. split; [by rewrite H2|].
  by eapply pylt_le_trans.
Qed.

(** What is known of the best choice among the files [seen]. *)
Definition best_inv (p : pins) (seen : list string) (b : best) : Prop :=
  match best_file_id b with
  | None => b = no_best ∧ ∀ f, f ∈ seen → p !! f = None
  | Some f => f ∈ seen ∧ ∃ e, p !! f = Some e ∧ best_account b = Some (pin_account_id e) ∧ best_expires_at b = pin_expires_at e
              ∧ ∀ f' e', f' ∈ seen → p !! f' = Some e' → preferred e f e' f'
  end.

Lemma consider_inv p seen b f : (∀ f e, p !! f = Some e → (-1 < pin_expires_at e)%Q) → best_inv p seen b → best_inv p (f :: seen) (consider p b f).
Proof.
  intros Hpos H. unfold consider. destruct (p !! f) as [e|] eqn:E.
  - unfold best_inv in H. destruct (best_file_id b) as [g|] eqn:G.
    + destruct H as (Hg & e' & Eg & Ha & He & Hbest). rewrite He.
      destruct (qlt (pin_expires_at e') (pin_expires_at e) || qeq (pin_expires_at e) (pin_expires_at e') && pylt f g) eqn:C.
      * assert (preferred e f e' g) as Hp.
        { apply orb_true_iff in C as [C%qlt_true|[C%qeq_true F]%andb_true_iff]; [by left|right; split; [done|by apply pylt_asym]]. }
        unfold best_inv. cbn [best_file_id best_account best_expires_at]. split; [left|]. exists e. split_and!; [done..|].
        intros f' e2 [->|Hf]%elem_of_cons Hf'; [simplify_eq; apply preferred_refl|]. eapply preferred_trans; [done|]. by apply Hbest.
      * unfold best_inv. rewrite G. split; [by right|]. exists e'. split_and!; [done..|].
        intros f' e2 [->|Hf]%elem_of_cons Hf'; [|by apply Hbest]. simplify_eq. apply orb_false_iff in C as [C1%qlt_false C2].
        destruct (Qlt_le_dec (pin_expires_at e) (pin_expires_at e')) as [C|C]; [by left|right]. assert (pin_expires_at e == pin_expires_at e')%Q as Q1 by lra.
        split; [done|]. by rewrite (proj2 (qeq_true _ _) Q1) in C2.
    + destruct H as [-> Hnone]. cbn [best_expires_at no_best]. rewrite (proj2 (qlt_true _ _) (Hpos _ _ E)). cbn [orb].
      unfold best_inv. cbn [best_file_id best_account best_expires_at]. split; [left|]. exists e. split_and!; [done..|].
      intros f' e2 [->|Hf]%elem_of_cons Hf'; [simplify_eq; apply preferred_refl|]. by rewrite (Hnone _ Hf) in Hf'.
  - unfold best_inv in *. destruct (best_file_id b) as [g|].
    + destruct H as (Hg & e' & Eg & Ha & He & Hbest). split; [by right|]. exists e'. split_and!; [done..|].
      intros f' e2 [->|Hf]%elem_of_cons Hf'; [congruence|by apply Hbest].
    + destruct H as [-> Hnone]. split; [done|]. intros f' [->|Hf]%elem_of_cons; [done|by apply Hnone].
Qed.

Lemma consider_all p l seen b : (∀ f e, p !! f = Some e → (-1 < pin_expires_at e)%Q) → best_inv p seen b →
  best_inv p (rev l ++ seen) (fold_left (consider p) l b).
Proof.
  intros Hpos. revert seen b. induction l as [|f l IH]; intros seen b H; [done|]. cbn [rev fold_left]. rewrite <- app_assoc.
  apply IH. by apply consider_inv.
Qed.

Lemma lookup_evicted now p f e : _evict_expired_file_pins_locked now p !! f = Some e ↔ p !! f = Some e ∧ (now < pin_expires_at e)%Q.
Proof. unfold _evict_expired_file_pins_locked, expired. rewrite map_lookup_filter_Some. simpl. by rewrite qle_false. Qed.

(** A client-supplied reason to route elsewhere. *)
Definition stronger_signal (explicit_fields : list string) (payload : dict json) (headers : dict string) : bool :=
  (mem "prompt_cache_key" explicit_fields || mem "promptCacheKey" explicit_fields)
    && bool_decide (is_Some (_prompt_cache_key_from_request_model payload))
  || match _sticky_key_from_turn_state_header headers with Some t => negb (_is_synthesized_turn_state t) | None => false end
  || bool_decide (is_Some (_sticky_key_from_session_header headers))
  || truthy_s (get_str "previous_response_id" payload).

(** A request that names uploaded files, and gives no stronger reason to route
    elsewhere, goes to the account of a live pin: the one made last, of those
    made at the same time the one with the smallest file id, in whatever order
    the set of files is iterated; and nowhere only when no pin is live. *)
Theorem file_pin_winner now explicit_fields order payload headers p : (0 <= now)%Q → (∀ s, order s ≡ₚ elements s) →
  stronger_signal explicit_fields payload headers = false →
  let ids := extract_input_file_ids (get_or_null "input" payload) in
  match (_resolve_file_account_for_responses now explicit_fields order payload headers p).2 with
  | Some account => ∃ f e, f ∈ ids ∧ p !! f = Some e ∧ (now < pin_expires_at e)%Q ∧ account = pin_account_id e
                    ∧ ∀ f' e', f' ∈ ids → p !! f' = Some e' → (now < pin_expires_at e')%Q → preferred e f e' f'
  | None => ∀ f e, f ∈ ids → p !! f = Some e → (pin_expires_at e <= now)%Q
  end.
Proof.
  intros Hnow Hord Hs ids. unfold _resolve_file_account_for_responses. unfold stronger_signal in Hs.
  apply orb_false_iff in Hs as [[[-> ->]%orb_false_iff ->]%orb_false_iff ->]. fold ids. case_bool_decide as Hids; [cbn [snd]; rewrite Hids; set_solver|].
  cbn [snd]. set (live := _evict_expired_file_pins_locked now p).
  assert (∀ f e, live !! f = Some e → (-1 < pin_expires_at e)%Q) as Hpos by (intros f e [_ H]%lookup_evicted; lra).
  assert (best_inv live [] no_best) as H0 by (split; [done|set_solver]).
  pose proof (consider_all live (order ids) [] no_best Hpos H0) as H. rewrite app_nil_r in H.
  assert (∀ f, f ∈ rev (order ids) ↔ f ∈ ids) as Hin.
  { intros f. rewrite list_elem_of_In, <- in_rev, <- list_elem_of_In, (Hord ids). apply elem_of_elements. }
  set (b := fold_left _ _ _) in *. unfold best_inv in H. destruct (best_file_id b) as [f|].
  - destruct H as (Hf & e & He & -> & _ & Hbest). apply lookup_evicted in He as [He Hlive]. exists f, e. split_and!; [by apply Hin|done..|].
    intros f' e' Hf' He' Hl'. apply Hbest; [by apply Hin|by apply lookup_evicted].
  - destruct H as [-> Hnone]. cbn [best_account no_best]. intros f e Hf He. destruct (Qlt_le_dec now (pin_expires_at e)) as [C|C]; [|done].
    assert (live !! f = Some e) as Hl by (by apply lookup_evicted). by rewrite (Hnone f) in Hl; [|apply Hin].
Qed.

(** ** Samples *)

Definition sample_request : dict json :=
  [("model", JStr "gpt-5.3-codex"); ("instructions", JStr "Be brief.");
   ("input", JList [JObj [("role", JStr "user"); ("content", JList [JObj [("type", JStr "input_file"); ("file_id", JStr "file_a")];
                                                                    JObj [("type", JStr "input_file"); ("file_id", JStr "file_b")]])]])].
Definition sample_pins : pins := _pin_file_account 20 20 "file_b" "account-2" (_pin_file_account 10 10 "file_a" "account-1" ∅).
Definition codex_settings : affinity_settings :=
  {| openai_prompt_cache_key_derivation_enabled := true; codex_session_affinity := true; openai_cache_affinity := true;
     openai_cache_affinity_max_age_seconds := 1800; sticky_threads_enabled := false |}.
Definition session_of (s : string) : asking := {| ask_headers := [("Session_Id", s)]; ask_api_key := Some "key"; ask_affinity := true |}.

Lemma file_pin_winner_witness : (_resolve_file_account_for_responses 1811 ["model"; "input"] elements sample_request [] sample_pins).2 = Some "account-2"
  ∧ ∃ f e, f ∈ extract_input_file_ids (get_or_null "input" sample_request) ∧ sample_pins !! f = Some e ∧ (1811 < pin_expires_at e)%Q
    ∧ "account-2" = pin_account_id e
    ∧ ∀ f' e', f' ∈ extract_input_file_ids (get_or_null "input" sample_request) → sample_pins !! f' = Some e' → (1811 < pin_expires_at e')%Q →
        preferred e f e' f'.
Proof.
  assert ((_resolve_file_account_for_responses 1811 ["model"; "input"] elements sample_request [] sample_pins).2 = Some "account-2") as H
    by (by vm_compute).
  split; [done|]. pose proof (file_pin_winner 1811 ["model"; "input"] elements sample_request [] sample_pins) as W. rewrite H in W.
  apply W; [lra|done|by vm_compute].
Defined.

Lemma routing_key_carried_witness :
  let '(payload', policy) := _sticky_key_for_responses_request (λ s, s) codex_settings "u" sample_request [] (Some "key-1") in
  af_kind policy = Some PROMPT_CACHE ∧ af_key policy = Some (String.append "codex-key-1-Be brief.-" (py_prefix 12 (user_text [("role", JStr "user"); ("content", JList [JObj [("type", JStr "input_file"); ("file_id", JStr "file_a")]; JObj [("type", JStr "input_file"); ("file_id", JStr "file_b")]])]))) ∧
  (af_key policy = None ∧ payload' = sample_request ∨ af_key policy = _prompt_cache_key_from_request_model payload').
Proof. pose proof (routing_key_carried (λ s, s) codex_settings "u" sample_request [] (Some "key-1") ltac:(done)) as W. vm_compute in W |- *. done. Defined.

Lemma bridge_key_forwarded_witness :
  let key := _make_http_bridge_session_key [("Session_Id", " s1 ")] no_affinity (Some "key") "req" false None None in
  key_strength key = Hard ∧
  _make_http_bridge_session_key [("x-codex-turn-state", "t")] (codex_session "t") (Some "key") "other" true (Some (affinity_kind key))
    (Some (affinity_key key)) = key.
Proof. split; [done|]. by apply bridge_key_forwarded. Defined.

Lemma states_isolated_witness : let answers := (ask_states [session_of "a"; session_of "b"; session_of " a "] empty_index).2 in
  answers !! 0 = Some (Some ("a", Some "key"), 0) ∧ answers !! 1 = Some (Some ("b", Some "key"), 1) ∧
  (Some ("a", Some "key") = Some ("a", Some "key") ∧ Some ("a", Some "key") ≠ None).
Proof.
  split_and!; [by vm_compute..|].
  apply (states_isolated [session_of "a"; session_of "b"; session_of " a "] 0 2 (Some ("a", Some "key")) (Some ("a", Some "key")) 0);
    [lia|by vm_compute..].
Defined.

Lemma state_kept_witness :
  (ask_state (session_of " a ") (ask_states [session_of "b"; session_of "c"] (ask_state (session_of "a") empty_index).1).1).2 = 0.
Proof.
  rewrite (state_kept (session_of "a") ("a", Some "key") [session_of "b"; session_of "c"] (session_of " a ") empty_index);
    [by vm_compute..|apply Nat.ltb_lt; by vm_compute].
Defined.

End AffinityFacts.
