(* ===== verification/Forwarding.v ===== *)
(** Requests forwarded between instances,
    [src/app/modules/proxy/http_bridge_forwarding.py]: the headers an instance
    adds for the owner of a session, how the owner checks them, and the stream
    that comes back.

    Headers at the owner are looked up without regard to case, the first match
    counts.  HMAC-SHA-256 under the shared secret and SHA-256, both as hex
    digests, are arguments; a signature header is ASCII ([hmac.compare_digest]
    raises on others).  The connection to the owner is an argument of the
    client: its status, the bytes as they arrive, and whether the reading times
    out. *)

From S2P Require Import Prelude Json Sse Requests ProxyEvents Affinity.
Import Json.Json Sse.Sse Requests.JsonOps ProxyEvents.ProxyErrors Affinity.Affinity.

Module Forwarding.

Definition HTTP_BRIDGE_FORWARDED_HEADER : string := "x-codex-bridge-forwarded".
Definition HTTP_BRIDGE_ORIGIN_INSTANCE_HEADER : string := "x-codex-bridge-origin-instance".
Definition HTTP_BRIDGE_TARGET_INSTANCE_HEADER : string := "x-codex-bridge-target-instance".
Definition HTTP_BRIDGE_CODEX_AFFINITY_HEADER : string := "x-codex-bridge-codex-session-affinity".
Definition HTTP_BRIDGE_RESERVATION_ID_HEADER : string := "x-codex-bridge-reservation-id".
Definition HTTP_BRIDGE_RESERVATION_KEY_ID_HEADER : string := "x-codex-bridge-reservation-key-id".
Definition HTTP_BRIDGE_RESERVATION_MODEL_HEADER : string := "x-codex-bridge-reservation-model".
Definition HTTP_BRIDGE_AFFINITY_KIND_HEADER : string := "x-codex-bridge-affinity-kind".
Definition HTTP_BRIDGE_AFFINITY_KEY_HEADER : string := "x-codex-bridge-affinity-key".
Definition HTTP_BRIDGE_SIGNATURE_HEADER : string := "x-codex-bridge-signature".
Definition TURN_STATE_HEADER : string := "x-codex-turn-state".

Record ApiKeyUsageReservationData := { fw_reservation_id : string; fw_key_id : string; fw_model : string }.

Record HTTPBridgeForwardContext := {
  origin_instance : string; target_instance : string; cx_codex_session_affinity : bool; downstream_turn_state : option string;
  original_affinity_kind : option string; original_affinity_key : option string; reservation : option ApiKeyUsageReservationData }.

(** ** The signature *)

Definition flag (b : bool) : string := if b then "1" else "0".
(** What is signed besides the body. *)
Definition context_fields (c : HTTPBridgeForwardContext) : list string :=
  [origin_instance c; target_instance c; flag (cx_codex_session_affinity c);
   or_s (downstream_turn_state c) ""; or_s (original_affinity_kind c) ""; or_s (original_affinity_key c) "";
   match reservation c with Some r => fw_reservation_id r | None => "" end;
   match reservation c with Some r => fw_key_id r | None => "" end;
   match reservation c with Some r => fw_model r | None => "" end].

Section Signed.
Context (hmac sha256 : string → string).

Definition _bridge_forward_signature (payload : dict json) (c : HTTPBridgeForwardContext) : string :=
  let payload_json := dumps_ascii (sort_keys (JObj payload)) in
  hmac (String.concat "|" (context_fields c ++ [sha256 payload_json])).

(** *** At the origin *)

Definition build_owner_forward_headers (headers : dict string) (payload : dict json) (c : HTTPBridgeForwardContext) : dict string :=
  let set_all h l := fold_left (λ h p, dict_set h p.1 p.2) l h in
  let forwarded := dict_del (dict_del headers "host") "content-length" in
  let forwarded := set_all forwarded
    [(HTTP_BRIDGE_FORWARDED_HEADER, "1"); (HTTP_BRIDGE_ORIGIN_INSTANCE_HEADER, origin_instance c);
     (HTTP_BRIDGE_TARGET_INSTANCE_HEADER, target_instance c); (HTTP_BRIDGE_CODEX_AFFINITY_HEADER, flag (cx_codex_session_affinity c))] in
  let forwarded := match filled (original_affinity_kind c), filled (original_affinity_key c) with
                   | Some kind, Some key => set_all forwarded [(HTTP_BRIDGE_AFFINITY_KIND_HEADER, kind); (HTTP_BRIDGE_AFFINITY_KEY_HEADER, key)]
                   | _, _ => forwarded
                   end in
  let forwarded := match filled (downstream_turn_state c) with Some t => dict_set forwarded TURN_STATE_HEADER t | None => forwarded end in
  let forwarded := match reservation c with
                   | Some r => set_all forwarded [(HTTP_BRIDGE_RESERVATION_ID_HEADER, fw_reservation_id r);
                                                  (HTTP_BRIDGE_RESERVATION_KEY_ID_HEADER, fw_key_id r);
                                                  (HTTP_BRIDGE_RESERVATION_MODEL_HEADER, fw_model r)]
                   | None => forwarded
                   end in
  dict_set forwarded HTTP_BRIDGE_SIGNATURE_HEADER (_bridge_forward_signature payload c).

(** *** At the owner *)

Notation header h k := (_header_value_case_insensitive h k).

Definition _optional_header (value : option string) : option string :=
  match value with Some v => none_if_empty (py_strip v) | None => None end.
Definition _bool_header (value : option string) : bool :=
  match value with Some v => mem (py_lower (py_strip v)) ["1"; "true"; "yes"; "on"] | None => false end.

Definition _reservation_from_headers (headers : dict string) : option ApiKeyUsageReservationData :=
  match _optional_header (header headers HTTP_BRIDGE_RESERVATION_ID_HEADER),
        _optional_header (header headers HTTP_BRIDGE_RESERVATION_KEY_ID_HEADER),
        _optional_header (header headers HTTP_BRIDGE_RESERVATION_MODEL_HEADER) with
  | Some reservation_id, Some key_id, Some model => Some {| fw_reservation_id := reservation_id; fw_key_id := key_id; fw_model := model |}
  | _, _, _ => None
  end.

(** A refusal is a status and an error envelope. *)
Definition refuse (status : Z) (code message error_type : string) : res (Z * dict json) HTTPBridgeForwardContext :=
  Err (status, openai_error code message error_type).

Definition context_from_headers (headers : dict string) (target : string) : HTTPBridgeForwardContext :=
  {| origin_instance := or_s (Some (py_strip (default "" (header headers HTTP_BRIDGE_ORIGIN_INSTANCE_HEADER)))) "unknown";
     target_instance := target;
     cx_codex_session_affinity := _bool_header (header headers HTTP_BRIDGE_CODEX_AFFINITY_HEADER);
     downstream_turn_state := _optional_header (header headers TURN_STATE_HEADER);
     original_affinity_kind := _optional_header (header headers HTTP_BRIDGE_AFFINITY_KIND_HEADER);
     original_affinity_key := _optional_header (header headers HTTP_BRIDGE_AFFINITY_KEY_HEADER);
     reservation := _reservation_from_headers headers |}.

Definition parse_forwarded_request (headers : dict string) (payload : dict json) (current_instance : string)
    : res (Z * dict json) HTTPBridgeForwardContext :=
  if negb (bool_decide (header headers HTTP_BRIDGE_FORWARDED_HEADER = Some "1"))
  then refuse 400 "bridge_forward_invalid" "Internal bridge forward marker is required" "invalid_request_error"
  else
    let target := py_strip (default "" (header headers HTTP_BRIDGE_TARGET_INSTANCE_HEADER)) in
    if String.eqb target "" || negb (String.eqb target current_instance)
    then refuse 503 "bridge_owner_forward_failed" "Internal bridge forward reached a non-target instance" "server_error"
    else
      let context := context_from_headers headers target in
      let expected_signature := _bridge_forward_signature payload context in
      match _optional_header (header headers HTTP_BRIDGE_SIGNATURE_HEADER) with
      | Some signature =>
          if String.eqb signature expected_signature then Ok context
          else refuse 400 "bridge_forward_invalid" "Internal bridge forward signature is invalid" "invalid_request_error"
      | None => refuse 400 "bridge_forward_invalid" "Internal bridge forward signature is invalid" "invalid_request_error"
      end.

End Signed.

(** Headers kept on the way to the client's own handler. *)
Definition _strip_internal_bridge_headers (headers : dict string) : dict string :=
  List.filter (λ p, negb (startswith "x-codex-bridge-" (py_lower p.1))) headers.

(** ** The stream that comes back *)

(** [buffer.split(b"\n\n", 1)]: what is before the first empty line and after it. *)
Definition newline : ascii := "010".
Definition separated (s : string) : option string :=
  match s with String a (String b rest) => if Ascii.eqb a newline && Ascii.eqb b newline then Some rest else None | _ => None end.
Fixpoint cut (s : string) : option (string * string) :=
  match separated s with
  | Some rest => Some ("", rest)
  | None => match s with
            | String c s => match cut s with Some (block, rest) => Some (String c block, rest) | None => None end
            | "" => None
            end
  end.

Definition block_text (block : string) : list string := if String.eqb block "" then [] else [(block ++ String newline (String newline ""))%string].

(** The loop that takes whole blocks off the buffer: the blocks and the rest. *)
Fixpoint drain (fuel : nat) (buffer : string) : list string * string :=
  match fuel with
  | O => ([], buffer)
  | S fuel =>
      match cut buffer with
      | None => ([], buffer)
      | Some (block, rest) => let '(blocks, rest) := drain fuel rest in (block_text block ++ blocks, rest)
      end
  end.
Definition drain_all (buffer : string) : list string * string := drain (String.length buffer) buffer.

(** [bytes.strip()] leaves nothing. *)
Definition byte_space (c : ascii) : bool := let n := Ascii.N_of_ascii c in ((9 <=? n)%N && (n <=? 13)%N) || (n =? 32)%N.
Fixpoint blank (s : string) : bool := match s with "" => true | String c s => byte_space c && blank s end.

Record _OwnerForwardReceiveTimeout := { rt_timeout_seconds : Q; rt_error_code : string; rt_error_message : string }.

Definition _remaining_budget_seconds (deadline now : Q) : Q := qmax 0 (deadline - now).

Definition _owner_forward_receive_timeout (now request_started_at proxy_request_budget_seconds stream_idle_timeout_seconds : Q)
    : _OwnerForwardReceiveTimeout :=
  let idle_timeout_seconds := qmax (1 # 1000) stream_idle_timeout_seconds in
  let remaining_budget := _remaining_budget_seconds (request_started_at + proxy_request_budget_seconds) now in
  let matches := qeq idle_timeout_seconds (qmax (1 # 1000) proxy_request_budget_seconds) in
  let idle t := {| rt_timeout_seconds := t; rt_error_code := "stream_idle_timeout"; rt_error_message := "Upstream stream idle timeout" |} in
  let budget t := {| rt_timeout_seconds := t; rt_error_code := "upstream_request_timeout"; rt_error_message := "Proxy request budget exhausted" |} in
  if qle remaining_budget 0 && matches then idle 0%Q
  else if matches && qle idle_timeout_seconds remaining_budget then idle remaining_budget
  else if qle remaining_budget 0 then budget 0%Q
  else if qle idle_timeout_seconds remaining_budget then idle idle_timeout_seconds
  else budget remaining_budget.

(** What reading the next chunk gives, at the time it is asked for. *)
Inductive reading := Chunk (bytes : string) | TimedOut (now : Q).

Section Client.
Context (request_started_at proxy_request_budget_seconds stream_idle_timeout_seconds : Q).

(** The blocks, and the timeout the iteration ends with. *)
Fixpoint _iter_sse_event_blocks (readings : list reading) (buffer : string) : list string * option _OwnerForwardReceiveTimeout :=
  match readings with
  | [] => (if blank buffer then [] else [buffer], None)
  | TimedOut now :: _ =>
      ([], Some (_owner_forward_receive_timeout now request_started_at proxy_request_budget_seconds stream_idle_timeout_seconds))
  | Chunk chunk :: readings =>
      let '(blocks, buffer) := drain_all (buffer ++ chunk)%string in
      let '(later, failure) := _iter_sse_event_blocks readings buffer in (blocks ++ later, failure)
  end.

Definition _owner_forward_error_payload (status_code : Z) (payload_text : string) : dict json :=
  let made_up := openai_error "bridge_owner_forward_failed"
                   (or_s (Some payload_text) ("HTTP bridge owner request failed with status " ++ show_Z status_code)%string) "server_error" in
  match loads payload_text with
  | Some (JObj payload) => if bool_decide (is_Some (get_obj "error" payload)) then payload else made_up
  | _ => made_up
  end.

(** What the client of the owner does: it refuses, or it yields blocks and may
    then fail with a last block. *)
Inductive forward_result :=
  | Refused (status : Z) (payload : dict json)
  | Relayed (blocks : list string) (failure : option string).

Definition stream_responses (created : Z) (request_id : option string) (status : Z) (payload_text : string) (readings : list reading) : forward_result :=
  let failed code message := format_sse_event (response_failed_event created code message "server_error" request_id None) in
  if negb (status =? 200)%Z then Refused status (_owner_forward_error_payload status payload_text)
  else match _iter_sse_event_blocks readings "" with
       | (blocks, Some timeout) => Relayed blocks (Some (failed (rt_error_code timeout) (rt_error_message timeout)))
       | ([], None) => Relayed [failed "stream_incomplete" "Upstream websocket closed before response.completed"] None
       | (blocks, None) => Relayed blocks None
       end.

End Client.

End Forwarding.
