(* ===== verification/ForwardingFacts.v ===== *)
(** What forwarding between instances promises: a request that was forwarded is
    accepted with the context it was sent with, a signature vouches for that
    context, and the stream comes back block by block.  The properties are about
    [Forwarding] of [Forwarding.v]. *)

From S2P Require Import Prelude Json Sse Requests ProxyEvents Affinity Forwarding.
Import Json.Json Json.JsonFacts Sse.Sse Requests.JsonOps ProxyEvents.ProxyErrors Affinity.Affinity Forwarding.Forwarding.

Module ForwardingFacts.

(** ** Blocks *)

Lemma separated_app s t rest : separated s = Some rest → separated (s ++ t) = Some (rest ++ t)%string.
Proof. destruct s as [|a [|b s]]; [done..|]. simpl. destruct (Ascii.eqb a newline && Ascii.eqb b newline); [|done]. intros [= <-]. done. Qed.

Lemma cut_app s t a b : cut s = Some (a, b) → cut (s ++ t) = Some (a, (b ++ t)%string).
Proof.
  revert a b. induction s as [|c s IH]; intros a b; [done|]. cbn [cut]. destruct (separated (String c s)) as [rest|] eqn:E.
  - intros [= <- <-]. change (String c s ++ t)%string with (String c (s ++ t)). cbn [cut].
    apply (separated_app _ t) in E. change (String c s ++ t)%string with (String c (s ++ t)) in E. by rewrite E.
  - destruct (cut s) as [[a' b']|] eqn:C; [|done]. intros [= <- <-]. specialize (IH _ _ eq_refl).
    change (String c s ++ t)%string with (String c (s ++ t)). cbn [cut].
    assert (separated (String c (s ++ t)) = None) as ->.
    { destruct s as [|d s]; [done|]. simpl in E |- *. by destruct (Ascii.eqb c newline && Ascii.eqb d newline). }
    by rewrite IH.
Qed.

Lemma cut_length s a b : cut s = Some (a, b) → (String.length a + 2 + String.length b = String.length s)%nat.
Proof.
  revert a b. induction s as [|c s IH]; intros a b; [done|]. cbn [cut]. destruct (separated (String c s)) as [rest|] eqn:E.
  - intros [= <- <-]. destruct s as [|d s]; [done|]. cbn [separated] in E. destruct (Ascii.eqb c newline && Ascii.eqb d newline); [|done].
    injection E as <-. simpl. lia.
  - destruct (cut s) as [[a' b']|]; [|done]. intros [= <- <-]. specialize (IH _ _ eq_refl). simpl in *. lia.
Qed.

Lemma drain_fuel n m s : String.length s <= n → String.length s <= m → drain n s = drain m s.
Proof.
  revert m s. induction n as [|n IH]; intros m s Hn Hm.
  - destruct s; [|simpl in Hn; lia]. by destruct m.
  - destruct m as [|m]; [destruct s; [done|simpl in Hm; lia]|]. cbn [drain]. destruct (cut s) as [[a b]|] eqn:C; [|done].
    apply cut_length in C. by rewrite (IH m b) by lia.
Qed.

Lemma drain_all_cut s a b : cut s = Some (a, b) → drain_all s = (block_text a ++ (drain_all b).1, (drain_all b).2).
Proof.
  intros C. unfold drain_all at 1. pose proof (cut_length _ _ _ C) as Hl. destruct (String.length s) as [|n] eqn:E; [lia|]. cbn [drain]. rewrite C.
  rewrite (drain_fuel n (String.length b) b) by lia. fold (drain_all b). by destruct (drain_all b).
Qed.

Lemma drain_all_none s : cut s = None → drain_all s = ([], s).
Proof. intros C. unfold drain_all. destruct (String.length s); cbn [drain]; [done|by rewrite C]. Qed.

Lemma drain_all_app s t : drain_all (s ++ t) = let '(bs, r) := drain_all s in (bs ++ (drain_all (r ++ t)).1, (drain_all (r ++ t)).2).
Proof.
  remember (String.length s) as n eqn:Hn. revert s Hn. induction n as [n IH] using lt_wf_ind. intros s ->.
  destruct (cut s) as [[a b]|] eqn:C.
  - rewrite (drain_all_cut _ _ _ C), (drain_all_cut _ _ _ (cut_app _ t _ _ C)). apply cut_length in C.
    rewrite (IH (String.length b) ltac:(lia) b eq_refl). destruct (drain_all b) as [bs r]. cbn [fst snd]. by rewrite app_assoc.
  - rewrite (drain_all_none s C). by destruct (drain_all (s ++ t)).
Qed.

Lemma drain_all_done s : cut (drain_all s).2 = None.
Proof.
  remember (String.length s) as n eqn:Hn. revert s Hn. induction n as [n IH] using lt_wf_ind. intros s ->.
  destruct (cut s) as [[a b]|] eqn:C; [|by rewrite (drain_all_none s C)]. rewrite (drain_all_cut _ _ _ C). apply cut_length in C.
  by apply (IH (String.length b)); [lia|].
Qed.

(** The blocks of a whole stream. *)
Definition blocks_of (s : string) : list string := (drain_all s).1 ++ if blank (drain_all s).2 then [] else [(drain_all s).2].

Lemma iter_chunks start budget idle chunks buffer : cut buffer = None →
  _iter_sse_event_blocks start budget idle (map Chunk chunks) buffer = (blocks_of (buffer ++ String.concat "" chunks), None).
Proof.
  revert buffer. induction chunks as [|c chunks IH]; intros buffer Hb.
  - cbn [map _iter_sse_event_blocks]. unfold blocks_of. simpl. rewrite app_empty_r, drain_all_none by done. done.
  - cbn [map _iter_sse_event_blocks].
    assert (String.concat "" (c :: chunks) = (c ++ String.concat "" chunks)%string) as ->.
    { destruct chunks; simpl; by rewrite ?app_empty_r. }
    pose proof (drain_all_done (buffer ++ c)) as Hd. unfold blocks_of. rewrite <- app_assoc', (drain_all_app (buffer ++ c) (String.concat "" chunks)).
    destruct (drain_all (buffer ++ c)) as [bs r]. cbn [fst snd] in *. rewrite IH by done. unfold blocks_of. by rewrite app_assoc.
Qed.

(** The text of an event: no empty line in it or at its end. *)
Definition event_text (t : string) : bool :=
  negb (String.eqb t "") && match cut (t ++ String newline "") with None => true | Some _ => false end.
Definition event_block (t : string) : string := (t ++ String newline (String newline ""))%string.

Lemma cut_block t rest : cut (t ++ String newline "") = None → cut (event_block t ++ rest) = Some (t, rest).
Proof.
  unfold event_block. rewrite app_assoc'. induction t as [|c t IH]; [done|].
  change (String c t ++ String newline "")%string with (String c (t ++ String newline "")).
  change (String c t ++ String newline (String newline "") ++ rest)%string with (String c (t ++ String newline (String newline "") ++ rest)).
  cbn [cut]. destruct (separated (String c (t ++ String newline ""))) eqn:E; [done|].
  destruct (cut (t ++ String newline "")) as [[]|] eqn:C; [done|]. intros _. rewrite (IH eq_refl).
  assert (separated (String c (t ++ String newline (String newline "") ++ rest)) = None) as ->; [|done].
  destruct t as [|d t]; simpl in E |- *.
  - by destruct (Ascii.eqb c newline && true).
  - by destruct (Ascii.eqb c newline && Ascii.eqb d newline).
Qed.

Lemma drain_events texts : Forall (λ t, event_text t = true) texts →
  drain_all (String.concat "" (map event_block texts)) = (map event_block texts, "").
Proof.
  induction 1 as [|t texts Ht _ IH]; [done|]. unfold event_text in Ht. apply andb_true_iff in Ht as [Hne Hc].
  destruct (cut (t ++ String newline "")) eqn:C; [done|].
  assert (String.concat "" (map event_block (t :: texts)) = (event_block t ++ String.concat "" (map event_block texts))%string) as ->.
  { destruct texts; simpl; by rewrite ?app_empty_r. }
  rewrite (drain_all_cut _ _ _ (cut_block t _ C)), IH. unfold block_text. rewrite negb_true_iff in Hne. by rewrite Hne.
Qed.

(** C27. The events an owner writes come out of the relay one by one and unchanged,
    however the network cuts the stream into chunks. *)
Theorem events_relayed start budget idle texts chunks : Forall (λ t, event_text t = true) texts →
  String.concat "" chunks = String.concat "" (map event_block texts) →
  _iter_sse_event_blocks start budget idle (map Chunk chunks) "" = (map event_block texts, None).
Proof.
  intros Ht Hc. rewrite iter_chunks by done. change ("" ++ String.concat "" chunks)%string with (String.concat "" chunks). rewrite Hc.
  unfold blocks_of. rewrite drain_events by done. simpl. by rewrite app_nil_r.
Qed.

(** A client that is answered always gets a block, whatever arrives. *)
Lemma forward_never_silent start budget idle created request_id text readings :
  match stream_responses start budget idle created request_id 200 text readings with
  | Relayed blocks failure => blocks ≠ [] ∨ is_Some failure
  | Refused _ _ => False
  end.
Proof.
  unfold stream_responses. cbn [Z.eqb negb Pos.eqb].
  destruct (_iter_sse_event_blocks start budget idle readings "") as [[|b blocks] [timeout|]]; [right; done|by left..].
Qed.

(** The wait for a chunk never exceeds what is left of the request's budget. *)
Lemma wait_within_budget now start budget idle :
  (rt_timeout_seconds (_owner_forward_receive_timeout now start budget idle) <= _remaining_budget_seconds (start + budget) now)%Q
  ∧ (0 <= rt_timeout_seconds (_owner_forward_receive_timeout now start budget idle))%Q.
Proof.
  unfold _owner_forward_receive_timeout, _remaining_budget_seconds. set (r := qmax 0 _). set (i := qmax (1 # 1000) idle).
  assert (0 <= r)%Q as Hr by (unfold r, qmax; case_if; pyb; lra). assert (0 < i)%Q as Hi by (unfold i, qmax; case_if; pyb; lra).
  destruct (qeq i (qmax (1 # 1000) budget)); rewrite ?andb_true_r, ?andb_false_r, ?andb_true_l, ?andb_false_l;
    repeat (case_if; cbn [rt_timeout_seconds]; [split; pyb; lra|]); cbn [rt_timeout_seconds]; split; pyb; lra.
Qed.

(** ** Round trip *)

Notation header h k := (_header_value_case_insensitive h k).

(** A header value as it comes out of the wire: not empty, no blanks around it. *)
Definition plain (s : string) : Prop := py_strip s = s ∧ s ≠ "".
Definition plain_opt (o : option string) : Prop := match o with Some s => plain s | None => True end.

(** Headers of a client: lower-case names, none of them the bridge's own. *)
Definition client_headers (headers : dict string) : Prop :=
  Forall (λ p, py_lower p.1 = p.1 ∧ startswith "x-codex-bridge-" p.1 = false) headers.

(** What the origin puts into a context. *)
Record context_wf (headers : dict string) (c : HTTPBridgeForwardContext) : Prop := {
  cw_origin : plain (origin_instance c);
  cw_target : plain (target_instance c);
  cw_turn : match downstream_turn_state c with Some t => plain t | None => dict_get headers TURN_STATE_HEADER = None end;
  cw_kind : plain_opt (original_affinity_kind c);
  cw_key : plain_opt (original_affinity_key c);
  cw_both : original_affinity_kind c = None ↔ original_affinity_key c = None;
  cw_reservation : match reservation c with
                   | Some r => plain (fw_reservation_id r) ∧ plain (fw_key_id r) ∧ plain (fw_model r)
                   | None => True
                   end }.

Definition lower_names (h : dict string) : Prop := Forall (λ p, py_lower p.1 = p.1) h.

Lemma header_lower h k : lower_names h → py_lower k = k → header h k = dict_get h k.
Proof.
  intros Hh Hk. unfold _header_value_case_insensitive. rewrite Hk. induction Hh as [|[k' v] h H _ IH]; [done|]. cbn [List.find dict_get fst] in *.
  rewrite H, String.eqb_sym. by destruct (String.eqb k k').
Qed.

Lemma lower_set h k v : lower_names h → py_lower k = k → lower_names (dict_set h k v).
Proof. intros Hh Hk. apply Forall_forall. intros p [->|Hp]%dict_set_in; [done|]. by eapply Forall_forall in Hh. Qed.

Lemma lower_del h k : lower_names h → lower_names (dict_del h k).
Proof.
  intros Hh. apply Forall_forall. intros p Hp%list_elem_of_In. unfold dict_del in Hp. apply List.filter_In in Hp as [Hp%list_elem_of_In _].
  by eapply Forall_forall in Hh.
Qed.

Lemma get_del_other (h : dict string) k k' : k' ≠ k → dict_get (dict_del h k) k' = dict_get h k'.
Proof.
  intros Hne. induction h as [|[j v] h IH]; [done|]. unfold dict_del in *. cbn [List.filter dict_get fst].
  destruct (String.eqb_spec j k) as [->|Hj]; cbn [negb dict_get]; [|by rewrite IH].
  rewrite IH. by rewrite (proj2 (String.eqb_neq _ _) Hne).
Qed.

Lemma client_internal headers k : client_headers headers → startswith "x-codex-bridge-" k = true → dict_get headers k = None.
Proof.
  intros Hh Hk. destruct (dict_get headers k) as [v|] eqn:E; [|done]. apply dict_get_Some_in in E. unfold client_headers in Hh.
  rewrite Forall_forall in Hh. destruct (Hh _ E) as [_ H]. simpl in H. congruence.
Qed.

Lemma filled_plain s : plain s → filled (Some s) = Some s.
Proof. intros [_ H]. unfold filled, none_if_empty. by rewrite (proj2 (String.eqb_neq _ _) H). Qed.
Lemma optional_plain s : plain s → _optional_header (Some s) = Some s.
Proof. intros [E H]. unfold _optional_header, none_if_empty. rewrite E. by rewrite (proj2 (String.eqb_neq _ _) H). Qed.

(** Looking a name up in what the origin sends. *)
Ltac look := repeat (rewrite dict_get_set || (rewrite get_del_other by discriminate)); cbn [String.eqb Ascii.eqb Bool.eqb].

Section RoundTrip.
Context (hmac sha256 : string → string) (hmac_plain : ∀ s, plain (hmac s)).
Context (headers : dict string) (payload : dict json) (c : HTTPBridgeForwardContext).
Context (Hclient : client_headers headers) (Hc : context_wf headers c).
Notation sent := (build_owner_forward_headers hmac sha256 headers payload c).

Lemma sent_lower : lower_names sent.
Proof.
  assert (lower_names headers) as Hl by (eapply Forall_impl; [apply Hclient|]; by intros p [? _]).
  unfold build_owner_forward_headers. cbn [fold_left fst snd].
  repeat match goal with |- context [match ?o with Some _ => _ | None => _ end] => destruct o end;
    repeat first [apply lower_set; [|reflexivity]|apply lower_del]; done.
Qed.

Lemma sent_get k v : py_lower k = k → dict_get sent k = v → header sent k = v.
Proof. intros Hk <-. by apply header_lower; [apply sent_lower|]. Qed.

Ltac sent_value := apply sent_get; [done|]; unfold build_owner_forward_headers; cbn [fold_left fst snd];
  repeat match goal with |- context [match ?o with Some _ => _ | None => _ end] => destruct o end; look; try done.

Lemma sent_forwarded : header sent HTTP_BRIDGE_FORWARDED_HEADER = Some "1".
Proof. sent_value. Qed.
Lemma sent_origin : header sent HTTP_BRIDGE_ORIGIN_INSTANCE_HEADER = Some (origin_instance c).
Proof. sent_value. Qed.
Lemma sent_target : header sent HTTP_BRIDGE_TARGET_INSTANCE_HEADER = Some (target_instance c).
Proof. sent_value. Qed.
Lemma sent_codex : header sent HTTP_BRIDGE_CODEX_AFFINITY_HEADER = Some (flag (cx_codex_session_affinity c)).
Proof. sent_value. Qed.
Lemma sent_signature : header sent HTTP_BRIDGE_SIGNATURE_HEADER = Some (_bridge_forward_signature hmac sha256 payload c).
Proof. sent_value. Qed.

Lemma sent_turn : _optional_header (header sent TURN_STATE_HEADER) = downstream_turn_state c.
Proof.
  rewrite (sent_get TURN_STATE_HEADER (downstream_turn_state c)); [|done|].
  - pose proof (cw_turn _ _ Hc) as H. destruct (downstream_turn_state c); [by apply optional_plain|done].
  - pose proof (cw_turn _ _ Hc) as H. unfold build_owner_forward_headers. cbn [fold_left fst snd].
    destruct (downstream_turn_state c) as [t|]; [rewrite (filled_plain t H)|cbn [filled]];
      destruct (reservation c), (filled (original_affinity_kind c)), (filled (original_affinity_key c)); look; done.
Qed.

Lemma sent_affinity : _optional_header (header sent HTTP_BRIDGE_AFFINITY_KIND_HEADER) = original_affinity_kind c
  ∧ _optional_header (header sent HTTP_BRIDGE_AFFINITY_KEY_HEADER) = original_affinity_key c.
Proof.
  rewrite (sent_get HTTP_BRIDGE_AFFINITY_KIND_HEADER (original_affinity_kind c)), (sent_get HTTP_BRIDGE_AFFINITY_KEY_HEADER (original_affinity_key c));
    try done; pose proof (cw_kind _ _ Hc) as Hkind; pose proof (cw_key _ _ Hc) as Hkey; pose proof (cw_both _ _ Hc) as Hboth.
  { destruct (original_affinity_kind c), (original_affinity_key c); split; by first [apply optional_plain|done]. }
  all: unfold build_owner_forward_headers; cbn [fold_left fst snd];
    destruct (original_affinity_kind c) as [kind|], (original_affinity_key c) as [key|]; [rewrite !filled_plain by done| | |cbn [filled]];
      [|naive_solver..|]; destruct (filled (downstream_turn_state c)), (reservation c); look; first [done|by apply client_internal].
Qed.

Lemma sent_reservation : _reservation_from_headers sent = reservation c.
Proof.
  pose proof (cw_reservation _ _ Hc) as H. unfold _reservation_from_headers.
  rewrite (sent_get HTTP_BRIDGE_RESERVATION_ID_HEADER (fw_reservation_id <$> reservation c)),
    (sent_get HTTP_BRIDGE_RESERVATION_KEY_ID_HEADER (fw_key_id <$> reservation c)),
    (sent_get HTTP_BRIDGE_RESERVATION_MODEL_HEADER (fw_model <$> reservation c)); try done.
  { destruct (reservation c) as [[i k m]|]; [|done]. destruct H as (Hi & Hk & Hm). cbn [fmap option_fmap option_map]. by rewrite !optional_plain. }
  all: unfold build_owner_forward_headers; cbn [fold_left fst snd];
    destruct (filled (downstream_turn_state c)), (reservation c), (filled (original_affinity_kind c)), (filled (original_affinity_key c));
      look; first [done|by apply client_internal].
Qed.

Lemma sent_context : context_from_headers sent (target_instance c) = c.
Proof.
  unfold context_from_headers. rewrite sent_origin, sent_codex, sent_turn, sent_reservation. destruct sent_affinity as [-> ->].
  destruct (cw_origin _ _ Hc) as [Ho Hne]. cbn [default]. unfold or_s. simpl. rewrite Ho, (proj2 (String.eqb_neq _ _) Hne). unfold _bool_header.
  destruct c as [o t a ts kind key r]. cbn. by destruct a.
Qed.

End RoundTrip.

Lemma forward_roundtrip_aux hmac sha256 headers payload c body : (∀ s, plain (hmac s)) → client_headers headers → context_wf headers c →
  sort_keys (JObj body) = sort_keys (JObj payload) →
  parse_forwarded_request hmac sha256 (build_owner_forward_headers hmac sha256 headers payload c) body (target_instance c) = Ok c.
Proof.
  intros Hmac Hclient Hc Hbody. unfold parse_forwarded_request. rewrite sent_forwarded, sent_target by done. cbn [default].
  destruct (cw_target _ _ Hc) as [Ht Hne]. rewrite bool_decide_true by done. cbn [negb]. simpl. rewrite Ht, String.eqb_refl, (proj2 (String.eqb_neq _ _) Hne).
  cbn [negb orb]. rewrite sent_context, sent_signature by done. unfold _bridge_forward_signature. rewrite Hbody.
  rewrite optional_plain by apply Hmac. by rewrite String.eqb_refl.
Qed.

(** C26. A forwarded request is accepted by its target, with the context the origin
    sent, when the body that arrives has the same canonical text; provided the
    fields of the context are not empty and have no blanks around them, kind and
    key of the affinity come together, the client sent no header of the bridge
    itself (nor a turn state that the context lacks), and header names are in
    lower case. *)
Theorem forward_roundtrip hmac sha256 headers payload c body : (∀ s, plain (hmac s)) → client_headers headers → context_wf headers c →
  sort_keys (JObj body) = sort_keys (JObj payload) →
  parse_forwarded_request hmac sha256 (build_owner_forward_headers hmac sha256 headers payload c) body (target_instance c) = Ok c.
Proof. apply forward_roundtrip_aux. Qed.

(** ** What a signature vouches for *)

Fixpoint no_bar (s : string) : bool := match s with "" => true | String ch s => negb (Ascii.eqb ch "|") && no_bar s end.

Lemma bar_split a b s t : no_bar a = true → no_bar b = true → (a ++ String "|" s = b ++ String "|" t)%string → a = b ∧ s = t.
Proof.
  revert b. induction a as [|x a IH]; intros [|y b] Ha Hb E; simpl in *.
  - by injection E.
  - injection E as <- _. done.
  - injection E as -> _. done.
  - injection E as -> E. apply andb_true_iff in Ha as [_ Ha], Hb as [_ Hb]. destruct (IH b Ha Hb E) as [-> ->]. done.
Qed.

Lemma no_bar_app a s : no_bar (a ++ String "|" s) = false.
Proof. induction a as [|x a IH]; [done|]. simpl. rewrite IH. by destruct (Ascii.eqb x "|"). Qed.

Lemma joined_inj l l' : l ≠ [] → l' ≠ [] → Forall (λ s, no_bar s = true) l → Forall (λ s, no_bar s = true) l' →
  String.concat "|" l = String.concat "|" l' → l = l'.
Proof.
  revert l'. induction l as [|a l IH]; [done|]. intros [|b l'] _ Hne Hl Hl' E; [done|]. inversion Hl as [|? ? Ha Hl1]; subst.
  inversion Hl' as [|? ? Hb Hl2]; subst. destruct l as [|a' l], l' as [|b' l'].
  - cbn [String.concat] in E. by subst b.
  - change (String.concat "|" [a]) with a in E. change (String.concat "|" (b :: b' :: l')) with (b ++ String "|" (String.concat "|" (b' :: l')))%string in E.
    subst a. by rewrite no_bar_app in Ha.
  - change (String.concat "|" [b]) with b in E. change (String.concat "|" (a :: a' :: l)) with (a ++ String "|" (String.concat "|" (a' :: l)))%string in E.
    subst b. by rewrite no_bar_app in Hb.
  - change (a ++ String "|" (String.concat "|" (a' :: l)) = b ++ String "|" (String.concat "|" (b' :: l')))%string in E.
    apply bar_split in E as [-> E]; [|done..]. f_equal. by apply IH.
Qed.

(** No optional field is an empty text. *)
Definition context_filled (c : HTTPBridgeForwardContext) : Prop :=
  downstream_turn_state c ≠ Some "" ∧ original_affinity_kind c ≠ Some "" ∧ original_affinity_key c ≠ Some ""
  ∧ match reservation c with Some r => fw_reservation_id r ≠ "" | None => True end.

Lemma or_empty_inj a b : a ≠ Some "" → b ≠ Some "" → or_s a "" = or_s b "" → a = b.
Proof.
  intros Ha Hb. unfold or_s. destruct a as [a|], b as [b|]; [|destruct (String.eqb_spec a "")|destruct (String.eqb_spec b "")|done]; try congruence.
  destruct (String.eqb_spec a ""), (String.eqb_spec b ""); congruence.
Qed.

Lemma flag_inj a b : flag a = flag b → a = b.
Proof. by destruct a, b. Qed.

Lemma context_fields_inj c d : context_filled c → context_filled d → context_fields c = context_fields d → c = d.
Proof.
  destruct c as [o t a ts k key r], d as [o' t' a' ts' k' key' r']. intros (C1 & C2 & C3 & C4) (D1 & D2 & D3 & D4). cbn in *.
  intros [= -> -> ->%flag_inj ->%or_empty_inj ->%or_empty_inj ->%or_empty_inj E1 E2 E3]; [|done..].
  destruct r as [[]|], r' as [[]|]; cbn in *; congruence.
Qed.

Lemma optional_filled v : _optional_header v ≠ Some "".
Proof. unfold _optional_header, none_if_empty. destruct v as [v|]; [|done]. destruct (String.eqb_spec (py_strip v) ""); congruence. Qed.

Lemma read_context_filled headers target : context_filled (context_from_headers headers target).
Proof.
  split_and!; try apply optional_filled. cbn [reservation context_from_headers]. unfold _reservation_from_headers.
  pose proof (optional_filled (header headers HTTP_BRIDGE_RESERVATION_ID_HEADER)) as H.
  repeat (destruct (_optional_header _) as [?|]; [|done]). cbn [fw_reservation_id]. congruence.
Qed.

(** C8. An owner that accepts a request under a signature accepts the context and
    the body the signature was made for, as long as no field has a bar in it
    (collisions of the two hash functions aside). *)
Theorem forward_authentic hmac sha256 headers body current c payload0 c0 : (∀ s t, hmac s = hmac t → s = t) →
  (∀ s t, sha256 s = sha256 t → s = t) → (∀ s, no_bar (sha256 s) = true) →
  Forall (λ s, no_bar s = true) (context_fields c) → Forall (λ s, no_bar s = true) (context_fields c0) → context_filled c0 →
  unicode_value (JObj body) → unicode_value (JObj payload0) →
  header headers HTTP_BRIDGE_SIGNATURE_HEADER = Some (_bridge_forward_signature hmac sha256 payload0 c0) →
  (∀ s, plain (hmac s)) →
  parse_forwarded_request hmac sha256 headers body current = Ok c →
  c = c0 ∧ sort_keys (JObj body) = sort_keys (JObj payload0) ∧ target_instance c = current.
Proof.
  intros Hmac Hsha Hbar Hf Hf0 Hfill Hb Hp Hsig Hplain. unfold parse_forwarded_request. case_if; [done|].
  destruct (_ || _) eqn:Ht; [done|]. apply orb_false_iff in Ht as [_ Ht]. rewrite negb_false_iff in Ht. apply String.eqb_eq in Ht.
  rewrite Hsig, optional_plain by apply Hplain. destruct (String.eqb_spec (_bridge_forward_signature hmac sha256 payload0 c0)
    (_bridge_forward_signature hmac sha256 body (context_from_headers headers (py_strip (default "" (header headers HTTP_BRIDGE_TARGET_INSTANCE_HEADER))))))
    as [E|]; [|done]. intros [= <-]. unfold _bridge_forward_signature in E. apply Hmac, joined_inj in E; [| |by destruct (context_fields _)|..].
  - apply app_inj_tail in E as [E1 E2%Hsha]. split_and!; [by apply context_fields_inj; [apply read_context_filled| |]| |done].
    symmetry. by apply canonical_ascii_faithful.
  - by destruct (context_fields c0).
  - apply Forall_app. split; [done|by constructor].
  - apply Forall_app. split; [done|by constructor].
Qed.

(** A bar in a field is not told from the bar between two fields: here a session
    key that holds bars is signed like a shorter key with a usage reservation. *)
Definition barred_key : HTTPBridgeForwardContext :=
  {| origin_instance := "a"; target_instance := "b"; cx_codex_session_affinity := true; downstream_turn_state := None;
     original_affinity_kind := Some "session_header"; original_affinity_key := Some "s|r|k|m"; reservation := None |}.
Definition moved_bars : HTTPBridgeForwardContext :=
  {| origin_instance := "a"; target_instance := "b"; cx_codex_session_affinity := true; downstream_turn_state := None;
     original_affinity_kind := Some "session_header"; original_affinity_key := Some "s";
     reservation := Some {| fw_reservation_id := "r"; fw_key_id := "k"; fw_model := "m|||" |} |}.

Lemma dict_set_twice (h : dict string) k v w : dict_set (dict_set h k v) k w = dict_set h k w.
Proof.
  induction h as [|[j u] h IH]; simpl; [by rewrite String.eqb_refl|].
  destruct (String.eqb k j) eqn:E; simpl; rewrite E; [done|by f_equal].
Qed.

(** The owner takes the signature of a request without a reservation for one
    that names a reservation of another key. *)
Theorem signature_covers_other_context hmac sha256 payload : (∀ s, plain (hmac s)) →
  parse_forwarded_request hmac sha256
    (dict_set (build_owner_forward_headers hmac sha256 [] payload moved_bars) HTTP_BRIDGE_SIGNATURE_HEADER
       (_bridge_forward_signature hmac sha256 payload barred_key)) payload "b" = Ok moved_bars.
Proof.
  intros Hp. change (_bridge_forward_signature hmac sha256 payload barred_key) with (_bridge_forward_signature hmac sha256 payload moved_bars).
  unfold build_owner_forward_headers at 1. rewrite dict_set_twice. apply forward_roundtrip_aux; [done|constructor|by split|done].
Qed.

(** ** Samples *)

Definition sample_payload : dict json := [("model", JStr "gpt-5"); ("input", JList [JObj [("role", JStr "user"); ("content", JStr "hi")]])].
Definition sample_context : HTTPBridgeForwardContext :=
  {| origin_instance := "a"; target_instance := "b"; cx_codex_session_affinity := true; downstream_turn_state := Some "turn";
     original_affinity_kind := Some "session_header"; original_affinity_key := Some "s";
     reservation := Some {| fw_reservation_id := "r"; fw_key_id := "k"; fw_model := "gpt-5" |} |}.
Definition sample_headers : dict string := [("host", "proxy"); ("session_id", "s")].
(** A stand-in for a digest: the bits, between two letters. *)
Definition bit (b : bool) : ascii := if b then "1" else "0".
Fixpoint bits (s : string) : string :=
  match s with
  | "" => ""
  | String (Ascii b0 b1 b2 b3 b4 b5 b6 b7) s =>
      String (bit b0) (String (bit b1) (String (bit b2) (String (bit b3)
        (String (bit b4) (String (bit b5) (String (bit b6) (String (bit b7) (bits s))))))))
  end.
Definition sample_digest (s : string) : string := String "x" (bits s ++ "x").

Lemma bit_inj b c : bit b = bit c → b = c.
Proof. by destruct b, c. Qed.
Lemma bits_inj s t : (bits s ++ "x" = bits t ++ "x")%string → s = t.
Proof.
  revert t. induction s as [|[] s IH]; intros [|[] t]; [done|by destruct b..|by destruct b|]. cbn [bits]. rewrite !app_cons.
  intros [= -> %bit_inj ->%bit_inj ->%bit_inj ->%bit_inj ->%bit_inj ->%bit_inj ->%bit_inj ->%bit_inj ->%IH]. done.
Qed.
Lemma digest_inj s t : sample_digest s = sample_digest t → s = t.
Proof. unfold sample_digest. intros [= ->%bits_inj]. done. Qed.
Lemma digest_no_bar s : no_bar (sample_digest s) = true.
Proof.
  unfold sample_digest. cbn [no_bar]. induction s as [|[] s IH]; [done|]. cbn [bits]. rewrite !app_cons. cbn [no_bar].
  by destruct b, b0, b1, b2, b3, b4, b5, b6.
Qed.
Lemma rstrip_x s : rstrip (s ++ "x") = (s ++ "x")%string.
Proof. induction s as [|ch s IH]; [done|]. rewrite app_cons. cbn [rstrip]. rewrite IH. by destruct s. Qed.
Lemma digest_plain s : plain (sample_digest s).
Proof. split; [|done]. exact (rstrip_x (String "x" (bits s))). Qed.

Lemma forward_roundtrip_witness :
  parse_forwarded_request sample_digest sample_digest
    (build_owner_forward_headers sample_digest sample_digest sample_headers sample_payload sample_context) (rev sample_payload) "b" = Ok sample_context.
Proof. by apply (forward_roundtrip sample_digest sample_digest sample_headers sample_payload sample_context (rev sample_payload)); [apply digest_plain|repeat constructor|split|]. Defined.

(** The affinity key comes from the client, blanks included: the owner strips it
    before it checks the signature, and refuses the request. *)
Theorem padded_key_refused :
  let context := sample_context {{ original_affinity_key := Some "thread " }} in
  is_ok (parse_forwarded_request sample_digest sample_digest
    (build_owner_forward_headers sample_digest sample_digest sample_headers sample_payload context) sample_payload "b") = false.
Proof. by vm_compute. Qed.

Lemma forward_authentic_witness :
  sample_context = sample_context ∧ sort_keys (JObj (rev sample_payload)) = sort_keys (JObj sample_payload)
  ∧ target_instance sample_context = "b".
Proof.
  apply (forward_authentic sample_digest sample_digest
    (build_owner_forward_headers sample_digest sample_digest sample_headers sample_payload sample_context) (rev sample_payload) "b" sample_context
    sample_payload sample_context).
  - apply digest_inj.
  - apply digest_inj.
  - apply digest_no_bar.
  - by repeat constructor.
  - by repeat constructor.
  - by split_and!.
  - apply unicode_valueb_sound. by vm_compute.
  - apply unicode_valueb_sound. by vm_compute.
  - by vm_compute.
  - apply digest_plain.
  - by vm_compute.
Defined.

Lemma signature_covers_other_context_witness : parse_forwarded_request sample_digest sample_digest
    (dict_set (build_owner_forward_headers sample_digest sample_digest [] sample_payload moved_bars) HTTP_BRIDGE_SIGNATURE_HEADER
       (_bridge_forward_signature sample_digest sample_digest sample_payload barred_key)) sample_payload "b" = Ok moved_bars.
Proof. apply (signature_covers_other_context sample_digest sample_digest sample_payload), digest_plain. Defined.

Definition nl : string := String newline "".
Lemma events_relayed_witness :
  _iter_sse_event_blocks 0 600 300 (map Chunk ["data: 1"; nl; (nl ++ "data: 2")%string; ""; (nl ++ nl)%string]) ""
  = (map event_block ["data: 1"; "data: 2"], None).
Proof. apply (events_relayed 0 600 300 ["data: 1"; "data: 2"]); [by repeat constructor|by vm_compute]. Defined.

End ForwardingFacts.
