(* ===== verification/Prepare.v ===== *)
(** A [response.create] on its way to the upstream websocket,
    [src/app/modules/proxy/service.py] and
    [src/app/modules/proxy/api_key_usage.py].
    [Trim]: echoes of the previous response that the client sends back are left
    out.  [Slim]: old images and tool outputs are replaced by notices when the
    request is too large.  [Prepare]: the handler that turns a client's message
    into the text that is sent and the state of the request.

    A request is the dump of the pydantic object without null members, as in
    [RequestPolicy]; pydantic itself, SHA-256 and UUIDs are arguments.  The
    database behind API keys and reservations answers through arguments; what the
    handler does to reservations is recorded as effects.  Logging and dumps of
    oversized requests are left out. *)

From S2P Require Import Prelude Models Balancer ApiKeys QuotaKeys Json Sse Requests ToolCalls ProxyEvents WsRequests WsRelay RequestPolicy Ownership Affinity.
Import Json.Json Requests.JsonOps Requests.ResponsesRequests ToolCalls.ToolDedupe ProxyEvents.ProxyErrors ProxyEvents.ProxyEvents.
Import WsRequests.WsRequests RequestPolicy.RequestPolicy Ownership.Owners Affinity.Affinity Affinity.FilePins.

(** ** Echoes of the previous response *)
Module Trim.

Definition _websocket_input_item_type (item : json) : option string := match item with JObj d => get_str "type" d | _ => None end.
Definition _http_bridge_input_item_type : json → option string := _websocket_input_item_type.

Definition is_assistant (d : dict json) : bool := is_str "assistant" (get_or_null "role" d).

Definition _is_websocket_previous_response_output_item (item : json) : bool :=
  match item, _websocket_input_item_type item with
  | JObj d, None => is_assistant d
  | JObj d, Some t => mem t ["reasoning"; "function_call"; "custom_tool_call"; "apply_patch_call"] || (String.eqb t "message" && is_assistant d)
  | _, _ => false
  end.

(** [status in {...}] raises for a list or a dict. *)
Definition _has_http_bridge_response_output_marker (item : json) : res ReplayError bool :=
  match item with
  | JObj d =>
      if match get_str "id" d with Some i => negb (String.eqb (py_strip i) "") | None => false end then Ok true
      else if hashable (get_or_null "status" d) then Ok (str_in (get_or_null "status" d) ["completed"; "in_progress"]) else Err TypeError
  | _ => Ok false
  end.
Definition _is_http_bridge_previous_response_output_item (item : json) : res ReplayError bool :=
  match item, _http_bridge_input_item_type item with
  | JObj d, Some t =>
      if mem t ["reasoning"; "function_call"; "custom_tool_call"] then _has_http_bridge_response_output_marker item
      else if String.eqb t "message" && is_assistant d then _has_http_bridge_response_output_marker item
      else Ok false
  | _, _ => Ok false
  end.

Definition typed (types : list string) (item : json) : bool :=
  match _websocket_input_item_type item with Some t => mem t types | None => false end.
Definition WEBSOCKET_OUTPUT_TYPES : list string := ["function_call_output"; "custom_tool_call_output"; "apply_patch_call_output"].
Definition HTTP_BRIDGE_OUTPUT_TYPES : list string := ["function_call_output"; "custom_tool_call_output"].

(** The index of the first element. *)
Fixpoint first_index {A} (f : A → bool) (l : list A) : option nat :=
  match l with [] => None | x :: l => if f x then Some 0 else S <$> first_index f l end.
(** [all(f(x) for x in l)] where [f] may raise. *)
Fixpoint all_res {E A} (f : A → res E bool) (l : list A) : res E bool :=
  match l with [] => Ok true | x :: l => let? ok := f x in if ok then all_res f l else Ok false end.

Definition _trim_websocket_previous_response_input_items (input_items : list json) : list json :=
  match first_index (typed WEBSOCKET_OUTPUT_TYPES) input_items with
  | None | Some O => input_items
  | Some first_output_index =>
      if forallb _is_websocket_previous_response_output_item (take first_output_index input_items)
      then drop first_output_index input_items else input_items
  end.

Definition _trim_http_bridge_previous_response_input_items (input_items : list json) : res ReplayError (list json) :=
  match first_index (typed HTTP_BRIDGE_OUTPUT_TYPES) input_items with
  | None | Some O => Ok input_items
  | Some first_output_index =>
      let? all := all_res _is_http_bridge_previous_response_output_item (take first_output_index input_items) in
      Ok (if all then drop first_output_index input_items else input_items)
  end.

(** *** Calls that were interrupted *)

Definition output_call_id (item : json) : option string :=
  match item with JObj d => if typed ["function_call_output"] item then filled_str "call_id" d else None | _ => None end.
Definition _function_call_output_call_ids (input_items : list json) : list string := omap output_call_id input_items.

Definition _missing_function_call_outputs_for_previous_response (input_items : list json) (pending_call_ids : list string) : list string :=
  List.filter (λ call_id, negb (mem call_id (_function_call_output_call_ids input_items))) pending_call_ids.

Definition _synthetic_interrupted_function_call_output (call_id : string) : json :=
  JObj [("type", JStr "function_call_output"); ("call_id", JStr call_id);
        ("output", JStr "Tool call was not executed because the previous turn was interrupted before tool output was available.")].

Definition _inject_missing_interrupted_function_call_outputs (input_items : list json) (missing_call_ids : list string) : list json :=
  map _synthetic_interrupted_function_call_output missing_call_ids ++ input_items.

End Trim.

(** ** Requests that are too large *)
Module Slim.

Definition _RESPONSE_CREATE_TOOL_OUTPUT_OMISSION_NOTICE (bytes : Z) : string :=
  ("[codex-lb omitted historical tool output (" ++ show_Z bytes ++ " bytes) to fit upstream websocket budget]")%string.
Definition _RESPONSE_CREATE_IMAGE_OMISSION_NOTICE : string :=
  "[codex-lb omitted historical inline image to fit upstream websocket budget]".

Definition _is_inline_image_reference (value : json) : bool := match value with JStr s => startswith "data:image/" s | _ => false end.
Definition _should_slim_historical_tool_output (output : string) : bool :=
  contains "data:image/" output || (32 * 1024 <? Z.of_nat (String.length output))%Z.

Definition _response_create_inline_image_notice_part : json := JObj [("type", JStr "input_text"); ("text", JStr _RESPONSE_CREATE_IMAGE_OMISSION_NOTICE)].
Definition _response_create_inline_image_notice_item : json :=
  JObj [("role", JStr "user"); ("content", JList [_response_create_inline_image_notice_part])].

Definition _slim_historical_response_content_part (part : json) : json * nat :=
  match part with
  | JObj d =>
      let image_url := get_or_null "image_url" d in
      let ty := get_or_null "type" d in
      if is_str "input_image" ty && _is_inline_image_reference image_url then (_response_create_inline_image_notice_part, 1)
      else if is_str "image_url" ty
              && _is_inline_image_reference (match image_url with JObj u => get_or_null "url" u | v => v end)
      then (_response_create_inline_image_notice_part, 1)
      else (part, 0)
  | v => (v, 0)
  end.

Fixpoint slim_parts (parts : list json) : list json * nat :=
  match parts with
  | [] => ([], 0)
  | part :: parts =>
      let '(slimmed, n) := _slim_historical_response_content_part part in
      let '(others, m) := slim_parts parts in (slimmed :: others, n + m)
  end.

Definition _slim_historical_response_content (content : json) : json * nat :=
  match content with
  | JObj _ => _slim_historical_response_content_part content
  | JList parts => let '(slimmed, n) := slim_parts parts in (JList slimmed, n)
  | v => (v, 0)
  end.

(** The output of a historical tool call. *)
Definition slim_output (item : dict json) : dict json * nat :=
  match if is_str "function_call_output" (get_or_null "type" item) then get_str "output" item else None with
  | Some output =>
      if _should_slim_historical_tool_output output
      then (dict_set item "output" (JStr (_RESPONSE_CREATE_TOOL_OUTPUT_OMISSION_NOTICE (Z.of_nat (String.length output)))), 1)
      else (item, 0)
  | None => (item, 0)
  end.

(** The item, the number of tool outputs and the number of images left out. *)
Definition _slim_historical_response_input_item (item : json) : json * nat * nat :=
  match item with
  | JObj d =>
      let '(d, tool_outputs) := slim_output d in
      let '(content, content_images) := _slim_historical_response_content (get_or_null "content" d) in
      let d := if (0 <? content_images)%nat then dict_set d "content" content else d in
      if is_str "input_image" (get_or_null "type" d) && _is_inline_image_reference (get_or_null "image_url" d)
      then (_response_create_inline_image_notice_item, tool_outputs, content_images + 1)
      else (JObj d, tool_outputs, content_images)
  | v => (v, 0, 0)
  end.

Fixpoint slim_items (items : list json) : list json * nat * nat :=
  match items with
  | [] => ([], 0, 0)
  | item :: items =>
      let '(slimmed, t, i) := _slim_historical_response_input_item item in
      let '(others, tool_outputs, images) := slim_items items in (slimmed :: others, t + tool_outputs, i + images)
  end.

(** The index of the last message of the user. *)
Fixpoint last_user (index : nat) (found : nat) (items : list json) : nat :=
  match items with [] => found | item :: items => last_user (S index) (if is_user item then index else found) items end.
Definition _response_create_recent_suffix_start (input_items : list json) : nat := last_user 0 0 input_items.

Record summary := { historical_tool_outputs_slimmed : nat; historical_images_slimmed : nat }.

Definition _slim_response_create_payload_for_upstream (payload : dict json) : dict json * option summary :=
  match get_list "input" payload with
  | None | Some [] => (payload, None)
  | Some input_items =>
      let preserve_from := _response_create_recent_suffix_start input_items in
      let '(slimmed_historical, tool_outputs, images) := slim_items (take preserve_from input_items) in
      if Nat.eqb tool_outputs 0 && Nat.eqb images 0 then (payload, None)
      else (dict_set payload "input" (JList (slimmed_historical ++ drop preserve_from input_items)),
            Some {| historical_tool_outputs_slimmed := tool_outputs; historical_images_slimmed := images |})
  end.

End Slim.

(** ** The handler *)
Module Prepare.
Import Trim Slim.

(** What a message can fail with; [Escaped] is an exception (a [ValueError] or a
    [TypeError]) that no handler of the loop expects. *)
Inductive failure :=
  | ProxyResponseError (status_code : Z) (payload : dict json)
  | AppError (status_code : Z) (message : string)
  | ClientPayloadError (error : PayloadError)
  | ValidationError
  | Escaped.

Inductive reservation_effect := Reserved (reservation : ApiKeyUsageReservationData) | Released (reservation : string).

(** An API key: its id and its policy. *)
Record caller := { k_id : string; k_policy : ApiKeyData }.

(** *** How large a request is *)

Definition _OPAQUE_INPUT_ITEM_TYPES : list string := ["input_file"; "input_image"].
Definition _INPUT_BUDGET_EXCLUDED_FIELDS : list string :=
  ["model"; "service_tier"; "stream"; "store"; "max_output_tokens"; "max_completion_tokens"; "max_tokens"].

Fixpoint _contains_opaque_input_reference (value : json) : bool :=
  match value with
  | JObj d => str_in (get_or_null "type" d) _OPAQUE_INPUT_ITEM_TYPES || has "file_id" d || existsb (λ p, _contains_opaque_input_reference p.2) d
  | JList l => existsb _contains_opaque_input_reference l
  | _ => false
  end.
Definition _has_opaque_upstream_context (payload : dict json) : bool :=
  negb (is_null (get_or_null "previous_response_id" payload)) || negb (is_null (get_or_null "conversation" payload)).
Definition _input_budget_payload (payload : dict json) : dict json := fold_left dict_del _INPUT_BUDGET_EXCLUDED_FIELDS payload.

Definition _estimate_request_input_tokens (input_value : json) (upstream_payload : dict json) : option Z :=
  if _has_opaque_upstream_context upstream_payload then None
  else if _contains_opaque_input_reference input_value then None
  else Some (Z.min (Z.of_nat (String.length (dumps (sort_keys (JObj (_input_budget_payload upstream_payload))))))
                   ApiKeys.Service.API_KEY_USAGE_RESERVATION_MAX_TOKEN_BUDGET).

Definition estimate_api_key_request_usage (request : dict json) : res string ApiKeys.Service.ApiKeyRequestUsageBudget :=
  let? upstream_payload := _strip_unsupported_fields request in
  Ok {| ApiKeys.Service.budget_input_tokens := _estimate_request_input_tokens (get_or_null "input" request) upstream_payload;
        ApiKeys.Service.budget_output_tokens := None |}.

(** *** Texts *)

Definition previous (request : dict json) : option string := get_str "previous_response_id" request.
Definition with_input (items : list json) (request : dict json) : dict json := dict_set request "input" (JList items).

Definition upstream_payload (request : dict json) (include_type_field : bool) (client_metadata : option (dict json)) : res string (dict json) :=
  let? payload := _strip_unsupported_fields request in
  let payload := dict_del (dict_del payload "stream") "background" in
  let payload := if include_type_field then dict_set payload "type" (JStr "response.create") else payload in
  Ok (match client_metadata with Some ((_ :: _) as m) => dict_set payload "client_metadata" (JObj m) | _ => payload end).

Definition _response_create_text (request : dict json) (include_type_field : bool) (client_metadata : option (dict json)) : res string string :=
  let? payload := upstream_payload request include_type_field client_metadata in Ok (dumps_ascii (JObj payload)).

Definition bytes_of (text : string) : Z := Z.of_nat (String.length text).

Section Limits.
Context (max_bytes : Z).

(** The text of a payload, slimmed when it is too large. *)
Definition text_of_payload (payload : dict json) : string :=
  let text_data := dumps_ascii (JObj payload) in
  if (max_bytes <? bytes_of text_data)%Z
  then match _slim_response_create_payload_for_upstream payload with
       | (slimmed_payload, Some _) => dumps_ascii (JObj slimmed_payload)
       | (_, None) => text_data
       end
  else text_data.

Definition _response_create_text_with_size_guard (request : dict json) (include_type_field : bool) (client_metadata : option (dict json))
    : res string (option string) :=
  let? payload := upstream_payload request include_type_field client_metadata in
  let text_data := text_of_payload payload in
  Ok (if (max_bytes <? bytes_of text_data)%Z then None else Some text_data).

Definition _response_create_too_large_error_envelope (actual_bytes : Z) : dict json :=
  let message := ("response.create is too large for upstream websocket (" ++ show_Z actual_bytes ++ " bytes > " ++ show_Z max_bytes
                  ++ " bytes). Reduce historical images/screenshots or compact the thread.")%string in
  [("error", JObj (dict_set (error_detail "payload_too_large" message "invalid_request_error") "param" (JStr "input")))].

Definition _enforce_response_create_size_limit (request_text : option string) : res failure unit :=
  match filled request_text with
  | None => Ok tt
  | Some text => if (bytes_of text <=? max_bytes)%Z then Ok tt
                 else Err (ProxyResponseError 413 (_response_create_too_large_error_envelope (bytes_of text)))
  end.

End Limits.

(** *** The state of a request *)

Record bridge_request := {
  br_reservation : option ApiKeyUsageReservationData; br_api_key : option string; br_attach_event_queue : bool;
  br_client_metadata : option (dict json); br_session_id : option string; br_request_id : string; br_request_log_id : option string;
  br_now : Q }.

Definition new_request_state (b : bridge_request) (request : dict json) (tier : option string) (count : Z) (fingerprint : option string)
    : _WebSocketRequestState :=
  {| request_id := br_request_id b; model := get_str "model" request; service_tier := tier; api_key_reservation := br_reservation b;
     started_at := br_now b; request_log_id := br_request_log_id b; actual_service_tier := None; response_id := None;
     awaiting_response_created := true; event_queue := br_attach_event_queue b; api_key := br_api_key b; request_text := None;
     replay_count := 0; skip_request_log := false; previous_response_id := previous request; session_id := _normalize_session_id (br_session_id b);
     proxy_injected_previous_response_id := false; fresh_upstream_request_text := None; fresh_upstream_request_is_retry_safe := false;
     preferred_account_id := None; error_code_override := None; error_message_override := None; error_type_override := None;
     error_param_override := None; error_http_status_override := None; response_event_count := 0;
     previous_response_not_found_rewritten := false; response_create_gate_acquired := false; response_create_gate := false;
     response_create_admission := false; suppressed_duplicate_tool_call := false; pending_function_call_ids := [];
     seen_tool_call_keys := []; input_item_count := count; input_full_fingerprint := fingerprint; account_health_error_handled := false;
     downstream_visible := false; draining_until_terminal := false |}.

Section Handler.
Context (sha256 : string → string) (max_bytes : Z).
Notation fingerprint := (_fingerprint_input_items sha256).

(** The number and the fingerprint of the input items. *)
Definition input_mark (request : dict json) : Z * option string :=
  match get_list "input" request with
  | Some ((_ :: _) as items) => (Z.of_nat (length items), Some (fingerprint items))
  | _ => (0%Z, None)
  end.

(** Repeated tool calls are left out of a follow-up: the request, and the mark of
    the input before, when something was left out. *)
Definition dedupe_follow_up (request : dict json) : res failure (dict json * option (Z * option string)) :=
  match previous request, get_list "input" request with
  | Some _, Some items =>
      match dedupe_replayed_side_effect_input_items items false with
      | Err _ => Err Escaped
      | Ok (deduped, O) => Ok (request, None)
      | Ok (deduped, _) => Ok (with_input deduped request, Some (Z.of_nat (length items), Some (fingerprint items)))
      end
  | _, _ => Ok (request, None)
  end.

Definition raised {A} (r : res string A) : res failure A := match r with Ok x => Ok x | Err _ => Err Escaped end.

Definition _prepare_response_bridge_request_state (b : bridge_request) (include_type_field : bool) (request : dict json)
    : res failure (_WebSocketRequestState * string) :=
  let? deduped := dedupe_follow_up request in
  let request := deduped.1 in
  let? payload := raised (upstream_payload request include_type_field (br_client_metadata b)) in
  let mark := default (input_mark request) deduped.2 in
  let state := new_request_state b request (_normalize_service_tier_value (get_or_null "service_tier" payload)) mark.1 mark.2 in
  let text_data := text_of_payload max_bytes payload in
  let? _ := _enforce_response_create_size_limit max_bytes (Some text_data) in
  Ok (state {{ request_text := Some text_data }}, text_data).

(** *** Continuing a conversation *)

(** A client that names the previous response: its echo is left out. *)
Definition trim_follow_up (request : dict json) : dict json * option (Z * option string) :=
  match previous request, get_list "input" request with
  | Some _, Some items =>
      let trimmed := _trim_websocket_previous_response_input_items items in
      if Nat.eqb (length trimmed) (length items) then (request, None)
      else (with_input trimmed request, Some (Z.of_nat (length items), Some (fingerprint items)))
  | _, _ => (request, None)
  end.

(** A client that sends the whole conversation again: the part the last response
    answered is left out.  [None] when there is no anchor. *)
Definition anchor_full_resend (state : option _WebSocketContinuityState) (codex_session_affinity : bool) (request : dict json)
    : option (dict json * _WebSocketContinuityAnchor) :=
  match _websocket_continuity_anchor_for_payload sha256 state (previous request) (get_or_null "input" request) codex_session_affinity,
        get_list "input" request with
  | Some anchor, Some items =>
      Some (with_input (drop (Z.to_nat (stored_input_item_count anchor)) items)
              (dict_set request "previous_response_id" (JStr (an_previous_response_id anchor))), anchor)
  | _, _ => None
  end.

(** Calls of the previous response that the client does not answer. *)
Definition answer_interrupted (state : option _WebSocketContinuityState) (request : dict json) : dict json :=
  match state, previous request, get_list "input" request with
  | Some st, Some id, Some items =>
      if bool_decide (last_completed_response_id st = Some id)
      then match _missing_function_call_outputs_for_previous_response items (last_pending_function_call_ids st) with
           | [] => request
           | missing => with_input (_inject_missing_interrupted_function_call_outputs items missing) request
           end
      else request
  | _, _, _ => request
  end.

Definition _raise_for_unsupported_input_image_references (request : dict json) : res failure unit :=
  match unsupported_image_references (get_or_null "input" request) with
  | None => Ok tt
  | Some answer => Err (ProxyResponseError 400 answer)
  end.

(** *** The world *)

(** The database of API keys, pydantic (by whether the
    request is read as one of the OpenAI API) with what it records as set, the
    order of a set, the draws of UUIDs, and the clock. *)
Record world := {
  w_refresh : option caller → res failure (option caller);
  w_validate : bool → dict json → res failure (dict json);
  w_reserve : string → option string → option string → ApiKeys.Service.ApiKeyRequestUsageBudget → res failure ApiKeyUsageReservationData;
  w_fields : dict json → list string; w_order : gset string → list string; w_registry : ModelRegistry.ModelRegistry;
  w_request_uuid : string; w_key_uuid : string; w_now : Q; w_later : Q }.
Context (w : world) (s : affinity_settings).

Record _PreparedWebSocketRequest := { text_data : string; request_state : _WebSocketRequestState; affinity_policy : _AffinityPolicy }.
Record outcome := { o_effects : list reservation_effect; o_pins : pins; o_result : res failure _PreparedWebSocketRequest }.

Definition _reserve_websocket_api_key_usage (key : option caller) (request : dict json) : res failure (option ApiKeyUsageReservationData) :=
  let? payload := raised (_strip_unsupported_fields request) in
  let? budget := raised (estimate_api_key_request_usage request) in
  match key with
  | None => Ok None
  | Some k =>
      let? r := w_reserve w (k_id k) (get_str "model" request) (_normalize_service_tier_value (get_or_null "service_tier" payload)) budget in
      Ok (Some r)
  end.

(** The request as the policy of the API key lets it pass. *)
Definition admitted_request (key : option caller) (payload : dict json) : res failure (dict json * option (Z * option string)) :=
  let? request := w_validate w (openai_cache_affinity s) payload in
  let? request := match normalize_responses_request_payload request with Ok r => Ok r | Err e => Err (ClientPayloadError e) end in
  let '(request, trimmed) := trim_follow_up request in
  let request := apply_api_key_enforcement (w_registry w) request (k_policy <$> key) in
  let? _ := match validate_model_access (k_policy <$> key) (get_str "model" request) with Ok u => Ok u | Err m => Err (AppError 403 m) end in
  let? _ := _raise_for_unsupported_input_image_references request in
  Ok (request, trimmed).

Definition marked (mark : option (Z * option string)) (r : _WebSocketRequestState) : _WebSocketRequestState :=
  match mark with Some (count, fp) => r {{ input_item_count := count; input_full_fingerprint := fp }} | None => r end.

(** What the anchor changes in the state: the mark of the whole input, and the
    text to fall back on. *)
Definition anchored_state (original : dict json) (client_metadata : option (dict json)) (r : _WebSocketRequestState) : res failure _WebSocketRequestState :=
  let? fresh := raised (_response_create_text_with_size_guard max_bytes original true client_metadata) in
  let r := r {{ proxy_injected_previous_response_id := true }} in
  let r := marked (Some ((if (input_mark original).1 =? 0 then input_item_count r else (input_mark original).1)%Z, (input_mark original).2)) r in
  Ok (r {{ fresh_upstream_request_text := fresh; fresh_upstream_request_is_retry_safe := bool_decide (is_Some fresh) }}).

(** A request that does not depend on an anchor can be sent again as it is. *)
Definition classified (request : dict json) (text : string) (r : _WebSocketRequestState) : _WebSocketRequestState :=
  if bool_decide (previous request = None) && negb (proxy_injected_previous_response_id r)
  then r {{ fresh_upstream_request_text := Some text; fresh_upstream_request_is_retry_safe := true }} else r.

Definition reserved_effect (reservation : option ApiKeyUsageReservationData) : list reservation_effect :=
  match reservation with Some r => [Reserved r] | None => [] end.
Definition released_effect (reservation : option ApiKeyUsageReservationData) : list reservation_effect :=
  match reservation with Some r => [Released (reservation_id r)] | None => [] end.

Definition _prepare_websocket_response_create_request (headers : dict string) (api_key : option caller)
    (state : option _WebSocketContinuityState) (payload : dict json) (p : pins) : outcome :=
  let failed effects p e := {| o_effects := effects; o_pins := p; o_result := Err e |} in
  match w_refresh w api_key with
  | Err e => failed [] p e
  | Ok key =>
  let client_metadata := _response_create_client_metadata payload headers in
  match admitted_request key payload with
  | Err e => failed [] p e
  | Ok (original, trimmed) =>
  let file_account now request p := _resolve_file_account_for_responses now (w_fields w request) (w_order w) request headers p in
  let '(p, rewritten_file_account_id) := file_account (w_now w) original p in
  let anchored := anchor_full_resend state (codex_session_affinity s) original in
  let request := answer_interrupted state (match anchored with Some (r, _) => r | None => original end) in
  match _reserve_websocket_api_key_usage key request with
  | Err e => failed [] p e
  | Ok reservation =>
  let b := {| br_reservation := reservation; br_api_key := k_id <$> key; br_attach_event_queue := false; br_client_metadata := client_metadata;
              br_session_id := _owner_lookup_session_id_from_headers headers; br_request_id := ("ws_" ++ w_request_uuid w)%string;
              br_request_log_id := None; br_now := w_now w |} in
  match _prepare_response_bridge_request_state b true request with
  | Err (ProxyResponseError status envelope) =>
      failed (reserved_effect reservation ++ released_effect reservation) p (ProxyResponseError status envelope)
  | Err e => failed (reserved_effect reservation) p e
  | Ok (r, text) =>
  match match anchored with Some _ => anchored_state original client_metadata r | None => Ok r end with
  | Err e => failed (reserved_effect reservation) p e
  | Ok r =>
      let r := marked trimmed r in
      let '(request, policy) := _sticky_key_for_responses_request sha256 s (w_key_uuid w) request headers (k_id <$> api_key) in
      let '(p, preferred) := match rewritten_file_account_id with
                             | Some a => (p, Some a)
                             | None => file_account (w_later w) request p
                             end in
      let r := classified request text (r {{ preferred_account_id := preferred }}) in
      {| o_effects := reserved_effect reservation; o_pins := p;
         o_result := Ok {| text_data := text; request_state := r; affinity_policy := policy |} |}
  end end end end end.

End Handler.

(** *** In the loop *)

Definition _WEBSOCKET_FULL_REPLAY_WAIT_MIN_ITEMS : Z := 20.

Definition long_resend (codex_session_affinity : bool) (r : _WebSocketRequestState) : bool :=
  codex_session_affinity && bool_decide (previous_response_id r = None) && (_WEBSOCKET_FULL_REPLAY_WAIT_MIN_ITEMS <=? input_item_count r)%Z.
Definition _websocket_full_replay_should_wait_for_continuity (r : _WebSocketRequestState) (pending : list request) (codex_session_affinity : bool) : bool :=
  long_resend codex_session_affinity r && nonempty pending.
Definition _websocket_full_resend_conflicts_with_visible_pending (r : _WebSocketRequestState) (pending : list request) (codex_session_affinity : bool) : bool :=
  long_resend codex_session_affinity r && existsb (λ q, negb (is_ref (request_id r) q) && downstream_visible q) pending.

(** A message that is admitted, answered with an error of that status, or that
    ends the connection's loop with an exception. *)
Inductive admission := Accepted (prepared : _PreparedWebSocketRequest) | Answered (status : Z) | Crashed.

Definition answer_failure (e : failure) : admission :=
  match e with
  | ProxyResponseError status _ | AppError status _ => Answered status
  | ClientPayloadError _ | ValidationError => Answered 400
  | Escaped => Crashed
  end.

(** Preparing a message: a long resend waits for the requests in flight, lets its
    reservation go, and is prepared again with what the conversation knows then. *)
Definition admit_response_create (prepare : option _WebSocketContinuityState → world → pins → outcome) (w again : world)
    (state later : option _WebSocketContinuityState) (pending : list request) (codex_session_affinity : bool) (p : pins)
    : list reservation_effect * pins * admission :=
  let first := prepare state w p in
  match o_result first with
  | Err e => (o_effects first, o_pins first, answer_failure e)
  | Ok prepared =>
      if _websocket_full_replay_should_wait_for_continuity (request_state prepared) pending codex_session_affinity
      then
        let released := released_effect (api_key_reservation (request_state prepared)) in
        let second := prepare later again (o_pins first) in
        (o_effects first ++ released ++ o_effects second, o_pins second,
         match o_result second with Ok prepared => Accepted prepared | Err e => answer_failure e end)
      else (o_effects first, o_pins first, Accepted prepared)
  end.

End Prepare.
