(* ===== verification/PrepareFacts.v ===== *)
(** What preparing a request promises: nothing the client adds to a conversation
    is lost, what is sent fits, a resent conversation continues where the last
    response ended, and reservations are accounted for.  The properties are about
    [Prepare.v]. *)

From S2P Require Import Prelude Models Balancer ApiKeys QuotaKeys Json Sse Requests RequestFacts ToolCalls ProxyEvents WsRequests WsRelay RequestPolicy PolicyFacts Ownership Affinity Prepare.
Import Json.Json Json.JsonFacts Requests.JsonOps Requests.ResponsesRequests ToolCalls.ToolDedupe ProxyEvents.ProxyErrors ProxyEvents.ProxyEvents.
Import WsRequests.WsRequests RequestPolicy.RequestPolicy Ownership.Owners Affinity.Affinity Affinity.FilePins Prepare.Trim Prepare.Slim Prepare.Prepare.

Module PrepareFacts.

(** ** Echoes *)

Lemma first_index_split {A} (f : A → bool) e o rest : Forall (λ x, f x = false) e → f o = true → first_index f (e ++ o :: rest) = Some (length e).
Proof. intros He Ho. induction He as [|x e Hx _ IH]; simpl; [by rewrite Ho|]. by rewrite Hx, IH. Qed.

Lemma first_index_Some {A} (f : A → bool) l i : first_index f l = Some i → ∃ e o rest, l = e ++ o :: rest ∧ length e = i ∧ f o = true.
Proof.
  revert i. induction l as [|x l IH]; [done|]. intros i. simpl. destruct (f x) eqn:E; [intros [= <-]; by exists [], x, l|].
  destruct (first_index f l) as [j|]; [|done]. intros [= <-]. destruct (IH j eq_refl) as (e & o & rest & -> & <- & Ho). by exists (x :: e), o, rest.
Qed.

Lemma echo_not_output item : _is_websocket_previous_response_output_item item = true → typed WEBSOCKET_OUTPUT_TYPES item = false.
Proof.
  unfold _is_websocket_previous_response_output_item, typed, _websocket_input_item_type. destruct item as [| | | | | |d]; try done.
  destruct (get_str "type" d) as [t|]; [|done]. destruct (mem t WEBSOCKET_OUTPUT_TYPES) eqn:E; [|done]. apply mem_spec in E.
  unfold WEBSOCKET_OUTPUT_TYPES in E. rewrite !elem_of_cons in E. by destruct E as [->|[->|[->|E%elem_of_nil]]].
Qed.

(** What a client sends after naming the previous response is cut before the
    first tool output when only echoes of that response come before it, and left
    alone otherwise: the client's own items all stay, in their order. *)
Theorem trim_spec items : let kept := _trim_websocket_previous_response_input_items items in
  (∃ echo, items = echo ++ kept ∧ Forall (λ i, _is_websocket_previous_response_output_item i = true) echo
           ∧ (echo ≠ [] → ∃ o rest, kept = o :: rest ∧ typed WEBSOCKET_OUTPUT_TYPES o = true))
  ∧ ∀ echo o rest, items = echo ++ o :: rest → Forall (λ i, _is_websocket_previous_response_output_item i = true) echo →
      typed WEBSOCKET_OUTPUT_TYPES o = true → kept = o :: rest.
Proof.
  simpl. unfold _trim_websocket_previous_response_input_items. split.
  - destruct (first_index _ items) as [[|i]|] eqn:E; [by exists []| |by exists []].
    apply first_index_Some in E as (e & o & rest & -> & <- & Ho). rewrite take_app_length, drop_app_length.
    destruct (forallb _ e) eqn:F; [|by exists []]. exists e. split_and!; [done|by apply Forall_forall; rewrite forallb_forall in F; intros x Hx%list_elem_of_In; apply F|].
    intros _. by exists o, rest.
  - intros e o rest -> He Ho. rewrite (first_index_split _ e o rest); [|by eapply Forall_impl; [done|apply echo_not_output]|done].
    destruct e as [|x e]; [done|]. cbn [length]. change (S (length e)) with (length (x :: e)). rewrite take_app_length, drop_app_length.
    assert (forallb _is_websocket_previous_response_output_item (x :: e) = true) as ->; [|done].
    apply forallb_forall. intros y Hy%list_elem_of_In. rewrite Forall_forall in He. by apply He.
Qed.

(** ** Slimming *)

(** An image that is sent inline, as a data URL. *)
Definition inline (value : json) : Prop := ∃ data, value = JStr ("data:image/" ++ data)%string.
Definition inline_image (d : dict json) : Prop :=
  dict_get d "type" = Some (JStr "input_image") ∧ inline (get_or_null "image_url" d) ∨
  dict_get d "type" = Some (JStr "image_url") ∧
    (inline (get_or_null "image_url" d) ∨ ∃ u, dict_get d "image_url" = Some (JObj u) ∧ inline (get_or_null "url" u)).

(** A part of a message, and its content: the same, or a notice for an image. *)
Inductive part_slimmed : json → json → Prop :=
  | part_kept part : part_slimmed part part
  | part_noticed d : inline_image d → part_slimmed (JObj d) _response_create_inline_image_notice_part.
Inductive content_slimmed : json → json → Prop :=
  | content_part part part' : part_slimmed part part' → content_slimmed part part'
  | content_parts parts parts' : Forall2 part_slimmed parts parts' → content_slimmed (JList parts) (JList parts').

(** The output of a tool, if it has an inline image or over 32 KiB, and its
    notice. *)
Definition output_noticed (d d' : dict json) : Prop :=
  dict_get d "type" = Some (JStr "function_call_output") ∧
  ∃ output, dict_get d "output" = Some (JStr output) ∧ (contains "data:image/" output = true ∨ (32 * 1024 < Z.of_nat (String.length output))%Z) ∧
    dict_get d' "output" = Some (JStr (_RESPONSE_CREATE_TOOL_OUTPUT_OMISSION_NOTICE (Z.of_nat (String.length output)))).

(** The members of a historical item and what is sent instead. *)
Record members_slimmed (d d' : dict json) : Prop := {
  ms_keys : d'.*1 = d.*1;
  ms_others k : k ≠ "output" → k ≠ "content" → dict_get d' k = dict_get d k;
  ms_output : dict_get d' "output" = dict_get d "output" ∨ output_noticed d d';
  ms_content : dict_get d' "content" = dict_get d "content" ∨
    ∃ content content', dict_get d "content" = Some content ∧ dict_get d' "content" = Some content' ∧ content_slimmed content content' }.

(** A historical item and what is sent instead: the same, a notice for an inline
    image, or an item in which only the output and images of the content became
    notices. *)
Definition slimmed (item item' : json) : Prop :=
  item' = item ∨
  ∃ d, item = JObj d ∧
    (item' = _response_create_inline_image_notice_item ∧ dict_get d "type" = Some (JStr "input_image") ∧ inline (get_or_null "image_url" d) ∨
     ∃ d', item' = JObj d' ∧ members_slimmed d d').

Lemma is_str_get s k (d : dict json) : is_str s (get_or_null k d) = true → dict_get d k = Some (JStr s).
Proof. unfold get_or_null. destruct (dict_get d k) as [[]|]; try done. simpl. intros H. apply String.eqb_eq in H. by subst. Qed.

Lemma startswith_split p s : startswith p s = true → ∃ rest, s = (p ++ rest)%string.
Proof.
  unfold startswith. revert s. induction p as [|ch p IH]; intros s; [by exists s|]. destruct s as [|ch' s]; [done|]. simpl.
  destruct (ascii_dec ch ch') as [->|]; [|done]. intros [rest ->]%IH. by exists rest.
Qed.

Lemma inline_reference value : _is_inline_image_reference value = true → inline value.
Proof. destruct value as [| | | |s| |]; try done. simpl. intros [rest ->]%startswith_split. by exists rest. Qed.

Lemma part_slimmed_spec part : part_slimmed part (_slim_historical_response_content_part part).1.
Proof.
  destruct part as [| | | | | |d]; try constructor. cbn [_slim_historical_response_content_part].
  destruct (is_str "input_image" _ && _) eqn:E1; [apply andb_true_iff in E1 as [H1%is_str_get H2%inline_reference]; constructor; by left|].
  destruct (is_str "image_url" _ && _) eqn:E2; [|constructor]. apply andb_true_iff in E2 as [H1%is_str_get H2%inline_reference].
  constructor. right. split; [done|]. unfold get_or_null in *. destruct (dict_get d "image_url") as [[| | | | | |u]|]; try (by left).
  right. by exists u.
Qed.

Lemma content_slimmed_spec content : content_slimmed content (_slim_historical_response_content content).1.
Proof.
  destruct content as [| | | | |parts|d]; try (do 2 constructor); [|constructor; apply part_slimmed_spec].
  cbn [_slim_historical_response_content]. assert (Forall2 part_slimmed parts (slim_parts parts).1) as H; [|destruct (slim_parts parts); by constructor].
  induction parts as [|part parts IH]; [constructor|]. cbn [slim_parts]. pose proof (part_slimmed_spec part) as H.
  destruct (_slim_historical_response_content_part part), (slim_parts parts). by constructor.
Qed.

Lemma get_or_null_set k k' v (d : dict json) : get_or_null k (dict_set d k' v) = if String.eqb k k' then v else get_or_null k d.
Proof. unfold get_or_null. rewrite dict_get_set. by destruct (String.eqb k k'). Qed.

Lemma dict_set_old_keys (d : dict json) k v : dict_get d k ≠ None → (dict_set d k v).*1 = d.*1.
Proof.
  induction d as [|[k' v'] d IH]; [done|]. cbn [dict_get dict_set]. destruct (String.eqb k k') eqn:E; [done|]. intros H. cbn [fmap list_fmap fst]. f_equal. by apply IH.
Qed.

Lemma slim_output_spec d : let '(d', n) := slim_output d in
  d'.*1 = d.*1 ∧ (∀ k, k ≠ "output" → dict_get d' k = dict_get d k) ∧ (d' = d ∨ output_noticed d d') ∧ (n = 0 → d' = d).
Proof.
  unfold slim_output. destruct (is_str _ _) eqn:Et; [|by split_and!; try done; left]. destruct (get_str "output" d) as [o|] eqn:E; [|by split_and!; try done; left].
  assert (dict_get d "output" = Some (JStr o)) as Ho by (unfold get_str in E; destruct (dict_get d "output") as [[]|]; congruence).
  destruct (_should_slim_historical_tool_output o) eqn:Es; [|by split_and!; try done; left].
  split_and!; [|intros k Hk; by rewrite dict_get_set, (proj2 (String.eqb_neq _ _) Hk)| |done].
  - apply dict_set_old_keys. by rewrite Ho.
  - right. split; [by apply is_str_get|]. exists o. split_and!; [done| |by rewrite dict_get_set, String.eqb_refl].
    unfold _should_slim_historical_tool_output in Es. apply orb_true_iff in Es as [?|?%Z.ltb_lt]; auto.
Qed.

Lemma slim_item_slimmed item : slimmed item (_slim_historical_response_input_item item).1.1.
Proof.
  destruct item as [| | | | | |d]; try (by left). unfold _slim_historical_response_input_item.
  pose proof (slim_output_spec d) as H. destruct (slim_output d) as [d1 n]. destruct H as (Hk & Hg & Ho & _).
  pose proof (content_slimmed_spec (get_or_null "content" d1)) as Hc.
  destruct (_slim_historical_response_content (get_or_null "content" d1)) as [content m] eqn:C. cbn [fst] in Hc.
  set (d2 := if (0 <? m)%nat then dict_set d1 "content" content else d1).
  assert (∀ k, k ≠ "output" → k ≠ "content" → dict_get d2 k = dict_get d k) as Hg2.
  { intros k H1 H2. unfold d2. case_if; rewrite ?dict_get_set, ?(proj2 (String.eqb_neq _ _) H2); by apply Hg. }
  case_if; right; exists d; (split; [done|]).
  - left. match goal with H : _ && _ = true |- _ => apply andb_true_iff in H as [H1%is_str_get H2%inline_reference] end.
    unfold get_or_null in H2 |- *. by rewrite Hg2 in H1, H2.
  - right. exists d2. split; [done|]. assert (dict_get d2 "output" = dict_get d1 "output") as Eo by (unfold d2; case_if; by rewrite ?dict_get_set).
    split; [|done| |].
    + unfold d2. destruct (0 <? m)%nat eqn:M; [|done]. rewrite dict_set_old_keys; [done|].
      unfold get_or_null in C. destruct (dict_get d1 "content"); [done|]. injection C as <- <-. done.
    + destruct Ho as [->|(Ht & o & H1 & H2 & H3)]; [by left|right]. split; [done|]. exists o. by rewrite Eo.
    + rewrite <- (Hg "content") by done. unfold d2. destruct (0 <? m)%nat eqn:M; [|by left]. right. unfold get_or_null in C, Hc. destruct (dict_get d1 "content") as [c|] eqn:Ec; [|injection C as <- <-; done].
      exists c, content. by rewrite dict_get_set.
Qed.

Lemma slim_items_slimmed items : Forall2 slimmed items (slim_items items).1.1.
Proof.
  induction items as [|item items IH]; [constructor|]. cbn [slim_items]. pose proof (slim_item_slimmed item) as H.
  destruct (_slim_historical_response_input_item item) as [[item' t] i]. destruct (slim_items items) as [[items' ts] im]. by constructor.
Qed.

Lemma last_user_none i found l : Forall (λ x, is_user x = false) l → last_user i found l = found.
Proof. intros H. revert i found. induction H as [|x l Hx _ IH]; intros i found; [done|]. cbn [last_user]. by rewrite Hx. Qed.

Lemma last_user_split i found a u b : is_user u = true → Forall (λ x, is_user x = false) b → last_user i found (a ++ u :: b) = i + length a.
Proof.
  intros Hu Hb. revert i found. induction a as [|x a IH]; intros i found; cbn [app last_user length].
  - rewrite Hu, last_user_none by done. lia.
  - rewrite IH. lia.
Qed.

Lemma last_user_cases l : Forall (λ x, is_user x = false) l ∨ ∃ a u b, l = a ++ u :: b ∧ is_user u = true ∧ Forall (λ x, is_user x = false) b.
Proof.
  induction l as [|x l [IH|(a & u & b & -> & Hu & Hb)]]; [by left| |right; by exists (x :: a), u, b].
  destruct (is_user x) eqn:E; [right; by exists [], x, l|left; by constructor].
Qed.

(** C25. When a request is slimmed, the last message of the user and all that follows
    is sent as it is, and every older item keeps its place and all of its
    members, except that the output of a tool with an inline image or over 32 KiB
    and an inline image, in the content or as an item, become the notice for
    them; nothing else in the request changes. *)
Theorem slim_keeps_recent payload payload' n : _slim_response_create_payload_for_upstream payload = (payload', Some n) →
  ∃ old old' u rest, get_list "input" payload = Some (old ++ u :: rest) ∧ is_user u = true ∧ Forall (λ i, is_user i = false) rest
    ∧ payload' = dict_set payload "input" (JList (old' ++ u :: rest)) ∧ Forall2 slimmed old old' ∧ old' = (slim_items old).1.1
    ∧ historical_tool_outputs_slimmed n + historical_images_slimmed n > 0.
Proof.
  unfold _slim_response_create_payload_for_upstream, _response_create_recent_suffix_start.
  destruct (get_list "input" payload) as [[|x items]|] eqn:E; [done| |done].
  destruct (last_user_cases (x :: items)) as [H|(a & u & b & -> & Hu & Hb)]; [by rewrite (last_user_none _ _ _ H)|].
  rewrite (last_user_split 0 0 a u b Hu Hb). cbn [plus]. rewrite take_app_length, drop_app_length.
  pose proof (slim_items_slimmed a) as Hs. destruct (slim_items a) as [[a' t] i] eqn:Ea. case_if; [done|]. intros [= <- <-].
  exists a, a', u, b. rewrite Ea. split_and!; try done. cbn [historical_tool_outputs_slimmed historical_images_slimmed].
  match goal with H : _ && _ = false |- _ => apply andb_false_iff in H as [H|H]; apply Nat.eqb_neq in H; lia end.
Qed.

(** *** Once is enough *)

Definition small_outputs (item : json) : bool :=
  match item with JObj d => match get_str "output" d with Some o => (Z.of_nat (String.length o) <? 2 ^ 64)%Z | None => true end | _ => true end.

Lemma digits_from_length fuel n acc : length (digits_from fuel n acc) <= fuel + length acc.
Proof.
  revert n acc. induction fuel as [|fuel IH]; intros n acc; [done|]. cbn [digits_from]. destruct (n <? 10)%N; [simpl; lia|].
  etrans; [apply IH|]. simpl. lia.
Qed.

Lemma show_digits_length l : String.length (show_digits l) = length l.
Proof. induction l as [|d l IH]; [done|]. simpl. by rewrite IH. Qed.

Lemma pos_size_nat p k : (Zpos p < 2 ^ Z.of_nat k)%Z → Pos.size_nat p <= k.
Proof.
  revert k. induction p as [p IH|p IH|]; intros [|k]; cbn [Pos.size_nat]; try (simpl; lia).
  - rewrite Nat2Z.inj_succ, Z.pow_succ_r by lia. intros H. specialize (IH k). lia.
  - rewrite Nat2Z.inj_succ, Z.pow_succ_r by lia. intros H. specialize (IH k). lia.
Qed.

Lemma show_Z_length n : (0 <= n < 2 ^ 64)%Z → String.length (show_Z n) <= 65.
Proof.
  intros Hn. unfold show_Z, show_N. rewrite length_app', show_digits_length, (proj2 (Z.ltb_ge n 0)) by lia. cbn [minus String.length plus].
  unfold digits. etrans; [apply digits_from_length|]. cbn [length]. assert (N.size_nat (Z.abs_N n) <= 64); [|lia].
  destruct n as [|p|p]; [simpl; lia| |lia]. cbn [Z.abs_N N.size_nat]. apply pos_size_nat. change (Z.of_nat 64) with 64%Z. lia.
Qed.

(** Whether a character occurs. *)
Fixpoint occurs (c : ascii) (s : string) : bool := match s with "" => false | String d s => Ascii.eqb c d || occurs c s end.

Lemma occurs_app c s t : occurs c (s ++ t) = occurs c s || occurs c t.
Proof. induction s as [|d s IH]; [done|]. rewrite app_cons. cbn [occurs]. rewrite IH. by destruct (Ascii.eqb c d). Qed.

Lemma prefix_occurs c p s : String.prefix p s = true → occurs c p = true → occurs c s = true.
Proof.
  revert s. induction p as [|x p IH]; [done|]. intros [|y s]; [done|]. cbn [String.prefix occurs]. destruct (ascii_dec x y) as [->|]; [|done].
  intros Hp. destruct (Ascii.eqb c y); [done|]. by apply IH.
Qed.

Lemma contains_occurs c p s : contains p s = true → occurs c p = true → occurs c s = true.
Proof.
  intros H Hc. induction s as [|d s IH]; cbn [contains] in H; apply orb_true_iff in H as [H|H]; [by eapply prefix_occurs|done|by eapply prefix_occurs|].
  cbn [occurs]. rewrite (IH H). by destruct (Ascii.eqb c d).
Qed.

Lemma show_Z_no_colon n : occurs ":" (show_Z n) = false.
Proof.
  unfold show_Z, show_N. rewrite occurs_app. destruct (digits_spec (Z.abs_N n)) as (_ & Hs & _). revert Hs. generalize (digits (Z.abs_N n)). intros l Hl.
  assert (occurs ":" (show_digits l) = false) as ->; [|by destruct (n <? 0)%Z].
  induction Hl as [|d l Hd _ IH]; [done|]. cbn [show_digits occurs]. rewrite IH, orb_false_r. unfold digit_char.
  destruct d as [|[[[[]|[]|]|[[]|[]|]|]|[[[]|[]|]|[[]|[]|]|]|]]; try done; lia.
Qed.

Lemma notice_settled n : (0 <= n < 2 ^ 64)%Z → _should_slim_historical_tool_output (_RESPONSE_CREATE_TOOL_OUTPUT_OMISSION_NOTICE n) = false.
Proof.
  intros Hn. unfold _should_slim_historical_tool_output, _RESPONSE_CREATE_TOOL_OUTPUT_OMISSION_NOTICE. apply orb_false_iff. split.
  - destruct (contains _ _) eqn:E; [|done]. apply (contains_occurs ":") in E; [|done]. rewrite !occurs_app, show_Z_no_colon in E. done.
  - apply Z.ltb_ge. rewrite !length_app'. pose proof (show_Z_length n Hn). simpl String.length. lia.
Qed.

Lemma slim_part_settled part : let '(part', n) := _slim_historical_response_content_part part in
  (n = 0 → part' = part) ∧ _slim_historical_response_content_part part' = (part', 0).
Proof.
  destruct part as [| | | | | |d]; try done. unfold _slim_historical_response_content_part. case_if; [done|]. case_if; [done|].
  split; [done|]. by rewrite Hb, Hb0.
Qed.

Lemma slim_parts_settled parts : let '(parts', n) := slim_parts parts in (n = 0 → parts' = parts) ∧ slim_parts parts' = (parts', 0).
Proof.
  induction parts as [|part parts IH]; [done|]. cbn [slim_parts]. pose proof (slim_part_settled part) as H.
  destruct (_slim_historical_response_content_part part) as [part' n]. destruct (slim_parts parts) as [parts' m]. destruct H as [H1 H2], IH as [I1 I2].
  split; [intros E; rewrite H1, I1 by lia; done|]. cbn [slim_parts]. by rewrite H2, I2.
Qed.

Lemma slim_content_settled content : let '(content', n) := _slim_historical_response_content content in
  (n = 0 → content' = content) ∧ _slim_historical_response_content content' = (content', 0).
Proof.
  destruct content as [| | | | |l|d]; try done.
  - cbn [_slim_historical_response_content]. pose proof (slim_parts_settled l) as H. destruct (slim_parts l) as [l' n]. destruct H as [H1 H2].
    split; [intros E; by rewrite H1|]. cbn [_slim_historical_response_content]. by rewrite H2.
  - cbn [_slim_historical_response_content]. pose proof (slim_part_settled (JObj d)) as H.
    destruct (_slim_historical_response_content_part (JObj d)) as [c n] eqn:E. destruct H as [H1 H2]. split; [done|].
    revert E H2. unfold _slim_historical_response_content_part. repeat case_if; by intros [= <- <-].
Qed.

(** The output of an item needs no slimming. *)
Definition output_settled (d : dict json) : bool :=
  match if is_str "function_call_output" (get_or_null "type" d) then get_str "output" d else None with
  | Some o => negb (_should_slim_historical_tool_output o)
  | None => true
  end.

Lemma output_settled_slim d : output_settled d = true → slim_output d = (d, 0).
Proof.
  unfold output_settled, slim_output. destruct (if is_str _ _ then _ else _) as [o|]; [|done].
  by destruct (_should_slim_historical_tool_output o).
Qed.

Lemma slim_output_settles d : small_outputs (JObj d) = true → output_settled (slim_output d).1 = true.
Proof.
  unfold slim_output, output_settled, small_outputs. destruct (is_str "function_call_output" (get_or_null "type" d)) eqn:T; [|cbn [fst]; by rewrite ?T].
  destruct (get_str "output" d) as [o|] eqn:O; [|cbn [fst]; by rewrite ?T, ?O]. intros Hs. apply Z.ltb_lt in Hs.
  destruct (_should_slim_historical_tool_output o) eqn:S; cbn [fst]; [|by rewrite ?T, ?O, ?S].
  rewrite get_or_null_set. cbn [String.eqb Ascii.eqb Bool.eqb]. rewrite T. unfold get_str. rewrite dict_get_set, String.eqb_refl. cbn beta iota.
  rewrite notice_settled; [done|lia].
Qed.

Lemma slim_item_settled item : small_outputs item = true →
  _slim_historical_response_input_item (_slim_historical_response_input_item item).1.1 = ((_slim_historical_response_input_item item).1.1, 0, 0).
Proof.
  destruct item as [| | | | | |d]; try done. intros Hs. apply slim_output_settles in Hs. unfold _slim_historical_response_input_item at 2 3.
  destruct (slim_output d) as [d1 n]. cbn [fst] in Hs. pose proof (slim_content_settled (get_or_null "content" d1)) as H.
  destruct (_slim_historical_response_content (get_or_null "content" d1)) as [content m]. destruct H as [H1 H2].
  set (d2 := if (0 <? m)%nat then dict_set d1 "content" content else d1).
  assert (slim_output d2 = (d2, 0) ∧ get_or_null "content" d2 = content) as [Ho Hc].
  { unfold d2. destruct (Nat.ltb_spec 0 m) as [M|M].
    - split; [|by rewrite get_or_null_set, String.eqb_refl]. apply output_settled_slim. revert Hs. unfold output_settled, get_str.
      by rewrite get_or_null_set, dict_get_set.
    - split; [by apply output_settled_slim|]. symmetry. apply H1. lia. }
  case_if; [done|]. cbn [fst]. unfold _slim_historical_response_input_item. rewrite Ho, Hc, H2. cbn [Nat.ltb Nat.leb]. by rewrite Hb.
Qed.

Lemma slim_items_settled items : Forall (λ i, small_outputs i = true) items → slim_items (slim_items items).1.1 = ((slim_items items).1.1, 0, 0).
Proof.
  induction 1 as [|item items Hi _ IH]; [done|]. cbn [slim_items]. pose proof (slim_item_settled item Hi) as H.
  destruct (_slim_historical_response_input_item item) as [[item' t] i]. destruct (slim_items items) as [[items' ts] im]. cbn [fst] in *.
  cbn [slim_items]. by rewrite H, IH.
Qed.

(** Slimming a slimmed request changes nothing more (for outputs of less than
    2^64 bytes, so that the size in a notice is short). *)
Theorem slim_idempotent payload : Forall (λ i, small_outputs i = true) (default [] (get_list "input" payload)) →
  _slim_response_create_payload_for_upstream (_slim_response_create_payload_for_upstream payload).1
  = ((_slim_response_create_payload_for_upstream payload).1, None).
Proof.
  intros Hs. destruct (_slim_response_create_payload_for_upstream payload) as [payload' [n|]] eqn:E; cbn [fst].
  - unfold _slim_response_create_payload_for_upstream, _response_create_recent_suffix_start in E.
    destruct (get_list "input" payload) as [[|x items]|] eqn:G; [done| |done]. cbn [default] in Hs.
    destruct (last_user_cases (x :: items)) as [H|(a & u & b & F & Hu & Hb)]; [by rewrite (last_user_none _ _ _ H) in E|].
    rewrite F in *. rewrite (last_user_split 0 0 a u b Hu Hb) in E. cbn [plus] in E. rewrite take_app_length, drop_app_length in E.
    apply Forall_app in Hs as [Ha _]. pose proof (slim_items_settled a Ha) as Hset. destruct (slim_items a) as [[a' t] i]. cbn [fst] in Hset.
    case_if_in E; [done|]. injection E as <- <-. unfold _slim_response_create_payload_for_upstream, _response_create_recent_suffix_start.
    assert (get_list "input" (dict_set payload "input" (JList (a' ++ u :: b))) = Some (a' ++ u :: b)) as ->
      by (unfold get_list; by rewrite dict_get_set, String.eqb_refl).
    destruct (a' ++ u :: b) as [|y l] eqn:L; [by destruct a'|]. rewrite <- L, (last_user_split 0 0 a' u b Hu Hb). cbn [plus]. rewrite take_app_length, Hset. done.
  - assert (payload' = payload) as ->; [|done]. unfold _slim_response_create_payload_for_upstream in E.
    destruct (get_list "input" payload) as [[|x items]|]; [congruence| |congruence].
    destruct (slim_items _) as [[? ?] ?]. case_if_in E; congruence.
Qed.

(** ** The handler *)

(** What became of the reservation of a message. *)
Definition accounted (o : outcome) : Prop :=
  match o_result o with
  | Ok prep => o_effects o = reserved_effect (api_key_reservation (request_state prep))
  | Err Escaped => o_effects o = [] ∨ ∃ r, o_effects o = [Reserved r]
  | Err _ => o_effects o = [] ∨ ∃ r, o_effects o = [Reserved r; Released (reservation_id r)]
  end.

Definition fits (max_bytes : Z) (text : string) : Prop := (bytes_of text <= max_bytes)%Z.

(** Every call has its output among the items. *)
Definition calls_answered (calls : list string) (items : list json) : Prop := ∀ c, c ∈ calls → c ∈ _function_call_output_call_ids items.

Section Handler.
Context (sha256 : string → string) (max_bytes : Z) (w : world) (s : affinity_settings).
Notation prepare := (_prepare_websocket_response_create_request sha256 max_bytes w s).
Notation bridge_state := (_prepare_response_bridge_request_state sha256 max_bytes).

(** The request as it is sent: anchored when it can be, and with the calls of the
    previous response answered. *)
Definition outgoing (state : option _WebSocketContinuityState) (original : dict json) : dict json :=
  answer_interrupted state
    (match anchor_full_resend sha256 state (codex_session_affinity s) original with Some (r, _) => r | None => original end).

Definition bridge_of (headers : dict string) (key : option caller) (payload : dict json) (reservation : option ApiKeyUsageReservationData) : bridge_request :=
  {| br_reservation := reservation; br_api_key := k_id <$> key; br_attach_event_queue := false;
     br_client_metadata := _response_create_client_metadata payload headers; br_session_id := _owner_lookup_session_id_from_headers headers;
     br_request_id := ("ws_" ++ w_request_uuid w)%string; br_request_log_id := None; br_now := w_now w |}.

(** How a message that was prepared got there. *)
Record preparation (headers : dict string) (api_key : option caller) (state : option _WebSocketContinuityState) (payload : dict json)
    (o : outcome) (prep : _PreparedWebSocketRequest) (pr_key : option caller) (pr_original : dict json) (pr_trimmed : option (Z * option string))
    (pr_reservation : option ApiKeyUsageReservationData) (pr_state pr_anchored : _WebSocketRequestState) (pr_preferred : option string) : Prop := {
  pr_refresh : w_refresh w api_key = Ok pr_key;
  pr_admitted : admitted_request sha256 w s pr_key payload = Ok (pr_original, pr_trimmed);
  pr_reserved : _reserve_websocket_api_key_usage w pr_key (outgoing state pr_original) = Ok pr_reservation;
  pr_effects : o_effects o = reserved_effect pr_reservation;
  pr_bridge : bridge_state (bridge_of headers pr_key payload pr_reservation) true (outgoing state pr_original) = Ok (pr_state, text_data prep);
  pr_anchor : match anchor_full_resend sha256 state (codex_session_affinity s) pr_original with
              | Some _ => anchored_state sha256 max_bytes pr_original (_response_create_client_metadata payload headers) pr_state
              | None => Ok pr_state
              end = Ok pr_anchored;
  pr_final : request_state prep =
             classified (outgoing state pr_original) (text_data prep) ((marked pr_trimmed pr_anchored) {{ preferred_account_id := pr_preferred }}) }.

Lemma sticky_previous request headers api_key :
  previous (_sticky_key_for_responses_request sha256 s (w_key_uuid w) request headers api_key).1 = previous request.
Proof.
  unfold _sticky_key_for_responses_request, _resolve_prompt_cache_key.
  destruct (match _prompt_cache_key_from_request_model request with Some k => none_if_empty (py_strip k) | None => None end) as [k|].
  - cbn [fst]. destruct (bool_decide _); [done|]. unfold previous, get_str. by rewrite dict_get_set.
  - destruct (negb _ || negb _); [done|]. unfold previous, get_str. cbn [fst]. by rewrite dict_get_set.
Qed.

Lemma classified_previous request request' text r : previous request' = previous request → classified request' text r = classified request text r.
Proof. intros E. unfold classified. by rewrite E. Qed.

Lemma prepared headers api_key state payload p prep : o_result (prepare headers api_key state payload p) = Ok prep →
  ∃ key original trimmed reservation r1 r2 preferred,
    preparation headers api_key state payload (prepare headers api_key state payload p) prep key original trimmed reservation r1 r2 preferred.
Proof.
  unfold _prepare_websocket_response_create_request. destruct (w_refresh w api_key) as [key|] eqn:E1; [|done].
  destruct (admitted_request sha256 w s key payload) as [[original trimmed]|] eqn:E2; [|done].
  destruct (_resolve_file_account_for_responses _ _ _ original headers p) as [p1 rewritten].
  fold (outgoing state original). destruct (_reserve_websocket_api_key_usage w key (outgoing state original)) as [reservation|] eqn:E3; [|done].
  fold (bridge_of headers key payload reservation).
  destruct (bridge_state (bridge_of headers key payload reservation) true (outgoing state original)) as [[r1 text]|[]] eqn:E4; try done.
  destruct (match anchor_full_resend _ _ _ _ with Some _ => _ | None => _ end) as [r2|] eqn:E5; [|done].
  pose proof (sticky_previous (outgoing state original) headers (k_id <$> api_key)) as Hp.
  destruct (_sticky_key_for_responses_request _ _ _ (outgoing state original) headers (k_id <$> api_key)) as [request' policy]. cbn [fst] in Hp.
  destruct (match rewritten with Some a => (p1, Some a) | None => _ end) as [p2 preferred]. cbn [o_result o_effects]. intros [= <-].
  exists key, original, trimmed, reservation, r1, r2, preferred. split; try done. cbn [request_state text_data]. by apply classified_previous.
Qed.

Lemma text_of_payload_filled payload : text_of_payload max_bytes payload ≠ "".
Proof.
  unfold text_of_payload. assert (∀ d, dumps_ascii (JObj d) ≠ "") as H by (intros d; by destruct (Sse.SseFacts.dumps_obj d) as [r ->]).
  case_if; [|apply H]. destruct (_slim_response_create_payload_for_upstream payload) as [d [n|]]; apply H.
Qed.

(** A state and its text: what was sent, that it fits, and the mark of the input. *)
Lemma bridge_ok b include request r text : bridge_state b include request = Ok (r, text) →
  ∃ request' mark payload, dedupe_follow_up sha256 request = Ok (request', mark) ∧ upstream_payload request' include (br_client_metadata b) = Ok payload
    ∧ text = text_of_payload max_bytes payload ∧ (bytes_of text <= max_bytes)%Z
    ∧ r = (new_request_state b request' (_normalize_service_tier_value (get_or_null "service_tier" payload))
             (default (input_mark sha256 request') mark).1 (default (input_mark sha256 request') mark).2) {{ request_text := Some text }}.
Proof.
  unfold _prepare_response_bridge_request_state. destruct (dedupe_follow_up sha256 request) as [[request' mark]|] eqn:E1; [|done]. cbn [res_bind fst snd].
  destruct (upstream_payload request' include (br_client_metadata b)) as [payload|] eqn:E2; [|done]. cbn [raised res_bind].
  unfold _enforce_response_create_size_limit, filled, none_if_empty. rewrite (proj2 (String.eqb_neq _ _) (text_of_payload_filled payload)).
  destruct (Z.leb_spec (bytes_of (text_of_payload max_bytes payload)) max_bytes); [|done]. cbn [res_bind]. intros [= <- <-].
  exists request', mark, payload. done.
Qed.

Lemma guard_fits request include metadata fresh : _response_create_text_with_size_guard max_bytes request include metadata = Ok (Some fresh) →
  (bytes_of fresh <= max_bytes)%Z.
Proof.
  unfold _response_create_text_with_size_guard. destruct (upstream_payload request include metadata); [|done]. cbn [res_bind].
  case_if; [done|]. intros [= <-]. lia.
Qed.

Lemma anchored_ok original metadata r r' : anchored_state sha256 max_bytes original metadata r = Ok r' →
  ∃ fresh, _response_create_text_with_size_guard max_bytes original true metadata = Ok fresh
  ∧ fresh_upstream_request_text r' = fresh ∧ fresh_upstream_request_is_retry_safe r' = bool_decide (is_Some fresh)
  ∧ proxy_injected_previous_response_id r' = true ∧ request_text r' = request_text r ∧ api_key_reservation r' = api_key_reservation r
  ∧ previous_response_id r' = previous_response_id r ∧ input_full_fingerprint r' = (input_mark sha256 original).2
  ∧ ((input_mark sha256 original).1 ≠ 0%Z → input_item_count r' = (input_mark sha256 original).1).
Proof.
  unfold anchored_state. destruct (_response_create_text_with_size_guard max_bytes original true metadata) as [fresh|]; [|done].
  cbn [raised res_bind]. intros [= <-]. exists fresh. split_and!; try done. intros H%Z.eqb_neq. cbn. by rewrite H.
Qed.

(** Marking the input or naming an account changes nothing else. *)
Lemma final_fields request text mark r preferred : let r' := classified request text ((marked mark r) {{ preferred_account_id := preferred }}) in
  request_text r' = request_text r ∧ api_key_reservation r' = api_key_reservation r ∧ previous_response_id r' = previous_response_id r
  ∧ proxy_injected_previous_response_id r' = proxy_injected_previous_response_id r
  ∧ input_item_count r' = (default (input_item_count r, input_full_fingerprint r) mark).1
  ∧ input_full_fingerprint r' = (default (input_item_count r, input_full_fingerprint r) mark).2
  ∧ (fresh_upstream_request_text r' = fresh_upstream_request_text r ∧ fresh_upstream_request_is_retry_safe r' = fresh_upstream_request_is_retry_safe r
     ∧ (is_Some (previous request) ∨ proxy_injected_previous_response_id r = true)
     ∨ fresh_upstream_request_text r' = Some text ∧ fresh_upstream_request_is_retry_safe r' = true ∧ previous request = None
       ∧ proxy_injected_previous_response_id r = false).
Proof.
  unfold classified, marked. destruct (proxy_injected_previous_response_id r) eqn:E; destruct r; cbn in E; subst;
    (destruct (previous request) as [i|]; [rewrite bool_decide_false by done|rewrite bool_decide_true by done]); destruct mark as [[c f]|]; cbn; split_and!; try done;
    first [left; split_and!; [done..|first [left; by eexists|by right]]|right; by split_and!].
Qed.

(** C24. Every text that is sent, and every text kept to be sent again, fits. *)
Theorem prepared_text_fits headers api_key state payload p prep : o_result (prepare headers api_key state payload p) = Ok prep →
  request_text (request_state prep) = Some (text_data prep) ∧ fits max_bytes (text_data prep)
  ∧ ∀ fresh, fresh_upstream_request_text (request_state prep) = Some fresh → fits max_bytes fresh.
Proof.
  intros (key & original & trimmed & reservation & r1 & r2 & preferred & [_ _ _ _ Hb Ha Hf])%prepared.
  apply bridge_ok in Hb as (request' & mark & up & _ & _ & _ & Hfit & Hr1).
  pose proof (final_fields (outgoing state original) (text_data prep) trimmed r2 preferred) as (F1 & _ & _ & _ & _ & _ & F7). rewrite <- Hf in F1, F7.
  destruct (anchor_full_resend _ _ _ _).
  - apply anchored_ok in Ha as (fresh & Hg & A1 & _ & _ & A4 & _). split_and!; [rewrite F1, A4; by subst r1|done|].
    intros f Hff. destruct F7 as [(E & _)|(E & _)]; rewrite E in Hff; [|injection Hff as <-; exact Hfit]. rewrite <- A1, Hff in Hg. exact (guard_fits _ _ _ _ Hg).
  - injection Ha as <-. split_and!; [rewrite F1; by subst r1|done|]. intros f Hff. destruct F7 as [(E & _)|(E & _)];
      rewrite E in Hff; [by subst r1|injection Hff as <-; exact Hfit].
Qed.

Lemma bridge_err b include request e : bridge_state b include request = Err e → (∃ status d, e = ProxyResponseError status d) ∨ e = Escaped.
Proof.
  unfold _prepare_response_bridge_request_state, dedupe_follow_up.
  assert (∀ request mark, (let? payload := raised (upstream_payload request include (br_client_metadata b)) in
     let? _ := _enforce_response_create_size_limit max_bytes (Some (text_of_payload max_bytes payload)) in
     Ok ((new_request_state b request (_normalize_service_tier_value (get_or_null "service_tier" payload)) (default (input_mark sha256 request) mark).1
            (default (input_mark sha256 request) mark).2) {{ request_text := Some (text_of_payload max_bytes payload) }}, text_of_payload max_bytes payload))
     = Err e → (∃ status d, e = ProxyResponseError status d) ∨ e = Escaped) as H.
  { intros rq mark. destruct (upstream_payload rq include _) as [payload|]; cbn [raised res_bind]; [|intros [= <-]; by right].
    unfold _enforce_response_create_size_limit. destruct (filled _); [|done]. case_if; [done|]. cbn [res_bind]. intros [= <-]. left. by eexists _, _. }
  destruct (previous request); [|apply (H _ None)]. destruct (get_list "input" request) as [items|]; [|apply (H _ None)].
  destruct (dedupe_replayed_side_effect_input_items items false) as [[deduped [|n]]|]; [apply (H _ None)|apply (H _ (Some _))|]. intros [= <-]. by right.
Qed.

Lemma anchored_err original metadata r e : anchored_state sha256 max_bytes original metadata r = Err e → e = Escaped.
Proof. unfold anchored_state. destruct (_response_create_text_with_size_guard _ _ _ _); cbn [raised res_bind]; [done|]. by intros [= <-]. Qed.

(** C23. What a message reserves is held by the request it becomes; a message that is
    refused holds nothing. *)
Theorem reservation_accounted headers api_key state payload p : accounted (prepare headers api_key state payload p).
Proof.
  unfold accounted. destruct (o_result (prepare headers api_key state payload p)) as [prep|e] eqn:E.
  - apply prepared in E as (key & original & trimmed & reservation & r1 & r2 & preferred & [_ _ _ He Hb Ha Hf]). rewrite He.
    apply bridge_ok in Hb as (request' & mark & up & _ & _ & _ & _ & Hr1).
    pose proof (final_fields (outgoing state original) (text_data prep) trimmed r2 preferred) as (_ & F2 & _). rewrite <- Hf in F2. rewrite F2.
    destruct (anchor_full_resend _ _ _ _); [apply anchored_ok in Ha as (_ & _ & _ & _ & _ & _ & -> & _)|injection Ha as <-]; by subst r1.
  - revert E. unfold _prepare_websocket_response_create_request. destruct (w_refresh w api_key) as [key|]; [|intros [= <-]; destruct e0; by left].
    destruct (admitted_request sha256 w s key payload) as [[original trimmed]|]; [|intros [= <-]; destruct e0; by left].
    destruct (_resolve_file_account_for_responses _ _ _ original headers p) as [p1 rewritten].
    fold (outgoing state original). destruct (_reserve_websocket_api_key_usage w key (outgoing state original)) as [reservation|];
      [|intros [= <-]; destruct e0; by left].
    fold (bridge_of headers key payload reservation).
    destruct (bridge_state (bridge_of headers key payload reservation) true (outgoing state original)) as [[r1 text]|e'] eqn:B.
    + destruct (match anchor_full_resend _ _ _ _ with Some _ => _ | None => _ end) as [r2|e'] eqn:A.
      * destruct (_sticky_key_for_responses_request _ _ _ _ headers _) as [request' policy].
        by destruct (match rewritten with Some a => (p1, Some a) | None => _ end) as [p2 preferred].
      * destruct (anchor_full_resend _ _ _ _); [|done]. apply anchored_err in A as ->. intros [= <-]. destruct reservation; [right; by eexists|by left].
    + apply bridge_err in B as [(status & d & ->)| ->]; intros [= <-]; (destruct reservation; [right; by eexists|by left]).
Qed.

(** A request for which the client itself named the previous response keeps
    nothing to fall back on. *)
Theorem named_anchor_not_replayable headers api_key state payload p prep : o_result (prepare headers api_key state payload p) = Ok prep →
  is_Some (previous_response_id (request_state prep)) → proxy_injected_previous_response_id (request_state prep) = false →
  fresh_upstream_request_text (request_state prep) = None ∧ fresh_upstream_request_is_retry_safe (request_state prep) = false.
Proof.
  intros (key & original & trimmed & reservation & r1 & r2 & preferred & [_ _ _ _ Hb Ha Hf])%prepared Hprev Hinj.
  pose proof (final_fields (outgoing state original) (text_data prep) trimmed r2 preferred) as (_ & _ & F3 & F4 & _ & _ & F7). rewrite <- Hf in F3, F4, F7.
  destruct (anchor_full_resend sha256 state (codex_session_affinity s) original) eqn:A.
  { apply anchored_ok in Ha as (fresh & _ & _ & _ & Hi & _). congruence. }
  injection Ha as <-. apply bridge_ok in Hb as (request' & mark & up & Hd & _ & _ & _ & Hr1).
  destruct F7 as [(-> & -> & _)|(_ & _ & Hnone & _)]; [by subst r1|]. exfalso.
  rewrite F3, Hr1 in Hprev. unfold dedupe_follow_up in Hd. rewrite Hnone in Hd. injection Hd as <- <-. cbn in Hprev. rewrite Hnone in Hprev. by destruct Hprev.
Qed.

(** *** Conversations that are sent again *)







(** What the proxy remembers of a completed request. *)
Definition completed (r : _WebSocketRequestState) (rid : string) : _WebSocketContinuityState :=
  _record_websocket_continuity_completion r (Some rid) new_continuity.

Section Resend.
Context (sha256_inj : ∀ x y, sha256 x = sha256 y → x = y).
Context (r : _WebSocketRequestState) (rid : string) (items0 : list json) (Hne0 : items0 ≠ []).
Context (Hcount : input_item_count r = Z.of_nat (length items0)) (Hfp : input_full_fingerprint r = Some (_fingerprint_input_items sha256 items0)).
Context (request : dict json) (items : list json) (Hprev : previous request = None) (Hitems : get_list "input" request = Some items).





End Resend.

Lemma previous_with_input items request : previous (with_input items request) = previous request.
Proof. unfold previous, with_input, get_str. by rewrite dict_get_set. Qed.
Lemma input_with_input items request : get_list "input" (with_input items request) = Some items.
Proof. unfold with_input, get_list. by rewrite dict_get_set, String.eqb_refl. Qed.
Lemma previous_set id request : previous (dict_set request "previous_response_id" (JStr id)) = Some id.
Proof. unfold previous, get_str. by rewrite dict_get_set, String.eqb_refl. Qed.


(** The calls a request leaves open are answered by the proxy, in front of the
    client's own items. *)
Lemma answered_input st id request items : last_completed_response_id st = Some id → previous request = Some id → get_list "input" request = Some items →
  get_list "input" (answer_interrupted (Some st) request)
  = Some (map _synthetic_interrupted_function_call_output
            (_missing_function_call_outputs_for_previous_response items (last_pending_function_call_ids st)) ++ items).
Proof.
  intros Hid Hp Hi. unfold answer_interrupted. rewrite Hp, Hi, Hid, bool_decide_true by done.
  destruct (_missing_function_call_outputs_for_previous_response _ _) as [|m missing] eqn:M; [done|]. by rewrite input_with_input.
Qed.


(** *** What is written *)














End Handler.


(** ** Interrupted calls *)

Lemma output_ids_app a b : _function_call_output_call_ids (a ++ b) = _function_call_output_call_ids a ++ _function_call_output_call_ids b.
Proof. unfold _function_call_output_call_ids. apply omap_app. Qed.

Lemma synthetic_ids l : Forall (λ c, c ≠ "") l → _function_call_output_call_ids (map _synthetic_interrupted_function_call_output l) = l.
Proof.
  unfold _function_call_output_call_ids. induction 1 as [|c l Hc _ IH]; [done|]. cbn [map omap list_omap]. rewrite IH.
  assert (output_call_id (_synthetic_interrupted_function_call_output c) = Some c) as ->; [|done]. by destruct c.
Qed.

(** When a request continues a response whose calls the client does not all
    answer, every call is answered in what is sent, a missing one exactly once,
    and the client's items follow unchanged. *)
Theorem interrupted_calls_answered st id request items : last_completed_response_id st = Some id → previous request = Some id →
  get_list "input" request = Some items → Forall (λ c, c ≠ "") (last_pending_function_call_ids st) →
  let missing := _missing_function_call_outputs_for_previous_response items (last_pending_function_call_ids st) in
  ∃ added, get_list "input" (answer_interrupted (Some st) request) = Some (added ++ items)
    ∧ _function_call_output_call_ids added = missing
    ∧ calls_answered (last_pending_function_call_ids st) (added ++ items)
    ∧ (∀ c, c ∈ missing → c ∈ last_pending_function_call_ids st ∧ c ∉ _function_call_output_call_ids items)
    ∧ (NoDup (last_pending_function_call_ids st) → NoDup (_function_call_output_call_ids added)).
Proof.
  intros Hid Hp Hi Hne missing. exists (map _synthetic_interrupted_function_call_output missing).
  assert (∀ c, c ∈ missing ↔ c ∈ last_pending_function_call_ids st ∧ c ∉ _function_call_output_call_ids items) as Hm.
  { intros c. unfold missing, _missing_function_call_outputs_for_previous_response. rewrite !list_elem_of_In, List.filter_In, negb_true_iff, mem_false. by rewrite list_elem_of_In. }
  assert (Forall (λ c, c ≠ "") missing) as Hmn.
  { apply Forall_forall. intros c [Hc _]%Hm. rewrite Forall_forall in Hne. by apply Hne. }
  split_and!; [by apply (answered_input st id)|by apply synthetic_ids| |apply Hm|].
  - intros c Hc. rewrite output_ids_app, synthetic_ids, elem_of_app by done. destruct (decide (c ∈ _function_call_output_call_ids items)); [by right|].
    left. by apply Hm.
  - intros Hn. rewrite synthetic_ids by done. unfold missing, _missing_function_call_outputs_for_previous_response.
    apply NoDup_ListNoDup, List.NoDup_filter. by apply NoDup_ListNoDup.
Qed.

(** ** Where the code departs from its word *)

(** A resend that belongs to a conversation object is anchored all the same: what
    is sent names both, which the validator of the same request refuses. *)
Theorem anchor_beside_conversation sha256 state affinity request request' anchor : 
  anchor_full_resend sha256 state affinity request = Some (request', anchor) → an_previous_response_id anchor ≠ "" →
  truthy_s (get_str "conversation" request) = true →
  _validate_conversation (get_str "conversation" request') (previous request') = invalid "Provide either 'conversation' or 'previous_response_id', not both.".
Proof.
  unfold anchor_full_resend. destruct (_websocket_continuity_anchor_for_payload _ _ _ _ _) as [a|]; [|done]. destruct (get_list "input" request); [|done].
  intros [= <- <-] Hid Hc. unfold _validate_conversation, previous. rewrite previous_with_input. rewrite previous_set.
  unfold with_input, get_str at 1. rewrite !dict_get_set. cbn [String.eqb Ascii.eqb Bool.eqb]. fold (get_str "conversation" request).
  rewrite Hc. cbn [andb truthy_s]. by rewrite (proj2 (String.eqb_neq _ _) Hid).
Qed.

(** A derived prompt cache key is not part of what is sent: the text is the same
    whether keys are derived or not. *)
Theorem derived_key_unsent sha256 max_bytes w s s' headers api_key state payload p :
  codex_session_affinity s = codex_session_affinity s' → openai_cache_affinity s = openai_cache_affinity s' →
  match o_result (_prepare_websocket_response_create_request sha256 max_bytes w s headers api_key state payload p),
        o_result (_prepare_websocket_response_create_request sha256 max_bytes w s' headers api_key state payload p) with
  | Ok prep, Ok prep' => text_data prep = text_data prep'
  | Err e, Err e' => e = e'
  | _, _ => False
  end.
Proof.
  intros Hs Ho. unfold _prepare_websocket_response_create_request. rewrite <- Hs. destruct (w_refresh w api_key) as [key|]; [|done].
  replace (admitted_request sha256 w s' key payload) with (admitted_request sha256 w s key payload) by (unfold admitted_request; by rewrite Ho).
  destruct (admitted_request sha256 w s key payload) as [[original trimmed]|]; [|done].
  destruct (_resolve_file_account_for_responses _ _ _ original headers p) as [p1 rewritten].
  set (request := answer_interrupted _ _). destruct (_reserve_websocket_api_key_usage w key request) as [reservation|]; [|done].
  destruct (_prepare_response_bridge_request_state _ _ _ _ request) as [[r1 text]|[]]; try done.
  destruct (match anchor_full_resend sha256 state (codex_session_affinity s) original with
            | Some _ => anchored_state sha256 max_bytes original (_response_create_client_metadata payload headers) r1 | None => Ok r1 end) as [r2|]; [|done].
  destruct (_sticky_key_for_responses_request _ s _ request _ _) as [q policy], (_sticky_key_for_responses_request _ s' _ request _ _) as [q' policy'].
  destruct (match rewritten with Some a => (p1, Some a) | None => _ end) as [p2 preferred].
  by destruct (match rewritten with Some a => (p1, Some a) | None => _ end) as [p3 preferred'].
Qed.

(** *** Samples *)

Definition sample_reservation : ApiKeyUsageReservationData := {| reservation_id := "r1"; rv_model := "gpt-5" |}.
Definition sample_world : world :=
  {| w_refresh := λ k, Ok k; w_validate := λ _ d, Ok d; w_reserve := λ _ _ _ _, Ok sample_reservation; w_fields := λ d, d.*1; w_order := elements;
     w_registry := PolicySamples.sample_registry; w_request_uuid := "u1"; w_key_uuid := "u2"; w_now := 0; w_later := 0 |}.
Definition sample_caller : option caller := Some {| k_id := "key"; k_policy := PolicySamples.no_key |}.
Definition sample_settings : affinity_settings :=
  {| openai_prompt_cache_key_derivation_enabled := true; codex_session_affinity := true; openai_cache_affinity := true;
     openai_cache_affinity_max_age_seconds := 1800; sticky_threads_enabled := false |}.
Definition said (role text : string) : json := JObj [("role", JStr role); ("content", JStr text)].
Definition message (items : list json) (more : dict json) : dict json :=
  [("type", JStr "response.create"); ("model", JStr "gpt-5"); ("instructions", JStr ""); ("input", JList items)] ++ more.
Definition sample_prepare (state : option _WebSocketContinuityState) (payload : dict json) : outcome :=
  _prepare_websocket_response_create_request (λ x, x) 100000 sample_world sample_settings [("session_id", "s")] sample_caller state payload ∅.

(** An item whose type is no text ends the connection with an exception, after
    the usage was reserved and without giving the reservation back. *)
Theorem reservation_leaks :
  let o := sample_prepare None (message [JObj [("type", JList [])]; said "user" "hi"] [("previous_response_id", JStr "resp_1")]) in
  o_result o = Err Escaped ∧ o_effects o = [Reserved sample_reservation] ∧ answer_failure Escaped = Crashed.
Proof. vm_compute. split_and!; reflexivity. Qed.

Definition first_items : list json := [said "user" "hi"].
Definition later_items : list json := first_items ++ [said "assistant" "hello"; said "user" "more"].

Lemma prepared_text_fits_witness : ∃ prep, o_result (sample_prepare None (message first_items [])) = Ok prep
  ∧ request_text (request_state prep) = Some (text_data prep) ∧ fits 100000 (text_data prep)
  ∧ ∀ fresh, fresh_upstream_request_text (request_state prep) = Some fresh → fits 100000 fresh.
Proof.
  eexists. split; [vm_compute; reflexivity|]. eapply (prepared_text_fits (λ x, x) 100000 sample_world sample_settings [("session_id", "s")] sample_caller None
    (message first_items []) ∅). vm_compute. reflexivity.
Defined.

Lemma named_anchor_not_replayable_witness : ∃ prep,
  o_result (sample_prepare None (message later_items [("previous_response_id", JStr "resp_1")])) = Ok prep
  ∧ fresh_upstream_request_text (request_state prep) = None ∧ fresh_upstream_request_is_retry_safe (request_state prep) = false.
Proof.
  eexists. split; [vm_compute; reflexivity|]. eapply (named_anchor_not_replayable (λ x, x) 100000 sample_world sample_settings [("session_id", "s")] sample_caller None
    (message later_items [("previous_response_id", JStr "resp_1")]) ∅); [vm_compute; reflexivity|by eexists|reflexivity].
Defined.

Definition image_part : json := JObj [("type", JStr "input_image"); ("image_url", JStr "data:image/png;base64,AAAA")].
Definition sample_history : dict json :=
  message [JObj [("role", JStr "user"); ("content", JList [image_part])]; JObj [("type", JStr "function_call_output"); ("output", JStr "data:image/png;base64,AA")];
           JObj [("role", JStr "user"); ("content", JList [image_part])]] [].

Lemma slim_keeps_recent_witness : ∃ payload' n, _slim_response_create_payload_for_upstream sample_history = (payload', Some n)
  ∧ n = {| historical_tool_outputs_slimmed := 1; historical_images_slimmed := 1 |}
  ∧ ∃ old old' u rest, get_list "input" sample_history = Some (old ++ u :: rest) ∧ is_user u = true ∧ Forall (λ i, is_user i = false) rest
    ∧ payload' = dict_set sample_history "input" (JList (old' ++ u :: rest)) ∧ Forall2 slimmed old old' ∧ old' = (slim_items old).1.1
    ∧ historical_tool_outputs_slimmed n + historical_images_slimmed n > 0.
Proof. eexists _, _. split; [vm_compute; reflexivity|]. split; [reflexivity|]. eapply slim_keeps_recent. vm_compute. reflexivity. Defined.

Lemma slim_idempotent_witness : _slim_response_create_payload_for_upstream (_slim_response_create_payload_for_upstream sample_history).1
  = ((_slim_response_create_payload_for_upstream sample_history).1, None).
Proof. apply slim_idempotent. by repeat constructor. Defined.

Lemma interrupted_calls_answered_witness : ∃ added,
  get_list "input" (answer_interrupted (Some {| last_completed_input_count := 1; last_completed_response_id := Some "resp_1";
      last_completed_input_prefix_fingerprint := None; last_pending_function_call_ids := ["call_1"; "call_2"] |})
    (message [JObj [("type", JStr "function_call_output"); ("call_id", JStr "call_2"); ("output", JStr "ok")]] [("previous_response_id", JStr "resp_1")]))
  = Some (added ++ [JObj [("type", JStr "function_call_output"); ("call_id", JStr "call_2"); ("output", JStr "ok")]])
  ∧ _function_call_output_call_ids added = ["call_1"].
Proof.
  edestruct (interrupted_calls_answered {| last_completed_input_count := 1; last_completed_response_id := Some "resp_1";
      last_completed_input_prefix_fingerprint := None; last_pending_function_call_ids := ["call_1"; "call_2"] |} "resp_1"
    (message [JObj [("type", JStr "function_call_output"); ("call_id", JStr "call_2"); ("output", JStr "ok")]] [("previous_response_id", JStr "resp_1")])
    [JObj [("type", JStr "function_call_output"); ("call_id", JStr "call_2"); ("output", JStr "ok")]]) as (added & H1 & H2 & _);
    [reflexivity|reflexivity|reflexivity|by repeat constructor|]. exists added. split; [exact H1|rewrite H2; reflexivity].
Defined.

Definition answered_first : _WebSocketRequestState :=
  match o_result (sample_prepare None (message first_items [])) with
  | Ok prep => request_state prep
  | Err _ => new_request_state (bridge_of sample_world [] None [] None) [] None 0 None
  end.


Lemma anchor_beside_conversation_witness : ∃ request' anchor,
  anchor_full_resend (λ x, x) (Some (completed answered_first "resp_1")) true (message later_items [("conversation", JStr "conv_1")]) = Some (request', anchor)
  ∧ _validate_conversation (get_str "conversation" request') (previous request') = invalid "Provide either 'conversation' or 'previous_response_id', not both.".
Proof.
  eexists _, _. split; [vm_compute; reflexivity|].
  eapply (anchor_beside_conversation (λ x, x) (Some (completed answered_first "resp_1")) true (message later_items [("conversation", JStr "conv_1")]));
    [vm_compute; reflexivity|discriminate|reflexivity].
Defined.

Lemma derived_key_unsent_witness :
  let prep s := _prepare_websocket_response_create_request (λ x, x) 100000 sample_world s [("session_id", "s")] sample_caller None (message first_items []) ∅ in
  match o_result (prep sample_settings), o_result (prep (sample_settings {{ openai_prompt_cache_key_derivation_enabled := false }})) with
  | Ok p, Ok p' => text_data p = text_data p'
  | Err e, Err e' => e = e'
  | _, _ => False
  end.
Proof. apply (derived_key_unsent (λ x, x) 100000 sample_world); reflexivity. Defined.

End PrepareFacts.
