(* ===== verification/AccountAuth.v ===== *)
(** Fresh tokens for an account: the exchange of a refresh token
    ([src/app/core/auth/refresh.py]), the one flight per token that callers
    share, and [AuthManager] ([src/app/modules/accounts/auth_manager.py]).

    [encrypt] and [decrypt] are the two directions of [TokenEncryptor] ([None]
    when decrypting raises), [sha256] is a hex digest, [claims] what pydantic
    reads of an id token.  The answer of the token endpoint is an argument, with
    what other tasks did to the accounts table in the meantime.

    An account is an object the caller holds and a row of the table.  A session
    of SQLAlchemy returns for the key of an object that is attached to it that
    object, without looking at the row ([expire_on_commit] is off). *)

From S2P Require Import Prelude Models Usage Balancer Json Requests ProxyEvents Stores.
Import PlanTypes Logic Json.Json Requests.JsonOps ProxyEvents.ProxyErrors.

(** ** The token endpoint *)
Module Tokens.

Definition TOKEN_REFRESH_INTERVAL_DAYS : Z := 8.

Record TokenRefreshResult := {
  tr_access_token : string; tr_refresh_token : string; tr_id_token : string;
  tr_account_id : option string; tr_plan_type : option string; tr_email : option string }.

Record RefreshError := { re_code : string; re_message : string; re_is_permanent : bool; re_transport_error : bool }.
#[global] Instance RefreshError_eq : EqDecision RefreshError.
Proof. solve_decision. Defined.

Definition should_refresh (token_refresh_interval_days last_refresh utcnow : Z) : bool :=
  let interval_days := if (token_refresh_interval_days =? 0)%Z then TOKEN_REFRESH_INTERVAL_DAYS else token_refresh_interval_days in
  (interval_days * 86400000000 <? utcnow - last_refresh)%Z.

Definition classify_refresh_error (code : option string) : bool :=
  match filled code with Some c => bool_decide (is_Some (dict_get PERMANENT_FAILURE_CODES c)) | None => false end.

(** The members of [OAuthTokenPayload] a refresh reads. *)
Inductive oauth_error := ErrorObject (members : dict json) | ErrorText (text : string).
Record OAuthTokenPayload := {
  ot_access_token : option string; ot_refresh_token : option string; ot_id_token : option string; ot_error : option oauth_error;
  ot_error_description : option string; ot_message : option string; ot_error_code : option string; ot_code : option string }.

(** [a or b] of two members, if it is a text. *)
Definition either_text (a b : string) (members : dict json) : option string :=
  match (if truthy (get_or_null a members) then get_or_null a members else get_or_null b members) with JStr s => Some s | _ => None end.

Definition _extract_error_code (p : OAuthTokenPayload) : option string :=
  match ot_error p with
  | Some (ErrorObject members) => either_text "code" "error" members
  | Some (ErrorText text) => Some text
  | None => or_opt (ot_error_code p) (ot_code p)
  end.
Definition _extract_error_message (p : OAuthTokenPayload) : option string :=
  match ot_error p with
  | Some (ErrorObject members) => either_text "message" "error_description" members
  | Some (ErrorText text) => or_opt (ot_error_description p) (Some text)
  | None => ot_message p
  end.

Definition _refresh_error_from_payload (p : OAuthTokenPayload) (status_code : Z) : RefreshError :=
  let code := or_s (_extract_error_code p) ("http_" ++ show_Z status_code) in
  {| re_code := code; re_message := or_s (_extract_error_message p) ("Token refresh failed (" ++ show_Z status_code ++ ")");
     re_is_permanent := classify_refresh_error (Some code); re_transport_error := false |}.

Record OpenAIAuthClaims := { au_chatgpt_account_id : option string; au_chatgpt_plan_type : option string }.
Record IdTokenClaims := {
  cl_email : option string; cl_chatgpt_account_id : option string; cl_chatgpt_plan_type : option string; cl_auth : option OpenAIAuthClaims }.

Definition auth_claims (c : IdTokenClaims) : OpenAIAuthClaims :=
  default {| au_chatgpt_account_id := None; au_chatgpt_plan_type := None |} (cl_auth c).
Definition claimed_account_id (c : IdTokenClaims) : option string := or_opt (au_chatgpt_account_id (auth_claims c)) (cl_chatgpt_account_id c).
Definition claimed_plan_type (c : IdTokenClaims) : option string := or_opt (au_chatgpt_plan_type (auth_claims c)) (cl_chatgpt_plan_type c).

(** What the endpoint answers: a status and what pydantic reads of the body
    ([None] when it refuses it), or no answer. *)
Inductive token_response := Responded (status : Z) (payload : option OAuthTokenPayload) | TransportFailed (message : string).

Definition invalid_response (message : string) : RefreshError :=
  {| re_code := "invalid_response"; re_message := message; re_is_permanent := false; re_transport_error := false |}.

Definition refresh_access_token (claims : string → IdTokenClaims) (response : token_response) : res RefreshError TokenRefreshResult :=
  match response with
  | TransportFailed message =>
      Err {| re_code := "transport_error"; re_message := ("Transport error during token refresh: " ++ message)%string;
             re_is_permanent := false; re_transport_error := true |}
  | Responded _ None => Err (invalid_response "Refresh response invalid")
  | Responded status (Some p) =>
      if (400 <=? status)%Z then Err (_refresh_error_from_payload p status)
      else match filled (ot_access_token p), filled (ot_refresh_token p), filled (ot_id_token p) with
      | Some access_token, Some refresh_token, Some id_token =>
          let c := claims id_token in
          Ok {| tr_access_token := access_token; tr_refresh_token := refresh_token; tr_id_token := id_token;
                tr_account_id := claimed_account_id c; tr_plan_type := claimed_plan_type c; tr_email := cl_email c |}
      | _, _, _ => Err (invalid_response "Refresh response missing tokens")
      end
  end.

Definition _effective_token_refresh_timeout (override : option Q) (configured_timeout_seconds : Q) : Q :=
  match override with None => configured_timeout_seconds | Some o => qmax (1 # 1000) (qmin configured_timeout_seconds o) end.

End Tokens.

(** ** One flight per token *)
Module RefreshFlights.
Import Tokens.

(** An account and the fingerprint of its refresh token. *)
Notation flight_key := (string * string)%type.

(** How a task stands.  [Broke] is any exception but a [RefreshError]. *)
Inductive task := Running | Succeeded | Failed (e : RefreshError) | Broke | Cancelled.
#[global] Instance task_eq : EqDecision task.
Proof. solve_decision. Defined.

Definition done (t : task) : bool := match t with Running => false | _ => true end.

(** Tasks are numbered; a number is the identity of its task. *)
Record flights := {
  fl_inflight : gmap flight_key nat;
  fl_recent_failures : gmap flight_key (Q * RefreshError);
  fl_tasks : gmap nat task;
  fl_next : nat }.

Definition no_flights : flights := {| fl_inflight := ∅; fl_recent_failures := ∅; fl_tasks := ∅; fl_next := 0 |}.

Definition status_of (n : nat) (f : flights) : task := default Cancelled (fl_tasks f !! n).
Definition other_version (account_id : string) (keep_key k : flight_key) : bool :=
  String.eqb k.1 account_id && negb (bool_decide (k = keep_key)).

Definition _purge_stale_versions (account_id : string) (keep_key : flight_key) (f : flights) : flights :=
  f {{ fl_recent_failures := filter (λ p, other_version account_id keep_key p.1 = false) (fl_recent_failures f);
       fl_inflight := filter (λ p, other_version account_id keep_key p.1 && done (status_of p.2 f) = false) (fl_inflight f) }}.

(** The task whose result the caller gets, or the failure it is told. *)
Definition run (key : flight_key) (monotonic : Q) (f : flights) : flights * res RefreshError nat :=
  let f := _purge_stale_versions key.1 key f in
  let start := (f {{ fl_inflight := <[key := fl_next f]> (fl_inflight f); fl_tasks := <[fl_next f := Running]> (fl_tasks f);
                     fl_next := S (fl_next f); fl_recent_failures := delete key (fl_recent_failures f) }}, Ok (fl_next f)) in
  let join n := (f {{ fl_recent_failures := delete key (fl_recent_failures f) }}, Ok n) in
  let flight := match fl_inflight f !! key with
                | Some n => match status_of n f with Running | Succeeded => join n | _ => start end
                | None => start
                end in
  match fl_recent_failures f !! key with
  | Some (expires_at, failure) => if qlt monotonic expires_at then (f, Err (failure {{ re_transport_error := false }})) else flight
  | None => flight
  end.

(** The task ends; later its completion runs. *)
Definition finish (n : nat) (outcome : task) (f : flights) : flights := f {{ fl_tasks := <[n := outcome]> (fl_tasks f) }}.

Definition _complete (key : flight_key) (n : nat) (monotonic proxy_refresh_failure_cooldown_seconds : Q) (f : flights) : flights :=
  let f := if bool_decide (fl_inflight f !! key = Some n) then f {{ fl_inflight := delete key (fl_inflight f) }} else f in
  let ttl := qmax 0 proxy_refresh_failure_cooldown_seconds in
  match status_of n f with
  | Failed e => if qlt 0 ttl && negb (re_transport_error e)
                then f {{ fl_recent_failures := <[key := ((monotonic + ttl)%Q, e)]> (fl_recent_failures f) }}
                else f {{ fl_recent_failures := delete key (fl_recent_failures f) }}
  | _ => f {{ fl_recent_failures := delete key (fl_recent_failures f) }}
  end.

Definition clear (f : flights) : flights := f {{ fl_inflight := ∅; fl_recent_failures := ∅ }}.

End RefreshFlights.

(** ** Accounts *)
Module Auth.
Import Tokens RefreshFlights Stores.AccountsRepo.

Definition DEFAULT_PLAN : string := "unknown".

(** What [ensure_fresh] can raise: a refused refresh, a token that cannot be
    decrypted, or the error of a full admission queue. *)
Inductive auth_error := Refresh (e : RefreshError) | Undecryptable | NotAdmitted.

(** The account a method returns: the object it was given or one it loaded. *)
Inductive object := Held | Loaded (a : Account).

(** The table and the object of the caller afterwards, and the result. *)
Record refreshed := { rf_rows : list Account; rf_held : Account; rf_result : res auth_error object }.

Section Manager.
Context (encrypt : string → string) (decrypt : string → option string) (sha256 : string → string) (claims : string → IdTokenClaims).
(** Whether the object is attached to the session of the repository. *)
Context (attached : bool).

Definition load (account : Account) (rows : list Account) : option Account :=
  if attached then Some account else get_by_id (acc_id account) rows.

Definition _refresh_token_material_fingerprint (refresh_token_encrypted : string) : string :=
  sha256 (default refresh_token_encrypted (decrypt refresh_token_encrypted)).
Definition _refresh_token_material_changed (latest current : string) : bool :=
  negb (String.eqb (_refresh_token_material_fingerprint latest) (_refresh_token_material_fingerprint current)).
Definition _refresh_singleflight_key (account : Account) : string * string :=
  (acc_id account, _refresh_token_material_fingerprint (refresh_token_encrypted account)).

Definition store_tokens (a : Account) (rows : list Account) : list Account :=
  (update_tokens (acc_id a) (access_token_encrypted a) (refresh_token_encrypted a) (id_token_encrypted a) (last_refresh a)
     (Some (acc_plan_type a)) (Some (email a)) (chatgpt_account_id a) rows).1.

(** What a successful exchange changes in the object. *)
Definition with_tokens (utcnow : Z) (r : TokenRefreshResult) (a : Account) : Account :=
  let a := a {{ access_token_encrypted := encrypt (tr_access_token r); refresh_token_encrypted := encrypt (tr_refresh_token r);
                id_token_encrypted := encrypt (tr_id_token r); last_refresh := utcnow }} in
  let a := match filled (tr_account_id r) with Some id => a {{ chatgpt_account_id := Some id }} | None => a end in
  let plan := or_s (Some (acc_plan_type a)) DEFAULT_PLAN in
  let a := a {{ acc_plan_type := match tr_plan_type r with Some p => coerce_account_plan_type (Some p) plan | None => plan end }} in
  match filled (tr_email r) with Some e => a {{ email := e }} | None => a end.

(** The exchange of a token, [None] when it is not admitted, with what other
    tasks did to the table until it ended. *)
Notation exchange := (string → list Account → list Account * option token_response).

Definition _refresh_tokens (ex : exchange) (refresh_token : string) (rows : list Account) : list Account * res auth_error TokenRefreshResult :=
  let '(rows, response) := ex refresh_token rows in
  (rows, match response with
         | None => Err NotAdmitted
         | Some response => match refresh_access_token claims response with Ok r => Ok r | Err e => Err (Refresh e) end
         end).

Definition deactivate (reason : string) (a : Account) (rows : list Account) : list Account * Account :=
  ((update_status (acc_id a) DEACTIVATED (Some reason) None None rows).1,
   a {{ acc_status := DEACTIVATED; acc_deactivation_reason := Some reason }}).

Definition refresh_account (utcnow : Z) (ex : exchange) (account : Account) (rows : list Account) : refreshed :=
  match decrypt (refresh_token_encrypted account) with
  | None => {| rf_rows := rows; rf_held := account; rf_result := Err Undecryptable |}
  | Some "" => {| rf_rows := rows; rf_held := account; rf_result := Ok Held |}
  | Some refresh_token =>
      match _refresh_tokens ex refresh_token rows with
      | (rows, Ok r) =>
          let account := with_tokens utcnow r account in
          {| rf_rows := store_tokens account rows; rf_held := account; rf_result := Ok Held |}
      | (rows, Err (Refresh e as failure)) =>
          let raise rows account := {| rf_rows := rows; rf_held := account; rf_result := Err failure |} in
          if negb (re_is_permanent e) then raise rows account
          else
            let deactivated := let '(rows, account) := deactivate (default (re_message e) (dict_get PERMANENT_FAILURE_CODES (re_code e))) account rows in
                               raise rows account in
            match load account rows with
            | Some latest =>
                if _refresh_token_material_changed (refresh_token_encrypted latest) (refresh_token_encrypted account)
                then {| rf_rows := rows; rf_held := account; rf_result := Ok (Loaded latest) |}
                else deactivated
            | None => deactivated
            end
      | (rows, Err failure) => {| rf_rows := rows; rf_held := account; rf_result := Err failure |}
      end
  end.

(** The object with its ChatGPT account, from the id token when it has none; the
    write may fail, which is ignored. *)
Definition _ensure_chatgpt_account_id (stored : bool) (account : Account) (rows : list Account) : Account * list Account :=
  if truthy_s (chatgpt_account_id account) then (account, rows)
  else match decrypt (id_token_encrypted account) with
  | None => (account, rows)
  | Some id_token =>
      match filled (claimed_account_id (claims id_token)) with
      | None => (account, rows)
      | Some raw_account_id =>
          let account := account {{ chatgpt_account_id := Some raw_account_id }} in
          (account, if stored then store_tokens account rows else rows)
      end
  end.

(** How the flight of a caller went: its own task ran, or another caller's did,
    with the object and the table that left, or a failure was remembered. *)
Inductive flight := Own (utcnow : Z) (ex : exchange) | Shared (rows : list Account → list Account) (result : res auth_error Account)
                  | Remembered (e : RefreshError).

Definition fly (fl : flight) (account : Account) (rows : list Account) : refreshed :=
  match fl with
  | Own utcnow ex => refresh_account utcnow ex account rows
  | Shared others result =>
      {| rf_rows := others rows; rf_held := account; rf_result := match result with Ok a => Ok (Loaded a) | Err e => Err e end |}
  | Remembered e => {| rf_rows := rows; rf_held := account; rf_result := Err (Refresh e) |}
  end.

Definition ensure_fresh (token_refresh_interval_days utcnow : Z) (force stored : bool) (fl : flight) (account : Account) (rows : list Account) : refreshed :=
  let r := if force || should_refresh token_refresh_interval_days (last_refresh account) utcnow then fly fl account rows
           else {| rf_rows := rows; rf_held := account; rf_result := Ok Held |} in
  match rf_result r with
  | Err _ => r
  | Ok Held => let '(account, rows) := _ensure_chatgpt_account_id stored (rf_held r) (rf_rows r) in
               {| rf_rows := rows; rf_held := account; rf_result := Ok Held |}
  | Ok (Loaded a) => let '(a, rows) := _ensure_chatgpt_account_id stored a (rf_rows r) in
                     {| rf_rows := rows; rf_held := rf_held r; rf_result := Ok (Loaded a) |}
  end.

End Manager.

End Auth.
