(* ===== verification/AccountAuthFacts.v ===== *)
(** What [AccountAuth] promises: a refresh token is in one flight at a time, a
    failure is remembered as long as it should be, and an account whose token was
    exchanged by another instance is not deactivated, as long as the object the
    caller holds is not attached to the session that looks. *)

From S2P Require Import Prelude Models Usage Balancer Json Requests ProxyEvents Stores AccountAuth.
Import Logic Json.Json ProxyEvents.ProxyErrors AccountAuth.Tokens AccountAuth.RefreshFlights AccountAuth.Auth.

Module AccountAuthFacts.

(** ** Flights *)

(** The task a caller starts, if it starts one. *)
Definition started (key : string * string) (t : Q) (f : flights) : list (nat * (string * string)) :=
  match (run key t f).2 with Ok n => if Nat.eqb n (fl_next f) then [(n, key)] else [] | Err _ => [] end.

(** Any order of callers, endings and completions, with the tasks started. *)
Inductive flown : list (nat * (string * string)) → flights → Prop :=
| flown_none : flown [] no_flights
| flown_run l f key t : flown l f → flown (started key t f ++ l) (run key t f).1
| flown_finish l f n outcome : flown l f → fl_tasks f !! n = Some Running → done outcome = true → flown l (finish n outcome f)
| flown_complete l f key n t ttl : flown l f → done (status_of n f) = true → flown l (_complete key n t ttl f).

(** Numbers are given once, and a task that runs is the one of its key. *)
Record flying (l : list (nat * (string * string))) (f : flights) : Prop := {
  fy_old : ∀ n key, (n, key) ∈ l → n < fl_next f;
  fy_known : ∀ n key, fl_inflight f !! key = Some n → n < fl_next f;
  fy_inflight : ∀ n key, (n, key) ∈ l → fl_tasks f !! n = Some Running → fl_inflight f !! key = Some n }.

Lemma running_status n f : fl_tasks f !! n = Some Running → status_of n f = Running.
Proof. unfold status_of. by intros ->. Qed.

Lemma purge_running account key f k n : fl_inflight f !! k = Some n → fl_tasks f !! n = Some Running →
  fl_inflight (_purge_stale_versions account key f) !! k = Some n.
Proof.
  intros Hk Hn. unfold _purge_stale_versions. cbn [fl_inflight]. apply map_lookup_filter_Some. split; [done|].
  cbn [fst snd]. rewrite (running_status n f Hn). apply andb_false_r.
Qed.

(** A caller joins, starts a task where none runs, or is told a failure. *)
Lemma run_cases key t f : let f' := _purge_stale_versions key.1 key f in
  (∃ e, run key t f = (f', Err e)) ∨
  (∃ n, run key t f = (f' {{ fl_recent_failures := base.delete key (fl_recent_failures f') }}, Ok n) ∧ fl_inflight f' !! key = Some n) ∨
  (run key t f = (f' {{ fl_inflight := <[key := fl_next f]> (fl_inflight f'); fl_tasks := <[fl_next f := Running]> (fl_tasks f);
                        fl_next := S (fl_next f); fl_recent_failures := base.delete key (fl_recent_failures f') }}, Ok (fl_next f))
   ∧ ∀ n, fl_inflight f' !! key = Some n → status_of n f ≠ Running).
Proof.
  cbn zeta. unfold run. set (f' := _purge_stale_versions key.1 key f).
  assert (∀ n, status_of n f' = status_of n f) as Hs by done.
  destruct (fl_recent_failures f' !! key) as [[expires failure]|]; [destruct (qlt t expires); [left; by eexists|]|]; right;
    (destruct (fl_inflight f' !! key) as [n|] eqn:E; [|right; split; [done|by intros n [=]]]; rewrite Hs;
     destruct (status_of n f) eqn:S; [left; by exists n|left; by exists n|right; split; [done|]; by intros m [= <-]; rewrite S..]).
Qed.

Lemma purge_inflight account key f k n : fl_inflight (_purge_stale_versions account key f) !! k = Some n → fl_inflight f !! k = Some n.
Proof. unfold _purge_stale_versions. simpl. by intros [? _]%map_lookup_filter_Some. Qed.

Lemma flying_purged l account key f : flying l f → flying l (_purge_stale_versions account key f).
Proof.
  intros [Ho Hk Hi]. split; [done|by intros n k ?%purge_inflight; apply (Hk n k)|]. intros n k Hl Hr. by apply purge_running; [apply Hi|].
Qed.

Lemma flown_flying l f : flown l f → flying l f.
Proof.
  induction 1 as [|l f key t _ IH|l f n outcome _ [Ho Hk Hi] Hn Hd|l f key n t ttl _ [Ho Hk Hi] Hd].
  - split; [by intros n key ?%elem_of_nil|done|by intros n key ?%elem_of_nil].
  - apply (flying_purged l key.1 key) in IH as [Ho Hk Hi]. change (fl_next (_purge_stale_versions key.1 key f)) with (fl_next f) in Ho, Hk.
    change (fl_tasks (_purge_stale_versions key.1 key f)) with (fl_tasks f) in Hi. unfold started.
    destruct (run_cases key t f) as [[e E]|[(n & E & Hn)|[E Hnew]]]; rewrite E; cbn [fst snd app]; [by split| |].
    + rewrite (proj2 (Nat.eqb_neq _ _)); [by split|]. intros ->. apply Hk in Hn. simpl in Hn. lia.
    + rewrite Nat.eqb_refl. simpl in *. split; simpl.
      * intros m k [[= -> ->]|Hl]%elem_of_cons; [lia|]. apply Ho in Hl. lia.
      * intros m k [[_ <-]|[_ Hm]]%lookup_insert_Some; [lia|]. apply Hk in Hm. lia.
      * intros m k [[= -> ->]|Hl]%elem_of_cons; [intros _; by rewrite lookup_insert_eq|]. pose proof (Ho _ _ Hl). rewrite lookup_insert_ne by lia. intros Hr.
        pose proof (Hi _ _ Hl Hr) as Hm. rewrite lookup_insert_ne; [done|]. intros ->. by apply (Hnew m), running_status.
  - split; simpl; [done..|]. intros m k Hl [[<- ->]|[_ Hm]]%lookup_insert_Some; [done|by apply Hi].
  - assert (flying l (if bool_decide (fl_inflight f !! key = Some n) then f {{ fl_inflight := base.delete key (fl_inflight f) }} else f)) as HF.
    { case_bool_decide as Hkey; [|by split]. split; simpl; [done|by intros m k [_ ?]%lookup_delete_Some; apply (Hk m k)|].
      intros m k Hl Hr. rewrite lookup_delete_ne; [by apply Hi|]. intros ->. rewrite (Hi m k Hl Hr) in Hkey. injection Hkey as ->.
      by rewrite (running_status n f Hr) in Hd. }
    unfold _complete. revert HF. generalize (if bool_decide (fl_inflight f !! key = Some n) then f {{ fl_inflight := base.delete key (fl_inflight f) }} else f).
    intros g HF. destruct (status_of n g); try (destruct (_ && _)); by destruct HF.
Qed.

(** However callers come and tasks end, a refresh token is being exchanged by at
    most one task. *)
Theorem one_flight_per_token l f key n n' : flown l f → (n, key) ∈ l → (n', key) ∈ l →
  fl_tasks f !! n = Some Running → fl_tasks f !! n' = Some Running → n = n'.
Proof. intros H%flown_flying Hl Hl' Hr Hr'. pose proof (fy_inflight _ _ H _ _ Hl Hr) as E. rewrite (fy_inflight _ _ H _ _ Hl' Hr') in E. congruence. Qed.

(** *** Failures *)

(** Callers of the same token, or of other accounts, until a time. *)
Definition quiet (key : string * string) (until : Q) (p : (string * string) * Q) : Prop := (p.1 = key ∧ (p.2 < until)%Q) ∨ p.1.1 ≠ key.1.
Definition run_all (calls : list ((string * string) * Q)) (f : flights) : flights := fold_left (λ f p, (run p.1 p.2 f).1) calls f.

Lemma purge_failures account key f k v : k.1 ≠ account ∨ k = key → fl_recent_failures f !! k = Some v →
  fl_recent_failures (_purge_stale_versions account key f) !! k = Some v.
Proof.
  intros Hk Hv. unfold _purge_stale_versions. simpl. apply map_lookup_filter_Some. split; [done|]. unfold other_version. simpl.
  destruct Hk as [Hk| ->]; [by rewrite (proj2 (String.eqb_neq _ _) Hk)|]. rewrite bool_decide_true by done. apply andb_false_r.
Qed.

Lemma run_told key t f until e : fl_recent_failures f !! key = Some (until, e) → (t < until)%Q →
  run key t f = (_purge_stale_versions key.1 key f, Err (e {{ re_transport_error := false }})).
Proof.
  intros Hf Ht. unfold run. rewrite (purge_failures _ _ _ _ _ (or_intror eq_refl) Hf). by rewrite (proj2 (qlt_true _ _) Ht).
Qed.

Lemma run_keeps key until e f p : quiet key until p → fl_recent_failures f !! key = Some (until, e) →
  fl_recent_failures (run p.1 p.2 f).1 !! key = Some (until, e).
Proof.
  destruct p as [k t]. intros [[-> Ht]|Hne] Hf; simpl in *; [rewrite (run_told key t f until e Hf Ht); by apply purge_failures; [right|]|].
  assert (fl_recent_failures (_purge_stale_versions k.1 k f) !! key = Some (until, e)) as Hp by (apply purge_failures; [left; congruence|done]).
  destruct (run_cases k t f) as [[e' ->]|[(n & -> & _)|[-> _]]]; simpl; [done|..]; (rewrite lookup_delete_ne by congruence); exact Hp.
Qed.

(** A refresh that failed for another reason than the network is not tried again
    with the same token before its time is over: callers are told the failure. *)
Theorem failure_remembered key n e t ttl calls t' f : status_of n f = Failed e → re_transport_error e = false → (0 < ttl)%Q →
  Forall (quiet key (t + ttl)) calls → (t' < t + ttl)%Q →
  (run key t' (run_all calls (_complete key n t ttl f))).2 = Err e.
Proof.
  intros Hn He Httl Hq Ht.
  assert (∃ until, (until == t + ttl)%Q ∧ fl_recent_failures (_complete key n t ttl f) !! key = Some (until, e)) as (until & Hu & Hf).
  { exists (t + qmax 0 ttl)%Q. assert (qmax 0 ttl == ttl)%Q as Hm by (unfold qmax; case_if; pyb; lra). split; [lra|]. unfold _complete.
    assert (∀ g, fl_tasks g = fl_tasks f → status_of n g = Failed e) as Hs by (intros g Hg; unfold status_of; by rewrite Hg).
    assert (qlt 0 (qmax 0 ttl) = true) as Hlt by (apply qlt_true; lra).
    case_bool_decide; rewrite Hs by done; rewrite Hlt, He; simpl; by rewrite lookup_insert_eq. }
  revert Hf. generalize (_complete key n t ttl f). clear Hn. intros g Hg. assert (Forall (quiet key until) calls) as Hq'.
  { eapply Forall_impl; [exact Hq|]. intros p [[E Hp]|Hp]; [left; split; [done|lra]|by right]. }
  assert (fl_recent_failures (run_all calls g) !! key = Some (until, e)) as H.
  { unfold run_all. revert g Hg. clear Hq. induction Hq' as [|p calls Hp _ IH]; intros g Hg; [done|]. simpl. apply IH. by apply run_keeps. }
  rewrite (run_told _ _ _ _ _ H) by lra. simpl. f_equal. destruct e. simpl in *. by subst.
Qed.

(** ** Exchanged tokens *)

Section Rotation.
Context (encrypt : string → string) (decrypt : string → option string) (sha256 : string → string) (claims : string → IdTokenClaims).
Context (decrypt_encrypt : ∀ s, decrypt (encrypt s) = Some s) (sha256_inj : ∀ s t, sha256 s = sha256 t → s = t).
Notation refresh attached := (refresh_account encrypt decrypt sha256 claims attached).
Notation get_by_id := AccountsRepo.get_by_id.

(** The row carries the refresh token of an exchange. *)
Definition carries (r : TokenRefreshResult) (row : Account) : Prop := refresh_token_encrypted row = encrypt (tr_refresh_token r).

Lemma with_tokens_id utcnow r a : acc_id (with_tokens encrypt utcnow r a) = acc_id a.
Proof. unfold with_tokens. by destruct (filled (tr_account_id r)), (filled (tr_email r)). Qed.
Lemma with_tokens_refresh utcnow r a : refresh_token_encrypted (with_tokens encrypt utcnow r a) = encrypt (tr_refresh_token r).
Proof. unfold with_tokens. by destruct (filled (tr_account_id r)), (filled (tr_email r)). Qed.

Lemma get_by_id_key id rows a : get_by_id id rows = Some a → acc_id a = id.
Proof. by intros [_ ?]%StoreFacts.get_by_id_Some. Qed.

(** The row after the tokens of an object were stored. *)
Lemma stored_row a rows row : get_by_id (acc_id a) rows = Some row →
  ∃ row', get_by_id (acc_id a) (store_tokens a rows) = Some row' ∧ refresh_token_encrypted row' = refresh_token_encrypted a
          ∧ access_token_encrypted row' = access_token_encrypted a ∧ acc_status row' = acc_status row.
Proof.
  intros Hrow. unfold store_tokens, AccountsRepo.update_tokens. cbn [fst]. rewrite StoreFacts.get_by_id_update, Hrow by (intros b; by destruct (chatgpt_account_id a)).
  cbn [fmap option_fmap option_map]. eexists. split; [done|]. unfold AccountsRepo.has_id. rewrite (get_by_id_key _ _ _ Hrow), String.eqb_refl.
  by destruct (chatgpt_account_id a).
Qed.

(** C28. Two instances hold the same account.  While the second one asks for new
    tokens the first one got them, so that the token endpoint refuses the second
    for good.  If the second one's account object is not attached to the session
    that looks the row up, and SHA-256 does not collide, it goes on with the
    account as the first one stored it; its status and the table are left
    alone. *)
Theorem rotated_token_kept utcnow rotated a rows row now2 status payload token :
  decrypt (refresh_token_encrypted a) = Some token → token ≠ "" → tr_refresh_token rotated ≠ token →
  get_by_id (acc_id a) rows = Some row →
  re_is_permanent (_refresh_error_from_payload payload status) = true → (400 <= status)%Z →
  let rows' := store_tokens (with_tokens encrypt utcnow rotated a) rows in
  ∃ latest, refresh false now2 (λ _ _, (rows', Some (Responded status (Some payload)))) a rows
      = {| rf_rows := rows'; rf_held := a; rf_result := Ok (Loaded latest) |}
    ∧ carries rotated latest ∧ acc_status latest = acc_status row.
Proof.
  intros Ht Hne Hrot Hrow Hperm Hst rows'. rewrite <- (with_tokens_id utcnow rotated a) in Hrow.
  destruct (stored_row _ _ _ Hrow) as (latest & Hl & Hr & _ & Hs). fold rows' in Hl. rewrite with_tokens_id in Hl. rewrite with_tokens_refresh in Hr.
  exists latest. split_and!; [|done..]. unfold refresh_account. rewrite Ht. destruct token as [|c token]; [done|].
  unfold _refresh_tokens. cbn [refresh_access_token]. rewrite (proj2 (Z.leb_le _ _) Hst). rewrite Hperm. cbn [negb load].
  rewrite Hl. unfold _refresh_token_material_changed, _refresh_token_material_fingerprint. rewrite Hr, decrypt_encrypt, Ht. cbn [default id].
  destruct (String.eqb_spec (sha256 (tr_refresh_token rotated)) (sha256 (String c token))) as [E|]; [|done]. by apply sha256_inj in E.
Qed.

(** C29. The same with an object that is attached to the session of the repository:
    the session answers with the object itself, so that the exchange by the other
    instance is not seen and the account is deactivated. *)
Theorem attached_account_deactivated utcnow rotated a rows row now2 status payload token :
  decrypt (refresh_token_encrypted a) = Some token → token ≠ "" → get_by_id (acc_id a) rows = Some row →
  re_is_permanent (_refresh_error_from_payload payload status) = true → (400 <= status)%Z →
  let rows' := store_tokens (with_tokens encrypt utcnow rotated a) rows in
  let result := refresh true now2 (λ _ _, (rows', Some (Responded status (Some payload)))) a rows in
  rf_result result = Err (Refresh (_refresh_error_from_payload payload status))
  ∧ ∃ row', get_by_id (acc_id a) (rf_rows result) = Some row' ∧ acc_status row' = DEACTIVATED
            ∧ carries rotated row'.
Proof.
  intros Ht Hne Hrow Hperm Hst rows'. rewrite <- (with_tokens_id utcnow rotated a) in Hrow.
  destruct (stored_row _ _ _ Hrow) as (latest & Hl & Hr & _ & Hs). fold rows' in Hl. rewrite with_tokens_id in Hl. rewrite with_tokens_refresh in Hr.
  cbn zeta. unfold refresh_account. rewrite Ht. destruct token as [|c token]; [done|].
  unfold _refresh_tokens. cbn [refresh_access_token]. rewrite (proj2 (Z.leb_le _ _) Hst). rewrite Hperm. cbn [negb load].
  unfold _refresh_token_material_changed. rewrite String.eqb_refl. cbn [negb deactivate rf_result rf_rows fst AccountsRepo.update_status]. split; [done|].
  unfold AccountsRepo.update_status. cbn [fst]. rewrite StoreFacts.get_by_id_update, Hl by done. cbn [fmap option_fmap option_map]. eexists. split; [done|].
  unfold AccountsRepo.has_id. rewrite (get_by_id_key _ _ _ Hl), String.eqb_refl. by split.
Qed.

End Rotation.

(** ** Samples *)

Definition sample_key : string * string := ("a", "digest").
Definition asked_twice : flights := (run sample_key 1 (run sample_key 0 no_flights).1).1.

Lemma one_flight_per_token_witness : flown (started sample_key 1 (run sample_key 0 no_flights).1 ++ started sample_key 0 no_flights ++ []) asked_twice ∧ 0 = 0.
Proof.
  assert (flown (started sample_key 1 (run sample_key 0 no_flights).1 ++ started sample_key 0 no_flights ++ []) asked_twice) as H
    by (apply flown_run, flown_run, flown_none).
  split; [exact H|]. apply (one_flight_per_token _ _ sample_key 0 0 H); [vm_compute; left|vm_compute; left|by vm_compute|by vm_compute].
Defined.

Definition reused : RefreshError := {| re_code := "refresh_token_reused"; re_message := "reused"; re_is_permanent := true; re_transport_error := false |}.

Lemma failure_remembered_witness :
  (run sample_key 5 (run_all [(sample_key, 2%Q); (("b", "other"), 3%Q)]
     (_complete sample_key 0 1 10 (finish 0 (Failed reused) (run sample_key 0 no_flights).1)))).2 = Err reused.
Proof.
  apply (failure_remembered sample_key 0 reused 1 10 [(sample_key, 2%Q); (("b", "other"), 3%Q)] 5); [by vm_compute|done|done| |done].
  constructor; [left; by split|constructor; [by right|constructor]].
Defined.

Definition seal (s : string) : string := String "e" s.
Definition unseal (s : string) : option string := match s with String "e" s => Some s | _ => None end.
Definition no_claims (_ : string) : IdTokenClaims := {| cl_email := None; cl_chatgpt_account_id := None; cl_chatgpt_plan_type := None; cl_auth := None |}.
Definition sample_account : Account :=
  {| acc_id := "a"; chatgpt_account_id := Some "c"; email := "a@x"; acc_plan_type := "plus"; access_token_encrypted := seal "at"; refresh_token_encrypted := seal "rt";
     id_token_encrypted := seal "it"; last_refresh := 0; acc_created_at := 0; acc_status := ACTIVE; acc_deactivation_reason := None; acc_reset_at := None;
     acc_blocked_at := None |}.
Definition sample_rotated : TokenRefreshResult :=
  {| tr_access_token := "at2"; tr_refresh_token := "rt2"; tr_id_token := "it2"; tr_account_id := None; tr_plan_type := None; tr_email := None |}.
Definition reused_payload : OAuthTokenPayload :=
  {| ot_access_token := None; ot_refresh_token := None; ot_id_token := None; ot_error := Some (ErrorObject [("code", JStr "refresh_token_reused")]);
     ot_error_description := None; ot_message := None; ot_error_code := None; ot_code := None |}.
Definition rotated_rows : list Account := store_tokens (with_tokens seal 5 sample_rotated sample_account) [sample_account].

Lemma rotated_token_kept_witness : ∃ latest,
  refresh_account seal unseal id no_claims false 6 (λ _ _, (rotated_rows, Some (Responded 400 (Some reused_payload)))) sample_account [sample_account]
    = {| rf_rows := rotated_rows; rf_held := sample_account; rf_result := Ok (Loaded latest) |}
  ∧ refresh_token_encrypted latest = seal "rt2" ∧ acc_status latest = ACTIVE.
Proof.
  exact (rotated_token_kept seal unseal id no_claims (λ s, eq_refl) (λ s t H, H) 5 sample_rotated sample_account [sample_account] sample_account 6 400 reused_payload "rt"
    eq_refl ltac:(discriminate) ltac:(discriminate) eq_refl eq_refl ltac:(lia)).
Defined.

Lemma attached_account_deactivated_witness :
  let result := refresh_account seal unseal id no_claims true 6 (λ _ _, (rotated_rows, Some (Responded 400 (Some reused_payload)))) sample_account [sample_account] in
  rf_result result = Err (Refresh (_refresh_error_from_payload reused_payload 400))
  ∧ ∃ row', AccountsRepo.get_by_id "a" (rf_rows result) = Some row' ∧ acc_status row' = DEACTIVATED ∧ refresh_token_encrypted row' = seal "rt2".
Proof.
  exact (attached_account_deactivated seal unseal id no_claims 5 sample_rotated sample_account [sample_account] sample_account 6 400 reused_payload "rt"
    eq_refl ltac:(discriminate) eq_refl eq_refl ltac:(lia)).
Defined.

End AccountAuthFacts.
