(* ===== verification/UsageRefresh.v ===== *)
(** Collecting the usage of accounts: the usage endpoint
    ([src/app/core/usage/models.py], [src/app/core/clients/usage.py]) and the
    updater that asks it and stores what it says
    ([src/app/modules/usage/updater.py]).

    A refresh works on the tables, on the account object of its caller and on the
    memory of the process.  The answers of the endpoint are arguments, with what
    other tasks did to the tables until they came, as are the readings of the
    clocks and the next ids of the tables.  [float()] of a text is an argument
    too. *)

From S2P Require Import Prelude Models Usage Balancer QuotaKeys Json Requests ProxyEvents Stores AccountAuth.
Import PlanTypes Logic Json.Json QuotaKeys.QuotaKeys ProxyEvents.ProxyErrors AccountAuth.Tokens AccountAuth.Auth.

(** ** The usage endpoint *)
Module UsageClient.

Record UsageWindow := {
  uw_used_percent : option Q; uw_reset_at : option Z; uw_limit_window_seconds : option Z; uw_reset_after_seconds : option Z }.
Record RateLimitPayload := { primary_window : option UsageWindow; secondary_window : option UsageWindow }.
Record CreditsPayload := { has_credits : option bool; unlimited : option bool; balance : option string }.
Record AdditionalRateLimitPayload := { al_limit_name : string; al_metered_feature : string; al_rate_limit : option RateLimitPayload }.
Record UsagePayload := {
  up_plan_type : option string; up_rate_limit : option RateLimitPayload; up_credits : option CreditsPayload;
  up_additional_rate_limits : option (list AdditionalRateLimitPayload) }.

Inductive usage_error := UsageErrorDetail (code message error_description : option string) | UsageErrorText (text : string).
Record UsageErrorEnvelope := { ue_error : option usage_error; ue_error_description : option string; ue_message : option string }.

Record UsageFetchError := { fe_status_code : Z; fe_message : string; fe_code : option string }.

Definition _extract_error_message (envelope : UsageErrorEnvelope) : option string :=
  match ue_error envelope with
  | Some (UsageErrorDetail _ message error_description) => or_opt message error_description
  | Some (UsageErrorText text) => or_opt (ue_error_description envelope) (Some text)
  | None => ue_message envelope
  end.
Definition _extract_error_code (envelope : UsageErrorEnvelope) : option string :=
  match ue_error envelope with
  | Some (UsageErrorDetail (Some code) _ _) => none_if_empty (py_lower (py_strip code))
  | _ => None
  end.

(** A status with what pydantic reads of the body, as an error and as usage
    ([None] when it refuses it); no answer; or an exception of another kind. *)
Inductive usage_response :=
  | Answer (status : Z) (envelope : UsageErrorEnvelope) (payload : option UsagePayload)
  | NoAnswer (message : string)
  | Raises.

Inductive fetched := Fetched (payload : UsagePayload) | FetchFailed (e : UsageFetchError) | FetchRaised.

Definition fetch_usage (response : usage_response) : fetched :=
  match response with
  | Raises => FetchRaised
  | NoAnswer message => FetchFailed {| fe_status_code := 0; fe_message := ("Usage fetch failed: " ++ message)%string; fe_code := None |}
  | Answer status envelope payload =>
      if (400 <=? status)%Z
      then FetchFailed {| fe_status_code := status;
                          fe_message := or_s (_extract_error_message envelope) ("Usage fetch failed (" ++ show_Z status ++ ")");
                          fe_code := _extract_error_code envelope |}
      else match payload with
           | Some p => Fetched p
           | None => FetchFailed {| fe_status_code := 502; fe_message := "Invalid usage payload"; fe_code := None |}
           end
  end.

(** [base_url.rstrip("/")]. *)
Fixpoint rstrip_slashes (s : string) : string :=
  match s with
  | "" => ""
  | String c s => match rstrip_slashes s with "" => if Ascii.eqb c "/" then "" else String c "" | t => String c t end
  end.
Definition _usage_url (base_url : string) : string :=
  let normalized := rstrip_slashes base_url in
  let normalized := if contains "/backend-api" normalized then normalized else (normalized ++ "/backend-api")%string in
  (normalized ++ "/wham/usage")%string.

Definition _usage_headers (request_id : option string) (access_token : string) (account_id : option string) : dict string :=
  [("Authorization", ("Bearer " ++ access_token)%string); ("Accept", "application/json")]
  ++ match filled request_id with Some r => [("x-request-id", r)] | None => [] end
  ++ match filled account_id with
     | Some a => if String.prefix "email_" a || String.prefix "local_" a then [] else [("chatgpt-account-id", a)]
     | None => []
     end.

End UsageClient.

(** ** The updater *)
Module UsageUpdater.
Import UsageClient.

Record AccountRefreshResult := { usage_written : bool; fetch_succeeded : bool }.

Record _MergedAdditionalWindow := {
  mw_limit_name : string; mw_metered_feature : string; mw_used_percent : Q; mw_reset_at : option Z; mw_window_minutes : option Z }.

(** *** Windows *)

Definition _window_minutes (limit_seconds : option Z) : option Z :=
  match limit_seconds with
  | Some s => if (s <=? 0)%Z then None else Some (Z.max 1 (Qceiling (s # 60)))
  | None => None
  end.

Definition _reset_at (reset_at reset_after_seconds : option Z) (now_epoch : Z) : option Z :=
  match reset_at, reset_after_seconds with
  | Some at_, _ => Some at_
  | None, None => None
  | None, Some after => Some (now_epoch + Z.max 0 after)%Z
  end.

Definition _window_has_available_quota (w : UsageWindow) : bool := match uw_used_percent w with Some p => qlt p 100 | None => false end.
Definition _window_is_exhausted (w : UsageWindow) : bool := match uw_used_percent w with Some p => qle 100 p | None => false end.

Section Credits.
Context (float_of : string → option Q).
Definition _parse_credits_balance (value : option string) : option Q := match value with Some s => float_of (py_strip s) | None => None end.
Definition _credits_snapshot (p : UsagePayload) : option bool * option bool * option Q :=
  match up_credits p with
  | None => (None, None, None)
  | Some c => (has_credits c, unlimited c, _parse_credits_balance (balance c))
  end.
End Credits.

(** *** Additional limits *)

Definition names (w : _MergedAdditionalWindow) : string * string := (mw_limit_name w, mw_metered_feature w).

Definition _prefer_merged_additional_window (existing candidate : _MergedAdditionalWindow) : _MergedAdditionalWindow :=
  if qlt (mw_used_percent existing) (mw_used_percent candidate) then candidate
  else if qlt (mw_used_percent candidate) (mw_used_percent existing) then existing
  else if pylt (names candidate) (names existing) then candidate else existing.

Notation merged_windows := (dict (dict _MergedAdditionalWindow)).

Definition candidate_of (now_epoch : Z) (a : AdditionalRateLimitPayload) (w : UsageWindow) (used_percent : Q) : _MergedAdditionalWindow :=
  {| mw_limit_name := al_limit_name a; mw_metered_feature := al_metered_feature a; mw_used_percent := used_percent;
     mw_reset_at := _reset_at (uw_reset_at w) (uw_reset_after_seconds w) now_epoch; mw_window_minutes := _window_minutes (uw_limit_window_seconds w) |}.

Definition merge_window (quota_key window_name : string) (candidate : _MergedAdditionalWindow) (merged : merged_windows) : merged_windows :=
  let windows := default [] (dict_get merged quota_key) in
  dict_set merged quota_key
    (dict_set windows window_name
       (match dict_get windows window_name with
        | None => candidate
        | Some existing => _prefer_merged_additional_window existing candidate
        end)).

(** The windows an item offers, with their names. *)
Definition offered (now_epoch : Z) (a : AdditionalRateLimitPayload) : list (string * _MergedAdditionalWindow) :=
  match al_rate_limit a with
  | None => []
  | Some limits =>
      omap (λ p : string * option UsageWindow,
              match p.2 with
              | Some w => match uw_used_percent w with Some used => Some (p.1, candidate_of now_epoch a w used) | None => None end
              | None => None
              end) [("primary", primary_window limits); ("secondary", secondary_window limits)]
  end.

Definition limit_key (m : DefinitionMaps) (a : AdditionalRateLimitPayload) : option string :=
  canonicalize_additional_quota_key m None None (Some (al_limit_name a)) (Some (al_metered_feature a)).

Definition merge_item (m : DefinitionMaps) (now_epoch : Z) (merged : merged_windows) (a : AdditionalRateLimitPayload) : merged_windows :=
  match limit_key m a with
  | None => merged
  | Some quota_key => fold_left (λ merged p, merge_window quota_key p.1 p.2 merged) (offered now_epoch a) merged
  end.

Definition _merge_additional_rate_limits (m : DefinitionMaps) (now_epoch : Z) (items : list AdditionalRateLimitPayload) : merged_windows :=
  fold_left (merge_item m now_epoch) items [].

(** *** Freshness *)

Definition seconds_us (seconds : Z) : Z := (seconds * 1000000)%Z.

Definition _latest_usage_is_fresh (latest : option UsageHistory) (now interval_seconds : Z) : bool :=
  match latest with Some row => (now - wall_us (uh_recorded_at row) <? seconds_us interval_seconds)%Z | None => false end.

(** [recorded_at.timestamp()], a naive time being UTC. *)
Definition timestamp (d : datetime) : Q := (wall_us (to_utc_naive d) # 1000000)%Q.

Definition _quota_recovery_should_bypass_freshness (time : Q) (account : Account) (latest : option UsageHistory) : bool :=
  if negb (bool_decide (acc_status account = QUOTA_EXCEEDED)) then false
  else match acc_blocked_at account with
  | None => bool_decide (latest = None)
  | Some blocked_at =>
      let cooldown_expires_at := (inject_Z blocked_at + QUOTA_EXCEEDED_COOLDOWN_SECONDS)%Q in
      if qlt time cooldown_expires_at then false
      else match latest with None => true | Some row => qlt (timestamp (uh_recorded_at row)) cooldown_expires_at end
  end.

(** *** Errors *)

Definition _DEACTIVATING_USAGE_STATUS_CODES : list Z := [402; 404]%Z.
Definition _DEACTIVATING_USAGE_MESSAGE_HINTS : list string := ["your openai account has been deactivated"; "account has been deactivated"].

Definition _should_deactivate_for_usage_error (e : UsageFetchError) : bool :=
  existsb (Z.eqb (fe_status_code e)) _DEACTIVATING_USAGE_STATUS_CODES
  || match fe_code e with Some c => bool_decide (is_Some (dict_get PERMANENT_FAILURE_CODES c)) | None => false end
  || existsb (λ hint, contains hint (py_lower (fe_message e))) _DEACTIVATING_USAGE_MESSAGE_HINTS.

(** *** The memory of the process *)

(** The last successful refresh of an account, and until when it is left alone
    after a refusal. *)
Record memory := { last_successful_refresh : gmap string Z; auth_cooldowns : gmap string Q }.
Definition _clear_usage_refresh_state : memory := {| last_successful_refresh := ∅; auth_cooldowns := ∅ |}.

Definition _mark_usage_refresh_auth_cooldown (monotonic usage_refresh_auth_failure_cooldown_seconds : Q) (account_id : string) (status_code : Z)
    (mem : memory) : memory :=
  let cooldown_seconds := qmax 0 usage_refresh_auth_failure_cooldown_seconds in
  if negb ((status_code =? 401)%Z || (status_code =? 403)%Z) then mem
  else if qle cooldown_seconds 0 then mem
  else mem {{ auth_cooldowns := <[account_id := (monotonic + cooldown_seconds)%Q]> (auth_cooldowns mem) }}.

Definition _clear_usage_refresh_auth_cooldown (account_id : string) (mem : memory) : memory :=
  mem {{ auth_cooldowns := base.delete account_id (auth_cooldowns mem) }}.

Definition _is_usage_refresh_in_cooldown (monotonic : Q) (account_id : string) (mem : memory) : memory * bool :=
  match auth_cooldowns mem !! account_id with
  | None => (mem, false)
  | Some expires_at => if qlt monotonic expires_at then (mem, true) else (_clear_usage_refresh_auth_cooldown account_id mem, false)
  end.

Definition _prune_usage_refresh_auth_cooldowns (monotonic : Q) (mem : memory) : memory :=
  mem {{ auth_cooldowns := filter (λ p, qlt monotonic p.2 = true) (auth_cooldowns mem) }}.

Definition remember_success (account_id : string) (now : Z) (mem : memory) : memory :=
  mem {{ last_successful_refresh := <[account_id := now]> (last_successful_refresh mem) }}.

(** *** One account *)

(** The tables, the object of the caller, the object [account] stands for when it
    is another one, and the memory. *)
Record state := { st_db : AccountsRepo.Database; st_held : Account; st_other : option Account; st_mem : memory }.

Definition current (s : state) : Account := default (st_held s) (st_other s).
Definition modify (f : Account → Account) (s : state) : state :=
  match st_other s with None => s {{ st_held := f (st_held s) }} | Some a => s {{ st_other := Some (f a) }} end.
Definition with_accounts (f : list Account → list Account) (s : state) : state :=
  s {{ st_db := (st_db s) {{ AccountsRepo.accounts := f (AccountsRepo.accounts (st_db s)) }} }}.
Definition with_additional (rows : list AdditionalUsageHistory) (s : state) : state :=
  s {{ st_db := (st_db s) {{ AccountsRepo.additional_usage_history := rows }} }}.

(** A refresh ends with a value or with an exception nobody in it handles; the
    state is changed in both cases. *)
Definition proc (A : Type) := state → state * option A.
Definition ret {A} (x : A) : proc A := λ s, (s, Some x).
Definition raise {A} : proc A := λ s, (s, None).
Definition bind {A B} (c : proc A) (k : A → proc B) : proc B := λ s, match c s with (s, Some x) => k x s | (s, None) => (s, None) end.
Definition change (f : state → state) : proc unit := λ s, (f s, Some tt).
Definition read {A} (f : state → A) : proc A := λ s, (s, Some (f s)).
Notation "'do' x := c 'in' k" := (bind c (λ x, k)) (at level 10, x name, c at level 100, k at level 200) : py_scope.

Fixpoint each {A} (f : A → proc unit) (l : list A) : proc unit :=
  match l with [] => ret tt | x :: l => do _ := f x in each f l end.

Section Refresh.
Context (m : DefinitionMaps) (float_of : string → option Q).
Context (encrypt : string → string) (decrypt : string → option string) (sha256 : string → string) (claims : string → IdTokenClaims).
(** Which repositories the updater has, whether its account objects are attached
    to their session, and the settings it reads. *)
Context (accounts_repo additional_repo attached : bool) (auth_failure_cooldown_seconds : Q) (token_refresh_interval_days : Z).

(** What happens around one refresh.  The endpoint is asked once or twice; the
    rows of a table get ids, and the time they are written at is a function of
    the id. *)
Record world := {
  w_stale_time : Q; w_stale_utcnow : Z;
  w_fetch : bool → string → option string → AccountsRepo.Database → AccountsRepo.Database * usage_response;
  w_flight : flight; w_fresh_utcnow : Z; w_stored : bool; w_monotonic : Q;
  w_epoch : Z; w_recover_time : Q; w_recover_epoch : Z;
  w_usage_id : list UsageHistory → Z; w_additional_id : list AdditionalUsageHistory → Z; w_written_at : Z → Z }.
Context (w : world).

Definition failed_refresh : AccountRefreshResult := {| usage_written := false; fetch_succeeded := false |}.
Definition refreshed_with (written : bool) : AccountRefreshResult := {| usage_written := written; fetch_succeeded := true |}.

Definition ask (again : bool) (usage_account_id : option string) : proc fetched := λ s,
  match decrypt (access_token_encrypted (current s)) with
  | None => (s, None)
  | Some access_token =>
      let '(db, response) := w_fetch w again access_token usage_account_id (st_db s) in
      let s := s {{ st_db := db }} in
      match fetch_usage response with FetchRaised => (s, None) | r => (s, Some r) end
  end.

Definition _deactivate_for_client_error (e : UsageFetchError) : proc unit :=
  if negb accounts_repo then ret tt
  else
    let reason := ("Usage API error: HTTP " ++ show_Z (fe_status_code e) ++ " - " ++ fe_message e)%string in
    do account := read current in
    do _ := change (with_accounts (λ rows, (AccountsRepo.update_status (acc_id account) DEACTIVATED (Some reason) None None rows).1)) in
    change (modify (λ a, a {{ acc_status := DEACTIVATED; acc_deactivation_reason := Some reason }})).

Definition cool_down (status_code : Z) : proc unit :=
  do account := read current in
  change (λ s, s {{ st_mem := _mark_usage_refresh_auth_cooldown (w_monotonic w) auth_failure_cooldown_seconds (acc_id account) status_code (st_mem s) }}).

(** A failure that ends the refresh. *)
Definition fail_with (e : UsageFetchError) : proc (option UsagePayload) :=
  do _ := (if _should_deactivate_for_usage_error e then _deactivate_for_client_error e else cool_down (fe_status_code e)) in ret None.

(** New tokens: whether there are any. *)
Definition renew_tokens : proc bool := λ s,
  let account := current s in
  let r := ensure_fresh encrypt decrypt sha256 claims attached token_refresh_interval_days (w_fresh_utcnow w) true (w_stored w) (w_flight w) account
             (AccountsRepo.accounts (st_db s)) in
  let s := with_accounts (λ _, rf_rows r) (modify (λ _, rf_held r) s) in
  match rf_result r with
  | Ok Held => (s, Some true)
  | Ok (Loaded a) => (s {{ st_other := Some a }}, Some true)
  | Err (Refresh _) => (s, Some false)
  | Err _ => (s, None)
  end.

(** The payload, or nothing when the refresh is over. *)
Definition obtain_payload (usage_account_id : option string) : proc (option UsagePayload) :=
  do first := ask false usage_account_id in
  match first with
  | Fetched p => ret (Some p)
  | FetchRaised => raise
  | FetchFailed e =>
      if _should_deactivate_for_usage_error e || negb (fe_status_code e =? 401)%Z || negb accounts_repo then fail_with e
      else
        do renewed := renew_tokens in
        if negb renewed then (do _ := cool_down (fe_status_code e) in ret None)
        else
          do second := ask true usage_account_id in
          match second with
          | Fetched p => ret (Some p)
          | FetchRaised => raise
          | FetchFailed retry => fail_with retry
          end
  end.

Definition _sync_plan_type (p : UsagePayload) : proc unit :=
  do account := read current in
  let next_plan_type := coerce_account_plan_type (up_plan_type p) (or_s (Some (acc_plan_type account)) "free") in
  if String.eqb next_plan_type (acc_plan_type account) then ret tt
  else
    do _ := change (modify (λ a, a {{ acc_plan_type := next_plan_type }})) in
    if accounts_repo then change (λ s, with_accounts (store_tokens (current s)) s) else ret tt.

(** **** Additional limits *)

Definition lift {E} (r : res E (list AdditionalUsageHistory)) : proc unit := λ s,
  match r with Ok rows => (with_additional rows s, Some tt) | Err _ => (s, None) end.
Definition additional (s : state) : list AdditionalUsageHistory := AccountsRepo.additional_usage_history (st_db s).

Definition _add_additional_usage_entry (account_id quota_key window : string) (e : _MergedAdditionalWindow) : proc unit := λ s,
  let id := w_additional_id w (additional s) in
  lift (AdditionalUsageRepo.add_entry m id (w_written_at w id) account_id (mw_limit_name e) (mw_metered_feature e) window (mw_used_percent e)
          (mw_reset_at e) (mw_window_minutes e) None (Some quota_key) (additional s)) s.
Definition _list_additional_usage_quota_keys (account_id : string) (rows : list AdditionalUsageHistory) : list string :=
  AdditionalUsageRepo.list_quota_keys m (Some [account_id]) None rows.
Definition _delete_additional_usage_quota_key (account_id quota_key : string) : proc unit := λ s,
  lift (AdditionalUsageRepo.delete_for_account_and_quota_key m account_id quota_key (additional s)) s.
Definition _delete_additional_usage_quota_key_window (account_id quota_key window : string) : proc unit := λ s,
  lift (AdditionalUsageRepo.delete_for_account_quota_key_window m account_id quota_key window (additional s)) s.

(** The entries of the merged limits, in order. *)
Definition entries (merged : merged_windows) : list ((string * string) * _MergedAdditionalWindow) :=
  flat_map (λ p : string * dict _MergedAdditionalWindow, map (λ q, ((p.1, q.1), q.2)) p.2) merged.

(** What is stored under a key that the endpoint did not name, or for a window it
    did not, goes. *)
Definition drop_stale (account_id : string) (current_entries : list (string * string)) (key : string) : proc unit :=
  if negb (mem key (map fst current_entries)) then _delete_additional_usage_quota_key account_id key
  else each (λ window, if bool_decide ((key, window) ∈ current_entries) then ret tt
                       else _delete_additional_usage_quota_key_window account_id key window) ["primary"; "secondary"].

Definition sync_additional (p : UsagePayload) : proc unit :=
  if negb additional_repo then ret tt
  else match up_additional_rate_limits p with
  | None => ret tt
  | Some [] =>
      do account := read current in
      change (λ s, with_additional (AdditionalUsageRepo.delete_for_account (acc_id account) (additional s)) s)
  | Some items =>
      do account := read current in
      let merged := entries (_merge_additional_rate_limits m (w_epoch w) items) in
      do _ := each (λ e, _add_additional_usage_entry (acc_id account) e.1.1 e.1.2 e.2) merged in
      do existing := read (λ s, _list_additional_usage_quota_keys (acc_id account) (additional s)) in
      each (drop_stale (acc_id account) (map fst merged)) existing
  end.

(** **** Windows *)

Definition add_usage (window : string) (u : UsageWindow) (credits : option bool * option bool * option Q) : proc bool := λ s,
  match uw_used_percent u with
  | None => (s, Some false)
  | Some used =>
      let rows := AccountsRepo.usage_history (st_db s) in
      let id := w_usage_id w rows in
      let '(rows, _) := UsageRepo.add_entry id (w_written_at w id) (acc_id (current s)) used None None None (Some window)
                          (_reset_at (uw_reset_at u) (uw_reset_after_seconds u) (w_epoch w)) (_window_minutes (uw_limit_window_seconds u))
                          credits.1.1 credits.1.2 credits.2 rows in
      (s {{ st_db := (st_db s) {{ AccountsRepo.usage_history := rows }} }}, Some true)
  end.
Definition add_usage_opt (window : string) (u : option UsageWindow) (credits : option bool * option bool * option Q) : proc bool :=
  match u with Some u => add_usage window u credits | None => ret false end.

(** The columns [_sync_account_from_repo] copies. *)
Definition copy_account (stored a : Account) : Account :=
  a {{ chatgpt_account_id := chatgpt_account_id stored; email := email stored; acc_plan_type := acc_plan_type stored;
       access_token_encrypted := access_token_encrypted stored; refresh_token_encrypted := refresh_token_encrypted stored;
       id_token_encrypted := id_token_encrypted stored; last_refresh := last_refresh stored; acc_status := acc_status stored;
       acc_deactivation_reason := acc_deactivation_reason stored; acc_reset_at := acc_reset_at stored; acc_blocked_at := acc_blocked_at stored }}.

Definition _sync_account_from_repo (a : Account) (rows : list Account) : Account :=
  if negb accounts_repo then a
  else match load attached a rows with Some stored => copy_account stored a | None => a end.

(** What usage says about an account that is out of quota: the status and the
    reset time it gets. *)
Definition recovery_target (primary secondary : option UsageWindow) : option (AccountStatus * option Z) :=
  match secondary with
  | None => None
  | Some s =>
      if negb (_window_has_available_quota s) then None
      else match primary with
      | Some p => if _window_is_exhausted p
                  then Some (RATE_LIMITED, _reset_at (uw_reset_at p) (uw_reset_after_seconds p) (w_recover_epoch w))
                  else Some (ACTIVE, None)
      | None => Some (ACTIVE, None)
      end
  end.

Definition blocked_still (a : Account) : bool :=
  match acc_blocked_at a with Some b => qlt (w_recover_time w) (inject_Z b + QUOTA_EXCEEDED_COOLDOWN_SECONDS) | None => false end.

Definition _recover_quota_status_from_usage (primary secondary : option UsageWindow) : proc unit := λ s,
  let account := current s in
  if negb (bool_decide (acc_status account = QUOTA_EXCEEDED)) || negb accounts_repo || blocked_still account then (s, Some tt)
  else match recovery_target primary secondary with
  | None => (s, Some tt)
  | Some (status, reset) =>
      let '(rows, updated) :=
        AccountsRepo.update_status_if_current (acc_id account) status None reset (Some None)
          {| AccountsRepo.expected_status := QUOTA_EXCEEDED; AccountsRepo.expected_deactivation_reason := acc_deactivation_reason account;
             AccountsRepo.expected_reset_at := acc_reset_at account; AccountsRepo.expected_blocked_at := Some (acc_blocked_at account) |}
          (AccountsRepo.accounts (st_db s)) in
      let s := with_accounts (λ _, rows) s in
      (modify (λ a, if updated then a {{ acc_status := status; acc_deactivation_reason := None; acc_reset_at := reset; acc_blocked_at := None }}
                    else _sync_account_from_repo a rows) s, Some tt)
  end.

(** A weekly window in the place of the primary one is the secondary one. *)
Definition placed_windows (limits : RateLimitPayload) : option UsageWindow * option UsageWindow :=
  match primary_window limits with
  | Some p => if bool_decide (uw_limit_window_seconds p = Some 604800%Z) then (None, Some p) else (Some p, secondary_window limits)
  | None => (None, secondary_window limits)
  end.

Definition _refresh_account (usage_account_id : option string) : proc AccountRefreshResult :=
  do payload := obtain_payload usage_account_id in
  match payload with
  | None => ret failed_refresh
  | Some p =>
      do _ := _sync_plan_type p in
      do _ := sync_additional p in
      let additional_synced := additional_repo && bool_decide (is_Some (up_additional_rate_limits p)) in
      match up_rate_limit p with
      | None => ret (refreshed_with additional_synced)
      | Some limits =>
          match primary_window limits, secondary_window limits with
          | None, None => ret (refreshed_with additional_synced)
          | _, _ =>
              let '(primary, secondary) := placed_windows limits in
              do wrote_primary := add_usage_opt "primary" primary (_credits_snapshot float_of p) in
              do wrote_secondary := add_usage_opt "secondary" secondary (None, None, None) in
              do _ := _recover_quota_status_from_usage primary secondary in
              ret (refreshed_with (wrote_primary || wrote_secondary))
          end
      end
  end.

Definition _refresh_account_if_stale (usage_account_id : option string) (interval_seconds : Z) : proc AccountRefreshResult :=
  do latest := read (λ s, UsageRepo.latest_entry_for_account (acc_id (current s)) (Some "primary") (AccountsRepo.usage_history (st_db s))) in
  do bypass := read (λ s, _quota_recovery_should_bypass_freshness (w_stale_time w) (current s) latest) in
  if negb bypass && _latest_usage_is_fresh latest (w_stale_utcnow w) interval_seconds then ret (refreshed_with false)
  else _refresh_account usage_account_id.

End Refresh.

(** *** All accounts *)

(** The flight of an account: the updater's own task runs, or the task of another
    caller does, and gives its result. *)
Inductive account_flight :=
  | Runs (w : world)
  | Joins (others : AccountsRepo.Database * memory → AccountsRepo.Database * memory) (result : option AccountRefreshResult).

(** The readings of the clocks at an account's turn, and its flight. *)
Record turn := { t_monotonic : Q; t_time : Q; t_flight : account_flight }.

Section Pass.
Context (m : DefinitionMaps) (float_of : string → option Q).
Context (encrypt : string → string) (decrypt : string → option string) (sha256 : string → string) (claims : string → IdTokenClaims).
Context (accounts_repo additional_repo attached : bool) (auth_failure_cooldown_seconds : Q) (token_refresh_interval_days : Z).
Context (usage_refresh_enabled : bool) (interval : Z).

(** The tables, the memory, the account objects seen so far, the accounts whose
    refresh was called, and whether usage was written. *)
Record pass := {
  ps_db : AccountsRepo.Database; ps_mem : memory; ps_accounts : list Account; ps_asked : list string; ps_refreshed : bool }.

Definition within (now t : Z) : bool := (now - t <? seconds_us interval)%Z.

(** Whether an account without a usage row was refreshed lately: the memory first,
    then the additional rows, whose time the memory keeps. *)
Definition additional_fresh (now : Z) (id : string) (db : AccountsRepo.Database) (mem : memory) : memory * bool :=
  if match last_successful_refresh mem !! id with Some t => within now t | None => false end then (mem, true)
  else if negb additional_repo then (mem, false)
  else match AdditionalUsageRepo.latest_recorded_at_for_account id (AccountsRepo.additional_usage_history db) with
  | Some t => if within now t then (remember_success id t mem, true) else (mem, false)
  | None => (mem, false)
  end.

Definition fly_account (f : account_flight) (account : Account) (db : AccountsRepo.Database) (mem : memory) : state * option AccountRefreshResult :=
  match f with
  | Runs w => _refresh_account_if_stale m float_of encrypt decrypt sha256 claims accounts_repo additional_repo attached auth_failure_cooldown_seconds
                token_refresh_interval_days w (chatgpt_account_id account) interval
                {| st_db := db; st_held := account; st_other := None; st_mem := mem |}
  | Joins others result => let '(db, mem) := others (db, mem) in ({| st_db := db; st_held := account; st_other := None; st_mem := mem |}, result)
  end.

Definition refresh_one (now : Z) (latest_usage : gmap string UsageHistory) (turn_of : string → turn) (p : pass) (account : Account) : pass :=
  let id := acc_id account in
  let t := turn_of id in
  let skip mem := p {{ ps_mem := mem; ps_accounts := ps_accounts p ++ [account] }} in
  if bool_decide (acc_status account = DEACTIVATED) then skip (ps_mem p)
  else
    let '(mem, cooling) := _is_usage_refresh_in_cooldown (t_monotonic t) id (ps_mem p) in
    if cooling then skip mem
    else
      let latest := latest_usage !! id in
      let bypass := _quota_recovery_should_bypass_freshness (t_time t) account latest in
      if negb bypass && _latest_usage_is_fresh latest now interval then skip mem
      else
        let '(mem, fresh) := if bypass || bool_decide (is_Some latest) then (mem, false) else additional_fresh now id (ps_db p) mem in
        if fresh then skip mem
        else
          let '(s, result) := fly_account (t_flight t) account (ps_db p) mem in
          let done held mem written :=
            {| ps_db := st_db s; ps_mem := mem; ps_accounts := ps_accounts p ++ [held]; ps_asked := ps_asked p ++ [id];
               ps_refreshed := ps_refreshed p || written |} in
          match result with
          | None => done (st_held s) (st_mem s) false
          | Some r =>
              let held := _sync_account_from_repo accounts_repo attached (st_held s) (AccountsRepo.accounts (st_db s)) in
              done held (if fetch_succeeded r then _clear_usage_refresh_auth_cooldown id (remember_success id now (st_mem s)) else st_mem s)
                (usage_written r)
          end.

Definition refresh_accounts (now : Z) (monotonic : Q) (latest_usage : gmap string UsageHistory) (turn_of : string → turn)
    (accounts : list Account) (db : AccountsRepo.Database) (mem : memory) : pass :=
  if negb usage_refresh_enabled then {| ps_db := db; ps_mem := mem; ps_accounts := accounts; ps_asked := []; ps_refreshed := false |}
  else fold_left (refresh_one now latest_usage turn_of) accounts
         {| ps_db := db; ps_mem := _prune_usage_refresh_auth_cooldowns monotonic mem; ps_accounts := []; ps_asked := []; ps_refreshed := false |}.

(** One pass of the scheduler, by the instance that leads. *)
Definition _refresh_once (leads : bool) (d : UsageRepo.dialect) (now : Z) (monotonic : Q) (turn_of : string → turn) (db : AccountsRepo.Database)
    (mem : memory) : AccountsRepo.Database * memory :=
  if negb leads then (db, mem)
  else
    let latest_usage := UsageRepo.latest_by_account d (AccountsRepo.accounts db) (Some "primary") (AccountsRepo.usage_history db) in
    let p := refresh_accounts now monotonic latest_usage turn_of (AccountsRepo.list_accounts (AccountsRepo.accounts db)) db mem in
    (ps_db p, ps_mem p).

End Pass.

(** *** One flight per account *)
Module Flights.

Inductive task := Running | Ended | Cancelling.

Record flights := { inflight : gmap string nat; tasks : gmap nat (string * task); next : nat }.
Definition no_flights : flights := {| inflight := ∅; tasks := ∅; next := 0 |}.

Definition ended (n : nat) (f : flights) : bool := match tasks f !! n with Some (_, Ended) | None => true | _ => false end.

(** [run]: the task the caller waits for. *)
Definition run (account_id : string) (f : flights) : flights * nat :=
  let start := ({| inflight := <[account_id := next f]> (inflight f); tasks := <[next f := (account_id, Running)]> (tasks f); next := S (next f) |}, next f) in
  match inflight f !! account_id with
  | Some n => if ended n f then start else (f, n)
  | None => start
  end.

(** The end of a task. *)
Definition finish (n : nat) (f : flights) : flights :=
  match tasks f !! n with Some (a, _) => f {{ tasks := <[n := (a, Ended)]> (tasks f) }} | None => f end.

Definition _clear_if_current (account_id : string) (n : nat) (f : flights) : flights :=
  if bool_decide (inflight f !! account_id = Some n) then f {{ inflight := base.delete account_id (inflight f) }} else f.

Definition clear (f : flights) : flights := f {{ inflight := ∅ }}.

(** Every task in flight is told to stop, which it does at its next await. *)
Definition cancel_all (f : flights) : flights :=
  {| inflight := ∅; next := next f;
     tasks := map_imap (λ n p, Some (if bool_decide (inflight f !! p.1 = Some n) then (p.1, match p.2 with Ended => Ended | _ => Cancelling end) else p)) (tasks f) |}.

Inductive flight_step : flights → flights → Prop :=
| step_run a f : flight_step f (run a f).1
| step_finish n f : flight_step f (finish n f)
| step_clear a n f : tasks f !! n = Some (a, Ended) → flight_step f (_clear_if_current a n f)
| step_cancel f : flight_step f (cancel_all f).

End Flights.

End UsageUpdater.
