(* ===== verification/UsageRefreshFacts.v ===== *)
(** What the collection of usage promises: merged limits keep the highest usage,
    the stored limits mirror the endpoint's answer, an account out of quota comes
    back only when usage says so and nobody changed it meanwhile, an account is
    refreshed by one task at a time and left alone after a refusal, and a refresh
    touches the rows of its own account only. *)

From S2P Require Import Prelude Models Usage Balancer QuotaKeys Json Requests ProxyEvents Stores AccountAuth AccountAuthFacts UsageRefresh.
Import QuotaKeys.QuotaKeys AccountAuth.Tokens AccountAuth.Auth UsageRefresh.UsageClient UsageRefresh.UsageUpdater.

Module UsageRefreshFacts.

(** ** Merging *)

(** What an answer offers for a key and a window. *)
Definition offers (m : DefinitionMaps) (now_epoch : Z) (items : list AdditionalRateLimitPayload) : list ((string * string) * _MergedAdditionalWindow) :=
  flat_map (λ a, match limit_key m a with Some key => map (λ p, ((key, p.1), p.2)) (offered now_epoch a) | None => [] end) items.
Definition candidates (m : DefinitionMaps) (now_epoch : Z) (items : list AdditionalRateLimitPayload) (at_ : string * string) : list _MergedAdditionalWindow :=
  map snd (List.filter (λ o, bool_decide (o.1 = at_)) (offers m now_epoch items)).

Notation merged_windows := (dict (dict _MergedAdditionalWindow)).
Definition merged_at (merged : merged_windows) (at_ : string * string) : option _MergedAdditionalWindow :=
  dict_get (default [] (dict_get merged at_.1)) at_.2.

Definition merge_offer (merged : merged_windows) (o : (string * string) * _MergedAdditionalWindow) : merged_windows := merge_window o.1.1 o.1.2 o.2 merged.

Lemma merge_as_offers m now items merged : fold_left (merge_item m now) items merged = fold_left merge_offer (offers m now items) merged.
Proof.
  revert merged. induction items as [|a items IH]; intros merged; [done|]. simpl. rewrite fold_left_app, IH. f_equal. unfold merge_item.
  destruct (limit_key m a) as [key|]; [|done]. generalize (offered now a). intros l. revert merged. induction l as [|p l IHl]; intros merged; [done|]. simpl. apply IHl.
Qed.

(** Adding a candidate at a place. *)
Definition add_candidate (existing : option _MergedAdditionalWindow) (c : _MergedAdditionalWindow) : option _MergedAdditionalWindow :=
  Some (match existing with None => c | Some e => _prefer_merged_additional_window e c end).

Lemma merged_at_offer merged o at_ : merged_at (merge_offer merged o) at_ = if bool_decide (o.1 = at_) then add_candidate (merged_at merged at_) o.2 else merged_at merged at_.
Proof.
  destruct o as [[k w] c], at_ as [k' w']. unfold merged_at, merge_offer, merge_window. cbn [fst snd]. cbn zeta. rewrite dict_get_set.
  destruct (String.eqb_spec k' k) as [->|Hk]; cbn [default id]; [|by rewrite bool_decide_false by congruence].
  rewrite dict_get_set. destruct (String.eqb_spec w' w) as [->|Hw]; [|by rewrite bool_decide_false by congruence]. by rewrite bool_decide_true.
Qed.

Lemma merged_at_offers l merged at_ :
  merged_at (fold_left merge_offer l merged) at_ = fold_left add_candidate (map snd (List.filter (λ o, bool_decide (o.1 = at_)) l)) (merged_at merged at_).
Proof.
  revert merged. induction l as [|o l IH]; intros merged; [done|]. simpl. rewrite IH, merged_at_offer. by destruct (bool_decide (o.1 = at_)).
Qed.

(** [w] is at least as good as [c]: more usage, or as much and not a later name. *)
Definition at_least (w c : _MergedAdditionalWindow) : Prop :=
  (mw_used_percent c < mw_used_percent w)%Q ∨ ((mw_used_percent c == mw_used_percent w)%Q ∧ pylt (names c) (names w) = false).

Lemma at_least_refl w : at_least w w.
Proof. right. split; [lra|apply pylt_irrefl]. Qed.
Lemma at_least_trans u v w : at_least u v → at_least v w → at_least u w.
Proof.
  intros [H1|[H1 H1']] [H2|[H2 H2']]; [left; lra..|]. right. split; [lra|]. by eapply pylt_le_trans.
Qed.

Lemma prefer_spec e c : let w := _prefer_merged_additional_window e c in (w = e ∨ w = c) ∧ at_least w e ∧ at_least w c.
Proof.
  cbn zeta. unfold _prefer_merged_additional_window. destruct (qlt (mw_used_percent e) (mw_used_percent c)) eqn:E1.
  { pyb. split_and!; [by right|by left|apply at_least_refl]. }
  destruct (qlt (mw_used_percent c) (mw_used_percent e)) eqn:E2.
  { pyb. split_and!; [by left|apply at_least_refl|by left]. }
  pyb. destruct (pylt (names c) (names e)) eqn:E3.
  - split_and!; [by right|right; split; [lra|by apply pylt_asym]|apply at_least_refl].
  - split_and!; [by left|apply at_least_refl|right; split; [lra|done]].
Qed.

Lemma fold_candidates l existing w : fold_left add_candidate l existing = Some w →
  (existing = Some w ∨ w ∈ l) ∧ (∀ e, existing = Some e → at_least w e) ∧ ∀ c, c ∈ l → at_least w c.
Proof.
  revert existing. induction l as [|c l IH]; intros existing; simpl.
  { intros ->. split_and!; [by left|intros e [= ->]; apply at_least_refl|by intros c ?%elem_of_nil]. }
  intros (Hin & He & Hl)%IH. unfold add_candidate in Hin, He. remember (match existing with None => c | Some e => _prefer_merged_additional_window e c end) as w' eqn:Hdef.
  assert (at_least w w') as Hw by by apply He.
  destruct existing as [e|]; [pose proof (prefer_spec e c) as (Hor & Hle & Hlc); rewrite <- Hdef in Hor, Hle, Hlc|].
  - split_and!; [|by intros e' [= <-]; eapply at_least_trans|by intros c' [->|Hc]%elem_of_cons; [eapply at_least_trans|apply Hl]].
    destruct Hin as [[= Hww]|Hin]; [|right; by right]. destruct Hor as [E|E]; [left; congruence|right; apply elem_of_cons; left; congruence].
  - split_and!; [|done|by intros c' [->|Hc]%elem_of_cons; [rewrite <- Hdef|apply Hl]]. right. apply elem_of_cons.
    destruct Hin as [[= Hww]|Hin]; [left; congruence|by right].
Qed.

Lemma fold_candidates_none l existing : fold_left add_candidate l existing = None → existing = None ∧ l = [].
Proof. revert existing. induction l as [|c l IH]; intros existing; simpl; [done|]. by intros [[=] _]%IH. Qed.

(** However many names a limit goes by, what is kept for a key and a window is
    one of the samples the answer has for it, of the highest usage, and of those
    the one whose names come first; nothing is kept where the answer has none. *)
Theorem merge_keeps_highest m now_epoch items at_ :
  match merged_at (_merge_additional_rate_limits m now_epoch items) at_ with
  | Some w => w ∈ candidates m now_epoch items at_ ∧ ∀ c, c ∈ candidates m now_epoch items at_ → at_least w c
  | None => candidates m now_epoch items at_ = []
  end.
Proof.
  unfold _merge_additional_rate_limits. rewrite merge_as_offers, merged_at_offers. fold (candidates m now_epoch items at_).
  change (merged_at [] at_) with (@None _MergedAdditionalWindow).
  destruct (fold_left add_candidate (candidates m now_epoch items at_) None) as [w|] eqn:E.
  - apply fold_candidates in E as ([[=]|Hin] & _ & Hl). by split.
  - by apply fold_candidates_none in E as [_ ->].
Qed.

(** ** Flights *)

Definition flight_ok (f : Flights.flights) : Prop :=
  (∀ n, is_Some (Flights.tasks f !! n) → n < Flights.next f)
  ∧ ∀ n a, Flights.tasks f !! n = Some (a, Flights.Running) → Flights.inflight f !! a = Some n.

Lemma flight_start_ok a g : flight_ok g → (∀ m, Flights.tasks g !! m ≠ Some (a, Flights.Running)) →
  flight_ok {| Flights.inflight := <[a := Flights.next g]> (Flights.inflight g);
               Flights.tasks := <[Flights.next g := (a, Flights.Running)]> (Flights.tasks g); Flights.next := S (Flights.next g) |}.
Proof.
  intros [Hlt Hrun] Hno. split; simpl.
  - intros m [x [[<- _]|[_ Hm]]%lookup_insert_Some]; [lia|]. assert (m < Flights.next g) by (apply Hlt; by eexists). lia.
  - intros m b [[<- [= <-]]|[_ Hm]]%lookup_insert_Some; [by rewrite lookup_insert_eq|]. rewrite lookup_insert_ne; [by apply Hrun|]. intros <-. by apply (Hno m).
Qed.

Lemma flight_step_ok f f' : Flights.flight_step f f' → flight_ok f → flight_ok f'.
Proof.
  intros [a g|n g|a n g Hn|g] [Hlt Hrun].
  - unfold Flights.run. destruct (Flights.inflight g !! a) as [n|] eqn:En; [destruct (Flights.ended n g) eqn:He; [|by split]|];
      (apply flight_start_ok; [by split|]; intros m Hm; pose proof (Hrun _ _ Hm) as Hi; rewrite En in Hi); [|done].
    assert (n = m) as -> by congruence. unfold Flights.ended in He. by rewrite Hm in He.
  - unfold Flights.finish. destruct (Flights.tasks g !! n) as [[a t]|] eqn:En; [|by split]. split; simpl.
    + intros m [x [[<- _]|[_ Hm]]%lookup_insert_Some]; apply Hlt; by eexists.
    + intros m b [[_ [=]]|[_ Hm]]%lookup_insert_Some. by apply Hrun.
  - unfold Flights._clear_if_current. case_bool_decide as Ha; [|by split]. split; simpl; [done|]. intros m b Hm. rewrite lookup_delete_ne; [by apply Hrun|].
    intros <-. pose proof (Hrun _ _ Hm). assert (n = m) as -> by congruence. change (Flights.tasks g !! m = Some (a, Flights.Running)) in Hm. congruence.
  - unfold Flights.cancel_all. split; simpl.
    + intros m [x Hm]. rewrite map_lookup_imap in Hm. apply Hlt. destruct (Flights.tasks g !! m); [by eexists|done].
    + intros m b Hm. rewrite map_lookup_imap in Hm. destruct (Flights.tasks g !! m) as [[c t]|] eqn:E; [|done]. simpl in Hm. case_bool_decide as Hi.
      * by destruct t; injection Hm as [=].
      * injection Hm as [= -> ->]. by apply Hrun in E.
Qed.

Lemma flights_reachable_ok f : rtc Flights.flight_step Flights.no_flights f → flight_ok f.
Proof.
  intros H. assert (flight_ok Flights.no_flights) as H0 by (split; [by intros n [? [=]]|done]). revert H0. induction H as [|f g h Hs _ IH]; [done|].
  intros Hf. by eapply IH, flight_step_ok.
Qed.

(** However callers, ends of tasks, their clean-up and shutdowns follow each
    other, an account is being refreshed by at most one task that was not told to
    stop, and whoever asks meanwhile waits for that task. *)
Theorem one_refresh_per_account f n a : rtc Flights.flight_step Flights.no_flights f → Flights.tasks f !! n = Some (a, Flights.Running) →
  (∀ n', Flights.tasks f !! n' = Some (a, Flights.Running) → n' = n) ∧ Flights.run a f = (f, n).
Proof.
  intros [_ Hrun]%flights_reachable_ok Hn. pose proof (Hrun _ _ Hn) as Hi. split; [intros n' Hn'%Hrun; congruence|].
  unfold Flights.run, Flights.ended. by rewrite Hi, Hn.
Qed.

(** ** Procedures *)

(** A procedure keeps what is always so, and stays in a relation. *)
Section Keeps.
Context (P : state → Prop) (R : state → state → Prop) `{!PreOrder R}.

Definition keeps {A} (c : proc A) : Prop := ∀ s, P s → P (c s).1 ∧ R s (c s).1.

Lemma keeps_still {A} (c : proc A) : (∀ s, (c s).1 = s) → keeps c.
Proof. intros H s Hs. rewrite H. by split; [|reflexivity]. Qed.
Lemma keeps_bind {A B} (c : proc A) (k : A → proc B) : keeps c → (∀ x, keeps (k x)) → keeps (bind c k).
Proof.
  intros Hc Hk s Hs. destruct (Hc s Hs) as [HP HR]. unfold bind. destruct (c s) as [s' [x|]]; [|by split]. destruct (Hk x s' HP) as [HP' HR'].
  split; [done|]. simpl in HR. by etransitivity.
Qed.
(** What was read is so of a state. *)
Lemma keeps_read {A B} (f : state → A) (k : A → proc B) : (∀ s, P s → keeps (k (f s))) → keeps (bind (read f) k).
Proof. intros H s Hs. exact (H s Hs s Hs). Qed.
Lemma keeps_each {A} (f : A → proc unit) l : (∀ x, keeps (f x)) → keeps (each f l).
Proof. intros Hf. induction l as [|x l IH]; [by apply keeps_still|]. apply keeps_bind; [apply Hf|done]. Qed.
Lemma keeps_if {A} (b : bool) (c d : proc A) : keeps c → keeps d → keeps (if b then c else d).
Proof. by destruct b. Qed.

End Keeps.

(** ** What a refresh touches *)

Definition other_rows {A} (key : A → string) (id : string) (rows : list A) : list A := List.filter (λ r, negb (String.eqb (key r) id)) rows.

(** The tables are the same outside the rows of an account. *)
Record others_kept (id : string) (db db' : AccountsRepo.Database) : Prop := {
  ok_accounts : other_rows acc_id id (AccountsRepo.accounts db') = other_rows acc_id id (AccountsRepo.accounts db);
  ok_usage : other_rows uh_account_id id (AccountsRepo.usage_history db') = other_rows uh_account_id id (AccountsRepo.usage_history db);
  ok_additional : other_rows ah_account_id id (AccountsRepo.additional_usage_history db') = other_rows ah_account_id id (AccountsRepo.additional_usage_history db);
  ok_sticky : AccountsRepo.sticky_sessions db' = AccountsRepo.sticky_sessions db;
  ok_logs : AccountsRepo.request_logs db' = AccountsRepo.request_logs db }.

#[local] Instance others_kept_preorder id : PreOrder (others_kept id).
Proof. split; [by intros db; split|]. intros a b c [] []. split; congruence. Qed.

Lemma other_rows_update {A} (key : A → string) id (p : A → bool) f rows : (∀ r, p r = true → key r = id) → (∀ r, key (f r) = key r) →
  other_rows key id (update_where p f rows) = other_rows key id rows.
Proof.
  intros Hp Hf. unfold other_rows, update_where. induction rows as [|r rows IH]; [done|]. simpl. destruct (p r) eqn:E; rewrite ?Hf, IH; [|done].
  by rewrite (Hp r E), String.eqb_refl.
Qed.
Lemma rows_of_others_kept {A} (key : A → string) id (p : A → bool) rows : (∀ r, p r = true → key r = id) →
  other_rows key id (delete_where p rows) = other_rows key id rows.
Proof.
  intros Hp. unfold other_rows, delete_where. rewrite filter_conj. apply List.filter_ext. intros r. destruct (p r) eqn:E; [|by rewrite andb_true_r].
  by rewrite (Hp r E), String.eqb_refl.
Qed.
Lemma other_rows_add {A} (key : A → string) id rows r : key r = id → other_rows key id (rows ++ [r]) = other_rows key id rows.
Proof. intros Hr. unfold other_rows. rewrite List.filter_app. simpl. by rewrite Hr, String.eqb_refl, app_nil_r. Qed.

Lemma has_id_key id a : AccountsRepo.has_id id a = true → acc_id a = id.
Proof. by intros ?%String.eqb_eq. Qed.

Lemma store_tokens_others id a rows : acc_id a = id → other_rows acc_id id (store_tokens a rows) = other_rows acc_id id rows.
Proof.
  intros Ha. apply other_rows_update; [intros r Hr; by rewrite (has_id_key _ _ Hr)|]. intros r. by destruct (chatgpt_account_id a).
Qed.
Lemma update_status_others id status reason reset blocked rows :
  other_rows acc_id id (AccountsRepo.update_status id status reason reset blocked rows).1 = other_rows acc_id id rows.
Proof. apply other_rows_update; [by intros r ?%has_id_key|]. intros r. by destruct blocked. Qed.

(** *** Tokens *)

Section Tokens.
Context (encrypt : string → string) (decrypt : string → option string) (sha256 : string → string) (claims : string → IdTokenClaims) (attached : bool).
Context (D : list Account → list Account → Prop) `{!PreOrder D} (id : string).
(** A relation of tables that the changes of one account do not leave. *)
Context (D_own : ∀ rows rows', other_rows acc_id id rows' = other_rows acc_id id rows → D rows rows').

(** A flight does not leave it either, and gives an object of the account. *)
Definition calm_flight (fl : flight) : Prop :=
  match fl with
  | Own _ ex => ∀ token rows, D rows (ex token rows).1
  | Shared others result => (∀ rows, D rows (others rows)) ∧ match result with Ok a => acc_id a = id | Err _ => True end
  | Remembered _ => True
  end.

Definition calm_result (rows : list Account) (r : refreshed) : Prop :=
  D rows (rf_rows r) ∧ acc_id (rf_held r) = id ∧ match rf_result r with Ok (Loaded a) => acc_id a = id | _ => True end.

Lemma refresh_calm utcnow ex account rows : acc_id account = id → (∀ token rows, D rows (ex token rows).1) →
  calm_result rows (refresh_account encrypt decrypt sha256 claims attached utcnow ex account rows).
Proof.
  intros Ha Hex. unfold refresh_account, calm_result. destruct (decrypt (refresh_token_encrypted account)) as [token|]; [|by split_and!].
  destruct token as [|c token]; [by split_and!|]. unfold _refresh_tokens. pose proof (Hex (String c token) rows) as Hrows.
  destruct (ex (String c token) rows) as [rows' [response|]]; simpl in Hrows; [|by split_and!].
  destruct (refresh_access_token claims response) as [r|e]; simpl.
  - assert (acc_id (with_tokens encrypt utcnow r account) = id) as Hw by by rewrite AccountAuthFacts.with_tokens_id.
    split_and!; [|done|done]. etransitivity; [exact Hrows|]. apply D_own. by apply store_tokens_others.
  - destruct (re_is_permanent e); simpl; [|by split_and!].
    assert (calm_result rows (let '(rows0, account0) := deactivate (default (re_message e) (dict_get Logic.PERMANENT_FAILURE_CODES (re_code e))) account rows' in
      {| rf_rows := rows0; rf_held := account0; rf_result := Err (Refresh e) |})) as Hd.
    { unfold calm_result, deactivate. cbn [rf_rows rf_held rf_result]. split_and!; [|done|done]. etransitivity; [exact Hrows|]. apply D_own.
      rewrite Ha. apply update_status_others. }
    unfold load. destruct attached; [destruct (_refresh_token_material_changed _ _ _ _); [by split_and!|exact Hd]|].
    destruct (AccountsRepo.get_by_id (acc_id account) rows') as [latest|] eqn:El; [|exact Hd].
    destruct (_refresh_token_material_changed _ _ _ _); [|exact Hd]. split_and!; [done..|]. apply AccountAuthFacts.get_by_id_key in El. simpl. congruence.
Qed.

Lemma ensure_id_calm stored account rows : acc_id account = id →
  let r := _ensure_chatgpt_account_id decrypt claims stored account rows in acc_id r.1 = id ∧ D rows r.2.
Proof.
  intros Ha. cbn zeta. unfold _ensure_chatgpt_account_id. case_if; [by split|]. destruct (decrypt (id_token_encrypted account)); [|by split].
  destruct (ProxyErrors.filled _); [|by split]. split; [done|]. destruct stored; [|reflexivity]. apply D_own. by apply store_tokens_others.
Qed.

Lemma ensure_fresh_calm days utcnow force stored fl account rows : acc_id account = id → calm_flight fl →
  calm_result rows (ensure_fresh encrypt decrypt sha256 claims attached days utcnow force stored fl account rows).
Proof.
  intros Ha Hfl. unfold ensure_fresh. set (r := if force || _ then _ else _).
  assert (calm_result rows r) as (Hd & Hh & Hr).
  { unfold r. destruct (force || _); [|by split_and!]. destruct fl as [u ex|others result|e]; simpl in *; [by apply refresh_calm| |by split_and!].
    destruct Hfl as [Ho Hres]. split_and!; [apply Ho|done|]. by destruct result. }
  destruct (rf_result r) as [[|a]|e] eqn:E.
  - destruct (ensure_id_calm stored (rf_held r) (rf_rows r) Hh) as [H1 H2]. destruct (_ensure_chatgpt_account_id _ _ _ _ _) as [a rows']; simpl in *.
    split_and!; [by etransitivity|done|done].
  - destruct (ensure_id_calm stored a (rf_rows r) Hr) as [H1 H2]. destruct (_ensure_chatgpt_account_id _ _ _ _ _) as [a' rows']; simpl in *.
    split_and!; [by etransitivity|done|done].
  - split_and!; [done..|]. by rewrite E.
Qed.

End Tokens.

(** *** One account *)

Section OneAccount.
Context (m : DefinitionMaps) (float_of : string → option Q).
Context (encrypt : string → string) (decrypt : string → option string) (sha256 : string → string) (claims : string → IdTokenClaims).
Context (accounts_repo additional_repo attached : bool) (cooldown : Q) (days : Z).
Context (D : AccountsRepo.Database → AccountsRepo.Database → Prop) `{!PreOrder D} (id : string).
Context (D_own : ∀ db db', others_kept id db db' → D db db').

(** The relation for the accounts table alone. *)
Definition on_accounts (rows rows' : list Account) : Prop :=
  ∀ db, AccountsRepo.accounts db = rows → D db (db {{ AccountsRepo.accounts := rows' }}).

#[local] Instance on_accounts_preorder : PreOrder on_accounts.
Proof.
  split; [intros rows [] <-; simpl; reflexivity|]. intros a b c Hab Hbc db Hdb. etransitivity; [by apply Hab|].
  exact (Hbc (db {{ AccountsRepo.accounts := b }}) eq_refl).
Qed.

Lemma on_accounts_own rows rows' : other_rows acc_id id rows' = other_rows acc_id id rows → on_accounts rows rows'.
Proof. intros H db <-. apply D_own. by split. Qed.

(** The endpoint's answers and the flight stay in the relation. *)
Definition calm (w : world) : Prop :=
  (∀ again token account db, D db (w_fetch w again token account db).1) ∧ calm_flight on_accounts id (w_flight w).

Definition own (s : state) : Prop := acc_id (st_held s) = id ∧ acc_id (current s) = id.
Definition apart (s s' : state) : Prop :=
  D (st_db s) (st_db s') ∧ ∀ id', id' ≠ id → auth_cooldowns (st_mem s') !! id' = auth_cooldowns (st_mem s) !! id'.
#[local] Instance apart_preorder : PreOrder apart.
Proof.
  split; [intros s; split; [reflexivity|done]|]. intros a b c [H1 H2] [H3 H4]. split; [by etransitivity|]. intros i Hi. by rewrite H4, H2.
Qed.
Notation keep := (keeps own apart).

Lemma keep_db {A} (f : AccountsRepo.Database → AccountsRepo.Database) (x : option A) : (∀ db, D db (f db)) → keep (λ s, (s {{ st_db := f (st_db s) }}, x)).
Proof. intros Hf s Hs. by split; [|split; [apply Hf|]]. Qed.

Lemma keep_accounts f : (∀ rows, other_rows acc_id id (f rows) = other_rows acc_id id rows) → keep (change (with_accounts f)).
Proof. intros Hf s Hs. split; [done|]. split; [|done]. apply D_own. by split; [apply Hf|..]. Qed.

Lemma keep_modify f : (∀ a, acc_id (f a) = acc_id a) → keep (change (modify f)).
Proof.
  intros Hf [db held other mem] [Hh Hc]. unfold change, modify, own, apart, current in *. destruct other; simpl in *; by rewrite ?Hf.
Qed.

Context (w : world) (Hw : calm w).

Lemma keep_ask again account : keep (ask decrypt w again account).
Proof.
  intros s Hs. unfold ask. destruct (decrypt _) as [token|]; [|by split; [|reflexivity]].
  pose proof (proj1 Hw again token account (st_db s)) as Hd. destruct (w_fetch w again token account (st_db s)) as [db response].
  destruct (fetch_usage response); by (split; [|split]).
Qed.

Lemma keep_cool_down status : keep (cool_down cooldown w status).
Proof.
  unfold cool_down. apply keeps_read. intros s0 [_ Hc0] s Hs. split; [done|]. split; [reflexivity|]. intros id' Hne. rewrite Hc0. simpl.
  unfold _mark_usage_refresh_auth_cooldown. repeat case_if; simpl; rewrite ?lookup_insert_ne by done; done.
Qed.

Lemma keep_deactivate e : keep (_deactivate_for_client_error accounts_repo e).
Proof.
  unfold _deactivate_for_client_error. destruct accounts_repo; [|by apply keeps_still; [apply _|]]. apply keeps_read. intros s0 [_ Hc0].
  apply keeps_bind; [apply _|apply keep_accounts; intros rows; rewrite Hc0; apply update_status_others|]. intros _. by apply keep_modify.
Qed.

Lemma keep_fail_with e : keep (fail_with accounts_repo cooldown w e).
Proof.
  apply keeps_bind; [apply _|apply keeps_if; [apply keep_deactivate|apply keep_cool_down]|]. intros _. by apply keeps_still; [apply _|].
Qed.

Lemma keep_renew : keep (renew_tokens encrypt decrypt sha256 claims attached days w).
Proof.
  intros s [Hh Hc]. unfold renew_tokens.
  pose proof (ensure_fresh_calm encrypt decrypt sha256 claims attached on_accounts id on_accounts_own days (w_fresh_utcnow w) true (w_stored w) (w_flight w)
    (current s) (AccountsRepo.accounts (st_db s)) Hc (proj2 Hw)) as (Hd & Hh' & Hr).
  set (r := ensure_fresh _ _ _ _ _ _ _ _ _ _ _ _) in *.
  assert (own (with_accounts (λ _, rf_rows r) (modify (λ _, rf_held r) s)) ∧ apart s (with_accounts (λ _, rf_rows r) (modify (λ _, rf_held r) s))) as [H1 H2].
  { clearbody r. destruct s as [db held other mem]. unfold own, apart, modify, current in *. destruct other; simpl in *; (split; [done|]; split; [|done]); by apply Hd. }
  destruct (rf_result r) as [[|a]|[]] eqn:E; try done. split; [|exact H2]. split; [apply H1|done].
Qed.

Lemma keep_obtain account : keep (obtain_payload encrypt decrypt sha256 claims accounts_repo attached cooldown days w account).
Proof.
  apply keeps_bind; [apply _|apply keep_ask|]. intros [p|e|]; [by apply keeps_still; [apply _|]| |by apply keeps_still; [apply _|]].
  apply keeps_if; [apply keep_fail_with|]. apply keeps_bind; [apply _|apply keep_renew|]. intros renewed. apply keeps_if.
  - apply keeps_bind; [apply _|apply keep_cool_down|]. intros _. by apply keeps_still; [apply _|].
  - apply keeps_bind; [apply _|apply keep_ask|]. intros [p|e'|]; [by apply keeps_still; [apply _|]|apply keep_fail_with|by apply keeps_still; [apply _|]].
Qed.

Lemma keep_plan p : keep (_sync_plan_type accounts_repo p).
Proof.
  apply keeps_read. intros s0 _. apply keeps_if; [by apply keeps_still; [apply _|]|]. apply keeps_bind; [apply _|by apply keep_modify|]. intros _.
  apply keeps_if; [|by apply keeps_still; [apply _|]]. intros s [Hh Hc]. split; [done|]. split; [|done]. apply D_own. split; [|done..].
  simpl. by apply store_tokens_others.
Qed.

Lemma keep_lift {E} f : (∀ s rows, f s = @Ok E _ rows → other_rows ah_account_id id rows = other_rows ah_account_id id (additional s)) →
  keep (λ s, lift (f s) s).
Proof.
  intros Hf s Hs. unfold lift. destruct (f s) as [rows|] eqn:E'; [|by split; [|reflexivity]]. split; [done|]. split; [|done].
  apply D_own. split; [done|done| |done|done]. by apply (Hf s).
Qed.

Lemma keep_additional p : keep (sync_additional m additional_repo w p).
Proof.
  apply keeps_if; [by apply keeps_still; [apply _|]|]. destruct (up_additional_rate_limits p) as [[|item items]|]; [| |by apply keeps_still; [apply _|]].
  - apply keeps_read. intros s0 [_ H0] s Hs. split; [done|]. split; [|done]. apply D_own. split; [done|done| |done|done]. simpl. rewrite H0.
    apply rows_of_others_kept. by intros r ?%String.eqb_eq.
  - apply keeps_read. intros s0 [_ H0]. rewrite H0. apply keeps_bind; [apply _| |intros _; apply keeps_read; intros s1 _]; (apply keeps_each; [apply _|]).
    + intros e. apply keep_lift. intros s rows. unfold AdditionalUsageRepo.add_entry. destruct (AdditionalUsageRepo._resolve_additional_quota_key _ _ _ _); [|done].
      intros [= <-]. by apply other_rows_add.
    + intros key. assert (∀ p rows rows', rows' = delete_where (λ r, String.eqb (ah_account_id r) id && p r) rows →
        other_rows ah_account_id id rows' = other_rows ah_account_id id rows) as Hdel.
      { intros q rows rows' ->. apply rows_of_others_kept. by intros r [?%String.eqb_eq _]%andb_true_iff. }
      unfold drop_stale. apply keeps_if.
      * apply keep_lift. intros s rows. unfold AdditionalUsageRepo.delete_for_account_and_quota_key. destruct (AdditionalUsageRepo._resolve_additional_quota_query_scope _ _ _ _); [|done].
        intros [= <-]. by eapply Hdel.
      * apply keeps_each; [apply _|]. intros window. apply keeps_if; [by apply keeps_still; [apply _|]|]. apply keep_lift. intros s rows.
        unfold AdditionalUsageRepo.delete_for_account_quota_key_window. destruct (AdditionalUsageRepo._resolve_additional_quota_query_scope _ _ _ _); [|done].
        intros [= <-]. eapply (Hdel (λ r, _)). apply List.filter_ext. intros r. by rewrite andb_assoc.
Qed.

Lemma keep_add_usage window u credits : keep (add_usage_opt w window u credits).
Proof.
  destruct u as [u|]; [|by apply keeps_still; [apply _|]]. intros s [Hh Hc]. unfold add_usage_opt, add_usage.
  destruct (uw_used_percent u); [|by split; [|reflexivity]]. split; [done|]. split; [|done]. apply D_own. split; [done| |done..]. simpl. by apply other_rows_add.
Qed.

Lemma keep_recover primary secondary : keep (_recover_quota_status_from_usage accounts_repo attached w primary secondary).
Proof.
  intros s [Hh Hc]. unfold _recover_quota_status_from_usage. case_if; [by split; [|reflexivity]|].
  destruct (recovery_target w primary secondary) as [[status reset]|]; [|by split; [|reflexivity]].
  destruct (AccountsRepo.update_status_if_current _ _ _ _ _ _ _) as [rows updated] eqn:E.
  assert (other_rows acc_id id rows = other_rows acc_id id (AccountsRepo.accounts (st_db s))) as Hrows.
  { unfold AccountsRepo.update_status_if_current in E. injection E as <- _. apply other_rows_update; [|done].
    intros r Hr. unfold AccountsRepo.is_current in Hr. rewrite <- Hc. repeat apply andb_prop in Hr as [Hr _]. by apply has_id_key. }
  assert (own (with_accounts (λ _, rows) s) ∧ apart s (with_accounts (λ _, rows) s)) as [H1 H2].
  { split; [done|]. split; [|done]. apply D_own. by split. }
  destruct (keep_modify (λ a, if updated then a {{ acc_status := status; acc_deactivation_reason := None; acc_reset_at := reset; acc_blocked_at := None }}
                              else _sync_account_from_repo accounts_repo attached a rows)) with (s := with_accounts (λ _, rows) s) as [H3 H4]; [|done|].
  { intros a. destruct updated; [done|]. unfold _sync_account_from_repo. destruct accounts_repo; [|done]. simpl. by destruct (load attached a rows). }
  split; [exact H3|]. by etransitivity.
Qed.

Lemma keep_refresh account interval :
  keep (_refresh_account_if_stale m float_of encrypt decrypt sha256 claims accounts_repo additional_repo attached cooldown days w account interval).
Proof.
  apply keeps_read. intros s0 _. apply keeps_read. intros s1 _. apply keeps_if; [by apply keeps_still; [apply _|]|].
  apply keeps_bind; [apply _|apply keep_obtain|]. intros [p|]; [|by apply keeps_still; [apply _|]].
  apply keeps_bind; [apply _|apply keep_plan|]. intros _. apply keeps_bind; [apply _|apply keep_additional|]. intros _. cbn zeta.
  assert (keep (let '(primary, secondary) := default (None, None) (placed_windows <$> up_rate_limit p) in
    bind (add_usage_opt w "primary" primary (_credits_snapshot float_of p)) (λ wrote_primary,
    bind (add_usage_opt w "secondary" secondary (None, None, None)) (λ wrote_secondary,
    bind (_recover_quota_status_from_usage accounts_repo attached w primary secondary) (λ _, ret (refreshed_with (wrote_primary || wrote_secondary))))))) as Hrest.
  { destruct (default _ _) as [primary secondary]. apply keeps_bind; [apply _|apply keep_add_usage|]. intros b1.
    apply keeps_bind; [apply _|apply keep_add_usage|]. intros b2. apply keeps_bind; [apply _|apply keep_recover|]. intros _. by apply keeps_still; [apply _|]. }
  destruct (up_rate_limit p) as [limits|]; [|by apply keeps_still; [apply _|]]. simpl in Hrest.
  destruct (primary_window limits), (secondary_window limits); [exact Hrest..|by apply keeps_still; [apply _|]].
Qed.

End OneAccount.

(** *** Passes *)

Definition rows_of {A} (key : A → string) (x : string) (rows : list A) : list A := List.filter (λ r, String.eqb (key r) x) rows.

(** The rows of an account are the same. *)
Definition same_rows (x : string) (db db' : AccountsRepo.Database) : Prop :=
  rows_of acc_id x (AccountsRepo.accounts db') = rows_of acc_id x (AccountsRepo.accounts db)
  ∧ rows_of uh_account_id x (AccountsRepo.usage_history db') = rows_of uh_account_id x (AccountsRepo.usage_history db)
  ∧ rows_of ah_account_id x (AccountsRepo.additional_usage_history db') = rows_of ah_account_id x (AccountsRepo.additional_usage_history db).

#[local] Instance same_rows_preorder x : PreOrder (same_rows x).
Proof. split; [by intros db|]. intros a b c (H1 & H2 & H3) (H4 & H5 & H6). split_and!; congruence. Qed.

Lemma rows_of_others {A} (key : A → string) x id rows rows' : id ≠ x → other_rows key id rows' = other_rows key id rows → rows_of key x rows' = rows_of key x rows.
Proof.
  intros Hne H. assert (∀ l, rows_of key x l = rows_of key x (other_rows key id l)) as Hl; [|by rewrite Hl, H, <- Hl].
  intros l. unfold rows_of, other_rows. rewrite filter_conj. apply List.filter_ext. intros r. destruct (String.eqb_spec (key r) x) as [->|]; [|done].
  by rewrite (proj2 (String.eqb_neq _ _)).
Qed.

Lemma same_rows_own x id db db' : id ≠ x → others_kept id db db' → same_rows x db db'.
Proof. intros Hne [Ha Hu Hd _ _]. split_and!; by eapply rows_of_others. Qed.

Section Passes.
Context (m : DefinitionMaps) (float_of : string → option Q).
Context (encrypt : string → string) (decrypt : string → option string) (sha256 : string → string) (claims : string → IdTokenClaims).
Context (accounts_repo additional_repo attached : bool) (cooldown : Q) (days : Z) (enabled : bool) (interval : Z).
Notation one := (refresh_one m float_of encrypt decrypt sha256 claims accounts_repo additional_repo attached cooldown days interval).
Notation all := (refresh_accounts m float_of encrypt decrypt sha256 claims accounts_repo additional_repo attached cooldown days enabled interval).

(** What surrounds the flight of account [id] leaves account [x] alone. *)
Definition leaves_alone (x id : string) (f : account_flight) : Prop :=
  match f with
  | Runs w => calm (same_rows x) id w
  | Joins others _ => ∀ db mem, same_rows x db (others (db, mem)).1 ∧ auth_cooldowns (others (db, mem)).2 !! x = auth_cooldowns mem !! x
  end.

(** Nothing happened to an account. *)
Definition untouched (x : string) (p p' : pass) : Prop :=
  same_rows x (ps_db p) (ps_db p') ∧ auth_cooldowns (ps_mem p') !! x = auth_cooldowns (ps_mem p) !! x ∧ (x ∈ ps_asked p' → x ∈ ps_asked p).

Lemma is_cooling_other t id x mem : id ≠ x → auth_cooldowns (_is_usage_refresh_in_cooldown t id mem).1 !! x = auth_cooldowns mem !! x.
Proof.
  intros Hne. unfold _is_usage_refresh_in_cooldown. destruct (auth_cooldowns mem !! id) as [e|]; [|done]. destruct (qlt t e); [done|]. simpl.
  by rewrite lookup_delete_ne.
Qed.

Lemma additional_fresh_cooldowns now id db mem : auth_cooldowns (additional_fresh additional_repo interval now id db mem).1 = auth_cooldowns mem.
Proof. unfold additional_fresh. repeat case_if; try done. destruct (AdditionalUsageRepo.latest_recorded_at_for_account _ _); [|done]. by case_if. Qed.

Lemma fly_account_other x f account db mem : acc_id account ≠ x → leaves_alone x (acc_id account) f →
  let s := (fly_account m float_of encrypt decrypt sha256 claims accounts_repo additional_repo attached cooldown days interval f account db mem).1 in
  same_rows x db (st_db s) ∧ auth_cooldowns (st_mem s) !! x = auth_cooldowns mem !! x.
Proof.
  intros Hne Hf. destruct f as [w|others result]; simpl in Hf.
  - destruct (keep_refresh m float_of encrypt decrypt sha256 claims accounts_repo additional_repo attached cooldown days (same_rows x) (acc_id account)
      (λ db db', same_rows_own x (acc_id account) db db' Hne) w Hf (chatgpt_account_id account) interval
      {| st_db := db; st_held := account; st_other := None; st_mem := mem |}) as [_ [H1 H2]]; [done|]. split; [exact H1|]. by apply H2.
  - unfold fly_account. destruct (Hf db mem) as [H1 H2]. by destruct (others (db, mem)).
Qed.

(** The turn of another account. *)
Lemma one_other x now latest turn_of p account : acc_id account ≠ x → leaves_alone x (acc_id account) (t_flight (turn_of (acc_id account))) →
  untouched x p (one now latest turn_of p account).
Proof.
  intros Hne Hf. unfold refresh_one, untouched. case_if; [by split_and!|].
  pose proof (is_cooling_other (t_monotonic (turn_of (acc_id account))) (acc_id account) x (ps_mem p) Hne) as Hc.
  destruct (_is_usage_refresh_in_cooldown _ _ _) as [mem cooling]. simpl in Hc. case_if; [by split_and!|]. case_if; [by split_and!|].
  destruct (if _ || _ then (mem, false) else _) as [mem' fresh] eqn:Em.
  assert (auth_cooldowns mem' !! x = auth_cooldowns (ps_mem p) !! x) as Hc'.
  { rewrite <- Hc. case_if_in Em; [by injection Em as <- _|]. pose proof (additional_fresh_cooldowns now (acc_id account) (ps_db p) mem) as H. rewrite Em in H. by rewrite <- H. }
  case_if; [by split_and!|]. pose proof (fly_account_other x _ account (ps_db p) mem' Hne Hf) as [H1 H2].
  destruct (fly_account _ _ _ _ _ _ _ _ _ _ _ _ _ _ _ _) as [s [r|]]; simpl in *; (split_and!; [done| |intros [Hx|Hx%list_elem_of_singleton]%elem_of_app; congruence]); [|congruence].
  destruct s as [db held other [refreshes cooldowns]]. destruct (fetch_succeeded r); simpl in *; rewrite ?lookup_delete_ne by done; congruence.
Qed.

(** The turn of an account that is left alone. *)
Lemma one_cooling x e now latest turn_of p account : acc_id account = x → auth_cooldowns (ps_mem p) !! x = Some e → (t_monotonic (turn_of x) < e)%Q →
  untouched x p (one now latest turn_of p account).
Proof.
  intros Ha He Ht. unfold refresh_one, untouched. rewrite Ha. case_if; [by split_and!|]. unfold _is_usage_refresh_in_cooldown. rewrite He.
  rewrite (proj2 (qlt_true _ _) Ht). by split_and!.
Qed.

(** A pass of the updater, and passes one after the other, with the accounts
    that were refreshed. *)
Record pass_input := {
  pi_now : Z; pi_monotonic : Q; pi_latest : gmap string UsageHistory; pi_turn : string → turn; pi_accounts : list Account }.
Definition run_pass (i : pass_input) (p : pass) : pass :=
  let q := all (pi_now i) (pi_monotonic i) (pi_latest i) (pi_turn i) (pi_accounts i) (ps_db p) (ps_mem p) in
  q {{ ps_asked := ps_asked p ++ ps_asked q }}.
Definition run_passes (l : list pass_input) (p : pass) : pass := fold_left (λ p i, run_pass i p) l p.

(** The clocks are before [e], and other accounts' flights leave [x] alone. *)
Definition before (x : string) (e : Q) (i : pass_input) : Prop :=
  (pi_monotonic i < e)%Q ∧ (t_monotonic (pi_turn i x) < e)%Q
  ∧ ∀ account, account ∈ pi_accounts i → acc_id account ≠ x → leaves_alone x (acc_id account) (t_flight (pi_turn i (acc_id account))).

Lemma pass_untouched x e i db mem : before x e i → auth_cooldowns mem !! x = Some e →
  let q := all (pi_now i) (pi_monotonic i) (pi_latest i) (pi_turn i) (pi_accounts i) db mem in
  same_rows x db (ps_db q) ∧ auth_cooldowns (ps_mem q) !! x = Some e ∧ x ∉ ps_asked q.
Proof.
  intros (Hm & Ht & Hf) He. unfold refresh_accounts. case_if; [split_and!; [reflexivity|done|by apply not_elem_of_nil]|].
  set (p0 := Build_pass _ _ _ _ _). assert (auth_cooldowns (ps_mem p0) !! x = Some e) as H0.
  { simpl. apply map_lookup_filter_Some. split; [done|]. by apply qlt_true. }
  assert (∀ l p, l ⊆ pi_accounts i → auth_cooldowns (ps_mem p) !! x = Some e → untouched x p (fold_left (one (pi_now i) (pi_latest i) (pi_turn i)) l p)) as Hfold.
  { induction l as [|account l IH]; intros p Hl Hp; [by split_and!|]. simpl.
    assert (untouched x p (one (pi_now i) (pi_latest i) (pi_turn i) p account)) as (U1 & U2 & U3).
    { destruct (decide (acc_id account = x)) as [Ha|Ha]; [by eapply one_cooling|]. apply one_other; [done|]. apply Hf; [|done]. apply Hl. by left. }
    destruct (IH (one (pi_now i) (pi_latest i) (pi_turn i) p account)) as (V1 & V2 & V3); [intros a Hin; apply Hl; by right|congruence|].
    split_and!; [by etransitivity|congruence|auto]. }
  destruct (Hfold (pi_accounts i) p0) as (U1 & U2 & U3); [done|done|]. split_and!; [exact U1|congruence|]. intros Hx%U3. by apply elem_of_nil in Hx.
Qed.

Lemma passes_untouched x e l p : Forall (before x e) l → auth_cooldowns (ps_mem p) !! x = Some e →
  same_rows x (ps_db p) (ps_db (run_passes l p)) ∧ (x ∈ ps_asked (run_passes l p) → x ∈ ps_asked p).
Proof.
  intros Hl. revert p. induction Hl as [|i l Hi _ IH]; intros p Hp; [by split; [reflexivity|]|]. simpl.
  destruct (pass_untouched x e i (ps_db p) (ps_mem p) Hi Hp) as (H1 & H2 & H3). destruct (IH (run_pass i p) H2) as [H4 H5].
  split; [by etransitivity|]. intros Hx. apply H5, elem_of_app in Hx as [?|?]; done.
Qed.

(** An account whose usage the endpoint refuses is not asked about again, and its
    rows are not touched, until its time is over, whatever becomes of the other
    accounts in the passes meanwhile. *)
Theorem refused_account_left_alone w account_id s token db response e l : let x := acc_id (current s) in
  decrypt (access_token_encrypted (current s)) = Some token → w_fetch w false token account_id (st_db s) = (db, response) →
  fetch_usage response = FetchFailed e → fe_status_code e = 403%Z → _should_deactivate_for_usage_error e = false → (0 < cooldown)%Q →
  let refreshed := _refresh_account m float_of encrypt decrypt sha256 claims accounts_repo additional_repo attached cooldown days w account_id s in
  Forall (before x (w_monotonic w + cooldown)) l →
  let p := {| ps_db := st_db refreshed.1; ps_mem := st_mem refreshed.1; ps_accounts := []; ps_asked := []; ps_refreshed := false |} in
  refreshed.2 = Some failed_refresh ∧ x ∉ ps_asked (run_passes l p) ∧ same_rows x (st_db refreshed.1) (ps_db (run_passes l p)).
Proof.
  intros x Htoken Hfetch Hfailed Hstatus Hd Hcd refreshed Hl p.
  assert (qmax 0 cooldown = cooldown) as Hmax by (unfold qmax; by rewrite (proj2 (qlt_true 0 cooldown) Hcd)).
  assert (refreshed = (s {{ st_db := db; st_mem := (st_mem s) {{ auth_cooldowns := <[x := (w_monotonic w + cooldown)%Q]> (auth_cooldowns (st_mem s)) }} }},
                       Some failed_refresh)) as E.
  { unfold refreshed, _refresh_account, obtain_payload, ask, bind. rewrite Htoken, Hfetch, Hfailed. rewrite Hd, Hstatus. cbn [Z.eqb Pos.eqb negb orb].
    unfold fail_with, cool_down, bind, read, change, _mark_usage_refresh_auth_cooldown. rewrite Hd, Hstatus, Hmax. cbn [Z.eqb Pos.eqb negb orb].
    rewrite (proj2 (qle_false cooldown 0) Hcd). by destruct s as [db0 held other mem], mem. }
  destruct (passes_untouched x (w_monotonic w + cooldown) l p Hl) as [H1 H2].
  { unfold p. cbn [ps_mem]. rewrite E. simpl. by rewrite lookup_insert_eq. }
  split_and!; [by rewrite E| |exact H1]. intros Hx%H2. by apply elem_of_nil in Hx.
Qed.

End Passes.

(** ** Accounts out of quota *)

(** What becomes of an account out of quota: nothing while it is blocked; when its
    weekly window has room it is active, or limited by an exhausted short window. *)
Definition recovery (w : world) (account : Account) (primary secondary : option UsageWindow) : option (AccountStatus * option Z) :=
  if negb (bool_decide (acc_status account = QUOTA_EXCEEDED)) || blocked_still w account then None else recovery_target w primary secondary.

Definition used_up (u : option UsageWindow) : Prop := ∃ v p, u = Some v ∧ uw_used_percent v = Some p ∧ (100 <= p)%Q.
Definition has_room (u : option UsageWindow) : Prop := ∃ v p, u = Some v ∧ uw_used_percent v = Some p ∧ (p < 100)%Q.

Lemma recovery_meaning w account primary secondary status reset : recovery w account primary secondary = Some (status, reset) →
  acc_status account = QUOTA_EXCEEDED ∧ has_room secondary ∧ (status = RATE_LIMITED ∧ used_up primary ∨ status = ACTIVE ∧ reset = None ∧ ¬ used_up primary).
Proof.
  unfold recovery. destruct (_ || _) eqn:E; [done|]. apply orb_false_iff in E as [E _]. apply negb_false_iff, bool_decide_eq_true in E.
  unfold recovery_target. destruct secondary as [v|]; [|done]. unfold _window_has_available_quota. destruct (uw_used_percent v) as [q|] eqn:Ev; [|done].
  destruct (qlt q 100) eqn:Hq; [|done]. cbn [negb]. pyb. intros H. split_and!; [done|by exists v, q|].
  assert (∀ u, _window_is_exhausted u = true ↔ used_up (Some u)) as Hup.
  { intros u. unfold _window_is_exhausted. split.
    - destruct (uw_used_percent u) as [p'|] eqn:Eu; [|done]. intros ?%qle_true. by exists u, p'.
    - intros (u' & p' & [= <-] & -> & ?). by apply qle_true. }
  destruct primary as [u|]; [destruct (_window_is_exhausted u) eqn:Hu|]; injection H as <- <-.
  - left. split; [done|by apply Hup].
  - right. split_and!; [done..|]. rewrite <- Hup. by rewrite Hu.
  - right. split_and!; [done..|]. by intros (u & p' & [=] & _).
Qed.

(** C30. Usage brings an account out of quota back only when its weekly window has
    room again and its block is over, and only if the row is still the one that
    was read: a change that came in between stays.  No other account changes.
    Afterwards the object in memory agrees with the row, but for an object
    attached to the session whose row has changed: it is left as it was, since the
    session answers with the object itself. *)
Theorem recovery_no_lost_update attached w s primary secondary : NoDup (map acc_id (AccountsRepo.accounts (st_db s))) →
  let account := current s in
  let rows := AccountsRepo.accounts (st_db s) in
  let s' := (_recover_quota_status_from_usage true attached w primary secondary s).1 in
  let rows' := AccountsRepo.accounts (st_db s') in
  match recovery w account primary secondary with
  | None => s' = s
  | Some (status, reset) =>
      acc_status account = QUOTA_EXCEEDED ∧ blocked_still w account = false ∧ has_room secondary ∧
      (∀ k, k ≠ acc_id account → AccountsRepo.get_by_id k rows' = AccountsRepo.get_by_id k rows) ∧
      match AccountsRepo.get_by_id (acc_id account) rows with
      | None => rows' = rows
      | Some row =>
          if decide (StoreFacts.availability row = StoreFacts.availability account)
          then AccountsRepo.get_by_id (acc_id account) rows' = Some (AccountsRepo.status_values status None reset (Some None) row) ∧
               option_map StoreFacts.availability (AccountsRepo.get_by_id (acc_id account) rows') = Some (StoreFacts.availability (current s'))
          else rows' = rows ∧ (if attached then current s' = account else StoreFacts.availability (current s') = StoreFacts.availability row)
      end
  end.
Proof.
  intros Hnd account rows s' rows'. destruct (recovery w account primary secondary) as [[status reset]|] eqn:Hrec.
  - destruct (recovery_meaning _ _ _ _ _ _ Hrec) as (Hq & Hroom & _). revert s' rows'. unfold recovery in Hrec.
    destruct (_ || _) eqn:Ho in Hrec; [done|]. apply orb_false_iff in Ho as [Ho1 Ho2]. unfold _recover_quota_status_from_usage. fold account. rewrite Ho1, Ho2, Hrec.
    cbn [negb orb].
    assert ({| AccountsRepo.expected_status := QUOTA_EXCEEDED; AccountsRepo.expected_deactivation_reason := acc_deactivation_reason account;
      AccountsRepo.expected_reset_at := acc_reset_at account; AccountsRepo.expected_blocked_at := Some (acc_blocked_at account) |} = StoreFacts.expects account)
      as -> by (unfold StoreFacts.expects; by rewrite Hq).
    destruct (AccountsRepo.update_status_if_current _ _ _ _ _ _ _) as [rows1 updated] eqn:E.
    apply (StoreFacts.update_status_if_current_spec (acc_id account) account) in E as (_ & Hk & Hrow); [|done]. cbn [fst].
    set (s' := modify _ _). assert (AccountsRepo.accounts (st_db s') = rows1) as -> by (unfold s'; destruct s as [db held [a|] mem]; done).
    split_and!; [done|done|done|exact Hk|].
    fold rows in Hrow. destruct (AccountsRepo.get_by_id (acc_id account) rows) as [row|] eqn:Eg; [|by destruct Hrow].
    assert (current s' = (if updated then account {{ acc_status := status; acc_deactivation_reason := None; acc_reset_at := reset; acc_blocked_at := None }}
                          else _sync_account_from_repo true attached account rows1)) as Hcur by (unfold s', account; destruct s as [db held [a|] mem]; done).
    rewrite Hcur. destruct (decide _) as [Ha|Ha]; destruct Hrow as [-> H1]; (split; [done|]).
    + rewrite H1. by simpl.
    + rewrite H1. unfold _sync_account_from_repo, load. cbn [negb]. destruct attached; [by destruct account|by rewrite Eg].
  - unfold s'. unfold recovery in Hrec. unfold _recover_quota_status_from_usage. fold account. cbn [negb]. rewrite orb_false_r. destruct (_ || _); [done|]. by rewrite Hrec.
Qed.

(** ** Stored limits *)

Definition of_account (x : string) (r : AdditionalUsageHistory) : bool := String.eqb (ah_account_id r) x.

(** The names of an account's rows do not cross: a row is listed under its own
    key, and the scope of the key of one row holds another row exactly when it has
    the same key. *)
Definition tidy (m : DefinitionMaps) (x : string) (rows : list AdditionalUsageHistory) : Prop :=
  ∀ r, r ∈ rows → of_account x r = true →
    canonicalize_additional_quota_key m None (Some (quota_key r)) (Some (limit_name r)) (Some (metered_feature r)) = Some (quota_key r)
    ∧ ∃ scope, get_additional_quota_query_scope m (Some (quota_key r)) None None = Some scope
        ∧ ∀ r', r' ∈ rows → of_account x r' = true → AdditionalUsageRepo._additional_quota_match_clause scope r' = String.eqb (quota_key r') (quota_key r).

(** The row of a merged window. *)
Definition entry_row (x : string) (e : (string * string) * _MergedAdditionalWindow) (r : AdditionalUsageHistory) : Prop :=
  ah_account_id r = x ∧ quota_key r = e.1.1 ∧ ah_window r = e.1.2 ∧ limit_name r = mw_limit_name e.2 ∧ metered_feature r = mw_metered_feature e.2
  ∧ ah_used_percent r = mw_used_percent e.2 ∧ ah_reset_at r = mw_reset_at e.2 ∧ ah_window_minutes r = mw_window_minutes e.2.

(** Whether a row is for a key and a window the answer does not name. *)
Definition outdated (named : list (string * string)) (r : AdditionalUsageHistory) : bool :=
  negb (mem (quota_key r) (map fst named)) || (mem (ah_window r) ["primary"; "secondary"] && negb (bool_decide ((quota_key r, ah_window r) ∈ named))).

Section Stored.
Context (m : DefinitionMaps) (w : world) (x : string).

Lemma additional_with rows s : additional (with_additional rows s) = rows.
Proof. done. Qed.
Lemma with_additional_with rows rows' s : with_additional rows (with_additional rows' s) = with_additional rows s.
Proof. done. Qed.
Lemma with_additional_same s : with_additional (additional s) s = s.
Proof. by destruct s as [[] ? ? ?]. Qed.

Lemma adds_rows l s : (∀ e, e ∈ l → AdditionalUsageRepo._resolve_additional_quota_key m (Some e.1.1) (Some (mw_limit_name e.2)) (Some (mw_metered_feature e.2)) = Some e.1.1) →
  ∃ new, each (λ e, _add_additional_usage_entry m w x e.1.1 e.1.2 e.2) l s = (with_additional (additional s ++ new) s, Some tt) ∧ Forall2 (entry_row x) l new.
Proof.
  revert s. induction l as [|e l IH]; intros s Hl.
  { exists []. rewrite app_nil_r, with_additional_same. by split. }
  simpl. unfold bind at 1. unfold _add_additional_usage_entry at 1. unfold AdditionalUsageRepo.add_entry. rewrite (Hl e) by by left. unfold lift.
  set (row := Build_AdditionalUsageHistory _ _ _ _ _ _ _ _ _ _).
  destruct (IH (with_additional (additional s ++ [row]) s)) as (new & E & Hnew); [intros e' He'; apply Hl; by right|].
  exists (row :: new). split; [|by constructor]. rewrite E, additional_with, with_additional_with. by rewrite <- (assoc_L (++)).
Qed.

Context (rows1 : list AdditionalUsageHistory) (Htidy : tidy m x rows1) (named : list (string * string)).

(** The rows a key is responsible for. *)
Definition doomed (key : string) (r : AdditionalUsageHistory) : bool := of_account x r && String.eqb (quota_key r) key && outdated named r.

Lemma delete_where_ext {A} (p q : A → bool) rows : (∀ r, r ∈ rows → p r = q r) → delete_where p rows = delete_where q rows.
Proof.
  intros H. unfold delete_where. induction rows as [|r rows IH]; [done|]. simpl. rewrite (H r) by by left. rewrite IH; [done|]. intros r' Hr'. apply H. by right.
Qed.

Lemma delete_where_twice {A} (p q : A → bool) rows : delete_where p (delete_where q rows) = delete_where (λ r, p r || q r) rows.
Proof. unfold delete_where. rewrite filter_conj. apply List.filter_ext. intros r. by rewrite negb_orb. Qed.

Lemma delete_key_rows key r0 s : r0 ∈ rows1 → of_account x r0 = true → quota_key r0 = key → additional s ⊆ rows1 →
  (∀ window, _delete_additional_usage_quota_key_window m x key window s
     = (with_additional (delete_where (λ r, of_account x r && String.eqb (quota_key r) key && String.eqb (ah_window r) window) (additional s)) s, Some tt))
  ∧ _delete_additional_usage_quota_key m x key s = (with_additional (delete_where (λ r, of_account x r && String.eqb (quota_key r) key) (additional s)) s, Some tt).
Proof.
  intros Hr0 Hx <- Hs. destruct (Htidy r0 Hr0 Hx) as (_ & scope & Hscope & Hmatch).
  unfold _delete_additional_usage_quota_key_window, _delete_additional_usage_quota_key, AdditionalUsageRepo.delete_for_account_quota_key_window,
    AdditionalUsageRepo.delete_for_account_and_quota_key, AdditionalUsageRepo._resolve_additional_quota_query_scope. rewrite Hscope. cbn [lift].
  split; [intros window|]; do 2 f_equal; apply delete_where_ext; intros r Hr; fold (of_account x r); destruct (of_account x r) eqn:E; try done;
    cbn [andb]; by rewrite (Hmatch r (Hs r Hr) E).
Qed.

Lemma delete_where_none {A} (p : A → bool) rows : (∀ r, r ∈ rows → p r = false) → delete_where p rows = rows.
Proof.
  intros H. unfold delete_where. induction rows as [|r rows IH]; [done|]. simpl. rewrite (H r) by by left. simpl. rewrite IH; [done|]. intros r' Hr'. apply H. by right.
Qed.
Lemma delete_where_sub {A} (p : A → bool) rows : delete_where p rows ⊆ rows.
Proof. intros r Hr%list_elem_of_In. apply list_elem_of_In. by apply List.filter_In in Hr as [? _]. Qed.

(** The windows of a key the answer names. *)
Lemma drop_window_rows key window r0 s : r0 ∈ rows1 → of_account x r0 = true → quota_key r0 = key → additional s ⊆ rows1 →
  (if bool_decide ((key, window) ∈ named) then ret tt else _delete_additional_usage_quota_key_window m x key window) s
  = (with_additional (delete_where (λ r, of_account x r && String.eqb (quota_key r) key && (String.eqb (ah_window r) window && negb (bool_decide ((key, ah_window r) ∈ named))))
       (additional s)) s, Some tt).
Proof.
  intros Hr0 Hx Hkey Hs. case_bool_decide as Hn.
  - rewrite delete_where_none, with_additional_same; [done|]. intros r _. destruct (String.eqb_spec (ah_window r) window) as [->|]; [|by rewrite andb_false_r].
    rewrite bool_decide_true by done. by rewrite !andb_false_r.
  - rewrite (proj1 (delete_key_rows key r0 s Hr0 Hx Hkey Hs) window). do 2 f_equal. apply delete_where_ext. intros r _.
    destruct (String.eqb_spec (ah_window r) window) as [->|]; [|by rewrite !andb_false_r]. by rewrite bool_decide_false.
Qed.

Lemma drop_key_rows key r0 s : r0 ∈ rows1 → of_account x r0 = true → quota_key r0 = key → additional s ⊆ rows1 →
  drop_stale m x named key s = (with_additional (delete_where (doomed key) (additional s)) s, Some tt).
Proof.
  intros Hr0 Hx Hkey Hs. unfold drop_stale. destruct (mem key (map fst named)) eqn:Hm; cbn [negb].
  - cbn [each]. unfold bind. rewrite (drop_window_rows key "primary" r0 s Hr0 Hx Hkey Hs).
    rewrite (drop_window_rows key "secondary" r0); [|done..|by rewrite additional_with; etransitivity; [apply delete_where_sub|]].
    rewrite additional_with, with_additional_with, delete_where_twice. unfold ret. do 2 f_equal. apply delete_where_ext. intros r _. unfold doomed, outdated.
    destruct (of_account x r); [|done]. destruct (String.eqb_spec (quota_key r) key) as [->|]; [|done]. rewrite Hm. cbn [andb negb orb mem existsb].
    rewrite (String.eqb_sym (ah_window r) "primary"), (String.eqb_sym (ah_window r) "secondary").
    by destruct (String.eqb "primary" (ah_window r)), (String.eqb "secondary" (ah_window r)), (bool_decide _).
  - rewrite (proj2 (delete_key_rows key r0 s Hr0 Hx Hkey Hs)). do 2 f_equal. apply delete_where_ext. intros r _. unfold doomed, outdated.
    destruct (String.eqb_spec (quota_key r) key) as [->|]; [|by rewrite !andb_false_r]. rewrite Hm. by rewrite !andb_true_r.
Qed.

Lemma drop_keys_rows keys s : (∀ key, key ∈ keys → ∃ r0, r0 ∈ rows1 ∧ of_account x r0 = true ∧ quota_key r0 = key) → additional s ⊆ rows1 →
  each (drop_stale m x named) keys s = (with_additional (delete_where (λ r, existsb (λ key, doomed key r) keys) (additional s)) s, Some tt).
Proof.
  revert s. induction keys as [|key keys IH]; intros s Hk Hs.
  { rewrite delete_where_none by done. by rewrite with_additional_same. }
  destruct (Hk key) as (r0 & Hr0 & Hx & Hkey); [by left|]. cbn [each]. unfold bind. rewrite (drop_key_rows key r0 s Hr0 Hx Hkey Hs).
  rewrite IH; [|intros key' Hkey'; apply Hk; by right|by rewrite additional_with; etransitivity; [apply delete_where_sub|]].
  rewrite additional_with, with_additional_with, delete_where_twice. do 2 f_equal. apply delete_where_ext. intros r _. cbn [existsb]. apply orb_comm.
Qed.

Lemma listed_keys key : key ∈ _list_additional_usage_quota_keys m x rows1 ↔ ∃ r, r ∈ rows1 ∧ of_account x r = true ∧ quota_key r = key.
Proof.
  unfold _list_additional_usage_quota_keys, AdditionalUsageRepo.list_quota_keys. rewrite order_by_elem, elem_of_elements, elem_of_list_to_set, list_elem_of_omap. split.
  - intros (r & Hr & Hc). apply list_elem_of_In, List.filter_In in Hr as [Hr%list_elem_of_In Hx]. cbn [mem existsb] in Hx. rewrite orb_false_r, andb_true_r in Hx.
    fold (of_account x r) in Hx. destruct (Htidy r Hr Hx) as [Hkey _]. exists r. split_and!; [done..|]. congruence.
  - intros (r & Hr & Hx & <-). exists r. split; [|by apply Htidy]. apply list_elem_of_In, List.filter_In. split; [by apply list_elem_of_In|].
    cbn [mem existsb]. by rewrite orb_false_r, andb_true_r.
Qed.

End Stored.

(** C31. After a refresh whose answer has additional limits, the rows of the account
    are those that were there and one for each merged window, less all that are
    for a key or a window the answer does not name; nothing is raised and the
    rows of other accounts are the same (as long as the names of the account's
    rows do not cross). *)
Theorem stored_limits_mirror_answer m w p item items s : up_additional_rate_limits p = Some (item :: items) →
  let x := acc_id (current s) in
  let merged := entries (_merge_additional_rate_limits m (w_epoch w) (item :: items)) in
  (∀ e, e ∈ merged → AdditionalUsageRepo._resolve_additional_quota_key m (Some e.1.1) (Some (mw_limit_name e.2)) (Some (mw_metered_feature e.2)) = Some e.1.1) →
  (∀ new, Forall2 (entry_row x) merged new → tidy m x (additional s ++ new)) →
  ∃ new, Forall2 (entry_row x) merged new
    ∧ sync_additional m true w p s = (with_additional (delete_where (λ r, of_account x r && outdated (map fst merged) r) (additional s ++ new)) s, Some tt)
    ∧ new ⊆ delete_where (λ r, of_account x r && outdated (map fst merged) r) (additional s ++ new).
Proof.
  intros Hp x merged Hres Htidy. destruct (adds_rows m w x merged s Hres) as (new & E & Hnew). exists new. split_and!; [done| |].
  - unfold sync_additional. cbn [negb]. rewrite Hp. unfold bind, read. fold x merged. rewrite E, additional_with.
    set (rows1 := additional s ++ new). assert (tidy m x rows1) as Ht by by apply Htidy.
    rewrite (drop_keys_rows m x rows1 Ht (map fst merged)); [|intros key; by apply (listed_keys m x rows1 Ht)|done].
    rewrite additional_with, with_additional_with. do 2 f_equal. apply delete_where_ext. intros r Hr. unfold doomed.
    destruct (of_account x r) eqn:Ex; [|by induction (_list_additional_usage_quota_keys m x rows1)]. cbn [andb].
    destruct (outdated (map fst merged) r) eqn:Eo.
    + apply existsb_exists. exists (quota_key r). split; [|by rewrite String.eqb_refl]. apply list_elem_of_In, (listed_keys m x rows1 Ht). by exists r.
    + apply not_true_iff_false. intros (key & _ & Hk)%existsb_exists. by rewrite andb_false_r in Hk.
  - intros r Hr. apply list_elem_of_In, List.filter_In. split; [apply list_elem_of_In, elem_of_app; by right|].
    apply list_elem_of_lookup in Hr as [i Hi]. destruct (Forall2_lookup_r _ _ _ _ _ Hnew Hi) as (e & He%list_elem_of_lookup_2 & (_ & Hk & Hw & _)). unfold outdated. rewrite Hk, Hw.
    assert ((e.1.1, e.1.2) ∈ map fst merged) as Hin by (rewrite <- surjective_pairing; by apply list_elem_of_fmap_2).
    rewrite bool_decide_true by done. rewrite andb_false_r, orb_false_r. rewrite negb_andb, negb_involutive. apply orb_true_iff. right.
    apply existsb_exists. exists e.1.1. split; [|apply String.eqb_refl]. apply list_elem_of_In. change e.1.1 with (fst (e.1.1, e.1.2)). by apply list_elem_of_fmap_2.
Qed.

(** ** Samples *)

Definition sample_db (rows : list AdditionalUsageHistory) : AccountsRepo.Database :=
  {| AccountsRepo.accounts := [AccountAuthFacts.sample_account]; AccountsRepo.usage_history := []; AccountsRepo.additional_usage_history := rows;
     AccountsRepo.sticky_sessions := []; AccountsRepo.request_logs := [] |}.
Definition sample_state (rows : list AdditionalUsageHistory) : state :=
  {| st_db := sample_db rows; st_held := AccountAuthFacts.sample_account; st_other := None; st_mem := _clear_usage_refresh_state |}.
Definition sample_world (response : usage_response) : world :=
  {| w_stale_time := 0; w_stale_utcnow := 0; w_fetch := λ _ _ _ db, (db, response); w_flight := Remembered AccountAuthFacts.reused; w_fresh_utcnow := 0;
     w_stored := true; w_monotonic := 10; w_epoch := 0; w_recover_time := 1000; w_recover_epoch := 1000; w_usage_id := λ l, Z.of_nat (length l);
     w_additional_id := λ l, Z.of_nat (length l); w_written_at := λ id, id |}.
Definition at_percent (p : Q) : UsageWindow :=
  {| uw_used_percent := Some p; uw_reset_at := None; uw_limit_window_seconds := None; uw_reset_after_seconds := Some 60%Z |}.
Definition limit_item (limit feature : string) (p : Q) : AdditionalRateLimitPayload :=
  {| al_limit_name := limit; al_metered_feature := feature; al_rate_limit := Some {| primary_window := Some (at_percent p); secondary_window := None |} |}.
Definition limits_payload (items : list AdditionalRateLimitPayload) : UsagePayload :=
  {| up_plan_type := None; up_rate_limit := None; up_credits := None; up_additional_rate_limits := Some items |}.
Definition limit_row (key limit feature window : string) : AdditionalUsageHistory :=
  {| ah_id := 0; ah_account_id := "a"; quota_key := key; limit_name := limit; metered_feature := feature; ah_window := window; ah_used_percent := 1;
     ah_reset_at := None; ah_window_minutes := None; ah_recorded_at := {| wall_us := 0; utc_offset_us := None |} |}.

(** Rows that go by their own key, without a registry. *)
Lemma plain_rows_tidy x rows : Forall (λ r, _normalize_identifier (Some (quota_key r)) = Some (quota_key r)
    ∧ _normalize_identifier (Some (limit_name r)) = Some (quota_key r)) rows → tidy empty_maps x rows.
Proof.
  intros Hall r Hr Hx. rewrite Forall_forall in Hall. destruct (Hall r Hr) as [Hk Hl].
  assert (∀ o, resolve ∅ o = None) as Hnone by (intros o; unfold resolve; by destruct (_normalize_identifier o)).
  assert (∀ q l f, canonicalize_additional_quota_key empty_maps None q l f = first_some (_normalize_identifier l) (first_some (_normalize_identifier f) (_normalize_identifier q))) as Hc.
  { intros q l f. unfold canonicalize_additional_quota_key. simpl. by rewrite !Hnone. }
  split; [by rewrite Hc, Hl|]. unfold get_additional_quota_query_scope. cbn [first_some]. rewrite Hc, Hk. cbn [first_some].
  unfold get_additional_quota_definition. rewrite Hc. change (_normalize_identifier None) with (@None string). cbn [first_some]. rewrite Hk.
  cbn [by_quota_key empty_maps]. rewrite lookup_empty. eexists. split; [done|].
  intros r' Hr' Hx'. unfold AdditionalUsageRepo._additional_quota_match_clause. cbn [quota_key_match_values limit_name_match_values metered_feature_match_values scope_quota_key].
  rewrite (bool_decide_false (({[quota_key r]} : gset string) = ∅)) by set_solver. rewrite !(bool_decide_false (_ ∈ ∅)) by set_solver. rewrite !orb_false_r.
  destruct (String.eqb_spec (quota_key r') (quota_key r)) as [->|Hne]; [apply bool_decide_eq_true|apply bool_decide_eq_false]; set_solver.
Qed.

Lemma merged_sample : entries (_merge_additional_rate_limits empty_maps (w_epoch (sample_world Raises)) [limit_item "codex" "f" 50])
  = [(("codex", "primary"), candidate_of 0 (limit_item "codex" "f" 50) (at_percent 50) 50)].
Proof. by vm_compute. Qed.

Definition two_old_rows : list AdditionalUsageHistory := [limit_row "old" "old" "f" "primary"; limit_row "codex" "codex" "f" "secondary"].

Lemma stored_limits_mirror_answer_witness : ∃ new,
  Forall2 (entry_row "a") (entries (_merge_additional_rate_limits empty_maps 0 [limit_item "codex" "f" 50])) new
  ∧ sync_additional empty_maps true (sample_world Raises) (limits_payload [limit_item "codex" "f" 50]) (sample_state two_old_rows)
    = (with_additional (delete_where (λ r, of_account "a" r && outdated [("codex", "primary")] r) (two_old_rows ++ new)) (sample_state two_old_rows), Some tt).
Proof.
  edestruct (stored_limits_mirror_answer empty_maps (sample_world Raises) (limits_payload [limit_item "codex" "f" 50]) (limit_item "codex" "f" 50) []
    (sample_state two_old_rows)) as (new & Hnew & E & _); [reflexivity| | |exists new; split; [exact Hnew|exact E]].
  - intros e [->|[]%elem_of_nil]%elem_of_cons. by vm_compute.
  - intros new Hnew. apply plain_rows_tidy. apply Forall_app. split; [by repeat constructor|].
    rewrite merged_sample in Hnew. inversion Hnew as [|e r l l' (_ & Hk & _ & Hl & _) Hnil]; subst. inversion Hnil; subst. constructor; [|constructor].
    cbn in Hk, Hl. rewrite Hk, Hl. by vm_compute.
Defined.

(** A limit whose two names belong to different keys: the row that was just
    written is deleted with the rows of the other key. *)
Definition alias_entry (key : string) (limits features : list string) : AdditionalQuotaRegistryEntry :=
  {| entry_quota_key := Some key; entry_display_label := Some key; entry_model_ids := []; entry_quota_key_aliases := []; entry_limit_name_aliases := limits;
     entry_metered_feature_aliases := features |}.
Definition crossed_maps : DefinitionMaps :=
  match _definitions_for_path [alias_entry "a" ["a_limit"] []; alias_entry "b" [] ["b_feature"]] with
  | Ok ds => match _definition_maps_for_path ds with Ok maps => maps | Err _ => empty_maps end
  | Err _ => empty_maps
  end.

Lemma crossed_names_lose_row :
  entries (_merge_additional_rate_limits crossed_maps 0 [limit_item "a_limit" "b_feature" 50])
    = [(("a", "primary"), candidate_of 0 (limit_item "a_limit" "b_feature" 50) (at_percent 50) 50)]
  ∧ sync_additional crossed_maps true (sample_world Raises) (limits_payload [limit_item "a_limit" "b_feature" 50]) (sample_state [limit_row "b" "other" "b_feature" "primary"])
    = (sample_state [], Some tt).
Proof. split; by vm_compute. Qed.

Lemma one_refresh_per_account_witness : Flights.run "a" (Flights.run "a" Flights.no_flights).1 = ((Flights.run "a" Flights.no_flights).1, 0).
Proof.
  apply (one_refresh_per_account (Flights.run "a" Flights.no_flights).1 0 "a"); [apply rtc_once, Flights.step_run|by vm_compute].
Defined.

Definition out_of_quota : Account :=
  AccountAuthFacts.sample_account {{ acc_status := QUOTA_EXCEEDED; acc_reset_at := Some 900%Z; acc_blocked_at := Some 500%Z }}.
Definition quota_state (row : Account) : state :=
  {| st_db := (sample_db []) {{ AccountsRepo.accounts := [row] }}; st_held := out_of_quota; st_other := None; st_mem := _clear_usage_refresh_state |}.

Lemma recovery_no_lost_update_witness :
  let paused := out_of_quota {{ acc_status := PAUSED }} in
  let s' attached := (_recover_quota_status_from_usage true attached (sample_world Raises) (Some (at_percent 10)) (Some (at_percent 20)) (quota_state paused)).1 in
  AccountsRepo.accounts (st_db (s' false)) = [paused] ∧ StoreFacts.availability (current (s' false)) = StoreFacts.availability paused ∧
  AccountsRepo.accounts (st_db (s' true)) = [paused] ∧ current (s' true) = out_of_quota.
Proof.
  pose proof (λ attached, recovery_no_lost_update attached (sample_world Raises) (quota_state (out_of_quota {{ acc_status := PAUSED }})) (Some (at_percent 10))
    (Some (at_percent 20)) ltac:(apply NoDup_singleton)) as H. cbv zeta in H.
  destruct (H false) as (_ & _ & _ & _ & H1 & H2), (H true) as (_ & _ & _ & _ & H3 & H4). split_and!; [exact H1|exact H2|exact H3|exact H4].
Defined.

Definition refusal : usage_response := Answer 403 {| ue_error := None; ue_error_description := None; ue_message := None |} None.
Definition next_pass (t : Q) : pass_input :=
  {| pi_now := 0; pi_monotonic := t; pi_latest := ∅; pi_turn := λ _, {| t_monotonic := t; t_time := 0; t_flight := Runs (sample_world refusal) |};
     pi_accounts := [AccountAuthFacts.sample_account] |}.

Lemma refused_account_left_alone_witness :
  let refreshed := _refresh_account empty_maps (λ _, None) AccountAuthFacts.seal AccountAuthFacts.unseal id AccountAuthFacts.no_claims true true false 60 8 (sample_world refusal) None (sample_state []) in
  let p := {| ps_db := st_db refreshed.1; ps_mem := st_mem refreshed.1; ps_accounts := []; ps_asked := []; ps_refreshed := false |} in
  refreshed.2 = Some failed_refresh
  ∧ "a" ∉ ps_asked (run_passes empty_maps (λ _, None) AccountAuthFacts.seal AccountAuthFacts.unseal id AccountAuthFacts.no_claims true true false 60 8 true 300 [next_pass 20; next_pass 65] p).
Proof.
  edestruct (refused_account_left_alone empty_maps (λ _, None) AccountAuthFacts.seal AccountAuthFacts.unseal id AccountAuthFacts.no_claims true true false 60 8 true 300
    (sample_world refusal) None (sample_state [])) as (H1 & H2 & _); [reflexivity|reflexivity|reflexivity|reflexivity|by vm_compute|done| |split; [exact H1|exact H2]].
  repeat constructor; try done; intros account [->|[]%elem_of_nil]%elem_of_cons Hne; by destruct Hne.
Defined.

End UsageRefreshFacts.
