(* ===== verification/Images.v ===== *)
(** The images endpoints: their parameters ([src/app/core/openai/images.py]),
    the translation to and from responses
    ([src/app/modules/proxy/images_service.py]) and the routes
    ([src/app/modules/proxy/api.py]).

    The clock is read once for every upstream line that needs it: [clock i] is
    the reading for the [i]-th line.  The upstream is the list of the lines it
    yields and how it ends. *)

From S2P Require Import Prelude Json Sse Requests ChatResponses ToolCalls ProxyEvents RequestPolicy.
Import Json.Json Sse.Sse Requests.JsonOps ProxyEvents.ProxyErrors RequestPolicy.RequestPolicy.

(** ** Parameters *)

Module ImageParams.

(** What a call may raise: [ClientPayloadError], or an exception no handler of
    the route expects. *)
Inductive failure := Refused (error : PayloadError) | PyError (name : string).

Definition GPT_IMAGE_MODEL_PREFIX : string := "gpt-image-".
Definition _GPT_IMAGE_2_MODELS : list string := ["gpt-image-2"].
Definition _LEGACY_GPT_IMAGE_MODELS : list string := ["gpt-image-1.5"; "gpt-image-1"; "gpt-image-1-mini"].
Definition _GPT_IMAGE_2_QUALITY : list string := ["low"; "medium"; "high"; "auto"].
Definition _LEGACY_QUALITY : list string := ["low"; "medium"; "high"; "auto"].
Definition _INPUT_FIDELITY_SUPPORTED_MODELS : list string := ["gpt-image-1.5"; "gpt-image-1"].
Definition _LEGACY_FIXED_SIZES : list string := ["1024x1024"; "1536x1024"; "1024x1536"; "auto"].
Definition _BACKGROUND_VALUES : list string := ["transparent"; "opaque"; "auto"].
Definition _OUTPUT_FORMATS : list string := ["png"; "jpeg"; "webp"].
Definition _MODERATION_VALUES : list string := ["auto"; "low"].
Definition _INPUT_FIDELITY_VALUES : list string := ["low"; "high"].

Definition _GPT_IMAGE_2_MAX_EDGE : Z := 3840.
Definition _GPT_IMAGE_2_MIN_PIXELS : Z := 655360.
Definition _GPT_IMAGE_2_MAX_PIXELS : Z := 8294400.
Definition _GPT_IMAGE_2_RATIO_MAX : Q := 3.
Definition _GPT_IMAGE_2_DIM_MULTIPLE : Z := 16.

Definition _images_invalid {A} (message param : string) : res failure A :=
  Err (Refused {| pe_message := message; pe_param := Some param; pe_code := Some "invalid_request_error";
                  pe_type := Some "invalid_request_error" |}).
(** [if condition: raise]. *)
Definition refuse_if (b : bool) (message param : string) : res failure unit := if b then _images_invalid message param else Ok tt.

Definition is_supported_image_model (model : string) : bool :=
  startswith GPT_IMAGE_MODEL_PREFIX model && (mem model _GPT_IMAGE_2_MODELS || mem model _LEGACY_GPT_IMAGE_MODELS).

(** [re.match(r"^(\d+)x(\d+)$", size)]: [$] also matches before a newline that
    ends the string. *)
Definition _SIZE_PATTERN (size : string) : option (list N * list N) :=
  match take_digits size with
  | (d :: ds, String "x" rest) =>
      match take_digits rest with
      | (e :: es, tail) => if String.eqb tail "" || String.eqb tail newline then Some (d :: ds, e :: es) else None
      | _ => None
      end
  | _ => None
  end.

(** [int(text)] of a string of digits: the interpreter refuses more than 4300 of
    them. *)
Definition int_max_str_digits : nat := 4300.
Definition int_of_digits (ds : list N) : res failure Z :=
  if (int_max_str_digits <? length ds)%nat then Err (PyError "ValueError") else Ok (Z.of_N (digits_value ds)).

Definition _validate_gpt_image_2_size (width height : Z) : res failure unit :=
  let? _ := refuse_if ((width <=? 0) || (height <=? 0))%Z "size dimensions must be positive integers" "size" in
  let? _ := refuse_if (negb (width mod _GPT_IMAGE_2_DIM_MULTIPLE =? 0) || negb (height mod _GPT_IMAGE_2_DIM_MULTIPLE =? 0))%Z
              "size dimensions must be multiples of 16 for gpt-image-2" "size" in
  let? _ := refuse_if (_GPT_IMAGE_2_MAX_EDGE <? Z.max width height)%Z "size edges must be <= 3840 px for gpt-image-2" "size" in
  let long_edge := Z.max width height in
  let short_edge := Z.min width height in
  let? _ := refuse_if ((short_edge =? 0)%Z || qlt _GPT_IMAGE_2_RATIO_MAX (inject_Z long_edge / inject_Z short_edge))
              "size aspect ratio must be at most 3:1 for gpt-image-2" "size" in
  let pixels := (width * height)%Z in
  refuse_if ((pixels <? _GPT_IMAGE_2_MIN_PIXELS) || (_GPT_IMAGE_2_MAX_PIXELS <? pixels))%Z
    "size total pixels must be between 655360 and 8294400 for gpt-image-2" "size".

Definition validate_image_size (model size : string) : res failure unit :=
  if String.eqb size "auto" then Ok tt
  else match _SIZE_PATTERN size with
  | None => _images_invalid ("Invalid size '" ++ size ++ "'. Expected 'auto' or 'WIDTHxHEIGHT'.")%string "size"
  | Some (w, h) =>
      let? width := int_of_digits w in
      let? height := int_of_digits h in
      if mem model _GPT_IMAGE_2_MODELS then _validate_gpt_image_2_size width height
      else refuse_if (negb (mem size _LEGACY_FIXED_SIZES))
             ("Invalid size '" ++ size ++ "' for model '" ++ model
              ++ "'. Allowed sizes: 1024x1024, 1536x1024, 1024x1536, auto.")%string "size"
  end.

(** The fields of [V1ImagesGenerationsRequest] and of [V1ImagesEditsForm], which
    are the same. *)
Record V1ImagesRequest := {
  v_model : option string; prompt : string; n : Z; size : string; quality : string; background : string; output_format : string;
  output_compression : Z; moderation : string; partial_images : option Z; stream : bool; input_fidelity : option string; user : option string }.

(** The checks of [gpt-image-2], and those of the older models. *)
Definition validate_gpt_image_2 (p : V1ImagesRequest) : res failure unit :=
  let? _ := refuse_if (negb (mem (quality p) _GPT_IMAGE_2_QUALITY))
              ("Invalid quality '" ++ quality p ++ "' for gpt-image-2. Expected one of: low, medium, high, auto.")%string "quality" in
  let? _ := refuse_if (String.eqb (background p) "transparent") "background='transparent' is not supported by gpt-image-2" "background" in
  refuse_if (bool_decide (is_Some (input_fidelity p))) "input_fidelity is not supported by gpt-image-2" "input_fidelity".
Definition validate_legacy (model : string) (is_edit : bool) (p : V1ImagesRequest) : res failure unit :=
  let? _ := refuse_if (negb (mem (quality p) _LEGACY_QUALITY))
              ("Invalid quality '" ++ quality p ++ "' for model '" ++ model ++ "'.")%string "quality" in
  match input_fidelity p with
  | None => Ok tt
  | Some f =>
      let? _ := refuse_if (negb is_edit) "input_fidelity is only supported on /v1/images/edits" "input_fidelity" in
      let? _ := refuse_if (negb (mem model _INPUT_FIDELITY_SUPPORTED_MODELS))
                  ("input_fidelity is not supported by " ++ model)%string "input_fidelity" in
      refuse_if (negb (mem f _INPUT_FIDELITY_VALUES)) ("Invalid input_fidelity '" ++ f ++ "'. Expected one of: low, high.")%string "input_fidelity"
  end.

Definition validate_image_request_parameters (model : string) (is_edit : bool) (images_max_partial_images : Z) (p : V1ImagesRequest)
    : res failure unit :=
  let? _ := refuse_if (negb (is_supported_image_model model)) ("Unsupported image model '" ++ model ++ "'. Use a 'gpt-image-*' model.")%string "model" in
  let? _ := refuse_if ((n p <? 1) || (1 <? n p))%Z
              ("n must be 1; multiple images per request are not supported by the upstream image_generation tool yet. "
               ++ "Issue the request multiple times to get more images.")%string "n" in
  let? _ := refuse_if (negb (mem (background p) _BACKGROUND_VALUES))
              ("Invalid background '" ++ background p ++ "'. Expected one of: auto, opaque, transparent")%string "background" in
  let? _ := refuse_if (negb (mem (output_format p) _OUTPUT_FORMATS))
              ("Invalid output_format '" ++ output_format p ++ "'. Expected one of: png, jpeg, webp.")%string "output_format" in
  let? _ := refuse_if (negb ((0 <=? output_compression p) && (output_compression p <=? 100))%Z)
              "output_compression must be between 0 and 100" "output_compression" in
  let? _ := refuse_if (negb (mem (moderation p) _MODERATION_VALUES))
              ("Invalid moderation '" ++ moderation p ++ "'. Expected one of: auto, low.")%string "moderation" in
  let? _ := match partial_images p with
            | Some k => refuse_if ((k <? 0) || (images_max_partial_images <? k))%Z
                          ("partial_images must be between 0 and " ++ show_Z images_max_partial_images)%string "partial_images"
            | None => Ok tt
            end in
  let? _ := if mem model _GPT_IMAGE_2_MODELS then validate_gpt_image_2 p else validate_legacy model is_edit p in
  validate_image_size model (size p).

(** [_validate_model], run by pydantic when the request is read: [ValueError]. *)
Definition _validate_model (value : option string) : option (option string) :=
  match value with
  | None => Some None
  | Some m => if is_supported_image_model m then Some (Some m) else None
  end.

Record image_settings := { images_host_model : string; images_default_model : string; images_max_partial_images : Z }.

Definition resolve_public_image_model (s : image_settings) (requested : option string) : res failure string :=
  let resolved := or_s requested (images_default_model s) in
  let? _ := refuse_if (negb (is_supported_image_model resolved))
              ("Unsupported image model '" ++ resolved ++ "'. Use a 'gpt-image-*' model.")%string "model" in
  Ok resolved.

(** [validate_generations_payload] and [validate_edits_payload]. *)
Definition validate_payload (is_edit : bool) (s : image_settings) (payload : V1ImagesRequest) : res failure V1ImagesRequest :=
  let? resolved_model := resolve_public_image_model s (v_model payload) in
  let? _ := validate_image_request_parameters resolved_model is_edit (images_max_partial_images s) payload in
  Ok (payload {{ v_model := Some resolved_model }}).
Definition validate_generations_payload : image_settings → V1ImagesRequest → res failure V1ImagesRequest := validate_payload false.
Definition validate_edits_payload : image_settings → V1ImagesRequest → res failure V1ImagesRequest := validate_payload true.

End ImageParams.

(** ** Base64 and data URLs

    [base64] of the standard library; bytes are the characters of a string. *)

Module Base64.

Definition alphabet : string := "ABCDEFGHIJKLMNOPQRSTUVWXYZabcdefghijklmnopqrstuvwxyz0123456789+/".
Definition char64 (v : N) : ascii := default "="%char (String.get (N.to_nat v) alphabet).
Fixpoint position (c : ascii) (s : string) (i : N) : option N :=
  match s with
  | "" => None
  | String d r => if Ascii.eqb c d then Some i else position c r (i + 1)%N
  end.
Definition value64 (c : ascii) : option N := position c alphabet 0.
Definition code (c : ascii) : N := Ascii.N_of_ascii c.

Fixpoint b64encode (s : string) : string :=
  match s with
  | "" => ""
  | String a "" => String (char64 (code a / 4)) (String (char64 (code a mod 4 * 16)) "==")
  | String a (String b "") =>
      String (char64 (code a / 4)) (String (char64 (code a mod 4 * 16 + code b / 16)) (String (char64 (code b mod 16 * 4)) "="))
  | String a (String b (String c r)) =>
      String (char64 (code a / 4)) (String (char64 (code a mod 4 * 16 + code b / 16))
        (String (char64 (code b mod 16 * 4 + code c / 64)) (String (char64 (code c mod 64)) (b64encode r))))
  end%N.

Definition byte1 (v w : N) : ascii := byte (v * 4 + w / 16)%N.
Definition byte2 (w x : N) : ascii := byte (w mod 16 * 16 + x / 4)%N.
Definition byte3 (x y : N) : ascii := byte (x mod 4 * 64 + y)%N.

(** [base64.b64decode(s, validate=True)]: groups of four characters of the
    alphabet, of which the last may be padded. *)
Fixpoint b64decode (s : string) : option string :=
  match s with
  | "" => Some ""
  | String a (String b (String c (String d r))) =>
      v ← value64 a; w ← value64 b;
      if String.eqb r "" && Ascii.eqb d "="
      then if Ascii.eqb c "=" then Some (String (byte1 v w) "")
           else x ← value64 c; Some (String (byte1 v w) (String (byte2 w x) ""))
      else x ← value64 c; y ← value64 d; t ← b64decode r;
           Some (String (byte1 v w) (String (byte2 w x) (String (byte3 x y) t)))
  | _ => None
  end.

(** The text before the first [c], and the rest from it on. *)
Fixpoint cut_before (c : ascii) (s : string) : string * string :=
  match s with
  | "" => ("", "")
  | String d r => if Ascii.eqb d c then ("", s) else let '(a, b) := cut_before c r in (String d a, b)
  end.

(** [_DATA_URL_PATTERN]: the type and the text after the comma. *)
Definition _DATA_URL_PATTERN (url : string) : option (string * string) :=
  after_scheme ← strip_prefix "data:" url;
  let '(mime, rest) := cut_before ";" after_scheme in
  b64 ← strip_prefix ";base64," rest;
  if String.eqb mime "" || String.eqb b64 "" then None else Some (mime, b64).

Definition decode_data_url (data_url : string) : res string (string * option string) :=
  match _DATA_URL_PATTERN (py_strip data_url) with
  | None => Err "Expected a data:<mime>;base64,<payload> URL"
  | Some (mime, b64) =>
      match b64decode b64 with
      | Some bytes => Ok (bytes, none_if_empty mime)
      | None => Err "Invalid base64 image payload"
      end
  end.

End Base64.

(** ** Translation *)

Module Images.
Import ImageParams Base64.

Definition _IMAGE_GENERATION_INSTRUCTIONS : string :=
  "You are an image generator. When asked, you MUST call the image_generation "
  ++ "tool exactly once and return only that tool call. Do not produce any "
  ++ "additional text output. Mirror the user's request verbatim into the tool's "
  ++ "prompt argument.".
Definition _IMAGE_EDIT_MASK_HINT : string :=
  newline ++ newline
  ++ "(The final attached image is a transparent mask: only modify the regions where the mask is non-transparent.)".

Definition _UPSTREAM_PARTIAL_IMAGE_EVENT : string := "response.image_generation_call.partial_image".
Definition _UPSTREAM_OUTPUT_ITEM_DONE_EVENT : string := "response.output_item.done".
Definition _UPSTREAM_RESPONSE_COMPLETED_EVENT : string := "response.completed".
Definition _UPSTREAM_RESPONSE_FAILED_EVENT : string := "response.failed".
Definition _UPSTREAM_RESPONSE_INCOMPLETE_EVENT : string := "response.incomplete".
Definition _UPSTREAM_ERROR_EVENT : string := "error".
Definition _GENERATION_PARTIAL_EVENT : string := "image_generation.partial_image".
Definition _GENERATION_COMPLETED_EVENT : string := "image_generation.completed".
Definition _EDIT_PARTIAL_EVENT : string := "image_edit.partial_image".
Definition _EDIT_COMPLETED_EVENT : string := "image_edit.completed".
Definition _DOWNSTREAM_ERROR_EVENT : string := "error".

(** *** Requests *)

(** [assert n == 1] fails with [AssertionError]. *)
Definition _build_image_generation_tool (model : string) (fidelity : option string) (is_edit : bool) (p : V1ImagesRequest)
    : res failure (dict json) :=
  if negb (n p =? 1)%Z then Err (PyError "AssertionError")
  else Ok ([("type", JStr "image_generation"); ("model", JStr model); ("size", JStr (size p)); ("quality", JStr (quality p));
            ("background", JStr (background p)); ("output_format", JStr (output_format p));
            ("output_compression", JInt (output_compression p)); ("moderation", JStr (moderation p))]
           ++ (if is_edit then [("action", JStr "edit")] else [])
           ++ match fidelity with Some f => [("input_fidelity", JStr f)] | None => [] end
           ++ match partial_images p with
              | Some k => if stream p && (0 <? k)%Z then [("partial_images", JInt k)] else []
              | None => []
              end).

Definition _build_user_message_input (text : string) (attached_images : list (dict json)) : list json :=
  [JObj [("type", JStr "message"); ("role", JStr "user");
         ("content", JList (JObj [("type", JStr "input_text"); ("text", JStr text)] :: map JObj attached_images))]].

Definition resolved_mime (mime_type : option string) : string :=
  default "image/png" (none_if_empty (py_strip (or_s mime_type "image/png"))).
Definition _build_input_image_part (image_bytes : string) (mime_type : option string) : dict json :=
  [("type", JStr "input_image"); ("image_url", JStr ("data:" ++ resolved_mime mime_type ++ ";base64," ++ b64encode image_bytes)%string)].

(** The members given to [ResponsesRequest.model_validate]. *)
Definition responses_members (host_model : string) (input : list json) (tool : dict json) : dict json :=
  [("model", JStr host_model); ("instructions", JStr _IMAGE_GENERATION_INSTRUCTIONS); ("input", JList input);
   ("tools", JList [JObj tool]); ("tool_choice", JObj [("type", JStr "image_generation")]); ("stream", JBool true); ("store", JBool false)].

Definition images_generation_to_responses_request (payload : V1ImagesRequest) (host_model : string) : res failure (dict json) :=
  match v_model payload with
  | None => Err (PyError "AssertionError")
  | Some model =>
      let? tool := _build_image_generation_tool model None false payload in
      Ok (responses_members host_model (_build_user_message_input (prompt payload) []) tool)
  end.

(** An uploaded part: its bytes and its content type. *)
Notation upload := (string * option string)%type.

Definition images_edit_to_responses_request (payload : V1ImagesRequest) (host_model : string) (images : list upload) (mask : option upload)
    : res failure (dict json) :=
  match images with
  | [] => Err (PyError "ValueError")
  | _ =>
      let part u := _build_input_image_part u.1 u.2 in
      let attached := map part images ++ match mask with Some m => [part m] | None => [] end in
      let prompt_text := match mask with Some _ => (prompt payload ++ _IMAGE_EDIT_MASK_HINT)%string | None => prompt payload end in
      match v_model payload with
      | None => Err (PyError "AssertionError")
      | Some model =>
          let? tool := _build_image_generation_tool model (input_fidelity payload) true payload in
          Ok (responses_members host_model (_build_user_message_input prompt_text attached) tool)
      end
  end.

(** *** Collected responses *)

Definition image_call (d : dict json) : bool := is_str "image_generation_call" (get_or_null "type" d).
Definition _select_image_items (output : list json) : list (dict json) :=
  omap (λ entry, match entry with JObj d => if image_call d then Some d else None | _ => None end) output.

(** [int(x)] of a float raises for infinity and NaN. *)
Definition int_of_float (f : pyfloat) : res failure Z :=
  match f with
  | FInf _ => Err (PyError "OverflowError")
  | FNaN => Err (PyError "ValueError")
  | FDec _ _ _ => Ok (match number_of (JFloat f) with Some q => py_int q | None => 0%Z end)
  end.

Definition _coerce_int (value : json) : res failure (option Z) :=
  match value with
  | JInt k => Ok (Some k)
  | JFloat f => let? k := int_of_float f in Ok (Some k)
  | _ => Ok None
  end.

Record V1ImageUsage := {
  input_tokens : option Z; output_tokens : option Z; total_tokens : option Z; input_tokens_details : option (dict json);
  output_tokens_details : option (dict json); extra_usage : dict json }.

Definition _USAGE_TOKEN_FIELDS : list string := ["input_tokens"; "output_tokens"; "total_tokens"].

Definition image_gen_usage (response : dict json) : option (dict json) := get_obj "tool_usage" response ≫= get_obj "image_gen".

Definition usage_of (image_usage : dict json) : res failure (option V1ImageUsage) :=
  let? input := _coerce_int (get_or_null "input_tokens" image_usage) in
  let? output := _coerce_int (get_or_null "output_tokens" image_usage) in
  let? total := _coerce_int (get_or_null "total_tokens" image_usage) in
  let total := match total, input, output with None, Some i, Some o => Some (i + o)%Z | _, _, _ => total end in
  let usage := {| input_tokens := input; output_tokens := output; total_tokens := total;
                  input_tokens_details := get_obj "input_tokens_details" image_usage;
                  output_tokens_details := get_obj "output_tokens_details" image_usage;
                  extra_usage := List.filter (λ p, negb (mem p.1 (_USAGE_TOKEN_FIELDS ++ ["input_tokens_details"; "output_tokens_details"]))) image_usage |} in
  match input, output, total, input_tokens_details usage, output_tokens_details usage, extra_usage usage with
  | None, None, None, None, None, [] => Ok None
  | _, _, _, _, _, _ => Ok (Some usage)
  end.
Definition _extract_image_usage (response : dict json) : res failure (option V1ImageUsage) :=
  match image_gen_usage response with
  | None => Ok None
  | Some image_usage => usage_of image_usage
  end.

(** [model_dump(mode="json", exclude_none=True)]. *)
Definition some_member (k : string) (o : option json) : dict json := match o with Some v => [(k, v)] | None => [] end.
Definition dump_usage (u : V1ImageUsage) : dict json :=
  some_member "input_tokens" (JInt <$> input_tokens u) ++ some_member "output_tokens" (JInt <$> output_tokens u)
  ++ some_member "total_tokens" (JInt <$> total_tokens u) ++ some_member "input_tokens_details" (JObj <$> input_tokens_details u)
  ++ some_member "output_tokens_details" (JObj <$> output_tokens_details u)
  ++ List.filter (λ p, negb (is_null p.2)) (extra_usage u).

Record V1ImageData := { b64_json : string; revised_prompt : option string }.
Record V1ImageResponse := { created : Z; data : list V1ImageData; usage : option V1ImageUsage }.

Definition dump_response (r : V1ImageResponse) : dict json :=
  [("created", JInt (created r));
   ("data", JList (map (λ x, JObj (("b64_json", JStr (b64_json x)) :: some_member "revised_prompt" (JStr <$> revised_prompt x))) (data r)))]
  ++ some_member "usage" ((λ u, JObj (dump_usage u)) <$> usage r).

(** [value if isinstance(value, str) and value else fallback]. *)
Definition str_or (fallback k : string) (d : dict json) : string := default fallback (filled_str k d).
Definition error_of (code message : string) (error : dict json) : dict json :=
  openai_error (str_or code "code" error) (str_or message "message" error) (str_or "server_error" "type" error).

Definition generation_failed (message : string) : dict json := openai_error "image_generation_failed" message "server_error".
Definition failed_item (item : dict json) : bool := is_str "failed" (get_or_null "status" item).
Definition failed_item_error (item : dict json) : dict json :=
  match get_obj "error" item with
  | Some e => error_of "image_generation_failed" "Image generation failed" e
  | None => generation_failed "Upstream image_generation_call reported status=failed"
  end.
Definition image_data (item : dict json) : option V1ImageData :=
  b64 ← filled_str "result" item; Some {| b64_json := b64; revised_prompt := filled_str "revised_prompt" item |}.

Definition images_response_from_responses (now : Z) (response : dict json) : res failure (V1ImageResponse + dict json) :=
  match get_list "output" response with
  | None => Ok (inr (generation_failed "Upstream response did not include an output array"))
  | Some output =>
      match _select_image_items output with
      | [] => Ok (inr (generation_failed "Upstream response did not include any image_generation_call items"))
      | items =>
          match List.find failed_item items with
          | Some item => Ok (inr (failed_item_error item))
          | None =>
              match omap image_data items with
              | [] => Ok (inr (generation_failed "Upstream image_generation_call items contained no image data"))
              | entries => let? usage := _extract_image_usage response in
                           Ok (inl {| created := now; data := entries; usage := usage |})
              end
          end
      end
  end.

(** *** What the routes remember of a stream

    The dict [captured], with a member for each key. *)

Record capture := {
  c_response_id : option string; image_input_tokens : option Z; image_output_tokens : option Z; image_cached_input_tokens : option Z }.
Definition nothing_captured : capture :=
  {| c_response_id := None; image_input_tokens := None; image_output_tokens := None; image_cached_input_tokens := None |}.

Definition _extract_cached_input_tokens (u : V1ImageUsage) : res failure (option Z) :=
  match input_tokens_details u with
  | None => Ok None
  | Some details => _coerce_int (get_or_null "cached_tokens" details)
  end.
Definition or_kept {A} (new old : option A) : option A := match new with Some _ => new | None => old end.
(** The counters that were stored before an exception is raised. *)
Definition _stash_image_usage_tokens (c : capture) (u : V1ImageUsage) : capture * option failure :=
  let c := c {{ image_input_tokens := or_kept (input_tokens u) (image_input_tokens c) }} in
  let c := c {{ image_output_tokens := or_kept (output_tokens u) (image_output_tokens c) }} in
  match _extract_cached_input_tokens u with
  | Ok cached => (c {{ image_cached_input_tokens := or_kept cached (image_cached_input_tokens c) }}, None)
  | Err e => (c, Some e)
  end.

Definition capture_id (payload : dict json) (c : capture) : capture :=
  match c_response_id c with
  | Some _ => c
  | None => c {{ c_response_id := get_obj "response" payload ≫= filled_str "id" }}
  end.

(** *** Events *)

Definition _coerce_created_at (now : Z) (value : json) : res failure Z :=
  match value with
  | JInt k => Ok k
  | JFloat f => int_of_float f
  | _ => Ok now
  end.

(** The members of [keys] that are there and not [None]. *)
Definition members_of (keys : list string) (d : dict json) : dict json :=
  omap (λ k, match get_or_null k d with JNull => None | v => Some (k, v) end) keys.

Definition _build_partial_image_event (now : Z) (payload : dict json) (event_type : string) : res failure (option (dict json)) :=
  match filled_str "partial_image_b64" payload with
  | None => Ok None
  | Some b64 =>
      let? created := _coerce_created_at now (get_or_null "created_at" payload) in
      Ok (Some ([("type", JStr event_type); ("b64_json", JStr b64); ("created_at", JInt created)]
                ++ members_of ["partial_image_index"; "size"; "quality"; "background"; "output_format"; "output_index"] payload))
  end.

Definition _build_completed_event (now : Z) (item : dict json) (event_type : string) : res failure (option (dict json)) :=
  if negb (image_call item) then Ok None
  else match filled_str "result" item with
  | None => Ok None
  | Some b64 =>
      let? created := _coerce_created_at now (get_or_null "created_at" item) in
      Ok (Some ([("type", JStr event_type); ("b64_json", JStr b64); ("created_at", JInt created)]
                ++ members_of ["revised_prompt"; "size"; "quality"; "background"; "output_format"] item))
  end.

Definition error_event (envelope : dict json) : dict json := ("type", JStr _DOWNSTREAM_ERROR_EVENT) :: envelope.
Definition _build_error_event (code message error_type : string) : dict json := error_event (openai_error code message error_type).
Definition _failed_image_item_error_event (item : dict json) : dict json := error_event (failed_item_error item).

(** The error an upstream event reports: under ["response"] for a failed
    response, at the top for an error event. *)
Definition upstream_failure (error : option (dict json)) : dict json :=
  match error with
  | Some e => error_of "upstream_error" "Upstream image generation failed" e
  | None => openai_error "upstream_error" "Upstream image generation failed" "server_error"
  end.
Definition response_error (payload : dict json) : option (dict json) := get_obj "response" payload ≫= get_obj "error".
Definition _response_failed_to_error_event (payload : dict json) : dict json := error_event (upstream_failure (response_error payload)).
Definition _error_event_to_error_event (payload : dict json) : dict json := error_event (upstream_failure (get_obj "error" payload)).

(** The event of an upstream line, if it has one: its type and its members. *)
Definition upstream_event (line : string) : option (string * dict json) :=
  if String.eqb line "" || String.eqb (py_strip line) "data: [DONE]" then None
  else payload ← parse_sse_data_json line; ty ← get_str "type" payload; Some (ty, payload).

(** *** Streams *)

(** How a generator ends other than by returning. *)
Inductive exn := ProxyResponseError (status : Z) (payload : dict json) | Raised (e : failure).
(** The lines of the upstream and how it ends. *)
Record upstream := { lines : list string; ending : option exn }.

(** A point at which the translator is suspended: waiting for a line, or with an
    event handed to the client; and what is captured by then. *)
Record moment := { shown : option (dict json); so_far : capture }.

Record translation := {
  terminal_emitted : bool; completion_pending : bool; pending_completed_events : list (dict json); captured : capture; moments : list moment }.
Definition translation_start : translation :=
  {| terminal_emitted := false; completion_pending := true; pending_completed_events := []; captured := nothing_captured; moments := [] |}.

Definition wait (t : translation) : translation :=
  t {{ moments := moments t ++ [{| shown := None; so_far := captured t |}] }}.
(** [yield format_sse_event(event)]. *)
Definition emit (event : dict json) (t : translation) : translation :=
  t {{ moments := moments t ++ [{| shown := Some event; so_far := captured t |}] }}.
Definition emit_all (events : list (dict json)) (t : translation) : translation := foldl (λ t e, emit e t) t events.
Definition finish (t : translation) : translation := t {{ terminal_emitted := true }} {{ completion_pending := false }}.

Inductive turn := Continue (t : translation) | Break (t : translation) | Raise (t : translation) (e : failure).

(** [event["usage"] = ...] on the last of the buffered events. *)
Fixpoint with_usage (usage : option V1ImageUsage) (events : list (dict json)) : list (dict json) :=
  match events with
  | [] => []
  | [e] => [match usage with Some u => dict_set e "usage" (JObj (dump_usage u)) | None => e end]
  | e :: r => e :: with_usage usage r
  end.

Definition stash (usage : option V1ImageUsage) (t : translation) : translation * option failure :=
  match usage with
  | None => (t, None)
  | Some u => let '(c, e) := _stash_image_usage_tokens (captured t) u in (t {{ captured := c }}, e)
  end.

Section Translate.
Context (is_edit : bool).
Definition partial_event_type : string := if is_edit then _EDIT_PARTIAL_EVENT else _GENERATION_PARTIAL_EVENT.
Definition completed_event_type : string := if is_edit then _EDIT_COMPLETED_EVENT else _GENERATION_COMPLETED_EVENT.

Definition on_item_done (now : Z) (payload : dict json) (t : translation) : turn :=
  match get_obj "item" payload with
  | None => Continue t
  | Some item =>
      if negb (image_call item) then Continue t
      else if failed_item item then Break (finish (emit (_failed_image_item_error_event item) t))
      else match _build_completed_event now item completed_event_type with
           | Err e => Raise t e
           | Ok None => Continue t
           | Ok (Some event) => Continue (t {{ pending_completed_events := pending_completed_events t ++ [event] }})
           end
  end.

Definition on_completed (payload : dict json) (t : translation) : turn :=
  match match get_obj "response" payload with Some r => _extract_image_usage r | None => Ok None end with
  | Err e => Raise t e
  | Ok usage =>
      match stash usage t with
      | (t, Some e) => Raise t e
      | (t, None) =>
          match pending_completed_events t with
          | [] =>
              if terminal_emitted t then Break (t {{ completion_pending := false }})
              else Break (finish (emit (_build_error_event "image_generation_failed"
                                          "Upstream stream completed without an image_generation_call result" "server_error") t))
          | events => Break (finish ((emit_all (with_usage usage events) t) {{ pending_completed_events := [] }}))
          end
      end
  end.

Definition on_incomplete (t : translation) : turn :=
  if terminal_emitted t then Break (t {{ completion_pending := false }})
  else Break (finish (emit (_build_error_event "image_generation_failed" "Upstream stream ended before the image was generated" "server_error") t)).

Definition on_partial (now : Z) (payload : dict json) (t : translation) : turn :=
  match _build_partial_image_event now payload partial_event_type with
  | Err e => Raise t e
  | Ok None => Continue t
  | Ok (Some event) => Continue (emit event t)
  end.

Definition translate_event (now : Z) (ty : string) (payload : dict json) (t : translation) : turn :=
  if String.eqb ty _UPSTREAM_PARTIAL_IMAGE_EVENT then on_partial now payload t
  else if String.eqb ty _UPSTREAM_OUTPUT_ITEM_DONE_EVENT then on_item_done now payload t
  else if String.eqb ty _UPSTREAM_RESPONSE_COMPLETED_EVENT then on_completed payload t
  else if String.eqb ty _UPSTREAM_RESPONSE_INCOMPLETE_EVENT then on_incomplete t
  else if String.eqb ty _UPSTREAM_RESPONSE_FAILED_EVENT then Break (finish (emit (_response_failed_to_error_event payload) t))
  else if String.eqb ty _UPSTREAM_ERROR_EVENT then Break (finish (emit (_error_event_to_error_event payload) t))
  else Continue t.

Definition translate_line (now : Z) (line : string) (t : translation) : turn :=
  match upstream_event line with
  | None => Continue t
  | Some (ty, payload) => translate_event now ty payload (t {{ captured := capture_id payload (captured t) }})
  end.

(** The loop: the state it leaves, the exception if one is raised, and the lines
    that were not read. *)
Fixpoint translate_lines (clock : nat → Z) (ls : list string) (ending : option exn) (t : translation)
    : translation * option exn * list string :=
  match ls with
  | [] => (wait t, ending, [])
  | l :: rest =>
      match translate_line (clock 0) l (wait t) with
      | Continue t => translate_lines (λ i, clock (S i)) rest ending t
      | Break t => (t, None, rest)
      | Raise t e => (t, Some (Raised e), rest)
      end
  end.

(** After the loop: the buffered events of a truncated stream, or an error. *)
Definition flush (t : translation) : translation :=
  let t := match pending_completed_events t with
           | [] => t
           | events => if terminal_emitted t then t
                       else (emit_all events t) {{ pending_completed_events := [] }} {{ terminal_emitted := true }}
           end in
  if completion_pending t && negb (terminal_emitted t)
  then emit (_build_error_event "image_generation_failed" "Upstream stream truncated before a terminal image event" "server_error") t
  else t.

(** What the client is given: the events, and [data: [DONE]] unless the
    generator raises. *)
Inductive chunk := Event (event : dict json) | Done.
Definition chunk_text (c : chunk) : string :=
  match c with
  | Event event => format_sse_event event
  | Done => ("data: [DONE]" ++ newline ++ newline)%string
  end.

Record translated := {
  tr_moments : list (option chunk * capture); tr_captured : capture; tr_raises : option exn; tr_unread : list string }.
Definition chunks (r : translated) : list chunk := omap fst (tr_moments r).
Definition moment_of (m : moment) : option chunk * capture := (Event <$> shown m, so_far m).

Definition translate_responses_stream_to_images_stream (clock : nat → Z) (u : upstream) : translated :=
  let '(t, raises, unread) := translate_lines clock (lines u) (ending u) translation_start in
  match raises with
  | Some e => {| tr_moments := map moment_of (moments t); tr_captured := captured t; tr_raises := Some e; tr_unread := unread |}
  | None =>
      let t := flush t in
      {| tr_moments := map moment_of (moments t) ++ [(Some Done, captured t)]; tr_captured := captured t; tr_raises := None; tr_unread := unread |}
  end.

End Translate.

(** *** Draining a stream *)

Record collecting := {
  output_items : list (Z * dict json); fallback_items : list (dict json); final_response : option (dict json);
  terminal_error : option (dict json); co_captured : capture }.
Definition collecting_start : collecting :=
  {| output_items := []; fallback_items := []; final_response := None; terminal_error := None; co_captured := nothing_captured |}.

(** [output_items[i] = item]. *)
Fixpoint set_item (i : Z) (item : dict json) (items : list (Z * dict json)) : list (Z * dict json) :=
  match items with
  | [] => [(i, item)]
  | (j, x) :: r => if (i =? j)%Z then (j, item) :: r else (j, x) :: set_item i item r
  end.
(** [isinstance(value, int)], which holds of booleans. *)
Definition int_index (value : json) : option Z :=
  match value with JInt k => Some k | JBool b => Some (if b then 1 else 0)%Z | _ => None end.

Definition merged_output (c : collecting) : list json :=
  map (λ p, JObj p.2) (order_by (asc fst) (output_items c)) ++ map JObj (fallback_items c).

Inductive gathering := Gather (c : collecting) | Stop (c : collecting) | Fail (c : collecting) (e : failure).

Definition collect_item (payload : dict json) (c : collecting) : gathering :=
  match get_obj "item" payload with
  | None => Gather c
  | Some item =>
      match int_index (get_or_null "output_index" payload) with
      | Some i => Gather (c {{ output_items := set_item i item (output_items c) }})
      | None => Gather (c {{ fallback_items := fallback_items c ++ [item] }})
      end
  end.

Definition completed_base (payload : dict json) (c : collecting) : dict json :=
  let base := default [] (get_obj "response" payload) in
  match get_list "output" base with
  | Some (_ :: _) => base
  | _ => dict_set base "output" (JList (merged_output c))
  end.
Definition collect_completed (payload : dict json) (c : collecting) : gathering :=
  let base := completed_base payload c in
  let c := c {{ final_response := Some base }} in
  match _extract_image_usage base with
  | Err e => Fail c e
  | Ok None => Gather c
  | Ok (Some u) =>
      match _stash_image_usage_tokens (co_captured c) u with
      | (cap, Some e) => Fail (c {{ co_captured := cap }}) e
      | (cap, None) => Gather (c {{ co_captured := cap }})
      end
  end.

Definition unless_completed (envelope : dict json) (c : collecting) : gathering :=
  match final_response c with
  | Some _ => Gather c
  | None => Stop (c {{ terminal_error := Some envelope }})
  end.

Definition collect_event (ty : string) (payload : dict json) (c : collecting) : gathering :=
  if String.eqb ty _UPSTREAM_OUTPUT_ITEM_DONE_EVENT then collect_item payload c
  else if String.eqb ty _UPSTREAM_RESPONSE_COMPLETED_EVENT && bool_decide (final_response c = None) then collect_completed payload c
  else if String.eqb ty _UPSTREAM_RESPONSE_INCOMPLETE_EVENT && bool_decide (terminal_error c = None)
  then Stop (c {{ terminal_error := Some (generation_failed "Upstream response was incomplete before the image was generated") }})
  else if String.eqb ty _UPSTREAM_RESPONSE_FAILED_EVENT then unless_completed (upstream_failure (response_error payload)) c
  else if String.eqb ty _UPSTREAM_ERROR_EVENT then unless_completed (upstream_failure (get_obj "error" payload)) c
  else Gather c.

Definition collect_line (line : string) (c : collecting) : gathering :=
  match upstream_event line with
  | None => Gather c
  | Some (ty, payload) => collect_event ty payload (c {{ co_captured := capture_id payload (co_captured c) }})
  end.

Fixpoint collect_lines (ls : list string) (ending : option exn) (c : collecting) : collecting * option exn * list string :=
  match ls with
  | [] => (c, ending, [])
  | l :: rest =>
      match collect_line l c with
      | Gather c => collect_lines rest ending c
      | Stop c => (c, None, rest)
      | Fail c e => (c, Some (Raised e), rest)
      end
  end.

Record collected := { cl_result : res exn (dict json + dict json); cl_captured : capture; cl_unread : list string }.
Definition verdict (c : collecting) : dict json + dict json :=
  match terminal_error c, final_response c with
  | Some e, _ => inr e
  | None, Some r => inl r
  | None, None => inr (generation_failed "Upstream stream truncated before a terminal event")
  end.
Definition collect_responses_stream_for_images (u : upstream) : collected :=
  let '(c, raises, unread) := collect_lines (lines u) (ending u) collecting_start in
  {| cl_result := match raises with Some e => Err e | None => Ok (verdict c) end; cl_captured := co_captured c; cl_unread := unread |}.

(** *** Errors of the routes *)

Definition make_invalid_request_error (message : string) (param : option string) : dict json :=
  with_param param (openai_error "invalid_request_error" message "invalid_request_error").
Definition make_not_found_error (message : string) : dict json := openai_error "not_found_error" message "invalid_request_error".

End Images.

(** ** Routes *)

Module ImageRoutes.
Import ImageParams Images.

(** What a route does: a reservation is known by its id.  [Unclosed] is a
    reservation that could not be closed, which is only logged. *)
Inductive act :=
  | Reserve (model : string)
  | Release (reservation : string)
  | Finalize (reservation model : string) (input output cached : Z)
  | Unclosed (reservation model : string)
  | RewriteLog (response_id model : string)
  | AskUpstream (request : dict json).

Section Closing.
(** Whether the database takes the statements that close a reservation. *)
Context (persists : bool).

(** One statement, or the exception of the database. *)
Definition stated (a : act) : res exn (list act) := if persists then Ok [a] else Err (Raised (PyError "SQLAlchemyError")).
Definition _release_reservation (reservation : option string) : res exn (list act) :=
  match reservation with Some r => stated (Release r) | None => Ok [] end.
(** An exception is caught and logged. *)
Definition _finalize_image_reservation (reservation : option string) (model : string) (input output cached : option Z) : list act :=
  match reservation with
  | None => []
  | Some r =>
      match (if negb (truthy_z input) && negb (truthy_z output) then _release_reservation reservation
             else stated (Finalize r model (or_z input 0) (or_z output 0) (or_z cached 0))) with
      | Ok acts => acts
      | Err _ => [Unclosed r model]
      end
  end.

Definition _IMAGE_ERROR_TYPE_STATUS : dict Z :=
  [("invalid_request_error", 400); ("authentication_error", 401); ("permission_error", 403); ("not_found_error", 404);
   ("rate_limit_error", 429); ("insufficient_quota", 429)]%Z.
Definition _IMAGE_ERROR_CODE_STATUS : dict Z :=
  [("content_policy_violation", 400); ("rate_limit_exceeded", 429); ("insufficient_quota", 429)]%Z.
Definition _UNAVAILABLE_SELECTION_ERROR_CODES : list string :=
  ["no_accounts"; "no_plan_support_for_model"; "additional_quota_data_unavailable"; "no_additional_quota_eligible_accounts"].

Definition code_status (code : string) : option Z :=
  match dict_get _IMAGE_ERROR_CODE_STATUS code with
  | Some s => Some s
  | None => if mem code _UNAVAILABLE_SELECTION_ERROR_CODES then Some 503%Z else None
  end.
Definition _status_for_image_error_envelope (envelope : dict json) : Z :=
  match get_obj "error" envelope with
  | None => 502
  | Some error =>
      match get_str "code" error ≫= code_status with
      | Some s => s
      | None => default 502%Z (get_str "type" error ≫= dict_get _IMAGE_ERROR_TYPE_STATUS)
      end
  end%Z.

(** When the client of a streamed answer leaves: not at all, at a point where
    the translator is suspended, or before the body of the answer is started.
    When it leaves, the cancellation may interrupt the [finally] of the body: the
    rewriting of the log is shielded, the closing of the reservation is not. *)
Inductive leaving := Stays | Leaves (point : nat) (interrupted : bool) | NeverStarts.

Inductive response :=
  | ErrorAnswer (status : Z) (content : dict json)
  | ImagesAnswer (content : dict json)
  | StreamAnswer (given : list chunk) (raises : option exn)
  | Escapes (e : exn).

(** An answer after the reservation was released. *)
Definition released_then (reservation : option string) (r : response) : list act * response :=
  match _release_reservation reservation with Ok acts => (acts, r) | Err e => ([], Escapes e) end.

(** [_prime_upstream_stream]: an upstream that raises before its first line. *)
Definition _prime_upstream_stream (reservation : option string) (u : upstream) : option (list act * response) :=
  match lines u, ending u with
  | [], Some (ProxyResponseError status payload) => Some (released_then reservation (ErrorAnswer status payload))
  | [], Some e => Some ([], Escapes e)
  | _, _ => None
  end.

Definition rewrite_log (c : capture) (public_model : string) : list act :=
  match c_response_id c with Some i => [RewriteLog i public_model] | None => [] end.
(** The end of a request: the log is given the public model, and the reservation
    is settled with the tokens of the image tool. *)
Definition close (reservation : option string) (public_model : string) (c : capture) : list act :=
  rewrite_log c public_model
  ++ _finalize_image_reservation reservation public_model (image_input_tokens c) (image_output_tokens c) (image_cached_input_tokens c).

(** [_stream_with_log_rewrite] with the client leaving: [finally] runs if the
    generator was started, to its end if it is not interrupted. *)
Definition stream_with_log_rewrite (reservation : option string) (public_model : string) (leave : leaving) (r : translated)
    : list act * response :=
  match leave with
  | NeverStarts => ([], StreamAnswer [] None)
  | Stays => (close reservation public_model (tr_captured r), StreamAnswer (chunks r) (tr_raises r))
  | Leaves point interrupted =>
      let finally c := if interrupted then rewrite_log c public_model else close reservation public_model c in
      match tr_moments r !! point with
      | Some m => (finally m.2, StreamAnswer (omap fst (take (S point) (tr_moments r))) None)
      | None => (finally (tr_captured r), StreamAnswer (chunks r) (tr_raises r))
      end
  end.

Definition collected_answer (now : Z) (result : dict json + dict json) : response :=
  match result with
  | inr e => ErrorAnswer (_status_for_image_error_envelope e) e
  | inl r =>
      match images_response_from_responses now r with
      | Err e => Escapes (Raised e)
      | Ok (inr e) => ErrorAnswer (_status_for_image_error_envelope e) e
      | Ok (inl images) => ImagesAnswer (dump_response images)
      end
  end.
Definition answer_collected (reservation : option string) (public_model : string) (now : Z) (r : collected) : list act * response :=
  match cl_result r with
  | Err (ProxyResponseError status payload) => released_then reservation (ErrorAnswer status payload)
  | Err e => ([], Escapes e)
  | Ok result => (close reservation public_model (cl_captured r), collected_answer now result)
  end.

(** The answer to an upstream stream. *)
Definition relay_images (is_edit streaming : bool) (reservation : option string) (public_model : string) (clock : nat → Z) (now : Z)
    (leave : leaving) (u : upstream) : list act * response :=
  match _prime_upstream_stream reservation u with
  | Some early => early
  | None =>
      if streaming
      then stream_with_log_rewrite reservation public_model leave (translate_responses_stream_to_images_stream is_edit clock u)
      else answer_collected reservation public_model now (collect_responses_stream_for_images u)
  end.

End Closing.

(** The services a route calls: [ResponsesRequest.model_validate], which gives
    the location of the first error when it refuses; [_enforce_request_limits]
    for a model, which gives the reservation if there is an API key;
    [stream_responses]; and the database that closes reservations. *)
Record services := {
  model_validate : dict json → res (option (list string)) (dict json);
  enforce_request_limits : string → res exn (option string);
  stream_responses : dict json → upstream;
  persists : bool }.

Section Route.
Context (s : image_settings) (w : services) (api_key : option ApiKeyData) (clock : nat → Z) (now : Z) (leave : leaving).

Definition pinned_message (model : string) : string :=
  ("Effective model '" ++ model ++ "' is not a 'gpt-image-*' model. This API key is pinned to '" ++ model
   ++ "' which cannot be used on /v1/images/* routes; use a key that allows gpt-image models.")%string.

(** The checks before the reservation: the payload with its model. *)
Definition checked_payload (is_edit : bool) (payload : V1ImagesRequest) : res response (V1ImagesRequest * string) :=
  let effective_model := _effective_model_for_api_key api_key (or_s (v_model payload) (images_default_model s)) in
  if negb (is_supported_image_model effective_model)
  then Err (ErrorAnswer 400 (make_invalid_request_error (pinned_message effective_model) (Some "model")))
  else match validate_payload is_edit s (payload {{ v_model := Some effective_model }}) with
       | Err (Refused e) => Err (ErrorAnswer 400 (openai_client_payload_error e))
       | Err e => Err (Escapes (Raised e))
       | Ok payload =>
           match validate_model_access api_key (Some effective_model) with
           | Err m => Err (Escapes (Raised (PyError m)))
           | Ok _ => Ok (payload, effective_model)
           end
       end.

(** What both routes do around the request they build; [refused] answers a
    [ValueError] of the builder. *)
Definition proxy_images_request (is_edit : bool) (refused : failure → option response)
    (build : V1ImagesRequest → res failure (dict json)) (payload : V1ImagesRequest) : list act * response :=
  match checked_payload is_edit payload with
  | Err r => ([], r)
  | Ok (payload, effective_model) =>
      match enforce_request_limits w effective_model with
      | Err e => ([], Escapes e)
      | Ok reservation =>
          let reserved := match reservation with Some _ => [Reserve effective_model] | None => [] end in
          match build payload with
          | Err e => match refused e with
                     | Some r => let '(acts, r) := released_then (persists w) reservation r in (reserved ++ acts, r)
                     | None => (reserved, Escapes (Raised e))
                     end
          | Ok members =>
              match model_validate w members with
              | Err loc => let '(acts, r) := released_then (persists w) reservation (ErrorAnswer 400 (openai_validation_error loc)) in (reserved ++ acts, r)
              | Ok request =>
                  let '(acts, r) := relay_images (persists w) is_edit (stream payload) reservation (default "" (v_model payload)) clock now leave
                                      (stream_responses w request) in
                  (reserved ++ [AskUpstream request] ++ acts, r)
              end
          end
      end
  end.

Definition _proxy_images_generation_request (payload : V1ImagesRequest) : list act * response :=
  proxy_images_request false (λ _, None) (λ p, images_generation_to_responses_request p (images_host_model s)) payload.

Definition refused_edit (e : failure) : option response :=
  match e with
  | PyError "ValueError" => Some (ErrorAnswer 400 (make_invalid_request_error "/v1/images/edits requires at least one image part" None))
  | _ => None
  end.
Definition _proxy_images_edit_request (images : list upload) (mask : option upload) (payload : V1ImagesRequest) : list act * response :=
  proxy_images_request true refused_edit (λ p, images_edit_to_responses_request p (images_host_model s) images mask) payload.

(** [v1_images_edits] after its form was read: the uploaded parts, with the
    [image[]] ones after the [image] ones. *)
Definition v1_images_edits (form : V1ImagesRequest) (image image_brackets : list upload) (mask : option upload) : list act * response :=
  let refused message param := ([], ErrorAnswer 400 (make_invalid_request_error message (Some param))) in
  match image ++ image_brackets with
  | [] => refused "At least one ``image`` (or ``image[]``) multipart part is required." "image"
  | merged_images =>
      if existsb (λ u, String.eqb u.1 "") merged_images then refused "image part is empty" "image"
      else match mask with
           | Some ("", _) => refused "mask part is empty" "mask"
           | _ => _proxy_images_edit_request merged_images mask form
           end
  end.

Definition v1_images_variations : response :=
  ErrorAnswer 404 (make_not_found_error
    "/v1/images/variations is not supported by codex-lb. Use /v1/images/edits with an explicit prompt instead.").

End Route.

End ImageRoutes.
