(* ===== verification/ImagesFacts.v ===== *)
(** What [Images] promises: which parameters are accepted, that uploaded images
    arrive as they were sent, how a streamed answer is built and that it agrees
    with a collected one, what becomes of the reservation, and where the two
    ways of answering part. *)

From Stdlib Require Import Sorted.
From S2P Require Import Prelude Json Sse Requests ChatResponses ToolCalls ProxyEvents RequestPolicy Images.
Import Json.Json Json.JsonFacts Sse.Sse Requests.JsonOps ProxyEvents.ProxyErrors RequestPolicy.RequestPolicy.
Import Images.ImageParams Images.Base64 Images.Images Images.ImageRoutes.

Module ImagesFacts.

(** ** Parameters *)

Lemma refuse_if_ok b m p : refuse_if b m p = Ok tt ↔ b = false.
Proof. by destruct b. Qed.
Lemma after_refusal {A} b m p (k : res failure A) x : res_bind (refuse_if b m p) (λ _, k) = Ok x ↔ b = false ∧ k = Ok x.
Proof. destruct b; simpl; [split; [done|by intros [? _]]|tauto]. Qed.
Lemma after_check {A} (c : res failure unit) (k : res failure A) x : res_bind c (λ _, k) = Ok x ↔ c = Ok tt ∧ k = Ok x.
Proof. destruct c as [[]|]; simpl; [tauto|split; [done|by intros [? _]]]. Qed.

Lemma negb_mem x l : negb (mem x l) = false ↔ x ∈ l.
Proof. rewrite negb_false_iff. apply mem_spec. Qed.

(** Case analysis on the member of a literal list. *)
Ltac members H :=
  apply mem_spec in H; unfold mem in H; cbn -[String.eqb] in H; rewrite ?orb_true_iff, ?String.eqb_eq in H;
  repeat match type of H with _ ∨ _ => destruct H as [H|H] | False => destruct H | false = true => discriminate H end; subst.

(** The text of a size: two numbers, and maybe a newline. *)
Definition size_text (s : string) (w h : list N) : Prop :=
  w ≠ [] ∧ h ≠ [] ∧ small w ∧ small h ∧ ∃ tail, (tail = "" ∨ tail = newline) ∧ s = (show_digits w ++ String "x" (show_digits h ++ tail))%string.

Lemma take_digits_spec s ds r : take_digits s = (ds, r) → s = (show_digits ds ++ r)%string ∧ small ds ∧ no_digit r.
Proof.
  revert ds r. induction s as [|c s IH]; simpl; intros ds r; [intros [= <- <-]; split_and!; [done|constructor|done]|].
  destruct (char_digit c) as [d|] eqn:Ed.
  - destruct (take_digits s) as [ds' r'] eqn:E. intros [= <- <-]. destruct (IH _ _ eq_refl) as (-> & Hs & Hr). simpl.
    unfold char_digit in Ed. destruct (_ && _) eqn:Hb; [|done]. injection Ed as <-. apply andb_true_iff in Hb as [H1 H2].
    apply N.leb_le in H1, H2. split_and!; [|constructor; [lia|done]|done]. unfold digit_char.
    replace (48 + (Ascii.N_of_ascii c - 48))%N with (Ascii.N_of_ascii c) by lia. by rewrite Ascii.ascii_N_embedding.
  - intros [= <- <-]. split_and!; [done|constructor|done].
Qed.

Lemma size_pattern_spec s w h : _SIZE_PATTERN s = Some (w, h) ↔ size_text s w h.
Proof.
  unfold _SIZE_PATTERN, size_text. split.
  - destruct (take_digits s) as [[|d ds] [|c rest]] eqn:E; try done. destruct (Ascii.eqb_spec c "x") as [->|Hc].
    2:{ intros H. exfalso. revert H. clear -Hc. repeat (match goal with |- context [match ?b with _ => _ end] => is_var b; destruct b end; try done). }
    destruct (take_digits rest) as [[|e es] tail] eqn:E2; [done|]. destruct (_ || _) eqn:Et; [|done]. intros [= <- <-].
    apply take_digits_spec in E as (-> & Hs & _). apply take_digits_spec in E2 as (-> & Hs2 & _). split_and!; [done..|].
    exists tail. split; [|done]. apply orb_true_iff in Et as [?%String.eqb_eq|?%String.eqb_eq]; auto.
  - intros (Hw & Hh & Sw & Sh & tail & Ht & ->). rewrite take_show_digits by done. destruct w as [|d w]; [done|].
    rewrite take_show_digits by (try done; by destruct Ht as [->| ->]). destruct h as [|e h]; [done|].
    by destruct Ht as [->| ->].
Qed.

(** The matrix of the module: the sizes of [gpt-image-2], and what each family of
    models takes. *)
Definition allowed_area (w h : Z) : Prop :=
  (0 < w ∧ 0 < h ∧ w mod 16 = 0 ∧ h mod 16 = 0 ∧ Z.max w h <= 3840 ∧ Z.max w h <= 3 * Z.min w h ∧ 655360 <= w * h <= 8294400)%Z.
Definition free_size (s : string) : Prop :=
  s = "auto" ∨ ∃ w h, size_text s w h ∧ (length w <= 4300)%nat ∧ (length h <= 4300)%nat
                      ∧ allowed_area (Z.of_N (digits_value w)) (Z.of_N (digits_value h)).
Definition accepted (model : string) (is_edit : bool) (max_partial : Z) (p : V1ImagesRequest) : Prop :=
  n p = 1%Z ∧ background p ∈ _BACKGROUND_VALUES ∧ output_format p ∈ _OUTPUT_FORMATS ∧ (0 <= output_compression p <= 100)%Z
  ∧ moderation p ∈ _MODERATION_VALUES ∧ (∀ k, partial_images p = Some k → (0 <= k <= max_partial)%Z)
  ∧ quality p ∈ ["low"; "medium"; "high"; "auto"]
  ∧ (model = "gpt-image-2" ∧ background p ≠ "transparent" ∧ input_fidelity p = None ∧ free_size (size p)
     ∨ model ∈ _LEGACY_GPT_IMAGE_MODELS ∧ size p ∈ _LEGACY_FIXED_SIZES
       ∧ (∀ f, input_fidelity p = Some f → is_edit = true ∧ model ≠ "gpt-image-1-mini" ∧ (f = "low" ∨ f = "high"))).

Lemma area_ok w h : _validate_gpt_image_2_size w h = Ok tt ↔ allowed_area w h.
Proof.
  unfold _validate_gpt_image_2_size, allowed_area. rewrite !after_refusal, refuse_if_ok, !orb_false_iff, !negb_false_iff.
  unfold _GPT_IMAGE_2_MAX_EDGE, _GPT_IMAGE_2_DIM_MULTIPLE, _GPT_IMAGE_2_MIN_PIXELS, _GPT_IMAGE_2_MAX_PIXELS, _GPT_IMAGE_2_RATIO_MAX.
  rewrite !Z.leb_gt, !Z.ltb_ge, !Z.eqb_eq, Z.eqb_neq, qlt_false.
  assert ((0 < w)%Z → (0 < h)%Z → (inject_Z (Z.max w h) / inject_Z (Z.min w h) <= 3)%Q ↔ (Z.max w h <= 3 * Z.min w h)%Z) as Hr.
  { intros Hw Hh. assert (0 < inject_Z (Z.min w h))%Q as Hp by (rewrite <- (Zlt_Qlt 0); lia). split; intros H.
    - apply (Qmult_le_compat_r _ _ (inject_Z (Z.min w h))) in H; [|lra]. rewrite Qmult_comm, Qmult_div_r in H by lra.
      rewrite Zle_Qle, inject_Z_mult. exact H.
    - apply Qle_shift_div_r; [done|]. rewrite Zle_Qle, inject_Z_mult in H. exact H. }
  split.
  - intros ([? ?] & [? ?] & ? & [? Hq] & [? ?]). apply Hr in Hq; [|lia..]. split_and!; lia.
  - intros (? & ? & ? & ? & ? & Hq & ? & ?). apply Hr in Hq; [|lia..]. split_and!; try lia; done.
Qed.

Lemma int_of_digits_ok ds k : int_of_digits ds = Ok k ↔ (length ds <= 4300)%nat ∧ k = Z.of_N (digits_value ds).
Proof.
  unfold int_of_digits, int_max_str_digits. destruct (Nat.ltb_spec 4300 (length ds)); split; intros E; try done; try lia.
  - injection E as <-. by split.
  - by destruct E as [_ ->].
Qed.

Lemma size_ok model s : model ∈ _GPT_IMAGE_2_MODELS ++ _LEGACY_GPT_IMAGE_MODELS →
  validate_image_size model s = Ok tt ↔ (model = "gpt-image-2" ∧ free_size s ∨ model ∈ _LEGACY_GPT_IMAGE_MODELS ∧ s ∈ _LEGACY_FIXED_SIZES).
Proof.
  intros Hm. assert (model = "gpt-image-2" ∧ model ∉ _LEGACY_GPT_IMAGE_MODELS ∨ model ≠ "gpt-image-2" ∧ model ∈ _LEGACY_GPT_IMAGE_MODELS) as Hd.
  { members Hm; [left|right..]; split; try done; set_solver. }
  unfold validate_image_size, free_size. destruct (String.eqb_spec s "auto") as [->|Hs].
  { split; [|done]. intros _. destruct Hd as [[-> _]|[_ H]]; [left; auto|right; split; [done|set_solver]]. }
  destruct (_SIZE_PATTERN s) as [[w h]|] eqn:E.
  - rewrite !res_bind_ok. setoid_rewrite res_bind_ok. setoid_rewrite int_of_digits_ok. pose proof (proj1 (size_pattern_spec _ _ _) E) as Ht.
    destruct Hd as [[-> Hl]|[Hn Hl]].
    + change (mem "gpt-image-2" _GPT_IMAGE_2_MODELS) with true. cbn iota. setoid_rewrite area_ok. split.
      * intros (x & [? ->] & y & [? ->] & ?). left. split; [done|]. right. by exists w, h.
      * intros [[_ [?|(w' & h' & Hx & ? & ? & ?)]]|[? _]]; [done| |done]. apply size_pattern_spec in Hx. rewrite E in Hx. injection Hx as <- <-.
        eexists. split; [by split|]. eexists. split; [by split|done].
    + destruct (mem model _GPT_IMAGE_2_MODELS) eqn:Em; [apply mem_spec in Em; by members Em|]. setoid_rewrite refuse_if_ok. setoid_rewrite negb_mem. split.
      * intros (x & _ & y & _ & ?). by right.
      * intros [[? _]|[_ Hx]]; [done|]. members Hx; try done; vm_compute in E; injection E as <- <-; eexists; (split; [by split; [vm_compute; lia|]|]);
          eexists; (split; [by split; [vm_compute; lia|]|]); set_solver.
  - split; [done|]. intros [[_ [?|(w & h & Hx & _)]]|[_ Hx]]; [done| |].
    + apply size_pattern_spec in Hx. by rewrite E in Hx.
    + by members Hx.
Qed.

Lemma supported_ok model : is_supported_image_model model = true ↔ model ∈ _GPT_IMAGE_2_MODELS ++ _LEGACY_GPT_IMAGE_MODELS.
Proof.
  unfold is_supported_image_model. rewrite andb_true_iff, orb_true_iff, !mem_spec, elem_of_app. split; [tauto|]. intros H. split; [|done].
  apply elem_of_app in H. by members H.
Qed.

Lemma accepted_spec model is_edit max_partial p :
  validate_image_request_parameters model is_edit max_partial p = Ok tt ↔ accepted model is_edit max_partial p.
Proof.
  unfold validate_image_request_parameters. rewrite !after_refusal, !after_check, !negb_mem, !negb_false_iff, supported_ok.
  assert (match partial_images p with
          | Some k => refuse_if ((k <? 0) || (max_partial <? k))%Z ("partial_images must be between 0 and " ++ show_Z max_partial)%string "partial_images"
          | None => Ok tt end = Ok tt ↔ ∀ k, partial_images p = Some k → (0 <= k <= max_partial)%Z) as ->.
  { destruct (partial_images p) as [k|]; [|done]. rewrite refuse_if_ok, orb_false_iff, !Z.ltb_ge. split; [by intros ? ? [= <-]|]. intros H. by apply H. }
  rewrite andb_true_iff, orb_false_iff, !Z.ltb_ge, !Z.leb_le. unfold accepted. split.
  - intros (Hm & Hn & Hb & Hf & Hc & Hmo & Hp & Hk & Hs). rewrite (size_ok _ _ Hm) in Hs. split_and!; try (done || lia).
    + destruct (mem model _); [unfold validate_gpt_image_2 in Hk|unfold validate_legacy in Hk]; rewrite after_refusal, negb_mem in Hk; apply Hk.
    + destruct Hs as [[-> Hs]|[Hl Hs]]; [left|right; split_and!; [done..|]].
      * change (mem "gpt-image-2" _) with true in Hk. cbn iota in Hk. unfold validate_gpt_image_2 in Hk.
        rewrite !after_refusal, refuse_if_ok, String.eqb_neq, bool_decide_eq_false, <- eq_None_not_Some in Hk. by destruct Hk as (_ & ? & ?).
      * intros f Ef. destruct (mem model _) eqn:Em; [apply mem_spec in Em; members Em; by members Hl|]. unfold validate_legacy in Hk. rewrite Ef in Hk.
        rewrite !after_refusal, refuse_if_ok, !negb_mem, negb_false_iff in Hk. destruct Hk as (_ & ? & Hx & Hy).
        split_and!; [done|by members Hx|]. members Hy; auto.
  - intros (Hn & Hb & Hf & Hc & Hmo & Hp & Hq & Hk). assert (model ∈ _GPT_IMAGE_2_MODELS ++ _LEGACY_GPT_IMAGE_MODELS) as Hm.
    { destruct Hk as [[-> _]|[H _]]; [by apply mem_spec|apply elem_of_app; by right]. }
    rewrite (size_ok _ _ Hm). split_and!; try (done || lia); [|tauto]. destruct Hk as [(-> & Ht & Hi & _)|(Hl & _ & Hi)].
    + change (mem "gpt-image-2" _) with true. cbn iota. unfold validate_gpt_image_2. rewrite Hi.
      by rewrite !after_refusal, refuse_if_ok, String.eqb_neq, negb_mem.
    + destruct (mem model _) eqn:Em; [apply mem_spec in Em; members Em; by members Hl|]. unfold validate_legacy. rewrite after_refusal, negb_mem.
      split; [done|]. destruct (input_fidelity p) as [f|]; [|done]. destruct (Hi f eq_refl) as (-> & Hmini & Hv).
      rewrite !after_refusal, refuse_if_ok, !negb_mem. split_and!; [done| |destruct Hv as [->| ->]; by apply mem_spec].
      members Hl; [by apply mem_spec..|done].
Qed.

(** A request is accepted exactly if it is in the matrix that the module
    documents: one image, known values, and for [gpt-image-2] a size whose edges
    are multiples of 16 up to 3840, at most 3:1, within the limits of the area;
    the size may end with a newline, which is sent on. *)
Theorem image_request_accepted model is_edit max_partial p :
  validate_image_request_parameters model is_edit max_partial p = Ok tt ↔ accepted model is_edit max_partial p.
Proof. apply accepted_spec. Qed.

(** ** Data URLs *)

Lemma bytes_ind (P : string → Prop) : P "" → (∀ a, P (String a "")) → (∀ a b, P (String a (String b ""))) →
  (∀ a b c r, P r → P (String a (String b (String c r)))) → ∀ s, P s.
Proof.
  intros H0 H1 H2 H3. fix IH 1. intros [|a [|b [|c r]]]; [exact H0|apply H1|apply H2|apply H3, IH].
Qed.

Definition sextets : list N := map N.of_nat (seq 0 64).
Lemma sextet_in v : (v < 64)%N → v ∈ sextets.
Proof.
  intros H. apply list_elem_of_In, in_map_iff. exists (N.to_nat v). split; [lia|]. apply in_seq. lia.
Qed.
Lemma sextet_chars : forallb (λ v, bool_decide (value64 (char64 v) = Some v) && negb (Ascii.eqb (char64 v) "=") && negb (is_space (char64 v))) sextets = true.
Proof. by vm_compute. Qed.
Lemma char64_spec v : (v < 64)%N → value64 (char64 v) = Some v ∧ Ascii.eqb (char64 v) "=" = false ∧ is_space (char64 v) = false.
Proof.
  intros H%sextet_in. pose proof sextet_chars as Hf. rewrite forallb_forall in Hf. apply list_elem_of_In, Hf in H.
  rewrite !andb_true_iff, !negb_true_iff, bool_decide_eq_true in H. tauto.
Qed.
Lemma code_bound c : (code c < 256)%N.
Proof. apply Ascii.N_ascii_bounded. Qed.
Lemma byte_of_code k c : k = code c → byte k = c.
Proof. intros ->. apply ascii_roundtrip. Qed.

Ltac euclid := zify; Z.to_euclidean_division_equations; lia.
Lemma value64_char64 v : (v < 64)%N → value64 (char64 v) = Some v.
Proof. apply char64_spec. Qed.
Lemma char64_data v : (v < 64)%N → Ascii.eqb (char64 v) "=" = false.
Proof. apply char64_spec. Qed.

Lemma b64_roundtrip s : b64decode (b64encode s) = Some s.
Proof.
  induction s as [|a|a b|a b c r IH] using bytes_ind; [done|..].
  - pose proof (code_bound a). cbn [b64encode b64decode]. rewrite !value64_char64 by euclid. cbn. unfold byte1. do 2 f_equal.
    apply byte_of_code. euclid.
  - pose proof (code_bound a). pose proof (code_bound b). cbn [b64encode b64decode]. rewrite !value64_char64, char64_data by euclid. cbn.
    unfold byte1, byte2. do 2 f_equal; [|f_equal]; apply byte_of_code; euclid.
  - pose proof (code_bound a). pose proof (code_bound b). pose proof (code_bound c). cbn [b64encode b64decode].
    rewrite !value64_char64, char64_data, IH, andb_false_r by euclid. cbn.
    unfold byte1, byte2, byte3. do 2 f_equal; [|f_equal; [|f_equal]]; apply byte_of_code; euclid.
Qed.

Lemma b64_no_space s : SseFacts.every (λ c, negb (is_space c)) (b64encode s) = true.
Proof.
  assert (∀ v, (v < 64)%N → negb (is_space (char64 v)) = true) as Hc by (intros v Hv; apply negb_true_iff, (char64_spec v Hv)).
  induction s as [|a|a b|a b c r IH] using bytes_ind; [done|..]; cbn [b64encode SseFacts.every]; rewrite ?IH, !Hc; try done;
    pose proof (code_bound a); try pose proof (code_bound b); try pose proof (code_bound c); euclid.
Qed.

Lemma rstrip_tail s t : t ≠ "" → SseFacts.every (λ c, negb (is_space c)) t = true → rstrip (s ++ t) = (s ++ t)%string.
Proof.
  intros Hne Ht. assert (rstrip t = t) as Hr.
  { clear Hne. revert Ht. induction t as [|c t IH]; [done|]. cbn [SseFacts.every rstrip]. intros [Hc Ht]%andb_true_iff. rewrite (IH Ht).
    apply negb_true_iff in Hc. rewrite Hc. by destruct t. }
  induction s as [|c s IH]; rewrite ?app_empty, ?app_cons; [done|]. cbn [rstrip]. rewrite IH. destruct s; rewrite ?app_empty, ?app_cons; by destruct t.
Qed.

Lemma cut_before_app m r : contains ";" m = false → cut_before ";" (m ++ String ";" r) = (m, String ";" r).
Proof.
  induction m as [|c m IH]; [done|]. rewrite app_cons. cbn [contains cut_before]. intros [Hc Hm]%orb_false_iff. rewrite (IH Hm).
  destruct (Ascii.eqb_spec c ";") as [->|]; [by destruct m|done].
Qed.

Lemma strip_prefix_front p s : strip_prefix p (p ++ s) = Some s.
Proof. induction p as [|c p IH]; [done|]. rewrite app_cons. cbn [strip_prefix]. by rewrite Ascii.eqb_refl. Qed.

Lemma resolved_mime_filled mime : resolved_mime mime ≠ "".
Proof. unfold resolved_mime, none_if_empty. by destruct (py_strip _). Qed.

(** An uploaded part is sent upstream as a URL from which its bytes and its type
    are read back, if there are bytes and the type has no parameters. *)
Theorem image_part_roundtrip bytes mime :
  bytes ≠ "" → contains ";" (resolved_mime mime) = false →
  match get_str "image_url" (_build_input_image_part bytes mime) with
  | Some url => decode_data_url url = Ok (bytes, Some (resolved_mime mime))
  | None => False
  end.
Proof.
  intros Hb Hm. cbn. set (m := resolved_mime mime) in *. assert (m ≠ "") as Hne by apply resolved_mime_filled.
  set (e := b64encode bytes). assert (e ≠ "") as He by (unfold e; by destruct bytes as [|? [|? [|? ?]]]).
  unfold decode_data_url, py_strip.
  change (lstrip ("data:" ++ m ++ ";base64," ++ e)%string) with ("data:" ++ m ++ ";base64," ++ e)%string.
  replace ("data:" ++ m ++ ";base64," ++ e)%string with (("data:" ++ m ++ ";base64,") ++ e)%string by (by rewrite !app_assoc').
  rewrite rstrip_tail by (done || apply b64_no_space). rewrite !app_assoc'. unfold _DATA_URL_PATTERN.
  rewrite strip_prefix_front. cbn [mbind option_bind]. change (";base64," ++ e)%string with (String ";" ("base64," ++ e)).
  rewrite cut_before_app by done. change (String ";" ("base64," ++ e)) with (";base64," ++ e)%string. rewrite strip_prefix_front. cbn [mbind option_bind].
  rewrite (proj2 (String.eqb_neq _ _) Hne), (proj2 (String.eqb_neq _ _) He). cbn [orb]. unfold e. rewrite b64_roundtrip. by destruct m.
Qed.

(** ** Streams *)

Definition typed (ty : string) (event : dict json) : Prop := get_str "type" event = Some ty.
(** The events handed to the client. *)
Definition events (t : translation) : list (dict json) := omap shown (moments t).

Lemma events_emit e t : events (emit e t) = events t ++ [e].
Proof. unfold events, emit. destruct t. simpl. by rewrite omap_app. Qed.
Lemma events_wait t : events (wait t) = events t.
Proof. unfold events, wait. destruct t. simpl. by rewrite omap_app, app_nil_r. Qed.
Lemma events_emit_all es t : events (emit_all es t) = events t ++ es.
Proof.
  unfold emit_all. revert t. induction es as [|e es IH]; intros t; simpl; [by rewrite app_nil_r|]. by rewrite IH, events_emit, <- app_assoc.
Qed.
Lemma emit_all_same es t : captured (emit_all es t) = captured t ∧ pending_completed_events (emit_all es t) = pending_completed_events t
  ∧ terminal_emitted (emit_all es t) = terminal_emitted t ∧ completion_pending (emit_all es t) = completion_pending t.
Proof. unfold emit_all. revert t. induction es as [|e es IH]; intros t; simpl; [done|]. destruct (IH (emit e t)) as (-> & -> & -> & ->). by destruct t. Qed.

Lemma flush_done t : terminal_emitted t = true → flush t = t.
Proof.
  intros H. unfold flush. replace (match pending_completed_events t with [] => t | _ => _ end) with t by (rewrite H; by destruct (pending_completed_events t)).
  by rewrite H, andb_false_r.
Qed.

Section Shape.
Context (is_edit : bool).
Notation partial := (typed (partial_event_type is_edit)).
Notation completed := (typed (completed_event_type is_edit)).

(** What ends a stream: the images, or one error. *)
Definition terminal_group (g : list (dict json)) : Prop := g ≠ [] ∧ Forall completed g ∨ ∃ e, g = [e] ∧ typed "error" e.

Definition open (t : translation) : Prop :=
  terminal_emitted t = false ∧ completion_pending t = true ∧ Forall completed (pending_completed_events t) ∧ Forall partial (events t).
Definition closed (t : translation) : Prop :=
  terminal_emitted t = true ∧ ∃ ps g, events t = ps ++ g ∧ Forall partial ps ∧ terminal_group g.

Lemma open_error e t : open t → typed "error" e → closed (finish (emit e t)).
Proof.
  intros (_ & _ & _ & Hp) He. split; [by destruct t|]. exists (events t), [e]. split; [|split; [done|right; by exists e]].
  change (events (finish (emit e t))) with (events (emit e t)). apply events_emit.
Qed.

Lemma dict_set_typed ty k v e : k ≠ "type" → typed ty e → typed ty (dict_set e k v).
Proof. intros Hk He. unfold typed, get_str in *. rewrite dict_get_set. by rewrite (proj2 (String.eqb_neq _ _)) by done. Qed.
Lemma with_usage_typed u g : Forall completed g → Forall completed (with_usage u g) ∧ (g ≠ [] → with_usage u g ≠ []).
Proof.
  induction 1 as [|e g He Hg [IH _]]; [done|]. split; [|by destruct g]. destruct g as [|e' g]; [|by constructor].
  constructor; [|done]. destruct u; [|done]. by apply dict_set_typed.
Qed.

Lemma built_partial now payload e : _build_partial_image_event now payload (partial_event_type is_edit) = Ok (Some e) → partial e.
Proof. unfold _build_partial_image_event. destruct (filled_str _ _); [|done]. destruct (_coerce_created_at _ _); [|done]. by intros [= <-]. Qed.
Lemma built_completed now item e : _build_completed_event now item (completed_event_type is_edit) = Ok (Some e) → completed e.
Proof.
  unfold _build_completed_event. destruct (negb _); [done|]. destruct (filled_str _ _); [|done]. destruct (_coerce_created_at _ _); [|done].
  by intros [= <-].
Qed.

Definition turned (o : turn) : Prop :=
  match o with Continue t => open t | Break t => closed t | Raise t _ => Forall partial (events t) end.

Lemma on_item_done_turned now payload t : open t → turned (on_item_done is_edit now payload t).
Proof.
  intros Ht. unfold on_item_done. destruct (get_obj _ _) as [item|]; [|done]. destruct (negb _); [done|]. destruct (failed_item item); [by apply open_error|].
  destruct (_build_completed_event _ _ _) as [[e|]|] eqn:E; [|done|apply Ht]. destruct Ht as (? & ? & ? & ?). split_and!; try done.
  simpl. apply Forall_app. split; [done|]. constructor; [by eapply built_completed|done].
Qed.

Lemma stash_same u t : let '(t', _) := stash u t in
  events t' = events t ∧ pending_completed_events t' = pending_completed_events t ∧ terminal_emitted t' = terminal_emitted t
  ∧ completion_pending t' = completion_pending t.
Proof. unfold stash. destruct u as [u|]; [|done]. by destruct (_stash_image_usage_tokens _ _). Qed.

Lemma on_completed_turned payload t : open t → turned (on_completed payload t).
Proof.
  intros Ht. unfold on_completed. destruct (match get_obj _ _ with Some _ => _ | None => _ end) as [u|]; [|apply Ht].
  pose proof (stash_same u t) as Hs. destruct (stash u t) as [t' e]. destruct Hs as (He & Hpe & Hte & Hcp).
  assert (open t') as Ht' by (unfold open; rewrite He, Hpe, Hte, Hcp; exact Ht). destruct e as [e|]; [apply Ht'|].
  destruct (Ht') as (Hto & _ & Hpend & Hpart). destruct (pending_completed_events t') as [|e es] eqn:Ep.
  - rewrite Hto. by apply open_error.
  - split; [done|]. destruct (with_usage_typed u (e :: es) Hpend) as [Hw Hn]. exists (events t'), (with_usage u (e :: es)).
    split; [|split; [done|left; split; [by apply Hn|done]]].
    change (events (emit_all (with_usage u (e :: es)) t') = events t' ++ with_usage u (e :: es)). apply events_emit_all.
Qed.

Lemma translate_line_turned now l t : open t → turned (translate_line is_edit now l t).
Proof.
  intros Ht. unfold translate_line. destruct (upstream_event l) as [[ty payload]|]; [|done].
  set (t' := t {{ captured := _ }}). assert (open t') as Ht' by exact Ht. clearbody t'. unfold translate_event.
  case_if. { unfold on_partial. destruct (_build_partial_image_event _ _ _) as [[e|]|] eqn:E; [|done|apply Ht'].
    destruct Ht' as (? & ? & ? & ?). split_and!; try done. rewrite events_emit. apply Forall_app. split; [done|].
    constructor; [by eapply built_partial|done]. }
  case_if; [by apply on_item_done_turned|]. case_if; [by apply on_completed_turned|].
  case_if. { unfold on_incomplete. destruct (Ht') as (-> & _). by apply open_error. }
  case_if; [by apply open_error|]. case_if; [by apply open_error|done].
Qed.

Lemma translate_lines_turned clock ls ending t : open t →
  match translate_lines is_edit clock ls ending t with
  | (t', Some _, _) => Forall partial (events t')
  | (t', None, _) => open t' ∨ closed t'
  end.
Proof.
  revert clock t. induction ls as [|l ls IH]; intros clock t Ht; cbn [translate_lines].
  - assert (open (wait t)) as Hw by (unfold open; rewrite events_wait; exact Ht). destruct ending; [apply Hw|by left].
  - assert (open (wait t)) as Hw by (unfold open; rewrite events_wait; exact Ht).
    pose proof (translate_line_turned (clock 0%nat) l (wait t) Hw) as Hl. destruct (translate_line _ _ _ _); [by apply IH|by right|done].
Qed.

Lemma flush_ends t : open t ∨ closed t → ∃ ps g, events (flush t) = ps ++ g ∧ Forall partial ps ∧ terminal_group g.
Proof.
  unfold flush. intros [(Hto & Hcp & Hpend & Hpart)|[Hto H]].
  - destruct (pending_completed_events t) as [|e es] eqn:Ep.
    + rewrite Hcp, Hto. cbn [negb andb]. rewrite events_emit. eexists _, _. split; [done|]. split; [done|]. right. by eexists.
    + rewrite Hto. destruct (emit_all_same (e :: es) t) as (_ & _ & _ & Hc). set (t' := emit_all (e :: es) t) in *.
      change (completion_pending (t' {{ pending_completed_events := [] }} {{ terminal_emitted := true }})) with (completion_pending t').
      change (terminal_emitted (t' {{ pending_completed_events := [] }} {{ terminal_emitted := true }})) with true. rewrite andb_false_r.
      exists (events t), (e :: es). split; [|split; [done|by left]]. change (events t' = events t ++ e :: es). apply events_emit_all.
  - fold (flush t). by rewrite (flush_done t Hto).
Qed.

Lemma chunks_of_moments ms tail c : omap fst (map moment_of ms ++ map (λ x, (Some x, c)) tail) = map Event (omap shown ms) ++ tail.
Proof.
  rewrite omap_app. f_equal; [|induction tail as [|x l IH]; [done|by apply (f_equal (cons x)) in IH]].
  induction ms as [|[[e|] c'] ms IH]; [done| |exact IH]. by apply (f_equal (cons (Event e))) in IH.
Qed.

(** C39. Whatever the upstream sends, the client is given partial images, then the
    images or one error, then the end mark; if the translation fails, nothing
    but partial images. *)
Theorem image_stream_shape clock u :
  let r := translate_responses_stream_to_images_stream is_edit clock u in
  ∃ ps g, Forall partial ps
    ∧ match tr_raises r with
      | None => chunks r = map Event (ps ++ g) ++ [Done] ∧ terminal_group g
      | Some _ => chunks r = map Event ps
      end.
Proof.
  cbn zeta. unfold translate_responses_stream_to_images_stream, chunks.
  assert (open translation_start) as H0 by (split_and!; constructor).
  pose proof (translate_lines_turned clock (lines u) (ending u) _ H0) as H. destruct (translate_lines _ _ _ _ _) as [[t [e|]] unread].
  - exists (events t), []. split; [done|]. cbn. rewrite <- (app_nil_r (map moment_of _)), (chunks_of_moments _ [] nothing_captured). apply app_nil_r.
  - apply flush_ends in H as (ps & g & He & Hp & Hg). exists ps, g. split; [done|]. cbn [tr_raises tr_moments]. split; [|done].
    rewrite <- He. exact (chunks_of_moments (moments (flush t)) [Done] (captured (flush t))).
Qed.

End Shape.

(** ** Streamed and collected answers *)

Definition terminal_types : list string :=
  [_UPSTREAM_RESPONSE_COMPLETED_EVENT; _UPSTREAM_RESPONSE_INCOMPLETE_EVENT; _UPSTREAM_RESPONSE_FAILED_EVENT; _UPSTREAM_ERROR_EVENT].
(** The type of the event of a line is none of [types]. *)
Definition none_of (types : list string) (line : string) : Prop :=
  match upstream_event line with Some (ty, _) => ty ∉ types | None => True end.
(** A finished item of the output: its event and itself. *)
Definition arrival (line : string) : option (dict json * dict json) :=
  match upstream_event line with
  | Some (ty, payload) =>
      if String.eqb ty _UPSTREAM_OUTPUT_ITEM_DONE_EVENT then item ← get_obj "item" payload; Some (payload, item) else None
  | None => None
  end.
Definition arrived (ls : list string) : list (dict json) := map snd (omap arrival ls).
Definition indexes (ls : list string) : list (option Z) := map (λ p, int_index (get_or_null "output_index" p.1)) (omap arrival ls).
(** The items come with indexes that increase. *)
Definition in_order (ls : list string) : Prop := ∃ ks, indexes ls = map Some ks ∧ StronglySorted Z.lt ks.

Definition image_items (items : list (dict json)) : list (dict json) := List.filter image_call items.
(** The images of the items, if none of them failed. *)
Definition image_texts (items : list (dict json)) : list string :=
  if existsb failed_item (image_items items) then [] else omap (filled_str "result") (image_items items).

(** The images a client is given. *)
Definition shown_image (is_edit : bool) (e : dict json) : option string :=
  if is_str (completed_event_type is_edit) (get_or_null "type" e) then get_str "b64_json" e else None.
Definition streamed_images (is_edit : bool) (r : translated) : list string :=
  omap (λ c, match c with Event e => shown_image is_edit e | Done => None end) (chunks r).
Definition collected_images (now : Z) (r : collected) : list string :=
  match cl_result r with
  | Ok (inl response) =>
      match images_response_from_responses now response with Ok (inl images) => map b64_json (data images) | _ => [] end
  | _ => []
  end.

Section Agree.
Context (is_edit : bool).
Notation img := (shown_image is_edit).

Lemma img_partial e : typed (partial_event_type is_edit) e → img e = None.
Proof.
  unfold typed, shown_image, get_str, get_or_null. destruct (dict_get e "type") as [[]|]; try done. intros [= ->]. by destruct is_edit.
Qed.
Lemma img_error e : typed "error" e → img e = None.
Proof.
  unfold typed, shown_image, get_str, get_or_null. destruct (dict_get e "type") as [[]|]; try done. intros [= ->]. by destruct is_edit.
Qed.
Lemma img_set e k v : k ≠ "type" → k ≠ "b64_json" → img (dict_set e k v) = img e.
Proof.
  intros H1 H2. unfold shown_image, get_str, get_or_null. by rewrite !dict_get_set, (proj2 (String.eqb_neq _ _) (not_eq_sym H1)), (proj2 (String.eqb_neq _ _) (not_eq_sym H2)).
Qed.
Lemma img_usage u es : omap img (with_usage u es) = omap img es.
Proof.
  induction es as [|e es IH]; [done|]. destruct es as [|e' es].
  - cbn. destruct u; [|done]. by rewrite img_set.
  - change (with_usage u (e :: e' :: es)) with (e :: with_usage u (e' :: es)). cbn. cbn in IH. by rewrite IH.
Qed.
Lemma img_partials es : Forall (typed (partial_event_type is_edit)) es → omap img es = [].
Proof. induction 1 as [|e es He _ IH]; [done|]. cbn. by rewrite (img_partial e He). Qed.

Lemma img_built now item e : _build_completed_event now item (completed_event_type is_edit) = Ok (Some e) →
  ∃ b, filled_str "result" item = Some b ∧ img e = Some b.
Proof.
  unfold _build_completed_event. destruct (negb _); [done|]. destruct (filled_str _ _) as [b|]; [|done]. destruct (_coerce_created_at _ _); [|done].
  intros [= <-]. exists b. split; [done|]. unfold shown_image. cbn. by destruct is_edit.
Qed.
Lemma img_not_built now item : _build_completed_event now item (completed_event_type is_edit) = Ok None → image_call item = true →
  filled_str "result" item = None.
Proof.
  unfold _build_completed_event. intros H Hi. rewrite Hi in H. cbn in H. destruct (filled_str _ _); [|done]. by destruct (_coerce_created_at _ _).
Qed.

Lemma arrived_app a b : arrived (a ++ b) = arrived a ++ arrived b.
Proof. unfold arrived. by rewrite omap_app, map_app. Qed.
Lemma image_items_app a b : image_items (a ++ b) = image_items a ++ image_items b.
Proof. apply List.filter_app. Qed.
Lemma arrived_line l : arrived [l] = match arrival l with Some p => [p.2] | None => [] end.
Proof. unfold arrived. cbn. by destruct (arrival l). Qed.

Lemma none_of_tests ty : ty ∉ terminal_types →
  String.eqb ty _UPSTREAM_RESPONSE_COMPLETED_EVENT = false ∧ String.eqb ty _UPSTREAM_RESPONSE_INCOMPLETE_EVENT = false
  ∧ String.eqb ty _UPSTREAM_RESPONSE_FAILED_EVENT = false ∧ String.eqb ty _UPSTREAM_ERROR_EVENT = false.
Proof. intros H. rewrite !String.eqb_neq. split_and!; intros ->; apply H; set_solver. Qed.

(** One line before the end of the response. *)
Definition line_effect (l : string) (t : translation) (o : turn) : Prop :=
  match o with
  | Continue t' => open is_edit t' ∧ existsb failed_item (image_items (arrived [l])) = false
      ∧ omap img (pending_completed_events t') = omap img (pending_completed_events t) ++ omap (filled_str "result") (image_items (arrived [l]))
  | Break t' => terminal_emitted t' = true ∧ omap img (events t') = [] ∧ existsb failed_item (image_items (arrived [l])) = true
  | Raise _ _ => True
  end.

Lemma item_effect now payload t : open is_edit t →
  match on_item_done is_edit now payload t, get_obj "item" payload with
  | Continue t', None => t' = t
  | Continue t', Some item => open is_edit t' ∧ existsb failed_item (image_items [item]) = false
      ∧ omap img (pending_completed_events t') = omap img (pending_completed_events t) ++ omap (filled_str "result") (image_items [item])
  | Break t', Some item => terminal_emitted t' = true ∧ omap img (events t') = [] ∧ existsb failed_item (image_items [item]) = true
  | Break _, None => False
  | Raise _ _, _ => True
  end.
Proof.
  intros Ht. pose proof (on_item_done_turned is_edit now payload t Ht) as Hturn. unfold on_item_done in *.
  destruct (get_obj "item" payload) as [item|]; [|done]. unfold image_items. cbn [List.filter].
  destruct (image_call item) eqn:Hi; cbn [negb] in *; [|split_and!; [done..|by rewrite app_nil_r]].
  cbn [existsb]. rewrite orb_false_r. destruct (failed_item item) eqn:Hf.
  { split_and!; [by destruct t| |done]. change (events (finish _)) with (events (emit (_failed_image_item_error_event item) t)).
    destruct Ht as (_ & _ & _ & Hp). rewrite events_emit, omap_app, (img_partials _ Hp). by destruct is_edit. }
  destruct (_build_completed_event _ _ _) as [[e|]|] eqn:E; [| |done].
  - destruct (img_built _ _ _ E) as (b & Hb & He). split_and!; [done..|]. cbn. rewrite omap_app. cbn. by rewrite Hb, He.
  - split_and!; [done..|]. cbn. by rewrite (img_not_built _ _ E Hi), app_nil_r.
Qed.

Lemma translate_line_effect now l t : open is_edit t → none_of terminal_types l → line_effect l t (translate_line is_edit now l t).
Proof.
  intros Ht Hn. pose proof (translate_line_turned is_edit now l t Ht) as Hturn. unfold line_effect, translate_line, none_of in *.
  rewrite arrived_line. unfold arrival. destruct (upstream_event l) as [[ty payload]|]; [|split_and!; [done..|by rewrite app_nil_r]].
  set (t' := t {{ captured := _ }}) in *. assert (open is_edit t') as Ht' by exact Ht.
  assert (pending_completed_events t' = pending_completed_events t) as Hp by done. rewrite <- Hp. clearbody t'. unfold translate_event in *.
  destruct (none_of_tests ty Hn) as (H1 & H2 & H3 & H4). rewrite H1, H2, H3, H4 in *. destruct (String.eqb_spec ty _UPSTREAM_PARTIAL_IMAGE_EVENT) as [->|].
  { change (String.eqb _UPSTREAM_PARTIAL_IMAGE_EVENT _UPSTREAM_OUTPUT_ITEM_DONE_EVENT) with false. cbn iota. unfold on_partial in *.
    destruct (_build_partial_image_event _ _ _) as [[e|]|]; [| |done]; refine (conj Hturn (conj eq_refl _)); by rewrite app_nil_r. }
  destruct (String.eqb ty _UPSTREAM_OUTPUT_ITEM_DONE_EVENT); [|split_and!; [done..|by rewrite app_nil_r]].
  pose proof (item_effect now payload t' Ht') as H. destruct (get_obj "item" payload) as [item|]; cbn [mbind option_bind] in *.
  - by destruct (on_item_done _ _ _ _).
  - destruct (on_item_done _ _ _ _); [|done..]. subst. split_and!; [done..|by rewrite app_nil_r].
Qed.

Lemma translate_before ls clock t rest en : open is_edit t → Forall (none_of terminal_types) ls →
  (∃ clock' t', translate_lines is_edit clock (ls ++ rest) en t = translate_lines is_edit clock' rest en t' ∧ open is_edit t'
      ∧ existsb failed_item (image_items (arrived ls)) = false
      ∧ omap img (pending_completed_events t') = omap img (pending_completed_events t) ++ omap (filled_str "result") (image_items (arrived ls)))
  ∨ (∃ t' unread, translate_lines is_edit clock (ls ++ rest) en t = (t', None, unread) ∧ terminal_emitted t' = true ∧ omap img (events t') = []
      ∧ existsb failed_item (image_items (arrived ls)) = true)
  ∨ (∃ t' e unread, translate_lines is_edit clock (ls ++ rest) en t = (t', Some e, unread)).
Proof.
  intros Ht Hls. revert clock t Ht. induction Hls as [|l ls Hl _ IH]; intros clock t Ht.
  { left. exists clock, t. split_and!; [done..|by rewrite app_nil_r]. }
  assert (open is_edit (wait t)) as Hw by (unfold open; rewrite events_wait; exact Ht).
  pose proof (translate_line_effect (clock 0%nat) l (wait t) Hw Hl) as H. unfold line_effect in H. cbn [app translate_lines].
  change (l :: ls) with ([l] ++ ls). rewrite arrived_app, image_items_app, existsb_app, omap_app.
  destruct (translate_line _ _ _ _) as [t'|t'|t' e].
  - destruct H as (Ho & -> & Hp). destruct (IH (λ i, clock (S i)) t' Ho) as [(c & t2 & E & Ho2 & Hf & Hp2)|[(t2 & un & E & Hx)|(t2 & e & un & E)]].
    + left. exists c, t2. split_and!; [done..|]. rewrite Hp2, Hp. by rewrite <- app_assoc.
    + right. left. by exists t2, un.
    + right. right. by exists t2, e, un.
  - destruct H as (Hto & He & ->). right. left. exists t', (ls ++ rest). by rewrite orb_true_l.
  - right. right. eexists _, _, _. done.
Qed.

(** *** The collected side *)

Lemma set_item_fresh i item items : Forall (λ p, (p.1 < i)%Z) items → set_item i item items = items ++ [(i, item)].
Proof.
  induction 1 as [|[j x] items Hj _ IH]; [done|]. cbn in *. destruct (Z.eqb_spec i j); [lia|]. by rewrite IH.
Qed.
Lemma ordered_already (items : list (Z * dict json)) : StronglySorted Z.lt (map fst items) → order_by (asc fst) items = items.
Proof.
  induction items as [|[i x] items IH]; [done|]. cbn [map fst]. intros [Hs Hi]%StronglySorted_inv.
  change (order_by (asc fst) ((i, x) :: items)) with (insert_ordered (asc fst) (i, x) (order_by (asc fst) items)). rewrite (IH Hs).
  destruct items as [|[j y] items]; [done|]. cbn. apply Forall_inv in Hi. cbn in Hi. unfold at_most, asc, pycmp, PyOrd_Z. cbn.
  by rewrite (proj2 (Z.compare_lt_iff i j) Hi).
Qed.
Lemma sorted_below ks k rest : StronglySorted Z.lt (ks ++ k :: rest) → Forall (λ j, (j < k)%Z) ks.
Proof.
  induction ks as [|j ks IH]; [done|]. cbn. intros [Hs Hj]%StronglySorted_inv. constructor; [|by apply IH].
  apply Forall_app in Hj as [_ Hj]. by apply Forall_inv in Hj.
Qed.

Definition gathering_items (c : collecting) : Prop := fallback_items c = [] ∧ final_response c = None ∧ terminal_error c = None.

Lemma collect_before ls ks c rest en : gathering_items c → Forall (none_of terminal_types) ls → indexes ls = map Some ks →
  StronglySorted Z.lt (map fst (output_items c) ++ ks) →
  ∃ c', collect_lines (ls ++ rest) en c = collect_lines rest en c' ∧ gathering_items c' ∧ output_items c' = output_items c ++ zip ks (arrived ls).
Proof.
  intros Hc Hls. revert ks c Hc. induction Hls as [|l ls Hl _ IH]; intros ks c Hc Hk Hs.
  { exists c. split_and!; [done..|]. destruct ks; [|done]. cbn. by rewrite app_nil_r. }
  cbn [app collect_lines]. unfold collect_line. unfold none_of in Hl. change (l :: ls) with ([l] ++ ls) in *. rewrite arrived_app, arrived_line.
  unfold indexes in Hk. rewrite omap_app, map_app in Hk. cbn [omap list_omap] in Hk. unfold arrival in *.
  destruct (upstream_event l) as [[ty payload]|]; [|by apply IH].
  set (c1 := c {{ co_captured := _ }}). assert (gathering_items c1) as Hc1 by exact Hc.
  assert (output_items c1 = output_items c) as Ho by done. rewrite <- Ho in *. clearbody c1. clear Ho.
  unfold collect_event. destruct (none_of_tests ty Hl) as (H1 & H2 & H3 & H4). rewrite H1, H2, H3, H4. cbn [andb].
  destruct (String.eqb ty _UPSTREAM_OUTPUT_ITEM_DONE_EVENT); [|by apply IH].
  unfold collect_item. destruct (get_obj "item" payload) as [item|]; cbn [mbind option_bind map app fst snd] in *; [|by apply IH].
  destruct ks as [|k ks]; [done|]. cbn [map] in Hk. injection Hk as Hk0 Hk. rewrite Hk0.
  set (c2 := c1 {{ output_items := _ }}). assert (output_items c2 = output_items c1 ++ [(k, item)]) as E2.
  { cbn. apply set_item_fresh. apply sorted_below in Hs. rewrite Forall_map in Hs. exact Hs. }
  destruct (IH ks c2) as (c' & E & Hg & Ho'); [exact Hc1|done|rewrite E2, map_app, <- app_assoc; exact Hs|]. exists c'. split_and!; try apply Hg; [done|].
  rewrite Ho', E2, <- app_assoc. done.
Qed.

Lemma collect_after ls c r en : Forall (none_of [_UPSTREAM_RESPONSE_INCOMPLETE_EVENT]) ls → final_response c = Some r → terminal_error c = None →
  ∃ c', collect_lines ls en c = (c', en, []) ∧ final_response c' = Some r ∧ terminal_error c' = None.
Proof.
  intros Hls. revert c. induction Hls as [|l ls Hl _ IH]; intros c Hf Ht; [by exists c|]. cbn [collect_lines]. unfold collect_line. unfold none_of in Hl.
  destruct (upstream_event l) as [[ty payload]|]; [|by apply IH]. set (c1 := c {{ co_captured := _ }}).
  assert (final_response c1 = Some r) as Hf1 by done. assert (terminal_error c1 = None) as Ht1 by done. clearbody c1.
  unfold collect_event, unless_completed. rewrite Hf1. rewrite bool_decide_eq_false_2, andb_false_r by done.
  destruct (String.eqb_spec ty _UPSTREAM_RESPONSE_INCOMPLETE_EVENT) as [->|]; [set_solver|]. cbn [andb].
  destruct (String.eqb ty _UPSTREAM_OUTPUT_ITEM_DONE_EVENT); [|repeat case_if; by apply IH].
  unfold collect_item. destruct (get_obj "item" payload); [|by apply IH]. destruct (int_index _); by apply IH.
Qed.

(** The response the collector makes of the items. *)
Lemma extract_with_output base v : _extract_image_usage (dict_set base "output" v) = _extract_image_usage base.
Proof. unfold _extract_image_usage, image_gen_usage, get_obj. by rewrite dict_get_set. Qed.
Lemma select_objects items : _select_image_items (map JObj items) = image_items items.
Proof.
  unfold image_items. induction items as [|d items IH]; [done|]. cbn. rewrite <- IH. by destruct (image_call d).
Qed.
Lemma find_failed l : match List.find failed_item l with Some _ => existsb failed_item l = true | None => existsb failed_item l = false end.
Proof. induction l as [|d l IH]; [done|]. cbn. by destruct (failed_item d). Qed.
Lemma image_data_texts l : map b64_json (omap image_data l) = omap (filled_str "result") l.
Proof.
  induction l as [|d l IH]; [done|]. change (d :: l) with ([d] ++ l). rewrite !omap_app, map_app, IH. f_equal. cbn. unfold image_data.
  by destruct (filled_str "result" d).
Qed.

Lemma response_images now base items : is_ok (_extract_image_usage base) = true →
  match images_response_from_responses now (dict_set base "output" (JList (map JObj items))) with
  | Ok (inl images) => map b64_json (data images) | _ => []
  end = image_texts items.
Proof.
  intros Hu. unfold images_response_from_responses, image_texts, get_list. rewrite dict_get_set, String.eqb_refl, select_objects, extract_with_output.
  destruct (image_items items) as [|d l]; [done|]. pose proof (find_failed (d :: l)) as Hf.
  destruct (List.find failed_item (d :: l)); rewrite Hf; [done|]. rewrite <- image_data_texts.
  destruct (omap image_data (d :: l)) as [|e es]; [done|]. by destruct (_extract_image_usage base).
Qed.

Lemma streamed_of clock u t unread : translate_lines is_edit clock (lines u) (ending u) translation_start = (t, None, unread) → terminal_emitted t = true →
  streamed_images is_edit (translate_responses_stream_to_images_stream is_edit clock u) = omap img (events t).
Proof.
  intros E Ht. unfold translate_responses_stream_to_images_stream, streamed_images, chunks. rewrite E, (flush_done t Ht). cbn [tr_moments].
  assert (omap fst (map moment_of (moments t) ++ [(Some Done, captured t)]) = map Event (events t) ++ [Done]) as Hm
    by exact (chunks_of_moments (moments t) [Done] (captured t)).
  rewrite Hm, omap_app, app_nil_r. clear. induction (events t) as [|e es IH]; [done|]. change (e :: es) with ([e] ++ es).
  rewrite map_app, !omap_app, IH. f_equal.
Qed.

Lemma stash_failure c c' u : (_stash_image_usage_tokens c u).2 = (_stash_image_usage_tokens c' u).2.
Proof. unfold _stash_image_usage_tokens. by destruct (_extract_cached_input_tokens u). Qed.

(** How a stream is translated that ends with a completed response: the images of
    the items that came before. *)
Lemma streamed_texts clock before line payload after :
  let u := {| lines := before ++ line :: after; ending := None |} in
  Forall (none_of terminal_types) before → upstream_event line = Some (_UPSTREAM_RESPONSE_COMPLETED_EVENT, payload) →
  tr_raises (translate_responses_stream_to_images_stream is_edit clock u) = None →
  streamed_images is_edit (translate_responses_stream_to_images_stream is_edit clock u) = image_texts (arrived before)
  ∧ (existsb failed_item (image_items (arrived before)) = false →
     is_ok (_extract_image_usage (default [] (get_obj "response" payload))) = true
     ∧ ∀ u c, _extract_image_usage (default [] (get_obj "response" payload)) = Ok (Some u) → (_stash_image_usage_tokens c u).2 = None).
Proof.
  intros u Hb Hl Hr. assert (open is_edit translation_start) as H0 by (split_and!; constructor).
  destruct (translate_before before clock translation_start (line :: after) None H0 Hb) as
    [(clock' & t & E & Ho & Hf & Hp)|[(t & un & E & Ht & Hi & Hf)|(t & e & un & E)]].
  - assert (open is_edit (wait t)) as Hw by (unfold open; rewrite events_wait; exact Ho).
    unfold image_texts. rewrite Hf. cbn [translate_lines] in E. unfold translate_line in E. rewrite Hl in E.
    set (t1 := (wait t) {{ captured := _ }}) in E. assert (open is_edit t1) as Ho1 by exact Hw.
    assert (pending_completed_events t1 = pending_completed_events t) as Hp1 by done. clearbody t1.
    change (translate_event is_edit (clock' 0%nat) _UPSTREAM_RESPONSE_COMPLETED_EVENT payload t1) with (on_completed payload t1) in E. unfold on_completed in E.
    replace (match get_obj "response" payload with Some r => _extract_image_usage r | None => Ok None end)
      with (_extract_image_usage (default [] (get_obj "response" payload))) in E by (by destruct (get_obj "response" payload)).
    unfold translate_responses_stream_to_images_stream in Hr. cbn [lines ending u] in Hr. rewrite E in Hr.
    destruct (_extract_image_usage _) as [us|]; [|done]. pose proof (stash_same us t1) as Hs. destruct (stash us t1) as [t2 [e|]] eqn:Es; [done|].
    destruct Hs as (He2 & Hp2 & Ht2 & _). destruct Ho1 as (Hto & _ & _ & Hpart). rewrite Hp2, Hp1, Ht2, Hto in E. split.
    + change (omap img (pending_completed_events translation_start)) with (@nil string) in Hp. rewrite (app_nil_l _) in Hp. rewrite <- Hp.
      destruct (pending_completed_events t) as [|e es].
      * rewrite (streamed_of clock u _ _ E) by (by destruct t2). change (events (finish ?x)) with (events x). rewrite events_emit, omap_app, He2, (img_partials _ Hpart).
        by destruct is_edit.
      * rewrite (streamed_of clock u _ _ E) by done. change (omap img (events (emit_all (with_usage us (e :: es)) t2)) = omap img (e :: es)).
        by rewrite events_emit_all, omap_app, He2, (img_partials _ Hpart), img_usage.
    + intros _. split; [done|]. intros u' c [= ->]. unfold stash in Es. rewrite (stash_failure c (captured t1)). destruct (_stash_image_usage_tokens _ _).
      by injection Es.
  - split; [|by rewrite Hf]. unfold image_texts. rewrite Hf, <- Hi. by apply (streamed_of clock u _ _ E).
  - exfalso. unfold translate_responses_stream_to_images_stream in Hr. cbn [lines ending u] in Hr. by rewrite E in Hr.
Qed.

(** C40. A response that is sent completely gives the same images whether the client
    asked for a stream or not, if its items come one by one with their indexes in
    order before [response.completed], whose own output is empty, no
    [response.incomplete] follows it, and the translation does not raise. *)
Theorem streamed_as_collected clock now before line payload after :
  let u := {| lines := before ++ line :: after; ending := None |} in
  Forall (none_of terminal_types) before → in_order before →
  upstream_event line = Some (_UPSTREAM_RESPONSE_COMPLETED_EVENT, payload) → default [] (get_obj "response" payload ≫= get_list "output") = [] →
  Forall (none_of [_UPSTREAM_RESPONSE_INCOMPLETE_EVENT]) after →
  tr_raises (translate_responses_stream_to_images_stream is_edit clock u) = None →
  streamed_images is_edit (translate_responses_stream_to_images_stream is_edit clock u)
    = collected_images now (collect_responses_stream_for_images u).
Proof.
  intros u Hb (ks & Hk & Hs) Hl Hout Ha Hr. destruct (streamed_texts clock before line payload after Hb Hl Hr) as [Hst Hok]. fold u in Hst. rewrite Hst.
  destruct (collect_before before ks collecting_start (line :: after) None) as (c & E & (Hfb & Hfi & Hte) & Ho); [done..|].
  unfold collect_responses_stream_for_images. cbn [lines ending u]. rewrite E. cbn [collect_lines]. unfold collect_line. rewrite Hl.
  set (c1 := c {{ co_captured := _ }}). change (output_items collecting_start) with (@nil (Z * dict json)) in Ho. rewrite (app_nil_l _) in Ho.
  assert (length ks = length (arrived before)) as Hlen.
  { apply (f_equal length) in Hk. unfold indexes, arrived in *. by rewrite !length_map in *. }
  assert (merged_output c1 = map JObj (arrived before)) as Hm.
  { unfold merged_output. change (output_items c1) with (output_items c). change (fallback_items c1) with (fallback_items c).
    assert (map fst (zip ks (arrived before)) = ks) as H1 by (apply (fst_zip ks (arrived before)); lia).
    assert (map snd (zip ks (arrived before)) = arrived before) as H2 by (apply (snd_zip ks (arrived before)); lia).
    rewrite Hfb, Ho, app_nil_r, ordered_already by (by rewrite H1). rewrite <- H2 at 2. by rewrite map_map. }
  assert (completed_base payload c1 = dict_set (default [] (get_obj "response" payload)) "output" (JList (map JObj (arrived before)))) as Hbase.
  { unfold completed_base. rewrite Hm. destruct (get_obj "response" payload) as [r|]; cbn in *; [|done]. by destruct (get_list "output" r) as [[|? ?]|]. }
  assert (collect_event _UPSTREAM_RESPONSE_COMPLETED_EVENT payload c1 = collect_completed payload c1) as ->.
  { unfold collect_event. change (final_response c1) with (final_response c). by rewrite Hfi. }
  unfold collect_completed. rewrite Hbase, extract_with_output. set (base := default [] (get_obj "response" payload)) in *.
  set (c2 := c1 {{ final_response := _ }}).
  assert (∀ c3, final_response c3 = final_response c2 → terminal_error c3 = None → is_ok (_extract_image_usage base) = true →
    image_texts (arrived before) = collected_images now
      (let '(c, raises, unread) := collect_lines after None c3 in
       {| cl_result := match raises with Some e => Err e | None => Ok (verdict c) end; cl_captured := co_captured c; cl_unread := unread |})) as Hfin.
  { intros c3 Hf3 Ht3 Hex. destruct (collect_after after c3 _ None Ha Hf3 Ht3) as (c4 & -> & Hf4 & Ht4). unfold collected_images, verdict. cbn [cl_result].
    rewrite Ht4, Hf4. symmetry. by apply response_images. }
  destruct (_extract_image_usage base) as [[us|]|e] eqn:Eu.
  - destruct (_stash_image_usage_tokens (co_captured c2) us) as [cap [e|]] eqn:Est; [|by apply Hfin].
    unfold collected_images. cbn [cl_result]. unfold image_texts. destruct (existsb _ _); [done|]. destruct (Hok eq_refl) as [_ H].
    specialize (H us (co_captured c2) eq_refl). by rewrite Est in H.
  - by apply Hfin.
  - unfold collected_images. cbn [cl_result]. unfold image_texts. destruct (existsb _ _); [done|]. by destruct (Hok eq_refl) as [? _].
Qed.

End Agree.

(** ** Reservations *)

Definition closes (r : string) (a : act) : bool := match a with Release x | Finalize x _ _ _ _ => String.eqb x r | _ => false end.
Definition closings (r : string) (acts : list act) : nat := length (List.filter (closes r) acts).
(** When a reservation stays open: the database refuses to close it, an exception
    that no handler of the route expects escapes, a streamed body is never
    started, or its [finally] is interrupted because the client leaves. *)
Definition left_open (persists : bool) (leave : leaving) (resp : response) : bool :=
  negb persists ||
  match resp, leave with
  | Escapes _, _ => true
  | StreamAnswer _ _, NeverStarts => true
  | StreamAnswer _ _, Leaves _ interrupted => interrupted
  | _, _ => false
  end.

Lemma closings_app r a b : closings r (a ++ b) = (closings r a + closings r b)%nat.
Proof. unfold closings. by rewrite List.filter_app, length_app. Qed.
Lemma closings_log r c model : closings r (rewrite_log c model) = 0%nat.
Proof. unfold rewrite_log. by destruct (c_response_id c). Qed.
Lemma closings_release persists leave r resp : left_open true leave resp = false →
  let run := released_then persists (Some r) resp in closings r run.1 = if left_open persists leave run.2 then 0%nat else 1%nat.
Proof.
  intros H. unfold released_then, _release_reservation, stated, closings. destruct persists; [|done].
  cbn [fst snd List.filter closes]. by rewrite H, String.eqb_refl.
Qed.
Lemma closings_close persists r model c : closings r (close persists (Some r) model c) = if persists then 1%nat else 0%nat.
Proof.
  unfold close. rewrite closings_app, closings_log. unfold _finalize_image_reservation, _release_reservation, stated, closings.
  destruct persists; case_if; cbn; by rewrite ?String.eqb_refl.
Qed.

(** A collected response can be read. *)
Definition readable (c : collecting) : Prop := ∀ r, final_response c = Some r → is_ok (_extract_image_usage r) = true.

Lemma collect_line_readable l c : readable c →
  match collect_line l c with Gather c' | Stop c' => readable c' | Fail _ _ => True end.
Proof.
  intros Hc. unfold collect_line. destruct (upstream_event l) as [[ty payload]|]; [|done].
  set (c1 := c {{ co_captured := _ }}). assert (readable c1) as Hc1 by exact Hc. clearbody c1. unfold collect_event.
  case_if. { unfold collect_item. destruct (get_obj _ _); [|done]. by destruct (int_index _). }
  case_if. { unfold collect_completed. destruct (_extract_image_usage _) as [[u|]|e] eqn:E; [|by intros r [= <-]; rewrite E|done].
    destruct (_stash_image_usage_tokens _ _) as [cap [e|]]; [done|]. intros r [= <-]. by rewrite E. }
  case_if; [done|]. unfold unless_completed. repeat case_if; destruct (final_response c1); done.
Qed.

Lemma collected_readable ls en c : readable c →
  match collect_lines ls en c with (c', None, _) => readable c' | _ => True end.
Proof.
  revert c. induction ls as [|l ls IH]; intros c Hc; cbn [collect_lines]; [by destruct en|].
  pose proof (collect_line_readable l c Hc) as H. destruct (collect_line l c); [by apply IH|done..].
Qed.

Lemma collected_answer_returns now ls en c un e : collect_lines ls en collecting_start = (c, None, un) → collected_answer now (verdict c) ≠ Escapes e.
Proof.
  intros E. assert (readable c) as Hr.
  { pose proof (collected_readable ls en collecting_start ltac:(done)) as Hx. by rewrite E in Hx. }
  unfold verdict. destruct (terminal_error c); [done|]. destruct (final_response c) as [r|] eqn:Ef; [|done]. specialize (Hr r Ef). cbn.
  unfold images_response_from_responses. destruct (get_list _ _); [|done]. destruct (_select_image_items _); [done|]. destruct (List.find _ _); [done|].
  destruct (omap _ _); [done|]. by destruct (_extract_image_usage r).
Qed.

Lemma relay_closes persists is_edit streaming r model clock now leave u :
  let '(acts, resp) := relay_images persists is_edit streaming (Some r) model clock now leave u in
  closings r acts = if left_open persists leave resp then 0%nat else 1%nat.
Proof.
  assert (∀ status payload, left_open true leave (ErrorAnswer status payload) = false) as Herr by (by destruct leave).
  unfold relay_images. assert (∀ early, _prime_upstream_stream persists (Some r) u = Some early →
    closings r early.1 = if left_open persists leave early.2 then 0%nat else 1%nat) as Hp.
  { unfold _prime_upstream_stream. destruct (lines u), (ending u) as [[]|]; intros ? [= <-]; [by apply closings_release|by destruct persists]. }
  destruct (_prime_upstream_stream persists (Some r) u) as [[acts resp]|]; [exact (Hp _ eq_refl)|]. destruct streaming.
  - unfold stream_with_log_rewrite. destruct leave as [|k cut|]; [rewrite closings_close; by destruct persists| |by destruct persists].
    destruct (_ !! k), cut; cbn; rewrite ?closings_log, ?closings_close; by destruct persists.
  - unfold answer_collected, collect_responses_stream_for_images. destruct (collect_lines _ _ _) as [[c [e|]] un] eqn:E; cbn [cl_result cl_captured].
    + destruct e as [status payload|]; [|by destruct persists].
      pose proof (closings_release persists leave r (ErrorAnswer status payload) (Herr _ _)) as H. by destruct (released_then _ _ _).
    + rewrite closings_close. pose proof (λ e, collected_answer_returns now _ _ _ _ e E) as Hn.
      destruct (collected_answer now (verdict c)) as [| | |e] eqn:Ec; [by destruct persists, leave..| |by destruct (Hn e)].
      exfalso. revert Ec. unfold collected_answer. destruct (verdict c) as [x|x]; [|done]. by destruct (images_response_from_responses now x) as [[|]|].
Qed.

Section Routes.
Context (s : image_settings) (w : services) (api_key : option ApiKeyData) (clock : nat → Z) (now : Z) (leave : leaving).

(** The acts of a route, counted against the reservation [r]. *)
Definition balanced (r : string) (run : list act * response) : Prop :=
  closings r run.1
  = if existsb (λ a, match a with Reserve _ => true | _ => false end) run.1 && negb (left_open (persists w) leave run.2) then 1%nat else 0%nat.

Lemma proxy_balanced r is_edit refused build payload :
  (∀ m x, enforce_request_limits w m = Ok (Some x) → x = r) → (∀ m, enforce_request_limits w m ≠ Ok None) →
  (∀ e resp, refused e = Some resp → left_open true leave resp = false) →
  balanced r (proxy_images_request s w api_key clock now leave is_edit refused build payload).
Proof.
  intros Hr Hsome Hrefused. unfold balanced, proxy_images_request. destruct (checked_payload _ _ _ _) as [[p m]|]; [|done].
  destruct (enforce_request_limits w m) as [[x|]|] eqn:El; [|by destruct (Hsome m)|done]. apply Hr in El as ->.
  assert (∀ resp, left_open true leave resp = false → balanced r (let '(acts, r0) := released_then (persists w) (Some r) resp in ([Reserve m] ++ acts, r0))) as Hrel.
  { intros resp H. pose proof (closings_release (persists w) leave r resp H) as Hc. destruct (released_then _ _ _) as [acts resp']. unfold balanced.
    cbn [fst snd] in *. rewrite closings_app, Hc. cbn. by destruct (left_open _ _ resp'). }
  destruct (build p) as [members|e].
  - destruct (model_validate w members) as [request|loc]; [|apply Hrel; by destruct leave].
    pose proof (relay_closes (persists w) is_edit (stream p) r (default "" (v_model p)) clock now leave (stream_responses w request)) as H.
    destruct (relay_images _ _ _ _ _ _ _ _ _) as [acts resp]. cbn [fst snd]. rewrite !closings_app, H. cbn. by destruct (left_open _ leave resp).
  - destruct (refused e) as [resp|] eqn:Er; [by apply Hrel, (Hrefused e)|]. cbn. by destruct (persists w).
Qed.

(** C37. A route that reserved usage for an API key closes the reservation at most
    once, and exactly once if the database takes the statement, no unexpected
    exception escapes, and the streamed body is started and not interrupted in
    its [finally] by a client that leaves; in each of these cases it stays
    open. *)
Theorem image_reservation_closed r payload images mask :
  (∀ m x, enforce_request_limits w m = Ok (Some x) → x = r) → (∀ m, enforce_request_limits w m ≠ Ok None) →
  balanced r (_proxy_images_generation_request s w api_key clock now leave payload)
  ∧ balanced r (_proxy_images_edit_request s w api_key clock now leave images mask payload).
Proof.
  intros Hr Hsome. split; apply proxy_balanced; try done. unfold refused_edit. intros e resp.
  destruct e as [|m]; [done|]. repeat (match goal with |- context [match ?x with _ => _ end] => destruct x; try done end). by intros [= <-].
Qed.

(** *** What is asked upstream *)

(** Nothing is asked by what closes a reservation, nor after the upstream was
    asked. *)
Definition asks_nothing (acts : list act) : Prop := ∀ request, AskUpstream request ∉ acts.

Lemma log_asks c model : asks_nothing (rewrite_log c model).
Proof. intros request. unfold rewrite_log. destruct (c_response_id c); rewrite ?elem_of_cons, elem_of_nil; naive_solver. Qed.
Lemma close_asks ok r model c : asks_nothing (close ok r model c).
Proof.
  intros request. unfold close. rewrite elem_of_app. intros [H|H]; [by apply log_asks in H|]. revert H.
  unfold _finalize_image_reservation, _release_reservation, stated.
  destruct r; cbn; [|by rewrite elem_of_nil]. case_if; destruct ok; rewrite ?elem_of_cons, elem_of_nil; naive_solver.
Qed.
Lemma release_asks ok r resp : asks_nothing (released_then ok r resp).1.
Proof.
  intros request. unfold released_then, _release_reservation, stated. destruct r, ok; cbn; rewrite ?elem_of_cons, elem_of_nil; naive_solver.
Qed.
Lemma relay_asks ok is_edit streaming r model u : asks_nothing (relay_images ok is_edit streaming r model clock now leave u).1.
Proof.
  assert (asks_nothing []) as Hnil by (intros request; apply not_elem_of_nil). unfold relay_images, _prime_upstream_stream.
  assert (∀ t, asks_nothing (stream_with_log_rewrite ok r model leave t).1) as Hs.
  { intros t. unfold stream_with_log_rewrite. destruct leave as [|k cut|]; [apply close_asks| |done].
    destruct (_ !! k), cut; first [apply close_asks|apply log_asks]. }
  assert (∀ t, asks_nothing (answer_collected ok r model now t).1) as Ha.
  { intros t. unfold answer_collected. destruct (cl_result t) as [|[]]; [apply close_asks|apply release_asks|done]. }
  destruct (lines u), (ending u) as [[]|]; try done; try apply release_asks; destruct streaming; (apply Hs || apply Ha).
Qed.

(** What is asked upstream was checked, built and validated. *)
Lemma proxy_asks is_edit refused build payload request :
  AskUpstream request ∈ (proxy_images_request s w api_key clock now leave is_edit refused build payload).1 →
  ∃ p m members, checked_payload s api_key is_edit payload = Ok (p, m) ∧ build p = Ok members ∧ model_validate w members = Ok request.
Proof.
  unfold proxy_images_request. destruct (checked_payload _ _ _ _) as [[p m]|] eqn:Hc; [|by intros ?%elem_of_nil].
  destruct (enforce_request_limits w m) as [reservation|]; [|by intros ?%elem_of_nil].
  set (reserved := match reservation with Some _ => _ | None => _ end). assert (asks_nothing reserved) as Hres.
  { intros x. unfold reserved. destruct reservation; rewrite ?elem_of_cons, elem_of_nil; naive_solver. }
  assert (∀ resp, AskUpstream request ∉ (let '(acts, r) := released_then (persists w) reservation resp in (reserved ++ acts, r)).1) as Hrel.
  { intros resp. pose proof (release_asks (persists w) reservation resp request) as H. destruct (released_then _ _ _) as [acts r]. cbn [fst] in *.
    rewrite elem_of_app. intros [?%Hres|?]; done. }
  destruct (build p) as [members|e] eqn:Hb; [|destruct (refused e); [by intros ?%Hrel|by intros ?%Hres]].
  destruct (model_validate w members) as [request'|loc] eqn:Hm; [|by intros ?%Hrel].
  pose proof (relay_asks (persists w) is_edit (stream p) reservation (default "" (v_model p)) (stream_responses w request') request) as Hr.
  destruct (relay_images _ _ _ _ _ _ _ _ _) as [acts resp]. cbn [fst] in *. rewrite !elem_of_app, list_elem_of_singleton.
  intros [?%Hres|[[= ->]|?]]; [done| |done]. eauto 10.
Qed.

Lemma checked_model is_edit payload p m : checked_payload s api_key is_edit payload = Ok (p, m) →
  m = _effective_model_for_api_key api_key (or_s (v_model payload) (images_default_model s)) ∧ p = payload {{ v_model := Some m }}
  ∧ accepted m is_edit (images_max_partial_images s) payload ∧ validate_model_access api_key (Some m) = Ok tt.
Proof.
  unfold checked_payload. set (model := _effective_model_for_api_key api_key _).
  destruct (negb (is_supported_image_model model)) eqn:Hsup; [done|]. apply negb_false_iff in Hsup. unfold validate_payload, resolve_public_image_model.
  replace (or_s (v_model (payload {{ v_model := Some model }})) (images_default_model s)) with model by (clearbody model; destruct payload; by destruct model).
  rewrite Hsup. cbn [negb refuse_if res_bind].
  destruct (validate_image_request_parameters _ _ _ _) as [[]|[]] eqn:Hv; cbn [res_bind]; [|done..].
  destruct (validate_model_access api_key (Some model)) as [[]|] eqn:Ha; [|done]. intros [= <- <-]. split_and!; [done|by destruct payload| |done].
  apply accepted_spec in Hv. by destruct payload.
Qed.

(** A request that may go upstream: its model is the one the API key enforces, the
    model takes its parameters, the key may use it, and the tool is called with
    that model and size. *)
Definition vetted (is_edit : bool) (payload : V1ImagesRequest) (request : dict json) : Prop :=
  ∃ model tool members,
    model = _effective_model_for_api_key api_key (or_s (v_model payload) (images_default_model s))
    ∧ accepted model is_edit (images_max_partial_images s) payload ∧ validate_model_access api_key (Some model) = Ok tt
    ∧ model_validate w members = Ok request ∧ get_list "tools" members = Some [JObj tool]
    ∧ get_str "model" tool = Some model ∧ get_str "size" tool = Some (size payload).

(** C38. A generation or an edit goes upstream only for the model the API key
    enforces, if that model takes its parameters as the code checks them and the
    key may use it; the tool is given that model and the size that was checked. *)
Theorem image_request_vetted payload images mask request :
  (AskUpstream request ∈ (_proxy_images_generation_request s w api_key clock now leave payload).1 → vetted false payload request)
  ∧ (AskUpstream request ∈ (_proxy_images_edit_request s w api_key clock now leave images mask payload).1 → vetted true payload request).
Proof.
  split; intros (p & m & members & Hc & Hb & Hm)%proxy_asks; apply checked_model in Hc as (-> & -> & Hacc & Haccess); revert Hb;
    set (model := _effective_model_for_api_key api_key _) in *.
  - unfold images_generation_to_responses_request, _build_image_generation_tool.
    change (v_model (payload {{ v_model := Some model }})) with (Some model). change (n (payload {{ v_model := Some model }})) with (n payload).
    destruct Hacc as (Hn & Hrest) eqn:E. rewrite Hn. cbn [negb Z.eqb Pos.eqb res_bind]. intros [= <-].
    eexists model, _, _. split_and!; [done|exact Hacc|done|exact Hm|done..].
  - unfold images_edit_to_responses_request, _build_image_generation_tool. destruct images as [|i images]; [done|].
    change (v_model (payload {{ v_model := Some model }})) with (Some model). change (n (payload {{ v_model := Some model }})) with (n payload).
    destruct Hacc as (Hn & Hrest) eqn:E. rewrite Hn. cbn [negb Z.eqb Pos.eqb res_bind]. intros [= <-].
    eexists model, _, _. split_and!; [done|exact Hacc|done|exact Hm|done..].
Qed.

End Routes.

(** After a completed response, an incomplete one that comes late does not change
    what a streaming client is shown, and turns the answer of the other client
    into an error, although the tokens are charged.  A late failure and a late
    error are ignored in both. *)
Theorem late_incomplete_charged is_edit clock r model now before line payload us i late payload' after :
  let u := {| lines := before ++ line :: late :: after; ending := None |} in
  Forall (none_of terminal_types) before → in_order before →
  upstream_event line = Some (_UPSTREAM_RESPONSE_COMPLETED_EVENT, payload) → upstream_event late = Some (_UPSTREAM_RESPONSE_INCOMPLETE_EVENT, payload') →
  _extract_image_usage (default [] (get_obj "response" payload)) = Ok (Some us) → is_ok (_extract_cached_input_tokens us) = true →
  input_tokens us = Some i → i ≠ 0%Z →
  tr_raises (translate_responses_stream_to_images_stream is_edit clock u) = None →
  streamed_images is_edit (translate_responses_stream_to_images_stream is_edit clock u) = image_texts (arrived before)
  ∧ ∃ acts o c, answer_collected true (Some r) model now (collect_responses_stream_for_images u)
      = (acts ++ [Finalize r model i o c],
         ErrorAnswer 502 (generation_failed "Upstream response was incomplete before the image was generated")).
Proof.
  intros u Hb (ks & Hk & Hs) Hl Hlate Hus Hcached Hi Hne Hr. split.
  { exact (proj1 (streamed_texts is_edit clock before line payload (late :: after) Hb Hl Hr)). }
  destruct (collect_before before ks collecting_start (line :: late :: after) None) as (c & E & (_ & Hfi & Hte) & _); [done..|].
  unfold collect_responses_stream_for_images. cbn [lines ending u]. rewrite E. cbn [collect_lines]. unfold collect_line. rewrite Hl.
  set (c1 := c {{ co_captured := _ }}).
  assert (collect_event _UPSTREAM_RESPONSE_COMPLETED_EVENT payload c1 = collect_completed payload c1) as ->.
  { unfold collect_event. change (final_response c1) with (final_response c). by rewrite Hfi. }
  unfold collect_completed. set (c2 := c1 {{ final_response := _ }}).
  assert (_extract_image_usage (completed_base payload c1) = Ok (Some us)) as ->.
  { unfold completed_base. destruct (get_list "output" _) as [[|? ?]|]; by rewrite ?extract_with_output. }
  unfold _stash_image_usage_tokens. destruct (_extract_cached_input_tokens us) as [cached|]; [|done]. rewrite Hi. cbn [or_kept]. rewrite Hlate.
  match goal with |- context [collect_event _ payload' ?x] => set (c3 := x) end.
  assert (terminal_error c3 = None) as Ht3 by exact Hte.
  assert (collect_event _UPSTREAM_RESPONSE_INCOMPLETE_EVENT payload' c3
          = Stop (c3 {{ terminal_error := Some (generation_failed "Upstream response was incomplete before the image was generated") }})) as ->.
  { unfold collect_event. by rewrite Ht3. }
  unfold answer_collected. cbn [cl_result cl_captured verdict terminal_error]. unfold close. eexists _, _, _. f_equal. f_equal.
  change (image_input_tokens _) with (image_input_tokens (co_captured c3)).
  assert (image_input_tokens (co_captured c3) = Some i) as ->.
  { unfold c3. cbn. unfold capture_id. by destruct (c_response_id _). }
  unfold _finalize_image_reservation, truthy_z, or_z. by rewrite (proj2 (Z.eqb_neq _ _) Hne).
Qed.

(** ** Samples *)

Lemma none_of_check types ls :
  forallb (λ l, match upstream_event l with Some (ty, _) => negb (mem ty types) | None => true end) ls = true → Forall (none_of types) ls.
Proof.
  intros H. rewrite forallb_forall in H. apply Forall_forall. intros l Hl. specialize (H l (proj1 (list_elem_of_In _ _) Hl)). unfold none_of.
  destruct (upstream_event l) as [[ty p]|]; [|done]. by apply negb_true_iff, mem_false in H.
Qed.

Definition item_line (i : Z) (b64 : string) : string :=
  format_sse_event [("type", JStr "response.output_item.done"); ("output_index", JInt i);
                    ("item", JObj [("type", JStr "image_generation_call"); ("status", JStr "completed"); ("result", JStr b64)])].
Definition partial_line : string :=
  format_sse_event [("type", JStr "response.image_generation_call.partial_image"); ("partial_image_b64", JStr "cGFydA==")].
Definition sample_usage : dict json := [("input_tokens", JInt 5); ("output_tokens", JInt 7)].
Definition completed_payload : dict json :=
  [("type", JStr "response.completed");
   ("response", JObj [("id", JStr "resp_1"); ("tool_usage", JObj [("image_gen", JObj sample_usage)])])].
Definition incomplete_payload : dict json := [("type", JStr "response.incomplete")].
Definition before_end : list string := [partial_line; item_line 0 "b25l"; "data: {}"; item_line 2 "dHdv"].

Lemma before_end_in_order : in_order before_end.
Proof. exists [0%Z; 2%Z]. split; [by vm_compute|]. repeat constructor. Qed.

Lemma image_part_roundtrip_witness :
  get_str "image_url" (_build_input_image_part "Hi!" (Some " image/jpeg ")) = Some "data:image/jpeg;base64,SGkh"
  ∧ decode_data_url "data:image/jpeg;base64,SGkh" = Ok ("Hi!", Some "image/jpeg").
Proof. split; [by vm_compute|]. exact (image_part_roundtrip "Hi!" (Some " image/jpeg ") ltac:(done) ltac:(by vm_compute)). Defined.

Lemma streamed_as_collected_witness :
  let u := {| lines := before_end ++ format_sse_event completed_payload :: ["data: [DONE]"]; ending := None |} in
  collected_images 9 (collect_responses_stream_for_images u) = ["b25l"; "dHdv"]
  ∧ streamed_images false (translate_responses_stream_to_images_stream false (λ _, 8%Z) u) = collected_images 9 (collect_responses_stream_for_images u).
Proof.
  intros u. split; [by vm_compute|].
  apply (streamed_as_collected false (λ _, 8%Z) 9 before_end (format_sse_event completed_payload) completed_payload ["data: [DONE]"]);
    [apply none_of_check; by vm_compute|exact before_end_in_order|by vm_compute|by vm_compute|apply none_of_check; by vm_compute|by vm_compute].
Defined.

Definition sample_image_usage : V1ImageUsage :=
  {| input_tokens := Some 5%Z; output_tokens := Some 7%Z; total_tokens := Some 12%Z; input_tokens_details := None; output_tokens_details := None; extra_usage := [] |}.

Lemma late_incomplete_charged_witness :
  let u := {| lines := before_end ++ format_sse_event completed_payload :: format_sse_event incomplete_payload :: []; ending := None |} in
  streamed_images false (translate_responses_stream_to_images_stream false (λ _, 8%Z) u) = ["b25l"; "dHdv"]
  ∧ ∃ acts o c, answer_collected true (Some "ur_1") "gpt-image-2" 9 (collect_responses_stream_for_images u)
      = (acts ++ [Finalize "ur_1" "gpt-image-2" 5 o c],
         ErrorAnswer 502 (generation_failed "Upstream response was incomplete before the image was generated")).
Proof.
  apply (late_incomplete_charged false (λ _, 8%Z) "ur_1" "gpt-image-2" 9 before_end (format_sse_event completed_payload) completed_payload sample_image_usage 5
           (format_sse_event incomplete_payload) incomplete_payload []);
    [apply none_of_check; by vm_compute|exact before_end_in_order|by vm_compute..].
Defined.

Definition sample_settings : image_settings :=
  {| images_host_model := "gpt-5.5"; images_default_model := "gpt-image-2"; images_max_partial_images := 3 |}.
Definition sample_services : services :=
  {| model_validate := λ m, Ok m; enforce_request_limits := λ _, Ok (Some "ur_1");
     stream_responses := λ _, {| lines := before_end ++ [format_sse_event completed_payload]; ending := None |}; persists := true |}.
Definition sample_image_request : V1ImagesRequest :=
  {| v_model := None; prompt := "a cat"; n := 1; size := "1024x1024"; quality := "auto"; background := "auto"; output_format := "png";
     output_compression := 100; moderation := "auto"; partial_images := None; stream := true; input_fidelity := None; user := None |}.

Lemma image_reservation_closed_witness :
  let run leave := _proxy_images_generation_request sample_settings sample_services None (λ _, 8%Z) 9 leave sample_image_request in
  (run (Leaves 6 false)).1 !! 3%nat = Some (Finalize "ur_1" "gpt-image-2" 5 7 0)
  ∧ balanced sample_services (Leaves 6 false) "ur_1" (run (Leaves 6 false))
  ∧ closings "ur_1" (run (Leaves 6 true)).1 = 0%nat ∧ balanced sample_services (Leaves 6 true) "ur_1" (run (Leaves 6 true)).
Proof.
  split; [by vm_compute|].
  assert (∀ m x, enforce_request_limits sample_services m = Ok (Some x) → x = "ur_1") as H1 by (by intros m x [= <-]).
  assert (∀ m, enforce_request_limits sample_services m ≠ Ok None) as H2 by done.
  split; [apply (image_reservation_closed sample_settings sample_services None (λ _, 8%Z) 9 (Leaves 6 false) "ur_1" sample_image_request [] None); done|].
  split; [by vm_compute|].
  apply (image_reservation_closed sample_settings sample_services None (λ _, 8%Z) 9 (Leaves 6 true) "ur_1" sample_image_request [] None); done.
Defined.

Lemma image_request_vetted_witness : ∃ request request',
  AskUpstream request ∈ (_proxy_images_generation_request sample_settings sample_services None (λ _, 8%Z) 9 Stays sample_image_request).1
  ∧ vetted sample_settings sample_services None false sample_image_request request
  ∧ AskUpstream request' ∈ (_proxy_images_edit_request sample_settings sample_services None (λ _, 8%Z) 9 Stays [("png", None)] None sample_image_request).1
  ∧ vetted sample_settings sample_services None true sample_image_request request'.
Proof.
  assert (∃ request, AskUpstream request ∈ (_proxy_images_generation_request sample_settings sample_services None (λ _, 8%Z) 9 Stays sample_image_request).1)
    as [request H].
  { eexists. apply (list_elem_of_lookup_2 _ 1%nat). vm_compute. reflexivity. }
  assert (∃ request, AskUpstream request ∈ (_proxy_images_edit_request sample_settings sample_services None (λ _, 8%Z) 9 Stays [("png", None)] None
    sample_image_request).1) as [request' H'].
  { eexists. apply (list_elem_of_lookup_2 _ 1%nat). vm_compute. reflexivity. }
  exists request, request'. split; [exact H|].
  split; [exact (proj1 (image_request_vetted sample_settings sample_services None (λ _, 8%Z) 9 Stays sample_image_request [] None request) H)|].
  split; [exact H'|].
  exact (proj2 (image_request_vetted sample_settings sample_services None (λ _, 8%Z) 9 Stays sample_image_request [("png", None)] None request') H').
Defined.

End ImagesFacts.
